(* ===== verification/_CoqProject ===== *)
-Q . S2P
Prelude.v
Handshake.v
Session.v
Group.v
Sas.v
Gf256.v
Qr.v
PairingWire.v
Provisioning.v
Vault.v
Lifetime.v
Idb.v
Transport.v
Json.v
FileTransfer.v
CallSession.v
Integrity.v
Auth.v
Channel.v
GroupChannel.v
ChannelLogic.v
GroupChannelFacts.v
SelfGroup.v
Welcomes.v
Contacts.v
ContactsLogic.v
ContactsFacts.v
DeviceSync.v
RichText.v
Pictures.v
RichTextFacts.v
Html.v
IdentityCard.v
Transcript.v
Controller.v
ControllerFacts.v
Conversations.v
ViewsChat.v
ConversationsFacts.v
GroupQueries.v
Program.v
BuddySetup.v
ViewsBuddies.v
ViewsForms.v
ViewsAppearance.v
Shell.v
BuddySetupFacts.v
BuddyListFacts.v
TabSession.v
Live.v
LiveFacts.v
LivePair.v
SignIn.v
SignInFacts.v
Windows.v
WindowsFacts.v
Reconnect.v
DeviceCare.v
DeviceCareFacts.v
WorkerProxy.v
Boot.v
