(* ===== verification/Prelude.v ===== *)
(** * DEAD DROP client: a verification library

    DEAD DROP is an end-to-end encrypted messenger.  The client (client/src, TypeScript) holds all
    keys; a Go gateway relays ciphertext, a PHP control plane keeps the account directory, and a Rust
    core compiled to WebAssembly does MLS.  This library models the client's own logic.  The wasm
    core, the browser (WebCrypto, IndexedDB, WebRTC, sockets, clock, random source) and the servers
    are parameters: classes of operations, with the laws the client relies on stated separately and
    instantiated by toy worlds in the witnesses.

    ** How the code is translated

    A method is a state transformer [M S A] that keeps the writes made before a throw ([let!], [do!]);
    a function that can throw returns a [result] ([let?]).  JavaScript strings are byte strings (the
    code's strings are ASCII but for user text, which goes through TextEncoder); typed arrays are
    lists of integers in 0..255 with out-of-range reads and writes as in JavaScript; a Map is an
    association list in insertion order ([JsMap]).  A class that awaits is cut at its awaits: each
    span that runs without interruption is one step, the await leaves a task (the continuation as
    data), a scheduled callback a timer, and a run is any sequence of operations, settlements and
    timer ticks.  What the code asks of its host is a log of effects.

    ** The parts, bottom up

    - Session.v (session.ts, index.ts): message frames ([Frame]), padding to buckets ([Padding]), and the
      1:1 [Sessions], whose send gate is the handshake of Handshake.v (handshake.ts).
    - Group.v (group.ts): the list codec of the wasm boundary, the decoder of what [receive] returns,
      the view of one conversation ([GroupSessions]) over the class [GroupApi].
    - Sas.v (sas.ts), Gf256.v and Qr.v (qr.ts), PairingWire.v and Provisioning.v (provisioning.ts): the words
      compared out of band, the QR encoder with a reader written from the standard, and the two
      ceremonies that add a device to an account.
    - Vault.v (vault.ts), Lifetime.v (lifetime.ts), Idb.v (idb.ts): sealed records, countdowns and
      burn-on-read, and the stores.  Lifetime.v is proved against the interface [KeyvaultStore] with
      [KeyvaultLaws], which Idb.v implements.
    - Transport.v (transport.ts): the paced publisher under the socket.
    - Json.v, FileTransfer.v (filetransfer.ts), CallSession.v (callsession.ts): peer-to-peer transfers and
      calls, with heap objects where a handler may hold a replaced one.
    - Integrity.v (integrity.ts, appversion.ts), Auth.v (auth.ts): the signed bundle and the account
      client.
    - Channel.v, GroupChannel.v (groupchannel.ts): the class that drives all conversations of a device
      over one connection, with its promise chains, timers and tasks; it uses [GroupSessions], the
      frames and the short authentication strings.  ChannelLogic.v walks once through all its
      operations; GroupChannelFacts.v, SelfGroup.v and Welcomes.v use the walk.
    - Contacts.v (the contact graph of controller.ts): the buddy list, the buddy groups, the verified
      keys, the handles of conversations and the block list.  A method is a program whose loads, saves and
      other calls are its steps, so that it runs alone or interleaved with others; plain objects used as
      dictionaries keep their inherited names and their enumeration order ([JsObj]).  ContactsLogic.v is
      the logic of these programs, ContactsFacts.v and DeviceSync.v have the theorems.
    - RichText.v, Pictures.v, RichTextFacts.v (the pure functions of app.ts, specials.ts): message text to
      HTML and back from the editor, the picture gate with its header parsers and what a picture declares
      by the formats themselves, the message look, appearance packs.
    - IdentityCard.v (controller.ts): the sealed card of this account with its write chain as a step
      relation, the cache of peers' cards, the away replies.
    - Transcript.v (controller.ts openChannel, app.ts renderEntry and renderTrustBadge): what a view does to
      the stored messages, what it shows, and how that is rendered.
    - Controller.v, ControllerFacts.v (controller.ts): the object the worker exposes, its memory over the
      modelled stores; login, settings, recovery seed.  It asks and commands the group channel through the
      classes [GroupView] and [GroupCommands].
    - Conversations.v, ConversationsFacts.v (controller.ts): the channel list, opening, unsending, blocking
      and removing; proved against [GroupQuestions].  GroupQueries.v shows that GroupChannel.v meets it
      and states the two together.  A method runs to its end; the sealed records, the rows and the
      messages are object stores of one database, kept apart as the source keeps them.
    - WorkerProxy.v (workerproxy.ts, worker.js): the two ends of the wire between page and worker, with the
      table of the methods and the table of the operations.
    - Boot.v (boot.js, public/sw.js, scripts/pin-sw.mjs): the pinned build from the deploy script to the
      service worker's caches and the page's start.
    - Program.v: programs of a page, whose steps are questions to the account server and the worker; an
      environment answers them and may change the page while a program waits.  [must] is the logic in
      which the theorems about them are proved.
    - Reconnect.v, DeviceCare.v, DeviceCareFacts.v (app.ts): the state of the link with its timers and the
      ways in (login, registration, wizard) as a step function, and the passes that bring an account's
      devices together, as such programs.
    - BuddySetup.v, BuddySetupFacts.v (app.ts): the screen that edits the buddy list as a draft, and Save as
      the calls it makes to Contacts.v.
    - TabSession.v (app.ts): the storage of a tab, and the link that names a contact.
    - Live.v, LiveFacts.v, LivePair.v (live.ts): the pairwise predecessor of the group channel, over the
      sessions of Session.v, and two of them with the frames between them.
    - SignIn.v, SignInFacts.v (app.ts): login, registration, recovery, adding this device, its check
      against the account server, wiping and self destruct, and conversations started from names.
      It keeps one view; the windows are
    - Windows.v, WindowsFacts.v (app.ts): the live window and those put aside, as a step function over
      operations and late answers.
    - Html.v, ViewsChat.v, ViewsBuddies.v, ViewsForms.v, ViewsAppearance.v, Shell.v (app.ts): what each view
      renders, as the string the code builds, with a scanner that reads it back as HTML; Shell.v puts the
      views into the page.  BuddyListFacts.v is about the rows of the buddy list.

    ** What the theorems show

    - Consent and identity: the gate of a conversation opens only after both sides agreed; a changed
      key drops the message and blocks; every certified device is the one whose words were shown
      or whose code was scanned; equal phrases have equal bits.
    - Confidentiality of metadata: the contact graph is encrypted only for groups of our own devices;
      the padded length shows only the bucket; with history off nothing is added to disk.
    - Ephemerality: a burn-on-read message is opened once, in one tab; a viewed message dies on
      time; the sweep erases exactly the overdue; an interrupted panic wipe has already killed the keys;
      an unsend is reported only after the gateway's receipt.
    - Delivery and convergence: published frames are not lost while the buffer holds; the queue
      drains; nothing the channel waits for waits for ever; unacknowledged Welcomes are replayed a
      bounded number of times; the devices of an account elect one of them, and choose the same
      self-group, without a message; their buddy lists converge whatever the order of the frames, and
      sending on what was heard comes to an end.
    - The pairwise channel: a pasted contact becomes an open channel and a text arrives as it was written; a
      delivery is acknowledged only when it is stored; an open channel is pinned to the key it shows.
    - The contact graph: the list refines a finite map; what is saved is what is loaded; a pinned key
      has a source; no version runs more than a day ahead of the clock; the setup screen saves exactly
      the draft it shows.
    - What the user sees: a message becomes balanced tags of a fixed grammar whatever its text; a VERIFIED
      badge means the pinned key is the one the core names; a view shows only its own conversation; groups
      of our own devices are neither listed, blocked nor closed; an unsend erases last.
    - The account: the recovery seed is made and shown once; settings and the history choice survive a
      login; the writes of the identity card are serial.
    - Codecs: the frames, lists, sealed records, pairing payloads and QR symbols round-trip; decoding is
      total on hostile input or throws exactly where stated.
    - The page and its build: only bytes with the pinned digest are cached and served, an update is whole or
      not at all, the reload to a new build happens at most once; each call of the worker is settled once
      and with its own answer, and reaches the operation of its name.
    - Staying connected: a link that is down has its next retry scheduled, unless it was down already when a
      registration signed in; the waits double and are bounded, waking a tab is throttled; a pass over the
      devices holds its latch and always gives it back; mints that fail stop claiming key packages, and a device other than the designated one forms
      the group when its window is over.
    - Signing in: a login is fail-closed; one registration runs at a time; the account is deleted before
      the vault is erased, and a wipe always reloads; a contact link is read back as it was made and
      taken once; a group is opened with every device of its people once.
    - The desktop: no window put aside holds decrypted text; every window has a key of its own however
      late the answers come.
    - The screens: every page is well-formed HTML in which no text of a user, a peer or a pack opens a tag or
      an attribute; a value of a pack is an inert piece of CSS; the buddy list shows every contact once.
    - Runs that go wrong are theorems too: each is a concrete run of the model in which the code does
      not do what its comments say.

    ** Bounds

    Recursion that is not structural has fuel that is proved or seen to be enough: one turn per byte
    for [decode_items] ([decodeListAt_fuel]), one per map entry for [drop_oldest], one per module
    for the QR placement, one per character for the message formatter ([format_loop_fuel]), one per byte
    for the JPEG scan, 35 turns for the poll for a new build (its deadline over its interval), and the
    documented attempt limit for the proof of work.  Machine integers are
    [Z] with the wrap-around of [>>> 0] and [& 255] written out.

    ** Not modelled

    Of app.ts the DOM: the wiring of events to the handlers, the editing commands inside the editors, the
    camera, and the geometry of windows.  wsadapter.ts (browser socket and generated
    protobuf code), persist.ts and qrdecode.ts (one browser call, a vendored decoder).  Of controller.ts
    the methods that hand their arguments to the group channel and return its answer, and the
    constructor that wires the callbacks; a method of Controller.v and Conversations.v runs to its end, interleavings are modelled where they matter
    (Contacts.v, IdentityCard.v).  Of groupchannel.ts the provisioning wrappers are left out: the channel
    is modelled with no pairing in progress, the ceremony itself in Provisioning.v.  The
    Rust core, the gateway and the control plane are other programs; their documented behaviour is a
    hypothesis where it is needed. *)

From Stdlib Require Export ZArith Lia.
From Stdlib Require Export Ascii.
From stdpp Require Export base tactics list strings gmap sorting.

#[export] Set Default Goal Selector "!".
#[global] Open Scope char_scope.
#[global] Open Scope string_scope.
#[global] Open Scope list_scope.
#[global] Open Scope Z_scope.

(** ** Exceptions

    A JavaScript function either returns or throws.  [RangeError] is what typed arrays and
    [DataView] throw on an access outside the buffer; [JsError m] is [new Error(m)] and its
    subclasses, with the message the source gives. *)
Inductive exn :=
  | RangeError
  | JsError (msg : string).

Inductive result (A : Type) :=
  | Ok (a : A)
  | Throw (e : exn).
Arguments Ok {_} _.
Arguments Throw {_} _.

#[export] Instance exn_eq_dec : EqDecision exn.
Proof. solve_decision. Defined.

#[export] Instance result_eq_dec `{EqDecision A} : EqDecision (result A).
Proof. solve_decision. Defined.

#[export] Instance Ok_inj A : Inj (=) (=) (@Ok A).
Proof. by intros x y [=]. Qed.

Definition rbind {A B} (m : result A) (k : A -> result B) : result B :=
  match m with Ok a => k a | Throw e => Throw e end.

Definition rmap {A B} (f : A -> B) (m : result A) : result B :=
  match m with Ok a => Ok (f a) | Throw e => Throw e end.

(** [try { Some(m) } catch { None }] *)
Definition catch {A} (m : result A) : option A :=
  match m with Ok a => Some a | Throw _ => None end.

(** ** Stateful methods

    A method of a mutable object is a state transformer that keeps the writes made before a
    throw: [M S A] is [S -> result A * S]. *)
Definition M (S A : Type) : Type := S -> result A * S.

Definition ret {S A} (a : A) : M S A := fun s => (Ok a, s).
Definition throw {S A} (e : exn) : M S A := fun s => (Throw e, s).
Definition bind {S A B} (m : M S A) (k : A -> M S B) : M S B :=
  fun s => match m s with
           | (Ok a, s') => k a s'
           | (Throw e, s') => (Throw e, s')
           end.
Definition get {S} : M S S := fun s => (Ok s, s).
Definition gets {S A} (f : S -> A) : M S A := fun s => (Ok (f s), s).
Definition modify {S} (f : S -> S) : M S unit := fun s => (Ok tt, f s).
Definition of_result {S A} (r : result A) : M S A := fun s => (r, s).

(** [try { m } catch (e) { h(e) }] *)
Definition try_catch {S A} (m : M S A) (h : exn -> M S A) : M S A :=
  fun s => match m s with
           | (Ok a, s') => (Ok a, s')
           | (Throw e, s') => h e s'
           end.

(** Run a method of a component held in a field of a larger state. *)
Definition zoom {S T A} (proj : S -> T) (upd : T -> S -> S) (m : M T A) : M S A :=
  fun s => let '(r, t) := m (proj s) in (r, upd t s).

(** A loop over the elements of an array, in order. *)
Fixpoint for_each {S A} (l : list A) (body : A -> M S unit) : M S unit :=
  match l with
  | [] => ret tt
  | x :: l' => bind (body x) (fun _ => for_each l' body)
  end.

Declare Scope js_scope.
Delimit Scope js_scope with js.
Notation "'let!' x := m 'in' k" := (bind m (fun x => k))
  (at level 10, x name, m at level 200, k at level 200) : js_scope.
Notation "'let!' ' p := m 'in' k" := (bind m (fun x => match x with p => k end))
  (at level 10, p pattern, m at level 200, k at level 200) : js_scope.
Notation "'do!' m 'in' k" := (bind m (fun _ => k))
  (at level 10, m at level 200, k at level 200) : js_scope.
Notation "'let?' x := m 'in' k" := (rbind m (fun x => k))
  (at level 10, x name, m at level 200, k at level 200) : js_scope.
Open Scope js_scope.

Lemma bind_ret_l {S A B} (a : A) (k : A -> M S B) s : bind (ret a) k s = k a s.
Proof. reflexivity. Qed.

Lemma bind_assoc {S A B C} (m : M S A) (k : A -> M S B) (h : B -> M S C) s :
  bind (bind m k) h s = bind m (fun a => bind (k a) h) s.
Proof. unfold bind. by destruct (m s) as [[]]. Qed.

Lemma bind_run {S A B} {m : M S A} {k : A -> M S B} {x a x'} : m x = (Ok a, x') -> bind m k x = k a x'.
Proof. intros E. unfold bind. by rewrite E. Qed.

Lemma bind_throw {S A B} {m : M S A} {k : A -> M S B} {x e x'} :
  m x = (Throw e, x') -> bind m k x = (Throw e, x').
Proof. intros E. unfold bind. by rewrite E. Qed.

Lemma bind_Ok_inv {S A B} (m : M S A) (k : A -> M S B) s b s' :
  bind m k s = (Ok b, s') ->
  exists a s1, m s = (Ok a, s1) /\ k a s1 = (Ok b, s').
Proof. unfold bind. destruct (m s) as [[a|e] s1]; [eauto | discriminate]. Qed.

Lemma rbind_Ok_inv {A B} (m : result A) (k : A -> result B) b :
  rbind m k = Ok b -> exists a, m = Ok a /\ k a = Ok b.
Proof. destruct m; simpl; [eauto | discriminate]. Qed.

(** ** Bytes and typed arrays *)

(** A [Uint8Array] is the list of its elements, each in [0..255]. *)
Abbreviation bytes := (list Z).

Definition byte_ok (b : Z) : Prop := 0 <= b < 256.
Definition bytes_ok (bs : bytes) : Prop := Forall byte_ok bs.
Definition byte_okb (b : Z) : bool := (0 <=? b) && (b <? 256).

(** Storing a number in a [Uint8Array] element keeps it modulo 256. *)
Definition to_u8 (v : Z) : Z := v mod 256.
(** [ToUint32]. *)
Definition to_u32 (v : Z) : Z := v mod 2 ^ 32.

(** [new Uint8Array(n)] *)
Definition u8_new (n : nat) : bytes := replicate n 0.

(** [a[i] = v]; a store outside the array is ignored, like stdpp's [insert]. *)
Definition u8_store (i : nat) (v : Z) (a : bytes) : bytes := <[i := to_u8 v]> a.

(** [a.set(src, off)]: throws when the source does not fit. *)
Definition u8_set (off : nat) (src a : bytes) : result bytes :=
  if decide (off + length src <= length a)%nat
  then Ok (take off a ++ src ++ drop (off + length src) a)
  else Throw RangeError.

(** [a.slice(s, e)] for non-negative arguments (both are clamped to the length). *)
Definition u8_slice (s e : nat) (a : bytes) : bytes := take (e - s) (drop s a).

(** The four bytes of a big-endian [u32]. *)
Definition be32 (v : Z) : bytes :=
  [to_u8 (v / 2 ^ 24); to_u8 (v / 2 ^ 16); to_u8 (v / 2 ^ 8); to_u8 v].
Definition of_be32 (b0 b1 b2 b3 : Z) : Z :=
  b0 * 2 ^ 24 + b1 * 2 ^ 16 + b2 * 2 ^ 8 + b3.

(** [DataView.setUint32(off, v, false)] and [DataView.getUint32(off, false)]. *)
Definition set_u32 (off : nat) (v : Z) (a : bytes) : result bytes :=
  u8_set off (be32 (to_u32 v)) a.

Definition get_u32 (off : nat) (a : bytes) : result Z :=
  match drop off a with
  | b0 :: b1 :: b2 :: b3 :: _ => Ok (of_be32 b0 b1 b2 b3)
  | _ => Throw RangeError
  end.

(** [TextEncoder.encode] of a string.  A Rocq [string] stands for a JavaScript string by its
    UTF-8 bytes, so encoding lists them. *)
Definition text_encode (s : string) : bytes :=
  (fun c => Z.of_N (Ascii.N_of_ascii c)) <$> String.list_ascii_of_string s.

Definition is_ascii (s : string) : Prop := Forall (fun b => 0 <= b < 128) (text_encode s).

(** A string between double quotes. *)
Definition quoted (s : string) : string := String "034" (s +:+ String "034" "").

(** ** Hexadecimal text *)

Definition hex_digit (n : Z) : Ascii.ascii :=
  if n <? 10 then Ascii.ascii_of_N (Z.to_N (48 + n)) else Ascii.ascii_of_N (Z.to_N (87 + n)).

(** [x.toString(16).padStart(2, '0')] for a byte [x]. *)
Definition byte_hex (x : Z) : string :=
  String (hex_digit (x / 16)) (String (hex_digit (x mod 16)) "").

(** [[...b].map((x) => x.toString(16).padStart(2, '0')).join('')] *)
Fixpoint bytesToHex (b : bytes) : string :=
  match b with
  | [] => ""
  | x :: b' => byte_hex x +:+ bytesToHex b'
  end.

(** The value of one character as a hexadecimal digit. *)
Definition hex_value (c : Ascii.ascii) : option Z :=
  let n := Z.of_N (Ascii.N_of_ascii c) in
  if (48 <=? n) && (n <=? 57) then Some (n - 48)
  else if (97 <=? n) && (n <=? 102) then Some (n - 87)
  else if (65 <=? n) && (n <=? 70) then Some (n - 55)
  else None.

(** White space that [parseInt] skips, among single-byte characters. *)
Definition is_space (c : Ascii.ascii) : bool :=
  let n := Z.of_N (Ascii.N_of_ascii c) in
  ((9 <=? n) && (n <=? 13)) || (n =? 32).

(** The other white space of [String.trim] and of [\s] in a pattern, as UTF-8 writes it: U+00A0, and
    U+1680, U+2000 to U+200A, U+2028, U+2029, U+202F, U+205F, U+3000, U+FEFF. *)
Definition char_code (c : Ascii.ascii) : Z := Z.of_N (Ascii.N_of_ascii c).
Definition wide_blank2 (a b : Ascii.ascii) : bool := (char_code a =? 194) && (char_code b =? 160).
Definition wide_blank3 (a b c : Ascii.ascii) : bool :=
  let among x l := existsb (Z.eqb (char_code x)) l in
  (among a [225] && among b [154] && among c [128]) ||
  (among a [226] && among b [128] && among c [128; 129; 130; 131; 132; 133; 134; 135; 136; 137; 138; 168; 169; 175]) ||
  (among a [226] && among b [129] && among c [159]) ||
  (among a [227] && among b [128] && among c [128]) ||
  (among a [239] && among b [187] && among c [191]).

(** The text without the white space at its head; the characters of two and three bytes are parameters, so
    that the same function reads a text from its end. *)
Section skip_blanks.
Context (two : Ascii.ascii -> Ascii.ascii -> bool) (three : Ascii.ascii -> Ascii.ascii -> Ascii.ascii -> bool).
Fixpoint skip_blanks (l : list Ascii.ascii) : list Ascii.ascii :=
  match l with
  | a :: l1 =>
      if is_space a then skip_blanks l1 else
      match l1 with
      | b :: l2 =>
          if two a b then skip_blanks l2 else
          match l2 with
          | c :: l3 => if three a b c then skip_blanks l3 else l
          | [] => l
          end
      | [] => l
      end
  | [] => []
  end.
Definition blank_first (l : list Ascii.ascii) : bool :=
  match l with
  | a :: l1 =>
      is_space a ||
      match l1 with b :: l2 => two a b || match l2 with c :: _ => three a b c | [] => false end | [] => false end
  | [] => false
  end.
End skip_blanks.
Definition skip_head : list Ascii.ascii -> list Ascii.ascii := skip_blanks wide_blank2 wide_blank3.
Definition skip_tail : list Ascii.ascii -> list Ascii.ascii :=
  skip_blanks (fun a b => wide_blank2 b a) (fun a b c => wide_blank3 c b a).

(** [s.trim()] *)
Definition trim_list (l : list Ascii.ascii) : list Ascii.ascii := rev (skip_tail (rev (skip_head l))).

(** Every white space character made a space: what [\s] matches before and after is the same. *)
Fixpoint plain_blanks (l : list Ascii.ascii) : list Ascii.ascii :=
  match l with
  | a :: l1 =>
      if is_space a then " "%char :: plain_blanks l1 else
      match l1 with
      | b :: l2 =>
          if wide_blank2 a b then " "%char :: plain_blanks l2 else
          match l2 with
          | c :: l3 => if wide_blank3 a b c then " "%char :: plain_blanks l3 else a :: plain_blanks l1
          | [] => a :: plain_blanks l1
          end
      | [] => [a]
      end
  | [] => []
  end.

Fixpoint skip_spaces (l : list Ascii.ascii) : list Ascii.ascii :=
  match l with
  | c :: l' => if is_space c then skip_spaces l' else l
  | [] => []
  end.

(** The longest prefix of hexadecimal digits, as a number; [None] when it is empty. *)
Fixpoint hex_prefix (acc : option Z) (l : list Ascii.ascii) : option Z :=
  match l with
  | c :: l' =>
      match hex_value c with
      | Some v => hex_prefix (Some (default 0 acc * 16 + v)) l'
      | None => acc
      end
  | [] => acc
  end.

(** [parseInt(s, 16)]: skips white space, reads a sign, drops a [0x] prefix, and reads digits
    up to the first character that is not one.  [None] is [NaN]. *)
Definition parseInt16 (l : list Ascii.ascii) : option Z :=
  let unsigned (l : list Ascii.ascii) :=
    match l with
    | "0"%char :: "x"%char :: r | "0"%char :: "X"%char :: r => hex_prefix None r
    | _ => hex_prefix None l
    end in
  match skip_spaces l with
  | "-"%char :: r => Z.opp <$> unsigned r
  | "+"%char :: r => unsigned r
  | l' => unsigned l'
  end.

(** Two characters at a time; an odd last character is dropped ([h.length / 2] truncates).
    A pair [parseInt] rejects is [NaN], stored as 0. *)
Fixpoint hex_pairs (l : list Ascii.ascii) : bytes :=
  match l with
  | c1 :: c2 :: l' => to_u8 (default 0 (parseInt16 [c1; c2])) :: hex_pairs l'
  | _ => []
  end.

Definition hexToBytes (h : string) : bytes := hex_pairs (String.list_ascii_of_string h).

(** ** Lemmas on bytes *)

Ltac inv_bytes :=
  unfold bytes_ok in *;
  repeat match goal with
  | H : Forall byte_ok (_ :: _) |- _ => apply Forall_cons in H as [? H]
  | H : Forall byte_ok [] |- _ => clear H
  end.

Lemma byte_okb_spec b : byte_okb b = true <-> byte_ok b.
Proof. unfold byte_okb, byte_ok. lia. Qed.

(** For bytes that are known: decide by evaluation. *)
Lemma bytes_okb_ok bs : forallb byte_okb bs = true -> bytes_ok bs.
Proof.
  intros H. apply Forall_forall. intros b Hb. apply byte_okb_spec.
  rewrite forallb_forall in H. apply H. by apply list_elem_of_In.
Qed.

Lemma bytes_ok_app a b : bytes_ok (a ++ b) <-> bytes_ok a /\ bytes_ok b.
Proof. apply Forall_app. Qed.

Lemma bytes_ok_take n a : bytes_ok a -> bytes_ok (take n a).
Proof. apply Forall_take. Qed.

Lemma bytes_ok_drop n a : bytes_ok a -> bytes_ok (drop n a).
Proof. apply Forall_drop. Qed.

Lemma to_u8_ok v : byte_ok (to_u8 v).
Proof. unfold byte_ok, to_u8. apply Z.mod_pos_bound. lia. Qed.

Lemma to_u8_id v : byte_ok v -> to_u8 v = v.
Proof. intros ?. apply Z.mod_small. done. Qed.

Lemma be32_ok v : bytes_ok (be32 v).
Proof. repeat constructor; apply to_u8_ok. Qed.

Lemma length_be32 v : length (be32 v) = 4%nat.
Proof. reflexivity. Qed.

(** Reading the bytes of a [u32] gives it back, modulo 2^32. *)
Lemma of_be32_be32 v :
  of_be32 (to_u8 (v / 2 ^ 24)) (to_u8 (v / 2 ^ 16)) (to_u8 (v / 2 ^ 8)) (to_u8 v) = to_u32 v.
Proof.
  unfold of_be32, to_u8, to_u32.
  change (2 ^ 24) with (256 * (256 * 256)). change (2 ^ 16) with (256 * 256).
  change (2 ^ 8) with 256. change (2 ^ 32) with (256 * (256 * (256 * 256))).
  rewrite <-!Z.div_div by lia.
  pose proof (Z.div_mod v 256 ltac:(lia)).
  pose proof (Z.div_mod (v / 256) 256 ltac:(lia)).
  pose proof (Z.div_mod (v / 256 / 256) 256 ltac:(lia)).
  pose proof (Z.div_mod (v / 256 / 256 / 256) 256 ltac:(lia)).
  apply (Z.mod_unique_pos _ _ (v / 256 / 256 / 256 / 256)); [|lia].
  pose proof (Z.mod_pos_bound v 256 ltac:(lia)).
  pose proof (Z.mod_pos_bound (v / 256) 256 ltac:(lia)).
  pose proof (Z.mod_pos_bound (v / 256 / 256) 256 ltac:(lia)).
  pose proof (Z.mod_pos_bound (v / 256 / 256 / 256) 256 ltac:(lia)). lia.
Qed.

Lemma be32_of_be32 b0 b1 b2 b3 :
  bytes_ok [b0; b1; b2; b3] -> be32 (of_be32 b0 b1 b2 b3) = [b0; b1; b2; b3].
Proof.
  intros H. inv_bytes. unfold byte_ok, be32, of_be32, to_u8 in *.
  change (2 ^ 24) with 16777216. change (2 ^ 16) with 65536. change (2 ^ 8) with 256.
  set (v := b0 * 16777216 + b1 * 65536 + b2 * 256 + b3).
  rewrite <-(Z.div_unique v 16777216 b0 (v - b0 * 16777216)) by (subst v; lia).
  rewrite <-(Z.div_unique v 65536 (b0 * 256 + b1) (b2 * 256 + b3)) by (subst v; lia).
  rewrite <-(Z.div_unique v 256 (b0 * 65536 + b1 * 256 + b2) b3) by (subst v; lia).
  rewrite <-(Z.mod_unique b0 256 0 b0) by lia.
  rewrite <-(Z.mod_unique (b0 * 256 + b1) 256 b0 b1) by lia.
  rewrite <-(Z.mod_unique (b0 * 65536 + b1 * 256 + b2) 256 (b0 * 256 + b1) b2) by lia.
  by rewrite <-(Z.mod_unique v 256 (b0 * 65536 + b1 * 256 + b2) b3) by (subst v; lia).
Qed.

Lemma of_be32_range b0 b1 b2 b3 :
  bytes_ok [b0; b1; b2; b3] -> 0 <= of_be32 b0 b1 b2 b3 < 2 ^ 32.
Proof.
  intros H. inv_bytes. unfold byte_ok, of_be32 in *. lia.
Qed.

Lemma to_u32_id v : 0 <= v < 2 ^ 32 -> to_u32 v = v.
Proof. apply Z.mod_small. Qed.

Lemma to_u32_idemp v : to_u32 (to_u32 v) = to_u32 v.
Proof. apply Z.mod_mod. done. Qed.

(** [be32] only depends on the value modulo 2^32. *)
Lemma of_be32_to_u32 v :
  of_be32 (to_u8 (to_u32 v / 2 ^ 24)) (to_u8 (to_u32 v / 2 ^ 16))
          (to_u8 (to_u32 v / 2 ^ 8)) (to_u8 (to_u32 v)) = to_u32 v.
Proof. by rewrite of_be32_be32, to_u32_idemp. Qed.

Lemma get_u32_be32 off a v r :
  drop off a = be32 (to_u32 v) ++ r -> get_u32 off a = Ok (to_u32 v).
Proof. unfold get_u32. intros ->. simpl. by rewrite of_be32_to_u32. Qed.

Lemma get_u32_short off a : (length a < off + 4)%nat -> get_u32 off a = Throw RangeError.
Proof.
  intros H. unfold get_u32.
  pose proof (length_drop a off) as L.
  destruct (drop off a) as [|? [|? [|? [|? ?]]]]; simpl in L; first [done | lia].
Qed.

Lemma get_u32_throw off a e : get_u32 off a = Throw e -> e = RangeError.
Proof. unfold get_u32. destruct (drop off a) as [|? [|? [|? [|? ?]]]]; congruence. Qed.

Lemma get_u32_inv off a v :
  get_u32 off a = Ok v ->
  exists b0 b1 b2 b3 r, drop off a = b0 :: b1 :: b2 :: b3 :: r /\ v = of_be32 b0 b1 b2 b3.
Proof.
  unfold get_u32. destruct (drop off a) as [|? [|? [|? [|? ?]]]]; try discriminate.
  intros [= <-]. eauto 10.
Qed.

Lemma u8_set_ok off src a :
  (off + length src <= length a)%nat ->
  u8_set off src a = Ok (take off a ++ src ++ drop (off + length src) a).
Proof. intros H. unfold u8_set. by rewrite decide_True. Qed.

(** Filling the middle of a buffer whose parts are known. *)
Lemma u8_set_app off pre mid post src :
  length pre = off -> length mid = length src ->
  u8_set off src (pre ++ mid ++ post) = Ok (pre ++ src ++ post).
Proof.
  intros <- Hm. rewrite u8_set_ok by (rewrite !length_app; lia).
  rewrite take_app_length, drop_app_add'
    by done. f_equal. by rewrite drop_app_length' by done.
Qed.

(** Filling the front of a buffer. *)
Lemma u8_set_head mid post src :
  length mid = length src -> u8_set 0 src (mid ++ post) = Ok (src ++ post).
Proof. exact (u8_set_app 0 [] mid post src eq_refl). Qed.

(** Filling the rest of a fresh buffer after its header. *)
Lemma u8_set_tail off hdr n z src :
  length hdr = off -> n = length src ->
  u8_set off src (hdr ++ replicate n z) = Ok (hdr ++ src).
Proof.
  intros H ->. rewrite <-(app_nil_r (replicate _ z)), u8_set_app;
    [by rewrite app_nil_r | done | apply length_replicate].
Qed.

Lemma u8_slice_app pre mid post s e :
  length pre = s -> (s + length mid = e)%nat ->
  u8_slice s e (pre ++ mid ++ post) = mid.
Proof.
  intros <- <-. unfold u8_slice. rewrite drop_app_length.
  by rewrite take_app_length' by lia.
Qed.

Lemma length_u8_slice s e a : length (u8_slice s e a) = ((e - s) `min` (length a - s))%nat.
Proof. unfold u8_slice. rewrite length_take, length_drop. lia. Qed.

Lemma u8_slice_ok s e a : bytes_ok a -> bytes_ok (u8_slice s e a).
Proof. intros. by apply bytes_ok_take, bytes_ok_drop. Qed.

(** Rounding up to a multiple. *)
Lemma ceil_spec a b : 0 < b -> a <= (a + b - 1) / b * b < a + b.
Proof.
  intros Hb. pose proof (Z.div_mod (a + b - 1) b ltac:(lia)) as E.
  pose proof (Z.mod_pos_bound (a + b - 1) b Hb). lia.
Qed.

(** [lia] with division and modulo by constants. *)
Ltac div_lia := Z.to_euclidean_division_equations; lia.

(** ** Finite checks *)

(** A decidable fact about every integer of an interval, established by evaluation. *)
Lemma range_check (P : Z -> bool) (lo n : Z) :
  forallb P (seqZ lo n) = true -> forall x, lo <= x < lo + n -> P x = true.
Proof.
  intros H x Hx. rewrite forallb_forall in H. apply H.
  apply list_elem_of_In, elem_of_seqZ. lia.
Qed.

Lemma byte_check (P : Z -> bool) :
  forallb P (seqZ 0 256) = true -> forall x, byte_ok x -> P x = true.
Proof. intros H x [? ?]. by apply (range_check P 0 256 H). Qed.

(** ** Hexadecimal round trip *)

Lemma list_ascii_app s1 s2 :
  String.list_ascii_of_string (s1 +:+ s2)
  = String.list_ascii_of_string s1 ++ String.list_ascii_of_string s2.
Proof. induction s1 as [|c s1 IH]; simpl; [done | by rewrite <-IH]. Qed.

Lemma byte_hex_pair x :
  byte_ok x -> hex_pairs (String.list_ascii_of_string (byte_hex x)) = [x].
Proof.
  intros Hx.
  apply (byte_check (fun x =>
    bool_decide (hex_pairs (String.list_ascii_of_string (byte_hex x)) = [x]))) in Hx;
    [|by vm_compute].
  by apply bool_decide_eq_true in Hx.
Qed.

Lemma hexToBytes_bytesToHex b : bytes_ok b -> hexToBytes (bytesToHex b) = b.
Proof.
  unfold hexToBytes. induction 1 as [|x b Hx _ IH]; [done|].
  cbn [bytesToHex]. rewrite list_ascii_app.
  apply byte_hex_pair in Hx. cbn [byte_hex String.list_ascii_of_string app hex_pairs] in *.
  injection Hx as ->. by rewrite IH.
Qed.

Lemma bytesToHex_inj a b :
  bytes_ok a -> bytes_ok b -> bytesToHex a = bytesToHex b -> a = b.
Proof.
  intros Ha Hb E. by rewrite <-(hexToBytes_bytesToHex a), E, hexToBytes_bytesToHex.
Qed.

Lemma bytesToHex_app a b : bytesToHex (a ++ b) = bytesToHex a +:+ bytesToHex b.
Proof.
  induction a as [|x a IH]; [done|]. simpl. by rewrite IH.
Qed.

Lemma length_bytesToHex b : String.length (bytesToHex b) = (2 * length b)%nat.
Proof.
  induction b as [|x b IH]; [done|].
  change (String.length (bytesToHex (x :: b))) with (S (S (String.length (bytesToHex b)))).
  rewrite IH. simpl. lia.
Qed.

Lemma length_hex_pairs l : length (hex_pairs l) = (length l / 2)%nat.
Proof.
  remember (length l) as n eqn:Hn. revert l Hn.
  induction n as [n IH] using lt_wf_ind. intros [|c1 [|c2 l]] ->; [done|done|].
  cbn [hex_pairs length]. rewrite (IH (length l) ltac:(simpl; lia) l eq_refl).
  replace (S (S (length l))) with (length l + 1 * 2)%nat by lia. rewrite Nat.div_add by lia. lia.
Qed.

Lemma length_list_ascii s : length (String.list_ascii_of_string s) = String.length s.
Proof. induction s; simpl; congruence. Qed.

(** [s.slice(n, n + m)] on the characters of a string. *)
Lemma substring_take_drop n m s :
  String.list_ascii_of_string (String.substring n m s) =
  take m (drop n (String.list_ascii_of_string s)).
Proof.
  revert n m. induction s as [|c s IH]; intros [|n] [|m]; simpl; try done; by rewrite IH.
Qed.

Lemma string_of_list_inj s s' :
  String.list_ascii_of_string s = String.list_ascii_of_string s' -> s = s'.
Proof.
  intros E. rewrite <-(String.string_of_list_ascii_of_string s), E.
  apply String.string_of_list_ascii_of_string.
Qed.

Lemma substring_hex a b c n m :
  n = (2 * length a)%nat -> m = (2 * length b)%nat ->
  String.substring n m (bytesToHex (a ++ b ++ c)) = bytesToHex b.
Proof.
  intros -> ->. apply string_of_list_inj. rewrite substring_take_drop, !bytesToHex_app, !list_ascii_app.
  rewrite drop_app_length', take_app_length' by by rewrite length_list_ascii, length_bytesToHex.
  done.
Qed.

Lemma hex_digits_check x :
  byte_ok x ->
  hex_value (hex_digit (x / 16)) = Some (x / 16) /\
  hex_value (hex_digit (x mod 16)) = Some (x mod 16) /\
  forall r, parseInt16 (hex_digit (x / 16) :: hex_digit (x mod 16) :: r) = hex_prefix (Some x) r.
Proof.
  intros Hx.
  apply (byte_check (fun x =>
    let c1 := hex_digit (x / 16) in let c2 := hex_digit (x mod 16) in
    bool_decide (hex_value c1 = Some (x / 16)) && bool_decide (hex_value c2 = Some (x mod 16)) &&
    negb (is_space c1) &&
    match c1, c2 with
    | "-"%char, _ | "+"%char, _ | "0"%char, "x"%char | "0"%char, "X"%char => false
    | _, _ => true
    end)) in Hx as H; [|by vm_compute].
  cbn zeta in H. rewrite !andb_true_iff, !bool_decide_eq_true, negb_true_iff in H.
  destruct H as (((H1 & H2) & H3) & H4). split; [done|]. split; [done|].
  intros r. unfold parseInt16. cbn [skip_spaces]. rewrite H3.
  assert (E : hex_prefix None (hex_digit (x / 16) :: hex_digit (x mod 16) :: r) = hex_prefix (Some x) r).
  { cbn [hex_prefix]. rewrite H1. cbn [hex_prefix]. rewrite H2. cbn [default from_option id].
    f_equal. f_equal. rewrite (Z.div_mod x 16) at 3 by lia. lia. }
  rewrite <-E. clear E H1 H2 H3 Hx.
  destruct (hex_digit (x / 16)) as [[] [] [] [] [] [] [] []]; try done;
    destruct (hex_digit (x mod 16)) as [[] [] [] [] [] [] [] []]; done.
Qed.

(** The hexadecimal text of big-endian bytes is read as their value. *)
Lemma hex_prefix_bytes b v :
  bytes_ok b ->
  hex_prefix (Some v) (String.list_ascii_of_string (bytesToHex b)) =
  Some (foldl (fun a x => a * 256 + x) v b).
Proof.
  intros Hb. revert v. induction Hb as [|x b Hx Hb IH]; intros v; [done|].
  destruct (hex_digits_check x Hx) as (H1 & H2 & _).
  cbn [bytesToHex byte_hex]. rewrite list_ascii_app. cbn [String.list_ascii_of_string app hex_prefix byte_hex].
  rewrite H1, H2, IH. cbn [foldl default from_option id]. do 2 f_equal.
  rewrite (Z.div_mod x 16) at 3 by lia. lia.
Qed.

Lemma parseInt16_be32 v :
  0 <= v < 2 ^ 32 -> parseInt16 (String.list_ascii_of_string (bytesToHex (be32 v))) = Some v.
Proof.
  intros Hv. pose proof (be32_ok v) as Hb. unfold be32 in *. cbn [bytesToHex].
  rewrite !list_ascii_app. cbn [byte_hex String.list_ascii_of_string app].
  inv_bytes. destruct (hex_digits_check (to_u8 (v / 2 ^ 24))) as (_ & _ & ->); [done|].
  change (_ :: _) with (String.list_ascii_of_string
    (bytesToHex [to_u8 (v / 2 ^ 16); to_u8 (v / 2 ^ 8); to_u8 v])).
  rewrite hex_prefix_bytes by (repeat (apply Forall_cons_2; [done|]); by apply Forall_nil_2). f_equal. cbn [foldl].
  pose proof (of_be32_be32 v) as E. rewrite to_u32_id in E by done. unfold of_be32 in E. lia.
Qed.

(** ** JavaScript maps

    A [Map] iterates in insertion order, and overwriting a key keeps its position.  The store of
    a [Map] is an association list with that discipline. *)
Module JsMap.
Section js_map.
Context {K V : Type} `{EqDecision K}.

Fixpoint lookup (k : K) (m : list (K * V)) : option V :=
  match m with
  | [] => None
  | (k', v) :: m' => if decide (k = k') then Some v else lookup k m'
  end.

(** [m.set(k, v)] *)
Fixpoint set (k : K) (v : V) (m : list (K * V)) : list (K * V) :=
  match m with
  | [] => [(k, v)]
  | (k', v') :: m' => if decide (k = k') then (k, v) :: m' else (k', v') :: set k v m'
  end.

(** [m.delete(k)] *)
Fixpoint remove (k : K) (m : list (K * V)) : list (K * V) :=
  match m with
  | [] => []
  | (k', v') :: m' => if decide (k = k') then remove k m' else (k', v') :: remove k m'
  end.

Definition has (k : K) (m : list (K * V)) : bool :=
  match lookup k m with Some _ => true | None => false end.

Lemma lookup_set_eq k v m : lookup k (set k v m) = Some v.
Proof. induction m as [|[k' v'] m IH]; simpl; repeat (case_decide; simpl); congruence. Qed.

Lemma lookup_set_ne k k' v m : k <> k' -> lookup k (set k' v m) = lookup k m.
Proof.
  intros Hne. induction m as [|[j u] m IH]; simpl; repeat (case_decide; simpl); congruence.
Qed.

Lemma lookup_set k k' v m :
  lookup k (set k' v m) = if decide (k = k') then Some v else lookup k m.
Proof. case_decide; subst; [apply lookup_set_eq | by apply lookup_set_ne]. Qed.

Lemma lookup_remove_eq k m : lookup k (remove k m) = None.
Proof. induction m as [|[k' v'] m IH]; simpl; repeat (case_decide; simpl); congruence. Qed.

Lemma lookup_remove_ne k k' m : k <> k' -> lookup k (remove k' m) = lookup k m.
Proof.
  intros Hne. induction m as [|[j u] m IH]; simpl; repeat (case_decide; simpl); congruence.
Qed.

Lemma lookup_remove k k' m :
  lookup k (remove k' m) = if decide (k = k') then None else lookup k m.
Proof. case_decide; subst; [apply lookup_remove_eq | by apply lookup_remove_ne]. Qed.

Lemma lookup_None k m : lookup k m = None <-> k ∉ m.*1.
Proof.
  induction m as [|[k' v'] m IH]; simpl; [set_solver|].
  case_decide; subst; set_solver.
Qed.

Lemma lookup_Some_in k v m : lookup k m = Some v -> (k, v) ∈ m.
Proof.
  induction m as [|[k' v'] m IH]; simpl; [done|].
  case_decide; intros; simplify_eq; set_solver.
Qed.

Lemma set_keys_in k v m : k ∈ m.*1 -> (set k v m).*1 = m.*1.
Proof.
  induction m as [|[k' v'] m IH]; simpl; [set_solver|].
  case_decide; subst; simpl; [done|]. intros. f_equal. apply IH. set_solver.
Qed.

Lemma set_fresh k v m : k ∉ m.*1 -> set k v m = m ++ [(k, v)].
Proof.
  induction m as [|[k' v'] m IH]; simpl; [done|].
  intros H. rewrite decide_False by set_solver. f_equal. apply IH. set_solver.
Qed.

Lemma remove_keys k m : (remove k m).*1 = filter (fun x => x <> k) m.*1.
Proof.
  induction m as [|[k' v'] m IH]; simpl; [done|].
  destruct (decide (k = k')) as [->|Hne].
  - rewrite filter_cons_False by (intros []; done). exact IH.
  - rewrite filter_cons_True by done. simpl. f_equal. exact IH.
Qed.

Lemma remove_fresh k m : k ∉ m.*1 -> remove k m = m.
Proof.
  induction m as [|[k' v'] m IH]; simpl; [done|]. intros H.
  rewrite decide_False by set_solver. f_equal. apply IH. set_solver.
Qed.

Lemma elem_of_remove k x m : x ∈ remove k m <-> x ∈ m /\ x.1 <> k.
Proof.
  induction m as [|[k' v'] m IH]; simpl; [set_solver|].
  case_decide; subst; rewrite ?elem_of_cons, IH; destruct x; simpl; naive_solver.
Qed.

Lemma NoDup_set k v m : NoDup m.*1 -> NoDup (set k v m).*1.
Proof.
  intros H. destruct (decide (k ∈ m.*1)) as [Hin|Hout]; [by rewrite set_keys_in|].
  rewrite set_fresh, fmap_app by done. simpl.
  apply NoDup_app. split; [done|]. split; [set_solver|]. repeat constructor; set_solver.
Qed.

Lemma NoDup_remove k m : NoDup m.*1 -> NoDup (remove k m).*1.
Proof. intros H. rewrite remove_keys. by apply NoDup_filter. Qed.

Lemma length_set k v m :
  length (set k v m) = if decide (k ∈ m.*1) then length m else S (length m).
Proof.
  case_decide as H.
  - rewrite <-(length_fmap fst), set_keys_in by done. apply length_fmap.
  - rewrite set_fresh, length_app by done. simpl. lia.
Qed.

Lemma length_remove_le k m : (length (remove k m) <= length m)%nat.
Proof. induction m as [|[k' v'] m IH]; simpl; [lia|]. case_decide; simpl; lia. Qed.
End js_map.
End JsMap.

(** ** Stable sorting by a numeric key ([array.sort((a, b) => key(a) - key(b))]) *)
Section sort_by.
Context {A : Type} (key : A -> Z).

Fixpoint insert_by (x : A) (l : list A) : list A :=
  match l with
  | [] => [x]
  | y :: l' => if key x <=? key y then x :: l else y :: insert_by x l'
  end.

Fixpoint sort_by (l : list A) : list A :=
  match l with [] => [] | x :: l' => insert_by x (sort_by l') end.

Definition key_le (x y : A) : Prop := key x <= key y.

Lemma insert_by_perm x l : insert_by x l ≡ₚ x :: l.
Proof.
  induction l as [|y l IH]; simpl; [done|]. destruct (key x <=? key y); [done|].
  rewrite IH. constructor.
Qed.

Lemma sort_by_perm l : sort_by l ≡ₚ l.
Proof. induction l as [|x l IH]; simpl; [done|]. by rewrite insert_by_perm, IH. Qed.

Lemma insert_by_sorted x l : StronglySorted key_le l -> StronglySorted key_le (insert_by x l).
Proof.
  induction l as [|y l IH]; simpl; intros Hs; [by repeat constructor|].
  apply StronglySorted_inv in Hs as [Hs Hy].
  destruct (Z.leb_spec (key x) (key y)) as [Hxy|Hxy].
  - constructor; [by constructor|]. constructor; [done|].
    eapply Forall_impl; [exact Hy|]. unfold key_le. intros z Hz. cbn in Hz. lia.
  - constructor; [by apply IH|]. rewrite insert_by_perm. constructor; [unfold key_le; lia|done].
Qed.

Lemma sort_by_sorted l : StronglySorted key_le (sort_by l).
Proof. induction l as [|x l IH]; simpl; [constructor|]. by apply insert_by_sorted. Qed.
End sort_by.

(** ** Filtering *)

Lemma filter_all {A} (p : A -> bool) (l : list A) : (forall x, x ∈ l -> p x = true) -> List.filter p l = l.
Proof.
  induction l as [|x l IH]; simpl; intros H; [done|]. rewrite (H x) by set_solver. f_equal.
  apply IH. set_solver.
Qed.
Lemma filter_none {A} (p : A -> bool) (l : list A) : (forall x, x ∈ l -> p x = false) -> List.filter p l = [].
Proof.
  induction l as [|x l IH]; simpl; intros H; [done|]. rewrite (H x) by set_solver. apply IH. set_solver.
Qed.

(** ** Strings in the order of their code units *)

Definition string_le (a b : string) : Prop := String.leb a b = true.
#[export] Instance string_le_dec : RelDecision string_le.
Proof. intros a b. unfold string_le. apply _. Defined.

Lemma string_le_spec a b : string_le a b <-> String.le a b.
Proof. unfold string_le, String.le. by rewrite Is_true_true. Qed.

#[export] Instance string_le_trans : Transitive string_le.
Proof. intros a b c. rewrite !string_le_spec. by intros ->. Qed.
#[export] Instance string_le_anti : AntiSymm eq string_le.
Proof. intros a b. rewrite !string_le_spec. apply (anti_symm String.le). Qed.
#[export] Instance string_le_tot : Total string_le.
Proof. intros a b. rewrite !string_le_spec. apply (total String.le). Qed.

Lemma ltb_le a b : String.ltb a b = true <-> string_le a b /\ a <> b.
Proof.
  unfold string_le, String.ltb, String.leb.
  destruct (String.compare a b) eqn:E; split; try done.
  - by apply String.compare_eq_iff in E as ->; intros [_ []].
  - intros _. split; [done|]. intros ->.
    pose proof (String.compare_antisym b b). by destruct (String.compare b b).
  - by intros [? _].
Qed.
Lemma ltb_trans a b c : String.ltb a b = true -> String.ltb b c = true -> String.ltb a c = true.
Proof.
  rewrite !ltb_le. intros [H1 N1] [H2 N2]. split; [by etrans|]. intros ->.
  apply N1. by apply (anti_symm string_le).
Qed.
Lemma ltb_irrefl a : String.ltb a a = false.
Proof. apply not_true_iff_false. rewrite ltb_le. naive_solver. Qed.
Lemma ltb_total a b : a = b \/ String.ltb a b = true \/ String.ltb b a = true.
Proof. rewrite !ltb_le. destruct (decide (a = b)); [by left|]. destruct (total string_le a b); auto. Qed.

(** ** Automation *)

Create HintDb dd.
Create Rewrite HintDb dd.
#[export] Hint Resolve to_u8_ok be32_ok u8_slice_ok bytes_ok_take bytes_ok_drop : dd.
#[export] Hint Rewrite @JsMap.lookup_set_eq @JsMap.lookup_remove_eq : dd.

(** Invert successful runs of monadic code in the hypotheses. *)
Ltac run_inv :=
  repeat match goal with
  | H : bind _ _ _ = (Ok _, _) |- _ =>
      apply bind_Ok_inv in H as (? & ? & ? & H); simpl in H
  | H : rbind _ _ = Ok _ |- _ => apply rbind_Ok_inv in H as (? & ? & H); simpl in H
  | H : (_, _) = (_, _) |- _ => injection H as ??; subst
  end.

(** Split on the integer comparisons in the goal. *)
Ltac zcase :=
  match goal with
  | |- context [?a <=? ?b] => destruct (Z.leb_spec a b)
  | |- context [?a <? ?b] => destruct (Z.ltb_spec a b)
  | |- context [?a =? ?b] => destruct (Z.eqb_spec a b)
  end.

(** Split on the conditions of the code in the goal. *)
Ltac cases :=
  repeat (case_match || case_decide); simplify_eq/=; try done.

(** A decoder for the single-byte characters, the inverse of [text_encode] on byte strings. *)
Definition text_decode_bytes (bs : bytes) : string :=
  String.string_of_list_ascii ((fun b => Ascii.ascii_of_N (Z.to_N b)) <$> bs).

Lemma text_decode_bytes_encode s : text_decode_bytes (text_encode s) = s.
Proof.
  unfold text_decode_bytes, text_encode.
  rewrite <-list_fmap_compose, (list_fmap_ext _ id).
  - by rewrite list_fmap_id, String.string_of_list_ascii_of_string.
  - intros i c _. simpl. by rewrite N2Z.id, Ascii.ascii_N_embedding.
Qed.

Lemma text_encode_ok s : bytes_ok (text_encode s).
Proof.
  unfold text_encode. apply Forall_fmap, Forall_forall. intros c _. simpl.
  pose proof (Ascii.N_ascii_bounded c). unfold byte_ok. lia.
Qed.

(** ** White space *)

Section skip_lemmas.
Context (two : Ascii.ascii -> Ascii.ascii -> bool) (three : Ascii.ascii -> Ascii.ascii -> Ascii.ascii -> bool).
Notation skip := (skip_blanks two three).
Notation starts := (blank_first two three).
Implicit Types l : list Ascii.ascii.

(** By cases on what [skip] does at the head. *)
Lemma skip_ind (P : list Ascii.ascii -> Prop) :
  (forall l, starts l = false -> skip l = l -> P l) ->
  (forall pre l, skip (pre ++ l) = skip l -> P l -> P (pre ++ l)) ->
  forall l, P l.
Proof.
  intros Hid Hrec l. induction l as [l IH] using (induction_ltof1 _ (@length _)). unfold ltof in IH.
  destruct l as [|a l1]; [by apply Hid|]. destruct (is_space a) eqn:Ea.
  { apply (Hrec [a] l1); [cbn; by rewrite Ea | apply IH; cbn; lia]. }
  destruct l1 as [|b l2]; [apply Hid; cbn; by rewrite Ea|]. destruct (two a b) eqn:Eb.
  { apply (Hrec [a; b] l2); [cbn; by rewrite Ea, Eb | apply IH; cbn; lia]. }
  destruct l2 as [|c l3]; [apply Hid; cbn; by rewrite Ea, Eb|]. destruct (three a b c) eqn:Ec.
  - apply (Hrec [a; b; c] l3); [cbn; by rewrite Ea, Eb, Ec | apply IH; cbn; lia].
  - apply Hid; cbn; by rewrite Ea, Eb, Ec.
Qed.

Lemma skip_starts l : starts (skip l) = false.
Proof. induction l as [l Hs E|pre l E IH] using skip_ind; by rewrite E. Qed.
Lemma skip_id l : starts l = false -> skip l = l.
Proof.
  destruct l as [|a [|b [|c l]]]; cbn; [done| | |]; destruct (is_space a); cbn; try done; destruct (two a b); cbn; try done.
  by destruct (three a b c).
Qed.
Lemma skip_suffix l : exists l', l = l' ++ skip l.
Proof.
  induction l as [l Hs E|pre l E [l' IH]] using skip_ind; [by exists []; rewrite E|].
  exists (pre ++ l'). by rewrite E, <-app_assoc, <-IH.
Qed.
Lemma starts_app l1 l2 : starts (l1 ++ l2) = false -> starts l1 = false.
Proof.
  destruct l1 as [|a [|b [|c l1]]]; [done| | |done]; cbn; destruct (is_space a); cbn; try done.
  rewrite orb_false_iff. intros [-> _]. done.
Qed.
(** An ASCII character that is no white space stops it. *)
Lemma starts_stop l1 c l2 :
  (forall a, two a c = false) -> (forall a b, three a c b = false) -> (forall a b, three a b c = false) ->
  l1 <> [] -> starts l1 = false -> starts (l1 ++ c :: l2) = false.
Proof.
  intros H2 H3 H3'. destruct l1 as [|a [|b [|d l1]]]; [done| | |done]; intros _; cbn; destruct (is_space a); cbn; try done.
  - intros _. rewrite H2. cbn. destruct l2; [done | by rewrite H3].
  - rewrite orb_false_r. intros ->. cbn. by rewrite H3'.
Qed.
Lemma skip_cons3 a b c l :
  skip (a :: b :: c :: l) = if is_space a then skip (b :: c :: l) else if two a b then skip (c :: l)
                            else if three a b c then skip l else a :: b :: c :: l.
Proof. done. Qed.
Lemma skip_map (f : Ascii.ascii -> Ascii.ascii) l :
  (forall a, is_space (f a) = is_space a) -> (forall a b, two (f a) (f b) = two a b) ->
  (forall a b c, three (f a) (f b) (f c) = three a b c) -> skip (f <$> l) = f <$> skip l.
Proof.
  intros H1 H2 H3. induction l as [l IH] using (induction_ltof1 _ (@length _)). unfold ltof in IH.
  destruct l as [|a l]; [done|]. pose proof (IH l ltac:(cbn; lia)) as E1. rewrite fmap_cons.
  destruct l as [|b l]; [cbn; rewrite H1; by destruct (is_space a)|].
  pose proof (IH l ltac:(cbn; lia)) as E2. rewrite fmap_cons in E1 |- *.
  destruct l as [|c l].
  - cbn [skip_blanks fmap list_fmap] in E1 |- *. rewrite !H1, H2 in *. destruct (is_space a); [done|]. by destruct (two a b).
  - pose proof (IH l ltac:(cbn; lia)) as E3. rewrite fmap_cons in E1, E2 |- *.
    rewrite !skip_cons3, H1, H2, H3.
    destruct (is_space a); [exact E1|]. destruct (two a b); [exact E2|]. by destruct (three a b c).
Qed.
End skip_lemmas.

(** The bytes of these characters are above the ASCII ones. *)
Lemma ascii_not_among c ns : char_code c < 128 -> Forall (fun n => 128 <= n) ns -> existsb (Z.eqb (char_code c)) ns = false.
Proof.
  intros Hc. induction 1 as [|n ns Hn _ IH]; [done|]. cbn. rewrite IH, (proj2 (Z.eqb_neq _ _)) by lia. done.
Qed.
Lemma ascii_not_wide2 a b : char_code a < 128 \/ char_code b < 128 -> wide_blank2 a b = false.
Proof.
  intros H. apply andb_false_iff. destruct H; [left | right]; apply Z.eqb_neq; lia.
Qed.
Lemma ascii_not_wide3 a b c : char_code a < 128 \/ char_code b < 128 \/ char_code c < 128 -> wide_blank3 a b c = false.
Proof.
  intros H. unfold wide_blank3.
  destruct H as [H|[H|H]]; rewrite !(ascii_not_among _ _ H) by (repeat constructor; lia);
    by rewrite ?andb_false_r, ?andb_false_l.
Qed.

Lemma trim_list_prefix l : exists l', skip_head l = trim_list l ++ l'.
Proof.
  destruct (skip_suffix (fun a b => wide_blank2 b a) (fun a b c => wide_blank3 c b a) (rev (skip_head l))) as [l' E].
  exists (rev l'). unfold trim_list, skip_tail. by rewrite <-rev_app_distr, <-E, rev_involutive.
Qed.
Lemma trim_list_first l : blank_first wide_blank2 wide_blank3 (trim_list l) = false.
Proof. destruct (trim_list_prefix l) as [l' E]. apply (starts_app _ _ _ l'). rewrite <-E. apply skip_starts. Qed.
Lemma trim_list_idemp l : trim_list (trim_list l) = trim_list l.
Proof.
  unfold trim_list at 1, skip_head. rewrite (skip_id _ _ (trim_list l)) by apply trim_list_first.
  unfold trim_list at 1, skip_tail. rewrite rev_involutive, skip_id by apply skip_starts. done.
Qed.
Lemma trim_list_sub l c : c ∈ trim_list l -> c ∈ l.
Proof.
  intros H. destruct (skip_suffix wide_blank2 wide_blank3 l) as [l1 E1]. destruct (trim_list_prefix l) as [l2 E2].
  unfold skip_head in E2. rewrite E1, E2. set_solver.
Qed.
Lemma trim_list_length l : (length (trim_list l) <= length l)%nat.
Proof.
  destruct (skip_suffix wide_blank2 wide_blank3 l) as [l1 E1]. destruct (trim_list_prefix l) as [l2 E2].
  unfold skip_head in E2. rewrite E1 at 2. rewrite E2, !length_app. lia.
Qed.
