(* ===== verification/Handshake.v ===== *)
(** * The mutual-accept handshake (client/src/handshake.ts)

    The five-state gate every 1:1 conversation goes through before a message may be sent: its
    transitions with their guards, the runs of the machine, and what a run that reached
    [Established] must have done. *)

From S2P Require Import Prelude.

Module Handshake.

(** [HandshakeState]; the [kind] field is the constructor. *)
Inductive state :=
  | Idle
  | OfferSent (conversationId : string)
  | OfferReceived (conversationId theirKey : string)
  | Established (conversationId theirKey : string)
  | Blocked (conversationId : string).

#[export] Instance state_eq_dec : EqDecision state.
Proof. solve_decision. Defined.

Definition kind (s : state) : string :=
  match s with
  | Idle => "idle"
  | OfferSent _ => "offer-sent"
  | OfferReceived _ _ => "offer-received"
  | Established _ _ => "established"
  | Blocked _ => "blocked"
  end.


(** The [HandshakeError] of an operation called in the wrong state. *)
Definition invalid_from {A} (op : string) (s : state) : M state A :=
  throw (JsError (op +:+ "() invalid from state " +:+ quoted (kind s))).

Definition requireKind (k : string) (op : string) : M state unit :=
  let! s := get in
  if decide (kind s = k) then ret tt else invalid_from op s.

Definition sendOffer (conversationId : string) : M state unit :=
  do! requireKind "idle" "sendOffer" in
  modify (fun _ => OfferSent conversationId).

Definition receiveOffer (conversationId theirKey : string) : M state unit :=
  do! requireKind "idle" "receiveOffer" in
  modify (fun _ => OfferReceived conversationId theirKey).

Definition accept : M state unit :=
  let! s := get in
  match s with
  | OfferReceived c k => modify (fun _ => Established c k)
  | _ => invalid_from "accept" s
  end.

Definition receiveAccept (theirKey : string) : M state unit :=
  let! s := get in
  match s with
  | OfferSent c => modify (fun _ => Established c theirKey)
  | _ => invalid_from "receiveAccept" s
  end.

Definition observePeerKey (key : string) : M state unit :=
  modify (fun s =>
    match s with
    | Established c k => if decide (key = k) then s else Blocked c
    | _ => s
    end).

Definition canSendMessage (s : state) : bool :=
  match s with Established _ _ => true | _ => false end.

Definition assertCanSend : M state unit :=
  let! s := get in
  if canSendMessage s then ret tt
  else throw (JsError ("cannot send: conversation is " +:+ quoted (kind s)
                       +:+ ", both parties must accept first")).

(** ** Runs of the machine *)

(** One call of a state-changing method. *)
Inductive op :=
  | SendOffer (conversationId : string)
  | ReceiveOffer (conversationId theirKey : string)
  | Accept
  | ReceiveAccept (theirKey : string)
  | ObservePeerKey (key : string).

Definition exec (o : op) : M state unit :=
  match o with
  | SendOffer c => sendOffer c
  | ReceiveOffer c k => receiveOffer c k
  | Accept => accept
  | ReceiveAccept k => receiveAccept k
  | ObservePeerKey k => observePeerKey k
  end.

(** The state after a sequence of calls, whether or not each of them threw. *)
Definition run (os : list op) (s : state) : state :=
  foldl (fun s o => (exec o s).2) s os.

(** The calls that establish a conversation, in the order they must come. *)
Definition mutual (c k : string) (o1 o2 : op) : Prop :=
  (o1 = SendOffer c /\ o2 = ReceiveAccept k) \/
  (o1 = ReceiveOffer c k /\ o2 = Accept).

(** A run holds the two halves of the agreement on [c] with key [k], in order, and every key
    observed after them is [k]. *)
Definition agreed (os : list op) (c k : string) : Prop :=
  exists l1 o1 l2 o2 l3,
    os = l1 ++ o1 :: l2 ++ o2 :: l3 /\ mutual c k o1 o2 /\
    forall x, ObservePeerKey x ∈ l3 -> x = k.

(** Keys a run observed. *)
Definition observes_only (k : string) (os : list op) : bool :=
  forallb (fun o => match o with ObservePeerKey x => bool_decide (x = k) | _ => true end) os.

(** What a run has done when it is in a given state. *)
Definition evidence (os : list op) (s : state) : Prop :=
  match s with
  | Idle | Blocked _ => True
  | OfferSent c => SendOffer c ∈ os
  | OfferReceived c k => ReceiveOffer c k ∈ os
  | Established c k => agreed os c k
  end.

Lemma agreed_intro os c k o1 o2 :
  o1 ∈ os -> mutual c k o1 o2 -> agreed (os ++ [o2]) c k.
Proof.
  intros (l1 & l2 & ->)%list_elem_of_split H. exists l1, o1, l2, o2, [].
  split; [by rewrite <-app_assoc|]. split; [done|]. set_solver.
Qed.

Lemma agreed_snoc os c k o :
  agreed os c k -> (forall x, o = ObservePeerKey x -> x = k) -> agreed (os ++ [o]) c k.
Proof.
  intros (l1 & o1 & l2 & o2 & l3 & -> & Hm & Ho) Hx.
  exists l1, o1, l2, o2, (l3 ++ [o]). split; [by rewrite <-!app_assoc, <-app_comm_cons, <-app_assoc|].
  split; [done|]. intros x [Hin|Hin]%elem_of_app; [by apply Ho | ].
  apply list_elem_of_singleton in Hin. naive_solver.
Qed.

Lemma run_snoc os o s : run (os ++ [o]) s = (exec o (run os s)).2.
Proof. unfold run. by rewrite foldl_app. Qed.

Lemma evidence_step os o s :
  evidence os s -> evidence (os ++ [o]) (exec o s).2.
Proof.
  intros H. destruct o as [c|c k| |k|k], s as [|c'|c' k'|c' k'|c']; simpl in *;
    rewrite ?decide_True, ?decide_False by done; simpl; try done; try set_solver;
    try (apply agreed_snoc; [done|congruence]).
  - eapply agreed_intro; [done|]. right. done.
  - eapply agreed_intro; [done|]. left. done.
  - case_decide; simpl; [|done]. subst. apply agreed_snoc; [done|congruence].
Qed.

Lemma run_evidence os : evidence os (run os Idle).
Proof.
  induction os as [|o os IH] using rev_ind; [done|].
  rewrite run_snoc. by apply evidence_step.
Qed.

(** C1.  The single hard gate.  A fresh handshake that may send has been through both halves of
    one exchange, in order: our offer and then the peer's accept, or the peer's offer and then our
    accept, on the same conversation; and every peer key observed since is the one that was
    accepted.  No other sequence of calls opens the gate. *)
Theorem gate_needs_both_parties os :
  canSendMessage (run os Idle) = true ->
  exists c k, run os Idle = Established c k /\ agreed os c k.
Proof.
  pose proof (run_evidence os) as H. destruct (run os Idle); simpl in *; try discriminate.
  eauto.
Qed.

Lemma gate_needs_both_parties_witness :
  let os := [SendOffer "c-1"; Accept; ReceiveAccept "aa"; ObservePeerKey "aa"] in
  canSendMessage (run os Idle) = true /\
  exists c k, run os Idle = Established c k /\ agreed os c k.
Proof.
  split; [reflexivity|]. apply gate_needs_both_parties. reflexivity.
Defined.

Lemma run_blocked os c : run os (Blocked c) = Blocked c.
Proof.
  induction os as [|o os IH]; [done|]. destruct o; apply IH.
Qed.

(**  Key pinning.  Whatever calls follow, an established conversation keeps its id and its
    key as long as every observed key is the accepted one, and is blocked for good at the first
    one that is not: no call leaves [Blocked] or replaces the pinned key. *)
Theorem established_pins_key os c k :
  run os (Established c k) = if observes_only k os then Established c k else Blocked c.
Proof.
  induction os as [|o os IH]; [done|].
  destruct o as [| | | |x]; try exact IH.
  change (run (ObservePeerKey x :: os) (Established c k))
    with (run os (if decide (x = k) then Established c k else Blocked c)).
  unfold observes_only in *. cbn [forallb].
  destruct (decide (x = k)) as [->|Hne].
  - by rewrite bool_decide_eq_true_2.
  - by rewrite bool_decide_eq_false_2, run_blocked.
Qed.

Lemma run_assertCanSend s :
  assertCanSend s = (if canSendMessage s then Ok tt
                     else Throw (JsError ("cannot send: conversation is " +:+ quoted (kind s)
                                          +:+ ", both parties must accept first")), s).
Proof. unfold assertCanSend, bind, get. by destruct (canSendMessage s). Qed.

End Handshake.
