(* ===== verification/Session.v ===== *)
(** * Framing, padding and the 1:1 session (client/src/session.ts, client/src/index.ts)

    The byte formats every application message is wrapped in ([Frame], [Padding]) and the
    [Session] object that gates them behind the handshake.  The wasm [Conversation] a session
    drives is a parameter: the class [ConversationApi] lists the methods session.ts calls. *)

From S2P Require Import Prelude.
From S2P Require Import Handshake.

(** [Lifetime] (index.ts). *)
Inductive Lifetime :=
  | BurnOnRead
  | Duration (seconds : Z)
  | UntilRevoked.

#[export] Instance lifetime_eq_dec : EqDecision Lifetime.
Proof. solve_decision. Defined.

(** [describeLifetime] (index.ts); [show] renders the number. *)
Definition describeLifetime (show : Z -> string) (l : Lifetime) : string :=
  match l with
  | BurnOnRead => "Readable once, then destroyed"
  | Duration seconds => "Readable for " +:+ show seconds +:+ "s, then destroyed"
  | UntilRevoked => "Readable until revoked"
  end.

Definition SUGGESTED_DURATIONS_SECONDS : list Z := [5; 30; 300; 3600; 86400].

(** ** Message frames *)

Module Frame.

Definition FRAME_MESSAGE : Z := 0.
Definition FRAME_REVOKE : Z := 1.
Definition FRAME_CONTROL : Z := 2.

Definition CONTROL_BUDDY_ICON : Z := 1.
Definition CONTROL_PROFILE : Z := 2.
Definition CONTROL_FILE : Z := 3.
Definition CONTROL_CALL : Z := 4.
Definition CONTROL_AWAY : Z := 5.
Definition CONTROL_BUDDIES : Z := 6.
Definition CONTROL_GROUPS : Z := 7.

Definition KIND_BURN : Z := 0.
Definition KIND_DURATION : Z := 1.
Definition KIND_UNTIL_REVOKED : Z := 2.

Definition DELIVERY_FLOOR_SECONDS : Z := 86400.
Definition SEVEN_DAYS_SECONDS : Z := 604800.

Definition deriveTtlSeconds (lifetime : Lifetime) : Z :=
  match lifetime with
  | Duration seconds => Z.max seconds DELIVERY_FLOOR_SECONDS
  | _ => SEVEN_DAYS_SECONDS
  end.

(** [ParsedFrame]: a message or a revoke ([IncomingFrame]), a control frame, or a dropped one. *)
Inductive ParsedFrame :=
  | Message (plaintext : bytes) (lifetime : Lifetime)
  | Revoke (targetMessageId : string)
  | Control (controlType version : Z) (payload : bytes)
  | Ignored.

Definition frameMessage (plaintext : bytes) (lifetime : Lifetime) : result bytes :=
  match lifetime with
  | Duration seconds =>
      let out := u8_new (6 + length plaintext) in
      let out := u8_store 0 FRAME_MESSAGE out in
      let out := u8_store 1 KIND_DURATION out in
      let? out := set_u32 2 seconds out in
      u8_set 6 plaintext out
  | _ =>
      let out := u8_new (2 + length plaintext) in
      let out := u8_store 0 FRAME_MESSAGE out in
      let out := u8_store 1 (match lifetime with
                             | BurnOnRead => KIND_BURN
                             | _ => KIND_UNTIL_REVOKED
                             end) out in
      u8_set 2 plaintext out
  end.

Definition frameRevoke (targetMessageId : string) : result bytes :=
  let id := text_encode targetMessageId in
  let out := u8_new (1 + length id) in
  let out := u8_store 0 FRAME_REVOKE out in
  u8_set 1 id out.

Definition frameControl (controlType version : Z) (payload : bytes) : result bytes :=
  let out := u8_new (3 + length payload) in
  let out := u8_store 0 FRAME_CONTROL out in
  let out := u8_store 1 (Z.land controlType 255) out in
  let out := u8_store 2 (Z.land version 255) out in
  u8_set 3 payload out.

Section parse.
(** [TextDecoder.decode] *)
Context (text_decode : bytes -> string).

Definition parseFrame (framed : bytes) : result ParsedFrame :=
  let frameType := framed !! 0%nat in
  if decide (frameType = Some FRAME_REVOKE) then
    Ok (Revoke (text_decode (drop 1 framed)))
  else if decide (frameType = Some FRAME_CONTROL) then
    if decide (length framed < 3)%nat then Ok Ignored
    else Ok (Control (default 0 (framed !! 1%nat)) (default 0 (framed !! 2%nat)) (drop 3 framed))
  else if decide (frameType <> Some FRAME_MESSAGE) then Ok Ignored
  else
    let kind := framed !! 1%nat in
    if decide (kind = Some KIND_DURATION) then
      let? seconds := get_u32 2 framed in
      Ok (Message (drop 6 framed) (Duration seconds))
    else if decide (kind = Some KIND_BURN) then
      Ok (Message (drop 2 framed) BurnOnRead)
    else if decide (kind = Some KIND_UNTIL_REVOKED) then
      Ok (Message (drop 2 framed) UntilRevoked)
    else Ok Ignored.
End parse.

(** The layouts of the frames. *)
Lemma frameMessage_layout p l :
  frameMessage p l =
    Ok (match l with
        | Duration s => FRAME_MESSAGE :: KIND_DURATION :: be32 (to_u32 s) ++ p
        | BurnOnRead => FRAME_MESSAGE :: KIND_BURN :: p
        | UntilRevoked => FRAME_MESSAGE :: KIND_UNTIL_REVOKED :: p
        end).
Proof.
  destruct l as [|s|].
  - exact (u8_set_tail 2 [FRAME_MESSAGE; KIND_BURN] (length p) 0 p eq_refl eq_refl).
  - unfold frameMessage, set_u32.
    change (u8_store 1 KIND_DURATION (u8_store 0 FRAME_MESSAGE (u8_new (6 + length p))))
      with ([FRAME_MESSAGE; KIND_DURATION] ++ [0; 0; 0; 0] ++ replicate (length p) 0).
    rewrite u8_set_app by done. cbn [rbind].
    exact (u8_set_tail 6 (FRAME_MESSAGE :: KIND_DURATION :: be32 (to_u32 s)) (length p) 0 p
             eq_refl eq_refl).
  - exact (u8_set_tail 2 [FRAME_MESSAGE; KIND_UNTIL_REVOKED] (length p) 0 p eq_refl eq_refl).
Qed.

Lemma frameRevoke_layout i : frameRevoke i = Ok (FRAME_REVOKE :: text_encode i).
Proof.
  exact (u8_set_tail 1 [FRAME_REVOKE] (length (text_encode i)) 0 (text_encode i) eq_refl eq_refl).
Qed.

Lemma frameControl_layout t v p :
  frameControl t v p = Ok (FRAME_CONTROL :: to_u8 (Z.land t 255) :: to_u8 (Z.land v 255) :: p).
Proof.
  exact (u8_set_tail 3 [FRAME_CONTROL; to_u8 (Z.land t 255); to_u8 (Z.land v 255)]
           (length p) 0 p eq_refl eq_refl).
Qed.

Lemma land_255 v : to_u8 (Z.land v 255) = to_u8 v.
Proof.
  unfold to_u8. change 255 with (Z.ones 8). rewrite Z.land_ones by done.
  change (2 ^ 8) with 256. apply Z.mod_mod. done.
Qed.

Section properties.
Context (text_decode : bytes -> string).

Lemma parse_frameMessage_eq p l :
  exists f, frameMessage p l = Ok f /\
    parseFrame text_decode f =
      Ok (Message p (match l with Duration s => Duration (s mod 2 ^ 32) | _ => l end)) /\
    (length f <= 6 + length p)%nat.
Proof.
  eexists. split; [apply frameMessage_layout|]. destruct l as [|s|]; [split; simpl; [done|lia]| |].
  2:{ split; simpl; [done|lia]. }
  split; [|simpl; lia]. unfold parseFrame. cbn -[get_u32 be32].
  by rewrite (get_u32_be32 2 _ s p) by done.
Qed.

(**  Messages survive framing: parsing the frame of any message gives the same plaintext and
    the same lifetime, whatever the bytes, for every lifetime whose seconds fit the 32-bit field;
    a longer one arrives modulo 2^32 (the field wraps silently). *)
Theorem parse_frameMessage p l :
  exists f, frameMessage p l = Ok f /\
    parseFrame text_decode f =
      Ok (Message p (match l with Duration s => Duration (s mod 2 ^ 32) | _ => l end)).
Proof.
  destruct (parse_frameMessage_eq p l) as (f & ? & ? & _). eauto.
Qed.

(**  Control frames survive framing: the sub-type and the version come back modulo 256 and the
    payload byte for byte, so an identity layer can define its own sub-formats on top. *)
Theorem parse_frameControl t v p :
  exists f, frameControl t v p = Ok f /\
    parseFrame text_decode f = Ok (Control (t mod 256) (v mod 256) p).
Proof.
  eexists. split; [apply frameControl_layout|].
  by rewrite !land_255.
Qed.

(**  Revoke commands survive framing whenever the decoder inverts the encoder on the target's
    message id (it does on the hexadecimal ids the client uses). *)
Theorem parse_frameRevoke i :
  text_decode (text_encode i) = i ->
  exists f, frameRevoke i = Ok f /\ parseFrame text_decode f = Ok (Revoke i).
Proof.
  intros H. eexists. split; [apply frameRevoke_layout|].
  unfold parseFrame. simpl. rewrite drop_0. by rewrite H.
Qed.

(** The frames [parseFrame] throws on: a duration message cut inside its 4-byte seconds. *)
Definition truncated_duration (f : bytes) : Prop :=
  f !! 0%nat = Some FRAME_MESSAGE /\ f !! 1%nat = Some KIND_DURATION /\ (length f < 6)%nat.

(**  Totality of the receive path.  [parseFrame] returns on every byte string, dropping what it
    does not recognise as [Ignored], except for a duration message truncated inside its seconds
    field: that one throws a [RangeError]. *)
Theorem parseFrame_throws_iff f :
  parseFrame text_decode f = Throw RangeError <-> truncated_duration f.
Proof.
  unfold parseFrame, truncated_duration.
  repeat case_decide;
    try (split; [discriminate |
         intros (? & ? & ?); first [congruence | unfold FRAME_MESSAGE, FRAME_REVOKE, FRAME_CONTROL in *;
                                                 congruence]]).
  split.
  - intros E. split_and!; [congruence | done |].
    destruct (decide (length f < 6)%nat); [done|].
    destruct (get_u32 2 f) eqn:G; [discriminate|].
    unfold get_u32 in G. pose proof (length_drop f 2) as L.
    destruct (drop 2 f) as [|? [|? [|? [|? ?]]]]; simpl in L; first [discriminate | lia].
  - intros (_ & _ & L). by rewrite get_u32_short by lia.
Qed.

Lemma parseFrame_only_RangeError f e :
  parseFrame text_decode f = Throw e -> e = RangeError.
Proof.
  unfold parseFrame. repeat case_decide; try discriminate.
  unfold get_u32. destruct (drop 2 f) as [|? [|? [|? [|? ?]]]]; simpl; congruence.
Qed.
End properties.
End Frame.

(** ** Fixed-size padding *)

Module Padding.

Definition PAD_BUCKETS : list Z := [512; 4096; 32768; 262144].

(** The size a payload of [n] bytes is padded to: the first bucket that holds it and its 4-byte
    length, else a whole multiple of the largest one. *)
Definition pad_size (n : nat) : Z :=
  let need := Z.of_nat n + 4 in
  let largest := default 512 (PAD_BUCKETS !! (length PAD_BUCKETS - 1)%nat) in
  match find (fun b => need <=? b) PAD_BUCKETS with
  | Some b => b
  | None => (need + largest - 1) / largest * largest
  end.

Definition padToBucket (data : bytes) : result bytes :=
  let out := u8_new (Z.to_nat (pad_size (length data))) in
  let? out := set_u32 0 (Z.of_nat (length data)) out in
  u8_set 4 data out.

Definition unpadFromBucket (padded : bytes) : result bytes :=
  if decide (length padded < 4)%nat then Throw (JsError "padding too short")
  else
    let? len := get_u32 0 padded in
    if Z.of_nat (length padded) <? len + 4 then Throw (JsError "bad padding length")
    else Ok (u8_slice 4 (4 + Z.to_nat len) padded).

(** The sizes that appear on the wire. *)
Definition wire_size (s : Z) : Prop :=
  s ∈ PAD_BUCKETS \/ exists k, 1 <= k /\ s = k * 262144.

Lemma pad_size_cases n :
  let need := Z.of_nat n + 4 in
  pad_size n = if need <=? 512 then 512
               else if need <=? 4096 then 4096
               else if need <=? 32768 then 32768
               else if need <=? 262144 then 262144
               else (need + 262144 - 1) / 262144 * 262144.
Proof.
  intros need. unfold pad_size. fold need. simpl.
  by repeat (destruct (need <=? _); [done|]).
Qed.

Lemma pad_size_fits n : Z.of_nat n + 4 <= pad_size n.
Proof.
  rewrite pad_size_cases. cbv zeta.
  repeat (zcase; [done|]).
  pose proof (ceil_spec (Z.of_nat n + 4) 262144 ltac:(lia)). lia.
Qed.

Lemma padToBucket_layout d :
  padToBucket d = Ok (be32 (to_u32 (Z.of_nat (length d))) ++ d ++
                      replicate (Z.to_nat (pad_size (length d)) - 4 - length d) 0).
Proof.
  pose proof (pad_size_fits (length d)) as Hfit.
  unfold padToBucket, u8_new, set_u32.
  remember (Z.to_nat (pad_size (length d)) - 4 - length d)%nat as r eqn:Hr.
  replace (Z.to_nat (pad_size (length d))) with (4 + (length d + r))%nat by lia.
  rewrite replicate_add, (replicate_add (length d)).
  rewrite u8_set_head by done. cbn [rbind].
  apply u8_set_app; [done | apply length_replicate].
Qed.

Lemma length_padToBucket d p :
  padToBucket d = Ok p -> Z.of_nat (length p) = pad_size (length d).
Proof.
  rewrite padToBucket_layout. intros [= <-].
  pose proof (pad_size_fits (length d)).
  simpl. rewrite length_app, length_replicate. lia.
Qed.

(**  What the wire leaks.  A payload is padded to the smallest wire size that holds it and its
    length prefix, so its length is visible only up to that size: the size of the padded payload is
    one of the four buckets or a multiple of the largest, and no smaller such size would do. *)
Theorem padToBucket_leaks_only_bucket d p :
  padToBucket d = Ok p ->
  wire_size (Z.of_nat (length p)) /\
  Z.of_nat (length d) + 4 <= Z.of_nat (length p) /\
  forall s, wire_size s -> Z.of_nat (length d) + 4 <= s -> Z.of_nat (length p) <= s.
Proof.
  intros ->%length_padToBucket. split; [|split; [apply pad_size_fits|]];
    rewrite pad_size_cases; cbv zeta; unfold wire_size, PAD_BUCKETS.
  - repeat (zcase; [left; set_solver|]).
    right. eexists. split; [|done].
    pose proof (ceil_spec (Z.of_nat (length d) + 4) 262144 ltac:(lia)). lia.
  - intros s Hs Hfit.
    assert (s = 512 \/ s = 4096 \/ s = 32768 \/ exists k, 1 <= k /\ s = k * 262144) as Hs'.
    { destruct Hs as [Hs|?]; [|by auto]. rewrite !elem_of_cons, elem_of_nil in Hs.
      destruct Hs as [?|[?|[?|[?|[]]]]]; auto. right; right; right. exists 1. lia. }
    repeat (zcase; [destruct Hs' as [?|[?|[?|(k & ? & ?)]]]; lia|]).
    destruct Hs' as [?|[?|[?|(k & ? & ->)]]]; try lia.
    pose proof (ceil_spec (Z.of_nat (length d) + 4) 262144 ltac:(lia)). nia.
Qed.

Lemma padToBucket_leaks_only_bucket_witness :
  exists p, padToBucket [1; 2; 3] = Ok p /\ wire_size (Z.of_nat (length p)) /\
  Z.of_nat (length [1; 2; 3]) + 4 <= Z.of_nat (length p) /\
  forall s, wire_size s -> Z.of_nat (length [1; 2; 3]) + 4 <= s -> Z.of_nat (length p) <= s.
Proof.
  eexists. split; [apply padToBucket_layout|].
  apply (padToBucket_leaks_only_bucket [1; 2; 3]). apply padToBucket_layout.
Defined.

Lemma unpad_pad_eq d :
  Z.of_nat (length d) < 2 ^ 32 -> rbind (padToBucket d) unpadFromBucket = Ok d.
Proof.
  intros Hlen. pose proof (length_padToBucket d _ (padToBucket_layout d)) as HL.
  pose proof (pad_size_fits (length d)) as Hfit.
  rewrite padToBucket_layout. cbn [rbind]. set (p := be32 _ ++ _) in *.
  unfold unpadFromBucket. rewrite decide_False by lia.
  rewrite (get_u32_be32 0 p (Z.of_nat (length d)) (d ++ replicate _ 0)) by done.
  cbn [rbind]. rewrite to_u32_id by lia. rewrite (proj2 (Z.ltb_ge _ _)) by lia.
  rewrite Nat2Z.id. f_equal. by apply u8_slice_app.
Qed.

(**  Padding is undone exactly: unpadding a padded payload of any length below 2^32 gives the
    payload. *)
Theorem unpad_pad d :
  Z.of_nat (length d) < 2 ^ 32 -> rbind (padToBucket d) unpadFromBucket = Ok d.
Proof. apply unpad_pad_eq. Qed.

Lemma unpad_pad_witness :
  Z.of_nat (length [7; 8]) < 2 ^ 32 /\ rbind (padToBucket [7; 8]) unpadFromBucket = Ok [7; 8].
Proof. split; [reflexivity|]. apply unpad_pad. reflexivity. Defined.

(** A well-padded buffer: it has a prefix and the prefix does not overrun it. *)
Definition well_padded (p : bytes) : bool :=
  match get_u32 0 p with Ok len => len + 4 <=? Z.of_nat (length p) | Throw _ => false end.

Lemma unpad_ok_iff p :
  (exists d, unpadFromBucket p = Ok d) <-> well_padded p = true.
Proof.
  unfold unpadFromBucket, well_padded.
  case_decide; [rewrite get_u32_short by lia; naive_solver|].
  destruct (get_u32 0 p) as [len|]; simpl; [|naive_solver].
  destruct (Z.ltb_spec (Z.of_nat (length p)) (len + 4)); rewrite ?Z.leb_le; naive_solver lia.
Qed.

Lemma unpad_bytes_ok p d : bytes_ok p -> unpadFromBucket p = Ok d -> bytes_ok d.
Proof.
  unfold unpadFromBucket. intros Hp. case_decide; [done|]. intros (len & _ & E)%rbind_Ok_inv.
  case_match; [done|]. injection E as <-. by apply u8_slice_ok.
Qed.

End Padding.

(** ** The wasm conversation a session drives *)

(** What session.ts calls on the injected [ConversationLike] object and on the platform.  [H] is a
    reference to a conversation object and [W] the world it lives in, so two sessions that hold the
    same reference share it. *)
Class ConversationApi (H W : Type) := {
  conv_signaturePublicKeyHex : H -> M W string;
  conv_keyPackage : H -> M W bytes;
  conv_createAndAdd : H -> bytes -> M W bytes;
  conv_joinFromWelcome : H -> bytes -> M W unit;
  conv_encrypt : H -> bytes -> M W bytes;
  conv_decrypt : H -> bytes -> M W bytes;
  conv_peerSignatureKeyHex : H -> M W string;
  conv_selfMailbox : H -> M W string;
  conv_peerMailbox : H -> M W string;
  conv_mailboxTag : H -> string -> M W string;
  conv_wipe : H -> M W unit;
  randomBytes : nat -> M W bytes
}.

(** [Identity] *)
Record Identity := MkIdentity {
  signatureKeyHex : string;
  id_keyPackage : bytes;
  label : string
}.

Record OfferMsg := MkOffer {
  offer_fromSignatureKey : bytes;
  offer_keyPackage : bytes;
  offer_conversationId : string;
  offer_toRoutingKey : string
}.

Record AcceptMsg := MkAccept {
  accept_fromSignatureKey : bytes;
  accept_keyPackage : bytes;
  accept_conversationId : string;
  accept_mlsWelcome : bytes;
  accept_toRoutingKey : string
}.

Record EnvelopeMsg := MkEnvelope {
  env_messageId : bytes;
  env_routingKey : string;
  env_payload : bytes;
  env_ttlSeconds : Z
}.

#[export] Instance envelope_eq_dec : EqDecision EnvelopeMsg.
Proof. solve_decision. Defined.

Definition DEFAULT_LIFETIME : Lifetime := Duration 86400.

(** ** The session object *)

Record Session (H : Type) := MkSession {
  me : Identity;
  conversationId : string;
  handshake : Handshake.state;
  conv : option H;
  pendingPeerKeyPackage : option bytes;
  defaultLifetime : Lifetime
}.
Arguments MkSession {_} _ _ _ _ _ _.
Arguments me {_} _.
Arguments conversationId {_} _.
Arguments handshake {_} _.
Arguments conv {_} _.
Arguments pendingPeerKeyPackage {_} _.
Arguments defaultLifetime {_} _.

Module Sessions.
Section session.
Context {H W : Type} `{!ConversationApi H W}.
Context (text_decode : bytes -> string).
(** The injected [ConversationFactory]. *)
Context (make : string -> M W H).

(** [new Session(me, conversationId, make)] *)
Definition newSession (i : Identity) (cid : string) : Session H :=
  MkSession i cid Handshake.Idle None None DEFAULT_LIFETIME.

Definition set_handshake (h : Handshake.state) (s : Session H) : Session H :=
  MkSession (me s) (conversationId s) h (conv s) (pendingPeerKeyPackage s) (defaultLifetime s).
Definition set_conv (c : option H) (s : Session H) : Session H :=
  MkSession (me s) (conversationId s) (handshake s) c (pendingPeerKeyPackage s) (defaultLifetime s).
Definition set_pending (p : option bytes) (s : Session H) : Session H :=
  MkSession (me s) (conversationId s) (handshake s) (conv s) p (defaultLifetime s).
Definition set_default (l : Lifetime) (s : Session H) : Session H :=
  MkSession (me s) (conversationId s) (handshake s) (conv s) (pendingPeerKeyPackage s) l.

Definition St : Type := Session H * W.

(** Methods of the parts, run in the session. *)
Definition self : M St (Session H) := gets fst.
Definition update (f : Session H -> Session H) : M St unit := modify (fun '(s, w) => (f s, w)).
Definition world {A} (m : M W A) : M St A := zoom snd (fun w s => (s.1, w)) m.
Definition gate {A} (m : M Handshake.state A) : M St A :=
  zoom (fun s => handshake s.1) (fun h s => (set_handshake h s.1, s.2)) m.

Definition setDefaultLifetime (l : Lifetime) : M St unit := update (set_default l).
Definition getDefaultLifetime : M St Lifetime := gets (fun s => defaultLifetime s.1).
Definition canSend (s : St) : bool := Handshake.canSendMessage (handshake s.1).

Definition requireConv : M St H :=
  let! s := self in
  match conv s with
  | Some c => ret c
  | None => throw (JsError "no active conversation")
  end.

(** The roster's peer key must agree with the accepted one. *)
Definition crossCheckPeerKey (c : H) : M St unit :=
  let! key := world (conv_peerSignatureKeyHex c) in
  do! gate (Handshake.observePeerKey key) in
  let! s := get in
  if canSend s then ret tt else throw (JsError "peer key cross-check failed").

Definition makeOffer (toRoutingKey : string) : M St OfferMsg :=
  let! s := self in
  do! gate (Handshake.sendOffer (conversationId s)) in
  ret (MkOffer (hexToBytes (signatureKeyHex (me s))) (id_keyPackage (me s))
         (conversationId s) toRoutingKey).

Definition onAcceptReceived (accept : AcceptMsg) : M St unit :=
  let! s := self in
  if decide (accept_conversationId accept <> conversationId s)
  then throw (JsError "conversation id mismatch")
  else
    let! c := world (make (label (me s))) in
    do! world (conv_joinFromWelcome c (accept_mlsWelcome accept)) in
    do! update (set_conv (Some c)) in
    do! gate (Handshake.receiveAccept (bytesToHex (accept_fromSignatureKey accept))) in
    crossCheckPeerKey c.

Definition onOfferReceived (offer : OfferMsg) : M St unit :=
  let! s := self in
  if decide (offer_conversationId offer <> conversationId s)
  then throw (JsError "conversation id mismatch")
  else
    do! gate (Handshake.receiveOffer (conversationId s)
                (bytesToHex (offer_fromSignatureKey offer))) in
    update (set_pending (Some (offer_keyPackage offer))).

Definition acceptOffer (toRoutingKey : string) : M St AcceptMsg :=
  let! s := self in
  match pendingPeerKeyPackage s with
  | None => throw (JsError "no offer to accept")
  | Some peerKeyPackage =>
      let! c := world (make (label (me s))) in
      let! welcome := world (conv_createAndAdd c peerKeyPackage) in
      do! update (set_conv (Some c)) in
      do! gate Handshake.accept in
      do! crossCheckPeerKey c in
      ret (MkAccept (hexToBytes (signatureKeyHex (me s))) (id_keyPackage (me s))
             (conversationId s) welcome toRoutingKey)
  end.

Definition inboundMailbox : M St string :=
  let! c := requireConv in world (conv_selfMailbox c).

Definition emit (framed : bytes) (ttlSeconds : Z) : M St EnvelopeMsg :=
  do! gate Handshake.assertCanSend in
  let! c := requireConv in
  let! messageId := world (randomBytes 16) in
  let! routingKey := world (conv_peerMailbox c) in
  let! padded := of_result (Padding.padToBucket framed) in
  let! payload := world (conv_encrypt c padded) in
  ret (MkEnvelope messageId routingKey payload ttlSeconds).

Definition sendMessage (plaintext : bytes) (lifetime : option Lifetime) (ttlSeconds : option Z) :
    M St EnvelopeMsg :=
  let! s := self in
  let effective := default (defaultLifetime s) lifetime in
  let! framed := of_result (Frame.frameMessage plaintext effective) in
  emit framed (default (Frame.deriveTtlSeconds effective) ttlSeconds).

Definition sendRevoke (targetMessageId : string) : M St EnvelopeMsg :=
  let! framed := of_result (Frame.frameRevoke targetMessageId) in
  emit framed Frame.SEVEN_DAYS_SECONDS.

Definition receiveMessage (env : EnvelopeMsg) : M St Frame.ParsedFrame :=
  do! gate Handshake.assertCanSend in
  let! c := requireConv in
  let! padded := world (conv_decrypt c (env_payload env)) in
  let! key := world (conv_peerSignatureKeyHex c) in
  do! gate (Handshake.observePeerKey key) in
  let! s := get in
  if canSend s
  then let! framed := of_result (Padding.unpadFromBucket padded) in
       of_result (Frame.parseFrame text_decode framed)
  else throw (JsError "peer key changed; message dropped").

Definition wipe : M St unit :=
  let! s := self in
  do! match conv s with Some c => world (conv_wipe c) | None => ret tt end in
  do! update (set_conv None) in
  update (set_pending None).

(** *** Properties *)

Lemma assertCanSend_open s w c k :
  handshake s = Handshake.Established c k ->
  gate Handshake.assertCanSend (s, w) = (Ok tt, (s, w)).
Proof.
  intros E. unfold gate, zoom. simpl. rewrite E, Handshake.run_assertCanSend.
  simpl. rewrite <-E. by destruct s.
Qed.

Lemma assertCanSend_closed s w :
  canSend (s, w) = false ->
  exists m, gate Handshake.assertCanSend (s, w) = (Throw (JsError m), (s, w)).
Proof.
  unfold canSend. intros E. unfold gate, zoom. simpl in *.
  rewrite Handshake.run_assertCanSend, E. simpl. destruct s. eauto.
Qed.

Lemma canSend_inv s w :
  canSend (s, w) = true -> exists c k, handshake s = Handshake.Established c k.
Proof. unfold canSend. simpl. destruct (handshake s); try discriminate. eauto. Qed.

Lemma observe_run key s w :
  gate (Handshake.observePeerKey key) (s, w) =
  (Ok tt, (set_handshake match handshake s with
                         | Handshake.Established c k =>
                             if decide (key = k) then handshake s else Handshake.Blocked c
                         | h => h
                         end s, w)).
Proof. unfold gate, zoom. simpl. by destruct (handshake s). Qed.

Lemma set_handshake_id s : set_handshake (handshake s) s = s.
Proof. by destruct s. Qed.

Lemma requireConv_run s w :
  requireConv (s, w) = match conv s with
                       | Some c => (Ok c, (s, w))
                       | None => (Throw (JsError "no active conversation"), (s, w))
                       end.
Proof. unfold requireConv, bind, self, gets. simpl. by destruct (conv s). Qed.

(**  Nothing leaves before both parties have accepted.  Outside [Established], sending a message
    or a revoke and receiving an envelope all throw, and leave the session and the world as they
    were: no randomness is drawn, nothing is encrypted, nothing is decrypted. *)
Theorem gated_operations_are_inert s w :
  canSend (s, w) = false ->
  (forall p l t, exists m, sendMessage p l t (s, w) = (Throw (JsError m), (s, w))) /\
  (forall i, exists m, sendRevoke i (s, w) = (Throw (JsError m), (s, w))) /\
  (forall env, exists m, receiveMessage env (s, w) = (Throw (JsError m), (s, w))).
Proof.
  intros (m & E)%assertCanSend_closed. split_and!; intros; exists m.
  - unfold sendMessage, emit, bind, self, gets, of_result. rewrite Frame.frameMessage_layout.
    by rewrite E.
  - unfold sendRevoke, emit, bind, of_result. rewrite Frame.frameRevoke_layout. by rewrite E.
  - unfold receiveMessage, bind. by rewrite E.
Qed.

(** What [receiveMessage] does once the gate is open and MLS has decrypted. *)
Lemma receive_run s w c k h env padded w1 key w2 :
  handshake s = Handshake.Established c k -> conv s = Some h ->
  conv_decrypt h (env_payload env) w = (Ok padded, w1) ->
  conv_peerSignatureKeyHex h w1 = (Ok key, w2) ->
  receiveMessage env (s, w) =
    if decide (key = k)
    then (rbind (Padding.unpadFromBucket padded) (Frame.parseFrame text_decode), (s, w2))
    else (Throw (JsError "peer key changed; message dropped"),
          (set_handshake (Handshake.Blocked c) s, w2)).
Proof.
  intros Hs Hc Hd Hk.
  unfold receiveMessage, bind at 1. erewrite assertCanSend_open by done.
  unfold bind at 1. rewrite requireConv_run, Hc.
  unfold bind at 1, world, zoom. cbn [snd fst]. rewrite Hd.
  unfold bind at 1. cbn [snd fst]. rewrite Hk.
  unfold bind at 1. cbn [snd fst]. rewrite observe_run, Hs.
  unfold bind at 1, get, canSend. cbn [snd fst].
  case_decide as Hkey.
  - rewrite <-Hs, set_handshake_id, Hs. simpl. unfold bind, of_result.
    by destruct (Padding.unpadFromBucket padded).
  - done.
Qed.

(**  A substituted key never surfaces a message.  When the conversation reports a peer key other
    than the pinned one, [receiveMessage] throws whatever the decrypted bytes are, and leaves the
    handshake blocked: from then on no message, revoke or envelope goes through. *)
Theorem key_change_drops_and_blocks s w c k h env padded w1 key w2 :
  handshake s = Handshake.Established c k -> conv s = Some h ->
  conv_decrypt h (env_payload env) w = (Ok padded, w1) ->
  conv_peerSignatureKeyHex h w1 = (Ok key, w2) ->
  key <> k ->
  exists s',
    receiveMessage env (s, w) =
      (Throw (JsError "peer key changed; message dropped"), (s', w2)) /\
    handshake s' = Handshake.Blocked c /\
    forall os, canSend (set_handshake (Handshake.run os (handshake s')) s', w2) = false.
Proof.
  intros Hs Hc Hd Hk Hne. exists (set_handshake (Handshake.Blocked c) s).
  rewrite (receive_run _ _ _ _ _ _ _ _ _ _ Hs Hc Hd Hk), decide_False by done.
  split; [done|]. split; [done|]. intros os. unfold canSend. simpl. by rewrite Handshake.run_blocked.
Qed.

Lemma world_inv {A} (m : M W A) st a st' :
  world m st = (Ok a, st') -> exists w', m st.2 = (Ok a, w') /\ st' = (st.1, w').
Proof.
  destruct st as [s w]. unfold world, zoom. simpl. destruct (m w) as [r w']. intros [= -> <-]. eauto.
Qed.

(** What a successful [emit] did: the gate was open, and the payload is the padded frame encrypted
    by the session's conversation. *)
Lemma emit_inv f t s w env st' :
  emit f t (s, w) = (Ok env, st') ->
  canSend (s, w) = true /\ env_ttlSeconds env = t /\
  exists h padded w1 w2,
    conv s = Some h /\ Padding.padToBucket f = Ok padded /\
    conv_encrypt h padded w1 = (Ok (env_payload env), w2) /\ st' = (s, w2).
Proof.
  intros E. destruct (canSend (s, w)) eqn:Hg.
  2:{ apply assertCanSend_closed in Hg as (m & Hm). unfold emit, bind in E.
      by rewrite Hm in E. }
  destruct (canSend_inv _ _ Hg) as (c & k & Hs).
  unfold emit, bind at 1 in E. erewrite assertCanSend_open in E by done.
  unfold bind at 1 in E. rewrite requireConv_run in E.
  destruct (conv s) as [h|]; [|done].
  apply bind_Ok_inv in E as (mid & st1 & (w1 & _ & ->)%world_inv & E).
  apply bind_Ok_inv in E as (rk & st2 & (w2 & _ & ->)%world_inv & E).
  apply bind_Ok_inv in E as (padded & st3 & [= Hp <-] & E).
  apply bind_Ok_inv in E as (payload & st4 & (w3 & He & ->)%world_inv & E).
  injection E as <- <-. simpl in *. eauto 10.
Qed.

(**  End to end.  A message one session sends is the message the other receives, with the same
    lifetime (its seconds modulo 2^32), when the MLS layer decrypts what it encrypted and reports
    the pinned author key: framing and padding undo each other through the gate. *)
Theorem send_receive sA wA hA st p l t env sB wB hB c k :
  sendMessage p (Some l) t (sA, wA) = (Ok env, st) ->
  conv sA = Some hA -> conv sB = Some hB -> handshake sB = Handshake.Established c k ->
  (forall padded w w', conv_encrypt hA padded w = (Ok (env_payload env), w') ->
     exists w1 w2, conv_decrypt hB (env_payload env) wB = (Ok padded, w1) /\
                   conv_peerSignatureKeyHex hB w1 = (Ok k, w2)) ->
  Z.of_nat (length p) + 6 < 2 ^ 32 ->
  exists wB',
    receiveMessage env (sB, wB) =
      (Ok (Frame.Message p (match l with Duration s => Duration (s mod 2 ^ 32) | _ => l end)),
       (sB, wB')).
Proof.
  intros Hsend HcA HcB HhB Hmls Hlen.
  destruct (Frame.parse_frameMessage_eq text_decode p l) as (f & Hf & Hparse & Hfl).
  unfold sendMessage in Hsend.
  apply bind_Ok_inv in Hsend as (? & ? & [= <- <-] & Hsend). cbn [default] in Hsend.
  apply bind_Ok_inv in Hsend as (f' & st1 & [= Hf' <-] & Hsend).
  rewrite Hf in Hf'. injection Hf' as <-.
  apply emit_inv in Hsend as (_ & _ & h & padded & w1 & w2 & Hc & Hp & He & _).
  rewrite HcA in Hc. injection Hc as <-.
  destruct (Hmls _ _ _ He) as (wB1 & wB2 & Hd & Hk). exists wB2.
  rewrite (receive_run _ _ _ _ _ _ _ _ _ _ HhB HcB Hd Hk), decide_True by done.
  pose proof (Padding.unpad_pad_eq f ltac:(lia)) as Hu. rewrite Hp in Hu. simpl in Hu.
  rewrite Hu. simpl. by rewrite Hparse.
Qed.
End session.

(** A world in which encryption is the identity, for evaluating the session on examples: the
    conversation is the peer's key. *)
Module Toy.
#[local] Instance toy_api : ConversationApi string unit := {
  conv_signaturePublicKeyHex h := ret "bb";
  conv_keyPackage h := ret [1];
  conv_createAndAdd h kp := ret [2];
  conv_joinFromWelcome h wl := ret tt;
  conv_encrypt h p := ret p;
  conv_decrypt h p := ret p;
  conv_peerSignatureKeyHex h := ret h;
  conv_selfMailbox h := ret "mine";
  conv_peerMailbox h := ret "theirs";
  conv_mailboxTag h s := ret s;
  conv_wipe h := ret tt;
  randomBytes n := ret (replicate n 7)
}.

Definition open_session (key : string) : Session string :=
  MkSession (MkIdentity "bb" [1] "me") "c-1" (Handshake.Established "c-1" "aa") (Some key) None
    DEFAULT_LIFETIME.
End Toy.
Import Toy.
#[local] Existing Instance Toy.toy_api.

Lemma gated_operations_are_inert_witness :
  let s := newSession (H := string) (MkIdentity "bb" [1] "me") "c-1" in
  canSend (W := unit) (s, tt) = false /\
  exists m, sendMessage [104; 105] None None (s, tt) = (Throw (JsError m), (s, tt)).
Proof.
  split; [reflexivity|].
  apply (gated_operations_are_inert text_decode_bytes (newSession _ "c-1") tt eq_refl).
Defined.

Lemma key_change_drops_and_blocks_witness :
  "cc" <> "aa" /\
  exists s', receiveMessage text_decode_bytes (MkEnvelope [1] "mine" [0; 0; 0; 2; 0; 0; 104] 60)
               (open_session "cc", tt)
             = (Throw (JsError "peer key changed; message dropped"), (s', tt)) /\
             handshake s' = Handshake.Blocked "c-1".
Proof.
  split; [discriminate|].
  destruct (key_change_drops_and_blocks (H := string) (W := unit) (ConversationApi0 := toy_api) text_decode_bytes (open_session "cc") tt "c-1" "aa" "cc"
              (MkEnvelope [1] "mine" [0; 0; 0; 2; 0; 0; 104] 60) [0; 0; 0; 2; 0; 0; 104] tt "cc" tt
              eq_refl eq_refl eq_refl eq_refl ltac:(discriminate)) as (s' & H1 & H2 & _).
  exists s'. split; [exact H1|exact H2].
Defined.

Lemma send_receive_witness :
  exists env, sendMessage [104; 105] (Some (Duration 30)) None (open_session "aa", tt)
              = (Ok env, (open_session "aa", tt)) /\
  exists w, receiveMessage text_decode_bytes env (open_session "aa", tt) =
    (Ok (Frame.Message [104; 105] (Duration 30)), (open_session "aa", w)).
Proof.
  eexists. split; [vm_compute; reflexivity|].
  eapply (send_receive text_decode_bytes (open_session "aa") tt "aa" _ [104; 105] (Duration 30)
            None _ (open_session "aa") tt "aa" "c-1" "aa");
    [vm_compute; reflexivity | reflexivity | reflexivity | reflexivity | | reflexivity].
  intros padded w w' [= E]. exists tt, tt. split; [|reflexivity]. by rewrite E.
Defined.
End Sessions.
