(* ===== verification/Group.v ===== *)
(** * Group sessions and the receive codecs (client/src/group.ts)

    The length-prefixed list codec, the tagged blob the wasm [receive] returns, the dispatch of an
    inbound payload ([receiveGroup]) and the [GroupSession] view of one conversation.  The wasm
    [Conversation] is a parameter: the class [GroupApi]. *)

From S2P Require Import Prelude.
From S2P Require Import Session.

(** ** Length-prefixed lists *)

Module ListCodec.

(** The loop of [encodeList]: one length and one body per item. *)
Fixpoint encode_items (items : list bytes) (pos : nat) (out : bytes) : result bytes :=
  match items with
  | [] => Ok out
  | it :: items' =>
      let? out := set_u32 pos (Z.of_nat (length it)) out in
      let? out := u8_set (pos + 4) it out in
      encode_items items' (pos + 4 + length it) out
  end.

Definition encodeList (items : list bytes) : result bytes :=
  let total := foldl (fun n it => n + (4 + length it))%nat 4%nat items in
  let out := u8_new total in
  let? out := set_u32 0 (Z.of_nat (length items)) out in
  encode_items items 4 out.

Definition out_of_fuel : exn := JsError "decode: out of fuel".

(** The loop of [decodeListAt]: [n] items are left to read at [pos]. *)
Fixpoint decode_items (fuel : nat) (n : Z) (b : bytes) (pos : nat) : result (list bytes * nat) :=
  if n <=? 0 then Ok ([], pos)
  else match fuel with
       | O => Throw out_of_fuel
       | S fuel =>
           let? len := get_u32 pos b in
           let pos := (pos + 4)%nat in
           let it := u8_slice pos (pos + Z.to_nat len) b in
           let? r := decode_items fuel (n - 1) b (pos + Z.to_nat len) in
           Ok (it :: r.1, r.2)
       end.

(** Each turn of the loop reads four bytes that are there, so as many turns as there are bytes are
    enough ([decodeListAt_fuel]). *)
Definition decodeListAt (b : bytes) (pos : nat) : result (list bytes * nat) :=
  let? n := get_u32 pos b in
  decode_items (S (length b)) n b (pos + 4).

Definition decodeList (b : bytes) : result (list bytes) :=
  rmap fst (decodeListAt b 0).

(** The bytes an encoded list is made of. *)
Definition item_bytes (it : bytes) : bytes := be32 (to_u32 (Z.of_nat (length it))) ++ it.
Definition list_bytes (items : list bytes) : bytes :=
  be32 (to_u32 (Z.of_nat (length items))) ++ concat (item_bytes <$> items).

Lemma length_item_bytes it : length (item_bytes it) = (4 + length it)%nat.
Proof. unfold item_bytes. by rewrite length_app, length_be32. Qed.

Lemma total_length items n :
  foldl (fun n it => n + (4 + length it))%nat n items
  = (n + length (concat (item_bytes <$> items)))%nat.
Proof.
  revert n. induction items as [|it items IH]; intros n; cbn [foldl fmap list_fmap concat]; [simpl; lia|].
  rewrite IH, length_app, length_item_bytes. lia.
Qed.

Lemma encode_items_fill items pos pre :
  length pre = pos ->
  encode_items items pos (pre ++ replicate (length (concat (item_bytes <$> items))) 0)
  = Ok (pre ++ concat (item_bytes <$> items)).
Proof.
  revert pos pre. induction items as [|it items IH]; intros pos pre Hpos; cbn [encode_items].
  - simpl. by rewrite app_nil_r.
  - cbn [fmap list_fmap concat]. set (rest := concat (item_bytes <$> items)) in *.
    rewrite length_app, length_item_bytes.
    replace (4 + length it + length rest)%nat with (4 + (length it + length rest))%nat by lia.
    rewrite (replicate_add 4), (replicate_add (length it)). unfold set_u32.
    rewrite u8_set_app by done. cbn [rbind].
    rewrite (app_assoc pre), (u8_set_app (pos + 4)).
    + cbn [rbind]. rewrite (app_assoc (pre ++ _)), (IH (pos + 4 + length it)%nat).
      * unfold item_bytes. by rewrite <-!app_assoc.
      * rewrite !length_app, length_be32. lia.
    + rewrite length_app, length_be32. lia.
    + apply length_replicate.
Qed.

Lemma encodeList_layout items : encodeList items = Ok (list_bytes items).
Proof.
  unfold encodeList, u8_new, list_bytes. rewrite total_length.
  rewrite replicate_add. unfold set_u32. rewrite u8_set_head by done. cbn [rbind].
  by apply encode_items_fill.
Qed.

(** Item lengths that fit the 32-bit prefix. *)
Definition fits (it : bytes) : Prop := Z.of_nat (length it) < 2 ^ 32.

Lemma decode_items_read items pre post fuel n :
  Forall fits items -> (length items <= fuel)%nat -> n = Z.of_nat (length items) ->
  decode_items fuel n (pre ++ concat (item_bytes <$> items) ++ post) (length pre)
  = Ok (items, (length pre + length (concat (item_bytes <$> items)))%nat).
Proof.
  intros H. revert pre fuel n. induction H as [|it items Hit H IH]; intros pre fuel n Hfuel ->.
  - destruct fuel; simpl; by rewrite Nat.add_0_r.
  - destruct fuel as [|fuel]; [simpl in Hfuel; lia|].
    cbn [decode_items]. rewrite (proj2 (Z.leb_gt _ _)) by (cbn [length]; lia).
    cbn [fmap list_fmap concat]. set (rest := concat (item_bytes <$> items)) in *.
    rewrite (get_u32_be32 _ _ (Z.of_nat (length it)) (it ++ rest ++ post)).
    2:{ rewrite drop_app_length. unfold item_bytes. by rewrite <-!app_assoc. }
    cbn [rbind]. rewrite to_u32_id by (unfold fits in Hit; lia). rewrite Nat2Z.id.
    set (pre' := pre ++ item_bytes it).
    assert (length pre' = length pre + 4 + length it)%nat as Hpre'.
    { unfold pre'. rewrite length_app, length_item_bytes. lia. }
    rewrite <-Hpre'.
    replace (pre ++ (item_bytes it ++ rest) ++ post) with (pre' ++ rest ++ post)
      by (unfold pre'; by rewrite <-!app_assoc).
    rewrite (IH pre' fuel) by (cbn [length] in *; lia). cbn [rbind fst snd].
    f_equal. f_equal; [f_equal|].
    + unfold pre' at 2, item_bytes. rewrite (app_assoc pre (be32 _) it), <-(app_assoc (pre ++ _) it).
      apply u8_slice_app; rewrite ?length_app, ?length_be32; lia.
    + rewrite length_app, length_item_bytes. lia.
Qed.

Lemma decodeListAt_list_bytes items pre post :
  Forall fits items -> Z.of_nat (length items) < 2 ^ 32 ->
  decodeListAt (pre ++ list_bytes items ++ post) (length pre)
  = Ok (items, (length pre + length (list_bytes items))%nat).
Proof.
  intros Hf Hn. unfold decodeListAt, list_bytes.
  rewrite (get_u32_be32 _ _ (Z.of_nat (length items)) (concat (item_bytes <$> items) ++ post))
    by (rewrite drop_app_length; by rewrite <-app_assoc).
  cbn [rbind]. rewrite to_u32_id by lia.
  rewrite <-(app_assoc (be32 _)), (app_assoc pre).
  replace (length pre + 4)%nat with (length (pre ++ be32 (Z.of_nat (length items))))
    by (rewrite length_app, length_be32; lia).
  rewrite decode_items_read; [|done| |done].
  - f_equal. f_equal. rewrite !length_app, length_be32. lia.
  - rewrite !length_app.
    assert (length items <= length (concat (item_bytes <$> items)))%nat; [|lia].
    clear. induction items as [|it items IH]; [done|].
    cbn [fmap list_fmap concat]. rewrite length_app, length_item_bytes. simpl. lia.
Qed.

Lemma decode_encode_eq items :
  Forall fits items -> Z.of_nat (length items) < 2 ^ 32 ->
  decodeList (list_bytes items) = Ok items.
Proof.
  intros Hf Hn. unfold decodeList.
  pose proof (decodeListAt_list_bytes items [] [] Hf Hn) as H. cbn [app length] in H.
  rewrite app_nil_r in H. by rewrite H.
Qed.

(**  The list codec round-trips: decoding an encoded list gives its items, whatever bytes they
    hold, as long as the count and each length fit their 32-bit fields. *)
Theorem decode_encode items :
  Forall fits items -> Z.of_nat (length items) < 2 ^ 32 ->
  rbind (encodeList items) decodeList = Ok items.
Proof.
  intros Hf Hn. rewrite encodeList_layout. by apply decode_encode_eq.
Qed.

Lemma decode_encode_witness :
  Forall fits [[1; 2]; []; [255]] /\
  rbind (encodeList [[1; 2]; []; [255]]) decodeList = Ok [[1; 2]; []; [255]].
Proof.
  assert (Forall fits [[1; 2]; []; [255]]) as H by (repeat constructor).
  split; [exact H|]. apply decode_encode; [exact H | reflexivity].
Defined.

Lemma decode_items_fuel b fuel n pos :
  (length b < pos + 4 * fuel)%nat -> decode_items (S fuel) n b pos <> Throw out_of_fuel.
Proof.
  revert n pos. induction fuel as [|fuel IH]; intros n pos Hf; cbn [decode_items];
    (case_match; [done|]);
    destruct (get_u32 pos b) as [len|e] eqn:G; cbn [rbind].
  - apply get_u32_inv in G as (? & ? & ? & ? & ? & G & _).
    apply (f_equal length) in G. rewrite length_drop in G. simpl in G. lia.
  - by apply get_u32_throw in G as ->.
  - apply get_u32_inv in G as (? & ? & ? & ? & ? & G & _).
    apply (f_equal length) in G. rewrite length_drop in G. simpl in G.
    specialize (IH (n - 1) (pos + 4 + Z.to_nat len)%nat ltac:(lia)).
    cbn [decode_items] in IH. destruct (if n - 1 <=? 0 then _ else _); simpl; congruence.
  - by apply get_u32_throw in G as ->.
Qed.

(**  Decoding terminates on every input: however large the counts and lengths a hostile blob
    announces, the loop of [decodeListAt] ends within one turn per byte, with a list or a
    [RangeError]; the bound on its turns is never what stops it. *)
Theorem decodeListAt_fuel b pos : decodeListAt b pos <> Throw out_of_fuel.
Proof.
  unfold decodeListAt. destruct (get_u32 pos b) as [n|e] eqn:G; cbn [rbind].
  - apply decode_items_fuel. lia.
  - by apply get_u32_throw in G as ->.
Qed.

(** The memory a decoded list takes, counting four bytes per item. *)
Definition weight (items : list bytes) : nat := length (concat (item_bytes <$> items)).

Lemma weight_cons it items : weight (it :: items) = (4 + length it + weight items)%nat.
Proof. unfold weight. cbn [fmap list_fmap concat]. by rewrite length_app, length_item_bytes. Qed.

Lemma decode_items_weight fuel n b pos items pos' :
  decode_items fuel n b pos = Ok (items, pos') -> (weight items <= length b - pos)%nat.
Proof.
  revert n pos items pos'. induction fuel as [|fuel IH]; intros n pos items pos';
    cbn [decode_items]; case_match; try done; try (intros [= <- <-]; unfold weight; simpl; lia).
  intros (len & G & E)%rbind_Ok_inv. apply rbind_Ok_inv in E as ([r p] & Hr & [= <- <-]).
  apply IH in Hr. apply get_u32_inv in G as (? & ? & ? & ? & ? & G & _).
  apply (f_equal length) in G. rewrite length_drop in G. simpl in G.
  rewrite weight_cons, length_u8_slice. cbn [fst]. lia.
Qed.

(**  No amplification: what a blob decodes to, counting four bytes of prefix per item, is never
    larger than the blob, so a short blob cannot make the client allocate a long list. *)
Theorem decodeList_no_amplification b items :
  decodeList b = Ok items -> (weight items + 4 <= length b)%nat.
Proof.
  unfold decodeList, decodeListAt. destruct (get_u32 0 b) as [n|] eqn:G; [|done]. cbn [rbind].
  destruct (decode_items (S (length b)) n b (0 + 4)) as [[l p]|] eqn:E; [|done]. intros [= <-].
  apply decode_items_weight in E. cbn [fst].
  apply get_u32_inv in G as (? & ? & ? & ? & ? & G & _).
  apply (f_equal length) in G. rewrite length_drop in G. simpl in G. lia.
Qed.

Lemma decodeList_no_amplification_witness :
  decodeList [0; 0; 0; 1; 0; 0; 0; 9; 5] = Ok [[5]] /\
  (weight [[5]%Z] + 4 <= length [0; 0; 0; 1; 0; 0; 0; 9; 5]%Z)%nat.
Proof.
  split; [reflexivity|]. apply decodeList_no_amplification. reflexivity.
Defined.

End ListCodec.

(** ** The tagged receive blob *)

(** [Decoded] *)
Inductive Decoded :=
  | Application (plaintext : bytes) (fromOwnAccount : bool)
  | Membership (added removed : list string)
  | Evicted
  | Proposal.

Definition decodeReceived (b : bytes) : result Decoded :=
  match b !! 0%nat with
  | Some 0 => Ok (Application (drop 2 b) (bool_decide (b !! 1%nat = Some 1)))
  | Some 1 =>
      let? added := ListCodec.decodeListAt b 1 in
      let? removed := ListCodec.decodeListAt b added.2 in
      Ok (Membership (bytesToHex <$> added.1) (bytesToHex <$> removed.1))
  | Some 2 => Ok Evicted
  | _ => Ok Proposal
  end.

(** [GroupReceived]; [GMessage] and [GRevoke] are the two frames of the source's 'message'. *)
Inductive GroupReceived :=
  | GMessage (plaintext : bytes) (lifetime : Lifetime) (fromOwnAccount : bool)
  | GRevoke (targetMessageId : string) (fromOwnAccount : bool)
  | GMembership (added removed : list string)
  | GEvicted
  | GProposal
  | GControl (controlType version : Z) (payload : bytes) (fromOwnAccount : bool)
  | GIgnored.

Section receive.
Context (text_decode : bytes -> string).

Definition decodeGroupReceived (blob : bytes) : result GroupReceived :=
  let? decoded := decodeReceived blob in
  match decoded with
  | Application plaintext own =>
      match catch (rbind (Padding.unpadFromBucket plaintext) (Frame.parseFrame text_decode)) with
      | None => Ok GIgnored
      | Some (Frame.Control t v p) => Ok (GControl t v p own)
      | Some Frame.Ignored => Ok GIgnored
      | Some (Frame.Message p l) => Ok (GMessage p l own)
      | Some (Frame.Revoke i) => Ok (GRevoke i own)
      end
  | Membership added removed => Ok (GMembership added removed)
  | Evicted => Ok GEvicted
  | Proposal => Ok GProposal
  end.

(** [receiveGroup], after [conv.receive] has returned its [groupId, blob] pair. *)
Definition routeReceived (outer : list bytes) : result (string * GroupReceived) :=
  match outer with
  | [g; blob] => let? r := decodeGroupReceived blob in Ok (bytesToHex g, r)
  | _ => Throw (JsError "receive did not return a group id and a result")
  end.

(**  No application payload wedges the receive loop: whatever a peer puts inside an application
    message (bad padding, an unknown or truncated frame), the decoder returns, with the frame or
    with [GIgnored]; and the own-account flag of what it returns is the crypto layer's flag byte,
    never something the payload can set. *)
Theorem application_never_throws flag plaintext :
  exists r, decodeGroupReceived (0 :: flag :: plaintext) = Ok r /\
    match r with
    | GMessage _ _ own | GRevoke _ own | GControl _ _ _ own => own = bool_decide (flag = 1)
    | GIgnored => True
    | _ => False
    end.
Proof.
  unfold decodeGroupReceived. cbn [decodeReceived lookup list_lookup rbind drop].
  replace (bool_decide (Some flag = Some 1)) with (bool_decide (flag = 1))
    by (apply bool_decide_ext; naive_solver).
  by destruct (catch _) as [[]|]; (eexists; split; [reflexivity|]).
Qed.
End receive.

(** ** The wasm conversation, N-member surface *)

(** The injected [GroupConversationLike].  Every per-conversation method takes the conversation's
    group id; the optional methods of the interface are [option]s, and a call may throw. *)
Class GroupApi (H W : Type) := {
  g_signaturePublicKeyHex : H -> M W string;
  g_accountKeyHex : H -> M W string;
  g_keyPackage : H -> M W bytes;
  g_groupEpoch : option (H -> string -> M W Z);
  g_keyPackageLastResort : option (H -> M W bytes);
  g_createGroup : H -> bytes -> M W bytes;
  g_createSelfGroup : option (H -> bytes -> M W bytes);
  g_keyPackageSelfEligible : option (H -> bytes -> M W bool);
  g_closeConversation : option (H -> string -> M W unit);
  g_channelUnlinked : option (H -> string -> M W bool);
  g_peerAccountKeys : option (H -> string -> M W (list string));
  g_flushReceiveRatchet : option (H -> string -> M W bool);
  g_createSelf : H -> M W bytes;
  g_listConversations : H -> M W (list string);
  g_addMember : H -> string -> bytes -> M W bytes;
  g_stageAdd : H -> string -> bytes -> M W bytes;
  g_confirmAdd : H -> string -> M W unit;
  g_abortAdd : H -> string -> M W unit;
  g_removeMember : H -> string -> string -> M W bytes;
  g_stageRemove : H -> string -> string -> M W bytes;
  g_confirmRemove : H -> string -> M W unit;
  g_abortRemove : H -> string -> M W unit;
  g_pendingKind : H -> string -> M W Z;
  g_pendingTarget : H -> string -> M W string;
  g_pendingCommit : H -> string -> M W bytes;
  g_pendingWelcome : H -> string -> M W bytes;
  g_mailboxTag : H -> string -> M W string;
  g_joinFromWelcome : H -> bytes -> M W string;
  g_encrypt : H -> string -> bytes -> M W bytes;
  g_receive : H -> bytes -> M W bytes;
  g_roster : H -> string -> M W (list string);
  g_isSelfConversation : H -> string -> M W bool;
  g_isSelfConversationStrict : option (H -> string -> M W bool);
  g_selfClassificationReason : option (H -> string -> M W string);
  g_abandonDeadSelfGroup : option (H -> string -> bool -> M W bool);
  g_credentialCertified : option (H -> M W bool);
  g_groupMailbox : H -> string -> M W string;
  g_authorizeDevice : H -> string -> Z -> string -> string -> M W string;
  g_adoptCertificate : H -> string -> Z -> string -> M W unit;
  g_authorizeScannedDevice : H -> bytes -> Z -> M W bytes;
  g_recoverWithSeed : H -> string -> Z -> M W unit;
  g_reauthorizeAtEpoch : H -> Z -> M W unit;
  g_certEpoch : H -> M W Z;
  g_revokeDevice : option (H -> string -> Z -> M W string);
  g_ingestRevocation : option (H -> string -> M W bool);
  g_revokedCount : option (H -> M W Z);
  g_isDeviceRevoked : option (H -> string -> M W bool);
  g_accountFloor : option (H -> M W Z);
  g_wipe : H -> M W unit;
  g_randomBytes : nat -> M W bytes
}.

(** [GroupSession]: one conversation of the shared multi-group object. *)
Record GroupSession (H : Type) := MkGroupSession {
  gconv : H;
  groupId : string
}.
Arguments MkGroupSession {_} _ _.
Arguments gconv {_} _.
Arguments groupId {_} _.

Inductive PendingKind := PendingAdd | PendingRemove.

Module GroupSessions.
Section group_session.
Context {H W : Type} `{!GroupApi H W}.
Context (text_decode : bytes -> string).

(** Split a two-item blob, or throw. *)
Definition two_parts (msg : string) (blob : bytes) : M W (bytes * bytes) :=
  let! parts := of_result (ListCodec.decodeList blob) in
  match parts with
  | [a; b] => ret (a, b)
  | _ => throw (JsError msg)
  end.

Definition create (c : H) (keyPackages : list bytes) : M W (bytes * GroupSession H) :=
  let! blob := of_result (ListCodec.encodeList keyPackages) in
  let! made := g_createGroup c blob in
  let! p := two_parts "createGroup did not return a welcome and a group id" made in
  ret (p.1, MkGroupSession c (bytesToHex p.2)).

Definition createSelf (c : H) : M W (GroupSession H) :=
  let! g := g_createSelf c in ret (MkGroupSession c (bytesToHex g)).

Definition createSelfGroup (c : H) (keyPackages : list bytes) : M W (bytes * GroupSession H) :=
  let make := default g_createGroup g_createSelfGroup in
  let! blob := of_result (ListCodec.encodeList keyPackages) in
  let! made := make c blob in
  let! p := two_parts "createSelfGroup did not return a welcome and a group id" made in
  ret (p.1, MkGroupSession c (bytesToHex p.2)).

Definition join (c : H) (welcome : bytes) : M W (GroupSession H) :=
  let! g := g_joinFromWelcome c welcome in ret (MkGroupSession c g).

Definition mailbox (s : GroupSession H) : M W string := g_groupMailbox (gconv s) (groupId s).
Definition roster (s : GroupSession H) : M W (list string) := g_roster (gconv s) (groupId s).
Definition isSelfConversation (s : GroupSession H) : M W bool :=
  g_isSelfConversation (gconv s) (groupId s).

(** An optional method of the interface, with the value its absence stands for. *)
Definition optionally {A} (d : A) (q : option (H -> string -> M W A)) (s : GroupSession H) : M W A :=
  match q with Some f => f (gconv s) (groupId s) | None => ret d end.

Definition isSelfConversationStrict : GroupSession H -> M W bool :=
  optionally false g_isSelfConversationStrict.
Definition selfClassificationReason : GroupSession H -> M W string :=
  optionally "" g_selfClassificationReason.

(** An optional query that is false (or empty) when absent or when it throws. *)
Definition query {A} (d : A) (q : option (H -> string -> M W A)) (s : GroupSession H) : M W A :=
  try_catch (optionally d q s) (fun _ => ret d).

Definition unlinked : GroupSession H -> M W bool := query false g_channelUnlinked.
Definition peerAccountKeys : GroupSession H -> M W (list string) := query [] g_peerAccountKeys.
Definition flushReceiveRatchet : GroupSession H -> M W bool := query false g_flushReceiveRatchet.

Definition accountKey (s : GroupSession H) : M W string := g_accountKeyHex (gconv s).

(** Wrap, pad, encrypt and address a frame to the conversation's current mailbox. *)
Definition envelope (s : GroupSession H) (framed : result bytes) (ttlSeconds : Z) :
    M W EnvelopeMsg :=
  let! messageId := g_randomBytes 16 in
  let! routingKey := g_groupMailbox (gconv s) (groupId s) in
  let! framed := of_result framed in
  let! padded := of_result (Padding.padToBucket framed) in
  let! payload := g_encrypt (gconv s) (groupId s) padded in
  ret (MkEnvelope messageId routingKey payload ttlSeconds).

Definition send (s : GroupSession H) (plaintext : bytes) (lifetime : Lifetime)
    (ttlSeconds : option Z) : M W EnvelopeMsg :=
  let! framed := of_result (Frame.frameMessage plaintext lifetime) in
  envelope s (Ok framed) (default (Frame.deriveTtlSeconds lifetime) ttlSeconds).

Definition sendRevoke (s : GroupSession H) (targetMessageId : string) (ttlSeconds : option Z) :
    M W EnvelopeMsg :=
  envelope s (Frame.frameRevoke targetMessageId) (default Frame.SEVEN_DAYS_SECONDS ttlSeconds).

Definition sendControl (s : GroupSession H) (controlType version : Z) (payload : bytes)
    (ttlSeconds : option Z) : M W EnvelopeMsg :=
  envelope s (Frame.frameControl controlType version payload)
    (default Frame.SEVEN_DAYS_SECONDS ttlSeconds).

Definition addDevice (s : GroupSession H) (keyPackage : bytes) : M W (bytes * bytes) :=
  let! made := g_addMember (gconv s) (groupId s) keyPackage in
  two_parts "addMember did not return a commit and a welcome" made.

Definition stageAddDevice (s : GroupSession H) (keyPackage : bytes) : M W (bytes * bytes) :=
  let! made := g_stageAdd (gconv s) (groupId s) keyPackage in
  two_parts "stageAdd did not return a commit and a welcome" made.

Definition confirmAdd (s : GroupSession H) : M W unit := g_confirmAdd (gconv s) (groupId s).
Definition abortAdd (s : GroupSession H) : M W unit := g_abortAdd (gconv s) (groupId s).

Definition removeDevice (s : GroupSession H) (sigKeyHex : string) : M W bytes :=
  g_removeMember (gconv s) (groupId s) sigKeyHex.
Definition stageRemoveDevice (s : GroupSession H) (sigKeyHex : string) : M W bytes :=
  g_stageRemove (gconv s) (groupId s) sigKeyHex.
Definition confirmRemove (s : GroupSession H) : M W unit := g_confirmRemove (gconv s) (groupId s).
Definition abortRemove (s : GroupSession H) : M W unit := g_abortRemove (gconv s) (groupId s).

Definition pendingKind (s : GroupSession H) : M W (option PendingKind) :=
  let! k := g_pendingKind (gconv s) (groupId s) in
  ret (if k =? 1 then Some PendingAdd else if k =? 2 then Some PendingRemove else None).
Definition pendingTarget (s : GroupSession H) : M W string := g_pendingTarget (gconv s) (groupId s).
Definition pendingCommit (s : GroupSession H) : M W bytes := g_pendingCommit (gconv s) (groupId s).
Definition pendingWelcome (s : GroupSession H) : M W bytes := g_pendingWelcome (gconv s) (groupId s).

(** [receiveGroup]: the crypto layer routes the payload to its conversation. *)
Definition receiveGroup (c : H) (payload : bytes) : M W (string * GroupReceived) :=
  let! blob := g_receive c payload in
  let! outer := of_result (ListCodec.decodeList blob) in
  of_result (routeReceived text_decode outer).

(** *** Properties *)

Lemma envelope_inv s f t w env w' :
  envelope s f t w = (Ok env, w') ->
  env_ttlSeconds env = t /\
  exists framed padded w1 w2,
    f = Ok framed /\ Padding.padToBucket framed = Ok padded /\
    g_encrypt (gconv s) (groupId s) padded w1 = (Ok (env_payload env), w2).
Proof.
  intros E. unfold envelope in E.
  apply bind_Ok_inv in E as (mid & w1 & _ & E).
  apply bind_Ok_inv in E as (rk & w2 & _ & E).
  apply bind_Ok_inv in E as (framed & w3 & [= Hf <-] & E).
  apply bind_Ok_inv in E as (padded & w4 & [= Hp <-] & E).
  apply bind_Ok_inv in E as (payload & w5 & He & E).
  injection E as <- <-. simpl. eauto 10.
Qed.

(** The blob the wasm [receive] hands back for an application message. *)
Definition application_blob (g : bytes) (own : bool) (padded : bytes) : bytes :=
  ListCodec.list_bytes [g; 0 :: (if own then 1 else 0) :: padded].

Lemma receive_application c payload g own framed padded w w' :
  Padding.padToBucket framed = Ok padded ->
  ListCodec.fits g -> ListCodec.fits (0 :: 0 :: padded) ->
  g_receive c payload w = (Ok (application_blob g own padded), w') ->
  receiveGroup c payload w =
    (Ok (bytesToHex g,
         match catch (Frame.parseFrame text_decode framed) with
         | None | Some Frame.Ignored => GIgnored
         | Some (Frame.Control t v p) => GControl t v p own
         | Some (Frame.Message p l) => GMessage p l own
         | Some (Frame.Revoke i) => GRevoke i own
         end), w').
Proof.
  intros Hp Hg Hpad Hr. unfold receiveGroup, bind at 1. rewrite Hr. unfold bind, of_result.
  assert (Forall ListCodec.fits [g; 0 :: (if own then 1 else 0) :: padded]) as Hfits
    by (repeat constructor; by destruct own).
  pose proof (ListCodec.decode_encode_eq _ Hfits ltac:(done)) as Hd.
  unfold application_blob. rewrite Hd.
  unfold routeReceived, decodeGroupReceived. cbn [decodeReceived lookup list_lookup rbind drop].
  replace (bool_decide (Some (if own then 1 else 0) = Some 1)) with own by by destruct own.
  assert (Z.of_nat (length framed) < 2 ^ 32) as Hlen.
  { pose proof (Padding.length_padToBucket _ _ Hp) as L.
    pose proof (Padding.pad_size_fits (length framed)).
    unfold ListCodec.fits in Hpad. cbn [length] in Hpad. lia. }
  pose proof (Padding.unpad_pad_eq framed Hlen) as Hu. rewrite Hp in Hu. cbn [rbind] in Hu.
  rewrite drop_0, Hu. cbn [rbind]. by destruct (catch _) as [[]|].
Qed.

(**  End to end through a group.  What one member sends as a message is what another member's
    [receiveGroup] returns, routed to the same conversation, with its plaintext, its lifetime
    (seconds modulo 2^32) and the own-account flag the crypto layer established, when the wasm
    returns the bytes that were encrypted under the group's id. *)
Theorem group_send_receive s p l t w env w1 c own wB wB' :
  send s p l t w = (Ok env, w1) ->
  (forall padded v v',
     g_encrypt (gconv s) (groupId s) padded v = (Ok (env_payload env), v') ->
     exists g, bytesToHex g = groupId s /\ ListCodec.fits g /\ ListCodec.fits (0 :: 0 :: padded) /\
       g_receive c (env_payload env) wB = (Ok (application_blob g own padded), wB')) ->
  receiveGroup c (env_payload env) wB =
    (Ok (groupId s,
         GMessage p (match l with Duration x => Duration (x mod 2 ^ 32) | _ => l end) own), wB').
Proof.
  intros Hsend Hwasm. unfold send in Hsend.
  destruct (Frame.parse_frameMessage_eq text_decode p l) as (f & Hf & Hparse & _).
  apply bind_Ok_inv in Hsend as (f' & ? & [= Hf' <-] & Hsend).
  rewrite Hf in Hf'. injection Hf' as <-.
  apply envelope_inv in Hsend as (_ & framed & padded & v & v' & [= <-] & Hp & He).
  destruct (Hwasm _ _ _ He) as (g & <- & Hg & Hpad & Hr).
  by rewrite (receive_application _ _ _ _ _ _ _ _ Hp Hg Hpad Hr), Hparse.
Qed.
End group_session.

(** A world in which the last encrypted payload is the state and encryption is the identity. *)
Module Toy.
#[export] Instance toy_api : GroupApi unit unit := {
  g_signaturePublicKeyHex c := ret "aa";
  g_accountKeyHex c := ret "";
  g_keyPackage c := ret [];
  g_groupEpoch := None;
  g_keyPackageLastResort := None;
  g_createGroup c b := ret b;
  g_createSelfGroup := None;
  g_keyPackageSelfEligible := None;
  g_closeConversation := None;
  g_channelUnlinked := None;
  g_peerAccountKeys := Some (fun c g => ret [bytesToHex (replicate 32 5)]);
  g_flushReceiveRatchet := None;
  g_createSelf c := ret [171];
  g_listConversations c := ret [];
  g_addMember c g k := ret [];
  g_stageAdd c g k := ret [];
  g_confirmAdd c g := ret tt;
  g_abortAdd c g := ret tt;
  g_removeMember c g k := ret [];
  g_stageRemove c g k := ret [];
  g_confirmRemove c g := ret tt;
  g_abortRemove c g := ret tt;
  g_pendingKind c g := ret 0;
  g_pendingTarget c g := ret "";
  g_pendingCommit c g := ret [];
  g_pendingWelcome c g := ret [];
  g_mailboxTag c k := ret k;
  g_joinFromWelcome c b := ret "ab";
  g_encrypt c g b := ret b;
  g_receive c b := ret (application_blob [171] true b);
  g_roster c g := ret [];
  g_isSelfConversation c g := ret false;
  g_isSelfConversationStrict := None;
  g_selfClassificationReason := None;
  g_abandonDeadSelfGroup := None;
  g_credentialCertified := None;
  g_groupMailbox c g := ret "mb";
  g_authorizeDevice c d e n s := ret "";
  g_adoptCertificate c a e s := ret tt;
  g_authorizeScannedDevice c k e := ret [];
  g_recoverWithSeed c s e := ret tt;
  g_reauthorizeAtEpoch c e := ret tt;
  g_certEpoch c := ret 0;
  g_revokeDevice := None;
  g_ingestRevocation := None;
  g_revokedCount := None;
  g_isDeviceRevoked := None;
  g_accountFloor := None;
  g_wipe c := ret tt;
  g_randomBytes n := ret (replicate n 7)
}.
End Toy.
#[local] Existing Instance Toy.toy_api.

Lemma group_send_receive_witness :
  let s := MkGroupSession tt "ab" in
  exists env, send s [104; 105] BurnOnRead None tt = (Ok env, tt) /\
    receiveGroup text_decode_bytes tt (env_payload env) tt
    = (Ok ("ab", GMessage [104; 105] BurnOnRead true), tt).
Proof.
  cbv zeta. eexists. split; [vm_compute; reflexivity|].
  eapply (group_send_receive (H := unit) (W := unit) (GroupApi0 := Toy.toy_api) text_decode_bytes
            (MkGroupSession tt "ab") [104; 105] BurnOnRead None tt _ tt tt true tt tt).
  - vm_compute. reflexivity.
  - intros padded v v' E. exists [171]. injection E as ->.
    split_and!; reflexivity.
Defined.
End GroupSessions.
