(* ===== verification/Sas.v ===== *)
(** * Short authentication strings (client/src/sas.ts)

    The words two users compare out of band: an 11-bit index to a pronounceable token, and the
    rendering of the leading bits of a digest as tokens. *)

From S2P Require Import Prelude.

Module Sas.

Definition ONSETS : list string :=
  ["b"; "d"; "f"; "g"; "k"; "l"; "m"; "n"; "p"; "r"; "s"; "t"; "v"; "z"; "br"; "st"].
Definition VOWELS : list string := ["a"; "e"; "i"; "o"; "u"; "ay"; "ee"; "oo"].
Definition CODAS : list string :=
  [""; "b"; "d"; "k"; "l"; "m"; "n"; "p"; "r"; "s"; "t"; "x"; "ld"; "nd"; "rk"; "st"].

Definition at_index (l : list string) (i : Z) : string := default "" (l !! Z.to_nat i).

Definition sasWord (index : Z) : string :=
  let onset := at_index ONSETS (Z.land (Z.shiftr index 7) 15) in
  let vowel := at_index VOWELS (Z.land (Z.shiftr index 4) 7) in
  let coda := at_index CODAS (Z.land index 15) in
  onset +:+ vowel +:+ coda.

(** The bit of the digest the loop reads at [bitpos], most significant bit of each byte first. *)
Definition digest_bit (digest : bytes) (bitpos : Z) : Z :=
  let byte := default 0 (digest !! Z.to_nat (Z.shiftr bitpos 3)) in
  Z.land (Z.shiftr byte (7 - Z.land bitpos 7)) 1.

(** The inner loop: eleven bits from [bitpos], shifted in from the right. *)
Definition word_value (digest : bytes) (bitpos : Z) : Z :=
  foldl (fun value b => Z.lor (Z.shiftl value 1) (digest_bit digest (bitpos + b))) 0 (seqZ 0 11).

(** The outer loop, from [bitpos]. *)
Fixpoint render_words (digest : bytes) (count : nat) (bitpos : Z) : list string :=
  match count with
  | O => []
  | S count => sasWord (word_value digest bitpos) :: render_words digest count (bitpos + 11)
  end.

Definition renderSasWords (digest : bytes) (count : nat) : result string :=
  if (length digest * 8 <? count * 11)%nat then Throw (JsError "SAS digest too short")
  else Ok (String.concat " " (render_words digest count 0)).

Definition renderSas (digest : bytes) : result string := renderSasWords digest 6.

Definition CONTACT_PHRASE_WORDS : nat := 8.

Definition renderSasHex (digestHex : string) : result string := renderSas (hexToBytes digestHex).

(** [CONTACT_PHRASE_WORDS * 11 / 4] is 22 exactly. *)
Definition renderContactPhraseHex (digestHex : string) : string :=
  if (String.length digestHex <? CONTACT_PHRASE_WORDS * 11 / 4)%nat then ""
  else default "" (catch (renderSasWords (hexToBytes digestHex) CONTACT_PHRASE_WORDS)).

(** ** The word list *)

(** A token as a number, for comparing tokens quickly. *)
Definition code (w : string) : Z := foldl (fun a b => a * 256 + b) 0 (text_encode w).

Fixpoint position (c : Z) (l : list Z) : Z :=
  match l with
  | [] => 0
  | x :: l' => if c =? x then 0 else 1 + position c l'
  end.

Definition codes : list Z := (fun i => code (sasWord i)) <$> seqZ 0 2048.

Lemma sasWord_position i : 0 <= i < 2048 -> position (code (sasWord i)) codes = i.
Proof.
  intros Hi. apply Z.eqb_eq. revert i Hi.
  apply (range_check (fun i => position (code (sasWord i)) codes =? i) 0 2048). by vm_compute.
Qed.

(** A token: not empty and free of the separator. *)
Definition token_ok (w : string) : bool :=
  negb (String.eqb w "") && forallb (fun c => negb (Ascii.eqb c " ")) (String.list_ascii_of_string w).

Lemma sasWord_token i : 0 <= i < 2048 -> token_ok (sasWord i) = true.
Proof. apply (range_check (fun i => token_ok (sasWord i)) 0 2048). by vm_compute. Qed.

Lemma sasWord_inj_eq i j :
  0 <= i < 2048 -> 0 <= j < 2048 -> sasWord i = sasWord j -> i = j.
Proof.
  intros Hi Hj E. rewrite <-(sasWord_position i Hi), <-(sasWord_position j Hj). by rewrite E.
Qed.

(**  The 2048 indices name 2048 distinct tokens, so a word carries exactly its 11 bits (some
    tokens extend others, but no two spell alike). *)
Theorem sasWord_injective i j :
  0 <= i < 2048 -> 0 <= j < 2048 -> sasWord i = sasWord j -> i = j.
Proof. apply sasWord_inj_eq. Qed.

Lemma sasWord_injective_witness : sasWord 2047 = "stoost" /\ (sasWord 5 = sasWord 5 -> 5 = 5).
Proof.
  split; [reflexivity|]. intros E. exact (sasWord_injective 5 5 ltac:(lia) ltac:(lia) E).
Defined.

(** ** The bits of a word *)

Definition bits_value (l : list Z) (v : Z) : Z := foldl (fun v b => Z.lor (Z.shiftl v 1) b) v l.
Definition bit_ok (b : Z) : Prop := b = 0 \/ b = 1.

Lemma land_1 x : Z.land x 1 = x mod 2.
Proof. exact (Z.land_ones x 1 ltac:(lia)). Qed.

Lemma digest_bit_ok d p : bit_ok (digest_bit d p).
Proof.
  unfold digest_bit, bit_ok. cbv zeta. rewrite land_1. set (x := Z.shiftr _ _).
  pose proof (Z.mod_pos_bound x 2 ltac:(lia)). lia.
Qed.

Lemma shift_in v b : bit_ok b -> Z.lor (Z.shiftl v 1) b = 2 * v + b.
Proof.
  intros Hb. rewrite Z.shiftl_mul_pow2 by lia. change (2 ^ 1) with 2.
  destruct Hb as [-> | ->]; [rewrite Z.lor_0_r; lia|].
  rewrite <-Z.add_nocarry_lor; [lia|]. rewrite land_1. by apply Z.mod_mul.
Qed.

Lemma bits_value_snoc l b v : bits_value (l ++ [b]) v = Z.lor (Z.shiftl (bits_value l v) 1) b.
Proof. unfold bits_value. by rewrite foldl_app. Qed.

Lemma bits_value_range l :
  Forall bit_ok l -> 0 <= bits_value l 0 < 2 ^ Z.of_nat (length l).
Proof.
  induction l as [|b l IH] using rev_ind; [intros _; cbn; lia|].
  intros [Hl Hb]%Forall_app. rewrite Forall_singleton in Hb.
  rewrite bits_value_snoc, shift_in, length_app by done.
  replace (Z.of_nat (length l + length [b])) with (Z.of_nat (length l) + 1) by (simpl; lia).
  rewrite Z.pow_add_r by lia. unfold bit_ok in Hb. specialize (IH Hl). lia.
Qed.

Lemma bits_value_inj l1 l2 :
  Forall bit_ok l1 -> Forall bit_ok l2 -> length l1 = length l2 ->
  bits_value l1 0 = bits_value l2 0 -> l1 = l2.
Proof.
  revert l2. induction l1 as [|b1 l1 IH] using rev_ind; intros l2 H1 H2 HL E.
  { by destruct l2. }
  destruct l2 as [|b2 l2 _] using rev_ind; [rewrite length_app in HL; simpl in HL; lia|].
  apply Forall_app in H1 as [H1 Hb1]. apply Forall_app in H2 as [H2 Hb2].
  rewrite Forall_singleton in Hb1, Hb2.
  rewrite !bits_value_snoc, !shift_in in E by done. rewrite !length_app in HL. simpl in HL.
  unfold bit_ok in Hb1, Hb2. assert (b1 = b2) as -> by lia.
  f_equal. apply IH; [done|done|lia|lia].
Qed.

(** The digest bits a word is made of. *)
Definition word_bits (d : bytes) (p : Z) : list Z := (fun b => digest_bit d (p + b)) <$> seqZ 0 11.

Lemma word_bits_ok d p : Forall bit_ok (word_bits d p).
Proof. apply Forall_fmap, Forall_forall. intros ? _. apply digest_bit_ok. Qed.

Lemma bits_value_map (f : Z -> Z) l v :
  foldl (fun v b => Z.lor (Z.shiftl v 1) (f b)) v l = bits_value (f <$> l) v.
Proof. revert v. induction l as [|x l IH]; intros v; [done|]. apply IH. Qed.

Lemma word_value_bits d p : word_value d p = bits_value (word_bits d p) 0.
Proof. apply bits_value_map. Qed.

Lemma length_word_bits d p : length (word_bits d p) = 11%nat.
Proof. unfold word_bits. by rewrite length_fmap, length_seqZ. Qed.

Lemma word_value_range d p : 0 <= word_value d p < 2048.
Proof.
  rewrite word_value_bits. pose proof (bits_value_range _ (word_bits_ok d p)) as H.
  by rewrite length_word_bits in H.
Qed.

Lemma word_value_inj d1 d2 p :
  word_value d1 p = word_value d2 p ->
  forall b, 0 <= b < 11 -> digest_bit d1 (p + b) = digest_bit d2 (p + b).
Proof.
  intros E b Hb.
  assert (word_bits d1 p = word_bits d2 p) as Hw
    by (apply bits_value_inj; [apply word_bits_ok | apply word_bits_ok
        | by rewrite !length_word_bits | by rewrite <-!word_value_bits]).
  apply (f_equal (lookup (Z.to_nat b))) in Hw. unfold word_bits in Hw.
  rewrite !list_lookup_fmap, !lookup_seqZ_lt in Hw by lia. simpl in Hw.
  rewrite Z2Nat.id in Hw by lia. by injection Hw.
Qed.

(** ** Separated tokens *)

Lemma split_token w1 r1 w2 r2 :
  token_ok w1 = true -> token_ok w2 = true ->
  w1 +:+ String " " r1 = w2 +:+ String " " r2 -> w1 = w2 /\ r1 = r2.
Proof.
  unfold token_ok. intros [_ H1]%andb_prop [_ H2]%andb_prop. revert w2 H1 H2.
  induction w1 as [|c1 w1 IH]; intros [|c2 w2] H1 H2 E; cbn in *.
  - injection E as ->. done.
  - injection E as <- _. done.
  - injection E as -> _. done.
  - injection E as -> E. apply andb_prop in H1 as [_ H1]. apply andb_prop in H2 as [_ H2].
    destruct (IH w2 H1 H2 E) as [-> ->]. done.
Qed.

Lemma concat_cons2 w w' ws :
  String.concat " " (w :: w' :: ws) = w +:+ String " " (String.concat " " (w' :: ws)).
Proof. reflexivity. Qed.

Lemma concat_tokens_inj l1 l2 :
  Forall (fun w => token_ok w = true) l1 -> Forall (fun w => token_ok w = true) l2 ->
  length l1 = length l2 -> String.concat " " l1 = String.concat " " l2 -> l1 = l2.
Proof.
  intros H1. revert l2. induction H1 as [|w1 l1 Hw1 H1 IH]; intros [|w2 l2] H2 HL E;
    try done; [].
  apply Forall_cons in H2 as [Hw2 H2].
  destruct l1 as [|w1' l1], l2 as [|w2' l2]; try done.
  { cbn in E. by subst. }
  rewrite !concat_cons2 in E. apply split_token in E as [-> E]; [|done|done].
  f_equal. apply IH; [done|simpl in *; lia|done].
Qed.

Lemma render_words_tokens d n p : Forall (fun w => token_ok w = true) (render_words d n p).
Proof.
  revert p. induction n as [|n IH]; intros p; simpl; constructor;
    [apply sasWord_token, word_value_range | apply IH].
Qed.

Lemma length_render_words d n p : length (render_words d n p) = n.
Proof. revert p. induction n as [|n IH]; intros p; simpl; [done|]. by rewrite IH. Qed.

Lemma render_words_inj d1 d2 n p :
  render_words d1 n p = render_words d2 n p ->
  forall i, p <= i < p + 11 * Z.of_nat n -> digest_bit d1 i = digest_bit d2 i.
Proof.
  revert p. induction n as [|n IH]; intros p E i Hi; [lia|].
  cbn [render_words] in E. injection E as Ew E.
  apply sasWord_inj_eq in Ew; [|apply word_value_range|apply word_value_range].
  destruct (Z.lt_ge_cases i (p + 11)).
  - replace i with (p + (i - p)) by lia. apply (word_value_inj _ _ _ Ew). lia.
  - apply (IH (p + 11) E). lia.
Qed.

(**  The code two users compare is worth its width: two digests that render to the same phrase
    of [n] words agree on their first [11 * n] bits.  (Six words are 66 bits, the eight of a contact
    phrase 88.) *)
Theorem same_phrase_same_bits d1 d2 n s :
  renderSasWords d1 n = Ok s -> renderSasWords d2 n = Ok s ->
  forall i, 0 <= i < 11 * Z.of_nat n -> digest_bit d1 i = digest_bit d2 i.
Proof.
  unfold renderSasWords. case_match; [done|]. case_match; [done|].
  intros E1 E2. injection E1 as E1. injection E2 as E2.
  apply (render_words_inj d1 d2 n 0). apply concat_tokens_inj.
  - apply render_words_tokens.
  - apply render_words_tokens.
  - by rewrite !length_render_words.
  - congruence.
Qed.

(** Two digests that differ only beyond their first 66 bits. *)
Definition example_digest (last : Z) : bytes := [1; 2; 3; 4; 5; 6; 7; 8; last].

Lemma same_phrase_same_bits_witness :
  exists s, renderSas (example_digest 9) = Ok s /\ renderSas (example_digest 10) = Ok s /\
    forall i, 0 <= i < 11 * Z.of_nat 6 ->
              digest_bit (example_digest 9) i = digest_bit (example_digest 10) i.
Proof.
  eexists. split; [vm_compute; reflexivity|]. split; [vm_compute; reflexivity|].
  eapply (same_phrase_same_bits (example_digest 9) (example_digest 10) 6); vm_compute; reflexivity.
Defined.

(**  A contact phrase is never made up.  A hexadecimal digest too short for eight words (an
    empty string in particular) renders to the empty string; a digest of at least 11 bytes renders
    to the eight words of its first 88 bits. *)
Theorem contact_phrase_spec h :
  renderContactPhraseHex h =
    if (String.length h <? 22)%nat then ""
    else String.concat " " (render_words (hexToBytes h) 8 0).
Proof.
  unfold renderContactPhraseHex. change (CONTACT_PHRASE_WORDS * 11 / 4)%nat with 22%nat.
  destruct (Nat.ltb_spec (String.length h) 22) as [Hs|Hs]; [done|].
  unfold renderSasWords.
  assert (11 <= length (hexToBytes h))%nat as HL; [|].
  { unfold hexToBytes. rewrite length_hex_pairs, length_list_ascii.
    apply Nat.div_le_lower_bound; lia. }
  rewrite (proj2 (Nat.ltb_ge _ _)); [done|]. unfold CONTACT_PHRASE_WORDS. lia.
Qed.

End Sas.
