(* ===== verification/Gf256.v ===== *)
(** * GF(256) arithmetic and Reed-Solomon encoding (client/src/qr.ts, lines 17-66)

    The exponential and logarithm tables, multiplication, the generator polynomials and the
    systematic encoder, with the laws of the field and the theorem that every encoded block is a
    codeword. *)

From S2P Require Import Prelude.

Module Gf256.

(** [x <<= 1; if (x & 0x100) x ^= 0x11d] *)
Definition xtime (x : Z) : Z :=
  let x := Z.shiftl x 1 in if Z.land x 256 =? 0 then x else Z.lxor x 285.

(** The loop that fills the tables: [x] runs over the powers of 2 modulo 0x11d. *)
Fixpoint gf_fill (n : nat) (i : nat) (x : Z) (exp log : bytes) : bytes * bytes :=
  match n with
  | O => (exp, log)
  | S n =>
      let exp := u8_store i x exp in
      let log := u8_store (Z.to_nat x) (Z.of_nat i) log in
      gf_fill n (S i) (xtime x) exp log
  end.

(** The second half of the exponential table repeats the first. *)
Definition gf_tables : bytes * bytes :=
  let '(exp, log) := gf_fill 255 0 1 (u8_new 512) (u8_new 256) in
  (foldl (fun exp i => u8_store i (default 0 (exp !! (i - 255)%nat)) exp) exp (seq 255 257), log).

Definition GF_EXP : bytes := Eval vm_compute in gf_tables.1.
Definition GF_LOG : bytes := Eval vm_compute in gf_tables.2.

Definition gf_exp (i : Z) : Z := default 0 (GF_EXP !! Z.to_nat i).
Definition gf_log (x : Z) : Z := default 0 (GF_LOG !! Z.to_nat x).

Definition gfMul (a b : Z) : Z :=
  if (a =? 0) || (b =? 0) then 0 else gf_exp (gf_log a + gf_log b).

(** [rsGenerator]: one turn of the outer loop multiplies by [x + 2^d]. *)
Definition generator_step (poly : bytes) (d : nat) : bytes :=
  foldl (fun next i =>
           let p := default 0 (poly !! i) in
           let next := u8_store i (Z.lxor (default 0 (next !! i)) p) next in
           u8_store (S i) (Z.lxor (default 0 (next !! S i)) (gfMul p (gf_exp (Z.of_nat d)))) next)
        (u8_new (length poly + 1)) (seq 0 (length poly)).

Definition rsGenerator (degree : nat) : bytes := foldl generator_step [1] (seq 0 degree).

(** [rsEncode]: the inner loop adds [factor] times the generator at offset [i]. *)
Definition add_multiple (gen : bytes) (factor : Z) (i : nat) (res : bytes) : bytes :=
  foldl (fun res j =>
           u8_store (i + j) (Z.lxor (default 0 (res !! (i + j)%nat))
                                    (gfMul (default 0 (gen !! j)) factor)) res)
        res (seq 0 (length gen)).

Definition encode_step (gen : bytes) (res : bytes) (i : nat) : bytes :=
  let factor := default 0 (res !! i) in
  if factor =? 0 then res else add_multiple gen factor i res.

Definition rsEncode (data : bytes) (ecCount : nat) : bytes :=
  let gen := rsGenerator ecCount in
  let res := data ++ u8_new ecCount in
  drop (length data) (foldl (encode_step gen) res (seq 0 (length data))).

(** ** The field *)

Lemma tables_computed : gf_tables = (GF_EXP, GF_LOG).
Proof. by vm_compute. Qed.

(** A map given by the images of the bits of its argument. *)
Definition bit_sum (f : Z -> Z) (b : Z) : Z :=
  foldr (fun i acc => Z.lxor (if Z.testbit b i then f (2 ^ i) else 0) acc) 0 (seqZ 0 8).

Definition xtime_check (b : Z) : bool :=
  (xtime b =? bit_sum xtime b) && byte_okb (xtime b).
Definition exp_check (k : Z) : bool :=
  (gf_exp (k + 1) =? xtime (gf_exp k)) && byte_okb (gf_exp k) &&
  negb (gf_exp k =? 0) && (gf_log (gf_exp k) =? k mod 255).
Definition log_check (a : Z) : bool :=
  (gf_exp (gf_log a) =? a) && (0 <=? gf_log a) && (gf_log a <? 255).

Lemma xtime_checked : forallb xtime_check (seqZ 0 256) = true.
Proof. by vm_compute. Qed.
Lemma exp_checked : forallb exp_check (seqZ 0 511) = true.
Proof. by vm_compute. Qed.
Lemma log_checked : forallb log_check (seqZ 1 255) = true.
Proof. by vm_compute. Qed.

Lemma exp_spec k :
  0 <= k < 511 ->
  gf_exp (k + 1) = xtime (gf_exp k) /\ byte_ok (gf_exp k) /\ gf_exp k <> 0 /\
  gf_log (gf_exp k) = k mod 255.
Proof.
  intros Hk. pose proof (range_check exp_check 0 511 exp_checked k Hk) as H.
  unfold exp_check in H.
  rewrite !andb_true_iff, byte_okb_spec, negb_true_iff, !Z.eqb_eq, Z.eqb_neq in H. tauto.
Qed.

Lemma log_spec a :
  byte_ok a -> a <> 0 -> gf_exp (gf_log a) = a /\ 0 <= gf_log a < 255.
Proof.
  intros [? ?] ?. pose proof (range_check log_check 1 255 log_checked a ltac:(lia)) as Hc.
  unfold log_check in Hc. rewrite !andb_true_iff, Z.eqb_eq in Hc. lia.
Qed.

Lemma bit_sum_lxor f a b : bit_sum f (Z.lxor a b) = Z.lxor (bit_sum f a) (bit_sum f b).
Proof.
  unfold bit_sum. induction (seqZ 0 8) as [|i l IH]; [done|]. simpl.
  rewrite IH, Z.lxor_spec. apply Z.bits_inj'. intros n Hn. rewrite !Z.lxor_spec.
  destruct (Z.testbit a i), (Z.testbit b i); simpl; rewrite ?Z.testbit_0_l;
    repeat destruct (Z.testbit _ n); done.
Qed.

Lemma xtime_spec b : byte_ok b -> xtime b = bit_sum xtime b /\ byte_ok (xtime b).
Proof.
  intros Hb. pose proof (byte_check xtime_check xtime_checked b Hb) as H.
  unfold xtime_check in H. by rewrite andb_true_iff, byte_okb_spec, Z.eqb_eq in H.
Qed.

Lemma byte_lxor a b : byte_ok a -> byte_ok b -> byte_ok (Z.lxor a b).
Proof.
  unfold byte_ok. intros Ha Hb. assert (0 <= Z.lxor a b) by (apply Z.lxor_nonneg; lia).
  split; [done|]. destruct (decide (Z.lxor a b = 0)) as [->|]; [lia|].
  apply Z.log2_lt_pow2 with (b := 8); [lia|].
  pose proof (Z.log2_lxor a b ltac:(lia) ltac:(lia)).
  assert (Hl : forall c, 0 <= c < 256 -> Z.log2 c < 8).
  { intros c ?. destruct (decide (c = 0)) as [->|]; [done|]. apply Z.log2_lt_pow2; lia. }
  pose proof (Hl a Ha). pose proof (Hl b Hb). lia.
Qed.

Lemma xtime_lxor a b :
  byte_ok a -> byte_ok b -> xtime (Z.lxor a b) = Z.lxor (xtime a) (xtime b).
Proof.
  intros Ha Hb.
  rewrite (proj1 (xtime_spec a Ha)), (proj1 (xtime_spec b Hb)), <-bit_sum_lxor.
  by apply xtime_spec, byte_lxor.
Qed.

(** Multiplying by the [n]-th power of 2. *)
Definition shift (n : nat) (b : Z) : Z := Nat.iter n xtime b.

Lemma shift_ok n b : byte_ok b -> byte_ok (shift n b).
Proof. intros Hb. induction n; simpl; [done | by apply xtime_spec]. Qed.

Lemma shift_lxor n a b :
  byte_ok a -> byte_ok b -> shift n (Z.lxor a b) = Z.lxor (shift n a) (shift n b).
Proof.
  intros Ha Hb. induction n as [|n IH]; [done|]. simpl.
  change (Nat.iter n xtime ?x) with (shift n x).
  rewrite IH. by apply xtime_lxor; apply shift_ok.
Qed.

Lemma shift_0 n : shift n 0 = 0.
Proof. induction n as [|n IH]; [done|]. simpl. change (Nat.iter n xtime 0) with (shift n 0). by rewrite IH. Qed.

Lemma exp_shift (n : nat) k :
  0 <= k -> k + Z.of_nat n <= 511 -> gf_exp (Z.of_nat n + k) = shift n (gf_exp k).
Proof.
  intros ?. induction n as [|n IH]; intros ?; [done|]. simpl.
  change (Nat.iter n xtime (gf_exp k)) with (shift n (gf_exp k)). rewrite <-IH by lia.
  rewrite <-(proj1 (exp_spec (Z.of_nat n + k) ltac:(lia))). f_equal. lia.
Qed.

Lemma gfMul_comm a b : gfMul a b = gfMul b a.
Proof. unfold gfMul. by rewrite orb_comm, Z.add_comm. Qed.

Lemma gfMul_0_l b : gfMul 0 b = 0.
Proof. done. Qed.

Lemma gfMul_0_r a : gfMul a 0 = 0.
Proof. by rewrite gfMul_comm. Qed.

Lemma gfMul_nonzero a b : a <> 0 -> b <> 0 -> gfMul a b = gf_exp (gf_log a + gf_log b).
Proof. intros. unfold gfMul. by rewrite !(proj2 (Z.eqb_neq _ _)). Qed.

Lemma gfMul_1_l b : byte_ok b -> gfMul 1 b = b.
Proof.
  intros Hb. destruct (decide (b = 0)) as [->|Hb0]; [done|].
  rewrite gfMul_nonzero by done. change (gf_log 1) with 0. by apply log_spec.
Qed.

Lemma gfMul_shift a b :
  byte_ok a -> byte_ok b -> a <> 0 -> gfMul a b = shift (Z.to_nat (gf_log a)) b.
Proof.
  intros Ha Hb Ha0. destruct (log_spec a Ha Ha0) as [_ ?].
  destruct (decide (b = 0)) as [->|Hb0]; [by rewrite gfMul_0_r, shift_0|].
  destruct (log_spec b Hb Hb0) as [Eb ?].
  rewrite gfMul_nonzero by done.
  replace (gf_log a) with (Z.of_nat (Z.to_nat (gf_log a))) at 1 by lia.
  rewrite exp_shift by lia. by rewrite Eb.
Qed.

Lemma gfMul_ok a b : byte_ok a -> byte_ok b -> byte_ok (gfMul a b).
Proof.
  intros Ha Hb. destruct (decide (a = 0)) as [->|]; [done|].
  rewrite gfMul_shift by done. by apply shift_ok.
Qed.

#[local] Hint Resolve byte_lxor gfMul_ok shift_ok : dd.

Lemma gfMul_lxor_r a b c :
  byte_ok a -> byte_ok b -> byte_ok c ->
  gfMul a (Z.lxor b c) = Z.lxor (gfMul a b) (gfMul a c).
Proof.
  intros Ha Hb Hc. destruct (decide (a = 0)) as [->|]; [done|].
  rewrite !gfMul_shift by (try apply byte_lxor; done). by apply shift_lxor.
Qed.

Lemma gfMul_lxor_l a b c :
  byte_ok a -> byte_ok b -> byte_ok c ->
  gfMul (Z.lxor b c) a = Z.lxor (gfMul b a) (gfMul c a).
Proof. intros. by rewrite !(gfMul_comm _ a), gfMul_lxor_r. Qed.

Lemma gf_exp_mod k : 0 <= k < 510 -> gf_exp k = gf_exp (k mod 255).
Proof.
  intros Hk. destruct (exp_spec k ltac:(lia)) as (_ & ? & ? & E). rewrite <-E.
  symmetry. by apply log_spec.
Qed.

Lemma gfMul_assoc a b c :
  byte_ok a -> byte_ok b -> byte_ok c -> gfMul (gfMul a b) c = gfMul a (gfMul b c).
Proof.
  intros Ha Hb Hc.
  destruct (decide (a = 0)) as [->|Ha0]; [done|].
  destruct (decide (c = 0)) as [->|Hc0]; [by rewrite !gfMul_0_r|].
  destruct (decide (b = 0)) as [->|Hb0]; [by rewrite !gfMul_0_r, !gfMul_0_l|].
  destruct (log_spec a Ha Ha0) as [_ ?]. destruct (log_spec b Hb Hb0) as [_ ?].
  destruct (log_spec c Hc Hc0) as [_ ?].
  rewrite (gfMul_nonzero a b), (gfMul_nonzero b c) by done.
  destruct (exp_spec (gf_log a + gf_log b) ltac:(lia)) as (_ & _ & ? & E1).
  destruct (exp_spec (gf_log b + gf_log c) ltac:(lia)) as (_ & _ & ? & E2).
  rewrite !gfMul_nonzero, E1, E2 by done.
  pose proof (Z.mod_pos_bound (gf_log a + gf_log b) 255 ltac:(lia)).
  pose proof (Z.mod_pos_bound (gf_log b + gf_log c) 255 ltac:(lia)).
  rewrite (gf_exp_mod (_ mod 255 + _)), (gf_exp_mod (_ + _ mod 255)) by lia.
  f_equal. rewrite Z.add_mod_idemp_l, Z.add_mod_idemp_r by lia. f_equal. lia.
Qed.

(** ** Polynomials over the field

    A codeword is the list of its coefficients, highest degree first; [eval x p] is its value
    at [x] by Horner's rule, starting from [acc]. *)
Definition horner (x acc : Z) (p : bytes) : Z := foldl (fun a c => Z.lxor (gfMul a x) c) acc p.
Definition eval (x : Z) (p : bytes) : Z := horner x 0 p.

Lemma horner_ok x acc p : byte_ok x -> byte_ok acc -> bytes_ok p -> byte_ok (horner x acc p).
Proof.
  intros Hx. unfold horner. revert acc. induction p as [|c p IH]; intros acc Ha Hp; [done|].
  inv_bytes. apply IH; [|done]. apply byte_lxor; [by apply gfMul_ok | done].
Qed.

(** Evaluation is linear in the accumulator and the coefficients together. *)
Lemma horner_lxor x acc acc' p q :
  byte_ok x -> byte_ok acc -> byte_ok acc' -> bytes_ok p -> bytes_ok q -> length p = length q ->
  horner x (Z.lxor acc acc') (zip_with Z.lxor p q) = Z.lxor (horner x acc p) (horner x acc' q).
Proof.
  intros Hx. revert acc acc' q. unfold horner.
  induction p as [|c p IH]; intros acc acc' [|d q] Ha Ha' Hp Hq Hl; try done. simpl in *.
  inv_bytes. rewrite <-IH by first [lia | auto with dd].
  f_equal. rewrite gfMul_lxor_l by auto with dd.
  rewrite <-!Z.lxor_assoc. f_equal. rewrite !Z.lxor_assoc. f_equal. apply Z.lxor_comm.
Qed.

Lemma horner_mul x f acc p :
  byte_ok x -> byte_ok f -> byte_ok acc -> bytes_ok p ->
  horner x (gfMul acc f) ((fun g => gfMul g f) <$> p) = gfMul (horner x acc p) f.
Proof.
  intros Hx Hf. revert acc. unfold horner. induction p as [|c p IH]; intros acc Ha Hp; [done|].
  simpl. inv_bytes.
  rewrite <-IH by auto with dd.
  f_equal. pose proof (gfMul_ok acc x Ha Hx).
  rewrite gfMul_lxor_l by auto with dd. f_equal.
  rewrite !gfMul_assoc by auto with dd. f_equal. apply gfMul_comm.
Qed.

Lemma eval_zeros x n : eval x (replicate n 0) = 0.
Proof. unfold eval, horner. induction n; [done|]. by simpl. Qed.

Lemma eval_cons_0 x p : eval x (0 :: p) = eval x p.
Proof. done. Qed.

Lemma zip_zeros_l p : zip_with Z.lxor (replicate (length p) 0) p = p.
Proof. induction p as [|c p IH]; simpl; [done|]. by rewrite IH. Qed.

Lemma zip_zeros_r p : zip_with Z.lxor p (replicate (length p) 0) = p.
Proof. induction p as [|c p IH]; simpl; [done|]. by rewrite IH, Z.lxor_0_r. Qed.

Lemma zeros_ok n : bytes_ok (replicate n 0).
Proof. by apply Forall_replicate. Qed.

(** ** The encoder computes a codeword *)

(** The inner loop, as a pointwise sum on the window at offset [i]. *)
Lemma add_multiple_window gen f pre mid post :
  bytes_ok gen -> byte_ok f -> bytes_ok mid -> length mid = length gen ->
  add_multiple gen f (length pre) (pre ++ mid ++ post) =
  pre ++ zip_with Z.lxor mid ((fun g => gfMul g f) <$> gen) ++ post.
Proof.
  intros Hg Hf Hm Hl. unfold add_multiple.
  cut (forall g2 g1 done_ mid2, gen = g1 ++ g2 -> length done_ = length g1 -> bytes_ok mid2 ->
       length mid2 = length g2 ->
       foldl (fun res j =>
           u8_store (length pre + j)
             (Z.lxor (default 0 (res !! (length pre + j)%nat))
                     (gfMul (default 0 (gen !! j)) f)) res)
         (pre ++ done_ ++ mid2 ++ post) (seq (length g1) (length g2)) =
       pre ++ done_ ++ zip_with Z.lxor mid2 ((fun g => gfMul g f) <$> g2) ++ post).
  { intros H. exact (H gen [] [] mid eq_refl eq_refl Hm Hl). }
  clear mid Hm Hl. induction g2 as [|g g2 IH]; intros g1 done_ mid2 E Hd Hm Hl.
  { destruct mid2; [done | simpl in Hl; lia]. }
  destruct mid2 as [|m mid2]; [done|]. simpl. inv_bytes. simpl in Hl.
  assert (byte_ok g) by (subst gen; apply Forall_app in Hg as [_ Hg]; by inv_bytes).
  rewrite (lookup_app_r pre) by lia.
  replace (length pre + length g1 - length pre)%nat with (length g1) by lia.
  rewrite (list_lookup_middle done_ _ m) by done.
  assert (Eg : gen !! length g1 = Some g) by (rewrite E; by apply list_lookup_middle).
  rewrite Eg. simpl.
  unfold u8_store. rewrite insert_app_r, (insert_app_r_alt done_) by lia.
  rewrite Hd, Nat.sub_diag. simpl.
  rewrite to_u8_id by (apply byte_lxor; [done | by apply gfMul_ok]).
  specialize (IH (g1 ++ [g]) (done_ ++ [Z.lxor m (gfMul g f)]) mid2).
  rewrite !length_app in IH. simpl in IH. rewrite <-!app_assoc in IH. simpl in IH.
  rewrite !Nat.add_1_r in IH. apply IH; try done; lia.
Qed.

Definition generator_check (n : nat) : bool :=
  let gen := rsGenerator n in
  (length gen =? S n)%nat && forallb byte_okb gen && (default 0 (gen !! 0%nat) =? 1) &&
  forallb (fun d => eval (gf_exp (Z.of_nat d)) gen =? 0) (seq 0 n).

Lemma generators_checked : forallb generator_check (seq 0 31) = true.
Proof. by vm_compute. Qed.

(** The generator is monic of degree [n] and vanishes at the first [n] powers of 2. *)
Lemma generator_spec n :
  (n <= 30)%nat ->
  exists g, rsGenerator n = 1 :: g /\ length g = n /\ bytes_ok g /\
    forall d, (d < n)%nat -> eval (gf_exp (Z.of_nat d)) (1 :: g) = 0.
Proof.
  intros Hn. pose proof generators_checked as H. rewrite forallb_forall in H.
  specialize (H n ltac:(apply in_seq; lia)). unfold generator_check in H.
  rewrite !andb_true_iff, Nat.eqb_eq, Z.eqb_eq, !forallb_forall in H.
  destruct H as [[[Hl Hb] H0] Hr].
  destruct (rsGenerator n) as [|g0 g]; [done|]. simpl in Hl, H0. subst g0. exists g.
  split; [done|]. split; [lia|]. split.
  - apply Forall_forall. intros b Hin. apply byte_okb_spec, Hb. right. by apply list_elem_of_In.
  - intros d Hd. apply Z.eqb_eq, Hr, in_seq. lia.
Qed.

Lemma lxor_fold_bytes p q :
  bytes_ok p -> bytes_ok q -> bytes_ok (zip_with Z.lxor p q).
Proof.
  intros Hp. revert q. induction Hp as [|x p Hx Hp IH]; intros [|y q] Hq; simpl;
    try apply Forall_nil; try done. inv_bytes.
  constructor; [by apply byte_lxor | by apply IH].
Qed.

Lemma mul_bytes f p : byte_ok f -> bytes_ok p -> bytes_ok ((fun g => gfMul g f) <$> p).
Proof. intros Hf Hp. apply Forall_fmap. eapply Forall_impl; [exact Hp|]. intros. by apply gfMul_ok. Qed.

(** One turn of the outer loop clears the byte it looks at and keeps the value of the
    polynomial at every root of the generator. *)
Lemma encode_step_spec g pre res0 rest :
  bytes_ok g -> bytes_ok (res0 :: rest) -> (length g <= length rest)%nat ->
  exists rest', encode_step (1 :: g) (pre ++ res0 :: rest) (length pre) = pre ++ 0 :: rest' /\
    length rest' = length rest /\ bytes_ok rest' /\
    forall x, byte_ok x -> eval x (1 :: g) = 0 -> eval x (0 :: rest') = eval x (res0 :: rest).
Proof.
  intros Hg Hr Hl. unfold encode_step. rewrite list_lookup_middle by done. simpl.
  inv_bytes. destruct (Z.eqb_spec res0 0) as [->|Hz]; [eauto 10|].
  assert (byte_ok 1) by (unfold byte_ok; lia).
  assert (Hres : bytes_ok (res0 :: take (length g) rest)) by (constructor; [done | by apply bytes_ok_take]).
  assert (Hg1 : bytes_ok (1 :: g)) by by constructor.
  assert (Hlen : length (res0 :: take (length g) rest) = length (1 :: g))
    by (simpl; rewrite length_take; lia).
  pose proof (add_multiple_window (1 :: g) res0 pre (res0 :: take (length g) rest)
                (drop (length g) rest) Hg1 ltac:(done) Hres Hlen) as E.
  simpl in E. rewrite take_drop in E. rewrite E. clear E.
  rewrite gfMul_1_l by done.
  rewrite Z.lxor_nilpotent.
  set (w := zip_with Z.lxor _ _).
  assert (Lw : length w = length g).
  { subst w. rewrite length_zip_with, length_take, length_fmap. lia. }
  assert (Hw : bytes_ok w) by (apply lxor_fold_bytes; [by apply bytes_ok_take | by apply mul_bytes]).
  exists (w ++ drop (length g) rest). split; [done|].
  split; [rewrite length_app, length_drop; lia|].
  split; [apply bytes_ok_app; split; [done | by apply bytes_ok_drop]|].
  intros x Hx Hroot.
  pose proof (horner_lxor x 0 0 (res0 :: take (length g) rest)
    ((fun g => gfMul g res0) <$> (1 :: g)) Hx ltac:(done) ltac:(done) Hres
    ltac:(by apply mul_bytes) ltac:(simpl; rewrite length_fmap; simpl in Hlen; lia)) as E.
  pose proof (horner_mul x res0 0 (1 :: g) Hx ltac:(done) ltac:(done) Hg1) as E2.
  rewrite gfMul_0_l in E2. change (horner x 0 (1 :: g)) with (eval x (1 :: g)) in E2.
  rewrite Hroot, gfMul_0_l in E2. rewrite E2 in E. clear E2.
  simpl in E. rewrite gfMul_1_l in E by done.
  rewrite !Z.lxor_nilpotent, ?Z.lxor_0_r in E.
  unfold eval. rewrite <-(take_drop (length g) rest) at 2.
  rewrite !app_comm_cons. unfold horner in *. rewrite !foldl_app. f_equal. exact E.
Qed.

Lemma encode_loop g n pre res :
  bytes_ok g -> bytes_ok res -> (n + length g <= length res)%nat ->
  exists rest,
    foldl (encode_step (1 :: g)) (pre ++ res) (seq (length pre) n) = pre ++ replicate n 0 ++ rest /\
    (length rest + n = length res)%nat /\ bytes_ok rest /\
    forall x, byte_ok x -> eval x (1 :: g) = 0 -> eval x rest = eval x res.
Proof.
  intros Hg. revert pre res. induction n as [|n IH]; intros pre res Hb Hl.
  { exists res. simpl. by rewrite Nat.add_0_r. }
  destruct res as [|r0 rest]; [simpl in Hl; lia|]. simpl in Hl.
  destruct (encode_step_spec g pre r0 rest Hg Hb ltac:(lia)) as (r1 & E1 & L1 & B1 & V1).
  destruct (IH (pre ++ [0]) r1 B1 ltac:(lia)) as (r2 & E2 & L2 & B2 & V2).
  exists r2. simpl. rewrite E1. rewrite length_app, Nat.add_1_r, <-!app_assoc in E2. simpl in E2.
  split; [exact E2|]. split; [lia|]. split; [done|].
  intros x Hx Hroot. by rewrite V2, <-V1 by done.
Qed.

(** The remainder of [data * x^n] by the generator. *)
Lemma rsEncode_spec data n :
  bytes_ok data -> (n <= 30)%nat ->
  length (rsEncode data n) = n /\ bytes_ok (rsEncode data n) /\
  forall d, (d < n)%nat ->
    eval (gf_exp (Z.of_nat d)) (rsEncode data n) =
    eval (gf_exp (Z.of_nat d)) (data ++ replicate n 0).
Proof.
  intros Hd Hn. destruct (generator_spec n Hn) as (g & Eg & Lg & Bg & Rg).
  unfold rsEncode. rewrite Eg. unfold u8_new.
  destruct (encode_loop g (length data) [] (data ++ replicate n 0)) as (rest & E & L & B & V);
    [done | by apply bytes_ok_app; auto using zeros_ok
    | rewrite length_app, length_replicate; lia |].
  simpl in E. rewrite E, drop_app_length' by by rewrite length_replicate.
  rewrite length_app, length_replicate in L. split; [lia|]. split; [done|].
  intros d Hd'. apply V; [|by apply Rg]. by apply exp_spec; lia.
Qed.

Lemma rsEncode_is_codeword data n :
  bytes_ok data -> (n <= 30)%nat ->
  length (rsEncode data n) = n /\ bytes_ok (rsEncode data n) /\
  forall d, (d < n)%nat -> eval (gf_exp (Z.of_nat d)) (data ++ rsEncode data n) = 0.
Proof.
  intros Hd Hn. destruct (rsEncode_spec data n Hd Hn) as (L & B & V).
  split; [done|]. split; [done|]. intros d Hd'.
  pose proof (V d Hd') as Vd. set (x := gf_exp _) in *. assert (Hx : byte_ok x) by (by apply exp_spec; lia).
  set (ec := rsEncode data n) in *.
  pose proof (horner_lxor x 0 0 (data ++ replicate n 0) (replicate (length data) 0 ++ ec)) as E.
  rewrite zip_with_app, zip_zeros_r in E by by rewrite length_replicate.
  rewrite <-L, zip_zeros_l, L in E.
  unfold eval. rewrite Z.lxor_0_l in E. rewrite E; try done.
  - change (horner x 0 (data ++ replicate n 0)) with (eval x (data ++ replicate n 0)).
    rewrite <-Vd. unfold eval at 1. unfold horner at 2.
    rewrite foldl_app. change (foldl _ 0 (replicate (length data) 0)) with (eval x (replicate (length data) 0)).
    rewrite eval_zeros. apply Z.lxor_nilpotent.
  - apply bytes_ok_app; auto using zeros_ok.
  - apply bytes_ok_app; auto using zeros_ok.
  - rewrite !length_app, !length_replicate. lia.
Qed.

(** The bytes [rsEncode] computes make every block a Reed-Solomon codeword: for any data
    bytes and any number [n] of error-correction bytes up to 30, there are exactly [n] of them,
    each a byte, and the polynomial of the data followed by them vanishes at the [n] consecutive
    powers [2^0 .. 2^(n-1)] of the generator of GF(256). *)
Theorem rsEncode_codeword data n :
  bytes_ok data -> (n <= 30)%nat ->
  length (rsEncode data n) = n /\ bytes_ok (rsEncode data n) /\
  forall d, (d < n)%nat -> eval (gf_exp (Z.of_nat d)) (data ++ rsEncode data n) = 0.
Proof. exact (rsEncode_is_codeword data n). Qed.

Lemma rsEncode_codeword_witness :
  bytes_ok [32; 65; 205] /\
  forall d, (d < 7)%nat -> eval (gf_exp (Z.of_nat d)) ([32; 65; 205] ++ rsEncode [32; 65; 205] 7) = 0.
Proof.
  assert (H : bytes_ok [32; 65; 205]) by by apply bytes_okb_ok.
  split; [exact H|]. apply (rsEncode_codeword [32; 65; 205] 7 H). lia.
Defined.

(** Multiplication by table look-up is the multiplication of a field whose addition is
    exclusive or: it is commutative, associative, distributes over addition, has 1 as unit, and
    has no divisors of zero. *)
Theorem gfMul_field a b c :
  byte_ok a -> byte_ok b -> byte_ok c ->
  byte_ok (gfMul a b) /\ gfMul a b = gfMul b a /\
  gfMul (gfMul a b) c = gfMul a (gfMul b c) /\
  gfMul a (Z.lxor b c) = Z.lxor (gfMul a b) (gfMul a c) /\
  gfMul 1 a = a /\ (gfMul a b = 0 -> a = 0 \/ b = 0).
Proof.
  intros Ha Hb Hc. split_and!; auto using gfMul_comm, gfMul_assoc, gfMul_lxor_r, gfMul_1_l with dd.
  intros E. destruct (decide (a = 0)); [by left|]. destruct (decide (b = 0)); [by right|].
  rewrite gfMul_nonzero in E by done.
  destruct (log_spec a Ha), (log_spec b Hb); try done.
  destruct (exp_spec (gf_log a + gf_log b)) as (_ & _ & ? & _); [lia | done].
Qed.

Lemma gfMul_field_witness :
  gfMul (gfMul 3 200) 77 = gfMul 3 (gfMul 200 77).
Proof. apply (gfMul_field 3 200 77); unfold byte_ok; lia. Defined.
End Gf256.
