(* ===== verification/Qr.v ===== *)
(** * QR codes (client/src/qr.ts, lines 68-449)

    The encoder that draws a pairing payload or a contact link: version choice, the bit stream,
    the function patterns, the zig-zag placement, masking and its penalty, the format
    information and the SVG text.  A reference reader, which follows the standard and not the
    encoder, recovers the text from every symbol the encoder makes. *)

From stdpp Require Import pretty.
From S2P Require Import Prelude Gf256.

Module Qr.
Import Gf256.

(** ** Versions and the bit stream *)

Definition DATA_CODEWORDS_L : list nat := [19; 34; 55; 80; 108]%nat.
Definition EC_CODEWORDS_L : list nat := [7; 10; 15; 20; 26]%nat.

Definition data_codewords (v : nat) : nat := default 0%nat (DATA_CODEWORDS_L !! (v - 1)%nat).
Definition ec_codewords (v : nat) : nat := default 0%nat (EC_CODEWORDS_L !! (v - 1)%nat).

(** The first version of [1..5] whose capacity fits; 0 when none does. *)
Definition pickVersion (byteLen : nat) : nat :=
  default 0%nat (List.find (fun v => (byteLen <=? data_codewords v - 2)%nat) (seq 1 5)).

(** [BitBuffer.put]: the low [length] bits of [value], most significant first. *)
Definition put_bits (value : Z) (length : nat) : list Z :=
  (fun i => Z.land (Z.shiftr value (Z.of_nat i)) 1) <$> rev (seq 0 length).
Definition put (value : Z) (length : nat) (bits : list Z) : list Z := bits ++ put_bits value length.

(** [BitBuffer.toBytes] *)
Definition toBytes (bits : list Z) : bytes :=
  foldl (fun out i =>
           if default 0 (bits !! i) =? 0 then out
           else u8_store (i / 8) (Z.lor (default 0 (out !! (i / 8)%nat))
                                        (Z.shiftr 128 (Z.of_nat (i mod 8)))) out)
        (u8_new ((length bits + 7) / 8)) (seq 0 (length bits)).

(** [while (bb.length % 8 !== 0) bb.put(0, 1)]; seven turns are enough. *)
Fixpoint pad_to_byte (fuel : nat) (bits : list Z) : list Z :=
  match fuel with
  | O => bits
  | S fuel => if (length bits mod 8 =? 0)%nat then bits else pad_to_byte fuel (put 0 1 bits)
  end.

(** The data bit stream: mode, length, the bytes, terminator, padding to a byte. *)
Definition data_bits (data : bytes) (dataCodewords : nat) : list Z :=
  let bb := put 4 4 [] in
  let bb := put (Z.of_nat (length data)) 8 bb in
  let bb := foldl (fun bb b => put b 8 bb) bb data in
  let terminator := (4 `min` (dataCodewords * 8 - length bb))%nat in
  pad_to_byte 7 (put 0 terminator bb).

(** The pad loop: alternating pad codewords from index [i] on. *)
Definition fill_pads (i dataCodewords : nat) (dataBytes : bytes) : bytes :=
  foldl (fun a k => u8_store (i + k) (if (k mod 2 =? 0)%nat then 236 else 17) a)
        dataBytes (seq 0 (dataCodewords - i)).

(** The codewords of the symbol: data, then error correction. *)
Definition codewords (data : bytes) (version : nat) : result bytes :=
  let dataCodewords := data_codewords version in
  let ecCodewords := ec_codewords version in
  let bb := data_bits data dataCodewords in
  let? dataBytes := u8_set 0 (toBytes bb) (u8_new dataCodewords) in
  let dataBytes := fill_pads (length bb / 8) dataCodewords dataBytes in
  let ec := rsEncode dataBytes ecCodewords in
  let? all := u8_set 0 dataBytes (u8_new (dataCodewords + ecCodewords)) in
  u8_set dataCodewords ec all.

(** ** The module grid *)

Definition EMPTY : Z := -1.

(** [{ m, reserved, size }]: the modules row by row, and which of them are not data. *)
Record matrix := Matrix { m : list Z; reserved : list bool; size : nat }.

Definition newMatrix (size : nat) : matrix :=
  Matrix (replicate (size * size) EMPTY) (replicate (size * size) false) size.

Definition reserve (i : nat) (mx : matrix) : matrix :=
  Matrix mx.(m) (<[i := true]> mx.(reserved)) mx.(size).
Definition write (i : nat) (v : Z) (mx : matrix) : matrix :=
  Matrix (<[i := v]> mx.(m)) mx.(reserved) mx.(size).

(** [setModule], always called with its default [reserve = true]. *)
Definition setModule (mx : matrix) (r c : nat) (dark : bool) : matrix :=
  let i := (r * mx.(size) + c)%nat in reserve i (write i (if dark then 1 else 0) mx).

Definition placeFinder (mx : matrix) (top left : Z) : matrix :=
  foldl (fun mx r =>
    foldl (fun mx c =>
      let rr := top + r in
      let cc := left + c in
      let n := Z.of_nat mx.(size) in
      if (rr <? 0) || (n <=? rr) || (cc <? 0) || (n <=? cc) then mx else
      let inRing := (0 <=? r) && (r <=? 6) && (0 <=? c) && (c <=? 6) in
      let isBorder := (r =? 0) || (r =? 6) || (c =? 0) || (c =? 6) in
      let isCore := (2 <=? r) && (r <=? 4) && (2 <=? c) && (c <=? 4) in
      setModule mx (Z.to_nat rr) (Z.to_nat cc) (inRing && (isBorder || isCore)))
    mx (seqZ (-1) 9)) mx (seqZ (-1) 9).

Definition placeAlignment (mx : matrix) (cr cc : Z) : matrix :=
  foldl (fun mx r =>
    foldl (fun mx c =>
      let dark := negb (Z.max (Z.abs r) (Z.abs c) =? 1) in
      setModule mx (Z.to_nat (cr + r)) (Z.to_nat (cc + c)) dark)
    mx (seqZ (-2) 5)) mx (seqZ (-2) 5).

(** Reserve the two format strips and set the module that is always dark. *)
Definition reserveFormat (mx : matrix) : matrix :=
  let n := mx.(size) in
  let mx := foldl (fun mx i =>
    if (i =? 6)%nat then mx else reserve (i * n + 8) (reserve (8 * n + i) mx)) mx (seq 0 9) in
  let mx := foldl (fun mx i =>
    reserve ((n - 1 - i) * n + 8) (reserve (8 * n + (n - 1 - i)) mx)) mx (seq 0 8) in
  write ((n - 8) * n + 8) 1 (reserve ((n - 8) * n + 8) mx).

Definition buildFunctionalPatterns (version : nat) : matrix :=
  let size := (17 + 4 * version)%nat in
  let s := Z.of_nat size in
  let mx := newMatrix size in
  let mx := placeFinder mx 0 0 in
  let mx := placeFinder mx 0 (s - 7) in
  let mx := placeFinder mx (s - 7) 0 in
  let mx := foldl (fun mx i =>
    let dark := (i mod 2 =? 0)%nat in
    setModule (setModule mx 6 i dark) i 6 dark) mx (seq 8 (size - 16)) in
  let mx := if (2 <=? version)%nat
            then let p := 4 * Z.of_nat version + 10 in placeAlignment mx p p else mx in
  reserveFormat mx.

(** [bitAt] *)
Definition bitAt (bs : bytes) (i : nat) : Z :=
  if (i <? length bs * 8)%nat
  then Z.land (Z.shiftr (default 0 (bs !! (i / 8)%nat)) (7 - Z.of_nat (i mod 8))) 1 else 0.

(** The body of [placeData]'s innermost loop, on the modules and [bitIndex]. *)
Definition place_bit (reserved : list bool) (bs : bytes) (st : list Z * nat) (i : nat)
  : list Z * nat :=
  let '(m, bitIndex) := st in
  if default false (reserved !! i) then st else (<[i := bitAt bs bitIndex]> m, S bitIndex).

(** The [while (col > 0)] loop: two columns a turn, alternately upward and downward. *)
Fixpoint place_columns (fuel n : nat) (reserved : list bool) (bs : bytes)
    (col : Z) (upward : bool) (st : list Z * nat) : list Z * nat :=
  match fuel with
  | O => st
  | S fuel =>
      if 0 <? col then
        let col := if col =? 6 then col - 1 else col in
        let st := foldl (fun st i =>
          let row := if upward then (n - 1 - i)%nat else i in
          foldl (fun st dc => place_bit reserved bs st (row * n + Z.to_nat (col - dc))) st [0; 1])
          st (seq 0 n) in
        place_columns fuel n reserved bs (col - 2) (negb upward) st
      else st
  end.

Definition placeData (mx : matrix) (bs : bytes) : matrix :=
  let n := mx.(size) in
  Matrix (place_columns n n mx.(reserved) bs (Z.of_nat n - 1) true (mx.(m), 0%nat)).1
         mx.(reserved) n.

(** ** Masks and format information *)

Definition maskCondition (mask : Z) (r c : Z) : bool :=
  match mask with
  | 0 => (r + c) mod 2 =? 0
  | 1 => r mod 2 =? 0
  | 2 => c mod 3 =? 0
  | 3 => (r + c) mod 3 =? 0
  | 4 => (r / 2 + c / 3) mod 2 =? 0
  | 5 => (r * c) mod 2 + (r * c) mod 3 =? 0
  | 6 => ((r * c) mod 2 + (r * c) mod 3) mod 2 =? 0
  | _ => ((r + c) mod 2 + (r * c) mod 3) mod 2 =? 0
  end.

(** The double loop of [qrMatrix] that applies a mask to the data modules. *)
Definition apply_mask (mask : Z) (mx : matrix) : matrix :=
  let n := mx.(size) in
  foldl (fun mx r =>
    foldl (fun mx c =>
      let i := (r * n + c)%nat in
      if negb (default false (mx.(reserved) !! i)) && maskCondition mask (Z.of_nat r) (Z.of_nat c)
      then write i (Z.lxor (default 0 (mx.(m) !! i)) 1) mx else mx)
    mx (seq 0 n)) mx (seq 0 n).

Definition formatBits (mask : Z) : Z :=
  let data := Z.lor (Z.shiftl 1 3) mask in
  let g := 1335 in
  let bch := foldl (fun bch i =>
    if Z.land (Z.shiftr bch i) 1 =? 0 then bch else Z.lxor bch (Z.shiftl g (i - 10)))
    (Z.shiftl data 10) [14; 13; 12; 11; 10] in
  Z.lxor (Z.lor (Z.shiftl data 10) bch) 21522.

Definition writeFormat (mx : matrix) (mask : Z) : matrix :=
  let n := mx.(size) in
  let bits := formatBits mask in
  let bit i := Z.land (Z.shiftr bits (Z.of_nat i)) 1 in
  let mx := foldl (fun mx i => write (8 * n + i) (bit i) mx) mx (seq 0 6) in
  let mx := write (8 * n + 7) (bit 6%nat) mx in
  let mx := write (8 * n + 8) (bit 7%nat) mx in
  let mx := write (7 * n + 8) (bit 8%nat) mx in
  let mx := foldl (fun mx i => write ((14 - i) * n + 8) (bit i) mx) mx (seq 9 6) in
  let mx := foldl (fun mx i => write (8 * n + (n - 1 - i)) (bit i) mx) mx (seq 0 8) in
  foldl (fun mx i => write ((n - 15 + i) * n + 8) (bit i) mx) mx (seq 8 7).

(** [penalty], rule by rule. *)
Definition at_ (m : list Z) (n r c : nat) : Z := default 0 (m !! (r * n + c)%nat).

(** Rule 1 on one line of modules. *)
Definition run_score (cells : list Z) : Z :=
  match cells with
  | [] => 0
  | first :: cells =>
      (foldl (fun '(run, prev, score) cur =>
         if cur =? prev
         then (run + 1, prev, score + (if run + 1 =? 5 then 3 else if 5 <? run + 1 then 1 else 0))
         else (1, cur, score)) (1, first, 0) cells).2
  end.

Definition p1 : list Z := [1; 0; 1; 1; 1; 0; 1; 0; 0; 0; 0].
Definition p2 : list Z := [0; 0; 0; 0; 1; 0; 1; 1; 1; 0; 1].

Definition sum_over (l : list nat) (f : nat -> Z) : Z := foldl (fun s i => s + f i) 0 l.

Definition penalty (m : list Z) (n : nat) : Z :=
  let at_ := at_ m n in
  let all := seq 0 n in
  let rule1 := sum_over all (fun r => run_score (at_ r <$> all) + run_score ((fun c => at_ c r) <$> all)) in
  let rule2 := sum_over (seq 0 (n - 1)) (fun r => sum_over (seq 0 (n - 1)) (fun c =>
    let v := at_ r c in
    if (v =? at_ r (c + 1)%nat) && (v =? at_ (r + 1)%nat c) && (v =? at_ (r + 1)%nat (c + 1)%nat)
    then 3 else 0)) in
  let finder fits line :=
    if fits : bool then
      let w := line <$> seq 0 11 in if bool_decide (w = p1) || bool_decide (w = p2) then 40 else 0
    else 0 in
  let rule3 := sum_over all (fun r => sum_over all (fun c =>
    finder (c + 11 <=? n)%nat (fun k => at_ r (c + k)%nat) +
    finder (r + 11 <=? n)%nat (fun k => at_ (r + k)%nat c))) in
  let dark := Z.of_nat (length (filter (fun v => v = 1) m)) in
  let nn := Z.of_nat (n * n) in
  (* floor(|100 dark / nn - 50| / 5) * 10, over a common denominator *)
  rule1 + rule2 + rule3 + Z.abs (dark * 100 - 50 * nn) / (5 * nn) * 10.

(** ** The public functions *)

(** The symbol for one mask, and its modules. *)
Definition masked_symbol (version : nat) (all : bytes) (mask : Z) : matrix :=
  writeFormat (apply_mask mask (placeData (buildFunctionalPatterns version) all)) mask.

(** The loop over the masks: [best] and [bestScore], [Infinity] while there is none. *)
Definition choose (score : Z -> Z) (best : option (Z * Z)) (mask : Z) : option (Z * Z) :=
  match best with
  | Some (_, bestScore) => if score mask <? bestScore then Some (mask, score mask) else best
  | None => Some (mask, score mask)
  end.

Definition symbol_penalty (version : nat) (all : bytes) (mask : Z) : Z :=
  let mx := masked_symbol version all mask in penalty mx.(m) mx.(size).

Definition best_mask (version : nat) (all : bytes) : Z :=
  default 0 (fst <$> foldl (choose (symbol_penalty version all)) None (seqZ 0 8)).

Definition to_modules (mx : matrix) : list (list bool) :=
  (fun r => (fun c => at_ mx.(m) mx.(size) r c =? 1) <$> seq 0 mx.(size)) <$> seq 0 mx.(size).

Definition qrMatrix (text : string) : result (list (list bool) * nat) :=
  let data := text_encode text in
  let version := pickVersion (length data) in
  if (version =? 0)%nat then Throw (JsError "qr: text too long for a v1-5 code") else
  let? all := codewords data version in
  let best := masked_symbol version all (best_mask version all) in
  Ok (to_modules best, best.(size)).

(** [qrSvg]: the text of the picture, [px] pixels wide, with a quiet zone of four modules. *)
Definition attr (name value : string) : string := (name +:+ "=" +:+ quoted value)%string.

Definition qrSvg (text : string) (px : nat) : result string :=
  let? ms := qrMatrix text in
  let '(modules, size) := ms in
  let quiet := 4%nat in
  let dim := pretty (size + quiet * 2)%nat in
  let path := foldl (fun path r =>
    foldl (fun path c =>
      if default false (modules !! r ≫= fun row => row !! c)
      then (path +:+ "M" +:+ pretty (c + quiet)%nat +:+ " " +:+ pretty (r + quiet)%nat
            +:+ "h1v1h-1z")%string
      else path) path (seq 0 size)) "" (seq 0 size) in
  Ok ("<svg " +:+ attr "class" "dd-qr-svg" +:+ " "
      +:+ attr "viewBox" ("0 0 " +:+ dim +:+ " " +:+ dim) +:+ " "
      +:+ attr "width" (pretty px) +:+ " " +:+ attr "height" (pretty px) +:+ " "
      +:+ attr "shape-rendering" "crispEdges" +:+ " "
      +:+ attr "xmlns" "http://www.w3.org/2000/svg" +:+ " "
      +:+ attr "role" "img" +:+ " " +:+ attr "aria-label" "QR code" +:+ ">"
      +:+ "<rect " +:+ attr "width" dim +:+ " " +:+ attr "height" dim +:+ " "
      +:+ attr "fill" "#ffffff" +:+ "/>"
      +:+ "<path " +:+ attr "d" path +:+ " " +:+ attr "fill" "#000000" +:+ "/>"
      +:+ "</svg>")%string.

(** ** The reference reader

    What a scanner that follows the standard does with a symbol of level L, one block and
    version 1 to 5: the function modules are described by their coordinates, the mask is found
    in the table of format words through the copy beside the top-right and bottom-left finders,
    and the message is read most significant bit first in zig-zag order. *)

Definition function_module (v : nat) (i : nat) : bool :=
  let n := (17 + 4 * v)%nat in
  let r := (i / n)%nat in
  let c := (i mod n)%nat in
  let p := (4 * v + 10)%nat in
  ((r <? 9) && (c <? 9))%nat || ((r <? 9) && (n - 8 <=? c))%nat || ((n - 8 <=? r) && (c <? 9))%nat
  || (r =? 6)%nat || (c =? 6)%nat
  || ((2 <=? v) && (p <=? r + 2) && (r <=? p + 2) && (p <=? c + 2) && (c <=? p + 2))%nat.

Fixpoint zigzag (fuel n : nat) (col : Z) (upward : bool) : list nat :=
  match fuel with
  | O => []
  | S fuel =>
      if 0 <? col then
        let col := if col =? 6 then col - 1 else col in
        flat_map (fun i =>
          let row := if upward then (n - 1 - i)%nat else i in
          (fun dc => (row * n + Z.to_nat (col - dc))%nat) <$> [0; 1]) (seq 0 n)
        ++ zigzag fuel n (col - 2) (negb upward)
      else []
  end.

Definition side (v : nat) : nat := (17 + 4 * v)%nat.

Definition zigzag_cells (v : nat) : list nat :=
  zigzag (side v) (side v) (Z.of_nat (side v) - 1) true.

Definition data_cells (v : nat) : list nat :=
  List.filter (fun i => negb (function_module v i)) (zigzag_cells v).

Definition module_at (modules : list (list bool)) (n i : nat) : bool :=
  default false (modules !! (i / n)%nat ≫= fun row => row !! (i mod n)%nat).

(** Where bit [i] of the second copy of the format word is. *)
Definition format_cell (n i : nat) : nat :=
  if (i <? 8)%nat then (8 * n + (n - 1 - i))%nat else ((n - 15 + i) * n + 8)%nat.

(** Where bit [i] of the first copy is: from the least significant bit, down column 8, then
    leftwards along row 8, skipping the timing patterns. *)
Definition format_cell_1 (n i : nat) : nat :=
  if (i <? 6)%nat then (i * n + 8)%nat
  else if (i <? 8)%nat then ((i + 1) * n + 8)%nat
  else if (i =? 8)%nat then (8 * n + 7)%nat else (8 * n + (14 - i))%nat.

Definition FORMAT_L : list Z := [30660; 29427; 32170; 30877; 26159; 25368; 27713; 26998].

(** The number whose bits, most significant first, are given. *)
Definition value_of (bits : list Z) : Z := foldl (fun a b => 2 * a + b) 0 bits.

Definition read_word (modules : list (list bool)) (n : nat) (cell : nat -> nat) : Z :=
  value_of ((fun i => Z.b2z (module_at modules n (cell i))) <$> rev (seq 0 15)).

Definition read_mask (modules : list (list bool)) (n : nat) : option Z :=
  (fun p : nat * Z => Z.of_nat p.1) <$>
    list_find (fun w => w = read_word modules n (format_cell n)) FORMAT_L.

(** The mask conditions of the standard (ISO/IEC 18004, data mask pattern generation), at row [i], column [j]. *)
Definition iso_mask (k i j : nat) : bool :=
  match k with
  | 0%nat => Nat.even (i + j)
  | 1%nat => Nat.even i
  | 2%nat => (j mod 3 =? 0)%nat
  | 3%nat => ((i + j) mod 3 =? 0)%nat
  | 4%nat => Nat.even (i / 2 + j / 3)
  | 5%nat => (i * j mod 6 =? 0)%nat
  | 6%nat => Nat.even (i * j mod 2 + i * j mod 3)
  | _ => Nat.even ((i + j) mod 2 + i * j mod 3)
  end.

Definition read_bits (modules : list (list bool)) (n : nat) (mask : Z) : list Z :=
  (fun i => Z.b2z (xorb (module_at modules n i) (iso_mask (Z.to_nat mask) (i / n) (i mod n))))
  <$> data_cells ((n - 17) / 4).

Definition read_message (bits : list Z) : option bytes :=
  if value_of (take 4 bits) =? 4 then
    let len := Z.to_nat (value_of (take 8 (drop 4 bits))) in
    Some ((fun k => value_of (take 8 (drop (12 + 8 * k) bits))) <$> seq 0 len)
  else None.

Definition read_symbol (modules : list (list bool)) (n : nat) : option bytes :=
  read_mask modules n ≫= fun mask => read_message (read_bits modules n mask).

(** The codewords of the symbol: the whole octets of its bits; what is left over are remainder bits. *)
Definition octets (bits : list Z) : bytes :=
  (fun k => value_of (take 8 (drop (8 * k) bits))) <$> seq 0 (length bits / 8).

Definition read_codewords (modules : list (list bool)) (n : nat) : option bytes :=
  (fun mask => octets (read_bits modules n mask)) <$> read_mask modules n.

(** The error-correction codewords of a level-L symbol with one block, the pad codewords, and the
    half-octets in which the header of a byte-mode message is laid out. *)
Definition iso_ec (v : nat) : nat :=
  match v with 1%nat => 7 | 2%nat => 10 | 3%nat => 15 | 4%nat => 20 | _ => 26 end%nat.
Definition iso_pads (k : nat) : bytes := (fun i => if Nat.even i then 236 else 17) <$> seq 0 k.
Definition nibbles (l : bytes) : list Z := concat ((fun b => [b / 16; b mod 16]) <$> l).
Definition iso_message (data : bytes) (pads : nat) : list Z :=
  [4; Z.of_nat (length data) / 16; Z.of_nat (length data) mod 16] ++ nibbles data ++ [0] ++ nibbles (iso_pads pads).

(** The field of the standard's Reed-Solomon code, modulo x^8 + x^4 + x^3 + x^2 + 1, by shifting and
    adding, its generator's powers, and the value of a codeword, as a polynomial, at a point. *)
Definition iso_double (x : Z) : Z := if x <? 128 then 2 * x else Z.lxor (2 * x) 285.
Definition iso_mul (a b : Z) : Z :=
  foldl (fun acc i => Z.lxor (iso_double acc) (if Z.testbit b i then a else 0)) 0 [7; 6; 5; 4; 3; 2; 1; 0].
Definition iso_pow (d : nat) : Z := Nat.iter d iso_double 1.
Definition iso_eval (x : Z) (p : bytes) : Z := foldl (fun a c => Z.lxor (iso_mul a x) c) 0 p.

(** ** Bits and bytes *)

Lemma land_1_testbit v i : 0 <= i -> Z.land (Z.shiftr v i) 1 = Z.b2z (Z.testbit v i).
Proof.
  intros Hi. change 1 with (Z.ones 1). rewrite Z.land_ones by lia.
  rewrite Z.testbit_spec' by lia. by rewrite Z.shiftr_div_pow2.
Qed.

Lemma put_bits_S v n :
  put_bits v (S n) = Z.b2z (Z.testbit v (Z.of_nat n)) :: put_bits v n.
Proof.
  unfold put_bits. rewrite seq_S, rev_app_distr. simpl.
  by rewrite land_1_testbit by lia.
Qed.

Lemma length_put_bits v n : length (put_bits v n) = n.
Proof. unfold put_bits. by rewrite length_fmap, length_rev, length_seq. Qed.

Lemma value_of_put_bits v n : value_of (put_bits v n) = v mod 2 ^ Z.of_nat n.
Proof.
  unfold value_of.
  cut (forall acc, foldl (fun a b => 2 * a + b) acc (put_bits v n) =
                   acc * 2 ^ Z.of_nat n + v mod 2 ^ Z.of_nat n).
  { intros H. by rewrite H. }
  induction n as [|n IH]; intros acc.
  { simpl. rewrite Z.mod_1_r. lia. }
  rewrite put_bits_S. simpl foldl. rewrite IH.
  rewrite Nat2Z.inj_succ, Z.pow_succ_r by lia.
  rewrite (Z.mul_comm 2 (2 ^ Z.of_nat n)), Z.rem_mul_r by lia. rewrite (Z.testbit_spec' v) by lia. lia.
Qed.

Lemma byte_lor a b : byte_ok a -> byte_ok b -> byte_ok (Z.lor a b).
Proof.
  unfold byte_ok. intros Ha Hb. split; [apply Z.lor_nonneg; lia|].
  destruct (decide (Z.lor a b = 0)) as [->|]; [lia|].
  assert (0 <= Z.lor a b) by (apply Z.lor_nonneg; lia).
  apply Z.log2_lt_pow2 with (b := 8); [lia|]. rewrite Z.log2_lor by lia.
  assert (Hl : forall c, 0 <= c < 256 -> Z.log2 c < 8).
  { intros c ?. destruct (decide (c = 0)) as [->|]; [done|]. apply Z.log2_lt_pow2; lia. }
  pose proof (Hl a Ha). pose proof (Hl b Hb). lia.
Qed.

Lemma bitAt_testbit bs i :
  (i < length bs * 8)%nat ->
  bitAt bs i = Z.b2z (Z.testbit (default 0 (bs !! (i / 8)%nat)) (7 - Z.of_nat (i mod 8))).
Proof.
  intros H. unfold bitAt. rewrite (proj2 (Nat.ltb_lt _ _)) by done.
  pose proof (Nat.mod_upper_bound i 8 ltac:(lia)). by rewrite land_1_testbit by lia.
Qed.

Definition set_bit (bits : list Z) (out : bytes) (i : nat) : bytes :=
  if default 0 (bits !! i) =? 0 then out
  else u8_store (i / 8) (Z.lor (default 0 (out !! (i / 8)%nat))
                               (Z.shiftr 128 (Z.of_nat (i mod 8)))) out.

Lemma lookup_default_ok bs i : bytes_ok bs -> byte_ok (default 0 (bs !! i)).
Proof.
  intros H. destruct (bs !! i) eqn:E; simpl; [|unfold byte_ok; lia].
  by eapply Forall_lookup_1.
Qed.

Lemma shiftr_128_ok k : byte_ok (Z.shiftr 128 (Z.of_nat k)).
Proof.
  unfold byte_ok. rewrite Z.shiftr_div_pow2 by lia. split; [apply Z.div_pos; lia|].
  apply Z.div_lt_upper_bound; [lia|]. pose proof (Z.pow_pos_nonneg 2 (Z.of_nat k)). nia.
Qed.

Lemma testbit_128 a b :
  (a < 8)%nat -> (b < 8)%nat ->
  Z.testbit (Z.shiftr 128 (Z.of_nat a)) (7 - Z.of_nat b) = (a =? b)%nat.
Proof.
  intros Ha Hb. rewrite Z.shiftr_spec by lia. change 128 with (2 ^ 7).
  rewrite Z.pow2_bits_eqb by lia. destruct (Nat.eqb_spec a b) as [->|]; zcase; lia.
Qed.

Lemma set_bit_spec bits out i j b :
  bytes_ok out -> (i < length out * 8)%nat -> (j < length out)%nat -> (b < 8)%nat ->
  bytes_ok (set_bit bits out i) /\ length (set_bit bits out i) = length out /\
  Z.testbit (default 0 (set_bit bits out i !! j)) (7 - Z.of_nat b) =
    Z.testbit (default 0 (out !! j)) (7 - Z.of_nat b) ||
    ((8 * j + b =? i)%nat && negb (default 0 (bits !! i) =? 0)).
Proof.
  intros Ho Hi Hj Hb. unfold set_bit.
  destruct (default 0 (bits !! i) =? 0); [by rewrite andb_false_r, orb_false_r|].
  rewrite andb_true_r. pose proof (Nat.div_mod_eq i 8) as Ei.
  pose proof (Nat.mod_upper_bound i 8 ltac:(lia)) as Hm.
  assert (B : byte_ok (Z.lor (default 0 (out !! (i / 8)%nat)) (Z.shiftr 128 (Z.of_nat (i mod 8)))))
    by (apply byte_lor; [by apply lookup_default_ok | apply shiftr_128_ok]).
  unfold u8_store. rewrite to_u8_id, length_insert by done.
  split; [by apply Forall_insert|]. split; [done|].
  destruct (decide (j = (i / 8)%nat)) as [->|Hne].
  - rewrite list_lookup_insert_eq by done. cbn [default from_option id].
    rewrite Z.lor_spec, testbit_128 by done. f_equal.
    destruct (Nat.eqb_spec (i mod 8) b), (Nat.eqb_spec (8 * (i / 8) + b) i); lia.
  - rewrite list_lookup_insert_ne by done.
    rewrite (proj2 (Nat.eqb_neq _ _)), orb_false_r; [done|]. intros <-. apply Hne.
    rewrite Nat.mul_comm, Nat.div_add_l, (Nat.div_small b) by lia. lia.
Qed.

(** Packing: byte [j] of [toBytes] holds bits [8j .. 8j+7], most significant first. *)
Lemma toBytes_spec bits :
  let out := toBytes bits in
  length out = ((length bits + 7) / 8)%nat /\ bytes_ok out /\
  forall j b, (j < length out)%nat -> (b < 8)%nat ->
    Z.testbit (default 0 (out !! j)) (7 - Z.of_nat b) =
    (8 * j + b <? length bits)%nat && negb (default 0 (bits !! (8 * j + b)%nat) =? 0).
Proof.
  simpl. change (toBytes bits) with
    (foldl (set_bit bits) (u8_new ((length bits + 7) / 8)) (seq 0 (length bits))).
  set (n := ((length bits + 7) / 8)%nat).
  cut (forall k, (k <= length bits)%nat ->
    let out := foldl (set_bit bits) (u8_new n) (seq 0 k) in
    length out = n /\ bytes_ok out /\
    forall j b, (j < n)%nat -> (b < 8)%nat ->
      Z.testbit (default 0 (out !! j)) (7 - Z.of_nat b) =
      (8 * j + b <? k)%nat && negb (default 0 (bits !! (8 * j + b)%nat) =? 0)).
  { intros H. destruct (H (length bits) ltac:(lia)) as (L & B & V).
    split; [done|]. split; [done|]. rewrite L. exact V. }
  induction k as [|k IH]; intros Hk; cbn zeta.
  { split; [apply length_replicate|]. split; [apply zeros_ok|]. intros j b Hj Hb.
    cbn [seq foldl]. unfold u8_new. rewrite lookup_replicate_2 by done. apply Z.testbit_0_l. }
  destruct (IH ltac:(lia)) as (L & B & V). rewrite seq_S, foldl_app. cbn [foldl plus].
  set (out := foldl _ _ (seq 0 k)) in *.
  assert (Hkn : (k < length out * 8)%nat).
  { rewrite L. subst n. pose proof (Nat.div_mod_eq (length bits + 7) 8).
    pose proof (Nat.mod_upper_bound (length bits + 7) 8 ltac:(lia)). lia. }
  destruct (decide (n = 0)%nat) as [Hn|Hn]; [lia|].
  destruct (set_bit_spec bits out k 0 0 B Hkn ltac:(lia) ltac:(lia)) as (B' & L' & _).
  split; [lia|]. split; [done|]. intros j b Hj Hb.
  destruct (set_bit_spec bits out k j b B Hkn ltac:(lia) Hb) as (_ & _ & ->).
  rewrite V by done.
  destruct (Nat.eqb_spec (8 * j + b) k) as [->|].
  - by rewrite (proj2 (Nat.ltb_ge _ _)), (proj2 (Nat.ltb_lt _ _)) by lia.
  - rewrite orb_false_r. f_equal.
    by destruct (Nat.ltb_spec (8 * j + b) (S k)), (Nat.ltb_spec (8 * j + b) k); try lia.
Qed.

Definition is_bit (b : Z) : Prop := b = 0 \/ b = 1.

(** Unpacking undoes packing. *)
Lemma bitAt_toBytes bits i :
  Forall is_bit bits -> (i < length bits)%nat -> bits !! i = Some (bitAt (toBytes bits) i).
Proof.
  intros Hb Hi. destruct (toBytes_spec bits) as (L & _ & V).
  pose proof (Nat.div_mod_eq i 8) as Ei.
  pose proof (Nat.mod_upper_bound i 8 ltac:(lia)) as Hm.
  pose proof (Nat.div_mod_eq (length bits + 7) 8).
  pose proof (Nat.mod_upper_bound (length bits + 7) 8 ltac:(lia)).
  rewrite bitAt_testbit by lia. rewrite V by lia. rewrite <-Ei.
  rewrite (proj2 (Nat.ltb_lt _ _)) by done.
  destruct (lookup_lt_is_Some_2 bits i Hi) as [b E]. rewrite E. simpl. f_equal.
  by destruct (Forall_lookup_1 _ _ _ _ Hb E) as [-> | ->].
Qed.

Lemma bitAt_app bs bs' i : (i < length bs * 8)%nat -> bitAt (bs ++ bs') i = bitAt bs i.
Proof.
  intros Hi. rewrite !bitAt_testbit by (rewrite ?length_app; lia).
  rewrite lookup_app_l; [done|]. apply Nat.Div0.div_lt_upper_bound. lia.
Qed.

Lemma bitAt_is_bit bs i : is_bit (bitAt bs i).
Proof.
  unfold is_bit, bitAt. destruct (i <? length bs * 8)%nat; [|by left].
  pose proof (Nat.mod_upper_bound i 8 ltac:(lia)).
  rewrite land_1_testbit by lia. destruct (Z.testbit _ _); [by right | by left].
Qed.

Lemma put_bits_are_bits v n : Forall is_bit (put_bits v n).
Proof.
  induction n as [|n IH]; [done|]. rewrite put_bits_S. constructor; [|done].
  destruct (Z.testbit _ _); [by right | by left].
Qed.

(** The code's conditions are the standard's, on every module of the five versions. *)
Lemma masks_checked :
  forallb (fun k => forallb (fun r => forallb (fun c =>
    bool_decide (iso_mask k r c = maskCondition (Z.of_nat k) (Z.of_nat r) (Z.of_nat c)))
    (seq 0 37)) (seq 0 37)) (seq 0 8) = true.
Proof. by vm_compute. Qed.

Lemma iso_mask_code mask r c :
  0 <= mask < 8 -> (r < 37)%nat -> (c < 37)%nat ->
  iso_mask (Z.to_nat mask) r c = maskCondition mask (Z.of_nat r) (Z.of_nat c).
Proof.
  intros Hm Hr Hc. pose proof masks_checked as H. rewrite forallb_forall in H.
  specialize (H (Z.to_nat mask) ltac:(apply in_seq; lia)). rewrite forallb_forall in H.
  specialize (H r ltac:(apply in_seq; lia)). rewrite forallb_forall in H.
  specialize (H c ltac:(apply in_seq; lia)). apply bool_decide_eq_true in H. by rewrite Z2Nat.id in H by lia.
Qed.

(** The code's field, by logarithms, is the standard's. *)
Lemma field_checked :
  forallb (fun a => forallb (fun b => gfMul a b =? iso_mul a b) (seqZ 0 256)) (seqZ 0 256) = true.
Proof. by vm_compute. Qed.

Lemma iso_mul_code a b : byte_ok a -> byte_ok b -> iso_mul a b = gfMul a b.
Proof.
  intros Ha Hb. pose proof field_checked as H. rewrite forallb_forall in H.
  specialize (H a ltac:(apply list_elem_of_In, elem_of_seqZ; unfold byte_ok in Ha; lia)). rewrite forallb_forall in H.
  specialize (H b ltac:(apply list_elem_of_In, elem_of_seqZ; unfold byte_ok in Hb; lia)). symmetry. exact (proj1 (Z.eqb_eq _ _) H).
Qed.

Lemma iso_pow_code d : (d < 30)%nat -> iso_pow d = gf_exp (Z.of_nat d).
Proof.
  intros Hd. assert (H : forallb (fun d => iso_pow d =? gf_exp (Z.of_nat d)) (seq 0 30) = true) by by vm_compute.
  rewrite forallb_forall in H. apply Z.eqb_eq, H, in_seq. lia.
Qed.

Lemma iso_eval_code x p : byte_ok x -> bytes_ok p -> iso_eval x p = eval x p.
Proof.
  intros Hx Hp. unfold iso_eval, eval.
  cut (forall a, byte_ok a -> foldl (fun a c => Z.lxor (iso_mul a x) c) a p = horner x a p).
  { intros H. apply H. unfold byte_ok. lia. }
  unfold horner. induction p as [|c p IH]; intros a Ha; [done|]. cbn [foldl]. inv_bytes.
  rewrite iso_mul_code by done. apply IH; [done|]. apply byte_lxor; [apply gfMul_ok|]; done.
Qed.

(** ** The message *)

Definition message_bits (data : bytes) : list Z :=
  put_bits 4 4 ++ put_bits (Z.of_nat (length data)) 8 ++ concat ((fun b => put_bits b 8) <$> data)
  ++ put_bits 0 4.

Lemma length_byte_bits (data : bytes) :
  length (concat ((fun b => put_bits b 8) <$> data)) = (8 * length data)%nat.
Proof.
  induction data as [|b data IH]; [done|]. rewrite fmap_cons. cbn [concat].
  rewrite length_app, length_put_bits, IH. simpl. lia.
Qed.

Lemma length_message_bits data : length (message_bits data) = (8 * (length data + 2))%nat.
Proof. unfold message_bits. rewrite !length_app, length_byte_bits, !length_put_bits. lia. Qed.

Lemma message_bits_are_bits data : Forall is_bit (message_bits data).
Proof.
  unfold message_bits. rewrite !Forall_app. split_and!; try apply put_bits_are_bits.
  induction data; [apply Forall_nil_2|]. rewrite fmap_cons. cbn [concat]. apply Forall_app.
  split; [apply put_bits_are_bits | done].
Qed.

(** When the data fits, the terminator is whole and no padding to a byte is needed. *)
Lemma data_bits_message data dc :
  (length data <= dc - 2)%nat -> (2 <= dc)%nat -> data_bits data dc = message_bits data.
Proof.
  intros Hl Hdc. unfold data_bits.
  assert (E : forall bb, foldl (fun bb b => put b 8 bb) bb data =
                         bb ++ concat ((fun b => put_bits b 8) <$> data)).
  { clear Hl. induction data as [|b data IH]; intros bb; [by rewrite app_nil_r|].
    rewrite fmap_cons. cbn [concat foldl]. rewrite IH. unfold put. by rewrite <-app_assoc. }
  rewrite E. clear E. set (bb := put (Z.of_nat (length data)) 8 _ ++ _).
  assert (Lb : length bb = (12 + 8 * length data)%nat).
  { subst bb. unfold put. rewrite !length_app, length_byte_bits, !length_put_bits.
    cbn [length]. lia. }
  rewrite Lb. replace (4 `min` (dc * 8 - (12 + 8 * length data)))%nat with 4%nat by lia.
  assert (Em : put 0 4 bb = message_bits data).
  { subst bb. unfold put, message_bits. by rewrite app_nil_l, <-!app_assoc. }
  rewrite Em. cbn [pad_to_byte]. rewrite length_message_bits.
  by rewrite (Nat.mul_comm 8), Nat.Div0.mod_mul.
Qed.

Lemma read_byte (data : bytes) rest k y :
  bytes_ok data -> data !! k = Some y ->
  value_of (take 8 (drop (8 * k) (concat ((fun b => put_bits b 8) <$> data) ++ rest))) = y.
Proof.
  revert k. induction data as [|b data IH]; intros k Hd Hy; [done|].
  rewrite fmap_cons. cbn [concat]. inv_bytes. destruct k as [|k].
  - injection Hy as ->. rewrite Nat.mul_0_r, drop_0, <-app_assoc.
    rewrite take_app_length' by by rewrite length_put_bits.
    rewrite value_of_put_bits. by apply Z.mod_small.
  - rewrite <-app_assoc, drop_app_ge by (rewrite length_put_bits; lia). rewrite length_put_bits.
    replace (8 * S k - 8)%nat with (8 * k)%nat by lia. by apply IH.
Qed.

(** Reading the header and the bytes back. *)
Lemma read_message_bits data rest :
  bytes_ok data -> (length data < 256)%nat ->
  read_message (message_bits data ++ rest) = Some data.
Proof.
  intros Hd Hl. unfold read_message, message_bits. rewrite <-!app_assoc.
  rewrite take_app_length' by by rewrite length_put_bits.
  rewrite drop_app_length' by by rewrite length_put_bits.
  rewrite take_app_length' by by rewrite length_put_bits.
  rewrite !value_of_put_bits. change (4 mod 2 ^ Z.of_nat 4 =? 4) with true. cbn iota. f_equal.
  rewrite (Z.mod_small (Z.of_nat (length data))) by lia. rewrite Nat2Z.id.
  apply list_eq_same_length with (n := length data); [done | by rewrite length_fmap, length_seq |].
  intros k x y Hk Hx Hy. rewrite list_lookup_fmap, lookup_seq_lt in Hx by done.
  rewrite <-(read_byte data (put_bits 0 4 ++ rest) k y Hd Hy).
  apply (inj Some). rewrite <-Hx. reflexivity.
Qed.

(** ** The codewords *)

Lemma pickVersion_spec len :
  let v := pickVersion len in
  (v = 0 /\ 106 < len)%nat \/
  (1 <= v <= 5 /\ len <= data_codewords v - 2 /\ 2 <= data_codewords v <= 108 /\
   ec_codewords v <= 30 /\ len <= 106)%nat.
Proof.
  unfold pickVersion. cbn [seq List.find].
  repeat match goal with |- context [(len <=? ?d)%nat] =>
    let d' := eval vm_compute in d in change d with d';
    destruct (Nat.leb_spec len d') end; cbn; lia.
Qed.

Lemma even_mod k : Nat.even k = (k mod 2 =? 0)%nat.
Proof.
  rewrite (Nat.div_mod_eq k 2) at 1. rewrite Nat.even_add, Nat.even_mul. pose proof (Nat.mod_upper_bound k 2 ltac:(lia)).
  by destruct (k mod 2)%nat as [|[|]]; [..|lia].
Qed.

Lemma iso_pads_ok k : bytes_ok (iso_pads k) /\ length (iso_pads k) = k.
Proof.
  unfold iso_pads. rewrite length_fmap, length_seq. split; [|done]. apply Forall_fmap, Forall_forall. intros i _. cbn.
  unfold byte_ok. destruct (Nat.even i); lia.
Qed.

Lemma fill_pads_spec (pre : bytes) i dc :
  length pre = i -> (i <= dc)%nat ->
  fill_pads i dc (pre ++ replicate (dc - i) 0) = pre ++ iso_pads (dc - i).
Proof.
  intros <- Hle. unfold fill_pads.
  cut (forall k (post : bytes), (k <= length post)%nat ->
    foldl (fun a k => u8_store (length pre + k) (if (k mod 2 =? 0)%nat then 236 else 17) a)
      (pre ++ post) (seq 0 k) = pre ++ iso_pads k ++ drop k post).
  { intros H. rewrite H by by rewrite length_replicate. rewrite drop_ge by by rewrite length_replicate. by rewrite app_nil_r. }
  induction k as [|k IH]; intros post Hk; [by rewrite drop_0|].
  rewrite seq_S, foldl_app, IH by lia. cbn [foldl plus]. unfold u8_store. rewrite insert_app_r.
  assert (Ep : forall l : bytes, <[k := to_u8 (if (k mod 2 =? 0)%nat then 236 else 17)]> (iso_pads k ++ l) =
                 iso_pads k ++ <[0%nat := if Nat.even k then 236 else 17]> l).
  { intros l. rewrite <-insert_app_r, Nat.add_0_r, (proj2 (iso_pads_ok k)), even_mod. by destruct (k mod 2 =? 0)%nat. }
  rewrite Ep. destruct (lookup_lt_is_Some_2 post k ltac:(lia)) as [x Hx]. rewrite (drop_S post x k Hx).
  unfold iso_pads. by rewrite seq_S, fmap_app, <-!app_assoc.
Qed.

(** The codewords of a text that fits: the message bits, packed, then pads, then the
    error-correction bytes of all that. *)
Lemma codewords_spec data v :
  bytes_ok data -> (length data <= data_codewords v - 2)%nat ->
  (2 <= data_codewords v)%nat -> (ec_codewords v <= 30)%nat ->
  let block := toBytes (message_bits data) ++ iso_pads (data_codewords v - (length data + 2)) in
  codewords data v = Ok (block ++ rsEncode block (ec_codewords v)) /\
  length block = data_codewords v /\ bytes_ok block.
Proof.
  intros Hd Hl H2 He. cbn zeta. unfold codewords. rewrite data_bits_message by done.
  destruct (toBytes_spec (message_bits data)) as (Lt & Bt & _).
  rewrite length_message_bits in *.
  replace ((8 * (length data + 2) + 7) / 8)%nat with (length data + 2)%nat in Lt
    by (rewrite Nat.mul_comm, Nat.div_add_l, (Nat.div_small 7) by lia; lia).
  replace (8 * (length data + 2) / 8)%nat with (length data + 2)%nat
    by (by rewrite Nat.mul_comm, Nat.div_mul by lia).
  set (dc := data_codewords v) in *. set (tb := toBytes (message_bits data)) in *.
  assert (E0 : u8_set 0 tb (u8_new dc) = Ok (tb ++ replicate (dc - (length data + 2)) 0)).
  { rewrite u8_set_ok by (unfold u8_new; rewrite length_replicate; lia).
    unfold u8_new. rewrite take_0, app_nil_l, drop_replicate. cbn [plus]. by rewrite Lt. }
  rewrite E0. cbn [rbind].
  pose proof (fill_pads_spec tb (length data + 2) dc Lt ltac:(lia)) as Ep.
  destruct (iso_pads_ok (dc - (length data + 2))) as [Bp Lp].
  cbn zeta. rewrite Ep. set (block := tb ++ iso_pads _).
  assert (Lb : length block = dc) by (subst block; rewrite length_app; lia).
  assert (Bb : bytes_ok block) by (subst block; by apply bytes_ok_app).
  destruct (rsEncode_spec block (ec_codewords v) Bb He) as (Lr & _ & _).
  split; [|done].
  rewrite u8_set_ok by (unfold u8_new; rewrite length_replicate; lia). cbn [rbind].
  rewrite take_0, app_nil_l. cbn [plus]. unfold u8_new. rewrite drop_replicate.
  rewrite (u8_set_tail dc block) by lia. done.
Qed.

(** ** Placement *)

Lemma place_columns_zigzag fuel n reserved bs col up st :
  place_columns fuel n reserved bs col up st =
  foldl (place_bit reserved bs) st (zigzag fuel n col up).
Proof.
  revert col up st. induction fuel as [|fuel IH]; intros col up st; [done|].
  cbn [place_columns zigzag]. destruct (0 <? col); [|done].
  cbn zeta. rewrite foldl_app, <-IH. f_equal.
  generalize (if col =? 6 then col - 1 else col) as c. intros c. clear IH.
  revert st. induction (seq 0 n) as [|i l IHl]; intros st; [done|].
  cbn [foldl flat_map]. rewrite foldl_app. apply IHl.
Qed.

(** Reserved modules are skipped; the others receive the bits in order. *)
Lemma place_bits_spec reserved bs ps m k :
  let cells := List.filter (fun i => negb (default false (reserved !! i))) ps in
  NoDup cells -> (forall i, i ∈ cells -> (i < length m)%nat) ->
  let '(m', k') := foldl (place_bit reserved bs) (m, k) ps in
  length m' = length m /\
  (forall i, i ∉ cells -> m' !! i = m !! i) /\
  (forall j i, cells !! j = Some i -> m' !! i = Some (bitAt bs (k + j))).
Proof.
  cbn zeta. revert m k. induction ps as [|p ps IH]; intros m k Hn Hr; [done|].
  cbn [foldl List.filter place_bit] in *.
  destruct (default false (reserved !! p)); cbn [negb] in *; [by apply IH|].
  apply NoDup_cons in Hn as [Hp Hn].
  specialize (IH (<[p := bitAt bs k]> m) (S k) Hn).
  rewrite length_insert in IH. specialize (IH ltac:(intros; apply Hr; by right)).
  destruct (foldl _ _ ps) as [m' k']. destruct IH as (L & Hout & Hin). split; [done|]. split.
  - intros i Hi. apply not_elem_of_cons in Hi as [Hne Hi].
    rewrite Hout by done. by rewrite list_lookup_insert_ne by done.
  - intros [|j] i Hj.
    + injection Hj as <-. rewrite Hout by done. rewrite Nat.add_0_r.
      apply list_lookup_insert_eq. apply Hr. by left.
    + rewrite Nat.add_succ_r. by apply Hin.
Qed.

(** A double loop over the modules visits the indices in order. *)
Lemma foldl_grid {A} (f : A -> nat -> nat -> A) (a : A) n k :
  foldl (fun a r => foldl (fun a c => f a r c) a (seq 0 n)) a (seq 0 k) =
  foldl (fun a i => f a (i / n)%nat (i mod n)%nat) a (seq 0 (k * n)).
Proof.
  destruct (decide (n = 0)%nat) as [->|Hn].
  { rewrite Nat.mul_0_r. simpl. revert a. induction k as [|k IH]; intros a; [done|].
    rewrite seq_S, foldl_app. simpl. apply IH. }
  revert a. induction k as [|k IH]; intros a; [done|].
  rewrite seq_S, foldl_app, IH. cbn [foldl plus].
  rewrite Nat.mul_succ_l, seq_app, foldl_app. cbn [plus].
  set (a' := foldl _ a _). clearbody a'. clear IH a.
  replace (seq (k * n) n) with ((fun c => (k * n + c)%nat) <$> seq 0 n)
    by (rewrite fmap_add_seq; f_equal; lia).
  assert (H : Forall (fun c => c < n)%nat (seq 0 n)) by (apply Forall_seq; lia).
  revert a'. induction H as [|c l Hc Hl IH]; intros a'; [done|].
  rewrite fmap_cons. cbn [foldl]. rewrite <-IH. f_equal.
  rewrite Nat.div_add_l, (Nat.div_small c), Nat.add_0_r by done.
  by rewrite Nat.add_comm, Nat.Div0.mod_add, Nat.mod_small.
Qed.

Definition flips (mask : Z) (reserved : list bool) (n i : nat) : bool :=
  negb (default false (reserved !! i)) &&
  maskCondition mask (Z.of_nat (i / n)) (Z.of_nat (i mod n)).

Lemma apply_mask_spec mask mx :
  mx.(size) <> 0%nat -> length mx.(m) = (mx.(size) * mx.(size))%nat ->
  let mx' := apply_mask mask mx in
  mx'.(size) = mx.(size) /\ mx'.(reserved) = mx.(reserved) /\ length mx'.(m) = length mx.(m) /\
  forall i, (i < mx.(size) * mx.(size))%nat -> mx'.(m) !! i =
    (fun v => if flips mask mx.(reserved) mx.(size) i then Z.lxor v 1 else v) <$> mx.(m) !! i.
Proof.
  intros Hz Hl. cbn zeta. unfold apply_mask. rewrite foldl_grid.
  destruct mx as [m0 res n]. cbn [m reserved size] in *.
  cut (forall k, (k <= n * n)%nat ->
    let mx' := foldl (fun mx i =>
        let j := (i / n * n + i mod n)%nat in
        if negb (default false (mx.(reserved) !! j)) &&
           maskCondition mask (Z.of_nat (i / n)) (Z.of_nat (i mod n))
        then write j (Z.lxor (default 0 (mx.(m) !! j)) 1) mx else mx) (Matrix m0 res n) (seq 0 k) in
    mx'.(size) = n /\ mx'.(reserved) = res /\ length mx'.(m) = length m0 /\
    forall i, mx'.(m) !! i =
      (fun v => if (i <? k)%nat && flips mask res n i then Z.lxor v 1 else v) <$> m0 !! i).
  { intros H. destruct (H (n * n)%nat ltac:(lia)) as (? & ? & ? & V).
    split_and!; try done. intros i Hi. rewrite V. by rewrite (proj2 (Nat.ltb_lt _ _)). }
  induction k as [|k IH]; intros Hk; cbn zeta.
  { split_and!; try done. intros i. simpl. by destruct (m0 !! i). }
  rewrite seq_S, foldl_app. cbn [foldl plus].
  destruct (IH ltac:(lia)) as (S' & R' & L' & V). clear IH.
  set (mx' := foldl _ _ (seq 0 k)) in *. clearbody mx'.
  replace (k / n * n + k mod n)%nat with k by (pose proof (Nat.div_mod_eq k n); lia).
  rewrite R'. change (negb _ && _) with (flips mask res n k).
  destruct (lookup_lt_is_Some_2 m0 k ltac:(lia)) as [v Ev].
  destruct (flips mask res n k) eqn:F.
  - split_and!; [done | done | simpl; by rewrite length_insert |]. intros i. cbn [m write].
    destruct (decide (i = k)) as [->|Hne].
    + rewrite list_lookup_insert_eq by lia. rewrite V, Ev, Nat.ltb_irrefl. simpl.
      by rewrite (proj2 (Nat.ltb_lt _ _)), F by lia.
    + rewrite list_lookup_insert_ne, V by done.
      replace (i <? S k)%nat with (i <? k)%nat; [done|].
      destruct (Nat.ltb_spec i k), (Nat.ltb_spec i (S k)); lia.
  - split_and!; try done. intros i. rewrite V. destruct (decide (i = k)) as [->|Hne].
    + by rewrite F, !andb_false_r.
    + replace (i <? S k)%nat with (i <? k)%nat; [done|].
      destruct (Nat.ltb_spec i k), (Nat.ltb_spec i (S k)); lia.
Qed.

(** ** Format information *)

Definition apply_writes (ws : list (nat * Z)) (m : list Z) : list Z :=
  foldl (fun m w => <[w.1 := w.2]> m) m ws.

(** The stores of [writeFormat], in order. *)
Definition format_writes (n : nat) (mask : Z) : list (nat * Z) :=
  let bit i := Z.land (Z.shiftr (formatBits mask) (Z.of_nat i)) 1 in
  ((fun i => (8 * n + i, bit i)%nat) <$> seq 0 6) ++
  [(8 * n + 7, bit 6); (8 * n + 8, bit 7); (7 * n + 8, bit 8)]%nat ++
  ((fun i => ((14 - i) * n + 8, bit i)%nat) <$> seq 9 6) ++
  ((fun i => (8 * n + (n - 1 - i), bit i)%nat) <$> seq 0 8) ++
  ((fun i => ((n - 15 + i) * n + 8, bit i)%nat) <$> seq 8 7).

Lemma writeFormat_writes mx mask :
  writeFormat mx mask =
  Matrix (apply_writes (format_writes mx.(size) mask) mx.(m)) mx.(reserved) mx.(size).
Proof. by destruct mx. Qed.

(** What a module holds after a list of stores. *)
Definition last_write (ws : list (nat * Z)) (i : nat) : option Z :=
  foldl (fun o w => if (w.1 =? i)%nat then Some w.2 else o) None ws.

Lemma apply_writes_spec ws m i :
  (i < length m)%nat ->
  length (apply_writes ws m) = length m /\
  apply_writes ws m !! i =
    match last_write ws i with Some v => Some v | None => m !! i end.
Proof.
  intros Hi. unfold apply_writes, last_write.
  induction ws as [|w ws IH] using rev_ind; [done|].
  rewrite !foldl_app. cbn [foldl]. rewrite length_insert. destruct IH as [L E].
  split; [done|]. destruct (Nat.eqb_spec w.1 i) as [->|Hne].
  - apply list_lookup_insert_eq. lia.
  - by rewrite list_lookup_insert_ne.
Qed.

(** ** The geometry of the five versions, by evaluation *)

Definition positions (n : nat) (cells : list nat) : list nat :=
  snd (foldl (fun '(k, a) c => (S k, <[c := k]> a)) (0%nat, replicate (n * n) 0%nat) cells).

Definition geometry_check (v : nat) : bool :=
  let n := side v in
  let mx := buildFunctionalPatterns v in
  let cells := data_cells v in
  let pos := positions n cells in
  (mx.(size) =? n)%nat && (length mx.(m) =? n * n)%nat &&
  bool_decide (mx.(reserved) = function_module v <$> seq 0 (n * n)) &&
  forallb (fun i => (i <? n * n)%nat) (zigzag_cells v) &&
  bool_decide ((fun c => default 0%nat (pos !! c)) <$> cells = seq 0 (length cells)) &&
  (8 * (data_codewords v + ec_codewords v) <=? length cells)%nat &&
  (length cells <? 8 * (data_codewords v + ec_codewords v) + 8)%nat.

Lemma geometry_checked : forallb geometry_check (seq 1 5) = true.
Proof. by vm_compute. Qed.

#[local] Strategy 1000 [zigzag].

Lemma zigzag_cells_eq v :
  zigzag (side v) (side v) (Z.of_nat (side v) - 1) true = zigzag_cells v.
Proof. reflexivity. Qed.

(** From here on these are only used through their lemmas. *)
#[local] Strategy opaque [zigzag_cells function_module buildFunctionalPatterns].

Lemma geometry v :
  (1 <= v <= 5)%nat ->
  (buildFunctionalPatterns v).(size) = side v /\
  length (buildFunctionalPatterns v).(m) = (side v * side v)%nat /\
  (buildFunctionalPatterns v).(reserved) = (function_module v <$> seq 0 (side v * side v)) /\
  (forall i, i ∈ zigzag_cells v -> (i < side v * side v)%nat) /\
  NoDup (data_cells v) /\
  (8 * (data_codewords v + ec_codewords v) <= length (data_cells v)
     < 8 * (data_codewords v + ec_codewords v) + 8)%nat.
Proof.
  intros Hv. pose proof geometry_checked as H. rewrite forallb_forall in H.
  specialize (H v ltac:(apply in_seq; lia)). revert H. unfold geometry_check.
  cbn zeta. generalize (buildFunctionalPatterns v) as mx.
  generalize (zigzag_cells v) as zz.
  generalize (data_cells v) as cells. generalize (side v) as n.
  generalize (data_codewords v + ec_codewords v)%nat as cw.
  intros cw n cells zz mx. rewrite !andb_true_iff, !bool_decide_eq_true, !Nat.eqb_eq.
  rewrite forallb_forall, Nat.leb_le, Nat.ltb_lt.
  intros ((((((H1 & H2) & H3) & H4) & H5) & H6) & H7).
  split_and!; [exact H1 | exact H2 | exact H3 | | | exact H6 | exact H7].
  - intros i Hi. apply Nat.ltb_lt, H4. by apply list_elem_of_In.
  - eapply NoDup_fmap_1. rewrite H5. apply NoDup_seq.
Qed.

Lemma reserved_lookup v i :
  (1 <= v <= 5)%nat -> (i < side v * side v)%nat ->
  default false ((buildFunctionalPatterns v).(reserved) !! i) = function_module v i.
Proof.
  intros Hv Hi. destruct (geometry v Hv) as (_ & _ & E & _). rewrite E.
  by rewrite list_lookup_fmap, lookup_seq_lt.
Qed.

Lemma data_cells_filter v :
  (1 <= v <= 5)%nat ->
  List.filter (fun i => negb (default false ((buildFunctionalPatterns v).(reserved) !! i)))
    (zigzag_cells v) = data_cells v.
Proof.
  intros Hv. destruct (geometry v Hv) as (_ & _ & _ & H & _). unfold data_cells.
  apply filter_ext_in. intros i Hi. apply list_elem_of_In in Hi. by rewrite reserved_lookup by auto.
Qed.

Lemma data_cell_spec v i :
  (1 <= v <= 5)%nat -> i ∈ data_cells v ->
  (i < side v * side v)%nat /\ function_module v i = false.
Proof.
  intros Hv Hi. unfold data_cells in Hi. apply list_elem_of_In, filter_In in Hi as [Hi Hf].
  apply list_elem_of_In in Hi. destruct (geometry v Hv) as (_ & _ & _ & H & _).
  split; [by apply H | by apply negb_true_iff].
Qed.

(** The stores of the format words only touch function modules, and leave the second copy as
    the format word and the first copy as its mirror image. *)
Definition format_check (v : nat) (mask : Z) : bool :=
  let n := side v in
  let ws := format_writes n mask in
  let word cell := (fun i => last_write ws (cell n i)) <$> rev (seq 0 15) in
  forallb (fun w : nat * Z => function_module v w.1 && (w.1 <? n * n)%nat) ws &&
  forallb (fun i => (format_cell n i <? n * n)%nat && (format_cell_1 n i <? n * n)%nat) (seq 0 15) &&
  bool_decide (word format_cell = Some <$> put_bits (formatBits mask) 15) &&
  bool_decide (word format_cell_1 = Some <$> rev (put_bits (formatBits mask) 15)) &&
  bool_decide (default 0 (FORMAT_L !! Z.to_nat mask) = formatBits mask) &&
  bool_decide ((fun p : nat * Z => Z.of_nat p.1) <$> list_find (fun w => w = formatBits mask) FORMAT_L
               = Some mask) &&
  (0 <=? formatBits mask) && (formatBits mask <? 2 ^ 15) &&
  forallb (fun w => negb (value_of (rev (put_bits (formatBits mask) 15)) =? w)) FORMAT_L.

Lemma formats_checked :
  forallb (fun v => forallb (format_check v) (seqZ 0 8)) (seq 1 5) = true.
Proof. by vm_compute. Qed.

Lemma format_spec v mask :
  (1 <= v <= 5)%nat -> 0 <= mask < 8 ->
  let n := side v in
  let ws := format_writes n mask in
  let word cell := (fun i => last_write ws (cell n i)) <$> rev (seq 0 15) in
  (forall w, In w ws -> function_module v w.1 = true) /\
  (forall i, (i < 15)%nat -> (format_cell n i < n * n)%nat /\ (format_cell_1 n i < n * n)%nat) /\
  word format_cell = (Some <$> put_bits (formatBits mask) 15) /\
  word format_cell_1 = (Some <$> rev (put_bits (formatBits mask) 15)) /\
  (fun p : nat * Z => Z.of_nat p.1) <$> list_find (fun w => w = formatBits mask) FORMAT_L = Some mask /\
  0 <= formatBits mask < 2 ^ 15 /\
  value_of (rev (put_bits (formatBits mask) 15)) ∉ FORMAT_L.
Proof.
  intros Hv Hm. pose proof formats_checked as H. rewrite forallb_forall in H.
  specialize (H v ltac:(apply in_seq; lia)). rewrite forallb_forall in H.
  specialize (H mask ltac:(apply list_elem_of_In, elem_of_seqZ; lia)).
  revert H. unfold format_check. cbn zeta. generalize (side v) as n. intros n.
  generalize (format_writes n mask) as ws. intros ws.
  rewrite !andb_true_iff, !bool_decide_eq_true, !forallb_forall.
  intros ((((((((H1 & H2) & H3) & H4) & H5) & H6) & H7) & H8) & H9).
  split_and!; [| | exact H3 | exact H4 | exact H6 | lia | lia |].
  - intros w Hw. by apply H1, andb_true_iff in Hw as [? _].
  - intros i Hi. specialize (H2 i ltac:(apply in_seq; lia)).
    apply andb_true_iff in H2 as [E1 E2]. apply Nat.ltb_lt in E1, E2. done.
  - intros Hin. apply list_elem_of_In, H9 in Hin. by rewrite Z.eqb_refl in Hin.
Qed.

Lemma last_write_elem ws i v : last_write ws i = Some v -> exists w, In w ws /\ w.1 = i.
Proof.
  unfold last_write. induction ws as [|w ws IH] using rev_ind; [done|].
  rewrite foldl_app. cbn [foldl]. destruct (Nat.eqb_spec w.1 i) as [E|_].
  - intros _. exists w. split; [|done]. apply in_or_app. right. by left.
  - intros H. destruct (IH H) as (w' & Hw & E). exists w'. split; [|done]. apply in_or_app. by left.
Qed.

(** ** The finished symbol *)

(** A data module holds its bit, flipped where the mask says so. *)
Lemma masked_symbol_spec v all mask :
  (1 <= v <= 5)%nat -> 0 <= mask < 8 ->
  let mx := masked_symbol v all mask in
  let n := side v in
  mx.(size) = n /\ length mx.(m) = (n * n)%nat /\
  (forall j i, data_cells v !! j = Some i ->
     mx.(m) !! i = Some (let b := bitAt all j in
       if maskCondition mask (Z.of_nat (i / n)) (Z.of_nat (i mod n)) then Z.lxor b 1 else b)) /\
  (forall i b, (i < n * n)%nat -> last_write (format_writes n mask) i = Some b ->
     mx.(m) !! i = Some b).
Proof.
  intros Hv Hm. cbn zeta.
  destruct (geometry v Hv) as (Gs & Gl & _ & _ & Gn & _).
  unfold masked_symbol, placeData.
  pose proof (data_cells_filter v Hv) as Ec. pose proof (data_cell_spec v) as Hcell.
  rewrite place_columns_zigzag, Gs, zigzag_cells_eq.
  pose proof (place_bits_spec (buildFunctionalPatterns v).(reserved) all (zigzag_cells v)
                (buildFunctionalPatterns v).(m) 0) as P.
  cbn zeta in P. rewrite Ec, Gl in P. specialize (P Gn).
  specialize (P ltac:(intros i Hi; by apply Hcell)).
  destruct (foldl _ _ (zigzag_cells v)) as [m1 k1]. destruct P as (L1 & _ & V1). cbn [fst].
  set (mx1 := Matrix m1 _ _).
  assert (Hside : side v <> 0%nat) by (unfold side; lia).
  destruct (apply_mask_spec mask mx1 ltac:(done) ltac:(by cbn; rewrite L1)) as (S2 & R2 & L2 & V2).
  set (mx2 := apply_mask mask mx1) in *. clearbody mx2. cbn [size m reserved] in S2, R2, L2, V2.
  rewrite writeFormat_writes. cbn [size m reserved]. rewrite S2. subst mx1. cbn [size m reserved] in *.
  pose proof (apply_writes_spec (format_writes (side v) mask) mx2.(m)) as W.
  rewrite L2, L1 in W.
  split; [done|]. split; [by apply (W 0%nat); destruct (side v); simpl; lia|]. split.
  - intros j i Hj. assert (Hi : i ∈ data_cells v) by by eapply list_elem_of_lookup_2.
    destruct (Hcell i Hv Hi) as [Hlt Hf]. destruct (W i Hlt) as [_ ->].
    destruct (last_write _ i) as [b|] eqn:Ew.
    { apply last_write_elem in Ew as (w & Hw & <-).
      destruct (format_spec v mask Hv Hm) as (F & _). rewrite (F w Hw) in Hf. done. }
    rewrite V2 by done. rewrite (V1 j i Hj). cbn [fmap option_fmap option_map plus].
    unfold flips. rewrite reserved_lookup, Hf by done. done.
  - intros i b Hi Hw. destruct (W i Hi) as [_ ->]. by rewrite Hw.
Qed.

Lemma module_at_to_modules mx i :
  (i < mx.(size) * mx.(size))%nat -> length mx.(m) = (mx.(size) * mx.(size))%nat ->
  Some (module_at (to_modules mx) mx.(size) i) = (fun v => v =? 1) <$> mx.(m) !! i.
Proof.
  intros Hi Hl. unfold module_at, to_modules, at_.
  assert (Hn : mx.(size) <> 0%nat) by (intros E; rewrite E in Hi; simpl in Hi; lia).
  pose proof (Nat.div_mod_eq i mx.(size)) as Ei.
  pose proof (Nat.mod_upper_bound i mx.(size) Hn) as Hm.
  rewrite list_lookup_fmap, lookup_seq_lt by by apply Nat.Div0.div_lt_upper_bound.
  simpl. rewrite list_lookup_fmap, lookup_seq_lt by done. simpl.
  replace (i / mx.(size) * mx.(size) + i mod mx.(size))%nat with i by lia.
  destruct (lookup_lt_is_Some_2 mx.(m) i ltac:(lia)) as [b ->]. done.
Qed.

Lemma foldl_choose score l o :
  match foldl (choose score) o l with
  | Some (b, sc) =>
      (o = Some (b, sc) \/ (b ∈ l /\ sc = score b)) /\
      (forall k, k ∈ l -> sc <= score k) /\
      (forall b0 sc0, o = Some (b0, sc0) -> sc <= sc0)
  | None => o = None /\ l = []
  end.
Proof.
  revert o. induction l as [|k l IH]; intros o.
  { simpl. destruct o as [[b sc]|]; [|done]. split; [by left|]. split.
    - intros k Hk. by apply not_elem_of_nil in Hk.
    - intros ? ? [= -> ->]. lia. }
  cbn [foldl]. specialize (IH (choose score o k)).
  destruct (foldl (choose score) (choose score o k) l) as [[b sc]|].
  - destruct IH as (H1 & H2 & H3).
    assert (Hk : sc <= score k).
    { unfold choose in H3. destruct o as [[b0 sc0]|].
      - destruct (Z.ltb_spec (score k) sc0); [by eapply H3|]. pose proof (H3 b0 sc0 eq_refl). lia.
      - by eapply H3. }
    split; [|split].
    + destruct H1 as [H1|[Hin E]]; [|right; split; [by right | done]].
      unfold choose in H1. destruct o as [[b0 sc0]|].
      * destruct (score k <? sc0); [|by left]. injection H1 as <- <-. right. split; [by left | done].
      * injection H1 as <- <-. right. split; [by left | done].
    + intros k' [->|Hk']%elem_of_cons; [done | by apply H2].
    + intros b0 sc0 ->. unfold choose in H3.
      destruct (Z.ltb_spec (score k) sc0); [|by eapply H3]. lia.
  - destruct IH as [E _]. unfold choose in E. destruct o as [[b0 sc0]|]; [|done].
    destruct (score k <? sc0); done.
Qed.

(** The mask chosen is one of the eight, and no other has a smaller penalty. *)
Lemma best_mask_spec v all :
  0 <= best_mask v all < 8 /\
  forall k, 0 <= k < 8 -> symbol_penalty v all (best_mask v all) <= symbol_penalty v all k.
Proof.
  unfold best_mask. generalize (symbol_penalty v all) as score. intros score.
  pose proof (foldl_choose score (seqZ 0 8) None) as H.
  destruct (foldl (choose score) None (seqZ 0 8)) as [[b sc]|]; [|by destruct H].
  destruct H as ([?|[Hb ->]] & H2 & _); [done|]. cbn. split.
  - apply elem_of_seqZ in Hb. lia.
  - intros k Hk. apply H2, elem_of_seqZ. lia.
Qed.

Lemma fmap_Some_impl (f g : nat -> option Z) (l : list nat) (bits : list Z) :
  (f <$> l) = (Some <$> bits) ->
  (forall i b, i ∈ l -> f i = Some b -> g i = Some b) -> (g <$> l) = (Some <$> bits).
Proof.
  revert bits. induction l as [|i l IH]; intros [|b bits] E H; try done.
  rewrite !fmap_cons in *. injection E as E1 E2. f_equal.
  - apply H; [by left | done].
  - apply IH; [done|]. intros. apply H; [by right | done].
Qed.

Lemma read_word_spec mx cell bits :
  length mx.(m) = (mx.(size) * mx.(size))%nat ->
  (forall i, (i < 15)%nat -> (cell i < mx.(size) * mx.(size))%nat) ->
  Forall is_bit bits ->
  ((fun i => mx.(m) !! cell i) <$> rev (seq 0 15)) = (Some <$> bits) ->
  read_word (to_modules mx) mx.(size) cell = value_of bits.
Proof.
  intros Hl Hc Hb E. unfold read_word. f_equal.
  assert (Hin : forall i, i ∈ rev (seq 0 15) -> (i < 15)%nat).
  { intros i Hi. apply list_elem_of_In, in_rev, in_seq in Hi. lia. }
  revert bits Hb E Hin. generalize (rev (seq 0 15)) as l.
  induction l as [|i l IH]; intros [|b bits] Hb E Hin; try done.
  rewrite !fmap_cons in *. injection E as E1 E2. apply Forall_cons in Hb as [Hb0 Hb].
  f_equal; [|apply IH; [done.. |]; intros; apply Hin; by right].
  pose proof (module_at_to_modules mx (cell i) ltac:(apply Hc, Hin; by left) Hl) as M.
  rewrite E1 in M. injection M as ->. destruct Hb0 as [-> | ->]; done.
Qed.

(** Both copies of the format word, as a scanner reads them off the finished symbol. *)
Lemma read_formats v all mask :
  (1 <= v <= 5)%nat -> 0 <= mask < 8 ->
  let modules := to_modules (masked_symbol v all mask) in
  read_word modules (side v) (format_cell (side v)) = formatBits mask /\
  read_word modules (side v) (format_cell_1 (side v)) = value_of (rev (put_bits (formatBits mask) 15)).
Proof.
  intros Hv Hm. cbn zeta.
  destruct (masked_symbol_spec v all mask Hv Hm) as (Sz & Ln & _ & W).
  destruct (format_spec v mask Hv Hm) as (_ & Hc & E2 & E1 & _ & Hr & _).
  set (mx := masked_symbol v all mask) in *. clearbody mx.
  rewrite <-Sz in Ln, W, Hc, E1, E2 |- *.
  assert (Hin : forall i, i ∈ rev (seq 0 15) -> (i < 15)%nat).
  { intros i Hi. apply list_elem_of_In, in_rev, in_seq in Hi. lia. }
  split.
  - rewrite (read_word_spec _ _ (put_bits (formatBits mask) 15)); try done.
    + rewrite value_of_put_bits. by apply Z.mod_small.
    + intros i Hi. by apply Hc.
    + apply put_bits_are_bits.
    + eapply fmap_Some_impl; [exact E2|]. intros i b Hi E. apply W; [by apply Hc, Hin | exact E].
  - apply read_word_spec; try done.
    + intros i Hi. by apply Hc.
    + apply Forall_rev, put_bits_are_bits.
    + eapply fmap_Some_impl; [exact E1|]. intros i b Hi E. apply W; [by apply Hc, Hin | exact E].
Qed.

Lemma read_mask_spec v all mask :
  (1 <= v <= 5)%nat -> 0 <= mask < 8 ->
  read_mask (to_modules (masked_symbol v all mask)) (side v) = Some mask.
Proof.
  intros Hv Hm. unfold read_mask. rewrite (proj1 (read_formats v all mask Hv Hm)).
  by apply (format_spec v mask Hv Hm).
Qed.

(** Reading the data modules through the mask gives the bits of the codewords. *)
Lemma read_bits_spec v all mask :
  (1 <= v <= 5)%nat -> 0 <= mask < 8 ->
  read_bits (to_modules (masked_symbol v all mask)) (side v) mask =
  bitAt all <$> seq 0 (length (data_cells v)).
Proof.
  intros Hv Hm. unfold read_bits.
  replace ((side v - 17) / 4)%nat with v
    by (unfold side; rewrite Nat.add_comm, Nat.add_sub, Nat.mul_comm, Nat.div_mul; lia).
  destruct (masked_symbol_spec v all mask Hv Hm) as (Sz & Ln & D & _).
  set (mx := masked_symbol v all mask) in *. clearbody mx.
  apply list_eq_same_length with (n := length (data_cells v));
    [by rewrite length_fmap, length_seq | by rewrite length_fmap |].
  intros j x y Hj Hx Hy. rewrite list_lookup_fmap, lookup_seq_lt in Hy by done.
  apply (inj Some) in Hy as <-. rewrite list_lookup_fmap in Hx.
  destruct (data_cells v !! j) as [i|] eqn:Ei; [|done]. apply (inj Some) in Hx as <-.
  destruct (data_cell_spec v i Hv) as [Hi _]; [by eapply list_elem_of_lookup_2|].
  pose proof (module_at_to_modules mx i) as M.
  rewrite Sz in M. specialize (M Hi Ln). rewrite (D j i Ei) in M.
  apply (inj Some) in M. rewrite M. cbn [plus].
  assert (Hs : (0 < side v <= 37)%nat) by (unfold side; lia).
  rewrite iso_mask_code;
    [|done|pose proof (Nat.Div0.div_lt_upper_bound i (side v) (side v) Hi); lia
     |pose proof (Nat.mod_upper_bound i (side v) ltac:(lia)); lia].
  generalize (maskCondition mask (Z.of_nat (i / side v)) (Z.of_nat (i mod side v))) as f.
  intros f. destruct (bitAt_is_bit all j) as [-> | ->]; by destruct f.
Qed.

Lemma bits_of_codewords data v all n :
  bytes_ok data -> (length data <= data_codewords v - 2)%nat ->
  (2 <= data_codewords v)%nat -> (ec_codewords v <= 30)%nat ->
  codewords data v = Ok all -> (8 * (data_codewords v + ec_codewords v) <= n)%nat ->
  exists rest, bitAt all <$> seq 0 n = message_bits data ++ rest.
Proof.
  intros Hd Hl H2 He E Hn.
  destruct (codewords_spec data v Hd Hl H2 He) as (E' & _ & _). rewrite E in E'. apply (inj Ok) in E' as ->.
  pose proof (length_message_bits data) as Lm.
  exists (drop (length (message_bits data)) (bitAt ((toBytes (message_bits data) ++ iso_pads (data_codewords v - (length data + 2))) ++
     rsEncode (toBytes (message_bits data) ++ iso_pads (data_codewords v - (length data + 2))) (ec_codewords v)) <$> seq 0 n)).
  set (l := bitAt _ <$> seq 0 n).
  rewrite <-(take_drop (length (message_bits data)) l) at 1. f_equal.
  apply list_eq_same_length with (n := length (message_bits data)); [done | |].
  { subst l. rewrite length_take, length_fmap, length_seq. lia. }
  intros i x y Hi Hx Hy. rewrite lookup_take_lt in Hx by done. subst l.
  rewrite list_lookup_fmap, lookup_seq_lt in Hx by lia. apply (inj Some) in Hx as <-.
  pose proof (bitAt_toBytes (message_bits data) i (message_bits_are_bits data) Hi) as B.
  rewrite Hy in B. apply (inj Some) in B. rewrite B. cbn [plus].
  destruct (toBytes_spec (message_bits data)) as (Lt & _).
  rewrite <-app_assoc. apply bitAt_app. rewrite Lt, Lm.
  pose proof (Nat.div_mod_eq (8 * (length data + 2) + 7) 8).
  pose proof (Nat.mod_upper_bound (8 * (length data + 2) + 7) 8 ltac:(lia)). lia.
Qed.

Lemma qrMatrix_unfold text :
  let data := text_encode text in
  let v := pickVersion (length data) in
  (length data <= 106)%nat ->
  (1 <= v <= 5)%nat /\ (length data <= data_codewords v - 2)%nat /\ (2 <= data_codewords v)%nat /\
  (ec_codewords v <= 30)%nat /\
  exists all, codewords data v = Ok all /\
    qrMatrix text = Ok (to_modules (masked_symbol v all (best_mask v all)), side v).
Proof.
  cbn zeta. intros Hl. destruct (pickVersion_spec (length (text_encode text))) as [[_ ?]|H]; [lia|].
  destruct H as (Hv & Hc & [H2 _] & He & _).
  split_and!; try lia.
  destruct (codewords_spec (text_encode text) _ (text_encode_ok text) Hc H2 He) as (E & _).
  eexists. split; [exact E|]. unfold qrMatrix. cbn zeta.
  rewrite (proj2 (Nat.eqb_neq _ _)) by lia. rewrite E. cbn [rbind]. repeat f_equal.
  by apply masked_symbol_spec, best_mask_spec.
Qed.

(** *** The codewords, as the standard has them *)

Lemma bitAt_octet bs k j b : bytes_ok bs -> bs !! k = Some b -> (j < 8)%nat ->
  bitAt bs (8 * k + j) = Z.b2z (Z.testbit b (7 - Z.of_nat j)).
Proof.
  intros Hb Hk Hj. apply lookup_lt_Some in Hk as Hlt. rewrite bitAt_testbit by lia.
  rewrite (Nat.mul_comm 8), Nat.div_add_l, (Nat.div_small j), Nat.add_0_r, Hk by lia. cbn [default from_option id].
  by rewrite Nat.add_comm, Nat.Div0.mod_add, Nat.mod_small.
Qed.

Lemma octet_bits bs k b : bytes_ok bs -> bs !! k = Some b -> (bitAt bs <$> seq (8 * k) 8) = put_bits b 8.
Proof.
  intros Hb Hk. rewrite <-(Nat.add_0_r (8 * k)), <-fmap_add_seq, <-list_fmap_compose.
  rewrite !put_bits_S. cbn [seq fmap list_fmap compose].
  rewrite !(bitAt_octet bs k _ b) by (done || lia). done.
Qed.

Lemma octets_bits bs n : bytes_ok bs -> (n / 8)%nat = length bs -> octets (bitAt bs <$> seq 0 n) = bs.
Proof.
  intros Hb Hn. unfold octets. rewrite length_fmap, length_seq, Hn.
  apply list_eq_same_length with (n := length bs); [done | by rewrite length_fmap, length_seq |].
  intros k x y Hk Hx Hy. rewrite list_lookup_fmap, lookup_seq_lt in Hx by done. apply (inj Some) in Hx as <-.
  cbn [plus]. pose proof (Nat.div_mod_eq n 8). rewrite <-fmap_drop, <-fmap_take, drop_seq, take_seq.
  replace (8 `min` (n - 8 * k))%nat with 8%nat by lia. cbn [plus]. rewrite (octet_bits bs k y) by done.
  rewrite value_of_put_bits. apply Z.mod_small. exact (Forall_lookup_1 _ _ _ _ Hb Hy).
Qed.

(** *** Half-octets *)
Definition nibble_ok (x : Z) : Prop := 0 <= x < 16.
Definition nibble_bits (l : list Z) : list Z := concat ((fun x => put_bits x 4) <$> l).

Lemma nibble_bits_app l1 l2 : nibble_bits (l1 ++ l2) = nibble_bits l1 ++ nibble_bits l2.
Proof. unfold nibble_bits. by rewrite fmap_app, concat_app. Qed.

Lemma byte_nibbles b : byte_ok b -> put_bits b 8 = put_bits (b / 16) 4 ++ put_bits (b mod 16) 4.
Proof.
  intros Hb. assert (C : forallb (fun b => bool_decide (put_bits b 8 = put_bits (b / 16) 4 ++ put_bits (b mod 16) 4))
    (seqZ 0 256) = true) by by vm_compute.
  apply (range_check _ 0 256 C) in Hb. by apply bool_decide_eq_true in Hb.
Qed.

Lemma nibbles_ok l : bytes_ok l -> Forall nibble_ok (nibbles l).
Proof.
  induction l as [|b l IH]; intros Hl; [by constructor|]. inv_bytes. unfold nibbles. rewrite fmap_cons. cbn [concat].
  match goal with H : byte_ok b |- _ => unfold byte_ok in H end.
  constructor; [|constructor; [|by apply IH]]; unfold nibble_ok; [split; [apply Z.div_pos; lia|apply Z.div_lt_upper_bound; lia]|].
  pose proof (Z.mod_pos_bound b 16). lia.
Qed.

Lemma bits_nibbles l : bytes_ok l -> concat ((fun b => put_bits b 8) <$> l) = nibble_bits (nibbles l).
Proof.
  induction l as [|b l IH]; intros Hl; [done|]. inv_bytes. unfold nibbles. rewrite !fmap_cons. cbn [concat].
  rewrite nibble_bits_app, IH, byte_nibbles by done. done.
Qed.

Lemma nibble_bits_inj l1 l2 : Forall nibble_ok l1 -> Forall nibble_ok l2 -> nibble_bits l1 = nibble_bits l2 -> l1 = l2.
Proof.
  intros H1. revert l2. induction H1 as [|x l1 Hx _ IH]; intros [|y l2] H2 E; [done| | |].
  1,2: apply (f_equal length) in E; unfold nibble_bits in E; rewrite fmap_cons in E; cbn [concat] in E;
    rewrite length_app, length_put_bits in E; cbn in E; lia.
  apply Forall_cons in H2 as [Hy H2]. unfold nibble_bits in E. rewrite !fmap_cons in E. cbn [concat] in E.
  apply app_inj_1 in E as [E1 E2]; [|by rewrite !length_put_bits]. f_equal; [|by apply IH].
  apply (f_equal value_of) in E1. rewrite !value_of_put_bits in E1. unfold nibble_ok in *.
  by rewrite !Z.mod_small in E1.
Qed.

Lemma nibbles_app l1 l2 : nibbles (l1 ++ l2) = nibbles l1 ++ nibbles l2.
Proof. unfold nibbles. by rewrite fmap_app, concat_app. Qed.

Lemma bits_of_bytes bs : bytes_ok bs -> (bitAt bs <$> seq 0 (8 * length bs)) = concat ((fun b => put_bits b 8) <$> bs).
Proof.
  intros Hb. cut (forall k, (k <= length bs)%nat ->
    (bitAt bs <$> seq 0 (8 * k)) = concat ((fun b => put_bits b 8) <$> take k bs)).
  { intros H. rewrite H by done. by rewrite firstn_all. }
  induction k as [|k IH]; intros Hk; [done|]. destruct (lookup_lt_is_Some_2 bs k ltac:(lia)) as [b E].
  replace (8 * S k)%nat with (8 * k + 8)%nat by lia. rewrite seq_app, fmap_app, IH by lia. cbn [plus].
  rewrite (octet_bits bs k b) by done. rewrite (take_S_r bs k b E), fmap_app, concat_app. done.
Qed.

(** The packed message, in half-octets: header, text, terminator. *)
Lemma message_nibbles data : bytes_ok data -> (length data < 256)%nat ->
  nibbles (toBytes (message_bits data)) =
  [4; Z.of_nat (length data) / 16; Z.of_nat (length data) mod 16] ++ nibbles data ++ [0].
Proof.
  intros Hd Hl. destruct (toBytes_spec (message_bits data)) as (Lt & Bt & _). rewrite length_message_bits in Lt.
  assert (Hlen : byte_ok (Z.of_nat (length data))) by (unfold byte_ok; lia).
  assert (Lt' : length (toBytes (message_bits data)) = (length data + 2)%nat).
  { rewrite Lt, Nat.mul_comm, Nat.div_add_l, (Nat.div_small 7) by lia. lia. }
  apply nibble_bits_inj; [by apply nibbles_ok| |].
  { pose proof (nibbles_ok [Z.of_nat (length data)] (Forall_cons_2 _ _ _ Hlen (Forall_nil_2 _))) as Hh. cbn in Hh.
    pose proof (nibbles_ok data Hd). apply Forall_app. split; [constructor; [unfold nibble_ok; lia|done]|].
    apply Forall_app. split; [done|]. constructor; [unfold nibble_ok; lia|constructor]. }
  rewrite <-bits_nibbles, <-bits_of_bytes, Lt' by done. rewrite !nibble_bits_app, <-bits_nibbles by done.
  transitivity (message_bits data).
  - apply list_eq_same_length with (n := length (message_bits data)); [done| |].
    { rewrite length_fmap, length_seq, length_message_bits. lia. }
    intros i x y Hi Hx Hy. rewrite (bitAt_toBytes _ i (message_bits_are_bits data) Hi) in Hy. apply (inj Some) in Hy as <-.
    rewrite list_lookup_fmap, lookup_seq_lt in Hx by (rewrite length_message_bits in Hi; lia). apply (inj Some) in Hx as <-. done.
  - unfold message_bits. rewrite (byte_nibbles (Z.of_nat (length data))) by done. unfold nibble_bits. cbn [fmap list_fmap concat].
    by rewrite !app_nil_r, <-!app_assoc.
Qed.

Lemma standard_codewords data v all :
  bytes_ok data -> (length data <= data_codewords v - 2)%nat -> (1 <= v <= 5)%nat -> codewords data v = Ok all ->
  length all = (data_codewords v + ec_codewords v)%nat /\ bytes_ok all /\
  (let dc := (length all - iso_ec v)%nat in nibbles (take dc all) = iso_message data (dc - (length data + 2))) /\
  forall d, (d < iso_ec v)%nat -> iso_eval (iso_pow d) all = 0.
Proof.
  intros Hd Hl Hv E.
  assert (H : (2 <= data_codewords v < 258)%nat /\ (ec_codewords v <= 30)%nat /\ iso_ec v = ec_codewords v).
  { destruct v as [|[|[|[|[|[|]]]]]]; cbn; lia. }
  destruct H as (H2 & He & Eec).
  destruct (codewords_spec data v Hd Hl ltac:(lia) He) as (E' & Lb & Bb). rewrite E in E'. apply (inj Ok) in E' as ->.
  set (block := toBytes (message_bits data) ++ _) in *.
  assert (Nb : nibbles block = iso_message data (data_codewords v - (length data + 2))).
  { unfold block. rewrite nibbles_app, message_nibbles by (done || lia). unfold iso_message. by rewrite <-!app_assoc. }
  clearbody block. destruct (rsEncode_is_codeword block (ec_codewords v) Bb He) as (Le & Be & Z).
  assert (La : length (block ++ rsEncode block (ec_codewords v)) = (data_codewords v + ec_codewords v)%nat)
    by (rewrite length_app, Le, Lb; reflexivity).
  assert (Ba : bytes_ok (block ++ rsEncode block (ec_codewords v))) by (by apply bytes_ok_app).
  split; [exact La|]. split; [exact Ba|]. rewrite Eec, La, Nat.add_sub. split.
  - cbn zeta. by rewrite take_app_length'.
  - intros d Hlt. rewrite iso_pow_code by lia. rewrite iso_eval_code; [by apply Z| |done]. apply exp_spec. lia.
Qed.

(** ** Properties *)

(** C40. Every symbol that [qrMatrix] draws can be read back.  A reader with the mask conditions, the
    format words, the module layout and the error-correction counts of the standard (none of them the
    encoder's), using the copy of the format word beside the top-right and bottom-left finders, finds the
    UTF-8 bytes of the text; and all the codewords it reads are those of the standard: the header, the text,
    the terminator and the alternating pads, and error-correction codewords that make the whole vanish at
    the powers of the generator. *)
Theorem qr_roundtrip text modules n :
  qrMatrix text = Ok (modules, n) ->
  let data := text_encode text in
  read_symbol modules n = Some data /\
  exists v cw, (1 <= v <= 5)%nat /\ n = side v /\ read_codewords modules n = Some cw /\ bytes_ok cw /\
    length cw = (length (data_cells v) / 8)%nat /\
    let dc := (length cw - iso_ec v)%nat in
    nibbles (take dc cw) = iso_message data (dc - (length data + 2)) /\
    forall d, (d < iso_ec v)%nat -> iso_eval (iso_pow d) cw = 0.
Proof.
  intros E data. destruct (decide (length (text_encode text) <= 106)%nat) as [Hl|Hl].
  - destruct (qrMatrix_unfold text Hl) as (Hv & Hc & H2 & He & all & Ea & Eq).
    rewrite Eq in E. injection E as <- <-. fold data in Hl, Hc, Hv, H2, He, Ea |- *.
    set (v := pickVersion _) in *. clearbody v.
    pose proof (proj1 (best_mask_spec v all)) as Hm. pose proof (text_encode_ok text) as Hd. fold data in Hd.
    unfold read_symbol, read_codewords. rewrite read_mask_spec by done. cbn [mbind option_bind fmap option_fmap option_map].
    rewrite read_bits_spec by done.
    destruct (geometry v Hv) as (_ & _ & _ & _ & _ & Hn & Hn').
    destruct (bits_of_codewords _ v all _ Hd Hc H2 He Ea Hn) as [rest Er]. split.
    + rewrite Er. apply read_message_bits; [done | lia].
    + destruct (standard_codewords data v all Hd Hc Hv Ea) as (Lc & Bc & Ed & Ez).
      assert (Ln : (length (data_cells v) / 8)%nat = length all).
      { symmetry. apply Nat.div_unique with (r := (length (data_cells v) - 8 * length all)%nat); lia. }
      exists v, all. split; [done|]. split; [done|]. split; [|done].
      f_equal. by apply octets_bits.
  - exfalso. unfold qrMatrix in E. cbn zeta in E.
    destruct (pickVersion_spec (length (text_encode text))) as [[Ev _]|H]; [|lia].
    by rewrite Ev in E.
Qed.

Lemma qr_roundtrip_witness :
  exists modules n, qrMatrix "DD" = Ok (modules, n) /\ read_symbol modules n = Some [68; 68].
Proof.
  destruct (qrMatrix_unfold "DD" ltac:(by apply Nat.leb_le)) as (_ & _ & _ & _ & all & _ & E).
  eexists _, _. split; [exact E|]. exact (proj1 (qr_roundtrip "DD" _ _ E)).
Defined.

(** [qrMatrix] throws exactly when the UTF-8 text is longer than 106 bytes; otherwise it
    returns a symbol of side [17 + 4v] for the smallest version [v] of 1 to 5 whose data
    capacity, less the two bytes of header and terminator, holds the text. *)
Theorem qrMatrix_capacity text :
  let len := length (text_encode text) in
  ((106 < len)%nat -> qrMatrix text = Throw (JsError "qr: text too long for a v1-5 code")) /\
  ((len <= 106)%nat -> exists v modules,
     qrMatrix text = Ok (modules, (17 + 4 * v)%nat) /\ (1 <= v <= 5)%nat /\
     (len <= data_codewords v - 2)%nat /\
     forall w, (1 <= w < v)%nat -> (data_codewords w - 2 < len)%nat).
Proof.
  cbn zeta. split; intros Hl.
  - unfold qrMatrix. cbn zeta.
    destruct (pickVersion_spec (length (text_encode text))) as [[Ev _]|H]; [by rewrite Ev | lia].
  - destruct (qrMatrix_unfold text Hl) as (Hv & Hc & _ & _ & all & _ & Eq).
    eexists _, _. split; [exact Eq|]. split; [done|]. split; [done|].
    intros w Hw. clear Eq. revert Hw Hc Hl. generalize (length (text_encode text)) as len.
    intros len. unfold pickVersion. cbn [seq List.find].
    destruct w as [|[|[|[|[|]]]]];
    repeat match goal with |- context [(len <=? ?d)%nat] =>
      let d' := eval vm_compute in d in change d with d';
      destruct (Nat.leb_spec len d') end; cbn; lia.
Qed.

Lemma qrMatrix_capacity_witness :
  exists v modules, qrMatrix "deaddrop" = Ok (modules, (17 + 4 * v)%nat) /\ (1 <= v <= 5)%nat.
Proof.
  destruct (proj2 (qrMatrix_capacity "deaddrop") ltac:(by apply Nat.leb_le))
    as (v & modules & E & Hv & _).
  exists v, modules. exact (conj E Hv).
Defined.

(** The two copies of the format word disagree in every symbol: the copy beside the
    top-right and bottom-left finders reads as the level-L format word of the mask, but the
    copy around the top-left finder is written with its bits in the reverse order, and what a
    scanner reads there is not the format word of any level-L mask. *)
Theorem writeFormat_first_copy_reversed v all mask :
  (1 <= v <= 5)%nat -> 0 <= mask < 8 ->
  let modules := to_modules (masked_symbol v all mask) in
  let first := read_word modules (side v) (format_cell_1 (side v)) in
  let second := read_word modules (side v) (format_cell (side v)) in
  FORMAT_L !! Z.to_nat mask = Some second /\
  put_bits first 15 = rev (put_bits second 15) /\ first <> second /\ first ∉ FORMAT_L.
Proof.
  intros Hv Hm. cbn zeta. destruct (read_formats v all mask Hv Hm) as [-> ->].
  destruct (format_spec v mask Hv Hm) as (_ & _ & _ & _ & Ef & Hr & Hn).
  assert (E1 : FORMAT_L !! Z.to_nat mask = Some (formatBits mask)).
  { destruct (list_find _ FORMAT_L) as [[k w]|] eqn:F; [|done]. injection Ef as <-.
    apply list_find_Some in F as (F & -> & _). by rewrite Nat2Z.id. }
  split; [done|]. split; [|split; [|done]].
  - assert (C : forallb (fun mask => bool_decide (put_bits (value_of (rev (put_bits (formatBits mask) 15))) 15
        = rev (put_bits (formatBits mask) 15))) (seqZ 0 8) = true) by by vm_compute.
    apply (range_check _ 0 8 C) in Hm. by apply bool_decide_eq_true in Hm.
  - intros E. rewrite E in Hn. apply Hn. by eapply list_elem_of_lookup_2.
Qed.

Lemma writeFormat_first_copy_reversed_witness :
  read_word (to_modules (masked_symbol 1 [] 0)) 21 (format_cell_1 21) ∉ FORMAT_L.
Proof. apply (writeFormat_first_copy_reversed 1 [] 0); lia. Defined.

(** The mask of the symbol is a best one: it is one of the eight masks, and no other mask
    gives a symbol with a smaller penalty. *)
Theorem qrMatrix_least_penalty text modules n :
  qrMatrix text = Ok (modules, n) ->
  exists v all mask, codewords (text_encode text) v = Ok all /\ 0 <= mask < 8 /\
    modules = to_modules (masked_symbol v all mask) /\
    forall k, 0 <= k < 8 -> symbol_penalty v all mask <= symbol_penalty v all k.
Proof.
  intros E. destruct (decide (length (text_encode text) <= 106)%nat) as [Hl|Hl].
  - destruct (qrMatrix_unfold text Hl) as (_ & _ & _ & _ & all & Ea & Eq).
    rewrite Eq in E. injection E as <- <-. eexists _, all, _.
    destruct (best_mask_spec (pickVersion (length (text_encode text))) all) as [Hm Hb].
    split; [exact Ea|]. split; [exact Hm|]. split; [reflexivity | exact Hb].
  - exfalso. unfold qrMatrix in E. cbn zeta in E.
    destruct (pickVersion_spec (length (text_encode text))) as [[Ev _]|H]; [|lia].
    by rewrite Ev in E.
Qed.

Lemma qrMatrix_least_penalty_witness :
  exists modules n, qrMatrix "DD" = Ok (modules, n) /\
  exists v all mask, 0 <= mask < 8 /\ modules = to_modules (masked_symbol v all mask).
Proof.
  destruct (qrMatrix_unfold "DD" ltac:(by apply Nat.leb_le)) as (_ & _ & _ & _ & all & _ & E).
  eexists _, _. split; [exact E|].
  destruct (qrMatrix_least_penalty "DD" _ _ E) as (v & all' & mask & _ & Hm & Em & _).
  exists v, all', mask. exact (conj Hm Em).
Defined.

(** The codewords of the symbol have the length the version prescribes, start with the
    message, and form a Reed-Solomon codeword of the version's error-correction degree. *)
Theorem codewords_correct data v all :
  bytes_ok data -> (length data <= data_codewords v - 2)%nat -> (1 <= v <= 5)%nat ->
  codewords data v = Ok all ->
  length all = (data_codewords v + ec_codewords v)%nat /\ bytes_ok all /\
  (exists rest, all = toBytes (message_bits data) ++ rest) /\
  forall d, (d < ec_codewords v)%nat -> eval (gf_exp (Z.of_nat d)) all = 0.
Proof.
  intros Hd Hl Hv E.
  assert (H : (2 <= data_codewords v)%nat /\ (ec_codewords v <= 30)%nat).
  { destruct v as [|[|[|[|[|[|]]]]]]; cbn; lia. }
  destruct (codewords_spec data v Hd Hl (proj1 H) (proj2 H)) as (E' & Lb & Bb).
  rewrite E in E'. apply (inj Ok) in E' as ->.
  destruct (rsEncode_is_codeword _ (ec_codewords v) Bb (proj2 H)) as (Le & Be & Z).
  split; [by rewrite length_app, Le, Lb|]. split; [by apply bytes_ok_app|].
  split; [|done]. eexists. by rewrite <-app_assoc.
Qed.

Lemma codewords_correct_witness :
  forall d, (d < 7)%nat ->
    exists all, codewords [72; 105] 1 = Ok all /\ eval (gf_exp (Z.of_nat d)) all = 0.
Proof.
  intros d Hd. destruct (codewords [72; 105] 1) as [all|] eqn:E; [|vm_compute in E; discriminate].
  exists all. split; [reflexivity|].
  refine (proj2 (proj2 (proj2 (codewords_correct [72; 105] 1 all _ _ _ E))) d Hd);
    [by apply bytes_okb_ok | cbn; lia | lia].
Defined.
End Qr.
