(* ===== verification/PairingWire.v ===== *)
(** * Pairing wire formats (client/src/provisioning.ts, lines 17-226)

    The three padded frames of the six-word flow, the base64url text of the pairing QR and the
    framing of a sealed grant, with their round trips. *)

From S2P Require Import Prelude.

Module PairingWire.

Definition VER : Z := 2.
Definition MSG_CHALLENGE : Z := 0.
Definition MSG_REQUEST : Z := 1.
Definition MSG_GRANT : Z := 2.
Definition PAD : nat := 256.

Record Challenge := MkChallenge {
  ch_sessionNonce : bytes;
  ch_certEpoch : Z;
  ch_accountPubKey : bytes
}.

Record ProvRequest := MkRequest {
  rq_sessionNonce : bytes;
  rq_deviceSigKey : bytes;
  rq_replyMailbox : bytes;
  rq_requestId : bytes
}.

Record Grant := MkGrant {
  gr_accountPubKey : bytes;
  gr_certEpoch : Z;
  gr_cert : bytes;
  gr_sessionNonce : bytes
}.

Definition pad (buf : bytes) : result bytes := u8_set 0 (take PAD buf) (u8_new PAD).

(** [new Uint8Array(n)] with its first two elements set. *)
Definition header (n : nat) (msg : Z) : bytes := u8_store 1 VER (u8_store 0 msg (u8_new n)).

(** [buf.length < n || buf[0] !== msg || buf[1] !== VER] *)
Definition malformed (n : nat) (msg : Z) (buf : bytes) : bool :=
  (length buf <? n)%nat || negb (bool_decide (buf !! 0%nat = Some msg))
  || negb (bool_decide (buf !! 1%nat = Some VER)).

Definition encodeChallenge (c : Challenge) : result bytes :=
  let b := header 70 MSG_CHALLENGE in
  let? b := u8_set 2 (ch_sessionNonce c) b in
  let? b := set_u32 34 (ch_certEpoch c) b in
  let? b := u8_set 38 (ch_accountPubKey c) b in
  pad b.

Definition decodeChallenge (buf : bytes) : result (option Challenge) :=
  if malformed 70 MSG_CHALLENGE buf then Ok None else
  let? certEpoch := get_u32 34 buf in
  Ok (Some (MkChallenge (u8_slice 2 34 buf) certEpoch (u8_slice 38 70 buf))).

Definition encodeRequest (r : ProvRequest) : result bytes :=
  let b := header 114 MSG_REQUEST in
  let? b := u8_set 2 (rq_sessionNonce r) b in
  let? b := u8_set 34 (rq_deviceSigKey r) b in
  let? b := u8_set 66 (rq_replyMailbox r) b in
  let? b := u8_set 98 (rq_requestId r) b in
  pad b.

Definition decodeRequest (buf : bytes) : option ProvRequest :=
  if malformed 114 MSG_REQUEST buf then None else
  Some (MkRequest (u8_slice 2 34 buf) (u8_slice 34 66 buf) (u8_slice 66 98 buf)
                  (u8_slice 98 114 buf)).

Definition encodeGrant (g : Grant) : result bytes :=
  let b := header 134 MSG_GRANT in
  let? b := u8_set 2 (gr_accountPubKey g) b in
  let? b := set_u32 34 (gr_certEpoch g) b in
  let? b := u8_set 38 (gr_cert g) b in
  let? b := u8_set 102 (gr_sessionNonce g) b in
  pad b.

Definition decodeGrant (buf : bytes) : result (option Grant) :=
  if malformed 134 MSG_GRANT buf then Ok None else
  let? certEpoch := get_u32 34 buf in
  Ok (Some (MkGrant (u8_slice 2 34 buf) certEpoch (u8_slice 38 102 buf) (u8_slice 102 134 buf))).

(** ** base64 *)

Definition b64_char (v : Z) : Ascii.ascii :=
  Ascii.ascii_of_N (Z.to_N
    (if v <? 26 then 65 + v else if v <? 52 then 71 + v else if v <? 62 then v - 4
     else if v =? 62 then 43 else 47)).

Definition b64_value (c : Ascii.ascii) : option Z :=
  let n := Z.of_N (Ascii.N_of_ascii c) in
  if (65 <=? n) && (n <=? 90) then Some (n - 65)
  else if (97 <=? n) && (n <=? 122) then Some (n - 71)
  else if (48 <=? n) && (n <=? 57) then Some (n + 4)
  else if n =? 43 then Some 62
  else if n =? 47 then Some 63
  else None.

(** The 6-bit groups of a byte string. *)
Fixpoint sextets (bs : bytes) : list Z :=
  match bs with
  | [] => []
  | [a] => [a / 4; a mod 4 * 16]
  | [a; b] => [a / 4; a mod 4 * 16 + b / 16; b mod 16 * 4]
  | a :: b :: c :: bs =>
      a / 4 :: a mod 4 * 16 + b / 16 :: b mod 16 * 4 + c / 64 :: c mod 64 :: sextets bs
  end.

Fixpoint of_sextets (vs : list Z) : bytes :=
  match vs with
  | x :: y :: z :: w :: vs =>
      x * 4 + y / 16 :: y mod 16 * 16 + z / 4 :: z mod 4 * 64 + w :: of_sextets vs
  | [x; y; z] => [x * 4 + y / 16; y mod 16 * 16 + z / 4]
  | [x; y] => [x * 4 + y / 16]
  | _ => []
  end.

(** [btoa], on the bytes of its binary string. *)
Definition btoa (bs : bytes) : list Ascii.ascii :=
  (b64_char <$> sextets bs) ++ replicate ((3 - length bs mod 3) mod 3) "="%char.

Definition ascii_whitespace (c : Ascii.ascii) : bool :=
  let n := Z.of_N (Ascii.N_of_ascii c) in
  (n =? 9) || (n =? 10) || (n =? 12) || (n =? 13) || (n =? 32).

(** Remove up to [k] trailing padding characters. *)
Fixpoint strip_padding (k : nat) (r : list Ascii.ascii) : list Ascii.ascii :=
  match k, r with
  | S k, "="%char :: r => strip_padding k r
  | _, _ => r
  end.

(** [atob], as the browsers implement it: white space is ignored, one or two padding characters
    are dropped when the length is a multiple of four, and a length of one modulo four or a
    character outside the alphabet throws. *)
Definition atob (text : list Ascii.ascii) : result bytes :=
  let t := List.filter (fun c => negb (ascii_whitespace c)) text in
  let t := if (length t mod 4 =? 0)%nat then rev (strip_padding 2 (rev t)) else t in
  if (length t mod 4 =? 1)%nat then Throw (JsError "InvalidCharacterError") else
  match mapM b64_value t with
  | Some vs => Ok (of_sextets vs)
  | None => Throw (JsError "InvalidCharacterError")
  end.

Definition replace_char (x y : Ascii.ascii) (l : list Ascii.ascii) : list Ascii.ascii :=
  (fun c => if bool_decide (c = x) then y else c) <$> l.

(** [.replace(/=+$/, '')] *)
Definition strip_equals (l : list Ascii.ascii) : list Ascii.ascii :=
  rev (strip_padding (length l) (rev l)).

Definition toB64Url (b : bytes) : list Ascii.ascii :=
  strip_equals (replace_char "/" "_" (replace_char "+" "-" (btoa b))).

Definition fromB64Url (s : list Ascii.ascii) : result bytes :=
  atob (replace_char "_" "/" (replace_char "-" "+" s)).

(** ** The pairing QR and the sealed grant *)

Definition QR_PREFIX : list Ascii.ascii := String.list_ascii_of_string "ddpair:".
Definition QR_VER : Z := 1.

Definition encodeQrPairing (deviceSigKey ephPub : bytes) : result string :=
  let b := u8_store 0 QR_VER (u8_new 65) in
  let? b := u8_set 1 (take 32 deviceSigKey) b in
  let? b := u8_set 33 (take 32 ephPub) b in
  Ok (String.string_of_list_ascii (QR_PREFIX ++ toB64Url b)).

Definition decodeQrPairing (text : string) : option (bytes * bytes) :=
  let l := String.list_ascii_of_string text in
  if negb (bool_decide (take (length QR_PREFIX) l = QR_PREFIX)) then None else
  match fromB64Url (drop (length QR_PREFIX) l) with
  | Throw _ => None
  | Ok b =>
      if (length b <? 65)%nat || negb (bool_decide (b !! 0%nat = Some QR_VER)) then None
      else Some (u8_slice 1 33 b, u8_slice 33 65 b)
  end.

Definition encodeSealedGrant (box : bytes) : result bytes :=
  let n := Z.of_nat (length box) in
  let out := u8_store 0 (Z.land (Z.shiftr n 8) 255) (u8_new PAD) in
  let out := u8_store 1 (Z.land n 255) out in
  u8_set 2 (take (PAD - 2) box) out.

Definition decodeSealedGrant (buf : bytes) : option bytes :=
  match buf with
  | b0 :: b1 :: _ =>
      let len := Z.lor (Z.shiftl b0 8) b1 in
      if (len <? 32) || (Z.of_nat (length buf) <? 2 + len) then None
      else Some (u8_slice 2 (2 + Z.to_nat len) buf)
  | _ => None
  end.

(** ** Round trips of the frames *)

Definition challenge_ok (c : Challenge) : Prop :=
  length (ch_sessionNonce c) = 32%nat /\ length (ch_accountPubKey c) = 32%nat /\
  0 <= ch_certEpoch c < 2 ^ 32.
Definition request_ok (r : ProvRequest) : Prop :=
  length (rq_sessionNonce r) = 32%nat /\ length (rq_deviceSigKey r) = 32%nat /\
  length (rq_replyMailbox r) = 32%nat /\ length (rq_requestId r) = 16%nat.
Definition grant_ok (g : Grant) : Prop :=
  length (gr_accountPubKey g) = 32%nat /\ length (gr_cert g) = 64%nat /\
  length (gr_sessionNonce g) = 32%nat /\ 0 <= gr_certEpoch g < 2 ^ 32.

(** Filling the zeros after a known prefix. *)
Lemma u8_set_zeros off hdr n src k :
  length hdr = off -> (k = length src + n)%nat ->
  u8_set off src (hdr ++ replicate k 0) = Ok ((hdr ++ src) ++ replicate n 0).
Proof.
  intros H ->. rewrite replicate_add, u8_set_app by (try rewrite length_replicate; done).
  by rewrite app_assoc.
Qed.

Lemma pad_short b : (length b <= PAD)%nat -> pad b = Ok (b ++ replicate (PAD - length b) 0).
Proof.
  intros H. unfold pad, u8_new. rewrite take_ge by done.
  exact (u8_set_zeros 0 [] (PAD - length b) b PAD eq_refl ltac:(lia)).
Qed.

Lemma header_eq n msg : byte_ok msg -> header (S (S n)) msg = [msg; VER] ++ replicate n 0.
Proof.
  intros H. unfold header, u8_store, u8_new.
  change (to_u8 VER) with VER. rewrite to_u8_id by done. done.
Qed.

Lemma challenge_layout c :
  challenge_ok c ->
  encodeChallenge c = Ok ([MSG_CHALLENGE; VER] ++ ch_sessionNonce c ++ be32 (ch_certEpoch c)
                          ++ ch_accountPubKey c ++ replicate 186 0).
Proof.
  intros (H1 & H2 & H3). unfold encodeChallenge. rewrite header_eq by (unfold byte_ok; done).
  rewrite (u8_set_zeros 2 _ 36) by (done || lia). cbn [rbind]. unfold set_u32.
  rewrite to_u32_id by done.
  rewrite (u8_set_zeros 34 _ 32) by (rewrite ?length_app, ?length_be32; simpl; lia). cbn [rbind].
  rewrite (u8_set_zeros 38 _ 0) by (rewrite ?length_app, ?length_be32; simpl; lia). cbn [rbind].
  rewrite pad_short by (rewrite !length_app, length_be32; simpl; unfold PAD; lia).
  rewrite app_nil_r, <-!app_assoc. do 5 f_equal.
  rewrite !length_app, length_be32, H1, H2. done.
Qed.

Lemma request_layout r :
  request_ok r ->
  encodeRequest r = Ok ([MSG_REQUEST; VER] ++ rq_sessionNonce r ++ rq_deviceSigKey r
                        ++ rq_replyMailbox r ++ rq_requestId r ++ replicate 142 0).
Proof.
  intros (H1 & H2 & H3 & H4). unfold encodeRequest. rewrite header_eq by (unfold byte_ok; done).
  rewrite (u8_set_zeros 2 _ 80) by (done || lia). cbn [rbind].
  rewrite (u8_set_zeros 34 _ 48) by (rewrite ?length_app; simpl; lia). cbn [rbind].
  rewrite (u8_set_zeros 66 _ 16) by (rewrite ?length_app; simpl; lia). cbn [rbind].
  rewrite (u8_set_zeros 98 _ 0) by (rewrite ?length_app; simpl; lia). cbn [rbind].
  rewrite pad_short by (rewrite !length_app; simpl; unfold PAD; lia).
  rewrite app_nil_r, <-!app_assoc. do 6 f_equal.
  rewrite !length_app, H1, H2, H3, H4. done.
Qed.

Lemma grant_layout g :
  grant_ok g ->
  encodeGrant g = Ok ([MSG_GRANT; VER] ++ gr_accountPubKey g ++ be32 (gr_certEpoch g)
                      ++ gr_cert g ++ gr_sessionNonce g ++ replicate 122 0).
Proof.
  intros (H1 & H2 & H3 & H4). unfold encodeGrant. rewrite header_eq by (unfold byte_ok; done).
  rewrite (u8_set_zeros 2 _ 100) by (done || lia). cbn [rbind]. unfold set_u32.
  rewrite to_u32_id by done.
  rewrite (u8_set_zeros 34 _ 96) by (rewrite ?length_app, ?length_be32; simpl; lia). cbn [rbind].
  rewrite (u8_set_zeros 38 _ 32) by (rewrite ?length_app, ?length_be32; simpl; lia). cbn [rbind].
  rewrite (u8_set_zeros 102 _ 0) by (rewrite ?length_app, ?length_be32; simpl; lia). cbn [rbind].
  rewrite pad_short by (rewrite !length_app, length_be32; simpl; unfold PAD; lia).
  rewrite app_nil_r, <-!app_assoc. do 6 f_equal.
  rewrite !length_app, length_be32, H1, H2, H3. done.
Qed.

Lemma slice_at buf pre mid post s e :
  buf = pre ++ mid ++ post -> length pre = s -> (s + length mid = e)%nat -> u8_slice s e buf = mid.
Proof. intros ->. apply u8_slice_app. Qed.

Lemma malformed_ok n msg rest :
  (n <= 2 + length rest)%nat -> malformed n msg ([msg; VER] ++ rest) = false.
Proof.
  intros H. unfold malformed. rewrite (proj2 (Nat.ltb_ge _ _)) by (simpl; lia).
  by rewrite !bool_decide_true.
Qed.

Lemma malformed_other n msg msg' v rest :
  msg <> msg' -> malformed n msg ([msg'; v] ++ rest) = true.
Proof.
  intros H. unfold malformed. rewrite (bool_decide_false (_ = Some msg)) by (simpl; congruence).
  by rewrite orb_true_r.
Qed.

(** The frames as the receiver reads them. *)
Lemma challenge_roundtrip c :
  challenge_ok c -> exists f, encodeChallenge c = Ok f /\ length f = PAD /\
    decodeChallenge f = Ok (Some c) /\ decodeRequest f = None /\ decodeGrant f = Ok None.
Proof.
  intros Hc. pose proof Hc as (H1 & H2 & H3). rewrite (challenge_layout c Hc).
  eexists. split; [done|]. destruct c as [nonce epoch apk]. cbn [ch_sessionNonce ch_certEpoch ch_accountPubKey] in *.
  split. { rewrite !length_app, length_be32, length_replicate, H1, H2. done. }
  split; [|by unfold decodeRequest, decodeGrant; rewrite !malformed_other by done].
  unfold decodeChallenge. rewrite malformed_ok
    by (rewrite !length_app, length_be32, length_replicate; lia).
  set (f := [MSG_CHALLENGE; VER] ++ _).
  rewrite (get_u32_be32 34 f epoch (apk ++ replicate 186 0)); cycle 1.
  { subst f. rewrite app_assoc, drop_app_length' by (rewrite length_app, H1; done).
    by rewrite to_u32_id. }
  cbn [rbind]. rewrite to_u32_id by done.
  rewrite (slice_at f [MSG_CHALLENGE; VER] nonce (be32 epoch ++ apk ++ replicate 186 0)) by (done || lia).
  rewrite (slice_at f ([MSG_CHALLENGE; VER] ++ nonce ++ be32 epoch) apk (replicate 186 0)); [done | | |].
  - subst f. by rewrite <-!app_assoc.
  - rewrite !length_app, length_be32, H1. done.
  - lia.
Qed.

Lemma request_roundtrip r :
  request_ok r -> exists f, encodeRequest r = Ok f /\ length f = PAD /\
    decodeRequest f = Some r /\ decodeChallenge f = Ok None /\ decodeGrant f = Ok None.
Proof.
  intros Hr. pose proof Hr as (H1 & H2 & H3 & H4). rewrite (request_layout r Hr).
  eexists. split; [done|]. destruct r as [nonce dk rm rid].
  cbn [rq_sessionNonce rq_deviceSigKey rq_replyMailbox rq_requestId] in *.
  split. { rewrite !length_app, length_replicate, H1, H2, H3, H4. done. }
  split; [|by unfold decodeChallenge, decodeGrant; rewrite !malformed_other by done].
  unfold decodeRequest. rewrite malformed_ok by (rewrite !length_app, length_replicate; lia).
  set (f := [MSG_REQUEST; VER] ++ _).
  rewrite (slice_at f [MSG_REQUEST; VER] nonce (dk ++ rm ++ rid ++ replicate 142 0)) by (done || lia).
  rewrite (slice_at f ([MSG_REQUEST; VER] ++ nonce) dk (rm ++ rid ++ replicate 142 0));
    [| by subst f; rewrite <-!app_assoc | rewrite length_app, H1; done | lia].
  rewrite (slice_at f ([MSG_REQUEST; VER] ++ nonce ++ dk) rm (rid ++ replicate 142 0));
    [| by subst f; rewrite <-!app_assoc | rewrite !length_app, H1, H2; done | lia].
  rewrite (slice_at f ([MSG_REQUEST; VER] ++ nonce ++ dk ++ rm) rid (replicate 142 0));
    [done | by subst f; rewrite <-!app_assoc | rewrite !length_app, H1, H2, H3; done | lia].
Qed.

Lemma grant_roundtrip g :
  grant_ok g -> exists f, encodeGrant g = Ok f /\ length f = PAD /\
    decodeGrant f = Ok (Some g) /\ decodeChallenge f = Ok None /\ decodeRequest f = None.
Proof.
  intros Hg. pose proof Hg as (H1 & H2 & H3 & H4). rewrite (grant_layout g Hg).
  eexists. split; [done|]. destruct g as [apk epoch cert nonce].
  cbn [gr_accountPubKey gr_certEpoch gr_cert gr_sessionNonce] in *.
  split. { rewrite !length_app, length_be32, length_replicate, H1, H2, H3. done. }
  split; [|by unfold decodeChallenge, decodeRequest; rewrite !malformed_other by done].
  unfold decodeGrant. rewrite malformed_ok by (rewrite !length_app, length_be32, length_replicate; lia).
  set (f := [MSG_GRANT; VER] ++ _).
  rewrite (get_u32_be32 34 f epoch (cert ++ nonce ++ replicate 122 0)); cycle 1.
  { subst f. rewrite app_assoc, drop_app_length' by (rewrite length_app, H1; done).
    by rewrite to_u32_id. }
  cbn [rbind]. rewrite to_u32_id by done.
  rewrite (slice_at f [MSG_GRANT; VER] apk (be32 epoch ++ cert ++ nonce ++ replicate 122 0)) by (done || lia).
  rewrite (slice_at f ([MSG_GRANT; VER] ++ apk ++ be32 epoch) cert (nonce ++ replicate 122 0));
    [| by subst f; rewrite <-!app_assoc | rewrite !length_app, length_be32, H1; done | lia].
  rewrite (slice_at f ([MSG_GRANT; VER] ++ apk ++ be32 epoch ++ cert) nonce (replicate 122 0));
    [done | by subst f; rewrite <-!app_assoc | rewrite !length_app, length_be32, H1, H2; done | lia].
Qed.

(** The three provisioning frames round trip, are all 256 bytes whatever they hold, and are
    never mistaken for one another. *)
Theorem provisioning_frames c r g :
  challenge_ok c -> request_ok r -> grant_ok g ->
  (exists f, encodeChallenge c = Ok f /\ length f = 256%nat /\
     decodeChallenge f = Ok (Some c) /\ decodeRequest f = None /\ decodeGrant f = Ok None) /\
  (exists f, encodeRequest r = Ok f /\ length f = 256%nat /\
     decodeRequest f = Some r /\ decodeChallenge f = Ok None /\ decodeGrant f = Ok None) /\
  (exists f, encodeGrant g = Ok f /\ length f = 256%nat /\
     decodeGrant f = Ok (Some g) /\ decodeChallenge f = Ok None /\ decodeRequest f = None).
Proof.
  intros Hc Hr Hg.
  split; [|split]; [by apply challenge_roundtrip | by apply request_roundtrip | by apply grant_roundtrip].
Qed.

Lemma provisioning_frames_witness :
  exists f, encodeChallenge (MkChallenge (replicate 32 7) 3 (replicate 32 9)) = Ok f /\
    decodeChallenge f = Ok (Some (MkChallenge (replicate 32 7) 3 (replicate 32 9))).
Proof.
  destruct (provisioning_frames (MkChallenge (replicate 32 7) 3 (replicate 32 9))
    (MkRequest (replicate 32 1) (replicate 32 2) (replicate 32 3) (replicate 16 4))
    (MkGrant (replicate 32 9) 3 (replicate 64 5) (replicate 32 7))) as ((f & E & _ & D & _) & _);
    [unfold challenge_ok, request_ok, grant_ok; cbn; lia.. |].
  exists f. exact (conj E D).
Defined.

(** Neither decoder of a frame with an epoch can throw: the length is checked first. *)
Lemma decodeChallenge_total buf : exists o, decodeChallenge buf = Ok o.
Proof.
  unfold decodeChallenge, malformed. destruct (Nat.ltb_spec (length buf) 70); simpl; [by eexists|].
  destruct (_ || _); [by eexists|]. unfold get_u32. pose proof (length_drop buf 34) as L.
  destruct (drop 34 buf) as [|? [|? [|? [|? ?]]]]; simpl in L; try lia. simpl. by eexists.
Qed.

Lemma decodeGrant_total buf : exists o, decodeGrant buf = Ok o.
Proof.
  unfold decodeGrant, malformed. destruct (Nat.ltb_spec (length buf) 134); simpl; [by eexists|].
  destruct (_ || _); [by eexists|]. unfold get_u32. pose proof (length_drop buf 34) as L.
  destruct (drop 34 buf) as [|? [|? [|? [|? ?]]]]; simpl in L; try lia. simpl. by eexists.
Qed.

(** ** base64 round trip *)

Definition sextet_ok (v : Z) : Prop := 0 <= v < 64.

(** What the URL alphabet does to one character of the standard one. *)
Definition url_char (v : Z) : Ascii.ascii :=
  let c := b64_char v in
  let c := if bool_decide (c = "+"%char) then "-"%char else c in
  if bool_decide (c = "/"%char) then "_"%char else c.
Definition unurl_char (c : Ascii.ascii) : Ascii.ascii :=
  let c := if bool_decide (c = "-"%char) then "+"%char else c in
  if bool_decide (c = "_"%char) then "/"%char else c.

Definition sextet_check (v : Z) : bool :=
  bool_decide (b64_value (unurl_char (url_char v)) = Some v) &&
  negb (bool_decide (url_char v = "="%char)) &&
  negb (bool_decide (unurl_char (url_char v) = "="%char)) &&
  negb (ascii_whitespace (unurl_char (url_char v))).

Lemma sextets_checked : forallb sextet_check (seqZ 0 64) = true.
Proof. by vm_compute. Qed.

Lemma sextet_spec v :
  sextet_ok v ->
  b64_value (unurl_char (url_char v)) = Some v /\ url_char v <> "="%char /\
  unurl_char (url_char v) <> "="%char /\ ascii_whitespace (unurl_char (url_char v)) = false.
Proof.
  intros Hv. pose proof (range_check _ 0 64 sextets_checked v Hv) as H.
  unfold sextet_check in H. rewrite !andb_true_iff, !negb_true_iff in H.
  destruct H as (((H1 & H2) & H3) & H4). apply bool_decide_eq_true in H1.
  apply bool_decide_eq_false in H2, H3. done.
Qed.

Lemma list_ind3 {A} (P : list A -> Prop) :
  P [] -> (forall a, P [a]) -> (forall a b, P [a; b]) ->
  (forall a b c l, P l -> P (a :: b :: c :: l)) -> forall l, P l.
Proof.
  intros H0 H1 H2 H3. fix IH 1. intros [|a [|b [|c l]]]; [done | apply H1 | apply H2 | apply H3, IH].
Qed.

Lemma sextets_facts bs :
  bytes_ok bs ->
  of_sextets (sextets bs) = bs /\ Forall sextet_ok (sextets bs) /\
  (length (sextets bs) mod 4 = match length bs mod 3 with O => 0 | 1 => 2 | _ => 3 end)%nat.
Proof.
  induction bs as [|a|a b|a b c bs IH] using list_ind3; intros H.
  - done.
  - inv_bytes. unfold byte_ok, sextet_ok in *. simpl. split_and!; [| |done].
    + f_equal. div_lia.
    + repeat apply Forall_cons_2; try done; div_lia.
  - inv_bytes. unfold byte_ok, sextet_ok in *. simpl. split_and!; [| |done].
    + f_equal; [|f_equal]; div_lia.
    + repeat apply Forall_cons_2; try done; div_lia.
  - inv_bytes. destruct (IH H) as (E & F & L). unfold byte_ok, sextet_ok in *.
    cbn [sextets of_sextets length]. split_and!.
    + rewrite E. f_equal; [|f_equal; [|f_equal]]; div_lia.
    + repeat apply Forall_cons_2; try done; div_lia.
    + replace (S (S (S (S (length (sextets bs)))))) with (length (sextets bs) + 1 * 4)%nat by lia.
      replace (S (S (S (length bs)))) with (length bs + 1 * 3)%nat by lia.
      by rewrite !Nat.Div0.mod_add.
Qed.

Lemma strip_padding_none k r : head r <> Some "="%char -> strip_padding k r = r.
Proof.
  destruct k, r as [|c r]; try done. simpl.
  destruct c as [[] [] [] [] [] [] [] []]; simpl; done.
Qed.

Lemma strip_padding_replicate j k r :
  head r <> Some "="%char -> (j <= k)%nat -> strip_padding k (replicate j "="%char ++ r) = r.
Proof.
  intros Hr. revert k. induction j as [|j IH]; intros k Hk; [by apply strip_padding_none|].
  destruct k as [|k]; [lia|]. simpl. apply IH. lia.
Qed.

Lemma head_rev_ne (l : list Ascii.ascii) x : x ∉ l -> head (rev l) <> Some x.
Proof.
  intros H E. destruct (rev l) as [|y r] eqn:R; [done|]. injection E as ->.
  apply H. apply list_elem_of_In, in_rev. rewrite R. by left.
Qed.

Lemma url_chars vs :
  replace_char "/" "_" (replace_char "+" "-" (b64_char <$> vs)) = url_char <$> vs.
Proof. unfold replace_char. by rewrite <-!list_fmap_compose. Qed.

Lemma unurl_chars l :
  replace_char "_" "/" (replace_char "-" "+" l) = unurl_char <$> l.
Proof. unfold replace_char. by rewrite <-!list_fmap_compose. Qed.

Lemma url_padding n :
  replace_char "/" "_" (replace_char "+" "-" (replicate n "="%char)) = replicate n "="%char.
Proof. unfold replace_char. by rewrite !fmap_replicate. Qed.

Lemma rev_replicate {A} n (x : A) : rev (replicate n x) = replicate n x.
Proof.
  induction n as [|n IH]; [done|]. simpl. rewrite IH.
  clear IH. induction n as [|n IH]; [done|]. simpl. by rewrite IH.
Qed.

Lemma toB64Url_eq b : bytes_ok b -> toB64Url b = url_char <$> sextets b.
Proof.
  intros Hb. destruct (sextets_facts b Hb) as (_ & F & _).
  unfold toB64Url, btoa, strip_equals.
  assert (E : replace_char "/" "_" (replace_char "+" "-"
      ((b64_char <$> sextets b) ++ replicate ((3 - length b mod 3) mod 3) "="%char)) =
    (url_char <$> sextets b) ++ replicate ((3 - length b mod 3) mod 3) "="%char).
  { unfold replace_char at 1 2. rewrite !fmap_app. f_equal; [apply url_chars | apply url_padding]. }
  rewrite E, rev_app_distr, rev_replicate.
  rewrite strip_padding_replicate; [by rewrite rev_involutive | |].
  - apply head_rev_ne. intros Hin. apply list_elem_of_fmap in Hin as (v & Ev & Hv).
    rewrite Forall_forall in F. by destruct (sextet_spec v (F v Hv)) as (_ & N & _).
  - rewrite length_app, length_replicate. lia.
Qed.

Lemma fromB64Url_url vs :
  Forall sextet_ok vs -> (length vs mod 4 <> 1)%nat ->
  fromB64Url (url_char <$> vs) = Ok (of_sextets vs).
Proof.
  intros F Hl. unfold fromB64Url. rewrite unurl_chars, <-list_fmap_compose.
  change (_ <$> vs) with ((fun v => unurl_char (url_char v)) <$> vs).
  set (t := _ <$> vs).
  assert (Hf : List.filter (fun c => negb (ascii_whitespace c)) t = t).
  { apply forallb_filter_id, forallb_forall. intros c Hc. apply list_elem_of_In in Hc.
    apply list_elem_of_fmap in Hc as (v & -> & Hv). rewrite Forall_forall in F.
    by destruct (sextet_spec v (F v Hv)) as (_ & _ & _ & ->). }
  assert (Hs : rev (strip_padding 2 (rev t)) = t).
  { rewrite strip_padding_none; [apply rev_involutive|]. apply head_rev_ne. intros Hin.
    apply list_elem_of_fmap in Hin as (v & E & Hv). rewrite Forall_forall in F.
    by destruct (sextet_spec v (F v Hv)) as (_ & _ & N & _). }
  unfold atob. rewrite Hf, Hs. replace (if (_ =? 0)%nat then t else t) with t by by destruct (_ =? 0)%nat.
  replace (length t) with (length vs) by (symmetry; apply length_fmap).
  rewrite (proj2 (Nat.eqb_neq _ _)) by done.
  replace (mapM b64_value t) with (Some vs); [done|]. subst t. clear Hf Hs Hl.
  induction F as [|v vs Hv F IH]; [done|]. rewrite fmap_cons. cbn [mapM].
  destruct (sextet_spec v Hv) as (-> & _). cbn. by rewrite <-IH.
Qed.

Lemma b64url_roundtrip b : bytes_ok b -> fromB64Url (toB64Url b) = Ok b.
Proof.
  intros Hb. rewrite toB64Url_eq by done. destruct (sextets_facts b Hb) as (E & F & L).
  rewrite fromB64Url_url; [by rewrite E | done |]. rewrite L.
  by destruct (length b mod 3)%nat as [|[|]].
Qed.

Lemma qr_payload_layout dk ep :
  length dk = 32%nat -> length ep = 32%nat ->
  encodeQrPairing dk ep =
    Ok (String.string_of_list_ascii (QR_PREFIX ++ toB64Url ([QR_VER] ++ dk ++ ep))).
Proof.
  intros Hd He. unfold encodeQrPairing. rewrite !take_ge by lia.
  change (u8_store 0 QR_VER (u8_new 65)) with ([QR_VER] ++ replicate 64 0).
  rewrite (u8_set_zeros 1 _ 32) by (done || lia). cbn [rbind].
  rewrite (u8_set_zeros 33 _ 0) by (rewrite ?length_app; simpl; lia). cbn [rbind].
  by rewrite app_nil_r, <-app_assoc.
Qed.

(** A pairing QR is read back as the key and the ephemeral key it was made from, and what is
    displayed is always accepted by the scanner's own decoder. *)
Theorem qr_pairing_roundtrip dk ep :
  bytes_ok dk -> bytes_ok ep -> length dk = 32%nat -> length ep = 32%nat ->
  exists text, encodeQrPairing dk ep = Ok text /\ decodeQrPairing text = Some (dk, ep).
Proof.
  intros Bd Be Hd He. rewrite qr_payload_layout by done. eexists. split; [done|].
  unfold decodeQrPairing. rewrite String.list_ascii_of_string_of_list_ascii.
  rewrite take_app_length, bool_decide_true, drop_app_length by done. cbn [negb].
  rewrite b64url_roundtrip
    by (apply bytes_ok_app; split; [by apply bytes_okb_ok | by apply bytes_ok_app]).
  rewrite (proj2 (Nat.ltb_ge _ _)) by (rewrite !length_app, Hd, He; simpl; lia).
  rewrite bool_decide_true by done. cbn [orb negb].
  rewrite (slice_at _ [QR_VER] dk ep) by (done || lia).
  rewrite (slice_at _ ([QR_VER] ++ dk) ep []); [done | | rewrite length_app, Hd; done | lia].
  by rewrite app_nil_r, <-app_assoc.
Qed.

Lemma qr_pairing_roundtrip_witness :
  exists text, encodeQrPairing (replicate 32 255) (replicate 32 62) = Ok text /\
    decodeQrPairing text = Some (replicate 32 255, replicate 32 62).
Proof.
  apply (qr_pairing_roundtrip (replicate 32 255) (replicate 32 62));
    first [by apply bytes_okb_ok | done].
Defined.

Lemma sealed_grant_layout box :
  bytes_ok box -> (length box <= 254)%nat ->
  encodeSealedGrant box = Ok ([0; Z.of_nat (length box)] ++ box ++ replicate (254 - length box) 0).
Proof.
  intros Hb Hl. unfold encodeSealedGrant.
  replace (Z.land (Z.shiftr (Z.of_nat (length box)) 8) 255) with 0
    by (rewrite Z.shiftr_div_pow2, Z.div_small by lia; done).
  replace (Z.land (Z.of_nat (length box)) 255) with (Z.of_nat (length box))
    by (change 255 with (Z.ones 8); rewrite Z.land_ones, Z.mod_small by lia; done).
  unfold u8_store, u8_new. rewrite (to_u8_id (Z.of_nat (length box))) by (unfold byte_ok; lia).
  change (take (PAD - 2) box) with (take 254 box). rewrite take_ge by lia.
  change (<[1%nat:=_]> _) with ([0; Z.of_nat (length box)] ++ replicate 254 0).
  rewrite (u8_set_zeros 2 _ (254 - length box)) by (done || lia). by rewrite <-app_assoc.
Qed.

(** A sealed box of 32 to 254 bytes survives its framing, in a frame of 256 bytes whatever
    its length. *)
Theorem sealed_grant_roundtrip box :
  bytes_ok box -> (32 <= length box <= 254)%nat ->
  exists f, encodeSealedGrant box = Ok f /\ length f = 256%nat /\ decodeSealedGrant f = Some box.
Proof.
  intros Hb Hl. rewrite sealed_grant_layout by (done || lia). eexists. split; [done|].
  split. { rewrite !length_app, length_replicate. simpl. lia. }
  unfold decodeSealedGrant. cbn [app]. rewrite Z.shiftl_0_l, Z.lor_0_l.
  rewrite (proj2 (Z.ltb_ge _ _)) by lia. rewrite (proj2 (Z.ltb_ge _ _))
    by (cbn [length]; rewrite length_app, length_replicate; lia).
  cbn [orb]. f_equal.
  apply (slice_at _ [0; Z.of_nat (length box)] box (replicate (254 - length box) 0)); [done | done | lia].
Qed.

Lemma sealed_grant_roundtrip_witness :
  exists f, encodeSealedGrant (replicate 152 7) = Ok f /\ decodeSealedGrant f = Some (replicate 152 7).
Proof.
  destruct (sealed_grant_roundtrip (replicate 152 7)) as (f & E & _ & D);
    [by apply bytes_okb_ok | cbn; lia |].
  exists f. exact (conj E D).
Defined.
End PairingWire.
