(* ===== verification/Provisioning.v ===== *)
(** * Device provisioning (client/src/provisioning.ts, lines 132-611)

    The state machine that adds a device to an account: the six-word flow between a seed-holder
    and a new device, and the QR flow.  Its dependencies are a class; what it does to the outside
    is a log of effects.  Asynchronous methods are cut at their [await]. *)

From S2P Require Import Prelude Sas PairingWire.

(** ** The outside *)

(** What the injected dependencies compute ([ProvisioningDeps]), over the host's own state [W].
    An optional field is a dependency that may be [undefined].  [p_sha256] is
    [crypto.subtle.digest]; [p_rangeMessage] is the text the engine gives a [RangeError]. *)
Class ProvDeps (W : Type) := {
  p_accountKeyHex : M W string;
  p_deviceKeyHex : M W string;
  p_sasDigestHex : string -> string -> string -> Z -> M W string;
  p_authorizeDevice : string -> Z -> string -> string -> M W string;
  p_adoptCertificate : string -> Z -> string -> M W unit;
  p_random : nat -> M W bytes;
  p_mintEpoch : M W Z;
  p_ephemeralKeypair : option (M W bytes);
  p_seal : option (bytes -> bytes -> M W bytes);
  p_open : option (bytes -> bytes -> M W bytes);
  p_authorizeScanned : option (bytes -> Z -> M W bytes);
  p_sha256 : bytes -> bytes;
  p_rangeMessage : string
}.

Inductive event :=
  | EvError (detail : string)
  | EvWindowOpen
  | EvWindowClosed
  | EvWaiting
  | EvExpired
  | EvDeviceAdded (deviceKey : string)
  | EvConfirmDevice (words : string)
  | EvShowCode (words : string)
  | EvAuthorized (accountPub : string).

(** Calls to the outside, in order. *)
Inductive effect :=
  | Publish (routingKey : string) (payload : bytes)
  | Subscribe (routingKey : string)
  | Ack (messageId : bytes)
  | Push (e : event)
  | Authorize (deviceKeyHex : string) (certEpoch : Z) (nonceHex sasHex : string)
  | AuthorizeScanned (deviceSigKey : bytes) (certEpoch : Z)
  | Adopt (accountPubHex : string) (certEpoch : Z) (certHex : string).

(** The two callbacks given to [schedule]. *)
Inductive timer := TWindow | TExpire.

Record Host (W : Type) := MkHost {
  log : list effect;
  timers : list (nat * timer);
  nextHandle : nat;
  world : W
}.
Arguments MkHost {_} _ _ _ _.
Arguments log {_} _.
Arguments timers {_} _.
Arguments nextHandle {_} _.
Arguments world {_} _.

(** ** The machine's own state *)

Inductive role := Idle | SeedHolder | NewDevice | NewDeviceQr.

#[export] Instance role_eq_dec : EqDecision role.
Proof. solve_decision. Defined.

Record Pending := MkPending {
  pd_deviceKey : bytes;
  pd_replyMailbox : bytes;
  pd_sasDigestHex : string
}.

Record Prov := MkProv {
  rol : role;
  provMailbox : string;
  qrEphSecret : option bytes;
  qrReplyMailbox : string;
  qrShowHandle : option nat;
  sessionNonce : option bytes;
  certEpoch : Z;
  windowHandle : option nat;
  seenRequests : list string;
  pending : option Pending;
  myDeviceKey : string;
  accountPub : string;
  replyMailbox : string;
  joinNonceHex : string;
  joinEpoch : Z
}.

Definition initial : Prov := MkProv Idle "" None "" None None 0 None [] None "" "" "" "" 0.

Definition WINDOW_MS : Z := 120000.
Definition QR_SHOW_MS : Z := 180000.

(** Field updates. *)
Definition set_role x (p : Prov) : Prov :=
  MkProv x p.(provMailbox) p.(qrEphSecret) p.(qrReplyMailbox) p.(qrShowHandle) p.(sessionNonce)
    p.(certEpoch) p.(windowHandle) p.(seenRequests) p.(pending) p.(myDeviceKey) p.(accountPub)
    p.(replyMailbox) p.(joinNonceHex) p.(joinEpoch).
Definition set_provMailbox x (p : Prov) : Prov :=
  MkProv p.(rol) x p.(qrEphSecret) p.(qrReplyMailbox) p.(qrShowHandle) p.(sessionNonce)
    p.(certEpoch) p.(windowHandle) p.(seenRequests) p.(pending) p.(myDeviceKey) p.(accountPub)
    p.(replyMailbox) p.(joinNonceHex) p.(joinEpoch).
Definition set_qrEphSecret x (p : Prov) : Prov :=
  MkProv p.(rol) p.(provMailbox) x p.(qrReplyMailbox) p.(qrShowHandle) p.(sessionNonce)
    p.(certEpoch) p.(windowHandle) p.(seenRequests) p.(pending) p.(myDeviceKey) p.(accountPub)
    p.(replyMailbox) p.(joinNonceHex) p.(joinEpoch).
Definition set_qrReplyMailbox x (p : Prov) : Prov :=
  MkProv p.(rol) p.(provMailbox) p.(qrEphSecret) x p.(qrShowHandle) p.(sessionNonce)
    p.(certEpoch) p.(windowHandle) p.(seenRequests) p.(pending) p.(myDeviceKey) p.(accountPub)
    p.(replyMailbox) p.(joinNonceHex) p.(joinEpoch).
Definition set_qrShowHandle x (p : Prov) : Prov :=
  MkProv p.(rol) p.(provMailbox) p.(qrEphSecret) p.(qrReplyMailbox) x p.(sessionNonce)
    p.(certEpoch) p.(windowHandle) p.(seenRequests) p.(pending) p.(myDeviceKey) p.(accountPub)
    p.(replyMailbox) p.(joinNonceHex) p.(joinEpoch).
Definition set_sessionNonce x (p : Prov) : Prov :=
  MkProv p.(rol) p.(provMailbox) p.(qrEphSecret) p.(qrReplyMailbox) p.(qrShowHandle) x
    p.(certEpoch) p.(windowHandle) p.(seenRequests) p.(pending) p.(myDeviceKey) p.(accountPub)
    p.(replyMailbox) p.(joinNonceHex) p.(joinEpoch).
Definition set_certEpoch x (p : Prov) : Prov :=
  MkProv p.(rol) p.(provMailbox) p.(qrEphSecret) p.(qrReplyMailbox) p.(qrShowHandle)
    p.(sessionNonce) x p.(windowHandle) p.(seenRequests) p.(pending) p.(myDeviceKey)
    p.(accountPub) p.(replyMailbox) p.(joinNonceHex) p.(joinEpoch).
Definition set_windowHandle x (p : Prov) : Prov :=
  MkProv p.(rol) p.(provMailbox) p.(qrEphSecret) p.(qrReplyMailbox) p.(qrShowHandle)
    p.(sessionNonce) p.(certEpoch) x p.(seenRequests) p.(pending) p.(myDeviceKey) p.(accountPub)
    p.(replyMailbox) p.(joinNonceHex) p.(joinEpoch).
Definition set_seenRequests x (p : Prov) : Prov :=
  MkProv p.(rol) p.(provMailbox) p.(qrEphSecret) p.(qrReplyMailbox) p.(qrShowHandle)
    p.(sessionNonce) p.(certEpoch) p.(windowHandle) x p.(pending) p.(myDeviceKey) p.(accountPub)
    p.(replyMailbox) p.(joinNonceHex) p.(joinEpoch).
Definition set_pending x (p : Prov) : Prov :=
  MkProv p.(rol) p.(provMailbox) p.(qrEphSecret) p.(qrReplyMailbox) p.(qrShowHandle)
    p.(sessionNonce) p.(certEpoch) p.(windowHandle) p.(seenRequests) x p.(myDeviceKey)
    p.(accountPub) p.(replyMailbox) p.(joinNonceHex) p.(joinEpoch).
Definition set_myDeviceKey x (p : Prov) : Prov :=
  MkProv p.(rol) p.(provMailbox) p.(qrEphSecret) p.(qrReplyMailbox) p.(qrShowHandle)
    p.(sessionNonce) p.(certEpoch) p.(windowHandle) p.(seenRequests) p.(pending) x
    p.(accountPub) p.(replyMailbox) p.(joinNonceHex) p.(joinEpoch).
Definition set_accountPub x (p : Prov) : Prov :=
  MkProv p.(rol) p.(provMailbox) p.(qrEphSecret) p.(qrReplyMailbox) p.(qrShowHandle)
    p.(sessionNonce) p.(certEpoch) p.(windowHandle) p.(seenRequests) p.(pending) p.(myDeviceKey)
    x p.(replyMailbox) p.(joinNonceHex) p.(joinEpoch).
Definition set_replyMailbox x (p : Prov) : Prov :=
  MkProv p.(rol) p.(provMailbox) p.(qrEphSecret) p.(qrReplyMailbox) p.(qrShowHandle)
    p.(sessionNonce) p.(certEpoch) p.(windowHandle) p.(seenRequests) p.(pending) p.(myDeviceKey)
    p.(accountPub) x p.(joinNonceHex) p.(joinEpoch).
Definition set_joinNonceHex x (p : Prov) : Prov :=
  MkProv p.(rol) p.(provMailbox) p.(qrEphSecret) p.(qrReplyMailbox) p.(qrShowHandle)
    p.(sessionNonce) p.(certEpoch) p.(windowHandle) p.(seenRequests) p.(pending) p.(myDeviceKey)
    p.(accountPub) p.(replyMailbox) x p.(joinEpoch).
Definition set_joinEpoch x (p : Prov) : Prov :=
  MkProv p.(rol) p.(provMailbox) p.(qrEphSecret) p.(qrReplyMailbox) p.(qrShowHandle)
    p.(sessionNonce) p.(certEpoch) p.(windowHandle) p.(seenRequests) p.(pending) p.(myDeviceKey)
    p.(accountPub) p.(replyMailbox) p.(joinNonceHex) x.

Module Provisioning.
Section provisioning.
Context {W : Type} {D : ProvDeps W}.

Definition St : Type := Prov * Host W.

(** ** Access to the state and to the outside *)

Definition self : M St Prov := gets fst.
Definition update (f : Prov -> Prov) : M St unit := modify (fun '(p, h) => (f p, h)).
Definition effect_ (e : effect) : M St unit :=
  modify (fun '(p, h) => (p, MkHost (log h ++ [e]) (timers h) (nextHandle h) (world h))).
Definition push (e : event) : M St unit := effect_ (Push e).
Definition dep {A} (m : M W A) : M St A := fun '(p, h) =>
  let '(r, w) := m (world h) in (r, (p, MkHost (log h) (timers h) (nextHandle h) w)).
Definition schedule (t : timer) : M St nat := fun '(p, h) =>
  (Ok (nextHandle h),
   (p, MkHost (log h) (timers h ++ [(nextHandle h, t)]) (S (nextHandle h)) (world h))).
Definition cancel (k : nat) : M St unit :=
  modify (fun '(p, h) =>
    (p, MkHost (log h) (filter (fun x => x.1 <> k) (timers h)) (nextHandle h) (world h))).

Definition active (p : Prov) : bool := negb (bool_decide (rol p = Idle)).

Definition deriveProvMailbox (usernameHash : string) : string :=
  bytesToHex (p_sha256 (text_encode "deaddrop-provision-v1" ++ hexToBytes usernameHash)).
Definition deriveQrReplyMailbox (ephPub : bytes) : string :=
  bytesToHex (p_sha256 (text_encode "deaddrop-qr-reply-v1" ++ ephPub)).

(** ** Operations *)

Definition cancelQrShow : M St unit :=
  let! p := self in
  do! match qrShowHandle p with
      | Some k => do! cancel k in update (set_qrShowHandle None)
      | None => ret tt
      end in
  if decide (rol p = NewDeviceQr)
  then do! update (set_qrEphSecret None) in update (set_role Idle)
  else ret tt.

Definition openWindow (mailbox : string) : M St unit :=
  do! cancelQrShow in
  let! accountPub := dep p_accountKeyHex in
  if bool_decide (accountPub = "") then push (EvError "this device cannot authorize others") else
  do! update (set_role SeedHolder) in
  do! update (set_provMailbox mailbox) in
  let! nonce := dep (p_random 32) in
  do! update (set_sessionNonce (Some nonce)) in
  let! epoch := dep p_mintEpoch in
  do! update (set_certEpoch epoch) in
  do! update (set_seenRequests []) in
  do! update (set_pending None) in
  do! effect_ (Subscribe mailbox) in
  let! frame := of_result (PairingWire.encodeChallenge
    (PairingWire.MkChallenge nonce epoch (hexToBytes accountPub))) in
  do! effect_ (Publish mailbox frame) in
  let! k := schedule TWindow in
  do! update (set_windowHandle (Some k)) in
  push EvWindowOpen.

Definition closeWindow : M St unit :=
  let! p := self in
  if negb (bool_decide (rol p = SeedHolder)) then ret tt else
  do! match windowHandle p with
      | Some k => do! cancel k in update (set_windowHandle None)
      | None => ret tt
      end in
  do! update (set_role Idle) in
  do! update (set_sessionNonce None) in
  do! update (set_pending None) in
  push EvWindowClosed.

Definition startJoin (mailbox : string) : M St unit :=
  do! cancelQrShow in
  do! update (set_role NewDevice) in
  do! update (set_provMailbox mailbox) in
  let! dk := dep p_deviceKeyHex in
  do! update (set_myDeviceKey dk) in
  do! update (set_accountPub "") in
  do! update (set_replyMailbox "") in
  do! effect_ (Subscribe mailbox) in
  push EvWaiting.

(** The three fields of a grant in hexadecimal; a missing epoch is [NaN], which a [DataView]
    stores as 0. *)
Definition grant_of_hex (grantHex : string) (nonce : bytes) : PairingWire.Grant :=
  PairingWire.MkGrant
    (hexToBytes (String.substring 0 64 grantHex))
    (default 0 (parseInt16 (String.list_ascii_of_string (String.substring 72 8 grantHex))))
    (hexToBytes (String.substring 80 (String.length grantHex - 80) grantHex))
    nonce.

Definition confirm : M St unit :=
  let! p := self in
  match rol p, pending p, sessionNonce p with
  | SeedHolder, Some pd, Some nonce =>
      do! effect_ (Authorize (bytesToHex (pd_deviceKey pd)) (certEpoch p) (bytesToHex nonce)
                             (pd_sasDigestHex pd)) in
      let! grantHex := try_catch
        (let! g := dep (p_authorizeDevice (bytesToHex (pd_deviceKey pd)) (certEpoch p)
                          (bytesToHex nonce) (pd_sasDigestHex pd)) in ret (Some g))
        (fun _ => ret None) in
      match grantHex with
      | None => push (EvError "authorization failed")
      | Some grantHex =>
          let! frame := of_result (PairingWire.encodeGrant (grant_of_hex grantHex nonce)) in
          do! effect_ (Publish (bytesToHex (pd_replyMailbox pd)) frame) in
          do! push (EvDeviceAdded (bytesToHex (pd_deviceKey pd))) in
          closeWindow
      end
  | _, _, _ => ret tt
  end.

(** [startQrShow] up to its [await deriveQrReplyMailbox(ephPub)]; the result is [ephPub]. *)
Definition startQrShow : M St bytes :=
  match p_ephemeralKeypair with
  | None => throw (JsError "QR pairing not available")
  | Some keypair =>
      do! cancelQrShow in
      let! kp := dep keypair in
      do! update (set_qrEphSecret (Some (u8_slice 0 32 kp))) in
      ret (u8_slice 32 64 kp)
  end.

(** [startQrShow] after its [await]: returns the text of the QR. *)
Definition resumeQrShow (ephPub : bytes) : M St string :=
  let mailbox := deriveQrReplyMailbox ephPub in
  do! update (set_qrReplyMailbox mailbox) in
  do! update (set_role NewDeviceQr) in
  do! effect_ (Subscribe mailbox) in
  let! k := schedule TExpire in
  do! update (set_qrShowHandle (Some k)) in
  do! push EvWaiting in
  let! dk := dep p_deviceKeyHex in
  of_result (PairingWire.encodeQrPairing (hexToBytes dk) ephPub).

Definition qrShowLive (p : Prov) : bool :=
  bool_decide (rol p = NewDeviceQr) && bool_decide (qrEphSecret p <> None).

Definition resubscribeLive : M St unit :=
  let! p := self in
  if bool_decide (rol p = NewDeviceQr) && negb (bool_decide (qrReplyMailbox p = ""))
  then effect_ (Subscribe (qrReplyMailbox p)) else ret tt.

Definition expireQrShow : M St unit :=
  do! update (set_qrShowHandle None) in
  let! p := self in
  if negb (bool_decide (rol p = NewDeviceQr)) then ret tt else
  do! update (set_qrEphSecret None) in
  do! update (set_role Idle) in
  push EvExpired.

(** [err instanceof Error && err.message !== '' ? err.message : 'could not ...'] *)
Definition error_detail (e : exn) : string :=
  match e with
  | RangeError => p_rangeMessage
  | JsError m => if bool_decide (m = "") then "could not authorize that device" else m
  end.

(** [grantScanned] up to its [await deriveQrReplyMailbox(parsed.ephPub)]: the scanned keys and
    the sealed box, when it gets that far. *)
Definition grantScanned (qrPayload : string) : M St (option (bytes * bytes * bytes)) :=
  match p_authorizeScanned, p_seal with
  | Some authorizeScanned, Some seal =>
      let! accountPub := dep p_accountKeyHex in
      if bool_decide (accountPub = "")
      then do! push (EvError "this device cannot authorize others") in ret None else
      match PairingWire.decodeQrPairing qrPayload with
      | None => do! push (EvError "that is not a DEAD DROP pairing code") in ret None
      | Some (dk, ephPub) =>
          try_catch
            (let! epoch := dep p_mintEpoch in
             do! update (set_certEpoch epoch) in
             do! effect_ (AuthorizeScanned dk epoch) in
             let! grant := dep (authorizeScanned dk epoch) in
             let! box := dep (seal ephPub grant) in
             ret (Some (dk, ephPub, box)))
            (fun e => do! push (EvError (error_detail e)) in ret None)
      end
  | _, _ => throw (JsError "QR pairing not available")
  end.

(** [grantScanned] after its [await], still inside the [try]. *)
Definition resumeGrantScanned (dk ephPub box : bytes) : M St unit :=
  try_catch
    (let! frame := of_result (PairingWire.encodeSealedGrant box) in
     do! effect_ (Publish (deriveQrReplyMailbox ephPub) frame) in
     push (EvDeviceAdded (bytesToHex dk)))
    (fun e => push (EvError (error_detail e))).

(** ** Inbound frames *)

(** [try { adoptCertificate(..); return true } catch { pushEvent(..); return false }] *)
Definition adopt (accountPubHex : string) (epoch : Z) (certHex : string) : M St bool :=
  do! effect_ (Adopt accountPubHex epoch certHex) in
  try_catch (do! dep (p_adoptCertificate accountPubHex epoch certHex) in ret true)
            (fun _ => do! push (EvError "could not adopt the authorization") in ret false).

Definition onQrGrant (payload messageId : bytes) : M St unit :=
  let! p := self in
  match qrEphSecret p, p_open, PairingWire.decodeSealedGrant payload with
  | Some secret, Some open, Some box =>
      let! grant := try_catch (let! g := dep (open secret box) in ret (Some g)) (fun _ => ret None) in
      match grant with
      | None => ret tt
      | Some grant =>
          if negb (length grant =? 32 + 8 + 64)%nat then ret tt else
          let accountPubHex := bytesToHex (u8_slice 0 32 grant) in
          let! epoch := of_result (get_u32 4 (u8_slice 32 40 grant)) in
          let certHex := bytesToHex (u8_slice 40 104 grant) in
          let! adopted := adopt accountPubHex epoch certHex in
          if negb adopted then ret tt else
          do! effect_ (Ack messageId) in
          do! update (set_qrEphSecret None) in
          let! p := self in
          do! match qrShowHandle p with
              | Some k => do! cancel k in update (set_qrShowHandle None)
              | None => ret tt
              end in
          do! update (set_role Idle) in
          push (EvAuthorized accountPubHex)
      end
  | _, _, _ => ret tt
  end.

Definition owns (p : Prov) (routingKey : string) : bool :=
  negb (bool_decide (routingKey = "")) &&
  (bool_decide (routingKey = provMailbox p) || bool_decide (routingKey = replyMailbox p)
   || bool_decide (routingKey = qrReplyMailbox p)).

Definition onRequest (req : PairingWire.ProvRequest) (messageId : bytes) : M St unit :=
  let! p := self in
  match sessionNonce p with
  | None => ret tt
  | Some nonce =>
      if negb (bool_decide (bytesToHex (PairingWire.rq_sessionNonce req) = bytesToHex nonce))
      then ret tt else
      let rid := bytesToHex (PairingWire.rq_requestId req) in
      if bool_decide (rid ∈ seenRequests p) then ret tt else
      do! update (set_seenRequests (rid :: seenRequests p)) in
      do! effect_ (Ack messageId) in
      let! apk := dep p_accountKeyHex in
      let dk := PairingWire.rq_deviceSigKey req in
      let! digest := dep (p_sasDigestHex (bytesToHex nonce) apk (bytesToHex dk) (certEpoch p)) in
      do! update (set_pending (Some (MkPending dk (PairingWire.rq_replyMailbox req) digest))) in
      let! words := of_result (Sas.renderSasHex digest) in
      push (EvConfirmDevice words)
  end.

Definition onChallenge (ch : PairingWire.Challenge) : M St unit :=
  let! p := self in
  if negb (bool_decide (accountPub p = "")) then ret tt else
  let apk := bytesToHex (PairingWire.ch_accountPubKey ch) in
  let nonceHex := bytesToHex (PairingWire.ch_sessionNonce ch) in
  let epoch := PairingWire.ch_certEpoch ch in
  do! update (set_accountPub apk) in
  do! update (set_joinNonceHex nonceHex) in
  do! update (set_joinEpoch epoch) in
  let! reply := dep (p_random 32) in
  let rm := bytesToHex reply in
  do! update (set_replyMailbox rm) in
  let! requestId := dep (p_random 16) in
  let! digest := dep (p_sasDigestHex nonceHex apk (myDeviceKey p) epoch) in
  do! effect_ (Subscribe rm) in
  let! frame := of_result (PairingWire.encodeRequest
    (PairingWire.MkRequest (PairingWire.ch_sessionNonce ch) (hexToBytes (myDeviceKey p))
                           (hexToBytes rm) requestId)) in
  do! effect_ (Publish (provMailbox p) frame) in
  let! words := of_result (Sas.renderSasHex digest) in
  push (EvShowCode words).

Definition onGrant (g : PairingWire.Grant) (messageId : bytes) : M St unit :=
  let! p := self in
  if negb (bool_decide (bytesToHex (PairingWire.gr_sessionNonce g) = joinNonceHex p))
     || negb (bool_decide (bytesToHex (PairingWire.gr_accountPubKey g) = accountPub p))
  then ret tt else
  let! adopted := adopt (bytesToHex (PairingWire.gr_accountPubKey g)) (PairingWire.gr_certEpoch g)
                        (bytesToHex (PairingWire.gr_cert g)) in
  if negb adopted then ret tt else
  do! effect_ (Ack messageId) in
  do! update (set_role Idle) in
  push (EvAuthorized (accountPub p)).

Record ProvFrame := MkFrame {
  fr_messageId : bytes;
  fr_routingKey : string;
  fr_payload : bytes
}.

Definition handle (env : ProvFrame) : M St bool :=
  let! p := self in
  let key := fr_routingKey env in
  let payload := fr_payload env in
  if bool_decide (rol p = SeedHolder) && bool_decide (key = provMailbox p) then
    match PairingWire.decodeRequest payload with
    | Some req => do! onRequest req (fr_messageId env) in ret true
    | None => ret false
    end
  else if bool_decide (rol p = NewDevice) && bool_decide (key = provMailbox p) then
    let! ch := of_result (PairingWire.decodeChallenge payload) in
    match ch with
    | Some ch => do! onChallenge ch in ret true
    | None => ret false
    end
  else
    let! g := (if bool_decide (rol p = NewDevice) && bool_decide (key = replyMailbox p)
               then of_result (PairingWire.decodeGrant payload) else ret None) in
    match g with
    | Some g => do! onGrant g (fr_messageId env) in ret true
    | None =>
        if bool_decide (rol p = NewDeviceQr) && bool_decide (key = qrReplyMailbox p)
        then do! onQrGrant payload (fr_messageId env) in ret true
        else ret false
    end.

(** A timer fires: it leaves the host's table and its callback runs. *)
Definition fire (k : nat) : M St unit := fun '(p, h) =>
  match list_find (fun x => x.1 = k) (timers h) with
  | None => (Ok tt, (p, h))
  | Some (_, (_, t)) =>
      let h' := MkHost (log h) (filter (fun x => x.1 <> k) (timers h)) (nextHandle h) (world h) in
      match t with TWindow => closeWindow (p, h') | TExpire => expireQrShow (p, h') end
  end.

(** ** Runs *)

Inductive op :=
  | OOpenWindow (mailbox : string)
  | OCloseWindow
  | OStartJoin (mailbox : string)
  | OConfirm
  | OStartQrShow
  | OResumeQrShow (ephPub : bytes)
  | OCancelQrShow
  | OResubscribe
  | OGrantScanned (qrPayload : string)
  | OResumeGrantScanned (dk ephPub box : bytes)
  | OHandle (env : ProvFrame)
  | OFire (k : nat).

Definition void {A} (m : M St A) : M St unit := do! m in ret tt.

Definition exec (o : op) : M St unit :=
  match o with
  | OOpenWindow m => openWindow m
  | OCloseWindow => closeWindow
  | OStartJoin m => startJoin m
  | OConfirm => confirm
  | OStartQrShow => void startQrShow
  | OResumeQrShow e => void (resumeQrShow e)
  | OCancelQrShow => cancelQrShow
  | OResubscribe => resubscribeLive
  | OGrantScanned q => void (grantScanned q)
  | OResumeGrantScanned dk e b => resumeGrantScanned dk e b
  | OHandle env => void (handle env)
  | OFire k => fire k
  end.

Definition run (os : list op) (s : St) : St := foldl (fun s o => (exec o s).2) s os.

(** ** What is certified, and when

    The words the user last saw, and the property of a log that every authorization in it was of
    the code behind the words that were on the screen at that moment. *)

Definition last_confirm (l : list effect) : option string :=
  foldl (fun o e => match e with Push (EvConfirmDevice w) => Some w | _ => o end) None l.

Definition shown (l : list effect) (sasHex : string) : Prop :=
  exists words, last_confirm l = Some words /\ Sas.renderSasHex sasHex = Ok words.

Definition authorizations_shown (l : list effect) : Prop :=
  forall pre post dk epoch nonce sas,
    l = pre ++ Authorize dk epoch nonce sas :: post -> shown pre sas.

(** The operations that scanned a QR. *)
Definition is_scan (o : op) : bool := match o with OGrantScanned _ => true | _ => false end.

(** The request behind a code: a frame of the run asked for [dk] under the nonce of the window, and [sas] is
    the digest of that nonce, the account key, [dk] and the epoch of the window. *)
Definition asked_for (os : list op) (dk : bytes) (nonce : bytes) (epoch : Z) (sas : string) : Prop :=
  exists env req apk w0 w1 w2 w3,
    OHandle env ∈ os /\ PairingWire.decodeRequest (fr_payload env) = Some req /\
    PairingWire.rq_deviceSigKey req = dk /\ bytesToHex (PairingWire.rq_sessionNonce req) = bytesToHex nonce /\
    p_accountKeyHex w0 = (Ok apk, w1) /\
    p_sasDigestHex (bytesToHex nonce) apk (bytesToHex dk) epoch w2 = (Ok sas, w3).

(** An authorization is for a device that asked, and of the code of its request; a scan meanwhile reads the
    epoch of the account again. *)
Definition authorization_asked (os : list op) (dk : string) (epoch : Z) (nonce sas : string) : Prop :=
  exists key n e, dk = bytesToHex key /\ nonce = bytesToHex n /\ asked_for os key n e sas /\
    (existsb is_scan os = false -> e = epoch).

Record Inv (os : list op) (p : Prov) (l : list effect) : Prop := MkInv {
  inv_pending : forall pd, pending p = Some pd -> shown l (pd_sasDigestHex pd);
  inv_asked : forall pd nonce, pending p = Some pd -> sessionNonce p = Some nonce ->
    exists e, asked_for os (pd_deviceKey pd) nonce e (pd_sasDigestHex pd) /\
      (existsb is_scan os = false -> e = certEpoch p);
  inv_authorized : authorizations_shown l;
  inv_bound : forall dk epoch nonce sas, Authorize dk epoch nonce sas ∈ l -> authorization_asked os dk epoch nonce sas;
  inv_scanned : forall dk epoch, AuthorizeScanned dk epoch ∈ l ->
    exists q ephPub, OGrantScanned q ∈ os /\ PairingWire.decodeQrPairing q = Some (dk, ephPub)
}.

Definition plain (e : effect) : Prop :=
  match e with
  | Authorize _ _ _ _ | AuthorizeScanned _ _ | Push (EvConfirmDevice _) => False
  | _ => True
  end.

Lemma last_confirm_snoc l e :
  last_confirm (l ++ [e]) = match e with Push (EvConfirmDevice w) => Some w | _ => last_confirm l end.
Proof. unfold last_confirm. by rewrite foldl_app. Qed.

Lemma authorizations_snoc l e :
  authorizations_shown l ->
  (forall dk ep n s, e = Authorize dk ep n s -> shown l s) -> authorizations_shown (l ++ [e]).
Proof.
  intros Hl He pre post dk ep n s E.
  destruct post as [|x post _] using rev_ind.
  - apply app_inj_tail in E as [<- ->]. by eapply He.
  - rewrite app_comm_cons, app_assoc in E. apply app_inj_tail in E as [E _]. by eapply Hl.
Qed.

Lemma Inv_plain os p l e : Inv os p l -> plain e -> Inv os p (l ++ [e]).
Proof.
  intros [Hp Hk Ha Hb Hs] He. split; [|done|..].
  - intros pd E. destruct (Hp pd E) as (w & E1 & E2). exists w. split; [|done].
    rewrite last_confirm_snoc. by destruct e as [| | |[]| | |].
  - apply authorizations_snoc; [done|]. intros ? ? ? ? ->. done.
  - intros dk ep n sas [H|H]%elem_of_app; [by apply Hb|]. apply list_elem_of_singleton in H as <-. done.
  - intros dk ep [H|H]%elem_of_app; [by eapply Hs|]. apply list_elem_of_singleton in H as <-. done.
Qed.

(** [m] maintains [R], a relation on the machine and its log, whether it returns or throws. *)
Definition maintains {A} (R : Prov -> list effect -> Prop) (m : M St A) : Prop :=
  forall p h, R p (log h) -> R (m (p, h)).2.1 (log (m (p, h)).2.2).

Section maintains.
Context (R : Prov -> list effect -> Prop).

Lemma maintains_silent {A} (m : M St A) :
  (forall p h, (m (p, h)).2.1 = p /\ log (m (p, h)).2.2 = log h) -> maintains R m.
Proof. intros H p h HR. by destruct (H p h) as [-> ->]. Qed.

Lemma maintains_dep {A} (m : M W A) : maintains R (dep m).
Proof. apply maintains_silent. intros p h. unfold dep. by destruct (m (world h)). Qed.

Lemma maintains_update f : (forall p l, R p l -> R (f p) l) -> maintains R (update f).
Proof. intros Hf p h. apply Hf. Qed.

Lemma maintains_effect e : (forall p l, R p l -> R p (l ++ [e])) -> maintains R (effect_ e).
Proof. intros He p h. apply He. Qed.

Lemma maintains_bind {A B} (m : M St A) (k : A -> M St B) :
  maintains R m -> (forall a, maintains R (k a)) -> maintains R (bind m k).
Proof.
  intros Hm Hk p h H. specialize (Hm p h H). unfold bind.
  destruct (m (p, h)) as [[a|e] [p' h']]; [by apply Hk | done].
Qed.

Lemma maintains_try {A} (m : M St A) (k : exn -> M St A) :
  maintains R m -> (forall e, maintains R (k e)) -> maintains R (try_catch m k).
Proof.
  intros Hm Hk p h H. specialize (Hm p h H). unfold try_catch.
  destruct (m (p, h)) as [[a|e] [p' h']]; [done | by apply Hk].
Qed.
End maintains.

(** Follow the structure of a method down to its primitive steps; [side] proves what is left of
    the updates and the effects. *)
Ltac maintains_with side :=
  repeat match goal with
  | |- forall _, maintains _ _ => intros ?
  | |- maintains _ (bind _ _) => apply maintains_bind; [|intros]
  | |- maintains _ (try_catch _ _) => apply maintains_try; [|intros]
  | |- maintains _ (dep _) => apply maintains_dep
  | |- maintains _ (update _) => apply maintains_update; solve [side]
  | |- maintains _ (effect_ _) => apply maintains_effect; solve [side]
  | |- maintains _ (push _) => apply maintains_effect; solve [side]
  | |- maintains _ (adopt _ _ _) => unfold adopt
  | |- maintains _ (onRequest _ _) => unfold onRequest
  | |- maintains _ (onChallenge _) => unfold onChallenge
  | |- maintains _ (onGrant _ _) => unfold onGrant
  | |- maintains _ (onQrGrant _ _) => unfold onQrGrant
  | |- maintains _ cancelQrShow => unfold cancelQrShow
  | |- maintains _ closeWindow => unfold closeWindow
  | |- maintains _ expireQrShow => unfold expireQrShow
  | |- maintains _ (match ?x with _ => _ end) => destruct x
  | |- maintains _ (let _ := _ in _) => cbn zeta
  | |- maintains _ _ => apply maintains_silent; done
  end.

(** [fire] runs a callback on the same machine and log. *)
Lemma maintains_fire R k :
  maintains R closeWindow -> maintains R expireQrShow -> maintains R (fire k).
Proof.
  intros Hc He p h H. unfold fire.
  destruct (list_find _ (timers h)) as [[? [? []]]|]; [| |done].
  - exact (Hc p (MkHost _ _ _ _) H).
  - exact (He p (MkHost _ _ _ _) H).
Qed.

(** The invariant is maintained. *)
Abbreviation keeps os := (maintains (Inv os)).

(** What an update may do: leave the request, the nonce and the epoch, or forget the request or the nonce. *)
Definition harmless (f : Prov -> Prov) : Prop := forall p,
  pending (f p) = None \/ sessionNonce (f p) = None /\ pending (f p) = pending p \/
  pending (f p) = pending p /\ sessionNonce (f p) = sessionNonce p /\ certEpoch (f p) = certEpoch p.

Lemma Inv_update os f : harmless f -> forall p l, Inv os p l -> Inv os (f p) l.
Proof.
  intros Hf p l [Hp Hk Ha Hb Hs]. split; [..|done|done|done].
  - intros pd E. destruct (Hf p) as [E'|[[_ E']|(E' & _)]]; rewrite E' in E; [done|by apply Hp..].
  - intros pd n E En. destruct (Hf p) as [E'|[[E' _]|(E1 & E2 & E3)]]; [congruence..|].
    rewrite E1 in E. rewrite E2 in En. rewrite E3. by apply Hk.
Qed.

Ltac keeps_tac :=
  maintains_with ltac:(first [ apply Inv_update; intros ?; by (left + (right; left) + (right; right))
                             | intros; apply Inv_plain; [assumption | exact I] ]).

(** Without a stored request the machine only has its log to answer for. *)
Lemma Inv_forget os p q l : Inv os p l -> pending q = None -> Inv os q l.
Proof. intros [_ _ Ha Hb Hs] E. split; [..|done|done|done]; intros; congruence. Qed.

(** The digest is SHA-256, in hexadecimal, so it always has the 66 bits that are rendered. *)
Definition sas_renders : Prop :=
  forall nonce apk dk epoch w digest w',
    p_sasDigestHex nonce apk dk epoch w = (Ok digest, w') ->
    exists words, Sas.renderSasHex digest = Ok words.

(** Random bytes and the epoch of the account are at hand when a window is opened. *)
Definition window_opens : Prop :=
  (forall n w, exists b w', p_random n w = (Ok b, w')) /\ (forall w, exists e w', p_mintEpoch w = (Ok e, w')).

Lemma keeps_openWindow os mailbox : window_opens -> keeps os (openWindow mailbox).
Proof.
  intros [Hr He]. unfold openWindow. apply maintains_bind; [keeps_tac|intros _].
  apply maintains_bind; [keeps_tac|intros apk]. destruct (bool_decide _); [keeps_tac|].
  do 2 (apply maintains_bind; [keeps_tac|intros _]).
  intros p h H. destruct (Hr 32%nat (world h)) as (nonce & w1 & E1). destruct (He w1) as (e & w2 & E2).
  match goal with |- Inv _ (?m _).2.1 _ => pattern (m (p, h)) end.
  match goal with |- ?Q _ => set (post := Q) end.
  unfold bind at 1, dep at 1. rewrite E1. unfold bind at 1, update at 1, modify.
  unfold bind at 1, dep at 1. cbn [world]. rewrite E2. unfold bind at 1, update at 1, modify.
  unfold bind at 1, update at 1, modify. unfold bind at 1, update at 1, modify. cbn beta iota.
  match goal with |- post (?k (?q, ?g)) =>
    apply ((ltac:(keeps_tac) : keeps os k) q g); by apply (Inv_forget os p q) end.
Qed.

Lemma keeps_onRequest os req env :
  sas_renders -> OHandle env ∈ os -> PairingWire.decodeRequest (fr_payload env) = Some req ->
  keeps os (onRequest req (fr_messageId env)).
Proof.
  intros Hsas Henv Hreq p h H.
  match goal with |- Inv _ (?m _).2.1 _ => pattern (m (p, h)) end.
  match goal with |- ?Q _ => set (post := Q) end. unfold onRequest.
  match goal with |- context [bind self ?k (p, h)] => change (bind self k (p, h)) with (k p (p, h)) end.
  cbn beta. destruct (sessionNonce p) as [nonce|] eqn:En; [|exact H].
  destruct (negb _) eqn:Ereq; [exact H|]. apply negb_false_iff, bool_decide_eq_true in Ereq.
  cbn zeta. destruct (bool_decide _); [exact H|].
  unfold bind at 1, update at 1, modify. unfold bind at 1, effect_ at 1, modify. cbn beta iota.
  set (p1 := set_seenRequests _ p).
  assert (H1 : Inv os p1 (log h ++ [Ack (fr_messageId env)])).
  { apply Inv_plain; [|exact I]. apply (Inv_update os (set_seenRequests _)); [|done]. intros ?. by right; right. }
  unfold bind at 1, dep at 1. cbn [world log timers nextHandle].
  destruct (p_accountKeyHex (world h)) as [[apk|x] w1] eqn:E1; [|exact H1].
  unfold bind at 1, dep at 1. cbn [world log timers nextHandle].
  destruct (p_sasDigestHex _ _ _ _ w1) as [[digest|x] w2] eqn:E2; [|exact H1].
  destruct (Hsas _ _ _ _ _ _ _ E2) as [words Ew]. unfold bind, update, modify, of_result. rewrite Ew.
  unfold push, effect_, modify, post. cbn [fst snd log].
  destruct H1 as [Hp Hk Ha Hb Hs]. split; cbn [pending set_pending].
  - intros pd [= <-]. exists words. by rewrite last_confirm_snoc.
  - intros pd n [= <-] E. unfold p1 in E. cbn in E. rewrite En in E. injection E as <-. exists (certEpoch p).
    split; [|done]. exists env, req, apk, (world h), w1, w1, w2. done.
  - by apply authorizations_snoc.
  - intros dk ep n sas [Hin|Hin]%elem_of_app; [by apply Hb|]. by apply list_elem_of_singleton in Hin.
  - intros dk ep [Hin|Hin]%elem_of_app; [by eapply Hs|]. by apply list_elem_of_singleton in Hin.
Qed.

Lemma keeps_handle os env : sas_renders -> OHandle env ∈ os -> keeps os (handle env).
Proof.
  intros Hsas Henv. unfold handle. apply maintains_bind; [keeps_tac|]. intros p0. cbn zeta.
  destruct (_ && _).
  { destruct (PairingWire.decodeRequest _) eqn:Ereq; [|keeps_tac].
    apply maintains_bind; [by apply keeps_onRequest | keeps_tac]. }
  destruct (_ && _).
  { apply maintains_bind; [keeps_tac|]. intros [ch|]; [|keeps_tac].
    keeps_tac. }
  apply maintains_bind; [keeps_tac|]. intros [g|].
  { keeps_tac. }
  destruct (_ && _); [|keeps_tac]. keeps_tac.
Qed.

Lemma keeps_confirm os : keeps os confirm.
Proof.
  intros p h H. unfold confirm.
  match goal with |- context [bind self ?k (p, h)] => change (bind self k (p, h)) with (k p (p, h)) end.
  cbn beta. destruct (rol p); try exact H. destruct (pending p) as [pd|] eqn:Ep; [|exact H].
  destruct (sessionNonce p) as [nonce|] eqn:En; [|exact H].
  set (e := Authorize _ _ _ _).
  assert (H' : Inv os p (log h ++ [e])).
  { destruct H as [Hp Hk Ha Hb Hs]. split; [|done|..].
    - intros pd' E. destruct (Hp pd' E) as (w & E1 & E2). exists w. by rewrite last_confirm_snoc.
    - apply authorizations_snoc; [done|]. intros ? ? ? ? [= <- <- <- <-]. by apply Hp.
    - intros dk ep n sas [Hin|Hin]%elem_of_app; [by apply Hb|].
      apply list_elem_of_singleton in Hin as [= -> -> -> ->].
      destruct (Hk pd nonce Ep En) as (e0 & Hasked & He). by exists (pd_deviceKey pd), nonce, e0.
    - intros dk ep [Hin|Hin]%elem_of_app; [by eapply Hs|]. by apply list_elem_of_singleton in Hin. }
  match goal with |- Inv _ (bind (effect_ e) ?k (p, h)).2.1 _ =>
    exact ((ltac:(cbn beta; keeps_tac) : keeps os (k tt)) p
             (MkHost (log h ++ [e]) (timers h) (nextHandle h) (world h)) H') end.
Qed.

(** A longer run has more requests and more scans. *)
Lemma asked_for_more os os' dk n e sas : asked_for os dk n e sas -> asked_for (os ++ os') dk n e sas.
Proof.
  intros (env & req & apk & w0 & w1 & w2 & w3 & H & R). exists env, req, apk, w0, w1, w2, w3.
  split; [|exact R]. apply elem_of_app. by left.
Qed.
Lemma scan_more os os' : existsb is_scan (os ++ os') = false -> existsb is_scan os = false.
Proof. rewrite existsb_app. by intros [? _]%orb_false_iff. Qed.

Lemma keeps_more os os' p l : Inv os p l -> Inv (os ++ os') p l.
Proof.
  intros [Hp Hk Ha Hb Hs]. split; [done|..|done| |].
  - intros pd n E En. destruct (Hk pd n E En) as (e & H & He). exists e.
    split; [by apply asked_for_more|]. intros Hn. by apply He, (scan_more os os').
  - intros dk ep nonce sas H. destruct (Hb dk ep nonce sas H) as (key & n & e & E1 & E2 & H' & He).
    exists key, n, e. split_and!; [done..|by apply asked_for_more|]. intros Hn. by apply He, (scan_more os os').
  - intros dk ep H. destruct (Hs dk ep H) as (x & eph & ? & ?).
    exists x, eph. split; [|done]. apply elem_of_app. by left.
Qed.

Lemma Inv_epoch os q p l e : OGrantScanned q ∈ os -> Inv os p l -> Inv os (set_certEpoch e p) l.
Proof.
  intros Hq [Hp Hk Ha Hb Hs]. split; [done| |done|done|done].
  intros pd n E En. destruct (Hk pd n E En) as (e0 & H & _). exists e0. split; [done|]. intros Hn. exfalso.
  enough (existsb is_scan os = true) by congruence. apply existsb_exists. exists (OGrantScanned q).
  by rewrite <- list_elem_of_In.
Qed.

Lemma keeps_grantScanned os q : OGrantScanned q ∈ os -> keeps os (grantScanned q).
Proof.
  intros Hq. unfold grantScanned. destruct p_authorizeScanned as [f|]; [|keeps_tac].
  destruct p_seal as [g|]; [|keeps_tac]. apply maintains_bind; [keeps_tac|]. intros apk.
  destruct (bool_decide _); [keeps_tac|].
  destruct (PairingWire.decodeQrPairing q) as [[dk eph]|] eqn:Eq; [|keeps_tac].
  apply maintains_try; [|intros; keeps_tac].
  apply maintains_bind; [keeps_tac|intros epoch].
  apply maintains_bind; [apply maintains_update; intros; by eapply Inv_epoch|intros _].
  apply maintains_bind; [|intros; keeps_tac].
  intros p h [Hp Hk Ha Hb Hs]. split; [|done|..]; cbn.
  - intros pd E. destruct (Hp pd E) as (w & E1 & E2). exists w. by rewrite last_confirm_snoc.
  - by apply authorizations_snoc.
  - intros dk' ep n sas [Hin|Hin]%elem_of_app; [by apply Hb|]. by apply list_elem_of_singleton in Hin.
  - intros dk' ep [Hin|Hin]%elem_of_app; [by eapply Hs|].
    apply list_elem_of_singleton in Hin as [= -> ->]. by exists q, eph.
Qed.

Lemma exec_keeps os o : sas_renders -> window_opens -> o ∈ os -> keeps os (exec o).
Proof.
  intros Hsas Hw Ho. destruct o; simpl; unfold void.
  - by apply keeps_openWindow.
  - keeps_tac.
  - unfold startJoin. keeps_tac.
  - apply keeps_confirm.
  - unfold startQrShow. keeps_tac.
  - unfold resumeQrShow. keeps_tac.
  - keeps_tac.
  - unfold resubscribeLive. keeps_tac.
  - apply maintains_bind; [by apply keeps_grantScanned | keeps_tac].
  - unfold resumeGrantScanned. keeps_tac.
  - apply maintains_bind; [by apply keeps_handle | keeps_tac].
  - apply maintains_fire; keeps_tac.
Qed.

Lemma run_keeps os h :
  sas_renders -> window_opens -> log h = [] -> let s := run os (initial, h) in Inv os s.1 (log s.2).
Proof.
  intros Hsas Hw H. induction os as [|o os IH] using rev_ind; cbn zeta.
  { cbn. rewrite H. split; try done; [|set_solver..]. intros [|? ?] ? ? ? ? ? E; discriminate. }
  unfold run in *. rewrite foldl_app. cbn [foldl].
  destruct (foldl (fun s o => (exec o s).2) (initial, h) os) as [p' h'].
  apply exec_keeps; [done|done|apply elem_of_app; right; by left|]. by apply keeps_more.
Qed.

(** C2. In every sequence of operations, inbound frames and timers, from a fresh machine: each
    time [authorizeDevice] is called, it is for the key that some request frame of the run asked for under
    the nonce of the call, with a code whose six words were the last shown to the user, and that code is
    the digest of this nonce, the account key, that very key and the epoch of the call (unless a QR was
    scanned as well, which reads the epoch again); and each key certified by scanning is the key in a QR
    the user scanned. *)
Theorem certifies_only_what_the_user_saw os h :
  sas_renders -> window_opens -> log h = [] ->
  let l := log (run os (initial, h)).2 in
  (forall dk epoch nonce sas pre post, l = pre ++ Authorize dk epoch nonce sas :: post ->
     (exists words, last_confirm pre = Some words /\ Sas.renderSasHex sas = Ok words) /\
     (exists env req apk n e w0 w1 w2 w3,
        OHandle env ∈ os /\ PairingWire.decodeRequest (fr_payload env) = Some req /\
        dk = bytesToHex (PairingWire.rq_deviceSigKey req) /\
        bytesToHex (PairingWire.rq_sessionNonce req) = bytesToHex n /\ nonce = bytesToHex n /\
        p_accountKeyHex w0 = (Ok apk, w1) /\ p_sasDigestHex nonce apk dk e w2 = (Ok sas, w3) /\
        ((forall q, OGrantScanned q ∉ os) -> e = epoch))) /\
  (forall key epoch, AuthorizeScanned key epoch ∈ l ->
     exists q ephPub, OGrantScanned q ∈ os /\ PairingWire.decodeQrPairing q = Some (key, ephPub)).
Proof.
  intros Hsas Hw Hh. cbn zeta. destruct (run_keeps os h Hsas Hw Hh) as [_ _ Ha Hb Hs]. split; [|exact Hs].
  intros dk epoch nonce sas pre post E. split; [exact (Ha pre post dk epoch nonce sas E)|].
  destruct (Hb dk epoch nonce sas) as (key & n & e & -> & -> & Hasked & He); [rewrite E; set_solver|].
  destruct Hasked as (env & req & apk & w0 & w1 & w2 & w3 & H1 & H2 & H3 & H4 & H5 & H6). subst key.
  exists env, req, apk, n, e, w0, w1, w2, w3. split_and!; try done. intros Hn. apply He.
  destruct (existsb is_scan os) eqn:Ex; [|done]. apply existsb_exists in Ex as (o & Ho & Eo).
  destruct o; try done. by destruct (Hn qrPayload); apply list_elem_of_In.
Qed.

(** ** Which effects an operation can have *)

(** [m] only adds effects satisfying [P] to the log, whether it returns or throws. *)
Definition extends (P : effect -> Prop) (l0 : list effect) (p : Prov) (l : list effect) : Prop :=
  exists new, l = l0 ++ new /\ Forall P new.
Definition emits {A} (P : effect -> Prop) (m : M St A) : Prop :=
  forall l0, maintains (extends P l0) m.

Lemma extends_snoc (P : effect -> Prop) l0 p l e : P e -> extends P l0 p l -> extends P l0 p (l ++ [e]).
Proof.
  intros He (new & -> & F). exists (new ++ [e]). rewrite app_assoc. split; [done|].
  apply Forall_app. split; [done|]. by constructor.
Qed.

Lemma emits_new {A} P (m : M St A) p h :
  emits P m -> exists new, log (m (p, h)).2.2 = log h ++ new /\ Forall P new.
Proof. intros H. apply (H (log h)). exists []. by rewrite app_nil_r. Qed.

Ltac emits_tac :=
  intros ?; maintains_with ltac:(first [ intros; by auto | intros; apply extends_snoc; [exact I | assumption] ]).

Definition not_authorization (e : effect) : Prop :=
  match e with Authorize _ _ _ _ | AuthorizeScanned _ _ => False | _ => True end.

(** An inbound frame or a timer never certifies a device: in every state, [handle] and the
    timer callbacks make no call to [authorizeDevice] or [authorizeScannedDevice]. *)
Theorem inbound_never_authorizes :
  (forall env, emits not_authorization (handle env)) /\ (forall k, emits not_authorization (fire k)).
Proof.
  split; [intros env; unfold handle; emits_tac|].
  intros k l0. apply maintains_fire; revert l0; emits_tac.
Qed.

(** ** The one-shot secret of a shown QR *)

Definition not_adoption (e : effect) : Prop := match e with Adopt _ _ _ => False | _ => True end.

Lemma bind_self {A} (k : Prov -> M St A) p h : bind self k (p, h) = k p (p, h).
Proof. reflexivity. Qed.

(** Running a method that only touches the handle and timers of a shown QR. *)
Lemma cancelQrShow_run p h :
  exists h', cancelQrShow (p, h) =
    (Ok tt, ((if decide (rol p = NewDeviceQr)
              then set_role Idle (set_qrEphSecret None (set_qrShowHandle None p))
              else set_qrShowHandle None p), h')) /\ log h' = log h /\ world h' = world h.
Proof.
  unfold cancelQrShow. rewrite bind_self. destruct p as [r pm sec qm [k|]]; cbn;
    destruct (decide _); eexists; cbn; split; try done.
Qed.

Lemma not_live_role p : rol p <> NewDeviceQr -> qrShowLive p = false.
Proof. intros H. unfold qrShowLive. by rewrite bool_decide_false. Qed.

(** The machine is not showing a QR. *)
Definition off (p : Prov) (l : list effect) : Prop := rol p <> NewDeviceQr.

Ltac off_tac := maintains_with ltac:(intros; first [assumption | discriminate]).

Lemma cancelQrShow_off {A} (k : M St A) p h :
  maintains off k -> rol (bind cancelQrShow (fun _ => k) (p, h)).2.1 <> NewDeviceQr.
Proof.
  intros Hk. unfold bind. destruct (cancelQrShow_run p h) as (h' & -> & _).
  apply (Hk _ h'). unfold off. by destruct (decide _).
Qed.

Lemma onQrGrant_none p h b i : qrEphSecret p = None -> onQrGrant b i (p, h) = (Ok tt, (p, h)).
Proof. intros E. unfold onQrGrant. rewrite bind_self. by rewrite E. Qed.

Definition not_authorized (e : effect) : Prop :=
  match e with Push (EvAuthorized _) => False | _ => True end.

Lemma onQrGrant_burns p h b i :
  qrShowLive (onQrGrant b i (p, h)).2.1 = false \/
  exists new, log (onQrGrant b i (p, h)).2.2 = log h ++ new /\ Forall not_authorized new.
Proof.
  assert (Hnil : forall h' : Host W, log h' = log h ->
    exists new, log h' = log h ++ new /\ Forall not_authorized new).
  { intros h' ->. exists []. by rewrite app_nil_r. }
  pattern (onQrGrant b i (p, h)). match goal with |- ?Q _ => set (post := Q) end.
  unfold onQrGrant. rewrite bind_self.
  destruct (qrEphSecret p) as [secret|], p_open as [open|], (PairingWire.decodeSealedGrant b) as [box|];
    try (right; by apply Hnil).
  unfold bind at 1, try_catch at 1, bind at 1, dep at 1.
  destruct (open secret box (world h)) as [[grant|e] w1]; [|right; by apply Hnil].
  cbn beta iota delta [ret]. destruct (negb _); [right; by apply Hnil|]. cbn zeta.
  unfold bind at 1, of_result.
  destruct (get_u32 4 _) as [epoch|e]; [|right; by apply Hnil].
  unfold bind at 1, adopt, bind at 1, effect_ at 1, modify, try_catch, bind at 1, dep.
  cbn [fst snd world log timers nextHandle].
  destruct (p_adoptCertificate _ _ _ w1) as [[u|e] w2]; cbn.
  - left. destruct (qrShowHandle p); by apply not_live_role.
  - right. rewrite <-app_assoc. eexists. split; [done|]. by repeat constructor.
Qed.

(** The secret of a shown QR is used at most once.  Cancelling, switching to the six-word
    flow in either role, or the expiry timer burns it; a grant that is adopted burns it; and
    while no QR is live, nothing that arrives on a QR mailbox can make this device adopt a
    certificate. *)
Theorem qr_secret_one_shot p h :
  qrShowLive (cancelQrShow (p, h)).2.1 = false /\
  (forall m, qrShowLive (openWindow m (p, h)).2.1 = false) /\
  (forall m, qrShowLive (startJoin m (p, h)).2.1 = false) /\
  qrShowLive (expireQrShow (p, h)).2.1 = false /\
  (forall b i, qrShowLive (onQrGrant b i (p, h)).2.1 = false \/
     exists new, log (onQrGrant b i (p, h)).2.2 = log h ++ new /\ Forall not_authorized new) /\
  (forall env, qrShowLive p = false -> rol p <> NewDevice ->
     exists new, log (handle env (p, h)).2.2 = log h ++ new /\ Forall not_adoption new).
Proof.
  split_and!.
  - destruct (cancelQrShow_run p h) as (h' & -> & _). apply not_live_role.
    by destruct (decide _).
  - intros m. apply not_live_role, cancelQrShow_off. off_tac.
  - intros m. apply not_live_role, cancelQrShow_off. off_tac.
  - unfold expireQrShow, bind, update, modify, self, gets. cbn.
    destruct (bool_decide _) eqn:E; cbn; apply not_live_role; [done|].
    by apply bool_decide_eq_false in E.
  - apply onQrGrant_burns.
  - intros env Hl Hr. unfold handle. rewrite bind_self. cbn zeta.
    rewrite (bool_decide_false (rol p = NewDevice)) by done. cbn [andb].
    destruct (bool_decide (rol p = SeedHolder) && _).
    { destruct (PairingWire.decodeRequest _); apply emits_new; emits_tac. }
    unfold bind at 1, ret at 1.
    destruct (bool_decide (rol p = NewDeviceQr)) eqn:Eq; cbn [andb].
    + apply bool_decide_eq_true in Eq. unfold qrShowLive in Hl.
      rewrite bool_decide_true in Hl by done. apply bool_decide_eq_false, dec_stable in Hl.
      destruct (bool_decide _); [|apply emits_new; emits_tac].
      unfold bind. rewrite onQrGrant_none by done. apply emits_new; emits_tac.
    + apply emits_new; emits_tac.
Qed.

(** ** Opening a window *)

(** A dependency that returns a value satisfying [P], whatever the host's state. *)
Definition returns {A} (m : M W A) (P : A -> Prop) : Prop :=
  forall w, exists a w', m w = (Ok a, w') /\ P a.

(** A seed-holder's dependencies do what they are for: the account key [A] is 32 bytes, random
    bytes have the length asked for, epochs are 32-bit. *)
Record seed_holder (A : bytes) : Prop := {
  sh_key : bytes_ok A /\ length A = 32%nat;
  sh_account : returns p_accountKeyHex (fun k => k = bytesToHex A);
  sh_random : forall n, returns (p_random n) (fun b => length b = n /\ bytes_ok b);
  sh_epoch : returns p_mintEpoch (fun e => 0 <= e < 2 ^ 32)
}.

Lemma account_key_nonempty A : length A = 32%nat -> bytesToHex A <> "".
Proof.
  intros L E. pose proof (length_bytesToHex A) as H. rewrite E, L in H. done.
Qed.

(** The state of a seed-holder whose window has just opened. *)
Definition opened (m : string) (nonce : bytes) (e : Z) (k : nat) (p : Prov) : Prov :=
  set_windowHandle (Some k) (set_pending None (set_seenRequests [] (set_certEpoch e
    (set_sessionNonce (Some nonce) (set_provMailbox m (set_role SeedHolder p)))))).

Lemma cancelQrShow_noop p h :
  rol p <> NewDeviceQr -> qrShowHandle p = None -> cancelQrShow (p, h) = (Ok tt, (p, h)).
Proof.
  intros Hq Hh. unfold cancelQrShow. rewrite bind_self, Hh, decide_False by done. reflexivity.
Qed.

Lemma openWindow_run A m p h :
  seed_holder A -> rol p <> NewDeviceQr -> qrShowHandle p = None ->
  exists nonce e f w,
    openWindow m (p, h) =
      (Ok tt, (opened m nonce e (nextHandle h) p,
               MkHost (log h ++ [Subscribe m; Publish m f; Push EvWindowOpen])
                      (timers h ++ [(nextHandle h, TWindow)]) (S (nextHandle h)) w)) /\
    length nonce = 32%nat /\ bytes_ok nonce /\ 0 <= e < 2 ^ 32 /\
    PairingWire.encodeChallenge (PairingWire.MkChallenge nonce e A) = Ok f.
Proof.
  intros [[BA LA] Ha Hr He] Hq Hh.
  destruct (Ha (world h)) as (k & w1 & E1 & ->).
  destruct (Hr 32%nat w1) as (nonce & w2 & E2 & Ln & Bn).
  destruct (He w2) as (e & w3 & E3 & Re).
  assert (Hok : PairingWire.challenge_ok (PairingWire.MkChallenge nonce e A)) by done.
  destruct (PairingWire.challenge_roundtrip _ Hok) as (f & Ef & _).
  exists nonce, e, f, w3. split; [|done].
  unfold openWindow, bind at 1. rewrite cancelQrShow_noop by done.
  unfold bind, dep, update, effect_, push, schedule, modify, of_result, effect_.
  rewrite E1. cbn [world log timers nextHandle].
  rewrite bool_decide_false by by apply account_key_nonempty.
  cbn. rewrite E2. cbn. rewrite E3. cbn. rewrite hexToBytes_bytesToHex by done. rewrite Ef.
  unfold modify. cbn. by rewrite <-!app_assoc.
Qed.

(** ** A window that was opened twice

    [openWindow] does not cancel the timer of a window that is already open. *)

Lemma run_two m s : run [OOpenWindow m; OOpenWindow m] s = (openWindow m (openWindow m s).2).2.
Proof. reflexivity. Qed.

Lemma closeWindow_idle p h :
  rol p = SeedHolder ->
  rol (closeWindow (p, h)).2.1 = Idle /\ sessionNonce (closeWindow (p, h)).2.1 = None.
Proof.
  intros E. unfold closeWindow. rewrite bind_self, E. cbn [negb bool_decide].
  by destruct (windowHandle p).
Qed.

Lemma fire_window i k p h :
  list_find (fun x => x.1 = k) (timers h) = Some (i, (k, TWindow)) -> rol p = SeedHolder ->
  rol (fire k (p, h)).2.1 = Idle /\ sessionNonce (fire k (p, h)).2.1 = None.
Proof. intros E Hr. unfold fire. rewrite E. by apply closeWindow_idle. Qed.

Lemma fire_first_window m n1 e1 n2 e2 l w :
  let s := (opened m n2 e2 1 (opened m n1 e1 0 initial),
            MkHost l ([] ++ [(0%nat, TWindow)] ++ [(1%nat, TWindow)]) 2 w) : St in
  rol s.1 = SeedHolder /\ windowHandle s.1 = Some 1%nat /\
  timers s.2 = [(0%nat, TWindow); (1%nat, TWindow)] /\
  rol (exec (OFire 0) s).2.1 = Idle /\ sessionNonce (exec (OFire 0) s).2.1 = None.
Proof.
  cbn zeta. split; [reflexivity|]. split; [reflexivity|]. split; [reflexivity|].
  apply (fire_window 0 0); reflexivity.
Qed.

(** Opening a window again while one is open leaves the first window's timer running: when
    that timer fires, it closes the second window, although the second window's own timer is
    still pending. *)
Theorem reopened_window_closes_early A m h :
  seed_holder A -> timers h = [] -> nextHandle h = 0%nat ->
  let s := run [OOpenWindow m; OOpenWindow m] (initial, h) in
  rol s.1 = SeedHolder /\ windowHandle s.1 = Some 1%nat /\
  timers s.2 = [(0%nat, TWindow); (1%nat, TWindow)] /\
  rol (exec (OFire 0) s).2.1 = Idle /\ sessionNonce (exec (OFire 0) s).2.1 = None.
Proof.
  intros Hsh Ht Hn. cbn zeta. rewrite run_two.
  destruct (openWindow_run A m initial h Hsh ltac:(done) eq_refl) as (n1 & e1 & f1 & w1 & E1 & _).
  rewrite E1. cbn [snd].
  destruct (openWindow_run A m (opened m n1 e1 (nextHandle h) initial)
    (MkHost (log h ++ [Subscribe m; Publish m f1; Push EvWindowOpen])
            (timers h ++ [(nextHandle h, TWindow)]) (S (nextHandle h)) w1) Hsh ltac:(done) eq_refl)
    as (n2 & e2 & f2 & w2 & E2 & _).
  rewrite E2. cbn [snd fst]. rewrite Ht, Hn. apply fire_first_window.
Qed.
End provisioning.

(** ** The six-word ceremony, end to end *)

#[local] Arguments PairingWire.encodeRequest : simpl never.
#[local] Arguments PairingWire.encodeChallenge : simpl never.
#[local] Arguments PairingWire.encodeGrant : simpl never.
#[local] Arguments PairingWire.decodeGrant : simpl never.
#[local] Arguments Sas.renderSasHex : simpl never.
#[local] Arguments grant_of_hex : simpl never.
#[local] Arguments hexToBytes : simpl never.
#[local] Arguments bytesToHex : simpl never.

Section ceremony.
Context {W1 W2 : Type} {D1 : ProvDeps W1} {D2 : ProvDeps W2}.

(** The relay hands the last published frame to the other device. *)
Definition last_publish (l : list effect) : option (string * bytes) :=
  foldl (fun o e => match e with Publish k f => Some (k, f) | _ => o end) None l.

Definition relay {W} {D : ProvDeps W} (l : list effect) (s : Prov * Host W) : Prov * Host W :=
  match last_publish l with
  | Some (k, f) => (handle (MkFrame [] k f) s).2
  | None => s
  end.

(** The new device joins, the seed-holder opens a window, the challenge and the request cross,
    the user confirms, and the grant is delivered. *)
Definition ceremony (m : string) (s1 : Prov * Host W1) (s2 : Prov * Host W2) :
  (Prov * Host W1) * (Prov * Host W2) :=
  let s2 := (startJoin m s2).2 in
  let s1 := (openWindow m s1).2 in
  let s2 := relay (log s1.2) s2 in
  let s1 := relay (log s2.2) s1 in
  let s1 := (confirm s1).2 in
  let s2 := relay (log s1.2) s2 in
  (s1, s2).

(** The account key [A], the new device's key [K], the rendezvous mailbox [m], the digest both devices
    compute and the certificate the core of the seed-holder makes.  A random reply mailbox is not the
    rendezvous. *)
Context (A K : bytes) (m : string) (sas : string -> string -> string -> Z -> string).
Context (certificate : string -> Z -> string -> string -> bytes).

Record new_device : Prop := {
  nd_key : bytes_ok K /\ length K = 32%nat;
  nd_device : returns (p_deviceKeyHex (W := W2)) (fun k => k = bytesToHex K);
  nd_random : forall n, returns (p_random (W := W2) n)
    (fun b => length b = n /\ bytes_ok b /\ bytesToHex b <> m);
  nd_sas : forall n a d e, returns (p_sasDigestHex (W := W2) n a d e) (fun s => s = sas n a d e);
  nd_adopt : forall a e c, returns (p_adoptCertificate (W := W2) a e c) (fun _ => True)
}.

Record granting_seed_holder : Prop := {
  gs_seed : seed_holder (W := W1) A;
  gs_sas : forall n a d e, returns (p_sasDigestHex (W := W1) n a d e) (fun s => s = sas n a d e);
  gs_authorize : forall d e n s, 0 <= e < 2 ^ 32 ->
    let C := certificate d e n s in
    length C = 64%nat /\ bytes_ok C /\
    returns (p_authorizeDevice (W := W1) d e n s) (fun g => g = bytesToHex (A ++ be32 0 ++ be32 e ++ C))
}.

Definition renders : Prop := forall n a d e, exists words, Sas.renderSasHex (sas n a d e) = Ok words.

(** The new device answers a challenge. *)
Definition answered (apk nonceHex rm : string) (e : Z) (dk : string) : Prov :=
  MkProv NewDevice m None "" None None 0 None [] None dk apk rm nonceHex e.

Lemma startJoin_run (h : Host W2) :
  new_device -> exists w,
    startJoin m (initial, h) =
      (Ok tt, (answered "" "" "" 0 (bytesToHex K),
               MkHost (log h ++ [Subscribe m; Push EvWaiting]) (timers h) (nextHandle h) w)).
Proof.
  intros [_ Hd _ _ _]. destruct (Hd (world h)) as (k & w & E & ->). exists w.
  unfold startJoin, bind at 1. rewrite cancelQrShow_noop by done.
  unfold bind, dep, update, effect_, push, effect_, modify.
  cbn. rewrite E. cbn. by rewrite <-app_assoc.
Qed.

Lemma challenge_run f nonce e (h : Host W2) :
  new_device -> renders -> length A = 32%nat -> length nonce = 32%nat ->
  0 <= e < 2 ^ 32 ->
  PairingWire.encodeChallenge (PairingWire.MkChallenge nonce e A) = Ok f ->
  exists rm rid f' words w,
    handle (MkFrame [] m f) (answered "" "" "" 0 (bytesToHex K), h) =
      (Ok true, (answered (bytesToHex A) (bytesToHex nonce) (bytesToHex rm) e (bytesToHex K),
        MkHost (log h ++ [Subscribe (bytesToHex rm); Publish m f'; Push (EvShowCode words)])
               (timers h) (nextHandle h) w)) /\
    length rm = 32%nat /\ bytes_ok rm /\ bytesToHex rm <> m /\ length rid = 16%nat /\
    PairingWire.encodeRequest (PairingWire.MkRequest nonce K rm rid) = Ok f' /\
    Sas.renderSasHex (sas (bytesToHex nonce) (bytesToHex A) (bytesToHex K) e) = Ok words.
Proof.
  intros [[BK LK] Hd Hr Hs _] Hw LA Ln Re Ef.
  destruct (PairingWire.challenge_roundtrip (PairingWire.MkChallenge nonce e A)) as (f0 & E0 & _ & Dc & _); [done|].
  rewrite Ef in E0. injection E0 as <-.
  destruct (Hr 32%nat (world h)) as (rm & w1 & E1 & Lr & Br & Nr).
  destruct (Hr 16%nat w1) as (rid & w2 & E2 & Li & Bi & _).
  destruct (Hs (bytesToHex nonce) (bytesToHex A) (bytesToHex K) e w2) as (d & w3 & E3 & ->).
  destruct (Hw (bytesToHex nonce) (bytesToHex A) (bytesToHex K) e) as [words Ew].
  destruct (PairingWire.request_roundtrip (PairingWire.MkRequest nonce K rm rid)) as (f' & Ef' & _); [done|].
  exists rm, rid, f', words, w3. split; [|done].
  unfold handle. rewrite bind_self. cbn [fr_routingKey fr_payload rol provMailbox answered].
  rewrite (bool_decide_false (NewDevice = SeedHolder)), !bool_decide_true by done. cbn [andb].
  unfold bind at 1, of_result at 1. rewrite Dc. unfold bind at 1.
  unfold onChallenge. rewrite bind_self. cbn [accountPub answered]. rewrite bool_decide_true by done.
  cbn [negb PairingWire.ch_accountPubKey PairingWire.ch_sessionNonce PairingWire.ch_certEpoch].
  cbn zeta. unfold bind, update, modify, dep, of_result, push, effect_, ret. cbn.
  rewrite E1. cbn. rewrite E2. cbn. rewrite E3. cbn.
  rewrite !hexToBytes_bytesToHex by done. rewrite Ef'. cbn. rewrite Ew. cbn.
  by rewrite <-!app_assoc.
Qed.

Lemma request_run nonce e k rm rid f (h : Host W1) :
  granting_seed_holder -> renders -> bytes_ok K -> length K = 32%nat -> bytes_ok rm -> length rm = 32%nat ->
  length rid = 16%nat -> length nonce = 32%nat ->
  PairingWire.encodeRequest (PairingWire.MkRequest nonce K rm rid) = Ok f ->
  exists words w,
    let digest := sas (bytesToHex nonce) (bytesToHex A) (bytesToHex K) e in
    handle (MkFrame [] m f) (opened m nonce e k initial, h) =
      (Ok true, (set_pending (Some (MkPending K rm digest))
                   (set_seenRequests [bytesToHex rid] (opened m nonce e k initial)),
        MkHost (log h ++ [Ack []; Push (EvConfirmDevice words)]) (timers h) (nextHandle h) w)) /\
    Sas.renderSasHex digest = Ok words.
Proof.
  intros [Hsh Hs _] Hw BK LK Br Lr Li Ln Ef.
  destruct (PairingWire.request_roundtrip (PairingWire.MkRequest nonce K rm rid)) as (f0 & E0 & _ & Dr & _); [done|].
  rewrite Ef in E0. injection E0 as <-.
  destruct (sh_account _ Hsh (world h)) as (apk & w1 & E1 & ->).
  destruct (Hs (bytesToHex nonce) (bytesToHex A) (bytesToHex K) e w1) as (d & w2 & E2 & ->).
  destruct (Hw (bytesToHex nonce) (bytesToHex A) (bytesToHex K) e) as [words Ew].
  exists words, w2. cbn zeta. split; [|done].
  unfold handle. rewrite bind_self. cbn [fr_routingKey fr_payload].
  rewrite !bool_decide_true by done. cbn [andb]. rewrite Dr. unfold bind at 1.
  unfold onRequest. rewrite bind_self. cbn [sessionNonce opened set_windowHandle set_pending
    set_seenRequests set_certEpoch set_sessionNonce].
  rewrite bool_decide_true by done. cbn [negb PairingWire.rq_requestId]. cbn zeta.
  rewrite bool_decide_false by (apply not_elem_of_nil).
  unfold bind, update, modify, dep, of_result, push, effect_, ret. cbn.
  rewrite E1. cbn. rewrite E2. cbn. rewrite Ew. cbn. by rewrite <-!app_assoc.
Qed.

Lemma grant_of_hex_spec e C nonce :
  bytes_ok A -> length A = 32%nat -> bytes_ok C -> length C = 64%nat -> 0 <= e < 2 ^ 32 ->
  grant_of_hex (bytesToHex (A ++ be32 0 ++ be32 e ++ C)) nonce = PairingWire.MkGrant A e C nonce.
Proof.
  intros BA LA BC LC Re. unfold grant_of_hex. f_equal.
  - pose proof (substring_hex [] A (be32 0 ++ be32 e ++ C) 0 64 eq_refl ltac:(by rewrite LA)) as E.
    cbn [app] in E. rewrite E. by apply hexToBytes_bytesToHex.
  - pose proof (substring_hex (A ++ be32 0) (be32 e) C 72 8
      ltac:(by rewrite length_app, LA) eq_refl) as E.
    rewrite <-app_assoc in E. rewrite E. by rewrite parseInt16_be32.
  - pose proof (substring_hex (A ++ be32 0 ++ be32 e) C [] 80 128
      ltac:(by rewrite !length_app, LA) ltac:(by rewrite LC)) as E.
    rewrite app_nil_r, <-!app_assoc in E.
    rewrite length_bytesToHex, !length_app, LA, LC. rewrite !length_be32.
    match goal with |- context [String.substring 80 ?n _] => change n with 128%nat end. rewrite E.
    by apply hexToBytes_bytesToHex.
Qed.

Lemma closeWindow_run {W} {D : ProvDeps W} p (h : Host W) :
  rol p = SeedHolder -> exists p' h',
    closeWindow (p, h) = (Ok tt, (p', h')) /\ rol p' = Idle /\
    log h' = log h ++ [Push EvWindowClosed].
Proof.
  intros E. unfold closeWindow. rewrite bind_self, E. cbn [negb bool_decide].
  destruct (windowHandle p); eexists _, _; by repeat split.
Qed.

Lemma confirm_run nonce e k rm reqs digest (h : Host W1) :
  granting_seed_holder -> length nonce = 32%nat -> 0 <= e < 2 ^ 32 ->
  let C := certificate (bytesToHex K) e (bytesToHex nonce) digest in
  exists f p' h',
    confirm (set_pending (Some (MkPending K rm digest))
               (set_seenRequests reqs (opened m nonce e k initial)), h) = (Ok tt, (p', h')) /\
    rol p' = Idle /\ length C = 64%nat /\ bytes_ok C /\
    log h' = log h ++ [Authorize (bytesToHex K) e (bytesToHex nonce) digest;
                       Publish (bytesToHex rm) f; Push (EvDeviceAdded (bytesToHex K));
                       Push EvWindowClosed] /\
    PairingWire.encodeGrant (PairingWire.MkGrant A e C nonce) = Ok f.
Proof.
  intros [[[BA LA] _ _ _] _ Hg] Ln Re C.
  destruct (Hg (bytesToHex K) e (bytesToHex nonce) digest Re) as (LC & BC & Hret). fold C in LC, BC, Hret.
  destruct (Hret (world h)) as (g & w & E & ->).
  destruct (PairingWire.grant_roundtrip (PairingWire.MkGrant A e C nonce)) as (f & Ef & _); [done|].
  unfold confirm. rewrite bind_self.
  cbn [rol pending sessionNonce set_pending set_seenRequests opened set_windowHandle set_certEpoch
       set_sessionNonce set_provMailbox set_role pd_deviceKey pd_replyMailbox pd_sasDigestHex certEpoch].
  unfold bind at 1, effect_ at 1, modify.
  unfold bind at 1, try_catch, bind at 1, dep. cbn [world log timers nextHandle]. rewrite E.
  unfold ret at 1. unfold bind at 1, of_result. rewrite grant_of_hex_spec, Ef by done.
  unfold bind at 1, effect_ at 1, modify. unfold bind at 1, push, effect_ at 1, modify.
  match goal with |- context [closeWindow (?p, ?h')] =>
    destruct (closeWindow_run p h' eq_refl) as (p' & h'' & Ec & Rp & Lh) end.
  exists f, p', h''. rewrite Ec. split; [done|]. split; [done|]. split; [done|]. split; [done|].
  split; [|done]. rewrite Lh. cbn [log]. by rewrite <-!app_assoc.
Qed.

Lemma grant_run rm e C nonce f (h : Host W2) :
  new_device -> bytesToHex rm <> m -> length A = 32%nat -> length nonce = 32%nat ->
  length C = 64%nat -> 0 <= e < 2 ^ 32 ->
  PairingWire.encodeGrant (PairingWire.MkGrant A e C nonce) = Ok f ->
  exists p' h',
    handle (MkFrame [] (bytesToHex rm) f)
      (answered (bytesToHex A) (bytesToHex nonce) (bytesToHex rm) e (bytesToHex K), h) =
      (Ok true, (p', h')) /\ rol p' = Idle /\
    log h' = log h ++ [Adopt (bytesToHex A) e (bytesToHex C); Ack [];
                       Push (EvAuthorized (bytesToHex A))].
Proof.
  intros [_ _ _ _ Ha] Nr LA Ln LC Re Ef.
  destruct (PairingWire.grant_roundtrip (PairingWire.MkGrant A e C nonce)) as (f0 & E0 & _ & Dg & _); [done|].
  rewrite Ef in E0. injection E0 as <-.
  destruct (Ha (bytesToHex A) e (bytesToHex C) (world h)) as (u & w & E & _).
  unfold handle. rewrite bind_self. cbn [fr_routingKey fr_payload rol provMailbox replyMailbox answered].
  rewrite (bool_decide_false (NewDevice = SeedHolder)), (bool_decide_false (_ = m)) by done.
  rewrite !bool_decide_true by done. cbn [andb]. unfold bind at 1, of_result. rewrite Dg.
  unfold bind at 1. unfold onGrant. rewrite bind_self.
  cbn [PairingWire.gr_sessionNonce PairingWire.gr_accountPubKey PairingWire.gr_certEpoch
       PairingWire.gr_cert joinNonceHex accountPub answered].
  rewrite !bool_decide_true by done. cbn [negb orb].
  unfold adopt, bind, effect_, modify, try_catch, dep. cbn [world log timers nextHandle]. rewrite E.
  cbn. eexists _, _. split; [done|]. split; [done|]. by rewrite <-!app_assoc.
Qed.

Lemma last_publish_app l k f l' :
  Forall (fun e => match e with Publish _ _ => False | _ => True end) l' ->
  last_publish (l ++ Publish k f :: l') = Some (k, f).
Proof.
  intros H. unfold last_publish. rewrite foldl_app. cbn [foldl].
  induction H as [|e l' He Hl IH]; [done|]. cbn [foldl]. by destruct e.
Qed.

Lemma relay_publish {W} {D : ProvDeps W} l l0 k f l' (s : Prov * Host W) :
  l = l0 ++ Publish k f :: l' ->
  Forall (fun e => match e with Publish _ _ => False | _ => True end) l' ->
  relay l s = (handle (MkFrame [] k f) s).2.
Proof. intros -> H. unfold relay. by rewrite last_publish_app. Qed.

(** C3. The six-word ceremony works end to end.  A seed-holder and a new device whose host
    functions do what they are for exchange the three frames through a relay: both screens show
    the same words, the seed-holder certifies exactly the new device's key with the code behind
    those words, and the new device adopts exactly the certificate that the seed-holder's core
    made in that call, under the account key it was shown; both machines end idle. *)
Theorem ceremony_succeeds (h1 : Host W1) (h2 : Host W2) :
  granting_seed_holder -> new_device -> renders ->
  let '(s1, s2) := ceremony m (initial, h1) (initial, h2) in
  exists words nonce epoch,
    let digest := sas (bytesToHex nonce) (bytesToHex A) (bytesToHex K) epoch in
    Sas.renderSasHex digest = Ok words /\
    Push (EvConfirmDevice words) ∈ log s1.2 /\ Push (EvShowCode words) ∈ log s2.2 /\
    Authorize (bytesToHex K) epoch (bytesToHex nonce) digest ∈ log s1.2 /\
    Adopt (bytesToHex A) epoch (bytesToHex (certificate (bytesToHex K) epoch (bytesToHex nonce) digest)) ∈ log s2.2 /\
    Push (EvDeviceAdded (bytesToHex K)) ∈ log s1.2 /\
    Push (EvAuthorized (bytesToHex A)) ∈ log s2.2 /\
    rol s1.1 = Idle /\ rol s2.1 = Idle.
Proof.
  intros Hg Hn Hw. pose proof Hg as [Hsh _ _]. pose proof (sh_key _ Hsh) as [BA LA].
  pose proof (nd_key Hn) as [BK LK].
  unfold ceremony. destruct (startJoin_run h2 Hn) as (w0 & ->). cbn [snd].
  destruct (openWindow_run A m initial h1 Hsh ltac:(done) eq_refl)
    as (nonce & e & fc & w1 & -> & Ln & Bn & Re & Efc).
  cbn [snd log].
  rewrite (relay_publish (log h1 ++ [Subscribe m; Publish m fc; Push EvWindowOpen])
    (log h1 ++ [Subscribe m]) m fc [Push EvWindowOpen])
    by first [by rewrite <-?app_assoc | by repeat constructor].
  match goal with |- context [handle _ (answered _ _ _ _ _, ?h)] =>
    destruct (challenge_run fc nonce e h Hn Hw LA Ln Re Efc)
      as (rm & rid & fr & words & w2 & -> & Lr & Br & Nr & Li & Efr & Ew) end.
  cbn [snd log].
  rewrite (relay_publish ((log h2 ++ [Subscribe m; Push EvWaiting]) ++
      [Subscribe (bytesToHex rm); Publish m fr; Push (EvShowCode words)])
    ((log h2 ++ [Subscribe m; Push EvWaiting]) ++ [Subscribe (bytesToHex rm)]) m fr
    [Push (EvShowCode words)]) by first [by rewrite <-?app_assoc | by repeat constructor].
  match goal with |- context [handle _ (opened _ _ _ _ _, ?h)] =>
    destruct (request_run nonce e (nextHandle h1) rm rid fr h Hg Hw BK LK Br Lr Li Ln Efr)
      as (words' & w3 & -> & Ew') end.
  rewrite Ew in Ew'. injection Ew' as <-. cbn [snd].
  match goal with |- context [confirm (_, ?h)] =>
    destruct (confirm_run nonce e (nextHandle h1) rm [bytesToHex rid]
      (sas (bytesToHex nonce) (bytesToHex A) (bytesToHex K) e) h Hg Ln Re)
      as (fg & p1 & h1' & -> & R1 & LC & BC & L1 & Efg) end.
  set (C := certificate _ _ _ _) in *.
  cbn [snd]. rewrite L1. cbn [log].
  match goal with |- context [relay (?l ++ [?a; ?b; ?c; ?d]) (answered _ _ _ _ _, _)] =>
    rewrite (relay_publish (l ++ [a; b; c; d]) (l ++ [a]) (bytesToHex rm) fg [c; d])
      by first [by rewrite <-?app_assoc | by repeat constructor] end.
  match goal with |- context [handle _ (answered _ _ _ _ _, ?h)] =>
    destruct (grant_run rm e C nonce fg h Hn Nr LA Ln LC Re Efg) as (p2 & h2' & -> & R2 & L2) end.
  exists words, nonce, e. cbn [snd fst]. rewrite L2. cbn [log].
  split_and!; try done; rewrite ?elem_of_app; set_solver.
Qed.
End ceremony.

(** ** Hosts to evaluate on

    A counter stands for the random source; the digest depends on everything it should. *)
Module Toy.
Definition A : bytes := replicate 32 7.
Definition K : bytes := replicate 32 9.
Definition certificate (d : string) (e : Z) (n s : string) : bytes :=
  take 64 (text_encode (s +:+ d) ++ be32 e ++ replicate 64 5).

Definition sas (nonce apk dk : string) (epoch : Z) : string :=
  bytesToHex (take 32 (text_encode (dk +:+ apk +:+ nonce) ++ be32 epoch ++ replicate 32 0)).

Definition deps (account : string) : ProvDeps nat := {|
  p_accountKeyHex := ret account;
  p_deviceKeyHex := ret (bytesToHex K);
  p_sasDigestHex n a d e := ret (sas n a d e);
  p_authorizeDevice d e n s := ret (bytesToHex (A ++ be32 0 ++ be32 e ++ certificate d e n s));
  p_adoptCertificate _ _ _ := ret tt;
  p_random n := fun w => (Ok (replicate n (Z.of_nat w mod 256)), S w);
  p_mintEpoch := ret 3;
  p_ephemeralKeypair := Some (ret (replicate 64 1));
  p_seal := Some (fun _ g => ret g);
  p_open := Some (fun _ b => ret b);
  p_authorizeScanned := Some (fun _ e => ret (A ++ be32 0 ++ be32 e ++ replicate 64 5));
  p_sha256 := fun b => take 32 (b ++ replicate 32 0);
  p_rangeMessage := "out of range"
|}.

Definition seed : ProvDeps nat := deps (bytesToHex A).
Definition fresh : ProvDeps nat := deps "".
Definition host : Host nat := MkHost [] [] 0 1%nat.

Lemma renders_ok : renders sas.
Proof.
  intros n a d e. unfold Sas.renderSasHex, Sas.renderSas, Sas.renderSasWords.
  assert (L : length (hexToBytes (sas n a d e)) = 32%nat).
  { unfold hexToBytes. rewrite length_hex_pairs, length_list_ascii. unfold sas.
    rewrite length_bytesToHex, length_take, !length_app, length_replicate.
    rewrite Nat.mul_comm, Nat.div_mul by lia. lia. }
  rewrite L. by eexists.
Qed.

Lemma random_ok w n : length (replicate n (Z.of_nat w mod 256)) = n /\
  bytes_ok (replicate n (Z.of_nat w mod 256)).
Proof.
  split; [apply length_replicate|]. apply Forall_replicate.
  unfold byte_ok. apply Z.mod_pos_bound. lia.
Qed.

Lemma seed_holder_ok : seed_holder (D := seed) A.
Proof.
  split.
  - split; [by apply bytes_okb_ok | done].
  - intros w. by eexists _, _.
  - intros n w. eexists _, _. split; [done | apply random_ok].
  - intros w. by eexists _, _.
Qed.

Lemma certificate_ok d e n s : length (certificate d e n s) = 64%nat /\ bytes_ok (certificate d e n s).
Proof.
  unfold certificate. split.
  - rewrite length_take, !length_app, length_replicate. lia.
  - apply Forall_take, Forall_app. split; [apply text_encode_ok|].
    apply Forall_app. split; [apply be32_ok|]. by apply Forall_replicate.
Qed.

Lemma granting_ok : granting_seed_holder (D1 := seed) A sas certificate.
Proof.
  split.
  - apply seed_holder_ok.
  - intros n a d e w. by eexists _, _.
  - intros d e n s He C. destruct (certificate_ok d e n s) as [L B].
    split; [exact L|]. split; [exact B|]. intros w. by eexists _, _.
Qed.

Lemma new_device_ok : new_device (D2 := fresh) K "meeting" sas.
Proof.
  split.
  - split; [by apply bytes_okb_ok | done].
  - intros w. by eexists _, _.
  - intros n w. eexists _, _. split; [done|]. destruct (random_ok w n) as [L B].
    split; [done|]. split; [done|]. intros E.
    pose proof (length_bytesToHex (replicate n (Z.of_nat w mod 256))) as H.
    rewrite E in H. cbn in H. lia.
  - intros n a d e w. by eexists _, _.
  - intros a e c w. by eexists _, _.
Qed.
End Toy.

Lemma ceremony_succeeds_witness :
  let '(s1, s2) := ceremony (D1 := Toy.seed) (D2 := Toy.fresh) "meeting"
                     (initial, Toy.host) (initial, Toy.host) in
  exists words, Push (EvConfirmDevice words) ∈ log s1.2 /\ Push (EvShowCode words) ∈ log s2.2.
Proof.
  pose proof (ceremony_succeeds (D1 := Toy.seed) (D2 := Toy.fresh) Toy.A Toy.K "meeting" Toy.sas
    Toy.certificate Toy.host Toy.host Toy.granting_ok Toy.new_device_ok Toy.renders_ok) as H.
  destruct (ceremony _ _ _) as [s1 s2]. destruct H as (words & nonce & e & _ & H1 & H2 & _).
  exists words. exact (conj H1 H2).
Defined.

Lemma reopened_window_closes_early_witness :
  rol (exec (D := Toy.seed) (OFire 0)
         (run (D := Toy.seed) [OOpenWindow "meeting"; OOpenWindow "meeting"] (initial, Toy.host))).2.1 = Idle.
Proof.
  apply (reopened_window_closes_early (D := Toy.seed) Toy.A "meeting" Toy.host Toy.seed_holder_ok);
    reflexivity.
Defined.

(** A new device asks in the open window and the user confirms. *)
Definition asked : bytes :=
  match PairingWire.encodeRequest
    (PairingWire.MkRequest (replicate 32 1) Toy.K (replicate 32 8) (replicate 16 4)) with
  | Ok b => b
  | Throw _ => []
  end.
Definition certified : list op :=
  [OOpenWindow "meeting"; OHandle (MkFrame [1] "meeting" asked); OConfirm].
Definition certified_log : list effect := log (run (D := Toy.seed) certified (initial, Toy.host)).2.

Lemma certifies_only_what_the_user_saw_witness :
  let nonce := bytesToHex (replicate 32 1) in let key := bytesToHex Toy.K in
  let sas := Toy.sas nonce (bytesToHex Toy.A) key 3 in
  (exists words, last_confirm (take 5 certified_log) = Some words /\ Sas.renderSasHex sas = Ok words) /\
  exists env req, OHandle env ∈ certified /\ PairingWire.decodeRequest (fr_payload env) = Some req /\
    key = bytesToHex (PairingWire.rq_deviceSigKey req).
Proof.
  destruct (certifies_only_what_the_user_saw (D := Toy.seed) certified Toy.host) as [H _].
  - intros n a d e w x w' E. injection E as <- _. apply Toy.renders_ok.
  - split; [intros n w|intros w]; by eexists _, _.
  - reflexivity.
  - destruct (H (bytesToHex Toy.K) 3 (bytesToHex (replicate 32 1))
      (Toy.sas (bytesToHex (replicate 32 1)) (bytesToHex Toy.A) (bytesToHex Toy.K) 3)
      (take 5 certified_log) (drop 6 certified_log)) as [H1 H2]; [vm_compute; reflexivity|].
    split; [exact H1|]. destruct H2 as (env & req & apk & n & e & w0 & w1 & w2 & w3 & A1 & A2 & A3 & _).
    by exists env, req.
Defined.

Lemma qr_secret_one_shot_witness :
  qrShowLive initial = false /\
  exists new, log (handle (D := Toy.seed) (MkFrame [] "x" []) (initial, Toy.host)).2.2 = new /\
    Forall not_adoption new.
Proof.
  split; [reflexivity|].
  destruct (qr_secret_one_shot (D := Toy.seed) initial Toy.host) as (_ & _ & _ & _ & _ & H).
  apply (H (MkFrame [] "x" [])); [reflexivity | discriminate].
Defined.
End Provisioning.
