(* ===== verification/Vault.v ===== *)
(** * The message vault (client/src/vault.ts)

    A stored message is sealed under its own key, which is wrapped under the master store key.
    The AEAD (AES-256-GCM through WebCrypto) and the random source are classes; the laws of the
    AEAD that are used are stated separately. *)

From S2P Require Import Prelude Session.

(** [crypto.subtle] for AES-GCM: [decrypt] rejects ([None]) what does not authenticate. *)
Class Aead (Key : Type) := {
  importKey : bytes -> Key;
  encrypt : Key -> bytes -> bytes -> bytes -> bytes;
  decrypt : Key -> bytes -> bytes -> bytes -> option bytes
}.

(** What AES-GCM guarantees: decryption with the same key, nonce and associated data gives the
    plaintext back, and a ciphertext shorter than the 16-byte tag is always rejected. *)
Class AeadLaws (Key : Type) `{Aead Key} := {
  decrypt_encrypt k iv aad p : decrypt k iv aad (encrypt k iv aad p) = Some p;
  decrypt_short k iv aad c : (length c < 16)%nat -> decrypt k iv aad c = None
}.

(** [crypto.getRandomValues(new Uint8Array(n))] *)
Class Random (W : Type) := randomBytes : nat -> M W bytes.

Inductive Direction := DirIn | DirOut.
Inductive LifetimeKind := KindBurn | KindDuration | KindUntilRevoked.

#[export] Instance direction_eq_dec : EqDecision Direction.
Proof. solve_decision. Defined.
#[export] Instance lifetime_kind_eq_dec : EqDecision LifetimeKind.
Proof. solve_decision. Defined.

(** [lifetime.kind] *)
Definition kind_of (l : Lifetime) : LifetimeKind :=
  match l with
  | BurnOnRead => KindBurn
  | Duration _ => KindDuration
  | UntilRevoked => KindUntilRevoked
  end.

Definition kind_name (k : LifetimeKind) : string :=
  match k with
  | KindBurn => "burn-on-read"
  | KindDuration => "duration"
  | KindUntilRevoked => "until-revoked"
  end.

Record VaultRecord := MkVaultRecord {
  messageId : string;
  conversationId : string;
  direction : Direction;
  lifetimeKind : LifetimeKind;
  expiresAtMs : option Z;
  durationSeconds : option Z;
  storedAtMs : Z;
  read : bool;
  ownAuthored : option bool;
  nonce : bytes;
  ciphertext : bytes;
  wrappedPmk : bytes;
  wrapNonce : bytes
}.

#[export] Instance vault_record_eq_dec : EqDecision VaultRecord.
Proof. solve_decision. Defined.

(** The [meta] argument of [seal]. *)
Record Meta := MkMeta {
  mt_messageId : string;
  mt_conversationId : string;
  mt_direction : Direction;
  mt_lifetime : Lifetime;
  mt_ownAuthored : option bool
}.

Module Vault.
Definition AEAD : string := "AES-GCM".

Definition aad (messageId conversationId lifetimeKind : string) : bytes :=
  text_encode (messageId +:+ "|" +:+ conversationId +:+ "|" +:+ lifetimeKind +:+ "|" +:+ AEAD)%string.

Definition expiryMs (lifetime : Lifetime) (nowMs : Z) : option Z :=
  match lifetime with Duration s => Some (nowMs + s * 1000) | _ => None end.

Definition armRecord (r : VaultRecord) (nowMs : Z) : VaultRecord :=
  match lifetimeKind r, expiresAtMs r, durationSeconds r with
  | KindDuration, None, Some s =>
      MkVaultRecord r.(messageId) r.(conversationId) r.(direction) r.(lifetimeKind)
        (Some (nowMs + s * 1000)) r.(durationSeconds) r.(storedAtMs) r.(read) r.(ownAuthored)
        r.(nonce) r.(ciphertext) r.(wrappedPmk) r.(wrapNonce)
  | _, _, _ => r
  end.

Section vault.
Context {Key W : Type} `{Aead Key} `{Random W}.

(** A rejected [decrypt] is an [OperationError]. *)
Definition subtle_decrypt (k : Key) (iv aad c : bytes) : result bytes :=
  match decrypt k iv aad c with Some p => Ok p | None => Throw (JsError "OperationError") end.

Definition seal (msk : Key) (meta : Meta) (framedPlaintext : bytes) (nowMs : Z) (arm : bool)
  : M W VaultRecord :=
  let! pmkBytes := randomBytes 32 in
  let pmk := importKey pmkBytes in
  let! nonce := randomBytes 12 in
  let kind := kind_of (mt_lifetime meta) in
  let additional := aad (mt_messageId meta) (mt_conversationId meta) (kind_name kind) in
  let ciphertext := encrypt pmk nonce additional framedPlaintext in
  let! wrapNonce := randomBytes 12 in
  let wrappedPmk := encrypt msk wrapNonce additional pmkBytes in
  ret (MkVaultRecord (mt_messageId meta) (mt_conversationId meta) (mt_direction meta) kind
         (if arm then expiryMs (mt_lifetime meta) nowMs else None)
         (match mt_lifetime meta with Duration s => Some s | _ => None end)
         nowMs false
         (Some (bool_decide (mt_direction meta = DirOut)
                || bool_decide (mt_ownAuthored meta = Some true)))
         nonce ciphertext wrappedPmk wrapNonce).

Definition open (msk : Key) (r : VaultRecord) : result bytes :=
  let additional := aad (messageId r) (conversationId r) (kind_name (lifetimeKind r)) in
  let? pmkBytes := subtle_decrypt msk (wrapNonce r) additional (wrappedPmk r) in
  subtle_decrypt (importKey pmkBytes) (nonce r) additional (ciphertext r).

Definition sealUnder (msk : Key) (plaintext : bytes) (label : string) : M W bytes :=
  let! nonce := randomBytes 12 in
  let ciphertext := encrypt msk nonce (text_encode label) plaintext in
  ret (nonce ++ ciphertext).

Definition openUnder (msk : Key) (sealed : bytes) (label : string) : result bytes :=
  if (length sealed <? 12)%nat then Throw (JsError "sealed blob too short") else
  subtle_decrypt msk (u8_slice 0 12 sealed) (text_encode label) (drop 12 sealed).
End vault.

(** [tombstone] of lifetime.ts: a read burn message, with its key and ciphertext destroyed. *)
Definition tombstone (r : VaultRecord) : VaultRecord :=
  MkVaultRecord r.(messageId) r.(conversationId) r.(direction) r.(lifetimeKind) r.(expiresAtMs)
    r.(durationSeconds) r.(storedAtMs) true r.(ownAuthored) [] [] [] [].

(** ** Sealing and opening *)

Lemma seal_messageId {Key W} `{Aead Key} `{Random W} (msk : Key) meta p now arm (w w' : W) r :
  seal msk meta p now arm w = (Ok r, w') -> messageId r = mt_messageId meta.
Proof. intros E. unfold seal in E. run_inv. unfold ret in E. by injection E as <- _. Qed.

Section laws.
Context {Key W : Type} `{AeadLaws Key} `{Random W}.

Lemma seal_inv (msk : Key) meta p now arm (w w' : W) r :
  seal msk meta p now arm w = (Ok r, w') ->
  open msk r = Ok p /\ messageId r = mt_messageId meta /\
  conversationId r = mt_conversationId meta /\ lifetimeKind r = kind_of (mt_lifetime meta) /\
  read r = false /\ storedAtMs r = now /\
  expiresAtMs r = (if arm then expiryMs (mt_lifetime meta) now else None) /\
  durationSeconds r = match mt_lifetime meta with Duration s => Some s | _ => None end.
Proof.
  intros E. unfold seal in E. run_inv. unfold ret in E. injection E as <- <-. split; [|done].
  unfold open, subtle_decrypt. cbn.
  rewrite decrypt_encrypt. cbn [rbind]. by rewrite decrypt_encrypt.
Qed.

Lemma open_armRecord (msk : Key) r now : open msk (armRecord r now) = open msk r.
Proof.
  unfold armRecord.
  destruct (lifetimeKind r) eqn:E1, (expiresAtMs r), (durationSeconds r); try done.
  unfold open. cbn. by rewrite E1.
Qed.

(** What is sealed opens: under the same store key a fresh record gives back exactly the
    framed plaintext, it is unread, and its expiry is the moment of storage plus the duration
    when it is stored armed, and unset otherwise. *)
Theorem open_seal (msk : Key) meta p now arm (w w' : W) r :
  seal msk meta p now arm w = (Ok r, w') ->
  open msk r = Ok p /\ read r = false /\
  expiresAtMs r = match mt_lifetime meta with
                  | Duration s => if arm then Some (now + s * 1000) else None
                  | _ => None
                  end /\
  (forall later, mt_lifetime meta = BurnOnRead \/ mt_lifetime meta = UntilRevoked \/ arm = true ->
     armRecord r later = r) /\
  (forall later s, mt_lifetime meta = Duration s -> arm = false ->
     expiresAtMs (armRecord r later) = Some (later + s * 1000) /\
     open msk (armRecord r later) = Ok p).
Proof.
  intros E. destruct (seal_inv msk meta p now arm w w' r E) as (Ho & _ & _ & Hk & Hr & _ & He & Hd).
  split; [done|]. split; [done|]. split.
  { rewrite He. by destruct arm, (mt_lifetime meta). }
  split.
  - unfold armRecord. rewrite Hk, He, Hd. intros later [-> | [-> | ->]]; try done.
    by destruct (mt_lifetime meta).
  - intros later s El ->. split; [|by rewrite open_armRecord].
    unfold armRecord. by rewrite Hk, He, Hd, El.
Qed.

(** A read burn message is forensically dead: once the record is a tombstone, no store key
    whatever opens it. *)
Theorem tombstone_unopenable (r : VaultRecord) (msk : Key) :
  read (tombstone r) = true /\ open msk (tombstone r) = Throw (JsError "OperationError").
Proof.
  split; [done|]. unfold open, subtle_decrypt, tombstone. cbn.
  by rewrite decrypt_short by (simpl; lia).
Qed.

(** At-rest metadata round trips: a blob sealed under the store key with a label opens with
    that key and label to the same bytes, provided the random source gives the bytes asked for. *)
Theorem openUnder_sealUnder (msk : Key) p label (w w' : W) sealed :
  (forall n w b w', randomBytes n w = (Ok b, w') -> length b = n) ->
  sealUnder msk p label w = (Ok sealed, w') -> openUnder msk sealed label = Ok p.
Proof.
  intros Hr E. unfold sealUnder in E. run_inv. apply Hr in H2. unfold ret in E. injection E as <- <-.
  unfold openUnder. rewrite (proj2 (Nat.ltb_ge _ _)) by (rewrite length_app; lia).
  unfold u8_slice. rewrite drop_0, take_app_length', drop_app_length' by lia.
  unfold subtle_decrypt. by rewrite decrypt_encrypt.
Qed.
End laws.

(** ** The associated data binds a record to its identity *)

Definition no_bar (s : string) : Prop := "|"%char ∉ String.list_ascii_of_string s.

Lemma split_at_bar (a b c d : list Ascii.ascii) :
  "|"%char ∉ a -> "|"%char ∉ b ->
  a ++ "|"%char :: c = b ++ "|"%char :: d -> a = b /\ c = d.
Proof.
  revert b. induction a as [|x a IH]; intros [|y b] Ha Hb E; simpl in E.
  - by injection E as ->.
  - injection E as <- E. set_solver.
  - injection E as -> E. set_solver.
  - injection E as -> E. destruct (IH b) as [-> ->]; [set_solver | set_solver | done | done].
Qed.

Lemma list_ascii_of_append s t :
  String.list_ascii_of_string (s +:+ t) =
  String.list_ascii_of_string s ++ String.list_ascii_of_string t.
Proof. induction s as [|c s IH]; [done|]. simpl. by rewrite IH. Qed.

Lemma text_encode_inj s t : text_encode s = text_encode t -> s = t.
Proof.
  intros E. rewrite <-(text_decode_bytes_encode s), E. apply text_decode_bytes_encode.
Qed.

Lemma kind_name_inj k k' : kind_name k = kind_name k' -> k = k'.
Proof. by destruct k, k'. Qed.

(** A sealed payload cannot be moved to another record: for identifiers without a bar (they
    are hexadecimal), equal associated data means the same message, the same conversation and
    the same kind of lifetime. *)
Theorem aad_injective m c k m' c' k' :
  no_bar m -> no_bar c -> no_bar m' -> no_bar c' ->
  aad m c (kind_name k) = aad m' c' (kind_name k') -> m = m' /\ c = c' /\ k = k'.
Proof.
  intros Hm Hc Hm' Hc' E. apply text_encode_inj in E.
  apply (f_equal String.list_ascii_of_string) in E.
  repeat rewrite list_ascii_of_append in E. cbn [String.list_ascii_of_string app] in E.
  apply split_at_bar in E as [Em E]; [|done..].
  apply split_at_bar in E as [Ec E]; [|done..].
  apply split_at_bar in E as [Ek _]; [| by destruct k; vm_compute; set_solver
                                       | by destruct k'; vm_compute; set_solver].
  split; [by apply string_of_list_inj|]. split; [by apply string_of_list_inj|].
  by apply kind_name_inj, string_of_list_inj.
Qed.

(** ** A concrete AEAD to evaluate on: the tag is sixteen zeros *)
Module Toy.
#[export] Instance aead : Aead bytes := {|
  importKey k := k;
  encrypt _ _ _ p := replicate 16 0 ++ p;
  decrypt _ _ _ c := if decide (16 <= length c)%nat then Some (drop 16 c) else None
|}.

#[export] Instance aead_laws : AeadLaws bytes.
Proof.
  split.
  - intros k iv a p. cbn. by rewrite decide_True by lia.
  - intros k iv a c Hc. cbn. by rewrite decide_False by lia.
Qed.

#[export] Instance random : Random nat := fun n w => (Ok (replicate n (Z.of_nat w mod 256)), S w).
End Toy.
Import Toy.

Lemma open_seal_witness :
  exists r w, seal (Key := bytes) (W := nat) [1] (MkMeta "m" "c" DirIn BurnOnRead None) [1; 2] 5 true 0%nat
              = (Ok r, w) /\ open (Key := bytes) [1] r = Ok [1; 2].
Proof.
  destruct (seal (Key := bytes) (W := nat) [1] (MkMeta "m" "c" DirIn BurnOnRead None) [1; 2] 5 true 0%nat)
    as [[r|e] w] eqn:E; [|vm_compute in E; discriminate].
  exists r, w. split; [reflexivity|]. exact (proj1 (open_seal _ _ _ _ _ _ _ _ E)).
Defined.

Lemma tombstone_unopenable_witness :
  open (Key := bytes) [1] (tombstone (MkVaultRecord "m" "c" DirIn KindBurn None None 0 false None
    (replicate 12 0) (replicate 20 0) (replicate 48 0) (replicate 12 0))) = Throw (JsError "OperationError").
Proof. exact (proj2 (tombstone_unopenable _ [1])). Defined.

Lemma openUnder_sealUnder_witness :
  exists b w, sealUnder (Key := bytes) (W := nat) [1] [9; 9] "label" 0%nat = (Ok b, w) /\
    openUnder (Key := bytes) [1] b "label" = Ok [9; 9].
Proof.
  destruct (sealUnder (Key := bytes) (W := nat) [1] [9; 9] "label" 0%nat) as [[b|e] w] eqn:E;
    [|vm_compute in E; discriminate].
  exists b, w. split; [reflexivity|].
  refine (openUnder_sealUnder _ _ _ _ _ _ _ E).
  intros n x b' x' E'. injection E' as <- _. apply length_replicate.
Defined.

Lemma aad_injective_witness : aad "ab" "cd" "burn-on-read" = aad "ab" "cd" "burn-on-read" /\ "ab" = "ab".
Proof.
  split; [reflexivity|].
  refine (proj1 (aad_injective "ab" "cd" KindBurn "ab" "cd" KindBurn _ _ _ _ _));
    try reflexivity; unfold no_bar; vm_compute; set_solver.
Defined.
End Vault.
