(* ===== verification/Lifetime.v ===== *)
(** * Message lifetimes (client/src/lifetime.ts)

    The manager that stores messages, starts and restores their countdowns, opens burn-on-read
    messages once and erases.  It is proved against the interface of its store, which Idb.v
    implements; the read latch is also proved under every interleaving of several tabs. *)

From S2P Require Import Prelude Session Vault.

(** ** The store interface ([KeyvaultStore] of vault.ts) *)

Class KeyvaultStore (S : Type) := {
  ks_get : string -> M S (option VaultRecord);
  ks_put : VaultRecord -> M S unit;
  ks_delete : string -> M S unit;
  ks_list : M S (list VaultRecord)
}.

(** What the manager relies on.  [kv] is what the store holds and [kv_ok] the invariant it keeps.
    Putting a new record may drop others, or the record itself, but never changes one; updating
    a record keeps it. *)
Class KeyvaultLaws (S : Type) `{KeyvaultStore S} := {
  kv : S -> string -> option VaultRecord;
  kv_ok : S -> Prop;
  kv_id s i r : kv_ok s -> kv s i = Some r -> messageId r = i;
  get_spec i s : ks_get i s = (Ok (kv s i), s);
  put_spec r s : kv_ok s -> exists s', ks_put r s = (Ok tt, s') /\ kv_ok s' /\
    (forall i, kv s' i = None \/ kv s' i = if decide (i = messageId r) then Some r else kv s i) /\
    (kv s (messageId r) <> None ->
       forall i, kv s' i = if decide (i = messageId r) then Some r else kv s i);
  delete_spec i s : kv_ok s -> exists s', ks_delete i s = (Ok tt, s') /\ kv_ok s' /\
    forall j, kv s' j = if decide (j = i) then None else kv s j;
  list_spec s : kv_ok s -> exists l, ks_list s = (Ok l, s) /\ NoDup (messageId <$> l) /\
    forall r, r ∈ l <-> kv s (messageId r) = Some r
}.

Inductive ErasureReason := ByDuration | ByBurn | ByRevoke.

(** [hooks.onErased] *)
Record Erased := MkErased {
  er_messageId : string;
  er_reason : ErasureReason;
  er_conversationId : string
}.

(** The manager's timers (a [Map] from message to handle), its store, and the host: the clock,
    the callbacks scheduled (handle, due time, message), the next handle, the erasures
    signalled, and the random source. *)
Record Manager (S W : Type) := MkManager {
  timers : list (string * nat);
  store : S;
  clock : Z;
  scheduled : list (nat * (Z * string));
  nextHandle : nat;
  erased : list Erased;
  world : W
}.
Arguments MkManager {_ _} _ _ _ _ _ _ _.
Arguments timers {_ _} _.
Arguments store {_ _} _.
Arguments clock {_ _} _.
Arguments scheduled {_ _} _.
Arguments nextHandle {_ _} _.
Arguments erased {_ _} _.
Arguments world {_ _} _.

Module Lifetimes.
Section lifetimes.
Context {Key S W : Type} `{Aead Key} `{Random W} `{KeyvaultStore S}.

Definition St : Type := Manager S W.

Definition on_store {A} (m : M S A) : M St A :=
  zoom store (fun x s => MkManager (timers s) x (clock s) (scheduled s) (nextHandle s) (erased s)
                                   (world s)) m.
Definition on_world {A} (m : M W A) : M St A :=
  zoom world (fun x s => MkManager (timers s) (store s) (clock s) (scheduled s) (nextHandle s)
                                   (erased s) x) m.
Definition now : M St Z := gets clock.
Definition set_timers (f : list (string * nat) -> list (string * nat)) : M St unit :=
  modify (fun s => MkManager (f (timers s)) (store s) (clock s) (scheduled s) (nextHandle s)
                             (erased s) (world s)).
Definition schedule (delay : Z) (i : string) : M St nat := fun s =>
  (Ok (nextHandle s),
   MkManager (timers s) (store s) (clock s)
     (scheduled s ++ [(nextHandle s, (clock s + delay, i))]) (Datatypes.S (nextHandle s)) (erased s)
     (world s)).
Definition cancel (k : nat) : M St unit :=
  modify (fun s => MkManager (timers s) (store s) (clock s) (filter (fun x => x.1 <> k) (scheduled s))
                             (nextHandle s) (erased s) (world s)).
Definition onErased (i : string) (reason : ErasureReason) (cid : string) : M St unit :=
  modify (fun s => MkManager (timers s) (store s) (clock s) (scheduled s) (nextHandle s)
                             (erased s ++ [MkErased i reason cid]) (world s)).

(** [cryptoErase] of vault.ts *)
Definition cryptoErase (i : string) : M St unit := on_store (ks_delete i).

Definition expire (i : string) (reason : ErasureReason) : M St unit :=
  let! ts := gets timers in
  do! match JsMap.lookup i ts with
      | Some k => do! cancel k in set_timers (JsMap.remove i)
      | None => ret tt
      end in
  let! record := on_store (ks_get i) in
  match record with
  | None => ret tt
  | Some r => do! cryptoErase i in onErased i reason (conversationId r)
  end.

Definition arm (r : VaultRecord) : M St unit :=
  match lifetimeKind r, expiresAtMs r with
  | KindDuration, Some at_ =>
      let! t := now in
      let delay := at_ - t in
      if delay <=? 0 then expire (messageId r) ByDuration else
      let! k := schedule delay (messageId r) in
      set_timers (JsMap.set (messageId r) k)
  | _, _ => ret tt
  end.

Definition storeIncoming (msk : Key) (meta : Meta) (plaintext : bytes) (armNow : bool)
  : M St VaultRecord :=
  let! existing := on_store (ks_get (mt_messageId meta)) in
  match existing with
  | Some r => ret r
  | None =>
      let! t := now in
      let! record := on_world (Vault.seal msk meta plaintext t armNow) in
      do! on_store (ks_put record) in
      do! (if armNow : bool then arm record else ret tt) in
      ret record
  end.

(** [armed || not a duration]: nothing to start. *)
Definition no_countdown (r : VaultRecord) : bool :=
  bool_decide (expiresAtMs r <> None) || negb (bool_decide (lifetimeKind r = KindDuration)).

Definition armOnView (i : string) (known : option VaultRecord) : M St unit :=
  if (match known with Some r => no_countdown r | None => false end) then ret tt else
  let! record := on_store (ks_get i) in
  match record with
  | None => ret tt
  | Some r =>
      if no_countdown r then ret tt else
      let! t := now in
      let armed := Vault.armRecord r t in
      do! on_store (ks_put armed) in
      arm armed
  end.

Definition sweepExpired : M St unit :=
  let! t := now in
  let! records := on_store ks_list in
  for_each records (fun r =>
    match expiresAtMs r, lifetimeKind r with
    | Some at_, KindDuration =>
        if at_ <=? t then expire (messageId r) ByDuration else
        let! ts := gets timers in
        if JsMap.has (messageId r) ts then ret tt else arm r
    | _, _ => ret tt
    end).

(** The body run under the cross-tab lock. *)
Definition openBurnOnRead (msk : Key) (i : string) : M St (option bytes) :=
  let! record := on_store (ks_get i) in
  match record with
  | None => ret None
  | Some r =>
      if read r || negb (bool_decide (lifetimeKind r = KindBurn)) then ret None else
      let! framed := of_result (Vault.open msk r) in
      do! on_store (ks_put (Vault.tombstone r)) in
      do! onErased i ByBurn (conversationId r) in
      ret (Some framed)
  end.

Definition revoke (i : string) : M St unit := expire i ByRevoke.

(** A scheduled callback runs. *)
Definition fire (k : nat) : M St unit := fun s =>
  match list_find (fun x => x.1 = k) (scheduled s) with
  | None => (Ok tt, s)
  | Some (_, (_, (_, i))) =>
      expire i ByDuration
        (MkManager (timers s) (store s) (clock s) (filter (fun x => x.1 <> k) (scheduled s))
                   (nextHandle s) (erased s) (world s))
  end.

(** Time passes. *)
Definition tick (d : Z) : M St unit :=
  modify (fun s => MkManager (timers s) (store s) (clock s + d) (scheduled s) (nextHandle s)
                             (erased s) (world s)).

(** ** Runs of the operations *)

Inductive op :=
  | OStore (msk : Key) (meta : Meta) (plaintext : bytes) (armNow : bool)
  | OArmOnView (i : string) (known : option VaultRecord)
  | OSweep
  | OOpenBurn (msk : Key) (i : string)
  | ORevoke (i : string)
  | OFire (k : nat)
  | OTick (d : Z).

Definition exec (o : op) : M St (option bytes) :=
  match o with
  | OStore msk meta p a => do! storeIncoming msk meta p a in ret None
  | OArmOnView i k => do! armOnView i k in ret None
  | OSweep => do! sweepExpired in ret None
  | OOpenBurn msk i => openBurnOnRead msk i
  | ORevoke i => do! revoke i in ret None
  | OFire k => do! fire k in ret None
  | OTick d => do! tick d in ret None
  end.

Definition run (os : list op) (s : St) : St := foldl (fun s o => (exec o s).2) s os.
End lifetimes.

(** ** What each operation does to the store *)

Section laws.
Context {Key S W : Type} `{Aead Key} `{Random W} `{KeyvaultLaws S}.

Implicit Types (s : Manager S W) (i : string) (r : VaultRecord).

Definition held s i : option VaultRecord := kv (store s) i.
Definition ok s : Prop := kv_ok (store s).

Lemma get_run i s : on_store (ks_get i) s = (Ok (held s i), s).
Proof. unfold on_store, zoom. rewrite get_spec. by destruct s. Qed.

Lemma bind_get {A} i (k : option VaultRecord -> M (Manager S W) A) s :
  bind (on_store (ks_get i)) k s = k (held s i) s.
Proof. unfold bind. by rewrite get_run. Qed.

Lemma bind_gets {T A B} (f : T -> A) (k : A -> M T B) (x : T) : bind (gets f) k x = k (f x) x.
Proof. done. Qed.

Lemma bind_ret_state {T A B} (m : M T A) (b : B) (x : T) : (bind m (fun _ => ret b) x).2 = (m x).2.
Proof. unfold bind, ret. by destruct (m x) as [[]]. Qed.

Lemma expire_run i why s :
  ok s ->
  exists s', expire i why s = (Ok tt, s') /\ ok s' /\ clock s' = clock s /\ world s' = world s /\
    (forall j, held s' j = if decide (j = i) then None else held s j) /\
    timers s' = JsMap.remove i (timers s) /\
    erased s' = erased s ++ match held s i with
                            | Some r => [MkErased i why (conversationId r)]
                            | None => []
                            end.
Proof.
  intros Hok. set (s1 := match JsMap.lookup i (timers s) with
             | Some k => MkManager (JsMap.remove i (timers s)) (store s) (clock s)
                 (filter (fun x => x.1 <> k) (scheduled s)) (nextHandle s) (erased s) (world s)
             | None => s
             end).
  assert (E1 : timers s1 = JsMap.remove i (timers s) /\ store s1 = store s /\ clock s1 = clock s /\
               erased s1 = erased s /\ world s1 = world s).
  { subst s1. destruct (JsMap.lookup i (timers s)) eqn:E; [done|]. split_and!; try done.
    symmetry. by apply JsMap.remove_fresh, JsMap.lookup_None. }
  destruct E1 as (T1 & S1 & C1 & X1 & W1).
  assert (E : expire i why s =
    match held s1 i with
    | None => (Ok tt, s1)
    | Some r => bind (cryptoErase i) (fun _ => onErased i why (conversationId r)) s1
    end).
  { unfold expire. rewrite bind_gets. unfold bind at 1.
    match goal with |- (let (r, s') := ?m s in _) = _ => assert (Em : m s = (Ok tt, s1)) end.
    { subst s1. by destruct (JsMap.lookup i (timers s)). }
    rewrite Em, bind_get. by destruct (held s1 i). }
  assert (Hh : held s1 = held s) by (unfold held; by rewrite S1).
  rewrite E. clear E. rewrite Hh. destruct (held s i) as [r|] eqn:Er.
  - unfold bind, cryptoErase, on_store, zoom, onErased, modify.
    destruct (delete_spec i (store s1)) as (st' & -> & Hok' & D); [by rewrite S1|].
    eexists. split; [done|]. split; [exact Hok'|]. cbn.
    rewrite C1, W1, T1, X1. split_and!; try done. intros j. unfold held. cbn. by rewrite D, S1.
  - exists s1. rewrite app_nil_r. split_and!; try done; [by unfold ok; rewrite S1|].
    intros j. rewrite Hh.
    by destruct (decide (j = i)) as [->|].
Qed.

(** Starting a countdown: an overdue message goes, another one gets a timer. *)
Lemma arm_run r s :
  ok s ->
  exists s', arm r s = (Ok tt, s') /\ ok s' /\ clock s' = clock s /\ world s' = world s /\
    match lifetimeKind r, expiresAtMs r with
    | KindDuration, Some at_ =>
        if at_ <=? clock s then
          (forall j, held s' j = if decide (j = messageId r) then None else held s j) /\
          timers s' = JsMap.remove (messageId r) (timers s)
        else
          store s' = store s /\ erased s' = erased s /\
          timers s' = JsMap.set (messageId r) (nextHandle s) (timers s) /\
          scheduled s' = scheduled s ++ [(nextHandle s, (at_, messageId r))]
    | _, _ => s' = s
    end.
Proof.
  intros Hok. unfold arm. destruct (lifetimeKind r); try (by exists s).
  destruct (expiresAtMs r) as [at_|]; [|by exists s].
  unfold bind at 1, now, gets.
  destruct (Z.leb_spec at_ (clock s)), (Z.leb_spec (at_ - clock s) 0); try lia.
  - destruct (expire_run (messageId r) ByDuration s) as (s' & E & O1 & C1 & W1 & K1 & T1 & _).
    1: done. exists s'. done.
  - eexists. split; [done|]. split; [exact Hok|]. cbn. repeat split. do 3 f_equal. f_equal. f_equal. lia.
Qed.

Lemma put_run r s :
  ok s ->
  exists s', on_store (ks_put r) s = (Ok tt, s') /\ ok s' /\
    (forall j, held s' j = None \/ held s' j = if decide (j = messageId r) then Some r else held s j) /\
    (held s (messageId r) <> None ->
       forall j, held s' j = if decide (j = messageId r) then Some r else held s j) /\
    timers s' = timers s /\ clock s' = clock s /\ scheduled s' = scheduled s /\
    nextHandle s' = nextHandle s /\ erased s' = erased s /\ world s' = world s.
Proof.
  intros Hok. unfold on_store, zoom.
  destruct (put_spec r (store s) Hok) as (st' & -> & Hok' & P1 & P2). by eexists.
Qed.

(** A redelivered message changes nothing: when the store already holds the identifier,
    [storeIncoming] returns what is there and leaves the whole state as it was; otherwise it
    stores a record that opens to the plaintext, unless the store drops it. *)
Theorem storeIncoming_creates_once (msk : Key) meta p armNow s :
  (forall r, held s (mt_messageId meta) = Some r ->
     storeIncoming msk meta p armNow s = (Ok r, s)) /\
  (forall r s', AeadLaws Key -> ok s -> held s (mt_messageId meta) = None ->
     storeIncoming msk meta p armNow s = (Ok r, s') ->
     Vault.open msk r = Ok p /\ messageId r = mt_messageId meta /\
     (held s' (mt_messageId meta) = None \/ held s' (mt_messageId meta) = Some r)).
Proof.
  split.
  - intros r E. unfold storeIncoming, bind. by rewrite get_run, E.
  - intros r s' HL Hok E0 E. unfold storeIncoming in E. apply bind_Ok_inv in E as (o & s1 & E1 & E).
    rewrite get_run, E0 in E1. injection E1 as <- <-.
    apply bind_Ok_inv in E as (t & s1 & E1 & E). injection E1 as <- <-.
    apply bind_Ok_inv in E as (rec & s1 & E1 & E). unfold on_world, zoom in E1.
    destruct (Vault.seal msk meta p (clock s) armNow (world s)) as [x w'] eqn:Es.
    injection E1 as -> <-.
    destruct (Vault.seal_inv _ _ _ _ _ _ _ _ Es) as (Ho & Hi & _).
    apply bind_Ok_inv in E as (u & s2 & E2 & E).
    match type of E2 with on_store _ ?s1 = _ =>
      destruct (put_run rec s1) as (s2' & E2' & O2 & P & _); [exact Hok|] end.
    rewrite E2' in E2. injection E2 as <- <-.
    apply bind_Ok_inv in E as (u2 & s3 & E3 & E). unfold ret in E. injection E as <- <-.
    split; [done|]. split; [done|].
    specialize (P (mt_messageId meta)). rewrite Hi, decide_True in P by done.
    destruct armNow; [|injection E3 as _ <-; exact P].
    destruct (arm_run rec s2' O2) as (s3' & E3' & _ & _ & _ & A). rewrite E3' in E3. injection E3 as _ <-.
    revert A. destruct (lifetimeKind rec); [by intros -> | | by intros ->].
    destruct (expiresAtMs rec) as [at_|]; [|by intros ->].
    destruct (at_ <=? clock s2'); intros A.
    + destruct A as [A _]. left. rewrite A, Hi. by rewrite decide_True.
    + destruct A as [A _]. unfold held. by rewrite A.
Qed.

Lemma armOnView_total i known s : ok s -> exists s', armOnView i known s = (Ok tt, s').
Proof.
  intros Hok. unfold armOnView.
  destruct (match known with Some _ => _ | None => _ end); [by eexists|]. rewrite bind_get.
  destruct (held s i) as [r|]; [|by eexists]. destruct (no_countdown r); [by eexists|].
  unfold now. rewrite bind_gets.
  destruct (put_run (Vault.armRecord r (clock s)) s Hok) as (s1 & E1 & O1 & _).
  rewrite (bind_run E1).
  destruct (arm_run (Vault.armRecord r (clock s)) s1 O1) as (s2 & E2 & _). by exists s2.
Qed.

(** Viewing a message that waits for its first view. *)
Lemma armOnView_run i s r d :
  ok s -> held s i = Some r -> lifetimeKind r = KindDuration -> expiresAtMs r = None ->
  durationSeconds r = Some d -> 0 < d ->
  exists s', armOnView i None s = (Ok tt, s') /\ ok s' /\
    held s' i = Some (Vault.armRecord r (clock s)) /\
    expiresAtMs (Vault.armRecord r (clock s)) = Some (clock s + d * 1000) /\
    scheduled s' = scheduled s ++ [(nextHandle s, (clock s + d * 1000, i))] /\
    JsMap.lookup i (timers s') = Some (nextHandle s) /\ erased s' = erased s /\ clock s' = clock s.
Proof.
  intros Hok Er Hk He Hd Hpos. unfold armOnView. rewrite bind_get, Er.
  assert (En : no_countdown r = false) by (unfold no_countdown; by rewrite Hk, He).
  rewrite En. unfold now. rewrite bind_gets. set (armed := Vault.armRecord r (clock s)).
  assert (Ea : lifetimeKind armed = KindDuration /\ expiresAtMs armed = Some (clock s + d * 1000) /\
               messageId armed = i).
  { subst armed. unfold Vault.armRecord. rewrite Hk, He, Hd. by rewrite <-(kv_id _ _ _ Hok Er). }
  destruct Ea as (Ek & Ea & Hid).
  destruct (put_run armed s Hok) as (s1 & E1 & O1 & _ & P & T1 & C1 & D1 & N1 & X1 & W1).
  rewrite (bind_run E1).
  destruct (arm_run armed s1 O1) as (s2 & E2 & O2 & C2 & W2 & A). rewrite E2. exists s2.
  rewrite Ek, Ea, C1 in A. destruct (Z.leb_spec (clock s + d * 1000) (clock s)); [lia|].
  destruct A as (A1 & A2 & A3 & A4). rewrite D1, N1, Hid in A4. rewrite T1, N1, Hid in A3.
  split_and!; try done.
  - unfold held. rewrite A1. change (kv (store s1) i) with (held s1 i).
    rewrite P by (rewrite Hid, Er; done). by rewrite Hid, decide_True.
  - rewrite A3. apply JsMap.lookup_set_eq.
  - by rewrite A2.
  - by rewrite C2.
Qed.

(** A countdown starts once.  [armOnView] leaves the store as it is when the record is
    missing, not a duration, or already counting down; when it is waiting for its first view,
    the stored record gets the expiry of now plus its duration and, unless that is already
    past, a timer is scheduled for exactly that moment. *)
Theorem armOnView_starts_once i known s :
  ok s ->
  exists s', armOnView i known s = (Ok tt, s') /\
  (match held s i with Some r => no_countdown r | None => true end = true -> s' = s) /\
  (forall r d, known = None -> held s i = Some r -> lifetimeKind r = KindDuration ->
     expiresAtMs r = None -> durationSeconds r = Some d -> 0 < d ->
     held s' i = Some (Vault.armRecord r (clock s)) /\
     expiresAtMs (Vault.armRecord r (clock s)) = Some (clock s + d * 1000) /\
     scheduled s' = scheduled s ++ [(nextHandle s, (clock s + d * 1000, i))] /\
     JsMap.lookup i (timers s') = Some (nextHandle s)).
Proof.
  intros Hok.
  destruct (match held s i with Some r => no_countdown r | None => true end) eqn:En.
  { exists s. unfold armOnView.
    split; [|split; [done|]]. 
    - destruct (match known with Some _ => _ | None => _ end); [done|]. rewrite bind_get.
      by destruct (held s i) as [r|]; [rewrite En|].
    - intros r d _ Hh Hk He. rewrite Hh in En. unfold no_countdown in En.
      rewrite He, Hk in En. discriminate. }
  destruct (held s i) as [r|] eqn:Er; [|done].
  destruct (armOnView_total i known s Hok) as [s' E]. exists s'. split; [done|]. split; [done|].
  intros r0 d -> [= <-] Hk He Hd Hpos.
  destruct (armOnView_run i s r d Hok Er Hk He Hd Hpos) as (s2 & E2 & _ & A & B & C & D & _).
  rewrite E in E2. by injection E2 as ->.
Qed.

(** Handles are handed out in order. *)
Definition handles_fresh s : Prop := Forall (fun x => (x.1 < nextHandle s)%nat) (scheduled s).

(** A viewed message dies on time: once an unarmed duration message has been viewed and its
    duration has passed, the scheduled callback erases it and signals its conversation. *)
Theorem viewed_message_dies i s r d :
  ok s -> handles_fresh s -> held s i = Some r -> lifetimeKind r = KindDuration ->
  expiresAtMs r = None -> durationSeconds r = Some d -> 0 < d ->
  let s1 := run [OArmOnView i None; OTick (d * 1000)] s in
  list_find (fun x => x.1 = nextHandle s) (scheduled s1) =
    Some (length (scheduled s), (nextHandle s, (clock s1, i))) /\
  let s2 := run [OFire (nextHandle s)] s1 in
  held s2 i = None /\ erased s2 = erased s ++ [MkErased i ByDuration (conversationId r)].
Proof.
  intros Hok Hf Er Hk He Hd Hpos.
  destruct (armOnView_run i s r d Hok Er Hk He Hd Hpos) as (s1 & E1 & O1 & A & _ & C & _ & X & T).
  assert (Hfind : list_find (fun x => x.1 = nextHandle s) (scheduled s1) =
    Some (length (scheduled s), (nextHandle s, (clock s + d * 1000, i)))).
  { rewrite C, list_find_app_r.
    - cbn. by rewrite decide_True by done.
    - apply list_find_None. eapply Forall_impl; [exact Hf|]. intros x Hx. cbn in *. lia. }
  set (s2 := MkManager (timers s1) (store s1) (clock s1 + d * 1000) (scheduled s1) (nextHandle s1)
                       (erased s1) (world s1)).
  assert (E2 : run [OArmOnView i None; OTick (d * 1000)] s = s2).
  { unfold run. cbn [foldl]. unfold exec at 2. rewrite (bind_run E1). done. }
  cbn zeta. rewrite E2. split; [subst s2; cbn; by rewrite Hfind, T|].
  unfold run. cbn [foldl exec]. rewrite bind_ret_state. unfold fire.
  change (scheduled s2) with (scheduled s1). rewrite Hfind.
  match goal with |- context [expire i ByDuration ?s3] =>
    destruct (expire_run i ByDuration s3) as (s4 & -> & _ & _ & _ & K & _ & X4); [exact O1|] end.
  cbn [snd]. split; [by rewrite K, decide_True|]. rewrite X4. cbn. rewrite X.
  change (kv (store s1) i) with (held s1 i).
  match goal with |- context [held ?x i] => change (held x i) with (held s1 i) end. rewrite A.
  unfold Vault.armRecord. by rewrite Hk, He, Hd.
Qed.

(** ** The sweep on resume *)

(** A duration message whose expiry is not after [t], and one whose expiry is. *)
Definition overdue (t : Z) r : bool :=
  match expiresAtMs r, lifetimeKind r with Some at_, KindDuration => at_ <=? t | _, _ => false end.
Definition counting (t : Z) r : bool :=
  match expiresAtMs r, lifetimeKind r with Some at_, KindDuration => t <? at_ | _, _ => false end.

Definition sweep_one (t : Z) (r : VaultRecord) : M (Manager S W) unit :=
  match expiresAtMs r, lifetimeKind r with
  | Some at_, KindDuration =>
      if at_ <=? t then expire (messageId r) ByDuration else
      let! ts := gets timers in
      if JsMap.has (messageId r) ts then ret tt else arm r
  | _, _ => ret tt
  end.

Lemma has_lookup (k : string) (m : list (string * nat)) :
  JsMap.has k m = true <-> JsMap.lookup k m <> None.
Proof. unfold JsMap.has. destruct (JsMap.lookup k m); split; congruence. Qed.

Lemma has_remove k i (m : list (string * nat)) :
  k <> i -> JsMap.has k (JsMap.remove i m) = JsMap.has k m.
Proof. intros Hne. unfold JsMap.has. by rewrite JsMap.lookup_remove_ne. Qed.

Lemma has_set k i v (m : list (string * nat)) :
  JsMap.has k m = true -> JsMap.has k (JsMap.set i v m) = true.
Proof.
  rewrite !has_lookup. destruct (decide (k = i)) as [->|].
  - by rewrite JsMap.lookup_set_eq.
  - by rewrite JsMap.lookup_set_ne by done.
Qed.

(** One turn of the loop. *)
Lemma sweep_one_run t r s :
  ok s -> clock s = t -> held s (messageId r) = Some r ->
  exists s', sweep_one t r s = (Ok tt, s') /\ ok s' /\ clock s' = t /\
    (forall j, held s' j = if decide (j = messageId r /\ overdue t r = true) then None else held s j) /\
    (forall j, JsMap.has j (timers s) = true -> (j <> messageId r \/ overdue t r = false) ->
       JsMap.has j (timers s') = true) /\
    (counting t r = true -> JsMap.has (messageId r) (timers s') = true) /\
    erased s' = erased s ++
      (if overdue t r then [MkErased (messageId r) ByDuration (conversationId r)] else []).
Proof.
  intros Hok Ht Hr. unfold sweep_one, overdue, counting.
  assert (Hsame : exists s', (Ok tt, s) = (Ok tt, s') /\ ok s' /\ clock s' = t /\
    (forall j, held s' j = if decide (j = messageId r /\ false = true) then None else held s j) /\
    (forall j, JsMap.has j (timers s) = true -> (j <> messageId r \/ false = false) ->
       JsMap.has j (timers s') = true) /\ erased s' = erased s ++ []).
  { exists s. rewrite app_nil_r. split_and!; try done. intros j. by rewrite decide_False by naive_solver. }
  destruct Hsame as (s0 & E0 & O0 & C0 & H0' & T0 & X0). injection E0 as <-.
  destruct (expiresAtMs r) as [at_|] eqn:Ee; [|by exists s].
  destruct (lifetimeKind r) eqn:Ek; try by exists s.
  destruct (Z.leb_spec at_ t).
  - destruct (expire_run (messageId r) ByDuration s Hok) as (s' & -> & O1 & C1 & _ & K1 & T1 & X1).
    exists s'. rewrite Hr in X1. split; [done|]. split; [done|]. split; [by rewrite C1|]. split_and!.
    + intros j. rewrite K1. destruct (decide (j = messageId r)) as [->|].
      * by rewrite decide_True.
      * by rewrite decide_False by naive_solver.
    + intros j Hj [Hne|?]; [|done]. by rewrite T1, has_remove.
    + intros Hc%Z.ltb_lt. lia.
    + done.
  - rewrite bind_gets. destruct (JsMap.has (messageId r) (timers s)) eqn:Eh; [by exists s|].
    destruct (arm_run r s Hok) as (s' & -> & O1 & C1 & _ & A). rewrite Ek, Ee, Ht in A.
    rewrite (proj2 (Z.leb_gt _ _)) in A by lia. destruct A as (A1 & A2 & A3 & A4).
    exists s'. split; [done|]. split; [done|]. split; [by rewrite C1|]. rewrite A2, A3. split_and!.
    + intros j. rewrite decide_False by naive_solver. unfold held. by rewrite A1.
    + intros j Hj _. by apply has_set.
    + intros _. apply has_lookup. by rewrite JsMap.lookup_set_eq.
    + by rewrite app_nil_r.
Qed.

Lemma sweep_loop t l s :
  ok s -> clock s = t -> NoDup (messageId <$> l) -> (forall r, r ∈ l -> held s (messageId r) = Some r) ->
  exists s', for_each l (sweep_one t) s = (Ok tt, s') /\ ok s' /\ clock s' = t /\
    (forall j, held s' j =
       if decide (j ∈ messageId <$> List.filter (overdue t) l) then None else held s j) /\
    (forall j, JsMap.has j (timers s) = true -> j ∉ messageId <$> List.filter (overdue t) l ->
       JsMap.has j (timers s') = true) /\
    (forall r, r ∈ l -> counting t r = true -> JsMap.has (messageId r) (timers s') = true) /\
    erased s' = erased s ++
      ((fun r => MkErased (messageId r) ByDuration (conversationId r)) <$> List.filter (overdue t) l).
Proof.
  revert s. induction l as [|r l IH]; intros s Hok Ht Hn Hh.
  { exists s. simpl. rewrite app_nil_r. split_and!; try done.
    intros r Hr. by apply not_elem_of_nil in Hr. }
  apply NoDup_cons in Hn as [Hr Hn].
  destruct (sweep_one_run t r s Hok Ht (Hh r ltac:(by left))) as (s1 & E1 & O1 & C1 & K1 & T1 & N1 & X1).
  destruct (IH s1 O1 C1 Hn) as (s2 & E2 & O2 & C2 & K2 & T2 & N2 & X2).
  { intros r' Hr'. rewrite K1, decide_False; [apply Hh; by right|]. intros [Eid _].
    apply Hr. rewrite <-Eid. by apply list_elem_of_fmap_2. }
  exists s2. split; [cbn [for_each]; unfold bind; by rewrite E1|].
  split; [done|]. split; [done|].
  assert (Hnot : forall j, j = messageId r -> j ∉ messageId <$> List.filter (overdue t) l).
  { intros j -> Hin. apply Hr. apply list_elem_of_fmap in Hin as (x & -> & Hx).
    apply list_elem_of_fmap_2. apply list_elem_of_In, filter_In in Hx as [Hx _].
    by apply list_elem_of_In. }
  split; [|split; [|split]].
  - intros j. rewrite K2, K1. cbn [List.filter].
    destruct (overdue t r) eqn:Eo; rewrite ?fmap_cons; repeat case_decide; set_solver.
  - intros j Hj Hout. cbn [List.filter] in Hout. apply T2.
    + apply T1; [done|]. destruct (overdue t r); [left|by right]. set_solver.
    + destruct (overdue t r); set_solver.
  - intros r' [->|Hr']%elem_of_cons Hc; [|by apply N2].
    apply T2; [by apply N1 | by apply Hnot].
  - rewrite X2, X1, <-app_assoc. f_equal. cbn [List.filter]. by destruct (overdue t r).
Qed.

(** After a sweep nothing lingers past its deadline: exactly the overdue duration messages
    are erased, each with one signal to the interface, every other message is untouched, and
    every message still counting down has a timer, so a reload cannot make it outlive its
    expiry. *)
Theorem sweep_is_complete s :
  ok s ->
  exists s' l, sweepExpired s = (Ok tt, s') /\
    (forall r, r ∈ l <-> held s (messageId r) = Some r /\ overdue (clock s) r = true) /\
    (forall i, held s' i =
       match held s i with Some r => if overdue (clock s) r then None else Some r | None => None end) /\
    (forall i r, held s' i = Some r -> counting (clock s) r = true ->
       JsMap.has i (timers s') = true) /\
    erased s' = erased s ++ ((fun r => MkErased (messageId r) ByDuration (conversationId r)) <$> l).
Proof.
  intros Hok. unfold sweepExpired. destruct (list_spec (store s) Hok) as (l & El & Hn & Hl).
  assert (E0 : on_store ks_list s = (Ok l, s)).
  { unfold on_store, zoom. rewrite El. by destruct s. }
  destruct (sweep_loop (clock s) l s Hok eq_refl Hn ltac:(intros r Hr; by apply Hl))
    as (s' & E & _ & C & K & _ & N & X).
  exists s', (List.filter (overdue (clock s)) l).
  split. { unfold now. rewrite bind_gets. unfold bind. by rewrite E0. }
  assert (Hin : forall r, r ∈ List.filter (overdue (clock s)) l <->
    held s (messageId r) = Some r /\ overdue (clock s) r = true).
  { intros r. rewrite list_elem_of_In, filter_In, <-list_elem_of_In. by rewrite Hl. }
  assert (K' : forall i, held s' i =
    match held s i with Some r => if overdue (clock s) r then None else Some r | None => None end).
  { intros i. rewrite K. destruct (decide _) as [Hi|Hi].
    - apply list_elem_of_fmap in Hi as (r & -> & Hr). apply Hin in Hr as [-> ->]. done.
    - destruct (held s i) as [r|] eqn:Er; [|done]. destruct (overdue (clock s) r) eqn:Eo; [|done].
      exfalso. apply Hi. pose proof (kv_id _ _ _ Hok Er) as Eid. apply list_elem_of_fmap.
      exists r. split; [done|]. apply Hin. by rewrite Eid. }
  split; [done|]. split; [done|]. split; [|done].
  intros i r Hr Hc. rewrite K' in Hr. destruct (held s i) as [r'|] eqn:Er; [|done].
  destruct (overdue (clock s) r'); [done|]. injection Hr as ->.
  pose proof (kv_id _ _ _ Hok Er) as Eid. rewrite <-Eid. apply N; [|done]. apply Hl.
  unfold held in Er. by rewrite Eid.
Qed.
(** ** The read latch *)

(** [m] leaves what the store holds under [i], or the record goes. *)
Definition keeps {A} (m : M (Manager S W) A) i s : Prop :=
  ok (m s).2 /\ (held (m s).2 i = None \/ held (m s).2 i = held s i).

Lemma keeps_same {A} (m : M (Manager S W) A) i s : ok s -> (m s).2 = s -> keeps m i s.
Proof. intros Ho E. unfold keeps. rewrite E. auto. Qed.

Lemma keeps_expire j why i s : ok s -> keeps (expire j why) i s.
Proof.
  intros Ho. destruct (expire_run j why s Ho) as (s' & E & O & _ & _ & K & _).
  unfold keeps. rewrite E. cbn [snd]. split; [done|]. rewrite K. case_decide; auto.
Qed.

Lemma arm_held r0 s : ok s ->
  exists s', arm r0 s = (Ok tt, s') /\ ok s' /\
    forall i, held s' i = None \/ held s' i = held s i.
Proof.
  intros Ho. destruct (arm_run r0 s Ho) as (s' & E & O & _ & _ & A). exists s'.
  split; [done|]. split; [done|]. intros i. revert A.
  destruct (lifetimeKind r0); [intros -> | | intros ->]; [by right| |by right].
  destruct (expiresAtMs r0) as [at_|]; [|intros ->; by right].
  destruct (at_ <=? clock s); intros [A _].
  - rewrite A. case_decide; auto.
  - right. unfold held. by rewrite A.
Qed.

Lemma keeps_storeIncoming msk meta p armNow i s :
  ok s -> held s i <> None \/ mt_messageId meta <> i -> keeps (storeIncoming msk meta p armNow) i s.
Proof.
  intros Ho Hh. unfold keeps, storeIncoming. rewrite bind_get.
  destruct (held s (mt_messageId meta)) as [r0|] eqn:E0; [auto|].
  unfold now. rewrite bind_gets.
  destruct (Vault.seal msk meta p (clock s) armNow (world s)) as [rec w'] eqn:Es.
  set (s1 := MkManager (timers s) (store s) (clock s) (scheduled s) (nextHandle s) (erased s) w').
  assert (E1 : on_world (Vault.seal msk meta p (clock s) armNow) s = (rec, s1)).
  { unfold on_world, zoom. by rewrite Es. }
  destruct rec as [rec|e]; [rewrite (bind_run E1) | by rewrite (bind_throw E1); auto].
  pose proof (Vault.seal_messageId _ _ _ _ _ _ _ _ Es) as Hi.
  destruct (put_run rec s1 Ho) as (s2 & E2 & O2 & P & _).
  rewrite (bind_run E2), bind_ret_state.
  assert (P2 : held s2 i = None \/ held s2 i = held s i).
  { destruct (P i) as [?|P1]; [auto|]. rewrite P1. case_decide as Ei; [|auto].
    rewrite Hi in Ei. subst i. destruct Hh; congruence. }
  destruct armNow; [|auto].
  destruct (arm_held rec s2 O2) as (s3 & -> & O3 & A). split; [done|].
  destruct (A i) as [?|A1]; [auto|]. cbn [snd]. by rewrite A1.
Qed.

(** The message is gone, or its latch is on. *)
Definition latched i s : Prop :=
  match held s i with Some r => read r = true /\ lifetimeKind r = KindBurn | None => True end.

Lemma keeps_armOnView j known i s : ok s -> latched i s -> keeps (armOnView j known) i s.
Proof.
  intros Ho Hl. unfold armOnView.
  destruct (match known with Some _ => _ | None => _ end); [by apply keeps_same|].
  unfold keeps. rewrite bind_get. destruct (held s j) as [r0|] eqn:Ej; [|auto].
  destruct (no_countdown r0) eqn:En; [auto|]. unfold now. rewrite bind_gets.
  assert (Hid : messageId (Vault.armRecord r0 (clock s)) = j).
  { apply kv_id in Ej; [|done]. unfold Vault.armRecord.
    by destruct (lifetimeKind r0), (expiresAtMs r0), (durationSeconds r0). }
  destruct (put_run (Vault.armRecord r0 (clock s)) s Ho) as (s2 & E2 & O2 & _ & P & _).
  unfold bind. rewrite E2. rewrite Hid in P. specialize (P ltac:(by rewrite Ej) i).
  destruct (arm_held (Vault.armRecord r0 (clock s)) s2 O2) as (s3 & -> & O3 & A).
  split; [done|]. cbn [snd]. destruct (A i) as [?|A1]; [auto|]. right. rewrite A1, P.
  case_decide as Ei; [|done]. exfalso. unfold latched in Hl. rewrite Ei, Ej in Hl. destruct Hl as [_ Hk].
  unfold no_countdown in En. rewrite Hk in En. by destruct (bool_decide (expiresAtMs r0 <> None)).
Qed.

Lemma keeps_sweep i s : ok s -> keeps sweepExpired i s.
Proof.
  intros Ho. unfold keeps, sweepExpired. destruct (list_spec (store s) Ho) as (l & El & Hn & Hl).
  assert (E0 : on_store ks_list s = (Ok l, s)).
  { unfold on_store, zoom. rewrite El. by destruct s. }
  destruct (sweep_loop (clock s) l s Ho eq_refl Hn ltac:(intros x Hx; by apply Hl))
    as (s' & E & O & _ & K & _).
  unfold now. rewrite bind_gets. unfold bind. rewrite E0.
  change (for_each l _ s) with (for_each l (sweep_one (clock s)) s). rewrite E. cbn [snd].
  split; [done|]. rewrite K. case_decide; auto.
Qed.

Lemma openBurn_None msk i s :
  match held s i with Some r => read r || negb (bool_decide (lifetimeKind r = KindBurn)) | None => true end
  = true -> openBurnOnRead msk i s = (Ok None, s).
Proof.
  intros E. unfold openBurnOnRead. rewrite bind_get. by destruct (held s i); [rewrite E|].
Qed.

(** A burn message is opened: what the call does. *)
Lemma openBurn_Some msk i s r :
  ok s -> held s i = Some r -> read r = false -> lifetimeKind r = KindBurn ->
  exists s', openBurnOnRead msk i s = (rmap Some (Vault.open msk r), s') /\ ok s' /\
    match Vault.open msk r with
    | Ok _ => (forall j, held s' j = if decide (j = i) then Some (Vault.tombstone r) else held s j) /\
              erased s' = erased s ++ [MkErased i ByBurn (conversationId r)]
    | Throw _ => s' = s
    end.
Proof.
  intros Ho Hh Hr Hk. unfold openBurnOnRead. rewrite bind_get, Hh, Hr, bool_decide_true by done.
  cbn [orb negb]. unfold bind at 1, of_result. destruct (Vault.open msk r) as [p|e]; [|by exists s].
  assert (Hid : messageId (Vault.tombstone r) = i) by (exact (kv_id _ _ _ Ho Hh)).
  destruct (put_run (Vault.tombstone r) s Ho) as (s1 & E1 & O1 & _ & P & _ & _ & _ & _ & X1 & _).
  unfold bind. rewrite E1. eexists. split; [done|]. split; [exact O1|]. cbn. rewrite X1.
  split; [|done]. intros j. change (held s1 j = if decide (j = i) then Some (Vault.tombstone r) else held s j).
  rewrite P by (rewrite Hid, Hh; done). by rewrite Hid.
Qed.

Lemma keeps_openBurn msk j i s : ok s -> latched i s -> keeps (openBurnOnRead msk j) i s.
Proof.
  intros Ho Hl.
  destruct (match held s j with Some r => read r || negb (bool_decide (lifetimeKind r = KindBurn))
                              | None => true end) eqn:E.
  { apply keeps_same; [done..|]. by rewrite openBurn_None. }
  destruct (held s j) as [r0|] eqn:Ej; [|done]. apply orb_false_iff in E as [Er0 Ek0].
  apply negb_false_iff, bool_decide_eq_true in Ek0.
  destruct (openBurn_Some msk j s r0 Ho Ej Er0 Ek0) as (s' & E & O & A).
  unfold keeps. rewrite E. cbn [snd]. split; [done|].
  destruct (Vault.open msk r0); [|subst; auto]. destruct A as [A _]. rewrite A.
  case_decide as Ei; [|auto]. exfalso. unfold latched in Hl. rewrite Ei, Ej in Hl. destruct Hl. congruence.
Qed.

(** A message that is delivered anew under [i]. *)
Definition delivers i (o : op (Key := Key)) : bool :=
  match o with OStore _ meta _ _ => bool_decide (mt_messageId meta = i) | _ => false end.

(** Whatever the manager does next, a read latch is either still there, unchanged, or its record
    is gone; and what is gone stays gone unless it is delivered anew. *)
Lemma latch_kept o i s :
  ok s -> latched i s -> (delivers i o = true -> held s i <> None) -> keeps (exec o) i s.
Proof.
  intros Ho Hl Hd. destruct o as [msk meta p a|j k| |msk j|j|k|d]; unfold exec.
  1-3,5-7: unfold keeps; rewrite bind_ret_state.
  - apply keeps_storeIncoming; [done|]. destruct (decide (mt_messageId meta = i)); [left|by right].
    by apply Hd, bool_decide_eq_true.
  - by apply keeps_armOnView.
  - by apply keeps_sweep.
  - by apply keeps_expire.
  - unfold fire. destruct (list_find _ (scheduled s)) as [[? [? [? j]]]|]; [|auto].
    by apply (keeps_expire j ByDuration i (MkManager _ _ _ _ _ _ _)).
  - auto.
  - by apply keeps_openBurn.
Qed.

(** C29. A burn-on-read message is shown once.  Opening it gives the sealed plaintext and leaves a
    tombstone; and whatever operations follow, redeliveries, sweeps, views, timers, erasures and
    openings, the tombstone stands or the record is gone, and every further opening gives nothing and
    changes nothing, provided that the message is not delivered anew at a time when its record, and
    with it the tombstone, has been erased. *)
Theorem burn_opens_once msk i s p s1 os msk' :
  ok s -> openBurnOnRead msk i s = (Ok (Some p), s1) ->
  (forall pre o, pre ++ [o] `prefix_of` os -> delivers i o = true -> held (run pre s1) i <> None) ->
  exists r, held s i = Some r /\ lifetimeKind r = KindBurn /\ read r = false /\ Vault.open msk r = Ok p /\
    held s1 i = Some (Vault.tombstone r) /\
    (held (run os s1) i = None \/ held (run os s1) i = Some (Vault.tombstone r)) /\
    openBurnOnRead msk' i (run os s1) = (Ok None, run os s1).
Proof.
  intros Ho E Hpre.
  destruct (match held s i with Some r => read r || negb (bool_decide (lifetimeKind r = KindBurn))
                              | None => true end) eqn:Ec.
  { rewrite openBurn_None in E by done. discriminate. }
  destruct (held s i) as [r|] eqn:Hh; [|done]. apply orb_false_iff in Ec as [Hr Hk].
  apply negb_false_iff, bool_decide_eq_true in Hk. exists r.
  destruct (openBurn_Some msk i s r Ho Hh Hr Hk) as (s' & E' & O1 & A). rewrite E' in E.
  destruct (Vault.open msk r) as [p'|] eqn:Eo; [|discriminate]. injection E as -> <-.
  destruct A as [A _]. specialize (A i). rewrite decide_True in A by done.
  assert (Hrun : ok (run os s') /\ (held (run os s') i = None \/ held (run os s') i = Some (Vault.tombstone r))).
  { clear E'. induction os as [|o os IH] using rev_ind; [by auto|].
    unfold run in *. rewrite foldl_app. cbn [foldl].
    destruct IH as [O2 A2]; [intros pre o' Hp; apply Hpre; by apply prefix_app_r|].
    match type of O2 with ok ?x => set (s2 := x) in * end.
    assert (Hl : latched i s2) by (unfold latched; by destruct A2 as [-> | ->]).
    destruct (latch_kept o i s2 O2 Hl (Hpre os o ltac:(done))) as [O3 A3]. split; [done|].
    destruct A3 as [A3|A3]; [left; exact A3|].
    destruct A2 as [A2|A2]; [left|right]; exact (eq_trans A3 A2). }
  destruct Hrun as [_ Hrun]. split_and!; try done. apply openBurn_None. by destruct Hrun as [-> | ->].
Qed.
(** ** Several tabs

    Every tab is a worker of its own over the one database, so another tab can run between any
    two awaits of [openBurnOnRead]; the exclusive lock [dd-burn:<id>] is what orders them.  A
    tab waits for the lock, holds it, has read the record, or has finished; the environment
    deletes records and writes other ones at any moment. *)

Inductive pc :=
  | Waiting
  | Holding
  | Got (r : option VaultRecord)
  | Finished (shown : option bytes)
  | Rejected.

Record Tabs := MkTabs { tabs : list pc; lock : option nat; db : S }.

Inductive tab_step (msk : Key) (i : string) : Tabs -> Tabs -> Prop :=
  | TAcquire ts d t :
      ts !! t = Some Waiting ->
      tab_step msk i (MkTabs ts None d) (MkTabs (<[t := Holding]> ts) (Some t) d)
  | TGet ts l d d' t o :
      ts !! t = Some Holding -> ks_get i d = (Ok o, d') ->
      tab_step msk i (MkTabs ts l d) (MkTabs (<[t := Got o]> ts) l d')
  | TRefuse ts l d t o :
      ts !! t = Some (Got o) ->
      match o with
      | Some r => read r || negb (bool_decide (lifetimeKind r = KindBurn))
      | None => true
      end = true ->
      tab_step msk i (MkTabs ts l d) (MkTabs (<[t := Finished None]> ts) None d)
  | TReject ts l d t r e :
      ts !! t = Some (Got (Some r)) -> read r = false -> lifetimeKind r = KindBurn ->
      Vault.open msk r = Throw e ->
      tab_step msk i (MkTabs ts l d) (MkTabs (<[t := Rejected]> ts) None d)
  | TShow ts l d d' t r p :
      ts !! t = Some (Got (Some r)) -> read r = false -> lifetimeKind r = KindBurn ->
      Vault.open msk r = Ok p -> ks_put (Vault.tombstone r) d = (Ok tt, d') ->
      tab_step msk i (MkTabs ts l d) (MkTabs (<[t := Finished (Some p)]> ts) None d')
  | TDelete ts l d d' j :
      ks_delete j d = (Ok tt, d') -> tab_step msk i (MkTabs ts l d) (MkTabs ts l d')
  | TPutOther ts l d d' r :
      messageId r <> i -> ks_put r d = (Ok tt, d') ->
      tab_step msk i (MkTabs ts l d) (MkTabs ts l d').

(** The message has been shown, and where that leaves its record. *)
Definition shown_by (ts : list pc) t p : Prop := ts !! t = Some (Finished (Some p)).
Definition spent (o : option VaultRecord) : Prop := forall r, o = Some r -> read r = true.

Record tabs_inv i (x : Tabs) : Prop := {
  inv_ok : kv_ok (db x);
  inv_lock t : (exists o, tabs x !! t = Some (Got o)) \/ tabs x !! t = Some Holding ->
    lock x = Some t;
  inv_got t r : tabs x !! t = Some (Got (Some r)) -> messageId r = i;
  inv_once t t' p p' : shown_by (tabs x) t p -> shown_by (tabs x) t' p' -> t = t';
  inv_spent t p : shown_by (tabs x) t p ->
    spent (kv (db x) i) /\ forall t' o, tabs x !! t' = Some (Got o) -> spent o
}.

Lemma update_cases (ts : list pc) t c t' c' :
  <[t := c]> ts !! t' = Some c' -> (t' = t /\ c' = c) \/ (t' <> t /\ ts !! t' = Some c').
Proof.
  destruct (decide (t' = t)) as [->|Hne]; [|by rewrite list_lookup_insert_ne by done; right].
  intros E. left. split; [done|].
  pose proof (lookup_lt_Some _ _ _ E) as Hl. rewrite length_insert in Hl.
  rewrite list_lookup_insert_eq in E by done. by injection E as <-.
Qed.

(** A change of the store that keeps the invariant when no tab moves. *)
Lemma tabs_inv_store i ts l d d' :
  tabs_inv i (MkTabs ts l d) -> kv_ok d' -> (kv d' i = None \/ kv d' i = kv d i) ->
  tabs_inv i (MkTabs ts l d').
Proof.
  intros [Ho Hl Hg Hu Hs] Ho' Hkv. split; cbn in *; try done.
  intros t p Hp. destruct (Hs t p Hp) as [Hsp Hg']. split; [|done].
  destruct Hkv as [->| ->]; [done|done].
Qed.

(** A tab leaves the section without showing anything, or moves on inside it. *)
Lemma tabs_inv_move i ts l d t c l' :
  tabs_inv i (MkTabs ts l d) ->
  (forall t', t' <> t -> (exists o, ts !! t' = Some (Got o)) \/ ts !! t' = Some Holding ->
     l' = Some t') ->
  match c with
  | Finished (Some _) => False
  | Got o => l' = Some t /\ (forall r, o = Some r -> messageId r = i) /\ o = kv d i
  | Holding => l' = Some t
  | _ => True
  end ->
  tabs_inv i (MkTabs (<[t := c]> ts) l' d).
Proof.
  intros [Ho Hl Hg Hu Hs] Hl' Hc. unfold shown_by in *. split; cbn in *; try done.
  - intros t' Ht'. destruct (decide (t' = t)) as [->|Hne].
    + destruct Ht' as [[o E]|E]; apply update_cases in E as [[_ <-]|[? _]]; tauto.
    + rewrite list_lookup_insert_ne in Ht' by done. by apply Hl'.
  - intros t' r E. apply update_cases in E as [[_ <-]|[_ E]]; [|by eapply Hg].
    destruct Hc as (_ & Hc & _). by apply Hc.
  - intros t1 t2 p1 p2 E1 E2. unfold shown_by in *.
    apply update_cases in E1 as [[_ <-]|[_ E1]]; [done|].
    apply update_cases in E2 as [[_ <-]|[_ E2]]; [done|]. by eapply Hu.
  - intros t1 p1 E1. unfold shown_by in *. apply update_cases in E1 as [[_ <-]|[_ E1]]; [done|].
    destruct (Hs _ _ E1) as [Hsp Hgo]. split; [done|]. intros t2 o E2.
    apply update_cases in E2 as [[_ <-]|[_ E2]]; [|by eapply Hgo].
    destruct Hc as (_ & _ & ->). done.
Qed.

Lemma tabs_inv_step msk i x y : tab_step msk i x y -> tabs_inv i x -> tabs_inv i y.
Proof.
  intros Hstep HI. pose proof HI as [Ho Hl Hg Hu Hs].
  destruct Hstep as [ts d t Et | ts l d d' t o Et Eg | ts l d t o Et Er | ts l d t r e Et Hr Hk Eo
                    | ts l d d' t r p Et Hr Hk Eo Ep | ts l d d' j Ed | ts l d d' r Hne Ep]; cbn in *.
  - eapply tabs_inv_move; [done| |done]. intros t' _ Ht'. apply Hl in Ht'. discriminate.
  - rewrite get_spec in Eg. injection Eg as <- <-.
    assert (El : l = Some t) by (apply Hl; by right).
    eapply tabs_inv_move; [done | intros t' _; apply Hl|]. split; [done|]. split; [|done].
    intros r. by apply kv_id.
  - assert (El : l = Some t) by (apply Hl; left; by eexists).
    eapply tabs_inv_move; [done| |done]. intros t' Hne Ht'. apply Hl in Ht'. congruence.
  - assert (El : l = Some t) by (apply Hl; left; by eexists).
    eapply tabs_inv_move; [done| |done]. intros t' Hne Ht'. apply Hl in Ht'. congruence.
  - assert (El : l = Some t) by (apply Hl; left; by eexists).
    assert (Hnot : forall t' p', ~ shown_by ts t' p').
    { intros t' p' Hp'. destruct (Hs _ _ Hp') as [_ Hsp]. specialize (Hsp _ _ Et _ eq_refl).
      congruence. }
    destruct (put_spec (Vault.tombstone r) d Ho) as (d2 & E2 & O2 & P & _).
    rewrite E2 in Ep. injection Ep as <-.
    assert (Hin : forall t', (exists o, <[t := Finished (Some p)]> ts !! t' = Some (Got o)) \/
                   <[t := Finished (Some p)]> ts !! t' = Some Holding -> False).
    { intros t' [[o E]|E]; apply update_cases in E as [[? ?]|[Hne E]]; try done;
        assert (l = Some t') by (apply Hl; eauto); congruence. }
    split; cbn.
    + done.
    + intros t' Ht'. by apply Hin in Ht'.
    + intros t' r' E. exfalso. eapply Hin. left. by eexists.
    + intros t1 t2 p1 p2 E1 E2'. unfold shown_by in *.
      apply update_cases in E1 as [[-> _]|[_ E1]]; [|by apply Hnot in E1].
      apply update_cases in E2' as [[-> _]|[_ E2']]; [done|by apply Hnot in E2'].
    + intros t1 p1 _. split; [|intros t' o E; exfalso; eapply Hin; left; by eexists].
      intros r' Er'. destruct (P i) as [P1|P1]; rewrite P1 in Er'; [done|].
      pose proof (Hg _ _ Et) as Hid. rewrite decide_True in Er' by done. by injection Er' as <-.
  - destruct (delete_spec j d Ho) as (d2 & E2 & O2 & P). rewrite E2 in Ed. injection Ed as <-.
    apply (tabs_inv_store i ts l d); [done..|]. rewrite P. case_decide; auto.
  - destruct (put_spec r d Ho) as (d2 & E2 & O2 & P & _). rewrite E2 in Ep. injection Ep as <-.
    apply (tabs_inv_store i ts l d); [done..|]. destruct (P i) as [?|P1]; [auto|].
    right. by rewrite P1, decide_False.
Qed.

(** The cross-tab lock makes the read latch atomic: however the awaits of any number of tabs
    opening the same burn message interleave, with deletions and writes of other messages in
    between, at most one of them is handed the plaintext. *)
Theorem burn_shown_in_one_tab msk i n d x t t' p p' :
  kv_ok d -> rtc (tab_step msk i) (MkTabs (replicate n Waiting) None d) x ->
  tabs x !! t = Some (Finished (Some p)) -> tabs x !! t' = Some (Finished (Some p')) -> t = t'.
Proof.
  intros Hd Hsteps Ht Ht'.
  assert (HI : tabs_inv i x).
  { assert (Hi0 : tabs_inv i (MkTabs (replicate n Waiting) None d)).
    { split; cbn; unfold shown_by; try done.
      - intros u [[o E]|E]; by apply lookup_replicate in E as [? _].
      - intros u r E. by apply lookup_replicate in E as [? _].
      - intros u u' q q' E. by apply lookup_replicate in E as [? _].
      - intros u q E. by apply lookup_replicate in E as [? _]. }
    clear Ht Ht'. induction Hsteps as [|a b c Hab Hbc IH]; [done|].
    apply IH. by eapply tabs_inv_step. }
  by eapply (inv_once i x HI).
Qed.
End laws.
End Lifetimes.
