(* ===== verification/Idb.v ===== *)
(** * The at-rest stores (client/src/idb.ts)

    The IndexedDB database, the message store with its history-off mode, the channel and
    device-settings stores, the vault of the master store key and the panic wipe.  The message
    store implements the interface the lifetime manager is proved against. *)

From S2P Require Import Prelude Session Vault Lifetime.

(** ** An object store

    Records under unique keys; [getAll] returns them in key order. *)
Module ObjectStore.
Section object_store.
Context {V : Type}.

Fixpoint insert_key (k : string) (v : V) (m : list (string * V)) : list (string * V) :=
  match m with
  | [] => [(k, v)]
  | (k', v') :: m' =>
      match String.compare k k' with
      | Gt => (k', v') :: insert_key k v m'
      | _ => (k, v) :: m
      end
  end.

Definition put (k : string) (v : V) (m : list (string * V)) : list (string * V) :=
  insert_key k v (JsMap.remove k m).

Definition getAll (m : list (string * V)) : list V := m.*2.

Lemma insert_key_perm k v m : insert_key k v m ≡ₚ (k, v) :: m.
Proof.
  induction m as [|[k' v'] m IH]; simpl; [done|].
  destruct (String.compare k k'); [done|done|]. rewrite IH. constructor.
Qed.

Lemma lookup_insert_key k v m j :
  k ∉ m.*1 ->
  JsMap.lookup j (insert_key k v m) = if decide (j = k) then Some v else JsMap.lookup j m.
Proof.
  induction m as [|[k' v'] m IH]; simpl; intros Hk; [done|].
  apply not_elem_of_cons in Hk as [Hne Hk].
  destruct (String.compare k k'); simpl; [done|done|]. rewrite IH by done.
  repeat case_decide; congruence.
Qed.

Lemma remove_out k (m : list (string * V)) : k ∉ (JsMap.remove k m).*1.
Proof. rewrite JsMap.remove_keys, list_elem_of_filter. tauto. Qed.

Lemma lookup_put k v m j :
  JsMap.lookup j (put k v m) = if decide (j = k) then Some v else JsMap.lookup j m.
Proof.
  unfold put. rewrite lookup_insert_key by apply remove_out. case_decide; [done|].
  by apply JsMap.lookup_remove_ne.
Qed.

Lemma elem_of_put k v m x : x ∈ put k v m <-> x = (k, v) \/ (x ∈ m /\ x.1 <> k).
Proof. unfold put. by rewrite insert_key_perm, elem_of_cons, JsMap.elem_of_remove. Qed.

Lemma NoDup_put k v m : NoDup m.*1 -> NoDup (put k v m).*1.
Proof.
  intros H. unfold put. rewrite insert_key_perm. cbn. constructor; [apply remove_out|].
  by apply JsMap.NoDup_remove.
Qed.

Lemma lookup_in k v (m : list (string * V)) :
  NoDup m.*1 -> (k, v) ∈ m -> JsMap.lookup k m = Some v.
Proof.
  induction m as [|[k' v'] m IH]; simpl; intros Hn Hin; [by apply not_elem_of_nil in Hin|].
  apply NoDup_cons in Hn as [Hk Hn]. apply elem_of_cons in Hin as [[= <- <-]|Hin].
  - by rewrite decide_True.
  - rewrite decide_False; [by apply IH|]. intros ->. apply Hk.
    by apply (list_elem_of_fmap_2 fst) in Hin.
Qed.
End object_store.
End ObjectStore.

(** ** The database *)

Record KdfDescriptor := MkKdf { kdf_algo : string; kdf_v : Z; kdf_m : Z; kdf_t : Z; kdf_p : Z }.
Definition KDF_DESCRIPTOR : KdfDescriptor := MkKdf "argon2id" 1 65536 3 1.

Record MskRecord := MkMskRecord {
  mr_id : string;
  mr_wrappedMsk : bytes;
  mr_salt : bytes;
  mr_wrapNonce : bytes;
  mr_kdf : KdfDescriptor
}.

Record SealedSession := MkSealedSession { ss_conversationId : string; ss_sealed : bytes }.
Record ChannelRecord := MkChannelRecord { cr_id : string; cr_blob : bytes }.
Record DeviceSettingRecord := MkDeviceSetting { ds_id : string; ds_blob : bytes }.

(** The five object stores of [openDeadDropDb]. *)
Record Db := MkDb {
  STORE_VAULT : list (string * MskRecord);
  STORE_MLS : list (string * SealedSession);
  STORE_MESSAGES : list (string * VaultRecord);
  STORE_CHANNELS : list (string * ChannelRecord);
  STORE_DEVICE_SETTINGS : list (string * DeviceSettingRecord)
}.

Definition openDeadDropDb : Db := MkDb [] [] [] [] [].

Definition with_vault (f : list (string * MskRecord) -> list (string * MskRecord)) (d : Db) : Db :=
  MkDb (f (STORE_VAULT d)) (STORE_MLS d) (STORE_MESSAGES d) (STORE_CHANNELS d)
       (STORE_DEVICE_SETTINGS d).
Definition with_mls (f : list (string * SealedSession) -> list (string * SealedSession)) (d : Db) : Db :=
  MkDb (STORE_VAULT d) (f (STORE_MLS d)) (STORE_MESSAGES d) (STORE_CHANNELS d)
       (STORE_DEVICE_SETTINGS d).
Definition with_messages (f : list (string * VaultRecord) -> list (string * VaultRecord)) (d : Db) : Db :=
  MkDb (STORE_VAULT d) (STORE_MLS d) (f (STORE_MESSAGES d)) (STORE_CHANNELS d)
       (STORE_DEVICE_SETTINGS d).
Definition with_channels (f : list (string * ChannelRecord) -> list (string * ChannelRecord)) (d : Db)
  : Db :=
  MkDb (STORE_VAULT d) (STORE_MLS d) (STORE_MESSAGES d) (f (STORE_CHANNELS d))
       (STORE_DEVICE_SETTINGS d).
Definition with_settings
  (f : list (string * DeviceSettingRecord) -> list (string * DeviceSettingRecord)) (d : Db) : Db :=
  MkDb (STORE_VAULT d) (STORE_MLS d) (STORE_MESSAGES d) (STORE_CHANNELS d)
       (f (STORE_DEVICE_SETTINGS d)).

(** ** [IndexedDbKeyvaultStore] *)
Record Keyvault := MkKeyvault {
  db : Db;
  ephemeral : bool;
  mem : list (string * VaultRecord)
}.

Module Keyvault.
Definition EPHEMERAL_PER_CONV_MAX : nat := 500.

Definition set_mem (f : list (string * VaultRecord) -> list (string * VaultRecord)) : M Keyvault unit :=
  modify (fun s => MkKeyvault (db s) (ephemeral s) (f (mem s))).
Definition write (f : list (string * VaultRecord) -> list (string * VaultRecord)) : M Keyvault unit :=
  modify (fun s => MkKeyvault (with_messages f (db s)) (ephemeral s) (mem s)).
Definition disk (s : Keyvault) : list (string * VaultRecord) := STORE_MESSAGES (db s).

Definition setEphemeral (on : bool) : M Keyvault unit :=
  modify (fun s => MkKeyvault (db s) on (if on then mem s else [])).

Definition isEphemeral : M Keyvault bool := gets ephemeral.

Definition get (messageId : string) : M Keyvault (option VaultRecord) :=
  let! m := gets mem in
  match JsMap.lookup messageId m with
  | Some held => ret (Some held)
  | None => gets (fun s => JsMap.lookup messageId (disk s))
  end.

Definition of_conversation (conversationId : string) (v : VaultRecord) : bool :=
  bool_decide (Vault.conversationId v = conversationId).

Definition evictOldest (conversationId : string) : M Keyvault unit :=
  let! m := gets mem in
  let mine := List.filter (of_conversation conversationId) m.*2 in
  if (length mine <=? EPHEMERAL_PER_CONV_MAX)%nat then ret tt else
  for_each (take (length mine - EPHEMERAL_PER_CONV_MAX) (sort_by storedAtMs mine))
    (fun v => set_mem (JsMap.remove (messageId v))).

Definition put (record : VaultRecord) : M Keyvault unit :=
  let! m := gets mem in
  if JsMap.has (messageId record) m then set_mem (JsMap.set (messageId record) record) else
  let! eph := gets ephemeral in
  let! onDisk := gets (fun s => JsMap.lookup (messageId record) (disk s)) in
  if eph && bool_decide (onDisk = None) then
    do! set_mem (JsMap.set (messageId record) record) in
    evictOldest (conversationId record)
  else write (ObjectStore.put (messageId record) record).

Definition delete (messageId : string) : M Keyvault unit :=
  do! set_mem (JsMap.remove messageId) in
  write (JsMap.remove messageId).

Definition list : M Keyvault (list VaultRecord) :=
  gets (fun s =>
    let disk := ObjectStore.getAll (disk s) in
    match mem s with [] => disk | m => disk ++ m.*2 end).

(** The index [conversationId] and the filtered scan give the same records in the same order. *)
Definition listByConversation (conversationId : string) : M Keyvault (Datatypes.list VaultRecord) :=
  gets (fun s =>
    let disk := List.filter (of_conversation conversationId) (ObjectStore.getAll (disk s)) in
    match mem s with
    | [] => disk
    | m => disk ++ List.filter (of_conversation conversationId) m.*2
    end).

Definition purgeDurable : M Keyvault unit := write (fun _ => []).

#[global] Instance keyvault_store : KeyvaultStore Keyvault := {|
  ks_get := get; ks_put := put; ks_delete := delete; ks_list := list
|}.

(** *** The invariant: records under their own key, memory and disk disjoint *)
Definition wf (m : Datatypes.list (string * VaultRecord)) : Prop :=
  NoDup m.*1 /\ forall k r, (k, r) ∈ m -> messageId r = k.

Definition ok (s : Keyvault) : Prop :=
  wf (disk s) /\ wf (mem s) /\ forall k, k ∈ (mem s).*1 -> k ∉ (disk s).*1.

Definition held (s : Keyvault) (i : string) : option VaultRecord :=
  match JsMap.lookup i (mem s) with Some r => Some r | None => JsMap.lookup i (disk s) end.

Lemma wf_nil : wf [].
Proof. split; [constructor|]. intros k r H. by apply not_elem_of_nil in H. Qed.

Lemma wf_remove i m : wf m -> wf (JsMap.remove i m).
Proof.
  intros [Hn Hk]. split; [by apply JsMap.NoDup_remove|]. intros k r Hin.
  apply JsMap.elem_of_remove in Hin as [Hin _]. by apply Hk.
Qed.

Lemma wf_put r m : wf m -> wf (ObjectStore.put (messageId r) r m).
Proof.
  intros [Hn Hk]. split; [by apply ObjectStore.NoDup_put|]. intros k r' Hin.
  apply ObjectStore.elem_of_put in Hin as [[= -> ->]|[Hin _]]; [done|by apply Hk].
Qed.

Lemma elem_of_set k v (m : Datatypes.list (string * VaultRecord)) x :
  x ∈ JsMap.set k v m -> x = (k, v) \/ x ∈ m.
Proof.
  induction m as [|[k' v'] m IH]; simpl; [set_solver|]. case_decide; set_solver.
Qed.

Lemma wf_set r m : wf m -> wf (JsMap.set (messageId r) r m).
Proof.
  intros [Hn Hk]. split; [by apply JsMap.NoDup_set|]. intros k r' Hin.
  apply elem_of_set in Hin as [[= -> ->]|Hin]; [done|by apply Hk].
Qed.

Lemma elem_of_keys k (m : Datatypes.list (string * VaultRecord)) :
  k ∈ m.*1 <-> JsMap.lookup k m <> None.
Proof. rewrite JsMap.lookup_None. split; [tauto|]. intros H. by apply dec_stable. Qed.

Lemma keys_remove j i (m : Datatypes.list (string * VaultRecord)) :
  j ∈ (JsMap.remove i m).*1 <-> j ∈ m.*1 /\ j <> i.
Proof. rewrite JsMap.remove_keys, list_elem_of_filter. tauto. Qed.

(** *** Eviction *)

Definition drop_all (l : Datatypes.list VaultRecord) (m : Datatypes.list (string * VaultRecord)) :=
  foldl (fun m v => JsMap.remove (messageId v) m) m l.

Lemma for_each_drop l s :
  for_each l (fun v => set_mem (JsMap.remove (messageId v))) s =
  (Ok tt, MkKeyvault (db s) (ephemeral s) (drop_all l (mem s))).
Proof.
  revert s. induction l as [|v l IH]; intros s; [by destruct s|].
  cbn [for_each]. by rewrite (bind_run (eq_refl : set_mem _ s = (Ok tt, _))), IH.
Qed.

Lemma elem_of_drop_all x l m :
  x ∈ drop_all l m <-> x ∈ m /\ x.1 ∉ messageId <$> l.
Proof.
  revert m. induction l as [|v l IH]; intros m; cbn.
  - split; [intros H; split; [done|apply not_elem_of_nil]|tauto].
  - unfold drop_all in *. rewrite IH, JsMap.elem_of_remove, not_elem_of_cons. tauto.
Qed.

Lemma wf_drop_all l m : wf m -> wf (drop_all l m).
Proof.
  revert m. induction l as [|v l IH]; intros m Hm; [done|]. apply IH. by apply wf_remove.
Qed.

Lemma lookup_drop_all i l m :
  JsMap.lookup i (drop_all l m) = if decide (i ∈ messageId <$> l) then None else JsMap.lookup i m.
Proof.
  revert m. induction l as [|v l IH]; intros m; cbn.
  - by rewrite decide_False by apply not_elem_of_nil.
  - unfold drop_all in *. rewrite IH, JsMap.lookup_remove.
    repeat case_decide; try done; set_solver.
Qed.

Definition mine (c : string) (s : Keyvault) : Datatypes.list VaultRecord :=
  List.filter (of_conversation c) (mem s).*2.
Definition victims (c : string) (s : Keyvault) : Datatypes.list VaultRecord :=
  take (length (mine c s) - EPHEMERAL_PER_CONV_MAX) (sort_by storedAtMs (mine c s)).

Lemma evict_run c s :
  evictOldest c s = (Ok tt, MkKeyvault (db s) (ephemeral s) (drop_all (victims c s) (mem s))).
Proof.
  unfold evictOldest, victims. cbn zeta. unfold bind, gets. fold (mine c s).
  destruct (Nat.leb_spec (length (mine c s)) EPHEMERAL_PER_CONV_MAX).
  - replace (length (mine c s) - EPHEMERAL_PER_CONV_MAX)%nat with 0%nat by lia. by destruct s.
  - by rewrite for_each_drop.
Qed.

(** *** The operations, on the records held *)

Lemma get_held i s : get i s = (Ok (held s i), s).
Proof. unfold get, held, bind, gets. by destruct (JsMap.lookup i (mem s)). Qed.

Lemma held_id s i r : ok s -> held s i = Some r -> messageId r = i.
Proof.
  intros ([_ Hd] & [_ Hm] & _). unfold held.
  destruct (JsMap.lookup i (mem s)) eqn:E; intros E'.
  - injection E' as ->. apply Hm. by apply JsMap.lookup_Some_in.
  - apply Hd. by apply JsMap.lookup_Some_in.
Qed.

(** [put]: where the record goes. *)
Lemma put_cases r s :
  put r s = (Ok tt,
    match JsMap.lookup (messageId r) (mem s), JsMap.lookup (messageId r) (disk s) with
    | Some _, _ => MkKeyvault (db s) (ephemeral s) (JsMap.set (messageId r) r (mem s))
    | None, None =>
        if ephemeral s then
          let s1 := MkKeyvault (db s) (ephemeral s) (JsMap.set (messageId r) r (mem s)) in
          MkKeyvault (db s) (ephemeral s) (drop_all (victims (conversationId r) s1) (mem s1))
        else MkKeyvault (with_messages (ObjectStore.put (messageId r) r) (db s)) (ephemeral s) (mem s)
    | None, Some _ =>
        MkKeyvault (with_messages (ObjectStore.put (messageId r) r) (db s)) (ephemeral s) (mem s)
    end).
Proof.
  unfold put. unfold bind at 1, gets. unfold JsMap.has.
  destruct (JsMap.lookup (messageId r) (mem s)); [done|].
  unfold bind, gets. destruct (JsMap.lookup (messageId r) (disk s)) as [x|] eqn:E.
  - rewrite bool_decide_false, andb_false_r by done. done.
  - rewrite bool_decide_true, andb_true_r by done. destruct (ephemeral s) eqn:Ee; [|by rewrite <-Ee].
    rewrite <-Ee. exact (evict_run _ _).
Qed.

Lemma put_ok r s : ok s -> ok (put r s).2.
Proof.
  intros (Hd & Hm & Hdis). rewrite put_cases. cbn [snd].
  assert (Hset : forall k, k ∈ (JsMap.set (messageId r) r (mem s)).*1 -> k ∈ (mem s).*1 \/ k = messageId r).
  { intros k Hk. apply list_elem_of_fmap in Hk as ([k' v] & -> & Hk).
    apply elem_of_set in Hk as [[= -> ->]|Hk]; [by right|].
    left. by apply (list_elem_of_fmap_2 fst) in Hk. }
  destruct (JsMap.lookup (messageId r) (mem s)) as [x|] eqn:Em.
  { split; [done|]. split; [by apply wf_set|]. cbn. intros k Hk.
    apply Hset in Hk as [Hk| ->]; apply Hdis; [done|]. apply elem_of_keys. by rewrite Em. }
  assert (Hw : ok (MkKeyvault (with_messages (ObjectStore.put (messageId r) r) (db s)) (ephemeral s) (mem s))).
  { split; [by apply wf_put|]. split; [done|]. cbn. intros k Hk Hin.
    apply list_elem_of_fmap in Hin as ([k' v] & -> & Hin).
    apply ObjectStore.elem_of_put in Hin as [[= -> ->]|[Hin _]].
    - apply elem_of_keys in Hk. cbn in Hk. by rewrite Em in Hk.
    - apply (Hdis _ Hk). by apply (list_elem_of_fmap_2 fst) in Hin. }
  destruct (JsMap.lookup (messageId r) (disk s)) as [x|] eqn:Ed; [exact Hw|].
  destruct (ephemeral s); [|exact Hw]. cbn zeta. split; [done|].
  split; [by apply wf_drop_all, wf_set|]. cbn. intros k Hk.
  apply list_elem_of_fmap in Hk as ([k' v] & -> & Hk). apply elem_of_drop_all in Hk as [Hk _].
  apply (list_elem_of_fmap_2 fst) in Hk. apply Hset in Hk as [Hk| ->]; [by apply Hdis|].
  cbn. rewrite <-JsMap.lookup_None. exact Ed.
Qed.

Lemma put_held r s :
  ok s ->
  (forall i, held (put r s).2 i = None \/
             held (put r s).2 i = if decide (i = messageId r) then Some r else held s i) /\
  (held s (messageId r) <> None ->
     forall i, held (put r s).2 i = if decide (i = messageId r) then Some r else held s i).
Proof.
  intros Hok. rewrite put_cases. cbn [snd].
  destruct (JsMap.lookup (messageId r) (mem s)) as [x|] eqn:Em.
  { assert (E : forall i, held (MkKeyvault (db s) (ephemeral s) (JsMap.set (messageId r) r (mem s))) i =
                          if decide (i = messageId r) then Some r else held s i).
    { intros i. unfold held. cbn. rewrite JsMap.lookup_set. by case_decide. }
    split; [intros i; right|intros _]; apply E. }
  assert (Hw : forall i, held (MkKeyvault (with_messages (ObjectStore.put (messageId r) r) (db s))
                                          (ephemeral s) (mem s)) i =
                         if decide (i = messageId r) then Some r else held s i).
  { intros i. unfold held, disk. cbn. rewrite ObjectStore.lookup_put. case_decide; [|done].
    subst. by rewrite Em. }
  destruct (JsMap.lookup (messageId r) (disk s)) as [x|] eqn:Ed.
  { split; [intros i; right|intros _]; apply Hw. }
  destruct (ephemeral s) eqn:Ee.
  2: { split; [intros i; right|intros _]; apply Hw. }
  split; [|by unfold held; rewrite Em, Ed]. intros i. cbn zeta. unfold held. cbn [mem].
  rewrite lookup_drop_all, JsMap.lookup_set.
  change (disk (MkKeyvault _ _ _)) with (disk s).
  destruct (decide (i = messageId r)) as [->|Hne].
  - case_decide; [by left|by right].
  - destruct (decide _) as [Hv|]; [|by right]. left.
    apply list_elem_of_fmap in Hv as (v & -> & Hv).
    apply elem_of_take in Hv as (n & Hv & _). apply list_elem_of_lookup_2 in Hv.
    rewrite sort_by_perm in Hv. apply list_elem_of_In, filter_In in Hv as [Hv _].
    apply list_elem_of_In, list_elem_of_fmap in Hv as ([k v'] & -> & Hv). cbn in Hv, Hne |- *.
    destruct Hok as (Hd & [Hmn Hmk] & Hdis).
    apply elem_of_set in Hv as [[= -> ->]|Hv]; [done|].
    rewrite (Hmk _ _ Hv). apply JsMap.lookup_None, Hdis. by apply (list_elem_of_fmap_2 fst) in Hv.
Qed.

Lemma delete_run i s :
  exists s', delete i s = (Ok tt, s') /\ (ok s -> ok s') /\
    forall j, held s' j = if decide (j = i) then None else held s j.
Proof.
  eexists. split; [reflexivity|]. split.
  - intros (Hd & Hm & Hdis). split; [by apply wf_remove|]. split; [by apply wf_remove|]. cbn.
    intros k [Hk _]%keys_remove [Hk' _]%keys_remove. by apply (Hdis k).
  - intros j. unfold held, disk. cbn. rewrite !JsMap.lookup_remove. by case_decide.
Qed.

Lemma wf_value m r : wf m -> r ∈ m.*2 <-> JsMap.lookup (messageId r) m = Some r.
Proof.
  intros [Hn Hk]. split.
  - intros ([k r'] & -> & Hin)%list_elem_of_fmap. cbn. rewrite (Hk _ _ Hin).
    by apply ObjectStore.lookup_in.
  - intros Hl%JsMap.lookup_Some_in. by apply (list_elem_of_fmap_2 snd) in Hl.
Qed.

Lemma wf_ids m : wf m -> messageId <$> m.*2 = m.*1.
Proof.
  intros [_ Hk]. rewrite <-list_fmap_compose. apply list_fmap_ext. intros n [k r] Hin. cbn.
  apply Hk. by apply list_elem_of_lookup_2 in Hin.
Qed.

Lemma list_run s : list s = (Ok ((disk s).*2 ++ (mem s).*2), s).
Proof.
  unfold list, gets, ObjectStore.getAll. destruct (mem s); [by rewrite app_nil_r|done].
Qed.

Lemma list_held s :
  ok s -> NoDup (messageId <$> (disk s).*2 ++ (mem s).*2) /\
    forall r, r ∈ (disk s).*2 ++ (mem s).*2 <-> held s (messageId r) = Some r.
Proof.
  intros (Hd & Hm & Hdis). split.
  - rewrite fmap_app, !wf_ids by done. apply NoDup_app. split; [apply Hd|]. split; [|apply Hm].
    intros k Hk Hk'. by apply (Hdis k).
  - intros r. rewrite elem_of_app, !wf_value by done. unfold held.
    destruct (JsMap.lookup (messageId r) (mem s)) as [r'|] eqn:E; [|naive_solver].
    split; [|auto]. intros [Hr|Hr]; [|done]. exfalso. apply (Hdis (messageId r)).
    + apply elem_of_keys. by rewrite E.
    + apply elem_of_keys. by rewrite Hr.
Qed.

#[global] Instance keyvault_laws : KeyvaultLaws Keyvault.
Proof.
  refine {| kv := held; kv_ok := ok |}.
  - intros s i r. apply held_id.
  - intros i s. apply get_held.
  - intros r s Hok. exists (put r s).2. split.
    + cbn [ks_put keyvault_store]. by rewrite put_cases.
    + split; [by apply put_ok|by apply put_held].
  - intros i s Hok. destruct (delete_run i s) as (s' & E & Ho & Hh). exists s'. auto.
  - intros s Hok. exists ((disk s).*2 ++ (mem s).*2). split; [apply list_run|]. by apply list_held.
Defined.

(** The message store keeps what the lifetime manager needs: a record reads back as what was
    last put, whichever of memory and disk holds it; updating never loses a record; deleting
    removes it from both; [list] gives every record exactly once and [listByConversation] its
    conversation's share in the same order; and every operation preserves the invariant that
    memory and disk never hold the same message. *)
Theorem keyvault_refines_interface (s : Keyvault) r i c on :
  ok s ->
  get i s = (Ok (held s i), s) /\
  (forall r', JsMap.lookup (messageId r) (disk s) = Some r' \/ JsMap.lookup (messageId r) (mem s) = Some r' ->
     forall j, held (put r s).2 j = if decide (j = messageId r) then Some r else held s j) /\
  (forall j, held (delete i s).2 j = if decide (j = i) then None else held s j) /\
  (exists l, list s = (Ok l, s) /\ NoDup (messageId <$> l) /\
     (forall x, x ∈ l <-> held s (messageId x) = Some x) /\
     listByConversation c s = (Ok (List.filter (of_conversation c) l), s)) /\
  ok (put r s).2 /\ ok (delete i s).2 /\ ok (setEphemeral on s).2 /\ ok (purgeDurable s).2.
Proof.
  intros Hok. split; [apply get_held|]. split.
  { intros r' Hr. apply put_held; [done|]. unfold held. destruct Hr as [Hr|Hr].
    - destruct (JsMap.lookup (messageId r) (mem s)); [done|]. by rewrite Hr.
    - by rewrite Hr. }
  destruct (delete_run i s) as (s' & E & Ho & Hh). rewrite E. split; [exact Hh|]. split.
  { exists ((disk s).*2 ++ (mem s).*2). split; [apply list_run|].
    destruct (list_held s Hok) as [Hn Hl]. split; [done|]. split; [done|].
    rewrite List.filter_app. unfold listByConversation, gets, ObjectStore.getAll.
    destruct (mem s); [by rewrite app_nil_r|done]. }
  split; [by apply put_ok|]. split; [by apply Ho|]. destruct Hok as (Hd & Hm & Hdis). split.
  - destruct on; [done|]. split; [done|]. split; [apply wf_nil|]. intros k Hk.
    by apply not_elem_of_nil in Hk.
  - split; [apply wf_nil|]. split; [done|]. intros k _ Hk. by apply not_elem_of_nil in Hk.
Qed.

(** ** History off *)

Inductive op :=
  | OGet (i : string)
  | OPut (r : VaultRecord)
  | ODelete (i : string)
  | OList
  | OPurge.

Definition exec (o : op) (s : Keyvault) : Keyvault :=
  match o with
  | OGet i => (get i s).2
  | OPut r => (put r s).2
  | ODelete i => (delete i s).2
  | OList => (list s).2
  | OPurge => (purgeDurable s).2
  end.

(** With history off, a put leaves the set of messages on disk as it is. *)
Lemma put_disk_keys r s k :
  ephemeral s = true -> k ∈ (disk (put r s).2).*1 -> k ∈ (disk s).*1.
Proof.
  intros He. rewrite put_cases. cbn [snd].
  destruct (JsMap.lookup (messageId r) (mem s)); [done|].
  destruct (JsMap.lookup (messageId r) (disk s)) eqn:Ed.
  - cbn. intros ([k' v'] & -> & Hin)%list_elem_of_fmap.
    apply ObjectStore.elem_of_put in Hin as [[= -> ->]|[Hin _]].
    + apply elem_of_keys. cbn. by rewrite Ed.
    + by apply (list_elem_of_fmap_2 fst) in Hin.
  - by rewrite He.
Qed.

Lemma exec_disk_keys o s k :
  ephemeral s = true ->
  ephemeral (exec o s) = true /\ (k ∈ (disk (exec o s)).*1 -> k ∈ (disk s).*1).
Proof.
  intros He. destruct o as [i|r|i| |]; unfold exec.
  - by rewrite get_held.
  - split; [|by apply put_disk_keys]. rewrite put_cases. cbn [snd]. rewrite He.
    by destruct (JsMap.lookup (messageId r) (mem s)), (JsMap.lookup (messageId r) (disk s)).
  - cbn. split; [done|]. unfold disk. cbn. by intros [Hk _]%keys_remove.
  - by rewrite list_run.
  - cbn. split; [done|]. intros Hk. by apply not_elem_of_nil in Hk.
Qed.

(** With history off, no message reaches the disk that was not there when the mode was turned
    on, whatever is put, deleted, listed or purged meanwhile; but a message that was there is
    still updated there, so that a read latch written in this mode is what a reload finds. *)
Theorem history_off_adds_nothing s os :
  ephemeral s = true ->
  let s' := foldl (fun s o => exec o s) s os in
  (forall k, k ∈ (disk s').*1 -> k ∈ (disk s).*1) /\
  (forall r, ok s' -> messageId r ∈ (disk s').*1 ->
     JsMap.lookup (messageId r) (disk (put r s').2) = Some r /\
     held (setEphemeral false (put r s').2).2 (messageId r) = Some r).
Proof.
  intros He s'.
  assert (Hs : ephemeral s' = true /\ forall k, k ∈ (disk s').*1 -> k ∈ (disk s).*1).
  { subst s'. revert s He. induction os as [|o os IH]; intros s He; [done|]. cbn [foldl].
    destruct (IH (exec o s)) as [E1 E2]; [by apply (exec_disk_keys o s "")|].
    split; [done|]. intros k Hk. by apply (exec_disk_keys o s k), E2. }
  split; [apply Hs|]. intros r (_ & _ & Hdis) Hr.
  assert (Hl : JsMap.lookup (messageId r) (disk (put r s').2) = Some r).
  { rewrite put_cases. cbn [snd].
    destruct (JsMap.lookup (messageId r) (mem s')) eqn:Em.
    { exfalso. apply (Hdis (messageId r)); [|done]. apply elem_of_keys. by rewrite Em. }
    apply elem_of_keys in Hr. destruct (JsMap.lookup (messageId r) (disk s')); [|done].
    unfold disk. cbn. by rewrite ObjectStore.lookup_put, decide_True. }
  split; [done|]. exact Hl.
Qed.

(** *** The memory ceiling *)
Lemma filter_fmap_remove (P : VaultRecord -> bool) l (m : Datatypes.list (string * VaultRecord)) :
  wf m ->
  List.filter P (drop_all l m).*2 =
  List.filter (fun v => negb (bool_decide (messageId v ∈ messageId <$> l))) (List.filter P m.*2).
Proof.
  revert m. induction l as [|v l IH]; intros m Hm.
  - cbn [drop_all foldl fmap list_fmap]. induction (List.filter P m.*2) as [|x q IHq]; [done|]. cbn.
    rewrite bool_decide_false by apply not_elem_of_nil. cbn. by f_equal.
  - unfold drop_all in *. cbn [foldl]. rewrite IH by by apply wf_remove. clear IH.
    destruct Hm as [_ Hk]. induction m as [|[k w] m IHm]; [done|].
    pose proof (Hk k w ltac:(left)) as Hkw. cbn [JsMap.remove].
    assert (IHm' := IHm (fun k r Hin => Hk k r ltac:(by right))). clear IHm.
    destruct (decide (messageId v = k)) as [E|E].
    + rewrite IHm'. cbn. destruct (P w); [|done]. cbn.
      rewrite bool_decide_true; [done|]. apply elem_of_cons. left. congruence.
    + cbn. destruct (P w); [|exact IHm']. cbn. rewrite IHm'.
      rewrite (bool_decide_ext (messageId w ∈ messageId v :: (messageId <$> l))
                               (messageId w ∈ messageId <$> l)); [done|].
      rewrite elem_of_cons. split; [|by right]. intros [?|?]; [congruence|done].
Qed.

Lemma filter_perm (P : VaultRecord -> bool) l l' : l ≡ₚ l' -> List.filter P l ≡ₚ List.filter P l'.
Proof.
  induction 1 as [|x l l' _ IH|x y l|l1 l2 l3 _ IH1 _ IH2]; cbn.
  - done.
  - by destruct (P x); rewrite IH.
  - destruct (P x), (P y); try done. constructor.
  - by rewrite IH1.
Qed.

Lemma mine_ids_NoDup c s : wf (mem s) -> NoDup (messageId <$> mine c s).
Proof.
  intros Hm. unfold mine. pose proof (wf_ids _ Hm) as E. destruct Hm as [Hn _].
  rewrite <-E in Hn. clear E. revert Hn.
  induction (mem s).*2 as [|x l IH]; cbn; intros Hn; [constructor|].
  apply NoDup_cons in Hn as [Hx Hn]. destruct (of_conversation c x); [|by apply IH].
  cbn. constructor; [|by apply IH]. intros (y & E & Hy)%list_elem_of_fmap. apply Hx. rewrite E.
  apply list_elem_of_fmap_2. by apply list_elem_of_In, filter_In, proj1, list_elem_of_In in Hy.
Qed.

(** The memory held for a conversation in history-off mode is bounded: after an eviction at
    most five hundred of its records remain, none that stayed is older than one that was
    dropped, nothing is dropped below the ceiling, and no other conversation loses anything. *)
Theorem eviction_keeps_newest c s :
  wf (mem s) ->
  let s' := (evictOldest c s).2 in
  length (mine c s') = (length (mine c s) `min` EPHEMERAL_PER_CONV_MAX)%nat /\
  (forall v w, v ∈ mine c s -> v ∉ mine c s' -> w ∈ mine c s' -> storedAtMs v <= storedAtMs w) /\
  (forall v, v ∈ (mem s').*2 -> v ∈ (mem s).*2) /\
  (forall c', c' <> c -> mine c' s' = mine c' s).
Proof.
  intros Hm s'. set (n := (length (mine c s) - EPHEMERAL_PER_CONV_MAX)%nat).
  set (sorted := sort_by storedAtMs (mine c s)).
  assert (Es : mem s' = drop_all (take n sorted) (mem s)) by (subst s'; by rewrite evict_run).
  assert (Hnd : NoDup (messageId <$> sorted)).
  { subst sorted. rewrite (sort_by_perm storedAtMs). by apply mine_ids_NoDup. }
  rewrite <-(take_drop n sorted), fmap_app in Hnd. apply NoDup_app in Hnd as (_ & Hdis & _).
  assert (Hkept : mine c s' ≡ₚ drop n sorted).
  { unfold mine at 1. rewrite Es, filter_fmap_remove by done. fold (mine c s).
    rewrite (filter_perm _ (mine c s) (take n sorted ++ drop n sorted)).
    - rewrite List.filter_app, filter_none, filter_all; [done| |].
      + intros x Hx. rewrite bool_decide_false; [done|]. intros Hin. apply (Hdis _ Hin).
        by apply list_elem_of_fmap_2.
      + intros x Hx. rewrite bool_decide_true; [done|]. by apply list_elem_of_fmap_2.
    - rewrite take_drop. symmetry. apply sort_by_perm. }
  assert (Hlen : length sorted = length (mine c s)).
  { apply Permutation_length, sort_by_perm. }
  split; [|split; [|split]].
  - rewrite Hkept, length_drop, Hlen. subst n. lia.
  - intros v w Hv Hv' Hw. rewrite Hkept in Hw, Hv'.
    assert (Ht : v ∈ take n sorted).
    { assert (Hvs : v ∈ sorted) by (subst sorted; by rewrite sort_by_perm).
      clear Hv. rename Hvs into Hv.
      rewrite <-(take_drop n sorted), elem_of_app in Hv. by destruct Hv. }
    pose proof (sort_by_sorted storedAtMs (mine c s)) as Hs. fold sorted in Hs.
    rewrite <-(take_drop n sorted) in Hs.
    by apply (StronglySorted_app_1_elem_of _ _ _ _ _ Hs Ht Hw).
  - intros v (x & -> & Hx)%list_elem_of_fmap. rewrite Es in Hx. apply elem_of_drop_all in Hx as [Hx _].
    by apply list_elem_of_fmap_2.
  - intros c' Hc. unfold mine. rewrite Es, filter_fmap_remove by done. apply filter_all.
    intros x Hx. rewrite bool_decide_false; [done|]. intros (y & E & Hy)%list_elem_of_fmap.
    apply list_elem_of_In, filter_In in Hx as [Hx Hcx]. apply list_elem_of_In in Hx.
    assert (Hys : y ∈ mine c s).
    { rewrite <-(sort_by_perm storedAtMs (mine c s)). fold sorted.
      rewrite <-(take_drop n sorted). apply elem_of_app. by left. }
    apply list_elem_of_In, filter_In in Hys as [Hy' Hcy]. apply list_elem_of_In in Hy'.
    apply (wf_value _ _ Hm) in Hx, Hy'. rewrite E, Hy' in Hx. injection Hx as ->.
    unfold of_conversation in Hcx, Hcy. rewrite !bool_decide_eq_true in Hcx, Hcy. congruence.
Qed.
End Keyvault.

(** ** [SealedSessionStore] and [DeviceSettingsStore] *)
Module SealedSessions.
Definition save (session : SealedSession) : M Db unit :=
  modify (with_mls (ObjectStore.put (ss_conversationId session) session)).
Definition load (conversationId : string) : M Db (option SealedSession) :=
  gets (fun d => JsMap.lookup conversationId (STORE_MLS d)).
Definition delete (conversationId : string) : M Db unit :=
  modify (with_mls (JsMap.remove conversationId)).
End SealedSessions.

Module DeviceSettings.
Definition put (record : DeviceSettingRecord) : M Db unit :=
  modify (with_settings (ObjectStore.put (ds_id record) record)).
Definition get (id : string) : M Db (option DeviceSettingRecord) :=
  gets (fun d => JsMap.lookup id (STORE_DEVICE_SETTINGS d)).
Definition list : M Db (list DeviceSettingRecord) :=
  gets (fun d => ObjectStore.getAll (STORE_DEVICE_SETTINGS d)).
Definition delete (id : string) : M Db unit := modify (with_settings (JsMap.remove id)).
End DeviceSettings.

(** ** [ChannelStore] *)
Record ChannelStore := MkChannelStore {
  ch_db : Db;
  ch_ephemeral : bool;
  ch_mem : list (string * ChannelRecord)
}.

Module Channels.
Definition set_mem (f : list (string * ChannelRecord) -> list (string * ChannelRecord))
  : M ChannelStore unit :=
  modify (fun s => MkChannelStore (ch_db s) (ch_ephemeral s) (f (ch_mem s))).
Definition write (f : list (string * ChannelRecord) -> list (string * ChannelRecord))
  : M ChannelStore unit :=
  modify (fun s => MkChannelStore (with_channels f (ch_db s)) (ch_ephemeral s) (ch_mem s)).
Definition disk (s : ChannelStore) : list (string * ChannelRecord) := STORE_CHANNELS (ch_db s).

Definition setEphemeral (on : bool) : M ChannelStore unit :=
  modify (fun s => MkChannelStore (ch_db s) on (if on then ch_mem s else [])).

Definition put (record : ChannelRecord) : M ChannelStore unit :=
  let! eph := gets ch_ephemeral in
  let! m := gets ch_mem in
  if eph || JsMap.has (cr_id record) m then set_mem (JsMap.set (cr_id record) record)
  else write (ObjectStore.put (cr_id record) record).

Definition get (id : string) : M ChannelStore (option ChannelRecord) :=
  let! m := gets ch_mem in
  match JsMap.lookup id m with
  | Some held => ret (Some held)
  | None => gets (fun s => JsMap.lookup id (disk s))
  end.

(** [new Map(disk.map((r) => [r.id, r]))] and the loop over the memory. *)
Definition set_all (l : list (string * ChannelRecord)) (m : list (string * ChannelRecord)) :=
  foldl (fun m x => JsMap.set x.1 x.2 m) m l.

Definition list : M ChannelStore (list ChannelRecord) :=
  gets (fun s =>
    let disk := ObjectStore.getAll (disk s) in
    match ch_mem s with
    | [] => disk
    | m => (set_all m (set_all ((fun r => (cr_id r, r)) <$> disk) [])).*2
    end).

Definition delete (id : string) : M ChannelStore unit :=
  do! set_mem (JsMap.remove id) in
  write (JsMap.remove id).

Definition purgeDurable : M ChannelStore unit := write (fun _ => []).

Definition wf (m : Datatypes.list (string * ChannelRecord)) : Prop :=
  NoDup m.*1 /\ forall k r, (k, r) ∈ m -> cr_id r = k.
Definition ok (s : ChannelStore) : Prop := wf (disk s) /\ wf (ch_mem s).

Definition held (s : ChannelStore) (i : string) : option ChannelRecord :=
  match JsMap.lookup i (ch_mem s) with Some r => Some r | None => JsMap.lookup i (disk s) end.

Lemma channel_get_held i s : get i s = (Ok (held s i), s).
Proof. unfold get, held, bind, gets. by destruct (JsMap.lookup i (ch_mem s)). Qed.

Lemma channel_elem_of_set k v (m : Datatypes.list (string * ChannelRecord)) x :
  NoDup m.*1 -> x ∈ JsMap.set k v m <-> x = (k, v) \/ (x ∈ m /\ x.1 <> k).
Proof.
  induction m as [|[k' v'] m IH]; intros Hn; simpl; [set_solver|].
  apply NoDup_cons in Hn as [Hk Hn]. case_decide.
  - subst. rewrite !elem_of_cons. split; [|naive_solver]. intros [->|Hx]; [by left|right].
    split; [by right|]. intros E. apply Hk. cbn. rewrite <-E.
    exact (list_elem_of_fmap_2 fst _ _ Hx).
  - rewrite !elem_of_cons, IH by done. naive_solver.
Qed.

Lemma set_all_spec l m :
  wf l -> wf m -> wf (set_all l m) /\
  forall i, JsMap.lookup i (set_all l m) =
    match JsMap.lookup i l with Some r => Some r | None => JsMap.lookup i m end.
Proof.
  revert m. induction l as [|[k v] l IH]; intros m [Hnl Hkl] Hm; [done|].
  apply NoDup_cons in Hnl as [Hk Hnl]. cbn [set_all foldl].
  destruct (IH (JsMap.set k v m)) as [Hw Hl].
  - split; [done|]. intros k' r' Hin. apply Hkl. by right.
  - destruct Hm as [Hn Hkm]. split; [by apply JsMap.NoDup_set|]. intros k' r' Hin.
    apply channel_elem_of_set in Hin as [[= -> ->]|[Hin _]]; [apply Hkl; left|by apply Hkm|done].
  - split; [exact Hw|]. intros i. unfold set_all in Hl. cbn. rewrite Hl, JsMap.lookup_set.
    case_decide; [|done]. subst. by rewrite (proj2 (JsMap.lookup_None k l)).
Qed.

Lemma set_all_id m : wf m -> set_all ((fun r => (cr_id r, r)) <$> m.*2) [] = m.
Proof.
  intros [Hn Hk]. assert (E : (fun r => (cr_id r, r)) <$> m.*2 = m).
  { rewrite <-list_fmap_compose. rewrite <-(list_fmap_id m) at 2. apply list_fmap_ext.
    intros n [k r] Hin. cbn. f_equal. apply Hk. by apply list_elem_of_lookup_2 in Hin. }
  rewrite E. clear E. unfold set_all. change m with ([] ++ m) at 2.
  assert (Hd : forall k, k ∈ m.*1 -> k ∉ ([] : Datatypes.list (string * ChannelRecord)).*1).
  { intros k _. apply not_elem_of_nil. }
  revert Hd. generalize ([] : Datatypes.list (string * ChannelRecord)).
  clear Hk. induction m as [|[k v] m IH]; intros acc Hd; cbn; [by rewrite app_nil_r|].
  apply NoDup_cons in Hn as [Hk Hn]. rewrite JsMap.set_fresh by (apply Hd; left).
  rewrite IH; [by rewrite <-app_assoc|done|]. intros j Hj. rewrite fmap_app, not_elem_of_app. split.
  - apply Hd. by right.
  - cbn. intros ->%list_elem_of_singleton. done.
Qed.

(** The contact list is consistent with reading one conversation at a time: [list] gives each
    conversation exactly once, and it is the record [get] gives, so the memory copy written
    while history is off shadows the one on disk; [put] then [get] round trips and [delete]
    removes both copies. *)
Theorem channel_list_agrees_with_get s r i :
  ok s ->
  (exists l, list s = (Ok l, s) /\ NoDup (cr_id <$> l) /\
     forall x, x ∈ l <-> get (cr_id x) s = (Ok (Some x), s)) /\
  (forall j, held (put r s).2 j = if decide (j = cr_id r) then Some r else held s j) /\
  (forall j, held (delete i s).2 j = if decide (j = i) then None else held s j).
Proof.
  intros [Hd Hm]. split; [|split].
  - assert (E : exists m, list s = (Ok m.*2, s) /\ wf m /\ forall j, JsMap.lookup j m = held s j).
    { unfold list, gets, ObjectStore.getAll, held.
      destruct (ch_mem s) as [|x m] eqn:Em; [by exists (disk s)|].
      rewrite set_all_id by done. eexists. split; [done|]. by apply set_all_spec. }
    destruct E as (m & E & Hw & Hl). exists m.*2. split; [done|]. split.
    + replace (cr_id <$> m.*2) with m.*1; [apply Hw|]. rewrite <-list_fmap_compose.
      apply list_fmap_ext. intros n [k v] Hin. cbn. symmetry. apply Hw.
      by apply list_elem_of_lookup_2 in Hin.
    + intros x. rewrite channel_get_held, <-Hl. split.
      * intros ([k v] & -> & Hin)%list_elem_of_fmap. cbn. destruct Hw as [Hn Hk].
        rewrite (Hk _ _ Hin). by rewrite (ObjectStore.lookup_in k v).
      * intros [= Hx]. apply JsMap.lookup_Some_in in Hx.
        by apply (list_elem_of_fmap_2 snd) in Hx.
  - intros j. unfold put, bind, gets, JsMap.has. 
    destruct (ch_ephemeral s); cbn [orb].
    + unfold held, disk. cbn. rewrite JsMap.lookup_set. by case_decide.
    + destruct (JsMap.lookup (cr_id r) (ch_mem s)) eqn:E.
      * unfold held, disk. cbn. rewrite JsMap.lookup_set. by case_decide.
      * unfold held, disk. cbn. rewrite ObjectStore.lookup_put. case_decide; [|done]. subst.
        by rewrite E.
  - intros j. unfold held, disk. cbn. rewrite !JsMap.lookup_remove. by case_decide.
Qed.
End Channels.

(** ** [MskVault] *)

(** Argon2id of the wasm core: a credential and a salt give the bytes of the key. *)
Class DeriveKek := deriveKek : string -> bytes -> bytes.

(** Authenticity of the AEAD: a ciphertext opens under no other key. *)
Class AeadAuth (Key : Type) `{Aead Key} :=
  decrypt_other k k' iv aad p : k <> k' -> decrypt k' iv aad (encrypt k iv aad p) = None.

Module MskVault.
Section msk_vault.
Context {Key W : Type} `{Aead Key} `{Random W} `{DeriveKek}.

(** The database and the random source. *)
Definition St : Type := Db * W.

Definition MSK_PREFIX : string := "msk:".
Definition SALT_LEN : nat := 16.
Definition MSK_LEN : nat := 32.

Definition random (n : nat) : M St bytes := zoom snd (fun w s => (s.1, w)) (randomBytes n).

Definition get (account : string) : M St (option MskRecord) :=
  gets (fun s => JsMap.lookup (MSK_PREFIX +:+ account) (STORE_VAULT s.1)).

Definition putRecord (rec : MskRecord) : M St unit :=
  modify (fun s => (with_vault (ObjectStore.put (mr_id rec) rec) s.1, s.2)).

Definition exists_ (account : string) : M St bool :=
  let! r := get account in
  ret (match r with Some _ => true | None => false end).

Definition delete (account : string) : M St unit :=
  modify (fun s => (with_vault (JsMap.remove (MSK_PREFIX +:+ account)) s.1, s.2)).

Definition importKek (credential : string) (salt : bytes) : Key :=
  importKey (deriveKek credential salt).

Definition create (account credential : string) : M St bytes :=
  let! salt := random SALT_LEN in
  let! msk := random MSK_LEN in
  let! wrapNonce := random 12 in
  let kek := importKek credential salt in
  let wrappedMsk := encrypt kek wrapNonce salt msk in
  do! putRecord (MkMskRecord (MSK_PREFIX +:+ account) wrappedMsk salt wrapNonce KDF_DESCRIPTOR) in
  ret msk.

Definition unlock (account credential : string) : M St (option bytes) :=
  let! rec := get account in
  match rec with
  | None => ret None
  | Some rec =>
      let kek := importKek credential (mr_salt rec) in
      ret (decrypt kek (mr_wrapNonce rec) (mr_salt rec) (mr_wrappedMsk rec))
  end.
End msk_vault.

(** ** Panic wipe *)
Definition panic_steps : list (Db -> Db) :=
  [with_vault (fun _ => []); with_messages (fun _ => []); with_mls (fun _ => []);
   with_channels (fun _ => []); with_settings (fun _ => [])].

Definition run_steps (l : list (Db -> Db)) (d : Db) : Db := foldl (fun d f => f d) d l.

Definition panicWipe : M Db unit := modify (run_steps panic_steps).

Section laws.
Context {Key W : Type} `{AeadLaws Key} `{Random W} `{DeriveKek}.

Lemma unlock_run (account credential : string) (s : Db * W) :
  unlock (Key := Key) account credential s =
  (Ok (match JsMap.lookup (MSK_PREFIX +:+ account) (STORE_VAULT s.1) with
       | None => None
       | Some rec => decrypt (importKek (Key := Key) credential (mr_salt rec)) (mr_wrapNonce rec) (mr_salt rec)
                             (mr_wrappedMsk rec)
       end), s).
Proof. unfold unlock, get, bind, gets, ret. by destruct (JsMap.lookup _ (STORE_VAULT s.1)). Qed.

Lemma create_inv account credential (s s' : Db * W) msk :
  create (Key := Key) account credential s = (Ok msk, s') ->
  exists salt n, s'.1 = with_vault (ObjectStore.put (MSK_PREFIX +:+ account)
    (MkMskRecord (MSK_PREFIX +:+ account) (encrypt (importKek (Key := Key) credential salt) n salt msk) salt n
                 KDF_DESCRIPTOR)) s.1.
Proof.
  unfold create. intros E.
  apply bind_Ok_inv in E as (salt & s1 & E1 & E). apply bind_Ok_inv in E as (m & s2 & E2 & E).
  apply bind_Ok_inv in E as (n & s3 & E3 & E). injection E as <- <-.
  assert (Hr : forall k x y z, random k x = (Ok z, y) -> y.1 = (x : Db * W).1).
  { intros k x y z. unfold random, zoom. destruct (randomBytes k x.2). by intros [= _ <-]. }
  exists salt, n. cbn. by rewrite (Hr _ _ _ _ E3), (Hr _ _ _ _ E2), (Hr _ _ _ _ E1).
Qed.

Lemma prefix_inj a b : MSK_PREFIX +:+ a = MSK_PREFIX +:+ b -> a = b.
Proof. by intros [= E]. Qed.

(** Custody of the master store key: a new vault unlocks with its own account and credential
    to the key that was created, a credential that derives another key opens nothing, every
    other account keeps its answer, and after the roll-back no credential unlocks it. *)
Theorem vault_custody `{!AeadAuth Key} account credential (s s' : Db * W) msk :
  create (Key := Key) account credential s = (Ok msk, s') ->
  unlock (Key := Key) account credential s' = (Ok (Some msk), s') /\
  (forall cred', (forall salt, importKek (Key := Key) cred' salt <> importKek credential salt) ->
     unlock (Key := Key) account cred' s' = (Ok None, s')) /\
  (forall other c, other <> account ->
     (unlock (Key := Key) other c s').1 = (unlock (Key := Key) other c s).1) /\
  (forall c, (unlock (Key := Key) account c (delete account s').2).1 = Ok None).
Proof.
  intros E. destruct (create_inv _ _ _ _ _ E) as (salt & n & E').
  split; [|split; [|split]].
  - rewrite unlock_run, E'. cbn. rewrite ObjectStore.lookup_put, decide_True by done. cbn.
    by rewrite decrypt_encrypt.
  - intros cred' Hne. rewrite unlock_run, E'. cbn.
    rewrite ObjectStore.lookup_put, decide_True by done. cbn.
    by rewrite decrypt_other by (by apply not_eq_sym, Hne).
  - intros other c Hne. rewrite !unlock_run, E'. cbn.
    rewrite ObjectStore.lookup_put, decide_False; [done|]. by intros ?%prefix_inj.
  - intros c. rewrite unlock_run. cbn. by rewrite JsMap.lookup_remove_eq.
Qed.

(** C30. The panic wipe destroys the keys first: interrupted anywhere after its first step, no
    account unlocks with any credential; left to finish, nothing is stored at all. *)
Theorem panic_wipe_kills_keys_first d (w : W) n account credential :
  (1 <= n)%nat ->
  (unlock (Key := Key) account credential (run_steps (take n panic_steps) d, w)).1 = Ok None /\
  panicWipe d = (Ok tt, openDeadDropDb).
Proof.
  intros Hn. split; [|by destruct d]. rewrite unlock_run. cbn.
  assert (Hv : STORE_VAULT (run_steps (take n panic_steps) d) = []).
  { destruct n as [|n]; [lia|]. do 4 (destruct n as [|n]; [done|]). by destruct n. }
  by rewrite Hv.
Qed.
End laws.
End MskVault.

(** ** Concrete inputs *)
Module IdbToy.
(** An AEAD whose tag names the key. *)
#[export] Instance keyed_aead : Aead bytes := {|
  importKey k := k;
  encrypt k _ _ p := Z.of_nat (length k) :: replicate 16 0 ++ k ++ p;
  decrypt k _ _ c :=
    if decide (take (17 + length k) c = Z.of_nat (length k) :: replicate 16 0 ++ k)
    then Some (drop (17 + length k) c) else None
|}.

#[export] Instance keyed_laws : AeadLaws bytes.
Proof.
  split.
  - intros k iv a p. cbn -[replicate Nat.add].
    change (17 + length k)%nat with (S (16 + length k)). cbn [take drop].
    assert (E : replicate 16 0 ++ k ++ p = (replicate 16 0 ++ k) ++ p) by by rewrite app_assoc.
    rewrite E. rewrite decide_True.
    + f_equal. apply drop_app_length'. by rewrite length_app, length_replicate.
    + f_equal. apply take_app_length'. by rewrite length_app, length_replicate.
  - intros k iv a c Hc. cbn -[replicate Nat.add]. rewrite decide_False; [done|]. intros E.
    apply (f_equal length) in E. cbn [length] in E.
    rewrite length_take, length_app, length_replicate in E. lia.
Qed.

#[export] Instance keyed_auth : AeadAuth bytes.
Proof.
  intros k k' iv a p Hne. cbn -[replicate Nat.add]. rewrite decide_False; [done|]. intros E.
  change (17 + length k')%nat with (S (16 + length k')) in E. cbn [take] in E.
  assert (Hl : length k = length k').
  { apply (f_equal (hd 0)) in E. cbn -[replicate Nat.add] in E. lia. }
  apply (f_equal (@tail Z)) in E. cbn [tail] in E.
  rewrite app_assoc in E. rewrite take_app_length' in E by (by rewrite length_app, length_replicate, Hl).
  by apply app_inv_head in E.
Qed.

#[export] Instance toy_kek : DeriveKek := fun credential salt => text_encode credential ++ salt.
#[export] Instance toy_random : Random nat := fun n w => (Ok (replicate n (Z.of_nat w mod 256)), S w).
End IdbToy.

Module IdbExamples.
Import IdbToy.

Definition burn_meta : Meta := MkMeta "m1" "c1" DirIn BurnOnRead None.
Definition timed_meta : Meta := MkMeta "m2" "c1" DirIn (Duration 30) None.
Definition msk : bytes := [7; 7].

Definition sealed (meta : Meta) (arm : bool) : VaultRecord :=
  match (Vault.seal (Key := bytes) (W := nat) msk meta [1; 2; 3] 1000 arm 0%nat).1 with
  | Ok r => r
  | Throw _ => MkVaultRecord "" "" DirIn KindBurn None None 0 false None [] [] [] []
  end.

(** A device holding one record. *)
Definition holding (r : VaultRecord) : Keyvault :=
  MkKeyvault (MkDb [] [] [(messageId r, r)] [] []) false [].
Definition manager (r : VaultRecord) : Manager Keyvault nat :=
  MkManager [] (holding r) 5000 [] 0 [] 0%nat.

Lemma holding_ok r : Keyvault.ok (holding r).
Proof.
  split; [|split].
  - split; [apply NoDup_singleton|]. by intros k r' [= -> ->]%list_elem_of_singleton.
  - apply Keyvault.wf_nil.
  - intros k Hk. by apply not_elem_of_nil in Hk.
Qed.

Lemma manager_ok r : Lifetimes.ok (manager r).
Proof. exact (holding_ok r). Qed.

Lemma storeIncoming_creates_once_witness :
  Lifetimes.storeIncoming msk burn_meta [9] true (manager (sealed burn_meta false)) =
  (Ok (sealed burn_meta false), manager (sealed burn_meta false)).
Proof.
  exact (proj1 (Lifetimes.storeIncoming_creates_once msk burn_meta [9] true
                  (manager (sealed burn_meta false))) (sealed burn_meta false) eq_refl).
Defined.

Lemma armOnView_starts_once_witness :
  exists s', Lifetimes.armOnView "m2" None (manager (sealed timed_meta false)) = (Ok tt, s') /\
    scheduled s' = [(0%nat, (35000, "m2"))].
Proof.
  destruct (Lifetimes.armOnView_starts_once "m2" None (manager (sealed timed_meta false))
              (manager_ok _)) as (s' & E & _ & A).
  exists s'. split; [exact E|].
  destruct (A (sealed timed_meta false) 30) as (_ & _ & B & _); [reflexivity..|lia|exact B].
Defined.

Lemma viewed_message_dies_witness :
  let m := manager (sealed timed_meta false) in
  let m1 := Lifetimes.run [Lifetimes.OArmOnView "m2" None; Lifetimes.OTick (30 * 1000)] m in
  erased (Lifetimes.run [Lifetimes.OFire (nextHandle m)] m1) =
  erased m ++ [MkErased "m2" ByDuration (conversationId (sealed timed_meta false))].
Proof.
  intros m m1.
  exact (proj2 (proj2 (Lifetimes.viewed_message_dies "m2" m (sealed timed_meta false) 30 (manager_ok _)
    (Forall_nil_2 _) eq_refl eq_refl eq_refl eq_refl ltac:(lia)))).
Defined.

(** The sweep of a device whose only record expired at 31000 ms. *)
Lemma sweep_is_complete_witness :
  let s := MkManager [] (holding (sealed timed_meta true)) 31000 [] 0 [] 0%nat in
  exists s', Lifetimes.sweepExpired s = (Ok tt, s') /\ Lifetimes.held s' "m2" = None.
Proof.
  intros s. assert (Hs : Lifetimes.ok s) by exact (holding_ok (sealed timed_meta true)).
  destruct (Lifetimes.sweep_is_complete s Hs) as (s' & l & E & _ & Hh & _).
  exists s'. split; [exact E|]. rewrite Hh. reflexivity.
Defined.

Definition afterwards : list Lifetimes.op :=
  [Lifetimes.OStore msk burn_meta [9] true; Lifetimes.OSweep; Lifetimes.ORevoke "m1"; Lifetimes.OTick 5].
Lemma burn_opens_once_witness :
  exists p s1, Lifetimes.openBurnOnRead msk "m1" (manager (sealed burn_meta false)) = (Ok (Some p), s1) /\
    p = [1; 2; 3] /\ (Lifetimes.openBurnOnRead msk "m1" (Lifetimes.run afterwards s1)).1 = Ok None.
Proof.
  destruct (Lifetimes.openBurnOnRead msk "m1" (manager (sealed burn_meta false))) as [[[p|]|e] s1] eqn:E;
    [|vm_compute in E; discriminate..].
  exists p, s1. split; [reflexivity|].
  destruct (Lifetimes.burn_opens_once msk "m1" (manager (sealed burn_meta false)) p s1
    afterwards msk (manager_ok _) E) as (r & _ & _ & _ & _ & _ & _ & Hn).
  - vm_compute in E. injection E as _ <-. intros pre o [tl Hp] Hd. unfold afterwards in Hp.
    destruct pre as [|o1 [|o2 [|o3 [|o4 pre]]]]; cbn in Hp; simplify_eq; try discriminate Hd.
    + vm_compute. discriminate.
    + by destruct pre.
  - split; [|by rewrite Hn]. vm_compute in E. by injection E as <- _.
Defined.

(** The proviso is needed: a burned message that is erased and then delivered anew opens again. *)
Example erased_message_can_return :
  let s1 := (Lifetimes.openBurnOnRead msk "m1" (manager (sealed burn_meta false))).2 in
  (Lifetimes.openBurnOnRead msk "m1"
     (Lifetimes.run [Lifetimes.ORevoke "m1"; Lifetimes.OStore msk burn_meta [9] false] s1)).1 = Ok (Some [9]).
Proof. vm_compute. reflexivity. Qed.

Lemma eviction_keeps_newest_witness :
  let s := MkKeyvault openDeadDropDb true [("m1", sealed burn_meta false)] in
  length (Keyvault.mine "c1" (Keyvault.evictOldest "c1" s).2) = 1%nat.
Proof.
  intros s. refine (proj1 (Keyvault.eviction_keeps_newest "c1" s _)).
  split; [apply NoDup_singleton|]. by intros k r' [= -> ->]%list_elem_of_singleton.
Defined.

Lemma keyvault_refines_interface_witness :
  exists l, Keyvault.list (holding (sealed burn_meta false)) = (Ok l, holding (sealed burn_meta false)) /\
    NoDup (messageId <$> l).
Proof.
  destruct (Keyvault.keyvault_refines_interface (holding (sealed burn_meta false)) (sealed burn_meta false)
    "m1" "c1" false (holding_ok _)) as (_ & _ & _ & (l & E & Hn & _) & _).
  exists l. split; [exact E|exact Hn].
Defined.

(** Turning history off on a device that already holds the record, then burning it. *)
Lemma history_off_adds_nothing_witness :
  let s := (Keyvault.setEphemeral true (holding (sealed burn_meta false))).2 in
  let r := Vault.tombstone (sealed burn_meta false) in
  Keyvault.held (Keyvault.setEphemeral false (Keyvault.put r s).2).2 "m1" = Some r.
Proof.
  intros s r.
  refine (proj2 (proj2 (Keyvault.history_off_adds_nothing s [] eq_refl) r _ _)).
  - exact (holding_ok (sealed burn_meta false)).
  - left.
Defined.

Lemma channel_list_agrees_with_get_witness :
  let s := MkChannelStore openDeadDropDb true [("c1", MkChannelRecord "c1" [4])] in
  exists l, Channels.list s = (Ok l, s) /\ NoDup (cr_id <$> l).
Proof.
  intros s.
  destruct (Channels.channel_list_agrees_with_get s (MkChannelRecord "c1" [5]) "c1") as ((l & E & Hn & _) & _).
  - split; [split; [apply NoDup_nil_2|]|split; [apply NoDup_singleton|]].
    + intros k r Hk. by apply not_elem_of_nil in Hk.
    + by intros k r [= -> ->]%list_elem_of_singleton.
  - exists l. split; [exact E|exact Hn].
Defined.

Lemma vault_custody_witness :
  exists k s', MskVault.create (Key := bytes) "alice" "secret" (openDeadDropDb, 0%nat) = (Ok k, s') /\
    MskVault.unlock (Key := bytes) "alice" "secret" s' = (Ok (Some k), s').
Proof.
  destruct (MskVault.create (Key := bytes) "alice" "secret" (openDeadDropDb, 0%nat)) as [[k|e] s'] eqn:E;
    [|vm_compute in E; discriminate].
  exists k, s'. split; [reflexivity|].
  exact (proj1 (MskVault.vault_custody (Key := bytes) "alice" "secret" (openDeadDropDb, 0%nat) s' k E)).
Defined.

Lemma panic_wipe_kills_keys_first_witness :
  let s := (MskVault.create (Key := bytes) "alice" "secret" (openDeadDropDb, 0%nat)).2 in
  (exists k, (MskVault.unlock (Key := bytes) "alice" "secret" s).1 = Ok (Some k)) /\
  (MskVault.unlock (Key := bytes) "alice" "secret" (MskVault.run_steps (take 1 MskVault.panic_steps) s.1, s.2)).1 = Ok None.
Proof.
  intros s. split; [eexists; vm_compute; reflexivity|].
  exact (proj1 (MskVault.panic_wipe_kills_keys_first (Key := bytes) s.1 s.2 1 "alice" "secret" (le_n 1))).
Defined.

(** One tab opens, alone: it takes the lock, reads, and shows. *)
Lemma burn_shown_in_one_tab_witness :
  exists (x : Lifetimes.Tabs (S := Keyvault)) t p, Lifetimes.tabs x !! t = Some (Lifetimes.Finished (Some p)) /\ t = 0%nat.
Proof.
  pose (r := sealed burn_meta false). pose (d := holding r).
  pose (d' := (Keyvault.put (Vault.tombstone r) d).2).
  pose (x := Lifetimes.MkTabs [Lifetimes.Finished (Some [1; 2; 3])] None d').
  exists x, 0%nat, [1; 2; 3]. split; [reflexivity|].
  refine (Lifetimes.burn_shown_in_one_tab msk "m1" 1 d x 0 0 [1; 2; 3] [1; 2; 3] (holding_ok r) _ eq_refl eq_refl).
  eapply rtc_l; [exact (Lifetimes.TAcquire msk "m1" [Lifetimes.Waiting] d 0 eq_refl)|].
  eapply rtc_l; [exact (Lifetimes.TGet msk "m1" [Lifetimes.Holding] (Some 0%nat) d d 0 (Some r) eq_refl eq_refl)|].
  eapply rtc_l; [exact (Lifetimes.TShow msk "m1" [Lifetimes.Got (Some r)] (Some 0%nat) d d' 0 r [1; 2; 3]
                          eq_refl eq_refl eq_refl eq_refl eq_refl)|].
  apply rtc_refl.
Defined.
End IdbExamples.
