(* ===== verification/Transport.v ===== *)
(** * The gateway transport (client/src/transport.ts)

    Paced publishing with retransmission on rate limits, and the dispatch of inbound frames.  The
    socket and the wire codec are injected in the source and are classes here. *)

From S2P Require Import Prelude Session.

Inductive IncomingServerFrame :=
  | FDeliver (envelope : EnvelopeMsg)
  | FReceipt (messageId : bytes)
  | FError (code : Z) (detail : string)
  | FOffer (offer : OfferMsg)
  | FAccept (accept : AcceptMsg).

Class WireCodec := {
  encodeSubscribe : string -> string -> bytes;
  encodePublish : EnvelopeMsg -> bytes;
  encodeAck : bytes -> bytes;
  encodeOffer : OfferMsg -> bytes;
  encodeAccept : AcceptMsg -> bytes;
  decodeServerFrame : bytes -> result IncomingServerFrame
}.

Class Socket (W : Type) := {
  socket_send : bytes -> M W unit;
  socket_close : M W unit
}.

(** What a socket promises: a send that returns has queued exactly its bytes, one that throws has
    queued nothing. *)
Class SocketLaws (W : Type) `{Socket W} := {
  wire : W -> list bytes;
  send_wire b w : wire (socket_send b w).2 =
    match (socket_send b w).1 with Ok _ => wire w ++ [b] | Throw _ => wire w end
}.

(** The calls made to [TransportHandlers]. *)
Inductive call :=
  | COnDeliver (envelope : EnvelopeMsg)
  | COnReceipt (messageId : bytes)
  | COnOffer (offer : OfferMsg)
  | COnAccept (accept : AcceptMsg)
  | COnError (code : Z) (detail : string)
  | COnClose.

(** A timer field holds the delay it was set with, [None] for [null]. *)
Record Transport (W : Type) := MkTransport {
  consumerIdFor : string -> string;
  publishQueue : list EnvelopeMsg;
  publishTimer : option Z;
  currentGapMs : Z;
  cleanSinceBackoff : Z;
  retryTimer : option Z;
  unconfirmed : list (string * EnvelopeMsg);
  calls : list call;
  world : W
}.
Arguments MkTransport {_} _ _ _ _ _ _ _ _ _.
Arguments consumerIdFor {_} _.
Arguments publishQueue {_} _.
Arguments publishTimer {_} _.
Arguments currentGapMs {_} _.
Arguments cleanSinceBackoff {_} _.
Arguments retryTimer {_} _.
Arguments unconfirmed {_} _.
Arguments calls {_} _.
Arguments world {_} _.

Module Transports.
Definition hexId (b : bytes) : string := bytesToHex b.

Definition PUBLISH_GAP_FLOOR_MS : Z := 55.
Definition PUBLISH_GAP_CAP_MS : Z := 1000.
Definition RATE_LIMIT_CODE : Z := 3.
Definition CLEAN_STREAK_TO_EASE : Z := 8.
Definition MAX_UNCONFIRMED : nat := 256.

Section transport.
Context {W : Type} `{WireCodec} `{Socket W}.

Implicit Types (s : Transport W) (e : EnvelopeMsg).

Definition set_consumer (f : string -> string) s : Transport W :=
  MkTransport f (publishQueue s) (publishTimer s) (currentGapMs s) (cleanSinceBackoff s)
    (retryTimer s) (unconfirmed s) (calls s) (world s).
Definition set_queue (q : list EnvelopeMsg) s : Transport W :=
  MkTransport (consumerIdFor s) q (publishTimer s) (currentGapMs s) (cleanSinceBackoff s)
    (retryTimer s) (unconfirmed s) (calls s) (world s).
Definition set_publishTimer (t : option Z) s : Transport W :=
  MkTransport (consumerIdFor s) (publishQueue s) t (currentGapMs s) (cleanSinceBackoff s)
    (retryTimer s) (unconfirmed s) (calls s) (world s).
Definition set_gap (g : Z) s : Transport W :=
  MkTransport (consumerIdFor s) (publishQueue s) (publishTimer s) g (cleanSinceBackoff s)
    (retryTimer s) (unconfirmed s) (calls s) (world s).
Definition set_clean (c : Z) s : Transport W :=
  MkTransport (consumerIdFor s) (publishQueue s) (publishTimer s) (currentGapMs s) c
    (retryTimer s) (unconfirmed s) (calls s) (world s).
Definition set_retryTimer (t : option Z) s : Transport W :=
  MkTransport (consumerIdFor s) (publishQueue s) (publishTimer s) (currentGapMs s)
    (cleanSinceBackoff s) t (unconfirmed s) (calls s) (world s).
Definition set_unconfirmed (m : list (string * EnvelopeMsg)) s : Transport W :=
  MkTransport (consumerIdFor s) (publishQueue s) (publishTimer s) (currentGapMs s)
    (cleanSinceBackoff s) (retryTimer s) m (calls s) (world s).
Definition handlers (c : call) : M (Transport W) unit :=
  modify (fun s =>
    MkTransport (consumerIdFor s) (publishQueue s) (publishTimer s) (currentGapMs s)
      (cleanSinceBackoff s) (retryTimer s) (unconfirmed s) (calls s ++ [c]) (world s)).
Definition on_socket {A} (m : M W A) : M (Transport W) A :=
  zoom world (fun w s =>
    MkTransport (consumerIdFor s) (publishQueue s) (publishTimer s) (currentGapMs s)
      (cleanSinceBackoff s) (retryTimer s) (unconfirmed s) (calls s) w) m.

(** [new Transport(socket, codec, handlers)] *)
Definition initial (w : W) : Transport W :=
  MkTransport (fun _ => "") [] None PUBLISH_GAP_FLOOR_MS 0 None [] [] w.

Definition setConsumerIdResolver (resolver : string -> string) : M (Transport W) unit :=
  modify (set_consumer resolver).

Definition subscribe (routingKey : string) : M (Transport W) unit :=
  let! f := gets consumerIdFor in
  on_socket (socket_send (encodeSubscribe routingKey (f routingKey))).

(** The loop that keeps the retry buffer bounded; every turn removes the oldest key, so the
    buffer's length is enough fuel. *)
Fixpoint drop_oldest (fuel : nat) (m : list (string * EnvelopeMsg)) : list (string * EnvelopeMsg) :=
  match fuel with
  | O => m
  | S fuel =>
      if (MAX_UNCONFIRMED <? length m)%nat then
        match m with
        | [] => m
        | (oldest, _) :: _ => drop_oldest fuel (JsMap.remove oldest m)
        end
      else m
  end.

Definition remember e (m : list (string * EnvelopeMsg)) : list (string * EnvelopeMsg) :=
  let m := JsMap.set (hexId (env_messageId e)) e m in drop_oldest (length m) m.

Definition drainPublishQueue : M (Transport W) unit := fun s =>
  match publishTimer s, publishQueue s with
  | Some _, _ => (Ok tt, s)
  | None, [] => (Ok tt, s)
  | None, next :: _ =>
      match on_socket (socket_send (encodePublish next)) s with
      | (Throw _, s1) => (Ok tt, s1)
      | (Ok _, s1) =>
          let s2 := set_queue (tail (publishQueue s1)) s1 in
          let s3 := set_unconfirmed (remember next (unconfirmed s2)) s2 in
          (Ok tt, set_publishTimer (Some (currentGapMs s3)) s3)
      end
  end.

Definition publish e : M (Transport W) unit :=
  do! modify (fun s => set_queue (publishQueue s ++ [e]) s) in
  drainPublishQueue.

(** The callback of the publish timer. *)
Definition publishTimer_fires : M (Transport W) unit :=
  do! modify (set_publishTimer None) in
  drainPublishQueue.

(** [Math.ceil(gap * 1.5)] and [Math.floor(gap / 1.5)] *)
Definition slower (gap : Z) : Z := (3 * gap + 1) / 2.
Definition faster (gap : Z) : Z := 2 * gap / 3.

Definition onRateLimited : M (Transport W) unit :=
  modify (fun s =>
    let s := set_gap (Z.min PUBLISH_GAP_CAP_MS (slower (currentGapMs s))) s in
    let s := set_clean 0 s in
    match retryTimer s with
    | Some _ => s
    | None => set_retryTimer (Some (currentGapMs s)) s
    end).

(** The callback of the retry timer. *)
Definition retryTimer_fires : M (Transport W) unit :=
  do! modify (set_retryTimer None) in
  do! modify (fun s =>
    match unconfirmed s with
    | [] => s
    | m => set_queue (m.*2 ++ publishQueue s) (set_unconfirmed [] s)
    end) in
  drainPublishQueue.

Definition onDelivered (messageId : bytes) : M (Transport W) unit :=
  modify (fun s =>
    let s := set_unconfirmed (JsMap.remove (hexId messageId) (unconfirmed s)) s in
    if PUBLISH_GAP_FLOOR_MS <? currentGapMs s then
      let s := set_clean (cleanSinceBackoff s + 1) s in
      if CLEAN_STREAK_TO_EASE <=? cleanSinceBackoff s then
        set_clean 0 (set_gap (Z.max PUBLISH_GAP_FLOOR_MS (faster (currentGapMs s))) s)
      else s
    else s).

Definition takePending : M (Transport W) (list EnvelopeMsg) := fun s =>
  let s := set_publishTimer None s in
  let s := set_retryTimer None s in
  let pending := (unconfirmed s).*2 ++ publishQueue s in
  let s := set_queue [] s in
  (Ok pending, set_unconfirmed [] s).

Definition ack (messageId : bytes) : M (Transport W) unit :=
  on_socket (socket_send (encodeAck messageId)).
Definition sendOffer (offer : OfferMsg) : M (Transport W) unit :=
  on_socket (socket_send (encodeOffer offer)).
Definition sendAccept (accept : AcceptMsg) : M (Transport W) unit :=
  on_socket (socket_send (encodeAccept accept)).

Definition close : M (Transport W) unit :=
  do! modify (fun s =>
    set_unconfirmed [] (set_queue [] (set_retryTimer None (set_publishTimer None s)))) in
  on_socket socket_close.

Definition dispatch (bs : bytes) : M (Transport W) unit :=
  match decodeServerFrame bs with
  | Throw _ => handlers (COnError (-1) "undecodable server frame")
  | Ok (FDeliver envelope) => handlers (COnDeliver envelope)
  | Ok (FReceipt messageId) => do! onDelivered messageId in handlers (COnReceipt messageId)
  | Ok (FOffer offer) => handlers (COnOffer offer)
  | Ok (FAccept accept) => handlers (COnAccept accept)
  | Ok (FError code detail) =>
      do! (if code =? RATE_LIMIT_CODE then onRateLimited else ret tt) in
      handlers (COnError code detail)
  end.

(** The socket closed under the transport. *)
Definition socket_closed : M (Transport W) unit := handlers COnClose.
End transport.

(** ** Runs *)
Section runs.
Context {W : Type} `{WireCodec} `{SocketLaws W}.

Implicit Types (s : Transport W) (e : EnvelopeMsg).

Inductive op :=
  | OPublish (e : EnvelopeMsg)
  | OReceive (bs : bytes)
  | OPublishTimer
  | ORetryTimer
  | OSubscribe (k : string)
  | OAck (messageId : bytes)
  | OSendOffer (offer : OfferMsg)
  | OSendAccept (accept : AcceptMsg).

Definition exec (o : op) s : Transport W :=
  match o with
  | OPublish e => (publish e s).2
  | OReceive bs => (dispatch bs s).2
  | OPublishTimer => (publishTimer_fires s).2
  | ORetryTimer => (retryTimer_fires s).2
  | OSubscribe k => (subscribe k s).2
  | OAck i => (ack i s).2
  | OSendOffer m => (sendOffer m s).2
  | OSendAccept m => (sendAccept m s).2
  end.

Definition run (os : list op) s : Transport W := foldl (fun s o => exec o s) s os.

Definition idOf e : string := hexId (env_messageId e).

(** What [takePending] would hand to the next connection. *)
Definition pending s : list EnvelopeMsg := (unconfirmed s).*2 ++ publishQueue s.

Lemma takePending_pending s :
  takePending s = (Ok (pending s), set_unconfirmed [] (set_queue [] (set_retryTimer None (set_publishTimer None s)))).
Proof. done. Qed.

(** *** The retry buffer *)
Lemma drop_oldest_bound fuel m :
  (length m <= fuel)%nat -> (length (drop_oldest fuel m) <= MAX_UNCONFIRMED)%nat.
Proof.
  revert m. induction fuel as [|fuel IH]; intros m Hl; cbn [drop_oldest].
  - unfold MAX_UNCONFIRMED. lia.
  - destruct (Nat.ltb_spec MAX_UNCONFIRMED (length m)) as [Hlt|]; [|lia].
    destruct m as [|[k v] m]; [cbn in Hlt; lia|]. apply IH. cbn [JsMap.remove].
    rewrite decide_True by done. pose proof (JsMap.length_remove_le k m). cbn in Hl. lia.
Qed.

Lemma drop_oldest_small fuel m :
  (length m <= MAX_UNCONFIRMED)%nat -> drop_oldest fuel m = m.
Proof.
  intros Hl. destruct fuel as [|fuel]; [done|]. cbn [drop_oldest].
  by rewrite (proj2 (Nat.ltb_ge _ _)) by done.
Qed.

Lemma remember_bound e m : (length (remember e m) <= MAX_UNCONFIRMED)%nat.
Proof. by apply drop_oldest_bound. Qed.

Lemma remember_fresh e m :
  idOf e ∉ m.*1 -> (length m < MAX_UNCONFIRMED)%nat -> remember e m = m ++ [(idOf e, e)].
Proof.
  intros Hf Hl. unfold remember, idOf in *. rewrite JsMap.set_fresh by done. cbn zeta.
  apply drop_oldest_small. rewrite length_app. cbn. lia.
Qed.

(** *** One turn of the pacer *)
Lemma on_socket_run {A} (m : M W A) s :
  exists w', on_socket m s = ((m (world s)).1,
    MkTransport (consumerIdFor s) (publishQueue s) (publishTimer s) (currentGapMs s)
      (cleanSinceBackoff s) (retryTimer s) (unconfirmed s) (calls s) w') /\
    w' = (m (world s)).2.
Proof. unfold on_socket, zoom. destruct (m (world s)) as [r w'] eqn:E. by exists w'. Qed.

Inductive drained s : Transport W -> Prop :=
  | DIdle : publishTimer s <> None \/ publishQueue s = [] -> drained s s
  | DClosed next q s' :
      publishTimer s = None -> publishQueue s = next :: q ->
      (forall x, (socket_send (encodePublish next) (world s)).1 <> Ok x) ->
      publishQueue s' = publishQueue s -> unconfirmed s' = unconfirmed s ->
      publishTimer s' = None -> currentGapMs s' = currentGapMs s ->
      cleanSinceBackoff s' = cleanSinceBackoff s -> retryTimer s' = retryTimer s ->
      wire (world s') = wire (world s) -> drained s s'
  | DSent next q s' :
      publishTimer s = None -> publishQueue s = next :: q ->
      publishQueue s' = q -> unconfirmed s' = remember next (unconfirmed s) ->
      publishTimer s' = Some (currentGapMs s) -> currentGapMs s' = currentGapMs s ->
      cleanSinceBackoff s' = cleanSinceBackoff s -> retryTimer s' = retryTimer s ->
      world s' = (socket_send (encodePublish next) (world s)).2 ->
      wire (world s') = wire (world s) ++ [encodePublish next] -> drained s s'.

Lemma drain_drained s : drained s (drainPublishQueue s).2.
Proof.
  unfold drainPublishQueue. destruct (publishTimer s) as [d|] eqn:Et; [apply DIdle; left; cbn; congruence|].
  destruct (publishQueue s) as [|next q] eqn:Eq; [apply DIdle; by right|].
  destruct (on_socket_run (socket_send (encodePublish next)) s) as (w' & E & Ew). rewrite E.
  pose proof (send_wire (encodePublish next) (world s)) as Hw. rewrite <-Ew in Hw.
  destruct (socket_send (encodePublish next) (world s)).1 as [u|err] eqn:Er.
  - eapply DSent; cbn; try done. by rewrite Eq.
  - eapply DClosed; cbn; try done. intros x. by rewrite Er.
Qed.

(** ** Nothing is lost *)
Definition wf s : Prop :=
  Forall (fun x => x.1 = idOf x.2) (unconfirmed s) /\ NoDup (idOf <$> pending s).

Lemma wf_keys s : wf s -> (unconfirmed s).*1 = idOf <$> (unconfirmed s).*2.
Proof.
  intros [Hk _]. rewrite <-list_fmap_compose. apply list_fmap_ext. intros i x Hx.
  by apply (Forall_lookup_1 _ _ _ _ Hk Hx).
Qed.

Lemma drain_pending s :
  wf s -> (length (unconfirmed s) < MAX_UNCONFIRMED)%nat ->
  pending (drainPublishQueue s).2 = pending s /\ wf (drainPublishQueue s).2.
Proof.
  intros Hw Hl. pose proof (wf_keys s Hw) as Hk.
  destruct (drain_drained s) as [|next q s' _ _ _ Eq Eu|next q s' Et Eqs Eq Eu].
  - done.
  - unfold wf, pending. by rewrite Eq, Eu.
  - destruct Hw as [Hf Hn]. unfold pending in Hn. rewrite Eqs, fmap_app in Hn.
    apply NoDup_app in Hn as Hn'. destruct Hn' as (_ & Hdis & _).
    assert (Hr : unconfirmed s' = unconfirmed s ++ [(idOf next, next)]).
    { rewrite Eu. apply remember_fresh; [|done]. rewrite Hk. intros Hin.
      apply (Hdis _ Hin). left. }
    assert (Hp : pending s' = pending s).
    { unfold pending. rewrite Hr, Eq, Eqs, fmap_app, <-app_assoc. done. }
    split; [done|]. split.
    + rewrite Hr. apply Forall_app. split; [done|]. by apply Forall_singleton.
    + rewrite Hp. unfold pending. by rewrite Eqs, fmap_app.
Qed.

(** What confirms an envelope. *)
Definition receipt_of (o : op) : option string :=
  match o with
  | OReceive bs => match decodeServerFrame bs with Ok (FReceipt i) => Some (hexId i) | _ => None end
  | _ => None
  end.
Definition published (os : list op) : list EnvelopeMsg :=
  omap (fun o => match o with OPublish e => Some e | _ => None end) os.

Definition without (k : option string) s : list EnvelopeMsg :=
  match k with
  | Some k => (JsMap.remove k (unconfirmed s)).*2 ++ publishQueue s
  | None => pending s
  end.

Lemma remove_values k m :
  (Forall (fun x => x.1 = idOf x.2) m) ->
  (JsMap.remove k m).*2 = List.filter (fun e => negb (bool_decide (k = idOf e))) m.*2.
Proof.
  induction m as [|[k' e] m IH]; intros Hf; [done|]. apply Forall_cons in Hf as [Hke Hf].
  cbn in Hke |- *. rewrite <-Hke. destruct (decide (k = k')) as [->|Hne].
  - rewrite bool_decide_true by done. cbn. by apply IH.
  - rewrite bool_decide_false by done. cbn. f_equal. by apply IH.
Qed.

(** Sending on the socket touches nothing but the world. *)
Lemma on_socket_keeps {A} (m : M W A) s :
  pending (on_socket m s).2 = pending s /\ (wf s -> wf (on_socket m s).2).
Proof. destruct (on_socket_run m s) as (w' & -> & _). done. Qed.

Lemma without_sublist k s : without k s `sublist_of` pending s.
Proof.
  destruct k as [k|]; [|done]. unfold without, pending. apply sublist_app; [|done].
  induction (unconfirmed s) as [|[k' e] m IH]; [done|]. cbn.
  destruct (decide (k = k')); [by apply sublist_cons|by apply sublist_skip].
Qed.

Lemma onDelivered_pending i s :
  wf s -> pending (onDelivered i s).2 = without (Some (hexId i)) s /\ wf (onDelivered i s).2.
Proof.
  intros [Hf Hn].
  assert (E : unconfirmed (onDelivered i s).2 = JsMap.remove (hexId i) (unconfirmed s) /\
              publishQueue (onDelivered i s).2 = publishQueue s).
  { unfold onDelivered, modify. cbn.
    destruct (PUBLISH_GAP_FLOOR_MS <? currentGapMs s); [|done].
    by destruct (CLEAN_STREAK_TO_EASE <=? cleanSinceBackoff s + 1). }
  destruct E as [Eu Eq].
  assert (Ep : pending (onDelivered i s).2 = without (Some (hexId i)) s)
    by (unfold pending, without; by rewrite Eu, Eq).
  split; [done|]. split.
  - rewrite Eu. apply Forall_forall. intros x [Hx _]%JsMap.elem_of_remove.
    by apply (proj1 (Forall_forall _ _) Hf).
  - rewrite Ep. eapply sublist_NoDup; [exact Hn|apply fmap_sublist, without_sublist].
Qed.

Lemma exec_pending o s :
  wf s -> (length (unconfirmed s) < MAX_UNCONFIRMED)%nat ->
  (forall e, o = OPublish e -> idOf e ∉ idOf <$> pending s) ->
  pending (exec o s) = without (receipt_of o) s ++ published [o] /\ wf (exec o s).
Proof.
  intros Hw Hl Hfresh. destruct o as [e|bs| | |k|i|m|m]; cbn [exec receipt_of published omap list_omap];
    rewrite ?app_nil_r.
  - set (s1 := set_queue (publishQueue s ++ [e]) s). change (publish e s) with (drainPublishQueue s1).
    assert (Hp : pending s1 = pending s ++ [e]) by (unfold pending; cbn; by rewrite app_assoc).
    destruct (drain_pending s1) as [E1 E2].
    + destruct Hw as [Hf Hn]. split; [done|]. rewrite Hp, fmap_app. apply NoDup_app.
      split; [done|]. split; [|apply NoDup_singleton].
      intros x Hx ->%list_elem_of_singleton. by apply (Hfresh e).
    + done.
    + by rewrite E1, Hp.
  - unfold dispatch. destruct (decodeServerFrame bs) as [[env|i|code d|o|a]|err]; try done.
    + change ((do! onDelivered i in handlers (COnReceipt i)) s)
        with (handlers (COnReceipt i) (onDelivered i s).2).
      by apply onDelivered_pending.
    + destruct (code =? RATE_LIMIT_CODE); [|done]. unfold onRateLimited, modify, bind. cbn.
      by destruct (retryTimer s).
  - change (publishTimer_fires s) with (drainPublishQueue (set_publishTimer None s)).
    by apply (drain_pending (set_publishTimer None s)).
  - set (s1 := set_retryTimer None s).
    set (s2 := match unconfirmed s1 with
               | [] => s1
               | m => set_queue (m.*2 ++ publishQueue s1) (set_unconfirmed [] s1)
               end).
    change (retryTimer_fires s) with (drainPublishQueue s2).
    assert (Hs2 : pending s2 = pending s /\ (length (unconfirmed s2) < MAX_UNCONFIRMED)%nat /\
                  Forall (fun x => x.1 = idOf x.2) (unconfirmed s2)).
    { subst s2. unfold pending. change (unconfirmed s1) with (unconfirmed s).
      change (publishQueue s1) with (publishQueue s).
      destruct (unconfirmed s) as [|x m] eqn:Eu; cbn.
      - rewrite Eu. split; [done|]. split; [unfold MAX_UNCONFIRMED; cbn; lia|constructor].
      - split; [done|]. split; [unfold MAX_UNCONFIRMED; cbn; lia|constructor]. }
    destruct Hs2 as (Hp & Hl2 & Hf2). change (without None s) with (pending s). rewrite <-Hp.
    apply drain_pending; [|done]. split; [done|]. rewrite Hp. apply Hw.
  - unfold subscribe, bind, gets.
    destruct (on_socket_keeps (socket_send (encodeSubscribe k (consumerIdFor s k))) s) as [E1 E2].
    split; [exact E1|by apply E2].
  - destruct (on_socket_keeps (socket_send (encodeAck i)) s) as [E1 E2].
    split; [exact E1|by apply E2].
  - destruct (on_socket_keeps (socket_send (encodeOffer m)) s) as [E1 E2].
    split; [exact E1|by apply E2].
  - destruct (on_socket_keeps (socket_send (encodeAccept m)) s) as [E1 E2].
    split; [exact E1|by apply E2].
Qed.

Lemma published_app a b : published (a ++ b) = published a ++ published b.
Proof. apply omap_app. Qed.

(** *** On the wire *)

(** A frame is in the queue, or its bytes were handed to the socket. *)
Definition accounted s e : Prop := e ∈ publishQueue s \/ encodePublish e ∈ wire (world s).

Lemma drain_accounted s e : accounted s e -> accounted (drainPublishQueue s).2 e.
Proof.
  intros Ha. unfold accounted. destruct (drain_drained s) as [|next q s' _ _ _ Eq _ _ _ _ _ Ew|next q s' _ Eqs Eq _ _ _ _ _ _ Ew].
  - done.
  - by rewrite Eq, Ew.
  - rewrite Eq, Ew. destruct Ha as [Hq|Hw]; [|right; apply elem_of_app; by left].
    rewrite Eqs in Hq. apply elem_of_cons in Hq as [->|Hq]; [|by left]. right. apply elem_of_app. right. left.
Qed.

Lemma send_accounted b s e : accounted s e -> accounted (on_socket (socket_send b) s).2 e.
Proof.
  destruct (on_socket_run (socket_send b) s) as (w' & -> & ->). intros [Hq|Hw]; [by left|right]. cbn [world snd].
  rewrite send_wire. destruct (socket_send b (world s)).1; [apply elem_of_app; by left | done].
Qed.

Lemma exec_accounted o s e : accounted s e \/ o = OPublish e -> accounted (exec o s) e.
Proof.
  intros Ha. assert (Hn : o <> OPublish e -> accounted s e) by tauto.
  destruct o as [e'|bs| | |k|i|m|m]; cbn [exec]; try (apply send_accounted, Hn; done).
  - apply (drain_accounted (set_queue (publishQueue s ++ [e']) s)). destruct Ha as [[Hq|Hw]|[= ->]].
    + left. cbn. apply elem_of_app. by left.
    + by right.
    + left. cbn. apply elem_of_app. right. left.
  - specialize (Hn ltac:(done)). unfold dispatch. destruct (decodeServerFrame bs) as [[env|i|code d|m|a]|err]; try done.
    + unfold onDelivered, modify, bind, handlers. cbn. destruct (PUBLISH_GAP_FLOOR_MS <? currentGapMs s); [|done].
      by destruct (CLEAN_STREAK_TO_EASE <=? cleanSinceBackoff s + 1).
    + destruct (code =? RATE_LIMIT_CODE); [|done]. unfold onRateLimited, modify, bind, handlers. cbn. by destruct (retryTimer s).
  - apply (drain_accounted (set_publishTimer None s)), Hn; done.
  - specialize (Hn ltac:(done)). set (s1 := set_retryTimer None s).
    apply (drain_accounted (match unconfirmed s1 with
               | [] => s1
               | m => set_queue (m.*2 ++ publishQueue s1) (set_unconfirmed [] s1)
               end)).
    destruct (unconfirmed s1); [exact Hn|]. destruct Hn as [Hq|Hw]; [left; cbn; set_solver | by right].
Qed.

Lemma run_accounted os (w : W) e : e ∈ published os -> accounted (run os (initial w)) e.
Proof.
  induction os as [|o os IH] using rev_ind; [by intros ?%not_elem_of_nil|].
  rewrite published_app. unfold run. rewrite foldl_app. cbn [foldl]. intros [He|He]%elem_of_app; apply exec_accounted.
  - left. by apply IH.
  - right. destruct o; cbn in He; try by apply not_elem_of_nil in He. by apply list_elem_of_singleton in He as ->.
Qed.

(** A frame waits for a receipt only when it was handed to the socket. *)
Definition all_sent s : Prop := Forall (fun e => encodePublish e ∈ wire (world s)) (unconfirmed s).*2.

Lemma set_values (P : EnvelopeMsg -> Prop) (k : string) e m : Forall P m.*2 -> P e -> Forall P (JsMap.set k e m).*2.
Proof.
  intros Hm He. induction m as [|[k' e'] m IH]; cbn in *; [by constructor|]. apply Forall_cons in Hm as [Hm1 Hm2].
  destruct (decide (k = k')); cbn; constructor; auto.
Qed.
Lemma remove_Forall (P : EnvelopeMsg -> Prop) (k : string) m : Forall P m.*2 -> Forall P (JsMap.remove k m).*2.
Proof.
  intros Hm. induction m as [|[k' e'] m IH]; cbn in *; [done|]. apply Forall_cons in Hm as [Hm1 Hm2].
  destruct (decide (k = k')); cbn; [auto | constructor; auto].
Qed.
Lemma remember_values (P : EnvelopeMsg -> Prop) e m : Forall P m.*2 -> P e -> Forall P (remember e m).*2.
Proof.
  intros Hm He. unfold remember. cbv zeta. pose proof (set_values P (hexId (env_messageId e)) e m Hm He) as Hs.
  generalize (length (JsMap.set (hexId (env_messageId e)) e m)). revert Hs.
  generalize (JsMap.set (hexId (env_messageId e)) e m). intros l Hl n. revert l Hl.
  induction n as [|n IH]; intros l Hl; cbn [drop_oldest]; [done|].
  destruct (_ <? _)%nat; [|done]. destruct l as [|[k v] l]; [done|]. by apply IH, remove_Forall.
Qed.

Lemma drain_all_sent s : all_sent s -> all_sent (drainPublishQueue s).2.
Proof.
  intros Ha. unfold all_sent. destruct (drain_drained s) as [|next q s' _ _ _ _ Eu _ _ _ _ Ew|next q s' _ _ _ Eu _ _ _ _ _ Ew].
  - done.
  - by rewrite Eu, Ew.
  - rewrite Eu, Ew. apply remember_values; [|apply elem_of_app; right; left].
    eapply Forall_impl; [exact Ha|]. intros e He. apply elem_of_app. by left.
Qed.
Lemma send_all_sent b s : all_sent s -> all_sent (on_socket (socket_send b) s).2.
Proof.
  unfold all_sent. destruct (on_socket_run (socket_send b) s) as (w' & -> & ->). cbn [world unconfirmed snd]. intros Ha.
  eapply Forall_impl; [exact Ha|]. intros e He. cbn beta. rewrite send_wire.
  destruct (socket_send b (world s)).1; [apply elem_of_app; by left | done].
Qed.
Lemma exec_all_sent o s : all_sent s -> all_sent (exec o s).
Proof.
  intros Ha. destruct o as [e|bs| | |k|i|m|m]; cbn [exec]; try (by apply send_all_sent).
  - by apply (drain_all_sent (set_queue (publishQueue s ++ [e]) s)).
  - unfold dispatch. destruct (decodeServerFrame bs) as [[env|i|code d|m|a]|err]; try done.
    + assert (Hr : all_sent (set_unconfirmed (JsMap.remove (hexId i) (unconfirmed s)) s)) by by apply remove_Forall.
      unfold onDelivered, modify, bind, handlers. cbn. destruct (PUBLISH_GAP_FLOOR_MS <? currentGapMs s); [|exact Hr].
      by destruct (CLEAN_STREAK_TO_EASE <=? cleanSinceBackoff s + 1).
    + destruct (code =? RATE_LIMIT_CODE); [|done]. unfold onRateLimited, modify, bind, handlers. cbn. by destruct (retryTimer s).
  - by apply (drain_all_sent (set_publishTimer None s)).
  - set (s1 := set_retryTimer None s).
    apply (drain_all_sent (match unconfirmed s1 with
               | [] => s1
               | m => set_queue (m.*2 ++ publishQueue s1) (set_unconfirmed [] s1)
               end)).
    destruct (unconfirmed s1); [exact Ha | constructor].
Qed.
Lemma run_sent os (w : W) e : e ∈ (unconfirmed (run os (initial w))).*2 -> encodePublish e ∈ wire (world (run os (initial w))).
Proof.
  assert (Hs0 : all_sent (run os (initial w))).
  { unfold run. assert (Hs0 : all_sent (initial w)) by constructor. revert Hs0. generalize (initial w).
    induction os as [|o os IH]; intros s Hs; [done|]. cbn [foldl]. by apply IH, exec_all_sent. }
  unfold all_sent in Hs0. rewrite Forall_forall in Hs0. apply Hs0.
Qed.

(** What [takePending] would hand on is all that is published and not receipted, in order. *)
Lemma pending_published os (w : W) :
  NoDup (idOf <$> published os) ->
  (forall os', os' `prefix_of` os -> (length (unconfirmed (run os' (initial w))) < MAX_UNCONFIRMED)%nat) ->
  wf (run os (initial w)) /\ pending (run os (initial w)) `sublist_of` published os /\
  forall e, e ∈ published os -> e ∈ pending (run os (initial w)) \/ Some (idOf e) ∈ receipt_of <$> os.
Proof.
  intros Hn Hb.
  induction os as [|o os IH] using rev_ind.
  { split; [split; constructor|]. split; [done|]. intros e He. by apply not_elem_of_nil in He. }
  rewrite published_app, fmap_app in Hn. apply NoDup_app in Hn as (Hn1 & Hdis & _).
  destruct IH as (Hw & Hs & He); [done| |].
  { intros os' Hos. apply Hb. by apply prefix_app_r. }
  unfold run in *. rewrite foldl_app. cbn [foldl]. set (s := foldl _ _ os) in *.
  destruct (exec_pending o s Hw) as [Ep Hw'].
  { by apply (Hb os), prefix_app_r. }
  { intros e -> Hin. apply (Hdis (idOf e)); [|left].
    eapply sublist_subseteq; [|exact Hin]. by apply fmap_sublist. }
  split; [done|]. rewrite Ep, published_app. split.
  - apply sublist_app; [|done]. etrans; [apply without_sublist|done].
  - intros e Hin. rewrite fmap_app. apply elem_of_app in Hin as [Hin|Hin].
    2: { left. apply elem_of_app. by right. }
    destruct (He e Hin) as [Hin'|Hr]; [|right; apply elem_of_app; by left].
    destruct (receipt_of o) as [k|] eqn:Er; [|left; apply elem_of_app; by left].
    unfold pending in Hin'. unfold without. rewrite (remove_values k (unconfirmed s)) by apply Hw.
    apply elem_of_app in Hin' as [Hu|Hq].
    + destruct (decide (k = idOf e)) as [->|Hne].
      * right. apply elem_of_app. right. apply list_elem_of_singleton. cbn. by rewrite Er.
      * left. apply elem_of_app. left. apply elem_of_app. left.
        apply list_elem_of_In, filter_In. split; [by apply list_elem_of_In|].
        by rewrite bool_decide_false.
    + left. apply elem_of_app. left. apply elem_of_app. by right.
Qed.

(** C31. No published frame is lost.  Over any run of publishes, inbound frames, timer callbacks and
    other sends, whatever the socket does, with distinct message ids and fewer than 256 frames
    awaiting a receipt: every published envelope is in the queue, or its bytes were handed to the socket and
    it is kept until a receipt for its id arrives.  And what [takePending] hands to the next
    connection is those waiting for a receipt, each of which was sent, then the queue: in publishing order
    and without duplicates, published envelopes only, every one of them unless a receipt for it arrived. *)
Theorem no_frame_lost os (w : W) :
  NoDup (idOf <$> published os) ->
  (forall os', os' `prefix_of` os -> (length (unconfirmed (run os' (initial w))) < MAX_UNCONFIRMED)%nat) ->
  let s := run os (initial w) in
  (forall e, e ∈ published os -> e ∈ publishQueue s \/
     encodePublish e ∈ wire (world s) /\ (e ∈ (unconfirmed s).*2 \/ Some (idOf e) ∈ receipt_of <$> os)) /\
  exists s', takePending s = (Ok ((unconfirmed s).*2 ++ publishQueue s), s') /\
    let l := (unconfirmed s).*2 ++ publishQueue s in
    l `sublist_of` published os /\ NoDup (idOf <$> l) /\
    (forall e, e ∈ published os -> e ∈ l \/ Some (idOf e) ∈ receipt_of <$> os) /\
    (forall e, e ∈ (unconfirmed s).*2 -> encodePublish e ∈ wire (world s)) /\
    unconfirmed s' = [] /\ publishQueue s' = [] /\ publishTimer s' = None /\ retryTimer s' = None.
Proof.
  intros Hn Hb s. destruct (pending_published os w Hn Hb) as ((Hf & Hp) & Hs & He). fold s in Hf, Hp, Hs, He.
  assert (Hw : forall e, e ∈ (unconfirmed s).*2 -> encodePublish e ∈ wire (world s)) by apply run_sent.
  split.
  - intros e Hin. destruct (run_accounted os w e Hin) as [Hq|Hwe]; [by left|]. fold s in Hwe.
    destruct (He e Hin) as [[Hu|Hq]%elem_of_app|Hr]; [right; tauto | by left | right; tauto].
  - eexists. split; [apply takePending_pending|]. done.
Qed.

(** ** Bounds *)
Definition in_bounds s : Prop :=
  PUBLISH_GAP_FLOOR_MS <= currentGapMs s <= PUBLISH_GAP_CAP_MS /\
  0 <= cleanSinceBackoff s < CLEAN_STREAK_TO_EASE /\
  (length (unconfirmed s) <= MAX_UNCONFIRMED)%nat /\
  (forall d, publishTimer s = Some d \/ retryTimer s = Some d ->
     PUBLISH_GAP_FLOOR_MS <= d <= PUBLISH_GAP_CAP_MS).

Lemma drain_bounds s : in_bounds s -> in_bounds (drainPublishQueue s).2.
Proof.
  intros (Hg & Hc & Hu & Ht). unfold in_bounds.
  destruct (drain_drained s) as [|next q s' _ _ _ _ Eu Et Eg Ec Er _|next q s' _ _ _ Eu Et Eg Ec Er _ _].
  - done.
  - rewrite Eu, Et, Eg, Ec, Er. split_and!; try done; try lia.
    intros d [?|Hd]; [done|]. apply Ht. by right.
  - rewrite Eu, Et, Eg, Ec, Er. split_and!; try lia.
    + apply remember_bound.
    + intros d [[= <-]|Hd]; [lia|]. apply Ht. by right.
Qed.

Lemma on_socket_bounds {A} (m : M W A) s : in_bounds s -> in_bounds (on_socket m s).2.
Proof. destruct (on_socket_run m s) as (w' & -> & _). done. Qed.

Lemma exec_bounds o s : in_bounds s -> in_bounds (exec o s).
Proof.
  intros HB. pose proof HB as (Hg & Hc & Hu & Ht).
  destruct o as [e|bs| | |k|i|m|m]; cbn [exec]; try by apply on_socket_bounds.
  - by apply (drain_bounds (set_queue (publishQueue s ++ [e]) s)).
  - unfold dispatch. destruct (decodeServerFrame bs) as [[env|i|code d|o|a]|err]; try done.
    + unfold onDelivered, modify, bind, handlers. cbn.
      pose proof (JsMap.length_remove_le (hexId i) (unconfirmed s)).
      destruct (Z.ltb_spec PUBLISH_GAP_FLOOR_MS (currentGapMs s));
        [destruct (Z.leb_spec CLEAN_STREAK_TO_EASE (cleanSinceBackoff s + 1))|];
        unfold in_bounds; cbn; unfold faster, CLEAN_STREAK_TO_EASE, PUBLISH_GAP_FLOOR_MS, PUBLISH_GAP_CAP_MS in *;
        split_and!; try done; try lia; try div_lia.
    + destruct (code =? RATE_LIMIT_CODE); [|done].
      unfold onRateLimited, modify, bind, handlers. cbn.
      assert (Hs : PUBLISH_GAP_FLOOR_MS <= Z.min PUBLISH_GAP_CAP_MS (slower (currentGapMs s)) <= PUBLISH_GAP_CAP_MS)
        by (unfold slower, PUBLISH_GAP_FLOOR_MS, PUBLISH_GAP_CAP_MS in *; div_lia).
      destruct (retryTimer s) as [r|] eqn:Er; unfold in_bounds; cbn; split_and!; try done; try lia.
      * intros d0 Hd. apply Ht. by rewrite Er in Hd.
      * intros d0 [Hd|[= <-]]; [|done]. apply Ht. by left.
  - apply (drain_bounds (set_publishTimer None s)). split_and!; cbn; try done; try lia.
    intros d [?|Hd]; [done|]. apply Ht. by right.
  - set (s1 := set_retryTimer None s).
    set (s2 := match unconfirmed s1 with
               | [] => s1
               | m => set_queue (m.*2 ++ publishQueue s1) (set_unconfirmed [] s1)
               end).
    apply (drain_bounds s2). subst s2.
    assert (HB1 : in_bounds s1).
    { split_and!; cbn; try done; try lia. intros d [Hd|?]; [|done]. apply Ht. by left. }
    destruct (unconfirmed s1); [done|]. destruct HB1 as (? & ? & ? & ?). split_and!; cbn; try done; try lia.
Qed.

(** The transport never runs away: in every reachable state the pacing gap and every timer it
    sets stay between 55 ms and one second, the clean streak stays below eight, and at most 256
    unconfirmed envelopes are held. *)
Theorem transport_bounds os (w : W) :
  in_bounds (run os (initial w)).
Proof.
  unfold run. assert (HB : in_bounds (initial w)).
  { unfold in_bounds, initial. cbn. unfold PUBLISH_GAP_FLOOR_MS, PUBLISH_GAP_CAP_MS, CLEAN_STREAK_TO_EASE.
    split_and!; try lia. intros d [?|?]; done. }
  revert HB. generalize (initial w). induction os as [|o os IH]; intros s HB; [done|].
  cbn [foldl]. by apply IH, exec_bounds.
Qed.

(** ** Pacing *)
Definition publishes (o : op) : bool :=
  match o with OPublish _ | OReceive _ | OPublishTimer | ORetryTimer => true | _ => false end.

(** One frame per gap.  Publishing, an inbound frame or a timer callback puts at most one
    envelope on the wire, only if the pacer was idle or it is the pacer's own callback, and the
    next one is then held back by a timer of the current gap; while that timer runs, a publish
    or a retry sends nothing. *)
Theorem publishing_is_paced o s :
  publishes o = true ->
  wire (world (exec o s)) = wire (world s) \/
  exists e, wire (world (exec o s)) = wire (world s) ++ [encodePublish e] /\
    publishTimer (exec o s) = Some (currentGapMs (exec o s)) /\
    (publishTimer s = None \/ o = OPublishTimer).
Proof.
  assert (Hd : forall t, world t = world s -> (publishTimer t = None -> publishTimer s = None \/ o = OPublishTimer) ->
    wire (world (drainPublishQueue t).2) = wire (world s) \/
    exists e, wire (world (drainPublishQueue t).2) = wire (world s) ++ [encodePublish e] /\
      publishTimer (drainPublishQueue t).2 = Some (currentGapMs (drainPublishQueue t).2) /\
      (publishTimer s = None \/ o = OPublishTimer)).
  { intros t Ew Ht. destruct (drain_drained t) as [|next q t' _ _ _ _ _ _ _ _ _ E|next q t' Et _ _ _ E1 E2 _ _ _ E].
    - left. by rewrite Ew.
    - left. by rewrite E, Ew.
    - right. exists next. rewrite E, Ew, E1, E2. split; [done|]. split; [done|]. by apply Ht. }
  intros Hp. destruct o as [e|bs| | | | | | ]; try discriminate; cbn [exec].
  - apply (Hd (set_queue (publishQueue s ++ [e]) s)); [done|]. by left.
  - left. unfold dispatch. destruct (decodeServerFrame bs) as [[env|i|code d|m|a]|err]; try done.
    + unfold onDelivered, modify, bind, handlers. cbn.
      destruct (PUBLISH_GAP_FLOOR_MS <? currentGapMs s); [|done].
      by destruct (CLEAN_STREAK_TO_EASE <=? cleanSinceBackoff s + 1).
    + destruct (code =? RATE_LIMIT_CODE); [|done]. unfold onRateLimited, modify, bind, handlers. cbn.
      by destruct (retryTimer s).
  - apply (Hd (set_publishTimer None s)); [done|]. by right.
  - apply (Hd (match unconfirmed s with
               | [] => set_retryTimer None s
               | m => set_queue (m.*2 ++ publishQueue s) (set_unconfirmed [] (set_retryTimer None s))
               end)).
    + by destruct (unconfirmed s).
    + destruct (unconfirmed s); by left.
Qed.

(** The queue drains: on a socket that accepts every send, as many firings of the pacer as
    there are queued envelopes send all of them, in the order they were published, and leave
    the queue empty. *)
Theorem queue_drains s :
  (forall b w, exists w', socket_send b w = (Ok tt, w')) ->
  let s' := run (replicate (length (publishQueue s)) OPublishTimer) s in
  publishQueue s' = [] /\
  wire (world s') = wire (world s) ++ (encodePublish <$> publishQueue s).
Proof.
  intros Hsend. remember (publishQueue s) as q eqn:Eq. revert s Eq.
  induction q as [|e q IH]; intros s Eq; cbn [length replicate fmap list_fmap].
  { by rewrite app_nil_r. }
  cbn zeta. change (run (OPublishTimer :: replicate (length q) OPublishTimer) s)
    with (run (replicate (length q) OPublishTimer) (drainPublishQueue (set_publishTimer None s)).2).
  destruct (drain_drained (set_publishTimer None s))
    as [[?|Hq]|next q' s' _ _ Hfail|next q' s' _ Eq' Eqs' _ _ _ _ _ _ Ew].
  - done.
  - cbn in Hq. congruence.
  - exfalso. destruct (Hsend (encodePublish next) (world (set_publishTimer None s))) as (w' & E).
    apply (Hfail tt). by rewrite E.
  - cbn in Eq', Ew. rewrite <-Eq in Eq'. injection Eq' as <- <-.
    destruct (IH s') as [E1 E2]; [done|]. split; [exact E1|]. rewrite E2, Ew, <-app_assoc. done.
Qed.

(** ** The pace recovers *)
Definition ease (x : Z * Z) : Z * Z :=
  let (gap, clean) := x in
  if PUBLISH_GAP_FLOOR_MS <? gap then
    if CLEAN_STREAK_TO_EASE <=? clean + 1 then (Z.max PUBLISH_GAP_FLOOR_MS (faster gap), 0)
    else (gap, clean + 1)
  else (gap, clean).

Lemma onDelivered_ease i s :
  (currentGapMs (onDelivered i s).2, cleanSinceBackoff (onDelivered i s).2) =
  ease (currentGapMs s, cleanSinceBackoff s).
Proof.
  unfold onDelivered, modify, ease. cbn.
  destruct (PUBLISH_GAP_FLOOR_MS <? currentGapMs s); [|done].
  by destruct (CLEAN_STREAK_TO_EASE <=? cleanSinceBackoff s + 1).
Qed.

Lemma ease_converges g c :
  55 <= g <= 1000 -> 0 <= c < 8 -> (Nat.iter 64 ease (g, c)).1 = 55.
Proof.
  intros Hg Hc.
  pose proof (range_check (fun g => forallb (fun c => (Nat.iter 64 ease (g, c)).1 =? 55)
                             [0; 1; 2; 3; 4; 5; 6; 7]) 55 946 ltac:(by vm_compute) g ltac:(lia)) as H'.
  cbn beta in H'. rewrite forallb_forall in H'. apply Z.eqb_eq, H'.
  assert (c = 0 \/ c = 1 \/ c = 2 \/ c = 3 \/ c = 4 \/ c = 5 \/ c = 6 \/ c = 7) by lia.
  cbn. intuition.
Qed.

(** One burst does not slow the link for good: from any reachable state, whatever backing off
    happened before, sixty-four further receipts bring the gap back to its 55 ms floor. *)
Theorem pace_recovers os (w : W) ids :
  length ids = 64%nat ->
  let s := run os (initial w) in
  currentGapMs (foldl (fun s i => (onDelivered i s).2) s ids) = PUBLISH_GAP_FLOOR_MS.
Proof.
  intros Hl s.
  assert (HB : in_bounds s).
  { subst s. unfold run. assert (HB : in_bounds (initial w)).
    { unfold in_bounds, initial. cbn. unfold PUBLISH_GAP_FLOOR_MS, PUBLISH_GAP_CAP_MS, CLEAN_STREAK_TO_EASE.
      split_and!; try lia. intros d [?|?]; done. }
    revert HB. generalize (initial w). induction os as [|o os IH]; intros s HB; [done|].
    cbn [foldl]. by apply IH, exec_bounds. }
  destruct HB as (Hg & Hc & _). clearbody s.
  assert (E : (currentGapMs (foldl (fun s i => (onDelivered i s).2) s ids),
               cleanSinceBackoff (foldl (fun s i => (onDelivered i s).2) s ids)) =
              Nat.iter (length ids) ease (currentGapMs s, cleanSinceBackoff s)).
  { clear. induction ids as [|i ids IH] using rev_ind; [done|].
    rewrite foldl_app, length_app. cbn [foldl length]. rewrite onDelivered_ease, IH.
    by rewrite Nat.add_comm. }
  rewrite Hl in E.
  change (currentGapMs (foldl (fun s i => (onDelivered i s).2) s ids) = 55).
  rewrite <-(ease_converges (currentGapMs s) (cleanSinceBackoff s) Hg Hc), <-E. done.
Qed.
End runs.

(** ** A socket and a codec to evaluate on *)
Module Toy.
(** An open socket and what was sent on it; a closed one throws. *)
Record Wire := MkWire { open : bool; out : list bytes }.

#[export] Instance codec : WireCodec := {|
  encodeSubscribe k c := text_encode k;
  encodePublish e := 1 :: env_messageId e;
  encodeAck i := 2 :: i;
  encodeOffer o := [3];
  encodeAccept a := [4];
  decodeServerFrame bs :=
    match bs with
    | 1 :: i => Ok (FReceipt i)
    | 2 :: _ => Ok (FError 3 "slow down")
    | _ => Throw (JsError "bad frame")
    end
|}.

#[export] Instance socket : Socket Wire := {|
  socket_send b w :=
    if open w then (Ok tt, MkWire true (out w ++ [b])) else (Throw (JsError "closed"), w);
  socket_close w := (Ok tt, MkWire false (out w))
|}.

#[export] Instance socket_laws : SocketLaws Wire.
Proof.
  refine {| wire := out |}. intros b w. cbn. by destruct (open w).
Defined.

(** A socket that never closes. *)
#[export] Instance log_socket : Socket (list bytes) := {|
  socket_send b w := (Ok tt, w ++ [b]);
  socket_close w := (Ok tt, w)
|}.

#[export] Instance log_laws : SocketLaws (list bytes).
Proof. by refine {| wire := fun w => w |}. Defined.

Definition env (n : Z) : EnvelopeMsg := MkEnvelope [n] "box" [] 60.
End Toy.
Import Toy.

(** Three frames, one receipt, a rate limit and its retry. *)
Definition script : list op :=
  [OPublish (env 1); OPublish (env 2); OPublishTimer; OReceive [1; 1]; OReceive [2]; OPublish (env 3);
   ORetryTimer; OPublishTimer].

Lemma no_frame_lost_witness :
  let s := run script (initial (MkWire true [])) in
  (exists s', takePending s = (Ok [env 2; env 3], s')) /\
  (encodePublish (env 1) ∈ wire (world s) /\ Some "01" ∈ receipt_of <$> script) /\ encodePublish (env 2) ∈ wire (world s).
Proof.
  intros s. destruct (no_frame_lost script (MkWire true [])) as (Hall & s' & E & _ & _ & _ & Hsent & _).
  - change (idOf <$> published script) with ["01"; "02"; "03"]. repeat constructor; set_solver.
  - intros os' [k Ek].
    assert (Hf : forallb (fun n => (length (unconfirmed (run (take n script) (initial (MkWire true [])))) <? 256)%nat)
                   (seq 0 9) = true) by by vm_compute.
    rewrite forallb_forall in Hf.
    assert (Hle : (length os' <= 8)%nat).
    { apply (f_equal length) in Ek. rewrite length_app in Ek. cbn in Ek. lia. }
    specialize (Hf (length os') ltac:(apply in_seq; lia)). rewrite Ek, take_app_length in Hf.
    by apply Nat.ltb_lt in Hf.
  - split; [exists s'; exact E|]. split.
    + destruct (Hall (env 1)) as [Hq|[Hw Hr]]; [left|vm_compute in Hq; set_solver|]. split; [exact Hw|].
      destruct Hr as [Hu|Hr]; [vm_compute in Hu; set_solver | exact Hr].
    + apply Hsent. vm_compute. left.
Defined.

Lemma publishing_is_paced_witness :
  let s := run [OPublish (env 1)] (initial (MkWire true [])) in
  wire (world (exec (OPublish (env 2)) s)) = wire (world s).
Proof.
  intros s. destruct (publishing_is_paced (OPublish (env 2)) s eq_refl) as [E|(e & _ & _ & [E|E])];
    [exact E|discriminate..].
Defined.

Lemma queue_drains_witness :
  let q := [env 1; env 2] in
  let s := set_queue q (initial ([] : list bytes)) in
  wire (world (run (replicate (length q) OPublishTimer) s)) = [] ++ (encodePublish <$> q).
Proof.
  intros q s. refine (proj2 (queue_drains s _)). intros b w. exists (w ++ [b]). reflexivity.
Defined.

Lemma pace_recovers_witness :
  currentGapMs (foldl (fun s i => (onDelivered i s).2)
    (run script (initial (MkWire true []))) (replicate 64 [9])) = PUBLISH_GAP_FLOOR_MS.
Proof. exact (pace_recovers script (MkWire true []) (replicate 64 [9]) eq_refl). Defined.
End Transports.
