(* ===== verification/Json.v ===== *)
(** * Parsed JSON values

    What [JSON.parse] gives, as far as the client looks at it, and the session descriptions of
    WebRTC that travel in it. *)

From S2P Require Import Prelude.

Inductive json :=
  | JNull
  | JBool (b : bool)
  | JNum (n : Z)
  | JStr (s : string)
  | JArr (l : list json)
  | JObj (fields : list (string * json)).

(** [typeof v === 'object' && v !== null] *)
Definition is_object (v : json) : bool :=
  match v with JArr _ | JObj _ => true | _ => false end.

(** [o[k]] on an object: [None] is [undefined]. *)
Definition prop (o : json) (k : string) : option json :=
  match o with JObj fields => JsMap.lookup k fields | _ => None end.

Definition is_string (v : option json) : bool :=
  match v with Some (JStr _) => true | _ => false end.

(** [v === s] for a string literal. *)
Definition is_literal (v : option json) (s : string) : bool :=
  match v with Some (JStr s') => bool_decide (s' = s) | _ => false end.

(** [isSdp] of filetransfer.ts and callsession.ts. *)
Definition isSdp (v : option json) : option json :=
  match v with
  | Some o => if is_object o && is_string (prop o "type") then Some o else None
  | None => None
  end.

Definition is_null (v : json) : bool := match v with JNull => true | _ => false end.
