(* ===== verification/FileTransfer.v ===== *)
(** * Peer-to-peer file transfer (client/src/filetransfer.ts)

    The class runs between awaits: every operation, handler and settled promise is one atomic
    step, and a step that awaits leaves a task behind.  Transfers are objects on a heap, because
    a handler may hold one while the map entry is replaced.  What the class asks of the browser
    and of its host is a log. *)

From S2P Require Import Prelude Json.

(** ** Signals *)
Inductive FileSignal :=
  | SigOffer (id name : string) (size : Z) (sdp : json)
  | SigAnswer (id : string) (sdp : json)
  | SigIce (id : string) (candidate : option json)
  | SigDecline (id : string).

(** ** What is asked of the host and the browser.  Peer connections, channels and sinks are
    numbered in the order they are made. *)
Inductive message := Text (s : string) | Buffer (b : bytes) | OtherData.

Inductive effect :=
  | SendSignal (signal : FileSignal)
  | OnProgress (id : string) (done total : Z)
  | OnIncoming (id name : string) (size : Z)
  | OnComplete (id name : string) (blob : option bytes)
  | OnError (id msg : string)
  | NewConnection (pc : nat)
  | CreateDataChannel (pc ch : nat)
  | CreateOffer (pc : nat)
  | CreateAnswer (pc : nat)
  | SetLocal (pc : nat) (sdp : json)
  | SetRemote (pc : nat) (sdp : json)
  | RemoteInstalled (pc : nat)
  | AddIce (pc : nat) (candidate : option json)
  | ClosePc (pc : nat)
  | ChannelSend (ch : nat) (data : message)
  | SinkWrite (sink : nat) (chunk : bytes)
  | SinkClose (sink : nat).

Record Transfer := MkTransfer {
  t_pc : option nat;
  t_ch : option nat;
  t_name : string;
  t_size : Z;
  t_source : option Z;
  t_sink : option nat;
  t_recvGot : Z;
  t_writeChain : nat;
  t_pendingOffer : option json;
  t_pendingIce : list (option json);
  t_remoteReady : bool
}.

(** A promise the class awaits, with what it does next. *)
Inductive task :=
  | AwaitOffer (id name : string) (size : Z) (pc : nat)
  | AwaitOfferLocal (id name : string) (size : Z) (offer : json)
  | AwaitAnswer (id : string) (t : nat) (pc : option nat)
  | AwaitIce (pc : nat) (rest : list (option json))
  | AwaitAcceptRemote (id : string) (t pc : nat)
  | AwaitAcceptAnswer (id : string) (t pc : nat)
  | AwaitAcceptLocal (id : string) (t pc : nat) (answer : json)
  | AwaitDrain (id : string) (ch : nat) (size off sent : Z)
  | AwaitSlice (id : string) (ch : nat) (size off sent : Z)
  | AwaitWrite (chain : nat)
  | AwaitClose (id : string) (t : nat).

(** How a promise settles. *)
Inductive settlement :=
  | Resolved
  | ResolvedSdp (sdp : json)
  | ResolvedBytes (b : bytes)
  | ResolvedBlob (b : option bytes)
  | Rejected.

(** A chain of writes: the queued steps, the first of which is in flight; a [done] step closes
    the sink once the writes before it have settled. *)
Inductive link := LWrite (chunk : bytes) | LDone (id : string).
Record Chain := MkChain { c_owner : nat; c_links : list link; c_failed : bool }.

Inductive ch_role := Sends | Receives | Unbound.
Record Channel := MkChannel { ch_id : string; ch_role_of : ch_role; ch_closed : bool; ch_buffered : Z }.
Record Connection := MkConnection { pc_id : string; pc_receives : bool }.

Record State := MkState {
  transfers : list (string * nat);
  heap : list Transfer;
  pcs : list Connection;
  chans : list Channel;
  chains : list Chain;
  tasks : list task;
  log : list effect
}.

Module FileTransfer.
Definition CHUNK_SIZE : Z := 16 * 1024.
Definition DONE_MARKER : string := "done".
Definition BACKPRESSURE_HIGH : Z := 8 * 1024 * 1024.
Definition BACKPRESSURE_LOW : Z := 1 * 1024 * 1024.
Definition MAX_PENDING_ICE : nat := 64.

Definition parseSignal (o : json) : option FileSignal :=
  if negb (is_object o) then None else
  match prop o "id" with
  | Some (JStr id) =>
      if bool_decide (id = "") then None else
      match is_literal (prop o "kind") "offer", prop o "name", prop o "size", isSdp (prop o "sdp") with
      | true, Some (JStr name), Some (JNum size), Some sdp => Some (SigOffer id name size sdp)
      | _, _, _, _ =>
          match is_literal (prop o "kind") "answer", isSdp (prop o "sdp") with
          | true, Some sdp => Some (SigAnswer id sdp)
          | _, _ =>
              if is_literal (prop o "kind") "ice" then Some (SigIce id (prop o "candidate")) else
              if is_literal (prop o "kind") "decline" then Some (SigDecline id) else None
          end
      end
  | _ => None
  end.

(** [new FileTransfer(rtc, ev)] *)
Definition initial : State := MkState [] [] [] [] [] [] [].

Definition set_transfers f (s : State) : State :=
  MkState (f (transfers s)) (heap s) (pcs s) (chans s) (chains s) (tasks s) (log s).
Definition set_heap f (s : State) : State :=
  MkState (transfers s) (f (heap s)) (pcs s) (chans s) (chains s) (tasks s) (log s).
Definition set_pcs f (s : State) : State :=
  MkState (transfers s) (heap s) (f (pcs s)) (chans s) (chains s) (tasks s) (log s).
Definition set_chans f (s : State) : State :=
  MkState (transfers s) (heap s) (pcs s) (f (chans s)) (chains s) (tasks s) (log s).
Definition set_chains f (s : State) : State :=
  MkState (transfers s) (heap s) (pcs s) (chans s) (f (chains s)) (tasks s) (log s).
Definition set_tasks f (s : State) : State :=
  MkState (transfers s) (heap s) (pcs s) (chans s) (chains s) (f (tasks s)) (log s).

Definition emit (e : effect) (s : State) : State :=
  MkState (transfers s) (heap s) (pcs s) (chans s) (chains s) (tasks s) (log s ++ [e]).
Definition await (k : task) : State -> State := set_tasks (fun ts => ts ++ [k]).

Definition find (id : string) (s : State) : option (nat * Transfer) :=
  match JsMap.lookup id (transfers s) with
  | Some r => match heap s !! r with Some t => Some (r, t) | None => None end
  | None => None
  end.
Definition has (id : string) (s : State) : bool := JsMap.has id (transfers s).
Definition delete (id : string) : State -> State := set_transfers (JsMap.remove id).
Definition update (r : nat) (f : Transfer -> Transfer) : State -> State := set_heap (alter f r).

(** Transfer objects are made on the heap and entered in the map. *)
Definition enter (id : string) (t : Transfer) (s : State) : State :=
  set_heap (fun h => h ++ [t]) (set_transfers (JsMap.set id (length (heap s))) s).

Definition close_pc (pc : option nat) (s : State) : State :=
  match pc with Some p => emit (ClosePc p) s | None => s end.

Definition cancel (id : string) (s : State) : State :=
  match find id s with
  | Some (_, t) => delete id (close_pc (t_pc t) s)
  | None => s
  end.

Definition fail (id msg : string) (s : State) : State := emit (OnError id msg) (cancel id s).

(** *** Sending *)
Definition sendFile (id name : string) (size : Z) (s : State) : State :=
  let pc := length (pcs s) in
  let s := emit (NewConnection pc) (set_pcs (fun l => l ++ [MkConnection id false]) s) in
  let ch := length (chans s) in
  let s := emit (CreateDataChannel pc ch) (set_chans (fun l => l ++ [MkChannel id Sends false 0]) s) in
  let s := enter id (MkTransfer (Some pc) (Some ch) name size (Some size) None 0 0 None [] false) s in
  await (AwaitOffer id name size pc) (emit (CreateOffer pc) s).

(** One turn of the loop of [streamOut], up to its next await. *)
Definition stream_slice (id : string) (ch : nat) (size off sent : Z) : State -> State :=
  await (AwaitSlice id ch size off sent).

Definition channel_send (ch : nat) (data : message) (s : State) : option State :=
  match chans s !! ch with
  | Some c => if ch_closed c then None else Some (emit (ChannelSend ch data) s)
  | None => None
  end.

Definition buffered (ch : nat) (s : State) : Z :=
  match chans s !! ch with Some c => ch_buffered c | None => 0 end.

Definition stream_loop (id : string) (ch : nat) (size off sent : Z) (s : State) : State :=
  if off <? size then
    if negb (has id s) then s else
    if BACKPRESSURE_HIGH <? buffered ch s then await (AwaitDrain id ch size off sent) s
    else stream_slice id ch size off sent s
  else if has id s then
    match channel_send ch (Text DONE_MARKER) s with
    | Some s => s
    | None => fail id "the transfer failed while sending" s
    end
  else s.

Definition streamOut (id : string) (s : State) : State :=
  match find id s with
  | Some (_, t) =>
      match t_ch t, t_source t with
      | Some ch, Some size => stream_loop id ch size 0 0 s
      | _, _ => s
      end
  | None => s
  end.

(** *** ICE *)
Definition applyIce (pc : nat) (candidate : option json) (rest : list (option json)) (s : State) : State :=
  await (AwaitIce pc rest) (emit (AddIce pc candidate) s).

Definition with_ice (l : list (option json)) (t : Transfer) : Transfer :=
  MkTransfer (t_pc t) (t_ch t) (t_name t) (t_size t) (t_source t) (t_sink t) (t_recvGot t)
    (t_writeChain t) (t_pendingOffer t) l (t_remoteReady t).
Definition with_ready (t : Transfer) : Transfer :=
  MkTransfer (t_pc t) (t_ch t) (t_name t) (t_size t) (t_source t) (t_sink t) (t_recvGot t)
    (t_writeChain t) (t_pendingOffer t) (t_pendingIce t) true.

Definition drainPendingIce (r : nat) (s : State) : State :=
  match heap s !! r with
  | Some t =>
      let s := update r (with_ice []) s in
      match t_pc t, t_pendingIce t with
      | Some pc, c :: rest => applyIce pc c rest s
      | _, _ => s
      end
  | None => s
  end.

(** *** Signals *)
Definition handleSignal (raw : json) (s : State) : State :=
  match parseSignal raw with
  | None => s
  | Some (SigOffer id name size sdp) =>
      let s := enter id (MkTransfer None None name size None None 0 0 (Some sdp) [] false) s in
      emit (OnIncoming id name size) s
  | Some (SigDecline id) =>
      match find id s with
      | Some _ => fail id "the other person declined the file" s
      | None => s
      end
  | Some (SigAnswer id sdp) =>
      match find id s with
      | Some (r, t) =>
          let s := match t_pc t with Some pc => emit (SetRemote pc sdp) s | None => s end in
          await (AwaitAnswer id r (t_pc t)) s
      | None => s
      end
  | Some (SigIce id candidate) =>
      match find id s with
      | Some (r, t) =>
          match t_remoteReady t, t_pc t with
          | true, Some pc => applyIce pc candidate [] s
          | _, _ =>
              if (length (t_pendingIce t) <? MAX_PENDING_ICE)%nat
              then update r (with_ice (t_pendingIce t ++ [candidate])) s else s
          end
      | None => s
      end
  end.

(** *** Receiving *)
Definition accepted (pc sink chain : nat) (t : Transfer) : Transfer :=
  MkTransfer (Some pc) (t_ch t) (t_name t) (t_size t) (t_source t) (Some sink) 0 chain
    (t_pendingOffer t) (t_pendingIce t) (t_remoteReady t).

Definition accept (id : string) (sink : nat) (s : State) : State :=
  match find id s with
  | Some (r, t) =>
      match t_pendingOffer t with
      | Some offer =>
          let pc := length (pcs s) in
          let s := emit (NewConnection pc) (set_pcs (fun l => l ++ [MkConnection id true]) s) in
          let chain := length (chains s) in
          let s := set_chains (fun l => l ++ [MkChain r [] false]) s in
          let s := update r (accepted pc sink chain) s in
          await (AwaitAcceptRemote id r pc) (emit (SetRemote pc offer) s)
      | None => s
      end
  | None => s
  end.

Definition decline (id : string) (s : State) : State :=
  match find id s with
  | Some (_, t) => delete id (close_pc (t_pc t) (emit (SendSignal (SigDecline id)) s))
  | None => s
  end.

Definition bindReceive (id : string) (ch : nat) (s : State) : State :=
  match find id s with
  | Some (_, t) =>
      match t_sink t with
      | Some _ =>
          set_chans (alter (fun c => MkChannel id Receives (ch_closed c) (ch_buffered c)) ch) s
      | None => s
      end
  | None => s
  end.

(** The promise chain of a transfer's writes: start what can start. *)
Fixpoint start_links (chain r : nat) (l : list link) (s : State) : list link * State :=
  match l with
  | [] => ([], s)
  | LWrite b :: _ =>
      let s := match heap s !! r with
               | Some t => match t_sink t with Some k => emit (SinkWrite k b) s | None => s end
               | None => s
               end in
      (l, await (AwaitWrite chain) s)
  | LDone id :: l =>
      let s := match heap s !! r with
               | Some t => match t_sink t with Some k => emit (SinkClose k) s | None => s end
               | None => s
               end in
      start_links chain r l (await (AwaitClose id r) s)
  end.

Definition put_links (chain : nat) (l : list link) (failed : bool) : State -> State :=
  set_chains (alter (fun c => MkChain (c_owner c) l failed) chain).

Definition chain_then (chain : nat) (k : link) (s : State) : State :=
  match chains s !! chain with
  | Some c =>
      if c_failed c then
        match k with LDone id => fail id "could not save the received file" s | LWrite _ => s end
      else
        match c_links c with
        | [] => let (l, s) := start_links chain (c_owner c) [k] s in put_links chain l false s
        | l => put_links chain (l ++ [k]) false s
        end
  | None => s
  end.

Definition with_got (n : Z) (t : Transfer) : Transfer :=
  MkTransfer (t_pc t) (t_ch t) (t_name t) (t_size t) (t_source t) (t_sink t) n (t_writeChain t)
    (t_pendingOffer t) (t_pendingIce t) (t_remoteReady t).

(** [ch.onmessage] *)
Definition onmessage (id : string) (data : message) (s : State) : State :=
  match find id s with
  | Some (r, t) =>
      match t_sink t with
      | None => s
      | Some _ =>
          match data with
          | Text d => if bool_decide (d = DONE_MARKER) then chain_then (t_writeChain t) (LDone id) s else s
          | _ =>
              let bytes := match data with Buffer b => b | _ => [] end in
              let next := t_recvGot t + Z.of_nat (length bytes) in
              if t_size t <? next then fail id "the sender exceeded the announced file size" s else
              let s := update r (with_got next) s in
              let s := emit (OnProgress id next (t_size t)) s in
              chain_then (t_writeChain t) (LWrite bytes) s
          end
      end
  | None => s
  end.

(** *** Settled promises *)
Definition fail_all (l : list link) (s : State) : State :=
  foldl (fun s k => match k with
                    | LDone id => fail id "could not save the received file" s
                    | LWrite _ => s
                    end) s l.

Definition resume (k : task) (r : settlement) (s : State) : State :=
  match k, r with
  | AwaitOffer id name size pc, ResolvedSdp offer =>
      await (AwaitOfferLocal id name size offer) (emit (SetLocal pc offer) s)
  | AwaitOffer id _ _ _, Rejected => fail id "could not start the transfer" s
  | AwaitOfferLocal id name size offer, Resolved =>
      emit (SendSignal (SigOffer id name size offer)) s
  | AwaitOfferLocal id _ _ _, Rejected => fail id "could not start the transfer" s
  | AwaitAnswer id t pc, Resolved =>
      let s := match pc with Some p => emit (RemoteInstalled p) s | None => s end in
      drainPendingIce t (update t with_ready s)
  | AwaitAnswer id _ _, Rejected => fail id "transfer setup failed" s
  | AwaitIce pc (c :: rest), (Resolved | Rejected) => applyIce pc c rest s
  | AwaitIce _ [], (Resolved | Rejected) => s
  | AwaitAcceptRemote id t pc, Resolved =>
      let s := update t with_ready (emit (RemoteInstalled pc) s) in
      await (AwaitAcceptAnswer id t pc) (emit (CreateAnswer pc) s)
  | AwaitAcceptAnswer id t pc, ResolvedSdp answer =>
      await (AwaitAcceptLocal id t pc answer) (emit (SetLocal pc answer) s)
  | AwaitAcceptLocal id t pc answer, Resolved =>
      drainPendingIce t (emit (SendSignal (SigAnswer id answer)) s)
  | AwaitAcceptRemote id _ _, Rejected
  | AwaitAcceptAnswer id _ _, Rejected
  | AwaitAcceptLocal id _ _ _, Rejected => fail id "could not accept the transfer" s
  | AwaitDrain id ch size off sent, Resolved =>
      if negb (has id s) || (buffered ch s <=? BACKPRESSURE_LOW)
      then stream_slice id ch size off sent s
      else await (AwaitDrain id ch size off sent) s
  | AwaitSlice id ch size off sent, ResolvedBytes chunk =>
      match channel_send ch (Buffer chunk) s with
      | Some s =>
          let sent := sent + Z.of_nat (length chunk) in
          stream_loop id ch size (off + CHUNK_SIZE) sent (emit (OnProgress id sent size) s)
      | None => fail id "the transfer failed while sending" s
      end
  | AwaitSlice id _ _ _ _, Rejected => fail id "the transfer failed while sending" s
  | AwaitWrite chain, Resolved =>
      match chains s !! chain with
      | Some c =>
          let (l, s) := start_links chain (c_owner c) (tail (c_links c)) s in put_links chain l false s
      | None => s
      end
  | AwaitWrite chain, Rejected =>
      match chains s !! chain with
      | Some c => fail_all (tail (c_links c)) (put_links chain [] true s)
      | None => s
      end
  | AwaitClose id t, ResolvedBlob blob =>
      match heap s !! t with
      | Some x => delete id (close_pc (t_pc x) (emit (OnComplete id (t_name x) blob) s))
      | None => s
      end
  | AwaitClose id _, Rejected => fail id "could not save the received file" s
  | _, _ => s
  end.

(** ** Steps *)
Inductive op :=
  | OSendFile (id name : string) (size : Z)
  | OSignal (raw : json)
  | OAccept (id : string) (sink : nat)
  | ODecline (id : string)
  | OCancel (id : string)
  | OLocalIce (pc : nat) (candidate : option json)
  | ODataChannel (pc : nat)
  | OOpen (ch : nat)
  | OClosed (ch : nat)
  | OBuffered (ch : nat) (n : Z)
  | OMessage (ch : nat) (data : message)
  | OSettle (n : nat) (r : settlement).

(** Whether a settlement is one the task's promise can have. *)
Definition settles (k : task) (r : settlement) : bool :=
  match k, r with
  | (AwaitOffer _ _ _ _ | AwaitAcceptAnswer _ _ _), (ResolvedSdp _ | Rejected)
  | (AwaitOfferLocal _ _ _ _ | AwaitAnswer _ _ _ | AwaitIce _ _ | AwaitAcceptRemote _ _ _
     | AwaitAcceptLocal _ _ _ _ | AwaitWrite _), (Resolved | Rejected)
  | AwaitDrain _ _ _ _ _, Resolved
  | AwaitSlice _ _ _ _ _, (ResolvedBytes _ | Rejected)
  | AwaitClose _ _, (ResolvedBlob _ | Rejected) => true
  | _, _ => false
  end.

Definition exec (o : op) (s : State) : State :=
  match o with
  | OSendFile id name size => sendFile id name size s
  | OSignal raw => handleSignal raw s
  | OAccept id sink => accept id sink s
  | ODecline id => decline id s
  | OCancel id => cancel id s
  | OLocalIce pc candidate =>
      match pcs s !! pc, candidate with
      | Some c, Some v => if is_null v then s else emit (SendSignal (SigIce (pc_id c) candidate)) s
      | _, _ => s
      end
  | ODataChannel pc =>
      match pcs s !! pc with
      | Some c =>
          let ch := length (chans s) in
          let s := set_chans (fun l => l ++ [MkChannel "" Unbound false 0]) s in
          if pc_receives c then bindReceive (pc_id c) ch s else s
      | None => s
      end
  | OOpen ch =>
      match chans s !! ch with
      | Some c => match ch_role_of c with Sends => streamOut (ch_id c) s | _ => s end
      | None => s
      end
  | OClosed ch =>
      match chans s !! ch with
      | Some c =>
          let s := set_chans (alter (fun c => MkChannel (ch_id c) (ch_role_of c) true (ch_buffered c)) ch) s in
          match ch_role_of c with Sends => delete (ch_id c) s | _ => s end
      | None => s
      end
  | OBuffered ch n =>
      set_chans (alter (fun c => MkChannel (ch_id c) (ch_role_of c) (ch_closed c) n) ch) s
  | OMessage ch data =>
      match chans s !! ch with
      | Some c => match ch_role_of c with Receives => onmessage (ch_id c) data s | _ => s end
      | None => s
      end
  | OSettle n r =>
      match tasks s !! n with
      | Some k =>
          if settles k r then resume k r (set_tasks (fun ts => take n ts ++ drop (S n) ts) s) else s
      | None => s
      end
  end.

Definition run (os : list op) (s : State) : State := foldl (fun s o => exec o s) s os.

(** ** What the helpers leave alone *)
Lemma cancel_frame id s :
  heap (cancel id s) = heap s /\ pcs (cancel id s) = pcs s /\ chans (cancel id s) = chans s /\
  chains (cancel id s) = chains s /\ tasks (cancel id s) = tasks s /\
  exists l, log (cancel id s) = log s ++ l /\ forall e, e ∈ l -> exists p, e = ClosePc p.
Proof.
  unfold cancel. destruct (find id s) as [[r t]|].
  - unfold close_pc. destruct (t_pc t) as [p|]; cbn; split_and!; try done.
    + exists [ClosePc p]. split; [done|]. intros e ->%list_elem_of_singleton. by exists p.
    + exists []. rewrite app_nil_r. split; [done|]. intros e He. by apply not_elem_of_nil in He.
  - split_and!; try done. exists []. rewrite app_nil_r. split; [done|].
    intros e He. by apply not_elem_of_nil in He.
Qed.

(** Effects that only end a transfer. *)
Definition ending (e : effect) : Prop :=
  match e with ClosePc _ | OnError _ _ => True | _ => False end.

(** Tasks that change no transfer and apply no candidate. *)
Definition calm (k : task) : bool :=
  match k with
  | AwaitAnswer _ _ _ | AwaitIce _ _ | AwaitAcceptRemote _ _ _ | AwaitAcceptAnswer _ _ _
  | AwaitAcceptLocal _ _ _ _ => false
  | _ => true
  end.

(** A step that leaves the heap and the connections, logs only what is allowed, and awaits only
    calm tasks. *)
Definition quiet (allowed : effect -> Prop) (s s' : State) : Prop :=
  heap s' = heap s /\ pcs s' = pcs s /\
  (forall k, k ∈ tasks s' -> k ∈ tasks s \/ calm k = true) /\
  exists l, log s' = log s ++ l /\ Forall allowed l.

Lemma quiet_refl P s : quiet P s s.
Proof. split_and!; try done; [by auto|]. exists []. by rewrite app_nil_r. Qed.

Lemma quiet_trans P s1 s2 s3 : quiet P s1 s2 -> quiet P s2 s3 -> quiet P s1 s3.
Proof.
  intros (H1 & C1 & K1 & l1 & L1 & F1) (H2 & C2 & K2 & l2 & L2 & F2). split_and!; [congruence..| |].
  - intros k [Hk|?]%K2; [by apply K1|by right].
  - exists (l1 ++ l2). rewrite L2, L1, app_assoc. split; [done|]. by apply Forall_app.
Qed.

Lemma quiet_emit (P : effect -> Prop) e s : P e -> quiet P s (emit e s).
Proof. intros He. split_and!; try done; [by auto|]. exists [e]. split; [done|]. by constructor. Qed.

(** Changes of the other components. *)
Lemma quiet_other (P : effect -> Prop) s s' :
  heap s' = heap s -> pcs s' = pcs s -> log s' = log s ->
  (forall k, k ∈ tasks s' -> k ∈ tasks s \/ calm k = true) -> quiet P s s'.
Proof. intros E1 E2 E3 E4. split_and!; try done. exists []. by rewrite app_nil_r. Qed.

Ltac quiet_other :=
  apply quiet_other; [done|done|done|];
  first [ by auto
        | intros ? [?| ->%list_elem_of_singleton]%elem_of_app; [by left|by right] ].

Lemma quiet_emit_await (P : effect -> Prop) e k s :
  P e -> calm k = true -> quiet P s (await k (emit e s)).
Proof. intros He Hk. eapply quiet_trans; [by apply quiet_emit|quiet_other]. Qed.

Lemma quiet_fail (P : effect -> Prop) id msg s : (forall e, ending e -> P e) -> quiet P s (fail id msg s).
Proof.
  intros HP. eapply quiet_trans; [|apply quiet_emit, HP; exact I].
  destruct (cancel_frame id s) as (Hh & Hp & _ & _ & Hk & l & Hl & He). split; [done|].
  split; [done|]. split; [rewrite Hk; by auto|]. exists l. split; [done|]. apply Forall_forall. intros e Hin.
  destruct (He e Hin) as [p ->]. by apply HP.
Qed.

(** Effects that write only to the sink of a transfer of the heap and apply no candidate. *)
Definition writes_to (h : list Transfer) (e : effect) : Prop :=
  match e with
  | SinkWrite k _ | SinkClose k => exists r t, h !! r = Some t /\ t_sink t = Some k
  | AddIce _ _ => False
  | _ => True
  end.

Lemma ending_writes_to h e : ending e -> writes_to h e.
Proof. by destruct e. Qed.

Lemma quiet_start chain r l s : quiet (writes_to (heap s)) s (start_links chain r l s).2.
Proof.
  revert s. induction l as [|[b|id] l IH]; intros s; cbn [start_links]; [apply quiet_refl| |].
  - destruct (heap s !! r) as [t|] eqn:Et; cbn [snd];
      [destruct (t_sink t) as [k|] eqn:Ek|]; try (quiet_other).
    eapply quiet_trans; [apply (quiet_emit _ (SinkWrite k b))|quiet_other].
    by exists r, t.
  - match goal with |- quiet _ _ (start_links _ _ _ ?x).2 => set (s1 := x) end.
    assert (Hq : quiet (writes_to (heap s)) s s1).
    { subst s1. destruct (heap s !! r) as [t|] eqn:Et;
        [destruct (t_sink t) as [k|] eqn:Ek|]; try (quiet_other).
      eapply quiet_trans; [apply (quiet_emit _ (SinkClose k))|quiet_other].
      by exists r, t. }
    eapply quiet_trans; [exact Hq|]. rewrite <-(proj1 Hq). apply IH.
Qed.

Lemma quiet_chain_then chain k s : quiet (writes_to (heap s)) s (chain_then chain k s).
Proof.
  unfold chain_then. destruct (chains s !! chain) as [c|]; [|apply quiet_refl].
  destruct (c_failed c).
  - destruct k; [apply quiet_refl|]. apply quiet_fail, ending_writes_to.
  - destruct (c_links c); [|quiet_other].
    pose proof (quiet_start chain (c_owner c) [k] s) as Hq.
    destruct (start_links chain (c_owner c) [k] s) as [l s1]. cbn in Hq.
    eapply quiet_trans; [exact Hq|quiet_other].
Qed.

Lemma quiet_stream_loop h id ch size off sent s :
  quiet (writes_to h) s (stream_loop id ch size off sent s).
Proof.
  unfold stream_loop, stream_slice, channel_send.
  destruct (off <? size); [destruct (negb (has id s)); [apply quiet_refl|];
                           destruct (BACKPRESSURE_HIGH <? buffered ch s); quiet_other|].
  destruct (has id s); [|apply quiet_refl].
  destruct (chans s !! ch) as [c|]; [destruct (ch_closed c)|].
  - apply quiet_fail, ending_writes_to.
  - by apply quiet_emit.
  - apply quiet_fail, ending_writes_to.
Qed.

Lemma quiet_fail_all h l s : quiet (writes_to h) s (fail_all l s).
Proof.
  unfold fail_all. revert s. induction l as [|[b|id] l IH]; intros s; cbn; [apply quiet_refl|apply IH|].
  eapply quiet_trans; [apply quiet_fail, ending_writes_to|apply IH].
Qed.

Lemma quiet_close_pc h p s : quiet (writes_to h) s (close_pc p s).
Proof. destruct p as [p|]; [by apply quiet_emit|apply quiet_refl]. Qed.

Lemma quiet_resume k r s : calm k = true -> quiet (writes_to (heap s)) s (resume k r s).
Proof.
  intros Hc. destruct k; try discriminate; destruct r; cbn [resume];
    try apply quiet_refl; try (by apply quiet_fail, ending_writes_to);
    try (by apply quiet_emit_await);
    try (by apply quiet_emit).
  - destruct (negb (has id s) || _); quiet_other.
  - unfold channel_send. destruct (chans s !! ch) as [c|]; [destruct (ch_closed c)|];
      try (by apply quiet_fail, ending_writes_to).
    eapply quiet_trans; [by apply (quiet_emit _ (ChannelSend ch (Buffer b)))|].
    eapply quiet_trans; [by apply (quiet_emit _ (OnProgress id (sent + Z.of_nat (length b)) size))|].
    apply quiet_stream_loop.
  - destruct (chains s !! chain) as [c|]; [|apply quiet_refl].
    pose proof (quiet_start chain (c_owner c) (tail (c_links c)) s) as Hq.
    destruct (start_links chain (c_owner c) (tail (c_links c)) s) as [l s1]. cbn in Hq.
    eapply quiet_trans; [exact Hq|quiet_other].
  - destruct (chains s !! chain) as [c|]; [|apply quiet_refl].
    eapply quiet_trans; [|apply quiet_fail_all]. quiet_other.
  - destruct (heap s !! t) as [x|]; [|apply quiet_refl].
    eapply quiet_trans; [by apply (quiet_emit _ (OnComplete id (t_name x) b))|].
    eapply quiet_trans; [apply quiet_close_pc|quiet_other].
Qed.

(** ** Consent and bounds *)
Definition sink_effect (e : effect) (k : nat) : Prop :=
  match e with SinkWrite k' _ | SinkClose k' => k' = k | _ => False end.
Definition opens (o : op) : bool :=
  match o with OSendFile _ _ _ | OAccept _ _ => true | _ => false end.

Definition bounded (t : Transfer) : Prop :=
  (length (t_pendingIce t) <= MAX_PENDING_ICE)%nat /\ t_recvGot t <= Z.max 0 (t_size t).

Record inv (os : list op) (s : State) : Prop := {
  inv_bounded : Forall bounded (heap s);
  inv_sink t k : t ∈ heap s -> t_sink t = Some k -> exists id, OAccept id k ∈ os;
  inv_log e k : e ∈ log s -> sink_effect e k -> exists id, OAccept id k ∈ os;
  inv_pcs : (length (pcs s) <= length (List.filter opens os))%nat
}.

Lemma inv_more os os' s : inv os s -> inv (os ++ os') s.
Proof.
  intros [H1 H2 H3 H4]. split; [done| | |].
  - intros t k Ht Hk. destruct (H2 t k Ht Hk) as [id Hid]. exists id. apply elem_of_app. by left.
  - intros e k He Hk. destruct (H3 e k He Hk) as [id Hid]. exists id. apply elem_of_app. by left.
  - rewrite List.filter_app, length_app. lia.
Qed.

Lemma inv_quiet os s s' : quiet (writes_to (heap s)) s s' -> inv os s -> inv os s'.
Proof.
  intros (Eh & Ep & _ & l & El & Hl) [H1 H2 H3 H4]. split; rewrite ?Eh, ?Ep, ?El; try done.
  intros e k He Hk. apply elem_of_app in He as [He|He]; [by eapply H3|].
  pose proof (proj1 (Forall_forall _ _) Hl e He) as Hw.
  destruct e; try done; cbn in Hk; subst; destruct Hw as (r & t & Ht & Hs);
    (eapply H2; [by eapply list_elem_of_lookup_2|done]).
Qed.

Lemma inv_emit os e s : (forall k, ~ sink_effect e k) -> inv os s -> inv os (emit e s).
Proof.
  intros He [H1 H2 H3 H4]. split; try done. intros e' k Hin Hk.
  apply elem_of_app in Hin as [Hin| ->%list_elem_of_singleton]; [by eapply H3|by apply He in Hk].
Qed.

Lemma inv_same os s s' :
  heap s' = heap s -> log s' = log s -> pcs s' = pcs s -> inv os s -> inv os s'.
Proof. intros E1 E2 E3 [H1 H2 H3 H4]. by split; rewrite ?E1, ?E2, ?E3. Qed.

Lemma inv_enter os id t s :
  bounded t -> t_sink t = None -> inv os s -> inv os (enter id t s).
Proof.
  intros Hb Hs [H1 H2 H3 H4]. split; try done; cbn.
  - apply Forall_app. split; [done|]. by constructor.
  - intros t' k [Ht| ->%list_elem_of_singleton]%elem_of_app Hk; [by eapply H2|congruence].
Qed.

Lemma inv_update os r f s :
  (forall t, heap s !! r = Some t -> bounded t -> bounded (f t)) ->
  (forall t k, heap s !! r = Some t -> t_sink (f t) = Some k ->
     t_sink t = Some k \/ exists id, OAccept id k ∈ os) ->
  inv os s -> inv os (update r f s).
Proof.
  intros Hf Hs [H1 H2 H3 H4]. split; try done; cbn.
  - apply Forall_lookup. intros j t Ht. rewrite list_lookup_alter in Ht.
    destruct (decide (r = j)) as [->|Hne].
    + destruct (heap s !! j) as [t0|] eqn:E; [|done]. cbn in Ht. injection Ht as <-.
      apply Hf; [done|]. by apply (Forall_lookup_1 _ _ _ _ H1 E).
    + by apply (Forall_lookup_1 _ _ _ _ H1 Ht).
  - intros t k Ht Hk. apply list_elem_of_lookup in Ht as [j Ht]. rewrite list_lookup_alter in Ht.
    destruct (decide (r = j)) as [->|Hne].
    + destruct (heap s !! j) as [t0|] eqn:E; [|done]. cbn in Ht. injection Ht as <-.
      destruct (Hs t0 k eq_refl Hk) as [Hk'|?]; [|done].
      eapply H2; [by eapply list_elem_of_lookup_2|done].
    + eapply H2; [by eapply list_elem_of_lookup_2|done].
Qed.

Lemma inv_applyIce os pc c rest s : inv os s -> inv os (applyIce pc c rest s).
Proof. intros HI. apply (inv_same _ (emit (AddIce pc c) s)); try done. apply inv_emit; [|done]. by intros k []. Qed.

Lemma inv_drain os r s : inv os s -> inv os (drainPendingIce r s).
Proof.
  intros HI. unfold drainPendingIce. destruct (heap s !! r) as [t|] eqn:E; [|done].
  assert (Hu : inv os (update r (with_ice []) s)).
  { apply inv_update; [|by auto|done]. intros t' _ [_ Hg]. split; [|done].
    unfold MAX_PENDING_ICE. cbn. lia. }
  destruct (t_pc t); [|done]. destruct (t_pendingIce t); [done|]. by apply inv_applyIce.
Qed.

Lemma find_heap id s r t : find id s = Some (r, t) -> heap s !! r = Some t.
Proof.
  unfold find. destruct (JsMap.lookup id (transfers s)) as [j|]; [|done].
  destruct (heap s !! j) eqn:E; [|done]. by intros [= <- <-].
Qed.

Lemma inv_ready os r s : inv os s -> inv os (update r with_ready s).
Proof. intros HI. apply inv_update; by auto. Qed.

Lemma inv_signal os raw s : inv os s -> inv os (handleSignal raw s).
Proof.
  intros HI. unfold handleSignal. destruct (parseSignal raw) as [[id name size sdp|id sdp|id c|id]|]; [| | | |done].
  - apply inv_emit; [by intros k []|]. apply inv_enter; [|done|done]. split; cbn; unfold MAX_PENDING_ICE; lia.
  - destruct (find id s) as [[r t]|]; [|done]. destruct (t_pc t) as [p|]; [|by apply (inv_same _ s)].
    apply (inv_same _ (emit (SetRemote p sdp) s)); try done. apply inv_emit; [by intros k []|done].
  - destruct (find id s) as [[r t]|] eqn:Ef; [|done]. apply find_heap in Ef.
    assert (Hb : inv os (if (length (t_pendingIce t) <? MAX_PENDING_ICE)%nat
                         then update r (with_ice (t_pendingIce t ++ [c])) s else s)).
    { destruct (Nat.ltb_spec (length (t_pendingIce t)) MAX_PENDING_ICE) as [Hl|]; [|done].
      apply inv_update; [|by auto|done]. intros t' Et' [_ Hg]. split; [|done].
      cbn. rewrite length_app. cbn. lia. }
    destruct (t_remoteReady t), (t_pc t); try done. by apply inv_applyIce.
  - destruct (find id s) as [[r t]|]; [|done].
    eapply inv_quiet; [apply quiet_fail, ending_writes_to|done].
Qed.

Lemma inv_onmessage os id data s : inv os s -> inv os (onmessage id data s).
Proof.
  intros HI. unfold onmessage. destruct (find id s) as [[r t]|] eqn:Ef; [|done]. apply find_heap in Ef.
  destruct (t_sink t); [|done].
  assert (Hbuf : forall b, inv os
    (let next := t_recvGot t + Z.of_nat (length b) in
     if t_size t <? next then fail id "the sender exceeded the announced file size" s else
     chain_then (t_writeChain t) (LWrite b)
       (emit (OnProgress id next (t_size t)) (update r (with_got next) s)))).
  { intros b. cbn zeta. destruct (Z.ltb_spec (t_size t) (t_recvGot t + Z.of_nat (length b))) as [|Hle].
    - eapply inv_quiet; [apply quiet_fail, ending_writes_to|done].
    - eapply inv_quiet; [apply quiet_chain_then|]. apply inv_emit; [by intros k []|].
      apply inv_update; [|by auto|done]. intros t' Et' [Hi _]. rewrite Ef in Et'. injection Et' as <-.
      split; [done|]. cbn. lia. }
  destruct data as [d|b|]; [|apply (Hbuf b)|apply (Hbuf [])].
  destruct (bool_decide (d = DONE_MARKER)); [|done]. eapply inv_quiet; [apply quiet_chain_then|done].
Qed.

Lemma inv_resume os k r s : inv os s -> inv os (resume k r s).
Proof.
  intros HI. destruct (calm k) eqn:Ec; [by eapply inv_quiet; [apply quiet_resume|]|].
  destruct k; try discriminate; destruct r; cbn [resume]; try done;
    try (eapply inv_quiet; [apply quiet_fail, ending_writes_to|done]).
  1: apply inv_drain, inv_ready; destruct pc; [|done]; by apply inv_emit; [intros k []|].
  1-5: by destruct rest; [done|first [done|apply inv_applyIce]].
  - match goal with |- inv _ (await _ (emit _ ?x)) => apply (inv_same _ (emit (CreateAnswer pc) x)); try done end.
    apply inv_emit; [by intros k []|]. apply inv_ready. by apply inv_emit; [intros k []|].
  - match goal with |- inv _ (await _ ?x) => apply (inv_same _ x); try done end.
    by apply inv_emit; [intros k []|].
  - apply inv_drain. by apply inv_emit; [intros k []|].
Qed.

Lemma inv_send os id name size s : inv os s -> inv (os ++ [OSendFile id name size]) (sendFile id name size s).
Proof.
  intros HI. apply (inv_more _ [OSendFile id name size]) in HI as HI'.
  unfold sendFile. cbn zeta.
  match goal with |- inv _ (await _ (emit _ ?x)) => apply (inv_same _ (emit (CreateOffer (length (pcs s))) x)); try done end.
  apply inv_emit; [by intros k []|]. apply inv_enter; [split; cbn; unfold MAX_PENDING_ICE; lia|done|].
  apply inv_emit; [by intros k []|].
  match goal with |- inv _ (set_chans _ ?x) => apply (inv_same _ x); try done end.
  apply inv_emit; [by intros k []|]. destruct HI as [_ _ _ H4]. destruct HI' as [H1 H2 H3 _].
  split; try done. cbn. rewrite List.filter_app, !length_app. cbn. lia.
Qed.

Lemma inv_accept os id sink s : inv os s -> inv (os ++ [OAccept id sink]) (accept id sink s).
Proof.
  intros HI. apply (inv_more _ [OAccept id sink]) in HI as HI'. unfold accept.
  destruct (find id s) as [[r t]|] eqn:Ef; [|done]. destruct (t_pendingOffer t) as [offer|]; [|done].
  cbn zeta.
  match goal with |- inv _ (await _ (emit _ ?x)) => apply (inv_same _ (emit (SetRemote (length (pcs s)) offer) x)); try done end.
  apply inv_emit; [by intros k []|]. apply inv_update.
  - intros t' _ [Hb _]. split; [done|]. cbn. lia.
  - intros t' k _ [= <-]. right. exists id. apply elem_of_app. right. left.
  - match goal with |- inv _ (set_chains _ ?x) => apply (inv_same _ x); try done end.
    apply inv_emit; [by intros k []|]. destruct HI as [_ _ _ H4]. destruct HI' as [H1 H2 H3 _].
    split; try done. cbn. rewrite List.filter_app, !length_app. cbn. lia.
Qed.

Lemma inv_exec os o s : inv os s -> inv (os ++ [o]) (exec o s).
Proof.
  intros HI. pose proof (inv_more _ [o] _ HI) as HM.
  destruct o as [id name size|raw|id sink|id|id|pc c|pc|ch|ch|ch n|ch data|n r]; cbn [exec].
  - by apply inv_send.
  - by apply inv_signal.
  - by apply inv_accept.
  - unfold decline. destruct (find id s) as [[r t]|]; [|done].
    eapply inv_quiet; [|exact HM]. eapply quiet_trans; [by apply (quiet_emit _ (SendSignal (SigDecline id)))|].
    eapply quiet_trans; [apply quiet_close_pc|quiet_other].
  - eapply inv_quiet; [|exact HM].
    destruct (cancel_frame id s) as (Eh & Ep & _ & _ & Ek & l & El & He). split; [done|]. split; [done|].
    split; [rewrite Ek; by auto|].
    exists l. split; [done|]. apply Forall_forall. intros e Hin. by destruct (He e Hin) as [p ->].
  - destruct (pcs s !! pc), c as [v|]; try done. destruct (is_null v); [done|].
    by apply inv_emit; [intros k []|].
  - destruct (pcs s !! pc) as [c|]; [|done]. cbn zeta. destruct (pc_receives c); [|by apply (inv_same _ s)].
    unfold bindReceive. destruct (find _ _) as [[r t]|]; [destruct (t_sink t)|]; by apply (inv_same _ s).
  - destruct (chans s !! ch) as [c|]; [|done]. destruct (ch_role_of c); try done.
    unfold streamOut. destruct (find _ s) as [[r t]|]; [|done].
    destruct (t_ch t), (t_source t); try done. eapply inv_quiet; [apply quiet_stream_loop|done].
  - destruct (chans s !! ch) as [c|]; [|done]. destruct (ch_role_of c); by apply (inv_same _ s).
  - by apply (inv_same _ s).
  - destruct (chans s !! ch) as [c|]; [|done]. destruct (ch_role_of c); try done. by apply inv_onmessage.
  - destruct (tasks s !! n) as [k|]; [|done]. destruct (settles k r); [|done].
    apply inv_resume. by apply (inv_same _ s).
Qed.

Lemma inv_run os : inv os (run os initial).
Proof.
  induction os as [|o os IH] using rev_ind.
  - split; cbn; [constructor| | |lia].
    + intros t k Ht. by apply not_elem_of_nil in Ht.
    + intros e k He. by apply not_elem_of_nil in He.
  - unfold run in *. rewrite foldl_app. cbn [foldl]. by apply inv_exec.
Qed.

(** ** What a sink is given

    The bytes written to a sink, in all, and those queued behind the write in flight. *)
Definition write_size (k : nat) (e : effect) : Z :=
  match e with SinkWrite k' b => if decide (k' = k) then Z.of_nat (length b) else 0 | _ => 0 end.
Definition sum (l : list Z) : Z := foldr Z.add 0 l.
Definition volume (k : nat) (l : list effect) : Z := sum (write_size k <$> l).
Definition link_size (l : link) : Z := match l with LWrite b => Z.of_nat (length b) | LDone _ => 0 end.
Definition queued (l : list link) : Z := sum (link_size <$> l).

Lemma sum_app l1 l2 : sum (l1 ++ l2) = sum l1 + sum l2.
Proof. unfold sum. induction l1 as [|x l1 IH]; cbn [app foldr]; lia. Qed.
Lemma volume_app k l1 l2 : volume k (l1 ++ l2) = volume k l1 + volume k l2.
Proof. unfold volume. by rewrite fmap_app, sum_app. Qed.
Lemma queued_app l1 l2 : queued (l1 ++ l2) = queued l1 + queued l2.
Proof. unfold queued. by rewrite fmap_app, sum_app. Qed.
Lemma queued_cons x l : queued (x :: l) = link_size x + queued l.
Proof. done. Qed.
Lemma link_size_pos x : 0 <= link_size x.
Proof. destruct x; cbn; lia. Qed.
Lemma queued_pos l : 0 <= queued l.
Proof. induction l as [|x l IH]; [done|]. rewrite queued_cons. pose proof (link_size_pos x). lia. Qed.

Definition is_write (e : effect) : bool := match e with SinkWrite _ _ => true | _ => false end.
Lemma volume_none k l : Forall (fun e => is_write e = false) l -> volume k l = 0.
Proof. induction 1 as [|e l He _ IH]; [done|]. change (volume k (e :: l)) with (write_size k e + volume k l). by destruct e; rewrite IH. Qed.

(** What of a transfer bears on its sink. *)
Definition account (t : Transfer) : option nat * Z * nat * Z := (t_sink t, t_recvGot t, t_writeChain t, t_size t).

(** A step that writes nothing and leaves the sinks, their chains and what was counted. *)
Definition neutral (s s' : State) : Prop :=
  chains s' = chains s /\
  (exists new, account <$> heap s' = (account <$> heap s) ++ (account <$> new) /\ Forall (fun t => t_sink t = None) new) /\
  exists l, log s' = log s ++ l /\ Forall (fun e => is_write e = false) l.

Lemma neutral_same s s' : chains s' = chains s -> heap s' = heap s -> log s' = log s -> neutral s s'.
Proof.
  intros E1 E2 E3. split; [done|]. rewrite E2, E3. split; [exists []|exists []]; by rewrite app_nil_r.
Qed.
Lemma neutral_trans s1 s2 s3 : neutral s1 s2 -> neutral s2 s3 -> neutral s1 s3.
Proof.
  intros (C1 & (n1 & H1 & F1) & l1 & L1 & G1) (C2 & (n2 & H2 & F2) & l2 & L2 & G2). split; [congruence|]. split.
  - exists (n1 ++ n2). rewrite H2, H1, fmap_app, app_assoc. split; [done|]. by apply Forall_app.
  - exists (l1 ++ l2). rewrite L2, L1, app_assoc. split; [done|]. by apply Forall_app.
Qed.
Lemma neutral_emit e s : is_write e = false -> neutral s (emit e s).
Proof.
  intros He. split; [done|]. split; [exists []; by rewrite app_nil_r|]. exists [e]. split; [done|]. by constructor.
Qed.
Lemma neutral_update r f s : (forall t, account (f t) = account t) -> neutral s (update r f s).
Proof.
  intros Hf. split; [done|]. split; [|exists []; by rewrite app_nil_r]. exists []. rewrite app_nil_r. split; [|done]. cbn.
  apply list_eq. intros i. rewrite !list_lookup_fmap, list_lookup_alter.
  destruct (decide (r = i)) as [->|]; [|done]. destruct (heap s !! i); [|done]. cbn. by rewrite Hf.
Qed.
Lemma neutral_enter id t s : t_sink t = None -> neutral s (enter id t s).
Proof.
  intros Ht. split; [done|]. split; [|exists []; by rewrite app_nil_r]. exists [t]. cbn. rewrite fmap_app. split; [done|]. by constructor.
Qed.
Lemma neutral_close_pc p s : neutral s (close_pc p s).
Proof. destruct p; [by apply neutral_emit | by apply neutral_same]. Qed.
Lemma neutral_cancel id s : neutral s (cancel id s).
Proof.
  unfold cancel. destruct (find id s) as [[r t]|]; [|by apply neutral_same].
  eapply neutral_trans; [apply neutral_close_pc | by apply neutral_same].
Qed.
Lemma neutral_fail id m s : neutral s (fail id m s).
Proof. eapply neutral_trans; [apply neutral_cancel | by apply neutral_emit]. Qed.
Lemma neutral_fail_all l s : neutral s (fail_all l s).
Proof.
  unfold fail_all. revert s. induction l as [|[b|id] l IH]; intros s; cbn; [by apply neutral_same|apply IH|].
  eapply neutral_trans; [apply neutral_fail | apply IH].
Qed.

(** The steps that are. *)
Ltac neutral :=
  repeat match goal with
  | |- neutral ?s ?s => by apply neutral_same
  | |- neutral _ (await _ ?x) => apply (neutral_trans _ x); [|by apply neutral_same]
  | |- neutral _ (emit _ ?x) => apply (neutral_trans _ x); [|by apply neutral_emit]
  | |- neutral _ (delete _ ?x) => apply (neutral_trans _ x); [|by apply neutral_same]
  | |- neutral _ (set_transfers _ ?x) => apply (neutral_trans _ x); [|by apply neutral_same]
  | |- neutral _ (set_pcs _ ?x) => apply (neutral_trans _ x); [|by apply neutral_same]
  | |- neutral _ (set_chans _ ?x) => apply (neutral_trans _ x); [|by apply neutral_same]
  | |- neutral _ (set_tasks _ ?x) => apply (neutral_trans _ x); [|by apply neutral_same]
  | |- neutral _ (update _ _ ?x) => apply (neutral_trans _ x); [|by apply neutral_update]
  | |- neutral _ (enter _ _ ?x) => apply (neutral_trans _ x); [|by apply neutral_enter]
  | |- neutral _ (close_pc _ ?x) => apply (neutral_trans _ x); [|by apply neutral_close_pc]
  | |- neutral _ (cancel _ ?x) => apply (neutral_trans _ x); [|by apply neutral_cancel]
  | |- neutral _ (fail _ _ ?x) => apply (neutral_trans _ x); [|by apply neutral_fail]
  | |- neutral _ (match ?x with _ => _ end) => destruct x
  | |- neutral _ (if ?x then _ else _) => destruct x
  end.

Lemma neutral_applyIce pc c rest s : neutral s (applyIce pc c rest s).
Proof. unfold applyIce. neutral. Qed.
Lemma neutral_drain r s : neutral s (drainPendingIce r s).
Proof.
  unfold drainPendingIce. destruct (heap s !! r) as [t|]; [|neutral].
  destruct (t_pc t), (t_pendingIce t); try (by neutral).
  eapply neutral_trans; [|apply neutral_applyIce]. neutral.
Qed.
Lemma neutral_signal raw s : neutral s (handleSignal raw s).
Proof.
  unfold handleSignal. destruct (parseSignal raw) as [[id name size sdp|id sdp|id c|id]|]; cbn zeta; neutral.
  all: apply neutral_applyIce.
Qed.
Lemma neutral_send ch m s s' : channel_send ch m s = Some s' -> neutral s s'.
Proof.
  unfold channel_send. destruct (chans s !! ch) as [c|]; [destruct (ch_closed c)|]; intros [= <-]; neutral.
Qed.
Lemma neutral_stream_loop id ch size off sent s : neutral s (stream_loop id ch size off sent s).
Proof.
  unfold stream_loop, stream_slice. destruct (off <? size); [neutral|]. destruct (has id s); [|neutral].
  unfold channel_send. destruct (chans s !! ch) as [c|]; [destruct (ch_closed c)|]; neutral.
Qed.

(** The accounts balance: every chain belongs to the transfer that names it, every transfer that was given a
    sink has one, no two have the same sink, and what was written to it with what is queued is what was
    counted, up to [x] more for the transfer [r0]. *)
Record balanced (r0 : nat) (x : Z) (s : State) : Prop := {
  bal_chain i c : chains s !! i = Some c -> exists t k, heap s !! c_owner c = Some t /\ t_writeChain t = i /\ t_sink t = Some k;
  bal_sink r t k : heap s !! r = Some t -> t_sink t = Some k ->
    exists c, chains s !! t_writeChain t = Some c /\ c_owner c = r /\
      volume k (log s) + queued (tail (c_links c)) + (if decide (r = r0) then x else 0) <= t_recvGot t;
  bal_one r r' t t' k : heap s !! r = Some t -> heap s !! r' = Some t' -> t_sink t = Some k -> t_sink t' = Some k -> r = r';
  bal_log k : volume k (log s) <> 0 -> exists r t, heap s !! r = Some t /\ t_sink t = Some k
}.

Lemma account_lookup h h' new r t : account <$> h' = (account <$> h) ++ (account <$> new) -> Forall (fun t => t_sink t = None) new ->
  h' !! r = Some t -> (exists t0, h !! r = Some t0 /\ account t = account t0) \/ t_sink t = None.
Proof.
  intros E Hn Ht. assert (El : (account <$> h') !! r = Some (account t)) by by rewrite list_lookup_fmap, Ht.
  rewrite E in El. apply lookup_app_Some in El as [El|[_ El]]; rewrite list_lookup_fmap in El.
  - left. destruct (h !! r) as [t0|]; [|done]. apply (inj Some) in El. by exists t0.
  - right. destruct (new !! _) as [t0|] eqn:E0; [|done]. injection El as El _ _ _. rewrite <-El. by apply (Forall_lookup_1 _ _ _ _ Hn E0).
Qed.
Lemma account_keeps h h' new r t : account <$> h' = (account <$> h) ++ (account <$> new) ->
  h !! r = Some t -> exists t', h' !! r = Some t' /\ account t' = account t.
Proof.
  intros E Ht. assert (El : (account <$> h') !! r = Some (account t)).
  { rewrite E. apply lookup_app_l_Some. by rewrite list_lookup_fmap, Ht. }
  rewrite list_lookup_fmap in El. destruct (h' !! r) as [t'|]; [|done]. apply (inj Some) in El. by exists t'.
Qed.

Lemma balanced_neutral r0 x s s' : neutral s s' -> balanced r0 x s -> balanced r0 x s'.
Proof.
  intros (Ec & (new & Eh & Hn) & l & El & Hl) [H1 H2 H3 H4].
  assert (Hw : forall k, volume k (log s') = volume k (log s)).
  { intros k. rewrite El, volume_app, (volume_none k l Hl). lia. }
  assert (Hback : forall r t k, heap s' !! r = Some t -> t_sink t = Some k ->
    exists t0, heap s !! r = Some t0 /\ t_sink t0 = Some k /\ t_recvGot t0 = t_recvGot t /\ t_writeChain t0 = t_writeChain t).
  { intros r t k Ht Hk. destruct (account_lookup _ _ _ _ _ Eh Hn Ht) as [(t0 & E0 & [= A1 A2 A3 A4])|]; [|congruence].
    exists t0. rewrite <-A1, A2, A3. done. }
  assert (Hkeep : forall r t k, heap s !! r = Some t -> t_sink t = Some k ->
    exists t', heap s' !! r = Some t' /\ t_sink t' = Some k /\ t_writeChain t' = t_writeChain t).
  { intros r t k Ht Hk. destruct (account_keeps _ _ _ _ _ Eh Ht) as (t' & Ht' & [= A1 A2 A3 A4]). exists t'. by rewrite A1, A3. }
  split.
  - intros i c Hc. rewrite Ec in Hc. destruct (H1 i c Hc) as (t & k & Ht & Hi & Hk).
    destruct (Hkeep _ _ _ Ht Hk) as (t' & ? & ? & E). exists t', k. by rewrite E.
  - intros r t k Ht Hk. destruct (Hback r t k Ht Hk) as (t0 & Ht0 & Hk0 & Eg & Ew).
    destruct (H2 r t0 k Ht0 Hk0) as (c & Hc & Ho & Hle). exists c. rewrite Ec, Hw, <-Ew, <-Eg. done.
  - intros r r' t t' k Ht Ht' Hk Hk'. destruct (Hback r t k Ht Hk) as (t0 & Ht0 & Hk0 & _).
    destruct (Hback r' t' k Ht' Hk') as (t1 & Ht1 & Hk1 & _). by apply (H3 r r' t0 t1 k).
  - intros k Hk. rewrite Hw in Hk. destruct (H4 k Hk) as (r & t & Ht & Hs).
    destruct (Hkeep r t k Ht Hs) as (t' & ? & ? & _). by exists r, t'.
Qed.

(** The links that can start write to the sink of their transfer, and are queued no more. *)
Lemma start_links_written chain r t k : t_sink t = Some k -> forall l s, heap s !! r = Some t ->
  let '(l', s') := start_links chain r l s in
  heap s' = heap s /\ chains s' = chains s /\
  exists es, log s' = log s ++ es /\ volume k es + queued (tail l') = queued l /\
    forall j, j <> k -> volume j es = 0.
Proof.
  intros Hk. induction l as [|[b|id] l IH]; intros s Ht; cbn [start_links]; rewrite ?Ht, ?Hk.
  - split; [done|]. split; [done|]. exists []. by rewrite app_nil_r.
  - split; [done|]. split; [done|]. exists [SinkWrite k b]. split; [done|]. cbn [tail]. split.
    + rewrite queued_cons. unfold volume. cbn. rewrite decide_True by done. lia.
    + intros j Hj. unfold volume. cbn. by rewrite decide_False.
  - specialize (IH (await (AwaitClose id r) (emit (SinkClose k) s)) Ht).
    destruct (start_links chain r l _) as [l' s']. destruct IH as (E1 & E2 & es & El & Hw & Hj).
    split; [done|]. split; [done|]. exists (SinkClose k :: es). rewrite El. cbn [log await set_tasks emit]. rewrite <-app_assoc.
    split; [done|]. rewrite queued_cons. change (volume k (SinkClose k :: es)) with (0 + volume k es).
    split; [cbn [link_size]; lia|]. intros j Hne. change (volume j (SinkClose k :: es)) with (0 + volume j es). rewrite Hj by done. done.
Qed.

(** The links of a chain are replaced by [l], of which the startable part is started. *)
Lemma balanced_start i c l x s :
  chains s !! i = Some c -> balanced (c_owner c) x s -> queued l <= queued (tail (c_links c)) + x ->
  let '(l', s') := start_links i (c_owner c) l s in balanced (c_owner c) 0 (put_links i l' false s').
Proof.
  intros Hc [H1 H2 H3 H4] Hl. destruct (H1 i c Hc) as (t & k & Ht & Hi & Hk).
  pose proof (start_links_written i (c_owner c) t k Hk l s Ht) as Hs.
  destruct (start_links i (c_owner c) l s) as [l' s']. destruct Hs as (Eh & Ec & es & El & Hw & Hj).
  assert (Hput : forall j, chains (put_links i l' false s') !! j =
    if decide (i = j) then Some (MkChain (c_owner c) l' false) else chains s !! j).
  { intros j. cbn. rewrite list_lookup_alter, Ec. destruct (decide (i = j)) as [<-|]; [by rewrite Hc | done]. }
  split; cbn [heap log put_links set_chains].
  - intros j c' Hc'. rewrite Hput in Hc'. rewrite Eh. destruct (decide (i = j)) as [<-|]; [|by apply H1].
    injection Hc' as <-. by exists t, k.
  - intros r t' k' Ht' Hk'. rewrite Eh in Ht'. rewrite Hput, El, volume_app.
    destruct (H2 r t' k' Ht' Hk') as (c' & Hc' & Ho & Hle). destruct (decide (i = t_writeChain t')) as [Ei|Hne]; [rewrite <-Ei in Hc'|].
    + rewrite Hc in Hc'. injection Hc' as <-. subst r. rewrite Ht in Ht'. injection Ht' as <-.
      rewrite Hk in Hk'. injection Hk' as <-. eexists. split; [done|]. split; [done|]. cbn [c_links].
      rewrite decide_True in Hle |- * by done. lia.
    + exists c'. split; [done|]. split; [done|]. destruct (decide (r = c_owner c)) as [->|].
      { rewrite Ht in Ht'. injection Ht' as <-. congruence. }
      rewrite (Hj k'); [lia|]. intros ->. by destruct (H3 r (c_owner c) t' t k Ht' Ht Hk' Hk).
  - intros r r' t1 t2 k' A B. rewrite Eh in A, B. by apply H3.
  - intros k' Hne. rewrite Eh. rewrite El, volume_app in Hne. destruct (decide (k' = k)) as [->|Hk'].
    + by exists (c_owner c), t.
    + rewrite (Hj k' Hk') in Hne. apply H4. lia.
Qed.

Lemma balanced_less r0 x y s : y <= x -> balanced r0 x s -> balanced r0 y s.
Proof.
  intros Hle [H1 H2 H3 H4]. split; [done| |done|done]. intros r t k Ht Hk. destruct (H2 r t k Ht Hk) as (c & ? & ? & H).
  exists c. split; [done|]. split; [done|]. destruct (decide (r = r0)); lia.
Qed.
Lemma balanced_any r0 r1 s : balanced r0 0 s -> balanced r1 0 s.
Proof.
  intros [H1 H2 H3 H4]. split; [done| |done|done]. intros r t k Ht Hk. destruct (H2 r t k Ht Hk) as (c & ? & ? & H).
  exists c. split; [done|]. split; [done|]. destruct (decide (r = r0)), (decide (r = r1)); lia.
Qed.

(** The links of a chain are put, with no start. *)
Lemma balanced_put i c l b x s :
  chains s !! i = Some c -> balanced (c_owner c) x s -> queued (tail l) <= queued (tail (c_links c)) + x ->
  balanced (c_owner c) 0 (put_links i l b s).
Proof.
  intros Hc [H1 H2 H3 H4] Hl.
  assert (Hput : forall j, chains (put_links i l b s) !! j =
    if decide (i = j) then Some (MkChain (c_owner c) l b) else chains s !! j).
  { intros j. cbn. rewrite list_lookup_alter. destruct (decide (i = j)) as [<-|]; [by rewrite Hc | done]. }
  split; cbn [heap log put_links set_chains]; [| |done|done].
  - intros j c' Hc'. rewrite Hput in Hc'. destruct (decide (i = j)) as [<-|]; [|by apply H1]. injection Hc' as <-. by apply (H1 i c).
  - intros r t k Ht Hk. rewrite Hput. destruct (H2 r t k Ht Hk) as (c' & Hc' & Ho & Hle).
    destruct (H1 i c Hc) as (t0 & k0 & Ht0 & Hi & _). destruct (decide (i = t_writeChain t)) as [Ei|Hne]; [rewrite <-Ei in Hc'|].
    + rewrite Hc in Hc'. injection Hc' as <-. subst r. eexists. split; [done|]. split; [done|]. cbn [c_links].
      rewrite decide_True in Hle |- * by done. lia.
    + exists c'. split; [done|]. split; [done|]. destruct (decide (r = c_owner c)) as [->|]; [|lia].
      rewrite Ht0 in Ht. injection Ht as <-. congruence.
Qed.

Lemma balanced_chain_then r t k x s :
  heap s !! r = Some t -> t_sink t = Some k -> balanced r (link_size x) s -> balanced r 0 (chain_then (t_writeChain t) x s).
Proof.
  intros Ht Hk HB. pose proof (link_size_pos x) as Hp. destruct (bal_sink _ _ _ HB r t k Ht Hk) as (c & Hc & Ho & _). subst r.
  unfold chain_then. rewrite Hc. destruct (c_failed c).
  { apply balanced_less with (y := 0) in HB; [|done]. destruct x as [b|id]; [done|].
    eapply balanced_neutral; [apply neutral_fail | done]. }
  destruct (c_links c) as [|y l] eqn:El.
  - pose proof (balanced_start (t_writeChain t) c [x] (link_size x) s Hc HB) as Hs. rewrite El in Hs.
    specialize (Hs ltac:(rewrite queued_cons; cbn; lia)). by destruct (start_links _ _ _ _).
  - apply (balanced_put _ _ _ _ (link_size x)); [done..|]. rewrite El. cbn [tail app]. rewrite queued_app, (queued_cons x []).
    change (queued []) with 0. lia.
Qed.

(** *** One step *)

(** An offer is accepted once, into a sink of its own. *)
Definition accepts_once (o : op) (s : State) : bool :=
  match o with
  | OAccept id k =>
      match find id s with Some (_, t) => bool_decide (t_sink t = None) | None => true end &&
      forallb (fun t => negb (bool_decide (t_sink t = Some k))) (heap s)
  | _ => true
  end.

(** A transfer is given a sink that is new, with a chain of its own. *)
Definition entrust (r pc k : nat) (s : State) : State :=
  update r (accepted pc k (length (chains s))) (set_chains (fun l => l ++ [MkChain r [] false]) s).

Lemma entrust_lookup r pc k s t r' : heap s !! r = Some t ->
  heap (entrust r pc k s) !! r' = if decide (r = r') then Some (accepted pc k (length (chains s)) t) else heap s !! r'.
Proof. intros Ht. cbn. rewrite list_lookup_alter. destruct (decide (r = r')) as [<-|]; [by rewrite Ht | done]. Qed.

Lemma balanced_entrust r t pc k s :
  heap s !! r = Some t -> t_sink t = None -> (forall r' t', heap s !! r' = Some t' -> t_sink t' <> Some k) ->
  balanced 0 0 s -> balanced 0 0 (entrust r pc k s).
Proof.
  intros Ht Hs Hf [H1 H2 H3 H4].
  assert (Hw0 : volume k (log s) = 0).
  { destruct (decide (volume k (log s) = 0)) as [|E]; [done|]. destruct (H4 k E) as (r' & t' & Ht' & Hk'). by destruct (Hf r' t' Ht'). }
  split; cbn [chains log entrust update set_heap set_chains].
  - intros i c Hc. apply lookup_app_Some in Hc as [Hc|[Hge Hc]].
    + destruct (H1 i c Hc) as (t' & k' & Ht' & Hi & Hk'). exists t', k'. split; [|done].
      rewrite (entrust_lookup r pc k s t) by done.
      destruct (decide (r = c_owner c)) as [E|]; [|done]. rewrite <-E, Ht in Ht'. injection Ht' as <-. congruence.
    + assert (i = length (chains s)) as -> by (apply lookup_lt_Some in Hc; cbn in Hc; lia). rewrite Nat.sub_diag in Hc.
      injection Hc as <-. exists (accepted pc k (length (chains s)) t), k. split; [|done].
      rewrite (entrust_lookup r pc k s t) by done. by rewrite decide_True.
  - intros r' t' k' Ht' Hk'. rewrite (entrust_lookup r pc k s t) in Ht' by done.
    destruct (decide (r = r')) as [<-|Hne].
    + injection Ht' as <-. cbn in Hk'. injection Hk' as <-. exists (MkChain r [] false).
      cbn [t_writeChain accepted c_owner c_links t_recvGot].
      split; [by rewrite lookup_app_r, Nat.sub_diag by lia|]. split; [done|]. rewrite Hw0. by case_decide.
    + destruct (H2 r' t' k' Ht' Hk') as (c & Hc & ? & ?). exists c. split; [by apply lookup_app_l_Some|done].
  - intros r1 r2 t1 t2 k' A B. rewrite (entrust_lookup r pc k s t) in A, B by done.
    destruct (decide (r = r1)) as [<-|], (decide (r = r2)) as [<-|]; [done| | |by apply H3].
    + injection A as <-. cbn. intros [= <-] E. by destruct (Hf r2 t2 B).
    + injection B as <-. cbn. intros E [= <-]. by destruct (Hf r1 t1 A).
  - intros k' Hne. destruct (H4 k' Hne) as (r' & t' & Ht' & Hk'). exists r', t'. split; [|done].
    rewrite (entrust_lookup r pc k s t) by done. destruct (decide (r = r')) as [<-|]; [|done].
    rewrite Ht in Ht'. injection Ht' as <-. congruence.
Qed.

Lemma balanced_accept id k s : accepts_once (OAccept id k) s = true -> balanced 0 0 s -> balanced 0 0 (accept id k s).
Proof.
  intros Ho HB. cbn in Ho. apply andb_true_iff in Ho as [Hs Hk]. unfold accept.
  destruct (find id s) as [[r t]|] eqn:Ef; [|done]. apply find_heap in Ef as Ht. apply bool_decide_eq_true in Hs.
  destruct (t_pendingOffer t) as [offer|]; [|done]. cbn zeta. set (pc := length (pcs s)).
  set (s1 := emit (NewConnection pc) _).
  match goal with |- balanced _ _ (await ?a (emit ?e ?x)) => apply (balanced_neutral 0 0 x); [neutral|] end.
  apply (balanced_entrust r t pc k s1); [done|done| |].
  - intros r' t' Ht' E. rewrite forallb_forall in Hk. apply list_elem_of_lookup_2, list_elem_of_In in Ht'.
    apply Hk in Ht'. by rewrite bool_decide_true in Ht'.
  - apply (balanced_neutral 0 0 s); [unfold s1; neutral | done].
Qed.

Lemma balanced_onmessage id data s : balanced 0 0 s -> balanced 0 0 (onmessage id data s).
Proof.
  intros HB. unfold onmessage. destruct (find id s) as [[r t]|] eqn:Ef; [|done]. apply find_heap in Ef.
  destruct (t_sink t) as [k|] eqn:Ek; [|done]. apply (balanced_any 0 r) in HB.
  assert (Hbuf : forall b, balanced 0 0
    (let next := t_recvGot t + Z.of_nat (length b) in
     if t_size t <? next then fail id "the sender exceeded the announced file size" s else
     chain_then (t_writeChain t) (LWrite b)
       (emit (OnProgress id next (t_size t)) (update r (with_got next) s)))).
  { intros b. cbn zeta. destruct (_ <? _).
    - apply (balanced_any r 0). apply (balanced_neutral r 0 s); [neutral | done].
    - apply (balanced_any r 0). set (next := t_recvGot t + _). set (s1 := emit _ _).
      assert (Ht : heap s1 !! r = Some (with_got next t)) by (cbn; by rewrite list_lookup_alter_eq, Ef).
      change (t_writeChain t) with (t_writeChain (with_got next t)). apply (balanced_chain_then r _ k); [done..|].
      apply (balanced_neutral r _ (update r (with_got next) s)); [by apply neutral_emit|]. clear s1 Ht.
      destruct HB as [H1 H2 H3 H4].
      assert (Hh : forall r', heap (update r (with_got next) s) !! r' = if decide (r = r') then Some (with_got next t) else heap s !! r').
      { intros r'. cbn. rewrite list_lookup_alter. destruct (decide (r = r')) as [<-|]; [by rewrite Ef | done]. }
      assert (Hb : forall r' t', heap (update r (with_got next) s) !! r' = Some t' -> exists t0, heap s !! r' = Some t0 /\
        t_sink t' = t_sink t0 /\ t_writeChain t' = t_writeChain t0 /\
        t_recvGot t' = t_recvGot t0 + if decide (r' = r) then Z.of_nat (length b) else 0).
      { intros r' t' Ht'. rewrite Hh in Ht'. destruct (decide (r = r')) as [<-|Hne].
        - injection Ht' as <-. exists t. rewrite decide_True by done. done.
        - exists t'. rewrite decide_False by done. split_and!; [done..|lia]. }
      assert (Hk : forall r' t0, heap s !! r' = Some t0 -> exists t', heap (update r (with_got next) s) !! r' = Some t' /\
        t_sink t' = t_sink t0 /\ t_writeChain t' = t_writeChain t0).
      { intros r' t0 Ht0. rewrite Hh. destruct (decide (r = r')) as [<-|]; [|by exists t0]. rewrite Ef in Ht0.
        injection Ht0 as <-. by exists (with_got next t). }
      split; cbn [chains log update set_heap].
      + intros i c Hc. destruct (H1 i c Hc) as (t0 & k0 & Ht0 & Hi & Hk0). destruct (Hk _ _ Ht0) as (t' & ? & E1 & E2).
        exists t', k0. by rewrite E1, E2.
      + intros r' t' k' Ht' Hk'. destruct (Hb r' t' Ht') as (t0 & Ht0 & E1 & E2 & E3). rewrite E1 in Hk'.
        destruct (H2 r' t0 k' Ht0 Hk') as (c & Hc & Ho & Hle). exists c. rewrite E2, E3. split; [done|]. split; [done|].
        cbn [link_size]. destruct (decide (r' = r)); lia.
      + intros r1 r2 t1 t2 k' A B Ka Kb. destruct (Hb _ _ A) as (a & Ha & Ea & _), (Hb _ _ B) as (b' & Hb' & Eb & _).
        rewrite Ea in Ka. rewrite Eb in Kb. by apply (H3 r1 r2 a b' k').
      + intros k' Hne. destruct (H4 k' Hne) as (r' & t0 & Ht0 & Hk0). destruct (Hk _ _ Ht0) as (t' & ? & E1 & _).
        exists r', t'. by rewrite E1. }
  destruct data as [d|b|]; [|apply (Hbuf b)|apply (Hbuf [])].
  apply (balanced_any r 0). destruct (bool_decide (d = DONE_MARKER)); [|done]. by apply (balanced_chain_then r t k).
Qed.

Lemma balanced_resume k r s : balanced 0 0 s -> balanced 0 0 (resume k r s).
Proof.
  intros HB. destruct k as [id name size pc|id name size offer|id t pc|pc rest|id t pc|id t pc|id t pc answer
    |id ch size off sent|id ch size off sent|chain|id t];
    try (apply (balanced_neutral 0 0 s); [|done]; destruct r; cbn [resume]; neutral; done).
  - apply (balanced_neutral 0 0 s); [|done]. destruct r; cbn [resume]; try (by neutral).
    eapply neutral_trans; [|apply neutral_drain]. neutral.
  - apply (balanced_neutral 0 0 s); [|done]. destruct r, rest; cbn [resume]; first [by neutral | apply neutral_applyIce].
  - apply (balanced_neutral 0 0 s); [|done]. destruct r; cbn [resume]; try (by neutral).
    eapply neutral_trans; [|apply neutral_drain]. neutral.
  - apply (balanced_neutral 0 0 s); [|done]. destruct r; cbn [resume]; try (by neutral). unfold stream_slice. neutral.
  - apply (balanced_neutral 0 0 s); [|done]. destruct r as [| |chunk| |]; cbn [resume]; try (by neutral).
    destruct (channel_send ch _ s) as [s1|] eqn:E; [|neutral]. apply neutral_send in E.
    eapply neutral_trans; [|apply neutral_stream_loop]. by eapply neutral_trans; [exact E | apply neutral_emit].
  - destruct r; cbn [resume]; try done; destruct (chains s !! chain) as [c|] eqn:Ec; try done;
      apply (balanced_any (c_owner c) 0); apply (balanced_any 0 (c_owner c)) in HB.
    + pose proof (balanced_start chain c (tail (c_links c)) 0 s Ec HB ltac:(lia)) as Hs. by destruct (start_links _ _ _ _).
    + eapply balanced_neutral; [apply neutral_fail_all|]. apply (balanced_put _ _ _ _ 0); [done..|].
      cbn. pose proof (queued_pos (tail (c_links c))). change (queued []) with 0. lia.
Qed.

Lemma balanced_exec o s : accepts_once o s = true -> balanced 0 0 s -> balanced 0 0 (exec o s).
Proof.
  intros Ho HB. pose proof (fun s' H => balanced_neutral 0 0 s s' H HB) as HN.
  destruct o as [id name size|raw|id sink|id|id|pc c|pc|ch|ch|ch n|ch data|n r]; cbn [exec].
  - apply HN. unfold sendFile. cbn zeta. neutral.
  - apply HN, neutral_signal.
  - by apply balanced_accept.
  - apply HN. unfold decline. neutral.
  - apply HN. neutral.
  - apply HN. neutral.
  - apply HN. destruct (pcs s !! pc) as [c|]; [|neutral]. cbn zeta. unfold bindReceive. neutral.
  - apply HN. destruct (chans s !! ch) as [c|]; [|neutral]. destruct (ch_role_of c); try (by neutral).
    unfold streamOut. destruct (find _ s) as [[r t]|]; [|neutral].
    destruct (t_ch t), (t_source t); first [apply neutral_stream_loop | neutral].
  - apply HN. destruct (chans s !! ch) as [c|]; [|neutral]. cbn zeta. neutral.
  - apply HN. neutral.
  - destruct (chans s !! ch) as [c|]; [|done]. destruct (ch_role_of c); try done. by apply balanced_onmessage.
  - destruct (tasks s !! n) as [k|]; [|done]. destruct (settles k r); [|done].
    apply balanced_resume, HN. neutral.
Qed.

Fixpoint once_run (os : list op) (s : State) : bool :=
  match os with [] => true | o :: os => accepts_once o s && once_run os (exec o s) end.

Lemma balanced_run os : forall s, once_run os s = true -> balanced 0 0 s -> balanced 0 0 (run os s).
Proof.
  induction os as [|o os IH]; intros s Ho HB; [done|]. cbn in Ho. apply andb_true_iff in Ho as [Ho1 Ho2].
  apply (IH (exec o s)); [done|]. by apply balanced_exec.
Qed.

(** C32. Nothing happens to the receiver without consent, and what happens stays bounded.  In every
    reachable state, whatever the peer and the network did: bytes are only ever written to (or a
    close only asked of) a sink the user handed over by accepting, connections are only opened
    by sending or accepting, and at most 64 candidates are buffered for a transfer.  When each offer is
    accepted once, each time into a sink of its own, all the bytes ever written to a sink, with those that
    wait behind the write in flight, are no more than the size its transfer was announced with.
    (Accepted twice, one offer can fill a sink further: [accepted_twice].) *)
Theorem consent_and_bounds os :
  let s := run os initial in
  (forall e k, e ∈ log s -> sink_effect e k -> exists id, OAccept id k ∈ os) /\
  (length (pcs s) <= length (List.filter opens os))%nat /\
  (forall t, t ∈ heap s -> (length (t_pendingIce t) <= MAX_PENDING_ICE)%nat) /\
  (once_run os initial = true -> forall k, volume k (log s) <> 0 ->
     exists t c, t ∈ heap s /\ t_sink t = Some k /\ chains s !! t_writeChain t = Some c /\
       volume k (log s) + queued (tail (c_links c)) <= Z.max 0 (t_size t)).
Proof.
  intros s. destruct (inv_run os) as [Hb _ Hl Hp]. split; [done|]. split; [done|]. split.
  { intros t Ht. by apply (proj1 (Forall_forall _ _) Hb t Ht). }
  intros Ho k Hk. assert (HB : balanced 0 0 s).
  { apply balanced_run; [done|]. split; cbn; [by intros []|by intros []|by intros []|done]. }
  destruct (bal_log _ _ _ HB k Hk) as (r & t & Ht & Hs). destruct (bal_sink _ _ _ HB r t k Ht Hs) as (c & Hc & _ & Hle).
  apply list_elem_of_lookup_2 in Ht as Hin. exists t, c. split_and!; [done..|].
  destruct (proj1 (Forall_forall _ _) Hb t Hin) as [_ Hg]. destruct (decide (r = 0%nat)); lia.
Qed.

(** A sender that streams past the size the user agreed to is cut off: the excess chunk is
    never written, the connection is closed, the user is told, and the transfer is gone. *)
Theorem oversize_is_refused id b s r t k :
  find id s = Some (r, t) -> t_sink t = Some k -> t_size t < t_recvGot t + Z.of_nat (length b) ->
  let s' := onmessage id (Buffer b) s in
  log s' = log s ++ match t_pc t with Some p => [ClosePc p] | None => [] end ++
                    [OnError id "the sender exceeded the announced file size"] /\
  has id s' = false /\ chains s' = chains s /\
  forall data, onmessage id data s' = s'.
Proof.
  intros Ef Ek Hlt.
  assert (E : onmessage id (Buffer b) s = fail id "the sender exceeded the announced file size" s).
  { unfold onmessage. by rewrite Ef, Ek, (proj2 (Z.ltb_lt _ _) Hlt). }
  assert (Eg : JsMap.lookup id (transfers (fail id "the sender exceeded the announced file size" s)) = None).
  { unfold fail, cancel. rewrite Ef. cbn. apply JsMap.lookup_remove_eq. }
  cbn zeta. rewrite E. split; [|split; [|split]].
  - unfold fail, cancel. rewrite Ef. cbn. unfold close_pc.
    destruct (t_pc t); cbn; [by rewrite <-app_assoc|done].
  - unfold has, JsMap.has. by rewrite Eg.
  - unfold fail, cancel. rewrite Ef. cbn. by destruct (t_pc t).
  - intros data. unfold onmessage, find. by rewrite Eg.
Qed.

(** ** A whole file *)

(** The slices [streamOut] asks its source for. *)
Definition chunk_len : nat := Z.to_nat CHUNK_SIZE.
Definition slice_at (content : bytes) (i : nat) : bytes :=
  u8_slice (i * chunk_len) ((i * chunk_len + chunk_len) `min` length content) content.
Definition turns (content : bytes) : nat := (length content + (chunk_len - 1)) / chunk_len.
Definition slices (content : bytes) : list bytes := slice_at content <$> seq 0 (turns content).

Lemma chunk_len_Z : Z.of_nat chunk_len = CHUNK_SIZE.
Proof. unfold chunk_len. by rewrite Z2Nat.id. Qed.

Lemma chunk_len_pos : (0 < chunk_len)%nat.
Proof. pose proof chunk_len_Z. unfold CHUNK_SIZE in *. lia. Qed.

Lemma turns_spec content i :
  if (i <? turns content)%nat then (i * chunk_len < length content)%nat
  else (length content <= i * chunk_len)%nat.
Proof.
  pose proof chunk_len_pos as Hp. unfold turns. revert Hp. generalize chunk_len. intros K Hp.
  pose proof (Nat.div_mod (length content + (K - 1)) K ltac:(lia)).
  pose proof (Nat.mod_upper_bound (length content + (K - 1)) K ltac:(lia)).
  destruct (Nat.ltb_spec i ((length content + (K - 1)) / K)); nia.
Qed.

Lemma slice_at_eq content i : slice_at content i = take chunk_len (drop (i * chunk_len) content).
Proof.
  unfold slice_at, u8_slice. generalize chunk_len. intros K.
  destruct (decide (i * K + K <= length content)%nat).
  - f_equal. lia.
  - rewrite !take_ge by (rewrite length_drop; lia). done.
Qed.

Lemma slices_concat content : concat (slices content) = content.
Proof.
  assert (Hk : forall k i, (length content <= (i + k) * chunk_len)%nat ->
    concat (slice_at content <$> seq i k) = drop (i * chunk_len) content).
  { induction k as [|k IH]; intros i Hi; cbn [seq fmap list_fmap concat].
    - rewrite drop_ge by lia. done.
    - rewrite IH by lia. rewrite slice_at_eq.
      replace (S i * chunk_len)%nat with (i * chunk_len + chunk_len)%nat by lia.
      rewrite <-drop_drop. apply take_drop. }
  unfold slices. rewrite Hk; [by rewrite drop_0|]. cbn [Nat.add].
  pose proof (turns_spec content (turns content)) as Ht. by rewrite Nat.ltb_irrefl in Ht.
Qed.

Definition add_log (l : list effect) (s : State) : State :=
  MkState (transfers s) (heap s) (pcs s) (chans s) (chains s) (tasks s) (log s ++ l).

(** What streaming reports and sends. *)
Fixpoint stream_log (id : string) (ch : nat) (size sent : Z) (l : list bytes) : list effect :=
  match l with
  | [] => [ChannelSend ch (Text DONE_MARKER)]
  | b :: l =>
      let sent := sent + Z.of_nat (length b) in
      ChannelSend ch (Buffer b) :: OnProgress id sent size :: stream_log id ch size sent l
  end.

Definition flowing (id : string) (ch : nat) (s : State) : Prop :=
  has id s = true /\ exists c, chans s !! ch = Some c /\ ch_closed c = false /\ ch_buffered c <= BACKPRESSURE_HIGH.

Lemma stream_serves id ch content k i sent s :
  (i + k)%nat = turns content -> flowing id ch s ->
  run ((fun j => OSettle (length (tasks s)) (ResolvedBytes (slice_at content j))) <$> seq i k)
      (stream_loop id ch (Z.of_nat (length content)) (Z.of_nat i * CHUNK_SIZE) sent s) =
  add_log (stream_log id ch (Z.of_nat (length content)) sent (slice_at content <$> seq i k)) s.
Proof.
  revert i sent s. induction k as [|k IH]; intros i sent s Hk Hf; pose proof Hf as (Hh & c & Hc & Hcl & Hb);
    cbn [seq fmap list_fmap stream_log]; unfold stream_loop.
  - assert (Hge : Z.of_nat i * CHUNK_SIZE >= Z.of_nat (length content)).
    { pose proof (turns_spec content i) as Ht. rewrite (proj2 (Nat.ltb_ge _ _)) in Ht by lia.
      rewrite <-chunk_len_Z. lia. }
    rewrite (proj2 (Z.ltb_ge _ _)) by lia. rewrite Hh. unfold channel_send. by rewrite Hc, Hcl.
  - assert (Hlt : Z.of_nat i * CHUNK_SIZE < Z.of_nat (length content)).
    { pose proof (turns_spec content i) as Ht. rewrite (proj2 (Nat.ltb_lt _ _)) in Ht by lia.
      rewrite <-chunk_len_Z. lia. }
    rewrite (proj2 (Z.ltb_lt _ _)), Hh by lia. cbn [negb]. unfold buffered. rewrite Hc.
    rewrite (proj2 (Z.ltb_ge _ _)) by lia. unfold run. cbn [foldl exec].
    unfold stream_slice, await, set_tasks. cbn [tasks].
    rewrite lookup_app_r, Nat.sub_diag by lia. cbn [lookup list_lookup settles resume].
    rewrite take_app_length', drop_app_ge, Nat.sub_succ_l, Nat.sub_diag by lia. cbn [drop].
    rewrite app_nil_r. unfold channel_send. cbn [chans]. rewrite Hc, Hcl.
    match goal with |- foldl _ (stream_loop _ _ _ _ _ ?x) _ = _ => set (s1 := x) end.
    pose proof (IH (S i) (sent + Z.of_nat (length (slice_at content i))) s1) as IH'.
    change (tasks s1) with (tasks s) in IH'.
    replace (Z.of_nat i * CHUNK_SIZE + CHUNK_SIZE) with (Z.of_nat (S i) * CHUNK_SIZE) by lia.
    unfold run in IH' |- *. rewrite IH'; [|lia|exact Hf]. unfold add_log, s1. cbn.
    by rewrite <-!app_assoc.
Qed.

(** A transfer that has been accepted and is receiving. *)
Record receiving (id name : string) (ch r k : nat) (size g : Z) (s : State) : Prop := {
  rc_transfer : exists t, find id s = Some (r, t) /\ t_sink t = Some k /\ t_size t = size /\
    t_recvGot t = g /\ t_name t = name /\ chains s !! t_writeChain t = Some (MkChain r [] false);
  rc_channel : exists c, chans s !! ch = Some c /\ ch_role_of c = Receives /\ ch_id c = id
}.

Lemma find_update id s r t f :
  find id s = Some (r, t) -> find id (update r f s) = Some (r, f t).
Proof.
  intros Ef. pose proof (find_heap _ _ _ _ Ef) as Eh. unfold find in *. cbn.
  destruct (JsMap.lookup id (transfers s)) as [j|]; [|done].
  destruct (heap s !! j) as [x|] eqn:Ej; [|done]. injection Ef as -> ->.
  by rewrite list_lookup_alter, decide_True, Eh.
Qed.

Lemma remove_last_task k s :
  (set_tasks (fun ts => take (length (tasks s)) ts ++ drop (S (length (tasks s))) ts) (await k s)) = s.
Proof.
  unfold await, set_tasks. destruct s as [a b c d e ts l]. cbn. f_equal.
  rewrite take_app_length', drop_app_ge, Nat.sub_succ_l, Nat.sub_diag by lia. cbn. apply app_nil_r.
Qed.

Lemma receive_chunk id name ch r k size g b s :
  receiving id name ch r k size g s -> g + Z.of_nat (length b) <= size ->
  let s' := run [OMessage ch (Buffer b); OSettle (length (tasks s)) Resolved] s in
  receiving id name ch r k size (g + Z.of_nat (length b)) s' /\ tasks s' = tasks s /\
  log s' = log s ++ [OnProgress id (g + Z.of_nat (length b)) size; SinkWrite k b].
Proof.
  intros [(t & Ef & Ek & Es & Eg & En & Ec) (c & Hc & Hr & Hi)] Hle. unfold run. cbn [foldl exec].
  rewrite Hc, Hr, Hi. unfold onmessage. rewrite Ef, Ek, Es, Eg, (proj2 (Z.ltb_ge _ _)) by lia.
  set (g' := g + Z.of_nat (length b)).
  set (s1 := emit (OnProgress id g' size) (update r (with_got g') s)).
  pose proof (find_heap _ _ _ _ (find_update id s r t (with_got g') Ef)) as Eh.
  assert (E1 : chain_then (t_writeChain t) (LWrite b) s1 =
    put_links (t_writeChain t) [LWrite b] false (await (AwaitWrite (t_writeChain t)) (emit (SinkWrite k b) s1))).
  { unfold chain_then. change (chains s1) with (chains s). rewrite Ec. cbn [c_failed c_links c_owner start_links].
    change (heap s1) with (heap (update r (with_got g') s)). rewrite Eh. cbn. by rewrite Ek. }
  rewrite E1. set (s2 := emit (SinkWrite k b) s1).
  assert (E2 : exec (OSettle (length (tasks s)) Resolved)
     (put_links (t_writeChain t) [LWrite b] false (await (AwaitWrite (t_writeChain t)) s2)) =
     put_links (t_writeChain t) [] false (put_links (t_writeChain t) [LWrite b] false s2)).
  { cbn [exec]. change (tasks (put_links _ _ _ (await ?k s2))) with (tasks s2 ++ [k]).
    change (tasks s2) with (tasks s). rewrite lookup_app_r, Nat.sub_diag by lia. cbn [lookup list_lookup settles].
    change (set_tasks ?f (put_links ?a ?b0 ?c0 (await ?k s2))) with (put_links a b0 c0 (set_tasks f (await k s2))).
    change (tasks s) with (tasks s2). rewrite remove_last_task. cbn [resume].
    change (chains (put_links ?a ?b0 ?c0 s2)) with (alter (fun c => MkChain (c_owner c) b0 c0) a (chains s)).
    rewrite list_lookup_alter, decide_True, Ec by done. done. }
  match goal with |- context [match tasks ?x !! ?n with _ => _ end] =>
    change (match tasks x !! n with Some k0 => if settles k0 Resolved then resume k0 Resolved (set_tasks (fun ts => take n ts ++ drop (S n) ts) x) else x | None => x end)
    with (exec (OSettle n Resolved) x) end.
  rewrite E2. split; [|split; [done|by cbn; rewrite <-app_assoc]]. split; [|by exists c].
  exists (with_got g' t). split; [exact (find_update id s r t (with_got g') Ef)|].
  split_and!; try done. cbn. by rewrite !list_lookup_alter, !decide_True, Ec.
Qed.

(** Delivering messages, each write settling before the next message. *)
Definition deliver (ch n : nat) (l : list message) : list op :=
  m ← l; match m with Buffer _ => [OMessage ch m; OSettle n Resolved] | _ => [OMessage ch m] end.

Definition sent_messages (l : list effect) : list message :=
  omap (fun e => match e with ChannelSend _ m => Some m | _ => None end) l.
Definition written (l : list effect) : list bytes :=
  omap (fun e => match e with SinkWrite _ b => Some b | _ => None end) l.

Lemma run_app a b s : run (a ++ b) s = run b (run a s).
Proof. apply foldl_app. Qed.

Lemma receive_all id name ch r k size l g s :
  receiving id name ch r k size g s -> g + Z.of_nat (length (concat l)) <= size ->
  let s' := run (deliver ch (length (tasks s)) (Buffer <$> l)) s in
  receiving id name ch r k size (g + Z.of_nat (length (concat l))) s' /\ tasks s' = tasks s /\
  exists tr, log s' = log s ++ tr /\ written tr = l.
Proof.
  revert g s. induction l as [|b l IH]; intros g s HR Hle; cbn [concat fmap list_fmap] in *.
  - cbn. rewrite Z.add_0_r. split; [done|]. split; [done|]. exists []. by rewrite app_nil_r.
  - rewrite length_app in *. cbn zeta.
    change (deliver ch (length (tasks s)) (Buffer b :: (Buffer <$> l))) with
      ([OMessage ch (Buffer b); OSettle (length (tasks s)) Resolved] ++
       deliver ch (length (tasks s)) (Buffer <$> l)).
    rewrite run_app.
    destruct (receive_chunk id name ch r k size g b s HR ltac:(lia)) as (HR1 & Et & El).
    set (s1 := run [OMessage ch (Buffer b); OSettle (length (tasks s)) Resolved] s) in *.
    rewrite <-Et. destruct (IH _ s1 HR1 ltac:(lia)) as (HR2 & Et2 & tr & El2 & Ew).
    split; [|split; [by rewrite Et2|]].
    + replace (g + Z.of_nat (length b + length (concat l)))
        with (g + Z.of_nat (length b) + Z.of_nat (length (concat l))) by lia. exact HR2.
    + exists (OnProgress id (g + Z.of_nat (length b)) size :: SinkWrite k b :: tr). split.
      * rewrite El2, El, <-app_assoc. done.
      * change (b :: written tr = b :: l). by f_equal.
Qed.

(** The end marker, on an idle chain, and the sink closed. *)
Lemma receive_done id name ch r k size g s blob :
  receiving id name ch r k size g s ->
  let s' := run [OMessage ch (Text DONE_MARKER); OSettle (length (tasks s)) (ResolvedBlob blob)] s in
  has id s' = false /\
  exists tail, log s' = log s ++ SinkClose k :: OnComplete id name blob :: tail /\ written tail = [].
Proof.
  intros [(t & Ef & Ek & Es & Eg & En & Ec) (c & Hc & Hr & Hi)]. unfold run. cbn [foldl exec].
  rewrite Hc, Hr, Hi. unfold onmessage. rewrite Ef, Ek, bool_decide_true by done.
  pose proof (find_heap _ _ _ _ Ef) as Eh. set (s2 := emit (SinkClose k) s).
  assert (E1 : chain_then (t_writeChain t) (LDone id) s =
    put_links (t_writeChain t) [] false (await (AwaitClose id r) s2)).
  { unfold chain_then. rewrite Ec. cbn [c_failed c_links c_owner start_links]. by rewrite Eh, Ek. }
  rewrite E1. change (tasks (put_links _ _ _ (await ?k s2))) with (tasks s2 ++ [k]).
  change (tasks s) with (tasks s2). rewrite lookup_app_r, Nat.sub_diag by lia.
  cbn [lookup list_lookup settles].
  change (set_tasks ?f (put_links ?a ?b0 ?c0 (await ?k s2))) with (put_links a b0 c0 (set_tasks f (await k s2))).
  rewrite remove_last_task. cbn [resume]. change (heap (put_links _ _ _ s2)) with (heap s). rewrite Eh, En.
  split.
  - unfold has, JsMap.has, close_pc. destruct (t_pc t); cbn; by rewrite JsMap.lookup_remove_eq.
  - exists (match t_pc t with Some p => [ClosePc p] | None => [] end).
    destruct (t_pc t); cbn; by rewrite <-!app_assoc.
Qed.

Lemma sent_stream_log id ch size sent l :
  sent_messages (stream_log id ch size sent l) = (Buffer <$> l) ++ [Text DONE_MARKER].
Proof. revert sent. induction l as [|b l IH]; intros sent; [done|]. cbn. f_equal. apply IH. Qed.

(** A file arrives intact.  Streaming a source over an open, draining channel and delivering
    what it sends, in order, to a transfer accepted for the same size, makes the receiver write
    exactly the file, in chunks of at most 16 KiB in order, close the sink once and report
    completion; the transfer is then forgotten. *)
Theorem file_arrives_intact content id ch s1 t1 r1 id2 name2 ch2 r2 k s2 blob :
  find id s1 = Some (r1, t1) -> t_ch t1 = Some ch -> t_source t1 = Some (Z.of_nat (length content)) ->
  flowing id ch s1 -> ch_id <$> chans s1 !! ch = Some id -> ch_role_of <$> chans s1 !! ch = Some Sends ->
  receiving id2 name2 ch2 r2 k (Z.of_nat (length content)) 0 s2 ->
  exists sent got,
    log (run (OOpen ch :: ((fun j => OSettle (length (tasks s1)) (ResolvedBytes (slice_at content j)))
                             <$> seq 0 (turns content))) s1) = log s1 ++ sent /\
    log (run (deliver ch2 (length (tasks s2)) (sent_messages sent) ++
              [OSettle (length (tasks s2)) (ResolvedBlob blob)]) s2) = log s2 ++ got /\
    concat (written got) = content /\ Forall (fun b => (length b <= chunk_len)%nat) (written got) /\
    OnComplete id2 name2 blob ∈ got /\
    has id2 (run (deliver ch2 (length (tasks s2)) (sent_messages sent) ++
                  [OSettle (length (tasks s2)) (ResolvedBlob blob)]) s2) = false.
Proof.
  intros Ef Ech Esrc Hflow Hid Hrole HR.
  exists (stream_log id ch (Z.of_nat (length content)) 0 (slices content)).
  assert (E1 : exec (OOpen ch) s1 = stream_loop id ch (Z.of_nat (length content)) 0 0 s1).
  { cbn [exec]. destruct (chans s1 !! ch) as [c|]; [|done]. cbn in Hid, Hrole.
    injection Hid as ->. injection Hrole as ->. unfold streamOut. by rewrite Ef, Ech, Esrc. }
  rewrite sent_stream_log.
  assert (Ed : deliver ch2 (length (tasks s2)) ((Buffer <$> slices content) ++ [Text DONE_MARKER]) =
               deliver ch2 (length (tasks s2)) (Buffer <$> slices content) ++ [OMessage ch2 (Text DONE_MARKER)]).
  { unfold deliver. by rewrite bind_app. }
  rewrite Ed, <-app_assoc, run_app. cbn [app].
  destruct (receive_all id2 name2 ch2 r2 k _ (slices content) 0 s2 HR) as (HR' & Et & tr & El & Ew).
  { rewrite slices_concat. lia. }
  set (s3 := run (deliver ch2 (length (tasks s2)) (Buffer <$> slices content)) s2) in *.
  rewrite <-Et.
  destruct (receive_done id2 name2 ch2 r2 k _ _ s3 blob HR') as (Hhas & tail & El' & Ew').
  assert (Eg : written (tr ++ SinkClose k :: OnComplete id2 name2 blob :: tail) = slices content).
  { unfold written in *. rewrite omap_app, Ew. cbn. by rewrite Ew', app_nil_r. }
  exists (tr ++ SinkClose k :: OnComplete id2 name2 blob :: tail). split; [|split; [|split; [|split; [|split]]]].
  - change (run (OOpen ch :: ?l) s1) with (run l (exec (OOpen ch) s1)). rewrite E1.
    pose proof (stream_serves id ch content (turns content) 0 0 s1 eq_refl Hflow) as E.
    change (Z.of_nat 0 * CHUNK_SIZE) with 0 in E. rewrite E. done.
  - by rewrite El', El, app_assoc.
  - rewrite Eg. apply slices_concat.
  - rewrite Eg. unfold slices. apply Forall_fmap, Forall_forall. intros i _. cbn.
    rewrite slice_at_eq, length_take. lia.
  - apply elem_of_app. right. right. left.
  - exact Hhas.
Qed.

(** ** Candidates wait for the remote description *)

(** Every candidate applied to a connection comes after its remote description was installed. *)
Definition ice_gated (l : list effect) : Prop :=
  forall i pc c, l !! i = Some (AddIce pc c) -> RemoteInstalled pc ∈ take i l.

Lemma ice_gated_app l l' :
  ice_gated l -> (forall pc c, AddIce pc c ∈ l' -> RemoteInstalled pc ∈ l) -> ice_gated (l ++ l').
Proof.
  intros Hl Hl' i pc c Hi. apply lookup_app_Some in Hi as [Hi|[Hge Hi]].
  - pose proof (lookup_lt_Some _ _ _ Hi). rewrite take_app_le by lia. by eapply Hl.
  - rewrite take_app_ge by done. apply elem_of_app. left. eapply Hl', list_elem_of_lookup_2, Hi.
Qed.

Definition on_pc (s : State) (r : nat) (p : option nat) : Prop :=
  exists t, heap s !! r = Some t /\ t_pc t = p.

Definition task_ok (s : State) (k : task) : Prop :=
  match k with
  | AwaitAnswer _ r pc => pc <> None /\ on_pc s r pc
  | AwaitIce pc _ => RemoteInstalled pc ∈ log s
  | AwaitAcceptRemote _ r pc => on_pc s r (Some pc)
  | AwaitAcceptAnswer _ r pc | AwaitAcceptLocal _ r pc _ => on_pc s r (Some pc) /\ RemoteInstalled pc ∈ log s
  | _ => True
  end.

Record ice_inv (s : State) : Prop := {
  ii_gated : ice_gated (log s);
  ii_ready r t p : heap s !! r = Some t -> t_remoteReady t = true -> t_pc t = Some p ->
    RemoteInstalled p ∈ log s;
  ii_tasks k : k ∈ tasks s -> task_ok s k
}.

(** The signals arrive in the order the protocol gives them: an answer only for a connection that
    exists, and an offer is accepted once, before anything answered it. *)
Definition orderly (o : op) (s : State) : Prop :=
  match o with
  | OSignal raw =>
      match parseSignal raw with
      | Some (SigAnswer id _) => forall r t, find id s = Some (r, t) -> t_pc t <> None
      | _ => True
      end
  | OAccept id _ => forall r t, find id s = Some (r, t) -> t_pendingOffer t <> None ->
      t_pc t = None /\ t_remoteReady t = false
  | _ => True
  end.

Lemma task_ok_mono s s' k :
  (forall r p, p <> None -> on_pc s r p -> on_pc s' r p) -> (forall e, e ∈ log s -> e ∈ log s') ->
  task_ok s k -> task_ok s' k.
Proof. intros Hh Hl. destruct k; cbn; naive_solver. Qed.

Lemma task_ok_calm s k : calm k = true -> task_ok s k.
Proof. by destruct k. Qed.

(** A step that keeps every connection of the heap, marks nothing ready without its remote
    description, and applies candidates only where one is installed. *)
Lemma ice_step s s' l :
  ice_inv s ->
  log s' = log s ++ l ->
  (forall pc c, AddIce pc c ∈ l -> RemoteInstalled pc ∈ log s) ->
  (forall r p, p <> None -> on_pc s r p -> on_pc s' r p) ->
  (forall r t p, heap s' !! r = Some t -> t_remoteReady t = true -> t_pc t = Some p ->
     (exists t', heap s !! r = Some t' /\ t_remoteReady t' = true /\ t_pc t' = Some p) \/
     RemoteInstalled p ∈ log s') ->
  (forall k, k ∈ tasks s' -> k ∈ tasks s \/ task_ok s' k) ->
  ice_inv s'.
Proof.
  intros [H1 H2 H3] El Hadd Hpc Hready Hk. split.
  - rewrite El. by apply ice_gated_app.
  - intros r t p Ht Hr Hp. destruct (Hready r t p Ht Hr Hp) as [(t' & Ht' & Hr' & Hp')|?]; [|done].
    rewrite El. apply elem_of_app. left. by eapply H2.
  - intros k Hin. destruct (Hk k Hin) as [Hin'|?]; [|done].
    eapply task_ok_mono; [done| |by apply H3]. intros e He. rewrite El. apply elem_of_app. by left.
Qed.

Lemma ice_quiet s s' : quiet (writes_to (heap s)) s s' -> ice_inv s -> ice_inv s'.
Proof.
  intros (Eh & _ & Ek & l & El & Hl) HI. eapply ice_step; [exact HI|exact El| | | |].
  - intros pc c Hin. by apply (proj1 (Forall_forall _ _) Hl) in Hin.
  - intros r p _. unfold on_pc. by rewrite Eh.
  - intros r t p. rewrite Eh. intros. left. by exists t.
  - intros k [?|?]%Ek; [by left|right]. by apply task_ok_calm.
Qed.

Lemma on_pc_update r f s r' p :
  (forall t, t_pc (f t) = t_pc t) -> on_pc s r' p -> on_pc (update r f s) r' p.
Proof.
  intros Hf (t & Ht & Hp). unfold on_pc. cbn. rewrite list_lookup_alter.
  destruct (decide (r = r')) as [->|]; [|by exists t]. exists (f t). rewrite Ht. by rewrite Hf.
Qed.

(** Updates that neither move a connection nor mark a transfer ready. *)
Lemma ice_update r f s :
  (forall t, t_pc (f t) = t_pc t) -> (forall t, t_remoteReady (f t) = t_remoteReady t) ->
  ice_inv s -> ice_inv (update r f s).
Proof.
  intros Hf Hg HI. apply (ice_step s _ []); [done|by rewrite app_nil_r| | | |].
  - intros pc c Hin. by apply not_elem_of_nil in Hin.
  - intros r' p _. by apply on_pc_update.
  - intros r' t p. cbn. rewrite list_lookup_alter. destruct (decide (r = r')) as [->|].
    + destruct (heap s !! r') as [t0|]; [|done]. cbn. intros [= <-]. rewrite Hf, Hg. left. by exists t0.
    + left. by exists t.
  - by auto.
Qed.

Lemma ice_ready r p s :
  on_pc s r (Some p) -> RemoteInstalled p ∈ log s -> ice_inv s -> ice_inv (update r with_ready s).
Proof.
  intros (t0 & Ht0 & Hp0) Hin HI. apply (ice_step s _ []); [done|by rewrite app_nil_r| | | |].
  - intros pc c Hin'. by apply not_elem_of_nil in Hin'.
  - intros r' p' _. by apply on_pc_update.
  - intros r' t p'. cbn. rewrite list_lookup_alter. destruct (decide (r = r')) as [->|].
    + rewrite Ht0. cbn. intros [= <-] _ Hp. right. cbn in Hp. congruence.
    + left. by exists t.
  - by auto.
Qed.

Lemma ice_emit e s : (forall pc c, e <> AddIce pc c) -> ice_inv s -> ice_inv (emit e s).
Proof.
  intros He HI. apply (ice_step s _ [e]); [done|done| | | |].
  - intros pc c Hin%list_elem_of_singleton. by destruct (He pc c).
  - by intros r p _ ?.
  - intros r t p. left. by exists t.
  - by auto.
Qed.

Lemma ice_other s s' :
  heap s' = heap s -> log s' = log s -> tasks s' ⊆ tasks s -> ice_inv s -> ice_inv s'.
Proof.
  intros Eh El Hk HI. apply (ice_step s _ []); [done|by rewrite El, app_nil_r| | | |].
  - intros pc c Hin. by apply not_elem_of_nil in Hin.
  - intros r p _. unfold on_pc. by rewrite Eh.
  - intros r t p. rewrite Eh. left. by exists t.
  - auto.
Qed.

Lemma ice_await k s : task_ok s k -> ice_inv s -> ice_inv (await k s).
Proof.
  intros Hk HI. apply (ice_step s _ []); [done|by rewrite app_nil_r| | | |].
  - intros pc c Hin. by apply not_elem_of_nil in Hin.
  - by intros r p _ ?.
  - intros r t p. left. by exists t.
  - intros k' [?| ->%list_elem_of_singleton]%elem_of_app; [by left|by right].
Qed.

Lemma ice_apply pc c rest s :
  RemoteInstalled pc ∈ log s -> ice_inv s -> ice_inv (applyIce pc c rest s).
Proof.
  intros Hin HI. apply ice_await; [cbn; apply elem_of_app; by left|].
  apply (ice_step s _ [AddIce pc c]); [done|done| | | |].
  - by intros pc' c' [= -> ->]%list_elem_of_singleton.
  - by intros r p _ ?.
  - intros r t p. left. by exists t.
  - by auto.
Qed.

Lemma ice_enter id t s :
  t_remoteReady t = false -> ice_inv s -> ice_inv (enter id t s).
Proof.
  intros Hr HI. apply (ice_step s _ []); [done|by rewrite app_nil_r| | | |].
  - intros pc c Hin. by apply not_elem_of_nil in Hin.
  - intros r p _ (t' & Ht & Hp). exists t'. split; [|done]. cbn. by apply lookup_app_l_Some.
  - intros r t' p Ht Hr' Hp. left. exists t'. split; [|done]. cbn in Ht.
    apply lookup_app_Some in Ht as [Ht|[_ Ht]]; [done|]. apply list_lookup_singleton_Some in Ht as [_ <-].
    congruence.
  - auto.
Qed.

Lemma ice_drain r p s :
  on_pc s r (Some p) -> RemoteInstalled p ∈ log s -> ice_inv s -> ice_inv (drainPendingIce r s).
Proof.
  intros (t & Ht & Hp) Hin HI. unfold drainPendingIce. rewrite Ht, Hp.
  assert (HU : ice_inv (update r (with_ice []) s)) by by apply ice_update.
  destruct (t_pendingIce t); [done|]. by apply ice_apply.
Qed.

Lemma ice_resume k r s : task_ok s k -> ice_inv s -> ice_inv (resume k r s).
Proof.
  intros Hk HI. destruct (calm k) eqn:Ec; [by eapply ice_quiet; [apply quiet_resume|]|].
  assert (Hfail : forall id msg, ice_inv (fail id msg s)).
  { intros id msg. eapply ice_quiet; [apply quiet_fail, ending_writes_to|done]. }
  destruct k as [| |id t pc|pc rest|id t pc|id t pc|id t pc answer| | | |]; try discriminate; cbn in Hk.
  - destruct r; cbn [resume]; try done. destruct Hk as [Hne Hpc]. destruct pc as [p|]; [|done].
    assert (Hi : RemoteInstalled p ∈ log (emit (RemoteInstalled p) s)) by (apply elem_of_app; right; left).
    apply (ice_drain t p); [by apply on_pc_update|done|].
    apply (ice_ready t p); [done|done|]. by apply ice_emit.
  - destruct r, rest; cbn [resume]; try done; by apply ice_apply.
  - destruct r; cbn [resume]; try done.
    assert (Hi : RemoteInstalled pc ∈ log (emit (RemoteInstalled pc) s)) by (apply elem_of_app; right; left).
    apply ice_await.
    + split; [by apply (on_pc_update _ _ s)|]. apply elem_of_app. by left.
    + apply ice_emit; [done|]. apply (ice_ready t pc); [done|done|]. by apply ice_emit.
  - destruct r; cbn [resume]; try done. destruct Hk as [Hpc Hi]. apply ice_await.
    + split; [done|]. apply elem_of_app. by left.
    + by apply ice_emit.
  - destruct r; cbn [resume]; try done. destruct Hk as [Hpc Hi]. apply (ice_drain t pc); [done| |].
    + apply elem_of_app. by left.
    + by apply ice_emit.
Qed.

Lemma ice_signal raw s : orderly (OSignal raw) s -> ice_inv s -> ice_inv (handleSignal raw s).
Proof.
  intros Ho HI. unfold handleSignal. cbn in Ho.
  destruct (parseSignal raw) as [[id name size sdp|id sdp|id c|id]|]; [| | | |done].
  - apply ice_emit; [done|]. by apply ice_enter.
  - destruct (find id s) as [[r t]|] eqn:Ef; [|done]. specialize (Ho r t eq_refl).
    apply find_heap in Ef. destruct (t_pc t) as [p|] eqn:Ep; [|done].
    apply ice_await; [split; [done|by exists t]|]. by apply ice_emit.
  - destruct (find id s) as [[r t]|] eqn:Ef; [|done]. apply find_heap in Ef.
    assert (HB : ice_inv (if (length (t_pendingIce t) <? MAX_PENDING_ICE)%nat
                          then update r (with_ice (t_pendingIce t ++ [c])) s else s)).
    { destruct (_ <? _)%nat; [|done]. by apply ice_update. }
    destruct (t_remoteReady t) eqn:Er, (t_pc t) as [p|] eqn:Ep; try done.
    apply ice_apply; [|done]. by eapply (ii_ready s HI).
  - destruct (find id s) as [[r t]|]; [|done].
    eapply ice_quiet; [apply quiet_fail, ending_writes_to|done].
Qed.

Lemma ice_accept id sink s : orderly (OAccept id sink) s -> ice_inv s -> ice_inv (accept id sink s).
Proof.
  intros Ho HI. cbn in Ho. unfold accept. destruct (find id s) as [[r t]|] eqn:Ef; [|done].
  destruct (t_pendingOffer t) as [offer|] eqn:Eo; [|done]. cbn zeta.
  destruct (Ho r t eq_refl ltac:(congruence)) as [Hp Hr]. apply find_heap in Ef.
  set (pc := length (pcs s)). apply ice_await.
  { exists (accepted pc sink (length (chains s)) t). split; [|done]. cbn.
    by rewrite list_lookup_alter, decide_True, Ef. }
  apply ice_emit; [done|].
  apply (ice_step s _ [NewConnection pc]); [done|done| | | |].
  - by intros pc' c Hin%list_elem_of_singleton.
  - intros r' p Hne (t' & Ht' & Hp'). unfold on_pc. cbn. rewrite list_lookup_alter.
    destruct (decide (r = r')) as [->|]; [|by exists t']. congruence.
  - intros r' t' p. cbn. rewrite list_lookup_alter. destruct (decide (r = r')) as [->|].
    + rewrite Ef. cbn. intros [= <-]. cbn. congruence.
    + left. by exists t'.
  - by auto.
Qed.

Lemma ice_exec o s : orderly o s -> ice_inv s -> ice_inv (exec o s).
Proof.
  intros Ho HI. destruct o as [id name size|raw|id sink|id|id|pc c|pc|ch|ch|ch n|ch data|n r]; cbn [exec].
  - unfold sendFile. cbn zeta. apply ice_await; [done|]. apply ice_emit; [done|]. apply ice_enter; [done|].
    apply ice_emit; [done|]. apply (ice_other (emit (NewConnection (length (pcs s))) s)); [done..|].
    by apply ice_emit.
  - by apply ice_signal.
  - by apply ice_accept.
  - unfold decline. destruct (find id s) as [[r t]|]; [|done].
    eapply ice_quiet; [|exact HI]. eapply quiet_trans; [by apply (quiet_emit _ (SendSignal (SigDecline id)))|].
    eapply quiet_trans; [apply quiet_close_pc|quiet_other].
  - apply (ice_quiet s); [|done].
    destruct (cancel_frame id s) as (Eh & Ep & _ & _ & Ek & l & El & He). split; [done|]. split; [done|].
    split; [rewrite Ek; by auto|].
    exists l. split; [done|]. apply Forall_forall. intros e Hin. by destruct (He e Hin) as [p ->].
  - destruct (pcs s !! pc), c as [v|]; try done. destruct (is_null v); [done|]. by apply ice_emit.
  - destruct (pcs s !! pc) as [c|]; [|done]. cbn zeta. destruct (pc_receives c); [|by apply (ice_other s)].
    unfold bindReceive. destruct (find _ _) as [[r t]|]; [destruct (t_sink t)|]; by apply (ice_other s).
  - destruct (chans s !! ch) as [c|]; [|done]. destruct (ch_role_of c); try done.
    unfold streamOut. destruct (find _ s) as [[r t]|]; [|done].
    destruct (t_ch t), (t_source t); try done. eapply ice_quiet; [apply quiet_stream_loop|done].
  - destruct (chans s !! ch) as [c|]; [|done]. destruct (ch_role_of c); by apply (ice_other s).
  - by apply (ice_other s).
  - destruct (chans s !! ch) as [c|]; [|done]. destruct (ch_role_of c); try done. unfold onmessage.
    destruct (find _ s) as [[r t]|]; [|done]. destruct (t_sink t); [|done].
    assert (Hbuf : forall b, ice_inv
      (let next := t_recvGot t + Z.of_nat (length b) in
       if t_size t <? next then fail (ch_id c) "the sender exceeded the announced file size" s else
       chain_then (t_writeChain t) (LWrite b)
         (emit (OnProgress (ch_id c) next (t_size t)) (update r (with_got next) s)))).
    { intros b. cbn zeta. destruct (t_size t <? _).
      - eapply ice_quiet; [apply quiet_fail, ending_writes_to|done].
      - eapply ice_quiet; [apply quiet_chain_then|]. apply ice_emit; [done|]. by apply ice_update. }
    destruct data as [d|b|]; [|apply (Hbuf b)|apply (Hbuf [])].
    destruct (bool_decide (d = DONE_MARKER)); [|done]. eapply ice_quiet; [apply quiet_chain_then|done].
  - destruct (tasks s !! n) as [k|] eqn:Ek; [|done]. destruct (settles k r); [|done].
    apply ice_resume.
    + apply (task_ok_mono s); [done|done|]. eapply (ii_tasks s HI), list_elem_of_lookup_2, Ek.
    + apply (ice_other s); [done|done| |done]. cbn. intros k' Hk'.
      apply elem_of_app in Hk' as [Hk'|Hk'].
      * apply elem_of_take in Hk' as (i & Hi & _). by eapply list_elem_of_lookup_2.
      * eapply (sublist_subseteq _ _ (sublist_drop (tasks s) (S n))). exact Hk'.
Qed.

(** Candidates are never applied too early, provided the peer's signals come in order: in any
    run where an answer only arrives for a transfer that has a connection and an offer is
    accepted at most once and unanswered, every [addIceCandidate] on a connection comes after
    its [setRemoteDescription] has resolved. *)
Theorem candidates_wait os :
  (forall os1 o os2, os = os1 ++ o :: os2 -> orderly o (run os1 initial)) ->
  ice_gated (log (run os initial)).
Proof.
  intros Ho. apply ii_gated. induction os as [|o os IH] using rev_ind.
  - split; cbn.
    + intros i pc c Hi. by rewrite lookup_nil in Hi.
    + intros r t p Ht. by rewrite lookup_nil in Ht.
    + intros k Hk. by apply not_elem_of_nil in Hk.
  - rewrite run_app. apply ice_exec; [by apply (Ho os o [])|]. apply IH.
    intros os1 o' os2 ->. apply (Ho os1 o' (os2 ++ [o])). by rewrite <-app_assoc.
Qed.

(** ** Concrete runs *)
Definition sdp : json := JObj [("type", JStr "offer")].
Definition offer_signal : json :=
  JObj [("id", JStr "f1"); ("kind", JStr "offer"); ("name", JStr "a.txt"); ("size", JNum 3); ("sdp", sdp)].
Definition answer_signal : json := JObj [("id", JStr "f1"); ("kind", JStr "answer"); ("sdp", sdp)].
Definition ice_signal_ : json := JObj [("id", JStr "f1"); ("kind", JStr "ice"); ("candidate", JStr "c")].

(** The gate can be defeated: the peer sends an answer to its own offer before the user has
    accepted it.  The transfer is then marked ready without any connection, and after the
    accept the next candidate is applied while [setRemoteDescription] is still pending. *)
Theorem stray_answer_defeats_gate :
  let s := run [OSignal offer_signal; OSignal answer_signal; OSettle 0 Resolved; OAccept "f1" 0;
                OSignal ice_signal_] initial in
  log s = [OnIncoming "f1" "a.txt" 3; NewConnection 0; SetRemote 0 sdp; AddIce 0 (Some (JStr "c"))] /\
  ~ ice_gated (log s).
Proof.
  assert (E : log (run [OSignal offer_signal; OSignal answer_signal; OSettle 0 Resolved; OAccept "f1" 0;
                OSignal ice_signal_] initial) =
    [OnIncoming "f1" "a.txt" 3; NewConnection 0; SetRemote 0 sdp; AddIce 0 (Some (JStr "c"))])
    by (vm_compute; reflexivity).
  cbn zeta. rewrite E. split; [reflexivity|]. intros Hg. specialize (Hg 3%nat 0%nat _ eq_refl).
  cbn [take] in Hg. repeat (apply elem_of_cons in Hg as [Hg|Hg]; [discriminate|]).
  by apply not_elem_of_nil in Hg.
Qed.

Lemma candidates_wait_witness :
  ice_gated (log (run [OSignal offer_signal; OSignal ice_signal_; OAccept "f1" 0; OSettle 0 Resolved] initial)).
Proof.
  apply (candidates_wait [OSignal offer_signal; OSignal ice_signal_; OAccept "f1" 0; OSettle 0 Resolved]).
  intros os1 o os2 E.
  destruct os1 as [|o1 os1]; [injection E as <- _; vm_compute; exact I|]. injection E as <- E.
  destruct os1 as [|o2 os1]; [injection E as <- _; vm_compute; exact I|]. injection E as <- E.
  destruct os1 as [|o3 os1].
  - injection E as <- _. intros r t Ef _. vm_compute in Ef. injection Ef as <- <-. split; reflexivity.
  - injection E as <- E. destruct os1 as [|o4 os1]; [injection E as <- _; vm_compute; exact I|].
    injection E as <- E. by destruct os1.
Defined.

(** A receiver that accepted three bytes, and a sender of those three bytes. *)
Definition receiver : State := run [OSignal offer_signal; OAccept "f1" 7; ODataChannel 0] initial.
Definition sender : State := run [OSendFile "f1" "a.txt" 3] initial.

(** Two bytes of the three arrive, one chunk after the other. *)
Definition two_bytes : list op :=
  [OSignal offer_signal; OAccept "f1" 7; ODataChannel 0; OMessage 0 (Buffer [1]); OMessage 0 (Buffer [2]); OSettle 1 Resolved].

Lemma consent_and_bounds_witness :
  once_run two_bytes initial = true /\ volume 7 (log (run two_bytes initial)) = 2 /\
  exists t c, t ∈ heap (run two_bytes initial) /\ t_sink t = Some 7%nat /\ chains (run two_bytes initial) !! t_writeChain t = Some c /\
    volume 7 (log (run two_bytes initial)) + queued (tail (c_links c)) <= Z.max 0 (t_size t).
Proof.
  assert (Ho : once_run two_bytes initial = true) by (vm_compute; reflexivity).
  assert (Ev : volume 7 (log (run two_bytes initial)) = 2) by (vm_compute; reflexivity).
  split; [exact Ho|]. split; [exact Ev|].
  destruct (consent_and_bounds two_bytes) as (_ & _ & _ & H). apply (H Ho). rewrite Ev. discriminate.
Defined.

Definition small_offer : json :=
  JObj [("id", JStr "f1"); ("kind", JStr "offer"); ("name", JStr "a.txt"); ("size", JNum 1); ("sdp", sdp)].

(** An offer of one byte that is accepted a second time, with the same sink, counts from zero again. *)
Example accepted_twice :
  let s := run [OSignal small_offer; OAccept "f1" 7; ODataChannel 0; OMessage 0 (Buffer [1]);
                OAccept "f1" 7; OMessage 0 (Buffer [2])] initial in
  volume 7 (log s) = 2 /\ t_size <$> heap s = [1].
Proof. vm_compute. split; reflexivity. Qed.

Lemma oversize_is_refused_witness :
  let s' := onmessage "f1" (Buffer [1; 2; 3; 4]) receiver in
  log s' = log receiver ++ [ClosePc 0] ++ [OnError "f1" "the sender exceeded the announced file size"].
Proof.
  exact (proj1 (oversize_is_refused "f1" [1; 2; 3; 4] receiver 0
    (MkTransfer (Some 0%nat) None "a.txt" 3 None (Some 7%nat) 0 0 (Some sdp) [] false) 7
    eq_refl eq_refl eq_refl)).
Defined.

Lemma file_arrives_intact_witness :
  exists sent got,
    log (run (OOpen 0 :: ((fun j => OSettle 1 (ResolvedBytes (slice_at [1; 2; 3] j))) <$> seq 0 (turns [1; 2; 3])))
           sender) = log sender ++ sent /\
    concat (written got) = [1; 2; 3] /\ OnComplete "f1" "a.txt" None ∈ got.
Proof.
  destruct (file_arrives_intact [1; 2; 3] "f1" 0 sender
    (MkTransfer (Some 0%nat) (Some 0%nat) "a.txt" 3 (Some 3) None 0 0 None [] false) 0
    "f1" "a.txt" 0 0 7 receiver None) as (sent & got & E1 & _ & E3 & _ & E5 & _).
  1-3: reflexivity.
  - split; [reflexivity|]. exists (MkChannel "f1" Sends false 0). split; [reflexivity|].
    split; [reflexivity|]. unfold BACKPRESSURE_HIGH. cbn. lia.
  - reflexivity.
  - reflexivity.
  - split.
    + exists (MkTransfer (Some 0%nat) None "a.txt" 3 None (Some 7%nat) 0 0 (Some sdp) [] false).
      repeat split; reflexivity.
    + exists (MkChannel "f1" Receives false 0). repeat split; reflexivity.
  - exists sent, got. split; [exact E1|]. split; [exact E3|exact E5].
Defined.
End FileTransfer.
