(* ===== verification/CallSession.v ===== *)
(** * Peer-to-peer calls (client/src/callsession.ts)

    As for file transfers, every operation, handler and settled promise is an atomic step and an
    await leaves a task.  Calls are heap objects, since a step waiting for the camera permission
    holds one while the map entry may have been replaced.  Media streams are numbered in the
    order the browser grants them. *)

From S2P Require Import Prelude Json.

Inductive CallSignal :=
  | CallOffer (id : string) (video : bool) (sdp : json)
  | CallAnswer (id : string) (sdp : json)
  | CallIce (id : string) (candidate : option json)
  | CallDecline (id : string)
  | CallHangup (id : string).

Inductive CallState := Calling | Ringing | Connected | Ended.
Inductive CallRole := Caller | Callee.
Inductive TrackKind := Audio | Video.

Inductive call_effect :=
  | SendCallSignal (signal : CallSignal)
  | OnCallIncoming (id : string) (withVideo : bool)
  | OnState (id : string) (state : CallState)
  | OnLocalStream (id : string) (stream : nat)
  | OnRemoteStream (id : string) (stream : json)
  | OnCallError (id msg : string)
  | GetUserMedia (video : bool)
  | NewPc (pc : nat)
  | AddTracks (pc stream : nat)
  | PcCreateOffer (pc : nat)
  | PcCreateAnswer (pc : nat)
  | PcSetLocal (pc : nat) (sdp : json)
  | PcSetRemote (pc : nat) (sdp : json)
  | PcAddIce (pc : nat) (candidate : option json)
  | PcClose (pc : nat)
  | StopTracks (stream : nat)
  | SetEnabled (stream : nat) (kind : TrackKind) (on : bool).

Record Call := MkCall {
  k_pc : option nat;
  k_local : option nat;
  k_video : bool;
  k_role : CallRole;
  k_pendingOffer : option json;
  k_pendingIce : list (option json);
  k_remoteReady : bool;
  k_ended : bool
}.

Inductive call_task :=
  | AwaitCapture (id : string) (c : nat) (video : bool) (role : CallRole)
  | AwaitCallOffer (id : string) (video : bool) (pc : nat)
  | AwaitCallOfferLocal (id : string) (video : bool) (offer : json)
  | AwaitCallAnswer (id : string) (c : nat)
  | AwaitCallIce (pc : nat) (rest : list (option json))
  | AwaitAcceptCallRemote (id : string) (c pc : nat)
  | AwaitAcceptCallAnswer (id : string) (c pc : nat)
  | AwaitAcceptCallLocal (id : string) (c : nat) (answer : json).

Inductive call_settlement := CResolved | CResolvedSdp (sdp : json) | CResolvedStream | CRejected.

Record CallSession := MkSession {
  calls : list (string * nat);
  call_heap : list Call;
  call_pcs : list string;
  streams : nat;
  call_tasks : list call_task;
  call_log : list call_effect
}.

Module CallSession.
Definition MAX_PENDING_ICE : nat := 64.

Definition parseCallSignal (o : json) : option CallSignal :=
  if negb (is_object o) then None else
  match prop o "id" with
  | Some (JStr id) =>
      if bool_decide (id = "") then None else
      match is_literal (prop o "kind") "call-offer", prop o "video", isSdp (prop o "sdp") with
      | true, Some (JBool video), Some sdp => Some (CallOffer id video sdp)
      | _, _, _ =>
          match is_literal (prop o "kind") "call-answer", isSdp (prop o "sdp") with
          | true, Some sdp => Some (CallAnswer id sdp)
          | _, _ =>
              if is_literal (prop o "kind") "call-ice" then Some (CallIce id (prop o "candidate")) else
              if is_literal (prop o "kind") "call-decline" then Some (CallDecline id) else
              if is_literal (prop o "kind") "call-hangup" then Some (CallHangup id) else None
          end
      end
  | _ => None
  end.

Definition initial : CallSession := MkSession [] [] [] 0 [] [].

Definition emit (e : call_effect) (s : CallSession) : CallSession :=
  MkSession (calls s) (call_heap s) (call_pcs s) (streams s) (call_tasks s) (call_log s ++ [e]).
Definition await (k : call_task) (s : CallSession) : CallSession :=
  MkSession (calls s) (call_heap s) (call_pcs s) (streams s) (call_tasks s ++ [k]) (call_log s).
Definition set_calls f (s : CallSession) : CallSession :=
  MkSession (f (calls s)) (call_heap s) (call_pcs s) (streams s) (call_tasks s) (call_log s).
Definition update (c : nat) (f : Call -> Call) (s : CallSession) : CallSession :=
  MkSession (calls s) (alter f c (call_heap s)) (call_pcs s) (streams s) (call_tasks s) (call_log s).

Definition has (id : string) (s : CallSession) : bool := JsMap.has id (calls s).
Definition find (id : string) (s : CallSession) : option (nat * Call) :=
  match JsMap.lookup id (calls s) with
  | Some r => match call_heap s !! r with Some c => Some (r, c) | None => None end
  | None => None
  end.
Definition enter (id : string) (c : Call) (s : CallSession) : CallSession :=
  MkSession (JsMap.set id (length (call_heap s)) (calls s)) (call_heap s ++ [c]) (call_pcs s) (streams s)
    (call_tasks s) (call_log s).

Definition isActive (s : CallSession) : bool := (0 <? length (calls s))%nat.

(** *** Ending a call *)
Definition with_ended (c : Call) : Call :=
  MkCall (k_pc c) (k_local c) (k_video c) (k_role c) (k_pendingOffer c) (k_pendingIce c) (k_remoteReady c) true.

Definition stop (stream : option nat) (s : CallSession) : CallSession :=
  match stream with Some st => emit (StopTracks st) s | None => s end.
Definition close_pc (pc : option nat) (s : CallSession) : CallSession :=
  match pc with Some p => emit (PcClose p) s | None => s end.

Definition teardown (id : string) (s : CallSession) : CallSession :=
  match find id s with
  | Some (r, c) =>
      set_calls (JsMap.remove id) (close_pc (k_pc c) (stop (k_local c) (update r with_ended s)))
  | None => s
  end.

Definition fail (id msg : string) (s : CallSession) : CallSession :=
  emit (OnState id Ended) (emit (OnCallError id msg) (teardown id s)).

(** *** Capture *)
Definition capture (id : string) (c : nat) (video : bool) (role : CallRole) (s : CallSession) : CallSession :=
  await (AwaitCapture id c video role) (emit (GetUserMedia video) s).

Definition startCall (id : string) (withVideo : bool) (s : CallSession) : CallSession :=
  if has id s then s else
  let c := length (call_heap s) in
  let s := enter id (MkCall None None withVideo Caller None [] false false) s in
  capture id c withVideo Caller (emit (OnState id Calling) s).

Definition accept (id : string) (s : CallSession) : CallSession :=
  match find id s with
  | Some (r, c) =>
      match k_pendingOffer c with Some _ => capture id r (k_video c) Callee s | None => s end
  | None => s
  end.

Definition aborted (id : string) (s : CallSession) : bool :=
  match find id s with Some (_, c) => k_ended c | None => true end.

Definition with_media (pc stream : nat) (c : Call) : Call :=
  MkCall (Some pc) (Some stream) (k_video c) (k_role c) (k_pendingOffer c) (k_pendingIce c)
    (k_remoteReady c) (k_ended c).

Definition new_pc (id : string) (s : CallSession) : CallSession :=
  MkSession (calls s) (call_heap s) (call_pcs s ++ [id]) (streams s) (call_tasks s)
    (call_log s ++ [NewPc (length (call_pcs s))]).
Definition new_stream (s : CallSession) : CallSession :=
  MkSession (calls s) (call_heap s) (call_pcs s) (S (streams s)) (call_tasks s) (call_log s).

(** The continuation of [startCall] and of [accept] once the stream is granted. *)
Definition captured (id : string) (r : nat) (video : bool) (role : CallRole) (s : CallSession) : CallSession :=
  let local := streams s in
  let s := new_stream s in
  if aborted id s then emit (StopTracks local) s else
  let pc := length (call_pcs s) in
  let s := new_pc id (emit (OnLocalStream id local) (update r (with_media pc local) s)) in
  let s := emit (AddTracks pc local) s in
  match role with
  | Caller => await (AwaitCallOffer id video pc) (emit (PcCreateOffer pc) s)
  | Callee =>
      match call_heap s !! r with
      | Some c =>
          match k_pendingOffer c with
          | Some offer => await (AwaitAcceptCallRemote id r pc) (emit (PcSetRemote pc offer) s)
          | None => s
          end
      | None => s
      end
  end.

Definition capture_failed (id : string) (video : bool) (s : CallSession) : CallSession :=
  fail id (if video then "could not access your microphone or camera"
           else "could not access your microphone") s.

(** *** ICE *)
Definition applyIce (pc : nat) (candidate : option json) (rest : list (option json)) (s : CallSession)
  : CallSession := await (AwaitCallIce pc rest) (emit (PcAddIce pc candidate) s).

Definition with_ice (l : list (option json)) (c : Call) : Call :=
  MkCall (k_pc c) (k_local c) (k_video c) (k_role c) (k_pendingOffer c) l (k_remoteReady c) (k_ended c).
Definition with_ready (c : Call) : Call :=
  MkCall (k_pc c) (k_local c) (k_video c) (k_role c) (k_pendingOffer c) (k_pendingIce c) true (k_ended c).

Definition drainPendingIce (r : nat) (s : CallSession) : CallSession :=
  match call_heap s !! r with
  | Some c =>
      let s := update r (with_ice []) s in
      match k_pc c, k_pendingIce c with
      | Some pc, i :: rest => applyIce pc i rest s
      | _, _ => s
      end
  | None => s
  end.

(** *** Signals *)
Definition handleSignal (raw : json) (s : CallSession) : CallSession :=
  match parseCallSignal raw with
  | None => s
  | Some (CallOffer id video sdp) =>
      if has id s then s else
      let s := enter id (MkCall None None video Callee (Some sdp) [] false false) s in
      emit (OnCallIncoming id video) (emit (OnState id Ringing) s)
  | Some (CallDecline id) | Some (CallHangup id) =>
      match find id s with
      | Some _ => emit (OnState id Ended) (teardown id s)
      | None => s
      end
  | Some (CallAnswer id sdp) =>
      match find id s with
      | Some (r, c) =>
          await (AwaitCallAnswer id r)
            (match k_pc c with Some pc => emit (PcSetRemote pc sdp) s | None => s end)
      | None => s
      end
  | Some (CallIce id candidate) =>
      match find id s with
      | Some (r, c) =>
          match k_remoteReady c, k_pc c with
          | true, Some pc => applyIce pc candidate [] s
          | _, _ =>
              if (length (k_pendingIce c) <? MAX_PENDING_ICE)%nat
              then update r (with_ice (k_pendingIce c ++ [candidate])) s else s
          end
      | None => s
      end
  end.

Definition decline (id : string) (s : CallSession) : CallSession :=
  if has id s then emit (OnState id Ended) (teardown id (emit (SendCallSignal (CallDecline id)) s)) else s.
Definition hangup (id : string) (s : CallSession) : CallSession :=
  if has id s then emit (OnState id Ended) (teardown id (emit (SendCallSignal (CallHangup id)) s)) else s.

Definition set_enabled (kind : TrackKind) (id : string) (on : bool) (s : CallSession) : CallSession :=
  match find id s with
  | Some (_, c) => match k_local c with Some st => emit (SetEnabled st kind on) s | None => s end
  | None => s
  end.
Definition setMicEnabled := set_enabled Audio.
Definition setCameraEnabled := set_enabled Video.

(** *** The connection's handlers ([wirePc]) *)
Definition onicecandidate (pc : nat) (candidate : option json) (s : CallSession) : CallSession :=
  match call_pcs s !! pc, candidate with
  | Some id, Some v => if is_null v then s else emit (SendCallSignal (CallIce id candidate)) s
  | _, _ => s
  end.

Definition ontrack (pc : nat) (stream : option json) (s : CallSession) : CallSession :=
  match call_pcs s !! pc with
  | Some id =>
      emit (OnState id Connected)
        (match stream with Some st => emit (OnRemoteStream id st) s | None => s end)
  | None => s
  end.

Definition onconnectionstatechange (pc : nat) (state : string) (s : CallSession) : CallSession :=
  match call_pcs s !! pc with
  | Some id =>
      if bool_decide (state = "connected") then emit (OnState id Connected) s else
      if bool_decide (state = "failed") || bool_decide (state = "disconnected") || bool_decide (state = "closed")
      then
        match find id s with
        | Some (_, c) => if k_ended c then s else emit (OnState id Ended) (teardown id s)
        | None => s
        end
      else s
  | None => s
  end.

(** *** Settled promises *)
Definition resume (k : call_task) (r : call_settlement) (s : CallSession) : CallSession :=
  match k, r with
  | AwaitCapture id c video role, CResolvedStream => captured id c video role s
  | AwaitCapture id _ video _, CRejected => capture_failed id video s
  | AwaitCallOffer id video pc, CResolvedSdp offer =>
      await (AwaitCallOfferLocal id video offer) (emit (PcSetLocal pc offer) s)
  | AwaitCallOfferLocal id video offer, CResolved => emit (SendCallSignal (CallOffer id video offer)) s
  | AwaitCallOffer id _ _, CRejected | AwaitCallOfferLocal id _ _, CRejected =>
      fail id "could not start the call" s
  | AwaitCallAnswer id c, CResolved => drainPendingIce c (update c with_ready s)
  | AwaitCallAnswer id _, CRejected => fail id "call setup failed" s
  | AwaitCallIce pc (i :: rest), (CResolved | CRejected) => applyIce pc i rest s
  | AwaitAcceptCallRemote id c pc, CResolved =>
      await (AwaitAcceptCallAnswer id c pc) (emit (PcCreateAnswer pc) (update c with_ready s))
  | AwaitAcceptCallAnswer id c pc, CResolvedSdp answer =>
      await (AwaitAcceptCallLocal id c answer) (emit (PcSetLocal pc answer) s)
  | AwaitAcceptCallLocal id c answer, CResolved =>
      drainPendingIce c (emit (SendCallSignal (CallAnswer id answer)) s)
  | AwaitAcceptCallRemote id _ _, CRejected
  | AwaitAcceptCallAnswer id _ _, CRejected
  | AwaitAcceptCallLocal id _ _, CRejected => fail id "could not accept the call" s
  | _, _ => s
  end.

Definition settles (k : call_task) (r : call_settlement) : bool :=
  match k, r with
  | AwaitCapture _ _ _ _, (CResolvedStream | CRejected)
  | (AwaitCallOffer _ _ _ | AwaitAcceptCallAnswer _ _ _), (CResolvedSdp _ | CRejected)
  | (AwaitCallOfferLocal _ _ _ | AwaitCallAnswer _ _ | AwaitCallIce _ _ | AwaitAcceptCallRemote _ _ _
     | AwaitAcceptCallLocal _ _ _), (CResolved | CRejected) => true
  | _, _ => false
  end.

Definition settle (n : nat) (r : call_settlement) (s : CallSession) : CallSession :=
  match call_tasks s !! n with
  | Some k =>
      if settles k r then
        resume k r (MkSession (calls s) (call_heap s) (call_pcs s) (streams s) (delete n (call_tasks s))
                              (call_log s))
      else s
  | None => s
  end.

(** ** Steps *)
Inductive op :=
  | OStartCall (id : string) (withVideo : bool)
  | OSignal (raw : json)
  | OAccept (id : string)
  | ODecline (id : string)
  | OHangup (id : string)
  | OMic (id : string) (on : bool)
  | OCamera (id : string) (on : bool)
  | OLocalIce (pc : nat) (candidate : option json)
  | OTrack (pc : nat) (stream : option json)
  | OConnection (pc : nat) (state : string)
  | OSettle (n : nat) (r : call_settlement).

Definition exec (o : op) (s : CallSession) : CallSession :=
  match o with
  | OStartCall id v => startCall id v s
  | OSignal raw => handleSignal raw s
  | OAccept id => accept id s
  | ODecline id => decline id s
  | OHangup id => hangup id s
  | OMic id on => setMicEnabled id on s
  | OCamera id on => setCameraEnabled id on s
  | OLocalIce pc c => onicecandidate pc c s
  | OTrack pc st => ontrack pc st s
  | OConnection pc st => onconnectionstatechange pc st s
  | OSettle n r => settle n r s
  end.

Definition run (os : list op) (s : CallSession) : CallSession := foldl (fun s o => exec o s) s os.

(** ** The microphone is accounted for *)

(** The captures waiting for the permission prompt. *)
Definition capture_of (k : call_task) : option (string * nat) :=
  match k with AwaitCapture id c _ _ => Some (id, c) | _ => None end.
Definition captures (s : CallSession) : list (string * nat) := omap capture_of (call_tasks s).

Definition local_of (s : CallSession) (r : nat) : option (option nat) := k_local <$> call_heap s !! r.

Record media_inv (s : CallSession) : Prop := {
  mi_streams st : (st < streams s)%nat ->
    StopTracks st ∈ call_log s \/
    exists id r, JsMap.lookup id (calls s) = Some r /\ local_of s r = Some (Some st);
  mi_capture id r r' : (id, r) ∈ captures s -> JsMap.lookup id (calls s) = Some r' ->
    r' = r /\ local_of s r = Some None;
  mi_nodup : NoDup (captures s).*1;
  mi_bound id r : JsMap.lookup id (calls s) = Some r -> (r < length (call_heap s))%nat;
  mi_inj id id' r : JsMap.lookup id (calls s) = Some r -> JsMap.lookup id' (calls s) = Some r -> id = id'
}.

(** The events come as the interface produces them: no new call takes the name of a call that
    ended while its permission prompt is still open, and a call is accepted once. *)
Definition orderly (o : op) (s : CallSession) : Prop :=
  match o with
  | OStartCall id _ => id ∉ (captures s).*1
  | OSignal raw =>
      match parseCallSignal raw with Some (CallOffer id _ _) => has id s = false -> id ∉ (captures s).*1 | _ => True end
  | OAccept id => forall r c, find id s = Some (r, c) -> (id ∉ (captures s).*1) /\ k_local c = None
  | _ => True
  end.

(** A step that changes no call's stream, no capture, and not which calls there are. *)
Definition same_media (s s' : CallSession) : Prop :=
  calls s' = calls s /\ streams s' = streams s /\ captures s' = captures s /\
  length (call_heap s') = length (call_heap s) /\ (forall r, local_of s' r = local_of s r) /\
  forall st, StopTracks st ∈ call_log s -> StopTracks st ∈ call_log s'.

Lemma media_same s s' : same_media s s' -> media_inv s -> media_inv s'.
Proof.
  intros (Ec & Es & Ek & El & Eh & Hl) [H1 H2 H3 H4 H5]. split; rewrite ?Ec, ?Es, ?Ek, ?El; try done.
  - intros st Hst. destruct (H1 st Hst) as [?|(id & r & Hid & Hr)]; [left; by apply Hl|right].
    exists id, r. by rewrite Eh.
  - intros id r r' Hin Hid. rewrite Eh. by apply (H2 id r r').
Qed.

Lemma same_refl s : same_media s s.
Proof. by split_and!. Qed.

Lemma same_trans s1 s2 s3 : same_media s1 s2 -> same_media s2 s3 -> same_media s1 s3.
Proof.
  intros (C1 & S1 & K1 & L1 & H1 & G1) (C2 & S2 & K2 & L2 & H2 & G2).
  split_and!; try congruence. by auto.
Qed.

Lemma same_emit e s : same_media s (emit e s).
Proof. split_and!; try done. intros st Hst. cbn. apply elem_of_app. by left. Qed.

Lemma same_await k s : capture_of k = None -> same_media s (await k s).
Proof.
  intros Hk. split_and!; try done. unfold captures. cbn [call_tasks await]. rewrite omap_app.
  cbn. rewrite Hk. apply app_nil_r.
Qed.

Lemma same_update r f s : (forall c, k_local (f c) = k_local c) -> same_media s (update r f s).
Proof.
  intros Hf. assert (length (alter f r (call_heap s)) = length (call_heap s)) by apply length_alter.
  split_and!; try done. intros r'. unfold local_of. cbn.
  rewrite list_lookup_alter. destruct (decide (r = r')) as [->|]; [|done].
  destruct (call_heap s !! r'); [cbn; by rewrite Hf|done].
Qed.

Lemma same_applyIce pc c rest s : same_media s (applyIce pc c rest s).
Proof. eapply same_trans; [apply same_emit|by apply same_await]. Qed.

Lemma same_drain r s : same_media s (drainPendingIce r s).
Proof.
  unfold drainPendingIce. destruct (call_heap s !! r) as [c|]; [|apply same_refl].
  assert (Hu : same_media s (update r (with_ice []) s)) by by apply same_update.
  destruct (k_pc c); [|done]. destruct (k_pendingIce c); [done|].
  eapply same_trans; [exact Hu|apply same_applyIce].
Qed.

Lemma find_lookup id s r c : find id s = Some (r, c) ->
  JsMap.lookup id (calls s) = Some r /\ call_heap s !! r = Some c.
Proof.
  unfold find. destruct (JsMap.lookup id (calls s)) as [r0|]; [|done].
  destruct (call_heap s !! r0) eqn:E; [|done]. by intros [= <- <-].
Qed.

Lemma find_has id s : media_inv s -> has id s = true -> exists r c, find id s = Some (r, c).
Proof.
  intros HI. unfold has, JsMap.has, find. destruct (JsMap.lookup id (calls s)) as [r|] eqn:E; [|done].
  pose proof (mi_bound s HI _ _ E) as Hb. apply lookup_lt_is_Some in Hb as [c ->]. by exists r, c.
Qed.

(** Ending a call stops its stream. *)
Lemma media_teardown id s : media_inv s -> media_inv (teardown id s).
Proof.
  intros HI. unfold teardown. destruct (find id s) as [[r c]|] eqn:Ef; [|done].
  apply find_lookup in Ef as [Eid Er].
  set (s1 := close_pc (k_pc c) (stop (k_local c) (update r with_ended s))).
  assert (Hs1 : same_media s s1).
  { eapply same_trans; [by apply (same_update r with_ended)|]. 
    eapply same_trans; [|by (unfold s1, close_pc; destruct (k_pc c); [apply same_emit|apply same_refl])].
    unfold stop. destruct (k_local c); [apply same_emit|apply same_refl]. }
  assert (Hstop : forall st, k_local c = Some st -> StopTracks st ∈ call_log s1).
  { intros st Hst. unfold s1, close_pc, stop. rewrite Hst.
    destruct (k_pc c); cbn; apply elem_of_app; [left; apply elem_of_app|]; right; left. }
  pose proof (media_same _ _ Hs1 HI) as [H1 H2 H3 H4 H5]. clearbody s1.
  destruct Hs1 as (Ec & _ & _ & _ & Eh & _). split; cbn.
  - intros st Hst. destruct (H1 st Hst) as [?|(id' & r' & Hid & Hr)]; [by left|].
    destruct (decide (id' = id)) as [->|Hne].
    + left. apply Hstop. rewrite Ec, Eid in Hid. injection Hid as <-.
      rewrite Eh in Hr. unfold local_of in Hr. rewrite Er in Hr. by injection Hr.
    + right. exists id', r'. split; [|done]. by rewrite JsMap.lookup_remove_ne.
  - intros id' r' r'' Hin. rewrite JsMap.lookup_remove. case_decide; [done|]. by apply H2.
  - done.
  - intros id' r'. rewrite JsMap.lookup_remove. case_decide; [done|]. apply H4.
  - intros id' id'' r'. rewrite !JsMap.lookup_remove. repeat case_decide; try done. apply H5.
Qed.

Lemma media_emit e s : media_inv s -> media_inv (emit e s).
Proof. apply media_same, same_emit. Qed.

Lemma media_fail id msg s : media_inv s -> media_inv (fail id msg s).
Proof. intros HI. by apply media_emit, media_emit, media_teardown. Qed.

Lemma media_enter id c s :
  media_inv s -> has id s = false -> id ∉ (captures s).*1 -> k_local c = None ->
  media_inv (enter id c s).
Proof.
  intros [H1 H2 H3 H4 H5] Hid Hcap Hl.
  assert (Hheap : forall r, (r < length (call_heap s))%nat -> local_of (enter id c s) r = local_of s r).
  { intros r Hr. unfold local_of. cbn. by rewrite lookup_app_l. }
  assert (Hlook : forall id', JsMap.lookup id' (calls (enter id c s)) =
    if decide (id' = id) then Some (length (call_heap s)) else JsMap.lookup id' (calls s)).
  { intros id'. cbn. apply JsMap.lookup_set. }
  split.
  - intros st Hst. destruct (H1 st Hst) as [?|(id' & r' & Hid' & Hr)]; [by left|right].
    exists id', r'. rewrite Hlook, decide_False.
    + split; [done|]. rewrite Hheap; [done|]. by eapply H4.
    + intros ->. unfold has, JsMap.has in Hid. by rewrite Hid' in Hid.
  - intros id' r r' Hin. rewrite Hlook. case_decide as E.
    + subst. exfalso. apply Hcap. by apply (list_elem_of_fmap_2 fst) in Hin.
    + intros Hr'. destruct (H2 id' r r' Hin Hr') as [-> Hloc]. split; [done|].
      rewrite Hheap; [done|]. by eapply H4.
  - done.
  - intros id' r. rewrite Hlook. cbn. rewrite length_app. cbn.
    case_decide; [intros [= <-]; lia|]. intros Hr%H4. lia.
  - intros id1 id2 r. rewrite !Hlook. repeat case_decide; subst; try done.
    + intros [= <-] Hr%H4. lia.
    + intros Hr%H4 [= <-]. lia.
    + apply H5.
Qed.

Lemma media_capture id r video role s :
  media_inv s -> id ∉ (captures s).*1 -> JsMap.lookup id (calls s) = Some r -> local_of s r = Some None ->
  media_inv (capture id r video role s).
Proof.
  intros HI Hcap Hid Hl. unfold capture. pose proof (media_emit (GetUserMedia video) s HI) as [H1 H2 H3 H4 H5].
  set (s1 := emit (GetUserMedia video) s) in *. change (captures s) with (captures s1) in Hcap.
  assert (Ek : captures (await (AwaitCapture id r video role) s1) = captures s1 ++ [(id, r)]).
  { unfold captures. cbn [call_tasks await]. by rewrite omap_app. }
  split; try done.
  - intros id' r' r''. rewrite Ek. intros [Hin|[= -> ->]%list_elem_of_singleton]%elem_of_app Hr.
    + by apply (H2 id').
    + split; [|done]. change (JsMap.lookup id (calls s) = Some r'') in Hr. congruence.
  - rewrite Ek, fmap_app. apply NoDup_app. split; [done|]. split; [|apply NoDup_singleton].
    by intros x Hx ->%list_elem_of_singleton.
Qed.

Definition drop_task (n : nat) (s : CallSession) : CallSession :=
  MkSession (calls s) (call_heap s) (call_pcs s) (streams s) (delete n (call_tasks s)) (call_log s).

Lemma captures_drop n k s :
  call_tasks s !! n = Some k ->
  exists a b, captures s = a ++ match capture_of k with Some x => [x] | None => [] end ++ b /\
              captures (drop_task n s) = a ++ b.
Proof.
  intros Hk. exists (omap capture_of (take n (call_tasks s))), (omap capture_of (drop (S n) (call_tasks s))).
  unfold captures, drop_task. cbn. split.
  - rewrite <-(take_drop_middle _ _ _ Hk) at 1. rewrite omap_app. cbn. by destruct (capture_of k).
  - rewrite delete_take_drop. apply omap_app.
Qed.

Lemma media_drop n k s : call_tasks s !! n = Some k -> media_inv s -> media_inv (drop_task n s).
Proof.
  intros Hk [H1 H2 H3 H4 H5]. destruct (captures_drop n k s Hk) as (a & b & E & E').
  assert (Hsub : captures (drop_task n s) `sublist_of` captures s).
  { rewrite E, E'. apply sublist_app; [done|]. by apply sublist_inserts_l. }
  split; try done.
  - intros id r r' Hin. apply H2. by eapply sublist_subseteq.
  - eapply sublist_NoDup; [exact H3|]. by apply fmap_sublist.
Qed.

(** The permission is granted: the stream goes to the call, or is stopped on the spot. *)
Lemma media_captured id r video role s :
  media_inv s -> id ∉ (captures s).*1 ->
  (forall r', JsMap.lookup id (calls s) = Some r' -> r' = r /\ local_of s r = Some None) ->
  media_inv (captured id r video role s).
Proof.
  intros HI Hcap Hr. unfold captured. cbn zeta.
  change (aborted id (new_stream s)) with (aborted id s). destruct (aborted id s) eqn:Eab.
  - (* stopped *)
    destruct HI as [H1 H2 H3 H4 H5]. split; try done. cbn. intros st Hst.
    destruct (decide (st = streams s)) as [->|Hne]; [left; apply elem_of_app; right; left|].
    destruct (H1 st ltac:(lia)) as [Hin|?]; [left; apply elem_of_app; by left|by right].
  - unfold aborted in Eab. destruct (find id s) as [[r' c]|] eqn:Ef; [|done].
    apply find_lookup in Ef as [Eid Er']. destruct (Hr r' Eid) as [-> Hl].
    assert (Hc : k_local c = None) by (unfold local_of in Hl; rewrite Er' in Hl; by injection Hl).
    set (pc := length (call_pcs (new_stream s))).
    set (s1 := update r (with_media pc (streams s)) (new_stream s)).
    assert (Hloc : forall r0, local_of s1 r0 = if decide (r0 = r) then Some (Some (streams s)) else local_of s r0).
    { intros r0. unfold local_of, s1. cbn. rewrite list_lookup_alter.
      destruct (decide (r = r0)) as [->|]; [rewrite decide_True, Er' by done; done|].
      by rewrite decide_False. }
    assert (HI1 : media_inv s1).
    { destruct HI as [H1 H2 H3 H4 H5]. split; cbn.
      - intros st Hst. destruct (decide (st = streams s)) as [->|Hne].
        + right. exists id, r. split; [done|]. by rewrite Hloc, decide_True.
        + destruct (H1 st ltac:(lia)) as [?|(id' & r' & Hid' & Hr')]; [by left|right].
          exists id', r'. split; [done|]. rewrite Hloc, decide_False; [done|].
          intros ->. rewrite Hl in Hr'. discriminate.
      - intros id' r' r'' Hin Hid'. destruct (H2 id' r' r'' Hin Hid') as [-> Hl'].
        split; [done|]. rewrite Hloc, decide_False; [done|]. intros ->.
        assert (id' = id) as -> by by eapply H5. apply Hcap. by apply (list_elem_of_fmap_2 fst) in Hin.
      - done.
      - intros id' r'. rewrite length_alter. apply H4.
      - apply H5. }
    set (s2 := emit (AddTracks pc (streams s)) (new_pc id (emit (OnLocalStream id (streams s)) s1))).
    assert (H12 : same_media s1 s2).
    { split_and!; try done. intros st Hin. cbn. repeat (apply elem_of_app; left). done. }
    assert (HI2 : media_inv s2) by by eapply media_same.
    destruct role.
    + eapply media_same; [|exact HI2]. eapply same_trans; [apply same_emit|by apply same_await].
    + destruct (call_heap s2 !! r) as [c2|]; [|exact HI2]. destruct (k_pendingOffer c2); [|exact HI2].
      eapply media_same; [|exact HI2]. eapply same_trans; [apply same_emit|by apply same_await].
Qed.

Lemma media_settle n r s : media_inv s -> media_inv (settle n r s).
Proof.
  intros HI. unfold settle. destruct (call_tasks s !! n) as [k|] eqn:Ek; [|done].
  destruct (settles k r) eqn:Es; [|done]. fold (drop_task n s).
  pose proof (media_drop n k s Ek HI) as HD. set (s1 := drop_task n s) in *.
  destruct k as [id c video role|id v pc|id v o|id c|pc rest|id c pc|id c pc|id c a]; destruct r;
    try discriminate; cbn [resume]; try by apply media_fail.
  - destruct (captures_drop n _ s Ek) as (a & b & E & E'). cbn [capture_of] in E.
    apply media_captured; [done| |].
    + change (captures s1) with (captures (drop_task n s)). rewrite E'.
      pose proof (mi_nodup s HI) as Hn. rewrite E, !fmap_app in Hn. cbn in Hn.
      rewrite fmap_app, not_elem_of_app. apply NoDup_app in Hn as (_ & Hdis & Hn).
      apply NoDup_cons in Hn as [Hb _]. split; [|done]. intros Ha. apply (Hdis _ Ha). left.
    + intros r' Hr'. apply (mi_capture s HI id c r'); [|done]. rewrite E. apply elem_of_app. right. left.
  - eapply media_same; [|exact HD]. eapply same_trans; [apply same_emit|by apply same_await].
  - by apply media_emit.
  - eapply media_same; [|exact HD]. eapply same_trans; [by apply (same_update c with_ready)|apply same_drain].
  - destruct rest; [done|]. eapply media_same; [apply same_applyIce|done].
  - destruct rest; [done|]. eapply media_same; [apply same_applyIce|done].
  - eapply media_same; [|exact HD]. eapply same_trans; [by apply (same_update c with_ready)|].
    eapply same_trans; [apply same_emit|by apply same_await].
  - eapply media_same; [|exact HD]. eapply same_trans; [apply same_emit|by apply same_await].
  - eapply media_same; [|exact HD]. eapply same_trans; [apply same_emit|apply same_drain].
Qed.

Lemma media_signal raw s : orderly (OSignal raw) s -> media_inv s -> media_inv (handleSignal raw s).
Proof.
  intros Ho HI. unfold handleSignal. cbn in Ho.
  assert (Hend : forall id, media_inv (match find id s with Some _ => emit (OnState id Ended) (teardown id s) | None => s end)).
  { intros id. destruct (find id s) as [x|]; [|done]. by apply media_emit, media_teardown. }
  destruct (parseCallSignal raw) as [[id video sdp|id sdp|id c|id|id]|]; [| | | | |done].
  - destruct (has id s) eqn:Eh; [done|]. apply media_emit, media_emit, media_enter; auto.
  - destruct (find id s) as [[r c]|]; [|done]. destruct (k_pc c).
    + eapply media_same; [|exact HI]. eapply same_trans; [apply same_emit|by apply same_await].
    + eapply media_same; [|exact HI]. by apply same_await.
  - destruct (find id s) as [[r k]|]; [|done].
    assert (HB : media_inv (if (length (k_pendingIce k) <? MAX_PENDING_ICE)%nat
                            then update r (with_ice (k_pendingIce k ++ [c])) s else s)).
    { destruct (_ <? _)%nat; [|done]. eapply media_same; [by apply same_update|done]. }
    destruct (k_remoteReady k), (k_pc k); try done. eapply media_same; [apply same_applyIce|done].
  - apply Hend.
  - apply Hend.
Qed.

Lemma media_exec o s : orderly o s -> media_inv s -> media_inv (exec o s).
Proof.
  intros Ho HI. destruct o as [id v|raw|id|id|id|id on|id on|pc c|pc st|pc st|n r]; cbn [exec].
  - unfold startCall. destruct (has id s) eqn:Eh; [done|].
    set (s1 := enter id (MkCall None None v Caller None [] false false) s).
    assert (HI1 : media_inv s1) by by apply media_enter.
    apply media_capture; [by apply media_emit|exact Ho| |].
    + change (JsMap.lookup id (calls s1) = Some (length (call_heap s))). cbn. apply JsMap.lookup_set_eq.
    + unfold local_of. cbn. by rewrite lookup_app_r, Nat.sub_diag by lia.
  - by apply media_signal.
  - unfold accept. cbn in Ho. destruct (find id s) as [[r c]|] eqn:Ef; [|done].
    destruct (k_pendingOffer c); [|done]. destruct (Ho r c eq_refl) as [Hcap Hl].
    apply find_lookup in Ef as [Eid Er]. apply media_capture; [done|done|done|].
    unfold local_of. by rewrite Er; cbn; rewrite Hl.
  - unfold decline. destruct (has id s); [|done]. by apply media_emit, media_teardown, media_emit.
  - unfold hangup. destruct (has id s); [|done]. by apply media_emit, media_teardown, media_emit.
  - unfold setMicEnabled, set_enabled. destruct (find id s) as [[r c]|]; [|done].
    destruct (k_local c); [by apply media_emit|done].
  - unfold setCameraEnabled, set_enabled. destruct (find id s) as [[r c]|]; [|done].
    destruct (k_local c); [by apply media_emit|done].
  - unfold onicecandidate. destruct (call_pcs s !! pc), c; try done. destruct (is_null j); [done|].
    by apply media_emit.
  - unfold ontrack. destruct (call_pcs s !! pc); [|done]. apply media_emit. destruct st; [by apply media_emit|done].
  - unfold onconnectionstatechange. destruct (call_pcs s !! pc) as [id|]; [|done].
    destruct (bool_decide (st = "connected")); [by apply media_emit|].
    destruct (_ || _); [|done]. destruct (find id s) as [[r c]|]; [|done].
    destruct (k_ended c); [done|]. by apply media_emit, media_teardown.
  - by apply media_settle.
Qed.

Lemma media_initial : media_inv initial.
Proof.
  split; cbn.
  - lia.
  - intros id r r' Hin. by apply not_elem_of_nil in Hin.
  - constructor.
  - done.
  - done.
Qed.

(** C33. The microphone and the camera never stay on behind the user's back: in every run where a
    new call does not take the name of one that ended while its permission prompt was open and
    each call is accepted once, every stream the browser granted either belongs to a call that
    is still listed or has been stopped; so when no call is active, all of them are off. *)
Theorem streams_are_released os :
  (forall os1 o os2, os = os1 ++ o :: os2 -> orderly o (run os1 initial)) ->
  let s := run os initial in
  (forall st, (st < streams s)%nat ->
     StopTracks st ∈ call_log s \/
     exists id r c, find id s = Some (r, c) /\ k_local c = Some st) /\
  (isActive s = false -> forall st, (st < streams s)%nat -> StopTracks st ∈ call_log s).
Proof.
  intros Ho s.
  assert (HI : media_inv s).
  { subst s. induction os as [|o os IH] using rev_ind; [apply media_initial|].
    unfold run. rewrite foldl_app. cbn [foldl]. apply media_exec; [by apply (Ho os o [])|].
    apply IH. intros os1 o' os2 ->. apply (Ho os1 o' (os2 ++ [o])). by rewrite <-app_assoc. }
  split.
  - intros st Hst. destruct (mi_streams s HI st Hst) as [?|(id & r & Hid & Hr)]; [by left|right].
    unfold local_of in Hr. destruct (call_heap s !! r) as [c|] eqn:Er; [|done]. cbn in Hr. injection Hr as Hr.
    exists id, r, c. unfold find. by rewrite Hid, Er.
  - intros Hact st Hst. destruct (mi_streams s HI st Hst) as [?|(id & r & Hid & _)]; [done|].
    unfold isActive in Hact. apply Nat.ltb_ge in Hact. destruct (calls s); [done|cbn in Hact; lia].
Qed.

(** ** What a peer alone can do *)
Definition media_requests (l : list call_effect) : nat :=
  length (List.filter (fun e => match e with GetUserMedia _ => true | _ => false end) l).
Definition user_asks (os : list op) : nat :=
  length (List.filter (fun o => match o with OStartCall _ _ | OAccept _ => true | _ => false end) os).

Definition ice_bounded (s : CallSession) : Prop :=
  Forall (fun c => (length (k_pendingIce c) <= MAX_PENDING_ICE)%nat) (call_heap s).

(** A step that asks for no media and keeps the candidate buffers bounded. *)
Definition harmless (s s' : CallSession) : Prop :=
  media_requests (call_log s') = media_requests (call_log s) /\ (ice_bounded s -> ice_bounded s').

Lemma harmless_refl s : harmless s s.
Proof. done. Qed.

Lemma harmless_trans s1 s2 s3 : harmless s1 s2 -> harmless s2 s3 -> harmless s1 s3.
Proof. intros [E1 B1] [E2 B2]. split; [congruence|auto]. Qed.

Lemma harmless_emit e s : (forall v, e <> GetUserMedia v) -> harmless s (emit e s).
Proof.
  intros He. split; [|done]. unfold media_requests. cbn. rewrite List.filter_app, length_app.
  destruct e; cbn; try lia. by destruct (He video).
Qed.

Lemma harmless_same s s' :
  call_log s' = call_log s -> call_heap s' = call_heap s -> harmless s s'.
Proof. intros E1 E2. unfold harmless, ice_bounded. by rewrite E1, E2. Qed.

Lemma harmless_update r f s :
  (forall c, call_heap s !! r = Some c -> (length (k_pendingIce c) <= MAX_PENDING_ICE)%nat ->
     (length (k_pendingIce (f c)) <= MAX_PENDING_ICE)%nat) -> harmless s (update r f s).
Proof.
  intros Hf. split; [done|]. unfold ice_bounded. cbn. intros HB. apply Forall_lookup. intros j c.
  rewrite list_lookup_alter. destruct (decide (r = j)) as [->|].
  - destruct (call_heap s !! j) as [c0|] eqn:E; [|done]. cbn. intros [= <-]. apply Hf; [done|].
    by apply (Forall_lookup_1 _ _ _ _ HB E).
  - intros E. by apply (Forall_lookup_1 _ _ _ _ HB E).
Qed.

Lemma harmless_enter id c s : k_pendingIce c = [] -> harmless s (enter id c s).
Proof.
  intros Hc. split; [done|]. unfold ice_bounded. cbn. intros HB. apply Forall_app. split; [done|].
  constructor; [|done]. rewrite Hc. unfold MAX_PENDING_ICE. cbn. lia.
Qed.

Ltac harmless_emit := apply harmless_emit; by intros.

Lemma harmless_teardown id s : harmless s (teardown id s).
Proof.
  unfold teardown. destruct (find id s) as [[r c]|]; [|done].
  eapply harmless_trans; [|by apply harmless_same].
  eapply harmless_trans; [by apply (harmless_update r with_ended)|].
  eapply (harmless_trans _ (stop (k_local c) (update r with_ended s))).
  - unfold stop. destruct (k_local c); [harmless_emit|done].
  - unfold close_pc. destruct (k_pc c); [harmless_emit|done].
Qed.

Lemma harmless_end id st s : harmless s (emit (OnState id st) (teardown id s)).
Proof. eapply harmless_trans; [apply harmless_teardown|harmless_emit]. Qed.

Lemma harmless_fail id msg s : harmless s (fail id msg s).
Proof.
  eapply harmless_trans; [apply harmless_teardown|].
  eapply harmless_trans; [|harmless_emit]. harmless_emit.
Qed.

Lemma harmless_emit_await e k s : (forall v, e <> GetUserMedia v) -> harmless s (await k (emit e s)).
Proof. intros He. eapply harmless_trans; [by apply (harmless_emit e)|by apply harmless_same]. Qed.

Lemma harmless_drain r s : harmless s (drainPendingIce r s).
Proof.
  unfold drainPendingIce. destruct (call_heap s !! r) as [c|]; [|done].
  assert (Hu : harmless s (update r (with_ice []) s)).
  { apply harmless_update. intros c' _ _. unfold MAX_PENDING_ICE. cbn. lia. }
  destruct (k_pc c); [|done]. destruct (k_pendingIce c); [done|].
  eapply harmless_trans; [exact Hu|]. by apply harmless_emit_await.
Qed.

Lemma harmless_ready r s : harmless s (update r with_ready s).
Proof. by apply harmless_update. Qed.

Lemma harmless_captured id r video role s : harmless s (captured id r video role s).
Proof.
  unfold captured. cbn zeta. destruct (aborted id (new_stream s)).
  { eapply (harmless_trans _ (new_stream s)); [by apply harmless_same|harmless_emit]. }
  set (pc := length (call_pcs (new_stream s))).
  set (s1 := update r (with_media pc (streams s)) (new_stream s)).
  set (s2 := emit (AddTracks pc (streams s)) (new_pc id (emit (OnLocalStream id (streams s)) s1))).
  assert (H2 : harmless s s2).
  { eapply (harmless_trans _ (new_stream s)); [by apply harmless_same|].
    eapply (harmless_trans _ s1); [by apply harmless_update|].
    eapply (harmless_trans _ (emit (OnLocalStream id (streams s)) s1)); [harmless_emit|].
    eapply (harmless_trans _ (emit (NewPc (length (call_pcs s1))) (emit (OnLocalStream id (streams s)) s1)));
      [harmless_emit|].
    eapply harmless_trans; [|harmless_emit]. by apply harmless_same. }
  destruct role.
  - eapply harmless_trans; [exact H2|]. by apply harmless_emit_await.
  - destruct (call_heap s2 !! r) as [c2|]; [|exact H2]. destruct (k_pendingOffer c2); [|exact H2].
    eapply harmless_trans; [exact H2|]. by apply harmless_emit_await.
Qed.

Lemma harmless_resume k r s : harmless s (resume k r s).
Proof.
  destruct k as [id c video role|id v pc|id v o|id c|pc rest|id c pc|id c pc|id c a]; destruct r;
    cbn [resume]; try done; try apply harmless_fail; try (by apply harmless_emit_await);
    try (by destruct rest; [done|first [done|by apply harmless_emit_await]]).
  - apply harmless_captured.
  - harmless_emit.
  - eapply harmless_trans; [apply harmless_ready|apply harmless_drain].
  - eapply harmless_trans; [apply harmless_ready|by apply harmless_emit_await].
  - eapply harmless_trans; [|apply harmless_drain]. harmless_emit.
Qed.

Lemma harmless_signal raw s : harmless s (handleSignal raw s).
Proof.
  unfold handleSignal.
  assert (Hend : forall id, harmless s (match find id s with Some _ => emit (OnState id Ended) (teardown id s) | None => s end)).
  { intros id. destruct (find id s); [apply harmless_end|done]. }
  destruct (parseCallSignal raw) as [[id video sdp|id sdp|id c|id|id]|]; [| | |apply Hend|apply Hend|done].
  - destruct (has id s); [done|].
    eapply harmless_trans; [by apply (harmless_enter id (MkCall None None video Callee (Some sdp) [] false false))|].
    eapply harmless_trans; [|harmless_emit]. harmless_emit.
  - destruct (find id s) as [[r c]|]; [|done].
    destruct (k_pc c); [by apply harmless_emit_await|by apply harmless_same].
  - destruct (find id s) as [[r k]|] eqn:Ef; [|done]. apply find_lookup in Ef as [_ Ef].
    assert (HB : harmless s (if (length (k_pendingIce k) <? MAX_PENDING_ICE)%nat
                             then update r (with_ice (k_pendingIce k ++ [c])) s else s)).
    { destruct (Nat.ltb_spec (length (k_pendingIce k)) MAX_PENDING_ICE); [|done].
      apply harmless_update. intros c' _ _. cbn. rewrite length_app. cbn. lia. }
    destruct (k_remoteReady k), (k_pc k); try done. by apply harmless_emit_await.
Qed.

Lemma exec_harmless o s :
  (media_requests (call_log (exec o s)) <= media_requests (call_log s) + user_asks [o])%nat /\
  (ice_bounded s -> ice_bounded (exec o s)).
Proof.
  assert (Hh : forall s', harmless s s' ->
    (media_requests (call_log s') <= media_requests (call_log s) + user_asks [o])%nat /\
    (ice_bounded s -> ice_bounded s')) by (intros s' [-> ?]; split; [lia|done]).
  assert (Hcap : forall s' id c v role, harmless s s' -> user_asks [o] = 1%nat ->
    (media_requests (call_log (capture id c v role s')) <= media_requests (call_log s) + user_asks [o])%nat /\
    (ice_bounded s -> ice_bounded (capture id c v role s'))).
  { intros s' id c v role [E HB] ->. split; [|exact HB]. unfold media_requests in *. cbn.
    rewrite List.filter_app, length_app, E. cbn. lia. }
  destruct o as [id v|raw|id|id|id|id on|id on|pc c|pc st|pc st|n r]; cbn [exec].
  - unfold startCall. destruct (has id s); [by apply Hh|]. apply Hcap; [|done].
    eapply harmless_trans; [by apply (harmless_enter id (MkCall None None v Caller None [] false false))|].
    harmless_emit.
  - apply Hh, harmless_signal.
  - unfold accept. destruct (find id s) as [[r c]|]; [|by apply Hh].
    destruct (k_pendingOffer c); [|by apply Hh]. by apply Hcap.
  - apply Hh. unfold decline. destruct (has id s); [|done].
    eapply harmless_trans; [|apply harmless_end]. harmless_emit.
  - apply Hh. unfold hangup. destruct (has id s); [|done].
    eapply harmless_trans; [|apply harmless_end]. harmless_emit.
  - apply Hh. unfold setMicEnabled, set_enabled. destruct (find id s) as [[r c]|]; [|done].
    destruct (k_local c); [harmless_emit|done].
  - apply Hh. unfold setCameraEnabled, set_enabled. destruct (find id s) as [[r c]|]; [|done].
    destruct (k_local c); [harmless_emit|done].
  - apply Hh. unfold onicecandidate. destruct (call_pcs s !! pc), c; try done. destruct (is_null j); [done|].
    harmless_emit.
  - apply Hh. unfold ontrack. destruct (call_pcs s !! pc); [|done].
    destruct st; [|harmless_emit]. eapply harmless_trans; [|harmless_emit]. harmless_emit.
  - apply Hh. unfold onconnectionstatechange. destruct (call_pcs s !! pc) as [id|]; [|done].
    destruct (bool_decide (st = "connected")); [harmless_emit|].
    destruct (_ || _); [|done]. destruct (find id s) as [[r c]|]; [|done].
    destruct (k_ended c); [done|apply harmless_end].
  - apply Hh. unfold settle. destruct (call_tasks s !! n) as [k|]; [|done]. destruct (settles k r); [|done].
    eapply harmless_trans; [|apply harmless_resume]. by apply harmless_same.
Qed.

(** A peer cannot turn the microphone on.  In every run the browser is asked for media at most
    once per call the user placed or accepted, however many offers, answers, candidates and
    hang-ups arrive, and no call ever buffers more than 64 candidates. *)
Theorem media_only_on_request os :
  let s := run os initial in
  (media_requests (call_log s) <= user_asks os)%nat /\ ice_bounded s.
Proof.
  cbn zeta. induction os as [|o os [IH1 IH2]] using rev_ind; [by split; [cbn; lia|constructor]|].
  unfold run in *. rewrite foldl_app. cbn [foldl].
  destruct (exec_harmless o (foldl (fun s o => exec o s) initial os)) as [E HB]. split; [|by apply HB].
  unfold user_asks in *. rewrite List.filter_app, length_app. lia.
Qed.

(** ** Concrete runs *)
Definition sdp : json := JObj [("type", JStr "offer")].
Definition offer_signal : json :=
  JObj [("id", JStr "x"); ("kind", JStr "call-offer"); ("video", JBool false); ("sdp", sdp)].
Definition hangup_signal : json := JObj [("id", JStr "x"); ("kind", JStr "call-hangup")].

(** The user accepts a call; while the permission prompt is open the peer hangs up and offers a
    call of the same name again; the prompt is granted; the user declines the second call. *)
Definition reoffer : list op :=
  [OSignal offer_signal; OAccept "x"; OSignal hangup_signal; OSignal offer_signal; OSettle 0 CResolvedStream;
   ODecline "x"].

(** A peer can leave the microphone on: after the peer hangs up and offers again under the same
    name during the permission prompt, the stream is attached to the call that had ended, a
    connection to the peer is opened with it, and when the user declines the call on the screen
    no call is active but the stream is never stopped and the connection never closed. *)
Theorem reoffer_leaves_microphone_on :
  let s := run reoffer initial in
  isActive s = false /\ streams s = 1%nat /\ ~ (StopTracks 0 ∈ call_log s) /\
  AddTracks 0 0 ∈ call_log s /\ PcSetRemote 0 sdp ∈ call_log s /\ ~ (PcClose 0 ∈ call_log s).
Proof.
  assert (E : call_log (run reoffer initial) =
    [OnState "x" Ringing; OnCallIncoming "x" false; GetUserMedia false; OnState "x" Ended;
     OnState "x" Ringing; OnCallIncoming "x" false; OnLocalStream "x" 0; NewPc 0; AddTracks 0 0;
     PcSetRemote 0 sdp; SendCallSignal (CallDecline "x"); OnState "x" Ended]) by (vm_compute; reflexivity).
  assert (Hnot : forall e, (forall x, x ∈ call_log (run reoffer initial) -> x <> e) ->
    ~ (e ∈ call_log (run reoffer initial))) by (intros e He Hin; by apply (He e Hin)).
  cbn zeta. split; [reflexivity|]. split; [reflexivity|].
  rewrite E in *. split; [|split; [|split]].
  - apply Hnot. intros x Hx.
    repeat (apply elem_of_cons in Hx as [->|Hx]; [discriminate|]). by apply not_elem_of_nil in Hx.
  - do 8 right. left.
  - do 9 right. left.
  - apply Hnot. intros x Hx.
    repeat (apply elem_of_cons in Hx as [->|Hx]; [discriminate|]). by apply not_elem_of_nil in Hx.
Qed.

Lemma streams_are_released_witness :
  let os := [OSignal offer_signal; OAccept "x"; OSettle 0 CResolvedStream; OSignal hangup_signal] in
  StopTracks 0 ∈ call_log (run os initial).
Proof.
  intros os. refine (proj2 (streams_are_released os _) eq_refl 0%nat _); [|vm_compute; lia].
  intros os1 o os2 E. unfold os in E.
  destruct os1 as [|o1 os1]; [injection E as <- _; vm_compute; intros _ Hin; inversion Hin|]. injection E as <- E.
  destruct os1 as [|o2 os1].
  - injection E as <- _. intros r c Ef. vm_compute in Ef. injection Ef as <- <-.
    split; [vm_compute; intros Hin; inversion Hin|reflexivity].
  - injection E as <- E. destruct os1 as [|o3 os1]; [injection E as <- _; exact I|]. injection E as <- E.
    destruct os1 as [|o4 os1]; [injection E as <- _; vm_compute; exact I|]. injection E as <- E.
    by destruct os1.
Defined.
End CallSession.
