(* ===== verification/Integrity.v ===== *)
(** * Bundle integrity and forced updates (client/src/integrity.ts, client/src/appversion.ts) *)

From S2P Require Import Prelude.

(** [crypto.subtle.digest('SHA-256', bytes)] *)
Class Sha256 := sha256 : bytes -> bytes.

(** [toLowerCase] on ASCII text. *)
Definition lower_char (c : Ascii.ascii) : Ascii.ascii :=
  let n := Z.of_nat (Ascii.nat_of_ascii c) in
  if (65 <=? n) && (n <=? 90) then Ascii.ascii_of_nat (Z.to_nat (n + 32)) else c.
Fixpoint toLowerCase (s : string) : string :=
  match s with EmptyString => EmptyString | String c s => String (lower_char c) (toLowerCase s) end.

Module Integrity.
Section integrity.
Context `{Sha256}.

Definition sha256Hex (bs : bytes) : string := bytesToHex (sha256 bs).

Fixpoint diff_loop (a b : list Ascii.ascii) (diff : Z) : Z :=
  match a, b with
  | x :: a, y :: b =>
      diff_loop a b (Z.lor diff (Z.lxor (Z.of_nat (Ascii.nat_of_ascii x)) (Z.of_nat (Ascii.nat_of_ascii y))))
  | _, _ => diff
  end.

Definition constantTimeEqualHex (a b : string) : bool :=
  if negb (String.length a =? String.length b)%nat then false else
  diff_loop (String.list_ascii_of_string a) (String.list_ascii_of_string b) 0 =? 0.

Definition verifyAsset (bs : bytes) (expectedSha256Hex : string) : bool :=
  constantTimeEqualHex (sha256Hex bs) (toLowerCase expectedSha256Hex).

Record ManifestResult := MkManifest { ok : bool; mismatched : list string }.

Definition asset_matches (fetched : list (string * bytes)) (x : string * string) : bool :=
  match JsMap.lookup x.1 fetched with Some bs => verifyAsset bs x.2 | None => false end.

Definition verifyManifest (fetched : list (string * bytes)) (pinned : list (string * string)) : ManifestResult :=
  let mismatched :=
    foldl (fun acc x => if asset_matches fetched x then acc else acc ++ [x.1]) [] pinned in
  MkManifest (bool_decide (length mismatched = 0%nat)) mismatched.
End integrity.

(** ** Comparison *)
Lemma char_code_inj x y :
  Z.of_nat (Ascii.nat_of_ascii x) = Z.of_nat (Ascii.nat_of_ascii y) -> x = y.
Proof.
  intros E. rewrite <-(Ascii.ascii_nat_embedding x), <-(Ascii.ascii_nat_embedding y). f_equal. lia.
Qed.

Lemma diff_loop_zero a b d :
  0 <= d -> length a = length b -> diff_loop a b d = 0 <-> d = 0 /\ a = b.
Proof.
  revert b d. induction a as [|x a IH]; intros [|y b] d Hd Hl; try discriminate; cbn [diff_loop].
  - tauto.
  - rewrite IH; [|by apply Z.lor_nonneg; split; [|apply Z.lxor_nonneg; lia]|by injection Hl].
    rewrite Z.lor_eq_0_iff, Z.lxor_eq_0_iff. split.
    + intros [[-> E%char_code_inj] ->]. by subst.
    + intros [-> [= -> ->]]. done.
Qed.

(** The constant-time comparison is equality: it looks at every character whatever it finds, and
    answers true exactly for equal strings. *)
Theorem constantTimeEqualHex_spec a b : constantTimeEqualHex a b = true <-> a = b.
Proof.
  unfold constantTimeEqualHex. destruct (Nat.eqb_spec (String.length a) (String.length b)) as [El|El]; cbn [negb].
  - rewrite Z.eqb_eq, diff_loop_zero by (rewrite ?length_list_ascii; lia). split.
    + intros [_ E]. by apply string_of_list_inj.
    + by intros ->.
  - split; [done|]. by intros ->.
Qed.

Lemma equal_spec a b : constantTimeEqualHex a b = bool_decide (a = b).
Proof.
  unfold constantTimeEqualHex. destruct (Nat.eqb_spec (String.length a) (String.length b)) as [El|El]; cbn [negb].
  - apply eq_true_iff_eq. rewrite Z.eqb_eq, bool_decide_eq_true.
    rewrite diff_loop_zero by (rewrite ?length_list_ascii; lia). split.
    + intros [_ E]. by apply string_of_list_inj.
    + by intros ->.
  - by rewrite bool_decide_false by (intros ->; done).
Qed.

Section manifest.
Context `{Sha256}.

Lemma mismatched_filter fetched pinned acc :
  foldl (fun acc x => if asset_matches fetched x then acc else acc ++ [x.1]) acc pinned =
  acc ++ (List.filter (fun x => negb (asset_matches fetched x)) pinned).*1.
Proof.
  revert acc. induction pinned as [|x l IH]; intros acc; cbn; [by rewrite app_nil_r|]. rewrite IH.
  destruct (asset_matches fetched x); cbn; [done|]. by rewrite <-app_assoc.
Qed.

(** One tampered file fails the bundle: the manifest verifies exactly when every pinned asset was
    fetched and its bytes hash to the pinned digest (in either case of hexadecimal); otherwise
    the mismatched paths are exactly those assets, in order; and under a hash without collision
    between the two contents, changing the bytes of a pinned asset that verified is detected. *)
Theorem manifest_detects_tampering fetched pinned :
  (ok (verifyManifest fetched pinned) = true <->
     forall path expected, (path, expected) ∈ pinned ->
       exists bs, JsMap.lookup path fetched = Some bs /\ sha256Hex bs = toLowerCase expected) /\
  mismatched (verifyManifest fetched pinned) =
    (List.filter (fun x => negb (asset_matches fetched x)) pinned).*1 /\
  (forall path expected bs bs', (path, expected) ∈ pinned -> JsMap.lookup path fetched = Some bs ->
     sha256Hex bs = toLowerCase expected -> sha256Hex bs' <> sha256Hex bs ->
     path ∈ mismatched (verifyManifest (JsMap.set path bs' fetched) pinned)).
Proof.
  assert (Hm : forall f p, mismatched (verifyManifest f p) = (List.filter (fun x => negb (asset_matches f x)) p).*1).
  { intros f p. unfold verifyManifest. cbn [mismatched]. by rewrite mismatched_filter. }
  assert (Ha : forall f x, asset_matches f x = true <->
    exists bs, JsMap.lookup x.1 f = Some bs /\ sha256Hex bs = toLowerCase x.2).
  { intros f x. unfold asset_matches, verifyAsset. destruct (JsMap.lookup x.1 f) as [bs|].
    - rewrite equal_spec, bool_decide_eq_true. naive_solver.
    - naive_solver. }
  split; [|split; [apply Hm|]].
  - unfold verifyManifest. cbn [ok]. rewrite bool_decide_eq_true, mismatched_filter. cbn [app].
    rewrite length_fmap. split.
    + intros Hl path expected Hin. apply (Ha fetched (path, expected)).
      destruct (asset_matches fetched (path, expected)) eqn:E; [done|]. exfalso.
      assert (Hf : (path, expected) ∈ List.filter (fun x => negb (asset_matches fetched x)) pinned).
      { apply list_elem_of_In, filter_In. split; [by apply list_elem_of_In|]. by rewrite E. }
      apply nil_length_inv in Hl. rewrite Hl in Hf. by apply not_elem_of_nil in Hf.
    + intros Hall. induction pinned as [|[path expected] l IH]; [done|]. cbn.
      rewrite (proj2 (Ha fetched (path, expected))) by (apply Hall; left). apply IH.
      intros p e Hin. apply Hall. by right.
  - intros path expected bs bs' Hin Hf Hok Hne. rewrite Hm. apply list_elem_of_fmap.
    exists (path, expected). split; [done|]. apply list_elem_of_In, filter_In.
    split; [by apply list_elem_of_In|]. apply negb_true_iff, not_true_iff_false. rewrite Ha. cbn.
    rewrite JsMap.lookup_set_eq. intros (b & [= <-] & E). congruence.
Qed.
End manifest.
End Integrity.

Module AppVersion.
Definition CACHE_PREFIX : list Ascii.ascii := String.list_ascii_of_string "deaddrop-pinned-".

(** [[0-9a-f]] *)
Definition is_lower_hex (c : Ascii.ascii) : bool :=
  let n := Z.of_nat (Ascii.nat_of_ascii c) in
  ((48 <=? n) && (n <=? 57)) || ((97 <=? n) && (n <=? 102)).

(** The pattern [/deaddrop-pinned-([0-9a-f]{16})/] at the head of a text, and its leftmost match. *)
Definition match_here (l : list Ascii.ascii) : option (list Ascii.ascii) :=
  if bool_decide (take 16 l = CACHE_PREFIX)
     && (bool_decide (length (take 16 (drop 16 l)) = 16%nat) && forallb is_lower_hex (take 16 (drop 16 l)))
  then Some (take 16 (drop 16 l)) else None.

Fixpoint exec (l : list Ascii.ascii) : option (list Ascii.ascii) :=
  match match_here l with
  | Some v => Some v
  | None => match l with [] => None | _ :: l => exec l end
  end.

Definition parseBuildVersion (buildTxt : option string) : option string :=
  match buildTxt with
  | Some t => String.string_of_list_ascii <$> exec (String.list_ascii_of_string t)
  | None => None
  end.

Definition versionFromCacheName (name : string) : option string :=
  String.string_of_list_ascii <$> exec (String.list_ascii_of_string name).

Fixpoint bootVersionFrom (cacheNames : list string) : option string :=
  match cacheNames with
  | [] => None
  | n :: rest => match versionFromCacheName n with Some v => Some v | None => bootVersionFrom rest end
  end.

Definition shouldForceUpdate (bootVersion latest alreadyTriedTarget : option string) : bool :=
  match bootVersion, latest with
  | Some b, Some l => if bool_decide (b = l) then false else negb (bool_decide (alreadyTriedTarget = Some l))
  | _, _ => false
  end.

Definition version_ok (v : string) : Prop :=
  String.length v = 16%nat /\ forallb is_lower_hex (String.list_ascii_of_string v) = true.

Lemma exec_sound l v : exec l = Some v -> length v = 16%nat /\ forallb is_lower_hex v = true.
Proof.
  assert (Hm : forall l v, match_here l = Some v -> length v = 16%nat /\ forallb is_lower_hex v = true).
  { intros l' v'. unfold match_here. destruct (_ && _) eqn:E; [|done]. intros [= <-].
    apply andb_true_iff in E as [_ E]. apply andb_true_iff in E as [E1 E2].
    by apply bool_decide_eq_true in E1. }
  induction l as [|c l IH]; cbn [exec].
  - destruct (match_here []) eqn:E; [|done]. intros [= <-]. by eapply Hm.
  - destruct (match_here (c :: l)) eqn:E; [|done]. intros [= <-]. by eapply Hm.
Qed.

(** No prefix of the pattern starts inside text without a [d]. *)
Lemma exec_skip pre l :
  "d"%char ∉ pre -> exec (pre ++ l) = exec l.
Proof.
  induction pre as [|c pre IH]; intros Hd; [done|]. apply not_elem_of_cons in Hd as [Hc Hd].
  cbn [app exec]. assert (E : match_here (c :: pre ++ l) = None).
  { unfold match_here. rewrite bool_decide_false; [done|]. intros E. cbn [take] in E.
    unfold CACHE_PREFIX in E. cbn in E. injection E as E _. congruence. }
  rewrite E. by apply IH.
Qed.

(** The pattern is found where it starts, and the version behind it. *)
Lemma version_reads v post :
  version_ok v ->
  String.string_of_list_ascii <$>
    exec (String.list_ascii_of_string "deaddrop-pinned-" ++ String.list_ascii_of_string v ++
          String.list_ascii_of_string post) = Some v /\
  versionFromCacheName ("deaddrop-pinned-" +:+ v) = Some v.
Proof.
  intros [Hl Hv].
  assert (Hlen : length (String.list_ascii_of_string v) = 16%nat) by by rewrite length_list_ascii.
  assert (Hhere : forall r, exec (CACHE_PREFIX ++ String.list_ascii_of_string v ++ r) =
                            Some (String.list_ascii_of_string v)).
  { intros r. assert (E : match_here (CACHE_PREFIX ++ String.list_ascii_of_string v ++ r) =
                          Some (String.list_ascii_of_string v)).
    { unfold match_here. rewrite (take_app_length' CACHE_PREFIX), (drop_app_length' CACHE_PREFIX) by done.
      rewrite take_app_length' by done. rewrite !bool_decide_true by done. by rewrite Hv. }
    unfold exec. destruct (CACHE_PREFIX ++ String.list_ascii_of_string v ++ r) eqn:El; by rewrite E. }
  change (String.list_ascii_of_string "deaddrop-pinned-") with CACHE_PREFIX. split.
  - rewrite Hhere. cbn. by rewrite String.string_of_list_ascii_of_string.
  - unfold versionFromCacheName. rewrite list_ascii_app.
    change (String.list_ascii_of_string "deaddrop-pinned-") with CACHE_PREFIX.
    rewrite <-(app_nil_r (String.list_ascii_of_string v)) at 1. rewrite Hhere. cbn.
    by rewrite String.string_of_list_ascii_of_string.
Qed.

(** The version is read back from what the deploy pipeline writes: a cache named for a version
    gives that version, and so does the build file's line for it after any text without a
    letter d before the pattern; whatever is parsed, from any text at all, is sixteen lowercase
    hexadecimal digits. *)
Theorem version_roundtrip v pre post :
  version_ok v -> "d"%char ∉ String.list_ascii_of_string pre ->
  versionFromCacheName ("deaddrop-pinned-" +:+ v) = Some v /\
  parseBuildVersion (Some (pre +:+ "deaddrop-pinned-" +:+ v +:+ post)) = Some v /\
  forall t w, parseBuildVersion t = Some w -> version_ok w.
Proof.
  intros Hok Hd. destruct (version_reads v post Hok) as [Hread Hname]. split; [done|]. split.
  - unfold parseBuildVersion. by rewrite !list_ascii_app, exec_skip.
  - intros [t|] w; [|done]. unfold parseBuildVersion.
    destruct (exec (String.list_ascii_of_string t)) as [x|] eqn:E; [|done]. cbn. intros [= <-].
    apply exec_sound in E as [E1 E2]. unfold version_ok.
    rewrite <-length_list_ascii, String.list_ascii_of_string_of_list_ascii. done.
Qed.

(** The page's entries in one session: each with the versions it sees, the latch holding the last
    target a reload was forced for. *)
Definition entry (latch : option string) (x : option string * option string) : bool * option string :=
  if shouldForceUpdate x.1 x.2 latch then (true, x.2) else (false, latch).

Fixpoint session (latch : option string) (l : list (option string * option string)) : nat :=
  match l with
  | [] => 0
  | x :: l => let (forced, latch) := entry latch x in (if forced then 1 else 0) + session latch l
  end.

(** A failed update never loops: however often the page is entered while the latch is kept and the
    origin advertises one version, at most one reload is forced; none is forced when a version is
    unknown or the page already runs the advertised one.  Boot.v has the page around it, which also
    clears the latch. *)
Theorem no_reload_loop latch latest boots :
  (session latch ((fun b => (b, latest)) <$> boots) <= 1)%nat /\
  (forall tried, shouldForceUpdate None latest tried = false /\ shouldForceUpdate latest None tried = false /\
     shouldForceUpdate latest latest tried = false).
Proof.
  split.
  2: { intros tried. unfold shouldForceUpdate. destruct latest as [l|]; [|done].
       by rewrite bool_decide_true. }
  assert (Hz : forall l, session latest ((fun b => (b, latest)) <$> l) = 0%nat).
  { induction l as [|b l IH]; [done|]. cbn [fmap list_fmap session]. unfold entry, shouldForceUpdate. cbn.
    destruct b as [b|], latest as [t|]; try exact IH. destruct (bool_decide (b = t)); [exact IH|].
    rewrite bool_decide_true by done. exact IH. }
  revert latch. induction boots as [|b l IH]; intros latch; [cbn; lia|].
  cbn [fmap list_fmap session]. unfold entry. cbn.
  destruct (shouldForceUpdate b latest latch); cbn; [rewrite Hz; lia|apply IH].
Qed.

Lemma version_roundtrip_witness :
  parseBuildVersion (Some ("cache: " +:+ "deaddrop-pinned-" +:+ "0123456789abcdef" +:+ " ok")) =
  Some "0123456789abcdef".
Proof.
  refine (proj1 (proj2 (version_roundtrip "0123456789abcdef" "cache: " " ok" _ _))).
  - split; reflexivity.
  - vm_compute. intros Hin. repeat (apply elem_of_cons in Hin as [Hin|Hin]; [discriminate|]).
    by apply not_elem_of_nil in Hin.
Defined.
End AppVersion.
