(* ===== verification/Auth.v ===== *)
(** * The account client (client/src/auth.ts)

    Pre-hashing of credentials, the registration proof of work, and every call to the account
    server.  SHA-256, the memory-hard key derivation and the transport are injected or browser
    code; what a server may answer is any status with any JSON object, or a rejection. *)

From S2P Require Import Prelude Json Integrity.
From stdpp Require Import pretty.
#[local] Open Scope Z_scope.

(** [AccountTransport]: a JSON POST to a path. *)
Class AccountTransport (W : Type) :=
  transport_send : string -> list (string * json) -> M W (Z * json).

(** The paths the transport was asked for, in order. *)
Class TransportLog (W : Type) `{AccountTransport W} := {
  requests : W -> list string;
  send_requests path body w : requests (transport_send path body w).2 = requests w ++ [path]
}.

Definition MemoryHardKdf : Type := string -> bytes -> result bytes.

Record AccountClient := MkClient { token : option string; kdf : option MemoryHardKdf }.

Record RegisterResult := MkRegister { reg_ok : bool; taken : option bool; reg_error : option string }.
Record AuthResult := MkAuth { auth_ok : bool; auth_error : option string }.
Record DeviceInfo := MkDevice {
  deviceId : string;
  deviceKey : string;
  addedAt : Z;
  lastSeenAt : Z;
  revoked : bool;
  current : bool;
  authorized : bool
}.
Record EnrollResult := MkEnroll {
  enr_ok : bool;
  enr_deviceId : option string;
  enr_revoked : option bool;
  enr_error : option string
}.
Record DeviceListResult := MkDevices {
  dl_ok : bool;
  dl_devices : option (list DeviceInfo);
  dl_accountEpoch : option Z;
  dl_revocations : option (list string);
  dl_error : option string
}.
Record PeerDevice := MkPeer { peer_deviceKey : string; keyPackage : bytes; lastResort : bool }.
Record TakeResult := MkTake { take_ok : bool; take_devices : option (list PeerDevice); take_error : option string }.

Module Auth.
Definition DOMAIN_TAG : string := "deaddrop-account-v1".
Definition US : string := String (Ascii.ascii_of_nat 31) "".
Definition CONTACT_TAG : string := "deaddrop".
Definition CONTACT_VERSION : string := "1".

(** [s.trim()], of the bytes of the text.  [toLowerCase] below is that of ASCII letters. *)
Definition trim (s : string) : string := String.string_of_list_ascii (trim_list (String.list_ascii_of_string s)).
#[global] Arguments trim _ : simpl never.
Definition normalizeUsername (username : string) : string := toLowerCase (trim username).

Definition contactFromIdentityKey (identityKey : string) : string :=
  CONTACT_TAG +:+ ":" +:+ CONTACT_VERSION +:+ ":" +:+ identityKey +:+ ":" +:+ identityKey.

(** The texts that are hashed. *)
Definition username_preimage (username : string) : string :=
  DOMAIN_TAG +:+ US +:+ "user" +:+ US +:+ normalizeUsername username.
Definition secret_preimage (username passphrase : string) : string :=
  DOMAIN_TAG +:+ US +:+ "auth" +:+ US +:+ normalizeUsername username +:+ US +:+ passphrase.
Definition salt_preimage (username : string) : string :=
  DOMAIN_TAG +:+ US +:+ "authsalt-v2" +:+ US +:+ normalizeUsername username.

Section hashing.
Context `{Sha256}.

Definition sha256Hex (input : string) : string := bytesToHex (sha256 (text_encode input)).
Definition sha256HexOf (bs : bytes) : string := bytesToHex (sha256 bs).

Definition deriveUsernameHash (username : string) : string := sha256Hex (username_preimage username).
Definition deriveAuthSecret (username passphrase : string) : string :=
  sha256Hex (secret_preimage username passphrase).
Definition authSaltV2 (username : string) : bytes := hexToBytes (sha256Hex (salt_preimage username)).

Definition deriveAuthSecretV2 (username passphrase : string) (kdf : MemoryHardKdf) : result string :=
  let? key := kdf passphrase (authSaltV2 username) in
  let tagged := text_encode (DOMAIN_TAG +:+ US +:+ "authv2" +:+ US) in
  Ok (sha256HexOf (tagged ++ key)).

Definition hex_nibble (c : Ascii.ascii) : Z := match hex_value c with Some v => v | None => 0 end.

Fixpoint leadingZeroBits (hex : list Ascii.ascii) : Z :=
  match hex with
  | [] => 0
  | ch :: rest =>
      let v := hex_nibble ch in
      if v =? 0 then 4 + leadingZeroBits rest
      else if 8 <=? v then 0 else if 4 <=? v then 1 else if 2 <=? v then 2 else 3
  end.

Definition MAX_TRIES : Z := 2 ^ 22.

Definition pow_digest (challenge : string) (n : Z) : list Ascii.ascii :=
  String.list_ascii_of_string (sha256Hex (challenge +:+ US +:+ pretty n)).

Fixpoint pow_search (challenge : string) (bits : Z) (fuel : nat) (n : Z) : string :=
  match fuel with
  | O => "0"
  | S fuel =>
      if bits <=? leadingZeroBits (pow_digest challenge n) then pretty n
      else pow_search challenge bits fuel (n + 1)
  end.

Definition solveProofOfWork (challenge : string) (bits : Z) : string :=
  if bits <=? 0 then "0" else pow_search challenge bits (Z.to_nat MAX_TRIES) 0.
End hashing.

(** ** Reading the server's answers *)
Definition str_of (o : json) (k : string) : option string :=
  match prop o k with Some (JStr s) => Some s | _ => None end.
Definition num_of (o : json) (k : string) : option Z :=
  match prop o k with Some (JNum n) => Some n | _ => None end.
Definition is_true (o : json) (k : string) : bool :=
  match prop o k with Some (JBool b) => b | _ => false end.

(** [/^[0-9a-f]+$/] and [/^[0-9a-f]{280}$/] *)
Definition lower_hex (s : string) : bool :=
  forallb AppVersion.is_lower_hex (String.list_ascii_of_string s).

Definition parsePeerDevice (d : json) : option PeerDevice :=
  if negb (is_object d) then None else
  match str_of d "deviceKey", str_of d "keyPackage" with
  | Some k, Some p =>
      if negb (lower_hex p && negb (bool_decide (p = ""))) || negb (Nat.even (String.length p)) then None
      else Some (MkPeer k (hexToBytes p) (is_true d "lastResort"))
  | _, _ => None
  end.

Definition or_zero (v : option Z) : Z := match v with Some n => n | None => 0 end.

Definition parseDevice (d : json) : option DeviceInfo :=
  if negb (is_object d) then None else
  match str_of d "deviceId", str_of d "deviceKey" with
  | Some i, Some k =>
      Some (MkDevice i k (or_zero (num_of d "addedAt")) (or_zero (num_of d "lastSeenAt"))
              (is_true d "revoked") (is_true d "current") (is_true d "authorized"))
  | _, _ => None
  end.

Definition record_ok (v : json) : option string :=
  match v with
  | JStr r => if bool_decide (String.length r = 280%nat) && lower_hex r then Some r else None
  | _ => None
  end.

Definition parseRecords (v : option json) : list string :=
  match v with Some (JArr l) => omap record_ok l | _ => [] end.

(** ** [AccountClient] *)
Section client.
Context {W : Type} `{Sha256} `{AccountTransport W}.

Definition St : Type := AccountClient * W.

Definition send (path : string) (body : list (string * json)) : M St (Z * json) :=
  zoom snd (fun w s => (s.1, w)) (transport_send path body).
Definition get_token : M St (option string) := gets (fun s => token s.1).
Definition set_token (t : option string) : M St unit :=
  modify (fun s => (MkClient t (kdf s.1), s.2)).

Definition useStrongKdf (k : MemoryHardKdf) : M St unit :=
  modify (fun s => (MkClient (token s.1) (Some k), s.2)).

Definition deriveV2 (username passphrase : string) : M St (option string) :=
  gets (fun s => match kdf s.1 with
                 | Some k => catch (deriveAuthSecretV2 username passphrase k)
                 | None => None
                 end).

Definition hasSession : M St bool := gets (fun s => match token s.1 with Some _ => true | None => false end).
Definition clearSession : M St unit := set_token None.

Definition challenge_unavailable : exn := JsError "challenge-unavailable".

Definition solveRegistrationWork : M St (option (list (string * json))) :=
  try_catch
    (let! reply := send "/api/challenge" [] in
     let (status, body) := reply in
     if status =? 404 then ret None else
     match status =? 200, str_of body "challenge", str_of body "mac" with
     | true, Some challenge, Some mac =>
         let bits := or_zero (num_of body "bits") in
         let nonce := solveProofOfWork challenge bits in
         ret (Some ([("challenge", JStr challenge); ("mac", JStr mac)] ++
                    match prop body "expiresAt" with Some e => [("expiresAt", e)] | None => [] end ++
                    [("nonce", JStr nonce)]))
     | _, _, _ => throw challenge_unavailable
     end)
    (fun e => if bool_decide (e = challenge_unavailable) then throw e else ret None).

Definition optional (k : string) (v : option json) : list (string * json) :=
  match v with Some v => [(k, v)] | None => [] end.

Definition register (username passphrase identityKey : string) : M St RegisterResult :=
  let usernameHash := deriveUsernameHash username in
  let authSecret := deriveAuthSecret username passphrase in
  let! authSecretV2 := deriveV2 username passphrase in
  let! pow := try_catch (let! p := solveRegistrationWork in ret (Some p)) (fun _ => ret None) in
  match pow with
  | None =>
      ret (MkRegister false None (Some "the account server is not ready to accept new accounts, try again"))
  | Some pow =>
      let! reply := send "/api/register"
        ([("usernameHash", JStr usernameHash); ("authSecret", JStr authSecret);
          ("identityKey", JStr identityKey)] ++
         optional "authSecretV2" (JStr <$> authSecretV2) ++ optional "pow" (JObj <$> pow)) in
      let (status, body) := reply in
      if status =? 201 then
        do! set_token (str_of body "token") in ret (MkRegister true None None)
      else if status =? 409 then ret (MkRegister false (Some true) (Some "that username is already taken"))
      else ret (MkRegister false None (Some "could not reach the account server"))
  end.

Definition login (username passphrase : string) : M St AuthResult :=
  let usernameHash := deriveUsernameHash username in
  let authSecret := deriveAuthSecret username passphrase in
  let! authSecretV2 := deriveV2 username passphrase in
  let! reply := send "/api/login"
    ([("usernameHash", JStr usernameHash); ("authSecret", JStr authSecret)] ++
     optional "authSecretV2" (JStr <$> authSecretV2)) in
  let (status, body) := reply in
  if status =? 200 then do! set_token (str_of body "token") in ret (MkAuth true None)
  else if status =? 401 then ret (MkAuth false (Some "wrong username or passphrase"))
  else ret (MkAuth false (Some "could not reach the account server")).

(** The guard every authorized call starts with. *)
Definition with_token {A} (otherwise : A) (k : string -> M St A) : M St A :=
  let! t := get_token in
  match t with Some t => k t | None => ret otherwise end.

Definition expired : string := "your session expired, log in again".

Definition enrollDeviceWithSecret (authSecret key : string) : M St EnrollResult :=
  with_token (MkEnroll false None None (Some "log in first")) (fun t =>
    let! reply := send "/api/add-device"
      [("token", JStr t); ("authSecret", JStr authSecret); ("deviceKey", JStr key)] in
    let (status, body) := reply in
    if (status =? 201) || (status =? 200) then ret (MkEnroll true (str_of body "deviceId") None None)
    else if status =? 409 then
      let revoked := is_literal (prop body "error") "device_revoked" in
      ret (MkEnroll false None (Some revoked)
             (Some (if revoked then "this device was revoked" else "this device key is already in use")))
    else if status =? 401 then do! set_token None in ret (MkEnroll false None None (Some expired))
    else ret (MkEnroll false None None (Some "could not reach the account server"))).

Definition enrollDevice (username passphrase key : string) : M St EnrollResult :=
  enrollDeviceWithSecret (deriveAuthSecret username passphrase) key.

Definition listDevices : M St DeviceListResult :=
  with_token (MkDevices false None None None (Some "log in first")) (fun t =>
    let! reply := send "/api/list-devices" [("token", JStr t)] in
    let (status, body) := reply in
    match status =? 200, prop body "devices" with
    | true, Some (JArr l) =>
        let devices := omap parseDevice l in
        let revocations := parseRecords (prop body "revocations") in
        ret (MkDevices true (Some devices)
               (match num_of body "accountEpoch" with Some e => if 0 <=? e then Some e else None | None => None end)
               (Some revocations) None)
    | _, _ =>
        if status =? 401 then do! set_token None in ret (MkDevices false None None None (Some expired))
        else ret (MkDevices false None None None (Some "could not load your devices"))
    end).

(** The calls that only look at the status: what each status says. *)
Definition simple_call (path : string) (body : list (string * json)) (good : Z)
  (others : list (Z * string)) (otherwise : string) : M St AuthResult :=
  with_token (MkAuth false (Some "log in first")) (fun t =>
    let! reply := send path (("token", JStr t) :: body) in
    let (status, _) := reply in
    if status =? good then ret (MkAuth true None)
    else match JsMap.lookup status others with
         | Some e => ret (MkAuth false (Some e))
         | None =>
             if status =? 401 then do! set_token None in ret (MkAuth false (Some expired))
             else ret (MkAuth false (Some otherwise))
         end).

Definition revokeDevice (id : string) (record : option string) : M St AuthResult :=
  simple_call "/api/revoke-device" (("deviceId", JStr id) :: optional "record" (JStr <$> record)) 200
    [(404, "that device is no longer on your account")] "could not revoke that device".

Definition revocations : M St (list string) :=
  with_token [] (fun t =>
    let! reply := send "/api/revocations" [("token", JStr t)] in
    let (status, body) := reply in
    ret (if status =? 200 then parseRecords (prop body "revocations") else [])).

Definition deleteAccount : M St AuthResult :=
  with_token (MkAuth false (Some "log in first")) (fun t =>
    let! reply := send "/api/delete-account" [("token", JStr t)] in
    let (status, _) := reply in
    if status =? 200 then do! set_token None in ret (MkAuth true None)
    else if status =? 401 then do! set_token None in ret (MkAuth false (Some expired))
    else ret (MkAuth false (Some "could not delete the account"))).

Definition key_package (kp : bytes) (last : bool) : json :=
  JObj [("keyPackage", JStr (bytesToHex kp)); ("ref", JStr (sha256HexOf kp)); ("lastResort", JBool last)].

Definition publishKeys (oneTime : list bytes) (last : bytes) : M St AuthResult :=
  simple_call "/api/publish-keys"
    [("keyPackages", JArr (((fun kp => key_package kp false) <$> oneTime) ++ [key_package last true]))] 201 []
    "could not publish keys".

Definition takeKeys (username : string) : M St TakeResult :=
  with_token (MkTake false None (Some "log in first")) (fun t =>
    let! reply := send "/api/take-keys"
      [("token", JStr t); ("usernameHash", JStr (deriveUsernameHash username))] in
    let (status, body) := reply in
    match status =? 200, prop body "devices" with
    | true, Some (JArr l) => ret (MkTake true (Some (omap parsePeerDevice l)) None)
    | _, _ =>
        if status =? 401 then do! set_token None in ret (MkTake false None (Some expired))
        else if status =? 404 then ret (MkTake false None (Some "no user by that name"))
        else ret (MkTake false None (Some "could not reach the account server"))
    end).

Definition setAway (text : string) : M St AuthResult :=
  simple_call "/api/set-away" [("awayText", JStr text)] 200 [] "could not reach the account server".
Definition clearAway : M St AuthResult := setAway "".

(** The best-effort calls. *)
Definition notify (path : string) (body : list (string * json)) : M St unit :=
  with_token tt (fun t => do! send path (("token", JStr t) :: body) in ret tt).

Definition awayBeat : M St unit := notify "/api/away-beat" [].
Definition setPresence (status : string) : M St unit :=
  notify "/api/set-presence" [("status", JStr status)].
Definition clearPresence : M St unit := notify "/api/clear-presence" [].

Definition ask {A} (otherwise : A) (path username field : string) (read : option string -> A) : M St A :=
  with_token otherwise (fun t =>
    let! reply := send path [("token", JStr t); ("usernameHash", JStr (deriveUsernameHash username))] in
    let (status, body) := reply in
    ret (read (if status =? 200 then str_of body field else None))).

Definition lookupAway (username : string) : M St (option string) :=
  ask None "/api/away" username "away" (fun v => v).
Definition getPresence (username : string) : M St string :=
  ask "offline" "/api/presence" username "status" (fun v => match v with Some s => s | None => "offline" end).
End client.

(** ** The proof of work *)

(** The number a run of hexadecimal digits writes. *)
Fixpoint hex_number (l : list Ascii.ascii) : Z :=
  match l with [] => 0 | c :: l => hex_nibble c * 2 ^ (4 * Z.of_nat (length l)) + hex_number l end.

Lemma hex_nibble_range c : 0 <= hex_nibble c < 16.
Proof.
  assert (Hall : forallb (fun n => let v := hex_nibble (Ascii.ascii_of_nat n) in (0 <=? v) && (v <? 16))
                   (seq 0 256) = true) by by vm_compute.
  rewrite forallb_forall in Hall. rewrite <-(Ascii.ascii_nat_embedding c).
  specialize (Hall (Ascii.nat_of_ascii c)). cbn beta zeta in Hall.
  rewrite andb_true_iff, Z.leb_le, Z.ltb_lt in Hall. apply Hall, in_seq.
  pose proof (Ascii.nat_ascii_bounded c). lia.
Qed.

Lemma hex_number_range l : 0 <= hex_number l < 2 ^ (4 * Z.of_nat (length l)).
Proof.
  induction l as [|c l IH]; cbn [hex_number length]; [cbn; lia|].
  pose proof (hex_nibble_range c). rewrite Nat2Z.inj_succ, Z.mul_succ_r, Z.add_comm, Z.pow_add_r by lia.
  change (2 ^ 4) with 16. nia.
Qed.

(** The bits counted are the leading zeros of the number, over its full width. *)
Lemma leadingZeroBits_number l :
  let w := 4 * Z.of_nat (length l) in
  0 <= leadingZeroBits l <= w /\ hex_number l < 2 ^ (w - leadingZeroBits l) /\
  (leadingZeroBits l < w -> 2 ^ (w - leadingZeroBits l - 1) <= hex_number l).
Proof.
  induction l as [|c l (IH1 & IH2 & IH3)]; cbn [leadingZeroBits hex_number length]; [cbn; lia|].
  cbn zeta in *. rewrite Nat2Z.inj_succ. set (w := 4 * Z.of_nat (length l)) in *.
  replace (4 * Z.succ (Z.of_nat (length l))) with (w + 4) by lia.
  pose proof (hex_nibble_range c) as Hc. pose proof (hex_number_range l) as Hl. fold w in Hl.
  assert (Hw : 0 <= w) by lia.
  destruct (Z.eqb_spec (hex_nibble c) 0) as [E|E].
  - rewrite E. split; [lia|]. split.
    + replace (w + 4 - (4 + leadingZeroBits l)) with (w - leadingZeroBits l) by lia. lia.
    + intros Hlt. replace (w + 4 - (4 + leadingZeroBits l) - 1) with (w - leadingZeroBits l - 1) by lia.
      apply IH3. lia.
  - assert (Hp : forall k, 0 <= k -> 2 ^ (w + k) = 2 ^ k * 2 ^ w) by (intros k Hk; rewrite Z.add_comm, Z.pow_add_r; lia).
    destruct (Z.leb_spec 8 (hex_nibble c)); [|destruct (Z.leb_spec 4 (hex_nibble c));
      [|destruct (Z.leb_spec 2 (hex_nibble c))]]; (split; [lia|]).
    + replace (w + 4 - 0) with (w + 4) by lia. replace (w + 4 - 1) with (w + 3) by lia.
      rewrite !Hp by lia. change (2 ^ 4) with 16. change (2 ^ 3) with 8. nia.
    + replace (w + 4 - 1) with (w + 3) by lia. replace (w + 3 - 1) with (w + 2) by lia.
      rewrite !Hp by lia. change (2 ^ 3) with 8. change (2 ^ 2) with 4. nia.
    + replace (w + 4 - 2) with (w + 2) by lia. replace (w + 2 - 1) with (w + 1) by lia.
      rewrite !Hp by lia. change (2 ^ 2) with 4. change (2 ^ 1) with 2. nia.
    + replace (w + 4 - 3) with (w + 1) by lia. replace (w + 1 - 1) with w by lia.
      rewrite !Hp by lia. change (2 ^ 1) with 2. nia.
Qed.

Lemma leadingZeroBits_iff l k :
  0 <= k <= 4 * Z.of_nat (length l) ->
  (k <= leadingZeroBits l <-> hex_number l < 2 ^ (4 * Z.of_nat (length l) - k)).
Proof.
  intros Hk. destruct (leadingZeroBits_number l) as (H1 & H2 & H3). cbn zeta in *.
  set (w := 4 * Z.of_nat (length l)) in *. split; intros Hle.
  - eapply Z.lt_le_trans; [exact H2|]. apply Z.pow_le_mono_r; lia.
  - destruct (Z.le_gt_cases k (leadingZeroBits l)); [done|]. exfalso.
    specialize (H3 ltac:(lia)).
    assert (2 ^ (w - k) <= 2 ^ (w - leadingZeroBits l - 1)) by (apply Z.pow_le_mono_r; lia). lia.
Qed.

Section pow.
Context `{Sha256}.

Definition solves (challenge : string) (bits n : Z) : Prop :=
  bits <= leadingZeroBits (pow_digest challenge n).

Lemma pow_search_spec challenge bits fuel n0 :
  (exists n, n0 <= n < n0 + Z.of_nat fuel /\ solves challenge bits n /\
     (forall m, n0 <= m < n -> ~ solves challenge bits m) /\
     pow_search challenge bits fuel n0 = pretty n) \/
  ((forall m, n0 <= m < n0 + Z.of_nat fuel -> ~ solves challenge bits m) /\
   pow_search challenge bits fuel n0 = "0").
Proof.
  revert n0. induction fuel as [|fuel IH]; intros n0; cbn [pow_search]; [right; split; [lia|done]|].
  destruct (Z.leb_spec bits (leadingZeroBits (pow_digest challenge n0))) as [Hs|Hs].
  - left. exists n0. split; [lia|]. split; [done|]. split; [lia|done].
  - destruct (IH (n0 + 1)) as [(n & Hn & Hsol & Hmin & E)|[Hno E]].
    + left. exists n. split; [lia|]. split; [done|]. split; [|done]. intros m Hm.
      destruct (decide (m = n0)) as [->|]; [unfold solves; lia|]. apply Hmin. lia.
    + right. split; [|done]. intros m Hm.
      destruct (decide (m = n0)) as [->|]; [unfold solves; lia|]. apply Hno. lia.
Qed.

(** The proof of work is solved when it can be.  For a 32-byte digest and a difficulty of at most
    256 bits, the solver stops within 2^22 tries; its answer is the smallest counter below that
    bound whose digest, read as a number, is below 2^(256 - bits), and the text 0 when there is
    none or nothing was asked. *)
Theorem proof_of_work challenge bits :
  (forall bs, length (sha256 bs) = 32%nat) -> bits <= 256 ->
  let meets n := hex_number (pow_digest challenge n) < 2 ^ (256 - bits) in
  (bits <= 0 -> solveProofOfWork challenge bits = "0") /\
  (0 < bits ->
     (exists n, 0 <= n < 2 ^ 22 /\ meets n /\ (forall m, 0 <= m < n -> ~ meets m) /\
        solveProofOfWork challenge bits = pretty n) \/
     ((forall m, 0 <= m < 2 ^ 22 -> ~ meets m) /\ solveProofOfWork challenge bits = "0")).
Proof.
  intros Hlen Hb meets. unfold solveProofOfWork. split.
  { intros Hle. by rewrite (proj2 (Z.leb_le _ _)). }
  intros Hpos. rewrite (proj2 (Z.leb_gt _ _)) by done.
  assert (Hm : forall n, solves challenge bits n <-> meets n).
  { intros n. unfold solves, meets.
    assert (Hl : length (pow_digest challenge n) = 64%nat).
    { unfold pow_digest, sha256Hex. rewrite length_list_ascii, length_bytesToHex, Hlen. done. }
    rewrite leadingZeroBits_iff; rewrite Hl; [done|lia]. }
  assert (Hf : Z.of_nat (Z.to_nat MAX_TRIES) = 2 ^ 22) by (rewrite Z2Nat.id; [done|by vm_compute]).
  destruct (pow_search_spec challenge bits (Z.to_nat MAX_TRIES) 0) as [(n & Hn & Hs & Hmin & E)|[Hno E]];
    rewrite Hf in *; rewrite E.
  - left. exists n. split; [lia|]. split; [by apply Hm|]. split; [|done].
    intros m Hm' Hmm. apply (Hmin m Hm'). by apply Hm.
  - right. split; [|done]. intros m Hm' Hmm. apply (Hno m); [lia|]. by apply Hm.
Qed.
End pow.

(** ** The hashed texts are separated *)
Definition US_char : Ascii.ascii := Ascii.ascii_of_nat 31.
Definition no_separator (s : string) : Prop := US_char ∉ String.list_ascii_of_string s.

Lemma append_inj_l a b c : a +:+ b = a +:+ c -> b = c.
Proof. induction a as [|x a IH]; cbn; [done|]. intros [= E]. by apply IH. Qed.

Lemma split_at_separator a b c d :
  no_separator a -> no_separator b -> a +:+ US +:+ c = b +:+ US +:+ d -> a = b /\ c = d.
Proof.
  unfold no_separator. revert b. induction a as [|x a IH]; intros [|y b] Ha Hb E; cbn in *.
  - by injection E.
  - injection E as <- E. exfalso. apply Hb. left.
  - injection E as -> E. exfalso. apply Ha. left.
  - injection E as -> E. destruct (IH b) as [-> ->]; [set_solver|set_solver|done|done].
Qed.

(** The pre-hashed texts cannot be confused.  For usernames without the separator character, the
    text hashed for the registry key determines the normalized username, the text hashed for the
    login secret determines the normalized username and the passphrase, and no text hashed for
    one purpose (registry key, login secret, salt, or the tagged output of the memory-hard
    derivation) is ever one hashed for another. *)
Theorem domains_are_separated u p u' p' key :
  (username_preimage u = username_preimage u' -> normalizeUsername u = normalizeUsername u') /\
  (no_separator (normalizeUsername u) -> no_separator (normalizeUsername u') ->
     secret_preimage u p = secret_preimage u' p' ->
     normalizeUsername u = normalizeUsername u' /\ p = p') /\
  username_preimage u <> secret_preimage u' p' /\ username_preimage u <> salt_preimage u' /\
  secret_preimage u p <> salt_preimage u' /\
  text_encode (DOMAIN_TAG +:+ US +:+ "authv2" +:+ US) ++ key <> text_encode (secret_preimage u p) /\
  text_encode (DOMAIN_TAG +:+ US +:+ "authv2" +:+ US) ++ key <> text_encode (username_preimage u) /\
  text_encode (DOMAIN_TAG +:+ US +:+ "authv2" +:+ US) ++ key <> text_encode (salt_preimage u).
Proof.
  split; [|split; [|split; [|split; [|split; [|split; [|split]]]]]].
  - unfold username_preimage. intros E. by do 4 apply append_inj_l in E.
  - unfold secret_preimage. intros H1 H2 E. do 4 apply append_inj_l in E. by apply split_at_separator.
  - unfold username_preimage, secret_preimage. intros E. do 2 apply append_inj_l in E. discriminate.
  - unfold username_preimage, salt_preimage. intros E. do 2 apply append_inj_l in E. discriminate.
  - unfold secret_preimage, salt_preimage. intros E. do 2 apply append_inj_l in E. discriminate.
  - intros E. cbn in E. discriminate.
  - intros E. cbn in E. discriminate.
  - intros E. cbn in E. discriminate.
Qed.

(** ** The session token *)
Section tokens.
Context {W : Type} `{Sha256} `{AccountTransport W}.

Inductive request :=
  | RqEnroll (authSecret key : string)
  | RqList
  | RqRevoke (id : string) (record : option string)
  | RqDelete
  | RqPublish (oneTime : list bytes) (last : bytes)
  | RqTake (username : string)
  | RqAway (text : string)
  | RqRevocations
  | RqBeat
  | RqLookupAway (username : string)
  | RqPresence (status : string)
  | RqClearPresence
  | RqGetPresence (username : string).

Definition void {A} (m : M (AccountClient * W) A) : M (AccountClient * W) unit := do! m in ret tt.

Definition perform (r : request) : M (AccountClient * W) unit :=
  match r with
  | RqEnroll a k => void (enrollDeviceWithSecret a k)
  | RqList => void listDevices
  | RqRevoke i r => void (revokeDevice i r)
  | RqDelete => void deleteAccount
  | RqPublish l b => void (publishKeys l b)
  | RqTake u => void (takeKeys u)
  | RqAway t => void (setAway t)
  | RqRevocations => void revocations
  | RqBeat => awayBeat
  | RqLookupAway u => void (lookupAway u)
  | RqPresence st => setPresence st
  | RqClearPresence => clearPresence
  | RqGetPresence u => void (getPresence u)
  end.

(** The calls that give up the token when the server says it is no longer good. *)
Definition watches_expiry (r : request) : bool :=
  match r with
  | RqEnroll _ _ | RqList | RqRevoke _ _ | RqDelete | RqPublish _ _ | RqTake _ | RqAway _ => true
  | _ => false
  end.

(** What one call does to the token, whatever it sends and is answered. *)
Definition answered (r : request) (t : string) (c c' : AccountClient) (reply : result (Z * json)) : Prop :=
  kdf c' = kdf c /\
  match reply with
  | Throw _ => token c' = Some t
  | Ok (status, _) =>
      token c' = (if watches_expiry r && (status =? 401) then None
                  else if (match r with RqDelete => true | _ => false end) && (status =? 200) then None
                  else Some t)
  end.

Lemma simple_answered path body good others otherwise t c (w : W) r :
  token c = Some t -> watches_expiry r = true -> r <> RqDelete -> good <> 401 ->
  JsMap.lookup 401 others = None ->
  exists reply w', transport_send path (("token", JStr t) :: body) w = (reply, w') /\
    exists c', (void (simple_call path body good others otherwise) (c, w)).2 = (c', w') /\
      answered r t c c' reply.
Proof.
  intros Ht Hw Hd Hg Ho. destruct (transport_send path (("token", JStr t) :: body) w) as [reply w'] eqn:E.
  exists reply, w'. split; [done|].
  unfold void, simple_call, with_token, get_token, bind, gets, send, zoom. cbn. rewrite Ht. cbn. rewrite E.
  destruct reply as [[status x]|e]; [|by exists c].
  assert (Hdel : (match r with RqDelete => true | _ => false end) = false) by by destruct r.
  unfold answered. rewrite Hw, Hdel. cbn [andb].
  destruct (Z.eqb_spec status good) as [->|Hne].
  - rewrite (proj2 (Z.eqb_neq _ _)) by done. by exists c.
  - destruct (JsMap.lookup status others) eqn:El.
    + destruct (Z.eqb_spec status 401) as [->|]; [congruence|]. by exists c.
    + destruct (status =? 401); by eexists.
Qed.

(** The session token is all or nothing.  Without one, no authorized call sends anything or
    changes anything.  With one, each call makes one request; the token is dropped exactly when
    a call that watches for it is answered 401, or when deleting the account succeeded, and is
    otherwise kept, whatever else the server answers and even when the transport fails. *)
Theorem token_discipline r c (w : W) :
  (token c = None -> perform r (c, w) = (Ok tt, (c, w))) /\
  (forall t, token c = Some t ->
     exists path body reply w', transport_send path body w = (reply, w') /\
       exists c', (perform r (c, w)).2 = (c', w') /\ answered r t c c' reply).
Proof.
  split.
  { intros Ht. destruct r; unfold perform, void, enrollDeviceWithSecret, listDevices, revokeDevice,
      deleteAccount, publishKeys, takeKeys, setAway, revocations, awayBeat, lookupAway, setPresence,
      clearPresence, getPresence, simple_call, notify, ask, with_token, get_token, bind, gets; cbn;
      by rewrite Ht. }
  intros t Ht. destruct r as [a k| |i rec| |l b|u|txt| | |u|st| |u].
  1,2,4,6,8-13: cbn [perform]; unfold void, enrollDeviceWithSecret, listDevices, deleteAccount, takeKeys,
      revocations, awayBeat, lookupAway, setPresence, clearPresence, getPresence, notify, ask, with_token,
      get_token, bind, gets, send, zoom; cbn; rewrite Ht; cbn;
    match goal with |- context [transport_send ?p ?b ?v] => exists p, b end;
    match goal with |- context [transport_send ?p ?b ?v] => destruct (transport_send p b v) as [[[status x]|e] w'] eqn:E end;
    (eexists _, w'; split; [reflexivity|]); unfold answered; cbn [watches_expiry andb];
    try (eexists; split; [reflexivity|]; split; [reflexivity|exact Ht]).
  - destruct (Z.eqb_spec status 201) as [->|]; [by exists c|].
    destruct (Z.eqb_spec status 200) as [->|]; [by exists c|].
    destruct (Z.eqb_spec status 409) as [->|]; [by exists c|]. cbn [orb].
    destruct (status =? 401); by eexists.
  - destruct (Z.eqb_spec status 200) as [->|].
    + destruct (prop x "devices") as [[]|]; by exists c.
    + destruct (status =? 401); by eexists.
  - destruct (Z.eqb_spec status 200) as [->|]; [by eexists|]. destruct (status =? 401); by eexists.
  - destruct (Z.eqb_spec status 200) as [->|].
    + destruct (prop x "devices") as [[]|]; by exists c.
    + destruct (Z.eqb_spec status 401) as [->|]; [by eexists|].
      destruct (status =? 404); by exists c.
  - destruct (simple_answered "/api/revoke-device" (("deviceId", JStr i) :: optional "record" (JStr <$> rec)) 200
      [(404, "that device is no longer on your account")] "could not revoke that device" t c w (RqRevoke i rec) Ht)
      as (reply & w' & E & c' & E' & Ha); try done. by eexists _, _, reply, w'; split; [exact E|exists c'].
  - destruct (simple_answered "/api/publish-keys"
      [("keyPackages", JArr (((fun kp => key_package kp false) <$> l) ++ [key_package b true]))] 201 []
      "could not publish keys" t c w (RqPublish l b) Ht)
      as (reply & w' & E & c' & E' & Ha); try done. by eexists _, _, reply, w'; split; [exact E|exists c'].
  - destruct (simple_answered "/api/set-away" [("awayText", JStr txt)] 200 [] "could not reach the account server"
      t c w (RqAway txt) Ht)
      as (reply & w' & E & c' & E' & Ha); try done. by eexists _, _, reply, w'; split; [exact E|exists c'].
Qed.
End tokens.

(** ** Untrusted answers *)
Definition record_shape (r : string) : Prop := String.length r = 280%nat /\ lower_hex r = true.

Lemma parseRecords_shape v r : r ∈ parseRecords v -> record_shape r.
Proof.
  unfold parseRecords. destruct v as [[| | | |l|]|]; try (intros Hin; by apply not_elem_of_nil in Hin).
  intros (x & Hx & E)%list_elem_of_omap. destruct x; try discriminate. cbn in E.
  destruct (bool_decide _) eqn:E1; [|discriminate]. destruct (lower_hex s) eqn:E2; [|discriminate].
  injection E as <-. split; [by apply bool_decide_eq_true in E1|done].
Qed.

Lemma parsePeer_shape d p :
  parsePeerDevice d = Some p -> exists h, str_of d "keyPackage" = Some h /\ lower_hex h = true /\
    Nat.even (String.length h) = true /\ h <> "" /\ keyPackage p = hexToBytes h /\
    (2 * length (keyPackage p))%nat = String.length h.
Proof.
  unfold parsePeerDevice. destruct (negb (is_object d)); [done|].
  destruct (str_of d "deviceKey") as [k|]; [|done]. destruct (str_of d "keyPackage") as [h|]; [|done].
  destruct (lower_hex h) eqn:E1; cbn [andb negb orb]; [|done].
  destruct (bool_decide (h = "")) eqn:E2; cbn [andb negb orb]; [done|].
  destruct (Nat.even (String.length h)) eqn:E3; cbn [negb]; [|done]. intros [= <-].
  exists h. apply bool_decide_eq_false in E2. split_and!; try done.
  cbn [keyPackage]. unfold hexToBytes. rewrite length_hex_pairs, length_list_ascii.
  apply Nat.even_spec in E3 as [m ->]. pose proof (Nat.div_mul m 2 ltac:(lia)).
  rewrite (Nat.mul_comm 2 m). lia.
Qed.

Section untrusted.
Context {W : Type} `{Sha256} `{AccountTransport W}.

(** A hostile server cannot break the client.  Whatever status and object it answers the device
    list or the key claim with, the call returns; every revocation record passed on is exactly
    280 lowercase hexadecimal digits, every key package is the decoding of a non-empty even run
    of lowercase hexadecimal digits, and the epoch, when there is one, is not negative. *)
Theorem hostile_answers_are_shaped t c u (w w' : W) status body :
  token c = Some t ->
  (transport_send "/api/list-devices" [("token", JStr t)] w = (Ok (status, body), w') ->
     exists r s', listDevices (c, w) = (Ok r, s') /\
       (forall l x, dl_revocations r = Some l -> x ∈ l -> record_shape x) /\
       (forall e, dl_accountEpoch r = Some e -> 0 <= e)) /\
  (transport_send "/api/take-keys" [("token", JStr t); ("usernameHash", JStr (deriveUsernameHash u))] w
     = (Ok (status, body), w') ->
     exists r s', takeKeys u (c, w) = (Ok r, s') /\
       forall l p, take_devices r = Some l -> p ∈ l ->
         exists h, lower_hex h = true /\ h <> "" /\ keyPackage p = hexToBytes h /\
           (2 * length (keyPackage p))%nat = String.length h).
Proof.
  intros Ht. split; intros E.
  - unfold listDevices, with_token, get_token, bind, gets, send, zoom. cbn. rewrite Ht. cbn. rewrite E.
    assert (Hbad : forall (e : string), exists r s',
      ((Ok (MkDevices false None None None (Some e)), (c, w')) : result DeviceListResult * (AccountClient * W)) = (Ok r, s') /\
      (forall l x, dl_revocations r = Some l -> x ∈ l -> record_shape x) /\
      (forall e, dl_accountEpoch r = Some e -> 0 <= e)) by (intros e; by eexists _, _).
    destruct (status =? 200).
    + destruct (prop body "devices") as [[| | | |l|]|];
        try (destruct (status =? 401); by eexists _, _).
      eexists _, _. split; [reflexivity|]. cbn. split.
      * intros l' x [= <-]. apply parseRecords_shape.
      * intros e. destruct (num_of body "accountEpoch") as [n|]; [|done].
        destruct (Z.leb_spec 0 n); [|done]. by intros [= <-].
    + destruct (prop body "devices") as [[]|]; destruct (status =? 401); by eexists _, _.
  - unfold takeKeys, with_token, get_token, bind, gets, send, zoom. cbn. rewrite Ht. cbn. rewrite E.
    destruct (status =? 200).
    + destruct (prop body "devices") as [[| | | |l|]|];
        try (destruct (status =? 401); [by eexists _, _|]; destruct (status =? 404); by eexists _, _).
      eexists _, _. split; [reflexivity|]. cbn. intros l' p [= <-] (d & _ & Ep)%list_elem_of_omap.
      destruct (parsePeer_shape d p Ep) as (h & _ & H1 & _ & H3 & H4 & H5). by exists h.
    + destruct (prop body "devices") as [[]|]; (destruct (status =? 401); [by eexists _, _|]);
        destruct (status =? 404); by eexists _, _.
Qed.

(** No proofless registration is sent to a server that asks for a proof: when the challenge
    endpoint exists but does not answer usefully, registering stops there with its own error and
    keeps the session as it was; when the endpoint does not exist or cannot be reached, exactly
    one registration follows. *)
Theorem registration_needs_an_answer `{!TransportLog W} u p k c (w w' : W) reply :
  transport_send "/api/challenge" [] w = (reply, w') ->
  (forall status body, reply = Ok (status, body) -> status <> 404 ->
     status <> 200 \/ str_of body "challenge" = None \/ str_of body "mac" = None ->
     register u p k (c, w) =
       (Ok (MkRegister false None (Some "the account server is not ready to accept new accounts, try again")),
        (c, w')) /\ requests w' = requests w ++ ["/api/challenge"]) /\
  ((exists body, reply = Ok (404, body)) \/ (exists e, reply = Throw e /\ e <> challenge_unavailable) ->
     requests (register u p k (c, w)).2.2 = requests w ++ ["/api/challenge"; "/api/register"]).
Proof.
  intros E. pose proof (send_requests "/api/challenge" [] w) as Hlog. rewrite E in Hlog. cbn in Hlog.
  split.
  - intros status body -> Hne Hbad. split; [|done].
    assert (Ew : solveRegistrationWork (c, w) = (Throw challenge_unavailable, (c, w'))).
    { unfold solveRegistrationWork, try_catch, bind, send, zoom. cbn. rewrite E.
      rewrite (proj2 (Z.eqb_neq _ _)) by done.
      destruct (Z.eqb_spec status 200) as [->|]; [|done].
      destruct (str_of body "challenge"); [|done]. destruct (str_of body "mac"); [|done].
      by destruct Hbad as [?|[?|?]]. }
    unfold register, deriveV2. rewrite (bind_run (eq_refl : gets _ (c, w) = _)).
    unfold try_catch, bind. by rewrite Ew.
  - intros Hr.
    assert (Ew : solveRegistrationWork (c, w) = (Ok None, (c, w'))).
    { unfold solveRegistrationWork, try_catch, bind, send, zoom. cbn. rewrite E.
      destruct Hr as [[body ->]|(e & -> & Hne)]; [done|]. by rewrite bool_decide_false. }
    unfold register, deriveV2. rewrite (bind_run (eq_refl : gets _ (c, w) = _)).
    unfold try_catch at 1. unfold bind at 1 2. rewrite Ew. cbn [ret].
    unfold bind, send, zoom. cbn [snd fst].
    match goal with |- context [transport_send ?p0 ?b w'] =>
      pose proof (send_requests p0 b w') as Hlog2; destruct (transport_send p0 b w') as [[[status x]|e] w2] end;
      cbn in Hlog2 |- *; rewrite Hlog, <-app_assoc in Hlog2.
    + destruct (status =? 201); [done|]. by destruct (status =? 409).
    + done.
Qed.
End untrusted.

(** ** Concrete inputs *)
Module Toy.
#[export] Instance digest : Sha256 := fun bs => replicate 31 0 ++ [Z.of_nat (length bs)].

(** A server that answers every request with the same status and object, and a log of the paths. *)
Record Server := MkServer { status : Z; body : json; seen : list string }.
#[export] Instance transport : AccountTransport Server :=
  fun path _ w => (Ok (status w, body w), MkServer (status w) (body w) (seen w ++ [path])).
#[export] Instance log : TransportLog Server.
Proof. by refine {| requests := seen |}. Defined.
End Toy.
Import Toy.

Lemma proof_of_work_witness : solveProofOfWork "c" 0 = "0".
Proof.
  refine (proj1 (proof_of_work "c" 0 _ _) _); [|lia|lia].
  intros bs. unfold sha256, digest. rewrite length_app, length_replicate. reflexivity.
Defined.

Lemma hostile_answers_are_shaped_witness :
  let w := MkServer 200 (JObj [("devices", JArr [JNull]); ("revocations", JArr [JStr "zz"]); ("accountEpoch", JNum (-4))]) [] in
  exists r s', listDevices (MkClient (Some "t") None, w) = (Ok r, s') /\
    forall e, dl_accountEpoch r = Some e -> 0 <= e.
Proof.
  intros w.
  destruct (proj1 (hostile_answers_are_shaped "t" (MkClient (Some "t") None) "bob" w
    (MkServer (status w) (body w) ["/api/list-devices"]) (status w) (body w) eq_refl) eq_refl)
    as (r & s' & E & _ & He).
  exists r, s'. split; [exact E|exact He].
Defined.

Lemma registration_needs_an_answer_witness :
  let w := MkServer 500 (JObj []) [] in
  (register "bob" "pw" "00" (MkClient None None, w)).1 =
  Ok (MkRegister false None (Some "the account server is not ready to accept new accounts, try again")).
Proof.
  intros w.
  destruct (registration_needs_an_answer "bob" "pw" "00" (MkClient None None) w
    (MkServer 500 (JObj []) ["/api/challenge"]) (Ok (500, JObj [])) eq_refl) as [Hreg _].
  assert (H1 : 500 <> 404) by discriminate. assert (H2 : 500 <> 200) by discriminate.
  destruct (Hreg 500 (JObj []) eq_refl H1 (or_introl H2)) as [E _].
  by rewrite E.
Defined.
End Auth.
