(* ===== verification/Channel.v ===== *)
(** * The group channel: state and effects (client/src/groupchannel.ts)

    The fields of [GroupChannel], what it asks of its host (a log of effects), and what it waits
    for.  The class runs between awaits: an await leaves a task that holds the continuation as
    data, a scheduled callback a timer.  A transport is the number of the connection that made
    it.  Inbound messages and revokes are applied through per-conversation promise chains, which
    are objects on a heap because a conversation may be left while its chain still runs. *)

From S2P Require Import Prelude Session Vault Group.

Record DeviceTarget := MkTarget {
  deviceKey : string;
  keyPackage : bytes
}.

Record PendingWelcome := MkPendingWelcome {
  pw_conversationId : string;
  pw_deviceKey : string;
  pw_welcomeHex : string;
  pw_createdAt : Z;
  pw_attempts : option Z
}.

Record SessionEntry (H : Type) := MkEntry {
  e_session : GroupSession H;
  e_groupMailbox : string
}.
Arguments MkEntry {_} _ _.
Arguments e_session {_} _.
Arguments e_groupMailbox {_} _.

(** An entry of [pendingOps]: the staged commit that waits for its echo. *)
Record PendingOp := MkPendingOp {
  op_kind : PendingKind;
  op_target : option DeviceTarget;
  op_handle : nat
}.

(** [ChannelSummary] and [TransmitModel] of app.ts, as far as the channel fills them. *)
Record ChannelSummary := MkSummary {
  cs_id : string;
  cs_peer : string;
  cs_fingerprint : string;
  cs_status : string;
  cs_preview : string;
  cs_unread : Z
}.

Record TransmitModel := MkTransmit {
  tm_secure : bool;
  tm_peer : string;
  tm_fingerprint : string;
  tm_log : list string;
  tm_compose : string;
  tm_conversationId : string
}.

(** [deps.pushEvent(kind, payload)] *)
Inductive event :=
  | EvConnection (state : string)
  | EvError (code : Z) (detail : string)
  | EvRosterChanged (conversationId : string) (added removed : list string)
  | EvMembershipStalled (conversationId : string) (kind : PendingKind)
  | EvSiblingAddRejected (key detail : string)
  | EvEstablished (conversationId : string)
  | EvInboundMessage (conversationId : string)
  | EvOutboundAppended (conversationId : string)
  | EvProvisioningError (detail : string).

(** The promise an operation returned to its caller. *)
Inductive promise :=
  | PConnect
  | PStart (model : TransmitModel)
  | PSend (messageId : string)
  | PRevoke (messageId : string)
  | POpenSelf (conversationId : string)
  | PCreateSelf
  | PDevice (conversationId : string)
  | PAbandon (conversationId : string)
  | PClose (conversationId : string)
  | PRecover
  | PRevokeKey (record : string)
  | PIngest (added : Z)
  | PSyncEpoch (ready stale : bool)
  | PKeyPackages (packages : list bytes)
  | PExclude.

(** What the channel asks of its transport ([Publish], [Subscribe], [Ack], with the number of the
    connection), of the main thread ([Push]) and of the callbacks it was built with. *)
Inductive effect :=
  | Publish (t : nat) (env : EnvelopeMsg)
  | Subscribe (t : nat) (key : string)
  | Ack (t : nat) (messageId : bytes)
  | Push (e : event)
  | CallReseal
  | CallPersistMessage (meta : Meta) (plaintext : bytes)
  | CallRevoke (conversationId target : string) (fromOwnAccount : bool)
  | CallPersistChannel (summary : ChannelSummary)
  | CallDeleteChannel (conversationId : string)
  | CallPersistPeer (conversationId key : string) (controlType : Z) (payload : bytes)
  | CallSibling (controlType : Z) (payload : bytes)
  | CallFileSignal (conversationId : string) (payload : bytes)
  | CallCallSignal (conversationId : string) (payload : bytes)
  | CallBuddies (payload : bytes)
  | CallGroups (payload : bytes)
  | CallLoadIdentity
  | CallLoadBuddies
  | CallLoadGroups
  | CallBlockedRoster (peers : list string)
  | CallAwayReply (conversationId peer : string)
  | CallSaveOutbox (entries : list PendingWelcome)
  | Resolved (p : promise)
  | RejectedWith (p : promise) (e : exn).

(** A link of a promise chain: the effect it applies, and what its envelope needs afterwards. *)
Inductive apply :=
  | ApplyMessage (t : nat) (messageId : bytes) (meta : Meta) (plaintext : bytes)
  | ApplyRevoke (t : nat) (messageId : bytes) (conversationId target : string)
      (fromOwnAccount : bool).

(** The links that have not settled, in order; [c_running] when the first has been started. *)
Record Chain := MkChain {
  c_links : list apply;
  c_running : bool
}.

(** Scheduled callbacks; [timers] holds them with their delay under their handle. *)
Inductive timer (H : Type) :=
  | TmRatchetFlush
  | TmBackstop (conversationId : string) (gen : nat) (session : GroupSession H) (kind : PendingKind)
  | TmAddFailover (conversationId : string) (own : list string) (candidates : list DeviceTarget)
  | TmRemovalFailover (conversationId : string) (own revoked : list string)
  | TmAwayReply (conversationId text : string)
  | TmReceipt (messageId : string).
Arguments TmRatchetFlush {_}.
Arguments TmBackstop {_} _ _ _ _.
Arguments TmAddFailover {_} _ _ _.
Arguments TmRemovalFailover {_} _ _ _.
Arguments TmAwayReply {_} _ _.
Arguments TmReceipt {_} _.

(** The loop of [createSelfGroup] over the founding members. *)
Record Founding (H : Type) := MkFounding {
  f_conversationId : string;
  f_session : GroupSession H;
  f_transport : nat;
  f_welcome : bytes;
  f_rest : list DeviceTarget
}.
Arguments MkFounding {_} _ _ _ _ _.
Arguments f_conversationId {_} _.
Arguments f_session {_} _.
Arguments f_transport {_} _.
Arguments f_welcome {_} _.
Arguments f_rest {_} _.

(** What follows [await this.resealSelf()]. *)
Inductive after_reseal (H : Type) :=
  | RNothing
  | RResolve (p : promise)
  | RAck (t : nat) (messageId : bytes)
  | RSelfOpened (conversationId : string)
  | RRecertified (c : H) (t : nat) (targets : list DeviceTarget)
  | RFounded (session : GroupSession H)
  | RStarted (conversationId : string) (session : GroupSession H)
  | RStagedAdd (conversationId : string) (session : GroupSession H) (mailbox : string) (gen t : nat)
      (target : DeviceTarget) (commit welcome : bytes)
  | RStagedRemove (conversationId : string) (session : GroupSession H) (mailbox : string)
      (gen t : nat) (commit : bytes)
  | RKeyPackages (out : list bytes).
Arguments RNothing {_}.
Arguments RResolve {_} _.
Arguments RAck {_} _ _.
Arguments RSelfOpened {_} _.
Arguments RRecertified {_} _ _ _.
Arguments RFounded {_} _.
Arguments RStarted {_} _ _.
Arguments RStagedAdd {_} _ _ _ _ _ _ _ _.
Arguments RStagedRemove {_} _ _ _ _ _ _.
Arguments RKeyPackages {_} _.

(** A pending await with its continuation. *)
Inductive task (H : Type) :=
  | AwaitIdentity (session : GroupSession H)
  | AwaitBuddies (session : GroupSession H)
  | AwaitGroups (session : GroupSession H)
  | AwaitReseal (fixed : option bool) (k : after_reseal H)
  | AwaitStartPersisted (conversationId : string) (session : GroupSession H)
  | AwaitSent (messageId : string)
  | AwaitAwayText (conversationId : string)
  | AwaitReplyStored (conversationId : string)
  | AwaitBlocked (t : nat) (messageId : bytes) (conversationId : string) (session : GroupSession H)
  | AwaitRemember (first : bool) (loop : Founding H)
  | AwaitRemembered (loop : Founding H)
  | AwaitReplay (first : bool)
  | AwaitExclude (sigKeyHex : string) (rest : list string)
  | AwaitLoadSelf (url : string)
  | AwaitSeed (url : string) (restored : option H)
  | AwaitSaveSelf (url : string) (c : H)
  | AwaitClosed (url : string) (c : H) (gen : nat) (pending : list EnvelopeMsg).
Arguments AwaitIdentity {_} _.
Arguments AwaitBuddies {_} _.
Arguments AwaitGroups {_} _.
Arguments AwaitReseal {_} _ _.
Arguments AwaitStartPersisted {_} _ _.
Arguments AwaitSent {_} _.
Arguments AwaitAwayText {_} _.
Arguments AwaitReplyStored {_} _.
Arguments AwaitBlocked {_} _ _ _ _.
Arguments AwaitRemember {_} _ _.
Arguments AwaitRemembered {_} _.
Arguments AwaitReplay {_} _.
Arguments AwaitExclude {_} _ _.
Arguments AwaitLoadSelf {_} _.
Arguments AwaitSeed {_} _ _.
Arguments AwaitSaveSelf {_} _ _.
Arguments AwaitClosed {_} _ _ _ _.

(** How a promise settles. *)
Inductive settlement (H : Type) :=
  | SVoid
  | SBool (b : bool)
  | SFrames (frames : list (Z * bytes))
  | SFrame (frame : option bytes)
  | SText (text : option string)
  | SOutbox (entries : list PendingWelcome)
  | SConv (c : option H)
  | SSeed (seedHex : string)
  | SClosed (ids : list string)
  | SRejected (e : exn).
Arguments SVoid {_}.
Arguments SBool {_} _.
Arguments SFrames {_} _.
Arguments SFrame {_} _.
Arguments SText {_} _.
Arguments SOutbox {_} _.
Arguments SConv {_} _.
Arguments SSeed {_} _.
Arguments SClosed {_} _.
Arguments SRejected {_} _.

(** [GroupChannel], then the run-time: promise chains, timers with the next handle, tasks, the
    log and the world behind the wasm and the transports. *)
Record Channel (H W : Type) := MkChannel {
  transport : option nat;
  connectGen : nat;
  lastAccountEpoch : Z;
  chconv : option H;
  bootstrapKey : string;
  sessions : list (string * SessionEntry H);
  welcomeOutbox : list PendingWelcome;
  welcomeOutboxLoaded : bool;
  welcomesSeen : Z;
  welcomesJoined : Z;
  lastWelcomeError : string;
  ratchetFlushPending : list string;
  ratchetFlushTimer : option nat;
  pendingOps : list (string * PendingOp);
  failoverScheduled : list string;
  knownOwnKeys : list string;
  applyChains : list (string * nat);
  pendingReceipts : list (string * nat);
  chains : list Chain;
  timers : list (nat * (Z * timer H));
  handles : nat;
  tasks : list (task H);
  log : list effect;
  world : W
}.
Arguments MkChannel {_ _} _ _ _ _ _ _ _ _ _ _ _ _ _ _ _ _ _ _ _ _ _ _ _ _.
Arguments transport {_ _} _.
Arguments connectGen {_ _} _.
Arguments lastAccountEpoch {_ _} _.
Arguments chconv {_ _} _.
Arguments bootstrapKey {_ _} _.
Arguments sessions {_ _} _.
Arguments welcomeOutbox {_ _} _.
Arguments welcomeOutboxLoaded {_ _} _.
Arguments welcomesSeen {_ _} _.
Arguments welcomesJoined {_ _} _.
Arguments lastWelcomeError {_ _} _.
Arguments ratchetFlushPending {_ _} _.
Arguments ratchetFlushTimer {_ _} _.
Arguments pendingOps {_ _} _.
Arguments failoverScheduled {_ _} _.
Arguments knownOwnKeys {_ _} _.
Arguments applyChains {_ _} _.
Arguments pendingReceipts {_ _} _.
Arguments chains {_ _} _.
Arguments timers {_ _} _.
Arguments handles {_ _} _.
Arguments tasks {_ _} _.
Arguments log {_ _} _.
Arguments world {_ _} _.

Section setters.
Context {H W : Type}.
Implicit Type c : Channel H W.

Definition set_transport (x : option nat) c : Channel H W :=
  MkChannel x (connectGen c) (lastAccountEpoch c) (chconv c) (bootstrapKey c) (sessions c)
    (welcomeOutbox c) (welcomeOutboxLoaded c) (welcomesSeen c) (welcomesJoined c)
    (lastWelcomeError c) (ratchetFlushPending c) (ratchetFlushTimer c) (pendingOps c)
    (failoverScheduled c) (knownOwnKeys c) (applyChains c) (pendingReceipts c) (chains c) (timers
    c) (handles c) (tasks c) (log c) (world c).
Definition set_connectGen (x : nat) c : Channel H W :=
  MkChannel (transport c) x (lastAccountEpoch c) (chconv c) (bootstrapKey c) (sessions c)
    (welcomeOutbox c) (welcomeOutboxLoaded c) (welcomesSeen c) (welcomesJoined c)
    (lastWelcomeError c) (ratchetFlushPending c) (ratchetFlushTimer c) (pendingOps c)
    (failoverScheduled c) (knownOwnKeys c) (applyChains c) (pendingReceipts c) (chains c) (timers
    c) (handles c) (tasks c) (log c) (world c).
Definition set_lastAccountEpoch (x : Z) c : Channel H W :=
  MkChannel (transport c) (connectGen c) x (chconv c) (bootstrapKey c) (sessions c) (welcomeOutbox
    c) (welcomeOutboxLoaded c) (welcomesSeen c) (welcomesJoined c) (lastWelcomeError c)
    (ratchetFlushPending c) (ratchetFlushTimer c) (pendingOps c) (failoverScheduled c)
    (knownOwnKeys c) (applyChains c) (pendingReceipts c) (chains c) (timers c) (handles c) (tasks
    c) (log c) (world c).
Definition set_chconv (x : option H) c : Channel H W :=
  MkChannel (transport c) (connectGen c) (lastAccountEpoch c) x (bootstrapKey c) (sessions c)
    (welcomeOutbox c) (welcomeOutboxLoaded c) (welcomesSeen c) (welcomesJoined c)
    (lastWelcomeError c) (ratchetFlushPending c) (ratchetFlushTimer c) (pendingOps c)
    (failoverScheduled c) (knownOwnKeys c) (applyChains c) (pendingReceipts c) (chains c) (timers
    c) (handles c) (tasks c) (log c) (world c).
Definition set_bootstrapKey (x : string) c : Channel H W :=
  MkChannel (transport c) (connectGen c) (lastAccountEpoch c) (chconv c) x (sessions c)
    (welcomeOutbox c) (welcomeOutboxLoaded c) (welcomesSeen c) (welcomesJoined c)
    (lastWelcomeError c) (ratchetFlushPending c) (ratchetFlushTimer c) (pendingOps c)
    (failoverScheduled c) (knownOwnKeys c) (applyChains c) (pendingReceipts c) (chains c) (timers
    c) (handles c) (tasks c) (log c) (world c).
Definition set_sessions (x : list (string * SessionEntry H)) c : Channel H W :=
  MkChannel (transport c) (connectGen c) (lastAccountEpoch c) (chconv c) (bootstrapKey c) x
    (welcomeOutbox c) (welcomeOutboxLoaded c) (welcomesSeen c) (welcomesJoined c)
    (lastWelcomeError c) (ratchetFlushPending c) (ratchetFlushTimer c) (pendingOps c)
    (failoverScheduled c) (knownOwnKeys c) (applyChains c) (pendingReceipts c) (chains c) (timers
    c) (handles c) (tasks c) (log c) (world c).
Definition set_welcomeOutbox (x : list PendingWelcome) c : Channel H W :=
  MkChannel (transport c) (connectGen c) (lastAccountEpoch c) (chconv c) (bootstrapKey c)
    (sessions c) x (welcomeOutboxLoaded c) (welcomesSeen c) (welcomesJoined c) (lastWelcomeError
    c) (ratchetFlushPending c) (ratchetFlushTimer c) (pendingOps c) (failoverScheduled c)
    (knownOwnKeys c) (applyChains c) (pendingReceipts c) (chains c) (timers c) (handles c) (tasks
    c) (log c) (world c).
Definition set_welcomeOutboxLoaded (x : bool) c : Channel H W :=
  MkChannel (transport c) (connectGen c) (lastAccountEpoch c) (chconv c) (bootstrapKey c)
    (sessions c) (welcomeOutbox c) x (welcomesSeen c) (welcomesJoined c) (lastWelcomeError c)
    (ratchetFlushPending c) (ratchetFlushTimer c) (pendingOps c) (failoverScheduled c)
    (knownOwnKeys c) (applyChains c) (pendingReceipts c) (chains c) (timers c) (handles c) (tasks
    c) (log c) (world c).
Definition set_welcomesSeen (x : Z) c : Channel H W :=
  MkChannel (transport c) (connectGen c) (lastAccountEpoch c) (chconv c) (bootstrapKey c)
    (sessions c) (welcomeOutbox c) (welcomeOutboxLoaded c) x (welcomesJoined c) (lastWelcomeError
    c) (ratchetFlushPending c) (ratchetFlushTimer c) (pendingOps c) (failoverScheduled c)
    (knownOwnKeys c) (applyChains c) (pendingReceipts c) (chains c) (timers c) (handles c) (tasks
    c) (log c) (world c).
Definition set_welcomesJoined (x : Z) c : Channel H W :=
  MkChannel (transport c) (connectGen c) (lastAccountEpoch c) (chconv c) (bootstrapKey c)
    (sessions c) (welcomeOutbox c) (welcomeOutboxLoaded c) (welcomesSeen c) x (lastWelcomeError c)
    (ratchetFlushPending c) (ratchetFlushTimer c) (pendingOps c) (failoverScheduled c)
    (knownOwnKeys c) (applyChains c) (pendingReceipts c) (chains c) (timers c) (handles c) (tasks
    c) (log c) (world c).
Definition set_lastWelcomeError (x : string) c : Channel H W :=
  MkChannel (transport c) (connectGen c) (lastAccountEpoch c) (chconv c) (bootstrapKey c)
    (sessions c) (welcomeOutbox c) (welcomeOutboxLoaded c) (welcomesSeen c) (welcomesJoined c) x
    (ratchetFlushPending c) (ratchetFlushTimer c) (pendingOps c) (failoverScheduled c)
    (knownOwnKeys c) (applyChains c) (pendingReceipts c) (chains c) (timers c) (handles c) (tasks
    c) (log c) (world c).
Definition set_ratchetFlushPending (x : list string) c : Channel H W :=
  MkChannel (transport c) (connectGen c) (lastAccountEpoch c) (chconv c) (bootstrapKey c)
    (sessions c) (welcomeOutbox c) (welcomeOutboxLoaded c) (welcomesSeen c) (welcomesJoined c)
    (lastWelcomeError c) x (ratchetFlushTimer c) (pendingOps c) (failoverScheduled c)
    (knownOwnKeys c) (applyChains c) (pendingReceipts c) (chains c) (timers c) (handles c) (tasks
    c) (log c) (world c).
Definition set_ratchetFlushTimer (x : option nat) c : Channel H W :=
  MkChannel (transport c) (connectGen c) (lastAccountEpoch c) (chconv c) (bootstrapKey c)
    (sessions c) (welcomeOutbox c) (welcomeOutboxLoaded c) (welcomesSeen c) (welcomesJoined c)
    (lastWelcomeError c) (ratchetFlushPending c) x (pendingOps c) (failoverScheduled c)
    (knownOwnKeys c) (applyChains c) (pendingReceipts c) (chains c) (timers c) (handles c) (tasks
    c) (log c) (world c).
Definition set_pendingOps (x : list (string * PendingOp)) c : Channel H W :=
  MkChannel (transport c) (connectGen c) (lastAccountEpoch c) (chconv c) (bootstrapKey c)
    (sessions c) (welcomeOutbox c) (welcomeOutboxLoaded c) (welcomesSeen c) (welcomesJoined c)
    (lastWelcomeError c) (ratchetFlushPending c) (ratchetFlushTimer c) x (failoverScheduled c)
    (knownOwnKeys c) (applyChains c) (pendingReceipts c) (chains c) (timers c) (handles c) (tasks
    c) (log c) (world c).
Definition set_failoverScheduled (x : list string) c : Channel H W :=
  MkChannel (transport c) (connectGen c) (lastAccountEpoch c) (chconv c) (bootstrapKey c)
    (sessions c) (welcomeOutbox c) (welcomeOutboxLoaded c) (welcomesSeen c) (welcomesJoined c)
    (lastWelcomeError c) (ratchetFlushPending c) (ratchetFlushTimer c) (pendingOps c) x
    (knownOwnKeys c) (applyChains c) (pendingReceipts c) (chains c) (timers c) (handles c) (tasks
    c) (log c) (world c).
Definition set_knownOwnKeys (x : list string) c : Channel H W :=
  MkChannel (transport c) (connectGen c) (lastAccountEpoch c) (chconv c) (bootstrapKey c)
    (sessions c) (welcomeOutbox c) (welcomeOutboxLoaded c) (welcomesSeen c) (welcomesJoined c)
    (lastWelcomeError c) (ratchetFlushPending c) (ratchetFlushTimer c) (pendingOps c)
    (failoverScheduled c) x (applyChains c) (pendingReceipts c) (chains c) (timers c) (handles c)
    (tasks c) (log c) (world c).
Definition set_applyChains (x : list (string * nat)) c : Channel H W :=
  MkChannel (transport c) (connectGen c) (lastAccountEpoch c) (chconv c) (bootstrapKey c)
    (sessions c) (welcomeOutbox c) (welcomeOutboxLoaded c) (welcomesSeen c) (welcomesJoined c)
    (lastWelcomeError c) (ratchetFlushPending c) (ratchetFlushTimer c) (pendingOps c)
    (failoverScheduled c) (knownOwnKeys c) x (pendingReceipts c) (chains c) (timers c) (handles c)
    (tasks c) (log c) (world c).
Definition set_pendingReceipts (x : list (string * nat)) c : Channel H W :=
  MkChannel (transport c) (connectGen c) (lastAccountEpoch c) (chconv c) (bootstrapKey c)
    (sessions c) (welcomeOutbox c) (welcomeOutboxLoaded c) (welcomesSeen c) (welcomesJoined c)
    (lastWelcomeError c) (ratchetFlushPending c) (ratchetFlushTimer c) (pendingOps c)
    (failoverScheduled c) (knownOwnKeys c) (applyChains c) x (chains c) (timers c) (handles c)
    (tasks c) (log c) (world c).
Definition set_chains (x : list Chain) c : Channel H W :=
  MkChannel (transport c) (connectGen c) (lastAccountEpoch c) (chconv c) (bootstrapKey c)
    (sessions c) (welcomeOutbox c) (welcomeOutboxLoaded c) (welcomesSeen c) (welcomesJoined c)
    (lastWelcomeError c) (ratchetFlushPending c) (ratchetFlushTimer c) (pendingOps c)
    (failoverScheduled c) (knownOwnKeys c) (applyChains c) (pendingReceipts c) x (timers c)
    (handles c) (tasks c) (log c) (world c).
Definition set_timers (x : list (nat * (Z * timer H))) c : Channel H W :=
  MkChannel (transport c) (connectGen c) (lastAccountEpoch c) (chconv c) (bootstrapKey c)
    (sessions c) (welcomeOutbox c) (welcomeOutboxLoaded c) (welcomesSeen c) (welcomesJoined c)
    (lastWelcomeError c) (ratchetFlushPending c) (ratchetFlushTimer c) (pendingOps c)
    (failoverScheduled c) (knownOwnKeys c) (applyChains c) (pendingReceipts c) (chains c) x
    (handles c) (tasks c) (log c) (world c).
Definition set_handles (x : nat) c : Channel H W :=
  MkChannel (transport c) (connectGen c) (lastAccountEpoch c) (chconv c) (bootstrapKey c)
    (sessions c) (welcomeOutbox c) (welcomeOutboxLoaded c) (welcomesSeen c) (welcomesJoined c)
    (lastWelcomeError c) (ratchetFlushPending c) (ratchetFlushTimer c) (pendingOps c)
    (failoverScheduled c) (knownOwnKeys c) (applyChains c) (pendingReceipts c) (chains c) (timers
    c) x (tasks c) (log c) (world c).
Definition set_tasks (x : list (task H)) c : Channel H W :=
  MkChannel (transport c) (connectGen c) (lastAccountEpoch c) (chconv c) (bootstrapKey c)
    (sessions c) (welcomeOutbox c) (welcomeOutboxLoaded c) (welcomesSeen c) (welcomesJoined c)
    (lastWelcomeError c) (ratchetFlushPending c) (ratchetFlushTimer c) (pendingOps c)
    (failoverScheduled c) (knownOwnKeys c) (applyChains c) (pendingReceipts c) (chains c) (timers
    c) (handles c) x (log c) (world c).
Definition set_log (x : list effect) c : Channel H W :=
  MkChannel (transport c) (connectGen c) (lastAccountEpoch c) (chconv c) (bootstrapKey c)
    (sessions c) (welcomeOutbox c) (welcomeOutboxLoaded c) (welcomesSeen c) (welcomesJoined c)
    (lastWelcomeError c) (ratchetFlushPending c) (ratchetFlushTimer c) (pendingOps c)
    (failoverScheduled c) (knownOwnKeys c) (applyChains c) (pendingReceipts c) (chains c) (timers
    c) (handles c) (tasks c) x (world c).
Definition set_world (x : W) c : Channel H W :=
  MkChannel (transport c) (connectGen c) (lastAccountEpoch c) (chconv c) (bootstrapKey c)
    (sessions c) (welcomeOutbox c) (welcomeOutboxLoaded c) (welcomesSeen c) (welcomesJoined c)
    (lastWelcomeError c) (ratchetFlushPending c) (ratchetFlushTimer c) (pendingOps c)
    (failoverScheduled c) (knownOwnKeys c) (applyChains c) (pendingReceipts c) (chains c) (timers
    c) (handles c) (tasks c) (log c) x.
End setters.
