(* ===== verification/GroupChannel.v ===== *)
(** * The group channel: operations (client/src/groupchannel.ts)

    Every method of [GroupChannel] but the provisioning wrappers, as programs over the state of
    Channel.v.  The wasm conversation is the class [GroupApi]; the transport, the clock and the
    random source are the class [ChannelDeps]; which optional callbacks the channel was built with
    is a [Config].  GroupChannelFacts.v, SelfGroup.v and Welcomes.v prove
    the properties. *)

From stdpp Require Import pretty.
From S2P Require Import Prelude Session Vault Group Sas Json Channel.
#[local] Open Scope Z_scope.

(** The transport of one connection (its number is the first argument) and the host. *)
Class ChannelDeps (H W : Type) := {
  d_connect : string -> nat -> M W unit;
  d_makeConversation : string -> string -> M W H;
  d_publish : nat -> EnvelopeMsg -> M W unit;
  d_subscribe : nat -> string -> M W unit;
  d_ack : nat -> bytes -> M W unit;
  d_takePending : nat -> M W (list EnvelopeMsg);
  d_close : nat -> M W unit;
  d_now : M W Z;
  d_floorRandom : Z -> M W Z;
  d_contactIdentDigestHex : option (string -> M W string);
  d_parseJson : bytes -> option json;
  d_rangeMessage : string
}.

(** The optional constructor arguments and dependencies that are present. *)
Record Config := MkConfig {
  has_persistence : bool;
  has_outbox : bool;
  has_identity : bool;
  has_persistPeer : bool;
  has_sibling : bool;
  has_awayReply : bool;
  has_blocked : bool;
  has_fileSignal : bool;
  has_callSignal : bool;
  has_buddies : bool;
  has_loadBuddies : bool;
  has_groups : bool;
  has_loadGroups : bool;
  has_revoke : bool;
  has_deleteChannel : bool
}.

Module GroupChannel.
Definition CONTACT_TAG : string := "deaddrop".
Definition CONTACT_VERSION : string := "1".
Definition SEVEN_DAYS : Z := 604800.
Definition GATEWAY_MAX_TTL_SECONDS : Z := 86400.
Definition WELCOME_TTL_SECONDS : Z := GATEWAY_MAX_TTL_SECONDS.
Definition WELCOME_OUTBOX_TTL_MS : Z := SEVEN_DAYS * 1000.
Definition WELCOME_OUTBOX_MAX_ATTEMPTS : Z := 12.
Definition REVOKE_RECEIPT_MS : Z := 10000.
Definition RATCHET_FLUSH_MS : Z := 15000.
Definition ADD_CONFIRM_MS : Z := 8000.
Definition RESTORE_CONFIRM_MS : Z := 24000.
Definition ADD_FAILOVER_MS : Z := 6000.
Definition RECONCILE_JITTER_MS : Z := 2000.
Definition POISON_DROP_PREFIX : string := "drop:".
Definition OWN_ECHO_DROP_PREFIX : string := POISON_DROP_PREFIX +:+ "own frame".
Definition PERMANENT_WELCOME_FAILURES : list string :=
  ["already a member of this group"; "parse welcome:"; "expected a Welcome message";
   "NoMatchingKeyPackage"; "NoMatchingEncryptionKey"].
Definition WELCOME_ERROR_MARKERS : list string :=
  ["NoMatchingKeyPackage"; "NoMatchingEncryptionKey"; "already a member of this group";
   "UnsupportedExtension"].

(** ** Strings *)

(** [s.startsWith(p)] and [s.includes(p)] *)
Definition startsWith (s p : string) : bool := String.prefix p s.
Fixpoint includes (s p : string) : bool :=
  String.prefix p s || match s with "" => false | String _ s' => includes s' p end.

Definition upper_char (c : Ascii.ascii) : Ascii.ascii :=
  let n := Ascii.nat_of_ascii c in
  if ((97 <=? n) && (n <=? 122))%nat then Ascii.ascii_of_nat (n - 32) else c.
Fixpoint toUpperCase (s : string) : string :=
  match s with "" => "" | String c s' => String (upper_char c) (toUpperCase s') end.

Definition fingerprintOf (sigHex : string) : string :=
  String.concat "·" ((fun i => toUpperCase (String.substring i 2 sigHex)) <$> [0; 2; 4; 6]%nat).
Definition shortName (sigHex : string) : string := toUpperCase (String.substring 0 6 sigHex).
Definition formatContact (sigHex : string) : string :=
  CONTACT_TAG +:+ ":" +:+ CONTACT_VERSION +:+ ":" +:+ sigHex +:+ ":" +:+ sigHex.
Definition systemEntry (text : string) : string := "» " +:+ text.

Definition isPermanentWelcomeFailure (detail : string) : bool :=
  startsWith detail POISON_DROP_PREFIX || existsb (includes detail) PERMANENT_WELCOME_FAILURES.
Definition shortWelcomeError (detail : string) : string :=
  default (String.substring 0 40 detail) (List.find (includes detail) WELCOME_ERROR_MARKERS).

Definition bytesEqual (a b : bytes) : bool := bool_decide (a = b).

Definition convId (groupId : string) : string := "c-" +:+ groupId.
(** [id.startsWith('c-') ? id.slice(2) : id] *)
Definition gid_of (conversationId : string) : string :=
  if startsWith conversationId "c-"
  then String.substring 2 (String.length conversationId - 2) conversationId else conversationId.

(** [[...new Set(l)]]: first occurrences, in order. *)
Definition js_set (l : list string) : list string :=
  foldl (fun acc k => if bool_decide (k ∈ acc) then acc else acc ++ [k]) [] l.

(** [l.sort()] on ASCII strings. *)
Definition js_sort (l : list string) : list string := merge_sort string_le l.

(** ** Choosing the canonical self-group *)

(** What [selfSessionBest] reads of one session the wasm classifies as a self-group. *)
Record Rank := MkRank { r_strict : bool; r_size : nat; r_gid : string }.
Definition r_populated (r : Rank) : bool := (1 <? r_size r)%nat.

Definition better (e b : Rank) : bool :=
  (r_populated e && negb (r_populated b)) ||
  (Bool.eqb (r_populated e) (r_populated b) &&
   ((r_strict e && negb (r_strict b)) ||
    (Bool.eqb (r_strict e) (r_strict b) &&
     ((r_size b <? r_size e)%nat ||
      ((r_size e =? r_size b)%nat && String.ltb (r_gid e) (r_gid b)))))).

Section group_channel.
Context {H W : Type} `{!GroupApi H W} `{!ChannelDeps H W}.
Context (text_decode : bytes -> string) (cfg : Config).

Definition St : Type := Channel H W.
Implicit Types (c : St).

(** ** Primitives *)
Definition on_world {A} (m : M W A) : M St A := zoom world set_world m.
Definition emit (e : effect) : M St unit := modify (fun c => set_log (log c ++ [e]) c).
Definition push (e : event) : M St unit := emit (Push e).
Definition spawn (k : task H) : M St unit := modify (fun c => set_tasks (tasks c ++ [k]) c).
Definition resolve (p : promise) : M St unit := emit (Resolved p).

Definition publish (t : nat) (env : EnvelopeMsg) : M St unit :=
  do! emit (Publish t env) in on_world (d_publish t env).
Definition subscribe (t : nat) (key : string) : M St unit :=
  do! emit (Subscribe t key) in on_world (d_subscribe t key).
Definition ack (t : nat) (messageId : bytes) : M St unit :=
  do! emit (Ack t messageId) in on_world (d_ack t messageId).

Definition schedule (delay : Z) (k : timer H) : M St nat := fun c =>
  (Ok (handles c),
   set_handles (S (handles c)) (set_timers (timers c ++ [(handles c, (delay, k))]) c)).
Definition cancel (n : nat) : M St unit := modify (fun c => set_timers (JsMap.remove n (timers c)) c).

Definition errMsg (e : exn) : string :=
  match e with RangeError => d_rangeMessage (H := H) | JsError m => m end.

Definition connect_first : exn := JsError "connect to the gateway first".
Definition requireConv : M St H :=
  let! h := gets chconv in match h with Some h => ret h | None => throw connect_first end.
Definition requireTransport : M St nat :=
  let! t := gets transport in match t with Some t => ret t | None => throw connect_first end.

Definition entry_of (conversationId : string) : M St (option (SessionEntry H)) :=
  gets (fun c => JsMap.lookup conversationId (sessions c)).
Definition put_entry (conversationId : string) (e : SessionEntry H) : M St unit :=
  modify (fun c => set_sessions (JsMap.set conversationId e (sessions c)) c).

(** A message under a fresh id. *)
Definition post (t : nat) (routingKey : string) (payload : bytes) (ttl : Z) : M St unit :=
  let! messageId := on_world (g_randomBytes (H := H) 16) in
  publish t (MkEnvelope messageId routingKey payload ttl).

Definition sendControl (t : nat) (s : GroupSession H) (controlType : Z) (payload : bytes) : M St unit :=
  let! env := on_world (GroupSessions.sendControl s controlType 1 payload None) in publish t env.

(** [resealSelf] up to its await; the result is what its promise is already known to give.  The
    promise never rejects. *)
Definition begin_reseal : M St (option bool) :=
  let! h := gets chconv in
  match h with
  | None => ret (Some false)
  | Some _ => if has_persistence cfg then do! emit CallReseal in ret None else ret (Some true)
  end.
Definition resealSelf (k : after_reseal H) : M St unit :=
  let! fixed := begin_reseal in spawn (AwaitReseal fixed k).

(** ** Reading the state *)
Definition selfContact : M St (option string) :=
  gets (fun c => match chconv c with Some _ => Some (formatContact (bootstrapKey c)) | None => None end).
Definition selfFingerprint : M St string :=
  gets (fun c => match chconv c with Some _ => fingerprintOf (bootstrapKey c) | None => "pending" end).
Definition selfDeviceKeyHex : M St string := gets bootstrapKey.
Definition accountKeyHex : M St string :=
  let! h := gets chconv in
  match h with Some h => on_world (g_accountKeyHex h) | None => ret "" end.

Definition roster (conversationId : string) : M St (list string) :=
  let! e := entry_of conversationId in
  match e with Some e => on_world (GroupSessions.roster (e_session e)) | None => ret [] end.
Definition peerRoster (conversationId : string) : M St (list string) :=
  let! l := roster conversationId in
  gets (fun c => filter (fun k => k <> bootstrapKey c) l).

Definition heldConversationIds : M St (list string) :=
  let! h := gets chconv in
  match h with
  | None => ret []
  | Some h => let! l := on_world (g_listConversations h) in ret (convId <$> l)
  end.

Definition isSelfConversationId (conversationId : string) : M St bool :=
  let! e := entry_of conversationId in
  match e with Some e => on_world (GroupSessions.isSelfConversation (e_session e)) | None => ret false end.
Definition selfClassificationReason (conversationId : string) : M St string :=
  let! e := entry_of conversationId in
  match e with Some e => on_world (GroupSessions.selfClassificationReason (e_session e)) | None => ret "" end.
Definition isUnlinkedConversationId (conversationId : string) : M St bool :=
  let! e := entry_of conversationId in
  match e with Some e => on_world (GroupSessions.unlinked (e_session e)) | None => ret false end.
Definition peerAccountKeysFor (conversationId : string) : M St (list string) :=
  let! e := entry_of conversationId in
  match e with Some e => on_world (GroupSessions.peerAccountKeys (e_session e)) | None => ret [] end.

(** [/^[0-9a-f]{64}$/.test(aakHex)] *)
Definition is_key_hex (s : string) : bool :=
  (String.length s =? 64)%nat &&
  forallb (fun ch => let n := Ascii.nat_of_ascii ch in
             ((48 <=? n) && (n <=? 57) || (97 <=? n) && (n <=? 102))%nat)
    (String.list_ascii_of_string s).
Definition contactPhraseFor (aakHex : string) : M St string :=
  if negb (is_key_hex aakHex) then ret "" else
  try_catch
    (match d_contactIdentDigestHex with
     | Some f => let! digest := on_world (f aakHex) in ret (Sas.renderContactPhraseHex digest)
     | None => ret ""
     end) (fun _ => ret "").

(** ** The self-group *)

(** What one iteration of [selfSessionBest] reads; [None] when the session is skipped.  The rosters
    the source reads again within an iteration are the same reads of the wasm. *)
Definition rank_of (s : GroupSession H) : M W (option Rank) :=
  let! self := GroupSessions.isSelfConversation s in
  if negb self then ret None else
  let! strict := GroupSessions.isSelfConversationStrict s in
  let! members := GroupSessions.roster s in
  ret (Some (MkRank strict (length members) (groupId s))).

Fixpoint best_loop (l : list (SessionEntry H)) (best : option (GroupSession H * Rank))
  : M W (option (GroupSession H * Rank)) :=
  match l with
  | [] => ret best
  | e :: l =>
      let! r := rank_of (e_session e) in
      match r with
      | None => best_loop l best
      | Some r =>
          best_loop l
            (match best with
             | None => Some (e_session e, r)
             | Some (_, b) => if better r b then Some (e_session e, r) else best
             end)
      end
  end.

Definition selfSessionBest : M St (option (GroupSession H * Rank)) :=
  let! l := gets sessions in on_world (best_loop l.*2 None).
Definition selfSession : M St (option (GroupSession H)) :=
  let! b := selfSessionBest in ret (fst <$> b).

(** [conv.credentialCertified?.() ?? d] *)
Definition credentialCertified (h : H) (d : bool) : M St bool :=
  match g_credentialCertified with Some f => on_world (f h) | None => ret d end.

Definition selfGroupSuffices : M St bool :=
  let! best := selfSessionBest in
  match best with
  | None => ret false
  | Some (_, r) =>
      if r_strict r then ret true else
      let! h := gets chconv in
      match h with
      | None => ret true
      | Some h =>
          let! key := on_world (g_accountKeyHex h) in
          if bool_decide (key = "") then ret true else
          if r_populated r then ret true else
          let! ok := credentialCertified h false in ret (negb ok)
      end
  end.

Definition selfGroupNeedsCertifiedReplacement : M St bool :=
  let! best := selfSessionBest in
  match best with
  | None => ret false
  | Some (_, r) =>
      if r_strict r then ret false else
      let! h := gets chconv in
      match h with
      | None => ret false
      | Some h =>
          let! key := on_world (g_accountKeyHex h) in
          if bool_decide (key = "") then ret false else
          if (r_size r <? 2)%nat then ret false else credentialCertified h false
      end
  end.

Definition hasSelfGroup : M St bool :=
  let! enough := selfGroupSuffices in
  if enough then let! needs := selfGroupNeedsCertifiedReplacement in ret (negb needs) else ret false.

Definition selfConversationId : M St (option string) :=
  let! s := selfSession in ret ((fun s => convId (groupId s)) <$> s).

Definition selfGroupDiagnostic : M St string :=
  let! s := selfSession in
  let! about :=
    match s with
    | None => ret []
    | Some s =>
        let! n := on_world (try_catch (let! l := GroupSessions.roster s in ret (length l))
                                      (fun _ => ret 0%nat)) in
        let devices := if (0 <? n)%nat
          then [pretty n +:+ " device" +:+ (if (n =? 1)%nat then "" else "s")] else [] in
        let! h := gets chconv in
        let! epoch := match h, g_groupEpoch with
          | Some h, Some f => let! e := on_world (f h (groupId s)) in ret (Some e)
          | _, _ => ret None
          end in
        ret (devices ++ match epoch with
                        | Some e => if 0 <=? e then ["e" +:+ pretty e] else []
                        | None => []
                        end)
    end in
  gets (fun c =>
    String.concat " · " (about ++ ["W" +:+ pretty (welcomesSeen c) +:+ "/" +:+ pretty (welcomesJoined c)] ++
      (if bool_decide (lastWelcomeError c = "") then [] else [shortWelcomeError (lastWelcomeError c)]))).

(** ** Publishing what the members need *)

Definition publishIdentityFor (s : GroupSession H) : M St unit :=
  let! t := gets transport in
  match t with
  | Some _ => if has_identity cfg then do! emit CallLoadIdentity in spawn (AwaitIdentity s) else ret tt
  | None => ret tt
  end.
Definition publishIdentity : M St unit :=
  let! l := gets sessions in for_each l.*2 (fun e => publishIdentityFor (e_session e)).
Definition publishIdentityNow : M St unit := publishIdentity.

Definition publishBuddiesFor (s : GroupSession H) : M St unit :=
  let! t := gets transport in
  match t with
  | Some _ =>
      if negb (has_loadBuddies cfg) then ret tt else
      let! self := on_world (GroupSessions.isSelfConversation s) in
      if self then do! emit CallLoadBuddies in spawn (AwaitBuddies s) else ret tt
  | None => ret tt
  end.
Definition publishGroupsFor (s : GroupSession H) : M St unit :=
  let! t := gets transport in
  match t with
  | Some _ =>
      if negb (has_loadGroups cfg) then ret tt else
      let! self := on_world (GroupSessions.isSelfConversation s) in
      if self then do! emit CallLoadGroups in spawn (AwaitGroups s) else ret tt
  | None => ret tt
  end.

Definition syncBuddies : M St unit :=
  let! s := selfSession in match s with Some s => publishBuddiesFor s | None => ret tt end.
Definition syncGroups : M St unit :=
  let! s := selfSession in match s with Some s => publishGroupsFor s | None => ret tt end.

Definition resyncSelfGroup : M St unit :=
  let! s := selfSession in
  match s with
  | None => ret tt
  | Some s => do! publishIdentityFor s in do! publishBuddiesFor s in publishGroupsFor s
  end.

(** The continuations of the three loads; a rejection and a throw are swallowed. *)
Definition identity_loaded (s : GroupSession H) (frames : list (Z * bytes)) : M St unit :=
  let! t := gets transport in
  match t with
  | None => ret tt
  | Some t => try_catch (for_each frames (fun f => sendControl t s f.1 f.2)) (fun _ => ret tt)
  end.
Definition frame_loaded (controlType : Z) (s : GroupSession H) (frame : option bytes) : M St unit :=
  let! t := gets transport in
  match frame, t with
  | Some frame, Some t => try_catch (sendControl t s controlType frame) (fun _ => ret tt)
  | _, _ => ret tt
  end.

Definition sendFileSignal (conversationId : string) (payload : bytes) : M St unit :=
  let! e := entry_of conversationId in
  let! t := gets transport in
  match e, t with
  | Some e, Some t => sendControl t (e_session e) Frame.CONTROL_FILE payload
  | _, _ => ret tt
  end.
Definition sendCallSignal (conversationId : string) (payload : bytes) : M St unit :=
  let! e := entry_of conversationId in
  let! t := gets transport in
  match e, t with
  | Some e, Some t => sendControl t (e_session e) Frame.CONTROL_CALL payload
  | _, _ => ret tt
  end.

Definition peerLabel (s : GroupSession H) : M St string :=
  let! members := on_world (GroupSessions.roster s) in
  let! me := gets bootstrapKey in
  ret (match filter (fun k => k <> me) members with k :: _ => shortName k | [] => "GROUP" end).

Definition persist (conversationId : string) (s : GroupSession H) : M St unit :=
  let! peer := peerLabel s in
  let! me := gets bootstrapKey in
  emit (CallPersistChannel
    (MkSummary conversationId peer (fingerprintOf me) "secure" "group conversation open" 0)).

(** Hold a new session: its entry, its mailbox on the transport. *)
Definition hold (t : nat) (conversationId : string) (s : GroupSession H) : M St unit :=
  let! groupMailbox := on_world (GroupSessions.mailbox s) in
  do! put_entry conversationId (MkEntry s groupMailbox) in
  subscribe t groupMailbox.

(** ** Forgetting a conversation *)
(** The staged commit of a conversation is no longer waited for. *)
Definition clear_pending (conversationId : string) : M St unit :=
  let! op := gets (fun c => JsMap.lookup conversationId (pendingOps c)) in
  match op with
  | Some op => do! cancel (op_handle op) in
               modify (fun c => set_pendingOps (JsMap.remove conversationId (pendingOps c)) c)
  | None => ret tt
  end.

Definition leaveConversation (conversationId : string) : M St unit :=
  do! clear_pending conversationId in
  do! modify (fun c => set_sessions (JsMap.remove conversationId (sessions c)) c) in
  modify (fun c => set_applyChains (JsMap.remove conversationId (applyChains c)) c).

Definition closeConversation (conversationId : string) : M St unit :=
  let! h := gets chconv in
  do! match h, g_closeConversation with
      | Some h, Some f => on_world (f h (gid_of conversationId))
      | _, _ => ret tt
      end in
  do! leaveConversation conversationId in
  resealSelf (RResolve (PClose conversationId)).

Definition abandonDeadSelfGroup (conversationId : string) (recordedSelf : bool) : M St unit :=
  let! h := gets chconv in
  match h, g_abandonDeadSelfGroup with
  | Some h, Some f =>
      let! abandoned := on_world (try_catch (f h (gid_of conversationId) recordedSelf) (fun _ => ret false)) in
      if abandoned then do! leaveConversation conversationId in resealSelf (RResolve (PAbandon conversationId))
      else ret tt
  | _, _ => ret tt
  end.

(** ** Ratchet flush *)
Definition scheduleRatchetFlush (conversationId : string) : M St unit :=
  do! modify (fun c => set_ratchetFlushPending (js_set (ratchetFlushPending c ++ [conversationId])) c) in
  let! h := gets ratchetFlushTimer in
  match h with
  | Some _ => ret tt
  | None => let! k := schedule RATCHET_FLUSH_MS TmRatchetFlush in modify (set_ratchetFlushTimer (Some k))
  end.

Fixpoint flush_all (ids : list string) (flushed : bool) : M St bool :=
  match ids with
  | [] => ret flushed
  | i :: ids =>
      let! e := entry_of i in
      let! f := match e with
                | Some e => on_world (GroupSessions.flushReceiveRatchet (e_session e))
                | None => ret false
                end in
      flush_all ids (flushed || f)
  end.

Definition ratchetFlush_fires : M St unit :=
  do! modify (set_ratchetFlushTimer None) in
  let! ids := gets ratchetFlushPending in
  do! modify (set_ratchetFlushPending []) in
  let! flushed := flush_all ids false in
  if flushed then resealSelf RNothing else ret tt.

(** ** The outbox of unacknowledged Welcomes *)
Definition set_outbox (l : list PendingWelcome) : M St unit := modify (set_welcomeOutbox l).

(** [await this.loadWelcomeOutbox()]: true when the promise of the store is awaited. *)
Definition loadWelcomeOutbox : M St bool :=
  let! loaded := gets welcomeOutboxLoaded in
  if loaded || negb (has_outbox cfg) then ret false
  else do! modify (set_welcomeOutboxLoaded true) in ret true.

Definition saveOutbox : M St unit :=
  let! l := gets welcomeOutbox in
  if has_outbox cfg then emit (CallSaveOutbox l) else ret tt.

(** [rememberWelcome] up to its first await, with the loop it returns to. *)
Definition rememberWelcome (loop : Founding H) : M St unit :=
  if has_outbox cfg then let! first := loadWelcomeOutbox in spawn (AwaitRemember first loop)
  else spawn (AwaitRemembered loop).

Definition is_welcome_for (conversationId key : string) (e : PendingWelcome) : bool :=
  bool_decide (pw_conversationId e = conversationId) && bool_decide (pw_deviceKey e = key).
Definition remember (conversationId key : string) (welcome : bytes) : M St unit :=
  let! now := on_world (d_now (H := H)) in
  do! modify (fun c => set_welcomeOutbox
    (List.filter (fun e => negb (is_welcome_for conversationId key e)) (welcomeOutbox c) ++
     [MkPendingWelcome conversationId key (bytesToHex welcome) now None]) c) in
  saveOutbox.

Definition retireWelcomes (conversationId : string) : M St unit :=
  let! l := gets welcomeOutbox in
  if negb (has_outbox cfg) || bool_decide (l = []) then ret tt else
  let kept := filter (fun e => pw_conversationId e <> conversationId) l in
  if (length kept =? length l)%nat then ret tt
  else do! set_outbox kept in saveOutbox.

Definition attempts_of (e : PendingWelcome) : Z := default 0 (pw_attempts e) + 1.
Definition with_attempts (n : Z) (e : PendingWelcome) : PendingWelcome :=
  MkPendingWelcome (pw_conversationId e) (pw_deviceKey e) (pw_welcomeHex e) (pw_createdAt e) (Some n).

Fixpoint replay_loop (t : nat) (cutoff : Z) (settled : list string) (l : list PendingWelcome)
  : M St (list PendingWelcome) :=
  match l with
  | [] => ret []
  | e :: l =>
      if (pw_createdAt e <? cutoff) || bool_decide (pw_deviceKey e ∈ settled)
         || (WELCOME_OUTBOX_MAX_ATTEMPTS <? attempts_of e)
      then replay_loop t cutoff settled l else
      do! try_catch (post t (pw_deviceKey e) (hexToBytes (pw_welcomeHex e)) WELCOME_TTL_SECONDS)
                    (fun _ => ret tt) in
      let! live := replay_loop t cutoff settled l in
      ret (with_attempts (attempts_of e) e :: live)
  end.

(** [replayWelcomeOutbox] after [loadWelcomeOutbox]. *)
Definition replay : M St unit :=
  let! t := gets transport in
  let! l := gets welcomeOutbox in
  match t, l with
  | Some t, _ :: _ =>
      let! now := on_world (d_now (H := H)) in
      let! best := selfSessionBest in
      let! settled := match best with
        | Some (s, _) => on_world (try_catch (GroupSessions.roster s) (fun _ => ret []))
        | None => ret []
        end in
      let! live := replay_loop t (now - WELCOME_OUTBOX_TTL_MS) settled l in
      do! set_outbox live in
      saveOutbox
  | _, _ => ret tt
  end.
Definition replayWelcomeOutbox : M St unit :=
  let! first := loadWelcomeOutbox in spawn (AwaitReplay first).

(** ** Creating conversations *)

Definition openSelfConversation : M St unit :=
  let! enough := selfGroupSuffices in
  let! existing := if enough then selfConversationId else ret None in
  match existing with
  | Some i => resolve (POpenSelf i)
  | None =>
      let! h := requireConv in
      let! key := on_world (g_accountKeyHex h) in
      if bool_decide (key = "")
      then throw (JsError "note to self is available on your account-key device") else
      let! t := requireTransport in
      let! s := on_world (GroupSessions.createSelf h) in
      do! hold t (convId (groupId s)) s in
      resealSelf (RSelfOpened (convId (groupId s)))
  end.

(** The loop of [createSelfGroup]; the next round follows the outbox write. *)
Definition founding_step (loop : Founding H) : M St unit :=
  match f_rest loop with
  | [] => resealSelf (RFounded (f_session loop))
  | d :: _ =>
      do! post (f_transport loop) (deviceKey d) (f_welcome loop) WELCOME_TTL_SECONDS in
      rememberWelcome loop
  end.
Definition next_founder (loop : Founding H) : Founding H :=
  MkFounding (f_conversationId loop) (f_session loop) (f_transport loop) (f_welcome loop)
             (tail (f_rest loop)).

Fixpoint eligible (h : H) (targets : list DeviceTarget) : M W (list DeviceTarget) :=
  match targets with
  | [] => ret []
  | d :: targets =>
      let! ok := match g_keyPackageSelfEligible with Some f => f h (keyPackage d) | None => ret true end in
      let! rest := eligible h targets in
      ret (if (ok : bool) then d :: rest else rest)
  end.

(** From the re-check of the existing self-group on. *)
Definition found (h : H) (t : nat) (targets : list DeviceTarget) : M St unit :=
  let! held := hasSelfGroup in
  if held then resolve PCreateSelf else
  let! founders := on_world (eligible h targets) in
  match founders with
  | [] => throw (JsError "no certified sibling package is available yet")
  | _ =>
      let! made := on_world (GroupSessions.createSelfGroup h (keyPackage <$> founders)) in
      let (welcome, s) := made in
      let cid := convId (groupId s) in
      let! held := entry_of cid in
      match held with
      | Some _ => resolve PCreateSelf
      | None => do! hold t cid s in founding_step (MkFounding cid s t welcome founders)
      end
  end.

(** [conv.accountKeyHex() !== '' && !(conv.credentialCertified?.() ?? true)] *)
Definition needs_recertification (h : H) : M St bool :=
  let! key := on_world (g_accountKeyHex h) in
  if bool_decide (key = "") then ret false
  else let! ok := credentialCertified h true in ret (negb ok).

Definition createSelfGroup (targets : list DeviceTarget) : M St unit :=
  let! h := requireConv in
  let! t := requireTransport in
  match targets with
  | [] => resolve PCreateSelf
  | _ =>
      let! recertify := needs_recertification h in
      if recertify then
        let! e := on_world (g_certEpoch h) in
        do! on_world (g_reauthorizeAtEpoch h e) in
        resealSelf (RRecertified h t targets)
      else found h t targets
  end.

Definition founded (s : GroupSession H) : M St unit :=
  do! publishIdentityFor s in
  do! publishBuddiesFor s in
  do! publishGroupsFor s in
  do! push (EvConnection "secure") in
  resolve PCreateSelf.

Definition startConversation (targets : list DeviceTarget) : M St unit :=
  let! h := requireConv in
  let! t := requireTransport in
  match targets with
  | [] => throw (JsError "a conversation needs at least one other device")
  | _ =>
      let! made := on_world (GroupSessions.create h (keyPackage <$> targets)) in
      let (welcome, s) := made in
      let cid := convId (groupId s) in
      do! hold t cid s in
      do! for_each targets (fun d => post t (deviceKey d) welcome SEVEN_DAYS) in
      do! persist cid s in
      spawn (AwaitStartPersisted cid s)
  end.

Definition started (cid : string) (s : GroupSession H) : M St unit :=
  do! publishIdentityFor s in
  do! push (EvConnection "secure") in
  let! peer := peerLabel s in
  let! me := gets bootstrapKey in
  resolve (PStart (MkTransmit true peer (fingerprintOf me)
    [systemEntry "group conversation open · all your devices receive"] "" cid)).

(** ** Sending *)
Definition not_open : exn := JsError "this conversation is not open yet".

Definition sendMessage (conversationId text : string) (lifetime : Lifetime) : M St unit :=
  let! e := entry_of conversationId in
  match e with
  | None => throw not_open
  | Some e =>
      let! env := on_world (GroupSessions.send (e_session e) (text_encode text) lifetime None) in
      let! t := requireTransport in
      do! publish t env in
      do! emit (CallPersistMessage
        (MkMeta (bytesToHex (env_messageId env)) conversationId DirOut lifetime None) (text_encode text)) in
      spawn (AwaitSent (bytesToHex (env_messageId env)))
  end.

(** [waiter.confirm()] and [waiter.fail(e)]; a receipt without a waiter is dropped. *)
Definition settle_receipt (idHex : string) (outcome : option exn) : M St unit :=
  let! handle := gets (fun c => JsMap.lookup idHex (pendingReceipts c)) in
  match handle with
  | None => ret tt
  | Some k =>
      do! cancel k in
      do! modify (fun c => set_pendingReceipts (JsMap.remove idHex (pendingReceipts c)) c) in
      emit (match outcome with None => Resolved (PRevoke idHex) | Some e => RejectedWith (PRevoke idHex) e end)
  end.
Definition fail_receipts (e : exn) : M St unit :=
  let! l := gets pendingReceipts in for_each l.*1 (fun i => settle_receipt i (Some e)).

(** A waiter for the receipt of a publish, with its time limit. *)
Definition await_receipt (idHex : string) : M St unit :=
  let! k := schedule REVOKE_RECEIPT_MS (TmReceipt idHex) in
  modify (fun c => set_pendingReceipts (JsMap.set idHex k (pendingReceipts c)) c).

Definition revokeMessage (conversationId targetMessageId : string) : M St unit :=
  let! e := entry_of conversationId in
  match e with
  | None => throw not_open
  | Some e =>
      let! t := requireTransport in
      let! env := on_world (GroupSessions.sendRevoke (e_session e) targetMessageId None) in
      let idHex := bytesToHex (env_messageId env) in
      do! await_receipt idHex in
      try_catch (publish t env) (fun e => settle_receipt idHex (Some e))
  end.

(** ** Membership *)

(** The end of [addDevice] and [removeDevice]: rotate to the new mailbox. *)
Definition rotated (t : nat) (conversationId : string) (s : GroupSession H)
    (added removed : list string) : M St unit :=
  let! groupMailbox := on_world (GroupSessions.mailbox s) in
  do! put_entry conversationId (MkEntry s groupMailbox) in
  do! subscribe t groupMailbox in
  do! resealSelf RNothing in
  push (EvRosterChanged conversationId added removed).

Definition no_such_conversation : exn := JsError "no such conversation".

Definition addDevice (conversationId : string) (target : DeviceTarget) : M St unit :=
  let! e := entry_of conversationId in
  match e with
  | None => throw no_such_conversation
  | Some e =>
      let! t := requireTransport in
      let! made := on_world (GroupSessions.addDevice (e_session e) (keyPackage target)) in
      do! post t (e_groupMailbox e) made.1 SEVEN_DAYS in
      do! post t (deviceKey target) made.2 SEVEN_DAYS in
      rotated t conversationId (e_session e) [deviceKey target] []
  end.

Definition removeDevice (conversationId sigKeyHex : string) : M St unit :=
  let! e := entry_of conversationId in
  match e with
  | None => throw no_such_conversation
  | Some e =>
      let! t := requireTransport in
      let! commit := on_world (GroupSessions.removeDevice (e_session e) sigKeyHex) in
      do! post t (e_groupMailbox e) commit SEVEN_DAYS in
      rotated t conversationId (e_session e) [] [sigKeyHex]
  end.

(** The loop of [excludeEverywhere].  [removeDevice] is not an async function: what it throws is
    thrown before there is a promise whose rejection could be caught. *)
Fixpoint exclude_loop (sigKeyHex : string) (ids : list string) : M St unit :=
  match ids with
  | [] => resolve PExclude
  | i :: ids =>
      let! members := roster i in
      if bool_decide (sigKeyHex ∈ members) then
        do! removeDevice i sigKeyHex in
        spawn (AwaitExclude sigKeyHex ids)
      else exclude_loop sigKeyHex ids
  end.
Definition excludeEverywhere (sigKeyHex : string) : M St unit :=
  let! l := gets sessions in exclude_loop sigKeyHex l.*1.

Definition ourDevicesInGroup (me : string) (own members : list string) : list string :=
  js_sort (js_set (me :: filter (fun k => k ∈ members) own)).
Definition isDesignatedAdder (me : string) (own members : list string) : bool :=
  bool_decide (head (ourDevicesInGroup me own members) = Some me).
(** [Math.max(1, ourInGroup.indexOf(me))] *)
Definition failover_rank (me : string) (own members : list string) : Z :=
  match list_find (fun k => k = me) (ourDevicesInGroup me own members) with
  | Some (n, _) => Z.max 1 (Z.of_nat n)
  | None => 1
  end.

Definition hasMissingSiblings (own : list string) : M St bool :=
  let! l := gets sessions in
  let! me := gets bootstrapKey in
  (fix loop (l : list (SessionEntry H)) : M St bool :=
    match l with
    | [] => ret false
    | e :: l =>
        let! members := on_world (GroupSessions.roster (e_session e)) in
        if isDesignatedAdder me own members
           && existsb (fun k => bool_decide (k ∉ members) && bool_decide (k <> me)) own
        then ret true else loop l
    end) l.*2.

Definition failover_delay (me : string) (own members : list string) (j : Z) : Z :=
  ADD_FAILOVER_MS * failover_rank me own members + j.
Definition jitter : M St Z := on_world (d_floorRandom (H := H) RECONCILE_JITTER_MS).

(** [stageAddSibling] and [stageRemoveSibling] up to their await; they run as their own promise. *)
Definition stageAddSibling (conversationId : string) (e : SessionEntry H) (t : nat)
    (target : DeviceTarget) : M St unit :=
  let! gen := gets connectGen in
  try_catch
    (let! staged := on_world (GroupSessions.stageAddDevice (e_session e) (keyPackage target)) in
     resealSelf (RStagedAdd conversationId (e_session e) (e_groupMailbox e) gen t target staged.1 staged.2))
    (fun x => if bool_decide (errMsg x = "an add is already in flight") then ret tt
              else push (EvSiblingAddRejected (deviceKey target) (errMsg x))).

Definition stageRemoveSibling (conversationId : string) (e : SessionEntry H) (t : nat)
    (target : string) : M St unit :=
  let! gen := gets connectGen in
  try_catch
    (let! commit := on_world (GroupSessions.stageRemoveDevice (e_session e) target) in
     resealSelf (RStagedRemove conversationId (e_session e) (e_groupMailbox e) gen t commit))
    (fun _ => ret tt).

(** The commit staged before the await is still the one in flight, on the same connection. *)
Definition still_staged (s : GroupSession H) (gen : nat) (commit : bytes) : M St bool :=
  let! now := gets connectGen in
  if bool_decide (now = gen) then
    let! pending := on_world (GroupSessions.pendingCommit s) in ret (bytesEqual pending commit)
  else ret false.

Definition arm_backstop (delay : Z) (conversationId : string) (gen : nat) (s : GroupSession H)
    (kind : PendingKind) (target : option DeviceTarget) : M St unit :=
  let! k := schedule delay (TmBackstop conversationId gen s kind) in
  modify (fun c => set_pendingOps (JsMap.set conversationId (MkPendingOp kind target k) (pendingOps c)) c).

Definition staged_add (conversationId : string) (s : GroupSession H) (mailbox : string) (gen t : nat)
    (target : DeviceTarget) (commit welcome : bytes) : M St unit :=
  let! live := still_staged s gen commit in
  if negb live then ret tt else
  do! post t mailbox commit SEVEN_DAYS in
  do! post t (deviceKey target) welcome SEVEN_DAYS in
  arm_backstop ADD_CONFIRM_MS conversationId gen s PendingAdd (Some target).

Definition staged_remove (conversationId : string) (s : GroupSession H) (mailbox : string)
    (gen t : nat) (commit : bytes) : M St unit :=
  let! live := still_staged s gen commit in
  if negb live then ret tt else
  do! post t mailbox commit SEVEN_DAYS in
  arm_backstop ADD_CONFIRM_MS conversationId gen s PendingRemove None.

(** The backstop of a staged commit gives up on it; it never merges. *)
Definition backstop_fires (conversationId : string) (gen : nat) (s : GroupSession H)
    (kind : PendingKind) : M St unit :=
  let! now := gets connectGen in
  let! op := gets (fun c => JsMap.lookup conversationId (pendingOps c)) in
  if negb (bool_decide (gen = now)) || bool_decide (op = None) then ret tt else
  do! modify (fun c => set_pendingOps (JsMap.remove conversationId (pendingOps c)) c) in
  let! pending := on_world (GroupSessions.pendingKind s) in
  match pending with
  | None => ret tt
  | Some _ =>
      let! aborted := on_world (try_catch
        (do! match kind with
             | PendingAdd => GroupSessions.abortAdd s
             | PendingRemove => GroupSessions.abortRemove s
             end in ret true) (fun _ => ret false)) in
      if aborted then push (EvMembershipStalled conversationId kind) else ret tt
  end.

Definition missing_siblings (me : string) (own members : list string) (candidates : list DeviceTarget)
  : list DeviceTarget :=
  filter (fun d => deviceKey d ∈ own /\ deviceKey d ∉ members /\ deviceKey d <> me) candidates.

(** Whether a reconcile of the conversation can go on: its entry and a transport, and no staged
    commit in flight. *)
Definition idle (conversationId : string) : M St (option (SessionEntry H * nat)) :=
  let! e := entry_of conversationId in
  let! t := gets transport in
  let! op := gets (fun c => JsMap.lookup conversationId (pendingOps c)) in
  ret (match e, t, op with Some e, Some t, None => Some (e, t) | _, _, _ => None end).

Definition reconcileOne (conversationId : string) (own : list string)
    (candidates : list DeviceTarget) (forced : bool) : M St unit :=
  do! modify (set_knownOwnKeys own) in
  let! ready := idle conversationId in
  match ready with
  | None => ret tt
  | Some (e, t) =>
      let! members := on_world (GroupSessions.roster (e_session e)) in
      let! me := gets bootstrapKey in
      match missing_siblings me own members candidates with
      | [] => ret tt
      | first :: _ =>
          if negb forced && negb (isDesignatedAdder me own members) then
            let! armed := gets failoverScheduled in
            if bool_decide (conversationId ∈ armed) then ret tt else
            let! j := jitter in
            do! modify (fun c => set_failoverScheduled (failoverScheduled c ++ [conversationId]) c) in
            do! schedule (failover_delay me own members j) (TmAddFailover conversationId own candidates) in ret tt
          else stageAddSibling conversationId e t first
      end
  end.

Definition reconcileSiblings (own : list string) (candidates : list DeviceTarget) : M St unit :=
  let! l := gets sessions in for_each l.*1 (fun i => reconcileOne i own candidates false).

Definition reconcileSelf (own : list string) (candidates : list DeviceTarget) : M St unit :=
  let! l := gets sessions in
  for_each l (fun x =>
    let! self := on_world (GroupSessions.isSelfConversation (e_session x.2)) in
    if self then reconcileOne x.1 own candidates false else ret tt).

Definition removal_targets (me : string) (members revoked : list string) : list string :=
  filter (fun k => k ∈ revoked /\ k <> me) (js_set members).

Definition reconcileRemovalOne (conversationId : string) (own revoked : list string)
    (forced : bool) : M St unit :=
  let! ready := idle conversationId in
  match ready with
  | None => ret tt
  | Some (e, t) =>
      let! members := on_world (GroupSessions.roster (e_session e)) in
      let! me := gets bootstrapKey in
      match removal_targets me members revoked with
      | [] => ret tt
      | first :: _ =>
          if negb forced && negb (isDesignatedAdder me own members) then
            let! j := jitter in
            do! schedule (failover_delay me own members j) (TmRemovalFailover conversationId own revoked) in ret tt
          else stageRemoveSibling conversationId e t first
      end
  end.
Definition reconcileRemovals (own revoked : list string) : M St unit :=
  let! l := gets sessions in for_each l.*1 (fun i => reconcileRemovalOne i own revoked false).

Inductive SiblingState := Member | PendingSibling | Absent | NoSelfGroup.

Fixpoint sibling_loop (key : string) (l : list (string * SessionEntry H)) (sawSelf pending : bool)
  : M St SiblingState :=
  match l with
  | [] => ret (if sawSelf then if pending then PendingSibling else Absent else NoSelfGroup)
  | (i, e) :: l =>
      let! self := on_world (GroupSessions.isSelfConversation (e_session e)) in
      if negb self then sibling_loop key l sawSelf pending else
      let! members := on_world (GroupSessions.roster (e_session e)) in
      if bool_decide (key ∈ members) then ret Member else
      let! busy := gets (fun c => JsMap.has i (pendingOps c) || bool_decide (i ∈ failoverScheduled c)) in
      sibling_loop key l true (pending || busy)
  end.
Definition selfSiblingState (key : string) : M St SiblingState :=
  let! l := gets sessions in sibling_loop key l false false.

(** [onMembershipAdvanced]; [k] is what waits for its promise. *)
Definition onMembershipAdvanced (conversationId : string) (added removed : list string)
    (k : after_reseal H) : M St unit :=
  let! e := entry_of conversationId in
  let! t := gets transport in
  match e, t with
  | Some e, Some t =>
      let! next := on_world (GroupSessions.mailbox (e_session e)) in
      do! (if bool_decide (next = e_groupMailbox e) then ret tt
           else do! put_entry conversationId (MkEntry (e_session e) next) in subscribe t next) in
      let! sealed := begin_reseal in
      do! push (EvRosterChanged conversationId added removed) in
      let! known := gets knownOwnKeys in
      let addedAllOwn := negb (bool_decide (added = [])) && forallb (fun k => bool_decide (k ∈ known)) added in
      let! self := on_world (GroupSessions.isSelfConversation (e_session e)) in
      do! (if self || negb addedAllOwn then publishIdentityFor (e_session e) else ret tt) in
      do! publishBuddiesFor (e_session e) in
      do! publishGroupsFor (e_session e) in
      spawn (AwaitReseal sealed k)
  | _, _ => spawn (AwaitReseal (Some true) k)
  end.

(** ** Receiving *)

(** A promise chain gets a link; a conversation without a chain gets a new one. *)
Definition enqueueApply (conversationId : string) (a : apply) : M St unit := fun c =>
  match JsMap.lookup conversationId (applyChains c) with
  | Some n => (Ok tt, set_chains (alter (fun k => MkChain (c_links k ++ [a]) (c_running k)) n (chains c)) c)
  | None =>
      (Ok tt, set_applyChains (JsMap.set conversationId (length (chains c)) (applyChains c))
                (set_chains (chains c ++ [MkChain [a] false]) c))
  end.

(** The identity key a control payload claims; the empty string when it claims none. *)
Definition claimed_key (payload : bytes) : string :=
  match d_parseJson (H := H) payload with
  | Some v => match prop v "k" with Some (JStr s) => s | _ => "" end
  | None => ""
  end.

Definition identity_type (controlType : Z) : bool :=
  (controlType =? Frame.CONTROL_BUDDY_ICON) || (controlType =? Frame.CONTROL_PROFILE)
  || (controlType =? Frame.CONTROL_AWAY).

(** [f?.(...)] of an optional callback. *)
Definition optional_call (present : bool) (e : effect) : M St unit :=
  if present then emit e else ret tt.

Definition onControlFrame (conversationId : string) (controlType : Z) (payload : bytes)
    (fromOwnAccount : bool) : M St unit :=
  let! e := entry_of conversationId in
  match e with
  | None => ret tt
  | Some e =>
      if controlType =? Frame.CONTROL_FILE then
        optional_call (has_fileSignal cfg) (CallFileSignal conversationId payload)
      else if controlType =? Frame.CONTROL_CALL then
        optional_call (has_callSignal cfg) (CallCallSignal conversationId payload)
      else if controlType =? Frame.CONTROL_BUDDIES then
        optional_call (fromOwnAccount && has_buddies cfg) (CallBuddies payload)
      else if controlType =? Frame.CONTROL_GROUPS then
        optional_call (fromOwnAccount && has_groups cfg) (CallGroups payload)
      else if fromOwnAccount then optional_call (has_sibling cfg) (CallSibling controlType payload)
      else if negb (identity_type controlType) || negb (has_persistPeer cfg) then ret tt else
        let key := claimed_key payload in
        let! me := gets bootstrapKey in
        if bool_decide (key = "") || bool_decide (key = me) then ret tt else
        let! members := on_world (GroupSessions.roster (e_session e)) in
        if bool_decide (key ∈ members)
        then emit (CallPersistPeer conversationId key controlType payload) else ret tt
  end.

Definition maybeAwayReply (conversationId : string) : M St unit :=
  let! e := entry_of conversationId in
  match e with
  | Some e =>
      if has_awayReply cfg then
        let! peer := peerLabel (e_session e) in
        do! emit (CallAwayReply conversationId peer) in
        spawn (AwaitAwayText conversationId)
      else ret tt
  | None => ret tt
  end.

Definition away_text (conversationId : string) (text : option string) : M St unit :=
  let! e := entry_of conversationId in
  let! t := gets transport in
  match text, e, t with
  | Some text, Some _, Some _ =>
      let! j := on_world (d_floorRandom (H := H) 4500) in
      do! schedule (500 + j) (TmAwayReply conversationId text) in ret tt
  | _, _, _ => ret tt
  end.

Definition awayReply_fires (conversationId text : string) : M St unit :=
  let! e := entry_of conversationId in
  let! t := gets transport in
  match e, t with
  | Some e, Some t =>
      let lifetime := Duration 86400 in
      let! env := on_world (GroupSessions.send (e_session e) (text_encode text) lifetime None) in
      do! publish t env in
      do! emit (CallPersistMessage
        (MkMeta (bytesToHex (env_messageId env)) conversationId DirOut lifetime None) (text_encode text)) in
      spawn (AwaitReplyStored conversationId)
  | _, _ => ret tt
  end.

(** The closure [adopt] of [onWelcome]. *)
Definition adopt (t : nat) (messageId : bytes) (conversationId : string) (s : GroupSession H) : M St unit :=
  do! hold t conversationId s in
  do! ack t messageId in
  do! persist conversationId s in
  do! resealSelf RNothing in
  do! publishIdentityFor s in
  do! push (EvConnection "secure") in
  push (EvEstablished conversationId).

Definition onWelcome (env : EnvelopeMsg) : M St unit :=
  let! h := gets chconv in
  let! t := gets transport in
  match h, t with
  | Some h, Some t =>
      do! modify (fun c => set_welcomesSeen (welcomesSeen c + 1) c) in
      let! joined := try_catch
        (let! s := on_world (GroupSessions.join h (env_payload env)) in ret (inl s))
        (fun e => ret (inr e)) in
      match joined with
      | inr e =>
          let detail := errMsg e in
          do! modify (set_lastWelcomeError detail) in
          do! (if isPermanentWelcomeFailure detail then ack t (env_messageId env) else ret tt) in
          push (EvError (-1) ("welcome: " +:+ detail))
      | inl s =>
          do! modify (fun c => set_welcomesJoined (welcomesJoined c + 1) (set_lastWelcomeError "" c)) in
          let cid := convId (groupId s) in
          let! held := entry_of cid in
          match held with
          | Some _ => ack t (env_messageId env)
          | None =>
              let! members := on_world (GroupSessions.roster s) in
              let! me := gets bootstrapKey in
              let peers := filter (fun k => k <> me) members in
              let! self := on_world (GroupSessions.isSelfConversation s) in
              if self then
                do! hold t cid s in
                do! ack t (env_messageId env) in
                do! resealSelf RNothing in
                do! publishIdentityFor s in
                do! publishBuddiesFor s in
                do! publishGroupsFor s in
                push (EvConnection "secure")
              else if negb (has_blocked cfg) || bool_decide (peers = []) then
                adopt t (env_messageId env) cid s
              else
                do! emit (CallBlockedRoster peers) in
                spawn (AwaitBlocked t (env_messageId env) cid s)
          end
      end
  | _, _ => ret tt
  end.

Definition onGroupMessage (env : EnvelopeMsg) : M St unit :=
  let! h := gets chconv in
  let! t := gets transport in
  match h, t with
  | Some h, Some t =>
      let! routed := try_catch
        (let! r := on_world (GroupSessions.receiveGroup text_decode h (env_payload env)) in ret (inl r))
        (fun e => ret (inr e)) in
      match routed with
      | inr e =>
          let detail := errMsg e in
          do! (if startsWith detail POISON_DROP_PREFIX then ack t (env_messageId env) else ret tt) in
          if startsWith detail OWN_ECHO_DROP_PREFIX then ret tt else push (EvError (-1) detail)
      | inl (gid, received) =>
          let cid := convId gid in
          let! held := entry_of cid in
          match held with
          | None => ack t (env_messageId env)
          | Some _ =>
              do! retireWelcomes cid in
              match received with
              | GMembership added removed =>
                  do! clear_pending cid in
                  onMembershipAdvanced cid added removed (RAck t (env_messageId env))
              | GEvicted =>
                  do! leaveConversation cid in
                  do! optional_call (has_deleteChannel cfg) (CallDeleteChannel cid) in
                  do! resealSelf (RAck t (env_messageId env)) in
                  let! me := gets bootstrapKey in
                  push (EvRosterChanged cid [] [me])
              | GProposal | GIgnored => ack t (env_messageId env)
              | GControl controlType _ payload own =>
                  do! onControlFrame cid controlType payload own in
                  ack t (env_messageId env)
              | GRevoke target own =>
                  if has_revoke cfg
                  then enqueueApply cid (ApplyRevoke t (env_messageId env) cid target own)
                  else ack t (env_messageId env)
              | GMessage plaintext lifetime own =>
                  do! enqueueApply cid (ApplyMessage t (env_messageId env)
                    (MkMeta (bytesToHex (env_messageId env)) cid DirIn lifetime (Some own)) plaintext) in
                  maybeAwayReply cid
              end
          end
      end
  | _, _ => ret tt
  end.

Definition onDeliver (env : EnvelopeMsg) : M St unit :=
  let! me := gets bootstrapKey in
  if bool_decide (env_routingKey env = me) then onWelcome env else onGroupMessage env.

(** ** Promise chains *)
Definition start_apply (a : apply) : effect :=
  match a with
  | ApplyMessage _ _ meta plaintext => CallPersistMessage meta plaintext
  | ApplyRevoke _ _ conversationId target own => CallRevoke conversationId target own
  end.

(** The first link of a chain is started. *)
Definition startApply (n : nat) : M St unit :=
  let! k := gets (fun c => chains c !! n) in
  match k with
  | Some (MkChain (a :: l) false) =>
      do! modify (fun c => set_chains (<[n := MkChain (a :: l) true]> (chains c)) c) in
      emit (start_apply a)
  | _ => ret tt
  end.

Definition applied (a : apply) (r : settlement H) : M St unit :=
  match a, r with
  | _, SRejected e => push (EvError (-1) (errMsg e))
  | ApplyMessage t messageId meta _, _ =>
      try_catch
        (do! ack t messageId in
         do! push (EvInboundMessage (mt_conversationId meta)) in
         scheduleRatchetFlush (mt_conversationId meta))
        (fun e => push (EvError (-1) (errMsg e)))
  | ApplyRevoke t messageId _ _ _, _ =>
      try_catch (ack t messageId) (fun e => push (EvError (-1) (errMsg e)))
  end.

(** The started link settles; its continuation runs and the chain can go on. *)
Definition settleApply (n : nat) (r : settlement H) : M St unit :=
  let! k := gets (fun c => chains c !! n) in
  match k with
  | Some (MkChain (a :: l) true) =>
      do! modify (fun c => set_chains (<[n := MkChain l false]> (chains c)) c) in
      applied a r
  | _ => ret tt
  end.

(** ** Connecting *)

(** A new generation: nothing of the previous connection is waited for any more. *)
Definition supersede : M St nat :=
  let! gen := gets (fun c => S (connectGen c)) in
  do! modify (set_connectGen gen) in
  do! fail_receipts (JsError "connection replaced before the gateway confirmed the publish") in
  let! ops := gets pendingOps in
  do! for_each ops.*2 (fun op => cancel (op_handle op)) in
  do! modify (set_pendingOps []) in
  ret gen.

(** From [this.conv = conv] to the next await. *)
Definition superseding (url : string) (h : H) : M St unit :=
  let! gen := supersede in
  do! modify (set_failoverScheduled []) in
  let! old := gets transport in
  let! pending := match old with Some t => on_world (d_takePending (H := H) t) | None => ret [] end in
  do! match old with
      | Some t => try_catch (on_world (d_close (H := H) t)) (fun _ => ret tt)
      | None => ret tt
      end in
  spawn (AwaitClosed url h gen pending).

Definition identified (url : string) (h : H) (restored : bool) : M St unit :=
  do! modify (set_chconv (Some h)) in
  let! key := on_world (g_signaturePublicKeyHex h) in
  do! modify (set_bootstrapKey key) in
  if negb restored && has_persistence cfg then spawn (AwaitSaveSelf url h) else superseding url h.

Definition identify (url : string) (restored : option H) (seedHex : string) : M St unit :=
  match restored with
  | Some h => identified url h true
  | None => let! h := on_world (d_makeConversation "me" seedHex) in identified url h false
  end.

Definition connectGateway (url : string) : M St unit :=
  if has_persistence cfg then spawn (AwaitLoadSelf url) else identify url None "".

(** The restored conversations; true when a closed one was closed again. *)
Fixpoint restore_loop (h : H) (t : nat) (closed : list string) (gids : list string) (reclosed : bool)
  : M St bool :=
  match gids with
  | [] => ret reclosed
  | gid :: gids =>
      let! shut := if bool_decide (convId gid ∈ closed)
        then let! self := on_world (g_isSelfConversation h gid) in ret (negb self) else ret false in
      if shut then
        let! done := on_world (try_catch
          (do! match g_closeConversation with Some f => f h gid | None => ret tt end in ret true)
          (fun _ => ret false)) in
        restore_loop h t closed gids (reclosed || done)
      else
        do! hold t (convId gid) (MkGroupSession h gid) in
        restore_loop h t closed gids reclosed
  end.

(** A staged commit that survived the reload is published again and waits again. *)
Definition rearm (gen t : nat) (conversationId : string) (e : SessionEntry H) : M St unit :=
  let s := e_session e in
  let! kind := on_world (GroupSessions.pendingKind s) in
  match kind with
  | None => ret tt
  | Some kind =>
      let! target := on_world (GroupSessions.pendingTarget s) in
      let! commit := on_world (GroupSessions.pendingCommit s) in
      do! (if bool_decide (commit = []) then ret tt else post t (e_groupMailbox e) commit SEVEN_DAYS) in
      do! match kind with
          | PendingAdd =>
              if bool_decide (target = "") then ret tt else
              let! welcome := on_world (GroupSessions.pendingWelcome s) in
              if bool_decide (welcome = []) then ret tt else post t target welcome SEVEN_DAYS
          | PendingRemove => ret tt
          end in
      arm_backstop RESTORE_CONFIRM_MS conversationId gen s kind None
  end.

(** The synchronous span after the closed set is loaded. *)
Definition connected (url : string) (h : H) (gen : nat) (pending : list EnvelopeMsg)
    (closed : list string) : M St unit :=
  do! on_world (d_connect (H := H) url gen) in
  do! modify (set_transport (Some gen)) in
  let! me := gets bootstrapKey in
  do! subscribe gen me in
  do! modify (set_sessions []) in
  let! gids := on_world (g_listConversations h) in
  let! reclosed := restore_loop h gen closed gids false in
  do! (if reclosed then resealSelf RNothing else ret tt) in
  do! for_each pending (publish gen) in
  let! l := gets sessions in
  do! for_each l (fun x => rearm gen gen x.1 x.2) in
  do! replayWelcomeOutbox in
  do! push (EvConnection (if bool_decide (l = []) then "live" else "secure")) in
  do! resyncSelfGroup in
  resolve PConnect.

(** ** Account keys *)
Definition recoverWithSeed (recoverySeedHex : string) (certEpoch : Z) : M St unit :=
  let! h := requireConv in
  do! on_world (g_recoverWithSeed h recoverySeedHex certEpoch) in
  resealSelf (RResolve PRecover).

Definition revokeDeviceKey (key : string) (issuedSeq : Z) : M St unit :=
  let! h := requireConv in
  match g_revokeDevice with
  | None => ret tt
  | Some f =>
      let! account := on_world (g_accountKeyHex h) in
      if bool_decide (account = "") then ret tt else
      let! record := on_world (f h key issuedSeq) in
      resealSelf (RResolve (PRevokeKey record))
  end.

Fixpoint ingest_loop (f : string -> M W bool) (records : list string) (added : Z) : M W Z :=
  match records with
  | [] => ret added
  | r :: records =>
      let! fresh := try_catch (f r) (fun _ => ret false) in
      ingest_loop f records (if (fresh : bool) then added + 1 else added)
  end.
Definition ingestRevocations (records : list string) : M St unit :=
  let! h := gets chconv in
  match h, g_ingestRevocation, records with
  | Some h, Some f, _ :: _ =>
      let! added := on_world (ingest_loop (f h) records 0) in
      if 0 <? added then resealSelf (RResolve (PIngest added)) else resolve (PIngest added)
  | _, _, _ => resolve (PIngest 0)
  end.

Definition revocationState : M St (Z * Z) :=
  let! h := gets chconv in
  match h with
  | None => ret (0, 0)
  | Some h =>
      let! n := on_world (match g_revokedCount with Some f => f h | None => ret 0 end) in
      let! floor := on_world (match g_accountFloor with Some f => f h | None => ret 0 end) in
      ret (n, floor)
  end.

Definition isDeviceRevoked (key : string) : M St bool :=
  let! h := gets chconv in
  match h, g_isDeviceRevoked with
  | Some h, Some f => on_world (f h key)
  | _, _ => ret false
  end.

Definition syncEpoch (certEpoch : Z) : M St unit :=
  do! modify (fun c => set_lastAccountEpoch (Z.max (lastAccountEpoch c) certEpoch) c) in
  let! h := gets chconv in
  match h with
  | None => resolve (PSyncEpoch false false)
  | Some h =>
      let! recertify := needs_recertification h in
      let! enough := if recertify then ret false
                     else let! e := on_world (g_certEpoch h) in ret (certEpoch <=? e) in
      if enough then resolve (PSyncEpoch true false) else
      let! key := on_world (g_accountKeyHex h) in
      if bool_decide (key = "") then resolve (PSyncEpoch false true) else
      do! on_world (g_reauthorizeAtEpoch h certEpoch) in
      resealSelf (RResolve (PSyncEpoch true false))
  end.

Definition certEpoch : M St (option Z) :=
  let! h := gets chconv in
  match h with Some h => let! e := on_world (g_certEpoch h) in ret (Some e) | None => ret None end.

Fixpoint mint (h : H) (n : nat) : M W (list bytes) :=
  match n with
  | O => ret []
  | S n => let! k := g_keyPackage h in let! rest := mint h n in ret (k :: rest)
  end.
Definition freshKeyPackages (n : nat) : M St unit :=
  let! h := requireConv in
  let! recertify := needs_recertification h in
  do! (if recertify then let! e := on_world (g_certEpoch h) in on_world (g_reauthorizeAtEpoch h e)
       else ret tt) in
  let! oneTime := on_world (mint h (n - 1)) in
  let! out := match n with
    | O => ret oneTime
    | S _ =>
        let! last := on_world (match g_keyPackageLastResort with Some f => f h | None => g_keyPackage h end) in
        ret (oneTime ++ [last])
    end in
  resealSelf (RKeyPackages out).

(** ** Settled promises and timers *)

(** What an operation throws rejects the promise it returned. *)
Definition rejecting (p : promise) (m : M St unit) : M St unit :=
  try_catch m (fun e => emit (RejectedWith p e)).
(** A promise nobody waits for. *)
Definition unwatched (m : M St unit) : M St unit := try_catch m (fun _ => ret tt).

Definition resealed (ok : bool) (k : after_reseal H) : M St unit :=
  match k with
  | RNothing => ret tt
  | RResolve p => resolve p
  | RAck t messageId => unwatched (ack t messageId)
  | RSelfOpened cid => do! push (EvConnection "secure") in resolve (POpenSelf cid)
  | RRecertified h t targets => rejecting PCreateSelf (found h t targets)
  | RFounded s => rejecting PCreateSelf (founded s)
  | RStarted cid s => unwatched (started cid s)
  | RStagedAdd cid s mailbox gen t target commit welcome =>
      unwatched (staged_add cid s mailbox gen t target commit welcome)
  | RStagedRemove cid s mailbox gen t commit => unwatched (staged_remove cid s mailbox gen t commit)
  | RKeyPackages out =>
      if ok then resolve (PKeyPackages out)
      else emit (RejectedWith (PKeyPackages [])
             (JsError "cannot mint key packages: this device could not seal its private keys"))
  end.

Definition resume (k : task H) (r : settlement H) : M St unit :=
  match k, r with
  | AwaitIdentity s, SFrames frames => identity_loaded s frames
  | AwaitBuddies s, SFrame frame => frame_loaded Frame.CONTROL_BUDDIES s frame
  | AwaitGroups s, SFrame frame => frame_loaded Frame.CONTROL_GROUPS s frame
  | AwaitReseal _ k, SBool ok => resealed ok k
  | AwaitStartPersisted cid s, _ => resealSelf (RStarted cid s)
  | AwaitSent i, SVoid => resolve (PSend i)
  | AwaitSent i, SRejected e => emit (RejectedWith (PSend i) e)
  | AwaitAwayText cid, SText text => unwatched (away_text cid text)
  | AwaitReplyStored cid, SVoid => push (EvOutboundAppended cid)
  | AwaitBlocked t i cid s, SBool blocked =>
      unwatched (try_catch (if blocked then ack t i else adopt t i cid s) (fun _ => adopt t i cid s))
  | AwaitBlocked t i cid s, SRejected _ => unwatched (adopt t i cid s)
  | AwaitRemember _ loop, _ =>
      do! match r with SOutbox l => set_outbox l | SRejected _ => set_outbox [] | _ => ret tt end in
      do! match f_rest loop with
          | d :: _ => remember (f_conversationId loop) (deviceKey d) (f_welcome loop)
          | [] => ret tt
          end in
      spawn (AwaitRemembered loop)
  | AwaitRemembered loop, _ => rejecting PCreateSelf (founding_step (next_founder loop))
  | AwaitReplay _, _ =>
      do! match r with SOutbox l => set_outbox l | SRejected _ => set_outbox [] | _ => ret tt end in
      unwatched replay
  | AwaitExclude key rest, _ => rejecting PExclude (exclude_loop key rest)
  | AwaitLoadSelf url, SConv restored => spawn (AwaitSeed url restored)
  | AwaitSeed url restored, SSeed seedHex => rejecting PConnect (identify url restored seedHex)
  | AwaitSaveSelf url h, SVoid => rejecting PConnect (superseding url h)
  | AwaitClosed url h gen pending, SClosed closed => rejecting PConnect (connected url h gen pending closed)
  | (AwaitLoadSelf _ | AwaitSeed _ _ | AwaitSaveSelf _ _ | AwaitClosed _ _ _ _), SRejected e =>
      emit (RejectedWith PConnect e)
  | _, _ => ret tt
  end.

(** Whether a settlement is one the awaited promise can have. *)
Definition settles (k : task H) (r : settlement H) : bool :=
  match k, r with
  | AwaitIdentity _, (SFrames _ | SRejected _)
  | (AwaitBuddies _ | AwaitGroups _), (SFrame _ | SRejected _)
  | AwaitReseal None _, SBool _
  | AwaitStartPersisted _ _, SVoid
  | (AwaitSent _ | AwaitReplyStored _), (SVoid | SRejected _)
  | AwaitAwayText _, (SText _ | SRejected _)
  | AwaitBlocked _ _ _ _, (SBool _ | SRejected _)
  | (AwaitRemember true _ | AwaitReplay true), (SOutbox _ | SRejected _)
  | (AwaitRemember false _ | AwaitRemembered _ | AwaitReplay false | AwaitExclude _ _), SVoid
  | AwaitLoadSelf _, (SConv _ | SRejected _)
  | AwaitSeed _ _, (SSeed _ | SRejected _)
  | AwaitSaveSelf _ _, (SVoid | SRejected _)
  | AwaitClosed _ _ _ _, (SClosed _ | SRejected _) => true
  | AwaitReseal (Some b) _, SBool b' => Bool.eqb b b'
  | _, _ => false
  end.

Definition fires (k : timer H) : M St unit :=
  match k with
  | TmRatchetFlush => ratchetFlush_fires
  | TmBackstop cid gen s kind => backstop_fires cid gen s kind
  | TmAddFailover cid own candidates =>
      do! modify (fun c => set_failoverScheduled
                    (filter (fun i => i <> cid) (failoverScheduled c)) c) in
      reconcileOne cid own candidates true
  | TmRemovalFailover cid own revoked => reconcileRemovalOne cid own revoked true
  | TmAwayReply cid text => awayReply_fires cid text
  | TmReceipt i => settle_receipt i (Some (JsError "the gateway did not confirm the revoke"))
  end.

(** ** Steps *)

Inductive op :=
  | OConnect (url : string)
  | OPublishIdentity
  | OSyncBuddies
  | OSyncGroups
  | OOpenSelf
  | OCreateSelf (targets : list DeviceTarget)
  | OStart (targets : list DeviceTarget)
  | OSend (conversationId text : string) (lifetime : Lifetime)
  | ORevoke (conversationId target : string)
  | OFileSignal (conversationId : string) (payload : bytes)
  | OCallSignal (conversationId : string) (payload : bytes)
  | OAddDevice (conversationId : string) (target : DeviceTarget)
  | ORemoveDevice (conversationId key : string)
  | OExclude (key : string)
  | OReconcileSiblings (own : list string) (candidates : list DeviceTarget)
  | OReconcileSelf (own : list string) (candidates : list DeviceTarget)
  | OReconcileRemovals (own revoked : list string)
  | OLeave (conversationId : string)
  | OClose (conversationId : string)
  | OAbandon (conversationId : string) (recordedSelf : bool)
  | ORecover (seedHex : string) (epoch : Z)
  | ORevokeKey (key : string) (seq : Z)
  | OIngest (records : list string)
  | OSyncEpoch (epoch : Z)
  | OFreshKeys (n : nat)
  | ODeliver (gen : nat) (env : EnvelopeMsg)
  | OReceipt (gen : nat) (messageId : bytes)
  | OError (gen : nat) (code : Z) (detail : string)
  | OClosed (gen : nat)
  | OFire (k : nat)
  | OSettle (n : nat) (r : settlement H)
  | OStartApply (n : nat)
  | OSettleApply (n : nat) (r : settlement H).

(** An event of the socket of connection [gen]; superseded sockets are ignored. *)
Definition current (gen : nat) (m : M St unit) : M St unit :=
  let! now := gets connectGen in if bool_decide (gen = now) then m else ret tt.

Definition perform (o : op) : M St unit :=
  match o with
  | OConnect url => connectGateway url
  | OPublishIdentity => publishIdentityNow
  | OSyncBuddies => syncBuddies
  | OSyncGroups => syncGroups
  | OOpenSelf => openSelfConversation
  | OCreateSelf targets => createSelfGroup targets
  | OStart targets => startConversation targets
  | OSend cid text lifetime => sendMessage cid text lifetime
  | ORevoke cid target => revokeMessage cid target
  | OFileSignal cid payload => sendFileSignal cid payload
  | OCallSignal cid payload => sendCallSignal cid payload
  | OAddDevice cid target => addDevice cid target
  | ORemoveDevice cid key => removeDevice cid key
  | OExclude key => excludeEverywhere key
  | OReconcileSiblings own candidates => reconcileSiblings own candidates
  | OReconcileSelf own candidates => reconcileSelf own candidates
  | OReconcileRemovals own revoked => reconcileRemovals own revoked
  | OLeave cid => leaveConversation cid
  | OClose cid => closeConversation cid
  | OAbandon cid recorded => abandonDeadSelfGroup cid recorded
  | ORecover seed e => recoverWithSeed seed e
  | ORevokeKey key seq => revokeDeviceKey key seq
  | OIngest records => ingestRevocations records
  | OSyncEpoch e => syncEpoch e
  | OFreshKeys n => freshKeyPackages n
  | ODeliver gen env => current gen (onDeliver env)
  | OReceipt gen i => current gen (settle_receipt (bytesToHex i) None)
  | OError gen code detail => current gen (push (EvError code detail))
  | OClosed gen => current gen
      (do! fail_receipts (JsError "connection closed before the gateway confirmed the publish") in
       push (EvConnection "offline"))
  | OFire k =>
      let! tm := gets (fun c => JsMap.lookup k (timers c)) in
      match tm with Some (_, tm) => do! cancel k in fires tm | None => ret tt end
  | OSettle n r =>
      let! k := gets (fun c => tasks c !! n) in
      match k with
      | Some k =>
          if settles k r
          then do! modify (fun c => set_tasks (take n (tasks c) ++ drop (S n) (tasks c)) c) in resume k r
          else ret tt
      | None => ret tt
      end
  | OStartApply n => startApply n
  | OSettleApply n r => settleApply n r
  end.

(** A step; an uncaught throw keeps the writes made before it. *)
Definition exec (o : op) (c : St) : St := (perform o c).2.
Definition run (os : list op) (c : St) : St := foldl (fun c o => exec o c) c os.

Definition initial (w : W) : St :=
  MkChannel None 0 0 None "" [] [] false 0 0 "" [] None [] [] [] [] [] [] [] 0 [] [] w.
End group_channel.
End GroupChannel.
