(* ===== verification/ChannelLogic.v ===== *)
(** * Reasoning about runs of the group channel

    A predicate on the state is kept by every step of the channel when it is kept by the few
    primitives the operations are made of.  [Kept] lists the primitives; [exec_keeps_all] walks
    through all the operations once.  [SafeWasm] is the same for what the channel calls outside:
    a predicate on the world kept by every call, where encryption may keep it only for the frames
    the channel is allowed to send. *)

From S2P Require Import Prelude Session Vault Group Sas Json Channel GroupChannel.
Import GroupChannel.

(** A frame that carries the buddy list or the list of buddy groups. *)
Definition contact_frame (framed : bytes) : Prop :=
  framed !! 0%nat = Some Frame.FRAME_CONTROL /\
  (framed !! 1%nat = Some Frame.CONTROL_BUDDIES \/ framed !! 1%nat = Some Frame.CONTROL_GROUPS).

(** What may be encrypted for a group: a contact graph only for a group of our own devices. *)
Definition sendable (self : string -> bool) (gid : string) (padded : bytes) : Prop :=
  forall framed, Padding.unpadFromBucket padded = Ok framed -> contact_frame framed -> self gid = true.

Lemma unpad_pad_prefix d p f :
  Padding.padToBucket d = Ok p -> Padding.unpadFromBucket p = Ok f -> exists n, f = take n d.
Proof.
  intros Hp Hu. pose proof (Padding.length_padToBucket _ _ Hp) as HL.
  pose proof (Padding.pad_size_fits (length d)) as Hfit.
  rewrite Padding.padToBucket_layout in Hp. apply (inj Ok) in Hp. symmetry in Hp.
  unfold Padding.unpadFromBucket in Hu. rewrite decide_False in Hu by lia.
  rewrite (get_u32_be32 0 p _ _ Hp) in Hu.
  cbn [rbind] in Hu.
  destruct (_ <? _); [discriminate|]. injection Hu as <-.
  set (n := Z.to_nat (to_u32 (Z.of_nat (length d)))). exists n.
  assert (n <= length d)%nat as Hn.
  { unfold n, to_u32. pose proof (Z.mod_le (Z.of_nat (length d)) (2 ^ 32) ltac:(lia) ltac:(lia)). lia. }
  unfold u8_slice. rewrite Hp, (drop_app_length' (be32 _)) by done.
  replace (S (S (S (S n))) - 4)%nat with n by lia. by rewrite take_app_le.
Qed.

Lemma contact_take n d : contact_frame (take n d) -> contact_frame d.
Proof.
  intros [H0 H1]. split.
  - by apply lookup_take_Some in H0 as [? _].
  - destruct H1 as [H1|H1]; apply lookup_take_Some in H1 as [? _]; auto.
Qed.

Lemma sendable_framed self gid d p :
  Padding.padToBucket d = Ok p -> (contact_frame d -> self gid = true) -> sendable self gid p.
Proof.
  intros Hp Hd f Hu Hf. destruct (unpad_pad_prefix _ _ _ Hp Hu) as [n ->].
  apply Hd. by eapply contact_take.
Qed.

(** ** The world *)

(** [m] keeps a predicate on the world, whether it returns or throws. *)
Definition safe {W A} (P : W -> Prop) (m : M W A) : Prop := forall w, P w -> P (m w).2.

Section combinators.
Context {W : Type} (P : W -> Prop).

Lemma safe_ret {A} (a : A) : safe P (ret a).
Proof. by intros w. Qed.
Lemma safe_throw {A} e : safe P (throw (A := A) e).
Proof. by intros w. Qed.
Lemma safe_of_result {A} (r : result A) : safe P (of_result r).
Proof. by intros w. Qed.
Lemma safe_bind {A B} (m : M W A) (k : A -> M W B) :
  safe P m -> (forall a, safe P (k a)) -> safe P (bind m k).
Proof.
  intros Hm Hk w Hw. unfold bind. specialize (Hm w Hw). destruct (m w) as [[a|e] w']; [|done].
  by apply Hk.
Qed.
Lemma safe_try_catch {A} (m : M W A) (h : exn -> M W A) :
  safe P m -> (forall e, safe P (h e)) -> safe P (try_catch m h).
Proof.
  intros Hm Hh w Hw. unfold try_catch. specialize (Hm w Hw). destruct (m w) as [[a|e] w']; [done|].
  by apply Hh.
Qed.
Lemma safe_for_each {A} (l : list A) f : (forall a, a ∈ l -> safe P (f a)) -> safe P (for_each l f).
Proof.
  induction l as [|a l IH]; simpl; intros Hf; [apply safe_ret|].
  apply safe_bind; [apply Hf; left|]. intros _. apply IH. intros b Hb. apply Hf. by right.
Qed.
End combinators.

Create HintDb safe.
Create HintDb channel.
#[export] Hint Resolve safe_ret safe_throw safe_of_result : safe.

(** Every call the channel makes outside, encryption aside, keeps [P]. *)
Class QuietWasm {H W : Type} `{!GroupApi H W} `{!ChannelDeps H W} (P : W -> Prop) := {
  sw_isSelfConversation (h : H) gid : safe P (g_isSelfConversation h gid);
  sw_isSelfConversationStrict (h : H) gid f : g_isSelfConversationStrict = Some f -> safe P (f h gid);
  sw_credentialCertified (h : H) f : g_credentialCertified = Some f -> safe P (f h);
  sw_signature (h : H) : safe P (g_signaturePublicKeyHex h);
  sw_accountKeyHex (h : H) : safe P (g_accountKeyHex h);
  sw_keyPackage (h : H) : safe P (g_keyPackage h);
  sw_keyPackageLastResort (h : H) f : g_keyPackageLastResort = Some f -> safe P (f h);
  sw_createGroup (h : H) b : safe P (g_createGroup h b);
  sw_createSelfGroup (h : H) b f : g_createSelfGroup = Some f -> safe P (f h b);
  sw_keyPackageSelfEligible (h : H) b f : g_keyPackageSelfEligible = Some f -> safe P (f h b);
  sw_closeConversation (h : H) gid f : g_closeConversation = Some f -> safe P (f h gid);
  sw_flushReceiveRatchet (h : H) gid f : g_flushReceiveRatchet = Some f -> safe P (f h gid);
  sw_abandonDeadSelfGroup (h : H) gid b f : g_abandonDeadSelfGroup = Some f -> safe P (f h gid b);
  sw_createSelf (h : H) : safe P (g_createSelf h);
  sw_listConversations (h : H) : safe P (g_listConversations h);
  sw_addMember (h : H) gid k : safe P (g_addMember h gid k);
  sw_stageAdd (h : H) gid k : safe P (g_stageAdd h gid k);
  sw_abortAdd (h : H) gid : safe P (g_abortAdd h gid);
  sw_removeMember (h : H) gid k : safe P (g_removeMember h gid k);
  sw_stageRemove (h : H) gid k : safe P (g_stageRemove h gid k);
  sw_abortRemove (h : H) gid : safe P (g_abortRemove h gid);
  sw_pendingKind (h : H) gid : safe P (g_pendingKind h gid);
  sw_pendingTarget (h : H) gid : safe P (g_pendingTarget h gid);
  sw_pendingCommit (h : H) gid : safe P (g_pendingCommit h gid);
  sw_pendingWelcome (h : H) gid : safe P (g_pendingWelcome h gid);
  sw_joinFromWelcome (h : H) b : safe P (g_joinFromWelcome h b);
  sw_receive (h : H) b : safe P (g_receive h b);
  sw_roster (h : H) gid : safe P (g_roster h gid);
  sw_groupMailbox (h : H) gid : safe P (g_groupMailbox h gid);
  sw_recoverWithSeed (h : H) s e : safe P (g_recoverWithSeed h s e);
  sw_reauthorizeAtEpoch (h : H) e : safe P (g_reauthorizeAtEpoch h e);
  sw_certEpoch (h : H) : safe P (g_certEpoch h);
  sw_revokeDevice (h : H) k n f : g_revokeDevice = Some f -> safe P (f h k n);
  sw_ingestRevocation (h : H) r f : g_ingestRevocation = Some f -> safe P (f h r);
  sw_randomBytes n : safe P (g_randomBytes (H := H) n);
  sw_connect url gen : safe P (d_connect (H := H) url gen);
  sw_makeConversation l s : safe P (d_makeConversation (H := H) l s);
  sw_publish t env : safe P (d_publish (H := H) t env);
  sw_subscribe t key : safe P (d_subscribe (H := H) t key);
  sw_ack t i : safe P (d_ack (H := H) t i);
  sw_takePending t : safe P (d_takePending (H := H) t);
  sw_close t : safe P (d_close (H := H) t);
  sw_now : safe P (d_now (H := H));
  sw_floorRandom n : safe P (d_floorRandom (H := H) n)
}.

(** Encryption keeps it too, for the frames that may be sent, when [self] covers the groups that
    the wasm ever classifies as ours. *)
Class SafeWasm {H W : Type} `{!GroupApi H W} `{!ChannelDeps H W} (P : W -> Prop)
    (self : string -> bool) := {
  sw_quiet :: QuietWasm P;
  sw_encrypt h gid padded : sendable self gid padded -> safe P (g_encrypt h gid padded);
  sw_self h gid w w' : g_isSelfConversation h gid w = (Ok true, w') -> self gid = true
}.

#[export] Hint Resolve sw_quiet sw_isSelfConversation sw_isSelfConversationStrict sw_credentialCertified
  sw_signature sw_accountKeyHex sw_keyPackage sw_keyPackageLastResort sw_createGroup
  sw_createSelfGroup sw_keyPackageSelfEligible sw_closeConversation sw_flushReceiveRatchet
  sw_abandonDeadSelfGroup sw_createSelf sw_listConversations sw_addMember sw_stageAdd sw_abortAdd
  sw_removeMember sw_stageRemove sw_abortRemove sw_pendingKind sw_pendingTarget sw_pendingCommit
  sw_pendingWelcome sw_joinFromWelcome sw_receive sw_roster sw_groupMailbox sw_recoverWithSeed
  sw_reauthorizeAtEpoch sw_certEpoch sw_revokeDevice sw_ingestRevocation sw_randomBytes sw_connect
  sw_makeConversation sw_publish sw_subscribe sw_ack sw_takePending sw_close sw_now
  sw_floorRandom : safe.

(** One step of the walk through a program over the world. *)
Ltac safe_step :=
  match goal with
  | |- safe _ (bind _ _) => apply safe_bind; [|intros ?]
  | |- safe _ (try_catch _ _) => apply safe_try_catch; [|intros ?]
  | |- safe _ (for_each _ _) => apply safe_for_each; intros ? ?
  | |- safe _ (match ?x with _ => _ end) => destruct x eqn:?
  | |- safe _ (if ?x then _ else _) => destruct x eqn:?
  end.
Ltac safe_walk := repeat first [solve [eauto with safe] | safe_step].

Section wasm.
Context {H W : Type} `{!GroupApi H W} `{!ChannelDeps H W} (P : W -> Prop) (self : string -> bool).
Context `{!SafeWasm P self}.
Context (text_decode : bytes -> string).
Implicit Types (s : GroupSession H).

Lemma safe_bind_eq {A B} (m : M W A) (k : A -> M W B) :
  safe P m -> (forall a w w', m w = (Ok a, w') -> safe P (k a)) -> safe P (bind m k).
Proof.
  intros Hm Hk w Hw. unfold bind. specialize (Hm w Hw). destruct (m w) as [[a|e] w'] eqn:E; [|done].
  by eapply Hk.
Qed.

Lemma safe_envelope s f t :
  (forall d, f = Ok d -> contact_frame d -> self (groupId s) = true) ->
  safe P (GroupSessions.envelope s f t).
Proof.
  intros Hf. unfold GroupSessions.envelope.
  apply safe_bind; [eauto with safe|]. intros i.
  apply safe_bind; [eauto with safe|]. intros m.
  apply safe_bind_eq; [eauto with safe|]. intros d w w' [= Ed _].
  apply safe_bind_eq; [eauto with safe|]. intros p w1 w1' [= Ep _].
  apply safe_bind; [|eauto with safe].
  apply sw_encrypt. eapply sendable_framed; [done|]. by apply Hf.
Qed.

Lemma safe_send s p l t : safe P (GroupSessions.send s p l t).
Proof.
  unfold GroupSessions.send. rewrite Frame.frameMessage_layout.
  apply safe_bind_eq; [by intros w|]. intros d w w' [= <- _].
  apply safe_envelope. intros d' [= <-] [E _]. by destruct l.
Qed.

Lemma safe_sendRevoke s i t : safe P (GroupSessions.sendRevoke s i t).
Proof.
  apply safe_envelope. intros d E [E' _]. rewrite Frame.frameRevoke_layout in E. by injection E as <-.
Qed.

(** The two control types that carry the contact graph, as the frame stores them. *)
Definition contact_type (controlType : Z) : Prop :=
  controlType mod 256 = Frame.CONTROL_BUDDIES \/ controlType mod 256 = Frame.CONTROL_GROUPS.

Lemma safe_sendControl s ct v p t :
  (contact_type ct -> self (groupId s) = true) -> safe P (GroupSessions.sendControl s ct v p t).
Proof.
  intros Hs. apply safe_envelope. intros d E [_ Ec]. apply Hs.
  rewrite Frame.frameControl_layout in E. apply (inj Ok) in E. subst d. cbn in Ec.
  rewrite Frame.land_255 in Ec. unfold to_u8 in Ec. unfold contact_type. naive_solver.
Qed.

Lemma safe_two_parts msg b : safe P (GroupSessions.two_parts msg b).
Proof. unfold GroupSessions.two_parts. safe_walk. Qed.
Lemma safe_make h b : safe P (default g_createGroup g_createSelfGroup h b).
Proof. destruct g_createSelfGroup eqn:?; simpl; eauto with safe. Qed.
End wasm.

#[export] Hint Resolve safe_send safe_sendRevoke safe_two_parts safe_make : safe.
#[export] Hint Unfold GroupSessions.create GroupSessions.createSelf GroupSessions.createSelfGroup
  GroupSessions.join GroupSessions.mailbox GroupSessions.roster GroupSessions.isSelfConversation
  GroupSessions.optionally GroupSessions.isSelfConversationStrict GroupSessions.query
  GroupSessions.flushReceiveRatchet GroupSessions.addDevice GroupSessions.stageAddDevice
  GroupSessions.abortAdd GroupSessions.removeDevice GroupSessions.stageRemoveDevice
  GroupSessions.abortRemove GroupSessions.pendingKind GroupSessions.pendingTarget
  GroupSessions.pendingCommit GroupSessions.pendingWelcome GroupSessions.receiveGroup : channel.

(** ** The channel *)

Section channel.
Context {H W : Type} `{!GroupApi H W} `{!ChannelDeps H W}.
Context (text_decode : bytes -> string) (cfg : Config).

#[local] Abbreviation St := (Channel H W).
Implicit Types (c : St) (s : GroupSession H).

(** The fields a predicate on the state may look at. *)
Definition same c c' : Prop :=
  log c' = log c /\ tasks c' = tasks c /\ timers c' = timers c /\ handles c' = handles c /\
  pendingOps c' = pendingOps c /\ pendingReceipts c' = pendingReceipts c /\
  connectGen c' = connectGen c /\ world c' = world c.

(** The timers something waits for. *)
Definition is_waiter (k : timer H) : bool :=
  match k with TmBackstop _ _ _ _ | TmReceipt _ => true | _ => false end.

(** A task that will publish the contact graph does so for a group of our own devices, and only a
    receipt resolves a revoke. *)
Definition task_ok (self : string -> bool) (k : task H) : Prop :=
  match k with
  | AwaitBuddies s | AwaitGroups s => self (groupId s) = true
  | AwaitReseal _ (RResolve (PRevoke _)) => False
  | _ => True
  end.

(** [m] keeps [I], and the generation of the connection. *)
Definition keeps {A} (I : St -> Prop) (g : nat) (m : M St A) : Prop :=
  forall c, I c -> connectGen c = g -> I (m c).2 /\ connectGen (m c).2 = g.

(** The primitives; [gen_ok] says for which generation a backstop may be armed. *)
Class Kept (I : St -> Prop) (P : W -> Prop) (self : string -> bool) (gen_ok : nat -> nat -> Prop) := {
  kp_gen g : gen_ok g g;
  kp_same c c' : same c c' -> I c -> I c';
  kp_world {A} g (m : M W A) : safe P m -> keeps I g (on_world m);
  kp_emit g e : (forall i, e <> Resolved (PRevoke i)) -> keeps I g (emit e);
  kp_spawn g k : task_ok self k -> keeps I g (spawn k);
  kp_tasks c : I c -> Forall (task_ok self) (tasks c);
  kp_unspawn g n : keeps I g (modify (fun c => set_tasks (take n (tasks c) ++ drop (S n) (tasks c)) c));
  kp_schedule g d k : is_waiter k = false -> keeps I g (schedule d k);
  kp_arm g d cid gen s kind target : gen_ok gen g -> keeps I g (arm_backstop d cid gen s kind target);
  kp_clear g cid : keeps I g (clear_pending cid);
  kp_await_receipt g i : keeps I g (await_receipt i);
  kp_fail_receipt g i e : keeps I g (settle_receipt i (Some e));
  kp_supersede c : I c -> I (supersede c).2;
  kp_fire_other c k d tm : I c -> JsMap.lookup k (timers c) = Some (d, tm) ->
    is_waiter tm = false -> I (cancel k c).2;
  kp_fire_waiter c k d tm : I c -> JsMap.lookup k (timers c) = Some (d, tm) ->
    is_waiter tm = true -> I ((do! cancel k in fires cfg tm) c).2
}.

Section walk.
Context (I : St -> Prop) (P : W -> Prop) (self : string -> bool) (gen_ok : nat -> nat -> Prop).
Context `{!Kept I P self gen_ok} `{!SafeWasm P self}.
Context (g : nat).
#[local] Abbreviation keeps := (keeps I g).

Lemma keeps_ret {A} (a : A) : keeps (ret a).
Proof. by intros c. Qed.
Lemma keeps_throw {A} e : keeps (throw (A := A) e).
Proof. by intros c. Qed.
Lemma keeps_of_result {A} (r : result A) : keeps (of_result r).
Proof. by intros c. Qed.
Lemma keeps_gets {A} (f : St -> A) : keeps (gets f).
Proof. by intros c. Qed.
Lemma keeps_bind {A B} (m : M St A) (k : A -> M St B) :
  keeps m -> (forall a, keeps (k a)) -> keeps (bind m k).
Proof.
  intros Hm Hk c Hc Hg. unfold bind. specialize (Hm c Hc Hg).
  destruct (m c) as [[a|e] c'], Hm; [|done]. by apply Hk.
Qed.
Lemma keeps_bind_gen {B} (k : nat -> M St B) : keeps (k g) -> keeps (bind (gets connectGen) k).
Proof. intros Hk c Hc Hg. unfold bind, gets. rewrite Hg. by apply Hk. Qed.
Lemma keeps_try_catch {A} (m : M St A) h : keeps m -> (forall e, keeps (h e)) -> keeps (try_catch m h).
Proof.
  intros Hm Hh c Hc Hg. unfold try_catch. specialize (Hm c Hc Hg).
  destruct (m c) as [[a|e] c'], Hm; [done|]. by apply Hh.
Qed.
Lemma keeps_for_each {A} (l : list A) f : (forall a, keeps (f a)) -> keeps (for_each l f).
Proof.
  intros Hf. induction l as [|a l IH]; simpl; [apply keeps_ret|]. by apply keeps_bind.
Qed.
Lemma keeps_modify f : (forall c, same c (f c)) -> keeps (modify f).
Proof.
  intros Hf c Hc Hg. specialize (Hf c). split; simpl; [by eapply kp_same|].
  destruct Hf as (_ & _ & _ & _ & _ & _ & E & _). congruence.
Qed.
Lemma keeps_world {A} (m : M W A) : safe P m -> keeps (on_world m).
Proof. apply kp_world. Qed.
Lemma keeps_emit e : (forall i, e <> Resolved (PRevoke i)) -> keeps (emit e).
Proof. apply kp_emit. Qed.
Lemma keeps_spawn k : task_ok self k -> keeps (spawn k).
Proof. apply kp_spawn. Qed.
Lemma keeps_schedule d k : is_waiter k = false -> keeps (schedule d k).
Proof. apply kp_schedule. Qed.
End walk.
End channel.

Create HintDb keeps.
#[export] Hint Resolve keeps_ret keeps_throw keeps_of_result keeps_gets keeps_for_each
  kp_clear kp_await_receipt kp_fail_receipt : keeps.

(** One step of the walk through an operation. *)
Ltac keeps_step :=
  match goal with
  | |- keeps _ _ (bind (gets connectGen) _) => eapply keeps_bind_gen
  | |- keeps _ _ (bind _ _) => eapply keeps_bind; [|intros ?]
  | |- keeps _ _ (try_catch _ _) => eapply keeps_try_catch; [|intros ?]
  | |- keeps _ _ (for_each _ _) => eapply keeps_for_each; intros ?
  | |- keeps _ _ (modify _) => eapply keeps_modify; [eassumption | intros ?; by repeat split]
  | |- keeps _ _ (emit _) => eapply keeps_emit; [eassumption | intros ?; discriminate]
  | |- keeps _ _ (spawn _) => eapply keeps_spawn; [eassumption | exact Logic.I]
  | |- keeps _ _ (schedule _ _) => eapply keeps_schedule; [eassumption | reflexivity]
  | |- keeps _ _ (on_world _) => eapply keeps_world; [eassumption | autounfold with channel; safe_walk]
  | |- keeps _ _ (match ?x with _ => _ end) => destruct x eqn:?
  | |- keeps _ _ (if ?x then _ else _) => destruct x eqn:?
  end.
Ltac keeps_walk := repeat first [solve [eauto with keeps] | keeps_step].

Section operations.
Context {H W : Type} `{!GroupApi H W} `{!ChannelDeps H W}.
Context (text_decode : bytes -> string) (cfg : Config).
Context (I : Channel H W -> Prop) (P : W -> Prop) (self : string -> bool) (gen_ok : nat -> nat -> Prop).
Context `{!Kept cfg I P self gen_ok} `{!SafeWasm P self}.
Context (g : nat).
Implicit Types (c : Channel H W) (s : GroupSession H).
#[local] Abbreviation keeps := (keeps I g).

Lemma keeps_push e : keeps (push e).
Proof. unfold push. keeps_walk. Qed.
Lemma keeps_publish t env : keeps (publish t env).
Proof. unfold publish. keeps_walk. Qed.
Lemma keeps_subscribe t key : keeps (subscribe t key).
Proof. unfold subscribe. keeps_walk. Qed.
Lemma keeps_ack t i : keeps (ack t i).
Proof. unfold ack. keeps_walk. Qed.
#[local] Hint Resolve keeps_push keeps_publish keeps_subscribe keeps_ack : keeps.

Lemma keeps_resolve p : (forall i, p <> PRevoke i) -> keeps (resolve p).
Proof. intros Hp. eapply keeps_emit; [eassumption|]. intros i [= ->]. by eapply Hp. Qed.
#[local] Hint Extern 1 (keeps (resolve _)) => (apply keeps_resolve; discriminate) : keeps.

Lemma keeps_post t key p ttl : keeps (post t key p ttl).
Proof. unfold post. keeps_walk. Qed.
Lemma keeps_sendControl t s ct p :
  (contact_type ct -> self (groupId s) = true) -> keeps (sendControl t s ct p).
Proof.
  intros Hs. unfold sendControl. apply keeps_bind; [|intros ?; keeps_walk].
  eapply keeps_world; [eassumption|]. by apply (safe_sendControl P self).
Qed.
#[local] Hint Resolve keeps_post : keeps.

Lemma keeps_requireConv : keeps requireConv.
Proof. unfold requireConv. keeps_walk. Qed.
Lemma keeps_requireTransport : keeps requireTransport.
Proof. unfold requireTransport. keeps_walk. Qed.
Lemma keeps_entry_of cid : keeps (entry_of cid).
Proof. unfold entry_of. keeps_walk. Qed.
Lemma keeps_put_entry cid e : keeps (put_entry cid e).
Proof. unfold put_entry. keeps_walk. Qed.
#[local] Hint Resolve keeps_requireConv keeps_requireTransport keeps_entry_of keeps_put_entry : keeps.

Lemma keeps_begin_reseal : keeps (begin_reseal cfg).
Proof. unfold begin_reseal. keeps_walk. Qed.
#[local] Hint Resolve keeps_begin_reseal : keeps.
Lemma keeps_reseal_task fixed k : task_ok self (AwaitReseal None k) -> keeps (spawn (AwaitReseal fixed k)).
Proof. intros Hk. by eapply keeps_spawn; [eassumption|]. Qed.
#[local] Hint Resolve keeps_reseal_task : keeps.
#[local] Hint Extern 1 (task_ok _ _) => exact Logic.I : keeps.
Lemma keeps_resealSelf k : task_ok self (AwaitReseal None k) -> keeps (resealSelf cfg k).
Proof. intros Hk. unfold resealSelf. keeps_walk. Qed.
#[local] Hint Resolve keeps_resealSelf : keeps.

Lemma safe_rank_of s : safe P (rank_of s).
Proof. unfold rank_of. autounfold with channel. safe_walk. Qed.
#[local] Hint Resolve safe_rank_of : safe.
Lemma safe_best_loop (l : list (SessionEntry H)) b : safe P (best_loop l b).
Proof. revert b. induction l; intros b; simpl; safe_walk. Qed.
#[local] Hint Resolve safe_best_loop : safe.

Lemma keeps_selfSessionBest : keeps selfSessionBest.
Proof. unfold selfSessionBest. keeps_walk. Qed.
#[local] Hint Resolve keeps_selfSessionBest : keeps.
Lemma keeps_selfSession : keeps selfSession.
Proof. unfold selfSession. keeps_walk. Qed.
Lemma keeps_credentialCertified h d : keeps (credentialCertified h d).
Proof. unfold credentialCertified. keeps_walk. Qed.
#[local] Hint Resolve keeps_selfSession keeps_credentialCertified : keeps.
Lemma keeps_selfGroupSuffices : keeps selfGroupSuffices.
Proof. unfold selfGroupSuffices. keeps_walk. Qed.
Lemma keeps_selfGroupNeeds : keeps selfGroupNeedsCertifiedReplacement.
Proof. unfold selfGroupNeedsCertifiedReplacement. keeps_walk. Qed.
#[local] Hint Resolve keeps_selfGroupSuffices keeps_selfGroupNeeds : keeps.
Lemma keeps_hasSelfGroup : keeps hasSelfGroup.
Proof. unfold hasSelfGroup. keeps_walk. Qed.
Lemma keeps_selfConversationId : keeps selfConversationId.
Proof. unfold selfConversationId. keeps_walk. Qed.
#[local] Hint Resolve keeps_hasSelfGroup keeps_selfConversationId : keeps.

(** Publishing: the contact graph is loaded only after the wasm classified the group. *)
Lemma keeps_publishIdentityFor s : keeps (publishIdentityFor cfg s).
Proof. unfold publishIdentityFor. keeps_walk. Qed.

Lemma keeps_if_self s (m : M (Channel H W) unit) :
  (self (groupId s) = true -> keeps m) ->
  keeps (let! b := on_world (GroupSessions.isSelfConversation s) in if (b : bool) then m else ret tt).
Proof.
  intros Hm c Hc Hg.
  assert (keeps (on_world (GroupSessions.isSelfConversation s))) as Hw by keeps_walk.
  specialize (Hw c Hc Hg). unfold bind.
  destruct (on_world (GroupSessions.isSelfConversation s) c) as [[b|e] c'] eqn:E, Hw as [Hc' Hg']; [|done].
  destruct b; [|done]. apply Hm; [|done..].
  unfold on_world, zoom in E. destruct (GroupSessions.isSelfConversation s (world c)) eqn:Ew.
  injection E as -> _. by eapply sw_self.
Qed.

Lemma keeps_publishBuddiesFor s : keeps (publishBuddiesFor cfg s).
Proof.
  unfold publishBuddiesFor. apply keeps_bind; [keeps_walk|]. intros [t|]; [|keeps_walk].
  destruct (negb _); [keeps_walk|].
  apply keeps_if_self. intros Hs. apply keeps_bind; [keeps_walk|]. intros ?.
  by eapply keeps_spawn; [eassumption|].
Qed.
Lemma keeps_publishGroupsFor s : keeps (publishGroupsFor cfg s).
Proof.
  unfold publishGroupsFor. apply keeps_bind; [keeps_walk|]. intros [t|]; [|keeps_walk].
  destruct (negb _); [keeps_walk|].
  apply keeps_if_self. intros Hs. apply keeps_bind; [keeps_walk|]. intros ?.
  by eapply keeps_spawn; [eassumption|].
Qed.
#[local] Hint Resolve keeps_publishIdentityFor keeps_publishBuddiesFor keeps_publishGroupsFor : keeps.

Lemma keeps_publishIdentity : keeps (publishIdentity cfg).
Proof. unfold publishIdentity. keeps_walk. Qed.
Lemma keeps_syncBuddies : keeps (syncBuddies cfg).
Proof. unfold syncBuddies. keeps_walk. Qed.
Lemma keeps_syncGroups : keeps (syncGroups cfg).
Proof. unfold syncGroups. keeps_walk. Qed.
Lemma keeps_resyncSelfGroup : keeps (resyncSelfGroup cfg).
Proof. unfold resyncSelfGroup. keeps_walk. Qed.
#[local] Hint Resolve keeps_publishIdentity keeps_syncBuddies keeps_syncGroups keeps_resyncSelfGroup : keeps.

Lemma keeps_identity_loaded s frames :
  Forall (fun f => contact_type f.1 -> self (groupId s) = true) frames -> keeps (identity_loaded s frames).
Proof.
  intros Hf. unfold identity_loaded. apply keeps_bind; [keeps_walk|]. intros [t|]; [|keeps_walk].
  apply keeps_try_catch; [|intros ?; keeps_walk].
  induction Hf as [|f l Hf _ IH]; simpl; [keeps_walk|].
  apply keeps_bind; [|done]. by apply keeps_sendControl.
Qed.
Lemma keeps_frame_loaded ct s frame : self (groupId s) = true -> keeps (frame_loaded ct s frame).
Proof.
  intros Hs. unfold frame_loaded. keeps_walk. by apply keeps_sendControl. Qed.

Lemma keeps_signal t s ct p : ct = Frame.CONTROL_FILE \/ ct = Frame.CONTROL_CALL -> keeps (sendControl t s ct p).
Proof. intros Hct. apply keeps_sendControl. intros [E|E]; by destruct Hct as [-> | ->]. Qed.
#[local] Hint Resolve keeps_signal : keeps.
Lemma keeps_sendFileSignal cid p : keeps (sendFileSignal cid p).
Proof. unfold sendFileSignal. keeps_walk. Qed.
Lemma keeps_sendCallSignal cid p : keeps (sendCallSignal cid p).
Proof. unfold sendCallSignal. keeps_walk. Qed.
#[local] Hint Resolve keeps_sendFileSignal keeps_sendCallSignal : keeps.

Lemma keeps_peerLabel s : keeps (peerLabel s).
Proof. unfold peerLabel. keeps_walk. Qed.
#[local] Hint Resolve keeps_peerLabel : keeps.
Lemma keeps_persist cid s : keeps (persist cid s).
Proof. unfold persist. keeps_walk. Qed.
Lemma keeps_hold t cid s : keeps (hold t cid s).
Proof. unfold hold. keeps_walk. Qed.
Lemma keeps_leave cid : keeps (leaveConversation cid).
Proof. unfold leaveConversation. keeps_walk. Qed.
#[local] Hint Resolve keeps_persist keeps_hold keeps_leave : keeps.
Lemma keeps_close cid : keeps (closeConversation cfg cid).
Proof. unfold closeConversation. keeps_walk. Qed.
Lemma keeps_abandon cid b : keeps (abandonDeadSelfGroup cfg cid b).
Proof. unfold abandonDeadSelfGroup. keeps_walk. Qed.
#[local] Hint Resolve keeps_close keeps_abandon : keeps.

Lemma keeps_scheduleRatchetFlush cid : keeps (scheduleRatchetFlush cid).
Proof. unfold scheduleRatchetFlush. keeps_walk. Qed.
#[local] Hint Resolve keeps_scheduleRatchetFlush : keeps.
Lemma keeps_flush_all ids b : keeps (flush_all ids b).
Proof. revert b. induction ids; intros b; simpl; keeps_walk. Qed.
#[local] Hint Resolve keeps_flush_all : keeps.
Lemma keeps_ratchetFlush_fires : keeps (ratchetFlush_fires cfg).
Proof. unfold ratchetFlush_fires. keeps_walk. Qed.
#[local] Hint Resolve keeps_ratchetFlush_fires : keeps.

Lemma keeps_set_outbox l : keeps (set_outbox l).
Proof. unfold set_outbox. keeps_walk. Qed.
Lemma keeps_loadWelcomeOutbox : keeps (loadWelcomeOutbox cfg).
Proof. unfold loadWelcomeOutbox. keeps_walk. Qed.
Lemma keeps_saveOutbox : keeps (saveOutbox cfg).
Proof. unfold saveOutbox. keeps_walk. Qed.
#[local] Hint Resolve keeps_set_outbox keeps_loadWelcomeOutbox keeps_saveOutbox : keeps.
Lemma keeps_rememberWelcome loop : keeps (rememberWelcome cfg loop).
Proof. unfold rememberWelcome. keeps_walk. Qed.
Lemma keeps_remember cid key w : keeps (remember cfg cid key w).
Proof. unfold remember. keeps_walk. Qed.
Lemma keeps_retireWelcomes cid : keeps (retireWelcomes cfg cid).
Proof. unfold retireWelcomes. keeps_walk. Qed.
#[local] Hint Resolve keeps_rememberWelcome keeps_remember keeps_retireWelcomes : keeps.
Lemma keeps_replay_loop t cutoff settled l : keeps (replay_loop t cutoff settled l).
Proof. induction l; simpl; keeps_walk. Qed.
#[local] Hint Resolve keeps_replay_loop : keeps.
Lemma keeps_replay : keeps (replay cfg).
Proof. unfold replay. keeps_walk. Qed.
Lemma keeps_replayWelcomeOutbox : keeps (replayWelcomeOutbox cfg).
Proof. unfold replayWelcomeOutbox. keeps_walk. Qed.
#[local] Hint Resolve keeps_replay keeps_replayWelcomeOutbox : keeps.

(** Creating, sending, membership. *)
Lemma keeps_openSelfConversation : keeps (openSelfConversation cfg).
Proof. unfold openSelfConversation. keeps_walk. Qed.
Lemma keeps_founding_step loop : keeps (founding_step cfg loop).
Proof. unfold founding_step. keeps_walk. Qed.
Lemma safe_eligible h (l : list DeviceTarget) : safe P (eligible h l).
Proof. induction l; simpl; safe_walk. Qed.
#[local] Hint Resolve keeps_openSelfConversation keeps_founding_step : keeps.
#[local] Hint Resolve safe_eligible : safe.
Lemma keeps_found h t l : keeps (found cfg h t l).
Proof. unfold found. keeps_walk. Qed.
Lemma keeps_needs_recertification h : keeps (needs_recertification h).
Proof. unfold needs_recertification. keeps_walk. Qed.
#[local] Hint Resolve keeps_found keeps_needs_recertification : keeps.
Lemma keeps_createSelfGroup l : keeps (createSelfGroup cfg l).
Proof. unfold createSelfGroup. keeps_walk. Qed.
Lemma keeps_founded s : keeps (founded cfg s).
Proof. unfold founded. keeps_walk. Qed.
Lemma keeps_startConversation l : keeps (startConversation l).
Proof. unfold startConversation. keeps_walk. Qed.
Lemma keeps_started cid s : keeps (started cfg cid s).
Proof. unfold started. keeps_walk. Qed.
Lemma keeps_sendMessage cid text l : keeps (sendMessage cid text l).
Proof. unfold sendMessage. keeps_walk. Qed.
Lemma keeps_fail_receipts e : keeps (fail_receipts e).
Proof. unfold fail_receipts. keeps_walk. Qed.
Lemma keeps_revokeMessage cid t : keeps (revokeMessage cid t).
Proof. unfold revokeMessage. keeps_walk. Qed.
#[local] Hint Resolve keeps_createSelfGroup keeps_founded keeps_startConversation keeps_started
  keeps_sendMessage keeps_fail_receipts keeps_revokeMessage : keeps.

Lemma keeps_rotated t cid s a r : keeps (rotated cfg t cid s a r).
Proof. unfold rotated. keeps_walk. Qed.
#[local] Hint Resolve keeps_rotated : keeps.
Lemma keeps_addDevice cid d : keeps (addDevice cfg cid d).
Proof. unfold addDevice. keeps_walk. Qed.
Lemma keeps_removeDevice cid k : keeps (removeDevice cfg cid k).
Proof. unfold removeDevice. keeps_walk. Qed.
Lemma keeps_roster cid : keeps (roster cid).
Proof. unfold roster. keeps_walk. Qed.
#[local] Hint Resolve keeps_addDevice keeps_removeDevice keeps_roster : keeps.
Lemma keeps_exclude_loop k ids : keeps (exclude_loop cfg k ids).
Proof. induction ids; simpl; keeps_walk. Qed.
#[local] Hint Resolve keeps_exclude_loop : keeps.
Lemma keeps_excludeEverywhere k : keeps (excludeEverywhere cfg k).
Proof. unfold excludeEverywhere. keeps_walk. Qed.

Lemma keeps_stageAddSibling cid e t d : keeps (stageAddSibling cfg cid e t d).
Proof. unfold stageAddSibling. keeps_walk. Qed.
Lemma keeps_stageRemoveSibling cid e t k : keeps (stageRemoveSibling cfg cid e t k).
Proof. unfold stageRemoveSibling. keeps_walk. Qed.
#[local] Hint Resolve keeps_excludeEverywhere keeps_stageAddSibling keeps_stageRemoveSibling : keeps.

Lemma keeps_arm d cid gen s kind target :
  gen_ok gen g -> keeps (arm_backstop d cid gen s kind target).
Proof. by eapply kp_arm. Qed.

(** A staged commit is armed only when the connection is still the one it was staged on. *)
Lemma keeps_if_staged s gen commit (m : M (Channel H W) unit) :
  (gen = g -> keeps m) ->
  keeps (let! live := still_staged s gen commit in if negb live then ret tt else m).
Proof.
  intros Hm. destruct (decide (gen = g)) as [->|Hne].
  - specialize (Hm eq_refl). unfold still_staged. keeps_walk.
  - intros c Hc Hg. unfold still_staged, bind, gets. rewrite Hg, bool_decide_eq_false_2 by done. done.
Qed.
Lemma keeps_staged_add cid s m gen t d commit w : keeps (staged_add cid s m gen t d commit w).
Proof.
  apply keeps_if_staged. intros ->. keeps_walk. apply keeps_arm. by eapply kp_gen.
Qed.
Lemma keeps_staged_remove cid s m gen t commit : keeps (staged_remove cid s m gen t commit).
Proof.
  apply keeps_if_staged. intros ->. keeps_walk. apply keeps_arm. by eapply kp_gen.
Qed.
#[local] Hint Resolve keeps_staged_add keeps_staged_remove : keeps.

Lemma keeps_idle cid : keeps (idle cid).
Proof. unfold idle. keeps_walk. Qed.
Lemma keeps_jitter : keeps jitter.
Proof. unfold jitter. keeps_walk. Qed.
#[local] Hint Resolve keeps_idle keeps_jitter : keeps.
Lemma keeps_reconcileOne cid own l b : keeps (reconcileOne cfg cid own l b).
Proof. unfold reconcileOne. keeps_walk. Qed.
Lemma keeps_reconcileRemovalOne cid own l b : keeps (reconcileRemovalOne cfg cid own l b).
Proof. unfold reconcileRemovalOne. keeps_walk. Qed.
#[local] Hint Resolve keeps_reconcileOne keeps_reconcileRemovalOne : keeps.
Lemma keeps_reconcileSiblings own l : keeps (reconcileSiblings cfg own l).
Proof. unfold reconcileSiblings. keeps_walk. Qed.
Lemma keeps_reconcileSelf own l : keeps (reconcileSelf cfg own l).
Proof. unfold reconcileSelf. keeps_walk. Qed.
Lemma keeps_reconcileRemovals own l : keeps (reconcileRemovals cfg own l).
Proof. unfold reconcileRemovals. keeps_walk. Qed.
Lemma keeps_onMembershipAdvanced cid a r k :
  task_ok self (AwaitReseal None k) -> keeps (onMembershipAdvanced cfg cid a r k).
Proof. intros Hk. unfold onMembershipAdvanced. keeps_walk. Qed.
#[local] Hint Resolve keeps_reconcileSiblings keeps_reconcileSelf keeps_reconcileRemovals
  keeps_onMembershipAdvanced : keeps.

(** Receiving. *)
Lemma keeps_enqueueApply cid a : keeps (enqueueApply cid a).
Proof.
  intros c Hc Hg. unfold enqueueApply. destruct (JsMap.lookup _ _); simpl; (split; [|done]);
    (apply (kp_same cfg (I := I) c); [by repeat split | exact Hc]).
Qed.
Lemma keeps_optional_call b e : (forall i, e <> Resolved (PRevoke i)) -> keeps (optional_call b e).
Proof. intros He. unfold optional_call. destruct b; [by eapply keeps_emit|keeps_walk]. Qed.
#[local] Hint Resolve keeps_enqueueApply : keeps.
#[local] Hint Extern 1 (keeps (optional_call _ _)) => (apply keeps_optional_call; intros ?; discriminate) : keeps.
Lemma keeps_onControlFrame cid ct p b : keeps (onControlFrame cfg cid ct p b).
Proof. unfold onControlFrame. keeps_walk. Qed.
Lemma keeps_maybeAwayReply cid : keeps (maybeAwayReply cfg cid).
Proof. unfold maybeAwayReply. keeps_walk. Qed.
Lemma keeps_away_text cid text : keeps (away_text cid text).
Proof. unfold away_text. keeps_walk. Qed.
Lemma keeps_awayReply_fires cid text : keeps (awayReply_fires cid text).
Proof. unfold awayReply_fires. keeps_walk. Qed.
Lemma keeps_adopt t i cid s : keeps (adopt cfg t i cid s).
Proof. unfold adopt. keeps_walk. Qed.
#[local] Hint Resolve keeps_onControlFrame keeps_maybeAwayReply keeps_away_text keeps_awayReply_fires
  keeps_adopt : keeps.
Lemma keeps_onWelcome env : keeps (onWelcome cfg env).
Proof. unfold onWelcome. keeps_walk. Qed.
Lemma safe_receiveGroup h b : safe P (GroupSessions.receiveGroup (H := H) text_decode h b).
Proof. autounfold with channel. safe_walk. Qed.
#[local] Hint Resolve safe_receiveGroup : safe.
Lemma keeps_onGroupMessage env : keeps (onGroupMessage text_decode cfg env).
Proof. unfold onGroupMessage. keeps_walk. Qed.
#[local] Hint Resolve keeps_onWelcome keeps_onGroupMessage : keeps.
Lemma keeps_onDeliver env : keeps (onDeliver text_decode cfg env).
Proof. unfold onDeliver. keeps_walk. Qed.
Lemma keeps_startApply n : keeps (startApply n).
Proof.
  unfold startApply. keeps_walk. eapply keeps_emit; [eassumption|]. intros i.
  match goal with |- start_apply ?a <> _ => by destruct a end.
Qed.
Lemma keeps_applied a r : keeps (applied a r).
Proof. unfold applied. destruct a, r; keeps_walk. Qed.
#[local] Hint Resolve keeps_onDeliver keeps_startApply keeps_applied : keeps.
Lemma keeps_settleApply n r : keeps (settleApply n r).
Proof. unfold settleApply. keeps_walk. Qed.
#[local] Hint Resolve keeps_settleApply : keeps.

(** Connecting. *)
Lemma keeps_restore_loop h t closed gids b : keeps (restore_loop h t closed gids b).
Proof. revert b. induction gids; intros b; simpl; keeps_walk. Qed.
Lemma keeps_rearm gen t cid e : gen_ok gen g -> keeps (rearm gen t cid e).
Proof. intros Hg. unfold rearm. keeps_walk; by apply keeps_arm. Qed.
#[local] Hint Resolve keeps_restore_loop : keeps.
Lemma keeps_connected url h gen l closed : gen_ok gen g -> keeps (connected cfg url h gen l closed).
Proof. intros Hg. unfold connected. keeps_walk. by apply keeps_rearm. Qed.

Lemma keeps_recoverWithSeed seed e : keeps (recoverWithSeed cfg seed e).
Proof. unfold recoverWithSeed. keeps_walk. Qed.
Lemma keeps_revokeDeviceKey k n : keeps (revokeDeviceKey cfg k n).
Proof. unfold revokeDeviceKey. keeps_walk. Qed.
Lemma safe_ingest_loop f records n : (forall r, safe P (f r)) -> safe P (ingest_loop f records n).
Proof. intros Hf. revert n. induction records; intros n; simpl; safe_walk. Qed.
Lemma keeps_ingestRevocations l : keeps (ingestRevocations cfg l).
Proof.
  unfold ingestRevocations. keeps_walk.
  apply safe_ingest_loop. intros r. by eapply sw_ingestRevocation.
Qed.
Lemma keeps_syncEpoch e : keeps (syncEpoch cfg e).
Proof. unfold syncEpoch. keeps_walk. Qed.
Lemma safe_mint h n : safe P (mint (H := H) h n).
Proof. induction n; simpl; safe_walk. Qed.
#[local] Hint Resolve safe_mint : safe.
Lemma keeps_freshKeyPackages n : keeps (freshKeyPackages cfg n).
Proof. unfold freshKeyPackages. keeps_walk. Qed.
#[local] Hint Resolve keeps_recoverWithSeed keeps_revokeDeviceKey keeps_ingestRevocations keeps_syncEpoch
  keeps_freshKeyPackages : keeps.

(** What a settled promise runs. *)
Lemma keeps_unwatched (m : M (Channel H W) unit) : keeps m -> keeps (unwatched m).
Proof. intros Hm. unfold unwatched. keeps_walk. Qed.
Lemma keeps_rejecting p (m : M (Channel H W) unit) : keeps m -> keeps (rejecting p m).
Proof. intros Hm. unfold rejecting. keeps_walk. Qed.
#[local] Hint Resolve keeps_unwatched keeps_rejecting : keeps.
Lemma keeps_resealed ok k : task_ok self (AwaitReseal None k) -> keeps (resealed cfg ok k).
Proof.
  intros Hk. destruct k; simpl; try keeps_walk. apply keeps_resolve. intros i ->. done.
Qed.
#[local] Hint Resolve keeps_resealed : keeps.

(** The tasks whose continuation may supersede the connection. *)
Definition supersedes (k : task H) : bool :=
  match k with AwaitSeed _ _ | AwaitSaveSelf _ _ => true | _ => false end.

(** What a settlement must satisfy: the identity loader gives a contact graph only for our own
    devices, and a connection
    that was superseded while it loaded the closed set is the exception [gen_ok] may exclude. *)
Definition settlement_ok (now : nat) (k : task H) (r : settlement H) : Prop :=
  match k, r with
  | AwaitIdentity s, SFrames frames =>
      Forall (fun f => contact_type f.1 -> self (groupId s) = true) frames
  | AwaitClosed _ _ gen _, _ => gen_ok gen now
  | _, _ => True
  end.

Lemma keeps_resume k r :
  supersedes k = false -> task_ok self k -> settlement_ok g k r ->
  keeps (resume cfg k r).
Proof.
  intros Hs Hk Hr. destruct k, r; try discriminate Hs; simpl in *;
    try solve [keeps_walk | apply keeps_unwatched; keeps_walk | apply keeps_rejecting; keeps_walk].
  - by apply keeps_identity_loaded.
  - by apply keeps_frame_loaded.
  - by apply keeps_frame_loaded.
  - apply keeps_rejecting. by apply keeps_connected.
Qed.

Lemma keeps_fires k : is_waiter k = false -> keeps (fires cfg k).
Proof. intros Hk. destruct k; try discriminate Hk; simpl; keeps_walk. Qed.
#[local] Hint Resolve keeps_fires : keeps.

(** The operations that neither connect, fire a timer, settle a promise nor bring a receipt. *)
Definition ordinary (o : op (H := H)) : bool :=
  match o with OConnect _ | OFire _ | OSettle _ _ | OReceipt _ _ => false | _ => true end.
Lemma keeps_current gen (m : M (Channel H W) unit) : keeps m -> keeps (current gen m).
Proof. intros Hm. unfold current. keeps_walk. Qed.
Lemma keeps_ordinary o : ordinary o = true -> keeps (perform text_decode cfg o).
Proof.
  intros Ho. destruct o; try discriminate Ho; simpl; try solve [keeps_walk];
    apply keeps_current; keeps_walk.
Qed.
End operations.

(** ** Whole steps *)
Section steps.
Context {H W : Type} `{!GroupApi H W} `{!ChannelDeps H W}.
Context (text_decode : bytes -> string) (cfg : Config).
Context (I : Channel H W -> Prop) (P : W -> Prop) (self : string -> bool) (gen_ok : nat -> nat -> Prop).
Context `{!Kept cfg I P self gen_ok} `{!SafeWasm P self}.
Implicit Types (c : Channel H W).

(** [m] keeps [I]; it may supersede the connection. *)
Definition maintains {A} (m : M (Channel H W) A) : Prop := forall c, I c -> I (m c).2.

Lemma maintains_keeps {A} (m : M (Channel H W) A) : (forall g, keeps I g m) -> maintains m.
Proof. intros Hm c Hc. by apply (Hm (connectGen c) c). Qed.
Lemma maintains_then {A B} (m : M (Channel H W) A) (k : A -> M (Channel H W) B) :
  maintains m -> (forall a, maintains (k a)) -> maintains (bind m k).
Proof.
  intros Hm Hk c Hc. unfold bind. specialize (Hm c Hc). destruct (m c) as [[a|e] c']; [|done].
  by apply Hk.
Qed.
Lemma maintains_rejecting p m : maintains m -> maintains (rejecting (H := H) p m).
Proof.
  intros Hm c Hc. unfold rejecting, try_catch. specialize (Hm c Hc).
  destruct (m c) as [[a|e] c']; [done|].
  by apply (kp_emit cfg (I := I) (connectGen c') (RejectedWith p e)).
Qed.

Lemma maintains_superseding url (h : H) : maintains (superseding url h).
Proof.
  unfold superseding. apply maintains_then; [intros c Hc; by eapply kp_supersede|]. intros gen.
  apply maintains_keeps. intros g. keeps_walk.
Qed.
Lemma maintains_identified url (h : H) b : maintains (identified cfg url h b).
Proof.
  unfold identified.
  apply maintains_then; [apply maintains_keeps; intros g; keeps_walk|intros _].
  apply maintains_then; [apply maintains_keeps; intros g; keeps_walk|intros key].
  apply maintains_then; [apply maintains_keeps; intros g; keeps_walk|intros _].
  destruct (_ && _); [apply maintains_keeps; intros g; keeps_walk|apply maintains_superseding].
Qed.
Lemma maintains_identify url (r : option H) seed : maintains (identify cfg url r seed).
Proof.
  unfold identify. destruct r; [apply maintains_identified|].
  apply maintains_then; [apply maintains_keeps; intros g; keeps_walk|intros h].
  apply maintains_identified.
Qed.
Lemma maintains_connectGateway url : maintains (connectGateway (H := H) cfg url).
Proof.
  unfold connectGateway. destruct (has_persistence cfg); [|apply maintains_identify].
  apply maintains_keeps. intros g. keeps_walk.
Qed.

Lemma maintains_resume c k r :
  I c -> task_ok self k -> settlement_ok self gen_ok (connectGen c) k r -> I (resume cfg k r c).2.
Proof.
  intros Hc Hk Hr. destruct (supersedes k) eqn:Hs.
  - destruct k, r; try discriminate Hs; simpl; try done;
      try (by apply maintains_rejecting; [first [apply maintains_identify | apply maintains_superseding]|]);
      by apply (kp_emit cfg (I := I) (connectGen c) (RejectedWith _ _)).
  - by apply (keeps_resume text_decode cfg I P self gen_ok (connectGen c) k r).
Qed.

(** What a step must satisfy to be covered by [exec_keeps_all]. *)
Definition op_ok c (o : op (H := H)) : Prop :=
  match o with
  | OReceipt _ _ => False
  | OSettle n r => forall k, tasks c !! n = Some k -> settlement_ok self gen_ok (connectGen c) k r
  | _ => True
  end.

Theorem exec_keeps_all o c : op_ok c o -> I c -> I (exec text_decode cfg o c).
Proof.
  intros Ho Hc. destruct (ordinary o) eqn:Hord.
  { by apply (keeps_ordinary text_decode cfg I P self gen_ok (connectGen c) o). }
  destruct o; try discriminate Hord; try done; unfold exec; simpl.
  - by apply maintains_connectGateway.
  - unfold bind, gets. destruct (JsMap.lookup k (timers c)) as [[d tm]|] eqn:Ek; [|done].
    destruct (is_waiter tm) eqn:Eb.
    + by apply (kp_fire_waiter cfg c k d tm Hc Ek Eb).
    + pose proof (kp_fire_other cfg c k d tm Hc Ek Eb) as Hc'. simpl in Hc'.
      by apply (keeps_fires cfg I P self gen_ok (connectGen c) tm Eb _ Hc').
  - unfold bind, gets. destruct (tasks c !! n) as [k|] eqn:Ek; [|done].
    destruct (settles k r); [|done].
    pose proof (kp_tasks cfg c Hc) as Hk. rewrite Forall_lookup in Hk. specialize (Hk _ _ Ek).
    destruct (kp_unspawn cfg (connectGen c) n c Hc eq_refl) as [Hc' _].
    simpl in *. apply maintains_resume; [done..|]. by apply Ho.
Qed.
End steps.
