(* ===== verification/GroupChannelFacts.v ===== *)
(** * What the group channel guarantees over its runs

    The contact graph is encrypted only for groups of our own devices; a revoke is confirmed only by
    the gateway's receipt; nothing the channel waits for can wait for ever.  The runs are sequences of the steps of GroupChannel.v from the initial
    state; the walk over the operations is ChannelLogic.v. *)

From S2P Require Import Prelude Session Vault Group Sas Json Channel GroupChannel ChannelLogic.
Import GroupChannel.

(** ** A world to run the channel in

    The wasm keeps a roster per conversation: "5e" is the group of our own devices, anything else
    has a peer in it.  Encryption is the identity and is written down; a staged commit is
    remembered, and stands in the way of a removal. *)
Module ToyChannel.
Record TW := MkTW {
  tw_groups : list (string * list string);
  tw_encrypted : list (string * bytes);
  tw_pending : list (string * (Z * bytes));
  tw_fresh : Z
}.

Definition quiet {A} (a : A) : M TW A := ret a.
Definition fresh (n : nat) : M TW bytes := fun w =>
  (Ok (replicate n (tw_fresh w)), MkTW (tw_groups w) (tw_encrypted w) (tw_pending w) (tw_fresh w + 1)).
Definition tap (gid : string) (padded : bytes) : M TW bytes := fun w =>
  (Ok padded, MkTW (tw_groups w) (tw_encrypted w ++ [(gid, padded)]) (tw_pending w) (tw_fresh w)).
Definition set_pending (f : list (string * (Z * bytes)) -> list (string * (Z * bytes))) : M TW unit :=
  modify (fun w => MkTW (tw_groups w) (tw_encrypted w) (f (tw_pending w)) (tw_fresh w)).
Definition set_groups (f : list (string * list string) -> list (string * list string)) : M TW unit :=
  modify (fun w => MkTW (f (tw_groups w)) (tw_encrypted w) (tw_pending w) (tw_fresh w)).
Definition pending (gid : string) : M TW (option (Z * bytes)) :=
  gets (fun w => JsMap.lookup gid (tw_pending w)).
Definition toy_roster (gid : string) : M TW (list string) :=
  gets (fun w => default [] (JsMap.lookup gid (tw_groups w))).
Definition toy_remove (gid key : string) : M TW bytes :=
  let! p := pending gid in
  match p with
  | Some _ => throw (JsError "a commit is pending")
  | None => let! members := toy_roster gid in
            do! set_groups (JsMap.set gid (filter (fun k => k <> key) members)) in ret [4]
  end.

#[export] Instance toy_api : GroupApi unit TW := {
  g_signaturePublicKeyHex c := quiet "aa";
  g_accountKeyHex c := quiet "acc";
  g_keyPackage c := quiet [9];
  g_groupEpoch := None;
  g_keyPackageLastResort := None;
  g_createGroup c b := do! set_groups (JsMap.set "5e" ["aa"; "bb"]) in
                       ret [0; 0; 0; 2; 0; 0; 0; 1; 5; 0; 0; 0; 1; 94];
  g_createSelfGroup := None;
  g_keyPackageSelfEligible := None;
  g_closeConversation := None;
  g_channelUnlinked := None;
  g_peerAccountKeys := None;
  g_flushReceiveRatchet := None;
  g_createSelf c := do! set_groups (JsMap.set "5e" ["aa"]) in ret [94];
  g_listConversations c := gets (fun w => (tw_groups w).*1);
  g_addMember c g k := quiet [];
  g_stageAdd c g k := do! set_pending (JsMap.set g (1, [1])) in
                      ret [0; 0; 0; 2; 0; 0; 0; 1; 1; 0; 0; 0; 1; 2];
  g_confirmAdd c g := quiet tt;
  g_abortAdd c g := set_pending (JsMap.remove g);
  g_removeMember c g k := toy_remove g k;
  g_stageRemove c g k := do! set_pending (JsMap.set g (2, [3])) in ret [3];
  g_confirmRemove c g := quiet tt;
  g_abortRemove c g := set_pending (JsMap.remove g);
  g_pendingKind c g := let! p := pending g in ret (match p with Some p => p.1 | None => 0 end);
  g_pendingTarget c g := quiet "";
  g_pendingCommit c g := let! p := pending g in ret (match p with Some p => p.2 | None => [] end);
  g_pendingWelcome c g := quiet [];
  g_mailboxTag c k := quiet k;
  g_joinFromWelcome c b := do! set_groups (JsMap.set (bytesToHex b) ["aa"; "cc"]) in ret (bytesToHex b);
  g_encrypt c g b := tap g b;
  g_receive c b := quiet b;
  g_roster c g := toy_roster g;
  g_isSelfConversation c g := quiet (bool_decide (g = "5e"));
  g_isSelfConversationStrict := None;
  g_selfClassificationReason := None;
  g_abandonDeadSelfGroup := None;
  g_credentialCertified := None;
  g_groupMailbox c g := quiet ("mb-" +:+ g);
  g_authorizeDevice c d e n s := quiet "";
  g_adoptCertificate c a e s := quiet tt;
  g_authorizeScannedDevice c k e := quiet [];
  g_recoverWithSeed c s e := quiet tt;
  g_reauthorizeAtEpoch c e := quiet tt;
  g_certEpoch c := quiet 0;
  g_revokeDevice := None;
  g_ingestRevocation := None;
  g_revokedCount := None;
  g_isDeviceRevoked := None;
  g_accountFloor := None;
  g_wipe c := quiet tt;
  g_randomBytes n := fresh n
}.

#[export] Instance toy_deps : ChannelDeps unit TW := {
  d_connect url gen := quiet tt;
  d_makeConversation l s := quiet tt;
  d_publish t env := quiet tt;
  d_subscribe t key := quiet tt;
  d_ack t i := quiet tt;
  d_takePending t := quiet [];
  d_close t := quiet tt;
  d_now := quiet 1000;
  d_floorRandom n := quiet 0;
  d_contactIdentDigestHex := None;
  d_parseJson b := None;
  d_rangeMessage := "range"
}.

(** Every optional callback is present. *)
Definition all : Config :=
  MkConfig true true true true true true true true true true true true true true true.
Definition world0 : TW := MkTW [("5e", ["aa"; "bb"]); ("0f", ["aa"; "cc"])] [] [] 1.

(** A first connection: the awaits of the stored identity, the seed and the closed set. *)
Definition connecting (closed : list string) : list (op (H := unit)) :=
  [OConnect "ws"; OSettle 0 (SConv (Some tt)); OSettle 0 (SSeed ""); OSettle 0 (SClosed closed)].
End ToyChannel.
#[local] Existing Instances ToyChannel.toy_api ToyChannel.toy_deps.

(** ** The contact graph stays with our own devices *)

(** [encrypted] reads from the world every frame that was given to the wasm for encryption, with
    its group; [self] covers the groups the wasm ever classifies as ours. *)
Class Observed {H W : Type} `{!GroupApi H W} `{!ChannelDeps H W}
    (encrypted : W -> list (string * bytes)) (self : string -> bool) := {
  ob_quiet :: forall l, QuietWasm (H := H) (fun w => encrypted w = l);
  ob_encrypt (h : H) gid padded w :
    encrypted (g_encrypt h gid padded w).2 = encrypted w ++ [(gid, padded)];
  ob_self (h : H) gid w w' : g_isSelfConversation h gid w = (Ok true, w') -> self gid = true
}.

Section observed.
Context {H W : Type} `{!GroupApi H W} `{!ChannelDeps H W}.
Context (encrypted : W -> list (string * bytes)) (self : string -> bool).
Context `{!Observed (H := H) encrypted self}.

Lemma safe_level {A} (Q : list (string * bytes) -> Prop) (m : M W A) :
  (forall l, safe (fun w => encrypted w = l) m) -> safe (fun w => Q (encrypted w)) m.
Proof. intros Hm w Hw. by rewrite (Hm (encrypted w) w eq_refl). Qed.

#[export] Instance quiet_level (Q : list (string * bytes) -> Prop) :
  QuietWasm (H := H) (fun w => Q (encrypted w)).
Proof. constructor; intros; apply safe_level; intros L; pose proof (ob_quiet (H := H) L); eauto with safe. Qed.

(** Every frame that was encrypted was allowed to be. *)
Definition private (w : W) : Prop :=
  Forall (fun x => sendable self x.1 x.2) (encrypted w).

#[export] Instance private_safe : SafeWasm (H := H) private self.
Proof.
  split; [apply (quiet_level (Forall (fun x => sendable self x.1 x.2)))| |apply ob_self].
  intros h gid padded Hs w Hw. unfold private. rewrite (ob_encrypt h gid padded w).
  apply Forall_app. by split; [|constructor].
Qed.
End observed.

(** ** Runs *)
Section runs.
Context {H W : Type} `{!GroupApi H W} `{!ChannelDeps H W}.
Context (text_decode : bytes -> string) (cfg : Config).
Implicit Types (c : Channel H W).

(** A waiter that fails touches only the waiters, the timers and the log, where nothing is
    confirmed by it. *)
Definition receipts_only c c' : Prop :=
  world c' = world c /\ tasks c' = tasks c /\ connectGen c' = connectGen c /\
  pendingOps c' = pendingOps c /\
  forall i, Resolved (PRevoke i) ∈ log c' -> Resolved (PRevoke i) ∈ log c.

Lemma settle_receipt_only i e c : receipts_only c (settle_receipt i (Some e) c).2.
Proof.
  unfold settle_receipt, bind, gets. destruct (JsMap.lookup _ _); repeat split; try done.
  intros j. cbn [log set_log emit modify set_pendingReceipts set_timers cancel snd].
  rewrite elem_of_app, list_elem_of_singleton. naive_solver.
Qed.

Lemma for_each_only {A} (l : list A) (f : A -> M (Channel H W) unit) c :
  (forall a c, receipts_only c (f a c).2) -> receipts_only c (for_each l f c).2.
Proof.
  intros Hf. revert c. induction l as [|a l IH]; intros c; simpl; [by repeat split|].
  unfold bind. pose proof (Hf a c) as Ha. destruct (f a c) as [[[]|e] c']; [|done].
  destruct (IH c') as (E1 & E2 & E3 & E4 & E5), Ha as (F1 & F2 & F3 & F4 & F5). simpl in *.
  unfold receipts_only. rewrite E1, E2, E3, E4. naive_solver.
Qed.
Lemma fail_receipts_only e c : receipts_only c (fail_receipts e c).2.
Proof. unfold fail_receipts, bind, gets. apply for_each_only. intros. apply settle_receipt_only. Qed.

(** A loop whose bodies return returns. *)
Lemma for_each_returns {A S} (l : list A) (f : A -> M S unit) s :
  (forall a s, (f a s).1 = Ok tt) -> (for_each l f s).1 = Ok tt.
Proof.
  intros Hf. revert s. induction l as [|a l IH]; intros s; simpl; [done|].
  unfold bind. specialize (Hf a s). destruct (f a s) as [r s']. simpl in Hf. rewrite Hf. apply IH.
Qed.
Lemma fail_receipts_returns e c : (fail_receipts e c).1 = Ok tt.
Proof.
  unfold fail_receipts, bind, gets. apply for_each_returns. intros a s.
  unfold settle_receipt, bind, gets. by destruct (JsMap.lookup _ _).
Qed.

Lemma cancel_all_only (l : list PendingOp) c :
  receipts_only c (for_each l (fun op => cancel (op_handle op)) c).2.
Proof. apply for_each_only. by repeat split. Qed.

(** A predicate on the world, with the tasks that are waiting for a contact graph and the revokes
    that were confirmed. *)
Definition homely (P : W -> Prop) (self : string -> bool) (L : string -> Prop) c : Prop :=
  P (world c) /\ Forall (task_ok self) (tasks c) /\
  forall i, Resolved (PRevoke i) ∈ log c -> L i.

Lemma homely_only P self L c c' : receipts_only c c' -> homely P self L c -> homely P self L c'.
Proof.
  intros (Ew & Et & _ & _ & El) (Hw & Ht & Hl). split_and!; [congruence..|]. eauto.
Qed.

Lemma homely_supersede P self L c : homely P self L c -> homely P self L (supersede c).2.
Proof.
  intros Hc. unfold supersede, bind at 1 2, gets at 1, modify at 1.
  set (c1 := set_connectGen _ c).
  assert (homely P self L c1) as H1 by done.
  unfold bind at 1. pose proof (fail_receipts_returns
    (JsError "connection replaced before the gateway confirmed the publish") c1) as Hr.
  pose proof (fail_receipts_only
    (JsError "connection replaced before the gateway confirmed the publish") c1) as Ho.
  destruct (fail_receipts _ c1) as [r c2]. simpl in Hr, Ho. subst r.
  apply (homely_only _ _ _ _ _ Ho) in H1. unfold bind at 1, gets at 1.
  pose proof (cancel_all_only (pendingOps c2).*2 c2) as Ho'.
  unfold bind. destruct (for_each _ _ c2) as [[[]|e] c3]; by apply (homely_only _ _ _ _ _ Ho') in H1.
Qed.

(** The wasm is asked, and the log gets no confirmation: what [backstop_fires] is made of. *)
Lemma homely_world {A} P self L (m : M W A) c :
  safe P m -> homely P self L c -> homely P self L (on_world m c).2.
Proof.
  intros Hm (Hw & Ht & Hl). unfold on_world, zoom. specialize (Hm _ Hw). by destruct (m (world c)).
Qed.
Lemma homely_backstop P self L `{!SafeWasm (H := H) P self} cid gen s kind c :
  homely P self L c -> homely P self L (backstop_fires cid gen s kind c).2.
Proof.
  intros Hc. unfold backstop_fires, bind at 1 2, gets at 1 2. destruct (_ || _); [done|].
  unfold bind at 1, modify at 1. set (c1 := set_pendingOps _ c).
  assert (homely P self L c1) as H1 by done.
  unfold bind at 1.
  pose proof (homely_world P self L (GroupSessions.pendingKind s) c1) as H2.
  destruct (on_world _ c1) as [[[k|]|e] c2]; simpl in H2;
    [|by apply H2; [autounfold with channel; safe_walk|]..].
  assert (homely P self L c2) as H2' by (apply H2; [autounfold with channel; safe_walk|done]).
  unfold bind at 1.
  match goal with |- context [on_world ?m c2] =>
    pose proof (homely_world P self L m c2) as H3; destruct (on_world m c2) as [[b|e] c3] end;
  (assert (homely P self L c3) as H3' by (apply H3; [autounfold with channel; safe_walk|done]));
  [|done]. destruct b; [|done].
  destruct H3' as (Hw & Ht & Hl). split_and!; [done..|].
  intros i. cbn. rewrite elem_of_app, list_elem_of_singleton. intros [?|E]; [auto|done].
Qed.

#[export] Instance homely_kept P self L `{!SafeWasm (H := H) P self} : Kept cfg (homely P self L) P self (fun _ _ => True).
Proof.
  split; try (intros; exact Logic.I).
  - intros c c' (El & Et & _ & _ & _ & _ & _ & Ew) (Hw & Ht & Hl).
    split_and!; [congruence..|]. rewrite El. apply Hl.
  - intros A g m Hm c Hc Hg. split; [by apply homely_world|].
    unfold on_world, zoom. by destruct (m (world c)).
  - intros g e He c (Hw & Ht & Hl) Hg. split; [|done]. split_and!; [done..|].
    intros i. cbn. rewrite elem_of_app, list_elem_of_singleton. intros [?|E]; [auto|].
    symmetry in E. by apply He in E.
  - intros g k Hk c (Hw & Ht & Hl) Hg. split; [|done]. split_and!; [done| |done].
    apply Forall_app. by repeat constructor.
  - by intros c (Hw & Ht & Hl).
  - intros g n c (Hw & Ht & Hl) Hg. split; [|done]. split_and!; [done| |done].
    apply Forall_app. split; [by apply Forall_take|by apply Forall_drop].
  - by intros g d k _ c Hc Hg.
  - by intros g d cid gen s kind target _ c Hc Hg.
  - intros g cid c Hc Hg. unfold clear_pending, bind, gets. by destruct (JsMap.lookup _ _).
  - by intros g i c Hc Hg.
  - intros g i e c Hc Hg. pose proof (settle_receipt_only i e c) as Ho. split.
    + by eapply homely_only.
    + destruct Ho as (_ & _ & E & _). exact (eq_trans E Hg).
  - apply homely_supersede.
  - done.
  - intros c k d tm Hc Ek Hk. destruct tm; try discriminate Hk; unfold bind at 1; simpl.
    + by apply homely_backstop.
    + by eapply homely_only; [apply settle_receipt_only|].
Qed.

(** A receipt of the current connection for a pending waiter confirms it and does nothing else. *)
Lemma exec_receipt gen i c :
  exec text_decode cfg (OReceipt gen i) c = c \/
  gen = connectGen c /\ JsMap.has (bytesToHex i) (pendingReceipts c) = true /\
  let c' := exec text_decode cfg (OReceipt gen i) c in
  world c' = world c /\ tasks c' = tasks c /\ connectGen c' = connectGen c /\
  log c' = log c ++ [Resolved (PRevoke (bytesToHex i))].
Proof.
  unfold exec, perform, current, bind, gets. destruct (bool_decide (gen = connectGen c)) eqn:E; [|by left].
  apply bool_decide_eq_true in E. unfold settle_receipt, bind, gets, JsMap.has.
  destruct (JsMap.lookup _ _); [right|by left]. by repeat split.
Qed.

Lemma channel_run_app os os' c :
  run text_decode cfg (os ++ os') c = run text_decode cfg os' (run text_decode cfg os c).
Proof. unfold run. apply foldl_app. Qed.

(** The identity loader of the host gives identity frames (icon, profile, away text), never a
    contact graph. *)
Definition host_ok (o : op (H := H)) : Prop :=
  match o with OSettle _ (SFrames frames) => Forall (fun f => ~ contact_type f.1) frames | _ => True end.

Lemma receipt_or_not (o : op (H := H)) :
  (exists gen i, o = OReceipt gen i) \/ (forall gen i, o <> OReceipt gen i).
Proof. destruct o; first [solve [right; by intros] | left; eauto]. Qed.

Lemma homely_exec P self L `{!SafeWasm (H := H) P self} o c :
  host_ok o -> (forall gen i, o <> OReceipt gen i) -> homely P self L c ->
  homely P self L (exec text_decode cfg o c).
Proof.
  intros Ho Hr Hc. apply (exec_keeps_all text_decode cfg _ P self (fun _ _ => True)); [|done].
  destruct o; try done; simpl.
  - by eapply Hr.
  - intros k _. destruct k, r; try done. simpl in *. eapply Forall_impl; [done|]. naive_solver.
Qed.

Lemma homely_run P self `{!SafeWasm (H := H) P self} os c :
  Forall host_ok os -> homely P self (fun _ => True) c ->
  homely P self (fun _ => True) (run text_decode cfg os c).
Proof.
  intros Hos. revert c. induction Hos as [|o os Ho _ IH]; intros c Hc; [done|]. simpl. apply IH.
  destruct (receipt_or_not o) as [Hr|Hr].
  - destruct Hr as (gen & i & ->). destruct (exec_receipt gen i c) as [->|(_ & _ & Ew & Et & _)]; [done|].
    destruct Hc as (Hw & Ht & _). split_and!; [congruence..|done].
  - by apply homely_exec.
Qed.
End runs.

#[export] Instance toy_observed :
  Observed (H := unit) ToyChannel.tw_encrypted (fun gid => bool_decide (gid = "5e")).
Proof.
  split; [|done|by intros h gid w w' [= E _]].
  intros l; constructor; try done; intros; try (by intros w Hw).
  intros w Hw. simpl. unfold ToyChannel.toy_remove, bind, ToyChannel.pending, gets.
  by destruct (JsMap.lookup _ _).
Qed.

(** ** Properties *)
Section privacy.
Context {H W : Type} `{!GroupApi H W} `{!ChannelDeps H W}.
Context (text_decode : bytes -> string) (cfg : Config).
Context (encrypted : W -> list (string * bytes)) (self : string -> bool).
Context `{!Observed (H := H) encrypted self}.

(** C4. Whatever the user, the peers, the gateway and the host do, a frame that carries the buddy
    list or the list of buddy groups is given to encryption only for a group that the wasm
    classified as made of our own devices. *)
Theorem contact_graph_stays_home os w gid padded framed :
  encrypted w = [] -> Forall host_ok os ->
  (gid, padded) ∈ encrypted (world (run text_decode cfg os (initial (H := H) w))) ->
  Padding.unpadFromBucket padded = Ok framed -> contact_frame framed -> self gid = true.
Proof.
  intros Hw Hos Hin. revert framed.
  assert (homely (private encrypted self) self (fun _ => True) (initial (H := H) w)) as H0.
  { split_and!; [|constructor|done]. unfold private. simpl. by rewrite Hw. }
  destruct (homely_run text_decode cfg (private encrypted self) self os _ Hos H0) as [Hp _].
  unfold private in Hp. rewrite Forall_forall in Hp. exact (Hp _ Hin).
Qed.
End privacy.

Section revokes.
Context {H W : Type} `{!GroupApi H W} `{!ChannelDeps H W}.
Context (text_decode : bytes -> string) (cfg : Config).

#[local] Instance anything_goes : SafeWasm (H := H) (W := W) (fun _ => True) (fun _ => true).
Proof. by repeat split. Qed.

(** The run gets, while revoke [i] waits for it, the receipt for [i] from the current connection. *)
Definition receipt_in (os : list (op (H := H))) (w : W) (i : string) : Prop :=
  exists os1 id os2, let c := run text_decode cfg os1 (initial w) in
    os = os1 ++ OReceipt (connectGen c) id :: os2 /\ bytesToHex id = i /\
    JsMap.has i (pendingReceipts c) = true.

Lemma receipt_in_app os os2 w i : receipt_in os w i -> receipt_in (os ++ os2) w i.
Proof.
  intros (os1 & id & os2' & -> & Hi & Hp). exists os1, id, (os2' ++ os2). by rewrite <-app_assoc.
Qed.

Lemma homely_receipts os w :
  homely (fun _ => True) (fun _ => true) (receipt_in os w) (run text_decode cfg os (initial w)).
Proof.
  induction os as [|o os IH] using rev_ind.
  { split_and!; [done|constructor|]. intros i Hi. by apply not_elem_of_nil in Hi. }
  rewrite channel_run_app. set (c := run text_decode cfg os (initial w)) in *. cbn [run foldl].
  assert (homely (fun _ => True) (fun _ => true) (receipt_in (os ++ [o]) w) c) as Hc.
  { destruct IH as (_ & Ht & Hl). split_and!; [done..|]. intros i Hi. by apply receipt_in_app, Hl. }
  destruct (receipt_or_not o) as [(gen & i & ->)|Hr].
  - destruct (exec_receipt text_decode cfg gen i c) as [->|(Eg & Hp & _ & Et & _ & El)]; [done|].
    destruct Hc as (_ & Ht & Hl). split_and!; [done|by rewrite Et|]. rewrite El.
    intros j Hj. apply elem_of_app in Hj as [Hj|Hj]; [by apply Hl|].
    apply list_elem_of_singleton in Hj as [= ->]. exists os, i, []. by rewrite Eg.
  - apply (exec_keeps_all text_decode cfg _ (fun _ => True) (fun _ => true) (fun _ _ => True)); [|done].
    destruct o; try done; simpl; [by eapply Hr|].
    intros k _. destruct k, r; try done. simpl. by apply Forall_true.
Qed.

(** C5. An unsend is reported as done only when the gateway of the current connection confirmed
    the publish of the revoke with that id while the unsend was still waiting for it. *)
Theorem revoke_needs_receipt os w i :
  Resolved (PRevoke i) ∈ log (run text_decode cfg os (initial (H := H) w)) -> receipt_in os w i.
Proof. apply homely_receipts. Qed.
End revokes.

Lemma contact_graph_stays_home_witness :
  let c := run (fun _ => "") ToyChannel.all
             (ToyChannel.connecting [] ++ [OSettle 2 (SFrame (Some [7]))]) (initial ToyChannel.world0) in
  exists padded, ("5e", padded) ∈ ToyChannel.tw_encrypted (world c) /\
    Padding.unpadFromBucket padded = Ok [2; 6; 1; 7] /\ bool_decide ("5e" = "5e") = true.
Proof.
  cbv zeta. eexists. split; [vm_compute; left|]. split; [vm_compute; reflexivity|].
  apply (contact_graph_stays_home (fun _ => "") ToyChannel.all ToyChannel.tw_encrypted
    (fun gid => bool_decide (gid = "5e"))
    (ToyChannel.connecting [] ++ [OSettle 2 (SFrame (Some [7]))]) ToyChannel.world0 "5e"
    (match Padding.padToBucket [2; 6; 1; 7] with Ok p => p | Throw _ => [] end) [2; 6; 1; 7]).
  - reflexivity.
  - repeat constructor.
  - vm_compute. left.
  - vm_compute. reflexivity.
  - split; [reflexivity|left; reflexivity].
Defined.

Lemma revoke_needs_receipt_witness :
  let os := ToyChannel.connecting [] ++ [ORevoke "c-0f" "00"; OReceipt 1 (replicate 16 1)] in
  Resolved (PRevoke (bytesToHex (replicate 16 1)))
    ∈ log (run (fun _ => "") ToyChannel.all os (initial ToyChannel.world0)) /\
  receipt_in (fun _ => "") ToyChannel.all os ToyChannel.world0 (bytesToHex (replicate 16 1)).
Proof.
  cbv zeta. split.
  - vm_compute. repeat (first [left | right]).
  - apply revoke_needs_receipt. vm_compute. repeat (first [left | right]).
Defined.

(** ** Nothing waits for ever *)

(** Every staged commit and every unsend that waits has its timer: the timers [T] with the next
    handle [h], the staged commits [O] of connection [gen], the unsends [R]. *)
Record armed {H} (gen h : nat) (T : list (nat * (Z * timer H))) (O : list (string * PendingOp))
    (R : list (string * nat)) : Prop := Armed {
  ar_fresh k x : JsMap.lookup k T = Some x -> (k < h)%nat;
  ar_ops cid op : (cid, op) ∈ O -> exists d s,
    JsMap.lookup (op_handle op) T = Some (d, TmBackstop cid gen s (op_kind op));
  ar_receipts i k : JsMap.lookup i R = Some k ->
    JsMap.lookup k T = Some (REVOKE_RECEIPT_MS, TmReceipt i)
}.
Arguments ar_fresh {_ _ _ _ _ _} _.
Arguments ar_ops {_ _ _ _ _ _} _.
Arguments ar_receipts {_ _ _ _ _ _} _.

Lemma lookup_snoc {V} (T : list (nat * V)) h x k :
  JsMap.lookup k (T ++ [(h, x)]) =
  match JsMap.lookup k T with Some v => Some v | None => if decide (k = h) then Some x else None end.
Proof. induction T as [|[j u] T IH]; simpl; [done|]. by destruct (decide (k = j)). Qed.

Lemma set_elem {K V} `{EqDecision K} (k : K) (v : V) m x : x ∈ JsMap.set k v m -> x = (k, v) \/ x ∈ m.
Proof.
  induction m as [|[k' v'] m IH]; simpl; [set_solver|]. case_decide; rewrite !elem_of_cons; naive_solver.
Qed.

Section armed.
Context {H : Type} (gen h : nat) (T : list (nat * (Z * timer H))) (O : list (string * PendingOp)).
Context (R : list (string * nat)).
Hypothesis A : armed gen h T O R.

Lemma armed_schedule x : armed gen (S h) (T ++ [(h, x)]) O R.
Proof.
  split.
  - intros k y. rewrite lookup_snoc. destruct (JsMap.lookup k T) eqn:E.
    + intros _. apply A in E. lia.
    + case_decide; intros; [lia|done].
  - intros cid op Hop. destruct (ar_ops A _ _ Hop) as (d & s & E). exists d, s.
    by rewrite lookup_snoc, E.
  - intros i k Hk. by rewrite lookup_snoc, (ar_receipts A _ _ Hk).
Qed.
Lemma lookup_scheduled x : JsMap.lookup h (T ++ [(h, x)]) = Some x.
Proof.
  rewrite lookup_snoc. destruct (JsMap.lookup h T) eqn:E; [|by rewrite decide_True].
  apply A in E. lia.
Qed.
Lemma armed_arm d cid s kind target :
  armed gen (S h) (T ++ [(h, (d, TmBackstop cid gen s kind))])
    (JsMap.set cid (MkPendingOp kind target h) O) R.
Proof.
  pose proof (armed_schedule (d, TmBackstop cid gen s kind)) as A'. split; [apply A'| |apply A'].
  intros cid' op [[= -> ->]|Hop]%set_elem; [|by apply A'].
  exists d, s. apply lookup_scheduled.
Qed.
Lemma armed_await i :
  armed gen (S h) (T ++ [(h, (REVOKE_RECEIPT_MS, TmReceipt i))]) O (JsMap.set i h R).
Proof.
  pose proof (armed_schedule (REVOKE_RECEIPT_MS, TmReceipt i)) as A'. split; [apply A'..|].
  intros j k. rewrite JsMap.lookup_set. case_decide as E; [|apply A'].
  intros [= <-]. subst j. apply lookup_scheduled.
Qed.

(** A timer is cancelled; what referred to it is forgotten. *)
Lemma armed_cancel k O' R' :
  (forall cid op, (cid, op) ∈ O' -> (cid, op) ∈ O /\ op_handle op <> k) ->
  (forall i k', JsMap.lookup i R' = Some k' -> JsMap.lookup i R = Some k' /\ k' <> k) ->
  armed gen h (JsMap.remove k T) O' R'.
Proof.
  intros HO HR. split.
  - intros j x. rewrite JsMap.lookup_remove. case_decide; [done|]. apply A.
  - intros cid op Hop. apply HO in Hop as [Hop Hne]. rewrite JsMap.lookup_remove_ne by done.
    by apply A.
  - intros i k' Hk. apply HR in Hk as [Hk Hne]. rewrite JsMap.lookup_remove_ne by done. by apply A.
Qed.
Lemma remove_op cid cid' op :
  (cid', op) ∈ JsMap.remove cid O -> cid' <> cid /\ (cid', op) ∈ O.
Proof. rewrite JsMap.elem_of_remove. naive_solver. Qed.
Lemma armed_forget cid : armed gen h T (JsMap.remove cid O) R.
Proof. split; [apply A| |apply A]. intros cid' op [_ Hop]%remove_op. by apply A. Qed.

Lemma armed_fire k d cid g s kind :
  JsMap.lookup k T = Some (d, TmBackstop cid g s kind) -> armed gen h (JsMap.remove k T) (JsMap.remove cid O) R.
Proof.
  intros E. apply armed_cancel.
  - intros cid' op [Hne Hop]%remove_op. split; [done|]. intros <-.
    destruct (ar_ops A _ _ Hop) as (d' & s' & E'). congruence.
  - intros i k' Hk. split; [done|]. intros ->. apply A in Hk. congruence.
Qed.
Lemma armed_stale k d cid g s kind :
  JsMap.lookup k T = Some (d, TmBackstop cid g s kind) -> g <> gen \/ cid ∉ O.*1 ->
  armed gen h (JsMap.remove k T) O R.
Proof.
  intros E Hs. apply armed_cancel.
  - intros cid' op Hop. split; [done|]. intros <-.
    destruct (ar_ops A _ _ Hop) as (d' & s' & E'). rewrite E in E'. simplify_eq.
    destruct Hs as [?|Hs]; [done|]. by apply (list_elem_of_fmap_2 fst) in Hop.
  - intros i k' Hk. split; [done|]. intros ->. apply A in Hk. congruence.
Qed.
Lemma armed_clear cid op :
  (cid, op) ∈ O -> armed gen h (JsMap.remove (op_handle op) T) (JsMap.remove cid O) R.
Proof. intros Hop. destruct (ar_ops A _ _ Hop) as (d & s & E). by eapply armed_fire. Qed.
Lemma armed_fire_receipt k d i :
  JsMap.lookup k T = Some (d, TmReceipt i) -> armed gen h (JsMap.remove k T) O (JsMap.remove i R).
Proof.
  intros E. apply armed_cancel.
  - intros cid op Hop. split; [done|]. intros <-. destruct (ar_ops A _ _ Hop) as (? & ? & E'). congruence.
  - intros j k'. rewrite JsMap.lookup_remove. case_decide as Hj; [done|]. intros Hk.
    split; [done|]. intros ->. apply A in Hk. congruence.
Qed.
Lemma armed_stale_receipt k d i :
  JsMap.lookup k T = Some (d, TmReceipt i) -> JsMap.lookup i R = None -> armed gen h (JsMap.remove k T) O R.
Proof.
  intros E Hi. apply armed_cancel.
  - intros cid op Hop. split; [done|]. intros <-. destruct (ar_ops A _ _ Hop) as (? & ? & E'). congruence.
  - intros j k' Hk. split; [done|]. intros ->. pose proof (ar_receipts A _ _ Hk) as E'. congruence.
Qed.
Lemma armed_settle i k :
  JsMap.lookup i R = Some k -> armed gen h (JsMap.remove k T) O (JsMap.remove i R).
Proof. intros Hk. eapply armed_fire_receipt. by apply A. Qed.
Lemma armed_other k d tm :
  JsMap.lookup k T = Some (d, tm) -> is_waiter tm = false -> armed gen h (JsMap.remove k T) O R.
Proof.
  intros E Htm. apply armed_cancel.
  - intros cid op Hop. split; [done|]. intros <-. destruct (ar_ops A _ _ Hop) as (? & ? & E').
    rewrite E in E'. by simplify_eq.
  - intros i k' Hk. split; [done|]. intros ->. apply A in Hk. rewrite E in Hk. by simplify_eq.
Qed.
End armed.


(** Cancelling staged commits leaves the unsends with their timers. *)
Lemma armed_cancel_all {H} gen h (l : list PendingOp) (T : list (nat * (Z * timer H))) R :
  armed gen h T [] R -> (forall op i, op ∈ l -> JsMap.lookup i R <> Some (op_handle op)) ->
  armed gen h (foldl (fun T op => JsMap.remove (op_handle op) T) T l) [] R.
Proof.
  revert T. induction l as [|op l IH]; intros T A Hl; simpl; [done|].
  apply IH; [|intros; apply Hl; by right].
  apply (armed_cancel _ _ _ _ _ A); [by intros ?? ?%not_elem_of_nil|].
  intros i k Hk. split; [done|]. intros ->. eapply Hl; [left|done].
Qed.

Section waiting.
Context {H W : Type} `{!GroupApi H W} `{!ChannelDeps H W}.
Context (text_decode : bytes -> string) (cfg : Config).
Implicit Types (c : Channel H W).

Definition armed_by (gen : nat) c : Prop :=
  armed gen (handles c) (timers c) (pendingOps c) (pendingReceipts c) /\
  Forall (task_ok (fun _ => true)) (tasks c).
Definition waits_well c : Prop := armed_by (connectGen c) c.

Lemma armed_settle_receipt gen i out c :
  armed_by gen c -> armed_by gen (settle_receipt i out c).2 /\
  connectGen (settle_receipt i out c).2 = connectGen c.
Proof.
  intros [A Ht]. unfold settle_receipt, bind, gets. destruct (JsMap.lookup _ _) eqn:E; [|done].
  by split; [split; [by apply (armed_settle _ _ _ _ _ A)|]|].
Qed.
Lemma armed_fail_receipts gen e c :
  armed_by gen c -> armed_by gen (fail_receipts e c).2 /\ connectGen (fail_receipts e c).2 = connectGen c.
Proof.
  unfold fail_receipts, bind, gets. generalize (pendingReceipts c).*1. intros l. revert c.
  induction l as [|i l IH]; intros c Hc; simpl; [done|]. unfold bind.
  pose proof (armed_settle_receipt gen i (Some e) c Hc) as [H1 H2].
  destruct (settle_receipt i (Some e) c) as [[[]|?] c']; [|done]. simpl in *.
  destruct (IH c' H1) as [H3 H4]. split; congruence.
Qed.
Lemma cancel_all (l : list PendingOp) c :
  for_each l (fun op => cancel (op_handle op)) c =
  (Ok tt, set_timers (foldl (fun T op => JsMap.remove (op_handle op) T) (timers c) l) c).
Proof.
  revert c. induction l as [|op l IH]; intros c; simpl; [by destruct c|].
  unfold bind, cancel at 1, modify at 1. by rewrite IH.
Qed.

Lemma waits_supersede c : waits_well c -> waits_well (supersede c).2.
Proof.
  intros Hc. unfold supersede, bind at 1 2, gets at 1, modify at 1.
  set (c1 := set_connectGen _ c). assert (armed_by (connectGen c) c1) as H1 by done.
  unfold bind at 1.
  pose proof (armed_fail_receipts _
    (JsError "connection replaced before the gateway confirmed the publish") _ H1) as [H2 _].
  pose proof (fail_receipts_returns
    (JsError "connection replaced before the gateway confirmed the publish") c1) as Hr.
  destruct (fail_receipts _ c1) as [r c2]. simpl in H2, Hr. subst r.
  unfold bind at 1, gets at 1, bind at 1. rewrite cancel_all.
  destruct H2 as [A Ht]. split; [|done]. simpl.
  apply armed_cancel_all.
  - split; [apply A|by intros ?? ?%not_elem_of_nil|apply A].
  - intros op i [[cid op'] [-> Hop]]%list_elem_of_fmap Hi. apply A in Hi.
    destruct (ar_ops A _ _ Hop) as (? & ? & E). simpl in *. congruence.
Qed.

Lemma waits_fields c c' :
  handles c' = handles c -> timers c' = timers c -> pendingOps c' = pendingOps c ->
  pendingReceipts c' = pendingReceipts c -> connectGen c' = connectGen c -> tasks c' = tasks c ->
  waits_well c -> waits_well c'.
Proof. unfold waits_well, armed_by. congruence. Qed.

(** What a backstop does after its timer is gone: nothing refers to that timer any more. *)
Lemma waits_fire_backstop k d cid g s kind c :
  waits_well c -> JsMap.lookup k (timers c) = Some (d, TmBackstop cid g s kind) ->
  waits_well ((do! cancel k in backstop_fires cid g s kind) c).2.
Proof.
  intros [A Ht] E. unfold bind at 1, cancel, modify, backstop_fires, bind at 1 2, gets at 1 2.
  cbn [connectGen set_timers pendingOps timers].
  destruct (negb _ || _) eqn:Eb.
  { split; [|done]. apply (armed_stale _ _ _ _ _ A k d cid g s kind E).
    apply orb_true_iff in Eb as [Eb|Eb].
    - left. apply negb_true_iff, bool_decide_eq_false in Eb. done.
    - right. by apply bool_decide_eq_true, JsMap.lookup_None in Eb. }
  unfold bind at 1, modify. cbn beta iota. cbn [pendingOps set_timers].
  set (c1 := set_pendingOps (JsMap.remove cid (pendingOps c)) (set_timers (JsMap.remove k (timers c)) c)).
  assert (waits_well c1) as H1 by (split; [by apply (armed_fire _ _ _ _ _ A k d cid g s kind)|done]).
  clearbody c1. unfold bind, on_world, zoom. by repeat case_match; simplify_eq.
Qed.

#[export] Instance waits_kept :
  Kept cfg waits_well (fun _ => True) (fun _ => true) (fun gen now => gen = now).
Proof.
  split.
  - done.
  - intros c c' (_ & ? & ? & ? & ? & ? & ? & _). by apply waits_fields.
  - intros A g m _ c Hc Hg. unfold on_world, zoom. by destruct (m (world c)).
  - done.
  - intros g k Hk c [A Ht] Hg. split; [|done]. split; [done|]. apply Forall_app. by repeat constructor.
  - by intros c [_ Ht].
  - intros g n c [A Ht] Hg. split; [|done]. split; [done|].
    apply Forall_app. split; [by apply Forall_take|by apply Forall_drop].
  - intros g d k _ c [A Ht] Hg. split; [|done]. split; [|done]. by apply armed_schedule.
  - intros g d cid gen s kind target -> c [A Ht] <-. split; [|done]. split; [|done]. by apply armed_arm.
  - intros g cid c [A Ht] Hg. unfold clear_pending, bind, gets.
    destruct (JsMap.lookup cid (pendingOps c)) eqn:E; [|done]. split; [|done]. split; [|done].
    by apply (armed_clear _ _ _ _ _ A), JsMap.lookup_Some_in.
  - intros g i c [A Ht] Hg. split; [|done]. split; [|done]. by apply armed_await.
  - intros g i e c Hc <-. by destruct (armed_settle_receipt _ i (Some e) c Hc) as [? E]; rewrite <-E in *.
  - apply waits_supersede.
  - intros c k d tm [A Ht] E Htm. split; [|done]. by apply (armed_other _ _ _ _ _ A k d tm).
  - intros c k d tm Hc E Htm. destruct tm; try discriminate Htm; [by eapply waits_fire_backstop|].
    destruct Hc as [A Ht]. unfold bind, cancel, modify, fires, settle_receipt, bind, gets.
    cbn [pendingReceipts set_timers].
    destruct (JsMap.lookup messageId (pendingReceipts c)) as [k'|] eqn:Ei.
    + split; [|done]. pose proof (ar_receipts A _ _ Ei) as E'.
      apply armed_cancel with (O := pendingOps c) (R := JsMap.remove messageId (pendingReceipts c)).
      * by apply (armed_fire_receipt _ _ _ _ _ A k d).
      * intros cid op Hop. split; [done|]. intros <-. destruct (ar_ops A _ _ Hop) as (? & ? & ?). congruence.
      * intros j k1 Hk1. simpl in Hk1. split; [done|]. intros ->. revert Hk1. rewrite JsMap.lookup_remove.
        case_decide; [done|]. intros Hk1. apply A in Hk1. congruence.
    + split; [|done]. by apply (armed_stale_receipt _ _ _ _ _ A k d messageId).
Qed.

(** A backstop of the current connection forgets its staged commit. *)
Lemma fired_backstop k cid op s kind c :
  JsMap.lookup cid (pendingOps c) = Some op ->
  JsMap.lookup cid (pendingOps
    ((do! cancel k in fires cfg (TmBackstop cid (connectGen c) s kind)) c).2) = None.
Proof.
  intros Hop. unfold bind at 1, cancel, modify, fires, backstop_fires, bind at 1 2, gets at 1 2.
  cbn [connectGen set_timers pendingOps]. rewrite Hop, bool_decide_eq_true_2 by done. simpl.
  unfold bind at 1, modify. cbn beta iota. cbn [pendingOps set_timers].
  set (c1 := set_pendingOps (JsMap.remove cid (pendingOps c)) _).
  assert (JsMap.lookup cid (pendingOps c1) = None) as H1 by apply JsMap.lookup_remove_eq.
  clearbody c1. unfold bind, on_world, zoom. by repeat case_match; simplify_eq.
Qed.

(** No connection is superseded while it loads the closed conversations. *)
Fixpoint orderly (os : list (op (H := H))) c : Prop :=
  match os with
  | [] => True
  | o :: os =>
      match o with
      | OSettle n _ => forall url h gen l, tasks c !! n = Some (AwaitClosed url h gen l) -> gen = connectGen c
      | _ => True
      end /\ orderly os (exec text_decode cfg o c)
  end.

#[local] Instance any_wasm : SafeWasm (H := H) (W := W) (fun _ => True) (fun _ => true).
Proof. by repeat split. Qed.

Lemma waits_run os c : orderly os c -> waits_well c -> waits_well (run text_decode cfg os c).
Proof.
  revert c. induction os as [|o os IH]; intros c Ho Hc; [done|]. destruct Ho as [Ho Hos].
  simpl. apply IH; [done|]. destruct (receipt_or_not o) as [(gen & i & ->)|Hr].
  - unfold exec, perform, current, bind, gets. destruct (bool_decide _); [|done].
    destruct (armed_settle_receipt _ (bytesToHex i) None c Hc) as [H1 H2].
    unfold waits_well. by rewrite H2.
  - apply (exec_keeps_all text_decode cfg _ (fun _ => True) (fun _ => true) (fun gen now => gen = now)); [|done].
    destruct o; try done; simpl; [by eapply Hr|].
    intros k Hk. destruct k, r; try done; simpl in *; first [by apply Forall_true | by eapply Ho].
Qed.

Lemma waits_initial w : waits_well (initial (H := H) w).
Proof. split; [|constructor]. split; [done|by intros ?? ?%not_elem_of_nil|done]. Qed.

(** C6. The channel cannot be stuck on a staged membership change or on an unsend: each one that
    waits has its timer, armed for the current connection, and when that timer fires the change is
    no longer waited for, and the unsend is rejected and no longer waited for. *)
Theorem nothing_waits_forever os w :
  let c := run text_decode cfg os (initial (H := H) w) in
  orderly os (initial w) ->
  (forall cid op, JsMap.lookup cid (pendingOps c) = Some op ->
    (exists d s, JsMap.lookup (op_handle op) (timers c)
                 = Some (d, TmBackstop cid (connectGen c) s (op_kind op))) /\
    JsMap.lookup cid (pendingOps (exec text_decode cfg (OFire (op_handle op)) c)) = None) /\
  (forall i k, JsMap.lookup i (pendingReceipts c) = Some k ->
    JsMap.lookup k (timers c) = Some (REVOKE_RECEIPT_MS, TmReceipt i) /\
    let c' := exec text_decode cfg (OFire k) c in
    log c' = log c ++ [RejectedWith (PRevoke i) (JsError "the gateway did not confirm the revoke")] /\
    JsMap.lookup i (pendingReceipts c') = None).
Proof.
  intros c Hos. pose proof (waits_run os _ Hos (waits_initial w)) as [A _]. fold c in A.
  split.
  - intros cid op Hop. destruct (ar_ops A cid op) as (d & s & E); [by apply JsMap.lookup_Some_in|].
    split; [eauto|]. unfold exec, perform, bind at 1, gets at 1. rewrite E.
    apply (fired_backstop _ _ _ _ _ _ Hop).
  - intros i k Hk. pose proof (ar_receipts A _ _ Hk) as E. split; [done|].
    assert (exec text_decode cfg (OFire k) c =
      (settle_receipt i (Some (JsError "the gateway did not confirm the revoke"))
        (set_timers (JsMap.remove k (timers c)) c)).2) as ->
      by (unfold exec, perform, bind, gets; by rewrite E).
    unfold settle_receipt, bind, gets. cbn [pendingReceipts set_timers].
    rewrite Hk. split; [done|]. apply JsMap.lookup_remove_eq.
Qed.
End waiting.

Lemma nothing_waits_forever_witness :
  let os := ToyChannel.connecting [] ++
    [ORevoke "c-0f" "00"; OReconcileSiblings ["aa"; "bb"] [MkTarget "bb" [1]];
     OSettle 4 (SBool true)] in
  let c := run (fun _ => "") ToyChannel.all os (initial ToyChannel.world0) in
  (exists op, JsMap.lookup "c-0f" (pendingOps c) = Some op) /\
  (exists d s, JsMap.lookup 1%nat (timers c) = Some (d, TmBackstop "c-0f" (connectGen c) s PendingAdd)) /\
  JsMap.lookup 0%nat (timers c) = Some (REVOKE_RECEIPT_MS, TmReceipt (bytesToHex (replicate 16 1))).
Proof.
  cbv zeta. split; [vm_compute; eexists; reflexivity|].
  destruct (nothing_waits_forever (H := unit) (fun _ => "") ToyChannel.all
    (ToyChannel.connecting [] ++
      [ORevoke "c-0f" "00"; OReconcileSiblings ["aa"; "bb"] [MkTarget "bb" [1]];
       OSettle 4 (SBool true)]) ToyChannel.world0) as [Hops Hr].
  - vm_compute. split_and!; try exact Logic.I; intros ? ? ? ? [=]; congruence.
  - split.
    + apply (Hops "c-0f" (MkPendingOp PendingAdd (Some (MkTarget "bb" [1])) 1)). vm_compute. reflexivity.
    + apply Hr. vm_compute. reflexivity.
Defined.
