(* ===== verification/SelfGroup.v ===== *)
(** * The devices of one account agree

    Two choices of GroupChannel.v that every device of an account makes on its own, without a
    message: which self-group is the canonical one ([selfSessionBest]), and which device adds or
    removes a sibling ([isDesignatedAdder], with the delays of the others).  Both are functions of
    what the devices share, whatever the order in which each of them lists it. *)

From stdpp Require Import sorting.
From S2P Require Import Prelude Session Vault Group Sas Json Channel GroupChannel GroupChannelFacts.
Import GroupChannel.

(** ** Sets of strings *)

Lemma js_set_snoc l k : js_set (l ++ [k]) = if bool_decide (k ∈ js_set l) then js_set l else js_set l ++ [k].
Proof. unfold js_set. by rewrite foldl_app. Qed.
Lemma elem_of_js_set l x : x ∈ js_set l <-> x ∈ l.
Proof.
  induction l as [|k l IH] using rev_ind; [done|]. rewrite js_set_snoc, elem_of_app, list_elem_of_singleton.
  case_bool_decide; rewrite ?elem_of_app, ?list_elem_of_singleton; naive_solver.
Qed.
Lemma NoDup_js_set l : NoDup (js_set l).
Proof.
  induction l as [|k l IH] using rev_ind; [constructor|]. rewrite js_set_snoc.
  case_bool_decide; [done|]. apply NoDup_app. split_and!; [done|set_solver|]. repeat constructor. set_solver.
Qed.

(** ** The election *)

(** The sorted list of our devices in the group is the same on each of them. *)
Lemma ours_agree me1 me2 own1 own2 members1 members2 :
  me1 ∈ own1 -> me1 ∈ members1 -> me2 ∈ own2 -> me2 ∈ members2 ->
  (forall k, k ∈ own1 <-> k ∈ own2) -> (forall k, k ∈ members1 <-> k ∈ members2) ->
  ourDevicesInGroup me1 own1 members1 = ourDevicesInGroup me2 own2 members2.
Proof.
  intros Ho1 Hm1 Ho2 Hm2 Ho Hm. unfold ourDevicesInGroup, js_sort.
  apply (Sorted_unique string_le); [apply (Sorted_merge_sort _)..|].
  rewrite !merge_sort_Permutation. apply NoDup_Permutation; [apply NoDup_js_set..|].
  intros k. rewrite !elem_of_js_set, !elem_of_cons, !list_elem_of_filter. naive_solver.
Qed.
Lemma me_in_ours me own members : me ∈ ourDevicesInGroup me own members.
Proof.
  unfold ourDevicesInGroup, js_sort. rewrite merge_sort_Permutation, elem_of_js_set. left.
Qed.
Lemma NoDup_ours me own members : NoDup (ourDevicesInGroup me own members).
Proof. unfold ourDevicesInGroup, js_sort. rewrite merge_sort_Permutation. apply NoDup_js_set. Qed.

Lemma position_spec (me : string) l : me ∈ l -> NoDup l ->
  exists n, list_find (fun k => k = me) l = Some (n, me) /\ l !! n = Some me.
Proof.
  intros Hin Hnd. destruct (list_find_elem_of (fun k => k = me) l me Hin eq_refl) as [[n k] E].
  pose proof E as E'. apply list_find_Some in E' as (El & -> & _). by exists n.
Qed.

Lemma designated_iff me own members :
  isDesignatedAdder me own members = true <-> ourDevicesInGroup me own members !! 0%nat = Some me.
Proof. unfold isDesignatedAdder. rewrite bool_decide_eq_true. by destruct (ourDevicesInGroup _ _ _). Qed.

Lemma rank_position me own members n :
  ourDevicesInGroup me own members !! n = Some me -> failover_rank me own members = Z.max 1 (Z.of_nat n).
Proof.
  intros Hn. destruct (position_spec me _ (me_in_ours me own members) (NoDup_ours me own members))
    as (m & Hf & Hm).
  unfold failover_rank. rewrite Hf. by rewrite (NoDup_lookup _ _ _ _ (NoDup_ours me own members) Hm Hn).
Qed.

(** C7. The devices of an account elect without a message.  When they know the same devices of the
    account and the same members of the group, in any order, exactly one device that is in the group
    adds a missing sibling or removes a revoked one at once; the others wait, and whatever their
    jitter, no two of them wait for the same time: the delays are more than four seconds apart. *)
Theorem election me1 me2 own1 own2 members1 members2 j1 j2 :
  (forall k, k ∈ own1 <-> k ∈ own2) -> (forall k, k ∈ members1 <-> k ∈ members2) ->
  me1 ∈ own1 -> me1 ∈ members1 -> me2 ∈ own2 -> me2 ∈ members2 -> me1 <> me2 ->
  0 <= j1 < RECONCILE_JITTER_MS -> 0 <= j2 < RECONCILE_JITTER_MS ->
  (exists me, me ∈ own1 /\ me ∈ members1 /\ isDesignatedAdder me own1 members1 = true) /\
  (isDesignatedAdder me1 own1 members1 = true -> isDesignatedAdder me2 own2 members2 = false) /\
  (isDesignatedAdder me1 own1 members1 = false -> isDesignatedAdder me2 own2 members2 = false ->
   4000 < Z.abs (failover_delay me1 own1 members1 j1 - failover_delay me2 own2 members2 j2)).
Proof.
  intros Ho Hm Ho1 Hm1 Ho2 Hm2 Hne Hj1 Hj2.
  pose proof (ours_agree _ _ _ _ _ _ Ho1 Hm1 Ho2 Hm2 Ho Hm) as E.
  split_and!.
  - destruct (ourDevicesInGroup me1 own1 members1) as [|me l] eqn:El.
    { pose proof (me_in_ours me1 own1 members1) as Hin. rewrite El in Hin. by apply not_elem_of_nil in Hin. }
    assert (me ∈ ourDevicesInGroup me1 own1 members1) as Hin by (rewrite El; left).
    revert Hin. unfold ourDevicesInGroup, js_sort.
    rewrite merge_sort_Permutation, elem_of_js_set, elem_of_cons, list_elem_of_filter.
    intros Hin. assert (me ∈ own1 /\ me ∈ members1) as [H1 H2] by (destruct Hin as [->|[??]]; done).
    exists me. split_and!; [done..|]. apply designated_iff.
    by rewrite (ours_agree me me1 own1 own1 members1 members1), El.
  - rewrite designated_iff. intros H1. apply not_true_iff_false. rewrite designated_iff, <-E, H1. naive_solver.
  - intros H1 H2.
    destruct (list_elem_of_lookup_1 _ _ (me_in_ours me1 own1 members1)) as [n1 E1].
    destruct (list_elem_of_lookup_1 _ _ (me_in_ours me2 own2 members2)) as [n2 E2].
    unfold failover_delay. rewrite (rank_position _ _ _ _ E1), (rank_position _ _ _ _ E2).
    assert (n1 <> 0%nat) by (intros ->; apply designated_iff in E1; congruence).
    assert (n2 <> 0%nat) by (intros ->; apply designated_iff in E2; congruence).
    assert (n1 <> n2) by (intros ->; congruence).
    change ADD_FAILOVER_MS with 6000. change RECONCILE_JITTER_MS with 2000 in *. lia.
Qed.

Lemma election_witness :
  4000 < Z.abs (failover_delay "bb" ["aa"; "bb"; "cc"] ["cc"; "bb"; "aa"] 0 -
                failover_delay "cc" ["cc"; "bb"; "aa"] ["aa"; "bb"; "cc"] 1999).
Proof.
  destruct (election "bb" "cc" ["aa"; "bb"; "cc"] ["cc"; "bb"; "aa"] ["cc"; "bb"; "aa"] ["aa"; "bb"; "cc"]
    0 1999) as (_ & _ & Hd).
  - set_solver.
  - set_solver.
  - set_solver.
  - set_solver.
  - set_solver.
  - set_solver.
  - discriminate.
  - vm_compute. split; [discriminate|reflexivity].
  - vm_compute. split; [discriminate|reflexivity].
  - apply Hd; vm_compute; reflexivity.
Defined.

(** ** The canonical self-group *)

Lemma better_trans a b c : better a b = true -> better b c = true -> better a c = true.
Proof.
  unfold better. intros H1 H2.
  rewrite !orb_true_iff, !andb_true_iff, !orb_true_iff, !andb_true_iff, !orb_true_iff, !andb_true_iff,
    !negb_true_iff, !eqb_true_iff, !Nat.ltb_lt, !Nat.eqb_eq in *.
  destruct (r_populated a), (r_populated b), (r_populated c), (r_strict a), (r_strict b), (r_strict c);
    intuition (try congruence; try lia); repeat right; split_and!; try done;
    repeat (first [by left; lia | right; split_and!]); try lia; by eapply ltb_trans.
Qed.

Lemma better_irrefl a : better a a = false.
Proof.
  unfold better. rewrite !eqb_reflx, !andb_negb_r, Nat.ltb_irrefl, ltb_irrefl. by rewrite !andb_false_r.
Qed.
Lemma better_total a b : r_gid a = r_gid b \/ better a b = true \/ better b a = true.
Proof.
  destruct (ltb_total (r_gid a) (r_gid b)) as [?|Hlt]; [by left|right]. unfold better.
  destruct (r_populated a), (r_populated b), (r_strict a), (r_strict b); simpl; auto;
    destruct (lt_eq_lt_dec (r_size a) (r_size b)) as [[Hs|Hs]|Hs];
    rewrite ?Hs, ?(proj2 (Nat.ltb_lt _ _) Hs), ?orb_true_r, ?Nat.ltb_irrefl, ?Nat.eqb_refl; simpl; auto.
Qed.

Section canonical.
Context {H W : Type} `{!GroupApi H W} `{!ChannelDeps H W}.
Context (self strict : string -> bool) (members : string -> list string) (synced : W -> Prop).
(** In a synced world the wasm of a device reports about each group what it reports on the others. *)
Hypothesis self_reads : forall (s : GroupSession H) w, synced w ->
  GroupSessions.isSelfConversation s w = (Ok (self (groupId s)), w).
Hypothesis strict_reads : forall (s : GroupSession H) w, synced w ->
  GroupSessions.isSelfConversationStrict s w = (Ok (strict (groupId s)), w).
Hypothesis roster_reads : forall (s : GroupSession H) w, synced w ->
  GroupSessions.roster s w = (Ok (members (groupId s)), w).
Implicit Types (c : Channel H W).

Definition rank (gid : string) : Rank := MkRank (strict gid) (length (members gid)) gid.

Lemma rank_of_reads s w : synced w ->
  rank_of s w = (Ok (if self (groupId s) then Some (rank (groupId s)) else None), w).
Proof.
  intros Hw. unfold rank_of, bind. rewrite self_reads by done.
  destruct (self (groupId s)); simpl; [|done]. by rewrite strict_reads, roster_reads.
Qed.

Definition gid_of_entry (e : SessionEntry H) : string := groupId (e_session e).

(** [b] is the best of the groups [l], if one of them is a self-group. *)
Definition best_among (l : list string) (b : option (GroupSession H * Rank)) : Prop :=
  match b with
  | None => forall g, g ∈ l -> self g = false
  | Some (s, r) => groupId s ∈ l /\ self (groupId s) = true /\ r = rank (groupId s) /\
      forall g, g ∈ l -> self g = true -> better (rank g) r = false
  end.

Lemma best_loop_spec l seen b w :
  synced w -> best_among seen b ->
  exists b', best_loop l b w = (Ok b', w) /\ best_among (seen ++ (gid_of_entry <$> l)) b'.
Proof.
  intros Hw. revert seen b. induction l as [|e l IH]; intros seen b Hb.
  { exists b. by rewrite app_nil_r. }
  cbn [best_loop]. unfold bind. rewrite rank_of_reads by done.
  rewrite fmap_cons, cons_middle, app_assoc. fold (gid_of_entry e).
  destruct (self (gid_of_entry e)) eqn:Es; apply IH.
  - destruct b as [[s r]|]; simpl in *.
    + destruct Hb as (Hin & Hs & -> & Hmax).
      destruct (better _ _) eqn:Eb; simpl; split_and!; try done.
      * apply elem_of_app. right. left.
      * intros g [Hg| ->%list_elem_of_singleton]%elem_of_app Hsg; [|apply better_irrefl].
        apply not_true_iff_false. intros Hbg. pose proof (better_trans _ _ _ Hbg Eb). by rewrite Hmax in *.
      * apply elem_of_app. by left.
      * intros g [Hg| ->%list_elem_of_singleton]%elem_of_app Hsg; [by apply Hmax|done].
    + split_and!; [apply elem_of_app; right; left|done|done|].
      intros g [Hg| ->%list_elem_of_singleton]%elem_of_app Hsg; [|apply better_irrefl].
      apply Hb in Hg. congruence.
  - destruct b as [[s r]|]; simpl in *.
    + destruct Hb as (Hin & Hs & -> & Hmax). split_and!; [apply elem_of_app; by left|done|done|].
      intros g [Hg| ->%list_elem_of_singleton]%elem_of_app Hsg; [by apply Hmax|congruence].
    + intros g [Hg| ->%list_elem_of_singleton]%elem_of_app; auto.
Qed.

Definition held_groups c : list string := gid_of_entry <$> (sessions c).*2.

Lemma selfConversationId_spec c : synced (world c) ->
  exists b, selfConversationId c = (Ok ((fun x => convId (groupId x.1)) <$> b), c) /\
    best_among (held_groups c) b.
Proof.
  intros Hw. destruct (best_loop_spec (sessions c).*2 [] None (world c) Hw) as (b & E & Hb).
  { by intros g ?%not_elem_of_nil. }
  exists b. split; [|done].
  unfold selfConversationId, selfSession, selfSessionBest, bind, gets, on_world, zoom. rewrite E.
  unfold ret. destruct c. by destruct b as [[s r]|].
Qed.

(** The devices of an account converge on one self-group without talking: two devices that hold
    the same groups, in whatever order each of them stored its own, choose the same one; it is a
    group of our own devices, and one with more than one device whenever there is such a group. *)
Theorem canonical_self_group c1 c2 :
  synced (world c1) -> synced (world c2) -> (forall g, g ∈ held_groups c1 <-> g ∈ held_groups c2) ->
  exists id, (selfConversationId c1).1 = Ok id /\ (selfConversationId c2).1 = Ok id /\
    (id = None -> forall g, g ∈ held_groups c1 -> self g = false) /\
    (forall i, id = Some i -> exists g, i = convId g /\ g ∈ held_groups c1 /\ self g = true /\
       forall g', g' ∈ held_groups c1 -> self g' = true -> (1 < length (members g'))%nat ->
                  (1 < length (members g))%nat).
Proof.
  intros Hw1 Hw2 Hg.
  destruct (selfConversationId_spec c1 Hw1) as (b1 & E1 & H1), (selfConversationId_spec c2 Hw2) as (b2 & E2 & H2).
  rewrite E1, E2. simpl. eexists. split; [done|].
  destruct b1 as [[s1 r1]|], b2 as [[s2 r2]|]; simpl in *.
  - destruct H1 as (I1 & S1 & -> & M1), H2 as (I2 & S2 & -> & M2).
    assert (groupId s1 = groupId s2) as Es.
    { destruct (better_total (rank (groupId s1)) (rank (groupId s2))) as [?|[E|E]]; [done|..].
      - rewrite M2 in E; [done| |done]. by apply Hg.
      - rewrite M1 in E; [done| |done]. by apply Hg. }
    rewrite Es. split_and!; [done|done|]. intros i [= <-]. exists (groupId s2). rewrite <-Es.
    split_and!; [done..|]. intros g' Hg' Hs' Hp. specialize (M1 g' Hg' Hs').
    unfold better, rank, r_populated in M1. simpl in M1. apply Nat.ltb_lt.
    apply Nat.ltb_lt in Hp. rewrite Hp in M1. by destruct (1 <? length (members (groupId s1)))%nat.
  - destruct H1 as (I1 & S1 & _). apply Hg, H2 in I1. congruence.
  - destruct H2 as (I2 & S2 & _). apply Hg, H1 in I2. congruence.
  - done.
Qed.
End canonical.

#[local] Existing Instances ToyChannel.toy_api ToyChannel.toy_deps.
Lemma canonical_self_group_witness :
  let c1 := run (fun _ => "") ToyChannel.all (ToyChannel.connecting []) (initial ToyChannel.world0) in
  let c2 := set_sessions (reverse (sessions c1)) c1 in
  (sessions c1).*1 = ["c-5e"; "c-0f"] /\ (sessions c2).*1 = ["c-0f"; "c-5e"] /\
  exists id, (selfConversationId c1).1 = Ok id /\ (selfConversationId c2).1 = Ok id.
Proof.
  cbv zeta. split; [vm_compute; reflexivity|]. split; [vm_compute; reflexivity|].
  destruct (canonical_self_group (GroupApi0 := ToyChannel.toy_api) (fun g => bool_decide (g = "5e")) (fun _ => false)
    (fun g => default [] (JsMap.lookup g (ToyChannel.tw_groups ToyChannel.world0)))
    (fun w => ToyChannel.tw_groups w = ToyChannel.tw_groups ToyChannel.world0)
    (fun _ _ _ => eq_refl) (fun _ _ _ => eq_refl)
    ltac:(intros s w E; simpl; unfold GroupSessions.roster; simpl;
          unfold ToyChannel.toy_roster, gets; by rewrite E)
    (run (fun _ => "") ToyChannel.all (ToyChannel.connecting []) (initial ToyChannel.world0))
    (set_sessions (reverse (sessions (run (fun _ => "") ToyChannel.all (ToyChannel.connecting [])
        (initial ToyChannel.world0))))
      (run (fun _ => "") ToyChannel.all (ToyChannel.connecting []) (initial ToyChannel.world0))))
    as (id & E1 & E2 & _).
  - vm_compute. reflexivity.
  - vm_compute. reflexivity.
  - intros g. assert (held_groups (run (fun _ => "") ToyChannel.all (ToyChannel.connecting [])
      (initial ToyChannel.world0)) = ["5e"; "0f"]) as -> by (vm_compute; reflexivity).
    match goal with |- _ <-> g ∈ ?l => assert (l = ["0f"; "5e"]) as -> by (vm_compute; reflexivity) end.
    set_solver.
  - exists id. split; [exact E1|exact E2].
Defined.
