(* ===== verification/Welcomes.v ===== *)
(** * Invitations: the outbox of Welcomes, and runs that go wrong

    A Welcome that nobody acknowledged is published again at every reconnect; the replays give up
    after a bounded number of publishes.  Four runs of the channel show where the code does not do
    what its comments say. *)

From S2P Require Import Prelude Session Vault Group Sas Json Channel GroupChannel GroupChannelFacts.
Import GroupChannel.

Section outbox.
Context {H W : Type} `{!GroupApi H W} `{!ChannelDeps H W}.
Context (cfg : Config).
Implicit Types (c : Channel H W).

(** What a replay keeps: the entries that are not too old, not for a device that is already a
    member, and not tried twelve times, each with one attempt more. *)
Definition replayable (cutoff : Z) (settled : list string) (e : PendingWelcome) : bool :=
  negb ((pw_createdAt e <? cutoff) || bool_decide (pw_deviceKey e ∈ settled)
        || (WELCOME_OUTBOX_MAX_ATTEMPTS <? attempts_of e)).
Definition survivors (cutoff : Z) (settled : list string) (l : list PendingWelcome) : list PendingWelcome :=
  (fun e => with_attempts (attempts_of e) e) <$> List.filter (replayable cutoff settled) l.

Lemma survivors_cons cutoff settled e l :
  survivors cutoff settled (e :: l) =
  if replayable cutoff settled e then with_attempts (attempts_of e) e :: survivors cutoff settled l
  else survivors cutoff settled l.
Proof. unfold survivors. simpl. by destruct (replayable cutoff settled e). Qed.
Lemma replayable_attempts cutoff settled e :
  replayable cutoff settled e = true -> default 0 (pw_attempts e) < 12.
Proof.
  unfold replayable, attempts_of. rewrite negb_true_iff, orb_false_iff, Z.ltb_ge.
  change WELCOME_OUTBOX_MAX_ATTEMPTS with 12. lia.
Qed.

Definition published c : nat :=
  length (List.filter (fun e => match e with Publish _ _ => true | _ => false end) (log c)).

(** Publishing one entry: at most one publish, whatever throws. *)
Lemma post_publishes t key p ttl c :
  let r := try_catch (post t key p ttl) (fun _ => ret tt) c in
  r.1 = Ok tt /\ (published r.2 <= S (published c))%nat /\ welcomeOutbox r.2 = welcomeOutbox c /\
  transport r.2 = transport c.
Proof.
  unfold try_catch, post, bind, publish, emit, modify, on_world, zoom, published.
  destruct (g_randomBytes 16 (world c)) as [[i|e] w]; [|cbn; split_and!; try done; lia].
  cbn -[List.filter].
  match goal with |- context [d_publish t ?e ?w0] => destruct (d_publish t e w0) as [[[]|x] w'] end;
    cbn -[List.filter]; rewrite List.filter_app, length_app; cbn; split_and!; try done; lia.
Qed.

Lemma replay_loop_spec t cutoff settled l c :
  let r := replay_loop t cutoff settled l c in
  r.1 = Ok (survivors cutoff settled l) /\
  (published r.2 <= published c + length (survivors cutoff settled l))%nat /\
  welcomeOutbox r.2 = welcomeOutbox c /\ transport r.2 = transport c.
Proof.
  revert c. induction l as [|e l IH]; intros c; [split_and!; simpl; [done|lia|done..]|].
  rewrite survivors_cons. destruct (replayable cutoff settled e) eqn:E; unfold replayable in E;
    [apply negb_true_iff in E|apply negb_false_iff in E]; cbn [replay_loop]; rewrite E; [|apply IH].
  cbv zeta. unfold bind.
  pose proof (post_publishes t (pw_deviceKey e) (hexToBytes (pw_welcomeHex e)) WELCOME_TTL_SECONDS c) as Hp.
  cbv zeta in Hp. revert Hp.
  generalize (try_catch (post t (pw_deviceKey e) (hexToBytes (pw_welcomeHex e)) WELCOME_TTL_SECONDS)
                (fun _ => ret tt) c).
  intros [r c1]. simpl. intros Hp. destruct Hp as (-> & Hn & Ho & Ht).
  specialize (IH c1). destruct (replay_loop t cutoff settled l c1) as [r c2].
  simpl in *. destruct IH as (-> & Hn' & Ho' & Ht'). simpl. split_and!; [done|lia|congruence..].
Qed.

(** What a call outside leaves alone. *)
Definition same_outbox c c' : Prop :=
  transport c' = transport c /\ welcomeOutbox c' = welcomeOutbox c /\ published c' = published c.
Lemma on_world_frame {A} (m : M W A) c a c' : on_world m c = (Ok a, c') -> same_outbox c c'.
Proof. unfold on_world, zoom. destruct (m (world c)). by intros [= _ <-]. Qed.

(** The publishes the outbox still has to spend. *)
Definition tries_left (e : PendingWelcome) : nat := Z.to_nat (12 - default 0 (pw_attempts e)).
Definition budget (l : list PendingWelcome) : nat := sum_list_with tries_left l.

Lemma survivors_budget cutoff settled l :
  (budget (survivors cutoff settled l) + length (survivors cutoff settled l) <= budget l)%nat.
Proof.
  induction l as [|e l IH]; [simpl; lia|]. rewrite survivors_cons. unfold budget in *.
  destruct (replayable cutoff settled e) eqn:E; simpl; [|lia].
  apply replayable_attempts in E. unfold tries_left at 1 3, attempts_of. simpl. lia.
Qed.

(** Every entry was tried at least [n] times. *)
Definition tried (n : Z) (l : list PendingWelcome) : Prop :=
  Forall (fun e => n <= default 0 (pw_attempts e)) l.
Lemma survivors_tried n cutoff settled l :
  tried n l -> tried (n + 1) (survivors cutoff settled l) /\ (12 <= n -> survivors cutoff settled l = []).
Proof.
  induction 1 as [|e l He _ [IH1 IH2]]; [by split; [constructor|]|]. rewrite survivors_cons.
  destruct (replayable cutoff settled e) eqn:E; [|done].
  apply replayable_attempts in E. split; [|lia].
  constructor; [|done]. unfold attempts_of. simpl. lia.
Qed.

(** One replay on a live connection, its reads of the wasm and of the clock succeeding. *)
Lemma replay_spec c c' :
  replay cfg c = (Ok tt, c') -> transport c <> None ->
  transport c' = transport c /\
  (published c' - published c + budget (welcomeOutbox c') <= budget (welcomeOutbox c))%nat /\
  forall n, tried n (welcomeOutbox c) ->
    tried (n + 1) (welcomeOutbox c') /\ (12 <= n -> welcomeOutbox c' = []).
Proof.
  unfold replay, bind at 1 2, gets at 1 2. intros E Ht.
  destruct (transport c) as [t|] eqn:Et; [|done].
  destruct (welcomeOutbox c) as [|e l] eqn:El.
  { injection E as <-. rewrite El, Et. split_and!; [done|lia|]. intros n _. by split; [constructor|]. }
  apply bind_Ok_inv in E as (now & c1 & E1 & E). apply bind_Ok_inv in E as (best & c2 & E2 & E).
  apply bind_Ok_inv in E as (settled & c3 & E3 & E).
  apply on_world_frame in E1 as F1.
  assert (same_outbox c1 c2) as F2.
  { unfold selfSessionBest, bind, gets in E2. by apply on_world_frame in E2. }
  assert (same_outbox c2 c3) as F3.
  { destruct best as [[s r]|]; [by apply on_world_frame in E3|by injection E3 as _ <-]. }
  pose proof (replay_loop_spec t (now - WELCOME_OUTBOX_TTL_MS) settled (e :: l) c3) as Hl.
  unfold bind at 1 in E.
  destruct (replay_loop _ _ _ _ c3) as [r c4]. simpl in Hl. destruct Hl as (-> & Hn & Ho & Htr).
  assert (transport c' = transport c4 /\
          welcomeOutbox c' = survivors (now - WELCOME_OUTBOX_TTL_MS) settled (e :: l) /\ published c' = published c4)
    as (Ht' & Ho' & Hp').
  { revert E. unfold bind, set_outbox, modify, saveOutbox, gets. destruct (has_outbox cfg); intros [= <-]; [|done].
    split_and!; [done..|]. unfold published. cbn -[List.filter]. rewrite List.filter_app, length_app. simpl. lia. }
  destruct F1 as (T1 & _ & P1), F2 as (T2 & _ & P2), F3 as (T3 & _ & P3).
  split_and!; [congruence| |].
  - pose proof (survivors_budget (now - WELCOME_OUTBOX_TTL_MS) settled (e :: l)).
    rewrite Ho'. lia.
  - intros n Hn'. rewrite Ho'. by apply survivors_tried.
Qed.

(** [n] replays that publish [p] envelopes, one after each reconnect; between two of them anything
    may happen that leaves the outbox as it is. *)
Inductive replays : nat -> nat -> Channel H W -> Channel H W -> Prop :=
  | replays_none c : replays 0 0 c c
  | replays_more n p c c1 c1' c2 :
      replay cfg c = (Ok tt, c1) -> transport c1' <> None -> welcomeOutbox c1' = welcomeOutbox c1 ->
      replays n p c1' c2 -> replays (S n) (published c1 - published c + p) c c2.

Lemma replays_budget n p c c' :
  replays n p c c' -> transport c <> None ->
  (p + budget (welcomeOutbox c') <= budget (welcomeOutbox c))%nat.
Proof.
  induction 1 as [c|n p c c1 c1' c2 E Ht1 Eo Hr IH]; intros Ht; [lia|].
  destruct (replay_spec c c1 E Ht) as (_ & Hb & _). specialize (IH Ht1). rewrite Eo in IH. lia.
Qed.
Lemma replays_tried n p c c' k :
  replays n p c c' -> transport c <> None -> tried k (welcomeOutbox c) -> 0 <= k ->
  12 < k + Z.of_nat n -> (0 < n)%nat -> welcomeOutbox c' = [].
Proof.
  intros Hr. revert k. induction Hr as [c|n p c c1 c1' c2 E Ht1 Eo Hr IH]; intros k Ht Hk H0 Hn Hpos; [lia|].
  destruct (replay_spec c c1 E Ht) as (_ & _ & Hk1). destruct (Hk1 k Hk) as [Hk' Hend].
  rewrite <-Eo in Hk', Hend. inversion Hr; subst; [apply Hend; lia|].
  apply (IH (k + 1)); [done..|lia|lia|lia].
Qed.

Lemma budget_bound l : tried 0 l -> (budget l <= 12 * length l)%nat.
Proof.
  unfold budget. induction 1 as [|e l He _ IH]; cbn [sum_list_with length]; [lia|].
  unfold tries_left at 1. lia.
Qed.

(** The replay of unacknowledged Welcomes gives up.  Whatever else happens between the
    reconnects, the replays of the entries of an outbox publish at most twelve envelopes per entry,
    and from the thirteenth replay on the outbox is empty. *)
Theorem replays_give_up n p c c' :
  replays n p c c' -> transport c <> None -> tried 0 (welcomeOutbox c) ->
  (p <= 12 * length (welcomeOutbox c))%nat /\ ((13 <= n)%nat -> welcomeOutbox c' = []).
Proof.
  intros Hr Ht Hk. split.
  - pose proof (replays_budget n p c c' Hr Ht). pose proof (budget_bound _ Hk). lia.
  - intros Hn. apply (replays_tried n p c c' 0 Hr Ht Hk); lia.
Qed.
End outbox.

#[local] Existing Instances ToyChannel.toy_api ToyChannel.toy_deps.
#[local] Abbreviation start := (run (fun _ => "") ToyChannel.all).
Definition lost : PendingWelcome := MkPendingWelcome "c-5e" "dd" "05" 0 (Some 4).

Lemma replays_give_up_witness :
  let c := set_welcomeOutbox [lost] (start (ToyChannel.connecting []) (initial ToyChannel.world0)) in
  let c' := (replay ToyChannel.all c).2 in
  welcomeOutbox c' = [with_attempts 5 lost] /\ (published c' - published c + 0 <= 12 * length (welcomeOutbox c))%nat.
Proof.
  cbv zeta. split; [vm_compute; reflexivity|].
  refine (proj1 (replays_give_up ToyChannel.all 1 _
    (set_welcomeOutbox [lost] (start (ToyChannel.connecting []) (initial ToyChannel.world0)))
    (replay ToyChannel.all
      (set_welcomeOutbox [lost] (start (ToyChannel.connecting []) (initial ToyChannel.world0)))).2
    _ _ _)).
  - apply (replays_more ToyChannel.all 0 0 _
      (replay ToyChannel.all
        (set_welcomeOutbox [lost] (start (ToyChannel.connecting []) (initial ToyChannel.world0)))).2
      (replay ToyChannel.all
        (set_welcomeOutbox [lost] (start (ToyChannel.connecting []) (initial ToyChannel.world0)))).2).
    + vm_compute. reflexivity.
    + vm_compute. discriminate.
    + reflexivity.
    + constructor.
  - vm_compute. discriminate.
  - repeat constructor. vm_compute. discriminate.
Defined.

(** ** Three runs *)

Definition saves (l : list effect) : list (list PendingWelcome) :=
  omap (fun e => match e with CallSaveOutbox l => Some l | _ => None end) l.

(** The outbox can forget a Welcome it has just stored.  The load that a connection starts marks
    the outbox as loaded before it has an answer; a group that is founded in between stores its
    Welcome over what the store held, and the answer then replaces the outbox in memory: the Welcome
    for the new sibling is in neither place and is never published again. *)
Theorem outbox_load_race :
  let solo := ToyChannel.MkTW [("0f", ["aa"; "cc"])] [] [] 1 in
  let c := start (ToyChannel.connecting [] ++
    [OCreateSelf [MkTarget "bb" [1]]; OSettle 1 SVoid; OSettle 1 SVoid; OSettle 0 (SOutbox [lost])])
    (initial solo) in
  let fresh := MkPendingWelcome "c-5e" "bb" (bytesToHex [5]) 1000 None in
  saves (log c) = [[fresh]; [with_attempts 5 lost]] /\ welcomeOutbox c = [with_attempts 5 lost].
Proof. vm_compute. split; reflexivity. Qed.

(** A conversation whose members are all blocked does not stay out.  Its Welcome is acknowledged
    and no entry is made for it, but the wasm has joined the group: once the state was sealed, for
    whatever reason, the next connection holds the conversation and subscribes to its mailbox. *)
Theorem blocked_conversation_returns :
  let c1 := start (ToyChannel.connecting [] ++
    [ODeliver 1 (MkEnvelope [7] "aa" [221] 60); OSettle 4 (SBool true); OFreshKeys 1])
    (initial ToyChannel.world0) in
  let c2 := start [OConnect "ws"; OSettle 5 (SConv (Some tt)); OSettle 5 (SSeed ""); OSettle 5 (SClosed [])] c1 in
  CallBlockedRoster ["cc"] ∈ log c1 /\ JsMap.has "c-dd" (sessions c1) = false /\
  CallReseal ∈ log c1 /\
  JsMap.has "c-dd" (sessions c2) = true /\ Subscribe 2 "mb-dd" ∈ log c2.
Proof. vm_compute. split_and!; try reflexivity; repeat (first [left | right]). Qed.

(** Leaving everywhere stops at the first conversation that cannot remove the device.
    [removeDevice] is not an async function, so what the wasm throws escapes the [catch] on its
    promise: the loop is abandoned and the later conversations keep the device. *)
Theorem exclusion_stops_at_first_failure :
  let two := ToyChannel.MkTW [("5e", ["aa"; "bb"]); ("0f", ["aa"; "bb"; "cc"])] [] [] 1 in
  let c := start (ToyChannel.connecting [] ++ [OReconcileSelf ["aa"; "dd"] [MkTarget "dd" [1]]])
             (initial two) in
  let r := perform (fun _ => "") ToyChannel.all (OExclude "bb") c in
  r.1 = Throw (JsError "a commit is pending") /\ tasks r.2 = tasks c /\
  JsMap.lookup "0f" (ToyChannel.tw_groups (world r.2)) = Some ["aa"; "bb"; "cc"].
Proof. vm_compute. split_and!; reflexivity. Qed.

(** Our own commit counts as a sign of life.  The echo of a member we added ourselves comes back
    as a membership event, not as the dropped own frame the code expects, so it retires the Welcome of
    another sibling of that group that has never shown up. *)
Theorem own_commit_retires_welcomes :
  let solo := ToyChannel.MkTW [("0f", ["aa"; "cc"])] [] [] 1 in
  let c := start (ToyChannel.connecting [] ++
    [OSettle 0 (SOutbox []); OCreateSelf [MkTarget "bb" [1]]; OSettle 0 SVoid; OSettle 0 SVoid;
     OSettle 0 (SBool true); OReconcileSelf ["aa"; "dd"] [MkTarget "dd" [1]]; OSettle 3 (SBool true)])
    (initial solo) in
  let echo := match ListCodec.encodeList [[94]; 1 :: be32 1 ++ be32 1 ++ [221] ++ be32 0] with
              | Ok b => b | Throw _ => [] end in
  let c' := start [ODeliver 1 (MkEnvelope [7] "mb-5e" echo 60)] c in
  pw_deviceKey <$> welcomeOutbox c = ["bb"] /\ op_target <$> JsMap.lookup "c-5e" (pendingOps c)
    = Some (Some (MkTarget "dd" [1])) /\
  Push (EvRosterChanged "c-5e" ["dd"] []) ∈ log c' /\ welcomeOutbox c' = [] /\ [] ∈ saves (log c').
Proof. vm_compute. split_and!; try reflexivity; repeat (first [left | right]). Qed.
