(* ===== verification/Contacts.v ===== *)
(** * The contact graph (client/src/controller.ts, lines 56-215, 532-586, 640-751, 958-1392)

    The buddy list and the list of buddy groups: per-entry last-writer-wins maps that the devices of
    an account merge from each other's frames, the verified keys that travel with them, and the
    handles that tie a buddy to a conversation.  A method is a program whose loads and saves are
    its awaits, so it can run on its own or interleaved with others.  The three sealed records are
    kept as the JSON that is sealed. *)

From S2P Require Import Prelude Json Integrity Auth.

(** ** Plain objects used as dictionaries

    Own properties in insertion order; a lookup of a name that is not an own property finds what every
    object inherits, and an assignment to [__proto__] makes no own property.  (It also replaces what the object inherits;
    that is left out: no record that was saved has this name, so no loaded object is affected.) *)
Module JsObj.
Definition inherited : list string :=
  ["constructor"; "__proto__"; "toString"; "toLocaleString"; "valueOf"; "hasOwnProperty";
   "isPrototypeOf"; "propertyIsEnumerable"; "__defineGetter__"; "__defineSetter__";
   "__lookupGetter__"; "__lookupSetter__"].

(** What [m[k]] gives: [undefined], something inherited, or an own value. *)
Inductive slot (V : Type) := Absent | Inherited | Own (v : V).
Arguments Absent {_}.
Arguments Inherited {_}.
Arguments Own {_} _.

Section obj.
Context {V : Type}.
Implicit Types (m : list (string * V)).

Definition read (k : string) m : slot V :=
  match JsMap.lookup k m with
  | Some v => Own v
  | None => if bool_decide (k ∈ inherited) then Inherited else Absent
  end.

(** [m[k] = v] *)
Definition write (k : string) (v : V) m : list (string * V) :=
  if bool_decide (k = "__proto__") then m else JsMap.set k v m.

(** The integer keys of an object are enumerated first, in numeric order. *)
Definition is_digit (c : Ascii.ascii) : bool :=
  let n := Ascii.nat_of_ascii c in ((48 <=? n) && (n <=? 57))%nat.
Definition array_index (k : string) : option Z :=
  let l := String.list_ascii_of_string k in
  let n := foldl (fun n c => 10 * n + (Z.of_nat (Ascii.nat_of_ascii c) - 48)) 0 l in
  if forallb is_digit l && (bool_decide (k = "0") || negb (bool_decide (head l = Some "0"%char)))
     && negb (bool_decide (k = "")) && (length l <=? 10)%nat && (n <? 4294967295)
  then Some n else None.
Definition entries m : list (string * V) :=
  sort_by (fun x => default 0 (array_index x.1)) (List.filter (fun x => bool_decide (is_Some (array_index x.1))) m)
  ++ List.filter (fun x => negb (bool_decide (is_Some (array_index x.1)))) m.
End obj.
End JsObj.
Import JsObj.

Module Contacts.

(** ** Data *)

Record BuddyEntry := MkBuddy {
  b_addedAt : Z;
  b_v : Z;
  b_removed : bool;
  b_group : string;
  b_vk : option string
}.
Definition BuddyMap : Type := list (string * BuddyEntry).
#[export] Instance BuddyEntry_eq_dec : EqDecision BuddyEntry.
Proof. solve_decision. Defined.

Record GroupEntry := MkGroup {
  g_v : Z;
  g_removed : bool;
  g_order : Z;
  g_n : option string
}.
Definition GroupMap : Type := list (string * GroupEntry).

(** An entry of the block list. *)
Record Blocked := MkBlocked { k_key : string; k_name : option string }.

Definition DEFAULT_GROUP : string := "Buddies".
Definition RK_DEFAULT : string := String (Ascii.ascii_of_nat 0) "d".
Definition RK_BLOCKED : string := String (Ascii.ascii_of_nat 0) "b".
Definition BLOCKED_LABEL_FALLBACK : string := "Blocked".
Definition GROUP_NAME_MAX : nat := 32.
Definition GROUP_MAP_MAX_ENTRIES : nat := 512.
Definition CRDT_MAX_FUTURE_MS : Z := 24 * 60 * 60 * 1000.

(** [/^[0-9a-f]{64}$/.test(s)] *)
Definition is_key (s : string) : bool := (String.length s =? 64)%nat && Auth.lower_hex s.

(** Strings are ASCII here, as in [Auth.trim]. *)
Definition is_control (c : Ascii.ascii) : bool :=
  let n := Ascii.nat_of_ascii c in ((n <=? 31) || (n =? 127))%nat.
Definition sanitizeGroupName (raw : string) : string :=
  let kept := String.string_of_list_ascii
    (List.filter (fun c => negb (is_control c)) (String.list_ascii_of_string raw)) in
  Auth.trim (String.substring 0 GROUP_NAME_MAX (Auth.trim kept)).
Definition normalize_handle (username : string) : string := toLowerCase (Auth.trim username).

(** ** What is read back from a record or a frame *)

Definition type_error : exn := JsError "TypeError".
Definition num_of (v : option json) : Z := match v with Some (JNum n) => n | _ => 0 end.
Definition bool_of (v : option json) : bool := match v with Some (JBool b) => b | _ => false end.

Definition buddy_of (e : json) : BuddyEntry :=
  MkBuddy (num_of (prop e "addedAt")) (num_of (prop e "v")) (bool_of (prop e "removed"))
    (match prop e "group" with
     | Some (JStr g) => if bool_decide (Auth.trim g = "") then DEFAULT_GROUP else g
     | _ => DEFAULT_GROUP
     end)
    (match prop e "vk" with
     | Some (JStr k) => if is_key k then Some k else None
     | _ => None
     end).

(** The legacy list of buddies; [null] in it throws. *)
Fixpoint legacy_buddies (l : list json) (out : BuddyMap) : result BuddyMap :=
  match l with
  | [] => Ok out
  | JNull :: _ => Throw type_error
  | e :: l =>
      legacy_buddies l
        (match prop e "username" with
         | Some (JStr u) =>
             if bool_decide (u = "") then out
             else write u (MkBuddy (num_of (prop e "addedAt")) 0 false DEFAULT_GROUP None) out
         | _ => out
         end)
  end.

Definition keep_buddy (out : BuddyMap) (x : string * json) : BuddyMap :=
  if bool_decide (x.1 = "") || negb (is_object x.2) then out else write x.1 (buddy_of x.2) out.
Definition normalizeBuddyMap (raw : option json) : result BuddyMap :=
  match raw with
  | Some (JArr l) => legacy_buddies l []
  | Some (JObj fields) => Ok (foldl keep_buddy [] (entries fields))
  | _ => Ok []
  end.

Definition reserved (name : string) : bool :=
  bool_decide (name = RK_DEFAULT) || bool_decide (name = RK_BLOCKED).
Definition group_of (name : string) (e : json) : GroupEntry :=
  let alias := if reserved name
               then match prop e "n" with Some (JStr n) => sanitizeGroupName n | _ => "" end else "" in
  MkGroup (num_of (prop e "v")) (bool_of (prop e "removed")) (num_of (prop e "order"))
    (if bool_decide (alias = "") then None else Some alias).

(** One turn of the loop of [normalizeGroupMap], with its count of the entries it kept. *)
Definition keep_group (acc : GroupMap * nat) (x : string * json) : GroupMap * nat :=
  let (out, kept) := acc in
  if bool_decide (x.1 = "") || negb (is_object x.2) || (GROUP_MAP_MAX_ENTRIES <=? kept)%nat then acc else
  if negb (reserved x.1) && negb (bool_decide (sanitizeGroupName x.1 = x.1)) then acc else
  (write x.1 (group_of x.1 x.2) out, S kept).
Definition normalizeGroupMap (raw : option json) : GroupMap :=
  match raw with
  | Some (JObj fields) => (foldl keep_group ([], O) (entries fields)).1
  | _ => []
  end.

(** [JSON.stringify] of the maps. *)
Definition buddy_json (e : BuddyEntry) : json :=
  JObj ([("addedAt", JNum (b_addedAt e)); ("v", JNum (b_v e)); ("removed", JBool (b_removed e));
         ("group", JStr (b_group e))] ++
        match b_vk e with Some k => [("vk", JStr k)] | None => [] end).
Definition buddies_json (m : BuddyMap) : json := JObj ((fun x => (x.1, buddy_json x.2)) <$> entries m).
Definition group_json (e : GroupEntry) : json :=
  JObj ([("v", JNum (g_v e)); ("removed", JBool (g_removed e)); ("order", JNum (g_order e))] ++
        match g_n e with Some n => [("n", JStr n)] | None => [] end).
Definition groups_json (m : GroupMap) : json := JObj ((fun x => (x.1, group_json x.2)) <$> entries m).

(** ** Merging *)

(** The comparison of [adoptBuddies]: whether the incoming entry replaces ours. *)
Definition buddy_newer (inc cur : BuddyEntry) : bool :=
  (b_v cur <? b_v inc) ||
  ((b_v inc =? b_v cur) && b_removed inc && negb (b_removed cur)) ||
  ((b_v inc =? b_v cur) && Bool.eqb (b_removed inc) (b_removed cur) &&
   String.ltb (default "" (b_vk cur)) (default "" (b_vk inc))).

(** What is inherited has no [v]: every comparison with it is false. *)
Definition adopt_buddy (maxV : Z) (acc : BuddyMap * bool) (x : string * BuddyEntry) : BuddyMap * bool :=
  let (local, changed) := acc in
  if maxV <? b_v x.2 then acc else
  let newer := match read x.1 local with
               | Absent => true
               | Inherited => false
               | Own cur => buddy_newer x.2 cur
               end in
  if newer then (write x.1 x.2 local, true) else acc.
Definition adopt_buddies (maxV : Z) (local incoming : BuddyMap) : BuddyMap * bool :=
  foldl (adopt_buddy maxV) (local, false) (entries incoming).

Definition group_newer (inc cur : GroupEntry) : bool :=
  (g_v cur <? g_v inc) ||
  ((g_v inc =? g_v cur) && g_removed inc && negb (g_removed cur)) ||
  ((g_v inc =? g_v cur) && Bool.eqb (g_removed inc) (g_removed cur) &&
   match g_n inc, g_n cur with Some a, Some b => String.ltb b a | _, _ => false end).
Definition adopt_group (maxV : Z) (acc : GroupMap * bool) (x : string * GroupEntry) : GroupMap * bool :=
  let (local, changed) := acc in
  if maxV <? g_v x.2 then acc else
  let newer := match read x.1 local with
               | Absent => true
               | Inherited => false
               | Own cur => group_newer x.2 cur
               end in
  if newer then (write x.1 x.2 local, true) else acc.
Definition adopt_groups (maxV : Z) (local incoming : GroupMap) : GroupMap * bool :=
  foldl (adopt_group maxV) (local, false) (entries incoming).

(** ** Methods as programs *)

Inductive effect := SyncBuddies | SyncGroups | BuddiesUpdated | GroupsUpdated.

(** A method up to its end: each load and each save is an await. *)
Inductive prog (A : Type) : Type :=
  | Ret (a : A)
  | Unlocked (k : bool -> prog A)
  | LoadBuddies (k : BuddyMap -> prog A)
  | SaveBuddies (m : BuddyMap) (k : prog A)
  | LoadGroups (k : GroupMap -> prog A)
  | SaveGroups (m : GroupMap) (k : prog A)
  | LoadHandles (k : list (string * string) -> prog A)
  | SaveHandles (m : list (string * string)) (k : prog A)
  | LoadBlocked (k : list Blocked -> prog A)
  | SaveBlocked (l : list Blocked) (k : prog A)
  | Now (k : Z -> prog A)
  | PeerKeys (conversationId : string) (k : list string -> prog A)
  | Tell (e : effect) (k : prog A).
Arguments Ret {_} _.
Arguments Unlocked {_} _.
Arguments LoadBuddies {_} _.
Arguments SaveBuddies {_} _ _.
Arguments LoadGroups {_} _.
Arguments SaveGroups {_} _ _.
Arguments LoadHandles {_} _.
Arguments SaveHandles {_} _ _.
Arguments LoadBlocked {_} _.
Arguments SaveBlocked {_} _ _.
Arguments Now {_} _.
Arguments PeerKeys {_} _ _.
Arguments Tell {_} _ _.

Fixpoint pbind {A B} (p : prog A) (f : A -> prog B) : prog B :=
  match p with
  | Ret a => f a
  | Unlocked k => Unlocked (fun x => pbind (k x) f)
  | LoadBuddies k => LoadBuddies (fun x => pbind (k x) f)
  | SaveBuddies m k => SaveBuddies m (pbind k f)
  | LoadGroups k => LoadGroups (fun x => pbind (k x) f)
  | SaveGroups m k => SaveGroups m (pbind k f)
  | LoadHandles k => LoadHandles (fun x => pbind (k x) f)
  | SaveHandles m k => SaveHandles m (pbind k f)
  | LoadBlocked k => LoadBlocked (fun x => pbind (k x) f)
  | SaveBlocked m k => SaveBlocked m (pbind k f)
  | Now k => Now (fun x => pbind (k x) f)
  | PeerKeys c k => PeerKeys c (fun x => pbind (k x) f)
  | Tell e k => Tell e (pbind k f)
  end.
#[local] Notation "'let*' x := p 'in' k" := (pbind p (fun x => k))
  (at level 10, x name, p at level 200, k at level 200).

Definition loadBuddyMap : prog BuddyMap := LoadBuddies Ret.
Definition saveBuddyMap (m : BuddyMap) : prog unit := SaveBuddies m (Ret tt).
Definition loadGroupMap : prog GroupMap := LoadGroups Ret.
Definition saveGroupMap (m : GroupMap) : prog unit := SaveGroups m (Ret tt).
Definition loadConvHandles : prog (list (string * string)) := LoadHandles Ret.
Definition now : prog Z := Now Ret.
Definition peerAccountKeysFor (c : string) : prog (list string) := PeerKeys c Ret.
Definition tell (e : effect) : prog unit := Tell e (Ret tt).
Definition unlocked_ : prog bool := Unlocked Ret.

(** *** Buddies *)

Record Buddy := MkBuddyView { username : string; addedAt : Z; group : string }.
Definition present_buddies (m : BuddyMap) : list Buddy :=
  (fun x => MkBuddyView x.1 (b_addedAt x.2) (b_group x.2)) <$>
  List.filter (fun x => negb (b_removed x.2)) (entries m).
Definition listBuddies : prog (list Buddy) :=
  let* m := loadBuddyMap in Ret (present_buddies m).

(** [{ ...existing }]: nothing of what is inherited is copied; what is missing is read back as its
    default. *)
Definition spread (s : slot BuddyEntry) : BuddyEntry :=
  match s with Own e => e | _ => MkBuddy 0 0 false DEFAULT_GROUP None end.

(** [sanitizeGroupName(group)], or the default group. *)
Definition folder (group : option string) : string :=
  let g := match group with Some g => sanitizeGroupName g | None => "" end in
  if bool_decide (g = "") then DEFAULT_GROUP else g.

Definition is_present (s : slot BuddyEntry) : bool :=
  match s with Absent => false | Inherited => true | Own e => negb (b_removed e) end.

Definition addBuddy (name : string) (group : option string) : prog (list Buddy) :=
  let u := normalize_handle name in
  if bool_decide (u = "") then listBuddies else
  let* m := loadBuddyMap in
  if is_present (read u m) then listBuddies else
  let* added := now in
  let* t := now in
  let* _ := saveBuddyMap (write u (MkBuddy (added / 1000) t false (folder group) None) m) in
  let* _ := tell SyncBuddies in
  listBuddies.

Definition setBuddyGroup (name group : string) : prog (list Buddy) :=
  let u := normalize_handle name in
  let g := folder (Some group) in
  let* m := loadBuddyMap in
  let same := match read u m with Own e => bool_decide (b_group e = g) | _ => false end in
  if negb (is_present (read u m)) || same then listBuddies else
  let* t := now in
  let e := spread (read u m) in
  let* _ := saveBuddyMap (write u (MkBuddy (b_addedAt e) t (b_removed e) g (b_vk e)) m) in
  let* _ := tell SyncBuddies in
  listBuddies.

Definition removeBuddy (name : string) : prog (list Buddy) :=
  let u := normalize_handle name in
  let* m := loadBuddyMap in
  if negb (is_present (read u m)) then listBuddies else
  let* t := now in
  let e := spread (read u m) in
  let* _ := saveBuddyMap (write u (MkBuddy (b_addedAt e) t true (b_group e) (b_vk e)) m) in
  let* _ := tell SyncBuddies in
  listBuddies.

(** The frame for the other devices, before it is encoded. *)
Definition buddiesFrame : prog (option json) :=
  let* on := unlocked_ in
  if negb on then Ret None else
  let* m := loadBuddyMap in Ret (Some (JObj [("buddies", buddies_json m)])).

(** [adoptBuddies], on what [JSON.parse] gave; [None] when it threw. *)
Definition adoptBuddies (parsed : option json) : prog unit :=
  let* on := unlocked_ in
  if negb on then Ret tt else
  match parsed with
  | None | Some JNull => Ret tt
  | Some o =>
      match normalizeBuddyMap (prop o "buddies") with
      | Throw _ => Ret tt
      | Ok incoming =>
          let* local := loadBuddyMap in
          let* t := now in
          let (merged, changed) := adopt_buddies (t + CRDT_MAX_FUTURE_MS) local incoming in
          if negb changed then Ret tt else
          let* _ := saveBuddyMap merged in
          let* _ := tell SyncBuddies in
          tell BuddiesUpdated
      end
  end.

(** *** Verified keys *)

(** Exactly one account in the conversation that is tagged with the handle, or the empty string. *)
Definition buddyPeerKey (handles : list (string * string)) (name : string) : prog string :=
  match read (normalize_handle name) handles with
  | Own c =>
      let* keys := peerAccountKeysFor c in
      Ret (match keys with [k] => k | _ => "" end)
  | _ => Ret ""
  end.

Inductive badge := Verified | Changed | Stale.
Definition badge_of (peerKey vk : string) : badge :=
  if bool_decide (peerKey = "") then Stale
  else if negb (bool_decide (peerKey = vk)) then Changed else Verified.

Definition pin_of (s : slot BuddyEntry) : string :=
  match s with Own e => default "" (b_vk e) | _ => "" end.
Definition is_tombstone (s : slot BuddyEntry) : bool :=
  match s with Own e => b_removed e | _ => false end.

Fixpoint badges (m : BuddyMap) (handles : list (string * string)) (names : list string)
    (out : list (string * badge)) : prog (list (string * badge)) :=
  match names with
  | [] => Ret out
  | name :: names =>
      let u := normalize_handle name in
      let vk := pin_of (read u m) in
      if bool_decide (vk = "") || is_tombstone (read u m) then badges m handles names out else
      let* peerKey := buddyPeerKey handles u in
      badges m handles names (write name (badge_of peerKey vk) out)
  end.
Definition buddyVerifyStates (names : list string) : prog (list (string * badge)) :=
  let* m := loadBuddyMap in
  let* handles := loadConvHandles in
  badges m handles names [].

Definition markBuddyVerified (name peerKey expectedPrev : string) : prog bool :=
  let u := normalize_handle name in
  if negb (is_key peerKey) then Ret false else
  let* handles := loadConvHandles in
  let* current := buddyPeerKey handles u in
  if negb (bool_decide (current = peerKey)) then Ret false else
  let* m := loadBuddyMap in
  if negb (is_present (read u m)) then Ret false else
  if negb (bool_decide (pin_of (read u m) = expectedPrev)) then Ret false else
  let* t := now in
  let e := spread (read u m) in
  let* _ := saveBuddyMap (write u (MkBuddy (b_addedAt e) t (b_removed e) (b_group e) (Some peerKey)) m) in
  let* _ := tell SyncBuddies in
  Ret true.

Definition clearBuddyVerified (name : string) : prog unit :=
  let u := normalize_handle name in
  let* m := loadBuddyMap in
  match read u m with
  | Own (MkBuddy a _ r g (Some _)) =>
      let* t := now in
      let* _ := saveBuddyMap (write u (MkBuddy a t r g None) m) in
      tell SyncBuddies
  | _ => Ret tt
  end.

Definition one_to_one (keys : list string) : bool := (length keys =? 1)%nat.
Definition tagConversationHandle (conversationId name : string) : prog unit :=
  let* on := unlocked_ in
  let u := normalize_handle name in
  if negb on || bool_decide (u = "") || bool_decide (conversationId = "") then Ret tt else
  let* m := loadConvHandles in
  let* keep := match read u m with
    | Absent => Ret false
    | Inherited => Ret false
    | Own prev =>
        if bool_decide (prev = conversationId) then Ret false else
        let* before := peerAccountKeysFor prev in
        let* after := peerAccountKeysFor conversationId in
        Ret (one_to_one before && negb (one_to_one after))
    end in
  if keep then Ret tt else SaveHandles (write u conversationId m) (Ret tt).

(** What the panel to verify a buddy shows, given the phrases and fingerprints the crypto core makes. *)
Class Phrases := {
  accountKeyHex : string;
  contactPhraseFor : string -> string;
  fingerprintOf : string -> string;
  accountFingerprint : string
}.
Inductive panel := PanelNone | PanelUnavailable | Panel (b : badge).
Record BuddyVerifyInfo := MkVerifyInfo {
  vi_peerKey : string;
  vi_peerFingerprint : string;
  vi_ourFingerprint : string;
  vi_ourWords : string;
  vi_theirWords : string;
  vi_verifiedKey : string;
  vi_state : panel
}.
Definition buddyVerifyInfo `{Phrases} (name : string) : prog BuddyVerifyInfo :=
  let u := normalize_handle name in
  let* handles := loadConvHandles in
  let* peerKey := buddyPeerKey handles u in
  let* m := loadBuddyMap in
  let verifiedKey := pin_of (read u m) in
  let ourWords := contactPhraseFor accountKeyHex in
  let theirWords := if bool_decide (peerKey = "") then "" else contactPhraseFor peerKey in
  let comparable := negb (bool_decide (ourWords = "")) && negb (bool_decide (theirWords = "")) in
  let state := if negb (bool_decide (verifiedKey = "")) then Panel (badge_of peerKey verifiedKey)
               else if comparable then PanelNone else PanelUnavailable in
  Ret (MkVerifyInfo peerKey (if bool_decide (peerKey = "") then "" else fingerprintOf peerKey)
         accountFingerprint ourWords theirWords verifiedKey state).

(** *** Groups *)

Inductive role := RoleDefault | RoleBlocked.
#[export] Instance role_eq_dec : EqDecision role.
Proof. solve_decision. Defined.
Record GroupSummary := MkSummary { s_name : string; s_role : option role }.

Definition label_of (s : slot GroupEntry) (fallback : string) : string :=
  match s with
  | Own (MkGroup _ _ _ (Some n)) => if bool_decide (n = "") then fallback else n
  | _ => fallback
  end.
Definition def_label (m : GroupMap) : string := label_of (read RK_DEFAULT m) DEFAULT_GROUP.
Definition blocked_label (m : GroupMap) : string := label_of (read RK_BLOCKED m) BLOCKED_LABEL_FALLBACK.

Definition has_nul (s : string) : bool :=
  bool_decide (Ascii.ascii_of_nat 0 ∈ String.list_ascii_of_string s).

(** The names of the groups the user made that are not deleted. *)
Definition customs (m : GroupMap) : list (string * GroupEntry) :=
  List.filter (fun x => negb (g_removed x.2) && negb (has_nul x.1)) (entries m).

(** [localeCompare] depends on the language of the browser. *)
Class LocaleCompare := localeCompare : string -> string -> Z.

Section groups.
Context `{LocaleCompare}.

(** The comparison of [listGroups], and the stable sort that uses it. *)
Definition comes_before (a z : string * GroupEntry) : bool :=
  (g_order a.2 <? g_order z.2) ||
  ((g_order a.2 =? g_order z.2) && (localeCompare a.1 z.1 <=? 0)).
Fixpoint insert_group (x : string * GroupEntry) (l : list (string * GroupEntry)) :=
  match l with
  | [] => [x]
  | y :: l' => if comes_before x y then x :: l else y :: insert_group x l'
  end.
Definition sort_groups (l : list (string * GroupEntry)) := foldr insert_group [] l.

Definition summaries (m : GroupMap) : list GroupSummary :=
  MkSummary (def_label m) (Some RoleDefault)
    :: ((fun x => MkSummary x.1 None) <$> sort_groups (customs m))
    ++ [MkSummary (blocked_label m) (Some RoleBlocked)].
Definition listGroups : prog (list GroupSummary) :=
  let* m := loadGroupMap in Ret (summaries m).

Definition group_present (s : slot GroupEntry) : bool :=
  match s with Absent => false | Inherited => true | Own e => negb (g_removed e) end.
Definition max_order (m : GroupMap) : Z := foldl (fun n x => Z.max n (g_order x.2)) 0 (entries m).

Definition addGroup (name : string) : prog (list GroupSummary) :=
  let g := sanitizeGroupName name in
  let* first := loadGroupMap in
  if bool_decide (g = "") || bool_decide (g = DEFAULT_GROUP) || bool_decide (g = def_label first)
     || bool_decide (g = blocked_label first) then listGroups else
  let* m := loadGroupMap in
  if group_present (read g m) then listGroups else
  let* t := now in
  let* _ := saveGroupMap (write g (MkGroup t false (max_order m + 1) None) m) in
  let* _ := tell SyncGroups in
  listGroups.

Definition renameGroup (r : role) (name : string) : prog (list GroupSummary) :=
  let g := sanitizeGroupName name in
  if bool_decide (g = "") then listGroups else
  let* m := loadGroupMap in
  let other := match r with RoleDefault => blocked_label m | RoleBlocked => def_label m end in
  let collides := bool_decide (g = other)
    || (negb (bool_decide (r = RoleDefault)) && bool_decide (g = DEFAULT_GROUP))
    || existsb (fun x => bool_decide (x.1 = g)) (customs m) in
  if collides then listGroups else
  let* t := now in
  let key := match r with RoleDefault => RK_DEFAULT | RoleBlocked => RK_BLOCKED end in
  let* _ := saveGroupMap (write key (MkGroup t false 0 (Some g)) m) in
  let* _ := tell SyncGroups in
  listGroups.

(** The loop of [deleteGroup] over the buddies: each one filed under the group moves at its own time. *)
Fixpoint move_out (g : string) (l : list (string * BuddyEntry)) (buddies : BuddyMap) (movedAny : bool)
    : prog (BuddyMap * bool) :=
  match l with
  | [] => Ret (buddies, movedAny)
  | (u, ent) :: l =>
      if negb (b_removed ent) && bool_decide (b_group ent = g) then
        let* t := now in
        move_out g l (write u (MkBuddy (b_addedAt ent) t (b_removed ent) DEFAULT_GROUP (b_vk ent)) buddies) true
      else move_out g l buddies movedAny
  end.

Definition tombstone (t : Z) (s : slot GroupEntry) : GroupEntry :=
  match s with
  | Own e => MkGroup t true (g_order e) (g_n e)
  | _ => MkGroup t true 0 None
  end.
Definition deleteGroup (name : string) : prog (list GroupSummary) :=
  let g := Auth.trim name in
  if bool_decide (g = "") || bool_decide (g = DEFAULT_GROUP) || has_nul g then listGroups else
  let* m := loadGroupMap in
  if negb (group_present (read g m)) then listGroups else
  let* t := now in
  let* _ := saveGroupMap (write g (tombstone t (read g m)) m) in
  let* buddies := loadBuddyMap in
  let* moved := move_out g (entries buddies) buddies false in
  let* _ := if moved.2 then let* _ := saveBuddyMap moved.1 in tell SyncBuddies else Ret tt in
  let* _ := tell SyncGroups in
  listGroups.
End groups.

Definition groupsFrame : prog (option json) :=
  let* on := unlocked_ in
  if negb on then Ret None else
  let* m := loadGroupMap in Ret (Some (JObj [("groups", groups_json m)])).

Definition adoptGroups (parsed : option json) : prog unit :=
  let* on := unlocked_ in
  if negb on then Ret tt else
  match parsed with
  | None | Some JNull => Ret tt
  | Some o =>
      let incoming := normalizeGroupMap (prop o "groups") in
      let* local := loadGroupMap in
      let* t := now in
      let (merged, changed) := adopt_groups (t + CRDT_MAX_FUTURE_MS) local incoming in
      if negb changed then Ret tt else
      let* _ := saveGroupMap merged in
      let* _ := tell SyncGroups in
      tell GroupsUpdated
  end.

(** *** The block list *)

Definition blocked_of (e : json) : option Blocked :=
  match e with
  | JStr k => Some (MkBlocked k None)
  | _ =>
      match prop e "k" with
      | Some (JStr k) => Some (MkBlocked k (match prop e "u" with Some (JStr u) => Some u | _ => None end))
      | _ => None
      end
  end.
Definition normalizeBlocked (raw : option json) : list Blocked :=
  match raw with Some (JArr l) => omap blocked_of l | _ => [] end.
Definition blocked_json (l : list Blocked) : json :=
  JArr ((fun e => JObj (("k", JStr (k_key e)) ::
                        match k_name e with Some u => [("u", JStr u)] | None => [] end)) <$> l).

Definition loadBlockedEntries : prog (list Blocked) := LoadBlocked Ret.
Definition saveBlocked (l : list Blocked) : prog unit := SaveBlocked l (Ret tt).
Definition listBlockedKeys : prog (list string) :=
  let* l := loadBlockedEntries in Ret (k_key <$> l).

(** One turn of the loop of [blockKeys]: a new entry at the end, or a name for the first entry that has
    none. *)
Fixpoint block_key (username : option string) (k : string) (l : list Blocked) : list Blocked :=
  match l with
  | [] => [MkBlocked k username]
  | e :: l' =>
      if bool_decide (k_key e = k) then
        (match k_name e, username with None, Some u => MkBlocked k (Some u) | _, _ => e end) :: l'
      else e :: block_key username k l'
  end.
Definition blockKeys (keys : list string) (username : option string) : prog unit :=
  let* entries := loadBlockedEntries in
  saveBlocked (foldl (fun l k => block_key username k l) entries keys).

Definition isBlockedRoster (peers : list string) : prog bool :=
  match peers with
  | [] => Ret false
  | _ => let* keys := listBlockedKeys in Ret (forallb (fun k => bool_decide (k ∈ keys)) peers)
  end.

Definition listBlocked `{Phrases} : prog (list (string * string * option string)) :=
  let* l := loadBlockedEntries in Ret ((fun e => (k_key e, fingerprintOf (k_key e), k_name e)) <$> l).
Definition unblock `{Phrases} (key : string) : prog (list (string * string * option string)) :=
  let* l := loadBlockedEntries in
  let* _ := saveBlocked (List.filter (fun e => negb (bool_decide (k_key e = key))) l) in
  listBlocked.

Definition handleForConversation (conversationId : string) : prog (option string) :=
  let* handles := loadConvHandles in
  Ret (match List.filter (fun x => bool_decide (x.2 = conversationId)) (entries handles) with
       | [x] => Some x.1
       | _ => None
       end).

(** ** Running the methods *)

Definition handle_of (out : list (string * string)) (x : string * json) : list (string * string) :=
  match x.2 with JStr c => write x.1 c out | _ => out end.
(** An array has its indices as keys; nothing that was saved is one. *)
Definition normalizeHandles (raw : option json) : list (string * string) :=
  match raw with Some (JObj fields) => foldl handle_of [] (entries fields) | _ => [] end.
Definition handles_json (m : list (string * string)) : json :=
  JObj ((fun x => (x.1, JStr x.2)) <$> entries m).

(** What the methods see: whether an account is unlocked, the sealed records as the JSON in them, the
    clock, and the account keys that the group channel verified in each conversation; and what they did:
    the effects, and each answer about keys. *)
Inductive event := Told (e : effect) | Answered (conversationId : string) (keys : list string).
Record State := MkState {
  unlocked : bool;
  buddies : option json;
  groups : option json;
  handles : option json;
  blocked : option json;
  clock : Z;
  peer_keys : string -> list string;
  log : list event
}.
Definition set_buddies (s : State) (j : json) :=
  MkState (unlocked s) (Some j) (groups s) (handles s) (blocked s) (clock s) (peer_keys s) (log s).
Definition set_groups (s : State) (j : json) :=
  MkState (unlocked s) (buddies s) (Some j) (handles s) (blocked s) (clock s) (peer_keys s) (log s).
Definition set_handles (s : State) (j : json) :=
  MkState (unlocked s) (buddies s) (groups s) (Some j) (blocked s) (clock s) (peer_keys s) (log s).
Definition set_blocked (s : State) (j : json) :=
  MkState (unlocked s) (buddies s) (groups s) (handles s) (Some j) (clock s) (peer_keys s) (log s).
Definition add_log (s : State) (e : event) :=
  MkState (unlocked s) (buddies s) (groups s) (handles s) (blocked s) (clock s) (peer_keys s) (log s ++ [e]).

(** The buddies that a load gives; a record that does not parse gives none. *)
Definition read_buddies (s : State) : BuddyMap :=
  if negb (unlocked s) then [] else
  match normalizeBuddyMap (buddies s) with Ok m => m | Throw _ => [] end.
Definition read_groups (s : State) : GroupMap :=
  if negb (unlocked s) then [] else normalizeGroupMap (groups s).
Definition read_handles (s : State) : list (string * string) :=
  if negb (unlocked s) then [] else normalizeHandles (handles s).
Definition read_blocked (s : State) : list Blocked :=
  if negb (unlocked s) then [] else normalizeBlocked (blocked s).

(** The next load, save or other call of a method. *)
Definition pstep {A} (p : prog A) (s : State) : prog A * State :=
  match p with
  | Ret a => (p, s)
  | Unlocked k => (k (unlocked s), s)
  | LoadBuddies k => (k (read_buddies s), s)
  | SaveBuddies m k => (k, if unlocked s then set_buddies s (buddies_json m) else s)
  | LoadGroups k => (k (read_groups s), s)
  | SaveGroups m k => (k, if unlocked s then set_groups s (groups_json m) else s)
  | LoadHandles k => (k (read_handles s), s)
  | SaveHandles m k => (k, if unlocked s then set_handles s (handles_json m) else s)
  | LoadBlocked k => (k (read_blocked s), s)
  | SaveBlocked m k => (k, if unlocked s then set_blocked s (blocked_json m) else s)
  | Now k => (k (clock s), s)
  | PeerKeys c k => (k (peer_keys s c), add_log s (Answered c (peer_keys s c)))
  | Tell e k => (k, add_log s (Told e))
  end.

(** A method on its own, to its end. *)
Fixpoint run {A} (p : prog A) (s : State) : A * State :=
  match p with
  | Ret a => (a, s)
  | Unlocked k => run (k (unlocked s)) s
  | LoadBuddies k => run (k (read_buddies s)) s
  | SaveBuddies m k => run k (if unlocked s then set_buddies s (buddies_json m) else s)
  | LoadGroups k => run (k (read_groups s)) s
  | SaveGroups m k => run k (if unlocked s then set_groups s (groups_json m) else s)
  | LoadHandles k => run (k (read_handles s)) s
  | SaveHandles m k => run k (if unlocked s then set_handles s (handles_json m) else s)
  | LoadBlocked k => run (k (read_blocked s)) s
  | SaveBlocked m k => run k (if unlocked s then set_blocked s (blocked_json m) else s)
  | Now k => run (k (clock s)) s
  | PeerKeys c k => run (k (peer_keys s c)) (add_log s (Answered c (peer_keys s c)))
  | Tell e k => run k (add_log s (Told e))
  end.

(** Methods interleaved.  A turn is one call of one method: finer than the awaits of the source, so
    every order that the event loop can choose is among the schedules. *)
Definition task : Type := prog unit.
Definition Pool : Type := list task * State.
Inductive move :=
  | Begin (p : task)
  | Turn (i : nat)
  | Tick (t : Z)
  | Keys (f : string -> list string).
Definition play (w : Pool) (m : move) : Pool :=
  let (ts, s) := w in
  match m with
  | Begin p => (ts ++ [p], s)
  | Turn i =>
      match ts !! i with
      | Some p => let (p', s') := pstep p s in (<[i := p']> ts, s')
      | None => w
      end
  | Tick t => (ts, MkState (unlocked s) (buddies s) (groups s) (handles s) (blocked s) (clock s + Z.max 0 t)
                     (peer_keys s) (log s))
  | Keys f => (ts, MkState (unlocked s) (buddies s) (groups s) (handles s) (blocked s) (clock s) f (log s))
  end.
Definition plays (w : Pool) (ms : list move) : Pool := foldl play w ms.

(** The calls of the methods, from the interface and from the group channel. *)
Inductive op :=
  | AddBuddy (name : string) (group : option string)
  | SetBuddyGroup (name group : string)
  | RemoveBuddy (name : string)
  | AdoptBuddies (parsed : option json)
  | MarkBuddyVerified (name peerKey expectedPrev : string)
  | ClearBuddyVerified (name : string)
  | AddGroup (name : string)
  | RenameGroup (r : role) (name : string)
  | DeleteGroup (name : string)
  | AdoptGroups (parsed : option json)
  | TagConversationHandle (conversationId name : string)
  | BlockKeys (keys : list string) (username : option string).
Definition method `{LocaleCompare} (o : op) : task :=
  match o with
  | AddBuddy n g => let* _ := addBuddy n g in Ret tt
  | SetBuddyGroup n g => let* _ := setBuddyGroup n g in Ret tt
  | RemoveBuddy n => let* _ := removeBuddy n in Ret tt
  | AdoptBuddies p => adoptBuddies p
  | MarkBuddyVerified n k prev => let* _ := markBuddyVerified n k prev in Ret tt
  | ClearBuddyVerified n => clearBuddyVerified n
  | AddGroup n => let* _ := addGroup n in Ret tt
  | RenameGroup r n => let* _ := renameGroup r n in Ret tt
  | DeleteGroup n => let* _ := deleteGroup n in Ret tt
  | AdoptGroups p => adoptGroups p
  | TagConversationHandle c n => tagConversationHandle c n
  | BlockKeys ks n => blockKeys ks n
  end.
End Contacts.
