(* ===== verification/ContactsLogic.v ===== *)
(** * Loads, saves and what the methods keep to

    The enumeration order of plain objects, names that sanitizing leaves alone, that a map read from
    a record is saved and loaded unchanged, and a program logic for the methods of Contacts.v: from
    allowed loads, times and answers a method saves only allowed maps, however it is interleaved with
    others. *)

From S2P Require Import Prelude Json Integrity Auth Contacts.
Import JsObj Contacts.

(** ** Lists *)

Lemma filter_split {A} (p : A -> bool) (l : list A) :
  List.filter p l ++ List.filter (fun x => negb (p x)) l ≡ₚ l.
Proof.
  induction l as [|x l IH]; simpl; [done|]. destruct (p x); simpl; [by rewrite IH|].
  by rewrite <-Permutation_middle, IH.
Qed.
Lemma elem_of_list_filter {A} (p : A -> bool) (l : list A) x : x ∈ List.filter p l <-> x ∈ l /\ p x = true.
Proof. rewrite !list_elem_of_In. apply filter_In. Qed.
Lemma sort_by_id {A} (key : A -> Z) (l : list A) : StronglySorted (key_le key) l -> sort_by key l = l.
Proof.
  induction l as [|x l IH]; simpl; intros H; [done|].
  apply StronglySorted_inv in H as [H Hx]. rewrite IH by done.
  destruct l as [|y l]; simpl; [done|]. inversion Hx as [|? ? Hxy]; subst. unfold key_le in Hxy.
  by rewrite (proj2 (Z.leb_le _ _)) by done.
Qed.

(** ** Plain objects *)

Section objects.
Context {V : Type}.
Implicit Types (m : list (string * V)) (x : string * V).

Definition is_index (k : string) : bool := bool_decide (is_Some (array_index k)).
Definition index_of x : Z := default 0 (array_index x.1).

Lemma entries_alt m :
  entries m = sort_by index_of (List.filter (fun x => is_index x.1) m)
              ++ List.filter (fun x => negb (is_index x.1)) m.
Proof. done. Qed.

Lemma entries_perm m : entries m ≡ₚ m.
Proof. by rewrite entries_alt, sort_by_perm, filter_split. Qed.
Lemma elem_of_entries m x : x ∈ entries m <-> x ∈ m.
Proof. by rewrite entries_perm. Qed.
Lemma entries_keys m : (entries m).*1 ≡ₚ m.*1.
Proof. by rewrite entries_perm. Qed.
Lemma entries_nodup m : NoDup m.*1 -> NoDup (entries m).*1.
Proof. by rewrite entries_keys. Qed.

(** Enumerating twice changes nothing. *)
Lemma entries_entries m : entries (entries m) = entries m.
Proof.
  rewrite (entries_alt (entries m)), entries_alt, !List.filter_app.
  assert (forall x, x ∈ sort_by index_of (List.filter (fun x => is_index x.1) m) -> is_index x.1 = true) as H1.
  { intros x. rewrite sort_by_perm, elem_of_list_filter. tauto. }
  assert (forall x, x ∈ List.filter (fun x => negb (is_index x.1)) m -> is_index x.1 = false) as H2.
  { intros x. rewrite elem_of_list_filter, negb_true_iff. tauto. }
  rewrite (filter_all _ (sort_by _ _)) by done. rewrite (filter_none _ (List.filter _ m)) by done.
  rewrite (filter_none _ (sort_by _ _)) by (intros x Hx; by rewrite H1).
  rewrite (filter_all _ (List.filter _ m)) by (intros x Hx; by rewrite H2).
  rewrite app_nil_r, sort_by_id; [done|]. apply sort_by_sorted.
Qed.
End objects.

(** Enumerating depends on the names alone. *)
Lemma filter_fmap {A B} (f : A -> B) (p : B -> bool) (l : list A) :
  List.filter p (f <$> l) = f <$> List.filter (fun x => p (f x)) l.
Proof. induction l as [|x l IH]; csimpl; [done|]. destruct (p (f x)); csimpl; by rewrite IH. Qed.
Lemma sort_by_fmap {A B} (f : A -> B) (ka : A -> Z) (kb : B -> Z) (l : list A) :
  (forall x, kb (f x) = ka x) -> sort_by kb (f <$> l) = f <$> sort_by ka l.
Proof.
  intros H. assert (forall x l, insert_by kb (f x) (f <$> l) = f <$> insert_by ka x l) as Hi.
  { intros x l'. induction l' as [|y l' IH]; csimpl; [done|]. rewrite !H. destruct (ka x <=? ka y); csimpl; [done|].
    by rewrite IH. }
  induction l as [|x l IH]; csimpl; [done|]. by rewrite IH, Hi.
Qed.
Lemma entries_fmap {V W} (f : string * V -> W) (m : list (string * V)) :
  entries ((fun x => (x.1, f x)) <$> m) = (fun x => (x.1, f x)) <$> entries m.
Proof.
  rewrite !entries_alt, !filter_fmap, fmap_app. simpl. f_equal. by apply sort_by_fmap.
Qed.

Lemma NoDup_lookup {V} (m : list (string * V)) k v : NoDup m.*1 -> (k, v) ∈ m -> JsMap.lookup k m = Some v.
Proof.
  induction m as [|[k' v'] m IH]; simpl; intros Hn Hin; [by apply elem_of_nil in Hin|].
  apply NoDup_cons in Hn as [Hk Hn]. apply elem_of_cons in Hin as [[= <- <-]|Hin]; [by rewrite decide_True|].
  rewrite decide_False; [by apply IH|]. intros ->. apply Hk. by apply (list_elem_of_fmap_2 fst) in Hin.
Qed.
Lemma lookup_perm {V} (m m' : list (string * V)) k :
  NoDup m.*1 -> m ≡ₚ m' -> JsMap.lookup k m = JsMap.lookup k m'.
Proof.
  intros Hn Hp. destruct (JsMap.lookup k m) as [v|] eqn:E.
  - apply JsMap.lookup_Some_in in E. symmetry. apply NoDup_lookup; [by rewrite <-Hp|by rewrite <-Hp].
  - apply JsMap.lookup_None in E. symmetry. apply JsMap.lookup_None. by rewrite <-Hp.
Qed.
Lemma lookup_entries {V} (m : list (string * V)) k :
  NoDup m.*1 -> JsMap.lookup k (entries m) = JsMap.lookup k m.
Proof. intros H. apply lookup_perm; [by apply entries_nodup|apply entries_perm]. Qed.

Lemma write_nodup {V} k v (m : list (string * V)) : NoDup m.*1 -> NoDup (write k v m).*1.
Proof. intros H. unfold write. case_bool_decide; [done|]. by apply JsMap.NoDup_set. Qed.
Lemma elem_of_write {V} k v (m : list (string * V)) x :
  x ∈ write k v m -> x = (k, v) /\ k <> "__proto__" \/ x ∈ m.
Proof.
  unfold write. case_bool_decide; [by right|]. induction m as [|[k' v'] m IH]; simpl.
  - rewrite list_elem_of_singleton. by left.
  - case_decide; subst; rewrite !elem_of_cons; naive_solver.
Qed.
Lemma inherited_proto k : k ∉ inherited -> k <> "__proto__".
Proof. intros H ->. apply H. by apply (bool_decide_unpack _). Qed.
Lemma lookup_write {V} k k' v (m : list (string * V)) :
  k' <> "__proto__" -> JsMap.lookup k (write k' v m) = if decide (k = k') then Some v else JsMap.lookup k m.
Proof. intros H. unfold write. rewrite bool_decide_eq_false_2 by done. apply JsMap.lookup_set. Qed.
Lemma write_proto {V} k v (m : list (string * V)) :
  JsMap.lookup "__proto__" m = None -> JsMap.lookup "__proto__" (write k v m) = None.
Proof.
  intros H. unfold write. case_bool_decide; [done|]. by rewrite JsMap.lookup_set_ne by congruence.
Qed.
Lemma read_own {V} k (m : list (string * V)) v : read k m = Own v <-> JsMap.lookup k m = Some v.
Proof. unfold read. destruct (JsMap.lookup k m); [naive_solver|]. case_bool_decide; naive_solver. Qed.
Lemma read_plain {V} k (m : list (string * V)) :
  k ∉ inherited -> read k m = match JsMap.lookup k m with Some v => Own v | None => Absent end.
Proof. intros H. unfold read. by rewrite bool_decide_eq_false_2. Qed.

(** Writing the entries of an object into an empty one copies it. *)
Lemma rebuild {V W} (f : V -> W) (m : list (string * V)) (out : list (string * W)) :
  NoDup m.*1 -> "__proto__" ∉ m.*1 -> (forall k, k ∈ m.*1 -> k ∉ out.*1) ->
  foldl (fun out x => write x.1 (f x.2) out) out m = out ++ ((fun x => (x.1, f x.2)) <$> m).
Proof.
  revert out. induction m as [|[k v] m IH]; intros out Hn Hp Ho; simpl in *; [by rewrite app_nil_r|].
  apply NoDup_cons in Hn as [Hk Hn].
  unfold write at 2. rewrite bool_decide_eq_false_2 by set_solver. rewrite JsMap.set_fresh by set_solver.
  rewrite IH; [by rewrite <-app_assoc|done|set_solver|].
  intros k' Hk' Hin. rewrite fmap_app in Hin. apply elem_of_app in Hin as [Hin|Hin]; [set_solver|].
  simpl in Hin. apply list_elem_of_singleton in Hin as ->. done.
Qed.

(** ** Names *)

Section names.
Implicit Types (l : list Ascii.ascii) (s : string).

Lemma trim_alt s : Auth.trim s = String.string_of_list_ascii (trim_list (String.list_ascii_of_string s)).
Proof. done. Qed.
Lemma trim_idemp s : Auth.trim (Auth.trim s) = Auth.trim s.
Proof. by rewrite !trim_alt, String.list_ascii_of_string_of_list_ascii, trim_list_idemp. Qed.

Lemma substring_take n s :
  String.list_ascii_of_string (String.substring 0 n s) = take n (String.list_ascii_of_string s).
Proof. revert n. induction s as [|c s IH]; intros [|n]; simpl; [done..|]. by rewrite IH. Qed.

(** Normalizing a handle twice changes nothing. *)
Lemma lower_space c : is_space (lower_char c) = is_space c.
Proof. by destruct c as [[] [] [] [] [] [] [] []]. Qed.
Lemma lower_idemp c : lower_char (lower_char c) = lower_char c.
Proof. by destruct c as [[] [] [] [] [] [] [] []]. Qed.
Lemma lower_list s : String.list_ascii_of_string (toLowerCase s) = lower_char <$> String.list_ascii_of_string s.
Proof. induction s as [|c s IH]; simpl; [done|]. by rewrite IH. Qed.
Lemma lower_code c n : 128 <= n -> (char_code (lower_char c) =? n) = (char_code c =? n).
Proof.
  intros Hn. destruct (decide (lower_char c = c)) as [->|E]; [done|].
  assert (char_code c < 128 /\ char_code (lower_char c) < 128) as [??];
    [destruct c as [[] [] [] [] [] [] [] []]; by first [destruct (E eq_refl) | vm_compute]|].
  rewrite (proj2 (Z.eqb_neq _ _)), (proj2 (Z.eqb_neq _ _)) by lia. done.
Qed.
Lemma lower_among c (ns : list Z) : Forall (fun n => 128 <= n) ns ->
  existsb (Z.eqb (char_code (lower_char c))) ns = existsb (Z.eqb (char_code c)) ns.
Proof. induction 1 as [|n ns Hn _ IH]; [done|]. cbn. by rewrite IH, lower_code. Qed.
Lemma lower_wide2 a b : wide_blank2 (lower_char a) (lower_char b) = wide_blank2 a b.
Proof. unfold wide_blank2. by rewrite !lower_code by lia. Qed.
Lemma lower_wide3 a b c : wide_blank3 (lower_char a) (lower_char b) (lower_char c) = wide_blank3 a b c.
Proof. unfold wide_blank3. by rewrite !lower_among by (repeat constructor; lia). Qed.
Lemma rev_fmap {A B} (f : A -> B) (l : list A) : rev (f <$> l) = f <$> rev l.
Proof. induction l as [|x l IH]; csimpl; [done|]. by rewrite fmap_app, IH. Qed.
Lemma trim_list_lower l : trim_list (lower_char <$> l) = lower_char <$> trim_list l.
Proof.
  unfold trim_list, skip_head, skip_tail.
  rewrite skip_map by auto using lower_space, lower_wide2, lower_wide3. rewrite rev_fmap.
  rewrite skip_map by (intros; first [apply lower_space | apply lower_wide2 | apply lower_wide3]). by rewrite rev_fmap.
Qed.
Lemma normalize_handle_list s :
  String.list_ascii_of_string (normalize_handle s) = lower_char <$> trim_list (String.list_ascii_of_string s).
Proof. unfold normalize_handle. by rewrite lower_list, trim_alt, String.list_ascii_of_string_of_list_ascii. Qed.
Lemma normalize_handle_idemp s : normalize_handle (normalize_handle s) = normalize_handle s.
Proof.
  assert (forall a b, String.list_ascii_of_string a = String.list_ascii_of_string b -> a = b) as Hinj.
  { intros a b E. by rewrite <-(String.string_of_list_ascii_of_string a), E, String.string_of_list_ascii_of_string. }
  apply Hinj. rewrite !normalize_handle_list, trim_list_lower, trim_list_idemp, <-list_fmap_compose.
  apply list_fmap_ext. intros i c _. apply lower_idemp.
Qed.

(** A group name the client makes is one it keeps. *)
Definition sanitize_list l :=
  trim_list (take GROUP_NAME_MAX (trim_list (List.filter (fun c => negb (is_control c)) l))).
Lemma sanitize_alt s :
  sanitizeGroupName s = String.string_of_list_ascii (sanitize_list (String.list_ascii_of_string s)).
Proof.
  unfold sanitizeGroupName. cbv zeta.
  by rewrite trim_alt, substring_take, trim_alt, !String.list_ascii_of_string_of_list_ascii.
Qed.
Lemma sanitize_list_plain l c : c ∈ sanitize_list l -> is_control c = false.
Proof.
  intros H. apply trim_list_sub in H. apply elem_of_take in H as (i & H & _).
  apply list_elem_of_lookup_2, trim_list_sub, elem_of_list_filter in H as [_ H]. by apply negb_true_iff in H.
Qed.
Lemma sanitize_list_short l : (length (sanitize_list l) <= GROUP_NAME_MAX)%nat.
Proof. unfold sanitize_list. pose proof (trim_list_length (take GROUP_NAME_MAX
  (trim_list (List.filter (fun c => negb (is_control c)) l)))) as H. rewrite length_take in H. lia. Qed.
Lemma sanitize_idemp s : sanitizeGroupName (sanitizeGroupName s) = sanitizeGroupName s.
Proof.
  rewrite !sanitize_alt, String.list_ascii_of_string_of_list_ascii. f_equal.
  set (l := String.list_ascii_of_string s). unfold sanitize_list at 1.
  rewrite filter_all by (intros c Hc; by rewrite (sanitize_list_plain l)).
  rewrite (take_ge (trim_list (sanitize_list l))).
  - unfold sanitize_list. by rewrite !trim_list_idemp.
  - etrans; [apply trim_list_length|apply sanitize_list_short].
Qed.
Lemma sanitize_trimmed s : Auth.trim (sanitizeGroupName s) = sanitizeGroupName s.
Proof.
  rewrite sanitize_alt, trim_alt, String.list_ascii_of_string_of_list_ascii. unfold sanitize_list.
  by rewrite trim_list_idemp.
Qed.
Lemma sanitize_no_nul s : has_nul (sanitizeGroupName s) = false.
Proof.
  unfold has_nul. apply bool_decide_eq_false_2.
  rewrite sanitize_alt, String.list_ascii_of_string_of_list_ascii. intros H.
  by apply sanitize_list_plain in H.
Qed.
Lemma folder_ok g : Auth.trim (folder g) <> "".
Proof.
  unfold folder. cbv zeta. case_bool_decide as E; [by vm_compute|].
  destruct g; [|done]. by rewrite sanitize_trimmed.
Qed.
End names.

(** ** What is saved is what is loaded *)

Definition buddy_ok (u : string) (e : BuddyEntry) : Prop :=
  u <> "" /\ Auth.trim (b_group e) <> "" /\ (forall k, b_vk e = Some k -> is_key k = true).
Definition group_ok (g : string) (e : GroupEntry) : Prop :=
  g <> "" /\ (reserved g = false -> sanitizeGroupName g = g) /\
  (forall n, g_n e = Some n -> reserved g = true /\ sanitizeGroupName n = n /\ n <> "").

Lemma foldl_ext_elem {A X} (f g : A -> X -> A) (l : list X) a :
  (forall a x, x ∈ l -> f a x = g a x) -> foldl f a l = foldl g a l.
Proof.
  revert a. induction l as [|x l IH]; intros a H; simpl; [done|]. rewrite H by set_solver.
  apply IH. intros a' x' Hx'. apply H. set_solver.
Qed.
Lemma foldl_map {A X Y} (f : A -> Y -> A) (h : X -> Y) (l : list X) a :
  foldl f a (h <$> l) = foldl (fun a x => f a (h x)) a l.
Proof. revert a. induction l as [|x l IH]; intros a; csimpl; [done|]. apply IH. Qed.

(** A map a load can give: each name once, and each entry one that [P] allows. *)
Definition map_ok {V} (P : string -> V -> Prop) (m : list (string * V)) : Prop :=
  NoDup m.*1 /\ "__proto__" ∉ m.*1 /\ forall u e, (u, e) ∈ m -> P u e.

Section map_ok.
Context {V : Type} (P : string -> V -> Prop).
Implicit Types (m : list (string * V)).

Lemma map_ok_nil : map_ok P [].
Proof. split_and!; [constructor|set_solver|set_solver]. Qed.
Lemma map_ok_perm m m' : m ≡ₚ m' -> map_ok P m -> map_ok P m'.
Proof. intros E (Hn & Hp & H). split_and!; [by rewrite <-E..|]. intros u e. rewrite <-E. apply H. Qed.
Lemma map_ok_entries m : map_ok P m -> map_ok P (entries m).
Proof. apply map_ok_perm. by rewrite entries_perm. Qed.
Lemma map_ok_write k v m : map_ok P m -> P k v -> map_ok P (write k v m).
Proof.
  intros (Hn & Hp & H) Hv. split_and!.
  - by apply write_nodup.
  - apply JsMap.lookup_None, write_proto. by apply JsMap.lookup_None.
  - intros u e Hin. apply elem_of_write in Hin as [[[= -> ->] _]|Hin]; auto.
Qed.
Lemma map_ok_read k m v : map_ok P m -> read k m = Own v -> P k v.
Proof. intros (_ & _ & H) Hr. by apply H, JsMap.lookup_Some_in, read_own. Qed.
Lemma map_ok_take n m : map_ok P m -> map_ok P (take n m).
Proof.
  intros (Hn & Hp & H). split_and!.
  - rewrite fmap_take. rewrite <-(take_drop n m.*1) in Hn. by apply NoDup_app in Hn as [? _].
  - rewrite fmap_take. intros Hin. apply Hp. apply elem_of_take in Hin as (i & Hi & _).
    by apply list_elem_of_lookup_2 in Hi.
  - intros u e Hin. apply H. apply elem_of_take in Hin as (i & Hi & _). by apply list_elem_of_lookup_2 in Hi.
Qed.
Lemma map_ok_fold {X} (f : list (string * V) -> X -> list (string * V)) (l : list X) m :
  (forall m x, x ∈ l -> map_ok P m -> map_ok P (f m x)) -> map_ok P m -> map_ok P (foldl f m l).
Proof.
  revert m. induction l as [|x l IH]; intros m Hf Hm; simpl; [done|].
  apply IH; [intros m' x' Hx'; apply Hf; set_solver|]. apply Hf; [set_solver|done].
Qed.
End map_ok.
Lemma map_ok_mono {V} (P Q : string -> V -> Prop) m :
  (forall u e, (u, e) ∈ m -> P u e -> Q u e) -> map_ok P m -> map_ok Q m.
Proof. intros HPQ (Hn & Hp & H). split_and!; auto. Qed.

Lemma buddy_of_ok u j : u <> "" -> buddy_ok u (buddy_of j).
Proof.
  intros Hu. split_and!; [done| |]; simpl.
  - assert (Hd : Auth.trim DEFAULT_GROUP <> "") by by vm_compute.
    destruct (prop j "group") as [[]|]; try exact Hd. by case_bool_decide.
  - intros k. destruct (prop j "vk") as [[]|]; try done. destruct (is_key s) eqn:E; [|done]. by intros [= <-].
Qed.
Lemma legacy_ok l out m :
  map_ok buddy_ok out -> legacy_buddies l out = Ok m -> map_ok buddy_ok m.
Proof.
  revert out. induction l as [|j l IH]; intros out Ho; simpl; [by intros [= <-]|].
  intros E. destruct j; try done; (eapply IH; [|exact E]); [done..|].
  destruct (prop (JObj fields) "username") as [[]|]; try done. case_bool_decide; [done|].
  apply map_ok_write; [done|]. split_and!; [done|by vm_compute|done].
Qed.
Lemma normalizeBuddyMap_ok raw m : normalizeBuddyMap raw = Ok m -> map_ok buddy_ok m.
Proof.
  destruct raw as [[]|]; simpl; try (intros [= <-]; apply map_ok_nil).
  - apply legacy_ok, map_ok_nil.
  - intros [= <-]. apply map_ok_fold; [|apply map_ok_nil]. intros m [u j] _ Hm. unfold keep_buddy. simpl.
    case_bool_decide; simpl; [done|]. destruct (is_object j); simpl; [|done].
    apply map_ok_write; [done|]. by apply buddy_of_ok.
Qed.

Lemma buddy_of_json u e : buddy_ok u e -> buddy_of (buddy_json e) = e.
Proof.
  intros (_ & Hg & Hk). destruct e as [a v r g vk]; simpl in *. unfold buddy_of, buddy_json, prop. simpl.
  rewrite bool_decide_eq_false_2 by done. destruct vk as [k|]; simpl; [|done].
  by rewrite Hk.
Qed.
Lemma buddies_roundtrip m :
  map_ok buddy_ok m -> normalizeBuddyMap (Some (buddies_json m)) = Ok (entries m).
Proof.
  intros Hm. pose proof (map_ok_entries _ _ Hm) as (Hn & Hp & H). simpl. f_equal.
  rewrite (entries_fmap (fun x => buddy_json x.2)), entries_entries, foldl_map.
  transitivity (foldl (fun out x => write x.1 (id x.2) out) [] (entries m)).
  - apply foldl_ext_elem. intros out [u e] Hin. unfold keep_buddy. simpl.
    rewrite bool_decide_eq_false_2 by apply (H u e Hin). simpl. f_equal. by apply (buddy_of_json u), H.
  - rewrite (rebuild id); [|done|done|set_solver]. simpl.
    rewrite <-(list_fmap_id (entries m)) at 2. apply list_fmap_ext. by intros ? [] ?.
Qed.

#[local] Opaque GROUP_MAP_MAX_ENTRIES.
#[local] Opaque sanitizeGroupName.

Lemma group_of_ok g j :
  g <> "" -> (reserved g = false -> sanitizeGroupName g = g) -> group_ok g (group_of g j).
Proof.
  intros Hg Hs. split_and!; [done..|]. intros n. unfold group_of. cbv zeta.
  destruct (reserved g); [|done]. destruct (prop j "n") as [[]|]; try done.
  simpl. case_bool_decide as E; [done|]. intros [= <-]. by rewrite sanitize_idemp.
Qed.
Lemma keep_group_ok acc x : map_ok group_ok acc.1 -> map_ok group_ok (keep_group acc x).1.
Proof.
  destruct acc as [out kept], x as [g j]. intros Ho. unfold keep_group.
  destruct (_ || _) eqn:E1; [done|]. destruct (_ && _) eqn:E2; [done|]. simpl in *.
  apply map_ok_write; [done|]. apply orb_false_iff in E1 as [E1 _]. apply orb_false_iff in E1 as [E1 _].
  apply bool_decide_eq_false in E1. apply group_of_ok; [done|]. intros Hr. rewrite Hr in E2. simpl in E2.
  by apply negb_false_iff, bool_decide_eq_true in E2.
Qed.
Lemma normalizeGroupMap_ok raw : map_ok group_ok (normalizeGroupMap raw).
Proof.
  destruct raw as [[]|]; simpl; try apply map_ok_nil.
  generalize (entries fields). intros l.
  assert (map_ok group_ok ([], O).1) as H by apply map_ok_nil. revert H. generalize (@nil (string * GroupEntry), O).
  induction l as [|x l IH]; intros acc Ha; simpl; [done|]. apply IH. by apply keep_group_ok.
Qed.

Lemma group_of_json g e : group_ok g e -> group_of g (group_json e) = e.
Proof.
  intros (_ & _ & Hn). destruct e as [v r o [n|]]; unfold group_of, group_json, prop; simpl in *.
  - destruct (Hn n eq_refl) as (-> & -> & ?). by rewrite bool_decide_eq_false_2.
  - destruct (reserved g); by rewrite bool_decide_eq_true_2.
Qed.
Lemma keep_groups (l : GroupMap) out kept :
  NoDup l.*1 -> "__proto__" ∉ l.*1 -> (forall k, k ∈ l.*1 -> k ∉ out.*1) ->
  (forall g e, (g, e) ∈ l -> group_ok g e) ->
  (foldl keep_group (out, kept) ((fun x => (x.1, group_json x.2)) <$> l)).1 =
    out ++ take (GROUP_MAP_MAX_ENTRIES - kept) l.
Proof.
  revert out kept. induction l as [|[g e] l IH]; intros out kept Hn Hp Ho H; csimpl;
    [by rewrite take_nil, app_nil_r|].
  apply NoDup_cons in Hn as [Hg Hn]. destruct (H g e) as (Hne & Hs & _); [set_solver|].
  rewrite bool_decide_eq_false_2 by done. simpl.
  destruct (Nat.leb_spec GROUP_MAP_MAX_ENTRIES kept) as [Hk|Hk].
  - rewrite IH; [|done|set_solver|set_solver|set_solver].
    replace (GROUP_MAP_MAX_ENTRIES - kept)%nat with O by lia. done.
  - assert (negb (reserved g) && negb (bool_decide (sanitizeGroupName g = g)) = false) as ->.
    { destruct (reserved g); [done|]. by rewrite bool_decide_eq_true_2 by auto. }
    rewrite group_of_json by (apply H; set_solver).
    unfold write. rewrite bool_decide_eq_false_2 by set_solver. rewrite JsMap.set_fresh by set_solver.
    rewrite IH; [|done|set_solver| |set_solver].
    + replace (GROUP_MAP_MAX_ENTRIES - kept)%nat with (S (GROUP_MAP_MAX_ENTRIES - S kept)) by lia.
      by rewrite <-app_assoc.
    + intros k Hk' Hin. rewrite fmap_app in Hin. apply elem_of_app in Hin as [Hin|Hin]; [set_solver|].
      simpl in Hin. apply list_elem_of_singleton in Hin as ->. done.
Qed.
Lemma groups_roundtrip m :
  map_ok group_ok m -> normalizeGroupMap (Some (groups_json m)) = take GROUP_MAP_MAX_ENTRIES (entries m).
Proof.
  intros Hm. pose proof (map_ok_entries _ _ Hm) as (Hn & Hp & H). unfold normalizeGroupMap, groups_json.
  rewrite (entries_fmap (fun x => group_json x.2)), entries_entries.
  rewrite keep_groups; [|done..|set_solver|done]. by rewrite Nat.sub_0_r.
Qed.

(** ** What the methods may load and save *)

Section logic.
Context (P : string -> BuddyEntry -> Prop) (R : string -> GroupEntry -> Prop).
Context (T : Z -> Prop) (K : string -> list string -> Prop).

Definition buddies_allowed (m : BuddyMap) : Prop := map_ok (fun u e => buddy_ok u e /\ P u e) m.
Definition groups_allowed (m : GroupMap) : Prop := map_ok (fun g e => group_ok g e /\ R g e) m.

(** From allowed maps, times and answers, a method saves only allowed maps and ends with [Q]. *)
Fixpoint holds {A} (Q : A -> Prop) (p : prog A) : Prop :=
  match p with
  | Ret a => Q a
  | Unlocked k => forall b, holds Q (k b)
  | LoadBuddies k => forall m, buddies_allowed m -> holds Q (k m)
  | SaveBuddies m k => buddies_allowed m /\ holds Q k
  | LoadGroups k => forall m, groups_allowed m -> holds Q (k m)
  | SaveGroups m k => groups_allowed m /\ holds Q k
  | LoadHandles k => forall m, holds Q (k m)
  | SaveHandles m k => holds Q k
  | LoadBlocked k => forall m, holds Q (k m)
  | SaveBlocked m k => holds Q k
  | Now k => forall t, T t -> holds Q (k t)
  | PeerKeys c k => forall ks, K c ks -> holds Q (k ks)
  | Tell e k => holds Q k
  end.

Lemma holds_bind {A B} (Q : A -> Prop) (S : B -> Prop) (p : prog A) (f : A -> prog B) :
  holds Q p -> (forall a, Q a -> holds S (f a)) -> holds S (pbind p f).
Proof. intros Hp Hf. induction p; simpl in *; repeat match goal with H : _ /\ _ |- _ => destruct H end; eauto. Qed.
Lemma holds_unit {A} (p : prog A) : holds (fun _ => True) p -> holds (fun _ => True) (pbind p (fun _ => Ret tt)).
Proof. intros Hp. by eapply holds_bind. Qed.
End logic.

Lemma read_saved_buddies s m :
  unlocked s = true -> map_ok buddy_ok m -> read_buddies (set_buddies s (buddies_json m)) = entries m.
Proof. intros Hu Hm. unfold read_buddies. cbn [unlocked buddies set_buddies]. by rewrite Hu, buddies_roundtrip. Qed.
Lemma read_saved_groups s m :
  unlocked s = true -> map_ok group_ok m ->
  read_groups (set_groups s (groups_json m)) = take GROUP_MAP_MAX_ENTRIES (entries m).
Proof. intros Hu Hm. unfold read_groups. cbn [unlocked groups set_groups]. by rewrite Hu, groups_roundtrip. Qed.
Lemma allowed_buddies_ok P m : buddies_allowed P m -> map_ok buddy_ok m.
Proof. apply map_ok_mono. tauto. Qed.
Lemma allowed_groups_ok R m : groups_allowed R m -> map_ok group_ok m.
Proof. apply map_ok_mono. tauto. Qed.

(** Time and the log only grow. *)
Lemma pstep_grows {A} (p : prog A) s :
  clock (pstep p s).2 = clock s /\ (forall e, e ∈ log s -> e ∈ log (pstep p s).2).
Proof. destruct p; simpl; try (destruct (unlocked s)); simpl; set_solver. Qed.
Lemma play_grows w m : clock w.2 <= clock (play w m).2 /\ (forall e, e ∈ log w.2 -> e ∈ log (play w m).2).
Proof.
  destruct w as [ts s], m; simpl; try (split; [lia|done]).
  destruct (ts !! i) as [p|]; [|split; [simpl; lia|done]].
  pose proof (pstep_grows p s) as [Hc Hl]. destruct (pstep p s). simpl in *. split; [lia|done].
Qed.

(** Interleaved methods stay within what each of them keeps to. *)
Section interleaving.
Context (P : string -> BuddyEntry -> Prop) (R : string -> GroupEntry -> Prop).

Definition state_allowed (s : State) : Prop :=
  buddies_allowed P (read_buddies s) /\ groups_allowed R (read_groups s).

Lemma pstep_holds (T : Z -> Prop) (K : string -> list string -> Prop) {A} (Q : A -> Prop) (p : prog A) (s : State) :
  holds P R T K Q p -> state_allowed s -> T (clock s) ->
  (forall c ks, Answered c ks ∈ log (pstep p s).2 -> K c ks) ->
  holds P R T K Q (pstep p s).1 /\ state_allowed (pstep p s).2.
Proof.
  intros Hp [Hb Hg] Ht Hk. destruct p; simpl in *; try (split; [by auto|done]).
  - destruct Hp as [Hm Hp]. split; [done|]. destruct (unlocked s) eqn:E; [|done]. split; [|done].
    rewrite read_saved_buddies by (done || by eapply allowed_buddies_ok). by apply map_ok_entries.
  - destruct Hp as [Hm Hp]. split; [done|]. destruct (unlocked s) eqn:E; [|done]. split; [done|].
    rewrite read_saved_groups by (done || by eapply allowed_groups_ok). by apply map_ok_take, map_ok_entries.
  - split; [done|]. by destruct (unlocked s).
  - split; [done|]. by destruct (unlocked s).
  - split; [|done]. apply Hp, Hk. set_solver.
Qed.

Definition pool_allowed (T : Z -> Prop) (K : string -> list string -> Prop) (w : Pool) : Prop :=
  Forall (holds P R T K (fun _ => True)) w.1 /\ state_allowed w.2.

Lemma play_holds T K w m :
  pool_allowed T K w -> (forall p, m = Begin p -> holds P R T K (fun _ => True) p) -> T (clock w.2) ->
  (forall c ks, Answered c ks ∈ log (play w m).2 -> K c ks) -> pool_allowed T K (play w m).
Proof.
  intros [Hts Hs] Hm Ht Hk. destruct w as [ts s], m; simpl in *; try done.
  - split; [|done]. simpl. apply Forall_app. split; [done|]. constructor; [by apply Hm|done].
  - destruct (ts !! i) as [p|] eqn:E; [|done].
    pose proof (Forall_lookup_1 _ _ _ _ Hts E) as Hp.
    destruct (pstep_holds T K (fun _ => True) p s) as [H1 H2]; [done..| |].
    { intros c ks. specialize (Hk c ks). by destruct (pstep p s). }
    destruct (pstep p s) as [p' s']. simpl in *. split; [|done]. simpl. by apply Forall_insert.
Qed.

Lemma plays_hold T K ms w :
  (forall t, t <= clock (plays w ms).2 -> T t) ->
  (forall c ks, Answered c ks ∈ log (plays w ms).2 -> K c ks) ->
  (forall p, Begin p ∈ ms -> holds P R T K (fun _ => True) p) ->
  pool_allowed T K w -> pool_allowed T K (plays w ms).
Proof.
  induction ms as [|m ms IH] using rev_ind; [done|].
  unfold plays. rewrite !foldl_app. fold (plays w ms). simpl. intros HT HK HB Hw.
  pose proof (play_grows (plays w ms) m) as [Hc Hl].
  apply play_holds; [|intros p ->; apply HB; set_solver|by apply HT|done].
  apply IH; [intros t Ht; apply HT; lia|auto|intros p Hp; apply HB; set_solver|done].
Qed.
End interleaving.

(** ** Each method keeps to its sources *)

(** One call of a method. *)
Ltac walk :=
  cbn [holds pbind loadBuddyMap saveBuddyMap loadGroupMap saveGroupMap loadConvHandles now
       peerAccountKeysFor tell unlocked_ listBuddies listGroups loadBlockedEntries saveBlocked
       move_out foldl negb orb andb fst snd].

Section methods.
Context `{LocaleCompare} (V : Z -> Prop) (Pin : string -> string -> Prop).
Context (T : Z -> Prop) (K : string -> list string -> Prop).
Context (now_fits : forall t, T t -> V t).
Context (day_fits : forall t v, T t -> v <= t + CRDT_MAX_FUTURE_MS -> V v).

(** The versions are ones [V] allows and the verified keys ones [Pin] allows. *)
Definition buddy_allowed (u : string) (e : BuddyEntry) : Prop :=
  V (b_v e) /\ forall k, b_vk e = Some k -> Pin u k.
Definition group_allowed (g : string) (e : GroupEntry) : Prop := V (g_v e).

#[local] Abbreviation BM := (buddies_allowed buddy_allowed).
#[local] Abbreviation GM := (groups_allowed group_allowed).
#[local] Abbreviation keeps p := (holds buddy_allowed group_allowed T K (fun _ => True) p).

Lemma inherited_name u : u ∈ inherited -> u <> "" /\ sanitizeGroupName u = u.
Proof. unfold inherited. rewrite !elem_of_cons, elem_of_nil. intros; destruct_or!; subst; try done; by split; vm_compute. Qed.

(** What a present name leads to. *)
Lemma present_ok m u :
  BM m -> is_present (read u m) = true ->
  u <> "" /\ Auth.trim (b_group (spread (read u m))) <> "" /\
  (forall k, b_vk (spread (read u m)) = Some k -> is_key k = true /\ Pin u k).
Proof.
  intros Hm. destruct (read u m) as [| |e] eqn:E; simpl; [done| |].
  - intros _. split_and!; [|by vm_compute|done]. unfold read in E.
    destruct (JsMap.lookup u m); [done|]. case_bool_decide as Hi; [|done]. by apply inherited_name.
  - intros _. destruct (map_ok_read _ _ _ _ Hm E) as [(? & ? & ?) [? ?]]. split_and!; auto.
Qed.
Lemma allowed_write m u a t r g vk :
  BM m -> T t -> u <> "" -> Auth.trim g <> "" ->
  (forall k, vk = Some k -> is_key k = true /\ Pin u k) -> BM (write u (MkBuddy a t r g vk) m).
Proof.
  intros Hm Ht Hu Hg Hk. apply map_ok_write; [done|]. split; split_and!; simpl; try done; [|auto|];
    intros k Hv; by apply Hk.
Qed.
Lemma allowed_write_group m g t r o n :
  GM m -> T t -> group_ok g (MkGroup t r o n) -> GM (write g (MkGroup t r o n) m).
Proof. intros Hm Ht Hg. apply map_ok_write; [done|]. split; [done|]. by apply now_fits. Qed.

Lemma keeps_addBuddy name g : keeps (addBuddy name g).
Proof.
  unfold addBuddy. cbv zeta. case_bool_decide as Hu; [done|]. walk. intros m Hm.
  destruct (is_present _); [done|]. walk. intros added _ t Ht. split; [|done].
  by apply allowed_write; [..|apply folder_ok|].
Qed.
Lemma keeps_setBuddyGroup name g : keeps (setBuddyGroup name g).
Proof.
  unfold setBuddyGroup. cbv zeta. walk. intros m Hm. destruct (negb _ || _) eqn:E; [done|].
  apply orb_false_iff in E as [E _]. apply negb_false_iff in E. walk. intros t Ht. split; [|done].
  destruct (present_ok _ _ Hm E) as (? & ? & ?). by apply allowed_write; [..|apply folder_ok|].
Qed.
Lemma keeps_removeBuddy name : keeps (removeBuddy name).
Proof.
  unfold removeBuddy. cbv zeta. walk. intros m Hm. destruct (is_present _) eqn:E; [|done]. walk.
  intros t Ht. split; [|done]. destruct (present_ok _ _ Hm E) as (? & ? & ?). by apply allowed_write.
Qed.

(** A key is pinned only on the answer that it is the only one. *)
Lemma keeps_mark name k prev :
  (forall c, K c [k] -> Pin (normalize_handle name) k) -> keeps (markBuddyVerified name k prev).
Proof.
  intros Hpin. unfold markBuddyVerified, buddyPeerKey. cbv zeta. destruct (is_key k) eqn:Ek; [|done]. walk.
  intros hs. assert (k <> "") as Hne by by intros ->.
  destruct (read _ hs) as [| |c]; walk; try (by rewrite bool_decide_eq_false_2 by congruence).
  intros ks Hks. case_bool_decide as E; [|done]. walk. intros m Hm.
  destruct (is_present _) eqn:Ep; walk; [|done]. destruct (bool_decide _); walk; [|done].
  intros t Ht. split; [|done]. destruct (present_ok _ _ Hm Ep) as (? & ? & ?).
  apply allowed_write; [done..|]. intros k' [= <-]. split; [done|].
  destruct ks as [|k' [|]]; [done| |done]. subst k'. by apply (Hpin c).
Qed.
Lemma keeps_clear name : keeps (clearBuddyVerified name).
Proof.
  unfold clearBuddyVerified. cbv zeta. walk. intros m Hm.
  destruct (read _ m) as [| |[a v r g [k|]]] eqn:E; try done. walk. intros t Ht. split; [|done].
  destruct (map_ok_read _ _ _ _ Hm E) as [(? & ? & ?) _]. by apply allowed_write.
Qed.

(** Merging. *)
Lemma adopt_keeps maxV local inc :
  BM local -> map_ok buddy_ok inc -> (forall v, v <= maxV -> V v) ->
  (forall u e k, (u, e) ∈ inc -> b_vk e = Some k -> Pin u k) -> BM (adopt_buddies maxV local inc).1.
Proof.
  intros Hl Hi HV Hp. unfold adopt_buddies.
  assert (forall x, x ∈ entries inc -> buddy_ok x.1 x.2 /\ forall k, b_vk x.2 = Some k -> Pin x.1 k) as He.
  { intros [u e] Hx. rewrite elem_of_entries in Hx. split; [by apply Hi|]. intros k. by apply Hp. }
  revert He. generalize (entries inc). intros l.
  assert (BM (local, false).1) as Hacc by done. revert Hacc. generalize (local, false).
  induction l as [|[u e] l IH]; intros acc Hacc He; walk; [done|]. apply IH; [|intros x Hx; apply He; by right].
  destruct acc as [m ch]. unfold adopt_buddy. walk. destruct (Z.ltb_spec maxV (b_v e)) as [|Hv]; [done|].
  destruct (match read u m with Absent => true | Inherited => false | Own cur => buddy_newer e cur end); [|done].
  walk. destruct (He (u, e)) as [Hok Hk]; [by left|]. apply map_ok_write; [done|].
  split; [done|]. split; [by apply HV|done].
Qed.
Lemma keeps_adoptBuddies parsed :
  (forall o m u e k, parsed = Some o -> normalizeBuddyMap (prop o "buddies") = Ok m ->
    (u, e) ∈ m -> b_vk e = Some k -> Pin u k) ->
  keeps (adoptBuddies parsed).
Proof.
  intros Hp. walk. intros [|]; [|done]. walk. destruct parsed as [o|]; [|done].
  assert (forall m, normalizeBuddyMap (prop o "buddies") = Ok m ->
    map_ok buddy_ok m /\ forall u e k, (u, e) ∈ m -> b_vk e = Some k -> Pin u k) as Hinc
    by eauto using normalizeBuddyMap_ok.
  destruct o; [done|..]; (destruct (normalizeBuddyMap _) as [inc|]; [|done]; walk;
    destruct (Hinc inc eq_refl) as [Hi Hpins]; intros local Hl t Ht;
    pose proof (adopt_keeps (t + CRDT_MAX_FUTURE_MS) local inc Hl Hi (fun v Hv => day_fits t v Ht Hv) Hpins) as Hm;
    destruct (adopt_buddies _ _ _) as [merged []]; [by split|done]).
Qed.

Lemma adopt_groups_keeps maxV local inc :
  GM local -> map_ok group_ok inc -> (forall v, v <= maxV -> V v) -> GM (adopt_groups maxV local inc).1.
Proof.
  intros Hl Hi HV. unfold adopt_groups.
  assert (forall x, x ∈ entries inc -> group_ok x.1 x.2) as He.
  { intros [g e] Hx. rewrite elem_of_entries in Hx. by apply Hi. }
  revert He. generalize (entries inc). intros l.
  assert (GM (local, false).1) as Hacc by done. revert Hacc. generalize (local, false).
  induction l as [|[g e] l IH]; intros acc Hacc He; walk; [done|]. apply IH; [|intros x Hx; apply He; by right].
  destruct acc as [m ch]. unfold adopt_group. walk. destruct (Z.ltb_spec maxV (g_v e)) as [|Hv]; [done|].
  destruct (match read g m with Absent => true | Inherited => false | Own cur => group_newer e cur end); [|done].
  walk. apply map_ok_write; [done|]. split; [apply (He (g, e)); by left|by apply HV].
Qed.
Lemma keeps_adoptGroups parsed : keeps (adoptGroups parsed).
Proof.
  walk. intros [|]; [|done]. walk. destruct parsed as [o|]; [|done].
  pose proof (normalizeGroupMap_ok (prop o "groups")) as Hi.
  destruct o; [done|..]; (walk; intros local Hl t Ht;
    pose proof (adopt_groups_keeps (t + CRDT_MAX_FUTURE_MS) local _ Hl Hi (fun v Hv => day_fits t v Ht Hv)) as Hm;
    destruct (adopt_groups _ _ _) as [merged []]; [by split|done]).
Qed.

(** The groups. *)
Lemma sanitized_ok g t r o :
  sanitizeGroupName g <> "" -> group_ok (sanitizeGroupName g) (MkGroup t r o None).
Proof. intros Hg. split_and!; [done|intros _; apply sanitize_idemp|done]. Qed.
Lemma keeps_addGroup name : keeps (addGroup name).
Proof.
  unfold addGroup. cbv zeta. walk. intros first _. case_bool_decide as Hg; [done|]. walk.
  destruct (_ || _); [done|]. walk. intros m Hm. destruct (group_present _); [done|]. walk.
  intros t Ht. split; [|done]. by apply allowed_write_group, sanitized_ok.
Qed.
Lemma keeps_renameGroup r name : keeps (renameGroup r name).
Proof.
  unfold renameGroup. cbv zeta. case_bool_decide as Hg; [done|]. walk. intros m Hm.
  destruct (_ || _); [done|]. walk. intros t Ht. split; [|done].
  apply allowed_write_group; [done..|].
  destruct r; (split_and!; [done|done|]; walk; intros n [= <-]; by rewrite sanitize_idemp).
Qed.
Lemma keeps_move_out g l m moved :
  BM m -> (forall u e, (u, e) ∈ l -> buddy_ok u e /\ buddy_allowed u e) ->
  holds buddy_allowed group_allowed T K (fun x => BM x.1) (move_out g l m moved).
Proof.
  revert m moved. induction l as [|[u e] l IH]; intros m moved Hm Hl; walk; [done|].
  destruct (_ && _).
  - walk. intros t Ht. apply IH; [|intros u' e' Hin; apply Hl; by right].
    destruct (Hl u e) as [(? & ? & ?) [? ?]]; [by left|].
    apply allowed_write; [done..|by vm_compute|auto].
  - apply IH; [done|intros u' e' Hin; apply Hl; by right].
Qed.
Lemma tombstone_ok m g t :
  GM m -> group_present (read g m) = true -> group_ok g (tombstone t (read g m)).
Proof.
  intros Hm. destruct (read g m) as [| |e] eqn:E; walk; [done| |].
  - intros _. unfold read in E. destruct (JsMap.lookup g m); [done|]. case_bool_decide as Hi; [|done].
    apply inherited_name in Hi as [? ?]. by split_and!.
  - intros _. destruct (map_ok_read _ _ _ _ Hm E) as [(? & ? & ?) _]. by split_and!.
Qed.
Lemma keeps_deleteGroup name : keeps (deleteGroup name).
Proof.
  unfold deleteGroup. cbv zeta. destruct (_ || _); [done|]. walk. intros m Hm.
  destruct (group_present _) eqn:E; [|done]. walk. intros t Ht. split.
  { apply map_ok_write; [done|]. split; [by apply tombstone_ok|]. unfold group_allowed.
    destruct (read _ m); walk; by apply now_fits. }
  intros bs Hbs. apply (holds_bind _ _ _ _ (fun x => BM x.1)).
  { apply keeps_move_out; [done|]. intros u e. rewrite elem_of_entries. apply Hbs. }
  intros [bs' [|]] Hb; walk; [by split|done].
Qed.
Lemma keeps_tag c name : keeps (tagConversationHandle c name).
Proof.
  unfold tagConversationHandle. walk. intros b. destruct (_ || _); [done|]. walk. intros hs.
  destruct (read _ hs); [done..|]. walk. case_bool_decide; [done|]. walk. intros ks _ ks' _.
  by destruct (_ && _).
Qed.

(** What a call may pin: a frame pins what it carries, a confirmation the one key it was answered. *)
Definition call_pins (o : op) : Prop :=
  match o with
  | AdoptBuddies (Some j) =>
      forall m u e k, normalizeBuddyMap (prop j "buddies") = Ok m -> (u, e) ∈ m -> b_vk e = Some k -> Pin u k
  | MarkBuddyVerified n k _ => forall c, K c [k] -> Pin (normalize_handle n) k
  | _ => True
  end.
Lemma method_keeps o : call_pins o -> keeps (method o).
Proof.
  destruct o; unfold method; intros Ho.
  - apply holds_unit, keeps_addBuddy.
  - apply holds_unit, keeps_setBuddyGroup.
  - apply holds_unit, keeps_removeBuddy.
  - apply keeps_adoptBuddies. intros o m u e k ->. apply Ho.
  - by apply holds_unit, keeps_mark.
  - apply keeps_clear.
  - apply holds_unit, keeps_addGroup.
  - apply holds_unit, keeps_renameGroup.
  - apply holds_unit, keeps_deleteGroup.
  - apply keeps_adoptGroups.
  - apply keeps_tag.
  - done.
Qed.
End methods.

