(* ===== verification/ContactsFacts.v ===== *)
(** * What the devices of an account agree on

    The theorems about the contact graph of Contacts.v: where a verified key comes from, how far a
    version runs ahead, that what is saved is what the next load gives, that the buddy list refines a
    finite map, and what goes wrong on concrete lists.  DeviceSync.v has the theorems about several
    devices. *)

From S2P Require Import Prelude Json Integrity Auth Contacts ContactsLogic.
Import JsObj Contacts.

(** ** Where a verified key comes from, and how far a version runs ahead *)

Lemma read_buddies_ok s : map_ok buddy_ok (read_buddies s).
Proof.
  unfold read_buddies. destruct (negb _); [apply map_ok_nil|].
  destruct (normalizeBuddyMap _) as [m|] eqn:E; [by eapply normalizeBuddyMap_ok|apply map_ok_nil].
Qed.
Lemma read_groups_ok s : map_ok group_ok (read_groups s).
Proof. unfold read_groups. destruct (negb _); [apply map_ok_nil|apply normalizeGroupMap_ok]. Qed.

(** Only methods are begun, with the calls [ops]. *)
Definition begins `{LocaleCompare} (ops : list op) (ms : list move) : Prop :=
  forall p, Begin p ∈ ms -> exists o, o ∈ ops /\ p = method o.

(** Why a key may be pinned for a buddy: it was at the start, or a frame of one of our own devices has it
    for the same buddy, or the user confirmed it for that buddy and the group channel answered that it is
    the only account key of a conversation. *)
Definition pin_source (ops : list op) (s final : State) (u k : string) : Prop :=
  (exists e, (u, e) ∈ read_buddies s /\ b_vk e = Some k) \/
  (exists j m e, AdoptBuddies (Some j) ∈ ops /\ normalizeBuddyMap (prop j "buddies") = Ok m /\
     (u, e) ∈ m /\ b_vk e = Some k) \/
  (exists name prev c, MarkBuddyVerified name k prev ∈ ops /\ normalize_handle name = u /\
     Answered c [k] ∈ log final).

Lemma start_allowed (V : Z -> Prop) (Pin : string -> string -> Prop) T K s :
  (forall u e, (u, e) ∈ read_buddies s -> V (b_v e) /\ forall k, b_vk e = Some k -> Pin u k) ->
  (forall g e, (g, e) ∈ read_groups s -> V (g_v e)) ->
  pool_allowed (buddy_allowed V Pin) (group_allowed V) T K ([], s).
Proof.
  intros HP HR. split; [constructor|]. split.
  - eapply map_ok_mono; [|apply read_buddies_ok]. intros u e Hin ?. split; [done|by apply HP].
  - eapply map_ok_mono; [|apply read_groups_ok]. intros g e Hin ?. split; [done|by eapply HR].
Qed.

(** C10. In every interleaving of calls, each key that is pinned for a buddy has 64 hex digits and one of
    the three sources of [pin_source]. *)
Theorem pins_have_a_source `{LocaleCompare} (ops : list op) (s : State) (ms : list move) u e k :
  begins ops ms -> (u, e) ∈ read_buddies (plays ([], s) ms).2 -> b_vk e = Some k ->
  is_key k = true /\ pin_source ops s (plays ([], s) ms).2 u k.
Proof.
  intros Hb Hin Hk. split; [by apply (read_buddies_ok (plays ([], s) ms).2) in Hin as (_ & _ & ?); auto|].
  set (final := (plays ([], s) ms).2) in *.
  destruct (plays_hold (buddy_allowed (fun _ => True) (pin_source ops s final)) (group_allowed (fun _ => True))
              (fun _ => True) (fun c ks => Answered c ks ∈ log final) ms ([], s)) as [_ [H0 _]]; [done|done| | |].
  - intros p Hp. destruct (Hb p Hp) as (o & Ho & ->). apply method_keeps; [done|done|].
    destruct o; try done; simpl.
    + destruct parsed as [j|]; [|done]. intros m u' e' k' Hm Hu' Hk'. right. left. by exists j, m, e'.
    + intros c Hc. right. right. by exists name, expectedPrev, c.
  - apply start_allowed; [|done]. intros u' e' Hin'. split; [done|]. intros k' Hk'. left. by exists e'.
  - by apply H0 in Hin as [_ [_ ?]]; auto.
Qed.

(** In every interleaving of calls, if no stored version is more than a day ahead of the clock at the
    start then none ever is: whatever versions the frames claim, a stored entry can be replaced by a local
    change at the latest a day later. *)
Theorem versions_stay_near_clock `{LocaleCompare} (ops : list op) (s : State) (ms : list move) :
  let limit t := t + CRDT_MAX_FUTURE_MS in
  begins ops ms ->
  (forall u e, (u, e) ∈ read_buddies s -> b_v e <= limit (clock s)) ->
  (forall g e, (g, e) ∈ read_groups s -> g_v e <= limit (clock s)) ->
  let final := (plays ([], s) ms).2 in
  (forall u e, (u, e) ∈ read_buddies final -> b_v e <= limit (clock final)) /\
  (forall g e, (g, e) ∈ read_groups final -> g_v e <= limit (clock final)).
Proof.
  intros limit Hb Hs Hg final.
  assert (clock s <= clock final) as Hc.
  { unfold final. clear. change s with (([], s) : Pool).2 at 1. generalize (([], s) : Pool). intros w.
    induction ms as [|m ms IH] using rev_ind; [done|]. unfold plays in *. rewrite foldl_app. simpl.
    pose proof (play_grows (foldl play w ms) m) as [? _]. lia. }
  set (V v := v <= limit (clock final)).
  destruct (plays_hold (buddy_allowed V (fun _ _ => True)) (group_allowed V)
              (fun t => t <= clock final) (fun _ _ => True) ms ([], s)) as [_ [H1 H2]]; [done|done| | |].
  - intros p Hp. destruct (Hb p Hp) as (o & Ho & ->).
    apply method_keeps; [unfold V, limit, CRDT_MAX_FUTURE_MS; lia|unfold V, limit; lia|].
    by destruct o as [| | |[]| | | | | | | |].
  - apply start_allowed; [intros u e Hin; split; [|done]; specialize (Hs u e Hin)|intros g e Hin; specialize (Hg g e Hin)];
      unfold V, limit in *; lia.
  - split; [intros u e Hin; by apply H1 in Hin as [_ [? _]]|intros g e Hin; by apply H2 in Hin as [_ ?]].
Qed.

(** ** Saving and loading *)

Lemma plays_unlocked w ms : unlocked (plays w ms).2 = unlocked w.2.
Proof.
  induction ms as [|m ms IH] using rev_ind; [done|]. unfold plays in *. rewrite foldl_app. simpl.
  rewrite <-IH. destruct (foldl play w ms) as [ts s], m; simpl; try done. destruct (ts !! i) as [p|]; [|done].
  destruct p; simpl; try done; by destruct (unlocked s) eqn:E.
Qed.

(** In every interleaving of calls, the map of buddies that a method saves is what the next load gives,
    and so is the map of groups as long as it has no more than 512 entries. *)
Theorem saves_read_back `{LocaleCompare} (ops : list op) (s : State) (ms : list move) (i : nat) :
  begins ops ms -> unlocked s = true ->
  let w := plays ([], s) ms in
  match w.1 !! i with
  | Some (SaveBuddies m _) => read_buddies (play w (Turn i)).2 = entries m
  | Some (SaveGroups m _) =>
      (length m <= GROUP_MAP_MAX_ENTRIES)%nat -> read_groups (play w (Turn i)).2 = entries m
  | _ => True
  end.
Proof.
  intros Hb Hu w.
  destruct (plays_hold (buddy_allowed (fun _ => True) (fun _ _ => True)) (group_allowed (fun _ => True))
              (fun _ => True) (fun _ _ => True) ms ([], s)) as [Hts Hs]; [done|done| | |].
  { intros p Hp. destruct (Hb p Hp) as (o & Ho & ->). apply method_keeps; [done|done|].
    by destruct o as [| | |[]| | | | | | | |]. }
  { by apply start_allowed. }
  destruct (w.1 !! i) as [p|] eqn:E; [|done]. pose proof (Forall_lookup_1 _ _ _ _ Hts E) as Hp.
  assert (unlocked w.2 = true) as Hu' by by unfold w; rewrite plays_unlocked.
  destruct w as [ts s']. simpl in E. destruct p; try done; simpl in Hp; destruct Hp as [Hm _].
  - simpl play. rewrite E. simpl in *. rewrite Hu'. apply read_saved_buddies; [done|].
    by apply allowed_buddies_ok in Hm.
  - intros Hlen. simpl play. rewrite E. simpl in *. rewrite Hu'.
    rewrite read_saved_groups by (done || by apply allowed_groups_ok in Hm).
    apply take_ge. by rewrite entries_perm.
Qed.

(** ** The buddy list as a finite map *)

(** What the user sees: who is on the list, and under which group. *)
Definition buddy_list (m : BuddyMap) : gmap string string :=
  list_to_map ((fun b => (username b, group b)) <$> present_buddies m).
Definition view (s : State) : gmap string string := buddy_list (read_buddies s).

(** What the calls that edit the list promise. *)
Definition buddy_list_spec (o : op) (l : gmap string string) : gmap string string :=
  match o with
  | AddBuddy name g =>
      let u := normalize_handle name in
      if decide (u = "") then l else match l !! u with Some _ => l | None => <[u := folder g]> l end
  | SetBuddyGroup name g => alter (fun _ => folder (Some g)) (normalize_handle name) l
  | RemoveBuddy name => delete (normalize_handle name) l
  | _ => l
  end.

Lemma present_keys m : NoDup m.*1 -> NoDup (username <$> present_buddies m).
Proof.
  intros H. apply entries_nodup in H. unfold present_buddies. revert H. generalize (entries m). intros l.
  rewrite <-list_fmap_compose. induction l as [|[u e] l IH]; csimpl; intros H; [constructor|].
  apply NoDup_cons in H as [Hu H]. destruct (b_removed e); csimpl; [by apply IH|].
  constructor; [|by apply IH]. intros Hin. apply Hu.
  apply list_elem_of_fmap in Hin as ([u' e'] & -> & Hin). apply elem_of_list_filter in Hin as [Hin _].
  by apply (list_elem_of_fmap_2 fst) in Hin.
Qed.
Lemma buddy_list_lookup m u :
  NoDup m.*1 ->
  buddy_list m !! u = match JsMap.lookup u m with
                      | Some e => if b_removed e then None else Some (b_group e)
                      | None => None
                      end.
Proof.
  intros Hn. apply option_eq. intros g. unfold buddy_list. rewrite <-elem_of_list_to_map.
  2:{ rewrite <-list_fmap_compose. by apply present_keys. }
  rewrite list_elem_of_fmap. split.
  - intros (b & [= -> ->] & Hb). unfold present_buddies in Hb.
    apply list_elem_of_fmap in Hb as ([u e] & -> & Hb). apply elem_of_list_filter in Hb as [Hb Hr].
    rewrite elem_of_entries in Hb. simpl in *. rewrite (NoDup_lookup _ _ _ Hn Hb). apply negb_true_iff in Hr. simpl in *. by rewrite Hr.
  - destruct (JsMap.lookup u m) as [e|] eqn:E; [|done]. destruct (b_removed e) eqn:Er; [done|]. intros [= <-].
    exists (MkBuddyView u (b_addedAt e) (b_group e)). split; [done|]. unfold present_buddies.
    apply list_elem_of_fmap. exists (u, e). split; [done|]. apply elem_of_list_filter. simpl. rewrite Er. split; [|done].
    by apply elem_of_entries, JsMap.lookup_Some_in.
Qed.
Lemma view_lookup s u :
  view s !! u = match JsMap.lookup u (read_buddies s) with
                | Some e => if b_removed e then None else Some (b_group e)
                | None => None
                end.
Proof. apply buddy_list_lookup, read_buddies_ok. Qed.

(** The state after a local change of one buddy. *)
Definition changed (s : State) (u : string) (e : BuddyEntry) : State :=
  add_log (set_buddies s (buddies_json (write u e (read_buddies s)))) (Told SyncBuddies).
Lemma read_changed s u e v :
  unlocked s = true -> buddy_ok u e -> u <> "__proto__" ->
  JsMap.lookup v (read_buddies (changed s u e)) =
    if decide (v = u) then Some e else JsMap.lookup v (read_buddies s).
Proof.
  intros Hu He Hp. assert (map_ok buddy_ok (write u e (read_buddies s))) as Hm
    by (apply map_ok_write; [apply read_buddies_ok|done]).
  change (read_buddies (changed s u e)) with
    (read_buddies (set_buddies s (buddies_json (write u e (read_buddies s))))).
  rewrite read_saved_buddies, lookup_entries by (done || apply Hm). by apply lookup_write.
Qed.
Lemma view_changed s u e :
  unlocked s = true -> buddy_ok u e -> u <> "__proto__" ->
  view (changed s u e) = if b_removed e then delete u (view s) else <[u := b_group e]> (view s).
Proof.
  intros Hu He Hp. apply map_eq. intros v. rewrite view_lookup, read_changed by done.
  case_decide as Hv; [subst v|].
  - destruct (b_removed e); by rewrite ?lookup_delete_eq, ?lookup_insert_eq.
  - rewrite <-view_lookup. destruct (b_removed e); by rewrite ?lookup_delete_ne, ?lookup_insert_ne.
Qed.

Lemma run_bind {A B} (p : prog A) (f : A -> prog B) s :
  run (pbind p f) s = run (f (run p s).1) (run p s).2.
Proof. revert s. induction p; intros s; simpl; auto. Qed.
Lemma read_view s u :
  u ∉ inherited -> is_present (read u (read_buddies s)) = bool_decide (is_Some (view s !! u)).
Proof.
  intros Hi. rewrite read_plain, view_lookup by done. destruct (JsMap.lookup _ _) as [e|]; simpl; [|done].
  by destruct (b_removed e).
Qed.

(** The list that an editing call returns. *)
Definition returned (o : op) : prog (list Buddy) :=
  match o with
  | AddBuddy name g => addBuddy name g
  | SetBuddyGroup name g => setBuddyGroup name g
  | RemoveBuddy name => removeBuddy name
  | _ => listBuddies
  end.
Definition edited (o : op) : option string :=
  match o with
  | AddBuddy name _ | SetBuddyGroup name _ | RemoveBuddy name => Some (normalize_handle name)
  | _ => None
  end.

Lemma view_edit s u e (spec : gmap string string) :
  unlocked s = true -> buddy_ok u e -> u <> "__proto__" ->
  spec = (if b_removed e then delete u (view s) else <[u := b_group e]> (view s)) ->
  let r := run listBuddies (changed s u e) in
  view r.2 = spec /\ r.1 = present_buddies (read_buddies r.2).
Proof. intros Hu He Hp ->. split; [by apply view_changed|done]. Qed.

Section editing.
Context (s : State) (u : string) (Hu : unlocked s = true) (Hi : u ∉ inherited).

(** The three cases: not stored, removed, on the list. *)
Lemma stored_cases :
  (read u (read_buddies s) = Absent /\ view s !! u = None) \/
  (exists e, read u (read_buddies s) = Own e /\ buddy_ok u e /\ b_removed e = true /\ view s !! u = None) \/
  (exists e, read u (read_buddies s) = Own e /\ buddy_ok u e /\ b_removed e = false /\
     view s !! u = Some (b_group e)).
Proof.
  rewrite view_lookup, read_plain by done. destruct (JsMap.lookup u (read_buddies s)) as [e|] eqn:E; [right|by left].
  assert (buddy_ok u e) by by apply (read_buddies_ok s), JsMap.lookup_Some_in.
  destruct (b_removed e) eqn:Er; [left|right]; by exists e.
Qed.

Lemma add_refines name g :
  normalize_handle name = u ->
  let r := run (addBuddy name g) s in
  view r.2 = buddy_list_spec (AddBuddy name g) (view s) /\ r.1 = present_buddies (read_buddies r.2).
Proof.
  intros Hn. pose proof (inherited_proto _ Hi). unfold addBuddy. simpl buddy_list_spec. rewrite Hn. cbv zeta.
  destruct (decide (u = "")) as [->|Hne]; [by split|]. rewrite bool_decide_eq_false_2 by done. simpl run.
  destruct stored_cases as [[-> ->]|[(e & -> & _ & Hr & ->)|(e & -> & _ & Hr & ->)]];
    simpl is_present; rewrite ?Hr; simpl; rewrite ?Hu; [..|by split];
    (apply view_edit; [done|split_and!; [done|apply folder_ok|done]|done|done]).
Qed.
Lemma set_refines name g :
  normalize_handle name = u ->
  let r := run (setBuddyGroup name g) s in
  view r.2 = buddy_list_spec (SetBuddyGroup name g) (view s) /\ r.1 = present_buddies (read_buddies r.2).
Proof.
  intros Hn. pose proof (inherited_proto _ Hi). unfold setBuddyGroup. simpl buddy_list_spec. rewrite Hn. cbv zeta.
  simpl run.
  assert (view s !! u = None -> alter (fun _ => folder (Some g)) u (view s) = view s) as Hnone.
  { intros Hv. apply map_eq. intros v. destruct (decide (v = u)) as [->|];
      by rewrite ?lookup_alter_eq, ?lookup_alter_ne, ?Hv by done. }
  destruct stored_cases as [[-> Hv]|[(e & -> & _ & Hr & Hv)|(e & -> & (? & ? & ?) & Hr & Hv)]];
    simpl is_present; rewrite ?Hr; simpl; [by rewrite Hnone|by rewrite Hnone|].
  case_bool_decide as Hg; simpl.
  - split; [|done]. apply map_eq. intros v. destruct (decide (v = u)) as [->|];
      rewrite ?lookup_alter_eq, ?lookup_alter_ne, ?Hv by done; [|done]. simpl. by rewrite Hg.
  - rewrite Hu. apply view_edit; [done|split_and!; [done|apply folder_ok|done]|done|]. simpl. rewrite Hr.
    apply map_eq. intros v. destruct (decide (v = u)) as [->|];
      by rewrite ?lookup_alter_eq, ?lookup_alter_ne, ?lookup_insert_eq, ?lookup_insert_ne, ?Hv by done.
Qed.
Lemma remove_refines name :
  normalize_handle name = u ->
  let r := run (removeBuddy name) s in
  view r.2 = buddy_list_spec (RemoveBuddy name) (view s) /\ r.1 = present_buddies (read_buddies r.2).
Proof.
  intros Hn. pose proof (inherited_proto _ Hi). unfold removeBuddy. simpl buddy_list_spec. rewrite Hn. cbv zeta.
  simpl run.
  destruct stored_cases as [[-> Hv]|[(e & -> & _ & Hr & Hv)|(e & -> & (? & ? & ?) & Hr & Hv)]];
    simpl is_present; rewrite ?Hr; simpl; [by rewrite delete_id|by rewrite delete_id|].
  rewrite Hu. by apply view_edit; [|split_and!|..].
Qed.
End editing.

(** C11. Adding, moving and removing a buddy, run on their own, do to the buddy list that the user sees what
    the same operation does to a finite map, and return the list that the next load shows.  The names that
    every JavaScript object inherits are excepted. *)
Theorem buddy_list_refines (o : op) (s : State) u :
  edited o = Some u -> u ∉ inherited -> unlocked s = true ->
  let r := run (returned o) s in
  view r.2 = buddy_list_spec o (view s) /\ r.1 = present_buddies (read_buddies r.2).
Proof.
  intros Ho Hi Hu. destruct o; try done; injection Ho as Ho; [by apply (add_refines s u)|by apply (set_refines s u)|].
  by apply (remove_refines s u).
Qed.

