(* ===== verification/DeviceSync.v ===== *)
(** * The devices of an account exchange their buddy lists

    Merging is a maximum: devices that saw the same lists agree, and sending on what was heard comes
    to an end.  Then what confirming a key does, the theorems on concrete lists, and five runs that
    go wrong. *)

From S2P Require Import Prelude Json Integrity Auth Contacts ContactsLogic ContactsFacts.
Import JsObj Contacts.

(** ** Devices converge *)

(** What a merge compares: the version, then the tombstone, then the verified key. *)
Definition rank (e : BuddyEntry) : Z * bool * string := (b_v e, b_removed e, default "" (b_vk e)).

Lemma ltb_antisym a b : String.ltb a b = true -> String.ltb b a = false.
Proof.
  intros H. apply not_true_iff_false. intros H'. pose proof (ltb_trans _ _ _ H H') as E.
  by rewrite ltb_irrefl in E.
Qed.
Lemma buddy_newer_spec a b :
  buddy_newer a b = true <->
  b_v b < b_v a \/ b_v a = b_v b /\
    (b_removed a = true /\ b_removed b = false \/
     b_removed a = b_removed b /\ String.ltb (default "" (b_vk b)) (default "" (b_vk a)) = true).
Proof.
  unfold buddy_newer. rewrite !orb_true_iff, !andb_true_iff, negb_true_iff, Z.ltb_lt, Z.eqb_eq, eqb_true_iff.
  tauto.
Qed.
Lemma newer_trans a b c : buddy_newer a b = true -> buddy_newer b c = true -> buddy_newer a c = true.
Proof.
  rewrite !buddy_newer_spec. intros H1 H2. destruct H1 as [H1|[E1 H1]]; [left; destruct H2; lia|].
  destruct H2 as [H2|[E2 H2]]; [left; lia|]. right. split; [congruence|].
  destruct H1 as [[R1 N1]|[R1 N1]], H2 as [[R2 N2]|[R2 N2]]; try (left; split; congruence).
  right. split; [congruence|]. by eapply ltb_trans.
Qed.
Lemma newer_irrefl a : buddy_newer a a = false.
Proof.
  apply not_true_iff_false. rewrite buddy_newer_spec, ltb_irrefl. intros [?|[_ [[? ?]|[_ ?]]]]; [lia|congruence|done].
Qed.
Lemma newer_total a b : buddy_newer a b = false -> buddy_newer b a = false -> rank a = rank b.
Proof.
  rewrite <-!not_true_iff_false, !buddy_newer_spec. unfold rank. intros H1 H2.
  assert (b_v a = b_v b) as Hv by lia.
  assert (b_removed a = b_removed b) as Hr.
  { destruct (b_removed a) eqn:Ra, (b_removed b) eqn:Rb; [done|exfalso; apply H1; auto|exfalso; apply H2; auto|done]. }
  destruct (ltb_total (default "" (b_vk a)) (default "" (b_vk b))) as [E|[E|E]]; [congruence| |].
  - exfalso. apply H2. auto.
  - exfalso. apply H1. auto.
Qed.
Lemma newer_rank a b c d : rank a = rank c -> rank b = rank d -> buddy_newer a b = buddy_newer c d.
Proof. unfold rank, buddy_newer. by intros [= -> -> ->] [= -> -> ->]. Qed.

(** [a] is at least as new as [b]. *)
Definition covers (a b : BuddyEntry) : Prop := buddy_newer b a = false.
#[export] Instance covers_preorder : PreOrder covers.
Proof.
  split; [intros a; apply newer_irrefl|]. unfold covers. intros a b c H1 H2.
  destruct (buddy_newer a b) eqn:Eab.
  - destruct (buddy_newer b c) eqn:Ebc.
    + apply not_true_iff_false. intros H3. pose proof (newer_trans _ _ _ (newer_trans _ _ _ Eab Ebc) H3) as F.
      by rewrite newer_irrefl in F.
    + by rewrite (newer_rank c a b a (newer_total _ _ H2 Ebc) eq_refl).
  - by rewrite (newer_rank c a c b eq_refl (newer_total _ _ Eab H1)).
Qed.

(** Whether a merge at [maxV] takes [e] for the name [u], and what it leaves. *)
Definition takes (u : string) (maxV : Z) (cur : option BuddyEntry) (e : BuddyEntry) : bool :=
  negb (maxV <? b_v e) &&
  match cur with None => negb (bool_decide (u ∈ inherited)) | Some c => buddy_newer e c end.
Definition merge_one (u : string) (maxV : Z) (cur inc : option BuddyEntry) : option BuddyEntry :=
  match inc with Some e => if takes u maxV cur e then Some e else cur | None => cur end.

Lemma adopt_buddy_alt maxV (m : BuddyMap) ch u e :
  adopt_buddy maxV (m, ch) (u, e) =
    if takes u maxV (JsMap.lookup u m) e then (write u e m, true) else (m, ch).
Proof.
  unfold adopt_buddy, takes, read. simpl. destruct (maxV <? b_v e); simpl; [done|].
  destruct (JsMap.lookup u m); [done|]. by case_bool_decide.
Qed.
Lemma adopt_fold maxV (l m : BuddyMap) ch u :
  NoDup l.*1 -> "__proto__" ∉ l.*1 ->
  JsMap.lookup u (foldl (adopt_buddy maxV) (m, ch) l).1 =
    merge_one u maxV (JsMap.lookup u m) (JsMap.lookup u l).
Proof.
  revert m ch. induction l as [|[k e] l IH]; intros m ch Hn Hp; cbn [foldl JsMap.lookup]; [done|].
  apply NoDup_cons in Hn as [Hk Hn]. rewrite adopt_buddy_alt.
  assert (k <> "__proto__") as Hkp by set_solver. assert ("__proto__" ∉ l.*1) by set_solver.
  destruct (decide (u = k)) as [->|Hne].
  - simpl. destruct (takes k maxV (JsMap.lookup k m) e); rewrite IH by done;
      rewrite (proj2 (JsMap.lookup_None k l)) by done; simpl; [|done].
    rewrite lookup_write by done. by rewrite decide_True.
  - destruct (takes k maxV (JsMap.lookup k m) e); rewrite IH by done; [|done].
    rewrite lookup_write by done. by rewrite decide_False.
Qed.
Lemma adopt_lookup {P} maxV (local inc : BuddyMap) u :
  map_ok P inc ->
  JsMap.lookup u (adopt_buddies maxV local inc).1 =
    merge_one u maxV (JsMap.lookup u local) (JsMap.lookup u inc).
Proof.
  intros Hi. pose proof (map_ok_entries _ _ Hi) as (Hn & Hp & _). unfold adopt_buddies.
  rewrite adopt_fold by done. rewrite lookup_entries; [done|apply Hi].
Qed.

(** A merge says that it changed something exactly when it took an entry. *)
Lemma adopt_flag maxV (l m : BuddyMap) :
  (foldl (adopt_buddy maxV) (m, true) l).2 = true /\
  ((foldl (adopt_buddy maxV) (m, false) l).2 = false ->
   (foldl (adopt_buddy maxV) (m, false) l).1 = m /\
   forall u e, (u, e) ∈ l -> takes u maxV (JsMap.lookup u m) e = false).
Proof.
  revert m. induction l as [|[k e] l IH]; intros m; cbn [foldl]; [set_solver|]. rewrite !adopt_buddy_alt.
  destruct (takes k maxV (JsMap.lookup k m) e) eqn:E.
  - split; [apply IH|]. rewrite (proj1 (IH _)). done.
  - split; [apply IH|]. intros Hf. destruct (proj2 (IH m) Hf) as [H1 H2]. split; [done|].
    intros u e' Hin. apply elem_of_cons in Hin as [[= -> ->]|Hin]; auto.
Qed.
Lemma adopt_unchanged maxV (local inc : BuddyMap) :
  (adopt_buddies maxV local inc).2 = false ->
  (adopt_buddies maxV local inc).1 = local /\
  forall u e, (u, e) ∈ inc -> takes u maxV (JsMap.lookup u local) e = false.
Proof.
  intros H. destruct (proj2 (adopt_flag _ _ _) H) as [H1 H2]. split; [done|].
  intros u e Hin. apply H2. by apply elem_of_entries.
Qed.
Lemma adopt_changed maxV (local inc : BuddyMap) {P} :
  map_ok P inc -> (adopt_buddies maxV local inc).2 = true ->
  exists u e, (u, e) ∈ inc /\ takes u maxV (JsMap.lookup u local) e = true.
Proof.
  intros Hi. unfold adopt_buddies. pose proof (elem_of_entries inc) as He. revert He.
  generalize (entries inc) at 1 2. intros l He.
  assert (forall l', (forall u e, (u, e) ∈ l' -> (u, e) ∈ inc) ->
    (foldl (adopt_buddy maxV) (local, false) l').2 = true ->
    exists u e, (u, e) ∈ inc /\ takes u maxV (JsMap.lookup u local) e = true) as Hgen.
  { induction l' as [|[k e] l' IH]; intros Hl'; cbn [foldl]; [done|]. rewrite adopt_buddy_alt.
    destruct (takes k maxV (JsMap.lookup k local) e) eqn:E; [|apply IH; set_solver].
    intros _. exists k, e. split; [apply Hl'; set_solver|done]. }
  apply Hgen. intros u e. by rewrite He.
Qed.

(** A device that hears the frame of another. *)
Definition frame_of (s : State) : option json := (run buddiesFrame s).1.
Definition hear (s x : State) : State := (run (adoptBuddies (frame_of x)) s).2.

Lemma hear_run s x :
  unlocked s = true -> unlocked x = true ->
  hear s x =
    let (merged, changed) := adopt_buddies (clock s + CRDT_MAX_FUTURE_MS) (read_buddies s) (entries (read_buddies x)) in
    if changed then add_log (add_log (set_buddies s (buddies_json merged)) (Told SyncBuddies)) (Told BuddiesUpdated)
    else s.
Proof.
  intros Hs Hx. unfold hear, frame_of. simpl. rewrite Hx. simpl. rewrite Hs. simpl.
  assert (normalizeBuddyMap (Some (buddies_json (read_buddies x))) = Ok (entries (read_buddies x))) as E
    by apply buddies_roundtrip, read_buddies_ok.
  unfold prop. simpl JsMap.lookup. simpl in *. injection E as ->.
  destruct (adopt_buddies _ _ _) as [merged [|]]; simpl; [by rewrite Hs|done].
Qed.

Section hearing.
Context (s x : State) (Hs : unlocked s = true) (Hx : unlocked x = true).
#[local] Abbreviation mine u := (JsMap.lookup u (read_buddies s)).
#[local] Abbreviation theirs u := (JsMap.lookup u (read_buddies x)).
#[local] Abbreviation limit := (clock s + CRDT_MAX_FUTURE_MS).

Lemma frame_ok : map_ok buddy_ok (entries (read_buddies x)).
Proof. apply map_ok_entries, read_buddies_ok. Qed.
Lemma merged_ok : map_ok buddy_ok (adopt_buddies limit (read_buddies s) (entries (read_buddies x))).1.
Proof.
  apply (map_ok_mono (fun u e => buddy_ok u e /\ buddy_allowed (fun _ => True) (fun _ _ => True) u e)); [tauto|].
  apply adopt_keeps; [|apply frame_ok|done|done].
  eapply map_ok_mono; [|apply read_buddies_ok]. done.
Qed.
Lemma hear_lookup u :
  JsMap.lookup u (read_buddies (hear s x)) = merge_one u limit (mine u) (theirs u).
Proof.
  rewrite hear_run by done.
  pose proof (adopt_lookup limit (read_buddies s) _ u frame_ok) as Hl.
  pose proof merged_ok as Hm. pose proof (adopt_unchanged limit (read_buddies s) (entries (read_buddies x))) as Hun.
  rewrite lookup_entries in Hl by apply read_buddies_ok. rewrite <-Hl. revert Hm Hun.
  destruct (adopt_buddies _ _ _) as [merged [|]]; simpl; intros Hm Hun.
  - change (JsMap.lookup u (read_buddies (set_buddies s (buddies_json merged))) = JsMap.lookup u merged).
    rewrite read_saved_buddies by done. apply lookup_entries, Hm.
  - by destruct (Hun eq_refl) as [-> _].
Qed.
Lemma hear_unlocked : unlocked (hear s x) = true.
Proof. rewrite hear_run by done. by destruct (adopt_buddies _ _ _) as [merged [|]]. Qed.
Lemma hear_clock : clock (hear s x) = clock s.
Proof. rewrite hear_run by done. by destruct (adopt_buddies _ _ _) as [merged [|]]. Qed.

(** Nothing is done, and nothing sent on, exactly when no entry is taken. *)
Lemma hear_nothing :
  (forall u e, theirs u = Some e -> takes u limit (mine u) e = false) -> hear s x = s.
Proof.
  intros H. rewrite hear_run by done.
  pose proof (adopt_changed limit (read_buddies s) (entries (read_buddies x)) frame_ok) as Hc.
  destruct (adopt_buddies _ _ _) as [merged [|]]; [|done]. destruct (Hc eq_refl) as (u & e & Hin & Ht).
  rewrite (H u e) in Ht; [done|]. apply NoDup_lookup; [apply read_buddies_ok|]. by rewrite elem_of_entries in Hin.
Qed.
Lemma hear_something :
  hear s x = s \/
  (log (hear s x) = log s ++ [Told SyncBuddies; Told BuddiesUpdated] /\
   exists u e, theirs u = Some e /\ takes u limit (mine u) e = true).
Proof.
  rewrite hear_run by done.
  pose proof (adopt_changed limit (read_buddies s) (entries (read_buddies x)) frame_ok) as Hc.
  destruct (adopt_buddies _ _ _) as [merged [|]]; [|by left]. right.
  destruct (Hc eq_refl) as (u & e & Hin & Ht). split; [simpl; by rewrite <-app_assoc|].
  exists u, e. split; [|done]. apply NoDup_lookup; [apply read_buddies_ok|]. by rewrite elem_of_entries in Hin.
Qed.
End hearing.

(** A merged entry covers both sides, and is one of them. *)
Lemma merge_covers u maxV cur inc e :
  merge_one u maxV cur inc = Some e ->
  (forall c, cur = Some c -> covers e c) /\ (cur = Some e \/ inc = Some e).
Proof.
  unfold merge_one. destruct inc as [i|]; [|intros ->; split; [by intros c [= <-]|by left]].
  destruct (takes u maxV cur i) eqn:E; [|intros ->; split; [by intros c [= <-]|by left]].
  intros [= <-]. split; [|by right]. intros c ->. unfold takes in E. apply andb_true_iff in E as [_ E].
  unfold covers. apply not_true_iff_false. intros E'. pose proof (newer_trans _ _ _ E E') as F.
  by rewrite newer_irrefl in F.
Qed.
Lemma merge_some u maxV c inc : exists e, merge_one u maxV (Some c) inc = Some e.
Proof. unfold merge_one. destruct inc as [i|]; [destruct (takes _ _ _ _)|]; eauto. Qed.
Lemma merge_takes u maxV cur e : u ∉ inherited -> b_v e <= maxV ->
  exists r, merge_one u maxV cur (Some e) = Some r /\ covers r e.
Proof.
  intros Hu Hv. unfold merge_one, takes. rewrite (proj2 (Z.ltb_ge _ _)) by done. simpl.
  destruct cur as [c|]; [|rewrite bool_decide_eq_false_2 by done; by exists e].
  destruct (buddy_newer e c) eqn:E; [by exists e|]. by exists c.
Qed.

(** A device that hears the frames of several, one after the other. *)
Definition hears (s : State) (xs : list State) : State := foldl hear s xs.
Definition rank_of (s : State) (u : string) : option (Z * bool * string) :=
  rank <$> JsMap.lookup u (read_buddies s).

Lemma hears_newest xs s u :
  u ∉ inherited -> Forall (fun x => unlocked x = true) (s :: xs) ->
  (forall x e, x ∈ s :: xs -> JsMap.lookup u (read_buddies x) = Some e -> b_v e <= clock s + CRDT_MAX_FUTURE_MS) ->
  let r := JsMap.lookup u (read_buddies (hears s xs)) in
  (forall x e, x ∈ s :: xs -> JsMap.lookup u (read_buddies x) = Some e -> exists e', r = Some e' /\ covers e' e) /\
  (forall e, r = Some e -> exists x, x ∈ s :: xs /\ JsMap.lookup u (read_buddies x) = Some e).
Proof.
  intros Hu. revert s. induction xs as [|x xs IH]; intros s Hall Hv; cbv zeta.
  { simpl. split; [|intros e He; exists s; split; [set_solver|done]]. intros x e Hx. apply list_elem_of_singleton in Hx as ->.
    intros He. by exists e. }
  apply Forall_cons in Hall as [Hs Hall]. apply Forall_cons in Hall as [Hx Hall].
  pose proof (hear_lookup s x Hs Hx u) as Hl.
  assert (forall e, JsMap.lookup u (read_buddies (hear s x)) = Some e ->
    JsMap.lookup u (read_buddies s) = Some e \/ JsMap.lookup u (read_buddies x) = Some e) as Hone.
  { intros e. rewrite Hl. intros He. by apply merge_covers in He as [_ ?]. }
  destruct (IH (hear s x)) as [H1 H2].
  { constructor; [by apply hear_unlocked|done]. }
  { intros y e Hy He. rewrite hear_clock by done. apply elem_of_cons in Hy as [->|Hy]; [|apply (Hv y e); set_solver].
    apply Hone in He as [He|He]; [apply (Hv s e)|apply (Hv x e)]; set_solver. }
  assert (forall y e, y ∈ [s; x] -> JsMap.lookup u (read_buddies y) = Some e ->
    exists e', JsMap.lookup u (read_buddies (hear s x)) = Some e' /\ covers e' e) as Hpair.
  { intros y e Hy He. rewrite Hl. apply elem_of_cons in Hy as [->|Hy].
    - rewrite He. destruct (merge_some u (clock s + CRDT_MAX_FUTURE_MS) e (JsMap.lookup u (read_buddies x))) as [r Hr].
      exists r. split; [done|]. apply merge_covers in Hr as [Hr _]. by apply Hr.
    - apply list_elem_of_singleton in Hy as ->. rewrite He. apply merge_takes; [done|]. apply (Hv x e); set_solver. }
  simpl. split.
  - intros y e Hy He. assert (y ∈ [s; x] \/ y ∈ xs) as [Hy'|Hy'] by set_solver.
    + destruct (Hpair y e Hy' He) as (e1 & He1 & Hc1). destruct (H1 (hear s x) e1) as (e2 & He2 & Hc2); [set_solver|done|].
      exists e2. split; [done|]. by etrans.
    + apply (H1 y e); [set_solver|done].
  - intros e He. destruct (H2 e He) as (y & Hy & Hye). apply elem_of_cons in Hy as [->|Hy]; [|exists y; set_solver].
    apply Hone in Hye as [?|?]; [exists s|exists x]; set_solver.
Qed.

(** C8. Two devices that have between them seen the same buddy lists, in whatever order and however often,
    agree for each name on its version, whether it is on the list, and which key is verified; unless a
    version in those lists runs more than a day ahead of one of their clocks.  The names that every
    JavaScript object inherits are excepted. *)
Theorem devices_converge (a b : State) (seen_a seen_b : list State) u :
  Forall (fun x => unlocked x = true) (a :: seen_a) ->
  (forall x, x ∈ a :: seen_a <-> x ∈ b :: seen_b) ->
  (forall x e, x ∈ a :: seen_a -> JsMap.lookup u (read_buddies x) = Some e ->
     b_v e <= Z.min (clock a) (clock b) + CRDT_MAX_FUTURE_MS) ->
  u ∉ inherited ->
  rank_of (hears a seen_a) u = rank_of (hears b seen_b) u.
Proof.
  intros Hall Hsame Hv Hu.
  destruct (hears_newest seen_a a u Hu Hall) as [A1 A2]; [intros x e Hx He; specialize (Hv x e Hx He); lia|].
  destruct (hears_newest seen_b b u Hu) as [B1 B2].
  { apply Forall_forall. intros x Hx. rewrite Forall_forall in Hall. by apply Hall, Hsame. }
  { intros x e Hx He. apply Hsame in Hx. specialize (Hv x e Hx He). lia. }
  unfold rank_of. destruct (JsMap.lookup u (read_buddies (hears a seen_a))) as [ea|].
  - destruct (A2 ea eq_refl) as (x & Hx & Hxa). apply Hsame in Hx.
    destruct (B1 x ea Hx Hxa) as (eb & Eb & Hc). rewrite Eb. destruct (B2 eb Eb) as (y & Hy & Hyb).
    apply Hsame in Hy. destruct (A1 y eb Hy Hyb) as (e' & [= <-] & Hc'). simpl. f_equal. by apply newer_total.
  - destruct (JsMap.lookup u (read_buddies (hears b seen_b))) as [eb|] eqn:Eb; [|done].
    destruct (B2 eb eq_refl) as (y & Hy & Hyb). apply Hsame in Hy. by destruct (A1 y eb Hy Hyb) as (e' & ? & _).
Qed.

(** ** Sending on what was heard comes to an end *)

(** The devices of an account and the frames they have sent.  A frame is delivered to any device, in any
    order, any number of times, or never. *)
Inductive traffic := Send (i : nat) | Deliver (i k : nat) | Pass (i : nat) (t : Z).
Definition Net : Type := list State * list State.
Definition net (w : Net) (m : traffic) : Net :=
  let (ds, sent) := w in
  match m with
  | Send i => match ds !! i with Some d => (ds, sent ++ [d]) | None => w end
  | Deliver i k =>
      match ds !! i, sent !! k with
      | Some d, Some x => (<[i := hear d x]> ds, sent)
      | _, _ => w
      end
  | Pass i t =>
      (alter (fun s => MkState (unlocked s) (buddies s) (groups s) (handles s) (blocked s)
                         (clock s + Z.max 0 t) (peer_keys s) (log s)) i ds, sent)
  end.

Definition is_sync (e : event) : bool := match e with Told SyncBuddies => true | _ => false end.
(** How often a device sent its list on. *)
Definition syncs (s : State) : nat := length (List.filter is_sync (log s)).

Section network.
Context (E : list (string * BuddyEntry)).

(** The entries of [E] that a device is up to date with. *)
Definition up_to_date (s : State) (x : string * BuddyEntry) : bool :=
  match JsMap.lookup x.1 (read_buddies s) with Some c => negb (buddy_newer x.2 c) | None => false end.
Definition known (s : State) : nat := length (List.filter (up_to_date s) E).

Lemma filter_length_mono {A} (p q : A -> bool) (l : list A) :
  (forall x, p x = true -> q x = true) ->
  (length (List.filter p l) <= length (List.filter q l))%nat /\
  ((exists x, x ∈ l /\ p x = false /\ q x = true) ->
   (length (List.filter p l) < length (List.filter q l))%nat).
Proof.
  intros H. induction l as [|y l [IH1 IH2]]; simpl;
    [split; [lia|intros (x & Hx & _); by apply elem_of_nil in Hx]|].
  destruct (p y) eqn:Ep; [rewrite (H _ Ep)|destruct (q y) eqn:Eq]; simpl; (split; [lia|]);
    intros (x & Hx & Hp & Hq); apply elem_of_cons in Hx as [->|Hx]; try congruence; try lia;
    (cut (length (List.filter p l) < length (List.filter q l))%nat; [lia|apply IH2; eauto]).
Qed.

Definition sourced (s : State) : Prop := unlocked s = true /\ forall u e, JsMap.lookup u (read_buddies s) = Some e -> (u, e) ∈ E.

Lemma hear_progress s x :
  sourced s -> sourced x ->
  sourced (hear s x) /\ (syncs (hear s x) + known s <= syncs s + known (hear s x))%nat.
Proof.
  intros [Hs Es] [Hx Ex]. split.
  { split; [by apply hear_unlocked|]. intros u e. rewrite hear_lookup by done. intros Hm.
    apply merge_covers in Hm as [_ [?|?]]; auto. }
  assert (forall y, up_to_date s y = true -> up_to_date (hear s x) y = true) as Hmono.
  { intros [u e]. unfold up_to_date. simpl. rewrite hear_lookup by done.
    destruct (JsMap.lookup u (read_buddies s)) as [c|]; [|done].
    destruct (merge_some u (clock s + CRDT_MAX_FUTURE_MS) c (JsMap.lookup u (read_buddies x))) as [r Hr].
    rewrite Hr. apply merge_covers in Hr as [Hr _]. rewrite !negb_true_iff. intros Hc.
    pose proof (Hr c eq_refl : covers r c) as H1. assert (covers c e) as H2 by done. by apply (transitivity H1 H2). }
  destruct (filter_length_mono _ _ E Hmono) as [_ Hlt]. unfold known.
  destruct (hear_something s x Hs Hx) as [->|[Hlog (u & e & He & Ht)]]; [lia|].
  unfold syncs. rewrite Hlog, List.filter_app, length_app. simpl.
  cut (length (List.filter (up_to_date s) E) < length (List.filter (up_to_date (hear s x)) E))%nat; [lia|].
  apply Hlt. exists (u, e). split_and!; [by apply Ex| |]; unfold up_to_date; simpl.
  - unfold takes in Ht. apply andb_true_iff in Ht as [_ Ht].
    destruct (JsMap.lookup u (read_buddies s)); [by rewrite Ht|done].
  - rewrite hear_lookup by done. rewrite He. simpl. rewrite Ht. by rewrite newer_irrefl.
Qed.

(** Each device has sent its list on at most as often as it came to know an entry. *)
Definition net_ok (start : list State) (w : Net) : Prop :=
  Forall sourced w.1 /\ Forall sourced w.2 /\
  Forall2 (fun d d' => (syncs d' <= syncs d + known d')%nat) start w.1.
Lemma net_keeps start w m : net_ok start w -> net_ok start (net w m).
Proof.
  intros (Hd & Hx & Hs). destruct w as [ds sent], m as [i|i k|i t]; simpl in *.
  - destruct (ds !! i) as [d|] eqn:Ei; [|done]. split_and!; [done| |done]. simpl.
    apply Forall_app. split; [done|]. constructor; [exact (Forall_lookup_1 _ _ _ _ Hd Ei)|done].
  - destruct (ds !! i) as [d|] eqn:Ei; [|done]. destruct (sent !! k) as [x|] eqn:Ek; [|done].
    destruct (hear_progress d x) as [H1 H2]; [exact (Forall_lookup_1 _ _ _ _ Hd Ei)|exact (Forall_lookup_1 _ _ _ _ Hx Ek)|].
    split_and!; simpl; [by apply Forall_insert|done|].
    destruct (Forall2_lookup_r _ _ _ _ _ Hs Ei) as (d0 & E0 & H0). rewrite <-(list_insert_id start i d0) by done.
    apply Forall2_insert; [done|lia].
  - split_and!; [|done|]; simpl.
    + apply Forall_alter; [done|]. by intros x _ [? ?].
    + apply Forall2_alter_r; [done|]. intros d0 d _ _ ?. done.
Qed.
End network.

(** C9. Whatever frames the devices of an account send each other, delivered in any order, again or never,
    each device sends its list on after hearing another at most once for each entry that one of them had at
    the start: the exchange ends. *)
Theorem rebroadcasts_end (ds : list State) (ms : list traffic) i d d' :
  Forall (fun s => unlocked s = true) ds ->
  ds !! i = Some d -> (foldl net (ds, []) ms).1 !! i = Some d' ->
  (syncs d' <= syncs d + length (concat (read_buddies <$> ds)))%nat.
Proof.
  intros Hu Hi Hi'. set (E := concat (read_buddies <$> ds)).
  assert (net_ok E ds (foldl net (ds, []) ms)) as (_ & _ & H).
  { clear Hi'. induction ms as [|m ms IH] using rev_ind.
    - split_and!; [|constructor|]; simpl.
      + apply Forall_forall. intros s Hs. rewrite Forall_forall in Hu. split; [by apply Hu|].
        intros u e He. apply JsMap.lookup_Some_in in He. unfold E. apply list_elem_of_In, in_concat.
        exists (read_buddies s). rewrite <-!list_elem_of_In. split; [by apply list_elem_of_fmap_2|done].
      + apply Forall_Forall2_diag, Forall_forall. intros; lia.
    - rewrite foldl_app. simpl. by apply net_keeps, IH. }
  pose proof (Forall2_lookup_lr _ _ _ _ _ _ H Hi Hi') as Hle. cbv beta in Hle. unfold known in Hle.
  pose proof (List.filter_length_le (up_to_date d') E). lia.
Qed.

(** ** Confirming a key *)

(** Marking a buddy verified succeeds exactly when the key has its form, is now the only account key in
    the conversation tagged with the buddy's handle, the buddy is on the list, and its pin is still the one
    the panel showed; it then pins the key and touches no other buddy, and otherwise it changes none. *)
Theorem mark_verified_iff (s : State) (name k prev : string) :
  let u := normalize_handle name in
  let r := run (markBuddyVerified name k prev) s in
  u ∉ inherited -> unlocked s = true ->
  (r.1 = true <->
    is_key k = true /\
    (exists c, JsMap.lookup u (read_handles s) = Some c /\ peer_keys s c = [k]) /\
    (exists e, JsMap.lookup u (read_buddies s) = Some e /\ b_removed e = false /\ default "" (b_vk e) = prev)) /\
  (forall v, JsMap.lookup v (read_buddies r.2) =
     if r.1 && bool_decide (v = u)
     then (fun e => MkBuddy (b_addedAt e) (clock s) (b_removed e) (b_group e) (Some k)) <$>
            JsMap.lookup u (read_buddies s)
     else JsMap.lookup v (read_buddies s)).
Proof.
  intros u r Hi Hu. subst r. unfold markBuddyVerified, buddyPeerKey. cbv zeta. fold u.
  assert (normalize_handle u = u) as -> by apply normalize_handle_idemp.
  destruct (is_key k) eqn:Ek; simpl; [|split; [naive_solver|done]].
  assert (k <> "") as Hk by by intros ->. rewrite read_plain by done.
  destruct (JsMap.lookup u (read_handles s)) as [c|] eqn:Ec; simpl;
    [|rewrite bool_decide_eq_false_2 by congruence; split; [naive_solver|done]].
  destruct (decide (peer_keys s c = [k])) as [Hkeys|Hkeys].
  2:{ rewrite bool_decide_eq_false_2; [split; [naive_solver|done]|].
      destruct (peer_keys s c) as [|k' [|]]; congruence. }
  rewrite Hkeys, bool_decide_eq_true_2 by done. simpl.
  change (read_buddies (add_log s _)) with (read_buddies s). rewrite read_plain by done.
  destruct (JsMap.lookup u (read_buddies s)) as [e|] eqn:Ee; simpl; [|split; [naive_solver|done]].
  destruct (b_removed e) eqn:Er; simpl; [split; [naive_solver|done]|].
  case_bool_decide as Hp; simpl; [|split; [naive_solver|done]].
  rewrite Hu. split; [naive_solver|]. intros v.
  assert (buddy_ok u e) as (? & ? & ?) by by apply (read_buddies_ok s), JsMap.lookup_Some_in.
  set (e' := MkBuddy (b_addedAt e) (clock s) false (b_group e) (Some k)).
  change (JsMap.lookup v (read_buddies (changed s u e')) =
          if bool_decide (v = u) then Some e' else JsMap.lookup v (read_buddies s)).
  rewrite read_changed; [|done|split_and!; [done|done|by intros ? [= <-]]|by apply inherited_proto].
  case_decide; case_bool_decide; done.
Qed.

(** ** On concrete lists *)

Definition device (m : BuddyMap) (t : Z) (keys : string -> list string) : State :=
  MkState true (Some (buddies_json m)) None
    (Some (handles_json [("bob", "c-1")])) None t keys [].
Definition a_key : string := String.string_of_list_ascii (repeat "a"%char 64).
Definition bob (v : Z) (removed : bool) (g : string) : BuddyMap := [("bob", MkBuddy 1 v removed g None)].
Definition ours : State := device (bob 1000 false "Work") 2000 (fun _ => [a_key]).
Definition siblings_list : BuddyMap :=
  [("bob", MkBuddy 1 1500 true "Work" None); ("eve", MkBuddy 1 1600 false "Buddies" None)].
Definition sibling : State := device siblings_list 2000 (fun _ => []).
#[local] Instance code_units : LocaleCompare := fun a b => if String.leb a b then -1 else 1.

Lemma buddy_list_refines_witness :
  view (run (returned (AddBuddy " Alice " (Some "Work"))) ours).2 =
    <["alice" := "Work"]> (view ours).
Proof.
  destruct (buddy_list_refines (AddBuddy " Alice " (Some "Work")) ours "alice") as [H _]; [done|by apply (bool_decide_unpack _)|done|].
  rewrite H. by vm_compute.
Defined.
Lemma devices_converge_witness : rank_of (hears ours [sibling]) "bob" = rank_of (hears sibling [ours; ours]) "bob".
Proof.
  apply devices_converge; [by repeat constructor|set_solver| |by apply (bool_decide_unpack _)].
  intros x e Hx. rewrite !elem_of_cons, elem_of_nil in Hx.
  assert (read_buddies ours = bob 1000 false "Work") as Ro by by vm_compute.
  assert (read_buddies sibling = siblings_list) as Rs by by vm_compute.
  destruct Hx as [->|[->|[]]]; rewrite ?Ro, ?Rs; intros [= <-]; by apply Z.leb_le.
Defined.
Lemma rebroadcasts_end_witness :
  (syncs (hear ours sibling) <= 3)%nat.
Proof.
  apply (rebroadcasts_end [ours; sibling] [Send 1; Deliver 0 0; Deliver 0 0] O ours (hear ours sibling));
    [by repeat constructor|done|by vm_compute].
Defined.

Definition confirm_moves : list move :=
  Begin (method (MarkBuddyVerified "Bob" a_key "")) :: repeat (Turn O) 8.
Lemma pins_have_a_source_witness :
  is_key a_key = true /\ pin_source [MarkBuddyVerified "Bob" a_key ""] ours (plays ([], ours) confirm_moves).2 "bob" a_key.
Proof.
  apply (pins_have_a_source _ _ _ "bob" (MkBuddy 1 2000 false "Work" (Some a_key))); [|by vm_compute; left|done].
  intros p Hp. unfold confirm_moves in Hp. apply elem_of_cons in Hp as [[= ->]|Hp]; [eexists; split; [by left|done]|].
  exfalso. simpl in Hp. rewrite !elem_of_cons, elem_of_nil in Hp. naive_solver.
Defined.
Lemma versions_stay_near_clock_witness :
  JsMap.lookup "bob" (read_buddies (plays ([], ours) [Tick 500]).2) = Some (MkBuddy 1 1000 false "Work" None) /\
  1000 <= 2500 + CRDT_MAX_FUTURE_MS.
Proof.
  split; [by vm_compute|].
  refine (proj1 (versions_stay_near_clock [] ours [Tick 500] _ _ _) "bob" (MkBuddy 1 1000 false "Work" None) _).
  - intros p Hp. exfalso. rewrite elem_of_cons, elem_of_nil in Hp. naive_solver.
  - intros u e Hin. change (read_buddies ours) with (bob 1000 false "Work") in Hin.
    apply list_elem_of_singleton in Hin as [= -> ->]. by vm_compute.
  - intros g e Hin. by apply elem_of_nil in Hin.
  - vm_compute. by left.
Defined.
Lemma saves_read_back_witness :
  let w := plays ([], ours) [Begin (method (RemoveBuddy "bob")); Turn 0; Turn 0] in
  match w.1 !! O with
  | Some (SaveBuddies m _) => read_buddies (play w (Turn 0)).2 = entries m
  | Some (SaveGroups m _) => (length m <= GROUP_MAP_MAX_ENTRIES)%nat -> read_groups (play w (Turn 0)).2 = entries m
  | _ => True
  end.
Proof.
  apply (saves_read_back [RemoveBuddy "bob"]); [|done]. intros p Hp.
  rewrite !elem_of_cons, elem_of_nil in Hp. destruct Hp as [[= ->]|[?|[?|[]]]]; [|done..].
  eexists. split; [by left|done].
Defined.
Lemma mark_verified_iff_witness : (run (markBuddyVerified "Bob" a_key "") ours).1 = true.
Proof.
  apply (mark_verified_iff ours "Bob" a_key ""); [by apply (bool_decide_unpack _)|done|].
  split_and!; [done|by exists "c-1"|]. exists (MkBuddy 1 1000 false "Work" None). done.
Defined.

(** ** What goes wrong *)

(** A frame that is being merged while the user adds a buddy: the method that loaded first saves last, and
    the new buddy is in no record. *)
Definition lost_moves : list move :=
  [Begin (method (AdoptBuddies (frame_of sibling))); Turn 0; Turn 0;
   Begin (method (AddBuddy "alice" None)); Turn 1; Turn 1; Turn 1; Turn 1; Turn 1; Turn 1; Turn 1; Turn 1].
Theorem add_is_lost :
  view (plays ([], ours) lost_moves).2 !! "alice" = Some "Buddies" /\
  view (plays ([], ours) (lost_moves ++ [Turn 0; Turn 0])).2 !! "alice" = None /\
  JsMap.lookup "alice" (read_buddies (plays ([], ours) (lost_moves ++ [Turn 0; Turn 0])).2) = None.
Proof. by vm_compute. Qed.

(** A name that every object inherits is taken for a buddy that is already on the list. *)
Theorem constructor_cannot_be_added (s : State) g :
  JsMap.lookup "constructor" (read_buddies s) = None ->
  run (addBuddy "constructor" g) s = run listBuddies s.
Proof.
  intros H. unfold addBuddy. change (normalize_handle "constructor") with "constructor". cbv zeta.
  simpl run. unfold read. by rewrite H.
Qed.

(** A removal on a device whose clock is behind the stored version: the next frame of a sibling that still
    has the buddy undoes it. *)
Theorem removal_undone :
  let behind := device (bob 1000 false "Work") 900 (fun _ => []) in
  let removed := (run (removeBuddy "bob") behind).2 in
  view removed !! "bob" = None /\ view (hear removed ours) !! "bob" = Some "Work".
Proof. by vm_compute. Qed.

(** Two devices that move a buddy in the same millisecond keep their own group for good. *)
Theorem moves_diverge :
  let a := (run (setBuddyGroup "bob" "Family") ours).2 in
  let b := (run (setBuddyGroup "bob" "Gym") ours).2 in
  view (hears a [b; hear b a]) !! "bob" = Some "Family" /\ view (hears b [a; hear a b]) !! "bob" = Some "Gym".
Proof. by vm_compute. Qed.

(** The group after the 512th, deleted ones included, is saved but not loaded. *)
Lemma entries_snoc {V} (m : list (string * V)) k v :
  is_index k = false -> entries (m ++ [(k, v)]) = entries m ++ [(k, v)].
Proof.
  intros H. rewrite !entries_alt, !List.filter_app. simpl. rewrite H. simpl. by rewrite app_nil_r, app_assoc.
Qed.
Theorem group_513_vanishes `{LocaleCompare} (s : State) name :
  let g := sanitizeGroupName name in
  unlocked s = true -> length (read_groups s) = GROUP_MAP_MAX_ENTRIES -> g ∉ (read_groups s).*1 ->
  is_index g = false -> g ∉ (read_groups (run (addGroup name) s).2).*1.
Proof.
  intros g Hu Hl Hg Hix. unfold addGroup. cbv zeta. fold g. cbn [run pbind loadGroupMap].
  destruct (bool_decide (g = "") || _ || _ || _) eqn:E; [done|]. cbn [run pbind loadGroupMap].
  destruct (group_present _); [done|]. cbn [run pbind now saveGroupMap tell listGroups loadGroupMap]. rewrite Hu.
  set (e := MkGroup _ _ _ _). cbn [snd]. assert (g <> "") as Hne.
  { intros Hn. rewrite bool_decide_eq_true_2 in E by done. done. }
  change (g ∉ (read_groups (set_groups s (groups_json (write g e (read_groups s))))).*1).
  rewrite read_saved_groups; [|done|].
  - assert (length (entries (read_groups s)) = GROUP_MAP_MAX_ENTRIES) as Hlen
      by by rewrite (Permutation_length (entries_perm _)).
    unfold write. destruct (bool_decide (g = "__proto__")).
    + rewrite take_ge by lia. by rewrite entries_keys.
    + rewrite JsMap.set_fresh, entries_snoc, take_app_length' by done. by rewrite entries_keys.
  - apply map_ok_write; [apply read_groups_ok|]. by apply sanitized_ok.
Qed.
