(* ===== verification/RichText.v ===== *)
(** * Rich text

    The text of messages, profiles and away lines, from client/src/app.ts: [formatMessageText] turns
    the marker text a peer sent into HTML, [serializeRichText] turns what the user typed in the editor
    back into marker text, and the receive caps on inline images look at the header of the picture
    before the browser may decode it.

    A text is the list of the bytes of its UTF-8 form; every marker is ASCII, so that a parser that
    looks for markers cuts it at the same places.  In the literals below a back-tick stands for a
    double quote ([dq]). *)

From stdpp Require Import pretty.
From S2P Require Import Prelude Json PairingWire.

Module RichText.

Abbreviation chars := (list Ascii.ascii).
Definition chars_of (s : string) : chars := String.list_ascii_of_string s.

Definition double_quote : Ascii.ascii := "034"%char.
Definition newline : Ascii.ascii := "010"%char.

(** A literal with its double quotes. *)
Definition dq (s : string) : chars := PairingWire.replace_char "`" double_quote (chars_of s).

(** [t.split(from).join(to)]; [skip] characters belong to an occurrence already replaced. *)
Fixpoint replace_from (skip : nat) (from to t : chars) : chars :=
  match t with
  | [] => []
  | c :: t' =>
      match skip with
      | S k => replace_from k from to t'
      | O => if decide (from `prefix_of` t) then to ++ replace_from (length from - 1) from to t'
             else c :: replace_from 0 from to t'
      end
  end.
Definition split_join (from to t : chars) : chars := replace_from 0 from to t.

(** ** Escaping *)

Definition HTML_ESCAPES (c : Ascii.ascii) : option chars :=
  if decide (c = "&"%char) then Some (chars_of "&amp;")
  else if decide (c = "<"%char) then Some (chars_of "&lt;")
  else if decide (c = ">"%char) then Some (chars_of "&gt;")
  else if decide (c = double_quote) then Some (chars_of "&quot;")
  else if decide (c = "'"%char) then Some (chars_of "&#39;")
  else None.

Definition escapeHtml (s : chars) : chars := s ≫= (fun c => default [c] (HTML_ESCAPES c)).

Definition EMOTICONS : list (string * string) :=
  [(":-)", "🙂"); (":)", "🙂"); (":-(", "🙁"); (":(", "🙁");
   (";-)", "😉"); (";)", "😉"); (":-D", "😀"); (":D", "😀");
   (":-P", "😛"); (":P", "😛"); (":'(", "😢"); ("<3", "❤️");
   (":-O", "😮"); (":O", "😮"); ("B-)", "😎"); (":-/", "😕")].

(** ** Palettes *)

Definition RT_TEXT_COLORS : list (string * string) :=
  [("wh", "#ffffff"); ("sl", "#c8ccd8"); ("gy", "#9aa0b0"); ("dg", "#555a68");
   ("bk", "#000000"); ("rd", "#e0504a"); ("mr", "#a02828"); ("or", "#e0883b");
   ("br", "#8a5a2b"); ("yl", "#e8c84a"); ("gd", "#d4af37"); ("lm", "#a8e05a");
   ("gn", "#54c878"); ("tl", "#1f9d8e"); ("cy", "#48c0d0"); ("bl", "#5a9be0");
   ("nv", "#3a55b0"); ("pu", "#b07ad0"); ("mg", "#d04ad0"); ("pk", "#e088c0")].

Definition RT_HL_COLORS : list (string * string) := RT_TEXT_COLORS.

Definition LEGACY_HL_KEYS : list string :=
  ["y"; "o"; "r"; "k"; "m"; "p"; "b"; "c"; "g"; "s"; "w"; "d"].

Record RTFont := MkFont { font_key : string; font_label : string; font_face : chars }.

Definition RT_FONTS : list RTFont :=
  [MkFont "h" "Helvetica" (dq "`Helvetica Neue`, Helvetica, Arial, sans-serif");
   MkFont "v" "Verdana" (dq "Verdana, Geneva, sans-serif");
   MkFont "b" "Trebuchet" (dq "`Trebuchet MS`, `Lucida Grande`, sans-serif");
   MkFont "s" "Serif" (dq "Georgia, `Times New Roman`, serif");
   MkFont "g" "Garamond" (dq "Garamond, `Apple Garamond`, `Palatino Linotype`, serif");
   MkFont "d" "Didot" (dq "Didot, `Bodoni MT`, `Times New Roman`, serif");
   MkFont "k" "Baskerville" (dq "Baskerville, `Palatino Linotype`, Palatino, serif");
   MkFont "n" "Rockwell" (dq "Rockwell, `Courier Bold`, `Courier New`, serif");
   MkFont "m" "Mono" (dq "`Courier New`, monospace");
   MkFont "t" "Typewriter" (dq "`American Typewriter`, `Courier New`, monospace");
   MkFont "f" "Futura" (dq "Futura, `Century Gothic`, `Trebuchet MS`, sans-serif");
   MkFont "w" "Wide" (dq "`Arial Black`, Impact, sans-serif");
   MkFont "o" "Copperplate" (dq "Copperplate, `Copperplate Gothic Light`, fantasy");
   MkFont "r" "Round" (dq "`Comic Sans MS`, `Comic Sans`, cursive");
   MkFont "c" "Chalkboard" (dq "`Chalkboard SE`, Chalkboard, `Comic Sans MS`, cursive");
   MkFont "y" "Marker" (dq "`Marker Felt`, `Comic Sans MS`, cursive");
   MkFont "u" "Script" (dq "`Snell Roundhand`, `Brush Script MT`, cursive");
   MkFont "p" "Papyrus" (dq "Papyrus, fantasy");
   MkFont "ti" "Times" (dq "`Times New Roman`, Times, serif");
   MkFont "pa" "Palatino" (dq "Palatino, `Palatino Linotype`, `Book Antiqua`, serif");
   MkFont "bo" "Bookman" (dq "`Bookman Old Style`, `URW Bookman L`, serif");
   MkFont "ce" "Century Gothic" (dq "`Century Gothic`, `URW Gothic L`, sans-serif");
   MkFont "gi" "Gill Sans" (dq "`Gill Sans`, `Gill Sans MT`, Calibri, sans-serif");
   MkFont "op" "Optima" (dq "Optima, `Segoe UI`, Candara, sans-serif");
   MkFont "ta" "Tahoma" (dq "Tahoma, Geneva, sans-serif");
   MkFont "se" "Segoe" (dq "`Segoe UI`, Segoe, Tahoma, sans-serif");
   MkFont "ca" "Calibri" (dq "Calibri, Candara, `Segoe UI`, sans-serif");
   MkFont "cm" "Cambria" (dq "Cambria, Georgia, serif");
   MkFont "co" "Consolas" (dq "Consolas, `Lucida Console`, monospace");
   MkFont "lu" "Lucida" (dq "`Lucida Sans`, `Lucida Grande`, sans-serif");
   MkFont "mo" "Monaco" (dq "Monaco, Menlo, `Lucida Console`, monospace");
   MkFont "me" "Menlo" (dq "Menlo, Monaco, monospace");
   MkFont "im" "Impact" (dq "Impact, Haettenschweiler, `Arial Narrow`, sans-serif");
   MkFont "fr" "Franklin" (dq "`Franklin Gothic Medium`, `Arial Narrow`, sans-serif");
   MkFont "an" "Arial Narrow" (dq "`Arial Narrow`, Arial, sans-serif");
   MkFont "ho" "Hoefler" (dq "`Hoefler Text`, Georgia, serif");
   MkFont "ch" "Cochin" (dq "Cochin, Georgia, serif");
   MkFont "bc" "Big Caslon" (dq "`Big Caslon`, `Book Antiqua`, serif");
   MkFont "ac" "Chancery" (dq "`Apple Chancery`, `Snell Roundhand`, cursive");
   MkFont "za" "Zapfino" (dq "Zapfino, `Snell Roundhand`, cursive");
   MkFont "bh" "Bradley Hand" (dq "`Bradley Hand`, `Comic Sans MS`, cursive");
   MkFont "nw" "Noteworthy" (dq "Noteworthy, `Comic Sans MS`, cursive");
   MkFont "he" "Herculanum" (dq "Herculanum, Papyrus, fantasy")].

Definition RT_SIZE_s : Ascii.ascii := "2".
Definition RT_SIZE_l : Ascii.ascii := "5".

Definition TEXT_KEYS : list chars := chars_of ∘ fst <$> RT_TEXT_COLORS.
Definition HL_KEYS : list chars := (chars_of ∘ fst <$> RT_HL_COLORS) ++ (chars_of <$> LEGACY_HL_KEYS).
Definition FONT_KEYS : list chars := chars_of ∘ font_key <$> RT_FONTS.
Definition has (keys : list chars) (k : chars) : bool := bool_decide (k ∈ keys).

(** ** Character classes and matching *)

Definition code (c : Ascii.ascii) : Z := Z.of_N (Ascii.N_of_ascii c).
Definition between (lo hi : Z) (c : Ascii.ascii) : bool := (lo <=? code c) && (code c <=? hi).
(** [[a-z]], [[0-9]], [[0-9a-fA-F]], [[A-Za-z0-9+/]] *)
Definition is_lower (c : Ascii.ascii) : bool := between 97 122 c.
Definition is_digit (c : Ascii.ascii) : bool := between 48 57 c.
Definition is_hex (c : Ascii.ascii) : bool := is_digit c || between 97 102 c || between 65 70 c.
Definition is_b64 (c : Ascii.ascii) : bool :=
  between 65 90 c || is_lower c || is_digit c || bool_decide (c = "+"%char) || bool_decide (c = "/"%char).

(** [t.startsWith(p)], with what follows. *)
Fixpoint strip_prefix (p t : chars) : option chars :=
  match p, t with
  | [], _ => Some t
  | a :: p', b :: t' => if decide (a = b) then strip_prefix p' t' else None
  | _ :: _, [] => None
  end.

(** The longest prefix of characters of a class, and what follows it. *)
Fixpoint span (p : Ascii.ascii -> bool) (t : chars) : chars * chars :=
  match t with
  | c :: t' => if p c then let '(a, b) := span p t' in (c :: a, b) else ([], t)
  | [] => ([], [])
  end.

Fixpoint first_prefix (ps : list string) (t : chars) : option chars :=
  match ps with
  | [] => None
  | p :: ps' => match strip_prefix (chars_of p) t with Some r => Some r | None => first_prefix ps' t end
  end.

(** Up to [n] equals signs. *)
Fixpoint skip_equals (n : nat) (t : chars) : chars :=
  match n, t with
  | S n', "="%char :: t' => skip_equals n' t'
  | _, _ => t
  end.

(** What follows [data:image\/(?:png|jpe?g|gif|webp);base64,[A-Za-z0-9+/]+={0,2}] at the head of a
    text.  No alternative is a prefix of another and ["="] is not in the alphabet, so that the
    greedy match is the only one that can be followed by ["]"] or the end. *)
Definition after_data_url (t : chars) : option chars :=
  match strip_prefix (chars_of "data:image/") t with
  | None => None
  | Some t =>
  match first_prefix ["png;base64,"; "jpeg;base64,"; "jpg;base64,"; "gif;base64,"; "webp;base64,"] t with
  | None => None
  | Some t => match span is_b64 t with ([], _) => None | (_, r) => Some (skip_equals 2 r) end
  end end.

Definition INLINE_IMG_RE (t : chars) : bool :=
  match after_data_url t with Some [] => true | _ => false end.

(** The data URL of an image marker [[img:...]] at the head of [rest]. *)
Definition match_img (rest : chars) : option chars :=
  match strip_prefix (chars_of "[img:") rest with
  | None => None
  | Some t =>
      match after_data_url t with
      | Some (("]"%char :: _) as r) => Some (take (length t - length r) t)
      | _ => None
      end
  end.

(** ** Receive caps on inline images *)

Definition RECV_IMG_MAX_DATAURI : Z := 40 * 1024.
Definition RECV_IMG_MAX_DIM : Z := 2048.

(** [b[i]!]: the guards keep every read inside the array but for the JPEG length bytes, and
    [undefined] is 0 in the bitwise operators. *)
Definition at_ (b : bytes) (i : nat) : Z := nth i b 0.
Definition bytes_at (b : bytes) (i : nat) (expected : list Z) : bool :=
  bool_decide (take (length expected) (drop i b) = expected).

Definition read32be (b : bytes) (o : nat) : Z :=
  to_u32 (Z.lor (Z.lor (Z.lor (Z.shiftl (at_ b o) 24) (Z.shiftl (at_ b (o + 1)) 16))
                       (Z.shiftl (at_ b (o + 2)) 8)) (at_ b (o + 3))).

Definition u16 (hi lo : Z) : Z := Z.lor (Z.shiftl hi 8) lo.
Definition u24 (lo mid hi : Z) : Z := Z.lor (Z.lor lo (Z.shiftl mid 8)) (Z.shiftl hi 16).

Definition is_sof (marker : Z) : bool :=
  (0xc0 <=? marker) && (marker <=? 0xcf) && negb (marker =? 0xc4) && negb (marker =? 0xc8) && negb (marker =? 0xcc).
Definition is_standalone (marker : Z) : bool :=
  (marker =? 0xd8) || (marker =? 0xd9) || ((0xd0 <=? marker) && (marker <=? 0xd7)).

(** One turn of the scan over JPEG segments, from [i]. *)
Inductive scan_step := ScanTo (i : nat) | ScanDone (r : option (Z * Z)).

Definition jpeg_step (b : bytes) (i : nat) : scan_step :=
  if negb (i + 9 <? length b)%nat then ScanDone None
  else if negb (at_ b i =? 0xff) then ScanTo (i + 1)
  else
    let marker := at_ b (i + 1) in
    if is_sof marker then
      ScanDone (Some (u16 (at_ b (i + 7)) (at_ b (i + 8)), u16 (at_ b (i + 5)) (at_ b (i + 6))))
    else if is_standalone marker then ScanTo (i + 2)
    else
      let len := u16 (at_ b (i + 2)) (at_ b (i + 3)) in
      if len <? 2 then ScanDone None else ScanTo (i + 2 + Z.to_nat len).

(** Each turn moves forward and a turn needs nine bytes, so the length bounds the turns. *)
Fixpoint jpeg_scan (fuel : nat) (b : bytes) (i : nat) : option (Z * Z) :=
  match fuel with
  | O => None
  | S fuel' =>
      match jpeg_step b i with
      | ScanDone r => r
      | ScanTo i' => jpeg_scan fuel' b i'
      end
  end.

Definition webp_dims (b : bytes) : option (Z * Z) :=
  if bytes_at b 12 [0x56; 0x50; 0x38; 0x58] (* VP8X *) then
    Some (1 + u24 (at_ b 24) (at_ b 25) (at_ b 26), 1 + u24 (at_ b 27) (at_ b 28) (at_ b 29))
  else if bytes_at b 12 [0x56; 0x50; 0x38; 0x20] (* VP8 *) then
    Some (Z.land (u16 (at_ b 27) (at_ b 26)) 0x3fff, Z.land (u16 (at_ b 29) (at_ b 28)) 0x3fff)
  else if bytes_at b 12 [0x56; 0x50; 0x38; 0x4c] (* VP8L *) && (at_ b 20 =? 0x2f) then
    let bits := to_u32 (Z.lor (u24 (at_ b 21) (at_ b 22) (at_ b 23)) (Z.shiftl (at_ b 24) 24)) in
    Some (Z.land bits 0x3fff + 1, Z.land (Z.shiftr bits 14) 0x3fff + 1)
  else None.

(** The declared width and height. *)
Definition imageHeaderDims (b : bytes) : option (Z * Z) :=
  if (24 <=? length b)%nat && bytes_at b 0 [0x89; 0x50; 0x4e; 0x47] then
    Some (read32be b 16, read32be b 20)
  else if (10 <=? length b)%nat && bytes_at b 0 [0x47; 0x49; 0x46; 0x38] then
    Some (u16 (at_ b 7) (at_ b 6), u16 (at_ b 9) (at_ b 8))
  else if (30 <=? length b)%nat && bytes_at b 0 [0x52; 0x49; 0x46; 0x46] && bytes_at b 8 [0x57; 0x45; 0x42; 0x50] then
    webp_dims b
  else if (4 <=? length b)%nat && bytes_at b 0 [0xff; 0xd8] then jpeg_scan (length b) b 2
  else None.

(** What follows the first comma. *)
Fixpoint after_comma (t : chars) : option chars :=
  match t with
  | [] => None
  | c :: t' => if decide (c = ","%char) then Some t' else after_comma t'
  end.

Definition inlineImageAllowed (dataUrl : chars) : bool :=
  if RECV_IMG_MAX_DATAURI <? Z.of_nat (length dataUrl) then false
  else match after_comma dataUrl with
       | None => false
       | Some b64 =>
           match PairingWire.atob b64 with
           | Throw _ => true
           | Ok b =>
               match imageHeaderDims b with
               | None => true
               | Some (w, h) => (0 <? w) && (0 <? h) && (w <=? RECV_IMG_MAX_DIM) && (h <=? RECV_IMG_MAX_DIM)
               end
           end
       end.

(** ** From marker text to HTML *)

Record RTOpen := MkOpen { type_ : string; openTag : chars; closeTag : chars }.

(** The locals of [formatMessageText]. *)
Record fmt := MkFmt { out : chars; stack : list RTOpen; buf : chars }.

(** The text of a run, as it is written to the output. *)
Definition flushed (buf : chars) : chars :=
  foldl (fun t e => split_join (escapeHtml (chars_of e.1)) (chars_of e.2) t) (escapeHtml buf) EMOTICONS.

Definition flush (st : fmt) : fmt :=
  match st.(buf) with
  | [] => st
  | _ => MkFmt (st.(out) ++ flushed st.(buf)) st.(stack) []
  end.

Definition openFmt (o : RTOpen) (st : fmt) : fmt :=
  let st := flush st in
  MkFmt (st.(out) ++ o.(openTag)) (st.(stack) ++ [o]) st.(buf).

(** [stack.map((s) => s.type).lastIndexOf(type)], with -1 as [None]. *)
Fixpoint lastIndexOf (type : string) (l : list RTOpen) : option nat :=
  match l with
  | [] => None
  | o :: l' =>
      match lastIndexOf type l' with
      | Some i => Some (S i)
      | None => if decide (o.(type_) = type) then Some O else None
      end
  end.

Definition close_tags (l : list RTOpen) : chars := reverse l ≫= closeTag.
Definition open_tags (l : list RTOpen) : chars := l ≫= openTag.

Definition closeType (type : string) (st : fmt) : fmt :=
  let st := flush st in
  match lastIndexOf type st.(stack) with
  | None => st
  | Some idx =>
      let above := drop (S idx) st.(stack) in
      MkFmt (st.(out) ++ close_tags (drop idx st.(stack)) ++ open_tags above)
            (take idx st.(stack) ++ above) st.(buf)
  end.

Definition is_open (type : string) (st : fmt) : bool :=
  existsb (fun s => bool_decide (s.(type_) = type)) st.(stack).

Definition toggle (o : RTOpen) (st : fmt) : fmt :=
  if is_open o.(type_) st then closeType o.(type_) st else openFmt o st.

Definition add_text (c : chars) (st : fmt) : fmt := MkFmt st.(out) st.(stack) (st.(buf) ++ c).

Definition tag_b : RTOpen := MkOpen "b" (chars_of "<strong>") (chars_of "</strong>").
Definition tag_i : RTOpen := MkOpen "i" (chars_of "<em>") (chars_of "</em>").
Definition tag_u : RTOpen := MkOpen "u" (chars_of "<u>") (chars_of "</u>").
Definition tag_c (k : chars) : RTOpen :=
  MkOpen "c" (dq "<span class=`dd-c-" ++ k ++ dq "`>") (chars_of "</span>").
Definition tag_hex (hex : chars) : RTOpen :=
  MkOpen "c" (dq "<font color=`#" ++ hex ++ dq "`>") (chars_of "</font>").
Definition tag_h (k : chars) : RTOpen :=
  MkOpen "h" (dq "<span class=`dd-hl-" ++ k ++ dq "`>") (chars_of "</span>").
Definition tag_z (sz : Ascii.ascii) : RTOpen :=
  MkOpen "z" (dq "<font size=`" ++ [sz] ++ dq "`>") (chars_of "</font>").
Definition tag_f (k : chars) : RTOpen :=
  MkOpen "f" (dq "<span class=`dd-ft-" ++ k ++ dq "`>") (chars_of "</span>").

Definition img_tag (url : chars) : chars :=
  dq "<img class=`dd-img` src=`" ++ url ++ dq "` alt=`shared image` decoding=`async` />".
Definition img_blocked : chars := dq "<span class=`dd-img-blocked`>▢ image too large</span>".

(** [/^\[\/(u|c|h|z|f)\]/] *)
Definition match_close (rest : chars) : option string :=
  match rest with
  | "["%char :: "/"%char :: k :: "]"%char :: _ =>
      if bool_decide (k ∈ chars_of "uchzf") then Some (String k "") else None
  | _ => None
  end.

(** The key of [[x:kk]], [x] being [letter]: one or two lower-case letters.  (For [x = c] the code
    asks for two; the keys of that palette all have two.) *)
Definition match_key (letter : Ascii.ascii) (rest : chars) : option chars :=
  match rest with
  | "["%char :: x :: ":"%char :: r =>
      if decide (x = letter) then
        match r with
        | a :: "]"%char :: _ => if is_lower a then Some [a] else None
        | a :: b :: "]"%char :: _ => if is_lower a && is_lower b then Some [a; b] else None
        | _ => None
        end
      else None
  | _ => None
  end.

(** [/^\[c?#([0-9a-fA-F]{6}|[0-9a-fA-F]{3})\]/]: the digits, and the length of the marker. *)
Definition match_hex (rest : chars) : option (chars * nat) :=
  match (match strip_prefix (chars_of "[c#") rest with
         | Some r => Some (r, 3%nat)
         | None => (fun r => (r, 2%nat)) <$> strip_prefix (chars_of "[#") rest
         end) with
  | None => None
  | Some (r, n) =>
      match span is_hex r with
      | (hex, "]"%char :: _) =>
          if bool_decide (length hex = 6%nat \/ length hex = 3%nat) then Some (hex, n + length hex + 1)%nat else None
      | _ => None
      end
  end.

(** [/^\[z:(s|l|[1-7])\]/] *)
Definition match_size (rest : chars) : option Ascii.ascii :=
  match rest with
  | "["%char :: "z"%char :: ":"%char :: g :: "]"%char :: _ =>
      if bool_decide (g ∈ chars_of "sl") || between 49 55 g then Some g else None
  | _ => None
  end.

Definition size_of (g : Ascii.ascii) : Ascii.ascii :=
  if decide (g = "s"%char) then RT_SIZE_s else if decide (g = "l"%char) then RT_SIZE_l else g.

(** What a ["["] at the head of [rest] starts: the new locals and the length of the marker, or
    [None] when it is literal text. *)
Definition bracket (images : bool) (rest : chars) (st : fmt) : option (fmt * nat) :=
  match match (if images then match_img rest else None) with
        | Some url => if INLINE_IMG_RE url then Some url else None
        | None => None
        end with
  | Some url =>
      let st := flush st in
      Some (MkFmt (st.(out) ++ if inlineImageAllowed url then img_tag url else img_blocked)
                  st.(stack) st.(buf),
            (6 + length url)%nat)
  | None =>
  match match match_close rest with Some k => if is_open k st then Some k else None | None => None end with
  | Some k => Some (closeType k st, 4%nat)
  | None =>
  if bool_decide (chars_of "[/]" `prefix_of` rest) && is_open "c" st then Some (closeType "c" st, 3%nat)
  else if bool_decide (chars_of "[u]" `prefix_of` rest) then Some (openFmt tag_u st, 3%nat)
  else
  match match match_key "c" rest with Some k => if has TEXT_KEYS k then Some k else None | None => None end with
  | Some k => Some (openFmt (tag_c k) st, (4 + length k)%nat)
  | None =>
  match match_hex rest with
  | Some (hex, n) => Some (openFmt (tag_hex hex) st, n)
  | None =>
  match match match_key "h" rest with Some k => if has HL_KEYS k then Some k else None | None => None end with
  | Some k => Some (openFmt (tag_h k) st, (4 + length k)%nat)
  | None =>
  match match_size rest with
  | Some g => Some (openFmt (tag_z (size_of g)) st, 5%nat)
  | None =>
  match match match_key "f" rest with Some k => if has FONT_KEYS k then Some k else None | None => None end with
  | Some k => Some (openFmt (tag_f k) st, (4 + length k)%nat)
  | None => None
  end end end end end end end.

(** One turn of the loop on a non-empty [c :: t]: the locals, and how far the index moves. *)
Definition turn (images : bool) (c : Ascii.ascii) (t : chars) (st : fmt) : fmt * nat :=
  match (if decide (c = "\"%char) then head t else None) with
  | Some d => (add_text [d] st, 2%nat)
  | None =>
      if decide (c = "*"%char) then (toggle tag_b st, 1%nat)
      else if decide (c = "_"%char) then (toggle tag_i st, 1%nat)
      else if decide (c = "["%char) then default (add_text [c] st, 1%nat) (bracket images (c :: t) st)
      else (add_text [c] st, 1%nat)
  end.

Fixpoint format_loop (fuel : nat) (images : bool) (text : chars) (st : fmt) : fmt :=
  match fuel, text with
  | S fuel', c :: t =>
      let '(st', n) := turn images c t st in
      format_loop fuel' images (drop n text) st'
  | _, _ => st
  end.

(** The last flush, and the tags still open. *)
Definition finish (st : fmt) : chars :=
  let st := flush st in st.(out) ++ close_tags st.(stack).

(** Every turn consumes a character, so the length of the text bounds the turns. *)
Definition formatMessageText (images : bool) (text : chars) : chars :=
  finish (format_loop (length text) images text (MkFmt [] [] [])).

(** ** From the editor back to marker text *)

Definition is_marker (c : Ascii.ascii) : bool := bool_decide (c ∈ chars_of "\*_[").

(** [s.replace(class, (ch) => `\\${ch}`)] *)
Definition backslash (class : Ascii.ascii -> bool) (s : chars) : chars :=
  s ≫= (fun c => if class c then ["\"%char; c] else [c]).

Definition escMarker (s : chars) : chars := backslash is_marker s.

(** [s.trim()] *)
Definition trim (s : chars) : chars := trim_list s.

Definition decimal (l : chars) : Z := foldl (fun a c => a * 10 + (code c - 48)) 0 l.

(** [parseInt(s, 10)]; [None] is [NaN]. *)
Definition parseInt10 (s : chars) : option Z :=
  let unsigned l := match (span is_digit l).1 with [] => None | ds => Some (decimal ds) end in
  match skip_spaces s with
  | "-"%char :: r => Z.opp <$> unsigned r
  | "+"%char :: r => unsigned r
  | r => unsigned r
  end.

(** [\s*(\d{1,3})\s*] at the head of a text, then the character [stop]. *)
Definition rgb_part (stop : Ascii.ascii) (t : chars) : option (Z * chars) :=
  match span is_digit (skip_spaces t) with
  | (ds, r) =>
      if (1 <=? length ds)%nat && (length ds <=? 3)%nat then
        match skip_spaces r with
        | x :: r' => if decide (x = stop) then Some (decimal ds, r') else None
        | [] => None
        end
      else None
  end.

Definition two_hex (n : Z) : chars := chars_of (byte_hex (Z.max 0 (Z.min 255 n))).

Definition is_hex_color (s : chars) : bool :=
  forallb is_hex s && bool_decide (length s = 6%nat \/ length s = 3%nat).

Definition colorToHex (c : chars) : option chars :=
  let s := trim c in
  let bare := default s (strip_prefix (chars_of "#") s) in
  if is_hex_color bare then Some bare else
  t ← plain_blanks <$> strip_prefix (chars_of "rgb(") s;
  '(r, t) ← rgb_part "," t;
  '(g, t) ← rgb_part "," t;
  '(b, t) ← rgb_part ")" t;
  match t with [] => Some (two_hex r ++ two_hex g ++ two_hex b) | _ => None end.

(** The tree under a [contenteditable]: text, elements with their attributes and class list, and
    nodes of another kind (comments). *)
Inductive node :=
  | TextNode (textContent : chars)
  | Element (tagName : string) (attributes : list (string * chars)) (classList : list chars) (childNodes : list node)
  | OtherNode.

Definition getAttribute (a : list (string * chars)) (k : string) : option chars :=
  snd <$> List.find (fun kv => bool_decide (kv.1 = k)) a.

(** [cls.find((c) => c.startsWith(p))?.slice(p.length)] *)
Fixpoint find_class (p : string) (cls : list chars) : option chars :=
  match cls with
  | [] => None
  | c :: cls' => match strip_prefix (chars_of p) c with Some k => Some k | None => find_class p cls' end
  end.

Definition has_class (p : string) (keys : list chars) (cls : list chars) : option chars :=
  match find_class p cls with Some k => if has keys k then Some k else None | None => None end.

(** The zero-width space U+200B, in UTF-8. *)
Definition zero_width : chars := ["226"; "128"; "139"]%char.

Definition is_inline (tag : string) : bool :=
  bool_decide (tag ∈ ["b"; "strong"; "i"; "em"; "u"; "font"; "span"]).

Definition digit_char (n : Z) : Ascii.ascii := Ascii.ascii_of_N (Z.to_N (48 + n)).

(** What an element contributes to [out], from the serialization [inner] of its children.  Tag
    names are in lower case. *)
Definition serialize_element (tag : string) (attrs : list (string * chars)) (cls : list chars) (inner out : chars) : chars :=
  if is_inline tag && bool_decide (inner = []) then out
  else if bool_decide (tag = "b") || bool_decide (tag = "strong") then out ++ "*"%char :: inner ++ ["*"%char]
  else if bool_decide (tag = "i") || bool_decide (tag = "em") then out ++ "_"%char :: inner ++ ["_"%char]
  else if bool_decide (tag = "u") then out ++ chars_of "[u]" ++ inner ++ chars_of "[/u]"
  else if bool_decide (tag = "font") then
    match getAttribute attrs "size", getAttribute attrs "color" with
    | Some size, _ =>
        match parseInt10 size with
        | Some n => if (1 <=? n) && (n <=? 7) && negb (n =? 4)
                    then out ++ chars_of "[z:" ++ [digit_char n; "]"%char] ++ inner ++ chars_of "[/z]"
                    else out ++ inner
        | None => out ++ inner
        end
    | None, Some color =>
        match colorToHex color with
        | Some hex => out ++ chars_of "[c#" ++ hex ++ "]"%char :: inner ++ chars_of "[/c]"
        | None => out ++ inner
        end
    | None, None => out ++ inner
    end
  else if bool_decide (tag = "span") then
    match has_class "dd-c-" TEXT_KEYS cls with
    | Some k => out ++ chars_of "[c:" ++ k ++ "]"%char :: inner ++ chars_of "[/c]"
    | None =>
    match has_class "dd-hl-" HL_KEYS cls with
    | Some k => out ++ chars_of "[h:" ++ k ++ "]"%char :: inner ++ chars_of "[/h]"
    | None =>
    match has_class "dd-ft-" FONT_KEYS cls with
    | Some k => out ++ chars_of "[f:" ++ k ++ "]"%char :: inner ++ chars_of "[/f]"
    | None => out ++ inner
    end end end
  else if bool_decide (tag = "div") || bool_decide (tag = "p") then
    (match last out with
     | Some c => if decide (c = newline) then out else out ++ [newline]
     | None => out
     end) ++ inner
  else out ++ inner.

Fixpoint serialize_child (out : chars) (child : node) : chars :=
  match child with
  | TextNode s => out ++ escMarker (split_join zero_width [] s)
  | OtherNode => out
  | Element tag attrs cls children =>
      if bool_decide (tag = "br") then out ++ [newline]
      else if bool_decide (tag = "img") then
        let src := default [] (getAttribute attrs "src") in
        if INLINE_IMG_RE src then out ++ chars_of "[img:" ++ src ++ ["]"%char] else out
      else serialize_element tag attrs cls (foldl serialize_child [] children) out
  end.

Definition serializeRichText (childNodes : list node) : chars := foldl serialize_child [] childNodes.

(** ** The default look of outgoing messages *)

Record MessageLook := MkLook {
  font : option chars;
  color : option chars;
  size : option chars;
  hl : option chars }.

Definition allowed (keys : list chars) (v : option chars) : option chars :=
  match v with Some k => if has keys k then Some k else None | None => None end.

Definition SIZE_KEYS : list chars := [chars_of "s"; chars_of "l"].

(** The marker pairs of one field. *)
Definition look_part (letter : Ascii.ascii) (v : option chars) : list (chars * chars) :=
  match v with
  | Some k => [("["%char :: letter :: ":"%char :: k ++ ["]"%char], ["["%char; "/"%char; letter; "]"%char])]
  | None => []
  end.

Definition messageLookParts (look : MessageLook) : list (chars * chars) :=
  look_part "f" (allowed FONT_KEYS look.(font)) ++ look_part "c" (allowed TEXT_KEYS look.(color)) ++
  look_part "h" (allowed HL_KEYS look.(hl)) ++ look_part "z" (allowed SIZE_KEYS look.(size)).

Definition wrapMessageLook (look : option MessageLook) (markers : chars) : chars :=
  match look with
  | None => markers
  | Some look =>
      let parts := messageLookParts look in
      concat (fst <$> parts) ++ markers ++ concat (snd <$> reverse parts)
  end.

Definition string_prop (o : json) (k : string) : option chars :=
  match prop o k with Some (JStr s) => Some (chars_of s) | _ => None end.

Definition sanitizeMessageLook (raw : option json) : option MessageLook :=
  match raw with
  | Some o =>
      if is_object o then
        let look := MkLook (allowed FONT_KEYS (string_prop o "font")) (allowed TEXT_KEYS (string_prop o "color"))
                           (allowed SIZE_KEYS (string_prop o "size")) (allowed HL_KEYS (string_prop o "hl")) in
        match look with
        | MkLook None None None None => None
        | _ => Some look
        end
      else None
  | None => None
  end.

(** ** Appearance: themes and the style variables a theme pack may set *)

Inductive ThemeId := theme_default | theme_winamp | theme_win98 | theme_h4x0r | theme_aim.

Record Appearance := MkAppearance {
  theme : ThemeId;
  tokens : list (string * string);
  messageLook : option MessageLook }.

Definition DEFAULT_APPEARANCE : Appearance := MkAppearance theme_default [] None.

Definition APPEARANCE_TOKENS : list string :=
  ["--dd-ink"; "--dd-field"; "--dd-secure"; "--dd-font-msg"; "--dd-msg-user-size"; "--dd-buddy-font";
   "--dd-buddy-size"; "--dd-buddy-ink"].
Definition APPEARANCE_FONT_TOKENS : list string := ["--dd-font-msg"; "--dd-buddy-font"].
Definition APPEARANCE_SIZE_TOKENS : list string := ["--dd-msg-user-size"; "--dd-buddy-size"].
Definition APPEARANCE_SIZES : list string :=
  ["10px"; "11px"; "12px"; "13px"; "14px"; "16px"; "18px"; "20px"; "24px"].

Definition APPEARANCE_FONTS : list RTFont :=
  [MkFont "mono" "Monospace" (dq "ui-monospace, `Cascadia Mono`, `DejaVu Sans Mono`, `Courier New`, monospace");
   MkFont "sans" "Sans-serif" (dq "system-ui, -apple-system, `Segoe UI`, Helvetica, Arial, sans-serif");
   MkFont "serif" "Serif" (dq "Georgia, `Times New Roman`, Times, serif");
   MkFont "rounded" "Rounded" (dq "`Comic Sans MS`, `Chalkboard SE`, `Segoe Print`, cursive");
   MkFont "retro" "Retro" (dq "`Chicago`, `Geneva`, system-ui, sans-serif")].

Definition APPEARANCE_FONT_STACKS : list chars := (font_face <$> RT_FONTS) ++ (font_face <$> APPEARANCE_FONTS).

(** [/^#[0-9a-fA-F]{3,8}$/] *)
Definition is_hash_color (v : chars) : bool :=
  match v with
  | "#"%char :: r => forallb is_hex r && (3 <=? length r)%nat && (length r <=? 8)%nat
  | _ => false
  end.

Definition is_rgb_char (c : Ascii.ascii) : bool := is_digit c || is_space c || bool_decide (c ∈ chars_of ".,%/").

(** [/^rgba?\(\s*[\d.,%\s/]+\)$/]: white space, of any kind, is in the class, so that [\s*] adds nothing. *)
Definition is_rgb_color (v : chars) : bool :=
  match first_prefix ["rgb("; "rgba("] v with
  | Some r => match span is_rgb_char (plain_blanks r) with (_ :: _, [c]) => bool_decide (c = ")"%char) | _ => false end
  | None => false
  end.

Definition isValidTokenValue (token value : string) : bool :=
  if negb (bool_decide (token ∈ APPEARANCE_TOKENS)) then false
  else if bool_decide (token ∈ APPEARANCE_FONT_TOKENS) then has APPEARANCE_FONT_STACKS (chars_of value)
  else if bool_decide (token ∈ APPEARANCE_SIZE_TOKENS) then bool_decide (value ∈ APPEARANCE_SIZES)
  else is_hash_color (chars_of value) || is_rgb_color (chars_of value).

Definition sanitize_theme (v : option json) : ThemeId :=
  if is_literal v "winamp" then theme_winamp
  else if is_literal v "win98" then theme_win98
  else if is_literal v "h4x0r" then theme_h4x0r
  else if is_literal v "aim" then theme_aim
  else theme_default.

Definition keep_token (tokens : list (string * string)) (kv : string * json) : list (string * string) :=
  match kv.2 with
  | JStr v => if isValidTokenValue kv.1 v then JsMap.set kv.1 v tokens else tokens
  | _ => tokens
  end.

Definition sanitizeAppearance (raw : json) : Appearance :=
  let entries := match prop raw "tokens" with Some (JObj fields) => fields | _ => [] end in
  MkAppearance (sanitize_theme (prop raw "theme")) (foldl keep_token [] entries)
               (sanitizeMessageLook (prop raw "messageLook")).

(** ** Special characters (specials.ts) *)

(** The local calendar fields of the [Date]; months count from 0. *)
Record LocalTime := MkLocalTime { getMonth : Z; getDate : Z; getFullYear : Z; getHours : Z; getMinutes : Z }.

Definition Z_chars (n : Z) : chars := chars_of (pretty n).
Definition pad2 (n : Z) : chars := if (0 <=? n) && (n <? 10) then "0"%char :: Z_chars n else Z_chars n.

Definition special_date (d : LocalTime) : chars :=
  Z_chars (d.(getMonth) + 1) ++ "/"%char :: Z_chars d.(getDate) ++ "/"%char :: Z_chars d.(getFullYear).

Definition special_time (d : LocalTime) : chars :=
  let h := d.(getHours) in
  Z_chars (if h mod 12 =? 0 then 12 else h mod 12) ++ ":"%char :: pad2 d.(getMinutes)
    ++ chars_of (if h <? 12 then " AM" else " PM").

Definition is_name_marker (c : Ascii.ascii) : bool := bool_decide (c ∈ chars_of "\*_[%").

Definition special (name date time : chars) (c : Ascii.ascii) : option chars :=
  if decide (c = "n"%char) then Some name
  else if decide (c = "d"%char) then Some date
  else if decide (c = "t"%char) then Some time
  else None.

(** [text.replace(/%[ndt]/g, ...)] *)
Fixpoint replace_specials (name date time text : chars) : chars :=
  match text with
  | "%"%char :: ((c :: t) as r) =>
      match special name date time c with
      | Some s => s ++ replace_specials name date time t
      | None => "%"%char :: replace_specials name date time r
      end
  | c :: t => c :: replace_specials name date time t
  | [] => []
  end.

(** (The early return on a text without a token is the same text.) *)
Definition substituteSpecials (text : chars) (name : option chars) (at_ : LocalTime) : chars :=
  replace_specials (backslash is_name_marker (default [] name)) (special_date at_) (special_time at_) text.

End RichText.
