(* ===== verification/Pictures.v ===== *)
(** * The pictures in a message (client/src/app.ts, lines 172-276)

    A picture that a message may show: the grammar of its data URL, the cap on its length, and the caps on the
    size that its header declares, each spelled out from the formats and not from the code's own
    tests; and that the tests of RichText.v let nothing else through.  A header that declares its size in
    another way than here is not read: the fill bytes of JPEG are such a case. *)

From S2P Require Import Prelude Json PairingWire RichText.

Module Pictures.
Import RichText.

Lemma strip_prefix_Some p t w : strip_prefix p t = Some w -> t = p ++ w.
Proof.
  revert t. induction p as [|a p IH]; intros t; simpl; [by intros [= ->]|].
  destruct t as [|b t]; [done|]. case_decide; [|done]. subst. intros H. by rewrite (IH _ H).
Qed.

Lemma first_prefix_Some ps t w : first_prefix ps t = Some w -> exists p, p ∈ ps /\ t = chars_of p ++ w.
Proof.
  induction ps as [|p ps IH]; simpl; [done|]. destruct (strip_prefix (chars_of p) t) as [u|] eqn:E.
  - intros [= ->]. exists p. split; [left | by apply strip_prefix_Some].
  - intros H. destruct (IH H) as (q & Hq & ->). exists q. split; [by right | done].
Qed.
Lemma span_all p t : forallb p (span p t).1 = true.
Proof.
  induction t as [|c t IH]; simpl; [done|]. destruct (p c) eqn:E; [|done].
  destruct (span p t) as [a b]; simpl in *. by rewrite E.
Qed.
Lemma span_split p t : t = (span p t).1 ++ (span p t).2.
Proof. induction t as [|c t IH]; [done|]. simpl. destruct (p c); [|done]. destruct (span p t). simpl in *. congruence. Qed.

(** ** JPEG

    A frame header is found when it follows the start of image and segments with a length. *)
Record segment := MkSegment { seg_marker : Z; seg_len : Z * Z; seg_payload : bytes }.

Definition segment_ok (s : segment) : Prop :=
  is_sof s.(seg_marker) = false /\ is_standalone s.(seg_marker) = false /\
  u16 s.(seg_len).1 s.(seg_len).2 = 2 + Z.of_nat (length s.(seg_payload)).

Definition segment_bytes (s : segment) : bytes :=
  0xff :: s.(seg_marker) :: s.(seg_len).1 :: s.(seg_len).2 :: s.(seg_payload).

Lemma at_drop b i k : at_ b (i + k) = nth k (drop i b) 0.
Proof.
  unfold at_. revert b. induction i as [|i IH]; intros b; [by rewrite drop_0|].
  destruct b as [|x b]; simpl; [by destruct k | apply IH].
Qed.

Lemma jpeg_step_drop b i r : drop i b = r ->
  jpeg_step b i =
  if negb (9 <? length r)%nat then ScanDone None
  else if negb (nth 0 r 0 =? 0xff) then ScanTo (i + 1)
  else if is_sof (nth 1 r 0) then
    ScanDone (Some (u16 (nth 7 r 0) (nth 8 r 0), u16 (nth 5 r 0) (nth 6 r 0)))
  else if is_standalone (nth 1 r 0) then ScanTo (i + 2)
  else if u16 (nth 2 r 0) (nth 3 r 0) <? 2 then ScanDone None
  else ScanTo (i + 2 + Z.to_nat (u16 (nth 2 r 0) (nth 3 r 0))).
Proof.
  intros <-. unfold jpeg_step. rewrite <-!at_drop, Nat.add_0_r, length_drop.
  replace (9 <? length b - i)%nat with (i + 9 <? length b)%nat; [done|].
  apply eq_true_iff_eq. rewrite !Nat.ltb_lt. lia.
Qed.

Lemma jpeg_scan_segments segs : forall fuel b i sof l1 l2 p h1 h2 w1 w2 tail,
  Forall segment_ok segs -> is_sof sof = true -> tail <> [] -> (length segs < fuel)%nat ->
  drop i b = (segs ≫= segment_bytes) ++ 0xff :: sof :: l1 :: l2 :: p :: h1 :: h2 :: w1 :: w2 :: tail ->
  jpeg_scan fuel b i = Some (u16 w1 w2, u16 h1 h2).
Proof.
  induction segs as [|s segs IH]; intros fuel b i sof l1 l2 p h1 h2 w1 w2 tail Hs Hsof Htail Hfuel Hd;
    (destruct fuel as [|fuel]; [simpl in Hfuel; lia|]); cbn [jpeg_scan]; rewrite (jpeg_step_drop _ _ _ Hd).
  - destruct tail; [done|]. cbn -[is_sof u16]. by rewrite Hsof.
  - apply Forall_cons in Hs as [(Hm & Hst & Hlen) Hs]. csimpl.
    rewrite Hm, Hst, Hlen. change (0xff =? 0xff) with true. cbn [negb].
    rewrite (proj2 (Nat.ltb_lt 9 _)).
    2: { rewrite !length_app. simpl. destruct tail; [done|]. simpl. lia. }
    rewrite (proj2 (Z.ltb_ge _ 2)) by lia. cbn [negb].
    eapply IH; [done.. | simpl in Hfuel; lia |].
    replace (Z.to_nat _) with (2 + length (seg_payload s))%nat by lia.
    rewrite <-(drop_drop b _ (i + 2)), <-(drop_drop b 2 i), Hd. csimpl. rewrite <-(assoc_L (++)). apply drop_app_length.
Qed.

(** The declared size of a JPEG is found behind any number of segments before the frame header,
    within the bound on the turns of the scan. *)
Theorem jpeg_dims_found segs sof l1 l2 p h1 h2 w1 w2 tail :
  Forall segment_ok segs -> is_sof sof = true -> tail <> [] ->
  imageHeaderDims (0xff :: 0xd8 :: (segs ≫= segment_bytes) ++
                   0xff :: sof :: l1 :: l2 :: p :: h1 :: h2 :: w1 :: w2 :: tail) =
  Some (u16 w1 w2, u16 h1 h2).
Proof.
  intros Hs Hsof Htail. set (r := (segs ≫= segment_bytes) ++ _). unfold imageHeaderDims.
  assert (length segs + 3 < 2 + length r)%nat as Hlen.
  { assert (length segs <= length (segs ≫= segment_bytes))%nat.
    { clear. induction segs as [|s segs IH]; [done|]. csimpl. rewrite length_app. lia. }
    subst r. simpl. rewrite length_app. simpl. lia. }
  assert (forall (x : Z) l, x <> 0xff -> bytes_at (0xff :: 0xd8 :: r) 0 (x :: l) = false) as Hno.
  { intros x l Hx. apply bool_decide_eq_false_2. cbn [length take drop]. congruence. }
  rewrite !Hno, !andb_false_r by done. rewrite (proj2 (Nat.leb_le 4 _)) by (simpl; lia).
  change (bytes_at _ 0 [0xff; 0xd8]) with true.
  eapply jpeg_scan_segments; [done.. | simpl; lia | by subst r].
Qed.

(** ** Declared sizes

    The places where the formats write width and height.  [declares b w h]: a file [b] of bytes is
    [w] by [h] pixels. *)
Definition be16 (a b : Z) : Z := 256 * a + b.
Definition be32 (a b c d : Z) : Z := 256 * (256 * (256 * a + b) + c) + d.
Definition RIFF : bytes := [82; 73; 70; 70].
Definition WEBP : bytes := [87; 69; 66; 80].

Inductive declares : bytes -> Z -> Z -> Prop :=
  (* the header chunk of PNG begins at 8, its width at 16 *)
  | declares_png pre w1 w2 w3 w4 h1 h2 h3 h4 rest : length pre = 12%nat ->
      declares ([137; 80; 78; 71] ++ pre ++ [w1; w2; w3; w4; h1; h2; h3; h4] ++ rest) (be32 w1 w2 w3 w4) (be32 h1 h2 h3 h4)
  (* the logical screen of GIF, little-endian *)
  | declares_gif a b w1 w2 h1 h2 rest :
      declares ([71; 73; 70; 56] ++ [a; b; w1; w2; h1; h2] ++ rest) (be16 w2 w1) (be16 h2 h1)
  (* the canvas of extended WebP, three bytes each, less one *)
  | declares_vp8x size pre w1 w2 w3 h1 h2 h3 rest : length size = 4%nat -> length pre = 8%nat ->
      declares (RIFF ++ size ++ WEBP ++ [86; 80; 56; 88] ++ pre ++ [w1; w2; w3; h1; h2; h3] ++ rest)
        (1 + be32 0 w3 w2 w1) (1 + be32 0 h3 h2 h1)
  (* the frame of lossy WebP, fourteen bits each *)
  | declares_vp8 size pre w1 w2 h1 h2 rest : length size = 4%nat -> length pre = 10%nat ->
      declares (RIFF ++ size ++ WEBP ++ [86; 80; 56; 32] ++ pre ++ [w1; w2; h1; h2] ++ rest)
        (be16 w2 w1 mod 2 ^ 14) (be16 h2 h1 mod 2 ^ 14)
  (* the frame of lossless WebP, fourteen bits each, less one, in one little-endian word; of a file that
     is not shorter than thirty bytes *)
  | declares_vp8l size pre b0 b1 b2 b3 rest : length size = 4%nat -> length pre = 4%nat -> (5 <= length rest)%nat ->
      declares (RIFF ++ size ++ WEBP ++ [86; 80; 56; 76] ++ pre ++ [47; b0; b1; b2; b3] ++ rest)
        (1 + be32 b3 b2 b1 b0 mod 2 ^ 14) (1 + be32 b3 b2 b1 b0 / 2 ^ 14 mod 2 ^ 14)
  (* the first frame header of JPEG behind segments with a length *)
  | declares_jpeg segs sof l1 l2 p h1 h2 w1 w2 rest : Forall segment_ok segs -> is_sof sof = true -> rest <> [] ->
      declares ([255; 216] ++ (segs ≫= segment_bytes) ++ 255 :: sof :: l1 :: l2 :: p :: h1 :: h2 :: w1 :: w2 :: rest)
        (be16 w1 w2) (be16 h1 h2).

(** The bit operations put the bytes side by side. *)
Lemma lor_add a b n : 0 <= n -> 0 <= b < 2 ^ n -> Z.lor (Z.shiftl a n) b = 2 ^ n * a + b.
Proof.
  intros Hn Hb. rewrite Z.shiftl_mul_pow2 by done.
  assert (Z.land (a * 2 ^ n) b = 0) as E; [|pose proof (Z.add_lor_land (a * 2 ^ n) b); lia].
  apply Z.bits_inj'. intros i Hi. rewrite Z.land_spec, Z.bits_0, Z.mul_pow2_bits by done.
  destruct (Z.ltb_spec i n); [by rewrite Z.testbit_neg_r by lia|].
  rewrite <-(Z.mod_small b (2 ^ n)), Z.mod_pow2_bits_high by lia. apply andb_false_r.
Qed.
Lemma u16_add a b : byte_ok a -> byte_ok b -> u16 a b = be16 a b.
Proof. unfold byte_ok, u16, be16. intros. rewrite lor_add by lia. lia. Qed.
Lemma u24_add a b c : byte_ok a -> byte_ok b -> byte_ok c -> u24 a b c = be32 0 c b a.
Proof.
  unfold byte_ok, u24, be32. intros. rewrite Z.lor_comm, (Z.lor_comm a), (lor_add b a), lor_add by lia. lia.
Qed.
Lemma read32be_add b o w1 w2 w3 w4 :
  bytes_ok [w1; w2; w3; w4] -> at_ b o = w1 -> at_ b (o + 1) = w2 -> at_ b (o + 2) = w3 -> at_ b (o + 3) = w4 ->
  read32be b o = be32 w1 w2 w3 w4.
Proof.
  unfold bytes_ok, byte_ok. rewrite !Forall_cons. intros (? & ? & ? & ? & _) E1 E2 E3 E4.
  unfold read32be. rewrite E1, E2, E3, E4, <-!Z.lor_assoc, (lor_add w3 w4), (lor_add w2), lor_add by lia.
  unfold to_u32, be32. rewrite Z.mod_small by lia. lia.
Qed.
(** The tests of magic numbers, on bytes that are known. *)
Ltac magic :=
  repeat match goal with
  | |- context [bytes_at ?l ?i ?e] =>
      first [replace (bytes_at l i e) with true by reflexivity | replace (bytes_at l i e) with false by reflexivity];
      rewrite ?andb_true_r, ?andb_false_r
  end.
Tactic Notation "elements" ident(l) integer(n) := do n (destruct l as [|? l]; [done|]); destruct l; [|done].

(** What is written there is read. *)
Lemma declares_read b w h : bytes_ok b -> declares b w h -> imageHeaderDims b = Some (w, h).
Proof.
  intros Hb D. revert Hb. destruct D as [pre w1 w2 w3 w4 h1 h2 h3 h4 rest Hp|a b' w1 w2 h1 h2 rest|size pre w1 w2 w3 h1 h2 h3 rest Hs Hp
    |size pre w1 w2 h1 h2 rest Hs Hp|size pre b0 b1 b2 b3 rest Hs Hp Hr|segs sof l1 l2 p h1 h2 w1 w2 rest Hs Hsof Hr]; intros Hb.
  - elements pre 12. cbn [app] in *. inv_bytes. unfold imageHeaderDims. magic. cbn [length].
    rewrite (proj2 (Nat.leb_le 24 _)) by lia. cbn iota.
    rewrite (read32be_add _ 16 w1 w2 w3 w4), (read32be_add _ 20 h1 h2 h3 h4) by first [reflexivity | repeat (constructor; [done|]); constructor].
    done.
  - cbn [app] in *. inv_bytes. unfold imageHeaderDims. magic. cbn [length].
    rewrite (proj2 (Nat.leb_le 10 _)) by lia. cbn iota. unfold at_. cbn [nth]. by rewrite !u16_add.
  - elements size 4. elements pre 8. cbn [RIFF WEBP app] in *. inv_bytes. unfold imageHeaderDims. magic. cbn [length].
    rewrite (proj2 (Nat.leb_le 30 _)) by lia. cbn iota. unfold webp_dims. magic. cbn iota. unfold at_. cbn [nth].
    by rewrite !u24_add.
  - elements size 4. elements pre 10. cbn [RIFF WEBP app] in *. inv_bytes. unfold imageHeaderDims. magic. cbn [length].
    rewrite (proj2 (Nat.leb_le 30 _)) by lia. cbn iota. unfold webp_dims. magic. cbn iota. unfold at_. cbn [nth].
    rewrite !u16_add by done. by rewrite !(Z.land_ones _ 14).
  - elements size 4. elements pre 4. cbn [RIFF WEBP app] in *. inv_bytes. unfold imageHeaderDims. magic. cbn [length].
    rewrite (proj2 (Nat.leb_le 30 _)) by lia. cbn iota. unfold webp_dims. magic. unfold at_. cbn [nth].
    change (47 =? 0x2f) with true. cbn [andb]. rewrite u24_add, Z.lor_comm, lor_add by (done || (unfold be32, byte_ok in *; lia)).
    replace (2 ^ 24 * b3 + be32 0 b2 b1 b0) with (be32 b3 b2 b1 b0) by (unfold be32; lia).
    unfold to_u32. rewrite Z.mod_small by (unfold be32, byte_ok in *; lia).
    rewrite !(Z.land_ones _ 14), Z.shiftr_div_pow2 by done.
    f_equal. f_equal; apply Z.add_comm.
  - cbn [app] in *. rewrite jpeg_dims_found by done.
    assert (Hb' : bytes_ok (255 :: sof :: l1 :: l2 :: p :: h1 :: h2 :: w1 :: w2 :: rest)).
    { inv_bytes. by apply Forall_app in Hb as [_ Hb]. }
    inv_bytes. by rewrite !u16_add.
Qed.

(** ** The picture as a whole *)

Definition ALPHABET : chars := chars_of "ABCDEFGHIJKLMNOPQRSTUVWXYZabcdefghijklmnopqrstuvwxyz0123456789+/".

(** A raster picture as a base64 data URL of at most 40 KiB, which, where its header declares a size, is at most
    2048 by 2048 pixels. *)
Record safe_picture (url : chars) : Prop := {
  pic_url : exists kind body pad,
    kind ∈ ["png"; "jpeg"; "jpg"; "gif"; "webp"] /\ body <> [] /\ Forall (fun c => c ∈ ALPHABET) body /\
    pad ∈ [""; "="; "=="] /\
    url = chars_of "data:image/" ++ chars_of kind ++ chars_of ";base64," ++ body ++ chars_of pad;
  pic_length : Z.of_nat (length url) <= 40 * 1024;
  pic_size head data b w h : ","%char ∉ head -> url = head ++ ","%char :: data -> PairingWire.atob data = Ok b ->
    declares b w h -> 0 < w <= 2048 /\ 0 < h <= 2048
}.

(** What [atob] returns are bytes. *)
Lemma b64_value_range c v : PairingWire.b64_value c = Some v -> 0 <= v < 64.
Proof.
  unfold PairingWire.b64_value. set (n := Z.of_N (Ascii.N_of_ascii c)).
  repeat (match goal with |- (if ?b then _ else _) = _ -> _ => destruct b eqn:?; [intros [= <-]; lia|] end). done.
Qed.
Lemma of_sextets_ok n : forall vs, (length vs <= n)%nat -> Forall (fun v => 0 <= v < 64) vs -> bytes_ok (PairingWire.of_sextets vs).
Proof.
  assert (H1 : forall x y, 0 <= x < 64 -> 0 <= y < 64 -> byte_ok (x * 4 + y / 16)).
  { unfold byte_ok. intros. pose proof (Z.div_lt_upper_bound y 16 4 ltac:(lia) ltac:(lia)). pose proof (Z.div_pos y 16). lia. }
  assert (H2 : forall y z, 0 <= y < 64 -> 0 <= z < 64 -> byte_ok (y mod 16 * 16 + z / 4)).
  { unfold byte_ok. intros y z ??. pose proof (Z.div_lt_upper_bound z 4 16 ltac:(lia) ltac:(lia)).
    pose proof (Z.div_pos z 4). pose proof (Z.mod_pos_bound y 16). lia. }
  assert (H3 : forall z w, 0 <= w < 64 -> byte_ok (z mod 4 * 64 + w)).
  { unfold byte_ok. intros z w ?. pose proof (Z.mod_pos_bound z 4). lia. }
  induction n as [|n IH]; intros vs Hn Hv; [by destruct vs; [constructor | cbn in Hn; lia]|].
  destruct vs as [|x [|y [|z [|w vs]]]]; cbn [PairingWire.of_sextets]; rewrite ?Forall_cons in Hv;
    repeat (constructor; [naive_solver|]); try constructor.
  apply IH; [cbn in Hn; lia | tauto].
Qed.
Lemma atob_ok t b : PairingWire.atob t = Ok b -> bytes_ok b.
Proof.
  unfold PairingWire.atob. cbv zeta. match goal with |- context [mapM _ ?t] => generalize t end. intros u.
  destruct (_ =? 1)%nat; [done|].
  destruct (mapM PairingWire.b64_value u) as [vs|] eqn:E; [|done]. intros [= <-].
  apply (of_sextets_ok (length vs)); [lia|]. apply mapM_Some in E. clear -E. induction E as [|c v u vs Hv _ IH]; constructor; [|done].
  by apply b64_value_range in Hv.
Qed.

Lemma after_comma_app head data : ","%char ∉ head -> after_comma (head ++ ","%char :: data) = Some data.
Proof.
  induction head as [|c head IH]; intros Hn; cbn [app after_comma]; [done|].
  rewrite decide_False by (intros ->; apply Hn; left). apply IH. intros H. apply Hn. by right.
Qed.

(** The five prefixes, and what may stand at the end. *)
Lemma url_prefix q : q ∈ ["png;base64,"; "jpeg;base64,"; "jpg;base64,"; "gif;base64,"; "webp;base64,"] ->
  exists kind, kind ∈ ["png"; "jpeg"; "jpg"; "gif"; "webp"] /\ chars_of q = chars_of kind ++ chars_of ";base64,".
Proof.
  intros H. repeat (apply elem_of_cons in H as [->|H]);
    [exists "png" | exists "jpeg" | exists "jpg" | exists "gif" | exists "webp" | by apply not_elem_of_nil in H];
    (split; [apply (bool_decide_unpack _); by vm_compute | by vm_compute]).
Qed.
Lemma picture_padding b : skip_equals 2 b = [] -> exists pad, pad ∈ [""; "="; "=="] /\ b = chars_of pad.
Proof.
  intros H. destruct b as [|c b]; [exists ""; split; [left | done]|]. cbn in H.
  destruct (decide (c = "="%char)) as [->|Hc]; [|by destruct c as [[] [] [] [] [] [] [] []]].
  destruct b as [|d b]; [exists "="; split; [right; left | done]|]. cbn in H.
  destruct (decide (d = "="%char)) as [->|Hd]; [|by destruct d as [[] [] [] [] [] [] [] []]].
  cbn in H. subst b. exists "=="; split; [right; right; left | done].
Qed.
Lemma alphabet_has c : is_b64 c = true -> bool_decide (c ∈ ALPHABET) = true.
Proof. destruct c as [[] [] [] [] [] [] [] []]; by vm_compute. Qed.
Lemma b64_in_alphabet c : is_b64 c = true -> c ∈ ALPHABET.
Proof. intros H%alphabet_has. by apply bool_decide_eq_true_1 in H. Qed.

(** What the two tests of the code let through. *)
Lemma tested_picture url : INLINE_IMG_RE url = true -> inlineImageAllowed url = true -> safe_picture url.
Proof.
  intros Hre Hok. split.
  - unfold INLINE_IMG_RE, after_data_url in Hre. destruct (strip_prefix _ url) as [t|] eqn:E1; [|done].
    apply strip_prefix_Some in E1 as ->. destruct (first_prefix _ t) as [r|] eqn:E2; [|done].
    apply first_prefix_Some in E2 as (q & Hq & ->). destruct (url_prefix q Hq) as (kind & Hk & ->).
    pose proof (span_all is_b64 r) as Hall. pose proof (span_split is_b64 r) as Hsp.
    destruct (span is_b64 r) as [[|x a] b]; [done|]. cbn [fst snd] in *.
    destruct (picture_padding b) as (pad & Hp & ->); [by destruct (skip_equals 2 b)|].
    exists kind, (x :: a), pad. split_and!; [done|done| |done|by rewrite Hsp, <-!app_assoc].
    rewrite forallb_forall in Hall. apply Forall_forall. intros c Hc. apply b64_in_alphabet, Hall. by apply list_elem_of_In.
  - unfold inlineImageAllowed, RECV_IMG_MAX_DATAURI in Hok. destruct (Z.ltb_spec (40 * 1024) (Z.of_nat (length url))); [done | lia].
  - intros head data b w h Hn -> Hb Hd. unfold inlineImageAllowed in Hok. destruct (_ <? _); [done|].
    rewrite after_comma_app, Hb, (declares_read _ _ _ (atob_ok _ _ Hb) Hd) in Hok by done.
    unfold RECV_IMG_MAX_DIM in Hok. lia.
Qed.

(** Nothing in it ends an attribute. *)
Lemma safe_picture_chars (P : Ascii.ascii -> Prop) url :
  safe_picture url -> Forall P (chars_of "data:image/;base64,pnjeggifwb=") -> Forall P ALPHABET -> Forall P url.
Proof.
  intros [(kind & body & pad & Hk & _ & Hb & Hp & ->) _ _] H1 H2.
  assert (Hin : forall s, forallb (fun c => bool_decide (c ∈ chars_of "data:image/;base64,pnjeggifwb=")) (chars_of s) = true ->
    Forall P (chars_of s)).
  { intros s Hs. rewrite forallb_forall in Hs. apply Forall_forall. intros c Hc. rewrite Forall_forall in H1. apply H1.
    apply (bool_decide_eq_true_1 (c ∈ _)). apply Hs. by apply list_elem_of_In. }
  rewrite !Forall_app. split_and!.
  - by apply Hin.
  - apply Hin. revert kind Hk. apply Forall_forall. by repeat constructor.
  - by apply Hin.
  - eapply Forall_impl; [exact Hb|]. intros c. revert c. by apply Forall_forall.
  - apply Hin. revert pad Hp. apply Forall_forall. by repeat constructor.
Qed.

(** ** Fill bytes

    ITU-T T.81, B.1.1.2: any marker may be preceded by any number of fill bytes [0xff].  A reader
    of the standard skips them. *)
Fixpoint t81_dims (fuel : nat) (b : bytes) : option (Z * Z) :=
  match fuel, b with
  | S fuel', x :: ((m :: r) as r') =>
      if negb (x =? 0xff) then None
      else if m =? 0xff then t81_dims fuel' r'
      else if is_sof m then
        match r with
        | _ :: _ :: _ :: h1 :: h2 :: w1 :: w2 :: _ => Some (u16 w1 w2, u16 h1 h2)
        | _ => None
        end
      else if is_standalone m then t81_dims fuel' r
      else match r with
           | l1 :: l2 :: _ => t81_dims fuel' (drop (Z.to_nat (u16 l1 l2)) r)
           | _ => None
           end
  | _, _ => None
  end.

(** A baseline frame of 65500 by 65500 pixels, and the same with one fill byte before its marker. *)
Definition frame_65500 : bytes :=
  [0xff; 0xc0; 0; 17; 8; 255; 220; 255; 220; 3; 1; 17; 0; 2; 17; 1; 3; 17; 1; 0xff; 0xd9].
Definition jpeg_plain : bytes := 0xff :: 0xd8 :: frame_65500.
Definition jpeg_filled : bytes := 0xff :: 0xd8 :: 0xff :: frame_65500.
Definition jpeg_url (b : bytes) : chars := chars_of "data:image/jpeg;base64," ++ PairingWire.btoa b.
Definition img_marker (url : chars) : chars := chars_of "[img:" ++ url ++ ["]"%char].

(** The decode-bomb guard is passed by a valid header: one fill byte before the frame marker
    hides a declared size of 65500 by 65500 from [imageHeaderDims], and the picture is put on the page,
    where the same picture without the fill byte is refused.  The comment of [inlineImageAllowed]
    says that a bomb needs a valid header, "which we do parse". *)
Theorem jpeg_fill_byte_hides_size :
  t81_dims 10 (drop 2 jpeg_filled) = Some (65500, 65500) /\
  imageHeaderDims jpeg_plain = Some (65500, 65500) /\ imageHeaderDims jpeg_filled = None /\
  formatMessageText true (img_marker (jpeg_url jpeg_plain)) = img_blocked /\
  formatMessageText true (img_marker (jpeg_url jpeg_filled)) = img_tag (jpeg_url jpeg_filled).
Proof. by vm_compute. Qed.


End Pictures.
