(* ===== verification/RichTextFacts.v ===== *)
(** * What a peer's text can become

    The theorems about RichText.v: whatever the text, the HTML has only the tags of the fixed
    grammar, properly nested; a picture is shown only within the receive caps, as far as its header
    is read; what the editor shows is what the text renders to; a default look, a name put into a
    text and a theme pack cannot add anything of their own. *)

From S2P Require Import Prelude Json PairingWire RichText Pictures.

Module RichTextFacts.
Import RichText Pictures.

(** ** The output grammar *)

(** Text of the output: nothing in it opens or closes a tag or an attribute. *)
Definition tag_free (t : chars) : Prop :=
  Forall (fun c => c <> "<"%char /\ c <> ">"%char /\ c <> double_quote /\ c <> "'"%char) t.

(** The formatting tags of the grammar, each with its own closing tag. *)
Inductive palette_tag : RTOpen -> Prop :=
  | palette_b : palette_tag tag_b
  | palette_i : palette_tag tag_i
  | palette_u : palette_tag tag_u
  | palette_c k : k ∈ TEXT_KEYS -> palette_tag (tag_c k)
  | palette_hex h : is_hex_color h = true -> palette_tag (tag_hex h)
  | palette_h k : k ∈ HL_KEYS -> palette_tag (tag_h k)
  | palette_z n : n ∈ chars_of "1234567" -> palette_tag (tag_z n)
  | palette_f k : k ∈ FONT_KEYS -> palette_tag (tag_f k).

(** [markup images open t]: [t] is text, tags of the grammar and, where images are allowed,
    safe pictures (Pictures.v); the tags nest, and [open] are those still open. *)
Inductive markup (images : bool) : list RTOpen -> chars -> Prop :=
  | markup_nil : markup images [] []
  | markup_text l t u : markup images l t -> tag_free u -> markup images l (t ++ u)
  | markup_open l t o : markup images l t -> palette_tag o -> markup images (l ++ [o]) (t ++ openTag o)
  | markup_close l t o : markup images (l ++ [o]) t -> markup images l (t ++ closeTag o)
  | markup_img l t url : images = true -> markup images l t -> safe_picture url -> markup images l (t ++ img_tag url)
  | markup_blocked l t : images = true -> markup images l t -> markup images l (t ++ img_blocked).

(** ** Text is free of tags *)

Lemma escapeHtml_tag_free s : tag_free (escapeHtml s).
Proof.
  unfold tag_free, escapeHtml. induction s as [|c s IH]; [constructor|]. csimpl. apply Forall_app. split; [|done].
  unfold HTML_ESCAPES. repeat case_decide; csimpl; try (apply (bool_decide_unpack _); reflexivity).
  by repeat constructor.
Qed.

Lemma replace_from_Forall (P : Ascii.ascii -> Prop) k from to t :
  Forall P t -> Forall P to -> Forall P (replace_from k from to t).
Proof.
  intros Ht Hto. revert k. induction Ht as [|c t Hc Ht IH]; intros k; simpl; [done|].
  destruct k; [|done]. case_decide; [by apply Forall_app | by constructor].
Qed.

Lemma emoticons_tag_free : Forall (fun e => tag_free (chars_of e.2)) EMOTICONS.
Proof. apply (bool_decide_unpack _). vm_compute. reflexivity. Qed.

Lemma flushed_tag_free buf : tag_free (flushed buf).
Proof.
  unfold flushed. generalize (escapeHtml_tag_free buf) emoticons_tag_free.
  generalize (escapeHtml buf) as t. induction EMOTICONS as [|e l IH]; intros t Ht He; simpl; [done|].
  apply Forall_cons in He as [He Hl]. apply IH; [|done]. by apply replace_from_Forall.
Qed.

(** ** Every step keeps the grammar *)

Section markup.
Context (images : bool).

Definition fmt_ok (st : fmt) : Prop := Forall palette_tag st.(stack) /\ markup images st.(stack) st.(out).

Lemma flush_ok st : fmt_ok st -> fmt_ok (flush st).
Proof.
  intros [Hs Hm]. unfold flush, fmt_ok. destruct (buf st); simpl; [done|].
  split; [done|]. apply markup_text; [done | apply flushed_tag_free].
Qed.

Lemma openFmt_ok o st : palette_tag o -> fmt_ok st -> fmt_ok (openFmt o st).
Proof.
  intros Ho [Hs Hm]%flush_ok. split; simpl; [by apply Forall_app; split; [|constructor] | by constructor].
Qed.

Lemma close_tags_app l l' : close_tags (l ++ l') = close_tags l' ++ close_tags l.
Proof. unfold close_tags. by rewrite reverse_app, bind_app. Qed.

Lemma markup_close_tags l l' t : markup images (l ++ l') t -> markup images l (t ++ close_tags l').
Proof.
  revert t. induction l' as [|o l' IH] using rev_ind; intros t Hm.
  - rewrite app_nil_r in *. done.
  - rewrite close_tags_app, (assoc_L (++)). apply IH. unfold close_tags. csimpl. rewrite app_nil_r.
    apply markup_close. by rewrite <-(assoc_L (++)).
Qed.

Lemma markup_open_tags l l' t : Forall palette_tag l' -> markup images l t -> markup images (l ++ l') (t ++ open_tags l').
Proof.
  intros Hl. revert l t. induction Hl as [|o l' Ho Hl IH]; intros l t Hm; [by rewrite !app_nil_r|].
  unfold open_tags. csimpl. rewrite (cons_middle o), !(assoc_L (++)). apply IH. by constructor.
Qed.

Lemma lastIndexOf_split type l i :
  lastIndexOf type l = Some i -> exists o, l = take i l ++ o :: drop (S i) l /\ o.(type_) = type.
Proof.
  revert i. induction l as [|o l IH]; intros i; simpl; [done|].
  destruct (lastIndexOf type l) as [j|] eqn:E.
  - intros [= <-]. destruct (IH j eq_refl) as (o' & H & Ho'). exists o'. split; [|done]. simpl. by rewrite <-H.
  - case_decide; [|done]. intros [= <-]. by exists o.
Qed.

Lemma closeType_ok type st : fmt_ok st -> fmt_ok (closeType type st).
Proof.
  intros [Hs Hm]%flush_ok. unfold closeType. set (st' := flush st) in *.
  destruct (lastIndexOf type (stack st')) as [i|]; [|done]. split; simpl.
  - apply Forall_app. split; [by apply Forall_take | by apply Forall_drop].
  - rewrite (assoc_L (++)). apply markup_open_tags; [by apply Forall_drop|].
    apply markup_close_tags. by rewrite take_drop.
Qed.

Lemma toggle_ok o st : palette_tag o -> fmt_ok st -> fmt_ok (toggle o st).
Proof. intros Ho Hst. unfold toggle. destruct (is_open _ _); [by apply closeType_ok | by apply openFmt_ok]. Qed.

Lemma add_text_ok c st : fmt_ok st -> fmt_ok (add_text c st).
Proof. done. Qed.

Lemma match_hex_ok rest h n : match_hex rest = Some (h, n) -> is_hex_color h = true /\ (1 <= n)%nat.
Proof.
  unfold match_hex. destruct (match strip_prefix _ rest with Some r => _ | None => _ end) as [[r k]|]; [|done].
  pose proof (span_all is_hex r) as Hall. destruct (span is_hex r) as [hex r']. simpl in Hall.
  destruct r' as [|c r']; [done|]. destruct (decide (c = "]"%char)) as [->|Hc].
  - case_bool_decide as Hl; [|done]. intros [= <- <-]. split; [|lia].
    unfold is_hex_color. rewrite Hall. by apply bool_decide_eq_true_2.
  - repeat (destruct c as [[] [] [] [] [] [] [] []]; try done).
Qed.

Lemma size_key_ok g rest : match_size rest = Some g -> size_of g ∈ chars_of "1234567".
Proof.
  unfold match_size. intros H.
  assert (bool_decide (g ∈ chars_of "sl") || between 49 55 g = true) as Hg.
  { repeat (match goal with H : context [match ?x with _ => _ end] |- _ => destruct x eqn:? end; simplify_eq; try done). }
  clear H. destruct g as [[] [] [] [] [] [] [] []]; try discriminate Hg; apply (bool_decide_unpack _); reflexivity.
Qed.

Lemma has_elem keys k : has keys k = true -> k ∈ keys.
Proof. apply bool_decide_eq_true_1. Qed.

Lemma bracket_ok rest st st' n :
  bracket images rest st = Some (st', n) -> (fmt_ok st -> fmt_ok st') /\ (1 <= n)%nat.
Proof.
  unfold bracket.
  destruct (match (if images then _ else _) with Some url => _ | None => _ end) as [url|] eqn:Himg.
  { destruct images eqn:Ei; [|done]. destruct (match_img rest) as [u|]; [|done].
    destruct (INLINE_IMG_RE u) eqn:Hre; [|done]. injection Himg as ->.
    intros [= <- <-]. split; [intros Hst | lia]. pose proof (flush_ok st Hst) as [Hs Hm]. split; [done|]. simpl.
    destruct (inlineImageAllowed url) eqn:Ha; [|by apply markup_blocked].
    constructor; [done..|by apply tested_picture]. }
  clear Himg. repeat case_match; intros [= <- <-];
    (split; [intros Hst | try lia; repeat match goal with H : match_hex _ = Some _ |- _ => apply match_hex_ok in H end; naive_solver]);
    repeat first [apply closeType_ok | apply openFmt_ok]; try done; constructor;
    simplify_eq; try (by apply has_elem); try (by eapply size_key_ok); by eapply match_hex_ok.
Qed.

Lemma turn_ok c t st : fmt_ok st -> fmt_ok (turn images c t st).1.
Proof.
  intros Hst. unfold turn. destruct (if decide (c = "\"%char) then _ else _); [done|].
  case_decide; [|case_decide; [|case_decide; [|done]]].
  - apply toggle_ok; [constructor | done].
  - apply toggle_ok; [constructor | done].
  - destruct (bracket _ _ _) as [[st' n]|] eqn:E; [|done]. by apply (bracket_ok _ _ _ _ E).
Qed.

Lemma format_loop_ok fuel text st : fmt_ok st -> fmt_ok (format_loop fuel images text st).
Proof.
  revert text st. induction fuel as [|fuel IH]; intros text st Hst; [done|].
  destruct text as [|c t]; [done|]. simpl. pose proof (turn_ok c t st Hst) as Ht.
  destruct (turn images c t st) as [st' n]. by apply IH.
Qed.

Lemma finish_ok st : fmt_ok st -> markup images [] (finish st).
Proof.
  intros [Hs Hm]%flush_ok. unfold finish. by apply (markup_close_tags []).
Qed.

End markup.


(** Every turn consumes at least one character: the loop ends. *)
Lemma turn_pos images c t st : (1 <= (turn images c t st).2)%nat.
Proof.
  unfold turn. destruct (if decide (c = "\"%char) then _ else _); [simpl; lia|].
  repeat (case_decide; [simpl; lia|]). case_decide; [|simpl; lia].
  destruct (bracket _ _ _) as [[st' n]|] eqn:E; simpl; [|lia]. apply (bracket_ok _ _ _ _ _ E).
Qed.

Lemma format_loop_fuel n m images text st :
  (length text <= n)%nat -> (length text <= m)%nat ->
  format_loop n images text st = format_loop m images text st.
Proof.
  revert m text st. induction n as [|n IH]; intros m text st Hn Hm.
  - destruct text; [|simpl in Hn; lia]. by destruct m.
  - destruct text as [|c t]; [by destruct m|]. destruct m as [|m]; [simpl in Hm; lia|]. cbn [format_loop].
    pose proof (turn_pos images c t st) as Hp. destruct (turn images c t st) as [st' k]. simpl in Hp.
    apply IH; rewrite length_drop; simpl in *; lia.
Qed.

(** ** Running the parser on known text *)

Definition run (images : bool) (text : chars) (st : fmt) : fmt := format_loop (length text) images text st.

Lemma run_nil images st : run images [] st = st.
Proof. reflexivity. Qed.

Lemma run_turn images c t st st' n :
  turn images c t st = (st', n) -> run images (c :: t) st = run images (drop n (c :: t)) st'.
Proof.
  intros E. unfold run. cbn [length format_loop]. rewrite E.
  pose proof (turn_pos images c t st) as Hp. rewrite E in Hp. simpl in Hp.
  apply format_loop_fuel; rewrite length_drop; simpl; lia.
Qed.

Lemma run_bracket images rest st st' n r :
  bracket images ("["%char :: rest) st = Some (st', n) -> drop n ("["%char :: rest) = r ->
  run images ("["%char :: rest) st = run images r st'.
Proof. intros E <-. apply run_turn. unfold turn. simpl. by rewrite E. Qed.

Lemma add_text_app a b st : add_text b (add_text a st) = add_text (a ++ b) st.
Proof. unfold add_text. simpl. by rewrite (assoc_L (++)). Qed.

(** Text whose marker characters are escaped is text, wherever it stands. *)
Lemma run_backslash images (class : Ascii.ascii -> bool) s rest st :
  (forall c, is_marker c = true -> class c = true) ->
  run images (backslash class s ++ rest) st = run images rest (add_text s st).
Proof.
  intros Hclass. revert st. induction s as [|c s IH]; intros st.
  { unfold add_text. simpl. rewrite app_nil_r. by destruct st. }
  unfold backslash in *. csimpl. rewrite <-(assoc_L (++)). destruct (class c) eqn:Ec.
  - cbn [app]. rewrite (run_turn images "\" (c :: _) st (add_text [c] st) 2 eq_refl). cbn [drop].
    rewrite IH. by rewrite add_text_app.
  - assert (turn images c ((s ≫= (fun c => if class c then ["\"%char; c] else [c])) ++ rest) st = (add_text [c] st, 1%nat)) as E.
    { specialize (Hclass c). unfold turn. repeat (case_decide; [subst c; rewrite Hclass in Ec; done|]). done. }
    simpl. rewrite (run_turn _ _ _ _ _ _ E). simpl. rewrite IH. by rewrite add_text_app.
Qed.

Lemma run_escMarker images s rest st : run images (escMarker s ++ rest) st = run images rest (add_text s st).
Proof. by apply run_backslash. Qed.

(** Text that was escaped for the editor renders as itself, with no marker in it read. *)
Theorem formatMessageText_escMarker images s : formatMessageText images (escMarker s) = flushed s.
Proof.
  unfold formatMessageText. change (finish (run images (escMarker s) (MkFmt [] [] [])) = flushed s).
  rewrite <-(app_nil_r (escMarker s)), run_escMarker, run_nil. unfold finish, flush, add_text.
  cbn [out stack buf app]. destruct s as [|c s]; [reflexivity|]. cbn [out stack buf app].
  unfold close_tags. cbn -[flushed]. by rewrite app_nil_r.
Qed.

(** ** What the editor shows is what the text renders to *)

(** The documents the editor makes: text, pictures, and runs with one format. *)
Inductive style :=
  | Bold | Italic | Underline
  | Color (k : chars) | Highlight (k : chars) | Size (n : Z) | Font (k : chars).

Inductive doc :=
  | Txt (s : chars)
  | Img (url : chars)
  | Styled (x : style) (l : list doc).

Lemma doc_ind_nested (P : doc -> Prop) :
  (forall s, P (Txt s)) -> (forall url, P (Img url)) ->
  (forall x l, Forall P l -> P (Styled x l)) -> forall d, P d.
Proof.
  intros Ht Hi Hs. fix IH 1. intros [s|url|x l]; [apply Ht | apply Hi | apply Hs].
  induction l as [|d l IHl]; [constructor | constructor; [apply IH | apply IHl]].
Qed.

Definition tag_of (x : style) : RTOpen :=
  match x with
  | Bold => tag_b | Italic => tag_i | Underline => tag_u
  | Color k => tag_c k | Highlight k => tag_h k | Size n => tag_z (digit_char n) | Font k => tag_f k
  end.

(** The element the editor wraps around a run. *)
Definition element_of (x : style) : list node -> node :=
  match x with
  | Bold => Element "strong" [] []
  | Italic => Element "em" [] []
  | Underline => Element "u" [] []
  | Color k => Element "span" [] [chars_of "dd-c-" ++ k]
  | Highlight k => Element "span" [] [chars_of "dd-hl-" ++ k]
  | Size n => Element "font" [("size", [digit_char n])] []
  | Font k => Element "span" [] [chars_of "dd-ft-" ++ k]
  end.

Fixpoint to_node (d : doc) : node :=
  match d with
  | Txt s => TextNode s
  | Img url => Element "img" [("src", url)] [] []
  | Styled x l => element_of x (to_node <$> l)
  end.

(** The same document as the HTML a reader sees. *)
Definition picture (url : chars) : chars := if inlineImageAllowed url then img_tag url else img_blocked.

Fixpoint html (d : doc) : chars :=
  match d with
  | Txt s => flushed s
  | Img url => picture url
  | Styled x l => openTag (tag_of x) ++ concat (html <$> l) ++ closeTag (tag_of x)
  end.

Definition style_ok (x : style) : bool :=
  match x with
  | Color k => has TEXT_KEYS k
  | Highlight k => has HL_KEYS k
  | Size n => bool_decide (n ∈ [1; 2; 3; 5; 6; 7])
  | Font k => has FONT_KEYS k
  | _ => true
  end.

Definition is_toggle (x : style) : bool := match x with Bold | Italic => true | _ => false end.
Definition is_text (d : doc) : bool := match d with Txt _ => true | _ => false end.

Fixpoint no_adjacent_text (l : list doc) : bool :=
  match l with
  | d :: ((d' :: _) as l') => negb (is_text d && is_text d') && no_adjacent_text l'
  | _ => true
  end.

(** Keys of the palettes, runs that hold something, text without the caret-holder, and no bold or
    italic inside its own kind ([ctx] has the formats around). *)
Fixpoint canonical (ctx : list string) (d : doc) : bool :=
  match d with
  | Txt s => bool_decide (s <> [] /\ split_join zero_width [] s = s)
  | Img url => INLINE_IMG_RE url
  | Styled x l =>
      style_ok x && negb (is_toggle x && bool_decide (type_ (tag_of x) ∈ ctx)) && bool_decide (l <> []) &&
      no_adjacent_text l && forallb (canonical (type_ (tag_of x) :: ctx)) l
  end.

(** *** Serializing *)

Definition opener (x : style) : chars :=
  match x with
  | Bold => chars_of "*" | Italic => chars_of "_" | Underline => chars_of "[u]"
  | Color k => chars_of "[c:" ++ k ++ ["]"%char]
  | Highlight k => chars_of "[h:" ++ k ++ ["]"%char]
  | Size n => chars_of "[z:" ++ [digit_char n; "]"%char]
  | Font k => chars_of "[f:" ++ k ++ ["]"%char]
  end.

Definition closer (x : style) : chars :=
  match x with
  | Bold => chars_of "*" | Italic => chars_of "_"
  | _ => "["%char :: "/"%char :: chars_of (type_ (tag_of x)) ++ ["]"%char]
  end.

Fixpoint mark (d : doc) : chars :=
  match d with
  | Txt s => escMarker s
  | Img url => chars_of "[img:" ++ url ++ ["]"%char]
  | Styled x l => opener x ++ concat (mark <$> l) ++ closer x
  end.

Lemma strip_prefix_app p t : strip_prefix p (p ++ t) = Some t.
Proof. induction p as [|a p IH]; simpl; [done|]. by rewrite decide_True by done. Qed.

(** A property of every key of a palette, by evaluation. *)
Lemma palette_check (keys : list chars) (P : chars -> bool) k :
  forallb P keys = true -> has keys k = true -> P k = true.
Proof.
  intros HP Hk%has_elem. rewrite forallb_forall in HP. apply HP. by apply list_elem_of_In.
Qed.

Lemma serialize_span cls inner out :
  inner <> [] ->
  serialize_element "span" [] cls inner out =
  match has_class "dd-c-" TEXT_KEYS cls with
  | Some k => out ++ chars_of "[c:" ++ k ++ "]"%char :: inner ++ chars_of "[/c]"
  | None =>
  match has_class "dd-hl-" HL_KEYS cls with
  | Some k => out ++ chars_of "[h:" ++ k ++ "]"%char :: inner ++ chars_of "[/h]"
  | None =>
  match has_class "dd-ft-" FONT_KEYS cls with
  | Some k => out ++ chars_of "[f:" ++ k ++ "]"%char :: inner ++ chars_of "[/f]"
  | None => out ++ inner
  end end end.
Proof. intros H. unfold serialize_element. rewrite (bool_decide_eq_false_2 _ H), andb_false_r. reflexivity. Qed.

Lemma has_class_hit p keys k : has keys k = true -> has_class p keys [chars_of p ++ k] = Some k.
Proof. intros H. unfold has_class, find_class. by rewrite strip_prefix_app, H. Qed.

Lemma serialize_styled x l inner out :
  style_ok x = true -> inner <> [] ->
  match element_of x l with
  | Element tag attrs cls _ => serialize_element tag attrs cls inner out
  | _ => []
  end = out ++ opener x ++ inner ++ closer x.
Proof.
  intros Hx Hin. destruct x as [| | |k|k|n|k]; cbn [element_of opener closer style_ok] in *.
  1-3: unfold serialize_element; rewrite (bool_decide_eq_false_2 _ Hin), andb_false_r; reflexivity.
  - rewrite serialize_span, has_class_hit by done. by rewrite <-!(assoc_L (++)).
  - rewrite serialize_span by done. change (has_class "dd-c-" TEXT_KEYS _) with (@None chars).
    rewrite has_class_hit by done. by rewrite <-!(assoc_L (++)).
  - unfold serialize_element. rewrite (bool_decide_eq_false_2 _ Hin), andb_false_r.
    apply bool_decide_eq_true_1 in Hx.
    repeat (apply elem_of_cons in Hx as [->|Hx]; [reflexivity|]). by apply not_elem_of_nil in Hx.
  - rewrite serialize_span by done. change (has_class "dd-c-" TEXT_KEYS _) with (@None chars).
    change (has_class "dd-hl-" HL_KEYS _) with (@None chars).
    rewrite has_class_hit by done. by rewrite <-!(assoc_L (++)).
Qed.

Lemma mark_nonempty ctx d : canonical ctx d = true -> mark d <> [].
Proof.
  destruct d as [s|url|x l]; cbn [canonical mark].
  - intros [Hs _]%bool_decide_eq_true_1. destruct s as [|c s]; [done|].
    unfold escMarker, backslash. csimpl. by destruct (is_marker c).
  - done.
  - by destruct x.
Qed.

Lemma canonical_styled ctx x l :
  canonical ctx (Styled x l) = true ->
  style_ok x = true /\ (is_toggle x = true -> type_ (tag_of x) ∉ ctx) /\ l <> [] /\ no_adjacent_text l = true /\
  Forall (fun d => canonical (type_ (tag_of x) :: ctx) d = true) l.
Proof.
  cbn [canonical]. rewrite !andb_true_iff, negb_true_iff, andb_false_iff, Forall_forall.
  intros ((((Hx & Ht) & Hl) & Ha) & Hc). rewrite forallb_forall in Hc. repeat split; try done.
  - intros Htog. destruct Ht as [Ht|Ht]; [congruence | by apply bool_decide_eq_false_1 in Ht].
  - by apply bool_decide_eq_true_1 in Hl.
  - intros d Hd. apply Hc. by apply list_elem_of_In.
Qed.

Lemma serialize_node d : forall ctx out,
  canonical ctx d = true -> serialize_child out (to_node d) = out ++ mark d.
Proof.
  induction d as [s|url|x l IH] using doc_ind_nested; intros ctx out.
  - intros [_ Hs]%bool_decide_eq_true_1. cbn [to_node serialize_child mark]. by rewrite Hs.
  - cbn [canonical]. intros Hu. cbn [to_node serialize_child mark].
    change (default [] (getAttribute [("src", url)] "src")) with url. simpl bool_decide. by rewrite Hu.
  - intros (Hx & _ & Hl & _ & Hc)%canonical_styled. cbn [mark].
    assert (forall o, foldl serialize_child o (to_node <$> l) = o ++ concat (mark <$> l)) as Hin.
    { clear Hl. induction l as [|d l IHl]; intros o; csimpl; [by rewrite app_nil_r|].
      apply Forall_cons in IH as [IHd IH]. apply Forall_cons in Hc as [Hd Hc].
      rewrite (IHd _ _ Hd), IHl by done. by rewrite (assoc_L (++)). }
    assert (concat (mark <$> l) <> []) as Hne.
    { destruct l as [|d l]; [done|]. apply Forall_cons in Hc as [Hd _]. csimpl.
      pose proof (mark_nonempty _ _ Hd). by destruct (mark d). }
    rewrite <-(serialize_styled x (to_node <$> l) _ out Hx Hne).
    specialize (Hin []). cbn [app] in Hin. rewrite <-Hin. by destruct x.
Qed.

(** *** Parsing *)

Definition apply_img (url : chars) (st : fmt) : fmt :=
  let st := flush st in MkFmt (st.(out) ++ picture url) st.(stack) st.(buf).

(** Close the innermost open tag, [o]. *)
Definition close_top (o : RTOpen) (st : fmt) : fmt :=
  let st := flush st in MkFmt (st.(out) ++ closeTag o) (take (length st.(stack) - 1) st.(stack)) st.(buf).

(** The locals after the parser has read a document. *)
Fixpoint apply_doc (st : fmt) (d : doc) : fmt :=
  match d with
  | Txt s => add_text s st
  | Img url => apply_img url st
  | Styled x l => close_top (tag_of x) (foldl apply_doc (openFmt (tag_of x) st) l)
  end.

Lemma stack_flush st : stack (flush st) = stack st.
Proof. unfold flush. by destruct (buf st). Qed.

Lemma buf_flush st : buf (flush st) = [].
Proof. unfold flush. by destruct (buf st) eqn:E. Qed.

Lemma flush_id st : buf st = [] -> flush st = st.
Proof. intros E. unfold flush. by rewrite E. Qed.

Lemma take_last {A} (l : list A) x : take (length (l ++ [x]) - 1) (l ++ [x]) = l.
Proof. rewrite length_app. simpl. rewrite Nat.add_sub. apply take_app_length. Qed.

Lemma foldl_stack l st :
  Forall (fun d => forall st, stack (apply_doc st d) = stack st) l -> stack (foldl apply_doc st l) = stack st.
Proof. intros Hl. revert st. induction Hl as [|d l Hd _ IH]; intros st; [done|]. simpl. by rewrite IH, Hd. Qed.

Lemma apply_doc_stack d : forall st, stack (apply_doc st d) = stack st.
Proof.
  induction d as [s|url|x l IH] using doc_ind_nested; intros st; cbn [apply_doc]; [done | apply stack_flush |].
  unfold close_top. cbn [stack]. rewrite stack_flush, foldl_stack by done. unfold openFmt. cbn [stack].
  by rewrite take_last, stack_flush.
Qed.

Lemma lastIndexOf_last l o : lastIndexOf (type_ o) (l ++ [o]) = Some (length l).
Proof. induction l as [|a l IH]; simpl; [by rewrite decide_True | by rewrite IH]. Qed.

Lemma closeType_top st l o : stack st = l ++ [o] -> closeType (type_ o) st = close_top o st.
Proof.
  intros E. unfold closeType, close_top. rewrite stack_flush, E, lastIndexOf_last, take_last.
  rewrite take_app_length, drop_app_length, drop_ge by (rewrite length_app; simpl; lia).
  unfold close_tags, open_tags. csimpl. by rewrite !app_nil_r.
Qed.

Lemma is_open_top st l o : stack st = l ++ [o] -> is_open (type_ o) st = true.
Proof.
  intros E. unfold is_open. rewrite E, existsb_app. simpl. by rewrite bool_decide_eq_true_2, orb_true_r.
Qed.

Lemma match_key_palette letter keys k rest :
  forallb (fun k => match k with [a] => is_lower a | [a; b] => is_lower a && is_lower b | _ => false end) keys = true ->
  has keys k = true ->
  match_key letter ("["%char :: letter :: ":"%char :: k ++ "]"%char :: rest) = Some k.
Proof.
  intros Hall Hk. pose proof (palette_check _ _ _ Hall Hk) as H. unfold match_key.
  destruct k as [|a [|b [|]]]; try done; cbn [app]; rewrite decide_True by done; [by rewrite H|].
  destruct b as [[] [] [] [] [] [] [] []]; by rewrite ?H; cbn in H; rewrite ?andb_false_r in H.
Qed.

(** A marker with a key of one or two letters, as the parser reads it. *)
Lemma run_key_marker letter keys k r st images o :
  forallb (fun k => match k with [a] => is_lower a | [a; b] => is_lower a && is_lower b | _ => false end) keys = true ->
  has keys k = true ->
  bracket images ("["%char :: letter :: ":"%char :: k ++ "]"%char :: r) st = Some (openFmt o st, (4 + length k)%nat) ->
  run images ("["%char :: letter :: ":"%char :: k ++ "]"%char :: r) st = run images r (openFmt o st).
Proof.
  intros Hall Hk E. eapply run_bracket; [exact E|]. cbn [Nat.add drop].
  rewrite (cons_middle _ k r), (assoc_L (++)), drop_app_length'; [done|]. rewrite length_app. simpl. lia.
Qed.

Lemma run_opener images x r st :
  style_ok x = true -> (is_toggle x = true -> is_open (type_ (tag_of x)) st = false) ->
  run images (opener x ++ r) st = run images r (openFmt (tag_of x) st).
Proof.
  intros Hx Ht. destruct x as [| | |k|k|n|k]; cbn [style_ok is_toggle opener tag_of] in *.
  - apply (run_turn images "*" r st _ 1). unfold turn. cbn -[toggle]. unfold toggle. by rewrite Ht.
  - apply (run_turn images "_" r st _ 1). unfold turn. cbn -[toggle]. unfold toggle. by rewrite Ht.
  - apply (run_bracket _ _ _ _ 3); [by destruct images | reflexivity].
  - rewrite <-!(assoc_L (++)). apply (run_key_marker "c" TEXT_KEYS); [reflexivity | done |].
    unfold bracket. cbn -[match_key is_open openFmt TEXT_KEYS has match_hex].
    destruct images; cbn -[match_key is_open openFmt TEXT_KEYS has match_hex];
    rewrite (match_key_palette "c" TEXT_KEYS) by done; by rewrite Hx.
  - rewrite <-!(assoc_L (++)). apply (run_key_marker "h" HL_KEYS); [reflexivity | done |].
    unfold bracket. destruct images; cbn -[match_key is_open openFmt HL_KEYS has];
    rewrite (match_key_palette "h" HL_KEYS) by done; by rewrite Hx.
  - apply bool_decide_eq_true_1 in Hx. apply (run_bracket _ _ _ _ 5); [|reflexivity].
    repeat (apply elem_of_cons in Hx as [->|Hx]; [by destruct images|]). by apply not_elem_of_nil in Hx.
  - rewrite <-!(assoc_L (++)). apply (run_key_marker "f" FONT_KEYS); [reflexivity | done |].
    unfold bracket. destruct images; cbn -[match_key is_open openFmt FONT_KEYS has];
    rewrite (match_key_palette "f" FONT_KEYS) by done; by rewrite Hx.
Qed.

Lemma bracket_close images k r st :
  k ∈ chars_of "uchzf" -> is_open (String k "") st = true ->
  bracket images ("["%char :: "/"%char :: k :: "]"%char :: r) st = Some (closeType (String k "") st, 4%nat).
Proof.
  intros Hk Hopen. unfold bracket.
  assert (match_close ("["%char :: "/"%char :: k :: "]"%char :: r) = Some (String k "")) as ->.
  { unfold match_close. by rewrite bool_decide_eq_true_2. }
  rewrite Hopen. by destruct images.
Qed.

Lemma run_closer images x l r st :
  stack st = l ++ [tag_of x] -> run images (closer x ++ r) st = run images r (close_top (tag_of x) st).
Proof.
  intros E. pose proof (is_open_top _ _ _ E) as Hopen. rewrite <-(closeType_top _ _ _ E).
  destruct x; cbn [tag_of tag_b tag_i tag_u tag_c tag_h tag_z tag_f type_] in *.
  1: apply (run_turn images "*" r st _ 1).
  2: apply (run_turn images "_" r st _ 1).
  3-7: apply (run_bracket _ _ _ _ 4); [|reflexivity].
  1-2: unfold turn; cbn -[toggle]; unfold toggle; cbn -[is_open closeType]; by rewrite Hopen.
  all: apply bracket_close; [apply (bool_decide_unpack _); reflexivity | done].
Qed.


Lemma span_app p t c r : p c = false -> span p (t ++ c :: r) = ((span p t).1, (span p t).2 ++ c :: r).
Proof.
  intros Hc. induction t as [|a t IH]; simpl; [by rewrite Hc|].
  destruct (p a); [|done]. rewrite IH. by destruct (span p t).
Qed.

Lemma skip_equals_app n t c r : c <> "="%char -> skip_equals n t = [] -> skip_equals n (t ++ c :: r) = c :: r.
Proof.
  intros Hc. revert t. induction n as [|n IH]; intros t; [by destruct t|].
  destruct t as [|a t]; intros H; simpl.
  - by destruct c as [[] [] [] [] [] [] [] []].
  - simpl in H. destruct (decide (a = "="%char)) as [->|Ha]; [by apply IH|].
    exfalso. by destruct a as [[] [] [] [] [] [] [] []].
Qed.

(** What the regular expression accepts as a whole, it also finds before a ["]"]. *)
Lemma after_data_url_app url r :
  INLINE_IMG_RE url = true -> after_data_url (url ++ "]"%char :: r) = Some ("]"%char :: r).
Proof.
  unfold INLINE_IMG_RE. destruct (after_data_url url) as [[|]|] eqn:E; [|done..]. intros _.
  unfold after_data_url in E.
  destruct (strip_prefix (chars_of "data:image/") url) as [t|] eqn:E1; [|done]. apply strip_prefix_Some in E1 as ->.
  destruct (first_prefix _ t) as [u|] eqn:E2; [|done].
  apply first_prefix_Some in E2 as (p & Hp & ->).
  destruct (span is_b64 u) as [[|b bs] v] eqn:E3; [done|]. injection E as E.
  assert (after_data_url ((chars_of "data:image/" ++ chars_of p ++ u) ++ "]"%char :: r) =
          match span is_b64 (u ++ "]"%char :: r) with ([], _) => None | (_, w) => Some (skip_equals 2 w) end) as ->.
  { unfold after_data_url. rewrite <-!(assoc_L (++)), strip_prefix_app.
    repeat (apply elem_of_cons in Hp as [->|Hp]; [reflexivity|]). by apply not_elem_of_nil in Hp. }
  rewrite span_app by done. rewrite E3. cbn [fst snd]. by rewrite skip_equals_app.
Qed.

Lemma run_img url r st :
  INLINE_IMG_RE url = true -> run true (chars_of "[img:" ++ url ++ "]"%char :: r) st = run true r (apply_img url st).
Proof.
  intros Hu. apply (run_bracket _ _ _ _ (6 + length url)).
  - unfold bracket, match_img. change ("["%char :: _) with (chars_of "[img:" ++ url ++ "]"%char :: r).
    rewrite strip_prefix_app, (after_data_url_app _ _ Hu).
    rewrite take_app_length' by (rewrite length_app; lia). by rewrite Hu.
  - change ("["%char :: _) with (chars_of "[img:" ++ url ++ "]"%char :: r).
    rewrite (assoc_L (++)), cons_middle, (assoc_L (++)). apply drop_app_length'. rewrite !length_app. simpl. lia.
Qed.

(** The parser reads the marker text of a document as the document. *)
Lemma run_mark d : forall ctx r st,
  canonical ctx d = true -> (forall t, is_open t st = true -> t ∈ ctx) ->
  run true (mark d ++ r) st = run true r (apply_doc st d).
Proof.
  induction d as [s|url|x l IH] using doc_ind_nested; intros ctx r st Hc Hctx.
  - apply run_escMarker.
  - cbn [mark]. rewrite <-!(assoc_L (++)). by apply run_img.
  - apply canonical_styled in Hc as (Hx & Ht & _ & _ & Hc). cbn [mark apply_doc]. rewrite <-!(assoc_L (++)).
    rewrite run_opener; [|done |].
    2: { intros Htog. destruct (is_open _ st) eqn:Ho; [|done]. apply Hctx in Ho. by apply Ht in Htog. }
    assert (forall st', stack st' = stack st ++ [tag_of x] ->
      run true (concat (mark <$> l) ++ closer x ++ r) st' = run true (closer x ++ r) (foldl apply_doc st' l)) as Hl.
    { clear Hx Ht. induction l as [|d l IHl]; intros st' Hst'; [done|]. csimpl. rewrite <-(assoc_L (++)).
      apply Forall_cons in IH as [IHd IH]. apply Forall_cons in Hc as [Hd Hc].
      rewrite (IHd _ _ _ Hd).
      - apply IHl; [done..|]. by rewrite apply_doc_stack.
      - intros t. unfold is_open. rewrite Hst', existsb_app, orb_true_iff. simpl. rewrite orb_false_r.
        intros [H|H%bool_decide_eq_true_1]; [right; by apply Hctx | subst; left]. }
    assert (stack (openFmt (tag_of x) st) = stack st ++ [tag_of x]) as Hs.
    { unfold openFmt. cbn [stack]. by rewrite stack_flush. }
    rewrite Hl by done. apply (run_closer _ _ (stack st)). rewrite foldl_stack; [done|].
    apply Forall_forall. intros d _. apply apply_doc_stack.
Qed.

Lemma forallb_Forall {A} (p : A -> bool) l : forallb p l = true -> Forall (fun x => p x = true) l.
Proof. rewrite forallb_forall, Forall_forall. intros H x Hx. apply H. by apply list_elem_of_In. Qed.

Lemma run_marks l ctx r st :
  Forall (fun d => canonical ctx d = true) l -> (forall t, is_open t st = true -> t ∈ ctx) ->
  run true (concat (mark <$> l) ++ r) st = run true r (foldl apply_doc st l).
Proof.
  intros Hc. revert st. induction Hc as [|d l Hd _ IH]; intros st Hctx; [done|]. csimpl.
  rewrite <-(assoc_L (++)), (run_mark _ _ _ _ Hd), IH; [done | | done].
  intros t. unfold is_open. by rewrite apply_doc_stack; apply Hctx.
Qed.

(** *** Rendering *)

Lemma flush_text s st : s <> [] -> buf st = [] -> flush (add_text s st) = MkFmt (out st ++ flushed s) (stack st) [].
Proof. intros Hs E. unfold flush, add_text. rewrite E. cbn [buf out stack app]. by destruct s. Qed.

(** Two neighbours are not both text: a text always starts a run of its own. *)
Lemma foldl_html l : forall st,
  Forall (fun d => exists ctx, canonical ctx d = true) l ->
  Forall (fun d => forall ctx st, canonical ctx d = true -> (is_text d = true -> buf st = []) ->
     flush (apply_doc st d) = MkFmt (out (flush st) ++ html d) (stack st) [] /\
     (is_text d = false -> buf (apply_doc st d) = [])) l ->
  no_adjacent_text l = true -> (forall d, head l = Some d -> is_text d = true -> buf st = []) ->
  flush (foldl apply_doc st l) = MkFmt (out (flush st) ++ concat (html <$> l)) (stack st) [].
Proof.
  induction l as [|d l IH]; intros st Hc Hl Ha Hd.
  { cbn. rewrite app_nil_r. rewrite <-(stack_flush st), <-(buf_flush st). by destruct (flush st). }
  apply Forall_cons in Hl as [IHd Hl]. apply Forall_cons in Hc as [[ctx Hcd] Hc].
  destruct (IHd ctx st Hcd (Hd d eq_refl)) as [Hf Hb]. csimpl. rewrite IH; try done.
  - rewrite Hf, apply_doc_stack. cbn [out]. by rewrite (assoc_L (++)).
  - destruct l; [done|]. by apply andb_true_iff in Ha as [_ Ha].
  - intros d' Hd' Htd'. destruct l as [|d1 l]; [done|]. injection Hd' as ->.
    apply andb_true_iff in Ha as [Ha _]. rewrite Htd', andb_true_r in Ha. apply Hb. by destruct (is_text d).
Qed.

Lemma apply_html d : forall ctx st,
  canonical ctx d = true -> (is_text d = true -> buf st = []) ->
  flush (apply_doc st d) = MkFmt (out (flush st) ++ html d) (stack st) [] /\
  (is_text d = false -> buf (apply_doc st d) = []).
Proof.
  induction d as [s|url|x l IH] using doc_ind_nested; intros ctx st Hc Ht.
  - apply bool_decide_eq_true_1 in Hc as [Hs _]. split; [|done]. cbn [apply_doc html].
    rewrite flush_text by auto. by rewrite (flush_id st) by auto.
  - cbn [apply_doc html]. unfold apply_img. rewrite buf_flush, stack_flush. split; [by rewrite flush_id | done].
  - apply canonical_styled in Hc as (_ & _ & Hne & Ha & Hc). cbn [apply_doc html].
    unfold close_top. rewrite buf_flush. split; [|done]. rewrite flush_id by done.
    assert (flush (openFmt (tag_of x) st) = openFmt (tag_of x) st) as Hop by (apply flush_id, buf_flush).
    rewrite foldl_html.
    + rewrite Hop. unfold openFmt. cbn [out stack]. rewrite stack_flush, take_last.
      by rewrite <-!(assoc_L (++)).
    + apply (Forall_impl _ _ _ Hc). intros d Hd. by eexists.
    + done.
    + done.
    + intros d _ _. unfold openFmt. apply buf_flush.
Qed.

(** What the editor shows is what its text renders to: serializing a canonical document and
    formatting the marker text gives the document's own HTML. *)
Theorem editor_roundtrip l :
  forallb (canonical []) l = true -> no_adjacent_text l = true ->
  formatMessageText true (serializeRichText (to_node <$> l)) = concat (html <$> l).
Proof.
  intros Hc%forallb_Forall Ha.
  assert (forall o, foldl serialize_child o (to_node <$> l) = o ++ concat (mark <$> l)) as Hser.
  { clear Ha. induction Hc as [|d l Hd _ IH]; intros o; csimpl; [by rewrite app_nil_r|].
    by rewrite (serialize_node _ _ _ Hd), IH, (assoc_L (++)). }
  unfold serializeRichText. rewrite Hser. cbn [app]. set (st := MkFmt [] [] []).
  change (finish (run true (concat (mark <$> l)) st) = concat (html <$> l)).
  rewrite <-(app_nil_r (concat (mark <$> l))), (run_marks l [] [] st Hc) by done. rewrite run_nil.
  unfold finish. rewrite foldl_html; [by cbn; rewrite app_nil_r | | |done |].
  - apply (Forall_impl _ _ _ Hc). intros d Hd. by eexists.
  - apply Forall_forall. intros d _. apply apply_html.
  - done.
Qed.

(** ** Emoticons are replaced in the escaped text *)

(** A closing parenthesis after a double quote, an apostrophe, an ampersand or a greater-than sign
    becomes a wink, because the escape of that character ends in a semicolon. *)
Theorem emoticon_eats_parenthesis :
  Forall (fun c => exists entity, escapeHtml [c] = entity ++ [";"%char] /\
                   flushed [c; ")"%char] = entity ++ chars_of "😉")
         [double_quote; "'"; "&"; ">"; "<"]%char.
Proof.
  repeat constructor; [exists (chars_of "&quot") | exists (chars_of "&#39") | exists (chars_of "&amp")
                      | exists (chars_of "&gt") | exists (chars_of "&lt")]; vm_compute; done.
Qed.

(** ** The default look *)

Section look.
Context (look : MessageLook).

(** The formats of a look, outermost first. *)
Definition look_tags : list RTOpen :=
  (tag_f <$> option_list (allowed FONT_KEYS look.(font))) ++
  (tag_c <$> option_list (allowed TEXT_KEYS look.(color))) ++
  (tag_h <$> option_list (allowed HL_KEYS look.(hl))) ++
  ((fun k => tag_z (size_of (default "s"%char (head k)))) <$> option_list (allowed SIZE_KEYS look.(RichText.size))).

(** The parser reads the markers of a part as its tags. *)
Definition reads_as (p : chars * chars) (o : RTOpen) : Prop :=
  (forall images r st, run images (p.1 ++ r) st = run images r (openFmt o st)) /\
  (forall images l r st, stack st = l ++ [o] -> run images (p.2 ++ r) st = run images r (close_top o st)).

Lemma allowed_has keys v k : allowed keys v = Some k -> has keys k = true.
Proof. unfold allowed. destruct v as [k'|]; [|done]. destruct (has keys k') eqn:E; [|done]. by intros [= ->]. Qed.

Lemma style_reads_as x p :
  style_ok x = true -> is_toggle x = false -> p = (opener x, closer x) -> reads_as p (tag_of x).
Proof.
  intros Hx Ht ->. split; intros; cbn [fst snd]; [apply run_opener; [done | by rewrite Ht] | by eapply run_closer].
Qed.

Lemma look_parts_read : Forall2 reads_as (messageLookParts look) look_tags.
Proof.
  unfold messageLookParts, look_tags, look_part.
  repeat apply Forall2_app; (destruct (allowed _ _) as [k|] eqn:E; [|constructor]); apply allowed_has in E;
    (constructor; [|constructor]).
  - by apply (style_reads_as (Font k)).
  - by apply (style_reads_as (Color k)).
  - by apply (style_reads_as (Highlight k)).
  - apply has_elem in E. apply elem_of_cons in E as [->|E].
    + split; cbn [fst snd].
      * intros. apply (run_bracket _ _ _ _ 5); [by destruct images | done].
      * intros. by apply (run_closer images (Size 2) l).
    + apply list_elem_of_singleton in E as ->. split; cbn [fst snd].
      * intros. apply (run_bracket _ _ _ _ 5); [by destruct images | done].
      * intros. by apply (run_closer images (Size 5) l).
Qed.

End look.

Lemma run_opens images ps os : Forall2 reads_as ps os -> forall base t r,
  run images (concat (fst <$> ps) ++ r) (MkFmt t base []) = run images r (MkFmt (t ++ open_tags os) (base ++ os) []).
Proof.
  induction 1 as [|p o ps os [Ho _] _ IH]; intros base t r; [by rewrite !app_nil_r|]. csimpl.
  rewrite <-(assoc_L (++)), Ho. unfold openFmt. cbn [flush out stack buf]. rewrite IH.
  by rewrite <-!(assoc_L (++)).
Qed.

Lemma finish_close_top o l st : stack st = l ++ [o] -> finish (close_top o st) = finish st.
Proof.
  intros E. unfold finish. rewrite (flush_id (close_top o st)) by apply buf_flush.
  unfold close_top. cbn [out stack]. rewrite stack_flush, E, take_last.
  unfold close_tags. rewrite reverse_app. csimpl. by rewrite (assoc_L (++)).
Qed.

(** Closing what is open just before the end changes nothing. *)
Lemma run_closes images ps os : Forall2 reads_as ps os -> forall st,
  stack st = reverse os -> finish (run images (concat (snd <$> ps)) st) = finish st.
Proof.
  induction 1 as [|p o ps os [_ Hc] _ IH]; intros st Hst; [done|]. csimpl.
  rewrite reverse_cons in Hst. rewrite (Hc _ _ _ _ Hst), IH.
  - by apply (finish_close_top o (reverse os)).
  - unfold close_top. cbn [stack]. by rewrite stack_flush, Hst, take_last.
Qed.

(** A message composed under a look renders as the composed document inside the tags of the look's
    allowed fields, whatever the look stored on the device says. *)
Theorem wrapMessageLook_renders look l :
  forallb (canonical (type_ <$> look_tags look)) l = true -> no_adjacent_text l = true ->
  formatMessageText true (wrapMessageLook (Some look) (concat (mark <$> l))) =
  open_tags (look_tags look) ++ concat (html <$> l) ++ close_tags (look_tags look).
Proof.
  intros Hc Ha. pose proof (look_parts_read look) as Hp. cbn [wrapMessageLook].
  set (ps := messageLookParts look) in *. set (os := look_tags look) in *.
  set (text := concat (fst <$> ps) ++ _).
  change (finish (run true text (MkFmt [] [] [])) = open_tags os ++ concat (html <$> l) ++ close_tags os). subst text.
  rewrite (run_opens true ps os Hp). cbn [app].
  rewrite (run_marks l (type_ <$> os)).
  - rewrite (run_closes true (reverse ps) (reverse os)).
    + unfold finish. rewrite foldl_html; [cbn [out stack flush buf]; by rewrite <-!(assoc_L (++)) | | | done | done].
      * apply (Forall_impl _ _ _ (forallb_Forall _ _ Hc)). intros d Hd. by eexists.
      * apply Forall_forall. intros d _. apply apply_html.
    + by apply Forall2_reverse.
    + rewrite reverse_involutive. apply foldl_stack. apply Forall_forall. intros d _. apply apply_doc_stack.
  - by apply forallb_Forall.
  - intros t. unfold is_open. cbn [stack]. rewrite existsb_exists. intros (o & Ho & <-%bool_decide_eq_true_1).
    apply list_elem_of_fmap_2. by apply list_elem_of_In.
Qed.

(** ** Names put into a text *)

(** A name put in for [%n] is text: no character of it is read as a marker, and none as another
    token, whatever follows. *)
Theorem substituted_name_is_text images name d t st :
  run images (substituteSpecials ("%"%char :: "n"%char :: t) (Some name) d) st =
  run images (substituteSpecials t (Some name) d) (add_text name st).
Proof.
  unfold substituteSpecials at 1. cbn [replace_specials default].
  unfold special at 1. rewrite decide_True by done. cbv beta iota.
  apply run_backslash. intros c. unfold is_marker, is_name_marker. rewrite !bool_decide_eq_true.
  change (chars_of "\*_[%") with (chars_of "\*_[" ++ ["%"%char]). rewrite elem_of_app. by left.
Qed.

(** ** Appearance *)

Definition token_ok (kv : string * string) : Prop := isValidTokenValue kv.1 kv.2 = true.

(** What [JSON.parse] gives for a saved appearance. *)
Definition look_json (look : MessageLook) : json :=
  let field (k : string) (v : option chars) :=
    match v with Some s => [(k, JStr (String.string_of_list_ascii s))] | None => [] end in
  JObj (field "font" look.(font) ++ field "color" look.(color) ++ field "size" look.(RichText.size) ++ field "hl" look.(hl)).

Definition theme_name (t : ThemeId) : string :=
  match t with
  | theme_default => "default" | theme_winamp => "winamp" | theme_win98 => "win98"
  | theme_h4x0r => "h4x0r" | theme_aim => "aim"
  end.

Definition appearance_json (a : Appearance) : json :=
  JObj ([("theme", JStr (theme_name a.(theme))); ("tokens", JObj (prod_map id JStr <$> a.(tokens)))] ++
        match a.(messageLook) with Some look => [("messageLook", look_json look)] | None => [] end).

Lemma Forall_set {K V} `{EqDecision K} (P : K * V -> Prop) k v m : Forall P m -> P (k, v) -> Forall P (JsMap.set k v m).
Proof. intros Hm Hv. induction Hm as [|[k' v'] m Hx Hm IH]; simpl; [by constructor|]. case_decide; by constructor. Qed.

Lemma keep_token_ok fields : forall acc,
  Forall token_ok acc /\ NoDup acc.*1 ->
  Forall token_ok (foldl keep_token acc fields) /\ NoDup (foldl keep_token acc fields).*1.
Proof.
  induction fields as [|[k v] fields IH]; intros acc Ha; [done|]. cbn [foldl]. apply IH.
  unfold keep_token. cbn [fst snd]. destruct v; try done. destruct (isValidTokenValue k s) eqn:E; [|done].
  destruct Ha. split; [by apply Forall_set | by apply JsMap.NoDup_set].
Qed.

(** Valid tokens under their own names are kept as they are. *)
Lemma keep_token_id l : forall acc,
  Forall token_ok l -> NoDup (acc ++ l).*1 -> foldl keep_token acc (prod_map id JStr <$> l) = acc ++ l.
Proof.
  induction l as [|[k v] l IH]; intros acc Hok Hn; [by rewrite app_nil_r|].
  apply Forall_cons in Hok as [Hkv Hok]. cbn [fmap list_fmap foldl prod_map fst snd id].
  change (isValidTokenValue k v = true) in Hkv.
  change (keep_token acc _) with (if isValidTokenValue k v then JsMap.set k v acc else acc). rewrite Hkv.
  assert (k ∉ acc.*1) as Hk.
  { rewrite fmap_app in Hn. apply NoDup_app in Hn as (_ & Hn & _). intros Hin. apply (Hn _ Hin). left. }
  rewrite JsMap.set_fresh by done. rewrite (IH (acc ++ [(k, v)])); [|done|]; by rewrite <-(assoc_L (++)).
Qed.

Lemma allowed_idemp keys v : allowed keys (allowed keys v) = allowed keys v.
Proof. destruct v as [k|]; [|done]. simpl. destruct (has keys k) eqn:E; [|done]. simpl. by rewrite E. Qed.

Lemma look_json_fields look :
  string_prop (look_json look) "font" = look.(font) /\ string_prop (look_json look) "color" = look.(color) /\
  string_prop (look_json look) "size" = look.(RichText.size) /\ string_prop (look_json look) "hl" = look.(hl).
Proof.
  destruct look as [[f|] [c|] [z|] [h|]]; unfold string_prop, look_json; cbn [font color RichText.size hl prop app JsMap.lookup];
    repeat (case_decide; [try discriminate | try congruence]);
    unfold chars_of; rewrite ?String.list_ascii_of_string_of_list_ascii; done.
Qed.

Lemma sanitizeMessageLook_idemp raw look :
  sanitizeMessageLook raw = Some look -> sanitizeMessageLook (Some (look_json look)) = Some look.
Proof.
  destruct raw as [o|]; [|done]. cbn [sanitizeMessageLook]. destruct (is_object o); [|done].
  destruct (look_json_fields look) as (-> & -> & -> & ->).
  change (is_object (look_json look)) with true. cbv iota zeta.
  pose proof (allowed_idemp FONT_KEYS (string_prop o "font")) as H1.
  pose proof (allowed_idemp TEXT_KEYS (string_prop o "color")) as H2.
  pose proof (allowed_idemp SIZE_KEYS (string_prop o "size")) as H3.
  pose proof (allowed_idemp HL_KEYS (string_prop o "hl")) as H4.
  revert H1 H2 H3 H4. generalize (allowed FONT_KEYS (string_prop o "font")) (allowed TEXT_KEYS (string_prop o "color"))
    (allowed SIZE_KEYS (string_prop o "size")) (allowed HL_KEYS (string_prop o "hl")).
  intros f c z h H1 H2 H3 H4 E.
  assert (look = MkLook f c z h) as -> by (destruct f, c, z, h; by simplify_eq).
  cbn [font color RichText.size hl]. rewrite H1, H2, H3, H4. exact E.
Qed.

(** A theme pack sets only the listed variables, each once and to a value of its allowlist, and
    what is kept of it is kept again: saving and loading an appearance gives the same one. *)
Theorem sanitizeAppearance_stable raw :
  Forall token_ok (sanitizeAppearance raw).(tokens) /\ NoDup (sanitizeAppearance raw).(tokens).*1 /\
  sanitizeAppearance (appearance_json (sanitizeAppearance raw)) = sanitizeAppearance raw.
Proof.
  assert (Forall token_ok (sanitizeAppearance raw).(tokens) /\ NoDup (sanitizeAppearance raw).(tokens).*1) as [Hok Hn].
  { apply keep_token_ok. split; [constructor | apply NoDup_nil_2]. }
  split; [done|]. split; [done|]. revert Hok Hn.
  set (a := sanitizeAppearance raw). intros Hok Hn.
  assert (match a.(messageLook) with Some look => sanitizeMessageLook (Some (look_json look)) | None => None end
          = a.(messageLook)) as Hl.
  { subst a. cbn [sanitizeAppearance messageLook]. destruct (sanitizeMessageLook _) eqn:E; [|done].
    by apply sanitizeMessageLook_idemp in E. }
  unfold sanitizeAppearance at 1. unfold appearance_json. cbn [prop].
  cbn [app JsMap.lookup]. repeat (case_decide; [try discriminate | try congruence]).
  cbn [id]. rewrite (keep_token_id _ []) by done.
  destruct a as [t tks l]. cbn [theme tokens messageLook] in *. f_equal; [by destruct t|].
  destruct l; done.
Qed.

(** ** A value of CSS that does nothing *)

Definition quote : Ascii.ascii := Ascii.ascii_of_nat 34.
Definition is_letter (c : Ascii.ascii) : bool :=
  ((65 <=? code c) && (code c <=? 90)) || ((97 <=? code c) && (code c <=? 122)).

(** It holds no character that ends a declaration, opens a block, an escape, a comment, an at-rule or a
    priority; its quotes are paired; and it calls no function, [url()] and [var()] included, but [rgb] and
    [rgba], once, as the whole of the value, on arguments without letters, quotes or further brackets. *)
Record css_inert (v : chars) : Prop := {
  inert_marks : Forall (fun c => c ∉ chars_of ";{}:<>\@!*'`") v;
  inert_quotes : Nat.even (length (List.filter (Ascii.eqb quote) v)) = true;
  inert_calls p r : v = p ++ "("%char :: r ->
    (p = chars_of "rgb" \/ p = chars_of "rgba") /\
    exists args, r = args ++ [")"%char] /\
      Forall (fun c => is_letter c = false /\ c <> quote /\ c <> "("%char /\ c <> ")"%char) args
}.

(** A class of characters that has none of those of the list, by evaluation on all characters. *)
Lemma class_avoids (p : Ascii.ascii -> bool) l v :
  forallb (fun c => negb (p c)) l = true -> forallb p v = true -> Forall (fun c => c ∉ l) v.
Proof.
  intros Hp Hv. apply Forall_forall. intros c Hc Hin. rewrite forallb_forall in Hp, Hv.
  specialize (Hv c ltac:(by apply list_elem_of_In)). specialize (Hp c ltac:(by apply list_elem_of_In)).
  by rewrite Hv in Hp.
Qed.

(** Without brackets there is no call. *)
Definition css_plainb (v : chars) : bool :=
  forallb (fun c => negb (bool_decide (c ∈ chars_of ";{}:<>\@!*'`("))) v &&
  Nat.even (length (List.filter (Ascii.eqb quote) v)).
Lemma css_plain v : css_plainb v = true -> css_inert v.
Proof.
  intros [H%forallb_Forall Hq]%andb_true_iff. split; [|done|].
  - apply (Forall_impl _ _ _ H). intros c Hc%negb_true_iff%bool_decide_eq_false_1 Hin. apply Hc. by set_solver.
  - intros p r ->. rewrite Forall_app, Forall_cons in H. destruct H as (_ & H & _). by vm_compute in H.
Qed.

Lemma no_quotes v : Forall (fun c => c <> quote) v -> List.filter (Ascii.eqb quote) v = [].
Proof.
  induction 1 as [|c v Hc _ IH]; [done|]. cbn [List.filter]. destruct (Ascii.eqb_spec quote c); [by subst|done].
Qed.

Lemma hash_color_inert v : is_hash_color v = true -> css_inert v.
Proof.
  destruct v as [|c v]; [done|]. intros H.
  destruct (decide (c = "#"%char)) as [->|Hc]; [|by destruct c as [[] [] [] [] [] [] [] []]].
  apply andb_true_iff in H as [[H _]%andb_true_iff _]. apply css_plain. apply andb_true_iff.
  pose proof (class_avoids is_hex (chars_of ";{}:<>\@!*'`(") v ltac:(by vm_compute) H) as Hm.
  pose proof (class_avoids is_hex [quote] v ltac:(by vm_compute) H) as Hq. split.
  - cbn [forallb]. apply andb_true_iff. split; [by vm_compute|]. apply forallb_forall. intros c Hc%list_elem_of_In.
    rewrite Forall_forall in Hm. apply negb_true_iff, bool_decide_eq_false_2. by apply Hm.
  - cbn [List.filter]. rewrite no_quotes; [by vm_compute|]. eapply Forall_impl; [exact Hq|]. intros c Hc ->. apply Hc. left.
Qed.

(** What [plain_blanks] changes is white space, of one to three bytes. *)
Definition blank_byte (c : Ascii.ascii) : bool := is_space c || (128 <=? code c).
Lemma wide_bytes a b c :
  (wide_blank2 a b = true -> blank_byte a = true /\ blank_byte b = true) /\
  (wide_blank3 a b c = true -> blank_byte a = true /\ blank_byte b = true /\ blank_byte c = true).
Proof.
  assert (Hb : forall x, blank_byte x = false -> char_code x < 128).
  { unfold blank_byte, char_code, code. intros x [_ H%Z.leb_gt]%orb_false_iff. lia. }
  split; intros H; repeat split;
    match goal with |- blank_byte ?x = true => destruct (blank_byte x) eqn:E; [done|]; apply Hb in E end;
    first [rewrite ascii_not_wide2 in H by auto | rewrite ascii_not_wide3 in H by auto]; done.
Qed.
Lemma plain_ind (P : chars -> Prop) :
  P [] ->
  (forall a l, is_space a = false -> plain_blanks (a :: l) = a :: plain_blanks l -> P l -> P (a :: l)) ->
  (forall pre l, forallb blank_byte pre = true -> plain_blanks (pre ++ l) = " "%char :: plain_blanks l -> P l -> P (pre ++ l)) ->
  forall l, P l.
Proof.
  intros H0 H1 H2 l. induction l as [l IH] using (induction_ltof1 _ (@length _)). unfold ltof in IH.
  destruct l as [|a l1]; [done|]. destruct (is_space a) eqn:Ea.
  { apply (H2 [a] l1); [cbn; unfold blank_byte; by rewrite Ea | cbn; by rewrite Ea | apply IH; cbn; lia]. }
  pose proof (fun E => H1 a l1 Ea E (IH l1 ltac:(cbn; lia))) as Hstep.
  destruct l1 as [|b l2]; [apply Hstep; cbn; by rewrite Ea|]. destruct (wide_blank2 a b) eqn:Eb.
  { destruct (wide_bytes a b a) as [[Ha Hb]%(fun f => f Eb) _].
    apply (H2 [a; b] l2); [cbn; by rewrite Ha, Hb | cbn; by rewrite Ea, Eb | apply IH; cbn; lia]. }
  destruct l2 as [|c l3]; [apply Hstep; cbn [plain_blanks]; by rewrite Ea, Eb|].
  destruct (wide_blank3 a b c) eqn:Ec; [|apply Hstep; cbn [plain_blanks]; by rewrite Ea, Eb, Ec].
  destruct (wide_bytes a b c) as [_ (Ha & Hb & Hc)%(fun f => f Ec)].
  apply (H2 [a; b; c] l3); [cbn; by rewrite Ha, Hb, Hc | cbn; by rewrite Ea, Eb, Ec | apply IH; cbn; lia].
Qed.
Lemma plain_blanks_nil l : plain_blanks l = [] -> l = [].
Proof. induction l as [|a l Ha Ep _|pre l Hpre Ep _] using plain_ind; [done|..]; by rewrite Ep. Qed.
Lemma plain_blanks_end c r : is_space c = false -> forall x,
  plain_blanks r = x ++ [c] -> exists y, r = y ++ [c] /\ forall d, d ∈ y -> d ∈ x \/ blank_byte d = true.
Proof.
  intros Hc. induction r as [|a l Ha Ep IH|pre l Hpre Ep IH] using plain_ind; intros x E; rewrite ?Ep in E.
  - by destruct x.
  - destruct x as [|a' x]; injection E as -> E.
    + exists []. rewrite (plain_blanks_nil l) by done. split; [done | by intros d ?%not_elem_of_nil].
    + destruct (IH x E) as (y & -> & Hy). exists (a' :: y). split; [done|]. set_solver.
  - destruct x as [|a' x]; injection E as E1 E; [by subst c|]. destruct (IH x E) as (y & -> & Hy). exists (pre ++ y).
    split; [by rewrite app_assoc|]. intros d [Hd|Hd]%elem_of_app; [|destruct (Hy d Hd); [left; by right | by right]].
    right. rewrite forallb_forall in Hpre. apply Hpre. by apply list_elem_of_In.
Qed.

Lemma letter_not_blank c : is_letter c = true -> blank_byte c = false.
Proof. by destruct c as [[] [] [] [] [] [] [] []]. Qed.
Lemma letter_not_rgb c : is_letter c = true -> is_rgb_char c = false.
Proof. by destruct c as [[] [] [] [] [] [] [] []]. Qed.
Lemma app_inj_first {A} (x : A) l1 r1 l2 r2 :
  x ∉ l1 -> x ∉ r1 -> l1 ++ x :: r1 = l2 ++ x :: r2 -> l2 = l1 /\ r2 = r1.
Proof.
  revert l2. induction l1 as [|a l1 IH]; intros [|b l2] H1 H2 E; cbn in E.
  - by injection E as ->.
  - exfalso. injection E as -> ->. apply H2, elem_of_app. right. left.
  - exfalso. injection E as -> _. apply H1. left.
  - injection E as -> E. by destruct (IH l2) as [-> ->]; [set_solver|..].
Qed.
Lemma rgb_names p : p ∈ ["rgb("; "rgba("] ->
  Forall (fun c => c ∉ chars_of ";{}:<>\@!*'`") (chars_of p) /\ Forall (fun c => c <> quote) (chars_of p) /\
  exists f, chars_of p = f ++ ["("%char] /\ "("%char ∉ f /\ (f = chars_of "rgb" \/ f = chars_of "rgba").
Proof.
  intros [->|[->|Hp]%elem_of_cons]%elem_of_cons; [| |by apply not_elem_of_nil in Hp];
    (split; [apply (bool_decide_unpack _); by vm_compute|]); (split; [apply (bool_decide_unpack _); by vm_compute|]).
  - exists (chars_of "rgb"). split; [done|]. split; [apply (bool_decide_unpack _); by vm_compute | by left].
  - exists (chars_of "rgba"). split; [done|]. split; [apply (bool_decide_unpack _); by vm_compute | by right].
Qed.
Lemma rgb_color_inert v : is_rgb_color v = true -> css_inert v.
Proof.
  unfold is_rgb_color. destruct (first_prefix _ v) as [r|] eqn:E; [|done].
  apply first_prefix_Some in E as (p & Hp & ->). pose proof (span_split is_rgb_char (plain_blanks r)) as Hr.
  pose proof (span_all is_rgb_char (plain_blanks r)) as Hall. destruct (span is_rgb_char (plain_blanks r)) as [b e].
  cbn [fst snd] in *. destruct b as [|a b], e as [|x [|]]; try done. intros ->%bool_decide_eq_true_1.
  apply plain_blanks_end in Hr as (args & -> & Hargs); [|done].
  (* no argument is one of the characters the classes have not *)
  assert (Hav : forall l, forallb (fun c => negb (is_rgb_char c) && negb (blank_byte c)) l = true -> Forall (fun c => c ∉ l) args).
  { intros l Hl. apply Forall_forall. intros c Hin Hc. rewrite forallb_forall in Hl.
    specialize (Hl c ltac:(by apply list_elem_of_In)). apply andb_true_iff in Hl as [H1%negb_true_iff H2%negb_true_iff].
    destruct (Hargs c Hin) as [Hx|Hx]; [|congruence]. rewrite forallb_forall in Hall.
    rewrite (Hall c) in H1; [done | by apply list_elem_of_In]. }
  assert (Hq : Forall (fun c => c <> quote) (chars_of p ++ args ++ [")"%char])).
  { rewrite !Forall_app. split; [|split; [|repeat constructor; done]].
    - by apply rgb_names.
    - eapply Forall_impl; [exact (Hav [quote] ltac:(by vm_compute))|]. intros c Hc ->. apply Hc. left. }
  split.
  - rewrite !Forall_app. split; [|split].
    + by apply rgb_names.
    + apply Hav. by vm_compute.
    + apply (bool_decide_unpack _). reflexivity.
  - by rewrite no_quotes.
  - intros q t Eq. assert (Hop : "("%char ∉ args ++ [")"%char]).
    { intros [H|H%list_elem_of_singleton]%elem_of_app; [|done]. pose proof (Hav ["("%char] ltac:(by vm_compute)) as Hf.
      rewrite Forall_forall in Hf. apply (Hf _ H). left. }
    destruct (rgb_names p Hp) as (_ & _ & f & Ef & Hf & Hname).
    rewrite Ef, <-app_assoc in Eq. cbn [app] in Eq.
    apply app_inj_first in Eq as [-> ->]; [|done|done]. split; [done|]. exists args. split; [done|].
    rewrite !Forall_and. repeat split.
    + apply Forall_forall. intros c Hin. destruct (is_letter c) eqn:El; [|done]. exfalso.
      destruct (Hargs c Hin) as [Hx|Hx]; [|by apply letter_not_blank in El; congruence].
      rewrite forallb_forall in Hall. apply letter_not_rgb in El. rewrite (Hall c) in El; [done | by apply list_elem_of_In].
    + rewrite !Forall_app in Hq. apply Hq.
    + eapply Forall_impl; [exact (Hav ["("%char] ltac:(by vm_compute))|]. intros c Hc ->. apply Hc. left.
    + eapply Forall_impl; [exact (Hav [")"%char] ltac:(by vm_compute))|]. intros c Hc ->. apply Hc. left.
Qed.

(** C34. No value a theme pack sets can do anything but name a colour, a size or a typeface.  Whatever
    value passes for whatever token, it holds no character that ends its declaration, opens a block, an
    escape, a comment, an at-rule or a priority, its quotes are paired, and it calls no function, so that it
    fetches nothing, but [rgb] or [rgba] as a whole, on arguments without letters, quotes or brackets. *)
Theorem token_value_inert token value :
  isValidTokenValue token value = true -> css_inert (chars_of value).
Proof.
  unfold isValidTokenValue. destruct (negb _); [done|]. case_bool_decide.
  { intros Hv. apply (css_plain _ (palette_check APPEARANCE_FONT_STACKS css_plainb _ ltac:(vm_compute; reflexivity) Hv)). }
  case_bool_decide.
  { intros Hv%bool_decide_eq_true_1. revert value Hv. apply Forall_forall.
    by repeat (constructor; [apply css_plain; vm_compute; reflexivity|]). }
  intros [Hh|Hr]%orb_true_iff; [by apply hash_color_inert | by apply rgb_color_inert].
Qed.

(** What it excludes. *)
Example url_is_not_inert : ~ css_inert (chars_of "url(//evil.example/x.png)").
Proof. intros H. by destruct (inert_calls _ H (chars_of "url") (chars_of "//evil.example/x.png)") eq_refl) as [[?|?] _]. Qed.

(** ** Concrete inputs *)

Definition greeting : list doc :=
  [Txt (chars_of "hi "); Styled Bold [Txt (chars_of "a*b"); Styled (Color (chars_of "rd")) [Txt (chars_of "[u]")]]].

Lemma editor_roundtrip_witness :
  forallb (canonical []) greeting = true /\ no_adjacent_text greeting = true /\
  formatMessageText true (serializeRichText (to_node <$> greeting)) = concat (html <$> greeting).
Proof.
  split; [vm_compute; reflexivity|]. split; [vm_compute; reflexivity|].
  apply editor_roundtrip; vm_compute; reflexivity.
Defined.

(** A value with a no-break space among its blanks. *)
Definition nbsp : string := String.string_of_list_ascii [Ascii.ascii_of_nat 194; Ascii.ascii_of_nat 160].
Lemma token_value_inert_witness :
  isValidTokenValue "--dd-ink" ("rgba(1," +:+ nbsp +:+ "2, 3, .5)") = true /\
  css_inert (chars_of ("rgba(1," +:+ nbsp +:+ "2, 3, .5)")).
Proof.
  split; [vm_compute; reflexivity|]. apply (token_value_inert "--dd-ink"). vm_compute; reflexivity.
Defined.

End RichTextFacts.
