(* ===== verification/Html.v ===== *)
(** * A scanner of markup

    The screens of app.ts are strings that the code gives to [innerHTML].  [feed] reads such a string the
    way a browser starts to: text, tags, attribute names, quoted values, with the elements that are still
    open.  It stops ([Bad]) at an element or an attribute that no screen uses, at a handler, a style or a
    script, at a link elsewhere than a constant https address, at a closing tag that closes something else,
    and at an angle bracket that is neither the start nor the end of a tag.

    [Frag t] says that [t] read as text leaves the elements that are open as they were; the views are
    proved against it, whatever the texts in them are. *)

From stdpp Require Import pretty.
From S2P Require Import Prelude PairingWire RichText Pictures RichTextFacts Qr.

Module Html.
Import RichText Pictures RichTextFacts.

(** [escapeHtml(s)], of a string of the model. *)
Definition esc (s : string) : chars := escapeHtml (chars_of s).

(** ** What screens may contain *)

Definition elements : list string :=
  ["div"; "span"; "p"; "a"; "button"; "form"; "input"; "label"; "textarea"; "select"; "option"; "code";
   "table"; "thead"; "tbody"; "tr"; "th"; "td"; "video"; "canvas"; "img"; "strong"; "em"; "u"; "font";
   "svg"; "path"; "rect"].
Definition attributes : list string :=
  ["class"; "id"; "type"; "title"; "placeholder"; "value"; "for"; "hidden"; "disabled"; "checked"; "selected";
   "readonly"; "rows"; "accept"; "autocomplete"; "autocapitalize"; "spellcheck"; "contenteditable"; "role";
   "inert"; "autoplay"; "playsinline"; "muted"; "scope"; "href"; "target"; "rel"; "src"; "alt"; "decoding";
   "color"; "size"; "viewBox"; "width"; "height"; "d"; "fill"; "fill-rule"; "shape-rendering"; "xmlns"].
Definition is_in (l : list string) (s : string) : bool := existsb (String.eqb s) l.
Definition element_ok (s : string) : bool := is_in elements s.
Definition attribute_ok (s : string) : bool :=
  is_in attributes s || String.prefix "data-" s || String.prefix "aria-" s.
(** Elements without content, and those that may close themselves. *)
Definition is_void (s : string) : bool := is_in ["input"; "img"] s.
Definition closes_itself (s : string) : bool := is_in ["input"; "img"; "path"; "rect"] s.
Definition LINK_PREFIX : string := "https://".

(** ** The scanner *)

Inductive place :=
  | Data                                    (* text *)
  | Open                                    (* after < *)
  | Name (tag : string)
  | EndName (tag : string)
  | Before (tag : string)                   (* a space was read: an attribute, or the end of the tag *)
  | Attr (tag attr : string)
  | Equals (tag attr : string)
  | Quoted (q : Ascii.ascii) (tag : string)
  | Link (q : Ascii.ascii) (tag rest : string) (* the rest of the prefix a link must start with *)
  | After (tag : string)                    (* after the closing quote *)
  | Slash (tag : string)
  | Bad.

Record page := MkPage { still_open : list string; place_of : place }.

Definition letter (c : Ascii.ascii) : bool :=
  let n := Ascii.N_of_ascii c in
  ((97 <=? n)%N && (n <=? 122)%N) || ((65 <=? n)%N && (n <=? 90)%N).
Definition name_char (c : Ascii.ascii) : bool := letter c || Ascii.eqb c "-".
Definition is_quote (c : Ascii.ascii) : bool := Ascii.eqb c double_quote || Ascii.eqb c "'".
Definition snoc (s : string) (c : Ascii.ascii) : string := s +:+ String c "".

(** The [>] of an opening tag. *)
Definition opened (tag : string) (s : list string) : page :=
  if element_ok tag then MkPage (if is_void tag then s else tag :: s) Data else MkPage s Bad.
Definition value_of (q : Ascii.ascii) (tag attr : string) : place :=
  if String.eqb attr "href" then Link q tag LINK_PREFIX else Quoted q tag.

Definition step (p : page) (c : Ascii.ascii) : page :=
  let s := still_open p in
  let bad := MkPage s Bad in
  match place_of p with
  | Data => if Ascii.eqb c "<" then MkPage s Open else if Ascii.eqb c ">" then bad else p
  | Open => if letter c then MkPage s (Name (String c "")) else if Ascii.eqb c "/" then MkPage s (EndName "") else bad
  | Name t =>
      if letter c then MkPage s (Name (snoc t c))
      else if Ascii.eqb c " " then MkPage s (Before t)
      else if Ascii.eqb c ">" then opened t s
      else if Ascii.eqb c "/" then MkPage s (Slash t) else bad
  | EndName t =>
      if letter c then MkPage s (EndName (snoc t c))
      else if Ascii.eqb c ">" then
        match s with u :: s' => if String.eqb t u then MkPage s' Data else bad | [] => bad end
      else bad
  | Before t =>
      if letter c then MkPage s (Attr t (String c ""))
      else if Ascii.eqb c " " then p
      else if Ascii.eqb c ">" then opened t s
      else if Ascii.eqb c "/" then MkPage s (Slash t) else bad
  | Attr t a =>
      if name_char c then MkPage s (Attr t (snoc a c))
      else if negb (attribute_ok a) then bad
      else if Ascii.eqb c "=" then MkPage s (Equals t a)
      else if Ascii.eqb c " " then MkPage s (Before t)
      else if Ascii.eqb c ">" then opened t s else bad
  | Equals t a => if is_quote c then MkPage s (value_of c t a) else bad
  | Quoted q t => if Ascii.eqb c q then MkPage s (After t) else p
  | Link q t rest =>
      match rest with
      | String d rest' => if Ascii.eqb c d then MkPage s (Link q t rest') else bad
      | EmptyString => if Ascii.eqb c q then MkPage s (After t) else p
      end
  | After t =>
      if Ascii.eqb c " " then MkPage s (Before t)
      else if Ascii.eqb c ">" then opened t s
      else if Ascii.eqb c "/" then MkPage s (Slash t) else bad
  | Slash t => if Ascii.eqb c ">" && closes_itself t && element_ok t then MkPage s Data else bad
  | Bad => bad
  end.

Definition feed (p : page) (t : chars) : page := foldl step p t.

(** A page is well formed when it is read to its end and every element is closed. *)
Definition well_formed (t : chars) : Prop := feed (MkPage [] Data) t = MkPage [] Data.

Lemma feed_app p a b : feed p (a ++ b) = feed (feed p a) b.
Proof. apply foldl_app. Qed.
Lemma feed_nil p : feed p [] = p.
Proof. done. Qed.

(** Once it is lost, it stays lost: a page that ends well had no forbidden element or attribute. *)
Lemma feed_bad s t : feed (MkPage s Bad) t = MkPage s Bad.
Proof. induction t as [|c t IH]; [done|]. exact IH. Qed.

(** ** Texts *)

(** Text without angle brackets and quotes stays where it is. *)
Class Calm (t : chars) : Prop := calm : tag_free t.
Class Frag (t : chars) : Prop := frag : forall s, feed (MkPage s Data) t = MkPage s Data.
#[export] Hint Mode Calm ! : typeclass_instances.
#[export] Hint Mode Frag ! : typeclass_instances.

Lemma eqb_ne c d : c <> d -> Ascii.eqb c d = false.
Proof. apply Ascii.eqb_neq. Qed.

(** A place that text does not leave. *)
Definition keeps (a : place) : Prop :=
  match a with Data => True | Quoted q _ | Link q _ "" => is_quote q = true | _ => False end.

Lemma feed_calm s a t : keeps a -> tag_free t -> feed (MkPage s a) t = MkPage s a.
Proof.
  intros Ha. induction 1 as [|c t (H1 & H2 & H3 & H4) Ht IH]; [done|]. cbn [feed foldl].
  replace (step (MkPage s a) c) with (MkPage s a); [exact IH|]. unfold step. cbn [place_of still_open].
  assert (Hq : forall q, is_quote q = true -> Ascii.eqb c q = false).
  { intros q [->%Ascii.eqb_eq| ->%Ascii.eqb_eq]%orb_true_iff; by apply eqb_ne. }
  destruct a; try done; try (destruct rest; [|done]); cbn in Ha; rewrite ?(Hq _ Ha), ?eqb_ne by done; done.
Qed.

Definition tag_freeb (t : chars) : bool :=
  forallb (fun c => negb (Ascii.eqb c "<" || Ascii.eqb c ">" || is_quote c)) t.
Lemma tag_freeb_ok t : tag_freeb t = true -> tag_free t.
Proof.
  unfold tag_freeb, tag_free, is_quote. intros H%forallb_Forall. eapply Forall_impl; [exact H|]. intros c Hc%negb_true_iff.
  repeat setoid_rewrite orb_false_iff in Hc. destruct Hc as ((A & B) & D & E).
  by rewrite !Ascii.eqb_neq in *.
Qed.

#[export] Instance frag_calm t : Calm t -> Frag t | 10.
Proof. intros H s. by apply feed_calm. Qed.

#[export] Instance calm_nil : Calm [].
Proof. constructor. Qed.
#[export] Instance calm_escape t : Calm (escapeHtml t).
Proof. apply escapeHtml_tag_free. Qed.
#[export] Instance calm_esc s : Calm (esc s).
Proof. apply escapeHtml_tag_free. Qed.
#[export] Instance calm_app a b : Calm a -> Calm b -> Calm (a ++ b).
Proof. intros Ha Hb. by apply Forall_app. Qed.
#[export] Instance calm_if (b : bool) x y : Calm x -> Calm y -> Calm (if b then x else y).
Proof. by destruct b. Qed.
#[export] Instance calm_if_string (b : bool) x y : Calm (chars_of x) -> Calm (chars_of y) -> Calm (chars_of (if b then x else y)).
Proof. by destruct b. Qed.
#[export] Instance calm_option {A} (o : option A) (f : A -> chars) y :
  (forall a, Calm (f a)) -> Calm y -> Calm (match o with Some a => f a | None => y end).
Proof. by destruct o. Qed.

Lemma frag_app a b : Frag a -> Frag b -> Frag (a ++ b).
Proof. intros Ha Hb s. by rewrite feed_app, Ha, Hb. Qed.
#[export] Instance frag_if (b : bool) x y : Frag x -> Frag y -> Frag (if b then x else y).
Proof. by destruct b. Qed.
#[export] Instance frag_option {A} (o : option A) (f : A -> chars) y :
  (forall a, Frag (f a)) -> Frag y -> Frag (match o with Some a => f a | None => y end).
Proof. by destruct o. Qed.
#[export] Instance frag_bind {A} (l : list A) (f : A -> chars) : (forall x, x ∈ l -> Frag (f x)) -> Frag (l ≫= f).
Proof.
  induction l as [|x l IH]; intros H; [intros s; done|]. csimpl.
  apply frag_app; [apply H; left|]. apply IH. intros y Hy. apply H. by right.
Qed.

#[export] Instance frag_imap {A} (l : list A) (f : nat -> A -> chars) :
  (forall i x, Frag (f i x)) -> Frag (concat (imap f l)).
Proof.
  revert f. induction l as [|x l IH]; intros f H; [intros s; done|]. cbn [imap concat].
  apply frag_app; [done|]. apply IH. intros i y. apply H.
Qed.

(** ** Numbers *)

Lemma pretty_N_char_calm n : tag_freeb [pretty_N_char n] = true.
Proof. unfold pretty_N_char. by repeat (case_match; try done). Qed.

Lemma pretty_N_go_calm n : forall r, tag_freeb (chars_of r) = true -> tag_freeb (chars_of (pretty_N_go n r)) = true.
Proof.
  induction n as [n IH] using (well_founded_induction N.lt_wf_0). intros r Hr.
  destruct (decide (n = 0)%N) as [->|Hn]; [done|]. rewrite pretty_N_go_step by lia. apply IH.
  - apply N.div_lt; lia.
  - cbn. pose proof (pretty_N_char_calm (n `mod` 10)) as Hc. cbn in Hc.
    rewrite andb_true_r in Hc. by rewrite Hc.
Qed.

Lemma pretty_N_calm (n : N) : Calm (chars_of (pretty n)).
Proof. apply tag_freeb_ok. unfold pretty, pretty_N. case_decide; [done|]. by apply pretty_N_go_calm. Qed.
#[export] Instance pretty_nat_calm (n : nat) : Calm (chars_of (pretty n)).
Proof. apply pretty_N_calm. Qed.
#[export] Instance Z_chars_calm (n : Z) : Calm (Z_chars n).
Proof.
  unfold Z_chars, pretty, pretty_Z. destruct n; [by apply tag_freeb_ok|apply pretty_N_calm|].
  apply (calm_app (chars_of "-")); [by apply tag_freeb_ok|apply pretty_N_calm].
Qed.

(** ** Formatted messages *)

(** A class of characters without the five that mean something. *)
Lemma class_calm (p : Ascii.ascii -> bool) t :
  p "<"%char = false -> p ">"%char = false -> p double_quote = false -> p "'"%char = false ->
  forallb p t = true -> tag_free t.
Proof.
  intros H1 H2 H3 H4 H%forallb_Forall. eapply Forall_impl; [exact H|]. intros c Hc. split_and!; congruence.
Qed.
Lemma palette_calm (keys : list chars) k : forallb tag_freeb keys = true -> k ∈ keys -> tag_free k.
Proof. intros H%forallb_Forall Hk. apply tag_freeb_ok. by eapply Forall_forall in H. Qed.

Lemma safe_picture_calm url : safe_picture url -> tag_free url.
Proof. intros H. apply (safe_picture_chars _ _ H); by apply tag_freeb_ok. Qed.

(** The element of a formatting tag, from its closing tag. *)
Definition element_of_tag (o : RTOpen) : string :=
  String.string_of_list_ascii (take (length (closeTag o) - 3) (drop 2 (closeTag o))).

Lemma palette_tag_feed o s : palette_tag o ->
  feed (MkPage s Data) (openTag o) = MkPage (element_of_tag o :: s) Data /\
  feed (MkPage (element_of_tag o :: s) Data) (closeTag o) = MkPage s Data.
Proof.
  assert (Hattr : forall (pre k : chars) u, feed (MkPage s Data) pre = MkPage s (Quoted double_quote u) ->
    feed (MkPage s (After u)) (chars_of ">") = MkPage (u :: s) Data -> tag_free k ->
    feed (MkPage s Data) (pre ++ k ++ dq "`>") = MkPage (u :: s) Data).
  { intros pre k u E E' Hk. rewrite !feed_app, E, feed_calm by done. exact E'. }
  destruct 1; cbn [openTag closeTag tag_c tag_hex tag_h tag_z tag_f]; split;
    lazymatch goal with
    | |- feed _ (_ ++ _) = _ => eapply Hattr; [vm_compute; reflexivity..|]
    | _ => vm_compute; reflexivity
    end.
  - by eapply (palette_calm TEXT_KEYS).
  - apply andb_true_iff in H as [H _]. by apply (class_calm is_hex).
  - by eapply (palette_calm HL_KEYS).
  - eapply (palette_calm ((fun c => [c]) <$> _)); [|apply (list_elem_of_fmap_2 (fun c => [c])), H]. done.
  - by eapply (palette_calm FONT_KEYS).
Qed.

Lemma markup_feed images l t : markup images l t ->
  Forall palette_tag l /\ forall s, feed (MkPage s Data) t = MkPage (rev (element_of_tag <$> l) ++ s) Data.
Proof.
  induction 1 as [|l t u _ [Hl IH] Hu|l t o _ [Hl IH] Ho|l t o _ [Hl IH]|l t url _ _ [Hl IH] Hurl|l t _ _ [Hl IH]].
  - by split; [constructor|].
  - split; [done|]. intros s. by rewrite feed_app, IH, feed_calm.
  - split; [by apply Forall_app; split; [|constructor]|]. intros s. rewrite feed_app, IH.
    rewrite (proj1 (palette_tag_feed o _ Ho)), fmap_app, rev_app_distr. done.
  - apply Forall_app in Hl as [Hl [Ho _]%Forall_cons]. split; [done|]. intros s.
    rewrite feed_app, IH, fmap_app, rev_app_distr. apply palette_tag_feed, Ho.
  - split; [done|]. intros s. rewrite feed_app, IH. unfold img_tag. rewrite !feed_app.
    set (s' := rev _ ++ s). replace (feed (MkPage s' Data) (dq "<img class=`dd-img` src=`")) with
      (MkPage s' (Quoted double_quote "img")) by (vm_compute; reflexivity).
    rewrite feed_calm by (done || by apply safe_picture_calm). vm_compute. reflexivity.
  - split; [done|]. intros s. rewrite feed_app, IH. set (s' := rev _ ++ s). vm_compute. reflexivity.
Qed.

#[export] Instance frag_formatMessageText images text : Frag (formatMessageText images text).
Proof.
  intros s. assert (Hm : markup images [] (formatMessageText images text)).
  { apply finish_ok, format_loop_ok. by repeat constructor. }
  by apply markup_feed in Hm as [_ ->].
Qed.

End Html.

(** ** Automation *)

Import Html.

(** The search for an instance compares views as they are written. *)
#[export] Hint Opaque app RichText.dq RichText.chars_of RichText.escapeHtml esc RichText.formatMessageText
  RichText.Z_chars pretty concat : typeclass_instances.

(** A literal is read by computation. *)
Ltac literal t :=
  lazymatch t with
  | RichText.dq (String _ _) => idtac
  | RichText.chars_of (String _ _) => idtac
  | RichText.chars_of EmptyString => idtac
  end.
#[export] Hint Extern 1 (Calm ?t) => literal t; apply tag_freeb_ok; vm_compute; reflexivity : typeclass_instances.
#[export] Hint Extern 1 (Frag ?t) => literal t; intro; vm_compute; reflexivity : typeclass_instances.
(** So is a constant of the views. *)
#[export] Hint Extern 5 (Calm ?t) => is_const t; apply tag_freeb_ok; vm_compute; reflexivity : typeclass_instances.
#[export] Hint Extern 5 (Frag ?t) => is_const t; intro; vm_compute; reflexivity : typeclass_instances.

Lemma feed_step p q a b r : feed p a = q -> feed q b = r -> feed p (a ++ b) = r.
Proof. intros <- <-. apply feed_app. Qed.
Lemma feed_assoc p a b c r : feed p (a ++ b ++ c) = r -> feed p ((a ++ b) ++ c) = r.
Proof. by rewrite app_assoc. Qed.
Lemma feed_last p a r : feed p (a ++ []) = r -> feed p a = r.
Proof. by rewrite app_nil_r. Qed.
Lemma feed_frag s a b r : Frag a -> feed (MkPage s Data) b = r -> feed (MkPage s Data) (a ++ b) = r.
Proof. intros H. by apply feed_step. Qed.
Lemma feed_text s pl a b r : keeps pl -> Calm a -> feed (MkPage s pl) b = r -> feed (MkPage s pl) (a ++ b) = r.
Proof. intros Hp Ha. by apply feed_step, feed_calm. Qed.

(** Reads the concatenation of a view from left to right: literals by computation, fragments and texts
    by their instances; where a part is optional, both cases. *)
Ltac read_on :=
  lazymatch goal with
  | |- feed ?p [] = _ => reflexivity
  | |- feed (MkPage ?s ?pl) (?a ++ ?b) = ?r =>
      first
        [ literal a;
          let q := eval vm_compute in (feed (MkPage s pl) a) in
          apply (feed_step (MkPage s pl) q a b r); [vm_compute; reflexivity|]; read_on
        | lazymatch pl with Data => apply (feed_frag s a b r); [typeclasses eauto|] end; read_on
        | apply (feed_text s pl a b r); [exact eq_refl|typeclasses eauto|]; read_on
        | lazymatch a with
          | [] => change (feed (MkPage s pl) b = r)
          | _ ++ _ => apply feed_assoc
          | if ?c then _ else _ => destruct c
          | match ?o with _ => _ end => destruct o
          end; read_on
        | idtac ]
  | |- feed ?p ?t = ?r => apply feed_last; read_on
  end.
Ltac markup := intros ?; read_on.
#[export] Hint Extern 1 (Frag (_ ++ _)) => solve [markup] : typeclass_instances.
