(* ===== verification/IdentityCard.v ===== *)
(** * The identity card (client/src/controller.ts, lines 42-55, 322-527, 1570-1633)

    A card is a buddy icon, a profile and the away settings, each with the time of its last change.
    It is one sealed record; edits of the user and frames of sibling devices are read-modify-writes
    of it, which [runIdentityWrite] queues.  What peers send goes into a record per conversation,
    and an away reply leaves the time of the last one.  A method is cut at its awaits.  Text is
    ASCII, as in Contacts.v: a length counts characters. *)

From S2P Require Import Prelude Json Session Auth RichText.

(** [JSON.stringify(a) === JSON.stringify(b)] compares the values, fields in order. *)
#[export] Instance json_eq_dec : EqDecision json.
Proof.
  refine (fix go (x y : json) {struct x} : Decision (x = y) :=
    match x, y with
    | JNull, JNull => left eq_refl
    | JBool a, JBool b => cast_if (decide (a = b))
    | JNum a, JNum b => cast_if (decide (a = b))
    | JStr a, JStr b => cast_if (decide (a = b))
    | JArr a, JArr b => cast_if (@list_eq_dec _ go a b)
    | JObj a, JObj b => cast_if (@list_eq_dec _ (@prod_eq_dec _ _ _ go) a b)
    | _, _ => right _
    end); congruence.
Defined.

Module IdentityCard.

Definition PROFILE_MAX_CHARS : nat := 1024.
Definition ICON_VALUE_MAX : Z := 32768.
Definition ICON_BG_MAX : Z := 32.
Definition AWAY_MAX_CHARS : nat := 560.
Definition AWAY_COOLDOWN_MS : Z := 600000.

(** ** Data *)

(** The icon is [JNull] or an object; the away settings are kept as the JSON they are. *)
Record IdentityProfile := MkProfile {
  icon : json;
  bio : string;
  away : json;
  iconVersion : option Z;
  bioVersion : option Z;
  awayVersion : option Z }.

Definition away_config (enabled : bool) (message : string) (serverSide : bool) : json :=
  JObj [("enabled", JBool enabled); ("message", JStr message); ("serverSide", JBool serverSide)].

Definition DEFAULT_IDENTITY : IdentityProfile :=
  MkProfile JNull "" (away_config false "" false) (Some (-1)) (Some (-1)) (Some (-1)).

Definition string_field (o : json) (k : string) : option string :=
  match prop o k with Some (JStr s) => Some s | _ => None end.
Definition string_len (s : string) : Z := Z.of_nat (String.length s).
(** [s.slice(0, n)] *)
Definition clamp (n : nat) (s : string) : string := String.substring 0 n s.

Definition sanitizeIcon (raw : option json) : json :=
  match raw with
  | Some o =>
      if negb (is_object o) then JNull else
      match string_field o "kind", string_field o "value", string_field o "bg" with
      | Some kind, Some value, Some bg =>
          if negb (bool_decide (kind ∈ ["emoji"; "initials"; "image"])) then JNull
          else if (ICON_VALUE_MAX <? string_len value) || (ICON_BG_MAX <? string_len bg) then JNull
          else JObj [("kind", JStr kind); ("value", JStr value); ("bg", JStr bg)]
      | _, _, _ => JNull
      end
  | None => JNull
  end.

(** ** Changes of the card *)

(** The card [setIdentity] writes over [current] at time [now]. *)
Definition edit (profile current : IdentityProfile) (now : Z) : IdentityProfile :=
  MkProfile (icon profile) (bio profile) (away profile)
    (Some (if decide (icon profile = icon current) then default 0 (iconVersion current) else now))
    (Some (if decide (bio profile = bio current) then default 0 (bioVersion current) else now))
    (Some (if decide (away profile = away current) then default 0 (awayVersion current) else now)).

(** [typeof parsed.v === 'number' ? parsed.v : 0] *)
Definition version_of (parsed : json) : Z := match prop parsed "v" with Some (JNum v) => v | _ => 0 end.

(** The card [adoptSiblingIdentity] writes over [current], or [None] when it returns without saving. *)
Definition adopt (controlType : Z) (parsed : json) (current : IdentityProfile) : option IdentityProfile :=
  let incoming := version_of parsed in
  if controlType =? Frame.CONTROL_BUDDY_ICON then
    if incoming <=? default (-1) (iconVersion current) then None
    else Some (MkProfile (sanitizeIcon (prop parsed "icon")) (bio current) (away current)
                         (Some incoming) (bioVersion current) (awayVersion current))
  else if controlType =? Frame.CONTROL_PROFILE then
    if incoming <=? default (-1) (bioVersion current) then None
    else Some (MkProfile (icon current)
                 (match string_field parsed "bio" with Some b => clamp PROFILE_MAX_CHARS b | None => "" end)
                 (away current) (iconVersion current) (Some incoming) (awayVersion current))
  else if controlType =? Frame.CONTROL_AWAY then
    match prop parsed "away" with
    | None => None
    | Some a =>
        if incoming <=? default (-1) (awayVersion current) then None
        else Some (MkProfile (icon current) (bio current) a (iconVersion current) (bioVersion current) (Some incoming))
    end
  else None.

(** The frames of the card, with the key of this device. *)
Definition buildIdentityFrames (k : string) (id : IdentityProfile) : list (Z * json) :=
  if bool_decide (k = "") then [] else
  [(Frame.CONTROL_BUDDY_ICON, JObj [("k", JStr k); ("icon", icon id); ("v", JNum (default 0 (iconVersion id)))]);
   (Frame.CONTROL_PROFILE, JObj [("k", JStr k); ("bio", JStr (bio id)); ("v", JNum (default 0 (bioVersion id)))]);
   (Frame.CONTROL_AWAY, JObj [("k", JStr k); ("away", away id); ("v", JNum (default 0 (awayVersion id)))])].

(** ** The write chain *)

Inductive op :=
  | SetIdentity (profile : IdentityProfile)
  | AdoptSibling (controlType : Z) (parsed : json).

(** What an operation saves over the card it loaded. *)
Definition next (o : op) (current : IdentityProfile) (now : Z) : option IdentityProfile :=
  match o with
  | SetIdentity p => Some (edit p current now)
  | AdoptSibling ct j => adopt ct j current
  end.

(** The head of the chain is the operation that runs; it waits for its load or for its save. *)
Inductive phase :=
  | Loading (o : op)
  | Saving (o : op) (t : Z) (card : IdentityProfile).

Inductive event := Publish | IdentityUpdated (profile : IdentityProfile).

(** [card] is the stored record, [None] before the first save. *)
Record World := MkWorld {
  card : option IdentityProfile;
  chain : list phase;
  clock : Z;
  log : list event }.

(** [getIdentity], unlocked. *)
Definition getIdentity (w : World) : IdentityProfile := default DEFAULT_IDENTITY (card w).

(** What follows the save: [setIdentity] publishes, an adoption also tells the page. *)
Definition announce (o : op) (p : IdentityProfile) : list event :=
  match o with SetIdentity _ => [Publish] | AdoptSibling _ _ => [Publish; IdentityUpdated p] end.

Inductive label :=
  | Submitted (o : op)
  | Saved (o : op) (t : Z)
  | Kept (o : op) (t : Z)
  | Rejected (o : op)
  | Passed.

Definition op_of (x : phase) : op := match x with Loading o | Saving o _ _ => o end.

(** One span between awaits.  A load or a save that rejects ends its operation ([saveIdentityCard]
    is one put: it happens or not), and the chain goes on. *)
Inductive step : World -> label -> World -> Prop :=
  | step_submit w o :
      step w (Submitted o) (MkWorld (card w) (chain w ++ [Loading o]) (clock w) (log w))
  | step_load_save w o rest p :
      chain w = Loading o :: rest -> next o (getIdentity w) (clock w) = Some p ->
      step w Passed (MkWorld (card w) (Saving o (clock w) p :: rest) (clock w) (log w))
  | step_load_keep w o rest :
      chain w = Loading o :: rest -> next o (getIdentity w) (clock w) = None ->
      step w (Kept o (clock w)) (MkWorld (card w) rest (clock w) (log w))
  | step_save w o t p rest :
      chain w = Saving o t p :: rest ->
      step w (Saved o t) (MkWorld (Some p) rest (clock w) (log w ++ announce o p))
  | step_reject w x rest :
      chain w = x :: rest ->
      step w (Rejected (op_of x)) (MkWorld (card w) rest (clock w) (log w))
  | step_tick w d : 0 <= d ->
      step w Passed (MkWorld (card w) (chain w) (clock w + d) (log w)).

Inductive steps : World -> list label -> World -> Prop :=
  | steps_nil w : steps w [] w
  | steps_snoc w tr w' l w'' : steps w tr w' -> step w' l w'' -> steps w (tr ++ [l]) w''.

(** ** What peers send *)

Record PeerCard := MkPeer { p_icon : json; p_bio : string; p_away : option string }.
(** Keys are device keys, never a name every object inherits. *)
Definition PeerMap : Type := list (string * PeerCard).

Definition shared_away (parsed : json) : string :=
  match prop parsed "away" with
  | Some a =>
      match prop a "enabled", string_field a "message" with
      | Some (JBool true), Some m => clamp AWAY_MAX_CHARS m
      | _, _ => ""
      end
  | None => ""
  end.

Definition peer_update (peerKey : string) (controlType : Z) (parsed : json) (m : PeerMap) : PeerMap :=
  let cur := default (MkPeer JNull "" None) (JsMap.lookup peerKey m) in
  JsMap.set peerKey
    (if controlType =? Frame.CONTROL_BUDDY_ICON then
       MkPeer (sanitizeIcon (prop parsed "icon")) (p_bio cur) (p_away cur)
     else if controlType =? Frame.CONTROL_AWAY then MkPeer (p_icon cur) (p_bio cur) (Some (shared_away parsed))
     else MkPeer (p_icon cur)
            (match string_field parsed "bio" with Some b => clamp PROFILE_MAX_CHARS b | None => "" end) (p_away cur))
    m.

(** [savePeerIdentity] up to its load, and with the map it is about to save.  Nothing queues these:
    the group channel starts each and goes on. *)
Inductive peer_task :=
  | PeerLoad (conversationId peerKey : string) (controlType : Z) (parsed : json)
  | PeerSave (conversationId : string) (m : PeerMap)
  | PeerDone.

(** The sealed maps, by conversation, and the tasks in flight. *)
Record Peers := MkPeers { maps : list (string * PeerMap); tasks : list peer_task; history_off : bool }.

Definition loadPeerMap (conversationId : string) (s : Peers) : PeerMap := default [] (JsMap.lookup conversationId (maps s)).

Definition savePeerIdentity (conversationId peerKey : string) (controlType : Z) (parsed : json) (s : Peers) : Peers :=
  if history_off s then s
  else MkPeers (maps s) (tasks s ++ [PeerLoad conversationId peerKey controlType parsed]) (history_off s).

Definition peer_turn (i : nat) (s : Peers) : Peers :=
  match tasks s !! i with
  | Some (PeerLoad c k ct j) =>
      MkPeers (maps s) (<[i := PeerSave c (peer_update k ct j (loadPeerMap c s))]> (tasks s)) (history_off s)
  | Some (PeerSave c m) => MkPeers (JsMap.set c m (maps s)) (<[i := PeerDone]> (tasks s)) (history_off s)
  | _ => s
  end.

Inductive peer_move := PeerFrame (c k : string) (ct : Z) (j : json) | PeerTurn (i : nat) | PeerHistory (off : bool).
Definition peer_play (s : Peers) (m : peer_move) : Peers :=
  match m with
  | PeerFrame c k ct j => savePeerIdentity c k ct j s
  | PeerTurn i => peer_turn i s
  | PeerHistory off => MkPeers (maps s) (tasks s) off
  end.

(** ** Away replies *)

Section away.
(** The calendar fields of a time on this device. *)
Context (local_time : Z -> RichText.LocalTime).

(** [awayReplyText] waits for the card, then for the last reply, then for its own write. *)
Inductive away_phase := AwLoad | AwLast (now : Z) (message : string) | AwWrite (now : Z) (message : string) | AwDone.
Record away_task := MkAwayTask { aw_conversation : string; aw_peer : string; aw_phase : away_phase }.
Record reply := MkReply { re_conversation : string; re_at : Z; re_text : RichText.chars }.

(** The durable times, those held in memory while history is off, and the replies given out. *)
Record Away := MkAway {
  aw_card : IdentityProfile;
  aw_historyOff : bool;
  awayDedupe : list (string * Z);
  awayDedupeMem : list (string * Z);
  aw_clock : Z;
  aw_tasks : list away_task;
  replies : list reply }.

Definition away_message (id : IdentityProfile) : option string :=
  match prop (away id) "enabled", string_field (away id) "message" with
  | Some (JBool true), Some m => if bool_decide (Auth.trim m = "") then None else Some m
  | _, _ => None
  end.

Definition awayDedupeAt (c : string) (s : Away) : option Z :=
  JsMap.lookup c (if aw_historyOff s then awayDedupeMem s else awayDedupe s).

Definition set_tasks (ts : list away_task) (s : Away) : Away :=
  MkAway (aw_card s) (aw_historyOff s) (awayDedupe s) (awayDedupeMem s) (aw_clock s) ts (replies s).

Definition setAwayDedupe (c : string) (t : Z) (s : Away) : Away :=
  if aw_historyOff s
  then MkAway (aw_card s) (aw_historyOff s) (awayDedupe s) (JsMap.set c t (awayDedupeMem s)) (aw_clock s) (aw_tasks s) (replies s)
  else MkAway (aw_card s) (aw_historyOff s) (JsMap.set c t (awayDedupe s)) (awayDedupeMem s) (aw_clock s) (aw_tasks s) (replies s).

Definition awayReplyText (c peerName : string) (s : Away) : Away :=
  set_tasks (aw_tasks s ++ [MkAwayTask c peerName AwLoad]) s.

Definition away_turn (i : nat) (s : Away) : Away :=
  match aw_tasks s !! i with
  | Some (MkAwayTask c name ph) =>
      let continue p := set_tasks (<[i := MkAwayTask c name p]> (aw_tasks s)) in
      match ph with
      | AwLoad =>
          match away_message (aw_card s) with
          | Some m => continue (AwLast (aw_clock s) m) s
          | None => continue AwDone s
          end
      | AwLast now m =>
          match awayDedupeAt c s with
          | Some last => if now - last <? AWAY_COOLDOWN_MS then continue AwDone s else continue (AwWrite now m) s
          | None => continue (AwWrite now m) s
          end
      | AwWrite now m =>
          let s := setAwayDedupe c now (continue AwDone s) in
          MkAway (aw_card s) (aw_historyOff s) (awayDedupe s) (awayDedupeMem s) (aw_clock s) (aw_tasks s)
            (replies s ++ [MkReply c now (RichText.substituteSpecials (RichText.chars_of m)
                                            (Some (RichText.chars_of name)) (local_time now))])
      | AwDone => s
      end
  | None => s
  end.

(** The clock moves, messages arrive, and tasks take their turns. *)
Inductive away_move := AwayMessage (c name : string) | AwayTurn (i : nat) | AwayTick (d : Z).
Definition away_play (s : Away) (m : away_move) : Away :=
  match m with
  | AwayMessage c name => awayReplyText c name s
  | AwayTurn i => away_turn i s
  | AwayTick d => MkAway (aw_card s) (aw_historyOff s) (awayDedupe s) (awayDedupeMem s) (aw_clock s + Z.max 0 d)
                    (aw_tasks s) (replies s)
  end.
Definition away_plays (ms : list away_move) (s : Away) : Away := foldl away_play s ms.
End away.

(** ** The chain is a serial order *)

(** An operation on the stored card, on its own. *)
Definition apply (o : op) (t : Z) (c : option IdentityProfile) : option IdentityProfile :=
  match next o (default DEFAULT_IDENTITY c) t with Some p => Some p | None => c end.

Definition serial (c : option IdentityProfile) (l : label) : option IdentityProfile :=
  match l with Saved o t | Kept o t => apply o t c | _ => c end.

Definition submitted_op (l : label) : option op := match l with Submitted o => Some o | _ => None end.
Definition ended_op (l : label) : option op :=
  match l with Saved o _ | Kept o _ | Rejected o => Some o | _ => None end.

(** Only the head of the chain has loaded the card, and the card is still the one it loaded. *)
Definition chain_ok (w : World) : Prop :=
  match chain w with
  | [] => True
  | x :: rest =>
      Forall (fun y => exists o, y = Loading o) rest /\
      match x with Loading _ => True | Saving o t p => next o (getIdentity w) t = Some p end
  end.

Lemma chain_ok_rest w x rest c k l :
  chain_ok w -> chain w = x :: rest -> chain_ok (MkWorld c rest k l).
Proof.
  unfold chain_ok. intros H E. rewrite E in H. destruct H as [H _]. cbn [chain].
  destruct rest as [|y rest]; [done|]. apply Forall_cons in H as [[o ->] H]. done.
Qed.

Lemma step_chain_ok w l w' : step w l w' -> chain_ok w -> chain_ok w'.
Proof.
  intros Hs. destruct Hs as [w o|w o rest p E Hn|w o rest E Hn|w o t p rest E|w x rest E|w d Hd]; intros Hok.
  - unfold chain_ok in *. cbn [chain]. destruct (chain w) as [|x rest]; [done|]. cbn. destruct Hok as [Hr Hx].
    split; [|exact Hx]. apply Forall_app. split; [done|]. constructor; [by eexists | done].
  - unfold chain_ok in *. rewrite E in Hok. cbn [chain]. destruct Hok as [Hr _]. done.
  - by eapply chain_ok_rest.
  - by eapply chain_ok_rest.
  - by eapply chain_ok_rest.
  - exact Hok.
Qed.

(** C35. The write chain loses nothing.  However loads, saves, rejections, the clock and new calls
    interleave, the stored card is what the operations that were not rejected give when they run
    one after another in the order of their calls, and every call is answered in that order. *)
Theorem identity_writes_serial w tr w' :
  steps w tr w' -> chain w = [] ->
  card w' = foldl serial (card w) tr /\
  omap submitted_op tr = omap ended_op tr ++ (op_of <$> chain w').
Proof.
  intros Hs Hidle. assert (Hok : chain_ok w) by (unfold chain_ok; by rewrite Hidle).
  enough (chain_ok w' /\ card w' = foldl serial (card w) tr /\
          omap submitted_op tr = omap ended_op tr ++ (op_of <$> chain w')) by tauto.
  induction Hs as [w|w tr w1 l w2 Hs IH Hstep]; [by rewrite Hidle|].
  destruct (IH Hidle Hok) as (Hok1 & Hc & Ho). split; [by eapply step_chain_ok|].
  rewrite foldl_app, !omap_app, Ho, <-Hc. clear IH Hc Ho Hs.
  destruct Hstep as [w1 o|w1 o rest p E Hn|w1 o rest E Hn|w1 o t p rest E|w1 x rest E|w1 d Hd];
    cbn [foldl serial card chain omap list_omap submitted_op ended_op]; rewrite ?app_nil_r;
    try rewrite E; cbn [fmap list_fmap op_of].
  - by rewrite fmap_app, (assoc_L (++)).
  - done.
  - unfold apply. unfold getIdentity in Hn. rewrite Hn. by rewrite <-(assoc_L (++)).
  - unfold chain_ok in Hok1. rewrite E in Hok1. destruct Hok1 as [_ Hn]. unfold apply, getIdentity in *.
    rewrite Hn. by rewrite <-(assoc_L (++)).
  - by rewrite <-(assoc_L (++)).
  - done.
Qed.

(** ** Devices of an account converge *)

Definition adopt_frame (c : IdentityProfile) (f : Z * json) : IdentityProfile := default c (adopt f.1 f.2 c).
Definition frame_id (f : Z * json) : Z * Z := (f.1, version_of f.2).

Lemma adopt_frame_comm c f g :
  frame_id f <> frame_id g -> adopt_frame (adopt_frame c f) g = adopt_frame (adopt_frame c g) f.
Proof.
  destruct f as [ct1 j1], g as [ct2 j2], c as [i b a iv bv av].
  unfold frame_id, adopt_frame, adopt. cbn [fst snd]. intros Hne.
  destruct (prop j1 "away"), (prop j2 "away");
  destruct (Z.eqb_spec ct1 Frame.CONTROL_BUDDY_ICON) as [->|]; try (destruct (Z.eqb_spec ct1 Frame.CONTROL_PROFILE) as [->|]);
  try (destruct (Z.eqb_spec ct1 Frame.CONTROL_AWAY) as [->|]);
  destruct (Z.eqb_spec ct2 Frame.CONTROL_BUDDY_ICON) as [->|]; try (destruct (Z.eqb_spec ct2 Frame.CONTROL_PROFILE) as [->|]);
  try (destruct (Z.eqb_spec ct2 Frame.CONTROL_AWAY) as [->|]); try done;
  repeat (match goal with |- context [?x <=? ?y] => destruct (Z.leb_spec x y); simpl in * end); try done; try lia;
  exfalso; apply Hne; f_equal; lia.
Qed.

Lemma foldl_adopt_perm fs gs : fs ≡ₚ gs -> forall c,
  NoDup (frame_id <$> fs) -> foldl adopt_frame c fs = foldl adopt_frame c gs.
Proof.
  induction 1 as [|f fs gs Hp IH|f g fs|fs gs hs Hp1 IH1 Hp2 IH2]; intros c Hn; [done| | |].
  - apply NoDup_cons in Hn as [_ Hn]. by apply IH.
  - cbn [fmap list_fmap] in Hn. apply NoDup_cons in Hn as [Hf _]. cbn [foldl]. rewrite adopt_frame_comm; [done|].
    intros E. apply Hf. rewrite E. left.
  - rewrite IH1 by done. apply IH2. by rewrite <-Hp1.
Qed.

(** The order in which the frames of sibling devices arrive does not matter: of each part the
    most recent change wins, whatever the card it is merged into, as long as no two changes of a part
    have the same time. *)
Theorem sibling_cards_converge c fs gs :
  fs ≡ₚ gs -> NoDup (frame_id <$> fs) -> foldl adopt_frame c fs = foldl adopt_frame c gs.
Proof. intros. by apply foldl_adopt_perm. Qed.

Lemma adopt_icon_frame c k i v :
  adopt Frame.CONTROL_BUDDY_ICON (JObj [("k", JStr k); ("icon", i); ("v", JNum v)]) c =
  if v <=? default (-1) (iconVersion c) then None
  else Some (MkProfile (sanitizeIcon (Some i)) (bio c) (away c) (Some v) (bioVersion c) (awayVersion c)).
Proof. reflexivity. Qed.

(** But an edit made on a device whose clock is behind the change it replaces is undone: the other
    devices ignore its frame, and their card, sent again when this device reconnects, restores
    what was edited.  The versions of buddies are bounded against this, those of the card are
    not; the comments say that the most recent change wins on every device. *)
Theorem edit_behind_the_clock_is_undone k sibling profile now v :
  k <> "" -> iconVersion sibling = Some v -> 0 <= now < v ->
  icon profile <> icon sibling -> sanitizeIcon (Some (icon sibling)) = icon sibling ->
  let mine := edit profile sibling now in
  icon mine = icon profile /\
  (forall f, head (buildIdentityFrames k mine) = Some f -> adopt_frame sibling f = sibling) /\
  (forall f, head (buildIdentityFrames k sibling) = Some f ->
     icon (adopt_frame mine f) = icon sibling /\ iconVersion (adopt_frame mine f) = Some v).
Proof.
  intros Hk Hv Hnow Hne Hsan mine. split; [done|].
  assert (iconVersion mine = Some now) as Hm by (subst mine; unfold edit; cbn [iconVersion]; by rewrite decide_False).
  clearbody mine. unfold buildIdentityFrames. rewrite bool_decide_eq_false_2 by done. split.
  - intros f [= <-]. unfold adopt_frame. cbn [fst snd]. rewrite adopt_icon_frame, Hv, Hm. cbn [default id].
    by rewrite (proj2 (Z.leb_le now v)) by lia.
  - intros f [= <-]. unfold adopt_frame. cbn [fst snd]. rewrite adopt_icon_frame, Hv, Hm. cbn [default id].
    rewrite (proj2 (Z.leb_gt v now)) by lia. cbn [default icon iconVersion id]. by rewrite Hsan.
Qed.

(** ** What peers can make this device keep *)

Definition icon_bounded (i : json) : Prop :=
  i = JNull \/ exists kind value bg, i = JObj [("kind", JStr kind); ("value", JStr value); ("bg", JStr bg)] /\
    kind ∈ ["emoji"; "initials"; "image"] /\ string_len value <= 32768 /\ string_len bg <= 32.

Definition peer_bounded (p : PeerCard) : Prop :=
  icon_bounded (p_icon p) /\ (String.length (p_bio p) <= 1024)%nat /\
  match p_away p with Some a => (String.length a <= 560)%nat | None => True end.

Lemma sanitizeIcon_bounded raw : icon_bounded (sanitizeIcon raw).
Proof.
  unfold sanitizeIcon. destruct raw as [o|]; [|by left]. destruct (negb (is_object o)); [by left|].
  destruct (string_field o "kind") as [kind|], (string_field o "value") as [value|], (string_field o "bg") as [bg|];
    try by left.
  case_bool_decide as Hk; [|by left]. unfold ICON_VALUE_MAX, ICON_BG_MAX.
  destruct (Z.ltb_spec 32768 (string_len value)); [by left|]. destruct (Z.ltb_spec 32 (string_len bg)); [by left|].
  right. by exists kind, value, bg.
Qed.

Lemma length_clamp n s : (String.length (clamp n s) <= n)%nat.
Proof.
  unfold clamp. revert n. induction s as [|a s IH]; intros n; [by destruct n; simpl; lia|].
  destruct n; simpl; [lia|]. specialize (IH n). lia.
Qed.

Definition map_bounded (m : PeerMap) : Prop := Forall (fun x => peer_bounded x.2) m.

Lemma lookup_Forall {V} (P : string * V -> Prop) k v m : Forall P m -> JsMap.lookup k m = Some v -> P (k, v).
Proof. intros Hm Hl%JsMap.lookup_Some_in. by eapply Forall_forall in Hl. Qed.

Lemma set_Forall {V} (P : string * V -> Prop) k v m : Forall P m -> P (k, v) -> Forall P (JsMap.set k v m).
Proof. intros Hm Hv. induction Hm as [|[k' v'] m Hx Hm IH]; simpl; [by constructor|]. case_decide; by constructor. Qed.

Lemma peer_update_bounded k ct j m : map_bounded m -> map_bounded (peer_update k ct j m).
Proof.
  intros Hm. unfold peer_update. apply set_Forall; [done|]. cbn [snd].
  assert (peer_bounded (default (MkPeer JNull "" None) (JsMap.lookup k m))) as (Hi & Hb & Ha).
  { destruct (JsMap.lookup k m) as [p|] eqn:E; [exact (lookup_Forall _ _ _ _ Hm E)|].
    split; [by left|]. split; [simpl; lia | done]. }
  repeat case_match; split_and!; cbn; try done; try apply sanitizeIcon_bounded; try apply length_clamp; try lia.
  all: unfold shared_away; repeat case_match; cbn; try apply length_clamp; lia.
Qed.

Definition peers_bounded (s : Peers) : Prop :=
  Forall (fun x => map_bounded x.2) (maps s) /\
  Forall (fun t => match t with PeerSave _ m => map_bounded m | _ => True end) (tasks s).

Lemma peer_play_bounded s m : peers_bounded s -> peers_bounded (peer_play s m).
Proof.
  intros [Hm Ht]. destruct m as [c k ct j|i|off]; cbn [peer_play].
  - unfold savePeerIdentity. destruct (history_off s); [done|]. split; [done|]. apply Forall_app. split; [done|].
    by constructor.
  - unfold peer_turn. destruct (tasks s !! i) as [[c k ct j|c m|]|] eqn:E; [| |done|done]; split; cbn [maps tasks]; try done.
    + apply Forall_insert; [done|]. apply peer_update_bounded. unfold loadPeerMap.
      destruct (JsMap.lookup c (maps s)) as [m|] eqn:El; [exact (lookup_Forall _ _ _ _ Hm El) | constructor].
    + apply set_Forall; [done|]. exact (Forall_lookup_1 _ _ _ _ Ht E).
    + by apply Forall_insert.
  - done.
Qed.

(** Whatever frames peers send, in whatever order they are handled, what this device keeps of a
    peer is a well-formed icon, or none, and texts within the caps; and while history is off
    a frame is not kept at all. *)
Theorem peer_cache_bounded ms :
  (forall c k p, JsMap.lookup k (loadPeerMap c (foldl peer_play (MkPeers [] [] false) ms)) = Some p -> peer_bounded p) /\
  (forall s c k ct j, history_off s = true -> savePeerIdentity c k ct j s = s).
Proof.
  split; [|intros s c k ct j E; unfold savePeerIdentity; by rewrite E].
  assert (peers_bounded (foldl peer_play (MkPeers [] [] false) ms)) as [Hm _].
  { assert (peers_bounded (MkPeers [] [] false)) as H0 by (split; constructor). revert H0.
    generalize (MkPeers [] [] false). induction ms as [|m ms IH]; intros s Hs; [done|]. by apply IH, peer_play_bounded. }
  intros c k p Hl. unfold loadPeerMap in Hl. destruct (JsMap.lookup c _) as [m|] eqn:E; [|done].
  exact (lookup_Forall _ _ _ _ (lookup_Forall _ _ _ _ Hm E) Hl).
Qed.

(** The cache of a peer's card loses updates the way the card itself no longer does: an icon and
    a profile that arrive together are both kept when one frame is saved before the next is
    loaded, and the icon is lost when both loads come first, which nothing excludes. *)
Theorem peer_frames_clobber c k icon_frame bio_frame old :
  let s0 := MkPeers [(c, [(k, old)])] [] false in
  let shown ms := JsMap.lookup k (loadPeerMap c (foldl peer_play s0
      (PeerFrame c k Frame.CONTROL_BUDDY_ICON icon_frame :: PeerFrame c k Frame.CONTROL_PROFILE bio_frame :: ms))) in
  let new_bio := p_bio (default old (JsMap.lookup k (peer_update k Frame.CONTROL_PROFILE bio_frame [(k, old)]))) in
  shown [PeerTurn 0; PeerTurn 0; PeerTurn 1; PeerTurn 1] =
    Some (MkPeer (sanitizeIcon (prop icon_frame "icon")) new_bio (p_away old)) /\
  shown [PeerTurn 0; PeerTurn 1; PeerTurn 0; PeerTurn 1] = Some (MkPeer (p_icon old) new_bio (p_away old)).
Proof.
  unfold loadPeerMap, peer_update. cbn -[sanitizeIcon clamp string_field decide prop].
  repeat (rewrite decide_True by done; cbn -[sanitizeIcon clamp string_field decide prop]). done.
Qed.

(** ** Away replies *)

Section away_facts.
Context (local_time : Z -> RichText.LocalTime).

(** A message whose task runs to its end before the next one arrives, after [d] milliseconds. *)
Definition answered_message (s : Away) (x : Z * (string * string)) : Away :=
  let i := length (aw_tasks s) in
  away_plays local_time [AwayTick x.1; AwayMessage x.2.1 x.2.2; AwayTurn i; AwayTurn i; AwayTurn i] s.

Definition dedupe (s : Away) : list (string * Z) := if aw_historyOff s then awayDedupeMem s else awayDedupe s.

(** The replies so far are apart, and the record has the time of the last one. *)
Definition away_ok (s : Away) : Prop :=
  (forall r, r ∈ replies s -> exists t, JsMap.lookup (re_conversation r) (dedupe s) = Some t /\ re_at r <= t) /\
  (forall i j r r', (i < j)%nat -> replies s !! i = Some r -> replies s !! j = Some r' ->
     re_conversation r = re_conversation r' -> re_at r + AWAY_COOLDOWN_MS <= re_at r').

Lemma lookup_last {A} (l : list A) x : (l ++ [x]) !! length l = Some x.
Proof. by rewrite lookup_app_r, Nat.sub_diag. Qed.

Lemma insert_last {A} (l : list A) x y : <[length l := y]> (l ++ [x]) = l ++ [y].
Proof. by rewrite insert_app_r_alt, Nat.sub_diag. Qed.

(** A turn of the task that came last. *)
Lemma last_turn s ts c name ph :
  aw_tasks s = ts ++ [MkAwayTask c name ph] ->
  away_turn local_time (length ts) s =
  let continue p := set_tasks (ts ++ [MkAwayTask c name p]) in
  match ph with
  | AwLoad =>
      match away_message (aw_card s) with
      | Some m => continue (AwLast (aw_clock s) m) s
      | None => continue AwDone s
      end
  | AwLast now m =>
      match awayDedupeAt c s with
      | Some last => if now - last <? AWAY_COOLDOWN_MS then continue AwDone s else continue (AwWrite now m) s
      | None => continue (AwWrite now m) s
      end
  | AwWrite now m =>
      let s := setAwayDedupe c now (continue AwDone s) in
      MkAway (aw_card s) (aw_historyOff s) (awayDedupe s) (awayDedupeMem s) (aw_clock s) (aw_tasks s)
        (replies s ++ [MkReply c now (RichText.substituteSpecials (RichText.chars_of m)
                                        (Some (RichText.chars_of name)) (local_time now))])
  | AwDone => s
  end.
Proof. intros E. unfold away_turn. rewrite E, lookup_last. cbv zeta.
  destruct ph; repeat case_match; by rewrite ?insert_last.
Qed.

Lemma done_turn ts c name s :
  away_turn local_time (length ts) (set_tasks (ts ++ [MkAwayTask c name AwDone]) s) =
  set_tasks (ts ++ [MkAwayTask c name AwDone]) s.
Proof. by rewrite (last_turn _ ts c name AwDone). Qed.

Lemma set_tasks_twice ts ts' s : set_tasks ts (set_tasks ts' s) = set_tasks ts s.
Proof. reflexivity. Qed.

Lemma dedupe_set c t s : dedupe (setAwayDedupe c t s) = JsMap.set c t (dedupe s).
Proof. unfold dedupe, setAwayDedupe. by destruct (aw_historyOff s). Qed.

Lemma setAwayDedupe_keeps c t s :
  aw_historyOff (setAwayDedupe c t s) = aw_historyOff s /\ replies (setAwayDedupe c t s) = replies s.
Proof. unfold setAwayDedupe. by destruct (aw_historyOff s). Qed.

Lemma answered_message_step s x :
  let s' := answered_message s x in
  aw_historyOff s' = aw_historyOff s /\
  ((replies s' = replies s /\ dedupe s' = dedupe s) \/
   exists now text, replies s' = replies s ++ [MkReply x.2.1 now text] /\
     dedupe s' = JsMap.set x.2.1 now (dedupe s) /\
     match JsMap.lookup x.2.1 (dedupe s) with Some last => last + AWAY_COOLDOWN_MS <= now | None => True end).
Proof.
  destruct x as [d [c name]]. unfold answered_message, away_plays. cbn [foldl fst snd].
  set (s1 := away_play local_time s (AwayTick d)). set (s2 := away_play local_time s1 (AwayMessage c name)).
  assert (aw_tasks s2 = aw_tasks s ++ [MkAwayTask c name AwLoad]) as E by done.
  assert (aw_historyOff s2 = aw_historyOff s /\ replies s2 = replies s /\ dedupe s2 = dedupe s) as (Ho & Hr & Hd) by done.
  clearbody s2. clear s1. cbn [away_play]. rewrite (last_turn s2 _ c name AwLoad E). cbv zeta.
  destruct (away_message (aw_card s2)) as [m|].
  2: { rewrite !done_turn. split; [done|]. left. done. }
  rewrite (last_turn (set_tasks _ _) _ c name (AwLast (aw_clock s2) m) eq_refl). cbv zeta.
  change (awayDedupeAt c _) with (JsMap.lookup c (dedupe s2)). rewrite Hd.
  assert (forall now s3, aw_historyOff s3 = aw_historyOff s -> replies s3 = replies s -> dedupe s3 = dedupe s ->
    aw_tasks s3 = aw_tasks s ++ [MkAwayTask c name (AwWrite now m)] ->
    match JsMap.lookup c (dedupe s) with Some last => last + AWAY_COOLDOWN_MS <= now | None => True end ->
    let s' := away_turn local_time (length (aw_tasks s)) s3 in
    aw_historyOff s' = aw_historyOff s /\
    exists text, replies s' = replies s ++ [MkReply c now text] /\ dedupe s' = JsMap.set c now (dedupe s)) as Hwrite.
  { intros now s3 Ho3 Hr3 Hd3 E3 _. cbv zeta. rewrite (last_turn _ _ c name (AwWrite now m) E3). cbv zeta.
    pose proof (setAwayDedupe_keeps c now (set_tasks (aw_tasks s ++ [MkAwayTask c name AwDone]) s3)) as [Hk1 Hk2].
    pose proof (dedupe_set c now (set_tasks (aw_tasks s ++ [MkAwayTask c name AwDone]) s3)) as Hk3.
    split; [exact (eq_trans Hk1 Ho3)|]. eexists. split.
    - cbn [replies]. by rewrite Hk2, <-Hr3.
    - change (dedupe (setAwayDedupe c now (set_tasks (aw_tasks s ++ [MkAwayTask c name AwDone]) s3)) =
              JsMap.set c now (dedupe s)). rewrite Hk3. by rewrite <-Hd3. }
  destruct (JsMap.lookup c (dedupe s)) as [last|].
  - destruct (Z.ltb_spec (aw_clock s2 - last) AWAY_COOLDOWN_MS) as [Hlt|Hge].
    + rewrite set_tasks_twice, done_turn. split; [done|]. left. done.
    + destruct (Hwrite (aw_clock s2) (set_tasks (aw_tasks s ++ [MkAwayTask c name (AwWrite (aw_clock s2) m)])
        (set_tasks (aw_tasks s ++ [MkAwayTask c name (AwLast (aw_clock s2) m)]) s2))) as (H1 & text & H2 & H3);
        [done..|lia|]. split; [exact H1|]. right. exists (aw_clock s2), text. split; [exact H2|]. split; [exact H3|]. lia.
  - destruct (Hwrite (aw_clock s2) (set_tasks (aw_tasks s ++ [MkAwayTask c name (AwWrite (aw_clock s2) m)])
      (set_tasks (aw_tasks s ++ [MkAwayTask c name (AwLast (aw_clock s2) m)]) s2))) as (H1 & text & H2 & H3);
      [done..|]. split; [exact H1|]. right. by exists (aw_clock s2), text.
Qed.

Lemma answered_message_ok s x : away_ok s -> away_ok (answered_message s x).
Proof.
  intros [Hlast Hgap]. destruct (answered_message_step s x) as (Ho & [[Hr Hd]|(now & text & Hr & Hd & Hnow)]);
    unfold away_ok; rewrite Hr, Hd; [done|]. split.
  - intros r [Hin| ->%list_elem_of_singleton]%elem_of_app.
    + destruct (Hlast r Hin) as (t & Ht & Hle). destruct (decide (re_conversation r = x.2.1)) as [E|Hne].
      * exists now. rewrite E, JsMap.lookup_set_eq. split; [done|]. rewrite E in Ht. rewrite Ht in Hnow.
        unfold AWAY_COOLDOWN_MS in *. lia.
      * exists t. by rewrite JsMap.lookup_set_ne.
    + exists now. cbn [re_conversation re_at]. rewrite JsMap.lookup_set_eq. split; [done | lia].
  - intros i j r r' Hij Hi Hj Hc. apply lookup_app_Some in Hj as [Hj|[Hlen Hj]].
    + apply (Hgap i j r r'); [done | | done | done]. rewrite lookup_app_l in Hi; [done|].
      apply lookup_lt_Some in Hj. lia.
    + assert (j = length (replies s) /\ r' = MkReply x.2.1 now text) as [-> ->].
      { destruct (j - length (replies s))%nat as [|n] eqn:En; [|by destruct n]. injection Hj as <-. split; [lia | done]. }
      rewrite lookup_app_l in Hi by done. apply list_elem_of_lookup_2 in Hi.
      destruct (Hlast r Hi) as (t & Ht & Hle). rewrite Hc in Ht. cbn [re_conversation] in Ht. rewrite Ht in Hnow.
      cbn [re_at]. lia.
Qed.

(** When each message is handled to its end before the next, two away replies into one
    conversation are at least ten minutes apart, wherever the times are kept. *)
Theorem away_cooldown cd off xs :
  let s := foldl answered_message (MkAway cd off [] [] 0 [] []) xs in
  forall i j r r', (i < j)%nat -> replies s !! i = Some r -> replies s !! j = Some r' ->
    re_conversation r = re_conversation r' -> re_at r + 600000 <= re_at r'.
Proof.
  cbv zeta. assert (away_ok (MkAway cd off [] [] 0 [] [])) as H0 by (split; [by intros r ?%not_elem_of_nil | done]).
  revert H0. generalize (MkAway cd off [] [] 0 [] []). induction xs as [|x xs IH]; intros s Hs; [apply Hs|].
  cbn [foldl]. by apply IH, answered_message_ok.
Qed.

(** But nothing queues the replies: two messages whose handling overlaps are both answered, at the
    same time, although the cooldown allows one. *)
Theorem away_replies_race cd off c name1 name2 t m :
  away_message cd = Some m ->
  exists text1 text2,
    replies (away_plays local_time
      [AwayMessage c name1; AwayMessage c name2; AwayTurn 0; AwayTurn 1; AwayTurn 0; AwayTurn 1; AwayTurn 0; AwayTurn 1]
      (MkAway cd off [] [] t [] [])) = [MkReply c t text1; MkReply c t text2].
Proof.
  intros Hm. unfold away_plays. cbn [foldl away_play].
  set (st p1 p2 := MkAway cd off [] [] t [MkAwayTask c name1 p1; MkAwayTask c name2 p2] []).
  change (awayReplyText c name2 _) with (st AwLoad AwLoad).
  assert (away_turn local_time 0 (st AwLoad AwLoad) = st (AwLast t m) AwLoad) as ->.
  { unfold away_turn, st. simpl lookup. cbv iota beta zeta. cbn [aw_card]. by rewrite Hm. }
  assert (away_turn local_time 1 (st (AwLast t m) AwLoad) = st (AwLast t m) (AwLast t m)) as ->.
  { unfold away_turn, st. simpl lookup. cbv iota beta zeta. cbn [aw_card]. by rewrite Hm. }
  assert (away_turn local_time 0 (st (AwLast t m) (AwLast t m)) = st (AwWrite t m) (AwLast t m)) as -> by by destruct off.
  assert (away_turn local_time 1 (st (AwWrite t m) (AwLast t m)) = st (AwWrite t m) (AwWrite t m)) as -> by by destruct off.
  eexists _, _. unfold away_turn, st. simpl lookup. cbv iota beta zeta.
  destruct off; cbn [setAwayDedupe set_tasks aw_tasks aw_historyOff awayDedupe awayDedupeMem aw_card aw_clock replies
         lookup list_lookup insert list_insert app]; reflexivity.
Qed.
End away_facts.

(** Two edits called back to back: the second runs after the first was saved. *)
Definition idle : World := MkWorld None [] 5 [].
Definition first_edit : op := SetIdentity (MkProfile JNull "one" (away_config false "" false) None None None).
Definition second_edit : op := SetIdentity (MkProfile JNull "two" (away_config false "" false) None None None).

Lemma identity_writes_serial_witness :
  exists w', steps idle [Submitted first_edit; Submitted second_edit; Passed; Saved first_edit 5] w' /\ chain idle = [] /\
    card w' = foldl serial (card idle) [Submitted first_edit; Submitted second_edit; Passed; Saved first_edit 5].
Proof.
  eexists. assert (Hs : steps idle ([] ++ [Submitted first_edit] ++ [Submitted second_edit] ++ [Passed] ++ [Saved first_edit 5])
    (MkWorld (Some (edit (MkProfile JNull "one" (away_config false "" false) None None None) DEFAULT_IDENTITY 5))
       [Loading second_edit] 5 [Publish])).
  { rewrite !(assoc_L (++)). eapply steps_snoc; [eapply steps_snoc; [eapply steps_snoc; [eapply steps_snoc; [constructor|]|]|]|].
    - apply step_submit.
    - apply step_submit.
    - eapply step_load_save; reflexivity.
    - eapply (step_save (MkWorld None [Saving first_edit 5 _; Loading second_edit] 5 [])). reflexivity. }
  split; [exact Hs|]. split; [reflexivity|]. exact (proj1 (identity_writes_serial _ _ _ Hs eq_refl)).
Defined.

End IdentityCard.
