(* ===== verification/Transcript.v ===== *)
(** * The transcript of a conversation (client/src/controller.ts, openChannel; client/src/app.ts,
      renderEntry and renderTrustBadge)

    Opening a conversation is the recipient seeing it: countdowns of received messages start, a
    burn-on-read message is opened for good, and the log of the view is built from the
    stored records.  The store is the interface [KeyvaultStore] of Lifetime.v. *)

From stdpp Require Import pretty.
From S2P Require Import Prelude Session Vault Lifetime RichText.

(** ** The log *)

Inductive LogEntry :=
  | LogSystem (text : string)
  | LogDestroyed
  | LogMessage (sender text : string) (lifetime : Lifetime) (remainingSeconds expiresAtMs : option Z)
      (canRevoke : option string) (* the message id of the control *).

Module Transcript.

Definition lifetimeOf (kind : LifetimeKind) (remainingSeconds : option Z) : Lifetime :=
  match kind with
  | KindDuration => Duration (default 0 remainingSeconds)
  | KindBurn => BurnOnRead
  | KindUntilRevoked => UntilRevoked
  end.

(** [Math.max(0, Math.round((at - now) / 1000))] *)
Definition remaining (at_ now : Z) : Z := Z.max 0 ((at_ - now + 500) / 1000).

(** What the loops read of the view: whether it is secure and of our own devices, whether there is
    a lifetime manager, the conversation and the name of the peer. *)
Record View := MkView { v_secure : bool; v_isSelf : bool; v_live : bool; v_id : string; v_peer : string }.

Section transcript.
Context {Key S W : Type} `{Aead Key} `{Random W} `{KeyvaultStore S}.
Context (text_decode : bytes -> string).
Notation Mgr := (Manager S W).

(** [for (const v of convRecords) if (v.direction === 'in') await this.lifetime?.armOnView(...)] *)
Definition arm_views (c : View) (records : list VaultRecord) : M Mgr unit :=
  for_each records (fun v =>
    if bool_decide (direction v = DirIn) && v_live c then Lifetimes.armOnView (messageId v) (Some v) else ret tt).

Definition sender_of (c : View) (v : VaultRecord) : string :=
  if bool_decide (direction v = DirIn) && negb (v_isSelf c) then v_peer c else "YOU".

(** The revoke control of a record. *)
Definition control_of (c : View) (v : VaultRecord) : option string :=
  if bool_decide (lifetimeKind v = KindUntilRevoked) &&
     (bool_decide (direction v = DirOut) || bool_decide (ownAuthored v = Some true)) &&
     bool_decide (conversationId v = v_id c)
  then Some (messageId v) else None.

(** The entries one record adds. *)
Definition entry (c : View) (key : Key) (v : VaultRecord) : M Mgr (list LogEntry) :=
  if bool_decide (lifetimeKind v = KindBurn) then
    if read v then ret [LogDestroyed]
    else if negb (v_secure c) || negb (v_live c) then ret []
    else try_catch
      (let! framed := Lifetimes.openBurnOnRead key (messageId v) in
       match framed with
       | Some p => ret [LogMessage (sender_of c v) (text_decode p) BurnOnRead None None None]
       | None => ret [LogDestroyed]
       end)
      (fun _ => ret [])
  else
    match Vault.open key v with
    | Throw _ => ret []
    | Ok p =>
        let! now := Lifetimes.now in
        let left := match expiresAtMs v with Some at_ => Some (remaining at_ now) | None => durationSeconds v end in
        ret [LogMessage (sender_of c v) (text_decode p) (lifetimeOf (lifetimeKind v) left) left (expiresAtMs v) (control_of c v)]
    end.

Fixpoint entries (c : View) (key : Key) (records : list VaultRecord) : M Mgr (list LogEntry) :=
  match records with
  | [] => ret []
  | v :: records =>
      let! l := entry c key v in
      let! l' := entries c key records in
      ret (l ++ l')
  end.

(** The messages of the log, from the records that were listed: first every countdown starts, then
    the records are rendered as they were listed, oldest first. *)
Definition transcript (c : View) (key : Key) (convRecords : list VaultRecord) : M Mgr (list LogEntry) :=
  do! arm_views c convRecords in
  entries c key (sort_by storedAtMs convRecords).

End transcript.

(** ** HTML *)

Section html.
Import RichText.

Definition html_clock (totalSeconds : Z) : chars :=
  let m := totalSeconds / 60 in
  let s := totalSeconds mod 60 in
  Z_chars m ++ ":"%char :: (if s <? 10 then "0"%char :: Z_chars s else Z_chars s).

Definition renderEntry (e : LogEntry) : chars :=
  match e with
  | LogSystem text => dq "<div class=`dd-msg dd-sys`>" ++ escapeHtml (chars_of text) ++ chars_of "</div>"
  | LogDestroyed => dq "<div class=`dd-gone`>▢ message destroyed</div>"
  | LogMessage sender text lifetime remainingSeconds expiresAtMs canRevoke =>
      let near := match remainingSeconds with Some n => n <=? 10 | None => false end in
      let warn := chars_of (if near then " dd-warn" else "") in
      let burn := match remainingSeconds with
                  | Some n => chars_of "burns " ++ html_clock n
                  | None => match lifetime with
                            | BurnOnRead => chars_of "burns after this viewing"
                            | UntilRevoked => chars_of "kept until revoked"
                            | Duration _ => []
                            end
                  end in
      let revoke := match canRevoke with
                    | Some mid =>
                        dq "<button type=`button` class=`dd-msg-revoke` data-action=`revoke-msg` data-mid=`"
                        ++ escapeHtml (chars_of mid)
                        ++ dq "` title=`destroy the stored copy on every device`>revoke</button>"
                    | None => []
                    end in
      let stamp := match expiresAtMs, remainingSeconds with
                   | Some at_, Some _ => dq " data-expires-at=`" ++ Z_chars at_ ++ dq "`"
                   | _, _ => []
                   end in
      let burnSpan := if bool_decide (burn = []) then []
                      else dq "<span class=`dd-burn`" ++ stamp ++ chars_of ">" ++ burn ++ chars_of "</span>" in
      let meta := if bool_decide (burnSpan = [] /\ revoke = []) then []
                  else dq "<span class=`dd-meta" ++ chars_of (if near then " dd-warn dd-near" else "") ++ dq "`>"
                       ++ burnSpan ++ revoke ++ chars_of "</span>" in
      dq "<div class=`dd-line" ++ warn ++ dq "`>" ++
      dq "<span class=`dd-name " ++ chars_of (if bool_decide (sender = "YOU") then "dd-name-self" else "dd-name-peer")
      ++ dq "`>" ++ escapeHtml (chars_of sender) ++ chars_of ":</span> " ++
      dq "<span class=`dd-msg" ++ warn ++ dq "`>" ++ formatMessageText true (chars_of text) ++ chars_of "</span>" ++
      meta ++ chars_of "</div>"
  end.

End html.

(** ** The trust badge *)

Inductive Trust := Offline | Insecure | Unreachable | KeyChanged | Self | Verified | Unverified.
#[export] Instance trust_eq_dec : EqDecision Trust.
Proof. solve_decision. Defined.

Section badge.
Import RichText.

Definition renderTrustBadge (trust : option Trust) (secure : bool) (trustNote : option string) : chars :=
  let trust := default (if secure then Unverified else Offline) trust in
  let note := trim (chars_of (default "" trustNote)) in
  let tail := if bool_decide (note = []) then [] else chars_of " &middot; " ++ escapeHtml note in
  match trust with
  | Offline => chars_of "OFFLINE"
  | Insecure => dq "<span class=`dd-tx dd-tx-bad`></span><span class=`dd-trust-bad`>INSECURE" ++ tail ++ chars_of "</span>"
  | KeyChanged => dq "<span class=`dd-tx dd-tx-warn`></span><span class=`dd-trust-warn`>KEY CHANGED</span>"
  | Unreachable => dq "<span class=`dd-tx`></span>SECURE &middot; <span class=`dd-trust-warn`>UNREACHABLE</span>"
  | Self => dq "<span class=`dd-tx`></span>SECURE" ++ tail
  | Verified => dq "<span class=`dd-tx`></span>SECURE &check;"
  | Unverified => dq "<span class=`dd-tx dd-tx-plain`></span>ENCRYPTED" ++ tail
  end.
End badge.

(** ** What a view does *)

Section laws.
Context {Key S W : Type} `{Aead Key} `{Random W} `{KeyvaultLaws S}.
Context (text_decode : bytes -> string).
Notation Mgr := (Manager S W).
Implicit Types s : Mgr.

(** *** Countdowns leave the burn-on-read messages alone *)

(** [s'] has the burn-on-read messages of [s], unchanged. *)
Definition burn_same s s' : Prop :=
  Lifetimes.ok s' /\
  forall i r, lifetimeKind r = KindBurn -> Lifetimes.held s i = Some r <-> Lifetimes.held s' i = Some r.

Lemma burn_same_refl s : Lifetimes.ok s -> burn_same s s.
Proof. done. Qed.

Lemma burn_same_trans s s' s'' : burn_same s s' -> burn_same s' s'' -> burn_same s s''.
Proof. intros [_ Hs1] [O2 Hs2]. split; [done|]. intros i r Hk. by rewrite Hs1, Hs2. Qed.

Lemma armOnView_burn_same j known s :
  Lifetimes.ok s -> exists s', Lifetimes.armOnView j known s = (Ok tt, s') /\ burn_same s s'.
Proof.
  intros Ho. unfold Lifetimes.armOnView.
  destruct (match known with Some _ => _ | None => _ end); [by exists s|]. rewrite Lifetimes.bind_get.
  destruct (Lifetimes.held s j) as [r0|] eqn:Ej; [|by exists s].
  destruct (Lifetimes.no_countdown r0) eqn:En; [by exists s|]. unfold Lifetimes.now. rewrite Lifetimes.bind_gets.
  assert (Hid : messageId (Vault.armRecord r0 (clock s)) = j).
  { apply kv_id in Ej; [|done]. unfold Vault.armRecord.
    by destruct (lifetimeKind r0), (expiresAtMs r0), (durationSeconds r0). }
  destruct (Lifetimes.put_run (Vault.armRecord r0 (clock s)) s Ho) as (s2 & E2 & O2 & _ & P & _).
  rewrite (bind_run E2). rewrite Hid in P. specialize (P ltac:(by rewrite Ej)).
  destruct (Lifetimes.arm_run (Vault.armRecord r0 (clock s)) s2 O2) as (s3 & E3 & O3 & _ & _ & A).
  assert (Hkd : lifetimeKind r0 = KindDuration).
  { unfold Lifetimes.no_countdown in En. apply orb_false_iff in En as [_ En].
    by apply negb_false_iff, bool_decide_eq_true in En. }
  assert (Hkind : lifetimeKind (Vault.armRecord r0 (clock s)) = KindDuration).
  { unfold Vault.armRecord. rewrite Hkd. by destruct (expiresAtMs r0), (durationSeconds r0). }
  exists s3. split; [done|]. split; [done|]. intros i r Hk. specialize (P i).
  assert (Lifetimes.held s i = Some r <-> Lifetimes.held s2 i = Some r) as ->.
  { rewrite P. case_decide as Hi; [|done]. subst i. rewrite Ej. split; intros [= <-]; congruence. }
  revert A. rewrite Hkind, Hid.
  destruct (expiresAtMs (Vault.armRecord r0 (clock s))) as [at_|]; [|by intros ->].
  destruct (at_ <=? clock s2); intros [A _]; [|unfold Lifetimes.held; by rewrite A].
  rewrite A. case_decide as Hi; [|done]. subst i. rewrite P. try rewrite decide_True by done. split; [intros [= <-]; congruence | done].
Qed.

Lemma arm_views_burn_same c l : forall s,
  Lifetimes.ok s -> exists s', arm_views c l s = (Ok tt, s') /\ burn_same s s'.
Proof.
  induction l as [|v l IH]; intros s Ho; [by exists s|]. unfold arm_views. cbn [for_each].
  assert (exists s1, (if bool_decide (direction v = DirIn) && v_live c
                      then Lifetimes.armOnView (messageId v) (Some v) else ret tt) s = (Ok tt, s1) /\ burn_same s s1)
    as (s1 & E1 & B1).
  { destruct (_ && _); [by apply armOnView_burn_same | by exists s]. }
  rewrite (bind_run E1). destruct (IH s1 (proj1 B1)) as (s2 & E2 & B2). exists s2.
  split; [exact E2 | by eapply burn_same_trans].
Qed.

(** *** One record *)

(** What an entry does to the store: nothing, or it leaves the tombstone of a message it opened. *)
Lemma entry_effect c key v s :
  Lifetimes.ok s -> exists l s', entry text_decode c key v s = (Ok l, s') /\ Lifetimes.ok s' /\
    (s' = s \/
     v_secure c = true /\ v_live c = true /\
     exists r p, Lifetimes.held s (messageId v) = Some r /\ lifetimeKind r = KindBurn /\ read r = false /\
       Vault.open key r = Ok p /\
       forall j, Lifetimes.held s' j = if decide (j = messageId v) then Some (Vault.tombstone r) else Lifetimes.held s j).
Proof.
  intros Ho. unfold entry. case_bool_decide as Hk.
  - destruct (read v); [by exists [LogDestroyed], s; auto|].
    destruct (v_secure c) eqn:Es, (v_live c) eqn:El; cbn [negb orb]; try by exists [], s; auto.
    unfold try_catch, bind.
    destruct (match Lifetimes.held s (messageId v) with
              | Some r => read r || negb (bool_decide (lifetimeKind r = KindBurn)) | None => true end) eqn:En.
    { rewrite (Lifetimes.openBurn_None key (messageId v) s En). exists [LogDestroyed], s. auto. }
    destruct (Lifetimes.held s (messageId v)) as [r|] eqn:Eh; [|done].
    apply orb_false_iff in En as [Hr Hb]. apply negb_false_iff, bool_decide_eq_true in Hb.
    destruct (Lifetimes.openBurn_Some key (messageId v) s r Ho Eh Hr Hb) as (s' & -> & O' & A).
    destruct (Vault.open key r) as [p|e] eqn:Eo; cbn [rmap]; [|exists [], s'; subst; auto].
    eexists _, s'. split; [done|]. split; [done|]. right. split; [done|]. split; [done|].
    exists r, p. by destruct A as [A _].
  - destruct (Vault.open key v); [|by exists [], s; auto]. eexists _, s. auto.
Qed.

Lemma entries_cons c key v l s x s1 :
  entry text_decode c key v s = (Ok x, s1) ->
  entries text_decode c key (v :: l) s =
  match entries text_decode c key l s1 with (Ok y, s2) => (Ok (x ++ y), s2) | (Throw e, s2) => (Throw e, s2) end.
Proof.
  intros E. cbn [entries]. rewrite (bind_run E). unfold bind. by destruct (entries text_decode c key l s1) as [[]].
Qed.

Lemma entries_total c key l : forall s, Lifetimes.ok s ->
  exists log s', entries text_decode c key l s = (Ok log, s') /\ Lifetimes.ok s'.
Proof.
  induction l as [|v l IH]; intros s Ho; [by exists [], s|].
  destruct (entry_effect c key v s Ho) as (x & s1 & E & O1 & _). rewrite (entries_cons _ _ _ _ _ _ _ E).
  destruct (IH s1 O1) as (y & s2 & -> & O2). by eexists _, _.
Qed.

Lemma transcript_run c key l s :
  Lifetimes.ok s -> exists s1 log s2, arm_views c l s = (Ok tt, s1) /\ burn_same s s1 /\
    entries text_decode c key (sort_by storedAtMs l) s1 = (Ok log, s2) /\ Lifetimes.ok s2 /\
    transcript text_decode c key l s = (Ok log, s2).
Proof.
  intros Ho. destruct (arm_views_burn_same c l s Ho) as (s1 & E1 & B1).
  destruct (entries_total c key (sort_by storedAtMs l) s1 (proj1 B1)) as (log & s2 & E2 & O2).
  exists s1, log, s2. split_and!; try done. unfold transcript. by rewrite (bind_run E1).
Qed.

(** A view that is not secure, or that has no lifetime manager, spends no burn-on-read message:
    each is still stored as it was, and its text is not in the log. *)
Theorem degraded_view_spends_nothing c key l s :
  Lifetimes.ok s -> v_secure c = false \/ v_live c = false ->
  exists log s', transcript text_decode c key l s = (Ok log, s') /\
    (forall i r, Lifetimes.held s i = Some r -> lifetimeKind r = KindBurn -> Lifetimes.held s' i = Some r) /\
    (forall sender text left at_ ctl, LogMessage sender text BurnOnRead left at_ ctl ∉ log).
Proof.
  intros Ho Hc. destruct (transcript_run c key l s Ho) as (s1 & log & s2 & _ & [O1 B1] & E & _ & ->).
  exists log, s2. split; [done|].
  enough (s2 = s1 /\ forall sender text left at_ ctl, LogMessage sender text BurnOnRead left at_ ctl ∉ log) as [-> Hl]
    by (split; [intros i r Hh Hk; by apply B1 | exact Hl]).
  clear B1 Ho. revert log s2 E. induction (sort_by storedAtMs l) as [|v l' IH]; intros log s2 E.
  { injection E as <- <-. split; [done|]. intros. by apply not_elem_of_nil. }
  destruct (entry_effect c key v s1 O1) as (x & s3 & Ex & O3 & [->|(Hs & Hv & _)]); [|by destruct Hc; congruence].
  rewrite (entries_cons _ _ _ _ _ _ _ Ex) in E.
  destruct (entries text_decode c key l' s1) as [[y|e] s4] eqn:Ey; [|done]. injection E as <- <-.
  destruct (IH y s4 eq_refl) as [-> Hy]. split; [done|]. intros sender text left at_ ctl [Hx|Hx]%elem_of_app; [|by eapply Hy].
  revert Ex Hx. unfold entry. case_bool_decide as Hk.
  - destruct (read v); [intros [= <-]; intros ?%list_elem_of_singleton; discriminate|].
    replace (negb (v_secure c) || negb (v_live c)) with true by (destruct Hc as [-> | ->]; [done | by rewrite orb_true_r]).
    intros [= <-]. apply not_elem_of_nil.
  - destruct (Vault.open key v); [|intros [= <-]; apply not_elem_of_nil].
    unfold bind, Lifetimes.now, gets, ret. intros [= <-]. intros [= _ _ Hl _ _ _]%list_elem_of_singleton.
    by destruct (lifetimeKind v).
Qed.

(** *** Shown once *)

(** There is nothing to show of a burn-on-read message with this id: it was opened before, or it is
    another account's. *)
Definition spent key s i : Prop :=
  forall r, Lifetimes.held s i = Some r -> lifetimeKind r = KindBurn -> read r = true \/ exists e, Vault.open key r = Throw e.

Lemma entry_keeps_spent c key v s l s' i :
  Lifetimes.ok s -> entry text_decode c key v s = (Ok l, s') -> spent key s i -> spent key s' i.
Proof.
  intros Ho E Hi. destruct (entry_effect c key v s Ho) as (x & s1 & E1 & _ & D). rewrite E in E1. injection E1 as _ <-.
  destruct D as [->|(_ & _ & r0 & p & _ & _ & _ & _ & A)]; [done|].
  intros r Hr Hk. rewrite A in Hr. case_decide; [injection Hr as <-; by left | by apply Hi].
Qed.

Lemma entry_spends c key v s l s' :
  Lifetimes.ok s -> v_secure c = true -> v_live c = true -> lifetimeKind v = KindBurn ->
  (read v = true -> Lifetimes.held s (messageId v) = Some v \/ spent key s (messageId v)) ->
  entry text_decode c key v s = (Ok l, s') -> spent key s' (messageId v).
Proof.
  intros Ho Hs Hl Hk Hlisted. unfold entry. rewrite Hk, Hs, Hl. cbn [negb orb].
  rewrite bool_decide_eq_true_2 by done. destruct (read v) eqn:Er.
  { intros [= _ <-]. destruct (Hlisted eq_refl) as [Hh|Hsp]; [|done]. intros r Hr _. rewrite Hh in Hr.
    injection Hr as <-. by left. }
  unfold try_catch, bind. intros E.
  destruct (match Lifetimes.held s (messageId v) with
            | Some r => read r || negb (bool_decide (lifetimeKind r = KindBurn)) | None => true end) eqn:En.
  { rewrite (Lifetimes.openBurn_None key (messageId v) s En) in E. injection E as _ <-.
    intros r Hr Hb. rewrite Hr, Hb, orb_false_r in En. by left. }
  destruct (Lifetimes.held s (messageId v)) as [r|] eqn:Eh; [|done].
  apply orb_false_iff in En as [Hr Hb]. apply negb_false_iff, bool_decide_eq_true in Hb.
  destruct (Lifetimes.openBurn_Some key (messageId v) s r Ho Eh Hr Hb) as (s1 & E1 & _ & A). rewrite E1 in E.
  destruct (Vault.open key r) as [p|e] eqn:Eo; cbn [rmap] in E; injection E as _ <-; intros r' Hr' _.
  - destruct A as [A _]. rewrite A, decide_True in Hr' by done. injection Hr' as <-. by left.
  - subst s1. rewrite Eh in Hr'. injection Hr' as <-. right. by exists e.
Qed.

Definition shows_burn (log : list LogEntry) : Prop :=
  exists sender text left at_ ctl, LogMessage sender text BurnOnRead left at_ ctl ∈ log.

Lemma shows_burn_app l l' : shows_burn (l ++ l') <-> shows_burn l \/ shows_burn l'.
Proof. unfold shows_burn. setoid_rewrite elem_of_app. naive_solver. Qed.

Lemma entry_silent c key v s l s' :
  Lifetimes.ok s -> (lifetimeKind v = KindBurn -> spent key s (messageId v)) ->
  entry text_decode c key v s = (Ok l, s') -> ~ shows_burn l.
Proof.
  intros Ho Hsp. unfold entry. case_bool_decide as Hk.
  - specialize (Hsp Hk).
    assert (forall x s2, (Ok [LogDestroyed], x) = (Ok l, s2 : Mgr) -> ~ shows_burn l) as Hd.
    { intros x s2 [= <- _] (a1 & a2 & a3 & a4 & a5 & [=]%list_elem_of_singleton). }
    assert (forall x s2, (Ok [], x) = (Ok l, s2 : Mgr) -> ~ shows_burn l) as Hn.
    { intros x s2 [= <- _] (a1 & a2 & a3 & a4 & a5 & []%not_elem_of_nil). }
    destruct (read v); [apply Hd|]. destruct (negb (v_secure c) || negb (v_live c)); [apply Hn|].
    unfold try_catch, bind.
    destruct (match Lifetimes.held s (messageId v) with
              | Some r => read r || negb (bool_decide (lifetimeKind r = KindBurn)) | None => true end) eqn:En.
    { rewrite (Lifetimes.openBurn_None key (messageId v) s En). apply Hd. }
    destruct (Lifetimes.held s (messageId v)) as [r|] eqn:Eh; [|done].
    apply orb_false_iff in En as [Hr Hb]. apply negb_false_iff, bool_decide_eq_true in Hb.
    destruct (Hsp r Eh Hb) as [?|[e He]]; [congruence|].
    destruct (Lifetimes.openBurn_Some key (messageId v) s r Ho Eh Hr Hb) as (s1 & -> & _). rewrite He. apply Hn.
  - destruct (Vault.open key v); [|intros [= <- _] (a1 & a2 & a3 & a4 & a5 & []%not_elem_of_nil)].
    unfold bind, Lifetimes.now, gets, ret. intros [= <- _] (a1 & a2 & a3 & a4 & a5 & [=]%list_elem_of_singleton).
    by destruct (lifetimeKind v).
Qed.

Lemma entries_spend c key l : forall s log s',
  Lifetimes.ok s -> v_secure c = true -> v_live c = true ->
  (forall v, v ∈ l -> lifetimeKind v = KindBurn -> read v = true ->
     Lifetimes.held s (messageId v) = Some v \/ spent key s (messageId v)) ->
  entries text_decode c key l s = (Ok log, s') ->
  (forall i, spent key s i -> spent key s' i) /\
  forall v, v ∈ l -> lifetimeKind v = KindBurn -> spent key s' (messageId v).
Proof.
  induction l as [|v l IH]; intros s log s' Ho Hs Hv Hl E.
  { injection E as _ <-. split; [done | intros v Hin; by apply not_elem_of_nil in Hin]. }
  destruct (entry_effect c key v s Ho) as (x & s1 & Ex & O1 & D).
  rewrite (entries_cons _ _ _ _ _ _ _ Ex) in E.
  destruct (entries text_decode c key l s1) as [[y|e] s2] eqn:Ey; [|done]. injection E as _ <-.
  destruct (IH s1 y s2 O1 Hs Hv) as [Hkeep Hall]; [|done|].
  - intros u Hu Hku Hru. destruct (Hl u ltac:(by right) Hku Hru) as [Hh|Hsp]; [|right; exact (entry_keeps_spent _ _ _ _ _ _ _ Ho Ex Hsp)].
    destruct D as [->|(_ & _ & r & p & Hr & Hkr & Hur & _ & A)]; [by left|]. rewrite A. case_decide as Ei; [|by left].
    rewrite Ei, Hr in Hh. congruence.
  - split; [intros i Hi; exact (Hkeep i (entry_keeps_spent _ _ _ _ _ _ _ Ho Ex Hi))|].
    intros u [->|Hu]%elem_of_cons Hku; [|by apply Hall]. apply Hkeep. apply (entry_spends c key v s x s1 Ho Hs Hv Hku); [|exact Ex].
    intros Hr. by apply Hl; [left|..].
Qed.

Lemma entries_silent c key l : forall s log s',
  Lifetimes.ok s -> (forall v, v ∈ l -> lifetimeKind v = KindBurn -> spent key s (messageId v)) ->
  entries text_decode c key l s = (Ok log, s') -> ~ shows_burn log.
Proof.
  induction l as [|v l IH]; intros s log s' Ho Hl E.
  { injection E as <- <-. intros (a1 & a2 & a3 & a4 & a5 & []%not_elem_of_nil). }
  destruct (entry_effect c key v s Ho) as (x & s1 & Ex & O1 & D). rewrite (entries_cons _ _ _ _ _ _ _ Ex) in E.
  destruct (entries text_decode c key l s1) as [[y|ex] s2] eqn:Ey; [|done]. injection E as <- <-.
  rewrite shows_burn_app. intros [Hx|Hy].
  - apply (entry_silent c key v s x s1 Ho); [|exact Ex | exact Hx]. intros Hk. apply Hl; [left | done].
  - apply (IH s1 y s2 O1); [|exact Ey | done]. intros u Hu Hk. eapply entry_keeps_spent; [exact Ho | exact Ex |].
    apply Hl; [by right | done].
Qed.

(** The text of a burn-on-read message is in one view only.  After a secure view of the stored
    records, a second view, whatever its trust, whose burn-on-read records were among those listed
    before, shows no burn-on-read text. *)
Theorem burn_text_in_one_view c c' key l l' s log s1 log' s2 :
  Lifetimes.ok s -> v_secure c = true -> v_live c = true ->
  (forall v, v ∈ l -> Lifetimes.held s (messageId v) = Some v) ->
  transcript text_decode c key l s = (Ok log, s1) ->
  (forall v', v' ∈ l' -> lifetimeKind v' = KindBurn -> exists v, v ∈ l /\ messageId v = messageId v' /\ lifetimeKind v = KindBurn) ->
  transcript text_decode c' key l' s1 = (Ok log', s2) ->
  ~ shows_burn log'.
Proof.
  intros Ho Hs Hv Hlist E Hl' E'.
  destruct (transcript_run c key l s Ho) as (sa & log0 & sb & _ & [Oa Ba] & Ee & Ob & Et).
  rewrite Et in E. injection E as <- <-.
  destruct (transcript_run c' key l' sb Ob) as (sc & log1 & sd & _ & [Oc Bc] & Ee' & _ & Et').
  rewrite Et' in E'. injection E' as <- <-.
  destruct (entries_spend c key (sort_by storedAtMs l) sa log0 sb Oa Hs Hv) as [_ Hsp]; [|exact Ee|].
  - intros v Hin Hk _. left. rewrite sort_by_perm in Hin. apply Ba; [done | by apply Hlist].
  - eapply (entries_silent c' key (sort_by storedAtMs l') sc); [exact Oc | | exact Ee'].
    intros v' Hin Hk. rewrite sort_by_perm in Hin. destruct (Hl' v' Hin Hk) as (v & Hvin & Hid & Hkv).
    assert (Hspv : spent key sb (messageId v)) by (apply Hsp; [by rewrite sort_by_perm | done]).
    rewrite Hid in Hspv. intros r Hr Hkr. apply Hspv; [by apply Bc | done].
Qed.

(** *** What is in the log *)

(** The record that an entry was made of: the one listed, or for burn-on-read the one the store has. *)
Definition opened_as s (v r : VaultRecord) : Prop :=
  r = v \/ Lifetimes.held s (messageId v) = Some r /\ lifetimeKind r = KindBurn /\ read r = false.

(** An entry of the log comes from a record that opens under our key. *)
Definition entry_from c key s (v : VaultRecord) (e : LogEntry) : Prop :=
  match e with
  | LogMessage sender text lifetime rem at_ ctl =>
      (exists r p, messageId r = messageId v /\ opened_as s v r /\ Vault.open key r = Ok p /\ text = text_decode p) /\
      sender = sender_of c v /\ (ctl = None \/ ctl = control_of c v) /\
      (lifetime = BurnOnRead -> v_secure c = true)
  | _ => True
  end.

Lemma entry_sound c key v s l s' e :
  Lifetimes.ok s -> entry text_decode c key v s = (Ok l, s') -> e ∈ l -> entry_from c key s v e.
Proof.
  intros Ho. unfold entry. case_bool_decide as Hk.
  - destruct (read v); [by intros [= <- _] ->%list_elem_of_singleton|].
    destruct (v_secure c) eqn:Es; cbn [negb orb]; [|by intros [= <- _] ?%not_elem_of_nil].
    destruct (negb (v_live c)); [by intros [= <- _] ?%not_elem_of_nil|].
    unfold try_catch, bind.
    destruct (match Lifetimes.held s (messageId v) with
              | Some r => read r || negb (bool_decide (lifetimeKind r = KindBurn)) | None => true end) eqn:En.
    { rewrite (Lifetimes.openBurn_None key (messageId v) s En). by intros [= <- _] ->%list_elem_of_singleton. }
    destruct (Lifetimes.held s (messageId v)) as [r|] eqn:Eh; [|done].
    apply orb_false_iff in En as [Hr Hb]. apply negb_false_iff, bool_decide_eq_true in Hb.
    destruct (Lifetimes.openBurn_Some key (messageId v) s r Ho Eh Hr Hb) as (s1 & -> & _ & _).
    destruct (Vault.open key r) as [p|ex] eqn:Eo; cbn [rmap]; [|by intros [= <- _] ?%not_elem_of_nil].
    intros [= <- _] ->%list_elem_of_singleton. cbn. split; [|auto]. exists r, p.
    split; [exact (kv_id _ _ _ Ho Eh)|]. split; [right; done | done].
  - destruct (Vault.open key v) as [p|ex] eqn:Eo; [|by intros [= <- _] ?%not_elem_of_nil].
    unfold bind, Lifetimes.now, gets, ret. intros [= <- _] ->%list_elem_of_singleton. cbn.
    split; [exists v, p; split_and!; try done; by left|]. split; [done|]. split; [by right|]. by destruct (lifetimeKind v).
Qed.

(** What is still to be opened after an entry was there before it. *)
Lemma entry_from_earlier c key w s x s1 v e :
  Lifetimes.ok s -> entry text_decode c key w s = (Ok x, s1) -> entry_from c key s1 v e -> entry_from c key s v e.
Proof.
  intros Ho Ex. destruct (entry_effect c key w s Ho) as (y & s2 & Ey & _ & D). rewrite Ex in Ey. injection Ey as <- <-.
  destruct D as [->|(_ & _ & r0 & p0 & _ & _ & _ & _ & Hh)]; [done|]. destruct e as [| |sender text lt rem at_ ctl]; try done.
  intros ((r & p & Hid & Ha & Hop & Ht) & Hrest). split; [|done]. exists r, p. split_and!; try done.
  destruct Ha as [->|(Ha & Hk & Hr)]; [by left|]. right. rewrite Hh in Ha. case_decide; [|done].
  injection Ha as <-. by cbn in Hr.
Qed.

Lemma entries_sound c key l : forall s log s' e,
  Lifetimes.ok s -> entries text_decode c key l s = (Ok log, s') -> e ∈ log -> exists v, v ∈ l /\ entry_from c key s v e.
Proof.
  induction l as [|v l IH]; intros s log s' e Ho E.
  { injection E as <- <-. by intros ?%not_elem_of_nil. }
  destruct (entry_effect c key v s Ho) as (x & s1 & Ex & O1 & _). rewrite (entries_cons _ _ _ _ _ _ _ Ex) in E.
  destruct (entries text_decode c key l s1) as [[y|ex] s2] eqn:Ey; [|done]. injection E as <- <-.
  intros [Hin|Hin]%elem_of_app.
  - exists v. split; [left | exact (entry_sound c key v s x s1 e Ho Ex Hin)].
  - destruct (IH s1 y s2 e O1 Ey Hin) as (u & Hu & Hf). exists u. split; [by right|].
    by eapply (entry_from_earlier c key v s).
Qed.

(** Every listed record that is not burn-on-read and opens under our key has its entry. *)
Lemma entries_complete c key l v p : forall s log s',
  Lifetimes.ok s -> entries text_decode c key l s = (Ok log, s') -> v ∈ l -> lifetimeKind v <> KindBurn ->
  Vault.open key v = Ok p -> exists sender lt left at_ ctl, LogMessage sender (text_decode p) lt left at_ ctl ∈ log.
Proof.
  induction l as [|w l IH]; intros s log s' Ho E Hv Hk Hop; [by apply not_elem_of_nil in Hv|].
  destruct (entry_effect c key w s Ho) as (x & s1 & Ex & O1 & _). rewrite (entries_cons _ _ _ _ _ _ _ Ex) in E.
  destruct (entries text_decode c key l s1) as [[y|ex] s2] eqn:Ey; [|done]. injection E as <- <-.
  apply elem_of_cons in Hv as [->|Hv].
  - unfold entry in Ex. rewrite bool_decide_eq_false_2, Hop in Ex by done.
    unfold bind, Lifetimes.now, gets, ret in Ex. injection Ex as <- _. by do 5 eexists; left.
  - destruct (IH s1 y s2 O1 Ey Hv Hk Hop) as (sn & lt & lf & at_ & ctl & Hin). exists sn, lt, lf, at_, ctl.
    apply elem_of_app. by right.
Qed.

(** Every text of a transcript is the plaintext of a listed record under the key of the unlocked
    account; burn-on-read text needs a secure view; and a revoke control is put only on an
    until-revoked message of this conversation that this account authored. *)
Theorem transcript_sound c key l s log s' sender text lifetime left at_ ctl :
  Lifetimes.ok s -> transcript text_decode c key l s = (Ok log, s') ->
  LogMessage sender text lifetime left at_ ctl ∈ log ->
  exists v, v ∈ l /\ sender = sender_of c v /\
    (exists r p, messageId r = messageId v /\ Vault.open key r = Ok p /\ text = text_decode p) /\
    (lifetime = BurnOnRead -> v_secure c = true) /\
    forall mid, ctl = Some mid -> mid = messageId v /\ conversationId v = v_id c /\ lifetimeKind v = KindUntilRevoked /\
      (direction v = DirOut \/ ownAuthored v = Some true).
Proof.
  intros Ho E Hin. destruct (transcript_run c key l s Ho) as (s1 & log1 & s2 & _ & [O1 _] & Ee & _ & Et).
  rewrite Et in E. injection E as <- <-. destruct (entries_sound c key _ s1 log1 s2 _ O1 Ee Hin) as (v & Hv & Hf).
  rewrite sort_by_perm in Hv. destruct Hf as ((r & p & Hid & _ & Hop & Ht) & Hsnd & Hctl & Hb).
  exists v. split_and!; try done; [by exists r, p|].
  intros mid ->. destruct Hctl as [|Hctl]; [done|]. unfold control_of in Hctl.
  destruct (bool_decide (lifetimeKind v = KindUntilRevoked)) eqn:E1; [|done].
  destruct (bool_decide (direction v = DirOut) || bool_decide (ownAuthored v = Some true)) eqn:E2; [|done].
  destruct (bool_decide (conversationId v = v_id c)) eqn:E3; [|done]. injection Hctl as <-.
  apply bool_decide_eq_true in E1, E3. apply orb_true_iff in E2. rewrite !bool_decide_eq_true in E2. done.
Qed.

(** In the view that starts its countdown, a received message is shown as one whose countdown has
    not started: its full duration and no expiry, although the stored record now has one. *)
Theorem first_view_shows_no_countdown c key v s p d :
  Lifetimes.ok s -> v_live c = true -> v_isSelf c = false -> direction v = DirIn ->
  Lifetimes.held s (messageId v) = Some v -> lifetimeKind v = KindDuration -> expiresAtMs v = None ->
  durationSeconds v = Some d -> 0 < d -> Vault.open key v = Ok p ->
  exists s', transcript text_decode c key [v] s =
      (Ok [LogMessage (v_peer c) (text_decode p) (Duration d) (Some d) None None], s') /\
    exists r, Lifetimes.held s' (messageId v) = Some r /\ expiresAtMs r = Some (clock s + d * 1000).
Proof.
  intros Ho Hlive Hself Hdir Hh Hk He Hd Hpos Hopen.
  destruct (Lifetimes.armOnView_run (messageId v) s v d Ho Hh Hk He Hd Hpos) as (s1 & E1 & O1 & Hh1 & Hexp & _).
  assert (Lifetimes.armOnView (messageId v) (Some v) s = (Ok tt, s1)) as E.
  { unfold Lifetimes.armOnView in *. assert (Lifetimes.no_countdown v = false) as ->
      by (unfold Lifetimes.no_countdown; by rewrite Hk, He). exact E1. }
  assert (arm_views c [v] s = (Ok tt, s1)) as Ea.
  { unfold arm_views. cbn [for_each]. rewrite Hdir, Hlive, bool_decide_eq_true_2 by done. cbn [andb].
    by rewrite (bind_run E). }
  exists s1. split; [|by eexists]. unfold transcript. rewrite (bind_run Ea). cbn [sort_by insert_by entries].
  unfold entry. rewrite Hk, Hopen, He, Hd. rewrite bool_decide_eq_false_2 by done.
  unfold bind, Lifetimes.now, gets, ret, sender_of, control_of. by rewrite Hdir, Hself, Hk.
Qed.

End laws.

End Transcript.
