(* ===== verification/Controller.v ===== *)
(** * The controller: account and settings (client/src/controller.ts, lines 217-321, 752-956,
      1476-1570, 1635-1760, 1940-2195)

    The object the worker exposes to the page.  It holds the unlocked account and the stores, and
    passes messages to the group channel.  Its methods run here one at a time, each to its end; the
    group channel is an interface, [GroupView] for what is asked of it and [GroupCommands] for what
    it is told to do. *)

From S2P Require Import Prelude Json Session Vault Lifetime Idb Integrity Auth Contacts.

(** [JSON.stringify] and [JSON.parse]. *)
Class JsonText := {
  stringify : json -> string;
  parse : string -> result json
}.
Class JsonTextLaws `{JsonText} := parse_stringify j : parse (stringify j) = Ok j.

(** The questions the controller asks the group channel. *)
Class GroupView (G : Type) := {
  gv_selfConversationId : M G (option string);
  gv_isSelfConversationId : string -> M G bool;
  gv_heldConversationIds : M G (list string);
  gv_isUnlinkedConversationId : string -> M G bool;
  gv_selfClassificationReason : string -> M G string;
  gv_peerAccountKeysFor : string -> M G (list string);
  gv_roster : string -> M G (list string);
  gv_peerRoster : string -> M G (list string);
  gv_selfGroupDiagnostic : M G string
}.

(** What it tells the group channel to do, up to the settlement of the promise.  What a command calls
    back ([saveChannel], [persistLiveMessage], ...) is an operation of its own. *)
Class GroupCommands (G : Type) := {
  gc_connectGateway : string -> M G bool;
  gc_openSelfConversation : M G string;
  gc_sendMessage : string -> string -> option Lifetime -> M G unit;
  gc_revokeMessage : string -> string -> M G unit;
  gc_closeConversation : string -> M G unit;
  gc_abandonDeadSelfGroup : string -> bool -> M G bool;
  gc_excludeEverywhere : string -> M G unit;
  gc_recoverWithSeed : string -> Z -> M G unit
}.

(** The at-rest seal of the crypto core: a conversation under the raw key, and back. *)
Class SealedConversation (Conv : Type) := {
  sealConversation : Conv -> bytes -> bytes;
  restoreConversation : bytes -> bytes -> result Conv
}.

(** The fields that live in memory only. *)
Record Memory (Key : Type) := MkMemory {
  mskKey : option Key;
  mskRaw : option bytes;
  account : option string;
  aakSeedHex : option string;
  freshRecoverySecret : option string;
  selfConvId : option string;
  selfGroupIdsCache : option (list string);
  historyOff : bool
}.
Arguments MkMemory {_} _ _ _ _ _ _ _ _.
Arguments mskKey {_} _.
Arguments mskRaw {_} _.
Arguments account {_} _.
Arguments aakSeedHex {_} _.
Arguments freshRecoverySecret {_} _.
Arguments selfConvId {_} _.
Arguments selfGroupIdsCache {_} _.
Arguments historyOff {_} _.

(** The object: its memory, the sealed-session store and the vault ([db]; [sessions] says whether the
    former is wired), the channel rows, the lifetime manager over the message store, the group
    channel, and the records of Contacts.v.  [lifetime] is null when [group] is. *)
Record Controller (Key W G : Type) := MkController {
  memory : Memory Key;
  sessions : bool;
  db : Db;
  channels : ChannelStore;
  manager : Manager Keyvault W;
  group : option G;
  contacts : Contacts.State
}.
Arguments MkController {_ _ _} _ _ _ _ _ _ _.
Arguments memory {_ _ _} _.
Arguments sessions {_ _ _} _.
Arguments db {_ _ _} _.
Arguments channels {_ _ _} _.
Arguments manager {_ _ _} _.
Arguments group {_ _ _} _.
Arguments contacts {_ _ _} _.

Module Controller.

Definition locked : exn := JsError "locked".
Definition no_group : exn := JsError "group channel needs the gateway and the owning worker".

Definition to_lower (s : string) : string := toLowerCase s.

(** [new Set(s).add(x)]: insertion order. *)
Definition set_add (x : string) (s : list string) : list string :=
  if bool_decide (x ∈ s) then s else s ++ [x].

Section controller.
Context {Key W G Conv : Type} `{Aead Key} `{Random W} `{DeriveKek} `{Sha256} `{JsonText} `{GroupView G} `{GroupCommands G}
  `{SealedConversation Conv}.

Definition St : Type := Controller Key W G.

(** ** Access to the parts *)

Definition set_memory (m : Memory Key) (s : St) : St :=
  MkController m (sessions s) (db s) (channels s) (manager s) (group s) (contacts s).
Definition on_memory (f : Memory Key -> Memory Key) : M St unit := modify (fun s => set_memory (f (memory s)) s).
Definition on_db {A} (m : M Db A) : M St A :=
  zoom db (fun d s => MkController (memory s) (sessions s) d (channels s) (manager s) (group s) (contacts s)) m.
Definition on_channels {A} (m : M ChannelStore A) : M St A :=
  zoom channels (fun c s => MkController (memory s) (sessions s) (db s) c (manager s) (group s) (contacts s)) m.
Definition on_manager {A} (m : M (Manager Keyvault W) A) : M St A :=
  zoom manager (fun x s => MkController (memory s) (sessions s) (db s) (channels s) x (group s) (contacts s)) m.
Definition on_keyvault {A} (m : M Keyvault A) : M St A := on_manager (Lifetimes.on_store m).
Definition on_world {A} (m : M W A) : M St A := on_manager (Lifetimes.on_world m).
Definition on_contacts {A} (p : Contacts.prog A) : M St A :=
  zoom contacts (fun c s => MkController (memory s) (sessions s) (db s) (channels s) (manager s) (group s) c)
    (fun c => let (a, c') := Contacts.run p c in (Ok a, c')).
(** [this.groupChannel?.m() ?? d] *)
Definition on_group {A} (d : A) (m : M G A) : M St A := fun s =>
  match group s with
  | None => (Ok d, s)
  | Some g => let '(r, g') := m g in
              (r, MkController (memory s) (sessions s) (db s) (channels s) (manager s) (Some g') (contacts s))
  end.
(** [this.requireGroup().m()] *)
Definition require_group {A} (m : M G A) : M St A := fun s =>
  match group s with
  | None => (Throw no_group, s)
  | Some g => let '(r, g') := m g in
              (r, MkController (memory s) (sessions s) (db s) (channels s) (manager s) (Some g') (contacts s))
  end.
Definition has_group : M St bool := gets (fun s => match group s with Some _ => true | None => false end).
(** [this.lifetime?.m()] *)
Definition on_lifetime (m : M (Manager Keyvault W) unit) : M St unit :=
  let! live := has_group in if live then on_manager m else ret tt.

(** [m.catch(() => { ... })] *)
Definition best_effort (m : M St unit) : M St unit := try_catch m (fun _ => ret tt).

Definition requireKey : M St Key :=
  let! k := gets (fun s => mskKey (memory s)) in
  match k with Some k => ret k | None => throw locked end.
Definition requireAccount : M St string :=
  let! a := gets (fun s => account (memory s)) in
  match a with Some a => ret a | None => throw locked end.

(** Setters of the memory. *)
Definition set_login (k : option Key) (raw : option bytes) (a : option string) : M St unit :=
  on_memory (fun m => MkMemory k raw a (aakSeedHex m) (freshRecoverySecret m) (selfConvId m) (selfGroupIdsCache m) (historyOff m)).
Definition set_seed (x : option string) : M St unit :=
  on_memory (fun m => MkMemory (mskKey m) (mskRaw m) (account m) x (freshRecoverySecret m) (selfConvId m) (selfGroupIdsCache m) (historyOff m)).
Definition set_fresh (x : option string) : M St unit :=
  on_memory (fun m => MkMemory (mskKey m) (mskRaw m) (account m) (aakSeedHex m) x (selfConvId m) (selfGroupIdsCache m) (historyOff m)).
Definition set_selfConv (x : option string) : M St unit :=
  on_memory (fun m => MkMemory (mskKey m) (mskRaw m) (account m) (aakSeedHex m) (freshRecoverySecret m) x (selfGroupIdsCache m) (historyOff m)).
Definition set_cache (x : option (list string)) : M St unit :=
  on_memory (fun m => MkMemory (mskKey m) (mskRaw m) (account m) (aakSeedHex m) (freshRecoverySecret m) (selfConvId m) x (historyOff m)).
Definition set_history (x : bool) : M St unit :=
  on_memory (fun m => MkMemory (mskKey m) (mskRaw m) (account m) (aakSeedHex m) (freshRecoverySecret m) (selfConvId m) (selfGroupIdsCache m) x).

(** ** Sealed records *)

(** Template literals: [null] prints as such. *)
Definition of_account (prefix : string) : M St string :=
  let! a := gets (fun s => account (memory s)) in ret (prefix +:+ default "null" a).
Definition selfKey : M St string := let! a := requireAccount in ret ("self:" +:+ a).
Definition aakKey : M St string := of_account "aak:".
Definition historyKey : M St string := of_account "history:".
Definition selfGroupsKey : M St string := of_account "selfgroups:".
Definition closedChannelsKey : M St string := of_account "closedchannels:".
Definition welcomeOutboxKey : M St string :=
  let! a := gets (fun s => account (memory s)) in ret ("welcome-outbox:" +:+ default "" a).
Definition presenceOnKey : M St string := of_account "presence-on:".
Definition notifyOnKey : M St string := of_account "notify-on:".
Definition appearanceKey : M St string := of_account "theme:".
Definition channelAad (id : string) : string := "channel:" +:+ id.

Definition load (k : string) : M St (option bytes) :=
  let! r := on_db (SealedSessions.load k) in ret (ss_sealed <$> r).
Definition save (k : string) (b : bytes) : M St unit := on_db (SealedSessions.save (MkSealedSession k b)).

(** [JSON.parse(dec.decode(await openUnder(key, sealed, label)))] and its inverse. *)
Definition open_json (key : Key) (sealed : bytes) (label : string) : result json :=
  let? raw := Vault.openUnder key sealed label in parse (text_decode_bytes raw).
Definition seal_json (key : Key) (label : string) (v : json) : M St bytes :=
  on_world (Vault.sealUnder key (text_encode (stringify v)) label).

(** [this.sessions === undefined || this.account === null] *)
Definition not_ready : M St bool :=
  gets (fun s => negb (sessions s) || match account (memory s) with None => true | Some _ => false end).

(** A setting: [d] before it is set, when locked, or when the record does not open. *)
Definition read_setting {A} (d : A) (f : json -> A) (keyName : M St string) : M St A :=
  let! out := not_ready in
  if out then ret d else
  let! key := requireKey in
  let! k := keyName in
  let! rec := load k in
  match rec with
  | None => ret d
  | Some sealed => ret (match open_json key sealed k with Ok v => f v | Throw _ => d end)
  end.
(** The same with [requireKey] inside the [try]. *)
Definition read_record {A} (d : A) (f : json -> A) (keyName : M St string) : M St A :=
  let! out := not_ready in
  if out then ret d else
  let! k := keyName in
  let! rec := load k in
  match rec with
  | None => ret d
  | Some sealed =>
      try_catch (let! key := requireKey in let! v := of_result (open_json key sealed k) in ret (f v)) (fun _ => ret d)
  end.
Definition write_setting (v : json) (keyName : M St string) : M St unit :=
  let! out := not_ready in
  if out then ret tt else
  let! key := requireKey in
  let! k := keyName in
  let! sealed := seal_json key k v in
  save k sealed.

Definition is_true (v : json) : bool := match v with JBool true => true | _ => false end.
Definition is_false (v : json) : bool := match v with JBool false => true | _ => false end.

Definition getPresenceEnabled : M St bool := read_setting false is_true presenceOnKey.
Definition setPresenceEnabled (on : bool) : M St unit := write_setting (JBool on) presenceOnKey.
Definition getNotifyEnabled : M St bool := read_setting true (fun v => negb (is_false v)) notifyOnKey.
Definition setNotifyEnabled (on : bool) : M St unit := write_setting (JBool on) notifyOnKey.
Definition getAppearance : M St json := read_setting JNull id appearanceKey.
Definition setAppearance (v : json) : M St unit := write_setting v appearanceKey.

(** The strings of an array; anything else has none. *)
Definition string_of (v : json) : option string := match v with JStr s => Some s | _ => None end.
Definition js_set (l : list string) : list string := foldl (fun s x => set_add x s) [] l.
Definition string_set (v : json) : list string :=
  match v with JArr l => js_set (omap string_of l) | _ => [] end.
Definition json_of_set (s : list string) : json := JArr (JStr <$> s).

Definition loadClosedChannelIds : M St (list string) := read_record [] string_set closedChannelsKey.
(** Under the Web Lock of the record, or alone: one writer at a time either way. *)
Definition recordClosedChannelId (conversationId : string) : M St unit :=
  let! out := not_ready in
  if out then ret tt else
  let! fresh := loadClosedChannelIds in
  let! key := requireKey in
  let! k := closedChannelsKey in
  let! sealed := seal_json key k (json_of_set (set_add conversationId fresh)) in
  save k sealed.

Definition loadSelfGroupIds : M St (list string) :=
  let! cached := gets (fun s => selfGroupIdsCache (memory s)) in
  match cached with
  | Some ids => ret ids
  | None =>
      let! out := not_ready in
      if out then ret [] else
      let! ids := read_record [] string_set selfGroupsKey in
      do! set_cache (Some ids) in
      ret ids
  end.

Definition recordSelfGroupIds (ids : list string) : M St unit :=
  let! out := not_ready in
  if out then ret tt else
  do! set_cache (Some ids) in
  let! key := requireKey in
  let! k := selfGroupsKey in
  let! sealed := seal_json key k (json_of_set ids) in
  save k sealed.

(** The entries of the Welcome outbox that have the four fields. *)
Definition is_pending_welcome (e : json) : bool :=
  is_string (prop e "conversationId") && is_string (prop e "deviceKey") && is_string (prop e "welcomeHex") &&
  match prop e "createdAt" with Some (JNum _) => true | _ => false end.
(** An [undefined] element cannot be in parsed JSON; a property of a string or number is not one. *)
Definition loadWelcomeOutbox : M St (list json) :=
  read_record [] (fun v => match v with JArr l => List.filter is_pending_welcome l | _ => [] end) welcomeOutboxKey.
Definition saveWelcomeOutbox (entries : list json) : M St unit := write_setting (JArr entries) welcomeOutboxKey.

(** ** History off *)

Definition applyHistoryMode : M St unit :=
  let! off := gets (fun s => historyOff (memory s)) in
  do! on_keyvault (Keyvault.setEphemeral off) in
  on_channels (Channels.setEphemeral off).

Definition hydrateHistoryMode : M St unit :=
  do! set_history false in
  let! wired := gets sessions in
  if negb wired then ret tt else
  do! try_catch
    (let! k := historyKey in
     let! rec := load k in
     match rec with
     | None => ret tt
     | Some sealed =>
         let! key := requireKey in
         let! v := of_result (open_json key sealed k) in
         set_history (is_true v)
     end)
    (fun _ => set_history false) in
  applyHistoryMode.

Definition setHistoryOff (on purgeExisting : bool) : M St unit :=
  let! wired := gets sessions in
  if negb wired then ret tt else
  let! key := requireKey in
  let! k := historyKey in
  let! sealed := seal_json key k (JBool on) in
  do! save k sealed in
  do! set_history on in
  do! applyHistoryMode in
  if on && purgeExisting then
    do! on_keyvault Keyvault.purgeDurable in
    on_channels Channels.purgeDurable
  else ret tt.

(** ** Logging in and out *)

Definition accountIdFor (username : string) : string := bytesToHex (sha256 (text_encode (Auth.normalizeUsername username))).
Definition credentialFor (username passphrase : string) : string :=
  Auth.normalizeUsername username +:+ String (Ascii.ascii_of_nat 31) passphrase.

Inductive unlock_result :=
  | UnlockFailed (error : string)
  | Unlocked (created : bool).

(** A call of the vault. *)
Definition on_vault {A} (m : M (Db * W) A) : M St A := fun s =>
  let '(r, (d, w)) := m (db s, world (manager s)) in
  let mgr := manager s in
  (r, MkController (memory s) (sessions s) d (channels s)
        (MkManager (timers mgr) (store mgr) (clock mgr) (scheduled mgr) (nextHandle mgr) (erased mgr) w)
        (group s) (contacts s)).

Definition unlock (username passphrase : string) : M St unlock_result :=
  if bool_decide (Auth.trim username = "") then ret (UnlockFailed "enter a username") else
  if bool_decide (passphrase = "") then ret (UnlockFailed "enter a passphrase") else
  let acc := accountIdFor username in
  let credential := credentialFor username passphrase in
  let! raw := on_vault (MskVault.unlock (Key := Key) acc credential) in
  let! opened :=
    match raw with
    | Some raw => ret (Some (raw, false))
    | None =>
        let! known := on_vault (MskVault.exists_ acc) in
        if known then ret None else
        let! raw := on_vault (MskVault.create (Key := Key) acc credential) in
        ret (Some (raw, true))
    end in
  match opened with
  | None => ret (UnlockFailed "wrong username or passphrase")
  | Some (raw, created) =>
      let! live := has_group in
      let! held := gets (fun s => mskRaw (memory s)) in
      do! set_login (Some (importKey raw)) (if live then Some raw else held) (Some acc) in
      do! hydrateHistoryMode in
      do! on_lifetime Lifetimes.sweepExpired in
      ret (Unlocked created)
  end.

Definition verifyPassphrase (username passphrase : string) : M St bool :=
  if bool_decide (Auth.trim username = "") || bool_decide (passphrase = "") then ret false else
  let! raw := on_vault (MskVault.unlock (Key := Key) (accountIdFor username) (credentialFor username passphrase)) in
  ret (match raw with Some _ => true | None => false end).

Definition delete_sealed (k : string) : M St unit :=
  let! wired := gets sessions in if wired then on_db (SealedSessions.delete k) else ret tt.

Definition discardAccount (username : string) : M St unit :=
  let acc := accountIdFor username in
  do! delete_sealed ("self:" +:+ acc) in
  do! delete_sealed ("authorized:" +:+ acc) in
  do! delete_sealed ("aak:" +:+ acc) in
  do! on_vault (MskVault.delete acc) in
  set_login None None None.

(** ** The recovery seed and the authorization of the device *)

(** [this.sessions?.load(k)] *)
Definition load_opt (k : string) : M St (option bytes) :=
  let! wired := gets sessions in if wired then load k else ret None.
Definition save_opt (k : string) (b : bytes) : M St unit :=
  let! wired := gets sessions in if wired then save k b else ret tt.

Definition loadAccountSeed : M St string :=
  let! cached := gets (fun s => aakSeedHex (memory s)) in
  match cached with
  | Some seed => ret seed
  | None =>
      let! key := requireKey in
      let! k := aakKey in
      let! rec := load_opt k in
      match rec with
      | None => ret ""
      | Some sealed =>
          let! seed := of_result (Vault.openUnder key sealed k) in
          do! set_seed (Some (bytesToHex seed)) in
          ret (bytesToHex seed)
      end
  end.

Definition ensureAccountSeed : M St unit :=
  let! key := requireKey in
  let! k := aakKey in
  let! rec := load_opt k in
  match rec with
  | Some _ => ret tt
  | None =>
      let! seed := on_world (randomBytes 32) in
      let! sealed := on_world (Vault.sealUnder key seed k) in
      do! save_opt k sealed in
      do! set_seed (Some (bytesToHex seed)) in
      set_fresh (Some (bytesToHex seed))
  end.

Definition recoverySecret : M St (option string) :=
  let! s := gets (fun s => freshRecoverySecret (memory s)) in
  do! set_fresh None in
  ret s.

(** [recoverySeedHex.trim().toLowerCase().replace(/\s+/g, '')] *)
Definition clean_seed (s : string) : string :=
  String.string_of_list_ascii (List.filter (fun c => negb (is_space c)) (plain_blanks (String.list_ascii_of_string (toLowerCase (Auth.trim s))))).

(** [None] is [{ ok: true }], otherwise the error. *)
Definition recoverWithSeed (recoverySeedHex : string) (epoch : Z) : M St (option string) :=
  let seedHex := clean_seed recoverySeedHex in
  if negb (Contacts.is_key seedHex) then ret (Some "that does not look like a recovery secret") else
  let! ok := try_catch (do! require_group (gc_recoverWithSeed seedHex epoch) in ret true) (fun _ => ret false) in
  if negb ok then ret (Some "could not recover with that secret") else
  let! key := requireKey in
  let! k := aakKey in
  let! sealed := on_world (Vault.sealUnder key (hexToBytes seedHex) k) in
  do! save_opt k sealed in
  do! set_seed (Some seedHex) in
  ret None.

(** [loadSelf], [saveSelf] and [resealSelf]: the identity, sealed by the crypto core under the raw key. *)
Definition no_identity_store : M St bool :=
  gets (fun s => match group s, mskRaw (memory s) with Some _, Some _ => negb (sessions s) | _, _ => true end).
Definition raw_key : M St bytes := gets (fun s => default [] (mskRaw (memory s))).

Definition loadSelf : M St (option Conv) :=
  let! out := no_identity_store in
  if out then ret None else
  let! k := selfKey in
  let! rec := load k in
  match rec with
  | None => ret None
  | Some sealed =>
      let! raw := raw_key in
      ret (match restoreConversation raw sealed with Ok c => Some c | Throw _ => None end)
  end.

Definition saveSelf (conv : Conv) : M St unit :=
  let! out := no_identity_store in
  if out then ret tt else
  let! k := selfKey in
  let! rec := load k in
  match rec with
  | Some _ => ret tt
  | None =>
      let! raw := raw_key in
      save k (sealConversation conv raw)
  end.

Definition resealSelf (conv : Conv) : M St bool :=
  let! out := no_identity_store in
  if out then ret false else
  let! raw := raw_key in
  let! k := selfKey in
  do! save k (sealConversation conv raw) in
  let! a := requireAccount in
  do! save ("authorized:" +:+ a) [1] in
  ret true.

Definition isGroupReady : M St bool :=
  let! out := not_ready in
  if out then ret false else
  let! k := aakKey in
  let! seed := load k in
  match seed with
  | Some _ => ret true
  | None =>
      let! a := requireAccount in
      let! r := load ("authorized:" +:+ a) in
      ret (match r with Some _ => true | None => false end)
  end.

Definition deviceAuthState : M St (bool * bool) :=
  let! out := not_ready in
  if out then ret (true, false) else
  let! k := aakKey in
  let! seed := load k in
  let! authorized := isGroupReady in
  ret (authorized, match seed with Some _ => true | None => false end).

End controller.
End Controller.
