(* ===== verification/ControllerFacts.v ===== *)
(** * Theorems on the account and the settings (Controller.v)

    What login, the settings, the recovery seed and the abandonment of an account do to the records
    of the device and to what stays in memory. *)

From S2P Require Import Prelude Json Session Vault Lifetime Idb Integrity Auth Contacts Controller.

Module ControllerFacts.
Import Controller.

(** ** What a method leaves alone *)

Section frame.
Context {S : Type}.

Definition leaves {X A} (f : S -> X) (m : M S A) : Prop := forall s, f (m s).2 = f s.

Lemma leaves_ret {X A} (f : S -> X) (a : A) : leaves f (ret a).
Proof. done. Qed.
Lemma leaves_throw {X A} (f : S -> X) e : leaves f (throw (A := A) e).
Proof. done. Qed.
Lemma leaves_gets {X A} (f : S -> X) (g : S -> A) : leaves f (gets g).
Proof. done. Qed.
Lemma leaves_of_result {X A} (f : S -> X) (r : result A) : leaves f (of_result r).
Proof. done. Qed.
Lemma leaves_bind {X A B} (f : S -> X) (m : M S A) (k : A -> M S B) :
  leaves f m -> (forall a, leaves f (k a)) -> leaves f (bind m k).
Proof.
  intros Hm Hk s. unfold bind. specialize (Hm s). destruct (m s) as [[a|e] s']; cbn in *; [|done]. by rewrite Hk.
Qed.
Lemma leaves_try {X A} (f : S -> X) (m : M S A) h :
  leaves f m -> (forall e, leaves f (h e)) -> leaves f (try_catch m h).
Proof.
  intros Hm Hh s. unfold try_catch. specialize (Hm s). destruct (m s) as [[a|e] s']; cbn in *; [done|]. by rewrite Hh.
Qed.
Lemma leaves_zoom {X T A} (f : S -> X) (proj : S -> T) upd (m : M T A) :
  (forall t s, f (upd t s) = f s) -> leaves f (zoom proj upd m).
Proof. intros Hu s. unfold zoom. destruct (m (proj s)). apply Hu. Qed.
Lemma leaves_modify {X} (f : S -> X) g : (forall s, f (g s) = f s) -> leaves f (modify g).
Proof. done. Qed.
End frame.

Create HintDb frame.

(** Walk through a method. *)
Ltac frame_step :=
  match goal with
  | |- forall _, _ => intros
  | |- leaves _ (ret _) => apply leaves_ret
  | |- leaves _ (throw _) => apply leaves_throw
  | |- leaves _ (gets _) => apply leaves_gets
  | |- leaves _ (of_result _) => apply leaves_of_result
  | |- leaves _ (bind _ _) => apply leaves_bind
  | |- leaves _ (try_catch _ _) => apply leaves_try
  | |- leaves _ (zoom _ _ _) => apply leaves_zoom
  | |- leaves _ (modify _) => apply leaves_modify
  | |- leaves _ _ => solve [auto 2 with frame nocore]
  | |- leaves _ _ => case_match
  end.
Ltac frame := repeat frame_step; try done.

Section controller.
Context {Key W G Conv : Type} `{Aead Key} `{Random W} `{DeriveKek} `{Sha256} `{JsonText} `{GroupView G} `{GroupCommands G}
  `{SealedConversation Conv}.
Notation St := (Controller Key W G).
Implicit Types s : St.

Lemma leaves_on_vault {X A} (f : St -> X) (m : M (Db * W) A) :
  (forall s d w, f (MkController (memory s) (sessions s) d (channels s)
       (MkManager (timers (manager s)) (store (manager s)) (clock (manager s)) (scheduled (manager s))
          (nextHandle (manager s)) (erased (manager s)) w) (group s) (contacts s)) = f s) ->
  leaves f (on_vault m).
Proof. intros Hf s. unfold on_vault. destruct (m _) as [r [d w]]. apply Hf. Qed.

#[local] Hint Extern 1 (leaves _ (on_vault _)) => apply leaves_on_vault; done : frame.

(** ** Abandoning an account *)

(** What the session derived from the account. *)
Definition derived s : option string * option string * option string * option (list string) :=
  (aakSeedHex (memory s), freshRecoverySecret (memory s), selfConvId (memory s), selfGroupIdsCache (memory s)).

Lemma discard_leaves u : leaves derived (discardAccount (G := G) u).
Proof.
  unfold discardAccount, delete_sealed, on_db, set_login, on_memory. frame.
Qed.

Lemma unlock_leaves u p : leaves derived (unlock (Key := Key) (G := G) u p).
Proof.
  unfold unlock, has_group, set_login, on_memory, hydrateHistoryMode, applyHistoryMode, set_history,
    on_memory, historyKey, of_account, load, requireKey, on_db, on_keyvault, on_channels, on_lifetime, on_manager, has_group.
  frame.
Qed.

(** An account that was abandoned (a rejected registration, a refused enrolment) leaves its recovery
    seed, its unshown recovery secret and its self-group ids in memory: after the next login, whoever
    logs in, the seed loaded for the new account is the abandoned one. *)
Theorem abandoned_seed_survives u u' p' s seed :
  aakSeedHex (memory s) = Some seed ->
  let s' := (unlock u' p' (discardAccount u s).2).2 in
  (loadAccountSeed s').1 = Ok seed /\ freshRecoverySecret (memory s') = freshRecoverySecret (memory s) /\
  selfConvId (memory s') = selfConvId (memory s) /\ selfGroupIdsCache (memory s') = selfGroupIdsCache (memory s).
Proof.
  intros Hs s'. assert (derived s' = derived s) as [= E1 E2 E3 E4].
  { unfold s'. by rewrite unlock_leaves, discard_leaves. }
  split_and!; [|done..]. unfold loadAccountSeed, bind, gets. by rewrite E1, Hs.
Qed.

(** ** Sealed records *)

(** The account is unlocked and the store of sealed records is wired. *)
Definition unlocked s (key : Key) (a : string) : Prop :=
  mskKey (memory s) = Some key /\ account (memory s) = Some a /\ sessions s = true.

Definition record_at s (k : string) : option bytes := ss_sealed <$> JsMap.lookup k (STORE_MLS (db s)).
Definition saved (k : string) (b : bytes) s : St :=
  MkController (memory s) (sessions s) (with_mls (ObjectStore.put k (MkSealedSession k b)) (db s)) (channels s)
    (manager s) (group s) (contacts s).
Definition with_world (w : W) s : St :=
  MkController (memory s) (sessions s) (db s) (channels s)
    (MkManager (timers (manager s)) (store (manager s)) (clock (manager s)) (scheduled (manager s))
       (nextHandle (manager s)) (erased (manager s)) w) (group s) (contacts s).

Lemma load_run k s : load k s = (Ok (record_at s k), s).
Proof. by destruct s. Qed.
Lemma save_run k b s : save k b s = (Ok tt, saved k b s).
Proof. done. Qed.
Lemma record_saved k b s j : record_at (saved k b s) j = if decide (j = k) then Some b else record_at s j.
Proof.
  unfold record_at, saved, with_mls. cbn. rewrite ObjectStore.lookup_put. by case_decide.
Qed.
Lemma on_world_run {A} (m : M W A) s :
  on_world m s = ((m (world (manager s))).1, with_world (m (world (manager s))).2 s).
Proof.
  unfold on_world, on_manager, Lifetimes.on_world, zoom. by destruct (m _).
Qed.
Lemma requireKey_run s key a : unlocked s key a -> requireKey s = (Ok key, s).
Proof. intros (E & _). unfold requireKey, bind, gets. by rewrite E. Qed.
Lemma of_account_run s key a p : unlocked s key a -> of_account p s = (Ok (p +:+ a), s).
Proof. intros (_ & E & _). unfold of_account, bind, gets, ret. by rewrite E. Qed.
Lemma not_ready_run s key a : unlocked s key a -> not_ready s = (Ok false, s).
Proof. intros (_ & E & E'). unfold not_ready, gets. by rewrite E, E'. Qed.
Lemma unlocked_saved s key a k b : unlocked s key a -> unlocked (saved k b s) key a.
Proof. done. Qed.
Lemma unlocked_world s key a w : unlocked s key a -> unlocked (with_world w s) key a.
Proof. done. Qed.

Section laws.
Context `{!AeadLaws Key} `{!JsonTextLaws}.
(** [crypto.getRandomValues] fills the buffer. *)
Context (random_fills : forall n (w : W), exists b w', randomBytes n w = (Ok b, w') /\ length b = n).

Lemma openUnder_own key (nonce p : bytes) (label : string) :
  length nonce = 12%nat -> Vault.openUnder key (nonce ++ encrypt key nonce (text_encode label) p) label = Ok p.
Proof.
  intros Hn. unfold Vault.openUnder. rewrite (proj2 (Nat.ltb_ge _ _)) by (rewrite length_app; lia).
  unfold u8_slice. rewrite drop_0, take_app_length', drop_app_length' by lia.
  unfold Vault.subtle_decrypt. by rewrite decrypt_encrypt.
Qed.

(** What is sealed opens. *)
Lemma sealUnder_run key (p : bytes) label s :
  exists b w, on_world (Vault.sealUnder key p label) s = (Ok b, with_world w s) /\ Vault.openUnder key b label = Ok p.
Proof.
  rewrite on_world_run. unfold Vault.sealUnder, bind.
  destruct (random_fills 12 (world (manager s))) as (nonce & w & E & Hn). rewrite E. cbn.
  eexists _, _. split; [done|]. by apply openUnder_own.
Qed.
Lemma seal_json_run key label v s :
  exists b w, seal_json key label v s = (Ok b, with_world w s) /\ open_json key b label = Ok v.
Proof.
  destruct (sealUnder_run key (text_encode (stringify v)) label s) as (b & w & E & Ho). exists b, w.
  split; [exact E|]. unfold open_json. rewrite Ho. cbn. by rewrite text_decode_bytes_encode, parse_stringify.
Qed.

(** A record read back: [v] is the JSON sealed under [k]. *)
Definition holds s (key : Key) (k : string) (v : json) : Prop :=
  exists b, record_at s k = Some b /\ open_json key b k = Ok v.

Lemma read_setting_run {A} (d : A) f p s key a v :
  unlocked s key a -> holds s key (p +:+ a) v -> read_setting d f (of_account p) s = (Ok (f v), s).
Proof.
  intros U (b & Hb & Ho). unfold read_setting. rewrite (bind_run (not_ready_run _ _ _ U)).
  rewrite (bind_run (requireKey_run _ _ _ U)), (bind_run (of_account_run _ _ _ p U)), (bind_run (load_run _ _)).
  rewrite Hb. unfold ret. by rewrite Ho.
Qed.
Lemma read_record_run {A} (d : A) f p s key a v :
  unlocked s key a -> holds s key (p +:+ a) v -> read_record d f (of_account p) s = (Ok (f v), s).
Proof.
  intros U (b & Hb & Ho). unfold read_record. rewrite (bind_run (not_ready_run _ _ _ U)).
  rewrite (bind_run (of_account_run _ _ _ p U)), (bind_run (load_run _ _)), Hb.
  unfold try_catch. rewrite (bind_run (requireKey_run _ _ _ U)). unfold of_result, bind, ret. by rewrite Ho.
Qed.

Lemma write_setting_run v p s key a :
  unlocked s key a ->
  exists s', write_setting v (of_account p) s = (Ok tt, s') /\ unlocked s' key a /\ holds s' key (p +:+ a) v /\
    memory s' = memory s /\ forall k, k <> p +:+ a -> record_at s' k = record_at s k.
Proof.
  intros U. unfold write_setting. rewrite (bind_run (not_ready_run _ _ _ U)).
  rewrite (bind_run (requireKey_run _ _ _ U)), (bind_run (of_account_run _ _ _ p U)).
  destruct (seal_json_run key (p +:+ a) v s) as (b & w & E & Ho). rewrite (bind_run E), save_run.
  eexists. split; [done|]. split; [done|]. split; [|split].
  - exists b. split; [|done]. by rewrite record_saved, decide_True.
  - done.
  - intros k Hk. by rewrite record_saved, decide_False.
Qed.

(** A setting reads back as it was last written, in this session and, since only the sealed record
    is read, after any later login to the account; writing one leaves the records of the others. *)
Theorem settings_persist s key a (on on' : bool) (look : json) :
  unlocked s key a ->
  exists s1 s2 s3,
    setPresenceEnabled on s = (Ok tt, s1) /\ setNotifyEnabled on' s1 = (Ok tt, s2) /\
    setAppearance look s2 = (Ok tt, s3) /\
    forall s', unlocked s' key a -> db s' = db s3 ->
      getPresenceEnabled s' = (Ok on, s') /\ getNotifyEnabled s' = (Ok on', s') /\ getAppearance s' = (Ok look, s').
Proof.
  intros U. destruct (write_setting_run (JBool on) "presence-on:" s key a U) as (s1 & E1 & U1 & H1' & _).
  destruct (write_setting_run (JBool on') "notify-on:" s1 key a U1) as (s2 & E2 & U2 & H2' & _ & F2).
  destruct (write_setting_run look "theme:" s2 key a U2) as (s3 & E3 & U3 & H3' & _ & F3).
  exists s1, s2, s3. split_and!; [done..|]. intros s' U' Hd.
  assert (forall k, record_at s' k = record_at s3 k) as Hr by (intros k; unfold record_at; by rewrite Hd).
  assert (holds s' key ("presence-on:" +:+ a) (JBool on)) as P1.
  { destruct H1' as (b & Hb & Ho). exists b. by rewrite Hr, F3, F2. }
  assert (holds s' key ("notify-on:" +:+ a) (JBool on')) as P2.
  { destruct H2' as (b & Hb & Ho). exists b. by rewrite Hr, F3. }
  assert (holds s' key ("theme:" +:+ a) look) as P3.
  { destruct H3' as (b & Hb & Ho). exists b. by rewrite Hr. }
  split_and!.
  - unfold getPresenceEnabled. rewrite (read_setting_run _ _ _ _ _ _ _ U' P1). by destruct on.
  - unfold getNotifyEnabled. rewrite (read_setting_run _ _ _ _ _ _ _ U' P2). by destruct on'.
  - unfold getAppearance. by rewrite (read_setting_run _ _ _ _ _ _ _ U' P3).
Qed.

(** ** The recovery seed *)

Lemma load_opt_run k s key a : unlocked s key a -> load_opt k s = (Ok (record_at s k), s).
Proof. intros (_ & _ & E). unfold load_opt, bind, gets. rewrite E. apply load_run. Qed.
Lemma save_opt_run k b s key a : unlocked s key a -> save_opt k b s = (Ok tt, saved k b s).
Proof. intros (_ & _ & E). unfold save_opt, bind, gets. rewrite E. apply save_run. Qed.

(** The recovery seed is made once.  On a device that has none, making it seals it, the device is
    then authorized as a seed holder, the secret is shown once and never again, making it again
    changes nothing, and a later session that has forgotten it loads the same seed. *)
Theorem seed_made_once s key a :
  unlocked s key a -> record_at s ("aak:" +:+ a) = None ->
  exists seed s1 s2,
    length seed = 32%nat /\
    ensureAccountSeed s = (Ok tt, s1) /\
    deviceAuthState s1 = (Ok (true, true), s1) /\
    recoverySecret s1 = (Ok (Some (bytesToHex seed)), s2) /\
    recoverySecret s2 = (Ok None, s2) /\
    ensureAccountSeed s2 = (Ok tt, s2) /\
    forall s', unlocked s' key a -> db s' = db s1 -> aakSeedHex (memory s') = None ->
      (loadAccountSeed s').1 = Ok (bytesToHex seed).
Proof.
  intros U Hnone. destruct (random_fills 32 (world (manager s))) as (seed & w & Er & Hl).
  assert (Hw : on_world (randomBytes 32) s = (Ok seed, with_world w s)) by by rewrite on_world_run, Er.
  destruct (sealUnder_run key seed ("aak:" +:+ a) (with_world w s)) as (b & w' & Es & Ho).
  set (m := memory s).
  set (s1 := set_memory (MkMemory (mskKey m) (mskRaw m) (account m) (Some (bytesToHex seed)) (Some (bytesToHex seed))
                (selfConvId m) (selfGroupIdsCache m) (historyOff m)) (saved ("aak:" +:+ a) b (with_world w' (with_world w s)))).
  set (s2 := set_memory (MkMemory (mskKey m) (mskRaw m) (account m) (Some (bytesToHex seed)) None
                (selfConvId m) (selfGroupIdsCache m) (historyOff m)) s1).
  assert (U1 : unlocked s1 key a) by exact U. assert (U2 : unlocked s2 key a) by exact U.
  assert (R1 : record_at s1 ("aak:" +:+ a) = Some b).
  { change (record_at (saved ("aak:" +:+ a) b (with_world w' (with_world w s))) ("aak:" +:+ a) = Some b).
    by rewrite record_saved, decide_True. }
  exists seed, s1, s2. split; [done|]. split; [|split; [|split; [|split; [|split]]]].
  - unfold ensureAccountSeed. rewrite (bind_run (requireKey_run _ _ _ U)). unfold aakKey.
    rewrite (bind_run (of_account_run _ _ _ _ U)), (bind_run (load_opt_run _ _ _ _ U)), Hnone.
    rewrite (bind_run Hw), (bind_run Es), (bind_run (save_opt_run _ _ (with_world w' (with_world w s)) key a U)). done.
  - unfold deviceAuthState, isGroupReady, aakKey.
    rewrite (bind_run (not_ready_run _ _ _ U1)), (bind_run (of_account_run _ _ _ _ U1)), (bind_run (load_run _ _)), R1.
    assert (E : (let! out := not_ready in
      if out then ret false else
      let! k := of_account "aak:" in
      let! seed0 := load k in
      match seed0 with
      | Some _ => ret true
      | None => let! a0 := requireAccount in
                let! r := load ("authorized:" +:+ a0) in ret (match r with Some _ => true | None => false end)
      end) s1 = (Ok true, s1)).
    { by rewrite (bind_run (not_ready_run _ _ _ U1)), (bind_run (of_account_run _ _ _ _ U1)), (bind_run (load_run _ _)), R1. }
    by rewrite (bind_run E).
  - done.
  - done.
  - unfold ensureAccountSeed. rewrite (bind_run (requireKey_run _ _ _ U2)). unfold aakKey.
    rewrite (bind_run (of_account_run _ _ _ _ U2)), (bind_run (load_opt_run _ _ _ _ U2)).
    by replace (record_at s2 ("aak:" +:+ a)) with (Some b) by exact (eq_sym R1).
  - intros s' U' Hd Hs. unfold loadAccountSeed, aakKey. unfold bind at 1, gets. rewrite Hs.
    rewrite (bind_run (requireKey_run _ _ _ U')), (bind_run (of_account_run _ _ _ _ U')), (bind_run (load_opt_run _ _ _ _ U')).
    assert (R' : record_at s' ("aak:" +:+ a) = Some b) by (unfold record_at in *; by rewrite Hd).
    rewrite R'. unfold of_result. unfold bind at 1. by rewrite Ho.
Qed.

(** ** History off *)

(** Both stores in the mode. *)
Definition in_mode (off : bool) s : St :=
  let kv := store (manager s) in let mg := manager s in let ch := channels s in
  MkController (memory s) (sessions s) (db s) (MkChannelStore (ch_db ch) off (if off then ch_mem ch else []))
    (MkManager (timers mg) (MkKeyvault (Idb.db kv) off (if off then mem kv else [])) (clock mg) (scheduled mg)
       (nextHandle mg) (erased mg) (world mg)) (group s) (contacts s).
(** Both stores with nothing on disk. *)
Definition purged s : St :=
  let kv := store (manager s) in let mg := manager s in let ch := channels s in
  MkController (memory s) (sessions s) (db s) (MkChannelStore (with_channels (fun _ => []) (ch_db ch)) (ch_ephemeral ch) (ch_mem ch))
    (MkManager (timers mg) (MkKeyvault (with_messages (fun _ => []) (Idb.db kv)) (ephemeral kv) (mem kv)) (clock mg) (scheduled mg)
       (nextHandle mg) (erased mg) (world mg)) (group s) (contacts s).
Definition remember (off : bool) s : St :=
  let m := memory s in
  set_memory (MkMemory (mskKey m) (mskRaw m) (account m) (aakSeedHex m) (freshRecoverySecret m) (selfConvId m) (selfGroupIdsCache m) off) s.

Lemma applyHistoryMode_run s : applyHistoryMode s = (Ok tt, in_mode (historyOff (memory s)) s).
Proof. done. Qed.
Lemma set_history_run off s : set_history off s = (Ok tt, remember off s).
Proof. done. Qed.
Lemma purge_run s : (do! on_keyvault Keyvault.purgeDurable in on_channels Channels.purgeDurable) s = (Ok tt, purged s).
Proof. done. Qed.


(** The choice to keep no history is stored: the stores are in the chosen mode at once and again
    after the next login.  Choosing it with the purge leaves no message and no conversation row on
    disk; leaving it forgets, at once, what memory held. *)
Theorem history_choice_persists (on purge : bool) s key a :
  unlocked s key a ->
  exists s', setHistoryOff on purge s = (Ok tt, s') /\
    ephemeral (store (manager s')) = on /\ ch_ephemeral (channels s') = on /\
    (on = true -> purge = true -> Keyvault.disk (store (manager s')) = [] /\ Channels.disk (channels s') = []) /\
    (on = false -> mem (store (manager s')) = [] /\ ch_mem (channels s') = []) /\
    forall s0, unlocked s0 key a -> db s0 = db s' ->
      exists s1, hydrateHistoryMode s0 = (Ok tt, s1) /\ historyOff (memory s1) = on /\
        ephemeral (store (manager s1)) = on /\ ch_ephemeral (channels s1) = on.
Proof.
  intros U. destruct (seal_json_run key ("history:" +:+ a) (JBool on) s) as (b & w & Es & Ho).
  assert (Hhyd : forall s0 s', unlocked s0 key a -> db s0 = db s' -> record_at s' ("history:" +:+ a) = Some b ->
    exists s1, hydrateHistoryMode s0 = (Ok tt, s1) /\ historyOff (memory s1) = on /\
        ephemeral (store (manager s1)) = on /\ ch_ephemeral (channels s1) = on).
  { intros s0 s' U0 Hd Hr. unfold hydrateHistoryMode, historyKey.
    rewrite (bind_run (set_history_run false s0)). set (s0' := remember false s0).
    assert (U0' : unlocked s0' key a) by exact U0.
    assert (R0 : record_at s0' ("history:" +:+ a) = Some b).
    { change (record_at s0 ("history:" +:+ a) = Some b). unfold record_at in *. by rewrite Hd. }
    unfold bind at 1, gets. rewrite (proj2 (proj2 U0')). cbn [negb].
    assert (E1 : try_catch
      (let! k := of_account "history:" in
       let! rec := load k in
       match rec with
       | Some sealed =>
           let! key0 := requireKey in
           let! v := of_result (open_json key0 sealed k) in set_history (is_true v)
       | None => ret tt
       end) (fun _ => set_history false) s0' = (Ok tt, remember on s0')).
    { unfold try_catch. rewrite (bind_run (of_account_run _ _ _ _ U0')), (bind_run (load_run _ _)), R0.
      rewrite (bind_run (requireKey_run _ _ _ U0')). unfold of_result, bind. rewrite Ho. by destruct on. }
    rewrite (bind_run E1), applyHistoryMode_run. eexists. split_and!; reflexivity. }
  unfold setHistoryOff, historyKey. unfold bind at 1, gets. rewrite (proj2 (proj2 U)). cbn [negb].
  rewrite (bind_run (requireKey_run _ _ _ U)), (bind_run (of_account_run _ _ _ _ U)), (bind_run Es).
  rewrite (bind_run (save_run _ _ _)). set (s1 := saved ("history:" +:+ a) b (with_world w s)).
  assert (Hr : record_at s1 ("history:" +:+ a) = Some b) by by (unfold s1; rewrite record_saved, decide_True).
  rewrite (bind_run (set_history_run on s1)), (bind_run (applyHistoryMode_run _)).
  set (s2 := in_mode _ _). destruct (on && purge) eqn:Ep.
  - rewrite purge_run. exists (purged s2). apply andb_prop in Ep as [-> ->].
    split_and!; try reflexivity; [by intros _ _ | by intros | intros s0 U0 Hd; exact (Hhyd s0 s1 U0 Hd Hr)].
  - exists s2. split_and!; try reflexivity; [by intros -> -> | by intros -> |].
    intros s0 U0 Hd. exact (Hhyd s0 s1 U0 Hd Hr).
Qed.

(** ** Wrong passphrases *)

(** A login to an account that has a vault here, with a passphrase that does not open it, changes
    nothing; and checking a passphrase never does, whatever it is. *)
Theorem wrong_passphrase_changes_nothing u p s :
  (on_vault (MskVault.unlock (Key := Key) (accountIdFor u) (credentialFor u p)) s).1 = Ok None ->
  (on_vault (MskVault.exists_ (accountIdFor u)) s).1 = Ok true ->
  (exists why, unlock (Key := Key) u p s = (Ok (UnlockFailed why), s)) /\
  verifyPassphrase (Key := Key) u p s = (Ok false, s).
Proof.
  assert (Hs : forall {A} (m : M (Db * W) A) r, m (db s, world (manager s)) = (r, (db s, world (manager s))) ->
    on_vault m s = (r, s)).
  { intros A m r E. unfold on_vault. rewrite E. by destruct s as [? ? ? ? [] ? ?]. }
  pose proof (Hs _ _ _ (MskVault.unlock_run (Key := Key) (accountIdFor u) (credentialFor u p) _)) as Eu.
  assert (Ee : on_vault (MskVault.exists_ (accountIdFor u)) s =
    (Ok (match JsMap.lookup (MskVault.MSK_PREFIX +:+ accountIdFor u) (STORE_VAULT (db s)) with Some _ => true | None => false end), s)).
  { apply Hs. done. }
  cbn [fst snd] in Eu. rewrite Eu, Ee. cbn [fst snd]. intros [= Hu] [= He]. rewrite Hu in Eu. rewrite He in Ee. split.
  - unfold unlock. case_bool_decide; [by eexists|]. case_bool_decide; [by eexists|].
    rewrite (bind_run Eu). cbn beta iota. unfold bind at 1. rewrite (bind_run Ee). by eexists.
  - unfold verifyPassphrase. destruct (_ || _); [done|]. by rewrite (bind_run Eu).
Qed.

End laws.
End controller.
End ControllerFacts.

(** ** Concrete inputs *)
Module ControllerToy.
Import IdbToy Controller ControllerFacts.

(** A text for JSON values: the bits of their code. *)
Fixpoint to_tree (j : json) : gen_tree (bool + Z + string) :=
  match j with
  | JNull => GenNode 0 []
  | JBool b => GenLeaf (inl (inl b))
  | JNum n => GenLeaf (inl (inr n))
  | JStr s => GenLeaf (inr s)
  | JArr l => GenNode 1 (map to_tree l)
  | JObj l => GenNode 2 (map (fun x => GenNode 3 [GenLeaf (inr x.1); to_tree x.2]) l)
  end.
Fixpoint of_tree (t : gen_tree (bool + Z + string)) : json :=
  match t with
  | GenLeaf (inl (inl b)) => JBool b
  | GenLeaf (inl (inr n)) => JNum n
  | GenLeaf (inr s) => JStr s
  | GenNode 1 l => JArr (map of_tree l)
  | GenNode 2 l =>
      JObj (map (fun t => match t with GenNode 3 [GenLeaf (inr k); v] => (k, of_tree v) | _ => ("", JNull) end) l)
  | GenNode _ _ => JNull
  end.
Lemma of_tree_to_tree j : of_tree (to_tree j) = j.
Proof.
  revert j. fix IH 1. intros [|b|n|s|l|l]; cbn; [done..| |].
  - f_equal. induction l as [|j l IHl]; cbn; [done|]. by rewrite IH, IHl.
  - f_equal. induction l as [|[k j] l IHl]; cbn; [done|]. by rewrite IH, IHl.
Qed.

Fixpoint bits (p : positive) : string :=
  match p with xH => "" | xO p => String "0" (bits p) | xI p => String "1" (bits p) end.
Fixpoint of_bits (s : string) : positive :=
  match s with EmptyString => xH | String c s => if bool_decide (c = "1"%char) then xI (of_bits s) else xO (of_bits s) end.
Lemma of_bits_bits p : of_bits (bits p) = p.
Proof. induction p as [p IH|p IH|]; cbn; [by rewrite IH..|done]. Qed.

#[export] Instance json_text : JsonText := {|
  stringify j := bits (encode (to_tree j));
  parse s := match decode (of_bits s) with Some t => Ok (of_tree t) | None => Throw (JsError "SyntaxError") end
|}.
#[export] Instance json_text_laws : JsonTextLaws.
Proof. intros j. cbn. by rewrite of_bits_bits, decode_encode, of_tree_to_tree. Qed.

#[export] Instance sha : Sha256 := fun b => b.

(** A group channel: the conversations held, which of them are our own devices', which nobody can read,
    the account keys of the peers, and whether the gateway confirms an unsend. *)
Record Group := MkGroup {
  held : list string; own : list string; dead : list string; keys : list string; confirms : bool
}.
Definition is_own (id : string) (g : Group) : bool := bool_decide (id ∈ own g) && bool_decide (id ∈ held g).
Definition drop_held (id : string) (g : Group) : Group :=
  MkGroup (List.filter (fun x => negb (bool_decide (x = id))) (held g)) (own g) (dead g) (keys g) (confirms g).
#[export] Instance group_view : GroupView Group := {|
  gv_selfConversationId := gets (fun g => head (List.filter (fun id => is_own id g) (held g)));
  gv_isSelfConversationId id := gets (is_own id);
  gv_heldConversationIds := gets held;
  gv_isUnlinkedConversationId id := gets (fun g => bool_decide (id ∈ dead g));
  gv_selfClassificationReason id := gets (fun g => if is_own id g then "self" else "no such conversation");
  gv_peerAccountKeysFor _ := gets keys;
  gv_roster _ := ret ["d1"];
  gv_peerRoster _ := ret ["d2"];
  gv_selfGroupDiagnostic := ret ""
|}.
#[export] Instance group_commands : GroupCommands Group := {|
  gc_connectGateway _ := ret true;
  gc_openSelfConversation := let! l := gets (fun g => List.filter (fun id => is_own id g) (held g)) in
                             match l with id :: _ => ret id | [] => throw (JsError "no self group") end;
  gc_sendMessage _ _ _ := ret tt;
  gc_revokeMessage _ _ := let! ok := gets confirms in if ok : bool then ret tt else throw (JsError "no receipt");
  gc_closeConversation id := let! mine := gets (is_own id) in
                             if mine : bool then throw (JsError "own devices") else modify (drop_held id);
  gc_abandonDeadSelfGroup id recorded :=
    let! hopeless := gets (fun g => bool_decide (id ∈ dead g)) in
    if (recorded && hopeless)%bool then do! modify (drop_held id) in ret true else ret false;
  gc_excludeEverywhere _ := ret tt;
  gc_recoverWithSeed _ _ := ret tt
|}.
#[export] Instance sealed_conversation : SealedConversation unit := {|
  sealConversation _ raw := raw; restoreConversation _ _ := Ok tt
|}.

Lemma random_fills n (w : nat) : exists b w', toy_random n w = (Ok b, w') /\ length b = n.
Proof. eexists _, _. split; [done|]. apply length_replicate. Qed.

Definition T : Type := Controller bytes nat Group.
Definition memory0 : Memory bytes := MkMemory None None None None None None None false.
Definition logged_in (a : string) : Memory bytes := MkMemory (Some [7; 7]) (Some [7; 7]) (Some a) None None None None false.
Definition device (m : Memory bytes) (rows : list ChannelRecord) (records : list VaultRecord) (g : Group)
    (c : Contacts.State) : T :=
  MkController m true openDeadDropDb
    (MkChannelStore (MkDb [] [] [] ((fun r => (cr_id r, r)) <$> rows) []) false [])
    (MkManager [] (MkKeyvault (MkDb [] [] ((fun r => (messageId r, r)) <$> records) [] []) false []) 5000 [] 0 [] 0%nat)
    (Some g) c.
Definition no_group_held : Group := MkGroup [] [] [] [] true.
Definition no_contacts : Contacts.State := Contacts.MkState true None None None None 0 (fun _ => []) [].
End ControllerToy.

Section witnesses.
Import IdbToy ControllerToy Controller ControllerFacts.
Notation on d := (device d [] [] no_group_held no_contacts).

(** A device where an account was created, given a seed, and abandoned; then another user logs in. *)
Definition rejected : T :=
  ((do! unlock "alice" "pw" in do! ensureAccountSeed in ret tt) (on memory0)).2.

Lemma abandoned_seed_survives_witness :
  exists seed, aakSeedHex (memory rejected) = Some seed /\
    (unlock "bob" "pw2" (discardAccount "alice" rejected).2).1 = Ok (Unlocked true) /\
    (loadAccountSeed (unlock "bob" "pw2" (discardAccount "alice" rejected).2).2).1 = Ok seed.
Proof.
  exists (default "" (aakSeedHex (memory rejected))).
  split; [vm_compute; reflexivity|]. split; [vm_compute; reflexivity|].
  refine (proj1 (abandoned_seed_survives "alice" "bob" "pw2" rejected _ _)). vm_compute; reflexivity.
Defined.

Lemma seed_made_once_witness :
  exists seed s1 s2, ensureAccountSeed (on (logged_in "a")) = (Ok tt, s1) /\ recoverySecret s1 = (Ok (Some seed), s2) /\
    recoverySecret s2 = (Ok None, s2).
Proof.
  destruct (seed_made_once (Key := bytes) random_fills (on (logged_in "a")) [7; 7] "a"
    ltac:(split_and!; reflexivity) ltac:(reflexivity)) as (seed & s1 & s2 & _ & E1 & _ & E2 & E3 & _).
  exists (bytesToHex seed), s1, s2. split; [exact E1|]. split; [exact E2 | exact E3].
Defined.

Lemma settings_persist_witness :
  exists s1 s2 s3, setPresenceEnabled true (on (logged_in "a")) = (Ok tt, s1) /\ setNotifyEnabled false s1 = (Ok tt, s2) /\
    setAppearance (JObj [("theme", JStr "aim")]) s2 = (Ok tt, s3).
Proof.
  destruct (settings_persist (Key := bytes) random_fills (on (logged_in "a")) [7; 7] "a" true false
    (JObj [("theme", JStr "aim")]) ltac:(split_and!; reflexivity)) as (s1 & s2 & s3 & E1 & E2 & E3 & _).
  exists s1, s2, s3. split; [exact E1|]. split; [exact E2 | exact E3].
Defined.

Lemma history_choice_persists_witness :
  exists s', setHistoryOff true true (on (logged_in "a")) = (Ok tt, s') /\ ephemeral (store (manager s')) = true.
Proof.
  destruct (history_choice_persists (Key := bytes) random_fills true true (on (logged_in "a")) [7; 7] "a"
    ltac:(split_and!; reflexivity)) as (s' & E & He & _).
  exists s'. split; [exact E | exact He].
Defined.

Definition with_account : T := (unlock "alice" "pw" (on memory0)).2.
Lemma wrong_passphrase_changes_nothing_witness :
  exists why, unlock "alice" "pw3" with_account = (Ok (UnlockFailed why), with_account).
Proof.
  refine (proj1 (wrong_passphrase_changes_nothing "alice" "pw3" with_account _ _)); vm_compute; reflexivity.
Defined.
End witnesses.
