(* ===== verification/Conversations.v ===== *)
(** * The controller: conversations (client/src/controller.ts, lines 1367-1473, 1805-1990, 2060-2120,
      2180-2666)

    The rows of the channel list, the hidden groups of our own devices, opening, blocking and
    removing a conversation, and what happens to stored messages.  The methods of Controller.v, over
    the transcript of Transcript.v and the contact graph of Contacts.v. *)

From stdpp Require Import pretty.
From S2P Require Import Prelude Json Session Vault Lifetime Idb Integrity Auth Contacts Transcript Controller.

(** A row of the channel list.  [saveChannel] writes every field, so reading one back finds it. *)
Record ChannelSummary := MkSummary {
  cs_id : string;
  cs_peer : string;
  cs_fingerprint : string;
  cs_status : string;
  cs_preview : string;
  cs_unread : Z
}.

(** The verification of the peer of a conversation. *)
Inductive VerifyState := NotVerified | VerifiedPin | ChangedPin | StalePin | Unavailable.
#[export] Instance verify_state_eq_dec : EqDecision VerifyState.
Proof. solve_decision. Defined.

(** What the page shows of a conversation. *)
Record TransmitModel := MkTransmit {
  tm_secure : bool;
  tm_peer : string;
  tm_fingerprint : option string;
  tm_selfNote : bool;
  tm_trust : Transcript.Trust;
  tm_trustNote : option string;
  tm_selfDiag : option string;
  tm_peerHandle : option string;
  tm_peerIsBuddy : bool;
  tm_verifyState : option VerifyState;
  tm_log : list LogEntry;
  tm_conversationId : string
}.

Module Conversations.
Import Controller.

Definition summary_json (c : ChannelSummary) : json :=
  JObj [("id", JStr (cs_id c)); ("peer", JStr (cs_peer c)); ("fingerprint", JStr (cs_fingerprint c));
        ("status", JStr (cs_status c)); ("preview", JStr (cs_preview c)); ("unread", JNum (cs_unread c))].
Definition str (o : json) (k : string) : string := match prop o k with Some (JStr s) => s | _ => "" end.
Definition summary_of (o : json) : ChannelSummary :=
  MkSummary (str o "id") (str o "peer") (str o "fingerprint") (str o "status") (str o "preview")
    (match prop o "unread" with Some (JNum n) => n | _ => 0 end).

(** [s.indexOf(sub) !== -1] *)
Fixpoint occurs (sub s : string) : bool :=
  String.prefix sub s || match s with String _ s' => occurs sub s' | EmptyString => false end.

(** [id.replace(/^c-/, '').slice(0, 8)] *)
Definition short_id (id : string) : string :=
  String.substring 0 8 (if String.prefix "c-" id then String.substring 2 (String.length id - 2) id else id).

(** [verifyState] of a conversation with a peer: the pinned key of the buddy (empty for none) and the
    account keys the group knows of the peer. *)
Definition verify_state (vk : string) (keys : list string) : VerifyState :=
  if negb (bool_decide (vk = "")) then
    match keys with
    | [k] => if bool_decide (k = vk) then VerifiedPin else ChangedPin
    | _ => StalePin
    end
  else match keys with [_] => NotVerified | _ => Unavailable end.

Definition benign (reason : string) : bool :=
  bool_decide (reason = "") || bool_decide (reason = "self") || bool_decide (reason = "no such conversation") ||
  String.prefix "this device has no account anchor" reason.

Definition devices_note (n : nat) : option string :=
  match n with
  | O => None
  | 1%nat => Some "1 device"
  | _ => Some (pretty n +:+ " devices")
  end.

(** The header badge and its note. *)
Definition trust_of (secure isSelf : bool) (reason : string) (devices : nat) (unlinked : bool)
    (v : option VerifyState) : Transcript.Trust * option string :=
  if negb secure then (Transcript.Offline, None)
  else if isSelf then
    if benign reason then (Transcript.Self, devices_note devices) else (Transcript.Insecure, Some reason)
  else if unlinked then (Transcript.Unreachable, None)
  else match v with
       | Some ChangedPin => (Transcript.KeyChanged, None)
       | Some VerifiedPin => (Transcript.Verified, None)
       | Some StalePin => (Transcript.Unverified, Some "cannot check right now")
       | _ => (Transcript.Unverified, None)
       end.

Section conversations.
Context {Key W G : Type} `{Aead Key} `{Random W} `{JsonText} `{GroupView G} `{GroupCommands G}.
Context (text_decode : bytes -> string).
Notation St := (Controller Key W G).

(** ** Rows *)

Definition saveChannel (summary : ChannelSummary) : M St unit :=
  let! key := requireKey in
  let! blob := seal_json key (channelAad (cs_id summary)) (summary_json summary) in
  on_channels (Channels.put (MkChannelRecord (cs_id summary) blob)).

Definition decodeChannel (key : Key) (rec : ChannelRecord) : result ChannelSummary :=
  let? v := open_json key (cr_blob rec) (channelAad (cr_id rec)) in
  Ok (summary_of v).
Definition tryDecodeChannel (key : Key) (rec : ChannelRecord) : option ChannelSummary := catch (decodeChannel key rec).

(** The rows that open under our key. *)
Definition readable_rows : M St (list ChannelSummary) :=
  let! key := requireKey in
  let! rows := on_channels Channels.list in
  ret (omap (tryDecodeChannel key) rows).

Definition delete_row (id : string) : M St unit := best_effort (on_channels (Channels.delete id)).

(** ** The groups of our own devices *)

(** The loop of [healDeadSelfGroups]: whether a group was abandoned. *)
Fixpoint heal_loop (held : list string) (ids : list string) : M St bool :=
  match ids with
  | [] => ret false
  | id :: ids =>
      if negb (bool_decide (id ∈ held)) then heal_loop held ids else
      let! unlinked := on_group false (gv_isUnlinkedConversationId id) in
      if negb unlinked then heal_loop held ids else
      let! abandoned := try_catch (on_group false (gc_abandonDeadSelfGroup id true)) (fun _ => ret false) in
      if negb abandoned then heal_loop held ids else
      do! delete_row id in
      do! heal_loop held ids in
      ret true
  end.

Definition healDeadSelfGroups (recordedSelfIds : list string) : M St unit :=
  let! live := has_group in
  if negb live || bool_decide (recordedSelfIds = []) then ret tt else
  let! held := on_group [] gv_heldConversationIds in
  let! healed := heal_loop held recordedSelfIds in
  if negb healed then ret tt else
  let! now_held := on_group [] gv_heldConversationIds in
  best_effort (recordSelfGroupIds (List.filter (fun id => bool_decide (id ∈ now_held)) recordedSelfIds)).

(** The loop of [reconcileSelfGroupRecords]; its diagnostics on the console are left out. *)
Fixpoint reconcile_loop (recorded : list string) (rows : list ChannelSummary) (hidden : list string) (changed : bool)
  : M St (list string * bool) :=
  match rows with
  | [] => ret (hidden, changed)
  | c :: rows =>
      let! self := if bool_decide (cs_id c ∈ hidden) then ret true else on_group false (gv_isSelfConversationId (cs_id c)) in
      if negb self then reconcile_loop recorded rows hidden changed else
      if bool_decide (cs_id c ∈ recorded) then reconcile_loop recorded rows (set_add (cs_id c) hidden) changed else
      do! delete_row (cs_id c) in
      reconcile_loop recorded rows (set_add (cs_id c) hidden) true
  end.

Definition reconcileSelfGroupRecords (summaries : option (list ChannelSummary)) : M St (list string) :=
  let! rows := match summaries with Some rows => ret rows | None => readable_rows end in
  let! recorded := loadSelfGroupIds in
  let! liveSelf := on_group None gv_selfConversationId in
  let! r := reconcile_loop recorded rows (match liveSelf with Some id => set_add id recorded | None => recorded end) false in
  do! (if r.2 then recordSelfGroupIds r.1 else ret tt) in
  do! healDeadSelfGroups r.1 in
  ret r.1.

(** How a row is shown. *)
Definition shown_row (c : ChannelSummary) : M St ChannelSummary :=
  let preview p := MkSummary (cs_id c) (cs_peer c) (cs_fingerprint c) (cs_status c) p (cs_unread c) in
  let! reason := on_group "" (gv_selfClassificationReason (cs_id c)) in
  if negb (bool_decide (reason = "")) && negb (bool_decide (reason = "self")) &&
     negb (bool_decide (reason = "no such conversation")) && negb (occurs "different account" reason)
  then ret (preview ("self-group " +:+ short_id (cs_id c) +:+ " not recognized: " +:+ reason)) else
  let! held := on_group [] gv_heldConversationIds in
  if negb (bool_decide (cs_id c ∈ held)) then ret (preview "no live crypto session (dead ghost)") else
  let! unlinked := on_group false (gv_isUnlinkedConversationId (cs_id c)) in
  if unlinked : bool then ret (preview "no verified device can receive here") else ret c.

Fixpoint shown_rows (rows : list ChannelSummary) : M St (list ChannelSummary) :=
  match rows with
  | [] => ret []
  | c :: rows => let! x := shown_row c in let! l := shown_rows rows in ret (x :: l)
  end.

Definition listChannels : M St (list ChannelSummary) :=
  let! out := readable_rows in
  let! hidden := reconcileSelfGroupRecords (Some out) in
  shown_rows (List.filter (fun c => negb (bool_decide (cs_id c ∈ hidden))) out).

Definition sweep_row (key : Key) (held recorded : list string) (rec : ChannelRecord) : M St unit :=
  match tryDecodeChannel key rec with
  | None => ret tt
  | Some c =>
      if negb (bool_decide (cs_id c ∈ held)) && negb (bool_decide (cs_id c ∈ recorded)) then delete_row (cs_id c)
      else ret tt
  end.

Definition sweepDeadChannels : M St unit :=
  let! held := on_group [] gv_heldConversationIds in
  if bool_decide (held = []) then ret tt else
  let! key := requireKey in
  let! recorded := loadSelfGroupIds in
  let! rows := on_channels Channels.list in
  for_each rows (sweep_row key held recorded).

Definition connectGateway (wsUrl : string) : M St bool :=
  let! ok := require_group (gc_connectGateway wsUrl) in
  if negb ok then ret ok else
  do! best_effort (do! reconcileSelfGroupRecords None in ret tt) in
  do! best_effort sweepDeadChannels in
  ret ok.

Definition peerFor (id : string) : M St string :=
  let! key := requireKey in
  let! rec := on_channels (Channels.get id) in
  ret (match rec with
       | None => ""
       | Some rec => match tryDecodeChannel key rec with Some c => cs_peer c | None => "" end
       end).

(** ** Opening a conversation *)

(** [(await this.loadBuddyMap())[handle]] *)
Definition buddy_slot (handle : string) : M St (JsObj.slot Contacts.BuddyEntry) :=
  let! m := on_contacts Contacts.loadBuddyMap in ret (JsObj.read handle m).

Definition pin_of (handle : option string) : M St string :=
  match handle with
  | None => ret ""
  | Some h => let! e := buddy_slot h in
              ret (match e with JsObj.Own e => default "" (Contacts.b_vk e) | _ => "" end)
  end.

Definition recognize_self (id : string) (forceSelf : bool) : M St (bool * list string) :=
  let! recordedSelf := loadSelfGroupIds in
  let! cached := gets (fun s => selfConvId (memory s)) in
  let! best := on_group None gv_selfConversationId in
  let! classified := on_group false (gv_isSelfConversationId id) in
  ret (forceSelf || bool_decide (cached = Some id) || bool_decide (best = Some id) || classified ||
       bool_decide (id ∈ recordedSelf), recordedSelf).

(** The other own-device groups whose notes are shown: recorded, or held and classified. *)
Fixpoint add_self_ids (held : list string) (ids : list string) : M St (list string) :=
  match held with
  | [] => ret ids
  | cid :: held =>
      let! self := on_group false (gv_isSelfConversationId cid) in
      add_self_ids held (if self : bool then set_add cid ids else ids)
  end.
Fixpoint list_conversations (ids : list string) : M St (list VaultRecord) :=
  match ids with
  | [] => ret []
  | id :: ids =>
      let! l := on_keyvault (Keyvault.listByConversation id) in
      let! l' := list_conversations ids in
      ret (l ++ l')
  end.

Definition stored_records (id : string) (isSelf : bool) (recordedSelf : list string) : M St (list VaultRecord) :=
  let! own := on_keyvault (Keyvault.listByConversation id) in
  if negb isSelf then ret own else
  let! held := on_group [] gv_heldConversationIds in
  let! ids := add_self_ids held recordedSelf in
  let! others := list_conversations (List.filter (fun c => negb (bool_decide (c = id))) ids) in
  ret (own ++ others).

(** What the view says of the conversation: whether nobody can receive there, the verification of the
    peer, the badge and its note.  Whether anyone can receive is asked once here, for the advisory
    line and the badge; the source asks the same question for each. *)
Definition judge (id : string) (isSelf secure : bool)
  : M St (bool * option VerifyState * (Transcript.Trust * option string)) :=
  let! unlinked := if isSelf then ret false else on_group false (gv_isUnlinkedConversationId id) in
  let! verifyState :=
    (if isSelf then ret None else
     let! handle := on_contacts (Contacts.handleForConversation id) in
     let! vk := pin_of handle in
     let! keys := on_group [] (gv_peerAccountKeysFor id) in
     ret (Some (verify_state vk keys))) in
  let! reason := if secure && isSelf then on_group "" (gv_selfClassificationReason id) else ret "" in
  let! devices := if secure && isSelf && benign reason then on_group [] (gv_roster id) else ret [] in
  ret (unlinked, verifyState, trust_of secure isSelf reason (length devices) unlinked verifyState).

(** The buddy of the conversation, whether that is on the list, and the line for Note to Self. *)
Definition people (id : string) (isSelf : bool) : M St (option string * bool * option string) :=
  let! peerHandle := if isSelf then ret None else on_contacts (Contacts.handleForConversation id) in
  let! peerIsBuddy :=
    (match peerHandle with
     | None => ret false
     | Some h => let! e := buddy_slot h in
                 ret (match e with JsObj.Own e => negb (Contacts.b_removed e) | _ => false end)
     end) in
  let! diag := if isSelf then let! d := on_group "" gv_selfGroupDiagnostic in ret (Some d) else ret None in
  ret (peerHandle, peerIsBuddy, diag).

Definition advisories (unlinked : bool) (verifyState : option VerifyState) : list LogEntry :=
  LogSystem "» channel open · forward secrecy active" ::
  (if unlinked then [LogSystem "» no verified device on this channel · sent messages may be unreachable"] else []) ++
  (if bool_decide (verifyState = Some ChangedPin)
   then [LogSystem "» identity changed · this is not the key you verified for this buddy · confirm with them before trusting this channel"]
   else []).

(** What recognizing our own group writes. *)
Definition remember_self (id : string) (isSelf : bool) (recordedSelf : list string) (rec : option ChannelRecord) : M St unit :=
  do! (if isSelf then
         do! set_selfConv (Some id) in
         if bool_decide (id ∈ recordedSelf) then ret tt else recordSelfGroupIds (set_add id recordedSelf)
       else ret tt) in
  match rec with Some _ => if isSelf then delete_row id else ret tt | None => ret tt end.

Definition openChannel (id : string) (forceSelf : bool) : M St TransmitModel :=
  let! key := requireKey in
  let! rec := on_channels (Channels.get id) in
  let summary := match rec with Some r => tryDecodeChannel key r | None => None end in
  let! '(isSelf, recordedSelf) := recognize_self id forceSelf in
  do! remember_self id isSelf recordedSelf rec in
  let peer := if isSelf then "Note to Self" else match summary with Some c => cs_peer c | None => "UNKNOWN" end in
  let secure := isSelf || match summary with Some c => bool_decide (cs_status c = "secure") | None => false end in
  let! '(unlinked, verifyState, (trust, trustNote)) := judge id isSelf secure in
  let! convRecords := stored_records id isSelf recordedSelf in
  let! live := has_group in
  let! messages := on_manager (Transcript.transcript text_decode (Transcript.MkView secure isSelf live id peer) key convRecords) in
  let! '(peerHandle, peerIsBuddy, diag) := people id isSelf in
  ret (MkTransmit secure peer (if isSelf then None else cs_fingerprint <$> summary) isSelf trust trustNote diag
         peerHandle peerIsBuddy verifyState (advisories unlinked verifyState ++ messages) id).

Definition openNoteToSelf : M St TransmitModel :=
  let! live := has_group in
  if negb live then throw (JsError "note to self needs a live session") else
  let! id := require_group gc_openSelfConversation in
  do! set_selfConv (Some id) in
  openChannel id true.

(** ** Messages *)

Definition sendMessage (conversationId text : string) (lifetime : option Lifetime) : M St TransmitModel :=
  do! require_group (gc_sendMessage conversationId text lifetime) in
  openChannel conversationId false.

Definition persistLiveMessage (meta : Meta) (plaintext : bytes) : M St unit :=
  let! live := has_group in
  if negb live then ret tt else
  let! key := requireKey in
  do! on_manager (Lifetimes.storeIncoming key meta plaintext (bool_decide (mt_direction meta = DirOut))) in
  ret tt.

(** Whether a revoke that arrived may erase a record. *)
Definition may_erase (conversationId : string) (fromOwnAccount : bool) (r : VaultRecord) : bool :=
  bool_decide (Vault.conversationId r = conversationId) && bool_decide (lifetimeKind r = KindUntilRevoked) &&
  negb (bool_decide (direction r = DirOut) && negb fromOwnAccount).

Definition applyInboundRevoke (conversationId targetMessageId : string) (fromOwnAccount : bool) : M St unit :=
  let! live := has_group in
  if negb live then ret tt else
  let! rec := on_keyvault (Keyvault.get targetMessageId) in
  match rec with
  | Some r => if may_erase conversationId fromOwnAccount r then on_manager (Lifetimes.revoke targetMessageId) else ret tt
  | None => ret tt
  end.

(** Whether a revoke control acts on a record. *)
Definition may_revoke (conversationId : string) (r : VaultRecord) : bool :=
  bool_decide (Vault.conversationId r = conversationId) &&
  (bool_decide (direction r = DirOut) || bool_decide (ownAuthored r = Some true)) &&
  bool_decide (lifetimeKind r = KindUntilRevoked).

Definition revokeMessage (conversationId messageId : string) : M St TransmitModel :=
  let! rec := on_keyvault (Keyvault.get messageId) in
  do! (match rec with
       | Some r =>
           if may_revoke conversationId r then
             do! require_group (gc_revokeMessage conversationId messageId) in
             on_lifetime (Lifetimes.revoke messageId)
           else ret tt
       | None => ret tt
       end) in
  openChannel conversationId false.

(** The flag on an erasure that tells the page to drop a note from an open Note to Self. *)
Definition selfCopy (conversationId : string) : M St bool :=
  let! cached := gets (fun s => selfGroupIdsCache (memory s)) in
  if match cached with Some ids => bool_decide (conversationId ∈ ids) | None => false end then ret true
  else on_group false (gv_isSelfConversationId conversationId).

(** ** Blocking and removing *)

Definition is_own_group (conversationId : string) (recorded : list string) : M St bool :=
  if bool_decide (conversationId ∈ recorded) then ret true else
  let! best := on_group None gv_selfConversationId in
  if bool_decide (best = Some conversationId) then ret true
  else on_group false (gv_isSelfConversationId conversationId).

(** Hide the row and remember that it is ours. *)
Definition hide_and_record (conversationId : string) (recorded : list string) : M St unit :=
  do! recordSelfGroupIds (set_add conversationId recorded) in
  delete_row conversationId.

(** [closeConversation], then the durable record; what the core refuses to close is recorded as ours. *)
Definition close_for_good (conversationId : string) : M St unit :=
  do! try_catch
    (do! on_group tt (gc_closeConversation conversationId) in recordClosedChannelId conversationId)
    (fun _ => let! rec := loadSelfGroupIds in recordSelfGroupIds (set_add conversationId rec)) in
  delete_row conversationId.

Definition blockConversation (conversationId : string) : M St unit :=
  let! live := has_group in
  if negb live then ret tt else
  let! recorded := loadSelfGroupIds in
  let! own := is_own_group conversationId recorded in
  if own : bool then hide_and_record conversationId recorded else
  let! username := on_contacts (Contacts.handleForConversation conversationId) in
  let! peers := on_group [] (gv_peerRoster conversationId) in
  do! on_contacts (Contacts.blockKeys peers username) in
  close_for_good conversationId.

Definition removeConversation (conversationId : string) : M St unit :=
  let! live := has_group in
  if negb live then ret tt else
  let! recorded := loadSelfGroupIds in
  let! own := is_own_group conversationId recorded in
  if own : bool then hide_and_record conversationId recorded else close_for_good conversationId.

Definition excludeDevice (sigKeyHex : string) : M St unit := best_effort (on_group tt (gc_excludeEverywhere sigKeyHex)).

End conversations.
End Conversations.
