(* ===== verification/ViewsChat.v ===== *)
(** * The conversation window as markup (client/src/app.ts, lines 1561-1583, 1666-1674, 869-996, 1865-1894,
      2341-2366, 2841-2984)

    The renderers of app.ts are functions from the model of a screen to the string that becomes its
    [innerHTML]: here the toolbars, the rich-text editor, the transmit screen and the channel list.  In the
    literals a back-tick stands for a double quote ([RichText.dq]); a text of the model goes through
    [Html.esc], the [escapeHtml] of the code, or [formatMessageText] where the code has that.  What a
    renderer is given as markup or as a name that it does not escape is a [chars], a text is a [string].
    Each renderer comes with the proof that it leaves the open elements as they were. *)

From stdpp Require Import pretty.
From S2P Require Import Prelude PairingWire Session Contacts Transcript Conversations RichText RichTextFacts Html.

Module ViewsChat.
Import RichText Html.

(** ** Marks and buttons *)

Definition LOGO_PATH : chars :=
  dq "M12 1.6 C 9.2 5.4 5 9.9 5 14.6 A 7 7 0 0 0 19 14.6 C 19 9.9 14.8 5.4 12 1.6 Z " ++
  dq "M 10.9 14.42 A 2.3 2.3 0 1 1 13.1 14.42 L 13.7 17.6 L 10.3 17.6 Z".

Definition logoSvg (cls : chars) : chars :=
  dq "<svg class=`" ++ cls ++ dq "` viewBox=`0 0 24 24` aria-hidden=`true`><path fill-rule=`evenodd` d=`" ++
  LOGO_PATH ++ dq "`/></svg>".

Definition renderLogoHero : chars :=
  dq "<div class=`dd-logo-hero`>" ++ logoSvg (dq "dd-logo-mark") ++
  dq "<div class=`dd-logo-word`>DEAD DROP</div></div>".

Definition renderScrollbar : chars :=
  dq "<div class=`dd-scrollbar`><div class=`dd-sb-arrow`>▲</div>" ++
  dq "<div class=`dd-sb-track`><div class=`dd-sb-thumb`></div></div><div class=`dd-sb-arrow`>▼</div></div>".

Definition renderToolButton (action : chars) (label : string) (svg : chars) (disabled : bool) (extra : chars) : chars :=
  dq "<button type=`button` class=`dd-tbar-btn" ++ (if bool_decide (extra = []) then [] else dq " " ++ extra) ++
  dq "` data-action=`" ++ action ++ dq "`" ++ (if disabled then dq " disabled" else []) ++ dq " title=`" ++
  esc label ++ dq "` aria-label=`" ++ esc label ++ dq "`><span class=`dd-tbar-ico`>" ++ svg ++
  dq "</span><span class=`dd-tbar-cap`>" ++ esc label ++ dq "</span></button>".

Definition icon_path (d : chars) : chars :=
  dq "<svg viewBox=`0 0 24 24` aria-hidden=`true`><path d=`" ++ d ++ dq "`/></svg>".
Definition ICO_PROFILE : chars :=
  icon_path (dq "M12 12c2.21 0 4-1.79 4-4s-1.79-4-4-4-4 1.79-4 4 1.79 4 4 4zm0 2c-2.67 0-8 1.34-8 4v2h16v-2c0-2.66-5." ++
    dq "33-4-8-4z").
Definition ICO_ADD_BUDDY : chars :=
  icon_path (dq "M15 12c2.21 0 4-1.79 4-4s-1.79-4-4-4-4 1.79-4 4 1.79 4 4 4zM6 10V7H4v3H1v2h3v3h2v-3h3v-2H6zm9 4c-2.6" ++
    dq "7 0-8 1.34-8 4v2h16v-2c0-2.66-5.33-4-8-4z").
Definition ICO_ATTACH : chars :=
  icon_path (dq "M16.5 6v11.5c0 2.21-1.79 4-4 4s-4-1.79-4-4V5a2.5 2.5 0 0 1 5 0v10.5c0 .55-.45 1-1 1s-1-.45-1-1V6H10v" ++
    dq "9.5a2.5 2.5 0 0 0 5 0V5c0-2.21-1.79-4-4-4S7 2.79 7 5v12.5c0 3.04 2.46 5.5 5.5 5.5s5.5-2.46 5.5-5.5V6" ++
    dq "h-1.5z").
Definition ICO_CALL : chars :=
  icon_path (dq "M6.62 10.79c1.44 2.83 3.76 5.14 6.59 6.59l2.2-2.2c.27-.27.67-.36 1.02-.24 1.12.37 2.33.57 3.57.57.55" ++
    dq " 0 1 .45 1 1V20c0 .55-.45 1-1 1-9.39 0-17-7.61-17-17 0-.55.45-1 1-1h3.5c.55 0 1 .45 1 1 0 1.25.2 2.4" ++
    dq "5.57 3.57.11.35.03.74-.25 1.02l-2.2 2.2z").
Definition ICO_VIDEO : chars :=
  icon_path (dq "M17 10.5V7c0-.55-.45-1-1-1H4c-.55 0-1 .45-1 1v10c0 .55.45 1 1 1h12c.55 0 1-.45 1-1v-3.5l4 4v-11l-4 4" ++
    dq "z").
Definition ICO_BLOCK : chars :=
  icon_path (dq "M12 2C6.48 2 2 6.48 2 12s4.48 10 10 10 10-4.48 10-10S17.52 2 12 2zM4 12c0-4.42 3.58-8 8-8 1.85 0 3.5" ++
    dq "5.63 4.9 1.69L5.69 16.9A7.9 7.9 0 0 1 4 12zm8 8c-1.85 0-3.55-.63-4.9-1.69L18.31 7.1A7.9 7.9 0 0 1 20" ++
    dq " 12c0 4.42-3.58 8-8 8z").
Definition ICO_REMOVE : chars :=
  icon_path (dq "M6 19c0 1.1.9 2 2 2h8c1.1 0 2-.9 2-2V7H6v12zM19 4h-3.5l-1-1h-5l-1 1H5v2h14V4z").
Definition ICO_IMG : chars :=
  icon_path (dq "M21 19V5c0-1.1-.9-2-2-2H5c-1.1 0-2 .9-2 2v14c0 1.1.9 2 2 2h14c1.1 0 2-.9 2-2zM8.5 13.5l2.5 3.01L14.5" ++
    dq " 12l4.5 6H5l3.5-4.5z").

(** The bar under a conversation. *)
Record TransmitModel := MkTransmitView {
  secure : bool;
  peer : option string;
  tv_fingerprint : option string;
  tv_log : list LogEntry;
  compose : string;
  conversationId : option string;
  selfNote : bool;
  selfDiag : option string;
  trust : option Transcript.Trust;
  trustNote : option string;
  peerHandle : option string;
  peerIsBuddy : bool;
  verifyState : option Contacts.panel
}.

Definition renderImToolbar (m : TransmitModel) : chars :=
  if bool_decide (peer m = None) then []
  else
  let offline := negb (secure m) in
  if selfNote m then
    dq "<div class=`dd-tbar dd-imbar`><div class=`dd-tbar-row`>" ++
    renderToolButton (dq "send-file") "Attach File" ICO_ATTACH offline [] ++ dq "</div></div>"
  else
  let addBuddy := match peerHandle m with
    | Some h =>
        if negb (bool_decide (h = "")) && negb (peerIsBuddy m)
        then renderToolButton (dq "add-buddy") "Add Buddy" ICO_ADD_BUDDY false [] else []
    | None => []
    end in
  dq "<div class=`dd-tbar dd-imbar`><div class=`dd-tbar-row`>" ++
  renderToolButton (dq "get-info") "Profile" ICO_PROFILE false [] ++ addBuddy ++
  renderToolButton (dq "send-file") "Attach File" ICO_ATTACH offline [] ++
  renderToolButton (dq "call-audio") "Call" ICO_CALL offline [] ++
  renderToolButton (dq "call-video") "Video" ICO_VIDEO offline [] ++
  renderToolButton (dq "block-peer") "Block" ICO_BLOCK false (dq "dd-im-block") ++
  renderToolButton (dq "remove-channel") "Remove" ICO_REMOVE false [] ++ dq "</div></div>".

(** ** The lifetime of the next message *)

Record LifetimeChoice := MkChoice { lf_v : string; lf_label : string; lf_short : string }.
Definition RT_LIFETIMES : list LifetimeChoice :=
  [MkChoice "burn" "Burn on read" "burn"; MkChoice "5" "5 seconds" "5s"; MkChoice "30" "30 seconds" "30s";
   MkChoice "300" "5 minutes" "5m"; MkChoice "3600" "1 hour" "1h"; MkChoice "86400" "24 hours" "24h";
   MkChoice "keep" "Never (revocable)" "∞"].

Definition lifetimeValue (l : Lifetime) : string :=
  match l with BurnOnRead => "burn" | UntilRevoked => "keep" | Duration seconds => pretty seconds end.
Definition lifetimeShort (l : Lifetime) : string :=
  default (lifetimeValue l) (lf_short <$> List.find (fun o => bool_decide (lf_v o = lifetimeValue l)) RT_LIFETIMES).

Definition DEFAULT_COMPOSE_LIFETIME : Lifetime := Duration 86400.
(** [composeLifetimes] holds what was picked for each conversation since the page was loaded. *)
Definition composeLifetime (picks : list (string * Lifetime)) (composeConvId : string) : Lifetime :=
  default DEFAULT_COMPOSE_LIFETIME (JsMap.lookup composeConvId picks).

(** ** The rich-text editor *)

Definition rtPop (id label body : chars) (title : string) : chars :=
  dq "<span class=`dd-rt-popwrap dd-rt-popwrap-" ++ id ++
  dq "`><button type=`button` class=`dd-rt-btn dd-rt-popbtn` data-rt-pop=`" ++ id ++ dq "` title=`" ++
  esc title ++ dq "` aria-label=`" ++ esc title ++ dq "`>" ++ label ++
  dq "<span class=`dd-rt-caret`>▾</span></button><span class=`dd-rt-pop` data-rt-popid=`" ++ id ++
  dq "` hidden>" ++ body ++ dq "</span></span>".

(** [timer] is the lifetime picked, where the editor offers the choice. *)
Definition timer_pop (life : Lifetime) : chars :=
  let lifeOpts := RT_LIFETIMES ≫= (fun o =>
    dq "<button type=`button` class=`dd-rt-fontopt dd-rt-lifeopt` data-rt-life=`" ++ chars_of (lf_v o) ++ dq "`>" ++
    (if bool_decide (lifetimeValue life = lf_v o) then dq "✓ " else []) ++ chars_of (lf_label o) ++ dq "</button>") in
  rtPop (dq "timer") (dq "<span class=`dd-rt-life-cur`>⏳" ++ esc (lifetimeShort life) ++ dq "</span>")
    (dq "<div class=`dd-rt-fonts dd-rt-lifetimes`>" ++ lifeOpts ++ dq "</div>") "message lifetime" ++
  dq "<span class=`dd-rt-sep`></span>".

Definition renderRichToolbar (timer : option Lifetime) (images : bool) : chars :=
  let textSw := RT_TEXT_COLORS ≫= (fun c =>
    dq "<button type=`button` class=`dd-rt-sw` data-rt-color=`" ++ chars_of c.1 ++
    dq "` title=`text color`><span class=`dd-c-" ++ chars_of c.1 ++ dq "`>A</span></button>") in
  let hlSw := RT_HL_COLORS ≫= (fun c =>
    dq "<button type=`button` class=`dd-rt-sw` data-rt-hl=`" ++ chars_of c.1 ++
    dq "` title=`highlight`><span class=`dd-hl-" ++ chars_of c.1 ++ dq "`>A</span></button>") in
  let fontOpts :=
    dq "<button type=`button` class=`dd-rt-fontopt` data-rt-font=`` title=`default font`>Default</button>" ++
    (RT_FONTS ≫= (fun f =>
      dq "<button type=`button` class=`dd-rt-fontopt dd-ft-" ++ chars_of (font_key f) ++ dq "` data-rt-font=`" ++
      chars_of (font_key f) ++ dq "`>" ++ esc (font_label f) ++ dq "</button>")) in
  dq "<div class=`dd-rt-bar`>" ++ match timer with Some life => timer_pop life | None => [] end ++
  rtPop (dq "color") (dq "<span class=`dd-rt-A`>A</span>")
    (dq "<div class=`dd-rt-swrow`>" ++ textSw ++ dq "</div>") "text color" ++
  rtPop (dq "hl") (dq "<span class=`dd-rt-A dd-rt-A-hl`>A</span>")
    (dq "<div class=`dd-rt-swrow`>" ++ hlSw ++ dq "</div>") "highlight color" ++
  dq "<span class=`dd-rt-sep`></span>" ++
  dq "<button type=`button` class=`dd-rt-btn` data-rt-size=`s` title=`smaller`><span class=`dd-rt-A dd-rt-A-sm`>A</span></button>" ++
  dq "<button type=`button` class=`dd-rt-btn` data-rt-size=`d` title=`default size`><span class=`dd-rt-A`>A</span></button>" ++
  dq "<button type=`button` class=`dd-rt-btn` data-rt-size=`l` title=`larger`><span class=`dd-rt-A dd-rt-A-lg`>A</span></button>" ++
  dq "<span class=`dd-rt-sep`></span>" ++
  dq "<button type=`button` class=`dd-rt-btn` data-rt-cmd=`bold` title=`bold`><strong>B</strong></button>" ++
  dq "<button type=`button` class=`dd-rt-btn` data-rt-cmd=`italic` title=`italic`><em>I</em></button>" ++
  dq "<button type=`button` class=`dd-rt-btn` data-rt-cmd=`underline` title=`underline`><u>U</u></button>" ++
  dq "<span class=`dd-rt-sep`></span>" ++
  rtPop (dq "font") (dq "<span class=`dd-rt-Ff`>F</span>")
    (dq "<div class=`dd-rt-fonts`>" ++ fontOpts ++ dq "</div>") "font" ++
  (if images then
     dq "<span class=`dd-rt-sep`></span>" ++
     dq "<button type=`button` class=`dd-rt-btn dd-rt-imgbtn` data-rt-img title=`insert image` aria-label=`insert image`>" ++
     ICO_IMG ++ dq "</button>"
   else []) ++ dq "</div>".

Record EditorOpts := MkOpts {
  placeholder : option string;
  oneLine : bool;
  tall : bool;
  timer : option Lifetime;
  prompt : bool;
  images : bool
}.

Definition renderRichEditor (id : string) (markers : string) (opts : EditorOpts) : chars :=
  let ph := match placeholder opts with
    | Some t => dq " data-rt-ph=`" ++ esc t ++ dq "`"
    | None => []
    end in
  let one := if oneLine opts then dq " dd-rt-edit-1" else [] in
  let tall := if tall opts then dq " dd-rt-edit-tall" else [] in
  let edit :=
    dq "<div class=`dd-rt-edit" ++ one ++ tall ++ dq "` id=`" ++ esc id ++
    dq "` contenteditable=`true` role=`textbox` aria-multiline=`" ++
    (if oneLine opts then dq "false" else dq "true") ++ dq "`" ++ ph ++ dq ">" ++
    formatMessageText (images opts) (chars_of markers) ++ dq "</div>" in
  let body := if prompt opts then
      dq "<div class=`dd-rt-line`><span class=`dd-prompt`>&rsaquo;</span>" ++ edit ++ dq "</div>"
    else edit in
  dq "<div class=`dd-rt`>" ++ renderRichToolbar (timer opts) (images opts) ++ body ++ dq "</div>".

(** ** The transmit screen *)

(** The line under the header. *)
Definition transmit_sub (m : TransmitModel) : chars :=
  let selfTag := Conversations.short_id (default "" (conversationId m)) in
  let selfDiag := trim (chars_of (default "" (selfDiag m))) in
  if selfNote m then
    dq "<div class=`dd-sub`><span>" ++ esc (default "Note to Self" (peer m)) ++
    dq "</span><span>only your devices see this" ++
    (if bool_decide (selfTag = "") then [] else dq " &middot; group " ++ esc selfTag) ++
    (if bool_decide (selfDiag = []) then [] else dq " &middot; " ++ escapeHtml selfDiag) ++ dq "</span></div>"
  else match peer m with
  | Some p =>
      dq "<div class=`dd-sub`><span>" ++ esc p ++ dq "</span><span>" ++
      match verifyState m with
      | Some (Contacts.Panel Contacts.Verified) => dq "verified contact"
      | Some (Contacts.Panel Contacts.Changed) => dq "identity changed &middot; verify before trusting"
      | Some (Contacts.Panel Contacts.Stale) => dq "verified &middot; cannot re-check right now"
      | _ => dq "not verified"
      end ++ dq "</span></div>"
  | None => []
  end.

Definition compose_opts (life : Lifetime) : EditorOpts :=
  MkOpts (Some "type a message · Enter to send") true false (Some life) true true.

(** The editor, or the line of a conversation that is not open. *)
Definition transmit_compose (life : Lifetime) (m : TransmitModel) : chars :=
  if secure m then
    dq "<form class=`dd-compose dd-compose-rich` id=`dd-compose-form`>" ++
    renderRichEditor "dd-compose-input" (compose m) (compose_opts life) ++
    dq "<button class=`dd-btn dd-btn-primary` data-action=`send` type=`submit`>Send</button></form>"
  else
    dq "<div class=`dd-compose`><span class=`dd-prompt`>&rsaquo;</span><span class=`dd-msg`>" ++
    formatMessageText false (chars_of (compose m)) ++ dq "</span><span class=`dd-cursor`></span></div>".

Definition chat_icons (m : TransmitModel) : chars :=
  match peer m with
  | None => []
  | Some _ =>
      if selfNote m then
        dq "<div class=`dd-chat-icons dd-chat-icons-solo` data-dd-chaticons=`" ++ esc (default "" (conversationId m)) ++
        dq "`><div class=`dd-ci-slot` data-icon-slot=`self`></div></div>"
      else
        dq "<div class=`dd-chat-icons` data-dd-chaticons=`" ++ esc (default "" (conversationId m)) ++
        dq "`><div class=`dd-ci-slot` data-icon-slot=`peer`></div><div class=`dd-ci-slot` data-icon-slot=`self`></div></div>"
  end.

(** The first line of the code sets [composeConvId], which the toolbar reads. *)
Definition renderTransmit (picks : list (string * Lifetime)) (m : TransmitModel) : chars :=
  let composeConvId := default "" (conversationId m) in
  let badge := Transcript.renderTrustBadge (trust m) (secure m) (trustNote m) in
  let fileInput := if secure m then dq "<input type=`file` id=`dd-file-input` hidden aria-hidden=`true` />" else [] in
  dq "<div class=`dd-sweep`></div><div class=`dd-bar`><span>DEAD DROP</span><span>" ++ badge ++
  dq "</span></div>" ++ transmit_sub m ++ dq "<div class=`dd-chatbody`>" ++ chat_icons m ++
  dq "<div class=`dd-logrow`><div class=`dd-log`>" ++ (tv_log m ≫= Transcript.renderEntry) ++ dq "</div>" ++
  renderScrollbar ++ dq "</div></div>" ++ fileInput ++ transmit_compose (composeLifetime picks composeConvId) m ++
  renderImToolbar m.

(** ** The channel list *)

Definition renderChannelRow (c : ChannelSummary) (selectedId : option string) : chars :=
  let badge := if 0 <? cs_unread c then dq "<span class=`dd-badge`>" ++ Z_chars (cs_unread c) ++ dq "</span>" else [] in
  let active := if bool_decide (Some (cs_id c) = selectedId) then dq " dd-channel-active" else [] in
  dq "<button class=`dd-channel" ++ active ++ dq "` data-channel=`" ++ esc (cs_id c) ++ dq "` data-status=`" ++
  chars_of (cs_status c) ++ dq "`><div class=`dd-channel-top`><span class=`dd-status-dot dd-status-" ++
  chars_of (cs_status c) ++ dq "`></span><span class=`dd-channel-name`>" ++ esc (cs_peer c) ++ dq "</span>" ++ badge ++
  dq "</div><div class=`dd-channel-preview`>" ++ esc (cs_preview c) ++
  dq "</div><div class=`dd-channel-meta`>key " ++ esc (cs_fingerprint c) ++ dq " · " ++ esc (cs_status c) ++
  dq "</div></button>".

Definition renderChannels (picks : list (string * Lifetime)) (channels : list ChannelSummary) (notice : option string)
    (active : option TransmitModel) (selectedId : option string) : chars :=
  let banner := match notice with
    | Some t => dq "<div class=`dd-notice`>" ++ esc t ++ dq "</div>"
    | None => []
    end in
  let left := match channels with
    | [] =>
        banner ++ dq "<div class=`dd-form`><div class=`dd-form-sub`>no channels yet</div>" ++
        dq "<button class=`dd-btn dd-btn-primary` data-action=`new-channel`>New channel</button></div>"
    | _ =>
        banner ++ dq "<div class=`dd-list`>" ++ (channels ≫= (fun c => renderChannelRow c selectedId)) ++ dq "</div>"
    end in
  let right := match active with
    | Some t =>
        dq "<button type=`button` class=`dd-chan-back` data-action=`channels-show-list`>‹ Channels</button><div class=`dd`>" ++
        renderTransmit picks t ++ dq "</div>"
    | None => dq "<div class=`dd-detail-empty`>Select a channel to open its chat.</div>"
    end in
  dq "<div class=`dd-channels-2pane`><div class=`dd-chan-list`>" ++ left ++
  dq "</div><div class=`dd-chan-detail`>" ++ right ++ dq "</div></div>".

(** The list with a row for the chat that is open beside it. *)
Definition ensureActiveRow (channels : list ChannelSummary) (active : TransmitModel) : list ChannelSummary :=
  match conversationId active with
  | None => channels
  | Some id =>
      if existsb (fun c => bool_decide (cs_id c = id)) channels then channels
      else MkSummary id (default "Note to Self" (peer active)) (default "" (tv_fingerprint active))
             (if secure active then "secure" else "pending")
             (if selfNote active then "only your devices see this" else "") 0 :: channels
  end.

(** ** They are fragments *)

#[export] Instance logoSvg_frag cls : Calm cls -> Frag (logoSvg cls).
Proof. intros H. unfold logoSvg, LOGO_PATH. markup. Qed.
#[export] Instance renderToolButton_frag action label svg disabled extra :
  Calm action -> Frag svg -> Calm extra -> Frag (renderToolButton action label svg disabled extra).
Proof. intros H1 H2 H3. unfold renderToolButton. markup. Qed.


#[export] Instance renderImToolbar_frag m : Frag (renderImToolbar m).
Proof. unfold renderImToolbar. case_bool_decide; [exact _|]. destruct (selfNote m); markup. Qed.

Lemma color_key_calm c : c ∈ RT_TEXT_COLORS -> Calm (chars_of c.1).
Proof. intros Hc. by eapply (palette_calm TEXT_KEYS), (list_elem_of_fmap_2 (chars_of ∘ fst)). Qed.
Lemma font_key_calm f : f ∈ RT_FONTS -> Calm (chars_of (font_key f)).
Proof. intros Hf. by eapply (palette_calm FONT_KEYS), (list_elem_of_fmap_2 (chars_of ∘ font_key)). Qed.

#[export] Hint Extern 3 (Calm (chars_of _)) =>
  first [apply color_key_calm; assumption | apply font_key_calm; assumption] : typeclass_instances.

#[export] Instance rtPop_frag id label body title : Calm id -> Frag label -> Frag body -> Frag (rtPop id label body title).
Proof. intros H1 H2 H3. unfold rtPop. markup. Qed.
Lemma life_calm o : o ∈ RT_LIFETIMES -> Calm (chars_of (lf_v o)) /\ Calm (chars_of (lf_label o)).
Proof.
  intros Ho. split.
  - by eapply (palette_calm ((chars_of ∘ lf_v) <$> RT_LIFETIMES)), (list_elem_of_fmap_2 (chars_of ∘ lf_v)).
  - by eapply (palette_calm ((chars_of ∘ lf_label) <$> RT_LIFETIMES)), (list_elem_of_fmap_2 (chars_of ∘ lf_label)).
Qed.
#[export] Hint Extern 3 (Calm (chars_of (lf_v _))) => apply life_calm; assumption : typeclass_instances.
#[export] Hint Extern 3 (Calm (chars_of (lf_label _))) => apply life_calm; assumption : typeclass_instances.
#[export] Instance timer_pop_frag life : Frag (timer_pop life).
Proof. unfold timer_pop. markup. Qed.
#[export] Instance renderRichToolbar_frag timer images : Frag (renderRichToolbar timer images).
Proof. unfold renderRichToolbar. cbv zeta. markup. Qed.

#[export] Instance renderRichEditor_frag id markers opts : Frag (renderRichEditor id markers opts).
Proof. unfold renderRichEditor. cbv zeta. markup. Qed.

Lemma clock_calm n : Calm (Transcript.html_clock n).
Proof. unfold Transcript.html_clock. apply calm_app; [exact _|]. apply (calm_app [_]); [by apply tag_freeb_ok|].
  case_match; [apply (calm_app [_]); [by apply tag_freeb_ok|]|]; exact _. Qed.
#[export] Hint Resolve clock_calm : typeclass_instances.

#[export] Instance renderEntry_frag e : Frag (Transcript.renderEntry e).
Proof.
  destruct e as [text| |sender text lt rem at_ rev]; unfold Transcript.renderEntry; cbv zeta; [markup..|].
  assert (Calm (match rem with
                | Some n => chars_of "burns " ++ Transcript.html_clock n
                | None => match lt with
                          | BurnOnRead => chars_of "burns after this viewing"
                          | UntilRevoked => chars_of "kept until revoked"
                          | Duration _ => []
                          end
                end)).
  { destruct rem, lt; exact _. }
  set (burn := match rem with Some n => _ | None => _ end) in *. clearbody burn.
  set (near := match rem with Some n => _ | None => _ end) in *. clearbody near.
  markup.
Qed.

#[export] Instance renderTrustBadge_frag t secure note : Frag (Transcript.renderTrustBadge t secure note).
Proof. unfold Transcript.renderTrustBadge. cbv zeta. destruct (default _ t); markup. Qed.

#[export] Instance transmit_sub_frag m : Frag (transmit_sub m).
Proof. unfold transmit_sub. cbv zeta. markup. Qed.
#[export] Instance transmit_compose_frag life m : Frag (transmit_compose life m).
Proof. unfold transmit_compose. exact _. Qed.
#[export] Instance chat_icons_frag m : Frag (chat_icons m).
Proof. unfold chat_icons. exact _. Qed.
#[export] Instance renderTransmit_frag picks m : Frag (renderTransmit picks m).
Proof. unfold renderTransmit. cbv zeta. markup. Qed.

Lemma renderChannelRow_frag c sel : Calm (chars_of (cs_status c)) -> Frag (renderChannelRow c sel).
Proof. intros H. unfold renderChannelRow. cbv zeta. markup. Qed.

Lemma renderChannels_frag picks channels notice active sel :
  Forall (fun c => Calm (chars_of (cs_status c))) channels -> Frag (renderChannels picks channels notice active sel).
Proof.
  intros Hc. assert (Frag (channels ≫= (fun c => renderChannelRow c sel))).
  { apply frag_bind. intros c Hin. apply renderChannelRow_frag. by eapply Forall_forall in Hc. }
  unfold renderChannels. cbv zeta. destruct channels; markup.
Qed.

End ViewsChat.
