(* ===== verification/ConversationsFacts.v ===== *)
(** * Theorems on the conversations (Conversations.v)

    What the header badge says of a conversation, which messages a view shows, what is never listed,
    swept, blocked or closed, and when a message is erased.  The group channel is any one whose
    questions leave it alone ([GroupQuestions]). *)

From S2P Require Import Prelude Json Session Vault Lifetime Idb Integrity Auth Contacts RichText Transcript Controller.
From S2P Require Import ControllerFacts Conversations.

(** A question is answered and changes nothing. *)
Definition asks {G A} (m : M G A) : Prop := forall g, exists a, m g = (Ok a, g).
Class GroupQuestions (G : Type) `{GroupView G} := {
  asks_self : asks gv_selfConversationId;
  asks_isSelf id : asks (gv_isSelfConversationId id);
  asks_held : asks gv_heldConversationIds;
  asks_unlinked id : asks (gv_isUnlinkedConversationId id);
  asks_reason id : asks (gv_selfClassificationReason id);
  asks_keys id : asks (gv_peerAccountKeysFor id);
  asks_roster id : asks (gv_roster id);
  asks_diag : asks gv_selfGroupDiagnostic
}.

Module ConversationsFacts.
Import Controller ControllerFacts Conversations.

Section laws.
Context {Key W G : Type} `{AeadLaws Key} `{Random W} `{JsonText} `{!JsonTextLaws} `{GroupView G} `{!GroupQuestions G} `{GroupCommands G}.
Context (random_fills : forall n (w : W), exists b w', randomBytes n w = (Ok b, w') /\ length b = n).
Notation St := (Controller Key W G).
Implicit Types s : St.

(** ** Questions *)

(** What the group channel answers, [d] when there is none. *)
Definition answer {A} (d : A) (m : M G A) (g : option G) : A :=
  match g with Some g => match (m g).1 with Ok a => a | Throw _ => d end | None => d end.

Lemma ask_run {A} (d : A) (m : M G A) s : asks m -> on_group d m s = (Ok (answer d m (group s)), s).
Proof.
  intros Hm. unfold on_group, answer. destruct (group s) as [g|] eqn:E; [|done].
  destruct (Hm g) as (a & Ea). rewrite Ea. cbn. rewrite <-E. by destruct s.
Qed.

Lemma live_run s : has_group s = (Ok (match group s with Some _ => true | None => false end), s).
Proof. done. Qed.

Definition is_self_group (id : string) (g : option G) : bool := answer false (gv_isSelfConversationId id) g.
Definition best_self (g : option G) : option string := answer None gv_selfConversationId g.
Definition held_ids (g : option G) : list string := answer [] gv_heldConversationIds g.

(** ** The recorded self-group ids *)

Lemma recordSelfGroupIds_run ids s key a :
  unlocked s key a ->
  exists s', recordSelfGroupIds ids s = (Ok tt, s') /\ unlocked s' key a /\ group s' = group s /\
    contacts s' = contacts s /\ channels s' = channels s /\ store (manager s') = store (manager s) /\
    selfGroupIdsCache (memory s') = Some ids /\ holds s' key ("selfgroups:" +:+ a) (json_of_set ids).
Proof.
  intros U. unfold recordSelfGroupIds, selfGroupsKey. rewrite (bind_run (not_ready_run _ _ _ U)).
  set (m := memory s).
  set (s1 := set_memory (MkMemory (mskKey m) (mskRaw m) (account m) (aakSeedHex m) (freshRecoverySecret m) (selfConvId m)
                           (Some ids) (historyOff m)) s).
  assert (E1 : set_cache (Some ids) s = (Ok tt, s1)) by done.
  assert (U1 : unlocked s1 key a) by exact U.
  rewrite (bind_run E1), (bind_run (requireKey_run _ _ _ U1)), (bind_run (of_account_run _ _ _ _ U1)).
  destruct (seal_json_run random_fills key ("selfgroups:" +:+ a) (json_of_set ids) s1) as (b & w & E & Ho).
  rewrite (bind_run E), save_run. eexists. split; [reflexivity|]. split_and!; try reflexivity; [exact U|].
  exists b. split; [by rewrite record_saved, decide_True | exact Ho].
Qed.

(** What [loadSelfGroupIds] gives. *)
Definition recorded_ids s (ids : list string) : Prop := (loadSelfGroupIds s).1 = Ok ids.

Lemma loadSelfGroupIds_run s key a :
  unlocked s key a ->
  exists ids s', loadSelfGroupIds s = (Ok ids, s') /\ unlocked s' key a /\ group s' = group s /\
    contacts s' = contacts s /\ channels s' = channels s /\ manager s' = manager s.
Proof.
  intros U. unfold loadSelfGroupIds. unfold bind at 1, gets.
  destruct (selfGroupIdsCache (memory s)) as [ids|]; [by exists ids, s|].
  rewrite (bind_run (not_ready_run _ _ _ U)).
  assert (E : exists ids, read_record [] string_set selfGroupsKey s = (Ok ids, s)).
  { unfold read_record. rewrite (bind_run (not_ready_run _ _ _ U)). unfold selfGroupsKey.
    rewrite (bind_run (of_account_run _ _ _ _ U)), (bind_run (load_run _ _)).
    destruct (record_at _ _) as [b|]; [|by eexists]. unfold try_catch.
    rewrite (bind_run (requireKey_run _ _ _ U)). unfold of_result, bind.
    destruct (open_json key b _); by eexists. }
  destruct E as (ids & E). rewrite (bind_run E). eexists ids, _. split; [reflexivity|]. by split_and!.
Qed.

(** ** Rows *)

Lemma delete_row_run id s :
  exists s', delete_row id s = (Ok tt, s') /\ memory s' = memory s /\ sessions s' = sessions s /\ db s' = db s /\
    group s' = group s /\ contacts s' = contacts s /\ manager s' = manager s /\
    forall j, Channels.held (channels s') j = if decide (j = id) then None else Channels.held (channels s) j.
Proof.
  eexists. split; [reflexivity|]. split_and!; try reflexivity. intros j.
  unfold Channels.held, Channels.disk. cbn. rewrite !JsMap.lookup_remove. by case_decide.
Qed.

(** ** Our own groups are neither blocked nor closed *)

Definition owned id (g : option G) (rec : list string) : Prop :=
  id ∈ rec \/ best_self g = Some id \/ is_self_group id g = true.

Lemma is_own_group_run id rec s : exists b, is_own_group id rec s = (Ok b, s) /\ (b = true <-> owned id (group s) rec).
Proof.
  unfold is_own_group, owned. case_bool_decide as E1; [exists true; naive_solver|].
  rewrite (bind_run (ask_run None _ s asks_self)). fold (best_self (group s)).
  case_bool_decide as E2; [exists true; naive_solver|].
  rewrite (ask_run false _ s (asks_isSelf id)). fold (is_self_group id (group s)).
  exists (is_self_group id (group s)). naive_solver.
Qed.

(** Blocking or removing a conversation that is a group of our own devices (recorded, best, or so
    classified) only hides it: no key is blocked, no group is closed, no message is erased; the row is
    gone and the id recorded. *)
Theorem own_groups_are_spared id s key a rec g :
  unlocked s key a -> group s = Some g -> recorded_ids s rec -> owned id (Some g) rec ->
  let spared s' := group s' = Some g /\ contacts s' = contacts s /\ store (manager s') = store (manager s) /\
      Channels.held (channels s') id = None /\ selfGroupIdsCache (memory s') = Some (set_add id rec) in
  (exists s', blockConversation id s = (Ok tt, s') /\ spared s') /\
  (exists s', removeConversation id s = (Ok tt, s') /\ spared s').
Proof.
  intros U Hg Hr Hown spared.
  destruct (loadSelfGroupIds_run s key a U) as (ids & s1 & E1 & U1 & G1 & C1 & R1 & M1).
  unfold recorded_ids in Hr. rewrite E1 in Hr. injection Hr as ->.
  destruct (is_own_group_run id rec s1) as (b & Eb & Hb). rewrite G1, Hg in Hb.
  assert (b = true) as -> by by apply Hb.
  assert (exists s', hide_and_record id rec s1 = (Ok tt, s') /\ spared s') as (s' & E & Hs).
  { destruct (recordSelfGroupIds_run (set_add id rec) s1 key a U1) as (s2 & E2 & _ & G2 & C2 & R2 & M2 & K2 & _).
    destruct (delete_row_run id s2) as (s3 & E3 & Me3 & _ & _ & G3 & C3 & M3 & R3).
    exists s3. unfold hide_and_record. rewrite (bind_run E2). split; [exact E3|]. unfold spared.
    rewrite G3, G2, G1, C3, C2, C1, M3, M2, M1, Me3, R3. by rewrite decide_True. }
  assert (Hl : has_group s = (Ok true, s)) by by rewrite live_run, Hg.
  split; exists s'; (split; [|exact Hs]).
  - unfold blockConversation. rewrite (bind_run Hl). cbn [negb]. by rewrite (bind_run E1), (bind_run Eb).
  - unfold removeConversation. rewrite (bind_run Hl). cbn [negb]. by rewrite (bind_run E1), (bind_run Eb).
Qed.

(** ** Erasing *)

Lemma on_manager_run {A} (m : M (Manager Keyvault W) A) s r x :
  m (manager s) = (r, x) ->
  on_manager m s = (r, MkController (memory s) (sessions s) (db s) (channels s) x (group s) (contacts s)).
Proof. intros E. unfold on_manager, zoom. by rewrite E. Qed.

Lemma get_message_run id s : on_keyvault (Keyvault.get id) s = (Ok (Lifetimes.held (manager s) id), s).
Proof.
  refine (eq_trans (on_manager_run _ s _ _ (Lifetimes.get_run id (manager s))) _). by destruct s.
Qed.

(** A revoke that arrives erases exactly the message it names, and that only if it is held, in the
    conversation the revoke came in, and was sent as until-revoked; our own outgoing copy goes only
    for a revoke of one of our own devices. *)
Theorem inbound_revoke_is_guarded conv target own s g :
  Lifetimes.ok (manager s) -> group s = Some g ->
  exists s', applyInboundRevoke conv target own s = (Ok tt, s') /\
    forall j, Lifetimes.held (manager s') j =
      match Lifetimes.held (manager s) j with
      | Some r => if bool_decide (j = target) && bool_decide (Vault.conversationId r = conv) &&
                     bool_decide (lifetimeKind r = KindUntilRevoked) && (own || negb (bool_decide (direction r = DirOut)))
                  then None else Some r
      | None => None
      end.
Proof.
  intros Ho Hg. unfold applyInboundRevoke. assert (Hl : has_group s = (Ok true, s)) by by rewrite live_run, Hg.
  rewrite (bind_run Hl). cbn [negb]. rewrite (bind_run (get_message_run _ _)).
  destruct (Lifetimes.held (manager s) target) as [r|] eqn:Er.
  - destruct (may_erase conv own r) eqn:Em.
    + destruct (Lifetimes.expire_run target ByRevoke (manager s) Ho) as (x & Ex & _ & _ & _ & Hx & _).
      unfold Lifetimes.revoke. rewrite (on_manager_run _ s _ _ Ex). eexists. split; [reflexivity|]. intros j. cbn [manager].
      rewrite Hx. case_decide as Ej; [|by rewrite bool_decide_eq_false_2 by done; destruct (Lifetimes.held (manager s) j)].
      subst j. rewrite Er, bool_decide_eq_true_2 by done. cbn.
      unfold may_erase in Em. apply andb_prop in Em as [Em Eo]. rewrite Em. cbn.
      destruct own; [done|]. cbn in Eo. rewrite andb_true_r in Eo. by rewrite Eo.
    + eexists. split; [reflexivity|]. intros j. destruct (decide (j = target)) as [->|Hj].
      * rewrite Er, bool_decide_eq_true_2 by done. cbn. unfold may_erase in Em.
        destruct (bool_decide (Vault.conversationId r = conv)); [|done].
        destruct (bool_decide (lifetimeKind r = KindUntilRevoked)); [|done]. cbn [andb] in Em |- *.
        revert Em. by destruct (bool_decide (direction r = DirOut)), own.
      * rewrite bool_decide_eq_false_2 by done. by destruct (Lifetimes.held (manager s) j).
  - eexists. split; [reflexivity|]. intros j. destruct (decide (j = target)) as [->|Hj]; [by rewrite Er|].
    rewrite bool_decide_eq_false_2 by done. by destruct (Lifetimes.held (manager s) j).
Qed.

Lemma may_revoke_spec conv r :
  may_revoke conv r = true <->
  Vault.conversationId r = conv /\ (direction r = DirOut \/ ownAuthored r = Some true) /\
  lifetimeKind r = KindUntilRevoked.
Proof.
  unfold may_revoke. rewrite !andb_true_iff, orb_true_iff, !bool_decide_eq_true. tauto.
Qed.

(** C15. Unsending one of our messages (a record of this conversation that we sent, from this device or
    another of ours, as until-revoked) waits for the group channel, which waits for the receipt: when
    that fails, the call fails and every stored message is as it was; when it succeeds, exactly that
    message is erased, before the view is rebuilt.  For any other message (a peer's, one of another
    conversation or of another kind, or none) the call announces nothing and erases nothing: it only
    rebuilds the view. *)
Theorem unsend_erases_last text_decode conv mid s :
  Lifetimes.ok (manager s) ->
  let ours r := Vault.conversationId r = conv /\ (direction r = DirOut \/ ownAuthored r = Some true) /\
                lifetimeKind r = KindUntilRevoked in
  (forall r, Lifetimes.held (manager s) mid = Some r -> ours r ->
    match require_group (gc_revokeMessage conv mid) s with
    | (Throw e, s1) => revokeMessage text_decode conv mid s = (Throw e, s1) /\ manager s1 = manager s
    | (Ok _, s1) =>
        exists s2, revokeMessage text_decode conv mid s = openChannel text_decode conv false s2 /\
          group s2 = group s1 /\
          forall j, Lifetimes.held (manager s2) j = if decide (j = mid) then None else Lifetimes.held (manager s) j
    end) /\
  ((forall r, Lifetimes.held (manager s) mid = Some r -> ~ ours r) ->
    revokeMessage text_decode conv mid s = openChannel text_decode conv false s).
Proof.
  intros Ho ours. unfold revokeMessage.
  assert (Hget : forall k : option VaultRecord -> M St TransmitModel,
    bind (on_keyvault (Keyvault.get mid)) k s = k (Lifetimes.held (manager s) mid) s).
  { intros k. exact (bind_run (get_message_run mid s)). }
  rewrite Hget. split; [intros r -> Hr%may_revoke_spec; rewrite Hr|].
  2: { destruct (Lifetimes.held (manager s) mid) as [r|]; [|done]. intros Hr.
       destruct (may_revoke conv r) eqn:Em; [|done]. by destruct (Hr r eq_refl (proj1 (may_revoke_spec conv r) Em)). }
  destruct (require_group (gc_revokeMessage conv mid) s) as [[[]|e] s1] eqn:E.
  - assert (exists g1, group s1 = Some g1) as [g1 Hg].
    { unfold require_group in E. destruct (group s) as [g|]; [|done]. destruct (gc_revokeMessage conv mid g) as [r' g'].
      injection E as _ <-. by eexists. }
    assert (Hm : manager s1 = manager s).
    { unfold require_group in E. destruct (group s) as [g|]; [|done]. destruct (gc_revokeMessage conv mid g) as [r' g'].
      by injection E as _ <-. }
    destruct (Lifetimes.expire_run mid ByRevoke (manager s1)) as (x & Ex & _ & _ & _ & Hx & _); [by rewrite Hm|].
    eexists. split.
    + unfold bind at 1. unfold bind at 1. rewrite E. unfold on_lifetime.
      assert (Hl : has_group s1 = (Ok true, s1)) by by rewrite live_run, Hg.
      rewrite (bind_run Hl). cbn iota. unfold Lifetimes.revoke. rewrite (on_manager_run _ s1 _ _ Ex). reflexivity.
    + split; [done|]. intros j. cbn [manager]. by rewrite Hx, Hm.
  - split.
    + unfold bind at 1. unfold bind at 1. by rewrite E.
    + unfold require_group in E. destruct (group s) as [g|]; [|by injection E as _ <-].
      destruct (gc_revokeMessage conv mid g) as [r' g']. by injection E as _ <-.
Qed.

(** ** The sweep *)

Definition rows_of s : list ChannelRecord := match (Channels.list (channels s)).1 with Ok l => l | Throw _ => [] end.

Lemma rows_run s : on_channels Channels.list s = (Ok (rows_of s), s).
Proof. by destruct s. Qed.

(** The ids of the rows that open under our key. *)
Definition row_ids key s : list string := cs_id <$> omap (tryDecodeChannel key) (rows_of s).

Lemma sweep_rows_run key heldIds rec rows : forall s,
  exists s', for_each rows (sweep_row (W := W) (G := G) key heldIds rec) s = (Ok tt, s') /\ group s' = group s /\
    manager s' = manager s /\
    forall j, Channels.held (channels s') j =
      if bool_decide (j ∈ cs_id <$> omap (tryDecodeChannel key) rows) && negb (bool_decide (j ∈ heldIds)) &&
         negb (bool_decide (j ∈ rec)) then None else Channels.held (channels s) j.
Proof.
  induction rows as [|x rows IH]; intros s; [by exists s|]. cbn [for_each].
  assert (exists s1, sweep_row key heldIds rec x s = (Ok tt, s1) /\ group s1 = group s /\ manager s1 = manager s /\
    forall j, Channels.held (channels s1) j =
      if bool_decide (cs_id <$> tryDecodeChannel key x = Some j) && negb (bool_decide (j ∈ heldIds)) &&
         negb (bool_decide (j ∈ rec)) then None else Channels.held (channels s) j) as (s1 & E1 & G1 & M1 & R1).
  { unfold sweep_row. destruct (tryDecodeChannel key x) as [c|]; cbn [fmap option_fmap option_map].
    - destruct (_ && _) eqn:Ec.
      + destruct (delete_row_run (cs_id c) s) as (s1 & E1 & _ & _ & _ & G1 & _ & M1 & R1). exists s1.
        split_and!; [done..|]. intros j. rewrite R1. destruct (decide (j = cs_id c)) as [->|Hj].
        * rewrite bool_decide_eq_true_2 by done. cbn [andb]. by rewrite Ec.
        * rewrite (bool_decide_eq_false_2 (Some (cs_id c) = Some j)) by congruence. done.
      + exists s. split_and!; [done..|]. intros j. destruct (decide (j = cs_id c)) as [->|Hj].
        * rewrite bool_decide_eq_true_2 by done. cbn [andb]. by rewrite Ec.
        * by rewrite (bool_decide_eq_false_2 (Some (cs_id c) = Some j)) by congruence.
    - exists s. split_and!; done. }
  rewrite (bind_run E1). destruct (IH s1) as (s2 & E2 & G2 & M2 & R2). exists s2. rewrite G2, M2.
  split_and!; [done..|]. intros j. rewrite R2, R1. csimpl.
  destruct (tryDecodeChannel key x) as [c|]; csimpl; [|done].
  destruct (bool_decide (j ∈ heldIds)), (bool_decide (j ∈ rec)); cbn; rewrite ?andb_false_r, ?andb_true_r; try done.
  repeat case_bool_decide; set_solver.
Qed.

(** The sweep after a connection deletes exactly the rows that open under our key and whose
    conversation is neither held nor recorded as ours; a device that holds no conversation, such as
    one whose restore failed, deletes none, and another account's rows stay. *)
Theorem sweep_deletes_exactly s key a rec :
  unlocked s key a -> recorded_ids s rec ->
  exists s', sweepDeadChannels s = (Ok tt, s') /\ group s' = group s /\ manager s' = manager s /\
    forall j, Channels.held (channels s') j =
      if negb (bool_decide (held_ids (group s) = [])) && bool_decide (j ∈ row_ids key s) &&
         negb (bool_decide (j ∈ held_ids (group s))) && negb (bool_decide (j ∈ rec))
      then None else Channels.held (channels s) j.
Proof.
  intros U Hr. unfold sweepDeadChannels. rewrite (bind_run (ask_run [] _ s asks_held)). fold (held_ids (group s)).
  case_bool_decide as Eh; [by exists s|]. cbn [negb andb].
  rewrite (bind_run (requireKey_run _ _ _ U)).
  destruct (loadSelfGroupIds_run s key a U) as (ids & s1 & E1 & U1 & G1 & _ & R1 & M1).
  unfold recorded_ids in Hr. rewrite E1 in Hr. injection Hr as ->.
  rewrite (bind_run E1), (bind_run (rows_run s1)).
  assert (rows_of s1 = rows_of s) as -> by (unfold rows_of; by rewrite R1).
  destruct (sweep_rows_run key (held_ids (group s)) rec (rows_of s) s1) as (s2 & E2 & G2 & M2 & R2).
  exists s2. rewrite G2, M2. split_and!; [done..|]. intros j. by rewrite R2, R1.
Qed.

(** ** The list *)

Definition summaries key s : list ChannelSummary := omap (tryDecodeChannel key) (rows_of s).

Lemma readable_rows_run s key a : unlocked s key a -> readable_rows s = (Ok (summaries key s), s).
Proof.
  intros U. unfold readable_rows. by rewrite (bind_run (requireKey_run _ _ _ U)), (bind_run (rows_run s)).
Qed.

Lemma set_add_in x y l : y ∈ set_add x l <-> y = x \/ y ∈ l.
Proof. unfold set_add. case_bool_decide; set_solver. Qed.

(** Every row of a group of our own devices ends up hidden, and what was hidden stays so. *)
Lemma reconcile_loop_run recorded rows : forall hidden changed s,
  exists hidden' changed' s', reconcile_loop recorded rows hidden changed s = (Ok (hidden', changed'), s') /\
    hidden ⊆ hidden' /\
    forall c, c ∈ rows -> is_self_group (cs_id c) (group s) = true -> cs_id c ∈ hidden'.
Proof.
  induction rows as [|c rows IH]; intros hidden changed s.
  { exists hidden, changed, s. split_and!; [done..|]. by intros c ?%not_elem_of_nil. }
  cbn [reconcile_loop].
  assert (E : (if bool_decide (cs_id c ∈ hidden) then ret true else on_group false (gv_isSelfConversationId (cs_id c))) s
    = (Ok (bool_decide (cs_id c ∈ hidden) || is_self_group (cs_id c) (group s)), s)).
  { case_bool_decide; [done|]. by rewrite (ask_run false _ s (asks_isSelf _)). }
  rewrite (bind_run E). destruct (bool_decide (cs_id c ∈ hidden) || is_self_group (cs_id c) (group s)) eqn:Eh; cbn [negb].
  - destruct (bool_decide (cs_id c ∈ recorded)).
    + destruct (IH (set_add (cs_id c) hidden) changed s) as (h & b & s' & E' & Hsub & Hall).
      exists h, b, s'. split; [done|]. split; [intros y Hy; apply Hsub, set_add_in; by right|].
      intros c' [->|Hc']%elem_of_cons Hs; [apply Hsub, set_add_in; by left | by apply Hall].
    + destruct (delete_row_run (cs_id c) s) as (s1 & E1 & _ & _ & _ & G1 & _). rewrite (bind_run E1).
      destruct (IH (set_add (cs_id c) hidden) true s1) as (h & b & s' & E' & Hsub & Hall). rewrite G1 in Hall.
      exists h, b, s'. split; [done|]. split; [intros y Hy; apply Hsub, set_add_in; by right|].
      intros c' [->|Hc']%elem_of_cons Hs; [apply Hsub, set_add_in; by left | by apply Hall].
  - destruct (IH hidden changed s) as (h & b & s' & E' & Hsub & Hall). exists h, b, s'. split_and!; [done..|].
    intros c' [->|Hc']%elem_of_cons Hs; [|by apply Hall]. rewrite Hs, orb_true_r in Eh. done.
Qed.

Lemma shown_rows_ids rows : forall s l s', shown_rows rows s = (Ok l, s') -> cs_id <$> l = cs_id <$> rows.
Proof.
  induction rows as [|c rows IH]; intros s l s' E; [by injection E as <- <-|]. cbn [shown_rows] in E.
  apply bind_Ok_inv in E as (x & s1 & Ex & E). apply bind_Ok_inv in E as (y & s2 & Ey & E). injection E as <- <-.
  csimpl. f_equal; [|by eapply IH]. clear Ey. unfold shown_row in Ex.
  apply bind_Ok_inv in Ex as (r & s3 & _ & Ex). destruct (_ && _ && _ && _); [by injection Ex as <- _|].
  apply bind_Ok_inv in Ex as (h & s4 & _ & Ex). destruct (negb _); [by injection Ex as <- _|].
  apply bind_Ok_inv in Ex as (u & s5 & _ & Ex). destruct u; by injection Ex as <- _.
Qed.

(** The channel list never shows a group of our own devices: no listed row has an id that was
    recorded as ours, is the best self-group, or is so classified; and each row shown is one that
    opens under our key. *)
Theorem own_groups_are_never_listed s key a rec rows s' :
  unlocked s key a -> recorded_ids s rec -> listChannels s = (Ok rows, s') ->
  forall c, c ∈ rows -> cs_id c ∈ row_ids key s /\ ~ owned (cs_id c) (group s) rec.
Proof.
  intros U Hr. unfold listChannels. rewrite (bind_run (readable_rows_run s key a U)).
  intros E c Hc. apply bind_Ok_inv in E as (hidden & s1 & Eh & E).
  apply shown_rows_ids in E.
  assert (Hid : cs_id c ∈ cs_id <$> List.filter (fun c => negb (bool_decide (cs_id c ∈ hidden))) (summaries key s)).
  { rewrite <-E. by apply list_elem_of_fmap_2. }
  apply list_elem_of_fmap in Hid as (x & -> & Hx). apply list_elem_of_In, filter_In in Hx as [Hx Hnh].
  apply list_elem_of_In in Hx. apply negb_true_iff, bool_decide_eq_false in Hnh.
  split; [by apply list_elem_of_fmap_2|]. intros Hown. apply Hnh. clear E Hc Hnh.
  unfold reconcileSelfGroupRecords in Eh. rewrite bind_ret_l in Eh.
  destruct (loadSelfGroupIds_run s key a U) as (ids & s2 & E2 & U2 & G2 & _).
  unfold recorded_ids in Hr. rewrite E2 in Hr. injection Hr as ->.
  rewrite (bind_run E2), (bind_run (ask_run None _ s2 asks_self)) in Eh.
  destruct (reconcile_loop_run rec (summaries key s)
    (match answer None gv_selfConversationId (group s2) with Some id => set_add id rec | None => rec end) false s2)
    as (h & b & s3 & E3 & Hsub & Hall).
  rewrite (bind_run E3) in Eh. cbn [fst snd] in Eh.
  apply bind_Ok_inv in Eh as ([] & s4 & _ & Eh). apply bind_Ok_inv in Eh as ([] & s5 & _ & Eh). injection Eh as <- _.
  rewrite G2 in Hsub, Hall. fold (best_self (group s)) in Hsub. destruct Hown as [Hin|[Hbest|Hself]].
  - apply Hsub. destruct (best_self (group s)); [apply set_add_in; by right | done].
  - apply Hsub. rewrite Hbest. apply set_add_in. by left.
  - by apply Hall.
Qed.

(** ** Opening a conversation *)

Lemma on_contacts_run {A} (p : Contacts.prog A) s :
  (Contacts.run p (contacts s)).2 = contacts s -> on_contacts p s = (Ok (Contacts.run p (contacts s)).1, s).
Proof.
  unfold on_contacts, zoom. destruct (Contacts.run p (contacts s)) as [x c]. cbn. intros ->. by destruct s.
Qed.
Lemma handle_run id s :
  on_contacts (Contacts.handleForConversation id) s = (Ok (Contacts.run (Contacts.handleForConversation id) (contacts s)).1, s).
Proof. by apply on_contacts_run. Qed.
Lemma buddy_slot_run h s : buddy_slot h s = (Ok (JsObj.read h (Contacts.read_buddies (contacts s))), s).
Proof. unfold buddy_slot. by rewrite (bind_run (on_contacts_run Contacts.loadBuddyMap s eq_refl)). Qed.

(** The key pinned for the buddy of a conversation, empty for none. *)
Definition pinned (id : string) (c : Contacts.State) : string :=
  match (Contacts.run (Contacts.handleForConversation id) c).1 with
  | None => ""
  | Some h => match JsObj.read h (Contacts.read_buddies c) with JsObj.Own e => default "" (Contacts.b_vk e) | _ => "" end
  end.
Lemma pin_of_run id s : pin_of (Contacts.run (Contacts.handleForConversation id) (contacts s)).1 s = (Ok (pinned id (contacts s)), s).
Proof.
  unfold pin_of, pinned. destruct (Contacts.run _ _).1 as [h|]; [|done]. by rewrite (bind_run (buddy_slot_run h s)).
Qed.

(** The messages a view is built from: of the conversation, and for Note to Self of our other groups. *)
Definition in_view id isSelf (rec : list string) (g : option G) (v : VaultRecord) : Prop :=
  Vault.conversationId v = id \/
  isSelf = true /\ (Vault.conversationId v ∈ rec \/ Vault.conversationId v ∈ held_ids g /\ is_self_group (Vault.conversationId v) g = true).

Notation stored s v := (Lifetimes.held (manager s) (messageId v) = Some v).

Lemma list_conversation_run id s :
  Lifetimes.ok (manager s) ->
  exists l, on_keyvault (Keyvault.listByConversation id) s = (Ok l, s) /\
    forall v, v ∈ l <-> stored s v /\ Vault.conversationId v = id.
Proof.
  intros Ho.
  destruct (Keyvault.keyvault_refines_interface (store (manager s)) (MkVaultRecord "" "" DirIn KindBurn None None 0 false None [] [] [] [])
    "" id true Ho) as (_ & _ & _ & (l & _ & _ & Hl & El) & _).
  exists (List.filter (Keyvault.of_conversation id) l). split.
  { assert (Em : on_keyvault (Keyvault.listByConversation id) s =
      (let '(r, x) := Keyvault.listByConversation id (store (manager s)) in
       (r, MkController (memory s) (sessions s) (db s) (channels s)
             (MkManager (timers (manager s)) x (clock (manager s)) (scheduled (manager s)) (nextHandle (manager s))
                (erased (manager s)) (Lifetime.world (manager s))) (group s) (contacts s)))) by by destruct s as [? ? ? ? [] ? ?].
    rewrite Em, El. by destruct s as [? ? ? ? [] ? ?]. }
  intros v. rewrite list_elem_of_In, filter_In, <-list_elem_of_In, Hl. unfold Keyvault.of_conversation.
  by rewrite bool_decide_eq_true.
Qed.

Lemma add_self_ids_run l : forall ids s,
  exists ids', add_self_ids l ids s = (Ok ids', s) /\
    forall c, c ∈ ids' -> c ∈ ids \/ c ∈ l /\ is_self_group c (group s) = true.
Proof.
  induction l as [|c l IH]; intros ids s; [exists ids; naive_solver|]. cbn [add_self_ids].
  rewrite (bind_run (ask_run false _ s (asks_isSelf c))). fold (is_self_group c (group s)).
  destruct (is_self_group c (group s)) eqn:Ec.
  - destruct (IH (set_add c ids) s) as (ids' & E & Hall). exists ids'. split; [done|]. intros y Hy.
    destruct (Hall y Hy) as [Hi|[Hl Hs]]; [|right; split; [by right | done]].
    apply set_add_in in Hi as [->|Hi]; [right; split; [left | done] | by left].
  - destruct (IH ids s) as (ids' & E & Hall). exists ids'. split; [done|]. intros y Hy.
    destruct (Hall y Hy) as [Hi|[Hl Hs]]; [by left | right; split; [by right | done]].
Qed.

Lemma list_conversations_run ids s : Lifetimes.ok (manager s) ->
  exists l, list_conversations ids s = (Ok l, s) /\ forall v, v ∈ l -> stored s v /\ Vault.conversationId v ∈ ids.
Proof.
  intros Ho. induction ids as [|id ids IH]; [exists []; split; [done | by intros v ?%not_elem_of_nil]|].
  cbn [list_conversations]. destruct (list_conversation_run id s Ho) as (l & E & Hl). rewrite (bind_run E).
  destruct IH as (l' & E' & Hl'). rewrite (bind_run E'). exists (l ++ l'). split; [done|].
  intros v [[Hv <-]%Hl|[Hv Hi]%Hl']%elem_of_app; (split; [done|]); [left | by right].
Qed.

Lemma stored_records_run id isSelf rec s : Lifetimes.ok (manager s) ->
  exists l, stored_records id isSelf rec s = (Ok l, s) /\
    (forall v, v ∈ l -> stored s v /\ in_view id isSelf rec (group s) v) /\
    (forall v, stored s v -> Vault.conversationId v = id -> v ∈ l).
Proof.
  intros Ho. unfold stored_records. destruct (list_conversation_run id s Ho) as (l & E & Hl). rewrite (bind_run E).
  destruct isSelf; cbn [negb]; [|exists l; split; [done|]; split; [intros v [Hv Hc]%Hl; split; [done | by left]|by intros; apply Hl]].
  rewrite (bind_run (ask_run [] _ s asks_held)). fold (held_ids (group s)).
  destruct (add_self_ids_run (held_ids (group s)) rec s) as (ids & E2 & Hids). rewrite (bind_run E2).
  destruct (list_conversations_run (List.filter (fun c => negb (bool_decide (c = id))) ids) s Ho) as (l' & E3 & Hl').
  rewrite (bind_run E3). exists (l ++ l'). split; [done|]. split.
  - intros v [[Hv Hc]%Hl|[Hv Hi]%Hl']%elem_of_app; (split; [done|]); [by left|].
    right. split; [done|]. apply Hids. apply list_elem_of_In, filter_In in Hi as [Hi _]. by apply list_elem_of_In.
  - intros v Hv Hc. apply elem_of_app. left. by apply Hl.
Qed.

(** Who a conversation is with: the union of what says that it is a group of our own devices. *)
Definition recognized id (f : bool) s (rec : list string) : bool :=
  f || bool_decide (selfConvId (memory s) = Some id) || bool_decide (best_self (group s) = Some id) ||
  is_self_group id (group s) || bool_decide (id ∈ rec).

Definition unmoved s s' key a : Prop :=
  unlocked s' key a /\ group s' = group s /\ contacts s' = contacts s /\ store (manager s') = store (manager s).

Lemma recognize_self_run id f s key a rec :
  unlocked s key a -> recorded_ids s rec ->
  exists s', recognize_self id f s = (Ok (recognized id f s rec, rec), s') /\ unmoved s s' key a.
Proof.
  intros U Hr. unfold recognize_self.
  destruct (loadSelfGroupIds_run s key a U) as (ids & s1 & E1 & U1 & G1 & C1 & _ & M1).
  assert (Hsc : selfConvId (memory s1) = selfConvId (memory s)).
  { pose proof E1 as E. unfold loadSelfGroupIds, bind, gets in E. destruct (selfGroupIdsCache (memory s)); [by injection E as _ <-|].
    rewrite (not_ready_run _ _ _ U) in E.
    destruct (read_record [] string_set selfGroupsKey s) as [[x|e] y] eqn:Er; [|done].
    assert (y = s) as ->.
    { revert Er. unfold read_record. rewrite (bind_run (not_ready_run _ _ _ U)). unfold selfGroupsKey.
      rewrite (bind_run (of_account_run _ _ _ _ U)), (bind_run (load_run _ _)).
      destruct (record_at _ _) as [b|]; [|by intros [= _ <-]]. unfold try_catch.
      rewrite (bind_run (requireKey_run _ _ _ U)). unfold of_result, bind, ret.
      destruct (open_json key b _); by intros [= _ <-]. }
    by injection E as _ <-. }
  unfold recorded_ids in Hr. rewrite E1 in Hr. injection Hr as ->. rewrite (bind_run E1). unfold bind at 1, gets.
  rewrite (bind_run (ask_run None _ s1 asks_self)), (bind_run (ask_run false _ s1 (asks_isSelf id))).
  exists s1. rewrite Hsc, G1. split; [reflexivity|]. unfold unmoved. by rewrite M1.
Qed.

(** What a view says of a conversation. *)
Definition summary_at key id s : option ChannelSummary := Channels.held (channels s) id ≫= tryDecodeChannel key.
Definition secure_of (isSelf : bool) (summary : option ChannelSummary) : bool :=
  isSelf || match summary with Some c => bool_decide (cs_status c = "secure") | None => false end.
Definition unreachable id (isSelf : bool) (g : option G) : bool :=
  if isSelf then false else answer false (gv_isUnlinkedConversationId id) g.
Definition verify_of id (isSelf : bool) s : option VerifyState :=
  if isSelf then None else Some (verify_state (pinned id (contacts s)) (answer [] (gv_peerAccountKeysFor id) (group s))).
Definition reason_of id (g : option G) : string := answer "" (gv_selfClassificationReason id) g.
Definition is_live (g : option G) : bool := match g with Some _ => true | None => false end.

Lemma unmoved_refl s key a : unlocked s key a -> unmoved s s key a.
Proof. done. Qed.
Lemma unmoved_trans s s' s'' key a : unmoved s s' key a -> unmoved s' s'' key a -> unmoved s s'' key a.
Proof. intros (_ & G1 & C1 & M1) (U & G2 & C2 & M2). split_and!; [done|congruence..]. Qed.
Lemma delete_row_unmoved id s key a : unlocked s key a -> exists s', delete_row id s = (Ok tt, s') /\ unmoved s s' key a.
Proof.
  intros U. destruct (delete_row_run id s) as (s' & E & Em & Es & _ & Eg & Ec & Emg & _). exists s'. split; [done|].
  unfold unmoved, unlocked. by rewrite Em, Es, Eg, Ec, Emg.
Qed.

Lemma remember_self_run id (isSelf : bool) rec row s key a :
  unlocked s key a -> exists s', remember_self id isSelf rec row s = (Ok tt, s') /\ unmoved s s' key a.
Proof.
  intros U. unfold remember_self. destruct isSelf; [|destruct row; by exists s].
  assert (exists s1, (do! set_selfConv (Some id) in
      if bool_decide (id ∈ rec) then ret tt else recordSelfGroupIds (set_add id rec)) s = (Ok tt, s1) /\ unmoved s s1 key a)
    as (s1 & E1 & S1).
  { set (s0 := (set_selfConv (Some id) s).2). assert (E0 : set_selfConv (Some id) s = (Ok tt, s0)) by done.
    assert (S0 : unmoved s s0 key a) by exact (conj U (conj eq_refl (conj eq_refl eq_refl))).
    rewrite (bind_run E0). case_bool_decide; [by exists s0|].
    destruct (recordSelfGroupIds_run (set_add id rec) s0 key a U) as (s1 & E1 & U1 & G1 & C1 & _ & M1 & _).
    exists s1. split; [done|]. apply (unmoved_trans s s0 s1 key a S0). by split_and!. }
  rewrite (bind_run E1). destruct row; [|by exists s1].
  destruct (delete_row_unmoved id s1 key a (proj1 S1)) as (s2 & E2 & S2). exists s2. split; [done|].
  by apply (unmoved_trans s s1 s2).
Qed.

Lemma judge_run id isSelf secure s :
  exists n, judge id isSelf secure s =
    (Ok (unreachable id isSelf (group s), verify_of id isSelf s,
         trust_of secure isSelf (if secure && isSelf then reason_of id (group s) else "") n
           (unreachable id isSelf (group s)) (verify_of id isSelf s)), s).
Proof.
  unfold judge.
  assert (E3 : (if isSelf then ret false else on_group false (gv_isUnlinkedConversationId id)) s
               = (Ok (unreachable id isSelf (group s)), s)).
  { unfold unreachable. destruct isSelf; [done|]. by rewrite (ask_run false _ s (asks_unlinked id)). }
  rewrite (bind_run E3).
  assert (E4 : (if isSelf then ret None else
     let! handle := on_contacts (Contacts.handleForConversation id) in
     let! vk := pin_of handle in
     let! keys := on_group [] (gv_peerAccountKeysFor id) in
     ret (Some (verify_state vk keys))) s = (Ok (verify_of id isSelf s), s)).
  { unfold verify_of. destruct isSelf; [done|].
    by rewrite (bind_run (handle_run id s)), (bind_run (pin_of_run id s)), (bind_run (ask_run [] _ s (asks_keys id))). }
  rewrite (bind_run E4).
  assert (E5 : (if secure && isSelf then on_group "" (gv_selfClassificationReason id) else ret "") s
               = (Ok (if secure && isSelf then reason_of id (group s) else ""), s)).
  { destruct (secure && isSelf); [|done]. by rewrite (ask_run "" _ s (asks_reason id)). }
  rewrite (bind_run E5). set (reason := if secure && isSelf then reason_of id (group s) else "").
  assert (exists devices, (if secure && isSelf && benign reason then on_group [] (gv_roster id) else ret []) s = (Ok devices, s))
    as (devices & E6).
  { destruct (_ && _ && _); [|by exists []]. eexists. apply (ask_run [] _ s (asks_roster id)). }
  rewrite (bind_run E6). by exists (length devices).
Qed.

Lemma people_run id isSelf s : exists p, people id isSelf s = (Ok p, s).
Proof.
  unfold people.
  assert (exists h, (if isSelf then ret None else on_contacts (Contacts.handleForConversation id)) s = (Ok h, s)) as (h & E9).
  { destruct isSelf; eexists; [done|]. apply handle_run. }
  rewrite (bind_run E9).
  assert (exists b, match h with
     | None => ret false
     | Some h => let! e := buddy_slot h in
                 ret (match e with JsObj.Own e => negb (Contacts.b_removed e) | _ => false end)
     end s = (Ok b, s)) as (isb & E10).
  { destruct h as [h|]; [|by eexists]. rewrite (bind_run (buddy_slot_run h s)). by eexists. }
  rewrite (bind_run E10).
  assert (exists d, (if isSelf then let! d := on_group "" gv_selfGroupDiagnostic in ret (Some d) else ret None) s = (Ok d, s))
    as (d & E11).
  { destruct isSelf; [|by eexists]. rewrite (bind_run (ask_run "" _ s asks_diag)). by eexists. }
  rewrite (bind_run E11). by eexists.
Qed.

Lemma advisories_system unlinked v e : e ∈ advisories unlinked v -> exists t, e = LogSystem t.
Proof.
  unfold advisories. intros [->|[He|He]%elem_of_app]%elem_of_cons; [by eexists|..].
  - destruct unlinked; [|by apply not_elem_of_nil in He]. apply list_elem_of_singleton in He as ->. by eexists.
  - case_bool_decide; [|by apply not_elem_of_nil in He]. apply list_elem_of_singleton in He as ->. by eexists.
Qed.

Lemma openChannel_run td id f s key a rec :
  unlocked s key a -> recorded_ids s rec -> Lifetimes.ok (manager s) ->
  let isSelf := recognized id f s rec in
  let secure := secure_of isSelf (summary_at key id s) in
  exists tm s' n peer messages records x,
    openChannel td id f s = (Ok tm, s') /\
    tm_peer tm = peer /\ tm_selfNote tm = isSelf /\ tm_secure tm = secure /\ tm_verifyState tm = verify_of id isSelf s /\
    (tm_trust tm, tm_trustNote tm) = trust_of secure isSelf (if secure && isSelf then reason_of id (group s) else "") n
                                       (unreachable id isSelf (group s)) (verify_of id isSelf s) /\
    (forall v, v ∈ records -> stored s v /\ in_view id isSelf rec (group s) v) /\
    (forall v, stored s v -> Vault.conversationId v = id -> v ∈ records) /\
    store x = store (manager s) /\
    Transcript.transcript td (Transcript.MkView secure isSelf (is_live (group s)) id peer) key records x = (Ok messages, manager s') /\
    (forall e, e ∈ tm_log tm -> (exists t, e = LogSystem t) \/ e ∈ messages) /\
    (forall e, e ∈ messages -> e ∈ tm_log tm).
Proof.
  intros U Hr Ho isSelf secure. unfold openChannel. rewrite (bind_run (requireKey_run _ _ _ U)).
  assert (Eg : on_channels (Channels.get id) s = (Ok (Channels.held (channels s) id), s)).
  { unfold on_channels, zoom. rewrite Channels.channel_get_held. by destruct s. }
  rewrite (bind_run Eg).
  change (match Channels.held (channels s) id with Some r => tryDecodeChannel key r | None => None end) with (summary_at key id s).
  cbv zeta.
  destruct (recognize_self_run id f s key a rec U Hr) as (s1 & E1 & S1). rewrite (bind_run E1). fold isSelf. cbv beta iota.
  destruct (remember_self_run id isSelf rec (Channels.held (channels s) id) s1 key a (proj1 S1)) as (s2 & E2 & S2).
  rewrite (bind_run E2). pose proof (unmoved_trans _ _ _ _ _ S1 S2) as (U2 & G2 & C2 & M2).
  change (isSelf || match summary_at key id s with Some c => bool_decide (cs_status c = "secure") | None => false end) with secure.
  set (peer := if isSelf then "Note to Self" else match summary_at key id s with Some c => cs_peer c | None => "UNKNOWN" end).
  assert (Ev : verify_of id isSelf s2 = verify_of id isSelf s) by (unfold verify_of; by rewrite C2, G2).
  destruct (judge_run id isSelf secure s2) as (n & E3). rewrite G2, Ev in E3. rewrite (bind_run E3).
  destruct (trust_of secure isSelf _ n _ _) as [trust note] eqn:Et.
  assert (Ho2 : Lifetimes.ok (manager s2)) by (unfold Lifetimes.ok; by rewrite M2).
  destruct (stored_records_run id isSelf rec s2 Ho2) as (records & E7 & Hrec & Hall). rewrite (bind_run E7), (bind_run (live_run s2)).
  assert (Hheld : forall v, stored s2 v <-> stored s v) by (intros v; unfold Lifetimes.held; by rewrite M2).
  rewrite G2 in Hrec. rewrite G2. fold (is_live (group s)).
  destruct (Transcript.transcript_run td (Transcript.MkView secure isSelf (is_live (group s)) id peer) key records (manager s2) Ho2)
    as (xa & messages & xb & _ & _ & _ & _ & E8).
  rewrite (bind_run (on_manager_run _ s2 _ _ E8)). set (s3 := MkController _ _ _ _ xb _ _).
  destruct (people_run id isSelf s3) as ([[h b] d] & E9). rewrite (bind_run E9).
  eexists _, s3, n, peer, messages, records, (manager s2). split; [reflexivity|].
  split_and!; [reflexivity | reflexivity | reflexivity | reflexivity | exact (eq_sym Et) | | | exact M2 | exact E8 | |].
  - intros v [Hv Hi]%Hrec. split; [by apply Hheld | exact Hi].
  - intros v Hv. by apply Hall, Hheld.
  - cbn [tm_log]. intros e [He|He]%elem_of_app; [left; by eapply advisories_system | by right].
  - cbn [tm_log]. intros e He. apply elem_of_app. by right.
Qed.

(** C12. Opening a conversation on an unlocked device succeeds, and its badge is honest.  It says VERIFIED
    exactly when the conversation is with somebody else, its row says secure, someone can receive
    there, and the only account key the group knows of the peer is the one pinned for the buddy; KEY
    CHANGED only when that key is another one than the pinned; and INSECURE exactly for a group of our
    own devices whose classification gives a reason that is not benign. *)
Theorem badge_is_honest td id f s key a rec :
  unlocked s key a -> recorded_ids s rec -> Lifetimes.ok (manager s) ->
  exists tm s', openChannel td id f s = (Ok tm, s') /\
    (tm_trust tm = Transcript.Verified <->
       tm_secure tm = true /\ recognized id f s rec = false /\ answer false (gv_isUnlinkedConversationId id) (group s) = false /\
       pinned id (contacts s) <> "" /\ answer [] (gv_peerAccountKeysFor id) (group s) = [pinned id (contacts s)]) /\
    (tm_trust tm = Transcript.KeyChanged ->
       recognized id f s rec = false /\ pinned id (contacts s) <> "" /\
       exists k, k <> pinned id (contacts s) /\ answer [] (gv_peerAccountKeysFor id) (group s) = [k]) /\
    (tm_trust tm = Transcript.Insecure <-> recognized id f s rec = true /\ benign (reason_of id (group s)) = false).
Proof.
  intros U Hr Ho.
  destruct (openChannel_run td id f s key a rec U Hr Ho) as (tm & s' & n & peer & ms & rs & x & E & _ & _ & Es & _ & Et & _).
  exists tm, s'. split; [done|]. rewrite Es. clear E Es. apply (f_equal fst) in Et. cbn [fst] in Et. rewrite Et. clear Et.
  unfold unreachable, verify_of, verify_state.
  destruct (recognized id f s rec) eqn:Ei.
  - unfold secure_of, trust_of. cbn. destruct (benign _) eqn:Eb; cbn; naive_solver.
  - unfold trust_of. destruct (secure_of false _) eqn:Esec; cbn; [|naive_solver].
    destruct (answer false (gv_isUnlinkedConversationId id) (group s)) eqn:Eu; cbn; [naive_solver|].
    destruct (decide (pinned id (contacts s) = "")) as [Ep|Ep].
    { rewrite Ep. cbn. destruct (answer [] _ _) as [|? []]; cbn; naive_solver. }
    rewrite bool_decide_eq_false_2 by done. cbn [negb].
    destruct (answer [] (gv_peerAccountKeysFor id) (group s)) as [|k [|? ?]]; [cbn; naive_solver| |cbn; naive_solver].
    case_bool_decide as Ek; cbn; naive_solver.
Qed.

(** C14. A view shows what belongs to it and nothing else.  Every message in an opened conversation is the
    plaintext, under our key, of a record in the store, under the name of its sender; the record is of that
    conversation, or in Note to Self of a conversation recorded as ours or classified as made of our own
    devices, so no peer's message can appear there.  And every stored record of the conversation that
    opens under our key, burn-on-read ones aside, is shown. *)
Theorem view_shows_its_own td id f s key a rec :
  unlocked s key a -> recorded_ids s rec -> Lifetimes.ok (manager s) ->
  exists tm s', openChannel td id f s = (Ok tm, s') /\
    (forall sender text lifetime left at_ ctl, LogMessage sender text lifetime left at_ ctl ∈ tm_log tm ->
      exists v p, Lifetimes.held (manager s) (messageId v) = Some v /\ in_view id (tm_selfNote tm) rec (group s) v /\
        Vault.open key v = Ok p /\ text = td p /\
        sender = if bool_decide (direction v = DirIn) && negb (tm_selfNote tm) then tm_peer tm else "YOU") /\
    (forall v p, Lifetimes.held (manager s) (messageId v) = Some v -> Vault.conversationId v = id ->
      lifetimeKind v <> KindBurn -> Vault.open key v = Ok p ->
      exists sender lifetime left at_ ctl, LogMessage sender (td p) lifetime left at_ ctl ∈ tm_log tm).
Proof.
  intros U Hr Ho.
  destruct (openChannel_run td id f s key a rec U Hr Ho)
    as (tm & s' & n & peer & ms & rs & x & E & Epeer & Eself & _ & _ & _ & Hrec & Hall & Hx & Ets & Hlog & Hms).
  assert (Hox : Lifetimes.ok x) by (unfold Lifetimes.ok; by rewrite Hx).
  set (c := Transcript.MkView _ _ _ _ _) in Ets.
  destruct (Transcript.transcript_run td c key rs x Hox) as (s1 & log1 & s2 & _ & [O1 B1] & Ee & _ & Et).
  rewrite Et in Ets. injection Ets as -> _.
  exists tm, s'. split; [done|]. split.
  - intros sender text lifetime left_ at_ ctl Hin. destruct (Hlog _ Hin) as [(t & [=])|Hin'].
    destruct (Transcript.entries_sound td c key _ s1 ms s2 _ O1 Ee Hin') as (v & Hv & ((r & p & _ & Ha & Hop & Htx) & Hsnd & _)).
    rewrite sort_by_perm in Hv. destruct (Hrec v Hv) as [Hst Hview]. exists v, p. rewrite Epeer, Eself.
    assert (r = v) as ->.
    { destruct Ha as [|(Ha & Hk & _)]; [done|]. apply B1 in Ha; [|done]. unfold Lifetimes.held in Ha. rewrite Hx in Ha.
      unfold Lifetimes.held in Hst. congruence. }
    split_and!; try done.
  - intros v p Hst Hc Hk Hop.
    destruct (Transcript.entries_complete td c key (sort_by storedAtMs rs) v p s1 ms s2 O1 Ee) as (sn & lt & lf & at_ & ctl & Hin);
      [by rewrite sort_by_perm; apply Hall|done|done|]. exists sn, lt, lf, at_, ctl. by apply Hms.
Qed.

End laws.
End ConversationsFacts.

(** ** Concrete inputs *)
Section witnesses.
Import IdbToy ControllerToy Controller ControllerFacts Conversations ConversationsFacts.

#[local] Instance group_questions : GroupQuestions Group.
Proof. split; try (intros ? ?); try (intros ?); eexists; reflexivity. Qed.

Definition key0 : bytes := [7; 7].
Definition note (id conv : string) (dir : Direction) (lt : Lifetime) : VaultRecord :=
  match (Vault.seal (Key := bytes) (W := nat) key0 (MkMeta id conv dir lt None) (text_encode "hello") 1000 false 0%nat).1 with
  | Ok r => r
  | Throw _ => MkVaultRecord "" "" DirIn KindBurn None None 0 false None [] [] [] []
  end.
Definition row (id peer : string) : ChannelRecord :=
  MkChannelRecord id (match (Vault.sealUnder (Key := bytes) (W := nat) key0
      (text_encode (stringify (summary_json (MkSummary id peer "" "secure" "" 0)))) (channelAad id) 0%nat).1 with
    | Ok b => b | Throw _ => [] end).

(** Two groups of our own devices, one of which nobody can read any more, and a note in it. *)
Definition two_groups : Group := MkGroup ["g2"; "g1"] ["g1"; "g2"] ["g1"] [] true.
Definition noted : T := device (logged_in "a") [] [note "n1" "g1" DirOut UntilRevoked] two_groups no_contacts.
Definition texts (tm : TransmitModel) : list string :=
  omap (fun e => match e with LogMessage _ t _ _ _ _ => Some t | _ => None end) (tm_log tm).
Definition before_connecting : M T TransmitModel :=
  do! openChannel text_decode_bytes "g1" false in openNoteToSelf text_decode_bytes.
Definition after_connecting : M T TransmitModel :=
  do! connectGateway "wss" in openNoteToSelf text_decode_bytes.

(** The self-heal takes notes out of sight.  A note written into a group of our own devices is shown
    in Note to Self; after a connection at which that group is found dead and abandoned, its id is no
    longer recorded or held, so Note to Self shows it no more, although it is still stored. *)
Theorem healed_group_takes_its_notes :
  exists tm s1 tm' s2,
    before_connecting noted = (Ok tm, s1) /\ tm_conversationId tm = "g2" /\ texts tm = ["hello"] /\
    after_connecting s1 = (Ok tm', s2) /\ tm_conversationId tm' = "g2" /\ texts tm' = [] /\
    Lifetimes.held (manager s2) "n1" = Some (note "n1" "g1" DirOut UntilRevoked).
Proof.
  destruct (before_connecting noted) as [[tm|e] s1] eqn:E1; [|vm_compute in E1; discriminate].
  destruct (after_connecting s1) as [[tm'|e] s2] eqn:E2.
  - exists tm, s1, tm', s2. vm_compute in E1. injection E1 as <- <-. vm_compute in E2. injection E2 as <- <-.
    split_and!; vm_compute; reflexivity.
  - vm_compute in E1. injection E1 as <- <-. vm_compute in E2. discriminate.
Qed.

(** A contact with a pinned key. *)
Definition pinned_contacts : Contacts.State :=
  Contacts.MkState true
    (Some (Contacts.buddies_json [("bob", Contacts.MkBuddy 1 1 false "Buddies" (Some (bytesToHex (replicate 32 5))))]))
    None (Some (Contacts.handles_json [("bob", "c1")])) None 0 (fun _ => []) [].
Definition talking : T :=
  device (logged_in "a") [row "c1" "BOB"; row "c2" "GONE"] [note "m1" "c1" DirOut UntilRevoked; note "m2" "c1" DirIn UntilRevoked]
    (MkGroup ["c1"; "g1"] ["g1"] [] [bytesToHex (replicate 32 5)] true) pinned_contacts.

Lemma ok_talking : Lifetimes.ok (manager talking).
Proof.
  split; [|split].
  - split; [apply (bool_decide_unpack _); vm_compute; reflexivity|].
    intros k r [[= -> ->]|[[= -> ->]|[]%not_elem_of_nil]%elem_of_cons]%elem_of_cons; reflexivity.
  - apply Keyvault.wf_nil.
  - intros k Hk. by apply not_elem_of_nil in Hk.
Qed.

Lemma badge_is_honest_witness :
  exists tm s', openChannel text_decode_bytes "c1" false talking = (Ok tm, s') /\ tm_trust tm = Transcript.Verified.
Proof.
  destruct (badge_is_honest (H4 := group_view) random_fills text_decode_bytes "c1" false talking key0 "a" []
    ltac:(split_and!; reflexivity) ltac:(reflexivity) ok_talking) as (tm & s' & E & [_ Hv] & _).
  exists tm, s'. split; [exact E|]. apply Hv. clear Hv.
  assert (Es : tm_secure tm = true) by (vm_compute in E; injection E as <- _; reflexivity).
  split; [exact Es|]. split; [vm_compute; reflexivity|]. split; [vm_compute; reflexivity|].
  split; [vm_compute; discriminate | vm_compute; reflexivity].
Defined.

Lemma view_shows_its_own_witness :
  exists tm s', openChannel text_decode_bytes "c1" false talking = (Ok tm, s') /\
    (exists lifetime left at_ ctl, LogMessage "YOU" "hello" lifetime left at_ ctl ∈ tm_log tm) /\
    exists sender lifetime left at_ ctl, LogMessage sender "hello" lifetime left at_ ctl ∈ tm_log tm.
Proof.
  destruct (view_shows_its_own random_fills text_decode_bytes "c1" false talking key0 "a" []
    ltac:(split_and!; reflexivity) ltac:(reflexivity) ok_talking) as (tm & s' & E & _ & Hall).
  exists tm, s'. split; [exact E|]. split.
  - vm_compute in E. injection E as <- _. do 4 eexists. right. left.
  - exact (Hall (note "m1" "c1" DirOut UntilRevoked) (text_encode "hello") eq_refl eq_refl
      ltac:(discriminate) ltac:(vm_compute; reflexivity)).
Defined.

Lemma sweep_deletes_exactly_witness :
  exists s', sweepDeadChannels talking = (Ok tt, s') /\ Channels.held (channels s') "c2" = None /\
    Channels.held (channels s') "c1" = Some (row "c1" "BOB").
Proof.
  destruct (sweep_deletes_exactly random_fills talking key0 "a" [] ltac:(split_and!; reflexivity) ltac:(reflexivity))
    as (s' & E & _ & _ & Hr).
  exists s'. split; [exact E|]. split; rewrite Hr; vm_compute; reflexivity.
Defined.

Lemma own_groups_are_spared_witness :
  exists s', blockConversation "g1" talking = (Ok tt, s') /\ contacts s' = pinned_contacts.
Proof.
  destruct (own_groups_are_spared random_fills "g1" talking key0 "a" [] (MkGroup ["c1"; "g1"] ["g1"] [] [bytesToHex (replicate 32 5)] true)
    ltac:(split_and!; reflexivity) ltac:(reflexivity) ltac:(reflexivity) ltac:(right; right; reflexivity))
    as [(s' & E & _ & Hc & _) _].
  exists s'. split; [exact E | exact Hc].
Defined.

Lemma own_groups_are_never_listed_witness :
  exists rows s', listChannels talking = (Ok rows, s') /\
    forall c, c ∈ rows -> cs_id c ∈ row_ids key0 talking /\ ~ owned (cs_id c) (group talking) [].
Proof.
  destruct (listChannels talking) as [[rows|e] s'] eqn:E; [|vm_compute in E; discriminate].
  exists rows, s'. split; [reflexivity|].
  exact (own_groups_are_never_listed random_fills talking key0 "a" [] rows s' ltac:(split_and!; reflexivity) ltac:(reflexivity) E).
Defined.

Lemma inbound_revoke_is_guarded_witness :
  exists s', applyInboundRevoke "c1" "m2" false talking = (Ok tt, s') /\ Lifetimes.held (manager s') "m2" = None /\
    Lifetimes.held (manager s') "m1" <> None.
Proof.
  destruct (inbound_revoke_is_guarded "c1" "m2" false talking (MkGroup ["c1"; "g1"] ["g1"] [] [bytesToHex (replicate 32 5)] true)
    ok_talking ltac:(reflexivity)) as (s' & E & Hh).
  exists s'. split; [exact E|]. split; rewrite Hh; vm_compute; [reflexivity | discriminate].
Defined.

Lemma unsend_erases_last_witness :
  exists s2, revokeMessage text_decode_bytes "c1" "m1" talking = openChannel text_decode_bytes "c1" false s2 /\
    Lifetimes.held (manager s2) "m1" = None.
Proof.
  destruct (unsend_erases_last text_decode_bytes "c1" "m1" talking ok_talking) as [Hu _].
  specialize (Hu (note "m1" "c1" DirOut UntilRevoked) ltac:(reflexivity) ltac:(cbn; tauto)).
  change (require_group (gc_revokeMessage "c1" "m1") talking) with (Ok tt : result unit, talking) in Hu. cbn iota in Hu.
  destruct Hu as (s2 & E & _ & Hh). exists s2. split; [exact E|]. rewrite Hh. reflexivity.
Defined.
End witnesses.
