(* ===== verification/GroupQueries.v ===== *)
(** * The group channel behind the controller

    GroupChannel.v implements the interface [GroupView] that the controller's theorems are proved
    against: its questions leave it alone whenever those it puts to the crypto core do ([Questions]).
    That is shown once, for any property of methods that their composition keeps ([Closed]): for
    questions that are answered ([asks]), so that the theorems of ConversationsFacts.v speak of the
    two together, and for questions that may throw ([reads]). *)

From S2P Require Import Prelude Json Session Vault Lifetime Idb Integrity Auth Group Channel GroupChannel Contacts.
From S2P Require Import Transcript Controller ControllerFacts Conversations ConversationsFacts.

(** A property of methods that their composition keeps. *)
Class Closed (P : forall S A : Type, M S A -> Prop) := {
  closed_ret S A (a : A) : P S A (ret a);
  closed_gets S A (f : S -> A) : P S A (gets f);
  closed_bind S A B (m : M S A) (k : A -> M S B) : P S A m -> (forall a, P S B (k a)) -> P S B (bind m k);
  closed_try S A (m : M S A) h : P S A m -> (forall e, P S A (h e)) -> P S A (try_catch m h);
  closed_zoom S T A (proj : S -> T) upd (m : M T A) : (forall s, upd (proj s) s = s) -> P T A m -> P S A (zoom proj upd m)
}.

(** The questions of the crypto core have it. *)
Class Questions (P : forall S A : Type, M S A -> Prop) (H W : Type) `{GroupApi H W} := {
  core_list h : P W _ (g_listConversations h);
  core_roster h i : P W _ (g_roster h i);
  core_isSelf h i : P W _ (g_isSelfConversation h i);
  core_strict h i f : g_isSelfConversationStrict = Some f -> P W _ (f h i);
  core_reason h i f : g_selfClassificationReason = Some f -> P W _ (f h i);
  core_unlinked h i f : g_channelUnlinked = Some f -> P W _ (f h i);
  core_keys h i f : g_peerAccountKeys = Some f -> P W _ (f h i);
  core_epoch h i f : g_groupEpoch = Some f -> P W _ (f h i)
}.

Module GroupQueries.
Import Controller ControllerFacts Conversations ConversationsFacts.

(** A question that may throw, and changes nothing. *)
Definition reads {S A} (m : M S A) : Prop := forall s, (m s).2 = s.

#[export] Instance asks_closed : Closed (@asks).
Proof.
  split; intros; intros s; [by exists a | by eexists | | |].
  - destruct (H s) as (a & E). rewrite (bind_run E). apply H0.
  - destruct (H s) as (a & E). exists a. unfold try_catch. by rewrite E.
  - destruct (H0 (proj s)) as (a & E). exists a. unfold zoom. by rewrite E, H.
Qed.
#[export] Instance reads_closed : Closed (@reads).
Proof.
  split; intros; intros s; [done | done | | |].
  - unfold bind. specialize (H s). destruct (m s) as [[a|e] s']; cbn in H |- *; subst s'; [apply H0 | done].
  - unfold try_catch. specialize (H s). destruct (m s) as [[a|e] s']; cbn in H |- *; subst s'; [done | apply H0].
  - unfold zoom. specialize (H0 (proj s)). destruct (m (proj s)) as [r t]; cbn in H0 |- *. by rewrite H0, H.
Qed.

Section queries.
Context {H W : Type} `{!GroupApi H W}.
Notation Ch := (Channel H W).

#[export] Instance channel_view : GroupView Ch := {|
  gv_selfConversationId := GroupChannel.selfConversationId;
  gv_isSelfConversationId := GroupChannel.isSelfConversationId;
  gv_heldConversationIds := GroupChannel.heldConversationIds;
  gv_isUnlinkedConversationId := GroupChannel.isUnlinkedConversationId;
  gv_selfClassificationReason := GroupChannel.selfClassificationReason;
  gv_peerAccountKeysFor := GroupChannel.peerAccountKeysFor;
  gv_roster := GroupChannel.roster;
  gv_peerRoster := GroupChannel.peerRoster;
  gv_selfGroupDiagnostic := GroupChannel.selfGroupDiagnostic
|}.

Section core.
Context (P : forall S A : Type, M S A -> Prop) `{!Closed P} `{!Questions P H W}.

Lemma on_world_closed {A} (m : M W A) : P _ _ m -> P Ch A (GroupChannel.on_world m).
Proof. apply closed_zoom. by intros []. Qed.

Lemma optionally_closed {A} (d : A) q s :
  (forall f, q = Some f -> P _ _ (f (gconv s) (groupId s))) -> P _ _ (GroupSessions.optionally (H := H) (W := W) d q s).
Proof. intros Hq. unfold GroupSessions.optionally. destruct q; [by apply Hq | apply closed_ret]. Qed.

Lemma query_closed {A} (d : A) q s :
  (forall f, q = Some f -> P _ _ (f (gconv s) (groupId s))) -> P _ _ (GroupSessions.query (H := H) (W := W) d q s).
Proof. intros Hq. apply closed_try; [by apply optionally_closed | intros; apply closed_ret]. Qed.

Lemma rank_closed s : P _ _ (GroupChannel.rank_of (H := H) (W := W) s).
Proof.
  unfold GroupChannel.rank_of. apply closed_bind; [apply core_isSelf|]. intros []; cbn; [|apply closed_ret].
  apply closed_bind; [apply optionally_closed; intros f Hf; by apply core_strict|]. intros strict.
  apply closed_bind; [apply core_roster|]. intros l. apply closed_ret.
Qed.

Lemma best_closed l : forall best, P _ _ (GroupChannel.best_loop (H := H) (W := W) l best).
Proof.
  induction l as [|e l IH]; intros best; cbn; [apply closed_ret|]. apply closed_bind; [apply rank_closed|].
  intros [r|]; [|apply IH]. destruct best as [[? ?]|]; [|apply IH]. by destruct (GroupChannel.better _ _); apply IH.
Qed.

Lemma selfSession_closed : P _ _ (GroupChannel.selfSession (H := H) (W := W)).
Proof.
  apply closed_bind; [|intros; apply closed_ret]. apply closed_bind; [apply closed_gets|]. intros l.
  apply on_world_closed, best_closed.
Qed.

(** A question about one conversation: of its session, if there is one. *)
Lemma of_closed {A} id (d : A) (q : GroupSession H -> M W A) :
  (forall s, P _ _ (q s)) ->
  P _ _ (let! e := GroupChannel.entry_of (W := W) id in
         match e with Some e => GroupChannel.on_world (q (e_session e)) | None => ret d end).
Proof.
  intros Hq. apply closed_bind; [apply closed_gets|]. intros [e|]; [apply on_world_closed, Hq | apply closed_ret].
Qed.

(** The same of the questions the controller asks. *)
Record view_closed : Prop := {
  view_self : P Ch _ gv_selfConversationId;
  view_isSelf id : P Ch _ (gv_isSelfConversationId id);
  view_held : P Ch _ gv_heldConversationIds;
  view_unlinked id : P Ch _ (gv_isUnlinkedConversationId id);
  view_reason id : P Ch _ (gv_selfClassificationReason id);
  view_keys id : P Ch _ (gv_peerAccountKeysFor id);
  view_roster id : P Ch _ (gv_roster id);
  view_diag : P Ch _ gv_selfGroupDiagnostic
}.
Lemma view_is_closed : view_closed.
Proof.
  split.
  - apply closed_bind; [apply selfSession_closed | intros; apply closed_ret].
  - intros id. apply of_closed. intros s. apply core_isSelf.
  - apply closed_bind; [apply closed_gets|]. intros [h|]; [|apply closed_ret].
    apply closed_bind; [apply on_world_closed, core_list | intros; apply closed_ret].
  - intros id. apply of_closed. intros s. apply query_closed. intros f Hf. by apply core_unlinked.
  - intros id. apply of_closed. intros s. apply optionally_closed. intros f Hf. by apply core_reason.
  - intros id. apply of_closed. intros s. apply query_closed. intros f Hf. by apply core_keys.
  - intros id. apply of_closed. intros s. apply core_roster.
  - apply closed_bind; [apply selfSession_closed|]. intros s. apply closed_bind; [|intros; apply closed_gets].
    destruct s as [s|]; [|apply closed_ret]. apply closed_bind.
    + apply on_world_closed, closed_try; [|intros; apply closed_ret].
      apply closed_bind; [apply core_roster | intros; apply closed_ret].
    + intros n. apply closed_bind; [apply closed_gets|]. intros h. apply closed_bind; [|intros; apply closed_ret].
      destruct h as [h|]; [|apply closed_ret]. destruct g_groupEpoch as [f|] eqn:Ef; [|apply closed_ret].
      apply closed_bind; [apply on_world_closed; by eapply core_epoch | intros; apply closed_ret].
Qed.
End core.

#[export] Instance channel_questions `{!Questions (@asks) H W} : GroupQuestions Ch.
Proof. destruct (view_is_closed (@asks)). by split. Qed.

(** ** The two together *)

Section controller.
Context {Key R : Type} `{Aead Key} `{Random R} `{JsonText} `{!Questions (@reads) H W}.
Notation St := (Controller Key R Ch).

(** The group channel and the records of the contacts. *)
Definition asked (s : St) : option Ch * Contacts.State := (group s, contacts s).

Lemma on_group_reads {A} (d : A) (m : M Ch A) : reads m -> reads (on_group (Key := Key) (W := R) d m).
Proof.
  intros Hm s. unfold on_group. destruct (group s) as [g|] eqn:Eg; [|done].
  specialize (Hm g). destruct (m g) as [r g']. cbn in Hm |- *. subst g'. destruct s. cbn in Eg. by rewrite <-Eg.
Qed.
Lemma reads_leave {S X A} (f : S -> X) (m : M S A) : reads m -> leaves f m.
Proof. intros Hm s. by rewrite Hm. Qed.

Let view : view_closed (@reads) := view_is_closed (@reads).

Lemma self_leaves : leaves asked (on_group None gv_selfConversationId : M St _).
Proof. apply reads_leave, on_group_reads, (view_self _ view). Qed.
Lemma isSelf_leaves id : leaves asked (on_group false (gv_isSelfConversationId id) : M St _).
Proof. apply reads_leave, on_group_reads, (view_isSelf _ view). Qed.
#[local] Hint Resolve self_leaves isSelf_leaves : frame.

Lemma row_leaves id : leaves asked (on_channels (Channels.get id) : M St _).
Proof. unfold on_channels. frame. Qed.
Lemma recognize_leaves id f : leaves asked (recognize_self id f : M St _).
Proof.
  unfold recognize_self, loadSelfGroupIds, read_record, not_ready, requireKey, selfGroupsKey, of_account, load, on_db,
    set_cache, on_memory. frame.
Qed.
Lemma remember_leaves id b l rec : leaves asked (remember_self id b l rec : M St unit).
Proof.
  unfold remember_self, recordSelfGroupIds, set_selfConv, set_cache, on_memory, delete_row, on_channels, not_ready, requireKey,
    selfGroupsKey, of_account, save, on_db, seal_json, on_world, on_manager. frame.
Qed.

Lemma group_reads {A} (d : A) (m : M Ch A) (s : St) a s' :
  reads m -> on_group d m s = (Ok a, s') -> s' = s /\ (forall ch, group s = Some ch -> (m ch).1 = Ok a).
Proof.
  intros Hm E. pose proof (on_group_reads d m Hm s) as E'. rewrite E in E'. cbn in E'. split; [done|]. intros ch Hg.
  unfold on_group in E. rewrite Hg in E. destruct (m ch) as [r g']. by injection E as ->.
Qed.

(** What a positive judgement of a peer has asked. *)
Lemma judge_verified id isSelf secure (s : St) unlinked v trust note s' :
  judge id isSelf secure s = (Ok (unlinked, v, (trust, note)), s') -> trust = Transcript.Verified ->
  isSelf = false /\ secure = true /\ unlinked = false /\ pinned id (contacts s) <> "" /\
  (forall ch, group s = Some ch -> (gv_peerAccountKeysFor id ch).1 = Ok [pinned id (contacts s)]).
Proof.
  unfold judge. intros E Ht.
  apply bind_Ok_inv in E as (u & s1 & Eu & E). apply bind_Ok_inv in E as (vs & s2 & Ev & E).
  apply bind_Ok_inv in E as (r & s3 & _ & E). apply bind_Ok_inv in E as (ds & s4 & _ & E).
  injection E as -> -> Et _. rewrite Ht in Et. clear s4 s3.
  destruct secure; [|done]. destruct isSelf; [unfold trust_of in Et; cbn in Et; by destruct (benign r)|].
  apply group_reads in Eu as [-> _]; [|apply (view_unlinked _ view)]. rewrite (bind_run (handle_run id s)) in Ev.
  rewrite (bind_run (pin_of_run id s)) in Ev. apply bind_Ok_inv in Ev as (keys & s5 & Ek & [= <- _]).
  apply group_reads in Ek as [_ Ek]; [|apply (view_keys _ view)].
  unfold trust_of, verify_state in Et. cbn in Et. destruct unlinked; [done|].
  destruct (decide (pinned id (contacts s) = "")) as [Ep|Ep].
  { rewrite Ep in Et. cbn in Et. by destruct keys as [|? []]. }
  rewrite bool_decide_eq_false_2 in Et by done. cbn [negb] in Et. destruct keys as [|k [|? ?]]; [done| |done].
  case_bool_decide as Hk; [|done]. by subst k.
Qed.

(** What the channel answers comes from the session of the conversation. *)
Lemma keys_come_from_core id ch l :
  (gv_peerAccountKeysFor id ch).1 = Ok l -> l <> [] ->
  exists e q, JsMap.lookup id (Channel.sessions ch) = Some e /\ g_peerAccountKeys = Some q /\
    (q (gconv (e_session e)) (groupId (e_session e)) (Channel.world ch)).1 = Ok l.
Proof.
  cbn. unfold GroupChannel.peerAccountKeysFor, GroupChannel.entry_of, bind, gets. intros Ek Hl.
  destruct (JsMap.lookup id (Channel.sessions ch)) as [e|]; [|by injection Ek as <-].
  revert Ek. unfold GroupChannel.on_world, zoom, GroupSessions.peerAccountKeys, GroupSessions.query, try_catch, GroupSessions.optionally.
  destruct g_peerAccountKeys as [q|]; [|by intros [= <-]]. intros Ek. exists e, q. split; [done|]. split; [done|].
  destruct (q _ _ (Channel.world ch)) as [[l'|er] w]; cbn in Ek |- *; [done | by injection Ek as <-].
Qed.

(** C13. With the real group channel behind it, a VERIFIED badge means what it says.  Whatever the crypto
    core answers, and whichever of its questions throw (they only have to be questions, and change
    nothing): when a conversation opens with that badge, it is not one of our own and its row says
    secure, it has a live session, and the core, asked for the account keys of that session's peers, gave
    exactly one, which is the key pinned for the buddy the conversation is tagged with.  A core that
    throws at the question, or has no answer, never leads to the badge. *)
Theorem verified_badge_means_core_agrees td id f (s : St) ch tm s' :
  group s = Some ch -> openChannel td id f s = (Ok tm, s') -> tm_trust tm = Transcript.Verified ->
  tm_selfNote tm = false /\ tm_secure tm = true /\
  exists e q, JsMap.lookup id (Channel.sessions ch) = Some e /\ g_peerAccountKeys = Some q /\
    (q (gconv (e_session e)) (groupId (e_session e)) (Channel.world ch)).1 = Ok [pinned id (contacts s)] /\
    pinned id (contacts s) <> "".
Proof.
  intros Hg E Ht. unfold openChannel in E.
  apply bind_Ok_inv in E as (key & s1 & E1 & E). apply bind_Ok_inv in E as (row & s2 & E2 & E).
  apply bind_Ok_inv in E as ([isSelf rec] & s3 & E3 & E). apply bind_Ok_inv in E as ([] & s4 & E4 & E).
  assert (A : asked s4 = asked s).
  { assert (asked s1 = asked s) by (revert E1; unfold requireKey, bind, gets; by destruct (mskKey _); intros [= _ <-]).
    pose proof (row_leaves id s1) as L2. rewrite E2 in L2.
    pose proof (recognize_leaves id f s2) as L3. rewrite E3 in L3.
    pose proof (remember_leaves id isSelf rec row s3) as L4. rewrite E4 in L4. cbn [snd] in L2, L3, L4. congruence. }
  injection A as Ag Ac.
  apply bind_Ok_inv in E as ([[u v] [trust note]] & s5 & E5 & E).
  apply bind_Ok_inv in E as (recs & s6 & _ & E). apply bind_Ok_inv in E as (live & s7 & _ & E).
  apply bind_Ok_inv in E as (msgs & s8 & _ & E). apply bind_Ok_inv in E as ([[ph pb] d] & s9 & _ & E).
  injection E as <- _. cbn [tm_trust tm_selfNote tm_secure] in Ht |- *.
  destruct (judge_verified _ _ _ _ _ _ _ _ _ E5 Ht) as (-> & Hs & _ & Hp & Hk). split; [done|]. split; [done|].
  rewrite Ac in Hp, Hk. rewrite Ag in Hk.
  destruct (keys_come_from_core _ _ _ (Hk ch Hg) ltac:(done)) as (e & q & ? & ? & ?). by exists e, q.
Qed.

End controller.
End queries.
End GroupQueries.

Section witnesses.
Import GroupSessions.Toy IdbToy ControllerToy Controller ControllerFacts Conversations ConversationsFacts GroupQueries.

#[local] Instance toy_core P `{!Closed P} : Questions P unit unit.
Proof. split; intros; try discriminate; cbn in *; repeat match goal with E : Some _ = Some _ |- _ => injection E as <- end; cbn; apply closed_ret. Qed.

Definition channel0 : Channel unit unit :=
  MkChannel None 0 0 (Some tt) "aa" [("c1", MkEntry (MkGroupSession tt "ab") "mb")] [] false 0 0 "" [] None [] [] [] [] [] []
    [] 0 [] [] tt.
Definition attached : Controller bytes nat (Channel unit unit) :=
  MkController (memory talking) true (Controller.db talking) (channels talking) (manager talking) (Some channel0) pinned_contacts.

(** The conversation with bob opens with the badge, and the core names the key pinned for bob. *)
Lemma verified_badge_means_core_agrees_witness :
  exists tm s', openChannel text_decode_bytes "c1" false attached = (Ok tm, s') /\ tm_trust tm = Transcript.Verified /\
    tm_selfNote tm = false /\ pinned "c1" (contacts attached) = bytesToHex (replicate 32 5) /\
    exists q, g_peerAccountKeys = Some q /\ (q tt "ab" tt).1 = Ok [bytesToHex (replicate 32 5)].
Proof.
  destruct (openChannel text_decode_bytes "c1" false attached) as [[tm|er] s'] eqn:E; [|vm_compute in E; discriminate].
  assert (Ht : tm_trust tm = Transcript.Verified) by (vm_compute in E; injection E as <- _; reflexivity).
  destruct (verified_badge_means_core_agrees text_decode_bytes "c1" false attached channel0 tm s' ltac:(reflexivity) E Ht)
    as (Hs & _ & e & q & He & Hq & Ha & _).
  exists tm, s'. split; [reflexivity|]. split; [exact Ht|]. split; [exact Hs|].
  assert (Hp : pinned "c1" (contacts attached) = bytesToHex (replicate 32 5)) by (vm_compute; reflexivity).
  split; [exact Hp|]. exists q. split; [exact Hq|]. rewrite Hp in Ha. cbn in He. injection He as <-. exact Ha.
Defined.
End witnesses.
