(* ===== verification/Program.v ===== *)
(** * Programs of questions

    An async function of the page asks the server or the worker, waits for the answer, and runs without
    interruption on the page's variables in between; some calls it starts without waiting.  Such a
    function is a program over a type of questions with their answers, a type of variables and a type of
    the calls it starts.  An environment answers the questions and may change the page during each wait. *)

From S2P Require Import Prelude.

Module Program.

Section Programs.
Context {Q : Type} {ans : Q -> Type} {St C : Type}.

(** [Ask] waits, and takes a rejection as well as an answer. *)
Inductive prog (A : Type) : Type :=
  | Done (r : result A)
  | Ask (q : Q) (k : result (ans q) -> prog A)
  | Look (k : St -> prog A)
  | Upd (f : St -> St) (k : prog A)
  | Start (c : C) (k : prog A).
Arguments Done {_} _.
Arguments Ask {_} _ _.
Arguments Look {_} _.
Arguments Upd {_} _ _.
Arguments Start {_} _ _.

Fixpoint pbind {A B} (p : prog A) (f : result A -> prog B) : prog B :=
  match p with
  | Done r => f r
  | Ask q k => Ask q (fun r => pbind (k r) f)
  | Look k => Look (fun s => pbind (k s) f)
  | Upd g k => Upd g (pbind k f)
  | Start c k => Start c (pbind k f)
  end.

Definition pret {A} (a : A) : prog A := Done (Ok a).
(** [await p], letting a rejection through. *)
Definition pseq {A B} (p : prog A) (f : A -> prog B) : prog B :=
  pbind p (fun r => match r with Ok a => f a | Throw e => Done (Throw e) end).
Definition asking (q : Q) : prog (ans q) := Ask q Done.

(** ** Runs *)
Record Env := MkEnv { answers : nat -> forall q, result (ans q); others : nat -> St -> St }.

Inductive event := Asked (q : Q) | Started (c : C).

Fixpoint go {A} (e : Env) (p : prog A) (n : nat) (s : St) : result A * St * list event :=
  match p with
  | Done r => (r, s, [])
  | Ask q k =>
      let '(r, s', l) := go e (k (answers e n q)) (S n) (others e n s) in (r, s', Asked q :: l)
  | Look k => go e (k s) n s
  | Upd f k => go e k n (f s)
  | Start c k => let '(r, s', l) := go e k n s in (r, s', Started c :: l)
  end.

(** Answers that do not change, and nothing else touching the page. *)
Definition steady (f : forall q, result (ans q)) : Env := MkEnv (fun _ => f) (fun _ s => s).

Definition asks (l : list event) : nat :=
  length (List.filter (fun x => match x with Asked _ => true | Started _ => false end) l).

Lemma asks_app l l' : asks (l ++ l') = (asks l + asks l')%nat.
Proof. unfold asks. by rewrite List.filter_app, length_app. Qed.

Lemma go_pbind {A B} e (p : prog A) (f : result A -> prog B) n s :
  go e (pbind p f) n s =
  let '(r, s1, l1) := go e p n s in
  let '(r', s2, l2) := go e (f r) (n + asks l1) s1 in (r', s2, l1 ++ l2).
Proof.
  revert n s. induction p as [r|q k IH|k IH|g p IH|c p IH]; intros n s; cbn [pbind go].
  - rewrite Nat.add_0_r. by destruct (go e (f r) n s) as [[? ?] ?].
  - rewrite IH. destruct (go e (k (answers e n q)) (S n) (others e n s)) as [[r s1] l1].
    change (asks (Asked q :: l1)) with (S (asks l1)). rewrite Nat.add_succ_r.
    change (S n + asks l1)%nat with (S (n + asks l1)). by destruct (go e (f r) _ s1) as [[? ?] ?].
  - apply IH.
  - apply IH.
  - rewrite IH. destruct (go e p n s) as [[r s1] l1]. change (asks (Started c :: l1)) with (asks l1).
    by destruct (go e (f r) _ s1) as [[? ?] ?].
Qed.

Lemma go_pseq {A B} e (p : prog A) (f : A -> prog B) n s :
  go e (pseq p f) n s =
  let '(r, s1, l1) := go e p n s in
  match r with
  | Ok a => let '(r', s2, l2) := go e (f a) (n + asks l1) s1 in (r', s2, l1 ++ l2)
  | Throw x => (Throw x, s1, l1)
  end.
Proof.
  unfold pseq. rewrite go_pbind. destruct (go e p n s) as [[[a|x] s1] l1]; [done|].
  cbn [go]. by rewrite app_nil_r.
Qed.

(** ** What a program keeps *)

(** A relation on pages that all updates of a program keep. *)
Fixpoint keeps {A} (P : St -> St -> Prop) (p : prog A) : Prop :=
  match p with
  | Done _ => True
  | Ask q k => forall r, keeps P (k r)
  | Look k => forall s, keeps P (k s)
  | Upd f k => (forall s, P s (f s)) /\ keeps P k
  | Start _ k => keeps P k
  end.

Lemma keeps_pbind {A B} P (p : prog A) (f : result A -> prog B) :
  keeps P p -> (forall r, keeps P (f r)) -> keeps P (pbind p f).
Proof.
  intros Hp Hf. induction p as [r|q k IH|k IH|g p IH|c p IH]; cbn [pbind keeps] in *; auto.
  destruct Hp as [H1 H2]. auto.
Qed.

Lemma keeps_pseq {A B} P (p : prog A) (f : A -> prog B) :
  keeps P p -> (forall a, keeps P (f a)) -> keeps P (pseq p f).
Proof. intros Hp Hf. apply keeps_pbind; [done|]. intros [a|x]; [apply Hf|done]. Qed.

Lemma keeps_go {A} (P : St -> St -> Prop) `{!PreOrder P} e (p : prog A) n s :
  (forall n s, P s (others e n s)) -> keeps P p -> P s (go e p n s).1.2.
Proof.
  intros He. revert n s. induction p as [r|q k IH|k IH|g p IH|c p IH]; intros n s Hp; cbn [go keeps] in *.
  - by cbn.
  - specialize (IH (answers e n q) (S n) (others e n s) (Hp (answers e n q))).
    destruct (go e (k (answers e n q)) (S n) (others e n s)) as [[r s1] l]. cbn in *. by rewrite <-IH.
  - by apply IH.
  - destruct Hp as [Hg Hp]. by rewrite <-IH.
  - specialize (IH n s Hp). by destruct (go e p n s) as [[r s1] l].
Qed.

(** The pages at which a program waits for an answer. *)
Fixpoint waits {A} (e : Env) (p : prog A) (n : nat) (s : St) : list St :=
  match p with
  | Done _ => []
  | Ask q k => s :: waits e (k (answers e n q)) (S n) (others e n s)
  | Look k => waits e (k s) n s
  | Upd f k => waits e k n (f s)
  | Start _ k => waits e k n s
  end.

Lemma waits_pbind {A B} e (p : prog A) (f : result A -> prog B) n s :
  waits e (pbind p f) n s =
  waits e p n s ++ (let '(r, s1, l1) := go e p n s in waits e (f r) (n + asks l1) s1).
Proof.
  revert n s. induction p as [r|q k IH|k IH|g p IH|c p IH]; intros n s; cbn [pbind go waits].
  - by rewrite Nat.add_0_r.
  - rewrite IH. cbn [app]. f_equal. f_equal.
    destruct (go e (k (answers e n q)) (S n) (others e n s)) as [[r s1] l1].
    change (asks (Asked q :: l1)) with (S (asks l1)). by rewrite Nat.add_succ_r.
  - apply IH.
  - apply IH.
  - rewrite IH. by destruct (go e p n s) as [[r s1] l1].
Qed.

(** What the environment and the program keep holds while the program waits. *)
Lemma keeps_waits {A} (P : St -> St -> Prop) `{!PreOrder P} e (p : prog A) n s :
  (forall n s, P s (others e n s)) -> keeps P p -> Forall (P s) (waits e p n s).
Proof.
  intros He. revert n s. induction p as [r|q k IH|k IH|g p IH|c p IH]; intros n s Hp; cbn [waits keeps] in *.
  - done.
  - constructor; [done|]. eapply Forall_impl; [apply IH, Hp|]. intros s' Hs'. by rewrite <-Hs'.
  - by apply IH.
  - destruct Hp as [Hg Hp]. eapply Forall_impl; [by apply IH|]. intros s' Hs'. by rewrite <-Hs'.
  - by apply IH.
Qed.

(** ** What a program asks *)

(** All the questions of a program, and all the calls it starts, satisfy a test. *)
Fixpoint only {A} (P : event -> bool) (p : prog A) : Prop :=
  match p with
  | Done _ => True
  | Ask q k => P (Asked q) = true /\ forall r, only P (k r)
  | Look k => forall s, only P (k s)
  | Upd _ k => only P k
  | Start c k => P (Started c) = true /\ only P k
  end.

Lemma only_pbind {A B} P (p : prog A) (f : result A -> prog B) :
  only P p -> (forall r, only P (f r)) -> only P (pbind p f).
Proof.
  intros Hp Hf. induction p as [r|q k IH|k IH|g p IH|c p IH]; cbn [pbind only] in *; auto.
  - destruct Hp as [Hq Hp]. auto.
  - destruct Hp as [Hq Hp]. auto.
Qed.

Lemma only_pseq {A B} P (p : prog A) (f : A -> prog B) :
  only P p -> (forall a, only P (f a)) -> only P (pseq p f).
Proof. intros Hp Hf. apply only_pbind; [done|]. intros [a|x]; [apply Hf|exact I]. Qed.

Lemma only_go {A} P e (p : prog A) n s : only P p -> Forall (fun x => P x = true) (go e p n s).2.
Proof.
  revert n s. induction p as [r|q k IH|k IH|g p IH|c p IH]; intros n s Hp; cbn [go only] in *; auto.
  - destruct Hp as [Hq Hp]. specialize (IH (answers e n q) (S n) (others e n s) (Hp (answers e n q))).
    destruct (go e (k (answers e n q)) (S n) (others e n s)) as [[r s1] l]. by constructor.
  - destruct Hp as [Hq Hp]. specialize (IH n s Hp). destruct (go e p n s) as [[r s1] l]. by constructor.
Qed.

(** ** A logic of runs

    [must R ok p l s post]: whatever answers allowed by [ok] come, and whatever the environment does to the
    page within [R] during the waits, the run of [p] from [s], with the events [l] behind it, ends with
    [post]. *)
Fixpoint must {A} (R : St -> St -> Prop) (ok : forall q, result (ans q) -> Prop) (p : prog A)
    (l : list event) (s : St) (post : result A -> St -> list event -> Prop) : Prop :=
  match p with
  | Done r => post r s l
  | Ask q k => forall r s', ok q r -> R s s' -> must R ok (k r) (l ++ [Asked q]) s' post
  | Look k => must R ok (k s) l s post
  | Upd f k => must R ok k l (f s) post
  | Start c k => must R ok k (l ++ [Started c]) s post
  end.

Lemma must_weaken {A} R ok (p : prog A) l s (post post' : result A -> St -> list event -> Prop) :
  (forall r s l, post r s l -> post' r s l) -> must R ok p l s post -> must R ok p l s post'.
Proof.
  intros Hw. revert l s. induction p as [r|q k IH|k IH|g p IH|c p IH]; intros l s Hp; cbn [must] in *; eauto.
Qed.

Lemma must_pbind {A B} R ok (p : prog A) (f : result A -> prog B) l s post :
  must R ok p l s (fun r s l => must R ok (f r) l s post) -> must R ok (pbind p f) l s post.
Proof.
  revert l s. induction p as [r|q k IH|k IH|g p IH|c p IH]; intros l s Hp; cbn [must pbind] in *; eauto.
Qed.

Lemma must_pseq {A B} R ok (p : prog A) (f : A -> prog B) l s post :
  must R ok p l s (fun r s l => match r with Ok a => must R ok (f a) l s post | Throw x => post (Throw x) s l end) ->
  must R ok (pseq p f) l s post.
Proof. intros Hp. apply must_pbind. eapply must_weaken; [|exact Hp]. by intros [a|x]. Qed.

(** The answers that an environment gives, at any time. *)
Definition given (e : Env) (q : Q) (r : result (ans q)) : Prop := exists n, answers e n q = r.

Lemma must_go {A} R ok e (p : prog A) n s l post :
  (forall n s, R s (others e n s)) -> (forall n q, ok q (answers e n q)) -> must R ok p l s post ->
  let '(r, s', l') := go e p n s in post r s' (l ++ l').
Proof.
  intros He Hok. revert n s l. induction p as [r|q k IH|k IH|g p IH|c p IH]; intros n s l Hp; cbn [must go] in *.
  - by rewrite app_nil_r.
  - specialize (IH _ (S n) (others e n s) _ (Hp _ _ (Hok n q) (He n s))).
    destruct (go e (k (answers e n q)) (S n) (others e n s)) as [[r s1] l1]. by rewrite <-app_assoc in IH.
  - by apply IH.
  - by apply IH.
  - specialize (IH n s _ Hp). destruct (go e p n s) as [[r s1] l1]. by rewrite <-app_assoc in IH.
Qed.

(** A program whose questions and calls all pass a test adds only such events; the page stays within a
    relation that its updates and the environment keep. *)
Lemma must_quiet {A} R ok P (p : prog A) l s :
  PreOrder R -> only P p -> keeps R p ->
  must R ok p l s (fun _ s' l' => R s s' /\ exists m, l' = l ++ m /\ Forall (fun x => P x = true) m).
Proof.
  intros HR. revert l s. induction p as [r|q k IH|k IH|g p IH|c p IH]; intros l s Ho Hk; cbn [must only keeps] in *.
  - split; [done|]. exists []. by rewrite app_nil_r.
  - intros r s' _ Hs. destruct Ho as [Hq Ho]. eapply must_weaken; [|by apply IH].
    intros r' s2 l' (H1 & m & -> & Hm). split; [by trans s'|]. exists (Asked q :: m). rewrite <-app_assoc. auto.
  - by apply IH.
  - destruct Hk as [Hg Hk]. eapply must_weaken; [|by apply IH]. intros r s2 l' (H1 & H2). split; [by trans (g s)|done].
  - destruct Ho as [Hc Ho]. eapply must_weaken; [|by apply IH].
    intros r s2 l' (H1 & m & -> & Hm). split; [done|]. exists (Started c :: m). rewrite <-app_assoc. auto.
Qed.

(** ** Programs that never throw *)
Definition safe {A} (p : prog A) : Prop := forall e n s, exists a, (go e p n s).1.1 = Ok a.

Lemma safe_caught {A} (p : prog A) (f : result A -> prog A) :
  (forall r e n s, exists a, (go e (f r) n s).1.1 = Ok a) -> safe (pbind p f).
Proof.
  intros Hf e n s. rewrite go_pbind. destruct (go e p n s) as [[r s1] l1].
  destruct (Hf r e (n + asks l1)%nat s1) as [a Ha]. exists a. by destruct (go e (f r) _ s1) as [[? ?] ?].
Qed.

(** Pages that agree on a variable. *)
Definition same {A} (f : St -> A) (s s' : St) : Prop := f s' = f s.
#[export] Instance same_preorder {A} (f : St -> A) : PreOrder (same f).
Proof. split; [done|]. unfold same. intros x y z H1 H2. congruence. Qed.
End Programs.

Arguments prog {Q} ans St C A.
Arguments Done {Q ans St C A} _.
Arguments Ask {Q ans St C A} _ _.
Arguments Look {Q ans St C A} _.
Arguments Upd {Q ans St C A} _ _.
Arguments Start {Q ans St C A} _ _.
Arguments Env {Q} ans St.
Arguments event Q C : clear implicits.
Arguments MkEnv {Q ans St} _ _.
Arguments steady {Q ans St} _.

(** Steps of [keeps]. *)
Ltac keep :=
  repeat first
    [ progress intros
    | apply keeps_pseq | apply keeps_pbind
    | match goal with
      | |- keeps _ (match ?x with _ => _ end) => destruct x
      | |- keeps _ (if ?x then _ else _) => destruct x
      | |- keeps _ (Look _) => cbn [keeps]
      | |- keeps _ (Ask _ _) => cbn [keeps]
      | |- keeps _ (asking _) => unfold asking; cbn [keeps]
      | |- keeps _ (Upd _ _) => cbn [keeps]; split; [try done|]
      | |- keeps _ (Start _ _) => cbn [keeps]
      | |- _ /\ keeps _ _ => split; [try done|]
      | |- True => exact I
      | |- keeps _ (pret _) => exact I
      | |- keeps _ (Done _) => exact I
      end ].

Notation "'let*' x := p 'in' k" := (pseq p (fun x => k)) (at level 10, x name, p at level 200, k at level 200).
Notation "'do*' p 'in' k" := (pseq p (fun _ => k)) (at level 10, p at level 200, k at level 200).
End Program.
