(* ===== verification/BuddySetup.v ===== *)
(** * Buddy List Setup (client/src/app.ts, lines 2137-2164, 8679-8706, 8847-9045)

    The screen that edits the buddy list.  Every edit changes only a draft; Save compares the draft with
    the lists that were loaded and calls the methods of Contacts.v for the difference.  The selected row
    is kept in the view and in a variable of the page, which always agree while the screen is open.  The
    two toggles act at once and are not part of the draft. *)

From S2P Require Import Prelude Json Integrity Auth Contacts.
Import JsObj Contacts.

Module BuddySetup.

Inductive sel_type := SelGroup | SelBuddy | SelBlocked | SelGBlocked.
#[export] Instance sel_type_eq_dec : EqDecision sel_type.
Proof. solve_decision. Defined.
Record BuddySetupSelection := MkSel { sel_kind : sel_type; sel_id : string }.

(** A blocked contact: its key, the fingerprint, and the name it was blocked under. *)
Definition BlockedContact : Type := string * string * option string.
Definition bl_key (b : BlockedContact) : string := b.1.1.

Record Lists := MkLists { buddies : list Buddy; groups : list GroupSummary; blocked : list BlockedContact }.
Record Setup := MkSetup { draft : Lists; orig : Lists; selected : option BuddySetupSelection; error : option string }.

Definition is_custom (g : GroupSummary) : bool := match s_role g with None => true | Some _ => false end.
Definition has_role (r : role) (g : GroupSummary) : bool := bool_decide (s_role g = Some r).

(** ** What the screen shows *)

(** [new Set(...)]: each name once, in the order of the first. *)
Definition add_name (s : list string) (x : string) : list string := if bool_decide (x ∈ s) then s else s ++ [x].

(** The internal names of the folders, before they are sorted: the rows that can be selected and the
    folders a buddy can be moved to. *)
Definition allGroupOrder (l : Lists) : list string :=
  let customs := List.filter (fun g => is_custom g && negb (bool_decide (s_name g = ""))) (groups l) in
  let s := foldl (fun s g => add_name s (s_name g)) [DEFAULT_GROUP] customs in
  foldl (fun s b => add_name s (if bool_decide (group b = "") then DEFAULT_GROUP else group b)) s (buddies l).

Definition groupLabelFor (internal : string) (gs : list GroupSummary) : string :=
  if bool_decide (internal = DEFAULT_GROUP) then
    match List.find (has_role RoleDefault) gs with Some g => s_name g | None => DEFAULT_GROUP end
  else internal.

(** ** Loading *)

Section setup.
Context `{LocaleCompare, Phrases}.

#[local] Notation "'let*' x := p 'in' k" := (pbind p (fun x => k))
  (at level 10, x name, p at level 200, k at level 200).

Definition openBuddySetup (sel : option BuddySetupSelection) (err : option string) : prog Setup :=
  let* bs := listBuddies in
  let* gs := listGroups in
  let* bl := listBlocked in
  let l := MkLists bs gs bl in
  Ret (MkSetup l l sel err).

(** ** Editing the draft *)

(** Each edit drops the error of the one before. *)
Definition patch (l : Lists) (sel : option BuddySetupSelection) (err : option string) (d : Setup) : Setup :=
  MkSetup l (orig d) sel err.
Definition patch_buddies (bs : list Buddy) (d : Setup) : Setup :=
  patch (MkLists bs (groups (draft d)) (blocked (draft d))) (selected d) None d.
Definition patch_groups (gs : list GroupSummary) (d : Setup) : Setup :=
  patch (MkLists (buddies (draft d)) gs (blocked (draft d))) (selected d) None d.
Definition patch_error (e : string) (d : Setup) : Setup := patch (draft d) (selected d) (Some e) d.

(** The value of a row is its kind and its id around the first colon. *)
Fixpoint at_colon (cur l : list Ascii.ascii) : option (string * string) :=
  match l with
  | [] => None
  | c :: l => if bool_decide (c = ":"%char) then Some (String.string_of_list_ascii cur, String.string_of_list_ascii l)
              else at_colon (cur ++ [c]) l
  end.
Definition row (raw : string) : option BuddySetupSelection :=
  '(k, id) ← at_colon [] (String.list_ascii_of_string raw);
  if bool_decide (k = "group") then Some (MkSel SelGroup id)
  else if bool_decide (k = "buddy") then Some (MkSel SelBuddy id)
  else if bool_decide (k = "blocked") then Some (MkSel SelBlocked id)
  else if bool_decide (k = "gblocked") then Some (MkSel SelGBlocked id)
  else None.
Definition select (raw : string) (d : Setup) : Setup :=
  match row raw with Some sel => patch (draft d) (Some sel) None d | None => d end.

Definition with_group (g : string) (b : Buddy) : Buddy := MkBuddyView (username b) (addedAt b) g.
Definition move (u g : string) (d : Setup) : Setup :=
  patch_buddies ((fun b => if bool_decide (username b = u) then with_group g b else b) <$> buddies (draft d)) d.

Definition add_buddy (input : string) (d : Setup) : Setup :=
  let name := Auth.normalizeUsername input in
  if bool_decide (name = "") || existsb (fun b => bool_decide (username b = name)) (buddies (draft d)) then d
  else
    let g := match selected d with Some (MkSel SelGroup id) => id | _ => DEFAULT_GROUP end in
    patch_buddies (buddies (draft d) ++ [MkBuddyView name 0 g]) d.

Definition named (name : string) (g : GroupSummary) : bool := bool_decide (s_name g = name).

Definition add_group (input : string) (d : Setup) : Setup :=
  let name := Auth.trim input in
  if bool_decide (name = "") || bool_decide (name = DEFAULT_GROUP) || existsb (named name) (groups (draft d)) then d
  else patch_groups (groups (draft d) ++ [MkSummary name None]) d.

Definition relabel (r : role) (name : string) (gs : list GroupSummary) : list GroupSummary :=
  (fun g => if has_role r g then MkSummary name (s_role g) else g) <$> gs.

Definition rename (input : string) (d : Setup) : Setup :=
  let name := Auth.trim input in
  match selected d with
  | Some (MkSel k id) =>
      if bool_decide (name = "") || negb (bool_decide (k = SelGroup \/ k = SelGBlocked)) then d
      else
        let isDefault := bool_decide (k = SelGroup) && bool_decide (id = DEFAULT_GROUP) in
        if bool_decide (name = DEFAULT_GROUP) && negb isDefault then
          patch_error "that name belongs to the built-in default group" d
        else if existsb (fun g => named name g && negb (isDefault && has_role RoleDefault g)) (groups (draft d)) then
          patch_error "a group already goes by that name" d
        else if bool_decide (k = SelGBlocked) then patch_groups (relabel RoleBlocked name (groups (draft d))) d
        else if isDefault then patch_groups (relabel RoleDefault name (groups (draft d))) d
        else
          patch
            (MkLists ((fun b => if bool_decide (group b = id) then with_group name b else b) <$> buddies (draft d))
               ((fun g => if is_custom g && named id g then MkSummary name None else g) <$> groups (draft d))
               (blocked (draft d)))
            (Some (MkSel SelGroup name)) None d
  | None => d
  end.

Definition delete_selected (d : Setup) : Setup :=
  let l := draft d in
  match selected d with
  | None | Some (MkSel SelGBlocked _) => d
  | Some (MkSel SelGroup id) =>
      if bool_decide (id = DEFAULT_GROUP) then d
      else
        patch
          (MkLists ((fun b => if bool_decide (group b = id) then with_group DEFAULT_GROUP b else b) <$> buddies l)
             (List.filter (fun g => negb (named id g)) (groups l)) (blocked l)) None None d
  | Some (MkSel SelBuddy id) =>
      patch (MkLists (List.filter (fun b => negb (bool_decide (username b = id))) (buddies l)) (groups l) (blocked l))
        None None d
  | Some (MkSel SelBlocked id) =>
      patch (MkLists (buddies l) (groups l) (List.filter (fun b => negb (bool_decide (bl_key b = id))) (blocked l)))
        None None d
  end.

(** ** Save *)

Fixpoint for_each {A} (l : list A) (f : A -> prog unit) : prog unit :=
  match l with [] => Ret tt | x :: l => let* _ := f x in for_each l f end.
Definition ignoring {A} (p : prog A) : prog unit := let* _ := p in Ret tt.

Definition has_custom (name : string) (gs : list GroupSummary) : bool := existsb (fun g => is_custom g && named name g) gs.
Definition find_buddy (u : string) (bs : list Buddy) : option Buddy := List.find (fun b => bool_decide (username b = u)) bs.
Definition label (r : role) (gs : list GroupSummary) : option string := s_name <$> List.find (has_role r) gs.

Definition save_group (d : Setup) (g : GroupSummary) : prog unit :=
  if is_custom g && negb (has_custom (s_name g) (groups (orig d))) then ignoring (addGroup (s_name g)) else Ret tt.
Definition save_buddy (d : Setup) (b : Buddy) : prog unit :=
  match find_buddy (username b) (buddies (orig d)) with
  | None => ignoring (addBuddy (username b) (Some (group b)))
  | Some o => if bool_decide (group o = group b) then Ret tt else ignoring (setBuddyGroup (username b) (group b))
  end.
Definition save_removal (d : Setup) (o : Buddy) : prog unit :=
  match find_buddy (username o) (buddies (draft d)) with Some _ => Ret tt | None => ignoring (removeBuddy (username o)) end.
Definition save_deletion (d : Setup) (g : GroupSummary) : prog unit :=
  if is_custom g && negb (has_custom (s_name g) (groups (draft d))) then ignoring (deleteGroup (s_name g)) else Ret tt.
Definition save_label (d : Setup) (r : role) : prog unit :=
  match label r (groups (draft d)), label r (groups (orig d)) with
  | Some new, Some old => if bool_decide (new = old) then Ret tt else ignoring (renameGroup r new)
  | _, _ => Ret tt
  end.
Definition save_unblock (d : Setup) (b : BlockedContact) : prog unit :=
  if existsb (fun x => bool_decide (bl_key x = bl_key b)) (blocked (draft d)) then Ret tt else ignoring (unblock (bl_key b)).

Definition save (d : Setup) : prog unit :=
  let* _ := for_each (groups (draft d)) (save_group d) in
  let* _ := for_each (buddies (draft d)) (save_buddy d) in
  let* _ := for_each (buddies (orig d)) (save_removal d) in
  let* _ := for_each (groups (orig d)) (save_deletion d) in
  let* _ := for_each [RoleDefault; RoleBlocked] (save_label d) in
  for_each (blocked (orig d)) (save_unblock d).
End setup.

(** ** The edits of a session *)
Inductive edit :=
  | ESelect (raw : string)
  | EMove (u g : string)
  | EAddBuddy (input : string)
  | EAddGroup (input : string)
  | ERename (input : string)
  | EDelete.

(** A row can be selected, and a folder chosen, when it is on the screen. *)
Definition on_screen (d : Setup) (e : edit) : bool :=
  match e with
  | ESelect raw =>
      match row raw with
      | Some (MkSel SelGroup id) => bool_decide (id ∈ allGroupOrder (draft d))
      | _ => true
      end
  | EMove _ g => bool_decide (g ∈ allGroupOrder (draft d))
  | _ => true
  end.
Definition apply (d : Setup) (e : edit) : Setup :=
  if on_screen d e then
    match e with
    | ESelect raw => select raw d
    | EMove u g => move u g d
    | EAddBuddy i => add_buddy i d
    | EAddGroup i => add_group i d
    | ERename i => rename i d
    | EDelete => delete_selected d
    end
  else d.
Definition edits (es : list edit) (d : Setup) : Setup := foldl apply d es.
End BuddySetup.
