(* ===== verification/ViewsBuddies.v ===== *)
(** * The buddy list and the people in it as markup (client/src/app.ts, lines 2090-2667, 3309-3631)

    The buddy list with its folders, its header and its toolbar, Buddy List Setup, the contact codes, the
    profile and away editors, and the panel about a contact with its verification.  The conventions are
    those of ViewsChat.v; lengths, slices and character codes count the bytes of a text.  [statuses],
    [icons] and the like are objects used as maps from usernames; a name that every object inherits is
    never a buddy of this device (DeviceSync.constructor_cannot_be_added). *)

From stdpp Require Import pretty.
From S2P Require Import Prelude PairingWire Qr GroupChannel Contacts BuddySetup RichText RichTextFacts Html ViewsChat.

Module ViewsBuddies.
Import Contacts RichText Html ViewsChat.

#[local] Existing Instance BuddySetup.sel_type_eq_dec.

Definition bool_text (b : bool) : chars := if b then dq "true" else dq "false".

(** ** The order of the list *)

Definition presenceDotClass (status : option string) : chars :=
  if bool_decide (status = Some "online") then dq "dd-status-secure"
  else if bool_decide (status = Some "idle") || bool_decide (status = Some "away") then dq "dd-status-pending"
  else dq "dd-status-offline".
Definition isBuddyOnline (status : option string) : bool :=
  bool_decide (status = Some "online") || bool_decide (status = Some "away") || bool_decide (status = Some "idle").
Definition statusRank (status : option string) : Z :=
  if bool_decide (status = Some "online") then 0 else if bool_decide (status = Some "away") then 1
  else if bool_decide (status = Some "idle") then 2 else 3.

(** [Array.prototype.sort], which is stable, with a comparison: [le a z] is [cmp a z <= 0]. *)
Fixpoint insert_with {A} (le : A -> A -> bool) (x : A) (l : list A) : list A :=
  match l with
  | [] => [x]
  | y :: l' => if le x y then x :: l else y :: insert_with le x l'
  end.
Definition sort_with {A} (le : A -> A -> bool) (l : list A) : list A := foldr (insert_with le) [] l.

Definition DEFAULT_BUDDY_GROUP : string := DEFAULT_GROUP.
Definition BLOCKED_GROUP_LABEL : string := "Blocked".
Definition BLOCKED_COLLAPSE_KEY : string := String "000"%char "blocked".

Definition defaultGroupLabel (groups : list GroupSummary) : string :=
  default DEFAULT_BUDDY_GROUP (s_name <$> List.find (BuddySetup.has_role RoleDefault) groups).
Definition blockedGroupLabel (groups : list GroupSummary) : string :=
  default BLOCKED_GROUP_LABEL (s_name <$> List.find (BuddySetup.has_role RoleBlocked) groups).
Definition groupLabelFor (internal : string) (groups : list GroupSummary) : string :=
  if bool_decide (internal = DEFAULT_BUDDY_GROUP) then defaultGroupLabel groups else internal.

Section order.
Context `{LocaleCompare}.

Definition group_before (a b : string) : bool :=
  if bool_decide (a = DEFAULT_BUDDY_GROUP) then true
  else if bool_decide (b = DEFAULT_BUDDY_GROUP) then false
  else localeCompare a b <=? 0.
Definition orderedGroupNames (names : list string) : list string := sort_with group_before names.
Definition allGroupOrder (buddies : list Buddy) (groups : list GroupSummary) : list string :=
  orderedGroupNames (BuddySetup.allGroupOrder (BuddySetup.MkLists buddies groups [])).

Definition folder_of (b : Buddy) : string := if bool_decide (group b = "") then DEFAULT_BUDDY_GROUP else group b.
Definition groupBuddies (buddies : list Buddy) : list (string * list Buddy) :=
  foldl (fun m b => JsMap.set (folder_of b) (default [] (JsMap.lookup (folder_of b) m) ++ [b]) m) [] buddies.

Definition member_before (statuses : list (string * string)) (a z : Buddy) : bool :=
  let d := statusRank (JsMap.lookup (username a) statuses) - statusRank (JsMap.lookup (username z) statuses) in
  if bool_decide (d = 0) then localeCompare (username a) (username z) <=? 0 else d <=? 0.
Definition sortedMembers (members : list Buddy) (statuses : list (string * string)) : list Buddy :=
  sort_with (member_before statuses) members.
End order.

(** ** Icons *)

Inductive icon_kind := IconEmoji | IconInitials | IconImage.
Record BuddyIcon := MkIcon { i_kind : icon_kind; i_value : string; i_bg : string }.

Definition ICON_EMOJI : list string := ["🦉"; "🦊"; "🌑"; "⭐"; "🔑"; "👻"].
Definition ICON_COLORS : list string :=
  ["#2a52d6"; "#1f9d6b"; "#b0431f"; "#6b3fb0"; "#0b7d8e"; "#8e7a0b"; "#444a5e"].

(** [indexOf] *)
Fixpoint index_of (s : string) (l : list string) : option nat :=
  match l with
  | [] => None
  | x :: l' => if bool_decide (x = s) then Some O else S <$> index_of s l'
  end.

Definition name_hash (username : string) : Z :=
  foldl (fun h c => (h * 31 + code c) mod 2 ^ 32) 0 (chars_of username).
Definition buddyPlaceholderIcon (username : string) : BuddyIcon :=
  let bg := nth (Z.to_nat (name_hash username mod Z.of_nat (length ICON_COLORS))) ICON_COLORS "#2a52d6" in
  MkIcon IconEmoji "👻" bg.

(** The text of an icon that is not a picture. *)
Definition icon_text (i : BuddyIcon) : string :=
  match i_kind i with
  | IconEmoji => i_value i
  | _ => GroupChannel.toUpperCase (String.substring 0 2 (i_value i))
  end.

Definition renderTreeBuddyIcon (icon : option BuddyIcon) (username : string) : chars :=
  let ic := default (buddyPlaceholderIcon username) icon in
  match i_kind ic with
  | IconImage => dq "<span class=`dd-bic`><img class=`dd-bic-img` src=`" ++ esc (i_value ic) ++ dq "` alt=`` /></span>"
  | _ =>
      let idx := default O (index_of (i_bg ic) ICON_COLORS) in
      dq "<span class=`dd-bic dd-ic-" ++ chars_of (pretty idx) ++ dq "`>" ++ esc (icon_text ic) ++ dq "</span>"
  end.

Definition renderIconPreview (icon : option BuddyIcon) : chars :=
  match icon with
  | None => dq "<div class=`dd-id-preview dd-id-preview-empty` aria-label=`no icon`>👻</div>"
  | Some icon =>
      match i_kind icon with
      | IconImage =>
          dq "<div class=`dd-id-preview`><img class=`dd-id-img` src=`" ++ esc (i_value icon) ++
          dq "` alt=`buddy icon` /></div>"
      | _ =>
          let bgClass := match index_of (i_bg icon) ICON_COLORS with
            | Some idx => dq "dd-ic-" ++ chars_of (pretty idx)
            | None => dq "dd-ic-0"
            end in
          dq "<div class=`dd-id-preview " ++ bgClass ++ dq "`>" ++ esc (icon_text icon) ++ dq "</div>"
      end
  end.

(** ** The preview of an away message *)

(** The markers dropped and the escapes undone; [skip] characters belong to a marker already dropped. *)
Fixpoint strip_markers (skip : nat) (t : chars) : chars :=
  match t with
  | [] => []
  | c :: t' =>
      match skip with
      | S k => strip_markers k t'
      | O =>
          match (if Ascii.eqb c "\" then head t' else None) with
          | Some d => d :: strip_markers 1 t'
          | None =>
              if Ascii.eqb c "*" || Ascii.eqb c "_" then strip_markers 0 t'
              else match (if Ascii.eqb c "[" then fst <$> list_find (fun d => d = "]"%char) t' else None) with
                   | Some k => strip_markers (S k) t'
                   | None => c :: strip_markers 0 t'
                   end
          end
      end
  end.
(** [.replace(/\s+/g, ' ')] *)
Fixpoint squeeze (t : chars) : chars :=
  match t with
  | [] => []
  | c :: t' =>
      if is_space c then
        match t' with
        | d :: _ => if is_space d then squeeze t' else " "%char :: squeeze t'
        | [] => [" "%char]
        end
      else c :: squeeze t'
  end.
Definition awayPreview (markers : string) (maxLen : nat) : chars :=
  let plain := trim (squeeze (plain_blanks (strip_markers 0 (chars_of markers)))) in
  if (maxLen <? length plain)%nat then take (maxLen - 1) plain ++ chars_of "…" else plain.

(** ** The header *)

Record AwayConfig := MkAway { aw_enabled : bool; aw_message : string; aw_serverSide : bool; aw_saved : option (list string) }.
Record IdentityProfile := MkProfile { p_icon : option BuddyIcon; p_bio : string; p_away : AwayConfig }.

Definition renderConnStatus : chars :=
  dq "<span class=`dd-blhead-conn`>" ++
  dq "<button type=`button` class=`dd-title-conn` id=`dd-conn` aria-haspopup=`true` title=`connection details`></button>" ++
  dq "<span class=`dd-conn-pop` id=`dd-conn-pop` hidden><span class=`dd-connp-state`></span>" ++
  dq "<span class=`dd-connp-exp`></span><span class=`dd-connp-gw`></span><span class=`dd-connp-time`></span>" ++
  dq "<button type=`button` class=`dd-btn dd-connp-now` data-action=`conn-reconnect` hidden>Reconnect now</button>" ++
  dq "</span></span>".

(** The status control: a menu of the saved away messages. *)
Definition status_control (a : AwayConfig) : chars :=
  let away := aw_enabled a in
  let savedItems := concat (imap (fun i msg =>
    dq "<button type=`button` class=`dd-menu-dropitem` data-action=`status-saved` data-saved-idx=`" ++
    chars_of (pretty i) ++ dq "`>" ++ (if away && bool_decide (aw_message a = msg) then dq "✓ " else []) ++
    dq "“" ++ escapeHtml (awayPreview msg 26) ++ dq "”</button>") (default [] (aw_saved a))) in
  dq "<span class=`dd-blhead-st`><button type=`button` class=`dd-blhead-stbtn " ++
  (if away then dq "dd-st-away" else dq "dd-st-online") ++ dq "` data-action=`status-menu`" ++
  dq " title=`set your status` aria-haspopup=`true`>◆<span class=`dd-blhead-caret`>▾</span></button>" ++
  dq "<span class=`dd-menu-dropdown dd-st-menu` id=`dd-status-menu` hidden>" ++
  dq "<button type=`button` class=`dd-menu-dropitem` data-action=`status-online`>" ++
  (if away then [] else dq "✓ ") ++ dq "Online</button>" ++
  dq "<button type=`button` class=`dd-menu-dropitem` data-action=`status-edit-away`>New Away Message</button>" ++
  savedItems ++ dq "</span></span>".

Definition renderBuddyListHeader (profile : IdentityProfile) (ownName : string) : chars :=
  let a := p_away profile in
  let status := if aw_enabled a && negb (bool_decide (aw_message a = "")) then
      dq "<div class=`dd-blhead-status`>" ++ formatMessageText false (chars_of (aw_message a)) ++ dq "</div>"
    else [] in
  dq "<div class=`dd-blhead`>" ++ renderIconPreview (p_icon profile) ++
  dq "<div class=`dd-blhead-txt`><div class=`dd-blhead-name`>" ++ status_control a ++
  dq "<span class=`dd-blhead-handle`>" ++ esc ownName ++ dq "</span></div>" ++ status ++ dq "</div>" ++
  renderConnStatus ++ dq "</div>".

(** ** The rows *)

Definition renderTreeGroupHeader (name toggleKey count : string) (isCollapsed : bool) : chars :=
  dq "<button type=`button` class=`dd-tree-group` data-buddy-toggle=`" ++ esc toggleKey ++
  dq "` aria-expanded=`" ++ bool_text (negb isCollapsed) ++ dq "`><span class=`dd-tree-tri`>" ++
  (if isCollapsed then dq "▶" else dq "▼") ++ dq "</span><span class=`dd-tree-folder`>" ++
  (if isCollapsed then dq "📁" else dq "📂") ++ dq "</span><span class=`dd-tree-name`>" ++ esc name ++
  dq "</span><span class=`dd-tree-count`>" ++ esc count ++ dq "</span></button>".

Inductive flash := FlashOn | FlashOff.

(** The line under a buddy who is away. *)
Definition away_sub (status awayText : option string) : chars :=
  if bool_decide (status = Some "away") then
    let preview := match awayText with
      | Some t => if bool_decide (t = "") then [] else awayPreview t 90
      | None => []
      end in
    dq "<span class=`dd-tree-sub`>" ++ (if bool_decide (preview = []) then dq "Away" else escapeHtml preview) ++ dq "</span>"
  else [].
Definition verify_mark (verify : option badge) : chars :=
  match verify with
  | Some Verified => dq "<span class=`dd-tree-verify` title=`verified`>✓</span>"
  | Some Changed => dq "<span class=`dd-tree-verify dd-tree-verify-bad` title=`identity changed`>!</span>"
  | Some Stale => dq "<span class=`dd-tree-verify dd-tree-verify-stale` title=`verified earlier, cannot check right now`>○</span>"
  | None => []
  end.

Definition renderTreeBuddyName (b : Buddy) (status : option string) (selected : bool) (icon : option BuddyIcon)
    (signal : option flash) (awayText : option string) (verify : option badge) : chars :=
  let off := if isBuddyOnline status then [] else dq " dd-tree-buddy-off" in
  let sel := if selected then dq " dd-tree-sel" else [] in
  let fx := match signal with Some FlashOn => dq " dd-tree-signon" | Some FlashOff => dq " dd-tree-signoff" | None => [] end in
  let sub := away_sub status awayText in
  let has_sub := negb (bool_decide (sub = [])) in
  let nameCol := if has_sub then
      dq "<span class=`dd-tree-text`><span class=`dd-tree-label`>" ++ esc (username b) ++ verify_mark verify ++
      dq "</span>" ++ sub ++ dq "</span>"
    else
      dq "<span class=`dd-tree-label`>" ++ esc (username b) ++ verify_mark verify ++ dq "</span>" in
  dq "<button type=`button` class=`dd-tree-buddy" ++ off ++ sel ++ fx ++
  (if has_sub then dq " dd-tree-buddy-sub" else []) ++ dq "` data-buddy-select=`" ++ esc (username b) ++
  dq "` aria-pressed=`" ++ bool_text selected ++ dq "`><span class=`dd-status-dot " ++ presenceDotClass status ++
  dq "`></span>" ++ renderTreeBuddyIcon icon (username b) ++ nameCol ++ dq "</button>".

Definition ICO_SEND : chars :=
  icon_path (dq "M20 2H4a2 2 0 0 0-2 2v18l4-4h14a2 2 0 0 0 2-2V4a2 2 0 0 0-2-2zM7 9h10v2H7zm0 4h7v2H7z").
Definition ICO_GROUP : chars :=
  icon_path (dq "M21 6h-2v9H6v2c0 .55.45 1 1 1h11l4 4V7c0-.55-.45-1-1-1zm-4 6V3c0-.55-.45-1-1-1H3c-.55 0-1 .45-1 1v14" ++
    dq "l4-4h10c.55 0 1-.45 1-1z").
Definition ICO_INFO : chars :=
  icon_path (dq "M12 2C6.48 2 2 6.48 2 12s4.48 10 10 10 10-4.48 10-10S17.52 2 12 2zm1 15h-2v-6h2v6zm0-8h-2V7h2v2z").
Definition ICO_CHANNELS : chars :=
  icon_path (dq "M4 4h16a1 1 0 0 1 1 1v14a1 1 0 0 1-1 1H4a1 1 0 0 1-1-1V5a1 1 0 0 1 1-1zm1 2v12h4V6H5zm6 0v12h8V6h-8z" ++
    dq "m1 2h6v2h-6V8zm0 3h6v2h-6v-2z").
Definition ICO_GEAR : chars :=
  icon_path (dq "M19.14 12.94c.04-.3.06-.61.06-.94 0-.32-.02-.64-.07-.94l2.03-1.58a.49.49 0 0 0 .12-.61l-1.92-3.32a.4" ++
    dq "9.49 0 0 0-.59-.22l-2.39.96c-.5-.38-1.03-.7-1.62-.94l-.36-2.54a.48.48 0 0 0-.48-.41h-3.84a.48.48 0 0" ++
    dq " 0-.48.41l-.36 2.54c-.59.24-1.13.57-1.62.94l-2.39-.96a.48.48 0 0 0-.59.22L2.74 8.87a.48.48 0 0 0 .12" ++
    dq ".61l2.03 1.58c-.05.3-.09.63-.09.94s.02.64.07.94l-2.03 1.58a.49.49 0 0 0-.12.61l1.92 3.32c.12.22.37.2" ++
    dq "9.59.22l2.39-.96c.5.38 1.03.7 1.62.94l.36 2.54c.05.24.24.41.48.41h3.84c.24 0 .44-.17.48-.41l.36-2.54" ++
    dq "c.59-.24 1.13-.56 1.62-.94l2.39.96c.22.08.47 0 .59-.22l1.92-3.32a.49.49 0 0 0-.12-.61l-2.01-1.58zM12" ++
    dq " 15.6a3.6 3.6 0 1 1 0-7.2 3.6 3.6 0 0 1 0 7.2z").

Definition renderBuddyToolbar (selectedCount : nat) : chars :=
  let one := bool_decide (selectedCount = 1%nat) in
  let any := (1 <=? selectedCount)%nat in
  dq "<div class=`dd-tbar`><div class=`dd-tbar-row`>" ++
  renderToolButton (dq "tbar-send-im") "Send IM" ICO_SEND (negb one) [] ++
  renderToolButton (dq "tbar-group-chat") "Group Chat" ICO_GROUP (negb any) [] ++
  renderToolButton (dq "tbar-channels") "Channels" ICO_CHANNELS false [] ++
  renderToolButton (dq "tbar-info") "Buddy Info" ICO_INFO (negb one) [] ++
  dq "</div><div class=`dd-tbar-row`>" ++
  renderToolButton (dq "tbar-profile") "Profile" ICO_PROFILE false (dq "dd-tbar-wide") ++
  renderToolButton (dq "tbar-setup") "Setup" ICO_GEAR false (dq "dd-tbar-wide") ++ dq "</div></div>".

Definition renderBuddyToggles (presenceOn notifyOn : bool) : chars :=
  dq "<label class=`dd-id-check`><input type=`checkbox` id=`dd-presence-toggle`" ++
  (if presenceOn then dq " checked" else []) ++ dq " /> Share my status with buddies</label>" ++
  (if presenceOn then
     dq "<div class=`dd-form-note`>Your online, away, and idle status is stored on the server and shown to " ++
     dq "buddies who look you up. The server can read it. Turn this off to keep your status to yourself.</div>"
   else []) ++
  dq "<label class=`dd-id-check`><input type=`checkbox` id=`dd-notify-toggle`" ++
  (if notifyOn then dq " checked" else []) ++ dq " /> Notify me of new messages and sign-ons</label>".

Definition form_error (error : option string) : chars :=
  match error with Some e => dq "<div class=`dd-form-error`>" ++ esc e ++ dq "</div>" | None => [] end.

(** ** The buddy list *)

Record BuddiesView := MkBuddies {
  bv_buddies : list Buddy;
  bv_groups : list GroupSummary;
  bv_statuses : list (string * string);
  bv_collapsed : list string;
  bv_blocked : list BuddySetup.BlockedContact;
  bv_selected : list string;
  bv_profile : IdentityProfile;
  bv_ownName : string;
  bv_icons : list (string * BuddyIcon);
  bv_awayText : list (string * string);
  bv_verify : list (string * badge);
  bv_error : option string;
  bv_signals : list (string * flash)
}.

Section tree.
Context `{LocaleCompare}.

(** Buddies that are not blocked, by the name recorded with the block. *)
Definition visible (v : BuddiesView) : list Buddy :=
  let blockedNames := omap snd (bv_blocked v) in
  List.filter (fun b => negb (bool_decide (username b ∈ blockedNames))) (bv_buddies v).

(** The folders in their order, each with its buddies. *)
Definition folders (v : BuddiesView) : list (string * list Buddy) :=
  let grouped := groupBuddies (visible v) in
  (fun g => (g, default [] (JsMap.lookup g grouped))) <$> allGroupOrder (visible v) (bv_groups v).

Definition tree_row (v : BuddiesView) (b : Buddy) : chars :=
  let u := username b in
  renderTreeBuddyName b (JsMap.lookup u (bv_statuses v)) (bool_decide (u ∈ bv_selected v)) (JsMap.lookup u (bv_icons v))
    (JsMap.lookup u (bv_signals v)) (JsMap.lookup u (bv_awayText v)) (JsMap.lookup u (bv_verify v)).

Definition tree_folder (v : BuddiesView) (f : string * list Buddy) : chars :=
  let '(g, members) := f in
  let online := length (List.filter (fun b => isBuddyOnline (JsMap.lookup (username b) (bv_statuses v))) members) in
  let isCollapsed := bool_decide (g ∈ bv_collapsed v) in
  let header := renderTreeGroupHeader (groupLabelFor g (bv_groups v)) g
    ("(" +:+ pretty online +:+ "/" +:+ pretty (length members) +:+ ")") isCollapsed in
  if isCollapsed then dq "<div class=`dd-tree-node`>" ++ header ++ dq "</div>"
  else
    dq "<div class=`dd-tree-node`>" ++ header ++ dq "<div class=`dd-tree-kids`>" ++
    (sortedMembers members (bv_statuses v) ≫= tree_row v) ++ dq "</div></div>".

Definition blocked_node (v : BuddiesView) : chars :=
  let bc := bool_decide (BLOCKED_COLLAPSE_KEY ∈ bv_collapsed v) in
  let header := renderTreeGroupHeader (blockedGroupLabel (bv_groups v)) BLOCKED_COLLAPSE_KEY
    ("(" +:+ pretty (length (bv_blocked v)) +:+ ")") bc in
  let kids := if bc || bool_decide (bv_blocked v = []) then []
    else
      dq "<div class=`dd-tree-kids`>" ++
      (bv_blocked v ≫= (fun b : BuddySetup.BlockedContact =>
         dq "<div class=`dd-tree-buddy dd-tree-buddy-off`><span class=`dd-status-dot dd-status-blocked`></span>" ++
         dq "<span class=`dd-tree-label`>" ++
         match b.2 with Some u => esc u | None => dq "key " ++ esc b.1.2 end ++ dq "</span></div>")) ++ dq "</div>" in
  dq "<div class=`dd-tree-node`>" ++ header ++ kids ++ dq "</div>".

(** How many buddies the toolbar acts on: only those that are shown count. *)
Definition selectedCount (v : BuddiesView) : nat :=
  length (List.filter (fun u => bool_decide (u ∈ username <$> visible v)) (foldl BuddySetup.add_name [] (bv_selected v))).

Definition renderBuddies (v : BuddiesView) : chars :=
  let empty := bool_decide (bv_buddies v = []) && bool_decide (length (bv_groups v) = O) && bool_decide (bv_blocked v = []) in
  let body := if empty then
      dq "<div class=`dd-form-sub`>no buddies yet</div><div class=`dd-tree`>" ++ blocked_node v ++ dq "</div>"
    else
      dq "<div class=`dd-tree`>" ++ (folders v ≫= tree_folder v) ++ blocked_node v ++ dq "</div>" in
  let hint := dq "<div class=`dd-form-note`>Click a buddy to select. Add buddies and groups in Setup.</div>" in
  dq "<div class=`dd-settings dd-buddies dd-buddytree`>" ++ renderBuddyListHeader (bv_profile v) (bv_ownName v) ++
  form_error (bv_error v) ++ body ++ hint ++ renderBuddyToolbar (selectedCount v) ++ dq "</div>".

(** ** Buddy List Setup *)

Record SetupView := MkSetupView {
  sv_lists : BuddySetup.Lists;
  sv_statuses : list (string * string);
  sv_presenceOn : bool;
  sv_notifyOn : bool;
  sv_selected : option BuddySetup.BuddySetupSelection;
  sv_error : option string
}.

(** The id of the selection, if it is of that kind. *)
Definition selected_id (k : BuddySetup.sel_type) (s : option BuddySetup.BuddySetupSelection) : option string :=
  match s with
  | Some sel => if bool_decide (BuddySetup.sel_kind sel = k) then Some (BuddySetup.sel_id sel) else None
  | None => None
  end.
Definition sel_class (selected : bool) : chars := if selected then dq " dd-tree-sel" else [].

Definition setup_row (v : SetupView) (order : list string) (b : Buddy) : chars :=
  let groups := BuddySetup.groups (sv_lists v) in
  let bSel := sel_class (bool_decide (selected_id BuddySetup.SelBuddy (sv_selected v) = Some (username b))) in
  let opts := order ≫= (fun x =>
    dq "<option value=`" ++ esc x ++ dq "`" ++ (if bool_decide (x = group b) then dq " selected" else []) ++
    dq ">" ++ esc (groupLabelFor x groups) ++ dq "</option>") in
  dq "<div class=`dd-setup-row`><button type=`button` class=`dd-tree-buddy dd-tree-selectable" ++ bSel ++
  dq "` data-setup-sel=`buddy:" ++ esc (username b) ++ dq "`><span class=`dd-status-dot " ++
  presenceDotClass (JsMap.lookup (username b) (sv_statuses v)) ++ dq "`></span><span class=`dd-tree-label`>" ++
  esc (username b) ++ dq "</span></button><select class=`dd-buddy-group-sel` data-buddy-group=`" ++ esc (username b) ++
  dq "` aria-label=`group for " ++ esc (username b) ++ dq "`>" ++ opts ++ dq "</select></div>".

Definition setup_folder (v : SetupView) (order : list string) (g : string) : chars :=
  let lists := sv_lists v in
  let members := default [] (JsMap.lookup g (groupBuddies (BuddySetup.buddies lists))) in
  let groupSel := sel_class (bool_decide (selected_id BuddySetup.SelGroup (sv_selected v) = Some g)) in
  let header :=
    dq "<button type=`button` class=`dd-tree-group dd-tree-selectable" ++ groupSel ++
    dq "` data-setup-sel=`group:" ++ esc g ++
    dq "`><span class=`dd-tree-folder`>📂</span><span class=`dd-tree-name`>" ++
    esc (groupLabelFor g (BuddySetup.groups lists)) ++
    dq "</span><span class=`dd-tree-count`>(" ++ chars_of (pretty (length members)) ++ dq ")</span></button>" in
  dq "<div class=`dd-tree-node`>" ++ header ++ dq "<div class=`dd-tree-kids`>" ++
  (sortedMembers members (sv_statuses v) ≫= setup_row v order) ++ dq "</div></div>".

Definition setup_blocked_row (v : SetupView) (b : BuddySetup.BlockedContact) : chars :=
  let bSel := sel_class (bool_decide (selected_id BuddySetup.SelBlocked (sv_selected v) = Some b.1.1)) in
  let label := match b.2 with
    | Some u => esc u ++ dq " <span class=`dd-tree-count`>key " ++ esc b.1.2 ++ dq "</span>"
    | None => dq "key " ++ esc b.1.2
    end in
  dq "<div class=`dd-setup-row`><button type=`button` class=`dd-tree-buddy dd-tree-buddy-off dd-tree-selectable" ++
  bSel ++ dq "` data-setup-sel=`blocked:" ++ esc b.1.1 ++
  dq "`><span class=`dd-status-dot dd-status-blocked`></span><span class=`dd-tree-label`>" ++ label ++
  dq "</span></button></div>".

Definition setup_blocked (v : SetupView) : chars :=
  let blocked := BuddySetup.blocked (sv_lists v) in
  let gbSel := sel_class (bool_decide (is_Some (selected_id BuddySetup.SelGBlocked (sv_selected v)))) in
  dq "<div class=`dd-tree-node`><button type=`button` class=`dd-tree-group dd-tree-selectable" ++ gbSel ++
  dq "` data-setup-sel=`gblocked:`><span class=`dd-tree-folder`>🚫</span><span class=`dd-tree-name`>" ++
  esc (blockedGroupLabel (BuddySetup.groups (sv_lists v))) ++ dq "</span><span class=`dd-tree-count`>(" ++
  chars_of (pretty (length blocked)) ++
  dq ")</span></button><div class=`dd-tree-kids`>" ++ (blocked ≫= setup_blocked_row v) ++ dq "</div></div>".

Definition renamable (s : option BuddySetup.BuddySetupSelection) : bool :=
  match s with
  | Some (BuddySetup.MkSel (BuddySetup.SelGroup | BuddySetup.SelGBlocked) _) => true
  | _ => false
  end.
Definition deletable (s : option BuddySetup.BuddySetupSelection) : bool :=
  match s with
  | None | Some (BuddySetup.MkSel BuddySetup.SelGBlocked _) => false
  | Some (BuddySetup.MkSel BuddySetup.SelGroup id) => negb (bool_decide (id = DEFAULT_BUDDY_GROUP))
  | Some _ => true
  end.

(** The fields and buttons under the tree. *)
Definition setup_controls (groups : list GroupSummary) (sel : option BuddySetup.BuddySetupSelection) : chars :=
  dq "<div class=`dd-field dd-setup-add`>" ++
  dq "<input class=`dd-input` id=`dd-setup-buddy-input` placeholder=`add a buddy by username` aria-label=`username` autocapitalize=`none` spellcheck=`false` />" ++
  dq "<button class=`dd-btn dd-setup-btn` data-action=`setup-add-buddy`>Add Buddy</button></div>" ++
  dq "<div class=`dd-field dd-setup-add`>" ++
  dq "<input class=`dd-input` id=`dd-setup-group-input` placeholder=`new group name` aria-label=`new group name` />" ++
  dq "<button class=`dd-btn dd-setup-btn` data-action=`setup-add-group`>Add Group</button></div>" ++
  dq "<div class=`dd-field dd-setup-add`>" ++
  dq "<input class=`dd-input` id=`dd-setup-rename-input` placeholder=`rename selected group` aria-label=`rename selected group` />" ++
  dq "<button class=`dd-btn dd-setup-btn` data-action=`setup-rename`" ++
  (if renamable sel then [] else dq " disabled") ++ dq ">Rename</button></div>" ++
  dq "<div class=`dd-field`><button class=`dd-btn dd-setup-btn dd-setup-delete` data-action=`setup-delete`" ++
  (if deletable sel then [] else dq " disabled") ++ dq ">Delete</button></div>" ++
  dq "<div class=`dd-field dd-setup-scan`>" ++
  dq "<button class=`dd-btn dd-setup-btn` data-action=`buddy-scan`>Scan a buddy</button> " ++
  dq "<button class=`dd-btn dd-setup-btn` data-action=`buddy-showme`>Scan me</button></div>" ++
  dq "<div class=`dd-form-note`>Select a group, a buddy, or a blocked contact, then Delete. Deleting a " ++
  dq "group moves its buddies to " ++ esc (defaultGroupLabel groups) ++
  dq ". Rename renames the selected group; " ++ esc (defaultGroupLabel groups) ++ dq " and " ++
  esc (blockedGroupLabel groups) ++
  dq " are built in, so they can be renamed and never deleted. Add Buddy files the new buddy under the selected group. " ++
  dq "Nothing changes until you Save; Cancel forgets everything you did here.</div>" ++
  dq "<div class=`dd-field dd-form-actions dd-setup-actions`>" ++
  dq "<button class=`dd-btn dd-btn-primary` data-action=`setup-save`>Save</button> " ++
  dq "<button class=`dd-btn` data-action=`setup-cancel`>Cancel</button></div>".

Definition renderBuddySetup (v : SetupView) : chars :=
  let lists := sv_lists v in
  let order := allGroupOrder (BuddySetup.buddies lists) (BuddySetup.groups lists) in
  let tree := dq "<div class=`dd-tree dd-setup-tree`>" ++ (order ≫= setup_folder v order) ++ setup_blocked v ++ dq "</div>" in
  dq "<div class=`dd-settings dd-buddies dd-buddysetup`><div class=`dd-form-title`>BUDDY LIST SETUP</div>" ++
  form_error (sv_error v) ++ renderBuddyToggles (sv_presenceOn v) (sv_notifyOn v) ++ tree ++
  setup_controls (BuddySetup.groups lists) (sv_selected v) ++ dq "</div>".

End tree.

(** ** Contact codes *)

Definition renderBuddyScan : chars :=
  dq "<div class=`dd-settings dd-buddies`><div class=`dd-form-title`>SCAN A BUDDY</div>" ++
  dq "<div class=`dd-scan`><video id=`dd-scan-video` class=`dd-scan-video` autoplay playsinline muted></video>" ++
  dq "<canvas id=`dd-scan-canvas` class=`dd-scan-canvas`></canvas></div>" ++
  dq "<div class=`dd-form-sub`>Point this camera at a buddy’s contact code (their Scan me screen, or their " ++
  dq "Profile QR) to start a conversation with them.</div>" ++
  dq "<div class=`dd-field`><button class=`dd-btn` data-action=`buddy-scan-cancel`>Cancel</button></div></div>".

(** The picture, or nothing where the text is too long for a code. *)
Definition qr_or_nothing (text : string) (px : nat) : chars :=
  match Qr.qrSvg text px with Ok svg => chars_of svg | Throw _ => [] end.

Definition renderBuddyQr (link : string) : chars :=
  let qr := if bool_decide (link = "") then [] else qr_or_nothing link 240 in
  let inner := if bool_decide (qr = []) then
      dq "<div class=`dd-form-error`>Could not build your code here. Open your Profile to share your contact link instead.</div>"
    else
      dq "<div class=`dd-scan`><div class=`dd-qr`>" ++ qr ++
      dq "</div></div><div class=`dd-form-sub`>Have a buddy open Buddy list setup, choose Scan a buddy, and point their " ++
      dq "camera at this code to start a conversation with you.</div>" in
  dq "<div class=`dd-settings dd-buddies`><div class=`dd-form-title`>SCAN ME</div>" ++ inner ++
  dq "<div class=`dd-field`><button class=`dd-btn` data-action=`buddy-qr-back`>Back</button></div></div>".

Definition renderAddPerson (error : option string) : chars :=
  dq "<div class=`dd-form`><div class=`dd-form-title`>ADD PERSON</div>" ++
  dq "<div class=`dd-form-sub`>add another person to this conversation by username</div>" ++
  dq "<input class=`dd-input` id=`dd-addperson-input` placeholder=`their username` aria-label=`username` autocapitalize=`none` spellcheck=`false` />" ++
  form_error error ++
  dq "<div class=`dd-field`><button class=`dd-btn dd-btn-primary` data-action=`addperson-submit`>Add</button> " ++
  dq "<button class=`dd-btn` data-action=`addperson-cancel`>Cancel</button></div>" ++
  dq "<div class=`dd-form-note`>Everyone in a conversation sees each other and every message. A person you add " ++
  dq "can read messages sent from now on. They cannot read the earlier ones. All of their devices join the " ++
  dq "group, and the first time you see their devices is trust on first use, so confirm their fingerprint " ++
  dq "through a channel you already trust.</div></div>".

(** ** The profile and the away message *)

Definition renderContactQr (contactLink : string) : chars :=
  if bool_decide (contactLink = "") then []
  else
  let qr := qr_or_nothing contactLink 180 in
  dq "<div class=`dd-id-section dd-qr-section`><div class=`dd-fp-label`>your contact QR</div>" ++
  (if bool_decide (qr = []) then [] else dq "<div class=`dd-qr`>" ++ qr ++ dq "</div>") ++
  dq "<div class=`dd-qr-link`><code>" ++ esc contactLink ++ dq "</code></div>" ++
  dq "<div class=`dd-field`><button type=`button` class=`dd-btn` data-action=`copy-contact-link`>Copy link</button></div>" ++
  dq "<div class=`dd-form-note`>Share this so someone can message you. They still confirm your key " ++
  dq "fingerprint on the first message. The link is a fragment, so the server never sees who scans it.</div></div>".

Definition saved_note (saved : bool) : chars := if saved then dq "<div class=`dd-form-sub`>Saved.</div>" else [].
Definition plain_opts (placeholder : string) (tall : bool) : EditorOpts := MkOpts (Some placeholder) false tall None false false.

Definition renderIdentity (p : IdentityProfile) (error : option string) (saved : bool) (contactLink : string) : chars :=
  let emojis := ICON_EMOJI ≫= (fun e =>
    dq "<button type=`button` class=`dd-id-emoji` data-emoji=`" ++ esc e ++ dq "`>" ++ esc e ++ dq "</button>") in
  let removeImg := match p_icon p with
    | Some (MkIcon IconImage _ _) =>
        dq "<button type=`button` class=`dd-btn` data-action=`id-clear-image`>Remove image</button>"
    | _ => []
    end in
  dq "<div class=`dd-settings dd-id`>" ++ saved_note saved ++ form_error error ++
  dq "<div class=`dd-id-section`><div class=`dd-fp-label`>buddy icon</div><div class=`dd-id-row`>" ++
  renderIconPreview (p_icon p) ++ dq "<div class=`dd-id-palette`><div class=`dd-id-emoji-row`>" ++ emojis ++
  dq "</div>" ++
  dq "<div class=`dd-field`><label class=`dd-btn dd-id-upload`>Upload image<input type=`file` id=`dd-id-image` accept=`image/*` hidden /></label>" ++
  removeImg ++
  dq "</div></div></div><div class=`dd-form-note`>Pick an emoji or upload a PNG, JPG, GIF, or WebP image, which is " ++
  dq "resized to a small 64 by 64 icon. Your buddy icon is sent inside your encrypted conversations. The server never " ++
  dq "stores it. People see it after you and they have connected once. A new contact sees a ghost until then. " ++
  dq "An emoji is small enough that the server cannot tell when you set one. An uploaded image is larger, so " ++
  dq "the server can tell when you publish a buddy icon. It still cannot read it.</div></div><div class=`dd-id-section`>" ++
  dq "<div class=`dd-fp-label`>profile</div>" ++
  renderRichEditor "dd-id-bio" (p_bio p) (plain_opts "a short profile others can read once you have a conversation" false) ++
  dq "<div class=`dd-form-note dd-specials`>Special characters: %n = whoever is viewing your profile · %d = the date · %t = the time</div>" ++
  dq "<div class=`dd-form-note`>Your profile is sent inside your encrypted conversations. The server never stores it. " ++
  dq "Only people you have a conversation with can see it. It shows who wrote it. It does not prove who they are, so " ++
  dq "confirm a contact key fingerprint through a channel you already trust.</div></div>" ++
  renderContactQr contactLink ++
  dq "<div class=`dd-field dd-form-actions`><button class=`dd-btn dd-btn-primary` data-action=`id-save`>Save</button> " ++
  dq "<button class=`dd-btn` data-action=`id-cancel`>Cancel</button></div></div>".

(** The library of saved away messages. *)
Definition away_picker (savedList : list string) (picked : option nat) : chars :=
  let options :=
    dq "<option value=`new`" ++ match picked with Some _ => [] | None => dq " selected" end ++
    dq ">＋ New away message</option>" ++
    concat (imap (fun i msg =>
      dq "<option value=`" ++ chars_of (pretty i) ++ dq "`" ++ (if bool_decide (picked = Some i) then dq " selected" else []) ++
      dq ">" ++ escapeHtml (awayPreview msg 26) ++ dq "</option>") savedList) in
  dq "<label class=`dd-fp-label` for=`dd-away-pick`>saved away messages</label><div class=`dd-field dd-away-pickrow`>" ++
  dq "<select id=`dd-away-pick` class=`dd-input dd-away-pick` aria-label=`saved away messages`>" ++ options ++
  dq "</select><button type=`button` class=`dd-btn dd-btn-danger dd-away-lib-del` data-action=`away-del-sel`" ++
  (if bool_decide (savedList = []) then dq " disabled" else []) ++
  dq " aria-label=`delete the selected away message`>Delete</button></div>" ++
  (if bool_decide (savedList = []) then
     dq "<div class=`dd-form-note`>No saved away messages yet. Write one below and Save to add it to your list.</div>"
   else []).

Definition renderAway (profile : IdentityProfile) (saved : bool) (picked : option nat) : chars :=
  let a := p_away profile in
  let editor :=
    renderRichEditor "dd-away-msg" (aw_message a) (plain_opts "I am away from my keyboard" true) ++
    dq "<div class=`dd-form-note dd-specials`>Special characters:" ++
    dq "<div class=`dd-specials-line`>%n = the person you are replying to</div>" ++
    dq "<div class=`dd-specials-line`>%d = the date</div><div class=`dd-specials-line`>%t = the time</div></div>" ++
    dq "<label class=`dd-id-check`><input type=`checkbox` id=`dd-away-server`" ++
    (if aw_serverSide a then dq " checked" else []) ++
    dq " /> Let the server reply while all my devices are offline</label>" ++
    dq "<div class=`dd-form-note`>Your away message is stored on this device. It is sent from your device as an " ++
    dq "encrypted reply when one of your devices is online. If every device is offline, it is sent the next time a " ++
    dq "device comes online. If you stay offline past seven days, or the server restarts, the reply is lost and the " ++
    dq "sender gets nothing. Server replies put your away message on the server and let the server tell when all your " ++
    dq "devices are offline. Leave server replies off to keep your offline status off the server.</div>" in
  dq "<div class=`dd-settings dd-id`><div class=`dd-form-title`>AWAY MESSAGE</div>" ++ saved_note saved ++
  away_picker (default [] (aw_saved a)) picked ++ editor ++
  dq "<div class=`dd-field dd-form-actions`><button class=`dd-btn dd-btn-primary` data-action=`away-save`>I'm Away</button> " ++
  dq "<button class=`dd-btn` data-action=`away-cancel`>Cancel</button></div></div>".

(** ** About a contact *)

Definition verify_title (t : string) : chars := dq "<div class=`dd-verify-title`>" ++ esc t ++ dq "</div>".

Definition renderVerifySection (peer : string) (v : BuddyVerifyInfo) (armed : bool) : chars :=
  let phrases :=
    dq "<div class=`dd-verify-pair`>" ++
    dq "<div class=`dd-verify-half`><div class=`dd-verify-label`>your words, read these out</div><div class=`dd-sas-words dd-verify-words`>" ++
    esc (vi_ourWords v) ++ dq "</div></div>" ++
    dq "<div class=`dd-verify-half`><div class=`dd-verify-label`>their words, they read these to you</div><div class=`dd-sas-words dd-verify-words`>" ++
    esc (vi_theirWords v) ++ dq "</div></div></div>" in
  let fps := dq "<div class=`dd-fp-label`>you " ++ esc (vi_ourFingerprint v) ++ dq " · them " ++
    esc (vi_peerFingerprint v) ++ dq "</div>" in
  match vi_state v with
  | PanelUnavailable =>
      dq "<div class=`dd-verify`>" ++ verify_title "Verify buddy" ++
      dq "<div class=`dd-form-note`>Nothing to compare yet. Open a conversation with this buddy first; " ++
      dq "the words appear once their account key is visible here.</div></div>"
  | Panel Stale =>
      dq "<div class=`dd-verify dd-verify-stale`>" ++ verify_title "Verified, but not checkable right now" ++
      dq "<div class=`dd-form-note`>You verified " ++ esc peer ++ dq " before, and that is still stored. " ++
      dq "This device cannot read their current account key at the moment, so it cannot confirm the key " ++
      dq "still matches. Open a one to one conversation with them to check again. Until then, treat this " ++
      dq "channel as unconfirmed.</div>" ++
      dq "<div class=`dd-field`><button class=`dd-btn` data-action=`verify-clear`>Forget verification</button></div></div>"
  | Panel Changed =>
      dq "<div class=`dd-verify dd-verify-changed`>" ++ verify_title "Identity changed" ++
      dq "<div class=`dd-verify-warn`>The account key is NOT the one you verified for " ++ esc peer ++
      dq ". That can mean they rebuilt their account, or that someone is in the middle. Confirm with them " ++
      dq "over a channel you already trust before saying anything private.</div>" ++ phrases ++ fps ++
      dq "<div class=`dd-field`><button class=`dd-btn dd-btn-danger` data-action=`verify-mark`>" ++
      (if armed then dq "Tap again to trust the new key" else dq "Verify the new key") ++
      dq "</button><button class=`dd-btn` data-action=`verify-clear`>Forget verification</button></div></div>"
  | Panel Verified =>
      dq "<div class=`dd-verify dd-verify-ok`>" ++ verify_title "Verified buddy" ++
      dq "<div class=`dd-form-note`>You compared the words and pinned this key. While this device can " ++
      dq "read their current key, a change is flagged here, in the buddy list, and in the conversation.</div>" ++
      phrases ++ fps ++
      dq "<div class=`dd-field`><button class=`dd-btn` data-action=`verify-clear`>Forget verification</button></div></div>"
  | PanelNone =>
      dq "<div class=`dd-verify`>" ++ verify_title "Verify buddy" ++ dq "<div class=`dd-form-note`>Call " ++ esc peer ++
      dq ", or stand next to them, and compare BOTH sets " ++
      dq "of words. Read yours out; they should see the same words under `their words` on their screen. " ++
      dq "Then have them read theirs, and check it against the second box here. Mark them verified only if " ++
      dq "both halves match. If either half differs, the channel is not safe.</div>" ++ phrases ++ fps ++
      dq "<div class=`dd-field`><button class=`dd-btn` data-action=`verify-mark`>Mark as Verified</button></div></div>"
  end.

Record PeerIdentity := MkPeerIdentity { pi_fingerprint : string; pi_icon : option BuddyIcon; pi_bio : string }.
Record InfoView := MkInfo {
  in_peer : string;
  in_peers : list PeerIdentity;
  in_presence : option string;
  in_away : option string;
  in_self : bool;
  in_verify : option BuddyVerifyInfo;
  in_verifyArm : bool
}.

Definition info_card (p : PeerIdentity) : chars :=
  let bio := if bool_decide (pi_bio p = "") then dq "<div class=`dd-form-sub`>no profile set</div>"
    else dq "<div class=`dd-gi-bio`>" ++ formatMessageText false (chars_of (pi_bio p)) ++ dq "</div>" in
  dq "<div class=`dd-gi-card`>" ++ renderIconPreview (pi_icon p) ++
  dq "<div class=`dd-gi-body`><div class=`dd-fp-label`>key " ++ esc (pi_fingerprint p) ++ dq "</div>" ++ bio ++
  dq "</div></div>".

Definition renderGetInfo (v : InfoView) : chars :=
  let cards := match in_peers v with
    | [] => dq "<div class=`dd-form-sub`>No buddy info yet. It appears after they connect and share it.</div>"
    | peers => peers ≫= info_card
    end in
  let status := match in_presence v with
    | Some p => dq "<div class=`dd-gi-status`>status: " ++ esc p ++ dq "</div>"
    | None => []
    end in
  let awayLine := match in_away v with
    | Some a => dq "<div class=`dd-gi-away`>away: " ++ formatMessageText false (chars_of a) ++ dq "</div>"
    | None => []
    end in
  dq "<div class=`dd-settings dd-gi`><div class=`dd-form-sub`>" ++ esc (in_peer v) ++ dq "</div>" ++ status ++
  awayLine ++ cards ++
  match in_verify v with
  | Some info => if in_self v then [] else renderVerifySection (in_peer v) info (in_verifyArm v)
  | None => []
  end ++
  (if in_self v then
     dq "<div class=`dd-form-note`>This is your own buddy info: your account key, your profile, and your " ++
     dq "live status on this device. Buddies see your profile when they look you up; whether they see your " ++
     dq "status follows your sharing settings. Edit it all from the Profile button on the buddy list.</div>"
   else
     dq "<div class=`dd-form-note`>This buddy info is written by the other person. It does not prove who they are. " ++
     dq "Confirm their key fingerprint through a channel you already trust before you rely on it.</div>") ++
  dq "<div class=`dd-field`><button class=`dd-btn` data-action=`getinfo-back`>Back</button></div></div>".

(** ** They are fragments *)

#[export] Instance bool_text_calm b : Calm (bool_text b).
Proof. unfold bool_text. exact _. Qed.
#[export] Instance presenceDotClass_calm status : Calm (presenceDotClass status).
Proof. unfold presenceDotClass. exact _. Qed.
#[export] Instance sel_class_calm b : Calm (sel_class b).
Proof. unfold sel_class. exact _. Qed.

#[export] Instance renderTreeBuddyIcon_frag icon u : Frag (renderTreeBuddyIcon icon u).
Proof. unfold renderTreeBuddyIcon. destruct (i_kind _); exact _. Qed.
#[export] Instance renderIconPreview_frag icon : Frag (renderIconPreview icon).
Proof. unfold renderIconPreview. destruct icon as [[[] v bg]|]; cbn [i_kind i_value i_bg]; cbv zeta; exact _. Qed.

#[export] Instance status_control_frag a : Frag (status_control a).
Proof. unfold status_control. cbv zeta. exact _. Qed.
#[export] Instance renderBuddyListHeader_frag p n : Frag (renderBuddyListHeader p n).
Proof. unfold renderBuddyListHeader. cbv zeta. exact _. Qed.

#[export] Instance renderTreeGroupHeader_frag name key count c : Frag (renderTreeGroupHeader name key count c).
Proof. unfold renderTreeGroupHeader. exact _. Qed.
#[export] Instance away_sub_frag status t : Frag (away_sub status t).
Proof. unfold away_sub. cbv zeta. exact _. Qed.
#[export] Instance verify_mark_frag v : Frag (verify_mark v).
Proof. destruct v as [[]|]; unfold verify_mark; exact _. Qed.
#[export] Instance renderTreeBuddyName_frag b st sel icon signal t v : Frag (renderTreeBuddyName b st sel icon signal t v).
Proof.
  unfold renderTreeBuddyName. pose proof (away_sub_frag st t) as Hsub. set (sub := away_sub st t) in *. clearbody sub.
  destruct signal as [[]|]; cbv zeta; exact _.
Qed.
#[export] Instance renderBuddyToolbar_frag n : Frag (renderBuddyToolbar n).
Proof. unfold renderBuddyToolbar. cbv zeta. exact _. Qed.
#[export] Instance renderBuddyToggles_frag a b : Frag (renderBuddyToggles a b).
Proof. unfold renderBuddyToggles. exact _. Qed.
#[export] Instance form_error_frag e : Frag (form_error e).
Proof. unfold form_error. exact _. Qed.

#[export] Instance renderBuddyScan_frag : Frag renderBuddyScan.
Proof. unfold renderBuddyScan. exact _. Qed.
#[export] Instance renderAddPerson_frag e : Frag (renderAddPerson e).
Proof. unfold renderAddPerson. exact _. Qed.
#[export] Instance saved_note_frag b : Frag (saved_note b).
Proof. unfold saved_note. exact _. Qed.
#[export] Instance away_picker_frag l p : Frag (away_picker l p).
Proof. unfold away_picker. cbv zeta. exact _. Qed.
#[export] Instance renderAway_frag p b i : Frag (renderAway p b i).
Proof. unfold renderAway. cbv zeta. exact _. Qed.
#[export] Instance verify_title_frag t : Frag (verify_title t).
Proof. unfold verify_title. exact _. Qed.
#[export] Instance renderVerifySection_frag peer v b : Frag (renderVerifySection peer v b).
Proof. unfold renderVerifySection. cbv zeta. destruct (vi_state v) as [| |[]]; exact _. Qed.
#[export] Instance info_card_frag p : Frag (info_card p).
Proof. unfold info_card. cbv zeta. exact _. Qed.
#[export] Instance renderGetInfo_frag v : Frag (renderGetInfo v).
Proof. unfold renderGetInfo. cbv zeta. destruct (in_peers v); exact _. Qed.

(** *** The picture of a code *)

Lemma qr_path_calm {A B} (f : string -> A -> B -> string) (la : list A) (lb : list B) acc :
  (forall p a b, Calm (chars_of p) -> Calm (chars_of (f p a b))) -> Calm (chars_of acc) ->
  Calm (chars_of (foldl (fun p a => foldl (fun p b => f p a b) p lb) acc la)).
Proof.
  intros Hf. revert acc. induction la as [|a la IH]; intros acc Ha; [done|]. cbn [foldl]. apply IH.
  revert acc Ha. clear IH. induction lb as [|b lb IHb]; intros acc Ha; [done|]. cbn [foldl]. by apply IHb, Hf.
Qed.

Lemma chars_of_app a b : chars_of (a +:+ b) = chars_of a ++ chars_of b.
Proof. induction a as [|c a IH]; [done|]. exact (f_equal (cons c) IH). Qed.

Lemma attr_chars n v : chars_of (Qr.attr n v) = chars_of n ++ dq "=`" ++ chars_of v ++ dq "`".
Proof.
  unfold Qr.attr, quoted. rewrite !chars_of_app. f_equal. change (chars_of "=" ++ chars_of (String "034" (v +:+ String "034" "")) = dq "=`" ++ chars_of v ++ dq "`").
  exact (f_equal (fun l => "="%char :: double_quote :: l) (chars_of_app v (String "034" ""))). 
Qed.
(** The text of a string that is put together with [+:+]. *)
Ltac split_append :=
  repeat match goal with
  | |- context [chars_of (String.append ?a ?b)] => rewrite (chars_of_app a b)
  | |- context [chars_of (Qr.attr ?n ?v)] => rewrite (attr_chars n v)
  end.

#[export] Instance qr_or_nothing_frag t px : Frag (qr_or_nothing t px).
Proof.
  unfold qr_or_nothing, Qr.qrSvg. destruct (Qr.qrMatrix t) as [[modules size]|]; [|exact _]. cbv beta iota zeta delta [rbind].
  match goal with |- context [foldl ?f ?a ?l] => set (path := foldl f a l) end. assert (Hp : Calm (chars_of path)).
  { apply qr_path_calm; [|exact _]. intros p a b Hp. destruct (default _ _); [|done].
    split_append. exact _. }
  clearbody path. split_append. exact _.
Qed.

#[export] Instance renderBuddyQr_frag link : Frag (renderBuddyQr link).
Proof. unfold renderBuddyQr. cbv zeta. exact _. Qed.
#[export] Instance renderContactQr_frag link : Frag (renderContactQr link).
Proof. unfold renderContactQr. cbv zeta. exact _. Qed.
#[export] Instance renderIdentity_frag p e b link : Frag (renderIdentity p e b link).
Proof. unfold renderIdentity. cbv zeta. destruct (p_icon p) as [[[] v bg]|]; exact _. Qed.

(** *** The two screens of the list *)

Section tree.
Context `{LocaleCompare}.

#[export] Instance tree_folder_frag v f : Frag (tree_folder v f).
Proof. unfold tree_folder, tree_row. destruct f as [g members]. cbv zeta. exact _. Qed.
#[export] Instance blocked_node_frag v : Frag (blocked_node v).
Proof. unfold blocked_node. cbv zeta. exact _. Qed.
#[export] Instance renderBuddies_frag v : Frag (renderBuddies v).
Proof. unfold renderBuddies. cbv zeta. exact _. Qed.

#[export] Instance setup_row_frag v order b : Frag (setup_row v order b).
Proof. unfold setup_row. cbv zeta. exact _. Qed.
#[export] Instance setup_folder_frag v order g : Frag (setup_folder v order g).
Proof. unfold setup_folder. cbv zeta. exact _. Qed.
#[export] Instance setup_blocked_row_frag v b : Frag (setup_blocked_row v b).
Proof. unfold setup_blocked_row. cbv zeta. exact _. Qed.
#[export] Instance setup_blocked_frag v : Frag (setup_blocked v).
Proof. unfold setup_blocked. cbv zeta. exact _. Qed.
#[export] Instance setup_controls_frag groups sel : Frag (setup_controls groups sel).
Proof. unfold setup_controls. exact _. Qed.
#[export] Instance renderBuddySetup_frag v : Frag (renderBuddySetup v).
Proof. unfold renderBuddySetup. cbv zeta. exact _. Qed.
End tree.

End ViewsBuddies.
