(* ===== verification/ViewsForms.v ===== *)
(** * The forms and settings as markup (client/src/app.ts, lines 1685-1863, 1904-2088, 2670-2839, 3635-3868)

    The landing page, the appearance preferences, the device keys, self destruct, the recovery secret, the
    wizard for a new device, the ceremony that adds one and the key exchange.  The conventions are those of
    ViewsChat.v; the calendar date of a time is given by the run. *)

From stdpp Require Import pretty.
From S2P Require Import Prelude PairingWire Qr Auth GroupChannel RichText RichTextFacts Html ViewsChat BuddySetup ViewsBuddies.

Module ViewsForms.
Import RichText Html ViewsChat ViewsBuddies.

(** ** The landing page *)

Definition RELEASES : chars := dq "https://github.com/tertiaopt-io/d3addr0p/releases".

Definition DOWNLOAD_MAC : chars := RELEASES ++ dq "/latest/download/DEAD-DROP-mac-arm64.zip".

Definition DOWNLOAD_WIN : chars := RELEASES ++ dq "/latest/download/DEAD-DROP-win-x64.zip".

Definition renderProjectAttribution : chars :=
  dq "<div class=`dd-form-note dd-attrib`>a " ++
  dq "<a class=`dd-extlink` href=`https://tertiaopt.io` target=`_blank` rel=`noopener noreferrer`>tertiaopt.io</a>" ++
  dq " project</div>".

Definition renderPitch : chars :=
  dq "<div class=`dd-pitch`><div class=`dd-pitch-lead`>A messenger that lets you be gone.</div>" ++
  dq "<p class=`dd-pitch-p`>There was a decade when being online was somewhere you went. You sat down, " ++
  dq "you signed on, a door opened somewhere and your name appeared on other people’s screens. When " ++
  dq "you left you said so, in your own words, and the away message stood in for you while you were " ++
  dq "living the rest of your life. Everyone understood the difference between a person who was there " ++
  dq "and a person who was not.</p>" ++
  dq "<p class=`dd-pitch-p`>Phones dissolved that line. Delivered turned into read, read turned into " ++
  dq "why the silence, and presence stopped being something you announced and became something your " ++
  dq "device leaked on your behalf, everywhere, always. The away message had nothing left to do.</p>" ++
  dq "<p class=`dd-pitch-p`>DEAD DROP is built for the older arrangement. It runs on computers you sit " ++
  dq "down at, and it ships no mobile client on purpose. Your buddy list is a room you enter rather " ++
  dq "than a feed that follows you, your away message is a real statement again, and closing the " ++
  dq "window is a way of being unreachable that nobody has to interpret. Messages are end to end " ++
  dq "encrypted and can be built to expire, because being gone should apply to what you said as well " ++
  dq "as to where you are.</p></div>".

Definition renderComparison : chars :=
  let row := fun feature dd sig : string =>
      dq "<tr><th scope=`row`>" ++ esc feature ++ dq "</th><td data-col=`DEAD DROP`>" ++ esc dd ++
      dq "</td><td data-col=`Signal`>" ++ esc sig ++ dq "</td></tr>" in
  dq "<div class=`dd-compare`><div class=`dd-compare-title`>How the two are built</div><table class=`dd-compare-table`>" ++
  dq "<thead><tr><td></td><th scope=`col`>DEAD DROP</th><th scope=`col`>Signal</th></tr></thead><tbody>" ++
  row "Protocol"
    "MLS (RFC 9420). One group ratchet over a tree of members, so a group of any size shares one key schedule."
    "The Signal Protocol. A Double Ratchet per pair of devices, fanned out to the group." ++
  row "Adding a device"
    "The group re-keys as a membership change, so a new device is admitted by the group and cannot read what came before."
    "A linked device is added to your account and pairs with each conversation." ++
  row "After a key is stolen"
    "The next commit rotates the group key, so an attacker who stops receiving loses the thread. This is the property MLS is designed for."
    "The ratchet heals as soon as both sides exchange again, per conversation." ++
  row "Group size cost"
    "One commit re-keys the whole group, so cost grows with the log of the membership."
    "A copy per recipient device, so cost grows with the membership." ++
  row "What the server sees"
    "Ciphertext padded into fixed size buckets, delivered to per epoch mailboxes that rotate. It still sees when you connect."
    "Sealed sender hides who sent a message, plus a much larger crowd to hide in." ++
  row "Once a message is read"
    "Each message carries its own life: burn on read, a timer, or until you revoke it. Revoking destroys the stored copy on every device of everyone in the group."
    "One disappearing timer for the whole conversation, and a delete for everyone that asks clients to remove it." ++
  row "Where the keys live"
    "On your devices, in a store encrypted by your passphrase. There is no recovery."
    "On your devices, with an encrypted backup you can restore from." ++
  row "Signing up"
    "A username you choose. No phone number and no email."
    "A phone number." ++
  row "Who runs the server"
    "You can. It is one small self-hosted service."
    "Signal runs it for everyone." ++
  row "Confirming a contact"
    "A six word phrase per buddy, compared in person or over a call, pinned to their account key. First contact is still taken on trust until you compare."
    "Safety numbers you compare in person or over a channel you already trust." ++
  row "Independent audit"
    "None. This is a young project."
    "Audited, and the protocol is widely reviewed." ++
  dq "</tbody></table><div class=`dd-compare-note`>The honest summary: Signal has the reviewed protocol, the audits, " ++
  dq "the sealed sender, the recovery path, and the crowd, and for almost everyone it is the right " ++
  dq "answer. This project is for people who want an account with no phone number, a server they " ++
  dq "control, message lifetimes decided one message at a time, and a client that stays on the desk, " ++
  dq "and who accept a young unaudited build in exchange.</div></div>".

Definition renderDownloads : chars :=
  dq "<div class=`dd-downloads`><div class=`dd-downloads-title`>Desktop app</div><div class=`dd-downloads-row`>" ++
  dq "<a class=`dd-btn dd-dl` href=`" ++ DOWNLOAD_MAC ++
  dq "` target=`_blank` rel=`noopener noreferrer`>macOS (Apple silicon)</a><a class=`dd-btn dd-dl` href=`" ++
  DOWNLOAD_WIN ++ dq "` target=`_blank` rel=`noopener noreferrer`>Windows (64 bit)</a></div>" ++
  dq "<div class=`dd-form-note`>Downloads come from the project releases on GitHub. The builds are " ++
  dq "unsigned, so your system will ask you to confirm the first launch. They open the same account as " ++
  dq "the web app and onboard as a new device.</div></div>".

Definition renderUnlock (isNativeShell : bool) (error : option string) (register : bool) (prefillUser : option string) : chars :=
  let err := form_error error in
  let userValue := match prefillUser with
    | Some u => if bool_decide (u = "") then [] else dq " value=`" ++ esc u ++ dq "`"
    | None => []
    end in
  let note := dq "<div class=`dd-form-note`>Account recovery is impossible. Nobody can reset your login, and if " ++
    dq "you lose your username or your passphrase, the account and every message in it are gone for " ++
    dq "good. Write down both your username and passphrase now and keep them somewhere only you can reach.</div>" in
  if register then
    dq "<form class=`dd-form` id=`dd-unlock-form` data-mode=`register` autocomplete=`off`>" ++ renderLogoHero ++
    dq "<div class=`dd-form-sub`>choose a username and passphrase to create your account</div><div class=`dd-stack`>" ++
    dq "<input class=`dd-input` id=`dd-user` type=`text` placeholder=`choose a username` aria-label=`username` autocomplete=`off` autocapitalize=`none` spellcheck=`false` />" ++
    dq "<input class=`dd-input` id=`dd-pass` type=`password` placeholder=`choose a passphrase` aria-label=`passphrase` />" ++
    dq "<input class=`dd-input` id=`dd-pass2` type=`password` placeholder=`repeat passphrase` aria-label=`repeat passphrase` />" ++
    dq "<button class=`dd-btn dd-btn-primary` type=`submit`>Create account</button></div>" ++ err ++
    dq "<div class=`dd-form-note`>Usernames are unique. If the name you choose is already taken you " ++
    dq "will be asked to pick another.</div>" ++ note ++
    dq "<button class=`dd-link` type=`button` data-action=`to-login`>Already have an account? Log in</button>" ++
    renderProjectAttribution ++ dq "</form>"
  else
  let sub := if negb (bool_decide (userValue = [])) then []
    else dq "enter your username and passphrase to open your channels" in
  dq "<form class=`dd-form` id=`dd-unlock-form` data-mode=`login` autocomplete=`off`>" ++ renderLogoHero ++
  (if negb (bool_decide (sub = [])) then dq "<div class=`dd-form-sub`>" ++ sub ++ dq "</div>" else []) ++
  dq "<div class=`dd-stack`>" ++
  dq "<input class=`dd-input` id=`dd-user` type=`text` placeholder=`username` aria-label=`username` autocomplete=`off` autocapitalize=`none` spellcheck=`false`" ++
  userValue ++
  dq " /><input class=`dd-input` id=`dd-pass` type=`password` placeholder=`passphrase` aria-label=`passphrase` />" ++
  dq "<button class=`dd-btn dd-btn-primary` type=`submit`>Unlock</button></div>" ++ err ++ note ++
  dq "<button class=`dd-link` type=`button` data-action=`to-register`>New here? Create an account</button>" ++
  renderProjectAttribution ++
  (if isNativeShell then [] else renderPitch ++ renderDownloads ++ renderComparison) ++ dq "</form>".

(** ** Device keys and the account *)

Definition renderSelfDestruct (error : option string) : chars :=
  let err := form_error error in
  dq "<form class=`dd-form` id=`dd-destruct-form` autocomplete=`off`>" ++
  dq "<div class=`dd-form-title`>☠️ SELF DESTRUCT ☠️</div>" ++
  dq "<div class=`dd-form-sub`>this permanently erases your account and everything in it</div>" ++
  dq "<div class=`dd-form-note`>Your account, all of your devices, and all of your data are deleted from " ++
  dq "the server, and this device is wiped clean. This cannot be undone, and nobody can bring any of it " ++
  dq "back. Your other devices lose access too. Enter your passphrase twice to confirm.</div><div class=`dd-stack`>" ++
  dq "<input class=`dd-input` id=`dd-destruct-pass` type=`password` placeholder=`passphrase` aria-label=`passphrase` />" ++
  dq "<input class=`dd-input` id=`dd-destruct-pass2` type=`password` placeholder=`passphrase again` aria-label=`repeat passphrase` />" ++
  dq "<button class=`dd-btn dd-btn-danger` type=`submit`>Erase everything</button> " ++
  dq "<button class=`dd-btn` type=`button` data-action=`destruct-cancel`>Cancel</button></div>" ++ err ++
  dq "</form>".

Definition renderRevokeSelf (deviceId : string) (error : option string) : chars :=
  let err := form_error error in
  dq "<div class=`dd-form`><div class=`dd-form-title`>REVOKE THIS DEVICE</div>" ++
  dq "<div class=`dd-form-sub`>you are about to revoke the device you are using right now</div>" ++
  dq "<div class=`dd-form-note`>This signs you out here and burns this device's key, so it can no longer " ++
  dq "reach your account. To use this device again you would re-add it from another device or with your " ++
  dq "recovery secret. Your account and your other devices keep working. This cannot be undone.</div>" ++
  dq "<div class=`dd-field`><button class=`dd-btn dd-btn-danger` data-action=`revokeself-confirm` data-device=`" ++
  esc deviceId ++
  dq "`>Revoke this device</button> <button class=`dd-btn` data-action=`revokeself-cancel`>Cancel</button></div>" ++
  err ++ dq "</div>".

Definition renderRecovery (secret : string) : chars :=
  let note := dq "<div class=`dd-form-note`>This is the only key to your account. It never reaches the server. " ++
    dq "Keep it somewhere safe and offline. If you lose every device you are signed in on and you do not " ++
    dq "have this, your account cannot be recovered. Anyone who has it can add a device to your account.</div>" in
  dq "<div class=`dd-form`><div class=`dd-form-title`>RECOVERY SECRET</div>" ++
  dq "<div class=`dd-form-sub`>Write this down before you continue. You will see it only once.</div>" ++
  dq "<div class=`dd-fingerprint dd-recovery-secret`>" ++ esc secret ++ dq "</div>" ++ note ++
  dq "<div class=`dd-field`><button class=`dd-btn dd-btn-primary` data-action=`recovery-continue`>I saved it, continue</button></div>" ++
  dq "</div>".

Definition renderRecoverEntry (error : option string) : chars :=
  let err := form_error error in
  dq "<div class=`dd-form`><div class=`dd-form-title`>USE RECOVERY SECRET</div>" ++
  dq "<div class=`dd-form-sub`>Enter the recovery secret you saved when you created the account. It stays on this device.</div>" ++
  dq "<textarea class=`dd-input dd-contact` id=`dd-recovery-input` rows=`2` aria-label=`recovery secret` placeholder=`your recovery secret` autocapitalize=`none` spellcheck=`false`></textarea>" ++
  err ++ dq "<div class=`dd-field`>" ++
  dq "<button class=`dd-btn dd-btn-primary` data-action=`recover-submit`>Connect this device</button> " ++
  dq "<button class=`dd-btn` data-action=`recover-cancel`>Cancel</button></div></div>".

Definition renderHistoryToggle (on : bool) (armed : bool) : chars :=
  let state := if on then
      dq "<div class=`dd-verify-title`>Messages are not being saved</div>" ++
      dq "<div class=`dd-form-note`>This device keeps messages in memory only. They are gone when you sign " ++
      dq "out, reload, or close the app, and nothing about them is written to disk. Your account, your " ++
      dq "buddy list and your conversations themselves are still saved, so you stay reachable.</div>" ++
      dq "<div class=`dd-field`><button class=`dd-btn` data-action=`history-on`>Start saving messages again</button></div>"
    else
      dq "<div class=`dd-verify-title`>Message history</div>" ++
      dq "<div class=`dd-form-note`>Messages you send and receive are saved on this device, encrypted under " ++
      dq "your passphrase, until their lifetimes end. Turn that off to keep them in memory only for as long " ++
      dq "as the app is open.</div><div class=`dd-field`><button class=`dd-btn" ++
      (if armed then dq " dd-btn-danger" else []) ++ dq "` data-action=`history-off`>" ++
      (if armed then dq "Tap again: this erases the messages stored here" else dq "Stop saving messages") ++
      dq "</button></div>" in
  dq "<div class=`dd-verify" ++ (if on then dq " dd-verify-ok" else []) ++ dq "`>" ++ state ++ dq "</div>".

Definition deviceFp (hex : string) : string :=
  String.concat "·" ((fun i => GroupChannel.toUpperCase (String.substring i 2 hex)) <$> [0; 2; 4; 6]%nat).

Section dates.
(** [new Date(ms)] in the calendar of the user. *)
Context (local_date : Z -> LocalTime).

Definition shortDate (unixSeconds : Z) : chars :=
  if unixSeconds <=? 0 then chars_of "unknown"
  else
  let d := local_date (unixSeconds * 1000) in
  Z_chars (getFullYear d) ++ chars_of "-" ++ pad2 (getMonth d + 1) ++ chars_of "-" ++ pad2 (getDate d).

Definition device_action (d : Auth.DeviceInfo) (isCurrent hasOtherAuthorized : bool) (pending : option string) : chars :=
  let id := Auth.deviceId d in
  if Auth.revoked d then dq "<span class=`dd-channel-meta`>revoked</span>"
  else if isCurrent && negb hasOtherAuthorized then
    dq "<span class=`dd-channel-meta`>signed in here · your only device. Use Self Destruct to remove your account.</span>"
  else if bool_decide (pending = Some id) then
    dq "<span class=`dd-confirm`>Revoke this device? " ++
    dq "<button class=`dd-btn dd-btn-danger` data-action=`revoke-confirm` data-device=`" ++ esc id ++
    dq "`>Revoke</button> <button class=`dd-btn` data-action=`revoke-cancel`>Cancel</button></span>"
  else
    dq "<button class=`dd-btn` data-action=`revoke-device` data-device=`" ++ esc id ++ dq "`>" ++
    (if isCurrent then dq "Revoke this device" else dq "Revoke") ++ dq "</button>".

Definition renderDeviceRow (d : Auth.DeviceInfo) (currentDeviceKey : string) (hasOtherAuthorized : bool)
    (pending : option string) : chars :=
  let isCurrent := bool_decide (Auth.deviceKey d = currentDeviceKey) in
  let status := if Auth.revoked d then dq "blocked" else if isCurrent then dq "secure" else dq "pending" in
  let pill := if isCurrent then dq "<span class=`dd-badge`>THIS DEVICE</span>" else [] in
  let state := if Auth.revoked d then dq "revoked" else dq "active" in
  dq "<div class=`dd-channel` data-status=`" ++ status ++
  dq "`><div class=`dd-channel-top`><span class=`dd-status-dot dd-status-" ++ status ++
  dq "`></span><span class=`dd-channel-name`>key " ++ esc (deviceFp (Auth.deviceKey d)) ++ dq "</span>" ++ pill ++
  dq "</div><div class=`dd-channel-meta`>added " ++ escapeHtml (shortDate (Auth.addedAt d)) ++ dq " · last seen " ++
  escapeHtml (shortDate (Auth.lastSeenAt d)) ++ dq " · " ++ state ++ dq "</div><div class=`dd-device-actions`>" ++
  device_action d isCurrent hasOtherAuthorized pending ++ dq "</div></div>".

(** Whether this device may be revoked: another one that is authorized stays. *)
Definition has_other_authorized (devices : list Auth.DeviceInfo) (currentDeviceKey : string) : bool :=
  let activeCount := length (List.filter (fun d => negb (Auth.revoked d)) devices) in
  if existsb Auth.authorized devices
  then existsb (fun d => negb (Auth.revoked d) && Auth.authorized d && negb (bool_decide (Auth.deviceKey d = currentDeviceKey))) devices
  else (1 <? activeCount)%nat.

Definition settings_actions : chars :=
  dq "<div class=`dd-field`><button class=`dd-btn dd-btn-primary` data-action=`scan-device`>Scan a device</button> " ++
  dq "<button class=`dd-btn dd-btn-primary` data-action=`show-device-qr`>Show this device</button></div>" ++
  dq "<div class=`dd-field`><button class=`dd-btn` data-action=`add-device`>Add a device (six words)</button> " ++
  dq "<button class=`dd-btn` data-action=`connect-this-device`>Connect this device (six words)</button> " ++
  dq "<button class=`dd-btn` data-action=`use-recovery`>Use recovery secret</button></div>" ++
  dq "<div class=`dd-form-note`>To add another device with a QR: on the device you already use choose Scan " ++
  dq "a device, on the new one choose Show this device, then point the first camera at the second code. If " ++
  dq "a camera is not available, use the six-word options instead. On a device that has your recovery " ++
  dq "secret, choose Use recovery secret.</div>".

Record SettingsView := MkSettings {
  se_devices : list Auth.DeviceInfo;
  se_currentDeviceKey : string;
  se_pending : option string;
  se_error : option string;
  se_historyOff : bool;
  se_historyArm : bool
}.

Definition renderSettings (v : SettingsView) : chars :=
  let devices := se_devices v in
  let err := form_error (se_error v) in
  let back := dq "<div class=`dd-field dd-form-actions`><button class=`dd-btn` data-action=`settings-back`>Back</button></div>" in
  if bool_decide (length devices = O) then
    dq "<div class=`dd-form`>" ++ err ++ dq "<div class=`dd-form-sub`>no devices to show</div>" ++
    dq "<div class=`dd-field dd-form-actions`><button class=`dd-btn dd-btn-primary` data-action=`devices-retry`>Retry</button></div>" ++
    back ++ dq "</div>"
  else
  let rows := List.filter (fun d => negb (Auth.revoked d)) devices ≫= (fun d =>
    renderDeviceRow d (se_currentDeviceKey v) (has_other_authorized devices (se_currentDeviceKey v)) (se_pending v)) in
  let note := dq "<div class=`dd-form-note`>Revoking a device removes its key from your directory so peers stop " ++
    dq "addressing new messages to it, and stops it from signing in again. It cannot reach into a device " ++
    dq "that already holds your messages or erase them, and it does not wipe the device.</div>" in
  dq "<div class=`dd-settings`>" ++ err ++ renderHistoryToggle (se_historyOff v) (se_historyArm v) ++
  settings_actions ++ dq "<div class=`dd-list`>" ++ rows ++ dq "</div>" ++ note ++ back ++ dq "</div>".
End dates.

(** ** A device joins the account *)

Record NewDeviceWizardView := MkWizard { wz_deadend : bool; wz_connected : bool; wz_error : option string }.

Definition renderNewDeviceWizard (s : NewDeviceWizardView) : chars :=
  let err := form_error (wz_error s) in
  if wz_deadend s then
    dq "<div class=`dd-form`><div class=`dd-form-title`>CANNOT CONNECT THIS DEVICE</div>" ++
    dq "<div class=`dd-form-sub`>To read your messages here you need another device you are already signed " ++
    dq "in on, or the recovery secret you saved when you created the account. Without one of those, this " ++
    dq "device cannot reach your account.</div>" ++
    dq "<div class=`dd-form-note`>Sign in on a device you already use, then approve this one from its " ++
    dq "Device keys (in the DEAD DROP menu on the buddy list). Or come back here with your recovery secret.</div>" ++
    err ++ dq "<div class=`dd-field`><button class=`dd-btn` data-action=`wizard-back`>Back</button> " ++
    dq "<button class=`dd-btn dd-btn-danger` data-action=`wizard-signout`>Sign out of this device</button></div>" ++
    dq "<div class=`dd-form-note`>Signing out removes this account from this device and leaves no copy " ++
    dq "behind. Your messages and your account are untouched.</div></div>"
  else
  if negb (wz_connected s) then
    dq "<div class=`dd-form`><div class=`dd-form-title`>CONNECT THIS DEVICE</div>" ++
    dq "<div class=`dd-form-sub`>This device could not reach the server. Check your connection and try again.</div>" ++
    err ++
    dq "<div class=`dd-field`><button class=`dd-btn dd-btn-primary` data-action=`wizard-retry`>Try again</button> " ++
    dq "<button class=`dd-btn` data-action=`wizard-deadend`>More options</button></div></div>"
  else
  dq "<div class=`dd-form`><div class=`dd-form-title`>CONNECT THIS DEVICE</div>" ++
  dq "<div class=`dd-form-sub`>You are signed in, but this device is not yet allowed to read your messages. " ++
  dq "Choose one way to connect it.</div>" ++ err ++ dq "<div class=`dd-field`>" ++
  dq "<button class=`dd-btn dd-btn-primary` data-action=`wizard-provision`>Connect with six words</button></div>" ++
  dq "<div class=`dd-form-note`>On a device where you are already signed in, open the DEAD DROP menu on the " ++
  dq "buddy list, choose Device keys, then Add a device. Both devices show six words. Confirm they match.</div>" ++
  dq "<div class=`dd-field`><button class=`dd-btn` data-action=`show-device-qr`>Show a code to scan</button></div>" ++
  dq "<div class=`dd-form-note`>This device shows a QR code. On the device you are already signed in on, open " ++
  dq "the DEAD DROP menu, choose Device keys, then Scan a device, and point its camera at this code.</div>" ++
  dq "<div class=`dd-field`><button class=`dd-btn` data-action=`wizard-recover`>Use your recovery secret</button></div>" ++
  dq "<div class=`dd-form-note`>Enter the 64-character recovery secret you saved when you created the " ++
  dq "account. It stays on this device and never reaches the server.</div>" ++
  dq "<div class=`dd-form-note`>Once connected, this device receives your messages from here on. Messages " ++
  dq "from before are kept only on the device that received them.</div><div class=`dd-field`>" ++
  dq "<button class=`dd-btn` data-action=`wizard-deadend`>I do not have either</button></div></div>".

Inductive prov_step := StepOpening | StepWaiting | StepCompare | StepDone | StepError | StepScanning | StepShowQr | StepQrExpired.
Record ProvisioningView := MkProvView {
  pv_seedholder : bool;  (* or a new device *)
  pv_step : prov_step;
  pv_words : option string;
  pv_error : option string;
  pv_qr : option string
}.

Definition prov_body (s : ProvisioningView) : chars :=
  let title := if pv_seedholder s then dq "ADD A DEVICE" else dq "CONNECT THIS DEVICE" in
  let wait :=
    let waitMsg := if pv_seedholder s
      then "Waiting for the device you are adding. On it, choose Connect with six words."
      else "Waiting for your other device. On it, open the DEAD DROP menu on the buddy list, choose Device keys, then Add a device." in
    dq "<div class=`dd-form-sub`>" ++ esc waitMsg ++
    dq "</div><div class=`dd-field`><button class=`dd-btn` data-action=`prov-cancel`>Cancel</button></div>" in
  let body := match pv_step s, pv_words s with
    | StepCompare, Some words =>
        let guide := if pv_seedholder s
          then "Check that the same six words show on the device you are adding. If they match, confirm here."
          else "Check that the same six words show on your other device, then confirm there." in
        let confirm := if pv_seedholder s
          then dq "<button class=`dd-btn dd-btn-primary` data-action=`prov-confirm`>The words match</button> " else [] in
        dq "<div class=`dd-form-sub`>" ++ esc guide ++ dq "</div><div class=`dd-fingerprint dd-sas-words`>" ++
        esc words ++ dq "</div><div class=`dd-field`>" ++ confirm ++
        dq "<button class=`dd-btn` data-action=`prov-cancel`>Cancel</button></div>"
    | _, _ => wait
    end in
  dq "<div class=`dd-form`><div class=`dd-form-title`>" ++ title ++ dq "</div>" ++ body ++ dq "</div>".

Definition renderProvisioning (s : ProvisioningView) : chars :=
  match pv_step s with
  | StepError =>
      dq "<div class=`dd-form`><div class=`dd-form-title`>ADD A DEVICE</div><div class=`dd-form-error`>" ++
      esc (default "something went wrong" (pv_error s)) ++
      dq "</div><div class=`dd-field`><button class=`dd-btn` data-action=`prov-done`>Back</button></div></div>"
  | StepDone =>
      let msg := if pv_seedholder s then "Your other device is now part of your account."
        else "This device is now part of your account. It will receive your messages." in
      dq "<div class=`dd-form`><div class=`dd-form-title`>DEVICE CONNECTED</div><div class=`dd-form-sub`>" ++
      esc msg ++ dq "</div>" ++
      dq "<div class=`dd-field`><button class=`dd-btn dd-btn-primary` data-action=`prov-done`>Done</button></div></div>"
  | StepShowQr =>
      let qr := match pv_qr s with
        | Some t => if bool_decide (t = "") then [] else qr_or_nothing t 240
        | None => []
        end in
      let inner := if bool_decide (qr = []) then
          dq "<div class=`dd-form-error`>Could not build a code on this device. Use Connect this device and " ++
          dq "compare the six words instead.</div>"
        else
          dq "<div class=`dd-scan`><div class=`dd-qr`>" ++ qr ++
          dq "</div></div><div class=`dd-form-sub`>On your other device, open Device keys and choose Scan a device, " ++
          dq "then point its camera at this code. Only show this to your own device, it links whatever camera reads it.</div>" in
      dq "<div class=`dd-form`><div class=`dd-form-title`>SHOW THIS CODE</div>" ++ inner ++
      dq "<div class=`dd-field`><button class=`dd-btn` data-action=`prov-cancel`>Cancel</button></div></div>"
  | StepQrExpired =>
      dq "<div class=`dd-form`><div class=`dd-form-title`>SHOW THIS CODE</div>" ++
      dq "<div class=`dd-form-error`>The code expired before your other device scanned it.</div>" ++
      dq "<div class=`dd-field`><button class=`dd-btn dd-btn-primary` data-action=`show-device-qr`>Show a new code</button> " ++
      dq "<button class=`dd-btn` data-action=`prov-cancel`>Back</button></div></div>"
  | StepScanning =>
      dq "<div class=`dd-form`><div class=`dd-form-title`>SCAN A DEVICE</div>" ++
      dq "<div class=`dd-scan`><video id=`dd-scan-video` class=`dd-scan-video` autoplay playsinline muted></video>" ++
      dq "<canvas id=`dd-scan-canvas` class=`dd-scan-canvas`></canvas></div>" ++
      dq "<div class=`dd-form-sub`>Point this camera at the code on the device you are adding. It shows the " ++
      dq "code under Device keys, Show this device. Only scan a code shown by a device you control: it adds " ++
      dq "whichever device shows the code.</div>" ++
      dq "<div class=`dd-field`><button class=`dd-btn` data-action=`prov-cancel`>Cancel</button></div></div>"
  | StepOpening | StepWaiting | StepCompare => prov_body s
  end.

(** ** The key exchange *)

Record KeyExchangeState := MkExchange {
  kx_incoming : bool;  (* or started here *)
  kx_conversationId : string;
  kx_selfFingerprint : string;
  kx_peer : option string;
  kx_peerFingerprint : option string;
  kx_selfContact : option string;
  kx_byUsername : bool;
  kx_selfUsername : option string;
  kx_peerUsername : option string;
  kx_error : option string
}.

Definition contact_block (s : KeyExchangeState) : chars :=
  if kx_incoming s then []
  else if kx_byUsername s then
    dq "<div class=`dd-fp-label`>your username</div><div class=`dd-fingerprint`>" ++
    esc (default "" (kx_selfUsername s)) ++ dq "</div><div class=`dd-fp-label`>their username</div>" ++
    dq "<input class=`dd-input` id=`dd-peer-username` aria-label=`their username` placeholder=`the username your peer chose` value=`" ++
    esc (default "" (kx_peerUsername s)) ++ dq "` autocapitalize=`none` spellcheck=`false` />"
  else match kx_selfContact s with
  | Some c =>
      dq "<div class=`dd-fp-label`>your contact</div>" ++
      dq "<textarea class=`dd-input dd-contact` id=`dd-self-contact` rows=`2` readonly aria-label=`your contact`>" ++
      esc c ++ dq "</textarea><div class=`dd-fp-label`>paste their contact</div>" ++
      dq "<input class=`dd-input` id=`dd-peer-contact` aria-label=`their contact` placeholder=`paste the contact your peer shared` />"
  | None => []
  end.

Definition renderKeyExchange (s : KeyExchangeState) : chars :=
  let incoming := kx_incoming s in
  let note := dq "<div class=`dd-form-note`>Confirm this key with your contact through a channel you trust " ++
    dq "before you rely on it.</div>" in
  let accept := if incoming then dq "Accept" else dq "Continue" in
  let cancel := if incoming then dq "Reject" else dq "Cancel" in
  let title := if incoming then esc (default "NEW CONTACT" (kx_peer s)) else dq "NEW CHANNEL" in
  let sub := if incoming then dq "wants to open a channel" else dq "share your contact, then paste theirs" in
  let fpLabel := if incoming then dq "their key" else dq "your key" in
  let fp := if incoming then default "" (kx_peerFingerprint s) else kx_selfFingerprint s in
  dq "<div class=`dd-form`><div class=`dd-form-title`>" ++ title ++ dq "</div><div class=`dd-form-sub`>" ++ sub ++
  dq "</div><div class=`dd-fp-label`>" ++ fpLabel ++ dq "</div><div class=`dd-fingerprint`>" ++ esc fp ++
  dq "</div>" ++ contact_block s ++ form_error (kx_error s) ++
  dq "<div class=`dd-field`><button class=`dd-btn dd-btn-primary` data-action=`accept-key` data-conv=`" ++
  esc (kx_conversationId s) ++ dq "`>" ++ accept ++ dq "</button><button class=`dd-btn` data-action=`cancel-key`>" ++
  cancel ++ dq "</button></div>" ++ note ++ dq "</div>".

(** ** They are fragments *)

#[export] Instance renderUnlock_frag n e r u : Frag (renderUnlock n e r u).
Proof.
  unfold renderUnlock. cbv zeta. destruct u as [u|]; [destruct (bool_decide (u = ""))|]; destruct r; exact _.
Qed.
#[export] Instance renderSelfDestruct_frag e : Frag (renderSelfDestruct e).
Proof. unfold renderSelfDestruct. exact _. Qed.
#[export] Instance renderRevokeSelf_frag i e : Frag (renderRevokeSelf i e).
Proof. unfold renderRevokeSelf. exact _. Qed.
#[export] Instance renderRecovery_frag t : Frag (renderRecovery t).
Proof. unfold renderRecovery. exact _. Qed.
#[export] Instance renderRecoverEntry_frag e : Frag (renderRecoverEntry e).
Proof. unfold renderRecoverEntry. exact _. Qed.
#[export] Instance renderHistoryToggle_frag a b : Frag (renderHistoryToggle a b).
Proof. unfold renderHistoryToggle. cbv zeta. exact _. Qed.

#[export] Instance device_action_frag d c o p : Frag (device_action d c o p).
Proof. unfold device_action. cbv zeta. exact _. Qed.
#[export] Instance renderDeviceRow_frag date d k o p : Frag (renderDeviceRow date d k o p).
Proof. unfold renderDeviceRow. cbv zeta. exact _. Qed.
#[export] Instance renderSettings_frag date v : Frag (renderSettings date v).
Proof. unfold renderSettings. cbv zeta. exact _. Qed.

#[export] Instance renderNewDeviceWizard_frag s : Frag (renderNewDeviceWizard s).
Proof. unfold renderNewDeviceWizard. cbv zeta. exact _. Qed.
#[export] Instance prov_body_frag s : Frag (prov_body s).
Proof. unfold prov_body. cbv zeta. destruct (pv_step s), (pv_words s); exact _. Qed.
#[export] Instance renderProvisioning_frag s : Frag (renderProvisioning s).
Proof. unfold renderProvisioning. cbv zeta. destruct (pv_step s); exact _. Qed.
#[export] Instance contact_block_frag s : Frag (contact_block s).
Proof. unfold contact_block. exact _. Qed.
#[export] Instance renderKeyExchange_frag s : Frag (renderKeyExchange s).
Proof. unfold renderKeyExchange. cbv zeta. exact _. Qed.

End ViewsForms.
