(* ===== verification/ViewsAppearance.v ===== *)
(** * The appearance preferences as markup (client/src/app.ts, lines 1904-2088)

    The pickers of fonts, sizes and colours, for the look of the client and for the look of one's own
    messages, the themes, and the preview.  The conventions are those of ViewsChat.v; the tokens of the
    draft are texts like any other here (RichTextFacts.token_value_inert is about their values). *)

From S2P Require Import Prelude RichText RichTextFacts Html ViewsChat.

Module ViewsAppearance.
Import RichText Html ViewsChat.

(** ** The pickers *)

Definition appearRow (label : string) (popId : chars) (current : chars) (body : chars) : chars :=
  dq "<div class=`dd-appear-row`><span class=`dd-appear-lbl`>" ++ esc label ++
  dq "</span><span class=`dd-rt-popwrap`>" ++
  dq "<button type=`button` class=`dd-rt-btn dd-rt-popbtn dd-appear-popbtn` data-appear-pop=`" ++ popId ++
  dq "`><span class=`dd-appear-cur`>" ++ escapeHtml current ++
  dq "</span><span class=`dd-rt-caret`>▾</span></button><span class=`dd-rt-pop dd-appear-pop` data-appear-popid=`" ++
  popId ++ dq "` hidden>" ++ body ++ dq "</span></span></div>".

Definition appearFontRow (label : string) (popId token : chars) (current : option string) : chars :=
  let curLabel := match current with
    | None => "Default"
    | Some c => default "Custom" (font_label <$> List.find (fun f => bool_decide (font_face f = chars_of c)) RT_FONTS)
    end in
  let opts :=
    dq "<button type=`button` class=`dd-rt-fontopt` data-appear-set=`" ++ token ++
    dq "` data-appear-val=``>Default</button>" ++
    (RT_FONTS ≫= (fun f =>
       dq "<button type=`button` class=`dd-rt-fontopt dd-ft-" ++ chars_of (font_key f) ++ dq "` data-appear-set=`" ++ token ++
       dq "` data-appear-val=`" ++ escapeHtml (font_face f) ++ dq "`>" ++ esc (font_label f) ++ dq "</button>")) in
  appearRow label popId (chars_of curLabel) (dq "<div class=`dd-rt-fonts`>" ++ opts ++ dq "</div>").

(** [s.replace('px', '')]: the first one. *)
Fixpoint without_px (s : string) : string :=
  match s with
  | String "p" (String "x" r) => r
  | String c r => String c (without_px r)
  | EmptyString => EmptyString
  end.

Definition appearSizeRow (label : string) (popId token : chars) (current : option string) : chars :=
  let opts :=
    dq "<button type=`button` class=`dd-rt-fontopt` data-appear-set=`" ++ token ++
    dq "` data-appear-val=``>Auto</button>" ++
    (APPEARANCE_SIZES ≫= (fun s =>
       dq "<button type=`button` class=`dd-rt-fontopt` data-appear-set=`" ++ token ++ dq "` data-appear-val=`" ++
       chars_of s ++ dq "`>" ++ chars_of (without_px s) ++ dq "</button>")) in
  appearRow label popId (chars_of match current with Some c => without_px c | None => "Auto" end)
    (dq "<div class=`dd-rt-fonts dd-appear-sizes`>" ++ opts ++ dq "</div>").

Definition on_class (b : bool) : chars := if b then dq " dd-appear-sw-on" else [].

Definition appearColorRow (label : string) (popId token : chars) (current : option string) : chars :=
  let sw := RT_TEXT_COLORS ≫= (fun c =>
    dq "<button type=`button` class=`dd-rt-sw" ++ on_class (bool_decide (current = Some c.2)) ++
    dq "` data-appear-set=`" ++ token ++
    dq "` data-appear-val=`" ++ chars_of c.2 ++ dq "` title=`" ++ chars_of c.2 ++ dq "`><span class=`dd-c-" ++
    chars_of c.1 ++ dq "`>A</span></button>") in
  let clear :=
    dq "<button type=`button` class=`dd-rt-fontopt` data-appear-set=`" ++ token ++
    dq "` data-appear-val=``>Default</button>" in
  appearRow label popId (chars_of (default "Default" current)) (dq "<div class=`dd-rt-swrow`>" ++ sw ++ dq "</div>" ++ clear).

(** The look of one's own messages: the keys of the palettes. *)
Definition lookFontRow (popId : chars) (current : option chars) : chars :=
  let curLabel := default "Default" (font_label <$> List.find (fun f => bool_decide (Some (chars_of (font_key f)) = current)) RT_FONTS) in
  let opts :=
    dq "<button type=`button` class=`dd-rt-fontopt` data-look-set=`font` data-look-val=``>Default</button>" ++
    (RT_FONTS ≫= (fun f =>
       dq "<button type=`button` class=`dd-rt-fontopt dd-ft-" ++ chars_of (font_key f) ++
       on_class (bool_decide (current = Some (chars_of (font_key f)))) ++
       dq "` data-look-set=`font` data-look-val=`" ++ chars_of (font_key f) ++ dq "`>" ++ esc (font_label f) ++ dq "</button>")) in
  appearRow "Font" popId (chars_of curLabel) (dq "<div class=`dd-rt-fonts`>" ++ opts ++ dq "</div>").

Definition size_option (current : option chars) (v label : chars) : chars :=
  dq "<button type=`button` class=`dd-rt-fontopt" ++ on_class (bool_decide (default [] current = v)) ++
  dq "` data-look-set=`size` data-look-val=`" ++ v ++ dq "`>" ++ label ++ dq "</button>".
Definition lookSizeRow (popId : chars) (current : option chars) : chars :=
  let cur := if bool_decide (current = Some (chars_of "s")) then "Small"
    else if bool_decide (current = Some (chars_of "l")) then "Large" else "Normal" in
  appearRow "Size" popId (chars_of cur)
    (dq "<div class=`dd-rt-fonts dd-appear-sizes`>" ++ size_option current [] (dq "Normal") ++
     size_option current (dq "s") (dq "Small") ++ size_option current (dq "l") (dq "Large") ++ dq "</div>").

Definition hex_of (palette : list (string * string)) (none : string) (current : option chars) : string :=
  default none (snd <$> List.find (fun c => bool_decide (Some (chars_of c.1) = current)) palette).

Definition lookColorRow (popId : chars) (current : option chars) : chars :=
  let sw := RT_TEXT_COLORS ≫= (fun c =>
    dq "<button type=`button` class=`dd-rt-sw" ++ on_class (bool_decide (current = Some (chars_of c.1))) ++
    dq "` data-look-set=`color` data-look-val=`" ++ chars_of c.1 ++ dq "` title=`" ++ chars_of c.2 ++
    dq "`><span class=`dd-c-" ++ chars_of c.1 ++ dq "`>A</span></button>") in
  let clear := dq "<button type=`button` class=`dd-rt-fontopt` data-look-set=`color` data-look-val=``>Default</button>" in
  appearRow "Text color" popId (chars_of (hex_of RT_TEXT_COLORS "Default" current))
    (dq "<div class=`dd-rt-swrow`>" ++ sw ++ dq "</div>" ++ clear).

Definition lookHlRow (popId : chars) (current : option chars) : chars :=
  let sw := RT_HL_COLORS ≫= (fun c =>
    dq "<button type=`button` class=`dd-rt-sw" ++ on_class (bool_decide (current = Some (chars_of c.1))) ++
    dq "` data-look-set=`hl` data-look-val=`" ++ chars_of c.1 ++ dq "` title=`" ++ chars_of c.2 ++
    dq "`><span class=`dd-hl-" ++ chars_of c.1 ++ dq "`>A</span></button>") in
  let clear := dq "<button type=`button` class=`dd-rt-fontopt` data-look-set=`hl` data-look-val=``>None</button>" in
  appearRow "Highlight" popId (chars_of (hex_of RT_HL_COLORS "None" current))
    (dq "<div class=`dd-rt-swrow`>" ++ sw ++ dq "</div>" ++ clear).

(** ** The window *)

Record Choice := MkChoice3 { ch_id : string; ch_label : string; ch_blurb : string }.
Definition THEME_META : list (ThemeId * Choice) :=
  [(theme_default, MkChoice3 "default" "Default" "The signature blue CRT terminal.");
   (theme_winamp, MkChoice3 "winamp" "Winamp" "Dark metallic player, green LCD readout.");
   (theme_win98, MkChoice3 "win98" "Windows 98" "Silver 3D chrome, navy titlebars, Notepad chat.");
   (theme_h4x0r, MkChoice3 "h4x0r" "h4x0r" "Green-on-black terminal with a Matrix rain.");
   (theme_aim, MkChoice3 "aim" "AIM" "The classic instant messenger: silver frame, blue titlebar, running-man mark.")].
Definition THEME_CLASS (t : ThemeId) : chars :=
  match t with
  | theme_default => []
  | theme_winamp => dq "dd-theme-winamp"
  | theme_win98 => dq "dd-theme-win98"
  | theme_h4x0r => dq "dd-theme-h4x0r"
  | theme_aim => dq "dd-theme-aim"
  end.
Definition APPEARANCE_CATS : list Choice :=
  [MkChoice3 "buddylist" "Buddy List Appearance" "Font, size, and color of the list";
   MkChoice3 "message" "Message Appearance" "How chat messages look to you";
   MkChoice3 "mymessage" "My Message Look" "How your messages look to others";
   MkChoice3 "themes" "Themes" "Whole looks + theme packs"].

#[export] Instance theme_eq_dec : EqDecision ThemeId.
Proof. solve_decision. Defined.

(** The preview is cut off from the saved look, and has the theme of the draft. *)
Definition preview (theme : ThemeId) (inner : chars) : chars :=
  let themeCls := THEME_CLASS theme in
  dq "<div class=`dd-appear-isolate`><div class=`dd-appear-themebox" ++
  (if bool_decide (themeCls = []) then [] else dq " " ++ themeCls) ++ dq "`>" ++ inner ++ dq "</div></div>".
Definition previewBl (theme : ThemeId) : chars :=
  preview theme (
    dq "<div class=`dd-appear-preview dd-appear-prevbl`>" ++
    dq "<div class=`dd-apb dd-apb-enter`><span class=`dd-status-dot dd-status-secure`></span>Entering Buddy</div>" ++
    dq "<div class=`dd-apb`><span class=`dd-status-dot dd-status-secure`></span>Online Buddy</div>" ++
    dq "<div class=`dd-apb dd-apb-depart`><span class=`dd-status-dot dd-status-blocked`></span>Departing Buddy</div></div>").
Definition previewMsg (theme : ThemeId) : chars :=
  preview theme (
    dq "<div class=`dd-appear-preview dd-appear-prevmsg`>" ++
    dq "<div class=`dd-apm-sys`>» channel established · forward secrecy active</div>" ++
    dq "<div class=`dd-apm-line`><span class=`dd-apm-you`>YOU:</span> the crow flies at midnight</div>" ++
    dq "<div class=`dd-apm-line`><span class=`dd-apm-peer`>RAVEN:</span> copy that. drop confirmed</div></div>").
Definition previewMine (theme : ThemeId) (look : option MessageLook) : chars :=
  let sample := formatMessageText false (wrapMessageLook look (escMarker (chars_of "the eagle lands at midnight"))) in
  preview theme (
    dq "<div class=`dd-appear-preview dd-appear-prevmsg`>" ++
    dq "<div class=`dd-apm-sys`>» this is how your messages reach the people you talk with</div>" ++
    dq "<div class=`dd-apm-line`><span class=`dd-apm-you`>YOU:</span> " ++ sample ++
    dq "</div><div class=`dd-apm-line`><span class=`dd-apm-peer`>RAVEN:</span> copy that. drop confirmed</div></div>").

Definition detail_buddylist (draft : Appearance) : chars :=
  let t k := JsMap.lookup k (tokens draft) in
  dq "<div class=`dd-form-sub`>Buddy List Font</div>" ++
  appearFontRow "Font" (dq "bl-font") (dq "--dd-buddy-font") (t "--dd-buddy-font") ++
  appearSizeRow "Size" (dq "bl-size") (dq "--dd-buddy-size") (t "--dd-buddy-size") ++
  appearColorRow "Color" (dq "bl-color") (dq "--dd-buddy-ink") (t "--dd-buddy-ink") ++ previewBl (theme draft).
Definition detail_message (draft : Appearance) : chars :=
  let t k := JsMap.lookup k (tokens draft) in
  dq "<div class=`dd-form-sub`>Message Font</div>" ++
  appearFontRow "Font" (dq "msg-font") (dq "--dd-font-msg") (t "--dd-font-msg") ++
  appearSizeRow "Size" (dq "msg-size") (dq "--dd-msg-user-size") (t "--dd-msg-user-size") ++
  appearColorRow "Text" (dq "msg-ink") (dq "--dd-ink") (t "--dd-ink") ++
  appearColorRow "Background" (dq "msg-field") (dq "--dd-field") (t "--dd-field") ++
  appearColorRow "Accent" (dq "msg-accent") (dq "--dd-secure") (t "--dd-secure") ++ previewMsg (theme draft).
Definition detail_mymessage (draft : Appearance) : chars :=
  let look := messageLook draft in
  dq "<div class=`dd-form-sub`>My Message Look</div>" ++
  dq "<div class=`dd-form-sub dd-appear-note`>The people you talk with see your messages in this style. You can still format single words while you type. Bold, italic, and underline stay per-message.</div>" ++
  lookFontRow (dq "my-font") (look ≫= font) ++ lookSizeRow (dq "my-size") (look ≫= size) ++
  lookColorRow (dq "my-color") (look ≫= color) ++ lookHlRow (dq "my-hl") (look ≫= hl) ++ previewMine (theme draft) look.
Definition detail_themes (draft : Appearance) (packText : option string) : chars :=
  let cards := THEME_META ≫= (fun th =>
    let on := if bool_decide (th.1 = theme draft) then dq " dd-appear-theme-active" else [] in
    dq "<button type=`button` class=`dd-appear-theme" ++ on ++ dq "` data-appear-theme=`" ++ chars_of (ch_id th.2) ++
    dq "`><span class=`dd-appear-theme-name`>" ++ esc (ch_label th.2) ++
    dq "</span><span class=`dd-appear-theme-blurb`>" ++ esc (ch_blurb th.2) ++ dq "</span></button>") in
  dq "<div class=`dd-appear-themes`>" ++ cards ++ dq "</div>" ++ previewMsg (theme draft) ++
  dq "<div class=`dd-form-sub`>Theme packs: a small JSON of validated tokens (no code, no external files).</div>" ++
  dq "<textarea class=`dd-appear-json` id=`dd-appear-json` spellcheck=`false` " ++
  dq "placeholder='{ `theme`: `winamp`, `tokens`: { `--dd-ink`: `#2be000` } }'>" ++ esc (default "" packText) ++
  dq "</textarea><div class=`dd-appear-packbtns`>" ++
  dq "<button type=`button` class=`dd-btn` data-action=`appear-import`>Load pack</button>" ++
  dq "<button type=`button` class=`dd-btn` data-action=`appear-export`>Export current</button>" ++
  dq "<label class=`dd-btn dd-appear-file`>Load file<input type=`file` id=`dd-appear-file` accept=`application/json,.json` /></label>" ++
  dq "</div>".

Definition renderAppearance (draft : Appearance) (category : string) (error packText : option string) : chars :=
  let cats := APPEARANCE_CATS ≫= (fun c =>
    let on := if bool_decide (ch_id c = category) then dq " dd-appear-cat-active" else [] in
    dq "<button type=`button` class=`dd-appear-cat" ++ on ++ dq "` data-appear-cat=`" ++ chars_of (ch_id c) ++
    dq "`><span class=`dd-appear-cat-label`>" ++ esc (ch_label c) ++ dq "</span><span class=`dd-appear-cat-blurb`>" ++
    esc (ch_blurb c) ++ dq "</span></button>") in
  let detail :=
    if bool_decide (category = "buddylist") then detail_buddylist draft
    else if bool_decide (category = "message") then detail_message draft
    else if bool_decide (category = "mymessage") then detail_mymessage draft
    else detail_themes draft packText in
  let err := match error with
    | Some e => dq "<div class=`dd-error`>" ++ esc e ++ dq "</div>"
    | None => []
    end in
  let footer :=
    dq "<div class=`dd-appear-foot`>" ++
    dq "<button type=`button` class=`dd-link` data-action=`appear-reset`>Reset to Default</button>" ++
    dq "<span class=`dd-appear-foot-btns`><button type=`button` class=`dd-btn` data-action=`appear-cancel`>Cancel</button>" ++
    dq "<button type=`button` class=`dd-btn dd-btn-primary` data-action=`appear-save`>Save</button></span></div>" in
  dq "<div class=`dd-appear-2pane`><div class=`dd-appear-cats`>" ++ cats ++
  dq "</div><div class=`dd-appear-detail`>" ++ err ++ dq "<div class=`dd-appear-body`>" ++ detail ++
  dq "</div>" ++ footer ++ dq "</div></div>".

(** ** They are fragments *)

Lemma color_hex_calm c : c ∈ RT_TEXT_COLORS -> Calm (chars_of c.2).
Proof. intros Hc. by eapply (palette_calm (chars_of ∘ snd <$> RT_TEXT_COLORS)), (list_elem_of_fmap_2 (chars_of ∘ snd)). Qed.
Lemma size_calm s : s ∈ APPEARANCE_SIZES -> Calm (chars_of s).
Proof. intros Hs. by eapply (palette_calm (chars_of <$> APPEARANCE_SIZES)), list_elem_of_fmap_2. Qed.
Lemma size_number_calm s : s ∈ APPEARANCE_SIZES -> Calm (chars_of (without_px s)).
Proof.
  intros Hs. by eapply (palette_calm (chars_of ∘ without_px <$> APPEARANCE_SIZES)), (list_elem_of_fmap_2 (chars_of ∘ without_px)).
Qed.
Lemma theme_id_calm th : th ∈ THEME_META -> Calm (chars_of (ch_id th.2)).
Proof.
  intros Ht. by eapply (palette_calm (chars_of ∘ ch_id ∘ snd <$> THEME_META)), (list_elem_of_fmap_2 (chars_of ∘ ch_id ∘ snd)).
Qed.
Lemma cat_id_calm c : c ∈ APPEARANCE_CATS -> Calm (chars_of (ch_id c)).
Proof. intros Hc. by eapply (palette_calm (chars_of ∘ ch_id <$> APPEARANCE_CATS)), (list_elem_of_fmap_2 (chars_of ∘ ch_id)). Qed.
#[export] Hint Extern 3 (Calm (chars_of _)) =>
  first [apply color_hex_calm; assumption | apply size_calm; assumption | apply size_number_calm; assumption
        | apply theme_id_calm; assumption | apply cat_id_calm; assumption] : typeclass_instances.

#[export] Instance THEME_CLASS_calm t : Calm (THEME_CLASS t).
Proof. destruct t; unfold THEME_CLASS; exact _. Qed.
#[export] Instance on_class_calm b : Calm (on_class b).
Proof. unfold on_class. exact _. Qed.
#[export] Instance appearRow_frag label popId current body : Calm popId -> Frag body -> Frag (appearRow label popId current body).
Proof. intros H1 H2. unfold appearRow. exact _. Qed.
#[export] Instance appearFontRow_frag label popId token c : Calm popId -> Calm token -> Frag (appearFontRow label popId token c).
Proof. intros H1 H2. unfold appearFontRow. cbv zeta. exact _. Qed.
#[export] Instance appearSizeRow_frag label popId token c : Calm popId -> Calm token -> Frag (appearSizeRow label popId token c).
Proof. intros H1 H2. unfold appearSizeRow. cbv zeta. exact _. Qed.
#[export] Instance appearColorRow_frag label popId token c : Calm popId -> Calm token -> Frag (appearColorRow label popId token c).
Proof. intros H1 H2. unfold appearColorRow. cbv zeta. exact _. Qed.
#[export] Instance lookFontRow_frag popId c : Calm popId -> Frag (lookFontRow popId c).
Proof. intros H. unfold lookFontRow. cbv zeta. exact _. Qed.
#[export] Instance size_option_frag c v l : Calm v -> Calm l -> Frag (size_option c v l).
Proof. intros H1 H2. unfold size_option. exact _. Qed.
#[export] Instance lookSizeRow_frag popId c : Calm popId -> Frag (lookSizeRow popId c).
Proof. intros H. unfold lookSizeRow. cbv zeta. exact _. Qed.
#[export] Instance lookColorRow_frag popId c : Calm popId -> Frag (lookColorRow popId c).
Proof. intros H. unfold lookColorRow. cbv zeta. exact _. Qed.
#[export] Instance lookHlRow_frag popId c : Calm popId -> Frag (lookHlRow popId c).
Proof. intros H. unfold lookHlRow. cbv zeta. exact _. Qed.

#[export] Instance preview_frag th inner : Frag inner -> Frag (preview th inner).
Proof. intros H. unfold preview. cbv zeta. exact _. Qed.
#[export] Instance previewBl_frag th : Frag (previewBl th).
Proof. unfold previewBl. exact _. Qed.
#[export] Instance previewMsg_frag th : Frag (previewMsg th).
Proof. unfold previewMsg. exact _. Qed.
#[export] Instance previewMine_frag th look : Frag (previewMine th look).
Proof. unfold previewMine. cbv zeta. exact _. Qed.
#[export] Instance detail_buddylist_frag d : Frag (detail_buddylist d).
Proof. unfold detail_buddylist. cbv zeta. exact _. Qed.
#[export] Instance detail_message_frag d : Frag (detail_message d).
Proof. unfold detail_message. cbv zeta. exact _. Qed.
#[export] Instance detail_mymessage_frag d : Frag (detail_mymessage d).
Proof. unfold detail_mymessage. cbv zeta. exact _. Qed.
#[export] Instance detail_themes_frag d t : Frag (detail_themes d t).
Proof. unfold detail_themes. cbv zeta. exact _. Qed.
#[export] Instance renderAppearance_frag d c e t : Frag (renderAppearance d c e t).
Proof. unfold renderAppearance. cbv zeta. exact _. Qed.

End ViewsAppearance.
