(* ===== verification/Shell.v ===== *)
(** * The windows on the desktop as markup (client/src/app.ts, lines 1017, 1295-1391, 1585-1654, 3870-3995, 4081-4151)

    [renderShell] puts together what the document shows: the menu bar with a chip for each minimized
    window, the window in front and the parked ones behind it, each with its title bar, its menu, its
    controls and the screen of its view.  The module variables of the code that the screens read (the own
    contact link, the lifetimes picked, whether the desktop shell runs, the calendar) are Section variables.

    The last part is the theorem the views were proved for: whatever the texts in a view are, the page is
    read to its end with only the elements and attributes that the screens use.  An Example shows why it
    asks that the status of a channel is one of the three of its type. *)

From S2P Require Import Prelude PairingWire Session Auth Contacts Transcript Conversations BuddySetup RichText RichTextFacts Html ViewsChat ViewsBuddies ViewsForms ViewsAppearance.

Module Shell.
Import RichText Html ViewsChat ViewsBuddies ViewsForms ViewsAppearance.

Inductive AppView :=
  | VDesktop
  | VUnlock (register : bool) (error prefillUser : option string)
  | VRecovery (secret : string)
  | VAppearance (draft : Appearance) (category : string) (error packText : option string)
  | VChannels (channels : list ChannelSummary) (notice : option string) (active : option TransmitModel)
      (selectedId : option string)
  | VKeyexchange (state : KeyExchangeState)
  | VConversation (transmit : TransmitModel)
  | VProvisioning (state : ProvisioningView)
  | VNewdeviceWizard (state : NewDeviceWizardView)
  | VRecoverEntry (error : option string)
  | VSelfdestruct (error : option string)
  | VRevokeself (deviceId : string) (error : option string)
  | VSettings (s : SettingsView)
  | VIdentity (profile : IdentityProfile) (error : option string) (saved : bool)
  | VAway (profile : IdentityProfile) (saved : bool) (picked : option nat)
  | VGetinfo (i : InfoView)
  | VBuddies (b : BuddiesView)
  | VBuddysetup (b : SetupView)
  | VBuddyscan
  | VBuddyqr (link : string)
  | VAddperson (error : option string).

(** [view.kind]. *)
Definition kind (v : AppView) : string :=
  match v with
  | VDesktop => "desktop" | VUnlock _ _ _ => "unlock" | VRecovery _ => "recovery"
  | VAppearance _ _ _ _ => "appearance" | VChannels _ _ _ _ => "channels" | VKeyexchange _ => "keyexchange"
  | VConversation _ => "conversation" | VProvisioning _ => "provisioning"
  | VNewdeviceWizard _ => "newdevice-wizard" | VRecoverEntry _ => "recover-entry"
  | VSelfdestruct _ => "selfdestruct" | VRevokeself _ _ => "revokeself" | VSettings _ => "settings"
  | VIdentity _ _ _ => "identity" | VAway _ _ _ => "away" | VGetinfo _ => "getinfo" | VBuddies _ => "buddies"
  | VBuddysetup _ => "buddysetup" | VBuddyscan => "buddyscan" | VBuddyqr _ => "buddyqr"
  | VAddperson _ => "addperson"
  end.

Definition windowKey (v : AppView) : string :=
  match v with
  | VConversation t =>
      match conversationId t with Some id => "conv:" +:+ id | None => "kind:conversation" end
  | _ => "kind:" +:+ kind v
  end.

Record MinimizedWin := MkMini { mw_key : string; mw_title : string; mw_view : AppView; mw_unread : option Z }.
Record ParkedWin := MkPark { pw_key : string; pw_view : AppView }.

(** ** The menu bar *)

Definition MENU_ITEMS : list string := ["DEAD DROP"; "Buddies"; "Channels"].

Definition menu_chip (m : MinimizedWin) : chars :=
  let n := default 0 (mw_unread m) in
  let cls := if 0 <? n then dq "dd-menu-chip dd-menu-chip-unread" else dq "dd-menu-chip" in
  let badge := if 0 <? n
    then dq "<span class=`dd-chip-badge`>" ++ (if 99 <? n then dq "99+" else Z_chars n) ++ dq "</span>" else [] in
  let label := if 0 <? n
    then chars_of "restore " ++ chars_of (mw_title m) ++ chars_of " (" ++ Z_chars n ++ chars_of " unread)"
    else chars_of "restore " ++ chars_of (mw_title m) in
  dq "<button type=`button` class=`" ++ cls ++ dq "` data-restore=`" ++ esc (mw_key m) ++ dq "` title=`" ++
  escapeHtml label ++ dq "`>▪ " ++ esc (mw_title m) ++ badge ++ dq "</button>".

Definition menu_destruct : chars :=
  dq "<button type=`button` class=`dd-menu-dropitem` data-action=`appearance`>Appearance</button>" ++
  dq "<button type=`button` class=`dd-menu-dropitem` data-action=`device-keys`>Device keys</button>" ++
  dq "<button type=`button` class=`dd-menu-dropitem dd-menu-destruct` data-action=`self-destruct`>☠️ Self Destruct ☠️</button>".

Definition renderMenubar (minimized : list MinimizedWin) : chars :=
  let chips := minimized ≫= menu_chip in
  let brand := dq "<span class=`dd-menu-app`><button type=`button` class=`dd-menu-item dd-menu-brand` data-action=`app-menu`>" ++
    logoSvg (dq "dd-logo-ic") ++ dq " DEAD DROP</button><span class=`dd-menu-dropdown dd-appmenu-pop` hidden>" ++
    menu_destruct ++ dq "</span></span>" in
  let rest := drop 1 MENU_ITEMS ≫= (fun label => dq "<span class=`dd-menu-item`>" ++ esc label ++ dq "</span>") in
  dq "<div class=`dd-menubar`>" ++ brand ++ rest ++ chips ++ dq "</div>".

(** ** A window *)

Definition titlebarAppMenu (view : AppView) : chars :=
  if negb (existsb (String.eqb (kind view)) ["buddies"; "conversation"; "channels"]) then []
  else
  let dock := match view with
    | VConversation _ =>
        dq "<button type=`button` class=`dd-menu-dropitem` data-action=`dock-to-channels`>⧉ Dock to Channels</button>"
    | VChannels _ _ (Some _) _ =>
        dq "<button type=`button` class=`dd-menu-dropitem` data-action=`pop-out-chat`>⧉ Pop out chat</button>"
    | _ => []
    end in
  let appItems := match view with VConversation _ => [] | _ => menu_destruct end in
  dq "<span class=`dd-winmenu`>" ++
  dq "<button type=`button` class=`dd-winbtn dd-winbtn-app` data-action=`app-menu` title=`DEAD DROP menu` aria-label=`DEAD DROP menu`>" ++
  logoSvg (dq "dd-logo-ic") ++ dq "</button><span class=`dd-menu-dropdown dd-appmenu-pop` hidden>" ++ dock ++
  appItems ++ dq "</span></span>".

Definition peer_title (name : string) (t : option TransmitModel) : string :=
  match t with
  | Some m => match peer m with Some p => name +:+ " · " +:+ p | None => name end
  | None => name
  end.

Definition windowTitle (view : AppView) : string :=
  match view with
  | VUnlock _ _ _ | VDesktop => "DEAD DROP"
  | VChannels _ _ active _ => peer_title "CHANNELS" active
  | VKeyexchange _ => "KEY EXCHANGE"
  | VSettings _ => "DEVICE KEYS"
  | VRecovery _ => "RECOVERY"
  | VProvisioning _ => "ADD A DEVICE"
  | VNewdeviceWizard _ => "CONNECT THIS DEVICE"
  | VRecoverEntry _ => "RECOVERY"
  | VSelfdestruct _ => "SELF DESTRUCT"
  | VRevokeself _ _ => "REVOKE THIS DEVICE"
  | VIdentity _ _ _ => "PROFILE"
  | VAway _ _ _ => "AWAY MESSAGE"
  | VGetinfo _ => "GET INFO"
  | VAppearance _ _ _ _ => "APPEARANCE"
  | VBuddies _ => "BUDDY LIST"
  | VBuddysetup _ => "BUDDY LIST SETUP"
  | VBuddyscan => "SCAN A BUDDY"
  | VBuddyqr _ => "SCAN ME"
  | VAddperson _ => "ADD PERSON"
  | VConversation transmit => peer_title "TRANSMIT" (Some transmit)
  end.

Section shell.
Context `{Contacts.LocaleCompare}.
Context (isNativeShell : bool) (profileContactLink : string) (picks : list (string * Lifetime))
  (local_date : Z -> LocalTime).

Definition windowControls (view : AppView) : chars :=
  if bool_decide (kind view = "desktop") then []
  else
  let guarded := existsb (String.eqb (kind view))
    ["unlock"; "newdevice-wizard"; "recovery"; "recover-entry"; "provisioning"] in
  if guarded && negb isNativeShell then []
  else
  dq "<span class=`dd-winctl`>" ++
  dq "<button type=`button` class=`dd-winbtn` data-action=`win-minimize` title=`Minimize` aria-label=`Minimize`>–</button>" ++
  dq "<button type=`button` class=`dd-winbtn dd-winbtn-close` data-action=`win-close` title=`Close` aria-label=`Close`>✕</button>" ++
  dq "</span>".

Definition renderWindowContent (view : AppView) : chars :=
  match view with
  | VDesktop => []
  | VUnlock register error prefillUser => renderUnlock isNativeShell error register prefillUser
  | VRecovery secret => renderRecovery secret
  | VChannels channels notice active selectedId => renderChannels picks channels notice active selectedId
  | VKeyexchange state => renderKeyExchange state
  | VProvisioning state => renderProvisioning state
  | VNewdeviceWizard state => renderNewDeviceWizard state
  | VRecoverEntry error => renderRecoverEntry error
  | VSelfdestruct error => renderSelfDestruct error
  | VRevokeself deviceId error => renderRevokeSelf deviceId error
  | VSettings s => renderSettings local_date s
  | VIdentity profile error saved => renderIdentity profile error saved profileContactLink
  | VAway profile saved picked => renderAway profile saved picked
  | VGetinfo i => renderGetInfo i
  | VAppearance draft category error packText => renderAppearance draft category error packText
  | VBuddies b => renderBuddies b
  | VBuddysetup b => renderBuddySetup b
  | VBuddyscan => renderBuddyScan
  | VBuddyqr link => renderBuddyQr link
  | VAddperson error => renderAddPerson error
  | VConversation transmit => dq "<div class=`dd`>" ++ renderTransmit picks transmit ++ dq "</div>"
  end.

Definition renderOneWindow (view : AppView) (live : bool) : chars :=
  dq "<div class=`dd-window" ++ (if live then [] else dq " dd-window-parked") ++ dq "` data-win-key=`" ++
  esc (windowKey view) ++ dq "`><div class=`dd-titlebar`>" ++ titlebarAppMenu view ++
  dq "<span class=`dd-title`>" ++ esc (windowTitle view) ++ dq "</span>" ++ windowControls view ++
  dq "</div><div class=`dd-window-body`" ++ (if live then [] else dq " inert") ++
  dq "><div class=`dd-content-well`>" ++ renderWindowContent view ++ dq "</div></div></div>".

Definition preLogin (view : AppView) : bool :=
  existsb (String.eqb (kind view)) ["unlock"; "newdevice-wizard"; "recovery"; "recover-entry"].

Definition renderShell (view : AppView) (minimized : list MinimizedWin) (parked : list ParkedWin) : chars :=
  if preLogin view then dq "<div class=`dd-stage`>" ++ renderOneWindow view true ++ dq "</div>"
  else
  let liveHtml := if bool_decide (kind view = "desktop") then [] else renderOneWindow view true in
  let parkedHtml := parked ≫= (fun p => renderOneWindow (pw_view p) false) in
  renderMenubar minimized ++ dq "<div class=`dd-stage`>" ++ liveHtml ++ parkedHtml ++ dq "</div>".

(** ** The page *)

(** The statuses of the type [ChannelSummary]. *)
Definition statuses : list string := ["secure"; "pending"; "blocked"].
Definition view_ok (view : AppView) : Prop :=
  match view with
  | VChannels channels _ _ _ => Forall (fun c => cs_status c ∈ statuses) channels
  | _ => True
  end.
#[export] Instance view_ok_dec view : Decision (view_ok view).
Proof. destruct view; apply _. Defined.

#[export] Instance menu_chip_frag m : Frag (menu_chip m).
Proof. unfold menu_chip. cbv zeta. exact _. Qed.
#[export] Instance renderMenubar_frag l : Frag (renderMenubar l).
Proof. unfold renderMenubar. cbv zeta. exact _. Qed.
#[export] Instance titlebarAppMenu_frag v : Frag (titlebarAppMenu v).
Proof. unfold titlebarAppMenu. cbv zeta. destruct v; try destruct active; exact _. Qed.
#[export] Instance windowControls_frag v : Frag (windowControls v).
Proof. unfold windowControls. cbv zeta. exact _. Qed.

Lemma status_calm s : s ∈ statuses -> Calm (chars_of s).
Proof.
  intros Hs. eapply (palette_calm (chars_of <$> statuses)); [vm_compute; reflexivity|]. by apply list_elem_of_fmap_2.
Qed.
Lemma renderWindowContent_frag v : view_ok v -> Frag (renderWindowContent v).
Proof.
  destruct v; cbn [view_ok renderWindowContent]; intros Hv; try exact _.
  apply renderChannels_frag. eapply Forall_impl; [exact Hv|]. intros c. apply status_calm.
Qed.
Lemma renderOneWindow_frag v live : view_ok v -> Frag (renderOneWindow v live).
Proof. intros Hv%renderWindowContent_frag. unfold renderOneWindow. exact _. Qed.

(** C25. No text can be injected into the page: whatever the names, messages, keys, links, profiles, errors
    and notes in the views are, the markup of the document is read to its end, every element is closed in
    its turn, and only the elements and attributes the screens are made of occur in it, without a script,
    a handler or a style, and with links to https addresses only, provided that the statuses of channels
    are those of their type. *)
Theorem every_page_is_well_formed (view : AppView) (minimized : list MinimizedWin) (parked : list ParkedWin) :
  view_ok view -> Forall (fun p => view_ok (pw_view p)) parked ->
  well_formed (renderShell view minimized parked).
Proof.
  intros Hv Hp. pose proof (renderOneWindow_frag view true Hv).
  assert (Frag (parked ≫= (fun p => renderOneWindow (pw_view p) false))).
  { apply frag_bind. intros p Hin. apply renderOneWindow_frag. by eapply Forall_forall in Hp. }
  assert (Frag (renderShell view minimized parked)) as Hf; [|exact (Hf [])].
  unfold renderShell. cbv zeta. exact _.
Qed.

End shell.

(** ** A page full of markup that is not ours *)

#[local] Instance code_units : Contacts.LocaleCompare := fun a b => if String.leb a b then -1 else 1.
Definition hostile : string := "<img src=x onerror='f()'>`&amp;</div><script>".
Definition hostile_chat : TransmitModel :=
  MkTransmitView true (Some hostile) (Some hostile)
    [LogMessage hostile hostile BurnOnRead (Some 9) (Some 77) (Some hostile); LogSystem hostile; LogDestroyed]
    hostile (Some hostile) false (Some hostile) (Some Transcript.Unverified) (Some hostile) (Some hostile) false None.
Definition channel_of (status : string) : ChannelSummary := MkSummary hostile hostile hostile status hostile 3.
Definition hostile_page (status : string) : chars :=
  renderShell false hostile [] (fun _ => MkLocalTime 0 1 2024 0 0)
    (VChannels [channel_of status] (Some hostile) (Some hostile_chat) (Some hostile))
    [MkMini hostile hostile VDesktop (Some 120)] [MkPark hostile (VConversation hostile_chat); MkPark hostile VBuddyscan].

Lemma every_page_is_well_formed_witness : well_formed (hostile_page "secure").
Proof. apply every_page_is_well_formed; [|repeat constructor]. repeat constructor. Defined.

(** The channel row writes the status into two attributes without escaping it. *)
Example a_status_with_a_quote_breaks_out : ~ well_formed (hostile_page (String double_quote " onclick")).
Proof. vm_compute. discriminate. Qed.

End Shell.
