(* ===== verification/BuddySetupFacts.v ===== *)
(** * Saving the setup of the buddy list

    What the calls that Save makes do to the lists of the account ([book]), each on its own; the draft that
    edits can make; and that Save turns the one into the other, with the drafts for which it does not. *)

From S2P Require Import Prelude Json Integrity Auth Contacts ContactsLogic ContactsFacts BuddySetup.
Import JsObj Contacts BuddySetup.

Module BuddySetupFacts.

(** ** The lists of the account *)

Definition folders (s : State) : gset string := list_to_set (customs (read_groups s)).*1.
Definition keys (s : State) : list string := k_key <$> read_blocked s.

Lemma elem_of_customs m x : x ∈ customs m <-> x ∈ m /\ g_removed x.2 = false /\ has_nul x.1 = false.
Proof.
  unfold customs. rewrite ContactsLogic.elem_of_list_filter, elem_of_entries, andb_true_iff, !negb_true_iff. tauto.
Qed.

Lemma elem_of_folders s g :
  g ∈ folders s <-> exists e, JsMap.lookup g (read_groups s) = Some e /\ g_removed e = false /\ has_nul g = false.
Proof.
  unfold folders. rewrite elem_of_list_to_set, list_elem_of_fmap. split.
  - intros ([k e] & -> & Hin). apply elem_of_customs in Hin as (Hin & H1 & H2). exists e. split; [|done].
    apply NoDup_lookup; [apply read_groups_ok|done].
  - intros (e & Hl & H1 & H2). exists (g, e). split; [done|]. apply elem_of_customs. split; [|done].
    by apply JsMap.lookup_Some_in.
Qed.

Section calls.
Context `{LocaleCompare, Phrases}.

(** A change of one entry of the groups, and what it leaves alone. *)
Definition regrouped (s : State) (k : string) (e : GroupEntry) : State :=
  add_log (set_groups s (groups_json (write k e (read_groups s)))) (Told SyncGroups).

Lemma set_length {V} (k : string) (v : V) m : (length (JsMap.set k v m) <= S (length m))%nat.
Proof. induction m as [|[k' v'] m IH]; simpl; [lia|]. destruct (decide _); simpl; lia. Qed.
Lemma set_present_length {V} (k : string) (v : V) m w : JsMap.lookup k m = Some w -> length (JsMap.set k v m) = length m.
Proof.
  induction m as [|[k' v'] m IH]; simpl; [done|]. destruct (decide _); simpl; [done|]. intros Hm. by rewrite IH.
Qed.

Lemma read_regrouped s k e :
  unlocked s = true -> group_ok k e -> k <> "__proto__" ->
  (length (JsMap.set k e (read_groups s)) <= GROUP_MAP_MAX_ENTRIES)%nat ->
  length (read_groups (regrouped s k e)) = length (JsMap.set k e (read_groups s)) /\
  forall g, JsMap.lookup g (read_groups (regrouped s k e)) =
    if decide (g = k) then Some e else JsMap.lookup g (read_groups s).
Proof.
  intros Hu He Hp Hlen. set (m := read_groups s) in *.
  assert (Hm : map_ok group_ok (write k e m)) by (apply map_ok_write; [apply read_groups_ok|done]).
  assert (Ew : write k e m = JsMap.set k e m) by (unfold write; by rewrite bool_decide_eq_false_2).
  change (read_groups (regrouped s k e)) with (read_groups (set_groups s (groups_json (write k e m)))).
  rewrite read_saved_groups by done. rewrite take_ge by (rewrite entries_perm, Ew; done).
  split; [by rewrite entries_perm, Ew|]. intros g. rewrite lookup_entries by apply Hm. by apply lookup_write.
Qed.

(** What a call about groups leaves alone. *)
Definition same_people (s s' : State) : Prop :=
  unlocked s' = unlocked s /\ Contacts.buddies s' = Contacts.buddies s /\ Contacts.blocked s' = Contacts.blocked s.
Definition deflabel (s : State) : string := def_label (read_groups s).
Definition blklabel (s : State) : string := blocked_label (read_groups s).

Lemma same_view s s' : same_people s s' -> view s' = view s /\ keys s' = keys s.
Proof. intros (H1 & H2 & H3). unfold view, keys, read_buddies, read_blocked. by rewrite H1, H2, H3. Qed.

Lemma read_ext {V} k (m m' : list (string * V)) : JsMap.lookup k m' = JsMap.lookup k m -> read k m' = read k m.
Proof. unfold read. by intros ->. Qed.

(** The names of folders that the screen accepts and the store keeps as they are. *)
Definition plain_folder (g : string) : bool :=
  bool_decide (sanitizeGroupName g = g) && negb (bool_decide (g = "")) && negb (bool_decide (g = DEFAULT_GROUP)) &&
  negb (bool_decide (g ∈ inherited)).
Lemma plain_folder_spec g :
  plain_folder g = true <-> sanitizeGroupName g = g /\ g <> "" /\ g <> DEFAULT_GROUP /\ g ∉ inherited.
Proof. unfold plain_folder. rewrite !andb_true_iff, !negb_true_iff, !bool_decide_eq_true, !bool_decide_eq_false. tauto. Qed.
Lemma plain_no_nul g : plain_folder g = true -> has_nul g = false.
Proof. intros (H1 & _)%plain_folder_spec. rewrite <-H1. apply sanitize_no_nul. Qed.
Lemma plain_not_key g : plain_folder g = true -> g <> RK_DEFAULT /\ g <> RK_BLOCKED.
Proof. intros H1%plain_no_nul. split; intros ->; by vm_compute in H1. Qed.
Lemma plain_trim g : plain_folder g = true -> Auth.trim g = g.
Proof. intros (H1 & _)%plain_folder_spec. by rewrite <-H1, sanitize_trimmed at 1. Qed.

(** The two cases of a name: it is among the folders, or it is not present. *)
Lemma folder_present s g :
  plain_folder g = true -> group_present (read g (read_groups s)) = bool_decide (g ∈ folders s).
Proof.
  intros Hg. pose proof (plain_no_nul g Hg) as Hn. apply plain_folder_spec in Hg as (_ & _ & _ & Hi).
  rewrite read_plain by done. destruct (JsMap.lookup g (read_groups s)) as [e|] eqn:E; cbn [group_present].
  - destruct (g_removed e) eqn:Er; cbn [negb]; symmetry; [apply bool_decide_eq_false_2|apply bool_decide_eq_true_2];
      rewrite elem_of_folders, E; [|by exists e]. intros (e' & [= <-] & Hr & _). congruence.
  - symmetry. apply bool_decide_eq_false_2. rewrite elem_of_folders, E. by intros (e & ? & _).
Qed.

Lemma regrouped_folder s g e :
  unlocked s = true -> plain_folder g = true -> g_n e = None ->
  (length (JsMap.set g e (read_groups s)) <= GROUP_MAP_MAX_ENTRIES)%nat ->
  let s' := regrouped s g e in
  same_people s s' /\ deflabel s' = deflabel s /\ blklabel s' = blklabel s /\
  folders s' = if g_removed e then folders s ∖ {[g]} else {[g]} ∪ folders s.
Proof.
  intros Hu Hg Hn Hlen s'. pose proof (plain_no_nul g Hg) as Hnul. pose proof (plain_not_key g Hg) as [Hd Hb].
  pose proof (proj1 (plain_folder_spec g) Hg) as (Hsan & Hne & _ & Hi).
  assert (He : group_ok g e) by (split_and!; [done|done|by rewrite Hn]).
  destruct (read_regrouped s g e Hu He (inherited_proto _ Hi) Hlen) as [_ Hl].
  split; [by unfold same_people, s'; simpl; rewrite Hu|]. split; [|split].
  - unfold deflabel, def_label. f_equal. apply read_ext. unfold s'. rewrite Hl. by rewrite decide_False.
  - unfold blklabel, blocked_label. f_equal. apply read_ext. unfold s'. rewrite Hl. by rewrite decide_False.
  - apply set_eq. intros k. unfold s'. rewrite elem_of_folders. setoid_rewrite Hl. destruct (decide (k = g)) as [->|Hk].
    + destruct (g_removed e) eqn:Er.
      * split; [intros (e' & [= <-] & Hr & _); congruence|set_solver].
      * split; [set_solver|]. intros _. by exists e.
    + rewrite <-elem_of_folders. destruct (g_removed e); set_solver.
Qed.

Lemma run_addGroup s g :
  unlocked s = true -> plain_folder g = true -> g <> deflabel s -> g <> blklabel s ->
  (length (read_groups s) < GROUP_MAP_MAX_ENTRIES)%nat ->
  let s' := (run (addGroup g) s).2 in
  same_people s s' /\ deflabel s' = deflabel s /\ blklabel s' = blklabel s /\ folders s' = {[g]} ∪ folders s /\
  (length (read_groups s') <= S (length (read_groups s)))%nat.
Proof.
  intros Hu Hg Hd Hb Hlen s'. pose proof (folder_present s g Hg) as Hp.
  pose proof (proj1 (plain_folder_spec g) Hg) as (Hsan & Hne & Hdef & Hi).
  destruct (decide (g ∈ folders s)) as [Hf|Hf].
  { assert (E : s' = s).
    { unfold s', addGroup. rewrite Hsan. cbn [pbind loadGroupMap run]. rewrite !bool_decide_eq_false_2 by done.
      cbn [orb pbind loadGroupMap run]. by rewrite Hp, bool_decide_eq_true_2. }
    rewrite E. split_and!; [done..| |lia]. clear -Hf. set_solver. }
  set (e := MkGroup (clock s) false (max_order (read_groups s) + 1) None).
  assert (E : s' = regrouped s g e).
  { unfold s', addGroup. rewrite Hsan. cbn [pbind loadGroupMap run]. rewrite !bool_decide_eq_false_2 by done.
    cbn [orb pbind loadGroupMap run]. rewrite Hp, bool_decide_eq_false_2 by done.
    cbn [now saveGroupMap tell listGroups loadGroupMap pbind run snd]. by rewrite Hu. }
  clearbody s'. subst s'. pose proof (set_length g e (read_groups s)) as Hs.
  destruct (regrouped_folder s g e) as (H1 & H2 & H3 & H4); [done..|lia|]. split_and!; try done.
  destruct (read_regrouped s g e) as [-> _]; [done|split_and!; done|by apply inherited_proto|lia|done].
Qed.

(** A deletion of a folder that nobody is in. *)
Lemma move_none g l bs any s :
  (forall u e, (u, e) ∈ l -> b_removed e = true \/ b_group e <> g) -> run (move_out g l bs any) s = ((bs, any), s).
Proof.
  revert bs any. induction l as [|[u e] l IH]; intros bs any Hl; cbn [move_out]; [done|].
  destruct (Hl u e) as [->|Hg]; [by left| |].
  - cbn [negb andb]. apply IH. intros u' e' Hin. apply (Hl u'). by right.
  - rewrite bool_decide_eq_false_2, andb_false_r by done. apply IH. intros u' e' Hin. apply (Hl u'). by right.
Qed.

Lemma run_deleteGroup s g :
  unlocked s = true -> plain_folder g = true -> (forall u, view s !! u <> Some g) ->
  (length (read_groups s) <= GROUP_MAP_MAX_ENTRIES)%nat ->
  let s' := (run (deleteGroup g) s).2 in
  same_people s s' /\ deflabel s' = deflabel s /\ blklabel s' = blklabel s /\ folders s' = folders s ∖ {[g]} /\
  length (read_groups s') = length (read_groups s).
Proof.
  intros Hu Hg Hv Hlen s'. pose proof (folder_present s g Hg) as Hp.
  pose proof (proj1 (plain_folder_spec g) Hg) as (Hsan & Hne & Hdef & Hi).
  destruct (decide (g ∈ folders s)) as [Hf|Hf].
  2:{ assert (E : s' = s).
      { unfold s', deleteGroup. rewrite (plain_trim g Hg), (plain_no_nul g Hg), !bool_decide_eq_false_2 by done.
        cbn [orb pbind loadGroupMap run]. by rewrite Hp, bool_decide_eq_false_2. }
      rewrite E. split_and!; try done. clear -Hf. set_solver. }
  pose proof Hf as (e0 & Hl0 & Hr0 & _)%elem_of_folders.
  assert (Hread : read g (read_groups s) = Own e0) by by rewrite read_plain, Hl0.
  pose proof (map_ok_read _ _ _ _ (read_groups_ok s) Hread) as (_ & _ & Hn0).
  assert (Hn : g_n e0 = None).
  { destruct (g_n e0) as [n|]; [|done]. destruct (Hn0 n eq_refl) as [Hres _]. unfold reserved in Hres.
    pose proof (plain_not_key g Hg) as [Hd Hb]. by rewrite !bool_decide_eq_false_2 in Hres. }
  set (e := MkGroup (clock s) true (g_order e0) (g_n e0)).
  assert (E : s' = regrouped s g e).
  { unfold s', deleteGroup. rewrite (plain_trim g Hg), (plain_no_nul g Hg), !bool_decide_eq_false_2 by done.
    cbn [orb pbind loadGroupMap run]. rewrite Hp, bool_decide_eq_true_2 by done.
    cbn [negb now saveGroupMap loadBuddyMap pbind run]. rewrite Hu, run_bind.
    rewrite move_none.
    - cbn [fst snd pbind run tell listGroups loadGroupMap]. unfold regrouped. by rewrite Hread.
    - intros u b Hin. change (read_buddies (set_groups s _)) with (read_buddies s) in Hin. rewrite elem_of_entries in Hin.
      destruct (b_removed b) eqn:Er; [by left|right]. intros Hb. apply (Hv u). rewrite view_lookup.
      rewrite (NoDup_lookup _ _ _ (proj1 (read_buddies_ok s)) Hin), Er. by rewrite Hb. }
  clearbody s'. subst s'. pose proof (set_present_length g e _ _ Hl0) as Hs.
  destruct (regrouped_folder s g e) as (H1 & H2 & H3 & H4); [done..|lia|]. split_and!; try done.
  destruct (read_regrouped s g e) as [-> _]; [done|split_and!; [done..|cbn; by rewrite Hn]|by apply inherited_proto|lia|lia].
Qed.

(** A new name for one of the two built-in folders. *)
Definition label_in (s : State) (r : role) : string := match r with RoleDefault => deflabel s | RoleBlocked => blklabel s end.
Definition other_role (r : role) : role := match r with RoleDefault => RoleBlocked | RoleBlocked => RoleDefault end.
Definition role_key (r : role) : string := match r with RoleDefault => RK_DEFAULT | RoleBlocked => RK_BLOCKED end.

Lemma label_regrouped s r e n :
  (forall g, JsMap.lookup g (read_groups (regrouped s (role_key r) e)) =
    if decide (g = role_key r) then Some e else JsMap.lookup g (read_groups s)) ->
  g_n e = Some n -> n <> "" ->
  label_in (regrouped s (role_key r) e) r = n /\ label_in (regrouped s (role_key r) e) (other_role r) = label_in s (other_role r).
Proof.
  intros Hl Hn Hne. destruct e as [v rm o n']. cbn in Hn. subst n'.
  destruct r; cbn [label_in other_role role_key] in *; unfold deflabel, blklabel, def_label, blocked_label; split.
  - unfold read. rewrite Hl, decide_True by done. cbn. by rewrite bool_decide_eq_false_2.
  - f_equal. apply read_ext. by rewrite Hl.
  - unfold read. rewrite Hl, decide_True by done. cbn. by rewrite bool_decide_eq_false_2.
  - f_equal. apply read_ext. by rewrite Hl.
Qed.

Lemma run_renameGroup s r g :
  unlocked s = true -> sanitizeGroupName g = g -> g <> "" -> g <> label_in s (other_role r) ->
  (r = RoleBlocked -> g <> DEFAULT_GROUP) -> g ∉ folders s -> (length (read_groups s) < GROUP_MAP_MAX_ENTRIES)%nat ->
  let s' := (run (renameGroup r g) s).2 in
  same_people s s' /\ label_in s' r = g /\ label_in s' (other_role r) = label_in s (other_role r) /\
  folders s' = folders s /\ (length (read_groups s') <= S (length (read_groups s)))%nat.
Proof.
  intros Hu Hsan Hne Hother Hdef Hf Hlen s'.
  set (e := MkGroup (clock s) false 0 (Some g)).
  assert (Hc : existsb (fun x => bool_decide (x.1 = g)) (customs (read_groups s)) = false).
  { apply not_true_iff_false. intros (x & Hx%list_elem_of_In & Hxg%bool_decide_eq_true)%existsb_exists. apply Hf.
    unfold folders. rewrite elem_of_list_to_set, <-Hxg. by apply list_elem_of_fmap_2. }
  assert (E : s' = regrouped s (role_key r) e).
  { unfold s', renameGroup. rewrite Hsan, bool_decide_eq_false_2 by done. cbn [pbind loadGroupMap run]. rewrite Hc, orb_false_r.
    assert (H1 : forall o, o = label_in s (other_role r) -> bool_decide (g = o) = false)
      by (intros o ->; by apply bool_decide_eq_false_2).
    assert (H2 : negb (bool_decide (r = RoleDefault)) && bool_decide (g = DEFAULT_GROUP) = false).
    { destruct r; [done|]. by rewrite (bool_decide_eq_false_2 (g = DEFAULT_GROUP)), andb_false_r by auto. }
    rewrite H2, H1 by (by destruct r). cbn [orb now saveGroupMap tell listGroups loadGroupMap pbind run snd].
    rewrite Hu. by destruct r. }
  clearbody s'. subst s'. pose proof (set_length (role_key r) e (read_groups s)) as Hs.
  assert (He : group_ok (role_key r) e).
  { split_and!; [by destruct r|by destruct r|]. intros n [= <-]. by destruct r. }
  destruct (read_regrouped s (role_key r) e) as [Hlen' Hl]; [done|done|by destruct r|lia|].
  destruct (label_regrouped s r e g Hl eq_refl Hne) as [L1 L2]. split; [by unfold same_people; simpl; rewrite Hu|].
  split; [done|]. split; [done|]. split; [|lia]. apply set_eq. intros k. rewrite elem_of_folders. setoid_rewrite Hl.
  destruct (decide (k = role_key r)) as [->|Hk]; [|by rewrite <-elem_of_folders].
  split; [intros (? & _ & _ & Hn); by destruct r|]. intros (? & _ & _ & Hn)%elem_of_folders. by destruct r.
Qed.

(** The calls about buddies, and what they leave alone. *)
Definition same_folders (s s' : State) : Prop :=
  unlocked s' = unlocked s /\ Contacts.groups s' = Contacts.groups s /\ Contacts.blocked s' = Contacts.blocked s.

Lemma same_labels s s' :
  same_folders s s' -> read_groups s' = read_groups s /\ folders s' = folders s /\ deflabel s' = deflabel s /\
  blklabel s' = blklabel s /\ keys s' = keys s.
Proof.
  intros (H1 & H2 & H3). assert (E : read_groups s' = read_groups s) by (unfold read_groups; by rewrite H1, H2).
  unfold folders, deflabel, blklabel, keys, read_blocked. by rewrite E, H1, H3.
Qed.

Definition plain_user (u : string) : bool :=
  bool_decide (normalize_handle u = u) && negb (bool_decide (u = "")) && negb (bool_decide (u ∈ inherited)).
Lemma plain_user_spec u : plain_user u = true <-> normalize_handle u = u /\ u <> "" /\ u ∉ inherited.
Proof. unfold plain_user. rewrite !andb_true_iff, !negb_true_iff, bool_decide_eq_true, !bool_decide_eq_false. tauto. Qed.

Definition place (g : string) : bool := bool_decide (g = DEFAULT_GROUP) || plain_folder g.
Lemma place_folder g : place g = true -> folder (Some g) = g.
Proof.
  unfold place, folder. intros [->%bool_decide_eq_true|(H1 & H2 & _)%plain_folder_spec]%orb_true_iff; [by vm_compute|].
  rewrite H1. by rewrite bool_decide_eq_false_2.
Qed.

Lemma frame_addBuddy u g s : same_folders s (run (addBuddy u g) s).2.
Proof. unfold addBuddy, same_folders. repeat (case_match; simpl; try done); by destruct (unlocked s). Qed.
Lemma frame_setBuddyGroup u g s : same_folders s (run (setBuddyGroup u g) s).2.
Proof. unfold setBuddyGroup, same_folders. simpl. case_match; simpl; [done|]. by destruct (unlocked s) eqn:E; simpl. Qed.
Lemma frame_removeBuddy u s : same_folders s (run (removeBuddy u) s).2.
Proof. unfold removeBuddy, same_folders. simpl. case_match; simpl; [done|]. by destruct (unlocked s) eqn:E; simpl. Qed.

Lemma run_addBuddy s u g :
  unlocked s = true -> plain_user u = true -> place g = true -> view s !! u = None ->
  view (run (addBuddy u (Some g)) s).2 = <[u := g]> (view s).
Proof.
  intros Hu (Hn & Hne & Hi)%plain_user_spec Hg%place_folder Hv.
  destruct (add_refines s u Hu Hi u (Some g) Hn) as [-> _]. simpl. rewrite Hn, decide_False by done. by rewrite Hv, Hg.
Qed.
Lemma run_setBuddyGroup s u g :
  unlocked s = true -> plain_user u = true -> place g = true -> is_Some (view s !! u) ->
  view (run (setBuddyGroup u g) s).2 = <[u := g]> (view s).
Proof.
  intros Hu (Hn & Hne & Hi)%plain_user_spec Hg%place_folder [g0 Hv].
  destruct (set_refines s u Hu Hi u g Hn) as [-> _]. simpl. rewrite Hn, Hg. apply map_eq. intros v.
  destruct (decide (v = u)) as [->|Hne']; [by rewrite lookup_alter_eq, lookup_insert_eq, Hv|].
  by rewrite lookup_alter_ne, lookup_insert_ne.
Qed.
Lemma run_removeBuddy s u :
  unlocked s = true -> plain_user u = true -> view (run (removeBuddy u) s).2 = delete u (view s).
Proof.
  intros Hu (Hn & Hne & Hi)%plain_user_spec. destruct (remove_refines s u Hu Hi u Hn) as [-> _]. simpl. by rewrite Hn.
Qed.

(** The block list is saved and loaded unchanged. *)
Lemma blocked_roundtrip l : normalizeBlocked (Some (blocked_json l)) = l.
Proof. unfold blocked_json, normalizeBlocked. induction l as [|[k [u|]] l IH]; csimpl; [done| |]; f_equal; exact IH. Qed.
Lemma run_unblock s k :
  unlocked s = true ->
  let s' := (run (unblock k) s).2 in
  unlocked s' = true /\ Contacts.buddies s' = Contacts.buddies s /\ Contacts.groups s' = Contacts.groups s /\
  read_blocked s' = List.filter (fun e => negb (bool_decide (k_key e = k))) (read_blocked s).
Proof.
  intros Hu. cbn [unblock loadBlockedEntries saveBlocked listBlocked pbind run snd]. rewrite Hu. split_and!; [done..|].
  unfold read_blocked at 1. cbn [unlocked set_blocked Contacts.blocked]. rewrite Hu. cbn [negb]. apply blocked_roundtrip.
Qed.

(** ** The loops of Save *)

Lemma run_ignoring {A} (p : prog A) s : run (ignoring p) s = (tt, (run p s).2).
Proof. unfold ignoring. by rewrite run_bind. Qed.
Lemma run_each {A} (x : A) l f s : (run (for_each (x :: l) f) s).2 = (run (for_each l f) (run (f x) s).2).2.
Proof. cbn [for_each]. by rewrite run_bind. Qed.

Lemma has_custom_spec g gs : has_custom g gs = true <-> g ∈ s_name <$> List.filter is_custom gs.
Proof.
  unfold has_custom. rewrite existsb_exists, list_elem_of_fmap. split.
  - intros (x & Hx & [H1 H2%bool_decide_eq_true]%andb_true_iff). exists x. split; [done|]. apply list_elem_of_In, filter_In. done.
  - intros (x & -> & [Hx1 Hx2]%list_elem_of_In%filter_In). exists x. split; [done|]. unfold named. by rewrite Hx2, bool_decide_eq_true_2.
Qed.

Definition added (d : Setup) (g : GroupSummary) : bool := is_custom g && negb (has_custom (s_name g) (groups (orig d))).
Definition deleted (d : Setup) (g : GroupSummary) : bool := is_custom g && negb (has_custom (s_name g) (groups (draft d))).

Lemma run_save_groups d l s :
  unlocked s = true ->
  (forall g, g ∈ l -> added d g = true -> plain_folder (s_name g) = true /\ s_name g <> deflabel s /\ s_name g <> blklabel s) ->
  (length (read_groups s) + length l <= GROUP_MAP_MAX_ENTRIES)%nat ->
  let s' := (run (for_each l (save_group d)) s).2 in
  same_people s s' /\ deflabel s' = deflabel s /\ blklabel s' = blklabel s /\
  folders s' = list_to_set (s_name <$> List.filter (added d) l) ∪ folders s /\
  (length (read_groups s') <= length (read_groups s) + length l)%nat.
Proof.
  revert s. induction l as [|g l IH]; intros s Hu Hl Hlen; [split_and!; try done; [clear; set_solver|simpl; lia]|].
  cbn zeta. rewrite run_each. simpl in Hlen. unfold save_group at 2 4 6 8 10. fold (added d g).
  destruct (added d g) eqn:Ea.
  - rewrite run_ignoring. cbn [snd]. destruct (Hl g) as (Hg & Hd & Hb); [left|done|].
    destruct (run_addGroup s g.(s_name)) as (H1 & H2 & H3 & H4 & H5); [done..|lia|].
    set (s1 := (run (addGroup (s_name g)) s).2) in *. destruct (IH s1) as (J1 & J2 & J3 & J4 & J5).
    + by destruct H1 as [-> _].
    + intros x Hx. rewrite H2, H3. apply Hl. by right.
    + lia.
    + destruct H1 as (A1 & A2 & A3), J1 as (B1 & B2 & B3). split_and!; try congruence.
      * unfold same_people. split_and!; congruence.
      * rewrite J4, H4. cbn [List.filter]. rewrite Ea. cbn [fmap list_fmap list_to_set]. clear. set_solver.
      * simpl. lia.
  - cbn [run snd]. destruct (IH s) as (J1 & J2 & J3 & J4 & J5); [done| |lia|].
    + intros x Hx. apply Hl. by right.
    + split_and!; try done; [|simpl; lia]. rewrite J4. cbn [List.filter]. by rewrite Ea.
Qed.

Lemma run_save_deletions d l s :
  unlocked s = true ->
  (forall g, g ∈ l -> deleted d g = true -> plain_folder (s_name g) = true /\ forall u, view s !! u <> Some (s_name g)) ->
  (length (read_groups s) <= GROUP_MAP_MAX_ENTRIES)%nat ->
  let s' := (run (for_each l (save_deletion d)) s).2 in
  same_people s s' /\ deflabel s' = deflabel s /\ blklabel s' = blklabel s /\
  folders s' = folders s ∖ list_to_set (s_name <$> List.filter (deleted d) l) /\
  length (read_groups s') = length (read_groups s).
Proof.
  revert s. induction l as [|g l IH]; intros s Hu Hl Hlen; [split_and!; try done; clear; set_solver|].
  cbn zeta. rewrite run_each. unfold save_deletion at 2 4 6 8 10. fold (deleted d g).
  destruct (deleted d g) eqn:Ea.
  - rewrite run_ignoring. cbn [snd]. destruct (Hl g) as (Hg & Hv); [left|done|].
    destruct (run_deleteGroup s g.(s_name)) as (H1 & H2 & H3 & H4 & H5); [done..|].
    set (s1 := (run (deleteGroup (s_name g)) s).2) in *. destruct (IH s1) as (J1 & J2 & J3 & J4 & J5).
    + by destruct H1 as [-> _].
    + intros x Hx Hd. destruct (same_view _ _ H1) as [-> _]. apply Hl; [by right|done].
    + lia.
    + destruct H1 as (A1 & A2 & A3), J1 as (B1 & B2 & B3). split_and!; try congruence.
      * unfold same_people. split_and!; congruence.
      * rewrite J4, H4. cbn [List.filter]. rewrite Ea. cbn [fmap list_fmap list_to_set]. clear. set_solver.
  - cbn [run snd]. destruct (IH s) as (J1 & J2 & J3 & J4 & J5); [done| |done|].
    + intros x Hx. apply Hl. by right.
    + split_and!; try done. rewrite J4. cbn [List.filter]. by rewrite Ea.
Qed.

(** Who is on a list of buddies, and where. *)
Definition people (bs : list Buddy) : gmap string string := list_to_map ((fun b => (username b, group b)) <$> bs).

Lemma same_folders_trans s1 s2 s3 : same_folders s1 s2 -> same_folders s2 s3 -> same_folders s1 s3.
Proof. intros (A1 & A2 & A3) (B1 & B2 & B3). split_and!; congruence. Qed.

(** What is stored of a buddy is what was loaded. *)
Definition as_loaded (d : Setup) (s : State) (b : Buddy) : Prop :=
  view s !! username b = group <$> find_buddy (username b) (buddies (orig d)).

Lemma run_save_buddy d b s :
  unlocked s = true -> plain_user (username b) = true -> as_loaded d s b ->
  (find_buddy (username b) (buddies (orig d)) = None \/
   (exists o, find_buddy (username b) (buddies (orig d)) = Some o /\ group o <> group b) -> place (group b) = true) ->
  let s' := (run (save_buddy d b) s).2 in
  same_folders s s' /\ view s' = <[username b := group b]> (view s).
Proof.
  intros Hu Hp Hl Hg. unfold save_buddy. unfold as_loaded in Hl.
  destruct (find_buddy _ _) as [o|]; cbn [fmap option_fmap option_map] in Hl.
  - destruct (bool_decide_reflect (group o = group b)) as [E|Hne].
    + split; [done|]. cbn [run snd]. rewrite insert_id; [done|]. congruence.
    + rewrite run_ignoring. cbn [snd]. split; [apply frame_setBuddyGroup|].
      apply run_setBuddyGroup; [done|done| |by exists (group o)]. apply Hg. right. by exists o.
  - rewrite run_ignoring. cbn [snd]. split; [apply frame_addBuddy|]. apply run_addBuddy; [done|done| |done]. apply Hg. by left.
Qed.

Lemma run_save_buddies d l s :
  unlocked s = true -> NoDup (username <$> l) ->
  (forall b, b ∈ l -> plain_user (username b) = true /\ as_loaded d s b /\
     (find_buddy (username b) (buddies (orig d)) = None \/
      (exists o, find_buddy (username b) (buddies (orig d)) = Some o /\ group o <> group b) -> place (group b) = true)) ->
  let s' := (run (for_each l (save_buddy d)) s).2 in
  same_folders s s' /\ view s' = people l ∪ view s.
Proof.
  revert s. induction l as [|b l IH]; intros s Hu Hn Hl.
  { split; [done|]. unfold people. cbn. by rewrite map_empty_union. }
  cbn zeta. rewrite run_each. apply NoDup_cons in Hn as [Hb Hn].
  destruct (Hl b) as (H1 & H2 & H3); [left|]. destruct (run_save_buddy d b s Hu H1 H2 H3) as [F V].
  set (s1 := (run (save_buddy d b) s).2) in *. destruct (IH s1) as [F' V'].
  - by destruct F as [-> _].
  - done.
  - intros x Hx. destruct (Hl x) as (X1 & X2 & X3); [by right|]. split; [done|]. split; [|done].
    unfold as_loaded. rewrite V, lookup_insert_ne; [exact X2|]. intros E. apply Hb. rewrite E. by apply list_elem_of_fmap_2.
  - split; [by eapply same_folders_trans|]. rewrite V', V. unfold people. rewrite fmap_cons, list_to_map_cons.
    apply map_eq. intros u. rewrite !lookup_union.
    destruct (decide (u = username b)) as [->|Hne].
    2:{ rewrite !lookup_insert_ne by congruence. done. }
    rewrite !lookup_insert_eq. rewrite not_elem_of_list_to_map_1; [by destruct (view s !! username b)|]. by rewrite <-list_fmap_compose.
Qed.

Definition dropped (d : Setup) (b : Buddy) : Prop := find_buddy (username b) (buddies (draft d)) = None.

#[local] Instance dropped_dec d b : Decision (dropped d b).
Proof. unfold dropped. destruct (find_buddy _ _); [by right|by left]. Defined.
Lemma classic_in u (l : list Buddy) d :
  (exists b, b ∈ l /\ username b = u /\ dropped d b) \/ ~ (exists b, b ∈ l /\ username b = u /\ dropped d b).
Proof.
  destruct (decide (Exists (fun b => username b = u /\ dropped d b) l)) as [H1|H1]; rewrite Exists_exists in H1; [by left|by right].
Qed.

Lemma run_save_removals d l s :
  unlocked s = true -> (forall b, b ∈ l -> plain_user (username b) = true) ->
  let s' := (run (for_each l (save_removal d)) s).2 in
  same_folders s s' /\ forall u,
    ((exists b, b ∈ l /\ username b = u /\ dropped d b) -> view s' !! u = None) /\
    (~ (exists b, b ∈ l /\ username b = u /\ dropped d b) -> view s' !! u = view s !! u).
Proof.
  revert s. induction l as [|b l IH]; intros s Hu Hl.
  { split; [done|]. intros u. split; [|done]. intros (b & Hb & _). by apply not_elem_of_nil in Hb. }
  cbn zeta. rewrite run_each.
  assert (H1 : same_folders s (run (save_removal d b) s).2 /\
    view (run (save_removal d b) s).2 = (if decide (dropped d b) then delete (username b) (view s) else view s)).
  { unfold save_removal. destruct (decide (dropped d b)) as [Hd|Hd]; unfold dropped in Hd.
    - rewrite Hd, run_ignoring. cbn [snd]. split; [apply frame_removeBuddy|]. apply run_removeBuddy; [done|]. apply Hl. left.
    - by destruct (find_buddy _ _). }
  destruct H1 as [F V]. set (s1 := (run (save_removal d b) s).2) in *. destruct (IH s1) as [F' V'].
  { by destruct F as [-> _]. }
  { intros x Hx. apply Hl. by right. }
  split; [by eapply same_folders_trans|]. intros u. destruct (V' u) as [V1 V2].
  destruct (classic_in u l d) as [Hin|Hnin]; [split; [intros _; by apply V1|]|].
  - intros Hno. destruct Hno. destruct Hin as (x & Hx & Hd). exists x. split; [by right|done].
  - rewrite (V2 Hnin), V. destruct (decide (dropped d b)) as [Hd|Hd].
    + destruct (decide (username b = u)) as [<-|Hne].
      * split; [by rewrite lookup_delete_eq|]. intros Hno. destruct Hno. exists b. split; [left|done].
      * rewrite lookup_delete_ne by done. split; [|done]. intros (x & [->|Hx]%elem_of_cons & Hxu & Hxd); [done|].
        destruct Hnin. by exists x.
    + split; [|done]. intros (x & [->|Hx]%elem_of_cons & Hxu & Hxd); [done|]. destruct Hnin. by exists x.
Qed.

(** The names of the built-in folders: the default one first. *)
Lemma run_save_label d r s new old :
  unlocked s = true -> label r (groups (draft d)) = Some new -> label r (groups (orig d)) = Some old -> label_in s r = old ->
  (new <> old -> sanitizeGroupName new = new /\ new <> "" /\ new <> label_in s (other_role r) /\
     (r = RoleBlocked -> new <> DEFAULT_GROUP) /\ new ∉ folders s) ->
  (length (read_groups s) < GROUP_MAP_MAX_ENTRIES)%nat ->
  let s' := (run (save_label d r) s).2 in
  same_people s s' /\ label_in s' r = new /\ label_in s' (other_role r) = label_in s (other_role r) /\
  folders s' = folders s /\ (length (read_groups s') <= S (length (read_groups s)))%nat.
Proof.
  intros Hu Hn Ho Hl Hc Hlen. unfold save_label. rewrite Hn, Ho. destruct (bool_decide_reflect (new = old)) as [E|Hne].
  - cbn [run snd]. split_and!; [done..|congruence|done|done|lia].
  - rewrite run_ignoring. cbn [snd]. destruct (Hc Hne) as (H1 & H2 & H3 & H4 & H5). by apply run_renameGroup.
Qed.

Lemma filter_filter {A} (p q : A -> bool) l : List.filter p (List.filter q l) = List.filter (fun x => q x && p x) l.
Proof. induction l as [|x l IH]; simpl; [done|]. destruct (q x); simpl; by rewrite IH. Qed.
Lemma filter_ext_in {A} (p q : A -> bool) l : (forall x, x ∈ l -> p x = q x) -> List.filter p l = List.filter q l.
Proof.
  induction l as [|x l IH]; simpl; intros Hpq; [done|]. rewrite (Hpq x) by left. rewrite IH; [done|].
  intros y Hy. apply Hpq. by right.
Qed.

Definition kept_blocked (d : Setup) (k : string) : bool := existsb (fun x => bool_decide (bl_key x = k)) (blocked (draft d)).
Definition unblocked (d : Setup) (l : list BlockedContact) (k : string) : bool :=
  existsb (fun b => bool_decide (bl_key b = k) && negb (kept_blocked d k)) l.

Lemma run_save_unblocks d l s :
  unlocked s = true ->
  let s' := (run (for_each l (save_unblock d)) s).2 in
  unlocked s' = true /\ Contacts.buddies s' = Contacts.buddies s /\ Contacts.groups s' = Contacts.groups s /\
  read_blocked s' = List.filter (fun e => negb (unblocked d l (k_key e))) (read_blocked s).
Proof.
  revert s. induction l as [|b l IH]; intros s Hu.
  { split_and!; try done. cbn. by rewrite filter_all. }
  cbn zeta. rewrite run_each. unfold save_unblock at 2 4 6 8. fold (kept_blocked d (bl_key b)).
  destruct (kept_blocked d (bl_key b)) eqn:Ek.
  - cbn [run snd]. destruct (IH s Hu) as (H1 & H2 & H3 & H4). split_and!; try done. rewrite H4. apply filter_ext_in.
    intros e _. unfold unblocked. cbn [existsb]. destruct (bool_decide_reflect (bl_key b = k_key e)) as [E|]; [|done].
    by rewrite <-E, Ek.
  - rewrite run_ignoring. cbn [snd]. destruct (run_unblock s (bl_key b) Hu) as (A1 & A2 & A3 & A4).
    set (s1 := (run (unblock (bl_key b)) s).2) in *. destruct (IH s1 A1) as (H1 & H2 & H3 & H4).
    split_and!; [done|congruence|congruence|]. rewrite H4, A4, filter_filter. apply filter_ext_in. intros e _.
    unfold unblocked. cbn [existsb]. rewrite negb_orb. f_equal. rewrite negb_andb, negb_involutive.
    destruct (bool_decide_reflect (bl_key b = k_key e)) as [E|Hne].
    + rewrite <-E, Ek, bool_decide_eq_true_2 by done. done.
    + by rewrite bool_decide_eq_false_2 by congruence.
Qed.
End calls.

(** ** What edits make of the lists *)

Definition custom (n : string) : GroupSummary := MkSummary n None.

(** The two built-in folders and the ones the user made, around the second. *)
Inductive shape (nd nb : string) (cs1 cs2 : list string) : list GroupSummary -> Prop :=
  | Shape : NoDup (nd :: cs1 ++ nb :: cs2) -> DEFAULT_GROUP ∉ cs1 ++ cs2 ->
      shape nd nb cs1 cs2 (MkSummary nd (Some RoleDefault) :: (custom <$> cs1) ++ MkSummary nb (Some RoleBlocked) :: (custom <$> cs2)).

Definition customs_of (gs : list GroupSummary) : list string := s_name <$> List.filter is_custom gs.

Lemma filter_custom (cs : list string) : List.filter is_custom (custom <$> cs) = custom <$> cs.
Proof. induction cs as [|c cs IH]; csimpl; [done|by rewrite IH]. Qed.
Lemma names_custom (cs : list string) : s_name <$> (custom <$> cs) = cs.
Proof. induction cs as [|c cs IH]; csimpl; [done|by rewrite IH]. Qed.

Lemma shape_customs nd nb cs1 cs2 gs : shape nd nb cs1 cs2 gs -> customs_of gs = cs1 ++ cs2.
Proof.
  intros []. unfold customs_of. cbn [List.filter is_custom s_role]. rewrite List.filter_app. cbn [List.filter is_custom s_role].
  by rewrite !filter_custom, fmap_app, !names_custom.
Qed.
Lemma shape_names nd nb cs1 cs2 gs : shape nd nb cs1 cs2 gs -> s_name <$> gs = nd :: cs1 ++ nb :: cs2.
Proof. intros []. rewrite fmap_cons, fmap_app, fmap_cons, !names_custom. done. Qed.
Lemma shape_labels nd nb cs1 cs2 gs :
  shape nd nb cs1 cs2 gs -> label RoleDefault gs = Some nd /\ label RoleBlocked gs = Some nb.
Proof.
  intros []. unfold label. split; [done|]. clear. cbn. induction cs1 as [|c cs1 IH]; [done|exact IH].
Qed.

(** A buddy is in the default folder or in one that the user made. *)
Definition placed (gs : list GroupSummary) (g : string) : Prop := g = DEFAULT_GROUP \/ g ∈ customs_of gs.

Record sound (d : Setup) : Prop := MkSound {
  sound_users : NoDup (username <$> buddies (draft d));
  sound_shape : exists nd nb cs1 cs2, shape nd nb cs1 cs2 (groups (draft d));
  sound_placed : forall b, b ∈ buddies (draft d) -> placed (groups (draft d)) (group b);
  sound_selected : forall id, selected d = Some (MkSel SelGroup id) -> placed (groups (draft d)) id;
  sound_blocked : exists P : string -> bool, blocked (draft d) = List.filter (fun b => P (bl_key b)) (blocked (orig d)) }.

Lemma elem_of_fold_names {A} (f : A -> string) (l : list A) (s : list string) x :
  x ∈ foldl (fun s a => add_name s (f a)) s l <-> x ∈ s \/ x ∈ f <$> l.
Proof.
  revert s. induction l as [|a l IH]; intros s; csimpl; [set_solver|]. rewrite IH. unfold add_name.
  destruct (bool_decide_reflect (f a ∈ s)); set_solver.
Qed.

Lemma order_placed d x : sound d -> x ∈ allGroupOrder (draft d) -> placed (groups (draft d)) x.
Proof.
  intros Hs. unfold allGroupOrder. cbv zeta. rewrite elem_of_fold_names, elem_of_fold_names. intros [[Hx|Hx]|Hx].
  - left. by apply list_elem_of_singleton in Hx.
  - right. unfold customs_of. apply list_elem_of_fmap in Hx as (g & -> & Hg). apply list_elem_of_fmap_2.
    apply ContactsLogic.elem_of_list_filter in Hg as [Hg [Hc _]%andb_true_iff]. by apply ContactsLogic.elem_of_list_filter.
  - apply list_elem_of_fmap in Hx as (b & -> & Hb). case_bool_decide; [by left|]. by apply (sound_placed d Hs).
Qed.

Lemma named_in name gs : existsb (named name) gs = false -> name ∉ s_name <$> gs.
Proof.
  intros Hn Hin. apply list_elem_of_fmap in Hin as (g & -> & Hg). apply not_true_iff_false in Hn. apply Hn.
  apply existsb_exists. exists g. split; [by apply list_elem_of_In|]. by apply bool_decide_eq_true_2.
Qed.

(** A name that is new to the screen. *)
Definition fresh_name (name nd nb : string) (cs1 cs2 : list string) : Prop := name ∉ nd :: cs1 ++ nb :: cs2.

Lemma shape_add nd nb cs1 cs2 gs n :
  shape nd nb cs1 cs2 gs -> fresh_name n nd nb cs1 cs2 -> n <> DEFAULT_GROUP -> shape nd nb cs1 (cs2 ++ [n]) (gs ++ [custom n]).
Proof.
  intros [Hn Hd] Hf Hne. replace ((_ :: _ ++ _ :: _) ++ [custom n]) with
    (MkSummary nd (Some RoleDefault) :: (custom <$> cs1) ++ MkSummary nb (Some RoleBlocked) :: (custom <$> cs2 ++ [n]))
    by (rewrite fmap_app; cbn; rewrite <-app_assoc; done).
  constructor; [|set_solver]. unfold fresh_name in Hf. replace (nd :: cs1 ++ nb :: cs2 ++ [n]) with ((nd :: cs1 ++ nb :: cs2) ++ [n])
    by (cbn; rewrite <-app_assoc; done).
  apply NoDup_app. split; [done|]. split; [set_solver|apply NoDup_singleton].
Qed.

Lemma relabel_custom r name (cs : list string) : relabel r name (custom <$> cs) = custom <$> cs.
Proof. unfold relabel. rewrite <-list_fmap_compose. apply list_fmap_ext. intros i x _. done. Qed.

Lemma shape_relabel_default nd nb cs1 cs2 gs n :
  shape nd nb cs1 cs2 gs -> n ∉ cs1 ++ nb :: cs2 -> shape n nb cs1 cs2 (relabel RoleDefault n gs).
Proof.
  intros [Hn Hd] Hf. unfold relabel. rewrite fmap_cons, fmap_app, fmap_cons.
  change (fmap (fun g => if has_role RoleDefault g then MkSummary n (s_role g) else g)) with (relabel RoleDefault n).
  rewrite !relabel_custom. constructor; [|done]. apply NoDup_cons in Hn as [_ Hn]. by constructor.
Qed.
Lemma shape_relabel_blocked nd nb cs1 cs2 gs n :
  shape nd nb cs1 cs2 gs -> fresh_name n nd nb cs1 cs2 -> shape nd n cs1 cs2 (relabel RoleBlocked n gs).
Proof.
  intros [Hn Hd] Hf. unfold relabel. rewrite fmap_cons, fmap_app, fmap_cons.
  change (fmap (fun g => if has_role RoleBlocked g then MkSummary n (s_role g) else g)) with (relabel RoleBlocked n).
  rewrite !relabel_custom. constructor; [|done]. unfold fresh_name in Hf.
  rewrite <-Permutation_middle in Hn |- *. rewrite !NoDup_cons in Hn |- *. set_solver.
Qed.

(** A new name for a folder, and a folder less. *)
Definition subst_name (id n x : string) : string := if bool_decide (x = id) then n else x.
Lemma subst_other id n (l : list string) : id ∉ l -> subst_name id n <$> l = l.
Proof.
  intros Hid. rewrite <-(list_fmap_id l) at 2. apply list_fmap_ext. intros i x Hx. unfold subst_name.
  rewrite bool_decide_eq_false_2; [done|]. intros ->. apply Hid. by apply list_elem_of_lookup_2 in Hx.
Qed.
Lemma NoDup_subst id n (l : list string) : NoDup l -> n ∉ l -> NoDup (subst_name id n <$> l).
Proof.
  intros Hl Hn. induction Hl as [|x l Hx Hl IH]; csimpl; [constructor|]. constructor; [|apply IH; set_solver].
  rewrite list_elem_of_fmap. intros (y & E & Hy). unfold subst_name in E.
  destruct (bool_decide_reflect (x = id)), (bool_decide_reflect (y = id)); set_solver.
Qed.

Lemma rename_customs id n (cs : list string) :
  (fun g => if is_custom g && named id g then MkSummary n None else g) <$> (custom <$> cs) = custom <$> (subst_name id n <$> cs).
Proof.
  rewrite <-!list_fmap_compose. apply list_fmap_ext. intros i x _. unfold compose, subst_name, named. cbn. by case_bool_decide.
Qed.

Lemma shape_rename nd nb cs1 cs2 gs id n :
  shape nd nb cs1 cs2 gs -> id ∈ cs1 ++ cs2 -> fresh_name n nd nb cs1 cs2 -> n <> DEFAULT_GROUP ->
  shape nd nb (subst_name id n <$> cs1) (subst_name id n <$> cs2)
    ((fun g => if is_custom g && named id g then MkSummary n None else g) <$> gs).
Proof.
  intros [Hn Hd] Hid Hf Hne. rewrite fmap_cons, fmap_app, fmap_cons. rewrite !rename_customs. cbn [is_custom s_role andb].
  assert (Hnd : nd <> id) by (intros ->; apply NoDup_cons in Hn as [Hn _]; set_solver).
  assert (Hnb : nb <> id).
  { intros ->. apply NoDup_cons in Hn as [_ Hn]. rewrite <-Permutation_middle in Hn. apply NoDup_cons in Hn as [Hn _]. done. }
  constructor.
  - replace (nd :: _ ++ nb :: _) with (subst_name id n <$> nd :: cs1 ++ nb :: cs2).
    + by apply NoDup_subst.
    + rewrite fmap_cons, fmap_app, fmap_cons. unfold subst_name at 1 3. by rewrite !bool_decide_eq_false_2.
  - rewrite <-fmap_app. rewrite list_elem_of_fmap. intros (y & E & Hy). unfold subst_name in E. case_bool_decide; congruence.
Qed.

Lemma NoDup_filter_bool {A} (p : A -> bool) l : NoDup l -> NoDup (List.filter p l).
Proof.
  induction 1 as [|x l Hx Hl IH]; simpl; [constructor|]. destruct (p x); [|done]. constructor; [|done].
  rewrite ContactsLogic.elem_of_list_filter. tauto.
Qed.
Lemma delete_customs id (cs : list string) :
  List.filter (fun g => negb (named id g)) (custom <$> cs) = custom <$> List.filter (fun x => negb (bool_decide (x = id))) cs.
Proof. induction cs as [|c cs IH]; csimpl; [done|]. change (named id (custom c)) with (bool_decide (c = id)). case_bool_decide; csimpl; by rewrite IH. Qed.

Lemma shape_delete nd nb cs1 cs2 gs id :
  shape nd nb cs1 cs2 gs -> id ∈ cs1 ++ cs2 ->
  let keep := List.filter (fun x => negb (bool_decide (x = id))) in
  shape nd nb (keep cs1) (keep cs2) (List.filter (fun g => negb (named id g)) gs).
Proof.
  intros [Hn Hd] Hid keep.
  assert (Hnd : nd <> id) by (intros ->; apply NoDup_cons in Hn as [Hn _]; set_solver).
  assert (Hnb : nb <> id).
  { intros ->. apply NoDup_cons in Hn as [_ Hn]. rewrite <-Permutation_middle in Hn. apply NoDup_cons in Hn as [Hn _]. done. }
  assert (E1 : named id (MkSummary nd (Some RoleDefault)) = false) by by apply bool_decide_eq_false_2.
  assert (E2 : named id (MkSummary nb (Some RoleBlocked)) = false) by by apply bool_decide_eq_false_2.
  cbn [List.filter]. rewrite E1. cbn [negb]. rewrite List.filter_app. cbn [List.filter]. rewrite E2. cbn [negb].
  rewrite !delete_customs. fold keep. constructor.
  - replace (nd :: keep cs1 ++ nb :: keep cs2) with (keep (nd :: cs1 ++ nb :: cs2)); [by apply NoDup_filter_bool|].
    unfold keep. cbn [List.filter]. rewrite bool_decide_eq_false_2 by done. cbn [negb]. rewrite List.filter_app. cbn [List.filter].
    by rewrite (bool_decide_eq_false_2 (nb = id)).
  - intros Hin. apply Hd. apply elem_of_app in Hin as [Hin|Hin]; apply ContactsLogic.elem_of_list_filter in Hin as [Hin _]; set_solver.
Qed.

(** ** Every edit keeps the draft sound *)

Lemma placed_shape nd nb cs1 cs2 gs g : shape nd nb cs1 cs2 gs -> placed gs g <-> g = DEFAULT_GROUP \/ g ∈ cs1 ++ cs2.
Proof. intros Hs. unfold placed. by rewrite (shape_customs _ _ _ _ _ Hs). Qed.

Lemma sound_groups d gs sel nd nb cs1 cs2 :
  sound d -> shape nd nb cs1 cs2 gs -> (forall g, placed (groups (draft d)) g -> placed gs g) ->
  (forall id, sel = Some (MkSel SelGroup id) -> placed gs id) ->
  forall err, sound (patch (MkLists (buddies (draft d)) gs (blocked (draft d))) sel err d).
Proof.
  intros [H1 H2 H3 H4 H5] Hs Hp Hsel err. constructor; cbn; [done|by exists nd, nb, cs1, cs2| |done|done].
  intros b Hb. by apply Hp, H3.
Qed.

Lemma sound_select raw d : sound d -> on_screen d (ESelect raw) = true -> sound (select raw d).
Proof.
  intros Hs Ho. unfold select. cbn [on_screen] in Ho. destruct (row raw) as [[k id]|]; [|done].
  destruct Hs as [H1 H2 H3 H4 H5]. constructor; cbn; [done..| |done]. intros id' [= -> ->].
  apply bool_decide_eq_true in Ho. by apply order_placed.
Qed.

Lemma with_group_users (f : Buddy -> bool) g (bs : list Buddy) :
  username <$> ((fun b => if f b then with_group g b else b) <$> bs) = username <$> bs.
Proof. rewrite <-list_fmap_compose. apply list_fmap_ext. intros i b _. unfold compose. by destruct (f b). Qed.
Lemma with_group_in (f : Buddy -> bool) g (bs : list Buddy) b :
  b ∈ (fun b => if f b then with_group g b else b) <$> bs ->
  (group b = g /\ exists b0, b0 ∈ bs /\ f b0 = true) \/ (exists b0, b0 ∈ bs /\ f b0 = false /\ b = b0).
Proof.
  intros (b0 & -> & Hb)%list_elem_of_fmap. destruct (f b0) eqn:E; [left|right]; [split; [done|]|]; by exists b0.
Qed.

Lemma sound_buddies d bs :
  sound d -> NoDup (username <$> bs) -> (forall b, b ∈ bs -> placed (groups (draft d)) (group b)) -> sound (patch_buddies bs d).
Proof. intros [H1 H2 H3 H4 H5] Hn Hp. by constructor. Qed.

Lemma sound_move u g d : sound d -> on_screen d (EMove u g) = true -> sound (move u g d).
Proof.
  intros Hs Ho%bool_decide_eq_true. apply sound_buddies; [done| |].
  - rewrite with_group_users. apply Hs.
  - intros b [[-> _]|(b0 & Hb & _ & ->)]%with_group_in; [by apply order_placed|by apply (sound_placed d Hs)].
Qed.

Lemma sound_add_buddy i d : sound d -> sound (add_buddy i d).
Proof.
  intros Hs. unfold add_buddy. cbv zeta. destruct (_ || _) eqn:E; [done|]. apply orb_false_iff in E as [_ E].
  apply sound_buddies; [done| |].
  - rewrite fmap_app. apply NoDup_app. split; [apply Hs|]. split; [|apply NoDup_singleton].
    cbn. intros x Hx ->%list_elem_of_singleton. apply list_elem_of_fmap in Hx as (b & Ex & Hb).
    apply not_true_iff_false in E. apply E, existsb_exists. exists b. split; [by apply list_elem_of_In|]. by apply bool_decide_eq_true_2.
  - intros b [Hb| ->%list_elem_of_singleton]%elem_of_app; [by apply (sound_placed d Hs)|]. cbn.
    destruct (selected d) as [[[] id]|] eqn:Es; try (by left). by apply (sound_selected d Hs).
Qed.

Lemma sound_add_group i d : sound d -> sound (add_group i d).
Proof.
  intros Hs. unfold add_group. cbv zeta. destruct (_ || _) eqn:E; [done|]. apply orb_false_iff in E as [E Hn%named_in].
  apply orb_false_iff in E as [_ Hd%bool_decide_eq_false]. destruct (sound_shape d Hs) as (nd & nb & cs1 & cs2 & Hsh).
  rewrite (shape_names _ _ _ _ _ Hsh) in Hn. pose proof (shape_add _ _ _ _ _ _ Hsh Hn Hd) as Hsh'.
  unfold patch_groups. apply (sound_groups d _ _ _ _ _ _ Hs Hsh').
  - intros g. rewrite (placed_shape _ _ _ _ _ _ Hsh), (placed_shape _ _ _ _ _ _ Hsh'). set_solver.
  - intros id Hid. apply (placed_shape _ _ _ _ _ _ Hsh'). apply (sound_selected d Hs) in Hid.
    apply (placed_shape _ _ _ _ _ _ Hsh) in Hid. set_solver.
Qed.

Lemma sound_error e d : sound d -> sound (patch_error e d).
Proof. by intros [H1 H2 H3 H4 H5]. Qed.

Lemma sound_relabel r n d nd nb cs1 cs2 nd' nb' :
  sound d -> shape nd nb cs1 cs2 (groups (draft d)) -> shape nd' nb' cs1 cs2 (relabel r n (groups (draft d))) ->
  sound (patch_groups (relabel r n (groups (draft d))) d).
Proof.
  intros Hs Hsh Hsh'. apply (sound_groups d _ _ _ _ _ _ Hs Hsh').
  - intros g. by rewrite (placed_shape _ _ _ _ _ _ Hsh), (placed_shape _ _ _ _ _ _ Hsh').
  - intros id Hid%(sound_selected d Hs). by rewrite (placed_shape _ _ _ _ _ _ Hsh), <-(placed_shape _ _ _ _ _ _ Hsh') in Hid.
Qed.

Lemma sound_rename i d : sound d -> sound (rename i d).
Proof.
  intros Hs. unfold rename. cbv zeta. destruct (selected d) as [[k id]|] eqn:Es; [|done]. set (name := Auth.trim i).
  destruct (_ || _) eqn:E0; [done|]. apply orb_false_iff in E0 as [_ Hk%negb_false_iff%bool_decide_eq_true].
  set (isDefault := bool_decide (k = SelGroup) && bool_decide (id = DEFAULT_GROUP)).
  destruct (_ && negb isDefault) eqn:E1; [by apply sound_error|]. destruct (existsb _ _) eqn:E2; [by apply sound_error|].
  destruct (sound_shape d Hs) as (nd & nb & cs1 & cs2 & Hsh).
  assert (Hnew : isDefault = false -> fresh_name name nd nb cs1 cs2).
  { intros Ei. unfold fresh_name. rewrite <-(shape_names _ _ _ _ _ Hsh). apply named_in. rewrite <-E2. rewrite Ei.
    clear. induction (groups (draft d)) as [|g gs IH]; simpl; [done|]. rewrite IH. by rewrite andb_true_r. }
  assert (Hdef : isDefault = false -> name <> DEFAULT_GROUP).
  { intros Ei. rewrite Ei, andb_true_r in E1. by apply bool_decide_eq_false in E1. }
  destruct (bool_decide_reflect (k = SelGBlocked)) as [->|Hkb].
  { eapply sound_relabel; [done|exact Hsh|]. apply (shape_relabel_blocked nd nb _ _ _ _ Hsh), Hnew.
    unfold isDefault. by rewrite (bool_decide_eq_false_2 (SelGBlocked = SelGroup)). }
  destruct isDefault eqn:Ei.
  { eapply sound_relabel; [done|exact Hsh|]. apply (shape_relabel_default nd nb _ _ _ _ Hsh).
    intros Hin. apply not_true_iff_false in E2. apply E2. destruct Hsh as [Hn _].
    apply existsb_exists. apply elem_of_app in Hin as [Hin|[->|Hin]%elem_of_cons].
    - exists (custom name). split; [|unfold named; cbn; by rewrite bool_decide_eq_true_2].
      apply list_elem_of_In. apply elem_of_cons. right. apply elem_of_app. left. by apply list_elem_of_fmap_2.
    - exists (MkSummary nb (Some RoleBlocked)). split; [|unfold named; cbn; by rewrite bool_decide_eq_true_2].
      apply list_elem_of_In. apply elem_of_cons. right. apply elem_of_app. right. left.
    - exists (custom name). split; [|unfold named; cbn; by rewrite bool_decide_eq_true_2].
      apply list_elem_of_In. apply elem_of_cons. right. apply elem_of_app. right. right. by apply list_elem_of_fmap_2. }
  specialize (Hnew eq_refl). specialize (Hdef eq_refl). destruct Hk as [->|]; [|done].
  assert (Hid : id ∈ cs1 ++ cs2).
  { pose proof (sound_selected d Hs id Es) as [Hid|Hid]%(placed_shape _ _ _ _ _ _ Hsh); [|done].
    unfold isDefault in Ei. by rewrite !bool_decide_eq_true_2 in Ei. }
  pose proof (shape_rename _ _ _ _ _ id name Hsh Hid Hnew Hdef) as Hsh'.
  assert (Hname : name ∈ (subst_name id name <$> cs1) ++ (subst_name id name <$> cs2)).
  { rewrite <-fmap_app. apply list_elem_of_fmap. exists id. split; [|done]. unfold subst_name. by rewrite bool_decide_eq_true_2. }
  destruct Hs as [H1 H2 H3 H4 H5]. constructor; cbn [patch draft orig buddies groups blocked selected].
  - by rewrite with_group_users.
  - by eexists _, _, _, _.
  - intros b Hb. apply (placed_shape _ _ _ _ _ _ Hsh').
    apply with_group_in in Hb as [[-> _]|(b0 & Hb & Hf & ->)]; [by right|].
    apply H3, (placed_shape _ _ _ _ _ _ Hsh) in Hb as [Hb|Hb]; [by left|right]. rewrite <-fmap_app. apply list_elem_of_fmap.
    exists (group b0). split; [|done]. unfold subst_name. by rewrite Hf.
  - intros id' [= <-]. apply (placed_shape _ _ _ _ _ _ Hsh'). by right.
  - done.
Qed.

Lemma sound_delete d : sound d -> sound (delete_selected d).
Proof.
  intros Hs. unfold delete_selected. cbv zeta. destruct (selected d) as [[[] id]|] eqn:Es; try done.
  - destruct (bool_decide_reflect (id = DEFAULT_GROUP)) as [|Hne]; [done|].
    destruct (sound_shape d Hs) as (nd & nb & cs1 & cs2 & Hsh).
    assert (Hid : id ∈ cs1 ++ cs2) by by pose proof (sound_selected d Hs id Es) as [Hid|Hid]%(placed_shape _ _ _ _ _ _ Hsh).
    pose proof (shape_delete _ _ _ _ _ id Hsh Hid) as Hsh'. cbn zeta in Hsh'.
    destruct Hs as [H1 H2 H3 H4 H5]. constructor; cbn [patch draft orig buddies groups blocked selected].
    + by rewrite with_group_users.
    + by eexists _, _, _, _.
    + intros b Hb. apply (placed_shape _ _ _ _ _ _ Hsh').
      apply with_group_in in Hb as [[-> _]|(b0 & Hb & Hf & ->)]; [by left|].
      apply H3, (placed_shape _ _ _ _ _ _ Hsh) in Hb as [Hb|Hb]; [by left|right].
      rewrite <-List.filter_app. apply ContactsLogic.elem_of_list_filter. by rewrite Hf.
    + done.
    + done.
  - destruct Hs as [H1 H2 H3 H4 H5]. constructor; cbn [patch draft orig buddies groups blocked selected]; try done.
    + clear -H1. induction (buddies (draft d)) as [|b bs IH]; csimpl in *; [done|]. apply NoDup_cons in H1 as [Hb Hn].
      destruct (negb _); [|by apply IH]. csimpl. constructor; [|by apply IH]. intros Hin. apply Hb.
      apply list_elem_of_fmap in Hin as (x & -> & Hx). apply list_elem_of_fmap_2.
      apply ContactsLogic.elem_of_list_filter in Hx. tauto.
    + intros b [Hb _]%ContactsLogic.elem_of_list_filter. by apply H3.
  - destruct Hs as [H1 H2 H3 H4 [P HP]]. constructor; cbn [patch draft orig buddies groups blocked selected]; try done.
    exists (fun k => P k && negb (bool_decide (k = id))). rewrite HP. apply filter_filter.
Qed.

Lemma sound_edits es d : sound d -> sound (edits es d).
Proof.
  revert d. induction es as [|e es IH]; intros d Hs; [done|]. apply IH. unfold apply. destruct (on_screen d e) eqn:E; [|done].
  destruct e; auto using sound_select, sound_move, sound_add_buddy, sound_add_group, sound_rename, sound_delete.
Qed.
Lemma orig_edits es d : orig (edits es d) = orig d.
Proof.
  revert d. induction es as [|e es IH]; intros d; [done|]. change (orig (edits es (apply d e)) = orig d). rewrite IH. unfold apply. destruct (on_screen d e); [|done].
  destruct e; cbn; [unfold select; by destruct (row raw)|done|..].
  - unfold add_buddy. cbv zeta. by destruct (_ || _).
  - unfold add_group. cbv zeta. by destruct (_ || _).
  - unfold rename. cbv zeta. repeat case_match; done.
  - unfold delete_selected. cbv zeta. repeat case_match; done.
Qed.

(** ** Opening the screen *)
Section whole.
Context `{LocaleCompare, Phrases}.

Definition opened (s : State) : Setup := (run (openBuddySetup None None) s).1.

(** Lists without leftovers of a merge: every buddy is in a folder there is, no two folders show the same
    name, and none has the internal name of the default one. *)
Definition tidy (l : Lists) : bool :=
  forallb (fun b => bool_decide (group b = DEFAULT_GROUP) || has_custom (group b) (groups l)) (buddies l) &&
  bool_decide (NoDup (s_name <$> groups l)) && negb (has_custom DEFAULT_GROUP (groups l)).

Lemma insert_group_perm x l : insert_group x l ≡ₚ x :: l.
Proof. induction l as [|y l IH]; simpl; [done|]. destruct (comes_before x y); [done|]. rewrite IH. apply Permutation_swap. Qed.
Lemma sort_groups_perm l : sort_groups l ≡ₚ l.
Proof. induction l as [|x l IH]; simpl; [done|]. by rewrite insert_group_perm, IH. Qed.

Lemma opened_groups s :
  groups (orig (opened s)) = MkSummary (deflabel s) (Some RoleDefault) ::
    (custom <$> (sort_groups (customs (read_groups s))).*1) ++ MkSummary (blklabel s) (Some RoleBlocked) :: (custom <$> []).
Proof. cbn. unfold summaries, deflabel, blklabel. by rewrite <-list_fmap_compose. Qed.

Lemma opened_shape s :
  tidy (orig (opened s)) = true ->
  shape (deflabel s) (blklabel s) (sort_groups (customs (read_groups s))).*1 [] (groups (orig (opened s))).
Proof.
  unfold tidy. rewrite !andb_true_iff, negb_true_iff, bool_decide_eq_true. intros [[_ Hn] Hd]. rewrite opened_groups in Hn, Hd |- *.
  rewrite fmap_cons, fmap_app, fmap_cons, !names_custom in Hn. constructor; [done|]. rewrite app_nil_r. intros Hin.
  apply not_true_iff_false in Hd. apply Hd, existsb_exists. exists (custom DEFAULT_GROUP). split; [|by vm_compute].
  apply list_elem_of_In, elem_of_cons. right. apply elem_of_app. left. by apply list_elem_of_fmap_2.
Qed.

Lemma opened_folders s : forall g, has_custom g (groups (orig (opened s))) = true <-> g ∈ folders s.
Proof.
  intros g. rewrite has_custom_spec, opened_groups. cbn [List.filter is_custom s_role]. rewrite List.filter_app.
  cbn [List.filter is_custom s_role]. rewrite !filter_custom, fmap_app, !names_custom, app_nil_r. unfold folders.
  by rewrite elem_of_list_to_set, sort_groups_perm.
Qed.

Lemma sound_opened s : tidy (orig (opened s)) = true -> sound (opened s).
Proof.
  intros Ht. pose proof (opened_shape s Ht) as Hsh. constructor.
  - apply present_keys, read_buddies_ok.
  - by eexists _, _, _, _.
  - unfold tidy in Ht. rewrite !andb_true_iff, forallb_forall in Ht. destruct Ht as [[Ht _] _]. intros b Hb.
    apply list_elem_of_In in Hb. apply Ht, orb_true_iff in Hb as [Hb%bool_decide_eq_true|Hb%has_custom_spec]; [by left|by right].
  - done.
  - exists (fun _ => true). by rewrite filter_all.
Qed.

Lemma people_lookup bs u : people bs !! u = group <$> find_buddy u bs.
Proof.
  unfold people, find_buddy. induction bs as [|b bs IH]; [done|]. rewrite fmap_cons, list_to_map_cons. cbn [List.find].
  destruct (bool_decide_reflect (username b = u)) as [<-|Hne]; [by rewrite lookup_insert_eq|]. by rewrite lookup_insert_ne.
Qed.
Lemma opened_view s : view s = people (buddies (orig (opened s))).
Proof. done. Qed.

Lemma find_buddy_some u bs o : find_buddy u bs = Some o -> o ∈ bs /\ username o = u.
Proof. intros [Hi Hu%bool_decide_eq_true]%find_some. split; [by apply list_elem_of_In|done]. Qed.
Lemma find_buddy_none u bs : find_buddy u bs = None -> forall b, b ∈ bs -> username b <> u.
Proof. intros Hn b Hb Hu. apply find_none with (x := b) in Hn; [|by apply list_elem_of_In]. by apply bool_decide_eq_false in Hn. Qed.

(** ** What Save can do *)

(** A new name of a built-in folder that the store takes. *)
Definition label_ok (d : Setup) (r : role) : bool :=
  bool_decide (label r (groups (draft d)) = label r (groups (orig d))) ||
  match label r (groups (draft d)) with
  | Some n =>
      bool_decide (sanitizeGroupName n = n) && negb (bool_decide (n = "")) &&
      match r with
      | RoleDefault => negb (bool_decide (label RoleBlocked (groups (orig d)) = Some n))
      | RoleBlocked => negb (bool_decide (n = DEFAULT_GROUP))
      end
  | None => true
  end.
(** A new folder does not have the name that a built-in one had when the screen was opened. *)
Definition name_is_free (d : Setup) (g : GroupSummary) : bool :=
  negb (added d g) || negb (existsb (fun o => negb (is_custom o) && named (s_name g) o) (groups (orig d))).

Definition applicable (d : Setup) : bool :=
  forallb (fun b => plain_user (username b)) (buddies (draft d) ++ buddies (orig d)) &&
  forallb (fun g => negb (is_custom g) || plain_folder (s_name g)) (groups (draft d) ++ groups (orig d)) &&
  forallb (name_is_free d) (groups (draft d)) && forallb (label_ok d) [RoleDefault; RoleBlocked].

(** The hypotheses of a save, as facts about the draft. *)
Section saving.
Context (s : State) (d : Setup).
Context (Hu : unlocked s = true) (Ho : orig d = orig (opened s)) (Ht : tidy (orig d) = true).
Context (Hs : sound d) (Ha : applicable d = true).
Context (Hlen : (length (read_groups s) + length (groups (draft d)) + 2 <= GROUP_MAP_MAX_ENTRIES)%nat).

Lemma user_plain b : b ∈ buddies (draft d) \/ b ∈ buddies (orig d) -> plain_user (username b) = true.
Proof.
  intros Hb. unfold applicable in Ha. rewrite !andb_true_iff in Ha. destruct Ha as [[[H1 _] _] _].
  rewrite forallb_forall in H1. apply H1. apply list_elem_of_In, elem_of_app. tauto.
Qed.
Lemma folder_plain g : g ∈ groups (draft d) \/ g ∈ groups (orig d) -> is_custom g = true -> plain_folder (s_name g) = true.
Proof.
  intros Hg Hc. unfold applicable in Ha. rewrite !andb_true_iff in Ha. destruct Ha as [[[_ H1] _] _].
  rewrite forallb_forall in H1. specialize (H1 g). rewrite Hc in H1. apply H1. apply list_elem_of_In, elem_of_app. tauto.
Qed.
Lemma custom_plain g : g ∈ customs_of (groups (draft d)) -> plain_folder g = true.
Proof.
  intros (x & -> & [Hx Hc]%ContactsLogic.elem_of_list_filter)%list_elem_of_fmap. apply folder_plain; [by left|done].
Qed.
Lemma orig_labels :
  label RoleDefault (groups (orig d)) = Some (deflabel s) /\ label RoleBlocked (groups (orig d)) = Some (blklabel s).
Proof. rewrite Ho. eapply shape_labels, opened_shape. by rewrite <-Ho. Qed.

Lemma added_free g :
  g ∈ groups (draft d) -> added d g = true -> plain_folder (s_name g) = true /\ s_name g <> deflabel s /\ s_name g <> blklabel s.
Proof.
  intros Hg Hadd. pose proof Hadd as [Hc _]%andb_true_iff. split; [by apply folder_plain; [left|]|].
  unfold applicable in Ha. rewrite !andb_true_iff in Ha. destruct Ha as [[_ H1] _]. rewrite forallb_forall in H1.
  specialize (H1 g (proj1 (list_elem_of_In _ _) Hg)). unfold name_is_free in H1. rewrite Hadd in H1. cbn [negb orb] in H1.
  apply negb_true_iff, not_true_iff_false in H1.
  assert (Hno : forall o, o ∈ groups (orig d) -> is_custom o = false -> s_name g <> s_name o).
  { intros o Hin Hoc E. apply H1, existsb_exists. exists o. split; [by apply list_elem_of_In|]. rewrite Hoc. unfold named.
    by rewrite bool_decide_eq_true_2. }
  split; [apply (Hno (MkSummary (deflabel s) (Some RoleDefault)))|apply (Hno (MkSummary (blklabel s) (Some RoleBlocked)))];
    try done; rewrite Ho, opened_groups; [left|].
  apply elem_of_cons. right. apply elem_of_app. right. left.
Qed.

Lemma draft_place b :
  b ∈ buddies (draft d) -> place (group b) = true.
Proof.
  intros [->|Hb]%(sound_placed d Hs); unfold place; [by rewrite bool_decide_eq_true_2|]. by rewrite custom_plain, orb_true_r.
Qed.

(** Who is where after the first three loops. *)
Lemma saved_people s1 :
  unlocked s1 = true -> view s1 = view s ->
  let s2 := (run (for_each (buddies (draft d)) (save_buddy d)) s1).2 in
  let s3 := (run (for_each (buddies (orig d)) (save_removal d)) s2).2 in
  same_folders s1 s3 /\ view s3 = people (buddies (draft d)).
Proof.
  intros Hu1 Hv1 s2 s3.
  assert (Hv0 : view s = people (buddies (orig d))) by (rewrite Ho; apply opened_view). rewrite Hv0 in Hv1.
  destruct (run_save_buddies d (buddies (draft d)) s1 Hu1 (sound_users d Hs)) as [F2 V2].
  { intros b Hb. split; [by apply user_plain; left|]. split; [|by intros _; apply draft_place].
    unfold as_loaded. by rewrite Hv1, people_lookup. }
  fold s2 in F2, V2. destruct (run_save_removals d (buddies (orig d)) s2) as [F3 V3].
  { by destruct F2 as [-> _]. }
  { intros b Hb. apply user_plain. by right. }
  fold s3 in F3, V3. split; [by eapply same_folders_trans|]. apply map_eq. intros u. rewrite people_lookup.
  destruct (V3 u) as [V3a V3b]. rewrite V2, lookup_union, people_lookup, Hv1, people_lookup in V3b.
  destruct (find_buddy u (buddies (draft d))) as [b|] eqn:E.
  - rewrite V3b.
    + cbn [fmap option_fmap option_map]. by destruct (group <$> find_buddy u (buddies (orig d))).
    + intros (o & _ & <- & Hd). unfold dropped in Hd. congruence.
  - destruct (find_buddy u (buddies (orig d))) as [o|] eqn:Eo.
    + apply V3a. apply find_buddy_some in Eo as [Hin <-]. by exists o.
    + rewrite V3b; [done|]. intros (o & Hin & Hou & _). by apply (find_buddy_none _ _ Eo o).
Qed.

(** The names of the built-in folders after the fifth loop. *)
Lemma saved_labels s4 nd nb cs1 cs2 :
  shape nd nb cs1 cs2 (groups (draft d)) ->
  unlocked s4 = true -> deflabel s4 = deflabel s -> blklabel s4 = blklabel s -> folders s4 = list_to_set (cs1 ++ cs2) ->
  (length (read_groups s4) + 2 <= GROUP_MAP_MAX_ENTRIES)%nat ->
  let s5 := (run (for_each [RoleDefault; RoleBlocked] (save_label d)) s4).2 in
  same_people s4 s5 /\ deflabel s5 = nd /\ blklabel s5 = nb /\ folders s5 = folders s4.
Proof.
  intros Hsh Hu4 Hd4 Hb4 Hf4 Hlen4 s5. destruct orig_labels as [Od Ob]. destruct (shape_labels _ _ _ _ _ Hsh) as [Dd Db].
  assert (Hnames : nd <> nb /\ nd ∉ cs1 ++ cs2 /\ nb ∉ cs1 ++ cs2).
  { destruct Hsh as [Hn _]. apply NoDup_cons in Hn as [H1 H2]. rewrite <-Permutation_middle in H2.
    apply NoDup_cons in H2 as [H2 _]. clear -H1 H2. set_solver. }
  destruct Hnames as (Hne & Hnd & Hnb).
  assert (Hok : label_ok d RoleDefault = true /\ label_ok d RoleBlocked = true).
  { unfold applicable in Ha. rewrite !andb_true_iff in Ha. destruct Ha as [_ Hl]. cbn [forallb] in Hl.
    rewrite !andb_true_iff in Hl. tauto. }
  destruct Hok as [Kd Kb]. unfold label_ok in Kd, Kb. rewrite Dd, Od, Ob in Kd. rewrite Db, Ob in Kb.
  destruct (run_save_label d RoleDefault s4 nd (deflabel s)) as (P1 & L1 & M1 & F1 & N1); [done|done|done|done| |lia|].
  { intros Hch. rewrite bool_decide_eq_false_2 in Kd by congruence. cbn [orb] in Kd.
    rewrite !andb_true_iff, !negb_true_iff, !bool_decide_eq_false, bool_decide_eq_true in Kd. destruct Kd as [[K1 K2] K3].
    split_and!; [done|done| |done|by rewrite Hf4, elem_of_list_to_set]. cbn [other_role label_in]. congruence. }
  set (s4' := (run (save_label d RoleDefault) s4).2) in *.
  destruct (run_save_label d RoleBlocked s4' nb (blklabel s)) as (P2 & L2 & M2 & F2 & N2); [by destruct P1 as [-> _]|done|done| | |lia|].
  { cbn [other_role label_in] in M1 |- *. congruence. }
  { intros Hch. rewrite bool_decide_eq_false_2 in Kb by congruence. cbn [orb] in Kb.
    rewrite !andb_true_iff, !negb_true_iff, !bool_decide_eq_false, bool_decide_eq_true in Kb. destruct Kb as [[K1 K2] K3].
    split_and!; [done|done| |done|by rewrite F1, Hf4, elem_of_list_to_set]. cbn [other_role label_in] in L1 |- *. congruence. }
  assert (E : s5 = (run (save_label d RoleBlocked) s4').2) by (unfold s5; by rewrite !run_each).
  rewrite E. destruct P1 as (A1 & A2 & A3), P2 as (B1 & B2 & B3). cbn [other_role label_in] in *.
  split_and!; [split_and!; congruence|congruence|done|congruence].
Qed.

Lemma saved_blocked s5 :
  unlocked s5 = true -> keys s5 = keys s -> read_blocked s5 = read_blocked s ->
  let s6 := (run (for_each (blocked (orig d)) (save_unblock d)) s5).2 in
  keys s6 = bl_key <$> blocked (draft d).
Proof.
  intros Hu5 _ Hr s6. destruct (run_save_unblocks d (blocked (orig d)) s5 Hu5) as (_ & _ & _ & R). fold s6 in R.
  destruct (sound_blocked d Hs) as [P HP].
  assert (Eo : blocked (orig d) = (fun e => (k_key e, fingerprintOf (k_key e), k_name e)) <$> read_blocked s) by by rewrite Ho.
  unfold keys. rewrite R, Hr, HP, Eo, filter_fmap, <-list_fmap_compose.
  replace (bl_key ∘ _) with k_key by done. f_equal. apply filter_ext_in. intros e He. cbn [bl_key fst].
  assert (Hk : kept_blocked d (k_key e) = P (k_key e)).
  { unfold kept_blocked. rewrite HP. apply eq_true_iff_eq. rewrite existsb_exists. split.
    - intros (x & [_ Hx]%list_elem_of_In%ContactsLogic.elem_of_list_filter & <-%bool_decide_eq_true). done.
    - intros Hp. exists (k_key e, fingerprintOf (k_key e), k_name e). split; [|by apply bool_decide_eq_true_2].
      apply list_elem_of_In, ContactsLogic.elem_of_list_filter. split; [|done]. rewrite Eo. apply list_elem_of_fmap. by exists e. }
  unfold unblocked. rewrite Hk. apply eq_true_iff_eq. rewrite negb_true_iff, <-not_true_iff_false, existsb_exists. split.
  - intros Hn. destruct (P (k_key e)) eqn:Ep; [done|]. destruct Hn. exists (k_key e, fingerprintOf (k_key e), k_name e). split.
    + apply list_elem_of_In. apply list_elem_of_fmap. by exists e.
    + cbn [bl_key fst]. by rewrite bool_decide_eq_true_2.
  - intros Hp (x & _ & Hx). rewrite Hp in Hx. by rewrite andb_false_r in Hx.
Qed.
(** The folders after the additions and the deletions. *)
Lemma saved_folders :
  (list_to_set (s_name <$> List.filter (added d) (groups (draft d))) ∪ folders s) ∖
    list_to_set (s_name <$> List.filter (deleted d) (groups (orig d))) =
  (list_to_set (customs_of (groups (draft d))) : gset string).
Proof.
  apply set_eq. intros g. rewrite elem_of_difference, elem_of_union, !elem_of_list_to_set. unfold customs_of.
  rewrite <-has_custom_spec. rewrite <-opened_folders, <-Ho.
  assert (HA : g ∈ s_name <$> List.filter (added d) (groups (draft d)) <->
               has_custom g (groups (draft d)) = true /\ has_custom g (groups (orig d)) = false).
  { rewrite has_custom_spec. rewrite !list_elem_of_fmap. unfold added. split.
    - intros (x & -> & [Hin [Hc Hn%negb_true_iff]%andb_true_iff]%ContactsLogic.elem_of_list_filter). split; [|done].
      exists x. split; [done|]. by apply ContactsLogic.elem_of_list_filter.
    - intros [(x & -> & [Hin Hc]%ContactsLogic.elem_of_list_filter) Hn]. exists x. split; [done|].
      apply ContactsLogic.elem_of_list_filter. by rewrite Hc, Hn. }
  assert (HD : g ∈ s_name <$> List.filter (deleted d) (groups (orig d)) <->
               has_custom g (groups (orig d)) = true /\ has_custom g (groups (draft d)) = false).
  { rewrite (has_custom_spec g (groups (orig d))). rewrite !list_elem_of_fmap. unfold deleted. split.
    - intros (x & -> & [Hin [Hc Hn%negb_true_iff]%andb_true_iff]%ContactsLogic.elem_of_list_filter). split; [|done].
      exists x. split; [done|]. by apply ContactsLogic.elem_of_list_filter.
    - intros [(x & -> & [Hin Hc]%ContactsLogic.elem_of_list_filter) Hn]. exists x. split; [done|].
      apply ContactsLogic.elem_of_list_filter. by rewrite Hc, Hn. }
  rewrite HA, HD. destruct (has_custom g (groups (draft d))), (has_custom g (groups (orig d))); clear; naive_solver.
Qed.

(** What a deletion finds: a folder with a plain name and nobody in it. *)
Lemma deletion_finds s3 g :
  view s3 = people (buddies (draft d)) -> g ∈ groups (orig d) -> deleted d g = true ->
  plain_folder (s_name g) = true /\ forall u, view s3 !! u <> Some (s_name g).
Proof.
  intros Hv Hg Hd. pose proof Hd as [Hc Hn]%andb_true_iff. apply negb_true_iff, not_true_iff_false in Hn.
  assert (Hp : plain_folder (s_name g) = true) by (apply folder_plain; [by right|done]). split; [done|].
  intros u. rewrite Hv, people_lookup. intros Hu'. apply fmap_Some in Hu' as (b & [Hb _]%find_buddy_some & Hgb).
  destruct (sound_placed d Hs b Hb) as [E|E].
  - apply plain_folder_spec in Hp as (_ & _ & _ & Hp). unfold tidy in Ht. rewrite !andb_true_iff, negb_true_iff in Ht.
    destruct Ht as [_ Hx]. apply not_true_iff_false in Hx. apply Hx, existsb_exists. exists g.
    split; [by apply list_elem_of_In|]. rewrite Hc. apply bool_decide_eq_true_2. congruence.
  - apply Hn, has_custom_spec. by rewrite Hgb.
Qed.

Lemma saved_whole :
  let s' := (run (save d) s).2 in
  view s' = people (buddies (draft d)) /\ folders s' = list_to_set (customs_of (groups (draft d))) /\
  label RoleDefault (groups (draft d)) = Some (deflabel s') /\ label RoleBlocked (groups (draft d)) = Some (blklabel s') /\
  keys s' = bl_key <$> blocked (draft d).
Proof.
  unfold save. rewrite !run_bind.
  destruct (run_save_groups d (groups (draft d)) s Hu added_free) as (P1 & D1 & B1 & F1 & N1); [lia|].
  set (s1 := (run (for_each (groups (draft d)) (save_group d)) s).2) in *.
  destruct (saved_people s1) as [S3 V3]; [by destruct P1 as [-> _]|by apply same_view|].
  set (s2 := (run (for_each (buddies (draft d)) (save_buddy d)) s1).2) in *.
  set (s3 := (run (for_each (buddies (orig d)) (save_removal d)) s2).2) in *.
  destruct (same_labels _ _ S3) as (R3 & F3 & D3 & B3 & K3).
  destruct (run_save_deletions d (groups (orig d)) s3) as (P4 & D4 & B4 & F4 & N4).
  { destruct S3 as [-> _]. by destruct P1 as [-> _]. }
  { intros g. by apply deletion_finds. }
  { rewrite R3. lia. }
  set (s4 := (run (for_each (groups (orig d)) (save_deletion d)) s3).2) in *.
  assert (E4 : folders s4 = list_to_set (customs_of (groups (draft d)))) by (by rewrite F4, F3, F1, saved_folders).
  destruct (sound_shape d Hs) as (nd & nb & cs1 & cs2 & Hsh).
  assert (U4 : unlocked s4 = true).
  { destruct P4 as [-> _], S3 as [-> _]. by destruct P1 as [-> _]. }
  destruct (saved_labels s4 nd nb cs1 cs2 Hsh U4) as (P5 & D5 & B5 & F5); [congruence|congruence| | |].
  { rewrite E4. by rewrite (shape_customs _ _ _ _ _ Hsh). }
  { rewrite N4, R3. lia. }
  set (s5 := (run (for_each [RoleDefault; RoleBlocked] (save_label d)) s4).2) in *.
  assert (U5 : unlocked s5 = true) by (by destruct P5 as [-> _]).
  pose proof (saved_blocked s5 U5) as K6. destruct (run_save_unblocks d (blocked (orig d)) s5 U5) as (U6 & A6 & G6 & _).
  cbn zeta in K6. set (s6 := (run (for_each (blocked (orig d)) (save_unblock d)) s5).2) in *.
  assert (R6 : read_groups s6 = read_groups s5) by (unfold read_groups; by rewrite U6, U5, G6).
  destruct (shape_labels _ _ _ _ _ Hsh) as [L1 L2]. split_and!.
  - rewrite <-V3. transitivity (view s5); [unfold view, read_buddies; by rewrite U6, U5, A6|].
    destruct (same_view _ _ P5) as [-> _]. by apply same_view.
  - unfold folders. rewrite R6. fold (folders s5). by rewrite F5.
  - rewrite L1. unfold deflabel. rewrite R6. by rewrite <-D5.
  - rewrite L2. unfold blklabel. rewrite R6. by rewrite <-B5.
  - assert (E5 : read_blocked s5 = read_blocked s).
    { unfold read_blocked. destruct P5 as (-> & _ & ->), P4 as (-> & _ & ->), S3 as (-> & _ & ->). by destruct P1 as (-> & _ & ->). }
    apply K6; [|done]. unfold keys. by rewrite E5.
Qed.
End saving.
(** C23. Save turns the lists of an orderly account into the draft.  The account is unlocked and [tidy]: each
    contact is in the default folder or in one of the user's folders on the screen, no two folders have one
    name, and none has the stored name of the default one; and its map of folders, with those of the draft,
    stays within the 512 entries that are kept.  Then whatever is edited on the screen that
    [openBuddySetup] loads - selections, moves between folders, additions, renames and deletions - if the store
    accepts the names of the draft ([applicable]), after the calls that [save] makes for the difference
    each contact is on the list in the folder of the draft and no other contact is, the folders of the user
    are those of the draft, the two built-in ones have the names of the draft, and the blocked keys are
    those of the draft.  Without [tidy], or with names that are not accepted, a save may lose edits:
    [move_is_undone], [old_name_is_refused] and [swap_is_lost] below. *)
Theorem setup_save_applies es s :
  unlocked s = true -> tidy (orig (opened s)) = true ->
  let d := edits es (opened s) in
  applicable d = true -> (length (read_groups s) + length (groups (draft d)) + 2 <= GROUP_MAP_MAX_ENTRIES)%nat ->
  let s' := (run (save d) s).2 in
  view s' = people (buddies (draft d)) /\ folders s' = list_to_set (customs_of (groups (draft d))) /\
  label RoleDefault (groups (draft d)) = Some (deflabel s') /\ label RoleBlocked (groups (draft d)) = Some (blklabel s') /\
  keys s' = bl_key <$> blocked (draft d).
Proof.
  intros Hu Ht d Ha Hl. apply saved_whole; [done|by apply orig_edits| |by apply sound_edits, sound_opened|done|done].
  unfold d. by rewrite orig_edits.
Qed.
End whole.
(** ** A list on the screen *)
Module SetupToy.
#[local] Instance code_units : LocaleCompare := fun a b => if String.leb a b then -1 else 1.
#[local] Instance phrases : Phrases := {| accountKeyHex := ""; contactPhraseFor := fun k => k;
  fingerprintOf := fun k => k; accountFingerprint := "" |}.

Definition stored (bs : BuddyMap) (gs : GroupMap) : State :=
  MkState true (Some (buddies_json bs)) (Some (groups_json gs)) None
    (Some (blocked_json [MkBlocked "k1" (Some "mallory"); MkBlocked "k2" None])) 5000 (fun _ => []) [].
Definition in_folder (g : string) : BuddyEntry := MkBuddy 1 1000 false g None.
Definition made : GroupEntry := MkGroup 1000 false 0 None.
Definition ours : State :=
  stored [("alice", in_folder "Work"); ("bob", in_folder "Work"); ("carol", in_folder "Buddies")] [("Work", made); ("Old", made)].

(** A new folder takes alice, bob's folder is renamed, carol leaves, dave comes, and a key is unblocked. *)
Definition session : list edit :=
  [EAddGroup " Family "; EMove "alice" "Family"; ESelect "group:Work"; ERename "Office"; ESelect "group:Old"; EDelete;
   ESelect "buddy:carol"; EDelete; ESelect "group:Buddies"; ERename "Friends"; EAddBuddy "Dave"; ESelect "blocked:k1"; EDelete].
Definition saved (es : list edit) (s : State) : State := (run (save (edits es (opened s))) s).2.
Lemma setup_save_applies_witness :
  let d := edits session (opened ours) in let s' := saved session ours in
  (view s' = people (buddies (draft d)) /\ folders s' = list_to_set (customs_of (groups (draft d))) /\
   label RoleDefault (groups (draft d)) = Some (deflabel s') /\ label RoleBlocked (groups (draft d)) = Some (blklabel s') /\
   keys s' = bl_key <$> blocked (draft d)) /\
  people (buddies (draft d)) = list_to_map [("alice", "Family"); ("bob", "Office"); ("dave", "Buddies")] /\
  groups (draft d) = [MkSummary "Friends" (Some RoleDefault); custom "Office"; MkSummary "Blocked" (Some RoleBlocked); custom "Family"].
Proof.
  assert (H1 : unlocked ours = true) by done.
  assert (H2 : tidy (orig (opened ours)) = true) by (vm_compute; reflexivity).
  assert (H3 : applicable (edits session (opened ours)) = true) by (vm_compute; reflexivity).
  assert (H4 : (length (read_groups ours) + length (groups (draft (edits session (opened ours)))) + 2 <= GROUP_MAP_MAX_ENTRIES)%nat)
    by (apply Nat.leb_le; vm_compute; reflexivity).
  split; [exact (setup_save_applies session ours H1 H2 H3 H4)|].
  split; vm_compute; reflexivity.
Defined.

(** The built-in names change last, and the store still has the old one when it is asked for a new folder
    of that name: the folder is refused, although the draft shows it, and its member keeps a folder that
    is not there. *)
Definition friends : State :=
  stored [("alice", in_folder "Work")] [("Work", made); (RK_DEFAULT, MkGroup 1000 false 0 (Some "Friends"))].
Definition take_the_old_name : list edit :=
  [ESelect "group:Buddies"; ERename "Pals"; EAddGroup "Friends"; EMove "alice" "Friends"].
Example old_name_is_refused :
  let d := edits take_the_old_name (opened friends) in let s' := saved take_the_old_name friends in
  customs_of (groups (draft d)) = ["Work"; "Friends"] /\ (customs (read_groups s')).*1 = ["Work"] /\
  view s' !! "alice" = Some "Friends" /\ deflabel s' = "Pals" /\ applicable d = false.
Proof. vm_compute. auto. Qed.

(** The two built-in folders cannot swap their names: each is refused because the other still has it. *)
Definition swap_names : list edit :=
  [ESelect "gblocked:"; ERename "x"; ESelect "group:Buddies"; ERename "Blocked"; ESelect "gblocked:"; ERename "Friends"].
Example swap_is_lost :
  let d := edits swap_names (opened friends) in let s' := saved swap_names friends in
  label RoleDefault (groups (draft d)) = Some "Blocked" /\ label RoleBlocked (groups (draft d)) = Some "Friends" /\
  deflabel s' = "Friends" /\ blklabel s' = "Blocked" /\ applicable d = false.
Proof. vm_compute. auto. Qed.

(** Deletions go after the moves.  A folder that exists only through its members, renamed to the name of a
    folder that was deleted in the same draft, loses its members to the default one. *)
Definition leftover : State := stored [("alice", in_folder "Lost")] [("Old", made)].
Definition reuse_the_name : list edit := [ESelect "group:Old"; EDelete; ESelect "group:Lost"; ERename "Old"].
Example move_is_undone :
  let d := edits reuse_the_name (opened leftover) in let s' := saved reuse_the_name leftover in
  people (buddies (draft d)) !! "alice" = Some "Old" /\ view s' !! "alice" = Some "Buddies" /\
  tidy (orig (opened leftover)) = false.
Proof. vm_compute. auto. Qed.
End SetupToy.

End BuddySetupFacts.
