(* ===== verification/BuddyListFacts.v ===== *)
(** * The order of the buddy list

    [ViewsBuddies.folders] and [sortedMembers] decide what the list shows: every buddy that is not blocked
    in one row, in its folder, with the built-in folder first and the members by presence and name.  The
    sort is the stable one of the language; [localeCompare] is only asked to be total. *)

From S2P Require Import Prelude PairingWire Contacts ContactsLogic BuddySetup BuddySetupFacts ViewsBuddies.

Module BuddyListFacts.
Import Contacts ContactsLogic BuddySetupFacts ViewsBuddies.

(** ** Sorting *)

Section sorting.
Context {A : Type} (le : A -> A -> bool) (R : A -> A -> Prop).
Hypothesis le_yes : forall a b, le a b = true -> R a b.
Hypothesis le_no : forall a b, le a b = false -> R b a.

Lemma insert_perm x l : insert_with le x l ≡ₚ x :: l.
Proof.
  induction l as [|y l IH]; [done|]. cbn. destruct (le x y); [done|].
  rewrite IH. apply Permutation_swap.
Qed.
Lemma sort_perm l : sort_with le l ≡ₚ l.
Proof. induction l as [|x l IH]; [done|]. change (insert_with le x (sort_with le l) ≡ₚ x :: l). by rewrite insert_perm, IH. Qed.

Lemma insert_sorted x l : Sorted R l -> Sorted R (insert_with le x l).
Proof.
  induction l as [|y l IH]; intros Hl; cbn; [by repeat constructor|].
  destruct (le x y) eqn:E; [constructor; [done|]; constructor; auto|].
  apply Sorted_inv in Hl as [Hl Hy]. constructor; [by apply IH|].
  destruct l as [|z l]; cbn; [constructor; by auto|]. destruct (le x z); constructor; [by auto|].
  by apply HdRel_inv in Hy.
Qed.
Lemma sort_sorted l : Sorted R (sort_with le l).
Proof. induction l as [|x l IH]; [constructor|]. by apply (insert_sorted x (sort_with le l)). Qed.
End sorting.

(** ** Folders *)

Lemma NoDup_fold_names {A} (f : A -> string) (l : list A) s :
  NoDup s -> NoDup (foldl (fun s a => BuddySetup.add_name s (f a)) s l).
Proof.
  revert s. induction l as [|a l IH]; intros s Hs; [done|]. apply IH. unfold BuddySetup.add_name.
  destruct (bool_decide_reflect (f a ∈ s)); [done|]. apply NoDup_app. set_solver by apply NoDup_singleton.
Qed.

Definition in_folder (g : string) (b : Buddy) : bool := bool_decide (folder_of b = g).

Lemma grouped_lookup l g : default [] (JsMap.lookup g (groupBuddies l)) = List.filter (in_folder g) l.
Proof.
  unfold groupBuddies.
  enough (forall m, default [] (JsMap.lookup g
    (foldl (fun m b => JsMap.set (folder_of b) (default [] (JsMap.lookup (folder_of b) m) ++ [b]) m) m l)) =
    default [] (JsMap.lookup g m) ++ List.filter (in_folder g) l) as -> by done.
  induction l as [|b l IH]; intros m; cbn [foldl List.filter]; [by rewrite app_nil_r|]. rewrite IH. unfold in_folder at 2.
  case_bool_decide as E; [subst g; rewrite JsMap.lookup_set_eq; cbn; by rewrite <- app_assoc|].
  by rewrite JsMap.lookup_set_ne by congruence.
Qed.

Definition elsewhere (g : string) (b : Buddy) : bool := negb (in_folder g b).
Lemma bucket_elsewhere g hs l : g ∉ hs ->
  hs ≫= (fun h => List.filter (in_folder h) (List.filter (elsewhere g) l)) = hs ≫= (fun h => List.filter (in_folder h) l).
Proof.
  induction hs as [|h hs IH]; intros Hg; [done|]. csimpl. f_equal; [|apply IH; set_solver].
  rewrite filter_filter. apply filter_ext_in. intros b _. unfold elsewhere, in_folder.
  repeat case_bool_decide; try done. set_solver.
Qed.

(** Buckets of distinct names that take in everybody make up the list. *)
Lemma buckets_perm (gs : list string) (l : list Buddy) :
  NoDup gs -> (forall b, b ∈ l -> folder_of b ∈ gs) -> gs ≫= (fun g => List.filter (in_folder g) l) ≡ₚ l.
Proof.
  revert l. induction gs as [|g gs IH]; intros l Hnd Hl.
  { destruct l as [|b l]; [done|]. exfalso. apply (not_elem_of_nil (folder_of b)), Hl. left. }
  apply NoDup_cons in Hnd as [Hg Hnd]. csimpl. rewrite <- (bucket_elsewhere g) by done.
  rewrite IH; [apply filter_split|done|].
  intros b [Hb Ho]%elem_of_list_filter. destruct (proj1 (elem_of_cons _ _ _) (Hl b Hb)) as [E|]; [|done].
  unfold elsewhere, in_folder in Ho. by rewrite bool_decide_eq_true_2 in Ho.
Qed.

(** ** The list *)

Section list.
Context `{LocaleCompare}.

Lemma order_names buddies gs g :
  g ∈ allGroupOrder buddies gs <->
  g = DEFAULT_BUDDY_GROUP \/
  (exists s, s ∈ gs /\ BuddySetup.is_custom s = true /\ s_name s <> "" /\ g = s_name s) \/ exists b, b ∈ buddies /\ g = folder_of b.
Proof.
  unfold allGroupOrder, orderedGroupNames. rewrite sort_perm. unfold BuddySetup.allGroupOrder. cbv zeta.
  rewrite !elem_of_fold_names, list_elem_of_singleton, !list_elem_of_fmap. cbn [BuddySetup.buddies BuddySetup.groups].
  setoid_rewrite elem_of_list_filter. setoid_rewrite andb_true_iff. setoid_rewrite negb_true_iff.
  setoid_rewrite bool_decide_eq_false. unfold folder_of. naive_solver.
Qed.

Lemma order_NoDup buddies gs : NoDup (allGroupOrder buddies gs).
Proof.
  unfold allGroupOrder, orderedGroupNames. rewrite sort_perm. apply (NoDup_fold_names folder_of), NoDup_fold_names.
  apply NoDup_singleton.
Qed.

(** The built-in folder is the first. *)
Lemma default_first names : DEFAULT_BUDDY_GROUP ∈ names -> head (orderedGroupNames names) = Some DEFAULT_BUDDY_GROUP.
Proof.
  unfold orderedGroupNames. induction names as [|x l IH]; [set_solver|]. intros Hin.
  change (head (insert_with group_before x (sort_with group_before l)) = Some DEFAULT_BUDDY_GROUP).
  destruct (decide (x = DEFAULT_BUDDY_GROUP)) as [->|Hx].
  - destruct (sort_with group_before l) as [|y r]; cbn; [done|]. unfold group_before. by rewrite bool_decide_eq_true_2.
  - apply elem_of_cons in Hin as [?|Hin]; [congruence|]. specialize (IH Hin).
    destruct (sort_with group_before l) as [|y r]; [done|]. injection IH as ->. cbn. unfold group_before.
    by rewrite bool_decide_eq_false_2, bool_decide_eq_true_2.
Qed.

Definition rank (statuses : list (string * string)) (b : Buddy) : Z := statusRank (JsMap.lookup (username b) statuses).
(** The order in a folder: who is online, away, idle, offline; then the name. *)
Definition listed_before (statuses : list (string * string)) (a z : Buddy) : Prop :=
  rank statuses a < rank statuses z \/
  rank statuses a = rank statuses z /\ localeCompare (username a) (username z) <= 0.

(** C24. The buddy list shows everyone once: its folders have distinct names with the built-in folder first,
    each member of a folder belongs to it, the folders together hold exactly the buddies that are not
    blocked, and the rows of a folder are its members, ordered by presence and then by name. *)
Theorem buddy_list_shows_everyone_once (v : BuddiesView) :
  (forall a b, localeCompare a b <= 0 \/ localeCompare b a <= 0) ->
  NoDup (folders v).*1 /\ head (folders v).*1 = Some DEFAULT_BUDDY_GROUP /\
  folders v ≫= snd ≡ₚ visible v /\
  Forall (fun f => Forall (fun b => folder_of b = f.1) f.2 /\
                   sortedMembers f.2 (bv_statuses v) ≡ₚ f.2 /\
                   Sorted (listed_before (bv_statuses v)) (sortedMembers f.2 (bv_statuses v))) (folders v) /\
  (forall b, b ∈ visible v <-> b ∈ bv_buddies v /\ Some (username b) ∉ (bv_blocked v).*2).
Proof.
  intros Htotal. pose proof (order_NoDup (visible v) (bv_groups v)) as Hnd.
  assert (Hf : folders v = (fun g => (g, List.filter (in_folder g) (visible v))) <$> allGroupOrder (visible v) (bv_groups v)).
  { unfold folders. apply list_fmap_ext. intros _ g _. by rewrite grouped_lookup. }
  rewrite Hf, <- list_fmap_compose. change (fst ∘ _) with (fun g : string => g). rewrite list_fmap_id. split_and!; [done|..].
  - apply default_first. rewrite <- (sort_perm group_before). apply order_names. by left.
  - rewrite list_fmap_bind. apply buckets_perm; [done|].
    intros b Hb. apply order_names. right; right. by exists b.
  - apply Forall_fmap, Forall_forall. intros g _. cbn [fst snd compose]. split_and!.
    + apply Forall_forall. intros b [_ Hb]%elem_of_list_filter. by apply bool_decide_eq_true in Hb.
    + apply sort_perm.
    + apply sort_sorted; intros a b; unfold member_before, listed_before, rank; cbv zeta;
        case_bool_decide; rewrite ?Z.leb_le, ?Z.leb_gt; pose proof (Htotal (username a) (username b)); lia.
  - intros b. unfold visible. cbv zeta. rewrite elem_of_list_filter, negb_true_iff, bool_decide_eq_false.
    rewrite list_elem_of_omap, list_elem_of_fmap. naive_solver.
Qed.

End list.

#[local] Instance code_units : LocaleCompare := fun a b => if String.leb a b then -1 else 1.
Lemma code_units_total a b : localeCompare a b <= 0 \/ localeCompare b a <= 0.
Proof.
  unfold localeCompare, code_units, String.leb. rewrite (String.compare_antisym b a).
  destruct (String.compare a b); cbn; lia.
Qed.

Definition someone (u g : string) : Buddy := MkBuddyView u 0 g.
Definition a_list : BuddiesView :=
  MkBuddies [someone "bob" ""; someone "eve" "Work"; someone "ann" ""; someone "mal" ""] []
    [("ann", "idle"); ("bob", "away")] [] [("k", "fp", Some "mal")] [] (MkProfile None "" (MkAway true "" false None)) "me" [] [] [] None [].
Lemma buddy_list_shows_everyone_once_witness :
  NoDup (folders a_list).*1 /\ folders a_list ≫= snd ≡ₚ visible a_list /\
  (fun f => (f.1, username <$> sortedMembers f.2 (bv_statuses a_list))) <$> folders a_list = [("Buddies", ["bob"; "ann"]); ("Work", ["eve"])].
Proof.
  destruct (buddy_list_shows_everyone_once a_list code_units_total) as (H1 & _ & H2 & _).
  split; [exact H1|]. split; [exact H2|]. vm_compute. reflexivity.
Defined.

End BuddyListFacts.
