(* ===== verification/TabSession.v ===== *)
(** * What a tab remembers, and contact links (client/src/app.ts, lines 3337-3345, 4153-4321)

    The per-tab storage of the browser, which survives a refresh and not the tab, with the five entries
    the page keeps in it; and the link that names a contact in its fragment, made for the QR code, read
    from the address bar at the start, and read from a scan. *)

From S2P Require Import Prelude Json Auth Controller ControllerFacts.
From stdpp Require Import strings.

Module TabSession.
Local Open Scope Z_scope.

(** ** Percent-encoding *)

Definition code (c : Ascii.ascii) : Z := Z.of_N (Ascii.N_of_ascii c).
Definition char (n : Z) : Ascii.ascii := Ascii.ascii_of_N (Z.to_N n).

Definition is_alnum (c : Ascii.ascii) : bool :=
  let n := code c in
  ((48 <=? n) && (n <=? 57)) || ((65 <=? n) && (n <=? 90)) || ((97 <=? n) && (n <=? 122)).

(** What [encodeURIComponent] leaves alone: letters, digits and [-_.!~*'()]. *)
Definition unreserved (c : Ascii.ascii) : bool :=
  is_alnum c || bool_decide (code c ∈ [45; 95; 46; 33; 126; 42; 39; 40; 41]).

Definition hex_upper (n : Z) : Ascii.ascii := if n <? 10 then char (48 + n) else char (55 + n).

Definition encode_char (c : Ascii.ascii) : list Ascii.ascii :=
  if unreserved c then [c] else ["%"%char; hex_upper (code c / 16); hex_upper (code c mod 16)].

Definition encodeURIComponent (s : string) : string :=
  String.string_of_list_ascii (mjoin (encode_char <$> String.list_ascii_of_string s)).

(** The percent-decoding of a query: a [%] that two hexadecimal digits follow; [+] is a space. *)
Definition plus_space (c : Ascii.ascii) : Ascii.ascii := if bool_decide (c = "+"%char) then " "%char else c.

Fixpoint percent_decode (l : list Ascii.ascii) : list Ascii.ascii :=
  match l with
  | [] => []
  | c :: rest =>
      match rest with
      | a :: b :: rest' =>
          match bool_decide (c = "%"%char), hex_value a, hex_value b with
          | true, Some x, Some y => char (16 * x + y) :: percent_decode rest'
          | _, _, _ => plus_space c :: percent_decode rest
          end
      | _ => plus_space c :: percent_decode rest
      end
  end.

(** The UTF-8 decoder of the platform on the bytes of a string, with the result as UTF-8 again: what is
    not well-formed becomes U+FFFD.  [need] continuation bytes are missing after [pending], the next of
    them between [lo] and [hi]. *)
Definition REPLACEMENT : list Ascii.ascii := [char 239; char 191; char 189].

Definition utf8_start (c : Ascii.ascii) : list Ascii.ascii * (nat * Z * Z * list Ascii.ascii) :=
  let b := code c in
  let idle := (0%nat, 128, 191, []) in
  if b <? 128 then ([c], idle)
  else if b <? 194 then (REPLACEMENT, idle)
  else if b <? 224 then ([], (1%nat, 128, 191, [c]))
  else if b <? 240 then
    ([], (2%nat, (if b =? 224 then 160 else 128), (if b =? 237 then 159 else 191), [c]))
  else if b <? 245 then
    ([], (3%nat, (if b =? 240 then 144 else 128), (if b =? 244 then 143 else 191), [c]))
  else (REPLACEMENT, idle).

Fixpoint utf8_loop (st : nat * Z * Z * list Ascii.ascii) (l : list Ascii.ascii) : list Ascii.ascii :=
  let '(need, lo, hi, pending) := st in
  match need, l with
  | O, [] => []
  | S _, [] => REPLACEMENT
  | O, c :: l => let '(out, st) := utf8_start c in out ++ utf8_loop st l
  | S need, c :: l =>
      if (lo <=? code c) && (code c <=? hi) then
        match need with
        | O => pending ++ [c] ++ utf8_loop (0%nat, 128, 191, []) l
        | S _ => utf8_loop (need, 128, 191, pending ++ [c]) l
        end
      else let '(out, st) := utf8_start c in REPLACEMENT ++ out ++ utf8_loop st l
  end.

Definition utf8_decode (l : list Ascii.ascii) : list Ascii.ascii := utf8_loop (0%nat, 128, 191, []) l.

(** ** [URLSearchParams] *)

Fixpoint split_at (sep : Ascii.ascii) (cur : list Ascii.ascii) (l : list Ascii.ascii) : list (list Ascii.ascii) :=
  match l with
  | [] => [cur]
  | c :: l => if bool_decide (c = sep) then cur :: split_at sep [] l else split_at sep (cur ++ [c]) l
  end.

Fixpoint name_value (cur : list Ascii.ascii) (l : list Ascii.ascii) : list Ascii.ascii * list Ascii.ascii :=
  match l with
  | [] => (cur, [])
  | c :: l => if bool_decide (c = "="%char) then (cur, l) else name_value (cur ++ [c]) l
  end.

Definition decoded (l : list Ascii.ascii) : string := String.string_of_list_ascii (utf8_decode (percent_decode l)).

(** [new URLSearchParams(text)]: a leading [?] is dropped, empty parts are skipped. *)
Definition search_params (text : string) : list (string * string) :=
  let l := match String.list_ascii_of_string text with
           | "?"%char :: l => l
           | l => l
           end in
  (fun part => let '(n, v) := name_value [] part in (decoded n, decoded v)) <$>
  List.filter (fun part => negb (bool_decide (part = []))) (split_at "&" [] l).

(** [params.get(name)], the first; [None] is [null]. *)
Definition get_param (name : string) (params : list (string * string)) : option string := JsMap.lookup name params.

(** ** Contact links *)

Record PendingContact := MkPending { contact_user : string; fingerprint : string }.

(** [buildContactLink], on the origin of the page. *)
Definition buildContactLink (origin username fp : string) : string :=
  if bool_decide (username = EmptyString) then EmptyString
  else
    let k := if bool_decide (fp = EmptyString) then EmptyString else "&k=" +:+ encodeURIComponent fp in
    origin +:+ "/#dd=" +:+ encodeURIComponent username +:+ k.

Definition contact_of (params : list (string * string)) : option PendingContact :=
  let username := Auth.trim (default EmptyString (get_param "dd" params)) in
  if bool_decide (username = EmptyString) then None
  else Some (MkPending username (Auth.trim (default EmptyString (get_param "k" params)))).

Fixpoint after_hash (l : list Ascii.ascii) : option (list Ascii.ascii) :=
  match l with
  | [] => None
  | c :: l => if bool_decide (c = "#"%char) then Some l else after_hash l
  end.

Definition parseContactLink (text : string) : option PendingContact :=
  match after_hash (String.list_ascii_of_string text) with
  | None => None
  | Some l => contact_of (search_params (String.string_of_list_ascii l))
  end.

(** ** The storage of the tab

    [None] is a storage that throws; [fragment] is [location.hash]. *)
Record Tab := MkTab { storage : option (list (string * string)); fragment : string }.

Definition RESUME_KEY : string := "dd-resume".
Definition BOOT_KEY : string := "dd-boot-mode".
Definition BOOT_NOTICE_KEY : string := "dd-boot-notice".
Definition CONTACT_KEY : string := "dd-contact".
Definition BGROUPS_KEY : string := "dd-bgroups-collapsed".

Definition getItem (k : string) (t : Tab) : option (option string) := JsMap.lookup k <$> storage t.
Definition setItem (k v : string) (t : Tab) : Tab := MkTab (JsMap.set k v <$> storage t) (fragment t).
Definition removeItem (k : string) (t : Tab) : Tab := MkTab (JsMap.remove k <$> storage t) (fragment t).

Section storage.
Context `{JsonText}.

(** The conversation id is whatever the entry holds. *)
Record ResumeState := MkResume { resume_user : string; conversationId : option json }.

Definition parsed (k : string) (t : Tab) : option json :=
  match getItem k t with
  | Some (Some raw) => match parse raw with Ok j => Some j | Throw _ => None end
  | _ => None
  end.

Definition loadResume (t : Tab) : option ResumeState :=
  match parsed RESUME_KEY t with
  | Some r =>
      match prop r "username" with
      | Some (JStr u) => if bool_decide (u = EmptyString) then None else Some (MkResume u (prop r "conversationId"))
      | _ => None
      end
  | None => None
  end.

Definition saveResume (r : ResumeState) : Tab -> Tab :=
  setItem RESUME_KEY (stringify (JObj ([("username", JStr (resume_user r))] ++
    match conversationId r with Some c => [("conversationId", c)] | None => [] end))).

Definition clearResume : Tab -> Tab := removeItem RESUME_KEY.

Inductive mode := Login | Register.
Definition mode_name (m : mode) : string := match m with Login => "login" | Register => "register" end.

Definition takeBootMode (t : Tab) : option mode * Tab :=
  match getItem BOOT_KEY t with
  | Some (Some m) =>
      (if bool_decide (m = "register") then Some Register
       else if bool_decide (m = "login") then Some Login else None, removeItem BOOT_KEY t)
  | _ => (None, t)
  end.
Definition setBootMode (m : mode) : Tab -> Tab := setItem BOOT_KEY (mode_name m).

Definition takeBootNotice (t : Tab) : option string * Tab :=
  match getItem BOOT_NOTICE_KEY t with
  | Some (Some n) => (Some n, removeItem BOOT_NOTICE_KEY t)
  | _ => (None, t)
  end.
Definition setBootNotice (n : string) : Tab -> Tab := setItem BOOT_NOTICE_KEY n.

(** The fragment is cleared only after the entry is stored. *)
Definition captureContactFromUrl (t : Tab) : Tab :=
  let hash := match String.list_ascii_of_string (fragment t) with "#"%char :: l => l | l => l end in
  match hash with
  | [] => t
  | _ =>
      match contact_of (search_params (String.string_of_list_ascii hash)), storage t with
      | Some c, Some _ =>
          let t := setItem CONTACT_KEY
            (stringify (JObj [("username", JStr (contact_user c)); ("fingerprint", JStr (fingerprint c))])) t in
          MkTab (storage t) EmptyString
      | _, _ => t
      end
  end.

Definition takePendingContact (t : Tab) : option PendingContact * Tab :=
  match getItem CONTACT_KEY t with
  | Some (Some raw) =>
      let t := removeItem CONTACT_KEY t in
      match parse raw with
      | Throw _ => (None, t)
      | Ok p =>
          match prop p "username" with
          | Some (JStr u) =>
              if bool_decide (u = EmptyString) then (None, t)
              else
                (Some (MkPending u (match prop p "fingerprint" with Some (JStr f) => f | _ => EmptyString end)), t)
          | _ => (None, t)
          end
      end
  | _ => (None, t)
  end.

Definition loadCollapsedGroups (t : Tab) : list string :=
  match parsed BGROUPS_KEY t with
  | Some (JArr l) => omap (fun x => match x with JStr s => Some s | _ => None end) l
  | _ => []
  end.

(** [new Set(...)] of the groups, then add or delete. *)
Definition set_of (l : list string) : list string :=
  foldl (fun s x => if bool_decide (x ∈ s) then s else s ++ [x]) [] l.

Definition toggleCollapsedGroup (name : string) (t : Tab) : list string * Tab :=
  let s := set_of (loadCollapsedGroups t) in
  let next := if bool_decide (name ∈ s) then List.filter (fun x => negb (bool_decide (x = name))) s else s ++ [name] in
  (next, setItem BGROUPS_KEY (stringify (JArr (JStr <$> next))) t).
End storage.
End TabSession.

(** ** Theorems *)
Module TabSessionFacts.
Import TabSession.
Local Open Scope Z_scope.

(** A check of all characters. *)
Lemma all_chars (P : Ascii.ascii -> bool) :
  forallb P (char <$> seqZ 0 256) = true -> forall c, P c = true.
Proof.
  intros H c. rewrite forallb_forall in H. apply H. apply list_elem_of_In.
  rewrite <-(Ascii.ascii_N_embedding c). apply list_elem_of_fmap. exists (code c). split.
  - unfold char, code. by rewrite N2Z.id.
  - apply elem_of_seqZ. pose proof (Ascii.N_ascii_bounded c). unfold code. lia.
Qed.

(** The characters that mean something in a query. *)
Definition plain (c : Ascii.ascii) : bool :=
  negb (bool_decide (c ∈ ["&"%char; "="%char; "#"%char; "?"%char; "+"%char])).

Lemma unreserved_plain c : unreserved c = true -> c <> "%"%char /\ plus_space c = c.
Proof.
  assert (H : forall c, (negb (unreserved c) || (negb (bool_decide (c = "%"%char)) && bool_decide (plus_space c = c))) = true).
  { apply all_chars. by vm_compute. }
  intros Hu. specialize (H c). rewrite Hu in H. cbn [negb orb] in H. apply andb_true_iff in H as [H1 H2].
  apply negb_true_iff, bool_decide_eq_false in H1. apply bool_decide_eq_true in H2. done.
Qed.

Lemma encode_char_plain c : forallb plain (encode_char c) = true.
Proof. revert c. apply all_chars. by vm_compute. Qed.

Lemma hex_digits c :
  hex_value (hex_upper (code c / 16)) = Some (code c / 16) /\
  hex_value (hex_upper (code c mod 16)) = Some (code c mod 16) /\
  char (16 * (code c / 16) + code c mod 16) = c.
Proof.
  assert (H : forall c, (bool_decide (hex_value (hex_upper (code c / 16)) = Some (code c / 16)) &&
    bool_decide (hex_value (hex_upper (code c mod 16)) = Some (code c mod 16)) &&
    bool_decide (char (16 * (code c / 16) + code c mod 16) = c)) = true).
  { apply all_chars. by vm_compute. }
  specialize (H c). rewrite !andb_true_iff, !bool_decide_eq_true in H. by destruct H as [[H1 H2] H3].
Qed.

Lemma percent_plain c rest : c <> "%"%char -> percent_decode (c :: rest) = plus_space c :: percent_decode rest.
Proof. intros Hc. cbn. rewrite bool_decide_false by done. by destruct rest as [|a [|b rest]]. Qed.

Lemma percent_encode_char c rest : percent_decode (encode_char c ++ rest) = c :: percent_decode rest.
Proof.
  unfold encode_char. destruct (unreserved c) eqn:Hu.
  - destruct (unreserved_plain c Hu) as [H1 H2]. cbn [app]. by rewrite percent_plain, H2.
  - destruct (hex_digits c) as (H1 & H2 & H3). cbn [app percent_decode]. rewrite H1, H2, bool_decide_true by done.
    by rewrite H3.
Qed.

Definition encoded (s : string) : list Ascii.ascii := mjoin (encode_char <$> String.list_ascii_of_string s).

Lemma percent_encoded s : percent_decode (encoded s) = String.list_ascii_of_string s.
Proof.
  unfold encoded. induction (String.list_ascii_of_string s) as [|c l IH]; [done|].
  rewrite fmap_cons. cbn [mjoin list_join]. rewrite percent_encode_char. f_equal. exact IH.
Qed.

Lemma encoded_plain s : forallb plain (encoded s) = true.
Proof.
  unfold encoded. induction (String.list_ascii_of_string s) as [|c l IH]; [done|].
  rewrite fmap_cons. cbn [mjoin list_join]. rewrite forallb_app, encode_char_plain. exact IH.
Qed.
(** ** Queries *)
Lemma plain_is c d : plain c = true -> plain d = false -> c <> d.
Proof. intros Hc Hd ->. congruence. Qed.

Lemma split_at_plain cur l : forallb plain l = true -> split_at "&" cur l = [cur ++ l].
Proof.
  revert cur. induction l as [|c l IH]; intros cur; cbn [split_at forallb]; [by rewrite app_nil_r|].
  intros [Hc Hl]%andb_true_iff. rewrite bool_decide_false by (by apply (plain_is c "&")).
  rewrite IH by done. by rewrite <-app_assoc.
Qed.

Lemma split_at_two cur l r :
  forallb plain l = true -> split_at "&" cur (l ++ "&"%char :: r) = (cur ++ l) :: split_at "&" [] r.
Proof.
  revert cur. induction l as [|c l IH]; intros cur; cbn [app split_at forallb]; [by rewrite app_nil_r|].
  intros [Hc Hl]%andb_true_iff. rewrite bool_decide_false by (by apply (plain_is c "&")).
  rewrite IH by done. by rewrite <-app_assoc.
Qed.

Definition well_formed (s : string) : Prop :=
  utf8_decode (String.list_ascii_of_string s) = String.list_ascii_of_string s.

Lemma decoded_encoded s : well_formed s -> decoded (encoded s) = s.
Proof.
  intros Hs. unfold decoded. rewrite percent_encoded, Hs. apply String.string_of_list_ascii_of_string.
Qed.

(** ASCII text is well-formed. *)
Lemma ascii_well_formed s : Forall (fun c => code c < 128) (String.list_ascii_of_string s) -> well_formed s.
Proof.
  unfold well_formed, utf8_decode. induction 1 as [|c l Hc Hl IH]; [done|].
  cbn [utf8_loop]. unfold utf8_start. replace (code c <? 128) with true by (symmetry; by apply Z.ltb_lt).
  cbn [app]. by rewrite IH.
Qed.

(** The part of the link after its [#]. *)
Definition link_query (u fp : string) : list Ascii.ascii :=
  ["d"%char; "d"%char; "="%char] ++ encoded u ++
  (if bool_decide (fp = EmptyString) then [] else "&"%char :: ["k"%char; "="%char] ++ encoded fp).

Lemma list_encode s : String.list_ascii_of_string (encodeURIComponent s) = encoded s.
Proof. apply String.list_ascii_of_string_of_list_ascii. Qed.

Lemma list_app a b :
  String.list_ascii_of_string (a +:+ b) = String.list_ascii_of_string a ++ String.list_ascii_of_string b.
Proof. induction a as [|c a IH]; [done|]. exact (f_equal (cons c) IH). Qed.

Lemma link_chars origin u fp :
  u <> EmptyString ->
  String.list_ascii_of_string (buildContactLink origin u fp) =
  String.list_ascii_of_string origin ++ "/"%char :: "#"%char :: link_query u fp.
Proof.
  intros Hu. unfold buildContactLink, link_query. rewrite bool_decide_false by done.
  rewrite !list_app, list_encode. cbn [String.list_ascii_of_string app]. do 2 f_equal.
  destruct (bool_decide (fp = EmptyString)); [done|]. by rewrite list_app, list_encode.
Qed.

Lemma after_hash_app l r : "#"%char ∉ l -> after_hash (l ++ "#"%char :: r) = Some r.
Proof.
  induction l as [|c l IH]; intros Hl; cbn [app after_hash]; [done|].
  rewrite bool_decide_false by (intros ->; apply Hl; left). apply IH. intros Hin. apply Hl. by right.
Qed.

Lemma query_part n v : n <> "="%char -> name_value [] (n :: "="%char :: v) = ([n], v).
Proof. intros Hn. cbn. rewrite bool_decide_false by done. done. Qed.

(** The query of a link names the contact. *)
Lemma link_query_read u fp :
  well_formed u -> well_formed fp ->
  contact_of (search_params (String.string_of_list_ascii (link_query u fp))) =
  if bool_decide (Auth.trim u = EmptyString) then None else Some (MkPending (Auth.trim u) (Auth.trim fp)).
Proof.
  intros Hu Hf. unfold search_params. rewrite String.list_ascii_of_string_of_list_ascii.
  assert (Hname : forall v, name_value [] (["d"; "d"; "="]%char ++ v) = (["d"; "d"]%char, v)) by done.
  assert (Hpart : forallb plain (["d"%char; "d"%char] ++ encoded u) = true).
  { rewrite forallb_app, encoded_plain. done. }
  unfold link_query. cbn [app].
  assert (Hsplit : forall r, split_at "&" [] ("d" :: "d" :: "=" :: (encoded u ++ "&" :: r))%char =
    ("d" :: "d" :: "=" :: encoded u)%char :: split_at "&" [] r).
  { intros r. cbn [split_at]. rewrite !bool_decide_false by done. cbn [app].
    by rewrite split_at_two by apply encoded_plain. }
  assert (Hlast : split_at "&" [] ("d" :: "d" :: "=" :: encoded u)%char = [("d" :: "d" :: "=" :: encoded u)%char]).
  { cbn [split_at]. rewrite !bool_decide_false by done. by rewrite split_at_plain by apply encoded_plain. }
  destruct (decide (fp = EmptyString)) as [->|Hne].
  - rewrite bool_decide_true by done. rewrite app_nil_r, Hlast. cbn [List.filter].
    rewrite bool_decide_false by done. cbn [negb List.filter]. rewrite list_fmap_singleton.
    change ("d" :: "d" :: "=" :: encoded u)%char with (["d"; "d"; "="]%char ++ encoded u). rewrite Hname.
    unfold contact_of, get_param. rewrite decoded_encoded by done. change (decoded ["d"; "d"]%char) with "dd".
    cbn [JsMap.lookup]. rewrite decide_True, decide_False by done. done.
  - rewrite bool_decide_false by done. rewrite Hsplit.
    assert (Hk : split_at "&" [] ("k" :: "=" :: encoded fp)%char = [("k" :: "=" :: encoded fp)%char]).
    { cbn [split_at]. rewrite !bool_decide_false by done. by rewrite split_at_plain by apply encoded_plain. }
    rewrite Hk. cbn [List.filter]. rewrite !bool_decide_false by done. cbn [negb List.filter].
    rewrite fmap_cons, list_fmap_singleton.
    change ("d" :: "d" :: "=" :: encoded u)%char with (["d"; "d"; "="]%char ++ encoded u). rewrite Hname.
    rewrite query_part by done. unfold contact_of, get_param. rewrite !decoded_encoded by done.
    change (decoded ["d"; "d"]%char) with "dd". change (decoded ["k"]%char) with "k".
    cbn [JsMap.lookup]. rewrite decide_True, decide_False, decide_True by done. done.
Qed.

(** C19. A contact link survives the QR code: whatever the username and the fingerprint are, as long as they
    are well-formed text, what a scan reads from the link is the two of them, trimmed of all that
    JavaScript takes for white space; a link whose username is nothing else names nobody. *)
Theorem contact_link_roundtrip (origin u fp : string) :
  "#"%char ∉ String.list_ascii_of_string origin -> well_formed u -> well_formed fp ->
  parseContactLink (buildContactLink origin u fp) =
  if bool_decide (Auth.trim u = EmptyString) then None else Some (MkPending (Auth.trim u) (Auth.trim fp)).
Proof.
  intros Ho Hu Hf. unfold parseContactLink. destruct (decide (u = EmptyString)) as [->|Hne]; [done|].
  rewrite link_chars by done.
  change (String.list_ascii_of_string origin ++ "/"%char :: "#"%char :: link_query u fp)
    with (String.list_ascii_of_string origin ++ ["/"%char] ++ "#"%char :: link_query u fp).
  rewrite app_assoc, after_hash_app; [by apply link_query_read|].
  rewrite elem_of_app. intros [H|H]; [done|]. by apply list_elem_of_singleton in H.
Qed.
(** ** The storage *)
Section storage.
Context `{JsonTextLaws}.

Lemma getItem_set k k' v t :
  getItem k (setItem k' v t) = (if decide (k = k') then (fun _ => Some v) else id) <$> getItem k t.
Proof.
  unfold getItem, setItem. destruct (storage t) as [m|]; [|by destruct (decide _)]. cbn.
  rewrite JsMap.lookup_set. by destruct (decide _).
Qed.

Lemma getItem_remove k k' t :
  getItem k (removeItem k' t) = (if decide (k = k') then (fun _ => None) else id) <$> getItem k t.
Proof.
  unfold getItem, removeItem. destruct (storage t) as [m|]; [|by destruct (decide _)]. cbn.
  rewrite JsMap.lookup_remove. by destruct (decide _).
Qed.

(** A contact link opened in a tab is taken once: the fragment is gone from the address bar, so that a
    refresh does not bring it back; the next sign-in takes the contact and the one after it none; the other
    entries of the tab stay as they are. *)
Theorem opened_link_is_taken_once (t : Tab) m u fp :
  storage t = Some m -> fragment t = String.string_of_list_ascii ("#"%char :: link_query u fp) ->
  well_formed u -> well_formed fp -> Auth.trim u <> EmptyString ->
  let t1 := captureContactFromUrl t in
  fragment t1 = EmptyString /\ captureContactFromUrl t1 = t1 /\
  let '(c, t2) := takePendingContact t1 in
  c = Some (MkPending (Auth.trim u) (Auth.trim fp)) /\ takePendingContact t2 = (None, t2) /\
  forall k, k <> CONTACT_KEY -> getItem k t2 = getItem k t.
Proof.
  intros Hm Hf Hu Hfp Ht t1.
  set (v := stringify (JObj [("username", JStr (Auth.trim u)); ("fingerprint", JStr (Auth.trim fp))])).
  assert (E : t1 = MkTab (Some (JsMap.set CONTACT_KEY v m)) EmptyString).
  { unfold t1, captureContactFromUrl. rewrite Hf, String.list_ascii_of_string_of_list_ascii.
    change (match "#"%char :: link_query u fp with "#"%char :: l => l | l => l end) with (link_query u fp).
    assert (Hne : exists x l, link_query u fp = x :: l) by (by eexists _, _). destruct Hne as (x & l & Hne).
    rewrite Hne at 1. rewrite link_query_read, bool_decide_false, Hm by done. unfold setItem. cbn [storage]. by rewrite Hm. }
  clearbody t1. subst t1. split; [done|]. split; [done|].
  unfold takePendingContact. unfold getItem at 1. cbn [storage fmap option_fmap option_map].
  rewrite JsMap.lookup_set_eq. unfold v. rewrite parse_stringify. cbn [prop JsMap.lookup].
  rewrite decide_True by done. rewrite (decide_False (P := "fingerprint" = "username")) by done.
  rewrite decide_True by done. cbv beta iota zeta. rewrite bool_decide_false by done. split; [done|]. split.
  - unfold getItem. cbn. by rewrite JsMap.lookup_remove_eq.
  - intros k Hk. unfold getItem. cbn. rewrite Hm. cbn. by rewrite JsMap.lookup_remove_ne, JsMap.lookup_set_ne.
Qed.

(** What was saved for a resume is what is loaded, until it is cleared. *)
Lemma resume_roundtrip (t : Tab) m r :
  storage t = Some m -> resume_user r <> EmptyString ->
  loadResume (saveResume r t) = Some r /\ loadResume (clearResume (saveResume r t)) = None.
Proof.
  intros Hm Hu. unfold loadResume, parsed, saveResume, clearResume. rewrite getItem_remove, !getItem_set.
  unfold getItem. rewrite Hm, !decide_True by done. cbn [fmap option_fmap option_map]. rewrite parse_stringify.
  by destruct r as [[|a u] [c|]].
Qed.

(** The hint for the next start is used once. *)
Lemma boot_mode_once (t : Tab) m b :
  storage t = Some m ->
  let '(x, t') := takeBootMode (setBootMode b t) in x = Some b /\ (takeBootMode t').1 = None.
Proof.
  intros Hm. unfold takeBootMode, setBootMode. rewrite getItem_set. unfold getItem.
  rewrite Hm, decide_True by done. destruct b; cbn; rewrite Hm; cbn; by rewrite JsMap.lookup_remove_eq.
Qed.

(** Without a storage nothing is remembered and nothing fails. *)
Lemma no_storage (t : Tab) :
  storage t = None ->
  loadResume t = None /\ takeBootMode t = (None, t) /\ takeBootNotice t = (None, t) /\
  takePendingContact t = (None, t) /\ loadCollapsedGroups t = [] /\ captureContactFromUrl t = t.
Proof.
  intros Hs. unfold loadResume, takeBootMode, takeBootNotice, takePendingContact, loadCollapsedGroups, parsed, getItem.
  rewrite Hs. cbn. repeat split. unfold captureContactFromUrl. rewrite Hs. by repeat case_match.
Qed.
End storage.
End TabSessionFacts.

(** A tab that opens the link of [bob smith+1]. *)
Module TabSessionToy.
Import TabSession TabSessionFacts.

Import ControllerToy.

Definition tab : Tab :=
  MkTab (Some [("other", "kept")]) (String.string_of_list_ascii ("#"%char :: link_query " bob smith+1" "af/09=")).

(** A name between no-break spaces, and one that is nothing but a byte order mark. *)
Definition nbsp : string := String.string_of_list_ascii [Ascii.ascii_of_nat 194; Ascii.ascii_of_nat 160].
Definition bom : string := String.string_of_list_ascii (Ascii.ascii_of_nat <$> [239; 187; 191]%nat).
Lemma contact_link_roundtrip_witness :
  parseContactLink (buildContactLink "https://dd.example" (nbsp +:+ " bob smith+1" +:+ nbsp) "af/09=") =
    Some (MkPending "bob smith+1" "af/09=") /\
  parseContactLink (buildContactLink "https://dd.example" bom "af/09=") = None.
Proof.
  assert (Ho : "#"%char ∉ String.list_ascii_of_string "https://dd.example") by (apply (bool_decide_unpack _); by vm_compute).
  split.
  - rewrite (contact_link_roundtrip "https://dd.example" (nbsp +:+ " bob smith+1" +:+ nbsp) "af/09=" Ho); by vm_compute.
  - rewrite (contact_link_roundtrip "https://dd.example" bom "af/09=" Ho); by vm_compute.
Defined.

Lemma opened_link_is_taken_once_witness :
  let t1 := captureContactFromUrl tab in
  fragment t1 = EmptyString /\ captureContactFromUrl t1 = t1 /\
  let '(c, t2) := takePendingContact t1 in
  c = Some (MkPending "bob smith+1" "af/09=") /\ takePendingContact t2 = (None, t2) /\
  forall k, k <> CONTACT_KEY -> getItem k t2 = getItem k tab.
Proof.
  apply (opened_link_is_taken_once tab [("other", "kept")] " bob smith+1" "af/09="); by vm_compute.
Defined.

(** A refresh with no storage, and bytes that are no text. *)
Example hostile_fragment :
  parseContactLink "x#?dd=%E2%28%zz+a&&dd=c&k" = Some (MkPending (String.string_of_list_ascii (REPLACEMENT ++ ["("%char; "%"%char; "z"%char; "z"%char; " "%char; "a"%char])) "").
Proof. by vm_compute. Qed.
End TabSessionToy.
