(* ===== verification/Live.v ===== *)
(** * The pairwise channel (client/src/live.ts)

    One device with its transport and the 1:1 sessions of Session.v that share its one conversation
    object.  The wasm conversation is the class [ConversationApi], the transport and the other injected
    calls are the class [LiveDeps].  A promise that the channel waits for is a task, which an [Answer]
    settles; the trace lists the calls the channel made and what it was answered. *)

From S2P Require Import Prelude Handshake Session Auth Channel GroupChannel TabSession.

Module Live.

(** ** Contacts *)

Definition fingerprintOf (sigHex : string) : string :=
  String.concat "·" ((fun i => GroupChannel.toUpperCase (String.substring i 2 sigHex)) <$> [0; 2; 4; 6]%nat).
Definition shortName (sigHex : string) : string := GroupChannel.toUpperCase (String.substring 0 6 sigHex).

Record Contact := MkContact { routingKey : string; sigKeyHex : string }.
#[export] Instance contact_eq_dec : EqDecision Contact.
Proof. solve_decision. Defined.

Definition CONTACT_TAG : string := "deaddrop".
Definition CONTACT_VERSION : string := "1".
Definition formatContact (sigHex : string) : string :=
  CONTACT_TAG +:+ ":" +:+ CONTACT_VERSION +:+ ":" +:+ sigHex +:+ ":" +:+ sigHex.

(** [s.split(':')] *)
Definition split_colon (s : string) : list string :=
  String.string_of_list_ascii <$> TabSession.split_at ":"%char [] (String.list_ascii_of_string s).

Definition parseContact (s : string) : result Contact :=
  match split_colon (Auth.trim s) with
  | [tag; version; routing; sig] =>
      if negb (bool_decide (tag = CONTACT_TAG)) || negb (bool_decide (version = CONTACT_VERSION)) then
        Throw (JsError "that does not look like a DEAD DROP contact")
      else if bool_decide (routing = "") || bool_decide (sig = "") then
        Throw (JsError "that contact is incomplete")
      else Ok (MkContact routing sig)
  | _ => Throw (JsError "that does not look like a DEAD DROP contact")
  end.

Definition systemEntry (text : string) : string := "» " +:+ text.

(** ** What the channel is given *)

(** The injected calls and the methods of a transport [T]; the resolver that the transport is given calls
    back into the conversation. *)
Class LiveDeps (H T W : Type) := {
  dep_connect : string -> M W T;
  dep_makeConversation : string -> M W H;
  tr_setConsumerIdResolver : T -> (string -> M W string) -> M W unit;
  tr_subscribe : T -> string -> M W unit;
  tr_publish : T -> EnvelopeMsg -> M W unit;
  tr_ack : T -> bytes -> M W unit;
  tr_sendOffer : T -> OfferMsg -> M W unit;
  tr_sendAccept : T -> AcceptMsg -> M W unit;
  randomUUID : M W string;
  rangeMessage : string
}.

(** What is stored with a message. *)
Record Meta := MkMeta { m_messageId : string; m_conversationId : string; m_inbound : bool; m_lifetime : Lifetime }.
#[export] Instance meta_eq_dec : EqDecision Meta.
Proof. solve_decision. Defined.

(** ** State *)

(** A session keeps the conversation that the channel had when the session was made ([made]): the factory
    it is built with closes over it. *)
Record ActiveSession (H : Type) := MkActive {
  session : Session H;
  made : H;
  a_conversationId : string;
  peerSigHex : string;
  peerLabel : string;
  established : bool
}.
Arguments MkActive {_} _ _ _ _ _ _.
Arguments session {_} _.
Arguments made {_} _.
Arguments a_conversationId {_} _.
Arguments peerSigHex {_} _.
Arguments peerLabel {_} _.
Arguments established {_} _.

(** The methods that return a promise. *)
Inductive call := CConnect | CAccept (conversationId : string) | CSend (conversationId : string).

(** What is waited for, with what the continuation needs. *)
Inductive task (H : Type) :=
  | TLoadSelf (url : string)
  | TSaveSelf (url : string) (conv : H) (identity : Identity)
  | TChannel (accepted : option string)
  | TOut (conversationId : string)
  | TIn (meta : Meta) (messageId : bytes).
Arguments TLoadSelf {_} _.
Arguments TSaveSelf {_} _ _ _.
Arguments TChannel {_} _.
Arguments TOut {_} _.
Arguments TIn {_} _ _.

Inductive event :=
  | EvConnection (state : string)
  | EvError (code : Z) (detail : string)
  | EvOffer (conversationId peer fingerprint : string)
  | EvEstablished (conversationId : string)
  | EvInboundMessage (conversationId : string).

Inductive value := VUnit | VContact (selfContact : string) | VModel (m : TransmitModel).

Inductive effect (H : Type) :=
  | Push (e : event)
  | Subscribe (key : string)
  | Publish (env : EnvelopeMsg)
  | Ack (messageId : bytes)
  | SendOffer (offer : OfferMsg)
  | SendAccept (accept : AcceptMsg)
  | LoadSelf
  | SaveSelf (conv : H)
  | PersistChannel (summary : ChannelSummary)
  | PersistMessage (meta : Meta) (plaintext : bytes)
  | Received (conversationId : string) (env : EnvelopeMsg) (frame : Frame.ParsedFrame)
  | Answered (t : task H) (ok : bool)
  | Settled (c : call) (r : result value).
Arguments Push {_} _.
Arguments Subscribe {_} _.
Arguments Publish {_} _.
Arguments Ack {_} _.
Arguments SendOffer {_} _.
Arguments SendAccept {_} _.
Arguments LoadSelf {_}.
Arguments SaveSelf {_} _.
Arguments PersistChannel {_} _.
Arguments PersistMessage {_} _ _.
Arguments Received {_} _ _ _.
Arguments Answered {_} _ _.
Arguments Settled {_} _ _.

Record State (H T W : Type) := MkState {
  transport : option T;
  conv : option H;
  identity : option Identity;
  selfRoutingKey : string;
  sessions : list (string * ActiveSession H);
  tasks : list (nat * task H);
  next : nat;
  trace : list (effect H);
  world : W
}.
Arguments MkState {_ _ _} _ _ _ _ _ _ _ _ _.
Arguments transport {_ _ _} _.
Arguments conv {_ _ _} _.
Arguments identity {_ _ _} _.
Arguments selfRoutingKey {_ _ _} _.
Arguments sessions {_ _ _} _.
Arguments tasks {_ _ _} _.
Arguments next {_ _ _} _.
Arguments trace {_ _ _} _.
Arguments world {_ _ _} _.

Section channel.
Context {H T W : Type} `{!ConversationApi H W} `{!LiveDeps H T W}.
Context (text_decode : bytes -> string).
(** Whether the channel was built with a persistence. *)
Context (persistence : bool).

#[local] Abbreviation St := (State H T W).
#[local] Abbreviation Active := (ActiveSession H).

Definition fresh (w : W) : St := MkState None None None "" [] [] 0 [] w.

Definition set_transport (t : option T) (s : St) : St :=
  MkState t (conv s) (identity s) (selfRoutingKey s) (sessions s) (tasks s) (next s) (trace s) (world s).
Definition set_self (c : H) (i : Identity) (s : St) : St :=
  MkState (transport s) (Some c) (Some i) (signatureKeyHex i) (sessions s) (tasks s) (next s) (trace s) (world s).
Definition set_sessions (m : list (string * Active)) (s : St) : St :=
  MkState (transport s) (conv s) (identity s) (selfRoutingKey s) m (tasks s) (next s) (trace s) (world s).
Definition set_tasks (l : list (nat * task H)) (n : nat) (s : St) : St :=
  MkState (transport s) (conv s) (identity s) (selfRoutingKey s) (sessions s) l n (trace s) (world s).
Definition add_trace (e : effect H) (s : St) : St :=
  MkState (transport s) (conv s) (identity s) (selfRoutingKey s) (sessions s) (tasks s) (next s) (trace s ++ [e]) (world s).
Definition set_world (w : W) (s : St) : St :=
  MkState (transport s) (conv s) (identity s) (selfRoutingKey s) (sessions s) (tasks s) (next s) (trace s) w.

Definition emit (e : effect H) : M St unit := modify (add_trace e).
Definition push (e : event) : M St unit := emit (Push e).
Definition on_world {A} (m : M W A) : M St A := zoom world set_world m.
(** Starts to wait. *)
Definition ask (t : task H) : M St unit := modify (fun s => set_tasks (tasks s ++ [(next s, t)]) (S (next s)) s).

Definition errMsg (e : exn) : string := match e with RangeError => rangeMessage (H := H) (T := T) (W := W) | JsError m => m end.

Definition requireTransport : M St T :=
  let! t := gets transport in
  match t with Some t => ret t | None => throw (JsError "connect to the gateway first") end.

(** The methods of the transport. *)
Definition subscribe (key : string) (t : T) : M St unit := do! emit (Subscribe key) in on_world (tr_subscribe t key).
Definition publish (env : EnvelopeMsg) (t : T) : M St unit := do! emit (Publish env) in on_world (tr_publish t env).
Definition ack (i : bytes) (t : T) : M St unit := do! emit (Ack i) in on_world (tr_ack t i).
Definition sendOffer (o : OfferMsg) (t : T) : M St unit := do! emit (SendOffer o) in on_world (tr_sendOffer t o).
Definition sendAccept (a : AcceptMsg) (t : T) : M St unit := do! emit (SendAccept a) in on_world (tr_sendAccept t a).

(** A method of a session that is not in the map yet: what it threw, and the session as it left it. *)
Definition run_session {A} (x : Session H) (m : M (Session H * W) A) : M St (result A * Session H) :=
  fun s => let '(r, (x', w')) := m (x, world s) in (Ok (r, x'), set_world w' s).

Definition with_session (x : Session H) (a : Active) : Active :=
  MkActive x (made a) (a_conversationId a) (peerSigHex a) (peerLabel a) (established a).
Definition with_established (a : Active) : Active :=
  MkActive (session a) (made a) (a_conversationId a) (peerSigHex a) (peerLabel a) true.
Definition store (a : Active) : M St unit := modify (fun s => set_sessions (JsMap.set (a_conversationId a) a (sessions s)) s).

(** A method of a session of the map: it changes the session in place, whether it returns or throws. *)
Definition in_session {A} (a : Active) (m : M (Session H * W) A) : M St (A * Active) :=
  let! '(r, x) := run_session (session a) m in
  let a := with_session x a in
  do! store a in
  let! v := of_result r in
  ret (v, a).

(** ** Connecting *)

Definition selfContact (s : St) : option string := formatContact ∘ signatureKeyHex <$> identity s.
Definition selfFingerprint (s : St) : string :=
  match identity s with Some i => fingerprintOf (signatureKeyHex i) | None => "pending" end.

(** An asynchronous method: what its synchronous part throws rejects its promise. *)
Definition settling (c : call) (m : M St unit) : M St unit := try_catch m (fun e => emit (Settled c (Throw e))).

Definition connected (url : string) (c : H) (i : Identity) : M St unit :=
  let! t := on_world (dep_connect (H := H) url) in
  do! modify (set_transport (Some t)) in
  do! on_world (tr_setConsumerIdResolver (H := H) t (conv_mailboxTag c)) in
  let! key := gets selfRoutingKey in
  do! subscribe key t in
  do! push (EvConnection "live") in
  emit (Settled CConnect (Ok (VContact (formatContact (signatureKeyHex i))))).

Definition connect_as (url : string) (restored : option H) : M St unit :=
  let! c := match restored with Some c => ret c | None => on_world (dep_makeConversation (T := T) "me") end in
  let! key := on_world (conv_signaturePublicKeyHex c) in
  let! package := on_world (conv_keyPackage c) in
  let i := MkIdentity key package "me" in
  do! modify (set_self c i) in
  if persistence then do! emit (SaveSelf c) in ask (TSaveSelf url c i)
  else connected url c i.

Definition connectGateway (url : string) : M St unit :=
  if persistence then do! emit LoadSelf in ask (TLoadSelf url)
  else settling CConnect (connect_as url None).

(** ** Offering and accepting *)

Definition new_session (conversationId : string) : M St (Session H * H) :=
  let! i := gets identity in
  let! c := gets conv in
  match i, c with
  | Some i, Some c => ret (Sessions.newSession i conversationId, c)
  | _, _ => throw (JsError "connect to the gateway first")
  end.

Definition offerToContact (contactStr : string) : M St TransmitModel :=
  let! contact := of_result (parseContact contactStr) in
  let! t := requireTransport in
  let! uuid := on_world (randomUUID (H := H) (T := T)) in
  let conversationId := "c-" +:+ uuid in
  let! '(x, c) := new_session conversationId in
  let! '(r, x) := run_session x (Sessions.makeOffer (routingKey contact)) in
  let! offer := of_result r in
  do! sendOffer offer t in
  let peer := shortName (sigKeyHex contact) in
  do! store (MkActive x c conversationId (sigKeyHex contact) peer false) in
  ret (MkTransmit false peer (fingerprintOf (sigKeyHex contact))
         [systemEntry "offer sent · waiting for them to accept"] "" conversationId).

Definition summary_of (a : Active) : ChannelSummary :=
  MkSummary (a_conversationId a) (peerLabel a) (fingerprintOf (peerSigHex a)) "secure" "secure channel open" 0.
Definition persist (a : Active) (accepted : option string) : M St unit :=
  do! emit (PersistChannel (summary_of a)) in ask (TChannel accepted).

Definition accept_now (conversationId : string) : M St unit :=
  let! m := gets sessions in
  match JsMap.lookup conversationId m with
  | None => throw (JsError "no pending offer for this channel")
  | Some a =>
      let! t := requireTransport in
      let! '(accept, a) := in_session a (Sessions.acceptOffer (fun _ => ret (made a)) (peerSigHex a)) in
      do! sendAccept accept t in
      let! '(mailbox, a) := in_session a Sessions.inboundMailbox in
      do! subscribe mailbox t in
      let a := with_established a in
      do! store a in
      persist a (Some conversationId)
  end.
Definition acceptKeyExchange (conversationId : string) : M St unit :=
  settling (CAccept conversationId) (accept_now conversationId).

(** ** Sending *)

Definition send_now (conversationId text : string) : M St unit :=
  let! m := gets sessions in
  match JsMap.lookup conversationId m with
  | Some a =>
      if established a then
        let lifetime := defaultLifetime (session a) in
        let! '(env, a) := in_session a (Sessions.sendMessage (text_encode text) None None) in
        let! t := requireTransport in
        do! publish env t in
        do! emit (PersistMessage (MkMeta (bytesToHex (env_messageId env)) conversationId false lifetime) (text_encode text)) in
        ask (TOut conversationId)
      else throw (JsError "this channel is not open yet")
  | None => throw (JsError "this channel is not open yet")
  end.
Definition sendMessage (conversationId text : string) : M St unit :=
  settling (CSend conversationId) (send_now conversationId text).

(** ** What the transport reports *)

Definition report (e : exn) : M St unit := push (EvError (-1) (errMsg e)).

Definition onOffer (offer : OfferMsg) : M St unit :=
  let peer := bytesToHex (offer_fromSignatureKey offer) in
  let conversationId := offer_conversationId offer in
  let! '(x, c) := new_session conversationId in
  let! '(r, x) := run_session x (Sessions.onOfferReceived offer) in
  match r with
  | Throw e => report e
  | Ok _ =>
      do! store (MkActive x c conversationId peer (shortName peer) false) in
      push (EvOffer conversationId (shortName peer) (fingerprintOf peer))
  end.

Definition onAccept (accept : AcceptMsg) : M St unit :=
  let! m := gets sessions in
  match JsMap.lookup (accept_conversationId accept) m with
  | None => ret tt
  | Some a =>
      if negb (bool_decide (bytesToHex (accept_fromSignatureKey accept) = peerSigHex a)) then
        push (EvError (-1) "peer key did not match the contact you used")
      else
        let! '(r, x) := run_session (session a) (Sessions.onAcceptReceived (fun _ => ret (made a)) accept) in
        let a := with_session x a in
        do! store a in
        match r with
        | Throw e => report e
        | Ok _ =>
            let! t := requireTransport in
            let! '(mailbox, a) := in_session a Sessions.inboundMailbox in
            do! subscribe mailbox t in
            let a := with_established a in
            do! store a in
            do! persist a None in
            do! push (EvConnection "secure") in
            push (EvEstablished (a_conversationId a))
        end
  end.

Definition onDeliver (env : EnvelopeMsg) : M St unit :=
  let! m := gets sessions in
  match List.find (fun x => established x.2) m with
  | None => ret tt
  | Some (_, a) =>
      let! '(r, x) := run_session (session a) (Sessions.receiveMessage text_decode env) in
      do! store (with_session x a) in
      match r with
      | Throw e => report e
      | Ok frame =>
          do! emit (Received (a_conversationId a) env frame) in
          match frame with
          | Frame.Message plaintext lifetime =>
              let meta := MkMeta (bytesToHex (env_messageId env)) (a_conversationId a) true lifetime in
              do! emit (PersistMessage meta plaintext) in
              ask (TIn meta (env_messageId env))
          | _ => let! t := requireTransport in ack (env_messageId env) t
          end
      end
  end.

(** ** Runs *)

Inductive answer := ALoaded (r : result (option H)) | ADone (r : result unit).

Definition settled (c : call) (r : result unit) : M St unit :=
  match r with Ok _ => emit (Settled c (Ok VUnit)) | Throw e => emit (Settled c (Throw e)) end.

Definition continue (t : task H) (x : answer) : M St unit :=
  match t, x with
  | TLoadSelf url, ALoaded (Ok restored) => settling CConnect (connect_as url restored)
  | TLoadSelf _, ALoaded (Throw e) => emit (Settled CConnect (Throw e))
  | TSaveSelf url c i, ADone (Ok _) => settling CConnect (connected url c i)
  | TSaveSelf _ _ _, ADone (Throw e) => emit (Settled CConnect (Throw e))
  | TChannel (Some conversationId), ADone _ =>
      do! push (EvConnection "secure") in emit (Settled (CAccept conversationId) (Ok VUnit))
  | TOut conversationId, ADone r => settled (CSend conversationId) r
  | TIn meta messageId, ADone (Ok _) =>
      try_catch
        (let! t := requireTransport in
         do! ack messageId t in
         push (EvInboundMessage (m_conversationId meta)))
        report
  | TIn _ _, ADone (Throw e) => report e
  | _, _ => ret tt
  end.

Definition succeeded (x : answer) : bool :=
  match x with ALoaded (Ok _) | ADone (Ok _) => true | _ => false end.

(** [loadSelf] gives a conversation or [null], the others nothing. *)
Definition fits (t : task H) (x : answer) : bool :=
  match t, x with TLoadSelf _, ALoaded _ => true | TLoadSelf _, ADone _ => false | _, ADone _ => true | _, ALoaded _ => false end.

(** The end of the [n]-th promise; it settles once. *)
Definition answered (n : nat) (x : answer) : M St unit :=
  let! l := gets tasks in
  match JsMap.lookup n l with
  | None => ret tt
  | Some t =>
      if fits t x then
        do! modify (fun s => set_tasks (JsMap.remove n (tasks s)) (next s) s) in
        do! emit (Answered t (succeeded x)) in
        continue t x
      else ret tt
  end.

Inductive op :=
  | Connect (url : string)
  | OfferTo (contact : string)
  | AcceptFrom (conversationId : string)
  | SendText (conversationId text : string)
  | OnOffer (offer : OfferMsg)
  | OnAccept (accept : AcceptMsg)
  | OnDeliver (env : EnvelopeMsg)
  | OnReceipt (messageId : bytes)
  | OnError (code : Z) (detail : string)
  | OnClose
  | Answer (n : nat) (x : answer).

Definition exec (o : op) : M St unit :=
  match o with
  | Connect url => connectGateway url
  | OfferTo contact => do! offerToContact contact in ret tt
  | AcceptFrom cid => acceptKeyExchange cid
  | SendText cid text => sendMessage cid text
  | OnOffer o => onOffer o
  | OnAccept a => onAccept a
  | OnDeliver e => onDeliver e
  | OnReceipt _ => ret tt
  | OnError code detail => push (EvError code detail)
  | OnClose => push (EvConnection "offline")
  | Answer n x => answered n x
  end.

Definition run (os : list op) (s : St) : St := foldl (fun s o => (exec o s).2) s os.
End channel.
End Live.
