(* ===== verification/LiveFacts.v ===== *)
(** * Properties of the pairwise channel

    Contacts read back; a delivery is acknowledged only when it is stored; a channel that is open is one
    with the peer whose key it shows; and runs in which it goes wrong. *)

From S2P Require Import Prelude Handshake Session Auth Channel ChannelLogic GroupChannel ContactsLogic TabSession Live.
Import Live.

Module LiveFacts.

(** ** Contacts *)

Lemma split_end sep cur l : sep ∉ l -> TabSession.split_at sep cur l = [cur ++ l].
Proof.
  revert cur. induction l as [|c l IH]; intros cur Hl; [by rewrite app_nil_r|]. apply not_elem_of_cons in Hl as [Hc Hl].
  cbn [TabSession.split_at]. rewrite bool_decide_eq_false_2 by congruence. rewrite IH by done. by rewrite <-app_assoc.
Qed.
Lemma split_field sep cur l r :
  sep ∉ l -> TabSession.split_at sep cur (l ++ sep :: r) = (cur ++ l) :: TabSession.split_at sep [] r.
Proof.
  revert cur. induction l as [|c l IH]; intros cur Hl.
  { cbn [TabSession.split_at app]. by rewrite bool_decide_eq_true_2, app_nil_r. }
  apply not_elem_of_cons in Hl as [Hc Hl]. cbn [TabSession.split_at app]. rewrite bool_decide_eq_false_2 by congruence.
  rewrite IH by done. by rewrite <-app_assoc.
Qed.

(** The colon is what separates the fields. *)
Definition field_ok (k : string) : bool :=
  negb (bool_decide (k = "")) && bool_decide (":"%char ∉ String.list_ascii_of_string k) && bool_decide (Auth.trim k = k).

(** A text before a colon begins and ends with no white space when its two ends do not. *)
Lemma trim_field pre c0 k :
  (exists mid, pre = c0 :: mid ++ [":"%char]) -> (char_code c0 <? 128) = true -> is_space c0 = false -> Auth.trim k = k -> k <> "" ->
  trim_list (pre ++ String.list_ascii_of_string k) = pre ++ String.list_ascii_of_string k.
Proof.
  intros (mid & ->) Hc0 Hs0 Hk Hk0. set (pre := c0 :: mid ++ _). rewrite trim_alt in Hk. set (l := String.list_ascii_of_string k) in *.
  assert (Hl : trim_list l = l) by (unfold l at 2; by rewrite <-Hk, String.list_ascii_of_string_of_list_ascii).
  assert (Hr : blank_first (fun a b => wide_blank2 b a) (fun a b c => wide_blank3 c b a) (rev l) = false).
  { rewrite <-Hl. unfold trim_list. rewrite rev_involutive. apply skip_starts. }
  assert (Hl0 : rev l <> []).
  { intros E%(f_equal (@rev _)). rewrite rev_involutive in E. apply Hk0. unfold l in E.
    by rewrite <-(String.string_of_list_ascii_of_string k), E. }
  assert (Hp : blank_first wide_blank2 wide_blank3 (pre ++ l) = false).
  { unfold pre. rewrite <-app_comm_cons. apply Z.ltb_lt in Hc0. cbn. rewrite Hs0. destruct (_ ++ l) as [|b r]; [done|].
    rewrite ascii_not_wide2 by auto. destruct r; [done | by apply ascii_not_wide3; auto]. }
  unfold trim_list, skip_head, skip_tail. rewrite (skip_id _ _ (pre ++ l)) by done.
  rewrite rev_app_distr. unfold pre. rewrite app_comm_cons, (rev_app_distr (c0 :: mid)). cbn [rev app].
  rewrite skip_id by by apply starts_stop; first [done | intros; apply ascii_not_wide2; by right | intros; apply ascii_not_wide3; vm_compute; auto].
  change (":"%char :: rev mid ++ [c0]) with (rev [":"%char] ++ rev (c0 :: mid)).
  by rewrite <-!rev_app_distr, rev_involutive.
Qed.

(** A contact is read back as it was made, for every key without a colon and without white space around
    it: both the mailbox and the key are the key.  [parseContact] trims what the user pasted. *)
Theorem contact_is_read_back k : field_ok k = true -> parseContact (formatContact k) = Ok (MkContact k k).
Proof.
  unfold field_ok. rewrite !andb_true_iff, negb_true_iff, bool_decide_eq_false, !bool_decide_eq_true. intros [[Hne Hc] Ht].
  set (l := String.list_ascii_of_string k) in *.
  assert (Ef : String.list_ascii_of_string (formatContact k) =
               String.list_ascii_of_string CONTACT_TAG ++ ":"%char :: String.list_ascii_of_string CONTACT_VERSION ++
               ":"%char :: l ++ ":"%char :: l).
  { unfold formatContact. by rewrite !list_ascii_app. }
  unfold parseContact. rewrite trim_alt, Ef.
  set (pre := String.list_ascii_of_string CONTACT_TAG ++ ":"%char :: String.list_ascii_of_string CONTACT_VERSION ++
              ":"%char :: l ++ [":"%char]).
  assert (Ep : String.list_ascii_of_string CONTACT_TAG ++ ":"%char :: String.list_ascii_of_string CONTACT_VERSION ++
               ":"%char :: l ++ ":"%char :: l = pre ++ l).
  { unfold pre. by rewrite <-!app_assoc, <-app_comm_cons, <-app_assoc, <-app_comm_cons, <-app_assoc. }
  rewrite Ep. unfold l at 1. rewrite (trim_field pre "d"%char); [|by exists (String.list_ascii_of_string "eaddrop" ++ ":"%char :: String.list_ascii_of_string CONTACT_VERSION ++ ":"%char :: l)|done..]. fold l. rewrite <-Ep.
  unfold split_colon. rewrite String.list_ascii_of_string_of_list_ascii.
  rewrite !split_field by (try done; by apply (bool_decide_unpack _)). rewrite split_end by done. cbn [app fmap list_fmap].
  unfold l. rewrite !String.string_of_list_ascii_of_string.
  rewrite (bool_decide_eq_true_2 (CONTACT_TAG = CONTACT_TAG)), (bool_decide_eq_true_2 (CONTACT_VERSION = CONTACT_VERSION)) by done.
  cbn [negb orb]. by rewrite !bool_decide_eq_false_2.
Qed.

(** ** Acknowledgements *)

Section acks.
Context {H T W : Type} `{!ConversationApi H W} `{!LiveDeps H T W}.
Context (text_decode : bytes -> string) (persistence : bool).
#[local] Abbreviation St := (State H T W).
Implicit Types (s : St) (t : task H) (e : effect H).

(** Why a message may be acknowledged: it was received, and it is not a message for the user, or the store
    was given it and has answered that it has it. *)
Definition cause (tr : list (effect H)) (i : bytes) : Prop :=
  exists cid env f, Received cid env f ∈ tr /\ env_messageId env = i /\
    match f with
    | Frame.Message p l =>
        let meta := MkMeta (bytesToHex i) cid true l in PersistMessage meta p ∈ tr /\ Answered (TIn meta i) true ∈ tr
    | _ => True
    end.
(** Every acknowledgement of a trace comes after its cause. *)
Definition acks_ok (tr : list (effect H)) : Prop := forall l1 i l2, tr = l1 ++ Ack i :: l2 -> cause l1 i.

(** What is being stored was received. *)
Definition received (tr : list (effect H)) (meta : Meta) (i : bytes) : Prop :=
  exists env p, Received (m_conversationId meta) env (Frame.Message p (m_lifetime meta)) ∈ tr /\ env_messageId env = i /\
    meta = MkMeta (bytesToHex i) (m_conversationId meta) true (m_lifetime meta) /\ PersistMessage meta p ∈ tr.
Definition acks_inv s : Prop :=
  acks_ok (trace s) /\ forall n meta i, (n, TIn meta i) ∈ tasks s -> received (trace s) meta i.

Lemma received_app tr e meta i : received tr meta i -> received (tr ++ [e]) meta i.
Proof.
  intros (env & p & H1 & H2 & H3 & H4). exists env, p. split_and!; [apply elem_of_app; by left|done|done|apply elem_of_app; by left].
Qed.
Lemma acks_ok_app tr e : acks_ok tr -> (forall i, e = Ack i -> cause tr i) -> acks_ok (tr ++ [e]).
Proof.
  intros Ht He l1 i l2. destruct l2 as [|x l2 _] using rev_ind.
  - intros [-> [= ->]]%app_inj_tail. by apply He.
  - rewrite app_comm_cons, app_assoc. intros [-> _]%app_inj_tail. by eapply Ht.
Qed.

(** Predicates that every step but an acknowledgement and the wait for a delivery keeps. *)
Class Calm (P : St -> Prop) := {
  calm_frame s s' : trace s' = trace s -> tasks s' = tasks s -> P s -> P s';
  calm_emit e : (forall i, e <> Ack i) -> safe P (emit e);
  calm_ask t : (forall meta i, t <> TIn meta i) -> safe P (ask t)
}.

#[export] Instance acks_calm : Calm acks_inv.
Proof.
  constructor.
  - intros s s' Ht Hk. unfold acks_inv. by rewrite Ht, Hk.
  - intros e He s [H1 H2]. split; cbn; [apply acks_ok_app; [done|]; intros i ->; by destruct (He i)|].
    intros n meta i Hn. by eapply received_app, H2.
  - intros t Ht s [H1 H2]. split; cbn; [done|]. intros n meta i [Hn|Hn]%elem_of_app; [by eapply H2|].
    apply list_elem_of_singleton in Hn. injection Hn as _ Hn. by destruct (Ht meta i).
Qed.

(** The predicate with an effect of the past. *)
#[export] Instance past_calm P (e : effect H) : Calm P -> Calm (fun s => P s /\ e ∈ trace s).
Proof.
  intros HP. constructor.
  - intros s s' Ht Hk [H1 H2]. rewrite Ht. split; [by apply (calm_frame s)|done].
  - intros x Hx s [H1 H2]. split; [by apply calm_emit|]. cbn. apply elem_of_app. by left.
  - intros t Ht s [H1 H2]. split; [by apply calm_ask|done].
Qed.

Section calm.
Context (P : St -> Prop) {HP : Calm P}.

Lemma calm_modify f : (forall s, trace (f s) = trace s /\ tasks (f s) = tasks s) -> safe P (modify f).
Proof. intros Hf s Hs. destruct (Hf s) as [H1 H2]. exact (calm_frame s (f s) H1 H2 Hs). Qed.
Lemma calm_gets {A} (f : St -> A) : safe P (gets f).
Proof. by intros s. Qed.
Lemma calm_world {A} (m : M W A) : safe P (on_world m).
Proof.
  intros s Hs. unfold on_world, zoom. destruct (m (world s)) as [r w]. by apply (calm_frame s).
Qed.
Lemma calm_session {A} x (m : M (Session H * W) A) : safe P (run_session x m).
Proof.
  intros s Hs. unfold run_session. destruct (m (x, world s)) as [r [x' w']]. by apply (calm_frame s).
Qed.
Lemma calm_store a : safe P (store a).
Proof. by apply calm_modify. Qed.

#[local] Hint Resolve calm_gets calm_world calm_session calm_store : live.
#[local] Hint Extern 1 (safe P (modify _)) => apply calm_modify; done : live.
#[local] Hint Extern 1 (safe P (emit _)) => apply calm_emit; done : live.
#[local] Hint Extern 1 (safe P (push _)) => apply calm_emit; done : live.
#[local] Hint Extern 1 (safe P (ask _)) => apply calm_ask; done : live.
#[local] Hint Resolve safe_ret safe_throw safe_of_result safe_bind safe_try_catch : live.
#[local] Ltac live :=
  repeat first
    [ progress intros
    | progress cbn beta
    | apply safe_bind | apply safe_try_catch
    | solve [eauto with live]
    | case_match ].

Lemma calm_subscribe k tr : safe P (subscribe k tr).
Proof. unfold subscribe. live. Qed.
Lemma calm_publish k tr : safe P (publish k tr).
Proof. unfold publish. live. Qed.
Lemma calm_sendOffer k tr : safe P (sendOffer k tr).
Proof. unfold sendOffer. live. Qed.
Lemma calm_sendAccept k tr : safe P (sendAccept k tr).
Proof. unfold sendAccept. live. Qed.
Lemma calm_transport : safe P requireTransport.
Proof. unfold requireTransport. live. Qed.
Lemma calm_in_session {A} a (m : M (Session H * W) A) : safe P (in_session a m).
Proof. unfold in_session. live. Qed.
Lemma calm_report (e : exn) : safe P (report e).
Proof. unfold report. live. Qed.
#[local] Hint Resolve calm_subscribe calm_publish calm_sendOffer calm_sendAccept calm_transport calm_in_session calm_report : live.

Lemma calm_connected url c i : safe P (connected url c i).
Proof. unfold connected. live. Qed.
#[local] Hint Resolve calm_connected : live.
Lemma calm_connect_as url r : safe P (connect_as persistence url r).
Proof. unfold connect_as. live. Qed.
#[local] Hint Resolve calm_connect_as : live.
Lemma calm_settling c m : safe P m -> safe P (settling c m).
Proof. intros Hm. unfold settling. live. Qed.
Lemma calm_new_session cid : safe P (new_session cid).
Proof. unfold new_session. live. Qed.
#[local] Hint Resolve calm_settling calm_new_session : live.
Lemma calm_connectGateway url : safe P (connectGateway persistence url).
Proof. unfold connectGateway. live. Qed.
Lemma calm_offerToContact c : safe P (offerToContact c).
Proof. unfold offerToContact. live. Qed.
Lemma calm_persist a o : safe P (persist a o).
Proof. unfold persist. live. Qed.
#[local] Hint Resolve calm_persist : live.
Lemma calm_acceptKeyExchange cid : safe P (acceptKeyExchange cid).
Proof. apply calm_settling. unfold accept_now. live. Qed.
Lemma calm_sendMessage cid text : safe P (sendMessage cid text).
Proof. apply calm_settling. unfold send_now. live. Qed.
Lemma calm_onOffer o : safe P (onOffer o).
Proof. unfold onOffer. live. Qed.
Lemma calm_onAccept a : safe P (onAccept a).
Proof. unfold onAccept. live. Qed.

Lemma calm_settled c r : safe P (settled c r).
Proof. unfold settled. live. Qed.
#[local] Hint Resolve calm_settled : live.
Lemma calm_continue t x : (forall meta i, t <> TIn meta i) -> safe P (continue persistence t x).
Proof. intros Ht. unfold continue. live. by destruct (Ht meta messageId). Qed.
End calm.

#[local] Ltac live :=
  repeat first
    [ progress intros
    | progress cbn beta
    | apply safe_bind | apply safe_try_catch
    | solve [eauto using calm_gets, calm_world, calm_session, calm_store, calm_subscribe, calm_transport, calm_report, safe_ret, safe_throw with typeclass_instances]
    | solve [apply calm_emit; done] | solve [apply calm_ask; done]
    | case_match ].

Lemma received_cause tr meta i : received tr meta i -> Answered (TIn meta i) true ∈ tr -> cause tr i.
Proof.
  intros (env & p & H1 & H2 & H3 & H4) Ha. exists (m_conversationId meta), env, (Frame.Message p (m_lifetime meta)).
  split_and!; [done|done|]. cbn zeta. by rewrite <-H3.
Qed.
(** [m] leads from [P] to [Q], whether it returns or throws. *)
Definition from {A} (P Q : St -> Prop) (m : M St A) : Prop := forall s, P s -> Q (m s).2.
Lemma from_bind {A B} (P Q : St -> Prop) (m : M St A) (k : A -> M St B) :
  safe P m -> (forall s, P s -> Q s) -> (forall a, from P Q (k a)) -> from P Q (bind m k).
Proof.
  intros Hm HPQ Hk s Hs. unfold bind. specialize (Hm s Hs). destruct (m s) as [[a|x] s']; [by apply Hk|by apply HPQ].
Qed.
Lemma from_emit {B} (P R Q : St -> Prop) e (k : M St B) :
  (forall s, P s -> R (add_trace e s)) -> from R Q k -> from P Q (bind (emit e) (fun _ => k)).
Proof. intros He Hk s Hs. apply Hk, He, Hs. Qed.
Lemma from_safe {A} (P Q : St -> Prop) (m : M St A) : safe P m -> (forall s, P s -> Q s) -> from P Q m.
Proof. intros Hm HPQ s Hs. by apply HPQ, Hm. Qed.

Lemma ack_caused i (t : T) : from (fun s => acks_inv s /\ cause (trace s) i) acks_inv (ack i t).
Proof.
  unfold ack. apply (from_emit _ acks_inv); [|apply calm_world, _]. intros s [[H1 H2] Hc]. split; cbn.
  - apply acks_ok_app; [done|]. by intros j [= <-].
  - intros n meta j Hn. by eapply received_app, H2.
Qed.

Lemma past {P : St -> Prop} `{!Calm P} e s : (forall i, e <> Ack i) -> P s -> P (add_trace e s) /\ e ∈ trace (add_trace e s).
Proof.
  intros He Hs. split; [by apply (calm_emit e He)|]. cbn. apply elem_of_app. right. by left.
Qed.
Lemma ask_in meta i p env s :
  acks_inv s -> Received (m_conversationId meta) env (Frame.Message p (m_lifetime meta)) ∈ trace s -> env_messageId env = i ->
  meta = MkMeta (bytesToHex i) (m_conversationId meta) true (m_lifetime meta) -> PersistMessage meta p ∈ trace s ->
  acks_inv (ask (TIn meta i) s).2.
Proof.
  intros [H1 H2] Hr Hi Hm Hp. split; cbn; [done|]. intros n meta' j [Hn|Hn]%elem_of_app; [by eapply H2|].
  apply list_elem_of_singleton in Hn. injection Hn as _ -> ->. by exists env, p.
Qed.

Lemma acks_onDeliver env : safe acks_inv (onDeliver text_decode env).
Proof.
  unfold onDeliver. apply safe_bind; [apply calm_gets|]. intros m. destruct (List.find _ m) as [[cid a]|]; [|apply safe_ret].
  apply safe_bind; [apply calm_session, _|]. intros [r x]. apply safe_bind; [apply calm_store, _|]. intros _.
  destruct r as [frame|e]; [|apply calm_report, _].
  apply (from_emit _ (fun s => acks_inv s /\ Received (a_conversationId a) env frame ∈ trace s)); [intros s Hs; by apply past|].
  assert (Hack : (forall p l, frame <> Frame.Message p l) ->
    from (fun s => acks_inv s /\ Received (a_conversationId a) env frame ∈ trace s) acks_inv
      (let! t := requireTransport in ack (env_messageId env) t)).
  { intros Hf. apply from_bind; [by apply (calm_transport _)|by intros ? []|]. intros t s [Hs Hr]. apply ack_caused. split; [done|].
    exists (a_conversationId a), env, frame. split_and!; [done|done|]. by destruct frame as [p l| | |]; [destruct (Hf p l)|..]. }
  destruct frame as [p l| | |]; try (by apply Hack). clear Hack.
  set (meta := MkMeta (bytesToHex (env_messageId env)) (a_conversationId a) true l).
  apply (from_emit _ (fun s => (acks_inv s /\ Received (a_conversationId a) env (Frame.Message p l) ∈ trace s) /\
                                PersistMessage meta p ∈ trace s)).
  - intros s Hs. by apply (past (P := fun s => acks_inv s /\ Received (a_conversationId a) env (Frame.Message p l) ∈ trace s)).
  - intros s [[H1 H2] H3]. by eapply ask_in.
Qed.
Lemma from_try {A} (P Q : St -> Prop) (m : M St A) (h : exn -> M St A) : from P Q m -> (forall x, safe Q (h x)) -> from P Q (try_catch m h).
Proof. intros Hm Hh s Hs. unfold try_catch. specialize (Hm s Hs). destruct (m s) as [[a|e] s']; [done|by apply Hh]. Qed.
Lemma safe_transport (P : St -> Prop) : safe P requireTransport.
Proof. intros s Hs. unfold requireTransport, bind, gets. by destruct (transport s). Qed.

Lemma acks_stored meta i : from (fun s => acks_inv s /\ cause (trace s) i) acks_inv
  (try_catch (let! t := requireTransport in do! ack i t in push (EvInboundMessage (m_conversationId meta))) report).
Proof.
  apply from_try; [|intros e; apply calm_report, _]. apply from_bind; [apply safe_transport|by intros ? []|].
  intros t s Hs. unfold bind. pose proof (ack_caused i t s Hs) as Ha. destruct (ack i t s) as [[[]|e] s']; [|done].
  by apply (calm_emit (P := acks_inv)).
Qed.

Lemma acks_continue t x s :
  acks_inv s -> Answered t (succeeded x) ∈ trace s -> (forall meta i, t = TIn meta i -> received (trace s) meta i) ->
  acks_inv (continue persistence t x s).2.
Proof.
  intros Hs Ha Hr. destruct t as [| | | |meta i]; try (apply calm_continue; [apply _|done|done]).
  destruct x as [|[[]|e]]; [done| |by apply (calm_report acks_inv)]. cbn [continue succeeded] in *.
  apply acks_stored. split; [done|]. by eapply received_cause; [apply Hr|].
Qed.

Lemma acks_answered n x : safe acks_inv (answered persistence n x).
Proof.
  intros s Hs. unfold answered, bind at 1, gets. destruct (JsMap.lookup n (tasks s)) as [t|] eqn:El; [|done].
  destruct (fits t x); [|done]. unfold bind, modify, emit. apply JsMap.lookup_Some_in in El. destruct Hs as [H1 H2].
  apply acks_continue.
  - split; cbn; [by apply acks_ok_app|]. intros m meta i [Hm _]%JsMap.elem_of_remove. by eapply received_app, H2.
  - cbn. apply elem_of_app. right. by left.
  - intros meta i ->. cbn. by eapply received_app, H2.
Qed.

Lemma acks_exec o : safe acks_inv (exec text_decode persistence o).
Proof.
  destruct o; cbn [exec]; [apply calm_connectGateway, _| |apply calm_acceptKeyExchange, _|apply calm_sendMessage, _|apply calm_onOffer, _
    |apply calm_onAccept, _|apply acks_onDeliver|apply safe_ret|by apply (calm_emit (P := acks_inv))..|apply acks_answered].
  apply safe_bind; [apply calm_offerToContact, _|intros _; apply safe_ret].
Qed.
Lemma acks_run os s : acks_inv s -> acks_inv (run text_decode persistence os s).
Proof. revert s. induction os as [|o os IH]; intros s Hs; [done|]. by apply IH, acks_exec. Qed.

(** C28. A delivery is held until it is stored.  Whatever the user, the peer, the gateway and the stores do, in
    whatever order, when the channel acknowledges a message to the gateway it has received it over an open
    session, and if it is a message for the user then it was handed to the store, under its id, with the
    text and the lifetime that were received, and the store has answered that it has it. *)
Theorem acknowledged_is_stored os w : acks_ok (trace (run text_decode persistence os (fresh w))).
Proof. apply acks_run. split; [by intros [] ? ? [=]|]. by intros ? ? ? ?%elem_of_nil. Qed.
End acks.

(** ** Pins *)

Section pins.
Context {H T W : Type} `{!ConversationApi H W} `{!LiveDeps H T W}.
Context (text_decode : bytes -> string) (persistence : bool).
#[local] Abbreviation St := (State H T W).
Implicit Types (s : St) (x : Session H) (a : ActiveSession H).

(** *** What the methods of a session do to its handshake *)

(** A predicate on sessions that depends on the handshake, kept when an offer that was received is accepted
    and when a key is observed. *)
Class Gated (P : Session H -> Prop) := {
  gated_frame x x' : handshake x' = handshake x -> conversationId x' = conversationId x -> P x -> P x';
  gated_accept x c k : handshake x = Handshake.OfferReceived c k -> P x -> P (Sessions.set_handshake (Handshake.Established c k) x);
  gated_block x c k : handshake x = Handshake.Established c k -> P x -> P (Sessions.set_handshake (Handshake.Blocked c) x)
}.

Section gated.
Context (P : Session H -> Prop) {HP : Gated P}.
#[local] Abbreviation PS := (fun st : Session H * W => P st.1).

Lemma gated_update f : (forall x, handshake (f x) = handshake x /\ conversationId (f x) = conversationId x) -> safe PS (Sessions.update f).
Proof. intros Hf [x w] Hx. destruct (Hf x) as [H1 H2]. exact (gated_frame x (f x) H1 H2 Hx). Qed.
Lemma gated_world {A} (m : M W A) : safe PS (Sessions.world m).
Proof. intros [x w] Hx. unfold Sessions.world, zoom. cbn. by destruct (m w). Qed.
Lemma gated_self : safe PS Sessions.self.
Proof. by intros st. Qed.
Lemma gated_get : safe PS get.
Proof. by intros st. Qed.
Lemma gated_assert : safe PS (Sessions.gate Handshake.assertCanSend).
Proof.
  intros [x w] Hx. unfold Sessions.gate, zoom. cbn beta. rewrite Handshake.run_assertCanSend. cbn [fst snd] in *.
  by rewrite Sessions.set_handshake_id.
Qed.
Lemma gated_observe key : safe PS (Sessions.gate (Handshake.observePeerKey key)).
Proof.
  intros [x w] Hx. rewrite Sessions.observe_run. cbn in *. destruct (handshake x) eqn:E; rewrite <-?E, ?Sessions.set_handshake_id; try done.
  case_decide; [by rewrite Sessions.set_handshake_id|]. by eapply gated_block.
Qed.
Lemma gated_accepts : safe PS (Sessions.gate Handshake.accept).
Proof.
  intros [x w] Hx. unfold Sessions.gate, zoom, Handshake.accept, bind, get. cbn in *.
  destruct (handshake x) eqn:E; cbn; rewrite <-?E, ?Sessions.set_handshake_id; try done. by apply gated_accept.
Qed.
Lemma gated_require : safe PS Sessions.requireConv.
Proof. intros [x w] Hx. rewrite Sessions.requireConv_run. by destruct (Session.conv x). Qed.

#[local] Hint Resolve gated_world gated_self gated_get gated_assert gated_observe gated_accepts gated_require : gated.
#[local] Hint Resolve safe_ret safe_throw safe_of_result : gated.
#[local] Hint Extern 1 (safe _ (Sessions.update _)) => apply gated_update; done : gated.
#[local] Ltac gated := repeat first [progress intros | progress cbn beta | apply safe_bind | solve [eauto with gated] | case_match].

Lemma gated_crossCheck c : safe PS (Sessions.crossCheckPeerKey c).
Proof. unfold Sessions.crossCheckPeerKey. gated. Qed.
#[local] Hint Resolve gated_crossCheck : gated.
Lemma gated_acceptOffer mk key : safe PS (Sessions.acceptOffer mk key).
Proof. unfold Sessions.acceptOffer. gated. Qed.
Lemma gated_mailbox : safe PS Sessions.inboundMailbox.
Proof. unfold Sessions.inboundMailbox. gated. Qed.
Lemma gated_sendMessage p l t : safe PS (Sessions.sendMessage p l t).
Proof. unfold Sessions.sendMessage, Sessions.emit. gated. Qed.
Lemma gated_receiveMessage env : safe PS (Sessions.receiveMessage text_decode env).
Proof. unfold Sessions.receiveMessage. gated. Qed.
Lemma gated_onAccept mk accept :
  (forall x c, handshake x = Handshake.OfferSent c -> P x ->
     P (Sessions.set_handshake (Handshake.Established c (bytesToHex (accept_fromSignatureKey accept))) x)) ->
  safe PS (Sessions.onAcceptReceived mk accept).
Proof.
  intros Hacc. unfold Sessions.onAcceptReceived. gated. intros [y w] Hy. unfold Sessions.gate, zoom, Handshake.receiveAccept, bind, get.
  cbn in *. destruct (handshake y) eqn:E; cbn; rewrite <-?E, ?Sessions.set_handshake_id; try done. by apply Hacc.
Qed.
End gated.

(** *** The sessions of the map *)

(** The handshake of a session that was offered to, or came from, the holder of [k]. *)
Definition pinned (cid k : string) x : Prop :=
  conversationId x = cid /\
  match handshake x with
  | Handshake.Idle => False
  | Handshake.OfferSent c | Handshake.Blocked c => c = cid
  | Handshake.OfferReceived c k' | Handshake.Established c k' => c = cid /\ k' = k
  end.
Definition was_open x : Prop := match handshake x with Handshake.Established _ _ | Handshake.Blocked _ => True | _ => False end.

#[export] Instance pinned_gated cid k : Gated (pinned cid k).
Proof.
  constructor; unfold pinned.
  - intros x x' -> -> Hx. exact Hx.
  - intros x c k' E. cbn. by rewrite E.
  - intros x c k' E. cbn. rewrite E. tauto.
Qed.
#[export] Instance was_open_gated : Gated was_open.
Proof.
  constructor; unfold was_open.
  - intros x x' -> _ Hx. exact Hx.
  - intros x c k' E. cbn. by rewrite E.
  - intros x c k' E. cbn. by rewrite E.
Qed.

Definition entry_ok (cid : string) a : Prop :=
  a_conversationId a = cid /\ pinned cid (peerSigHex a) (session a) /\ (established a = true -> was_open (session a)).
Definition sessions_ok s : Prop := forall cid a, (cid, a) ∈ sessions s -> entry_ok cid a.

Lemma session_set {V} (k : string) (v : V) m y : y ∈ JsMap.set k v m -> y = (k, v) \/ y ∈ m.
Proof.
  induction m as [|[k' v'] m IH]; cbn; [by intros ->%list_elem_of_singleton; left|].
  destruct (decide (k = k')) as [<-|]; rewrite !elem_of_cons; [tauto|]. intros [->|Hy]; [tauto|]. apply IH in Hy. tauto.
Qed.
Lemma store_ok a s : sessions_ok s -> entry_ok (a_conversationId a) a -> sessions_ok (store a s).2.
Proof. intros Hs Ha cid b [[= -> ->]|Hb]%session_set; [done|by apply Hs]. Qed.
Lemma sessions_frame s s' : sessions s' = sessions s -> sessions_ok s -> sessions_ok s'.
Proof. unfold sessions_ok. by intros ->. Qed.

(** A method of a session leads from a good entry to a good entry. *)
Definition keeps {A} (m : M (Session H * W) A) : Prop := forall P, Gated P -> safe (fun st => P st.1) m.
Lemma keeps_entry {A} (m : M (Session H * W) A) cid a w :
  keeps m -> entry_ok cid a -> entry_ok cid (with_session (m (session a, w)).2.1 a).
Proof.
  intros Hm (H1 & H2 & H3). split_and!; [done|exact (Hm _ (pinned_gated cid _) (session a, w) H2)|].
  intros He. exact (Hm _ was_open_gated (session a, w) (H3 He)).
Qed.
Lemma in_session_ok {A} cid a (m : M (Session H * W) A) s :
  keeps m -> sessions_ok s -> entry_ok cid a ->
  match in_session a m s with
  | (Ok (v, a'), s') => sessions_ok s' /\ entry_ok cid a' /\
      a' = with_session (session a') a /\ m (session a, world s) = (Ok v, (session a', world s')) /\
      trace s' = trace s /\ transport s' = transport s /\ (cid, a') ∈ sessions s'
  | (Throw _, s') => sessions_ok s' /\ trace s' = trace s
  end.
Proof.
  intros Hm Hs Ha. pose proof (keeps_entry m cid a (world s) Hm Ha) as Ha'. unfold in_session, run_session, bind, store, modify.
  destruct (m (session a, world s)) as [[v|e] [x w]] eqn:E; cbn [snd fst of_result ret] in *; cbn.
  - split_and!; try done.
    + intros c b [[= -> ->]|Hb]%session_set; [|by apply Hs]. destruct Ha as [-> _]. exact Ha'.
    + destruct Ha as [<- _]. apply JsMap.lookup_Some_in, JsMap.lookup_set_eq.
  - split; [|done]. intros c b [[= -> ->]|Hb]%session_set; [|by apply Hs]. destruct Ha as [-> _]. exact Ha'.
Qed.

(** *** Where sessions become open *)

Lemma crossCheck_open c st u st' : Sessions.crossCheckPeerKey c st = (Ok u, st') -> was_open st'.1.
Proof.
  unfold Sessions.crossCheckPeerKey. intros (key & st1 & _ & E)%bind_Ok_inv. apply bind_Ok_inv in E as (v & st2 & _ & E).
  apply bind_Ok_inv in E as (y & st3 & [= <- <-] & E). destruct (Sessions.canSend st2) eqn:Ec; [|done]. injection E as <- <-.
  destruct st2 as [x2 w2]. unfold Sessions.canSend in Ec. unfold was_open. cbn in *. by destruct (handshake x2).
Qed.
Lemma accept_open mk key st acc st' : Sessions.acceptOffer mk key st = (Ok acc, st') -> was_open st'.1.
Proof.
  unfold Sessions.acceptOffer. intros (y & st1 & _ & E)%bind_Ok_inv. destruct (pendingPeerKeyPackage y); [|done].
  apply bind_Ok_inv in E as (c & st2 & _ & E). apply bind_Ok_inv in E as (wl & st3 & _ & E).
  apply bind_Ok_inv in E as (? & st4 & _ & E). apply bind_Ok_inv in E as (? & st5 & _ & E).
  apply bind_Ok_inv in E as (? & st6 & Hc & E). injection E as _ <-. by eapply crossCheck_open.
Qed.
Lemma accepted_open mk acc st u st' : Sessions.onAcceptReceived mk acc st = (Ok u, st') -> was_open st'.1.
Proof.
  unfold Sessions.onAcceptReceived. intros (y & st1 & _ & E)%bind_Ok_inv. case_decide; [done|].
  apply bind_Ok_inv in E as (c & st2 & _ & E). apply bind_Ok_inv in E as (? & st3 & _ & E).
  apply bind_Ok_inv in E as (? & st4 & _ & E). apply bind_Ok_inv in E as (? & st5 & _ & E). by eapply crossCheck_open.
Qed.

Lemma keeps_acceptOffer mk key : keeps (Sessions.acceptOffer (H := H) (W := W) mk key).
Proof. intros P HP. by apply gated_acceptOffer. Qed.
Lemma keeps_mailbox : keeps Sessions.inboundMailbox.
Proof. intros P HP. by apply gated_mailbox. Qed.
Lemma session_send p l t : keeps (Sessions.sendMessage p l t).
Proof. intros P HP. by apply gated_sendMessage. Qed.
Lemma keeps_receiveMessage env : keeps (Sessions.receiveMessage text_decode env).
Proof. intros P HP. by apply gated_receiveMessage. Qed.

(** *** Every operation keeps the entries good *)

Lemma ok_modify f : (forall s, sessions (f s) = sessions s) -> safe sessions_ok (modify f).
Proof. intros Hf s Hs. exact (sessions_frame s (f s) (Hf s) Hs). Qed.
Lemma ok_world {A} (m : M W A) : safe sessions_ok (on_world m).
Proof. intros s Hs. unfold on_world, zoom. destruct (m (world s)) as [r w]. exact Hs. Qed.
Lemma ok_run_session {A} x (m : M (Session H * W) A) : safe sessions_ok (run_session x m).
Proof. intros s Hs. unfold run_session. destruct (m (x, world s)) as [r [x' w']]. exact Hs. Qed.
Lemma ok_gets {A} (f : St -> A) : safe sessions_ok (gets f).
Proof. by intros s. Qed.

#[local] Hint Resolve ok_world ok_run_session ok_gets safe_ret safe_throw safe_of_result safe_bind safe_try_catch : entries.
#[local] Hint Extern 1 (safe sessions_ok (modify _)) => apply ok_modify; done : entries.
#[local] Hint Extern 1 (safe sessions_ok (emit _)) => apply ok_modify; done : entries.
#[local] Hint Extern 1 (safe sessions_ok (push _)) => apply ok_modify; done : entries.
#[local] Hint Extern 1 (safe sessions_ok (report _)) => apply ok_modify; done : entries.
#[local] Hint Extern 1 (safe sessions_ok (ask _)) => apply ok_modify; done : entries.
#[local] Ltac entries :=
  repeat first [progress intros | progress cbn beta | apply safe_bind | apply safe_try_catch | solve [eauto with entries] | case_match].

Lemma ok_transport : safe sessions_ok requireTransport.
Proof. apply safe_transport. Qed.
Lemma ok_subscribe key tr : safe sessions_ok (subscribe key tr).
Proof. unfold subscribe. entries. Qed.
Lemma ok_publish env tr : safe sessions_ok (publish env tr).
Proof. unfold publish. entries. Qed.
Lemma ok_ack i tr : safe sessions_ok (ack i tr).
Proof. unfold ack. entries. Qed.
Lemma ok_sendOffer o tr : safe sessions_ok (sendOffer o tr).
Proof. unfold sendOffer. entries. Qed.
Lemma ok_sendAccept o tr : safe sessions_ok (sendAccept o tr).
Proof. unfold sendAccept. entries. Qed.
Lemma ok_persist a o : safe sessions_ok (persist a o).
Proof. unfold persist. entries. Qed.
Lemma ok_new_session cid : safe sessions_ok (new_session cid).
Proof. unfold new_session. entries. Qed.
#[local] Hint Resolve ok_transport ok_subscribe ok_publish ok_ack ok_sendOffer ok_sendAccept ok_persist ok_new_session : entries.
Lemma ok_connected url c i : safe sessions_ok (connected url c i).
Proof. unfold connected. entries. Qed.
#[local] Hint Resolve ok_connected : entries.
Lemma ok_connect_as url r : safe sessions_ok (connect_as persistence url r).
Proof. unfold connect_as. entries. Qed.
#[local] Hint Resolve ok_connect_as : entries.
Lemma ok_settling c m : safe sessions_ok m -> safe sessions_ok (settling c m).
Proof. intros Hm. unfold settling. entries. Qed.
#[local] Hint Resolve ok_settling : entries.
Lemma ok_connectGateway url : safe sessions_ok (connectGateway persistence url).
Proof. unfold connectGateway. entries. Qed.
Lemma ok_answered n (x : answer) : safe sessions_ok (answered persistence n x).
Proof. unfold answered, continue, settled. entries. Qed.

(** The mailbox of an open entry is subscribed to, and the entry is marked. *)
Lemma ok_open cid a (k : ActiveSession H -> M St unit) tr :
  (forall a, safe sessions_ok (k a)) ->
  from (fun s => sessions_ok s /\ entry_ok cid a /\ was_open (session a)) sessions_ok
    (let! '(mailbox, a) := in_session a Sessions.inboundMailbox in
     do! subscribe mailbox tr in
     do! store (with_established a) in
     k (with_established a)).
Proof.
  intros Hk s (Hs & Ha & Ho). pose proof (in_session_ok cid a Sessions.inboundMailbox s keeps_mailbox Hs Ha) as Hin.
  unfold bind at 1. destruct (in_session a Sessions.inboundMailbox s) as [[[mb a']|e] s1]; [|by destruct Hin].
  destruct Hin as (Hs1 & Ha1 & _ & Em & _). cbn beta iota.
  apply (from_bind sessions_ok); [apply ok_subscribe|done| |done]. intros _. apply (from_bind sessions_ok); [|done|intros _; apply Hk].
  intros s2 Hs2. apply store_ok; [done|]. cbn [a_conversationId with_established]. destruct Ha1 as (H1 & H2 & H3). rewrite H1.
  split_and!; [done|done|]. intros _. cbn. pose proof (keeps_mailbox _ was_open_gated (session a, world s) Ho) as Hw.
  by rewrite Em in Hw.
Qed.

Lemma ok_acceptKeyExchange cid : safe sessions_ok (acceptKeyExchange cid).
Proof.
  apply ok_settling. intros s Hs. unfold accept_now, bind at 1, gets. destruct (JsMap.lookup cid (sessions s)) as [a|] eqn:El; [|done].
  apply JsMap.lookup_Some_in, Hs in El as Ha. unfold bind at 1, requireTransport, bind at 1, gets.
  destruct (transport s) as [tr|]; [|done]. cbn [ret]. unfold bind at 1.
  pose proof (in_session_ok cid a _ s (keeps_acceptOffer (fun _ => ret (made a)) (peerSigHex a)) Hs Ha) as Hin.
  destruct (in_session a _ s) as [[[acc a']|e] s1]; [|by destruct Hin]. destruct Hin as (Hs1 & Ha1 & _ & Em & _). cbn beta iota.
  apply accept_open in Em. cbn in Em. unfold bind at 1. pose proof (ok_sendAccept acc tr s1 Hs1) as Hs2.
  destruct (sendAccept acc tr s1) as [[[]|e] s2]; [|done]. by apply (ok_open cid a' (fun a => persist a (Some cid)) tr); [intros ?; apply ok_persist|].
Qed.

Lemma ok_sendMessage cid text : safe sessions_ok (sendMessage cid text).
Proof.
  apply ok_settling. intros s Hs. unfold send_now, bind at 1, gets. destruct (JsMap.lookup cid (sessions s)) as [a|] eqn:El; [|done].
  apply JsMap.lookup_Some_in, Hs in El as Ha. destruct (established a); [|done]. unfold bind at 1.
  pose proof (in_session_ok cid a _ s (session_send (text_encode text) None None) Hs Ha) as Hin.
  destruct (in_session a _ s) as [[[env a']|e] s1]; [|by destruct Hin]. destruct Hin as (Hs1 & _). cbn beta iota.
  revert s1 Hs1. change (safe sessions_ok (let! t := requireTransport in do! publish env t in
    do! emit (PersistMessage (MkMeta (bytesToHex (env_messageId env)) cid false (defaultLifetime (session a))) (text_encode text)) in
    ask (TOut cid))). entries.
Qed.

(** A session that is new waits, for the key it was made with. *)
Lemma new_session_idle cid s y c s' : new_session cid s = (Ok (y, c), s') -> s' = s /\ exists i, y = Sessions.newSession i cid.
Proof.
  unfold new_session, bind, gets. destruct (identity s) as [i|], (conv s) as [h|]; try done. intros [= <- _ <-]. eauto.
Qed.

Lemma offer_run i cid rk (w : W) :
  Sessions.makeOffer rk (Sessions.newSession (H := H) i cid, w) =
    (Ok (MkOffer (hexToBytes (signatureKeyHex i)) (id_keyPackage i) cid rk),
     (Sessions.set_handshake (Handshake.OfferSent cid) (Sessions.newSession i cid), w)).
Proof. done. Qed.
Lemma received_run i offer (w : W) :
  Sessions.onOfferReceived offer (Sessions.newSession (H := H) i (offer_conversationId offer), w) =
    (Ok tt, (Sessions.set_pending (Some (offer_keyPackage offer))
       (Sessions.set_handshake (Handshake.OfferReceived (offer_conversationId offer) (bytesToHex (offer_fromSignatureKey offer)))
          (Sessions.newSession i (offer_conversationId offer))), w)).
Proof. unfold Sessions.onOfferReceived, bind, Sessions.self, gets. cbn. by rewrite decide_False by (intros Hn; by apply Hn). Qed.

Lemma ok_offerToContact contact : safe sessions_ok (offerToContact contact).
Proof.
  unfold offerToContact. apply safe_bind; [apply safe_of_result|]. intros ct. apply safe_bind; [apply ok_transport|]. intros tr.
  apply safe_bind; [apply ok_world|]. intros uuid s Hs. set (cid := "c-" +:+ uuid). unfold bind at 1.
  destruct (new_session cid s) as [[[y c]|e] s1] eqn:En.
  2:{ pose proof (ok_new_session cid s Hs) as Hx. by rewrite En in Hx. }
  apply new_session_idle in En as [-> [i ->]]. unfold bind at 1, run_session. rewrite offer_run. cbn beta iota zeta.
  unfold bind at 1, of_result. apply (safe_bind sessions_ok (sendOffer _ tr)); [apply ok_sendOffer| |exact Hs]. intros _.
  apply safe_bind; [|intros _; apply safe_ret]. intros s1 Hs1. apply store_ok; [done|]. by split_and!.
Qed.

Lemma ok_onOffer offer : safe sessions_ok (onOffer offer).
Proof.
  intros s Hs. unfold onOffer. cbn zeta. unfold bind at 1.
  destruct (new_session (offer_conversationId offer) s) as [[[y c]|e] s1] eqn:En.
  2:{ pose proof (ok_new_session (offer_conversationId offer) s Hs) as Hx. by rewrite En in Hx. }
  apply new_session_idle in En as [-> [i ->]]. unfold bind at 1, run_session. rewrite received_run. cbn beta iota zeta.
  apply (safe_bind sessions_ok); [|intros _; by apply ok_modify|exact Hs]. intros s1 Hs1. apply store_ok; [done|]. by split_and!.
Qed.

Lemma ok_onAccept accept : safe sessions_ok (onAccept accept).
Proof.
  intros s Hs. unfold onAccept, bind at 1, gets. destruct (JsMap.lookup _ (sessions s)) as [a|] eqn:El; [|done].
  apply JsMap.lookup_Some_in, Hs in El as Ha. destruct (bool_decide_reflect (bytesToHex (accept_fromSignatureKey accept) = peerSigHex a)) as [Hk|];
    cbn [negb]; [|by apply (ok_modify (add_trace _))].
  set (cid := accept_conversationId accept) in *. unfold bind at 1, run_session.
  assert (Ha' : entry_ok cid (with_session (Sessions.onAcceptReceived (fun _ => ret (made a)) accept (session a, world s)).2.1 a)).
  { destruct Ha as (H1 & H2 & H3). split_and!; [done| |].
    - refine (gated_onAccept (pinned cid (peerSigHex a)) (fun _ => ret (made a)) accept _ (session a, world s) H2).
      intros y c Hy [Hc Hp]. rewrite Hy in Hp. split; [done|]. cbn. by rewrite Hk.
    - intros He. refine (gated_onAccept was_open (fun _ => ret (made a)) accept _ (session a, world s) (H3 He)).
      intros y c Hy. unfold was_open. by rewrite Hy. }
  destruct (Sessions.onAcceptReceived _ accept (session a, world s)) as [r [y w]] eqn:Er. cbn beta iota zeta. cbn [snd fst] in Ha'.
  set (s1 := (store (with_session y a) (set_world w s)).2).
  assert (Hs1 : sessions_ok s1) by (apply store_ok; [exact Hs|]; by rewrite (proj1 Ha')).
  change (sessions_ok ((match r with
    | Throw e => report e
    | Ok _ =>
        let! t := requireTransport in
        let! '(mailbox, a) := in_session (with_session y a) Sessions.inboundMailbox in
        do! subscribe mailbox t in
        do! store (with_established a) in
        do! persist (with_established a) None in
        do! push (EvConnection "secure") in
        push (EvEstablished (a_conversationId (with_established a)))
    end) s1).2).
  destruct r as [u|e]; [|by apply (ok_modify (add_trace _))]. apply accepted_open in Er.
  apply (from_bind (fun s => sessions_ok s /\ entry_ok cid (with_session y a) /\ was_open y)); [apply safe_transport|by intros ? []| |done].
  intros tr. apply (ok_open cid (with_session y a) (fun a => do! persist a None in do! push (EvConnection "secure") in
    push (EvEstablished (a_conversationId a)))). intros b. entries.
Qed.

Lemma ok_onDeliver env : safe sessions_ok (onDeliver text_decode env).
Proof.
  intros s Hs. unfold onDeliver, bind at 1, gets. destruct (List.find _ (sessions s)) as [[cid a]|] eqn:Ef; [|done].
  apply find_some in Ef as [Hin%list_elem_of_In _]. apply Hs in Hin as Ha. unfold bind at 1, run_session.
  pose proof (keeps_entry _ cid a (world s) (keeps_receiveMessage env) Ha) as Ha'.
  destruct (Sessions.receiveMessage text_decode env (session a, world s)) as [r [y w]]. cbn beta iota zeta. cbn [fst snd] in Ha'.
  apply (safe_bind sessions_ok (store _)); [|intros _; entries|exact Hs].
  intros s1 Hs1. apply store_ok; [done|]. by rewrite (proj1 Ha').
Qed.

Lemma ok_exec o : safe sessions_ok (exec text_decode persistence o).
Proof.
  destruct o; cbn [exec]; [apply ok_connectGateway| |apply ok_acceptKeyExchange|apply ok_sendMessage|apply ok_onOffer|apply ok_onAccept
    |apply ok_onDeliver|apply safe_ret|by apply ok_modify..|apply ok_answered].
  apply safe_bind; [apply ok_offerToContact|intros _; apply safe_ret].
Qed.
Lemma ok_run os s : sessions_ok s -> sessions_ok (run text_decode persistence os s).
Proof. revert s. induction os as [|o os IH]; intros s Hs; [done|]. by apply IH, ok_exec. Qed.

(** *** What goes out *)

Lemma sendMessage_open cid text s env :
  sessions_ok s -> Publish env ∈ trace (exec text_decode persistence (SendText cid text) s).2 ->
  Publish env ∈ trace s \/
  exists a, JsMap.lookup cid (sessions s) = Some a /\ established a = true /\ handshake (session a) = Handshake.Established cid (peerSigHex a).
Proof.
  intros Hs. cbn [exec]. unfold sendMessage, settling, try_catch, send_now, bind at 1, gets.
  destruct (JsMap.lookup cid (sessions s)) as [a|] eqn:El; [|intros [?|Hx%list_elem_of_singleton]%elem_of_app; [by left|done]].
  apply JsMap.lookup_Some_in, Hs in El as Ha.
  destruct (established a) eqn:Ee; [|intros [?|Hx%list_elem_of_singleton]%elem_of_app; [by left|done]]. unfold bind at 1.
  pose proof (in_session_ok cid a _ s (session_send (text_encode text) None None) Hs Ha) as Hin.
  destruct (in_session a _ s) as [[[env' a']|e] s1].
  - intros _. right. exists a. split_and!; [done|done|]. destruct Hin as (_ & _ & _ & Em & _).
    unfold Sessions.sendMessage in Em. apply bind_Ok_inv in Em as (? & ? & [= <- <-] & Em).
    apply bind_Ok_inv in Em as (f & st & [= _ <-] & Em). apply Sessions.emit_inv in Em as [Ho _].
    apply Sessions.canSend_inv in Ho as (c & k & Hh). destruct Ha as (_ & [_ Hp] & _). rewrite Hh in Hp |- *. by destruct Hp as [-> ->].
  - destruct Hin as [_ Ht]. cbn. rewrite Ht. intros [?|Hx%list_elem_of_singleton]%elem_of_app; [by left|done].
Qed.

(** An open channel is a channel with the peer it names.  Whatever offers, accepts, deliveries and calls
    follow each other: a session that is open has its handshake established with the key whose fingerprint
    the channel shows - the key of the contact that was pasted, or of the offer that was shown - unless it
    was blocked; an accept with another key than that of the contact opens nothing; and a text is
    published only over such a session, never over a blocked one. *)
Theorem open_channel_is_pinned os w :
  let s := run text_decode persistence os (fresh w) in
  (forall cid a, JsMap.lookup cid (sessions s) = Some a -> established a = true ->
     handshake (session a) = Handshake.Established cid (peerSigHex a) \/ handshake (session a) = Handshake.Blocked cid) /\
  (forall accept a, JsMap.lookup (accept_conversationId accept) (sessions s) = Some a ->
     bytesToHex (accept_fromSignatureKey accept) <> peerSigHex a ->
     sessions (exec text_decode persistence (OnAccept accept) s).2 = sessions s) /\
  (forall cid text env, Publish env ∈ trace (exec text_decode persistence (SendText cid text) s).2 ->
     Publish env ∈ trace s \/
     exists a, JsMap.lookup cid (sessions s) = Some a /\ established a = true /\ handshake (session a) = Handshake.Established cid (peerSigHex a)).
Proof.
  intros s. assert (Hs : sessions_ok s) by (by apply ok_run; intros ? ? ?%elem_of_nil). split_and!.
  - intros cid a El He. apply JsMap.lookup_Some_in, Hs in El as (_ & [_ Hp] & Ho). specialize (Ho He). unfold was_open in Ho.
    destruct (handshake (session a)); try done; [left|right]; [by destruct Hp as [-> ->]|by rewrite Hp].
  - intros acc a El Hne. cbn [exec]. unfold onAccept, bind, gets. rewrite El. by rewrite bool_decide_eq_false_2.
  - intros cid text env. by apply sendMessage_open.
Qed.
End pins.
End LiveFacts.
