(* ===== verification/LivePair.v ===== *)
(** * Two pairwise channels

    From a pasted contact to a message in the store of the other side: two channels of Live.v, each with its
    world, and between them the frames that the gateway carries.  What the wasm promises of two
    conversations is the class [PairLaws]. *)

From S2P Require Import Prelude Handshake Session Auth Channel ChannelLogic GroupChannel TabSession Live LiveFacts.
Import Live LiveFacts.

Module LivePair.

(** What MLS promises: [peer_of h w] is the member beside the owner of [h], [package k kp] that [kp] is a key
    package of the device [k], [welcomes wl k] that [wl] is the welcome of a group that [k] made, and
    [sealed k ct p] that [ct] is [p] encrypted by [k].  The transport is up. *)
Class PairLaws (H T W : Type) `{!ConversationApi H W} `{!LiveDeps H T W} := {
  key_of : H -> string;
  peer_of : H -> W -> option string;
  package : string -> bytes -> Prop;
  welcomes : bytes -> string -> Prop;
  sealed : string -> bytes -> bytes -> Prop;
  law_create h k kp w : package k kp ->
    exists wl w', conv_createAndAdd h kp w = (Ok wl, w') /\ peer_of h w' = Some k /\ welcomes wl (key_of h);
  law_join h wl k w : welcomes wl k -> exists w', conv_joinFromWelcome h wl w = (Ok tt, w') /\ peer_of h w' = Some k;
  law_peer h k w : peer_of h w = Some k -> exists w', conv_peerSignatureKeyHex h w = (Ok k, w') /\ peer_of h w' = Some k;
  law_self h k w : peer_of h w = Some k -> exists m w', conv_selfMailbox h w = (Ok m, w') /\ peer_of h w' = Some k;
  law_mailbox h k w : peer_of h w = Some k -> exists m w', conv_peerMailbox h w = (Ok m, w') /\ peer_of h w' = Some k;
  law_encrypt h k p w : peer_of h w = Some k -> exists ct w', conv_encrypt h p w = (Ok ct, w') /\ sealed (key_of h) ct p;
  law_decrypt h k ct p w : peer_of h w = Some k -> sealed k ct p ->
    exists w', conv_decrypt h ct w = (Ok p, w') /\ peer_of h w' = Some k;
  law_random n h k w : peer_of h w = Some k -> exists b w', randomBytes n w = (Ok b, w') /\ peer_of h w' = Some k;
  law_uuid w : exists u w', randomUUID (H := H) (T := T) w = (Ok u, w');
  law_sendOffer t o w : exists w', tr_sendOffer (H := H) t o w = (Ok tt, w');
  law_sendAccept t a w : exists w', tr_sendAccept (H := H) t a w = (Ok tt, w') /\ forall h, peer_of h w' = peer_of h w;
  law_subscribe t key w : exists w', tr_subscribe (H := H) t key w = (Ok tt, w') /\ forall h, peer_of h w' = peer_of h w;
  law_publish t env w : exists w', tr_publish (H := H) t env w = (Ok tt, w')
}.

Section pair.
Context {H T W : Type} `{!ConversationApi H W} `{!LiveDeps H T W} `{!PairLaws H T W}.
Context (text_decode : bytes -> string) (persistence : bool).
#[local] Abbreviation St := (State H T W).
#[local] Abbreviation exec := (exec text_decode persistence).
Implicit Types (s : St) (a : ActiveSession H).

(** A device that is connected. *)
Record up s (t : T) (h : H) (i : Identity) : Prop := MkUp {
  up_transport : transport s = Some t;
  up_conv : conv s = Some h;
  up_identity : identity s = Some i
}.

(** *** Running the calls *)

Lemma run_world {A} (m : M W A) s v w' : m (world s) = (Ok v, w') -> on_world m s = (Ok v, set_world w' s).
Proof. intros E. unfold on_world, zoom. by rewrite E. Qed.
Lemma run_transport s t : transport s = Some t -> requireTransport s = (Ok t, s).
Proof. intros E. unfold requireTransport, bind, gets. by rewrite E. Qed.
Lemma run_new_session s t h i cid : up s t h i -> new_session cid s = (Ok (Sessions.newSession i cid, h), s).
Proof. intros [_ E1 E2]. unfold new_session, bind, gets. by rewrite E1, E2. Qed.
Lemma run_run_session {A} x (m : M (Session H * W) A) s r x' w' :
  m (x, world s) = (r, (x', w')) -> run_session x m s = (Ok (r, x'), set_world w' s).
Proof. intros E. unfold run_session. by rewrite E. Qed.
Lemma run_in_session {A} a (m : M (Session H * W) A) s v x' w' :
  m (session a, world s) = (Ok v, (x', w')) ->
  in_session a m s = (Ok (v, with_session x' a), (store (with_session x' a) (set_world w' s)).2).
Proof. intros E. unfold in_session. by rewrite (bind_run (run_run_session _ _ _ _ _ _ E)). Qed.

Lemma run_sendOffer o t s : exists w', sendOffer o t s = (Ok tt, set_world w' (add_trace (SendOffer o) s)).
Proof.
  destruct (law_sendOffer t o (world s)) as [w' E]. exists w'. unfold sendOffer, emit, modify, bind at 1.
  by apply (run_world _ (add_trace (SendOffer o) s)).
Qed.
Lemma run_sendAccept o t s :
  exists w', sendAccept o t s = (Ok tt, set_world w' (add_trace (SendAccept o) s)) /\ forall h, peer_of h w' = peer_of h (world s).
Proof.
  destruct (law_sendAccept t o (world s)) as (w' & E & Hp). exists w'. split; [|done]. unfold sendAccept, emit, modify, bind at 1.
  by apply (run_world _ (add_trace (SendAccept o) s)).
Qed.
Lemma run_subscribe key t s :
  exists w', subscribe key t s = (Ok tt, set_world w' (add_trace (Subscribe key) s)) /\ forall h, peer_of h w' = peer_of h (world s).
Proof.
  destruct (law_subscribe t key (world s)) as (w' & E & Hp). exists w'. split; [|done]. unfold subscribe, emit, modify, bind at 1.
  by apply (run_world _ (add_trace (Subscribe key) s)).
Qed.
Lemma run_publish env t s : exists w', publish env t s = (Ok tt, set_world w' (add_trace (Publish env) s)).
Proof.
  destruct (law_publish t env (world s)) as [w' E]. exists w'. unfold publish, emit, modify, bind at 1.
  by apply (run_world _ (add_trace (Publish env) s)).
Qed.

(** *** Running the session *)

Lemma run_sworld {A} (m : M W A) (x : Session H) w v w' : m w = (Ok v, w') -> Sessions.world m (x, w) = (Ok v, (x, w')).
Proof. intros E. unfold Sessions.world, zoom. cbn. by rewrite E. Qed.
Lemma run_self (x : Session H) (w : W) : Sessions.self (x, w) = (Ok x, (x, w)).
Proof. done. Qed.

Lemma run_crossCheck (x : Session H) h c k w :
  handshake x = Handshake.Established c k -> peer_of h w = Some k ->
  exists w', Sessions.crossCheckPeerKey h (x, w) = (Ok tt, (x, w')) /\ peer_of h w' = Some k.
Proof.
  intros Hx Hp. destruct (law_peer h k w Hp) as (w' & E & Hp'). exists w'. split; [|done]. unfold Sessions.crossCheckPeerKey.
  rewrite (bind_run (run_sworld _ x w k w' E)). unfold bind at 1. rewrite Sessions.observe_run, Hx, decide_True by done.
  rewrite <-Hx, Sessions.set_handshake_id. unfold bind, get, Sessions.canSend. cbn. by rewrite Hx.
Qed.

Lemma run_acceptOffer (x : Session H) h cid k kp key w :
  handshake x = Handshake.OfferReceived cid k -> pendingPeerKeyPackage x = Some kp -> package k kp ->
  exists wl w', Sessions.acceptOffer (fun _ => ret h) key (x, w) =
      (Ok (MkAccept (hexToBytes (signatureKeyHex (me x))) (id_keyPackage (me x)) (conversationId x) wl key),
       (Sessions.set_handshake (Handshake.Established cid k) (Sessions.set_conv (Some h) x), w')) /\
    welcomes wl (key_of h) /\ peer_of h w' = Some k.
Proof.
  intros Hx Hp Hk. destruct (law_create h k kp w Hk) as (wl & w1 & Ec & Hp1 & Hw).
  set (y := Sessions.set_handshake (Handshake.Established cid k) (Sessions.set_conv (Some h) x)).
  destruct (run_crossCheck y h cid k w1 eq_refl Hp1) as (w2 & Ex & Hp2). exists wl, w2. split; [|done].
  unfold Sessions.acceptOffer. rewrite (bind_run (run_self x w)), Hp. rewrite (bind_run (run_sworld (ret h) x w h w eq_refl)).
  rewrite (bind_run (run_sworld _ x w wl w1 Ec)). rewrite (bind_run (m := Sessions.update _) (x := (x, w1)) eq_refl).
  assert (Eg : Sessions.gate Handshake.accept (Sessions.set_conv (Some h) x, w1) = (Ok tt, (y, w1))).
  { unfold Sessions.gate, zoom, Handshake.accept, bind, get. cbn. by rewrite Hx. }
  rewrite (bind_run Eg). by rewrite (bind_run Ex).
Qed.

Lemma run_accepted (x : Session H) h cid k accept w :
  handshake x = Handshake.OfferSent cid -> accept_conversationId accept = conversationId x ->
  bytesToHex (accept_fromSignatureKey accept) = k -> welcomes (accept_mlsWelcome accept) k ->
  exists w', Sessions.onAcceptReceived (fun _ => ret h) accept (x, w) =
      (Ok tt, (Sessions.set_handshake (Handshake.Established cid k) (Sessions.set_conv (Some h) x), w')) /\ peer_of h w' = Some k.
Proof.
  intros Hx Hc Hk Hw. destruct (law_join h _ k w Hw) as (w1 & Ej & Hp1).
  set (y := Sessions.set_handshake (Handshake.Established cid k) (Sessions.set_conv (Some h) x)).
  destruct (run_crossCheck y h cid k w1 eq_refl Hp1) as (w2 & Ex & Hp2). exists w2. split; [|done].
  unfold Sessions.onAcceptReceived. rewrite (bind_run (run_self x w)), decide_False by (intros Hn; by apply Hn).
  rewrite (bind_run (run_sworld (ret h) x w h w eq_refl)). rewrite (bind_run (run_sworld _ x w tt w1 Ej)).
  rewrite (bind_run (m := Sessions.update _) (x := (x, w1)) eq_refl).
  assert (Eg : Sessions.gate (Handshake.receiveAccept (bytesToHex (accept_fromSignatureKey accept))) (Sessions.set_conv (Some h) x, w1) = (Ok tt, (y, w1))).
  { unfold Sessions.gate, zoom, Handshake.receiveAccept, bind, get. cbn. by rewrite Hx, Hk. }
  by rewrite (bind_run Eg).
Qed.

Lemma run_mailbox (x : Session H) h k w :
  Session.conv x = Some h -> peer_of h w = Some k ->
  exists m w', Sessions.inboundMailbox (x, w) = (Ok m, (x, w')) /\ peer_of h w' = Some k.
Proof.
  intros Hc Hp. destruct (law_self h k w Hp) as (m & w' & E & Hp'). exists m, w'. split; [|done].
  unfold Sessions.inboundMailbox, bind at 1. rewrite Sessions.requireConv_run, Hc. by apply run_sworld.
Qed.

(** *** The steps of the exchange *)

Lemma offer_step s t h i k :
  up s t h i -> field_ok k = true ->
  exists cid s1, exec (OfferTo (formatContact k)) s = (Ok tt, s1) /\ up s1 t h i /\
    trace s1 = trace s ++ [SendOffer (MkOffer (hexToBytes (signatureKeyHex i)) (id_keyPackage i) cid k)] /\
    sessions s1 = JsMap.set cid (MkActive (Sessions.set_handshake (Handshake.OfferSent cid) (Sessions.newSession i cid)) h cid k (shortName k) false)
                    (sessions s).
Proof.
  intros Hup Hk. destruct (law_uuid (world s)) as (u & w1 & Hu). set (cid := "c-" +:+ u).
  set (o := MkOffer (hexToBytes (signatureKeyHex i)) (id_keyPackage i) cid k).
  destruct (run_sendOffer o t (set_world w1 (set_world w1 s))) as [w2 Ho].
  assert (E : exists m s1, offerToContact (formatContact k) s = (Ok m, s1) /\
    s1 = (store (MkActive (Sessions.set_handshake (Handshake.OfferSent cid) (Sessions.newSession i cid)) h cid k (shortName k) false)
            (set_world w2 (add_trace (SendOffer o) (set_world w1 (set_world w1 s))))).2).
  { eexists _, _. split; [|reflexivity]. unfold offerToContact. rewrite contact_is_read_back by done.
    rewrite (bind_run (m := of_result (Ok (MkContact k k))) (x := s) eq_refl). cbn beta.
    rewrite (bind_run (run_transport s t (up_transport _ _ _ _ Hup))). rewrite (bind_run (run_world _ s u w1 Hu)). cbn beta zeta. fold cid.
    rewrite (bind_run (run_new_session (set_world w1 s) t h i cid ltac:(by destruct Hup))). cbn beta iota.
    rewrite (bind_run (run_run_session _ _ (set_world w1 s) _ _ _ (offer_run i cid k w1))). cbn beta iota.
    rewrite (bind_run (m := of_result _) (x := set_world w1 (set_world w1 s)) eq_refl). cbn beta. fold o.
    by rewrite (bind_run Ho). }
  destruct E as (m & s1 & E & ->). exists cid. eexists. split; [unfold Live.exec; by rewrite (bind_run E)|].
  split; [by destruct Hup|]. by split.
Qed.

Lemma onOffer_step s t h i offer :
  up s t h i ->
  let cid := offer_conversationId offer in let k := bytesToHex (offer_fromSignatureKey offer) in
  exists s1, exec (OnOffer offer) s = (Ok tt, s1) /\ up s1 t h i /\ world s1 = world s /\
    trace s1 = trace s ++ [Push (EvOffer cid (shortName k) (fingerprintOf k))] /\
    sessions s1 = JsMap.set cid (MkActive (Sessions.set_pending (Some (offer_keyPackage offer))
                     (Sessions.set_handshake (Handshake.OfferReceived cid k) (Sessions.newSession i cid))) h cid k (shortName k) false) (sessions s).
Proof.
  intros Hup cid k. eexists. split.
  - unfold Live.exec, onOffer. cbn zeta. rewrite (bind_run (run_new_session s t h i cid Hup)). cbn beta iota.
    rewrite (bind_run (run_run_session _ _ s _ _ _ (received_run i offer (world s)))). cbn beta iota. reflexivity.
  - split; [by destruct Hup|]. done.
Qed.

Lemma set_set {V} (k : string) (v v' : V) m : JsMap.set k v (JsMap.set k v' m) = JsMap.set k v m.
Proof.
  induction m as [|[k' u] m IH]; cbn; [by rewrite decide_True|]. destruct (decide (k = k')) as [<-|]; cbn; [by rewrite decide_True|].
  rewrite decide_False by done. by rewrite IH.
Qed.

(** An entry that is open, with the peer [k]. *)
Record open_with (k : string) (cid : string) (h : H) (a : ActiveSession H) (w : W) : Prop := MkOpen {
  ow_id : a_conversationId a = cid;
  ow_established : established a = true;
  ow_handshake : handshake (session a) = Handshake.Established cid k;
  ow_conv : Session.conv (session a) = Some h;
  ow_default : defaultLifetime (session a) = DEFAULT_LIFETIME;
  ow_peer : peer_of h w = Some k
}.

(** The end of both sides: the mailbox, the mark, the summary. *)
Definition finish a (o : option string) (t : T) : M St unit :=
  let! '(mailbox, a) := in_session a Sessions.inboundMailbox in
  do! subscribe mailbox t in
  do! store (with_established a) in
  persist (with_established a) o.
Lemma run_finish cid k h a o t s :
  a_conversationId a = cid -> handshake (session a) = Handshake.Established cid k -> Session.conv (session a) = Some h ->
  defaultLifetime (session a) = DEFAULT_LIFETIME -> peer_of h (world s) = Some k ->
  exists s1 key, finish a o t s = (Ok tt, s1) /\
    (forall next : ActiveSession H -> M St unit,
      (let! '(mailbox, a) := in_session a Sessions.inboundMailbox in
       do! subscribe mailbox t in
       do! store (with_established a) in
       do! persist (with_established a) o in
       next (with_established a)) s = next (with_established a) s1) /\ open_with k cid h (with_established a) (world s1) /\
    sessions s1 = JsMap.set cid (with_established a) (sessions s) /\ transport s1 = transport s /\
    trace s1 = trace s ++ [Subscribe key; PersistChannel (summary_of (with_established a))].
Proof.
  intros Hid Hh Hc Hd Hp. destruct (run_mailbox (session a) h k (world s) Hc Hp) as (mb & w1 & Em & Hp1).
  set (s1 := (store (with_session (session a) a) (set_world w1 s)).2).
  destruct (run_subscribe mb t s1) as (w2 & Es & Hp2).
  assert (Ha : with_session (session a) a = a) by by destruct a.
  eexists _, mb. split; [|split].
  { unfold finish. rewrite (bind_run (run_in_session a _ s _ _ _ Em)). cbn beta iota. fold s1. rewrite (bind_run Es). reflexivity. }
  { intros next. rewrite (bind_run (run_in_session a _ s _ _ _ Em)). cbn beta iota. fold s1. rewrite (bind_run Es). by rewrite Ha. }
  split_and!; [constructor; cbn; try done; by rewrite Hp2|cbn; rewrite Hid; apply set_set|done|unfold s1; cbn; by rewrite <-app_assoc].
Qed.

Lemma accept_step s t cid a k kp :
  transport s = Some t -> JsMap.lookup cid (sessions s) = Some a -> a_conversationId a = cid -> conversationId (session a) = cid ->
  handshake (session a) = Handshake.OfferReceived cid k -> pendingPeerKeyPackage (session a) = Some kp -> package k kp ->
  defaultLifetime (session a) = DEFAULT_LIFETIME -> peerSigHex a = k ->
  exists accept a' s1, exec (AcceptFrom cid) s = (Ok tt, s1) /\ SendAccept accept ∈ trace s1 /\
    accept_toRoutingKey accept = k /\ accept_conversationId accept = cid /\
    accept_fromSignatureKey accept = hexToBytes (signatureKeyHex (me (session a))) /\
    welcomes (accept_mlsWelcome accept) (key_of (made a)) /\ open_with k cid (made a) a' (world s1) /\
    sessions s1 = JsMap.set cid a' (sessions s) /\ transport s1 = transport s.
Proof.
  intros Ht Hl Hid Hcid Hh Hp Hk Hd Hpk.
  destruct (run_acceptOffer (session a) (made a) cid k kp (peerSigHex a) (world s) Hh Hp Hk) as (wl & w1 & Ea & Hw & Hp1).
  set (acc := MkAccept _ _ _ _ _) in Ea. set (x := Sessions.set_handshake _ _) in Ea.
  set (s1 := (store (with_session x a) (set_world w1 s)).2).
  destruct (run_sendAccept acc t s1) as (w2 & Es & Hp2). set (s2 := set_world w2 (add_trace (SendAccept acc) s1)) in Es.
  destruct (run_finish cid k (made a) (with_session x a) (Some cid) t s2) as (s3 & key & Ef & _ & Ho & Hm & Htr & Hc); try done.
  { cbn. by rewrite Hp2. }
  exists acc, (with_established (with_session x a)), s3. split_and!; try done.
  - unfold Live.exec, acceptKeyExchange, settling, try_catch, accept_now. rewrite (bind_run (m := gets sessions) (x := s) eq_refl), Hl.
    rewrite (bind_run (run_transport s t Ht)). rewrite (bind_run (run_in_session a _ s _ _ _ Ea)). cbn beta iota. fold s1.
    rewrite (bind_run Es). fold s2. unfold finish in Ef. by rewrite Ef.
  - rewrite Hc. apply elem_of_app. left. cbn. apply elem_of_app. right. by left.
  - rewrite Hm. cbn. rewrite Hid. apply set_set.
Qed.

Lemma onAccept_step s t cid a k accept :
  transport s = Some t -> JsMap.lookup cid (sessions s) = Some a -> a_conversationId a = cid -> conversationId (session a) = cid ->
  handshake (session a) = Handshake.OfferSent cid -> defaultLifetime (session a) = DEFAULT_LIFETIME -> peerSigHex a = k ->
  accept_conversationId accept = cid -> bytesToHex (accept_fromSignatureKey accept) = k -> welcomes (accept_mlsWelcome accept) k ->
  exists a' s1, exec (OnAccept accept) s = (Ok tt, s1) /\ Push (EvEstablished cid) ∈ trace s1 /\
    open_with k cid (made a) a' (world s1) /\ sessions s1 = JsMap.set cid a' (sessions s) /\ transport s1 = transport s.
Proof.
  intros Ht Hl Hid Hcid Hh Hd Hpk Hac Hfrom Hw.
  destruct (run_accepted (session a) (made a) cid k accept (world s)) as (w1 & Ea & Hp1); [done|congruence|done|done|].
  set (x := Sessions.set_handshake _ _) in Ea. set (s1 := (store (with_session x a) (set_world w1 s)).2).
  destruct (run_finish cid k (made a) (with_session x a) None t s1) as (s3 & key & _ & Ef & Ho & Hm & Htr & Hc); try done.
  exists (with_established (with_session x a)). eexists. split; [|split; [|split; [|split]]].
  - unfold Live.exec, onAccept. rewrite (bind_run (m := gets sessions) (x := s) eq_refl), Hac, Hl, Hfrom, Hpk.
    rewrite bool_decide_eq_true_2 by done. cbn [negb]. rewrite (bind_run (run_run_session _ _ s _ _ _ Ea)). cbn beta iota zeta.
    rewrite (bind_run (m := store _) (x := set_world w1 s) eq_refl). fold s1. rewrite (bind_run (run_transport s1 t Ht)).
    exact (Ef (fun a => do! push (EvConnection "secure") in push (EvEstablished (a_conversationId a)))).
  - cbn. rewrite Hid. apply elem_of_app. right. by left.
  - exact Ho.
  - change (sessions s3 = JsMap.set cid (with_established (with_session x a)) (sessions s)). rewrite Hm. cbn. rewrite Hid. apply set_set.
  - exact Htr.
Qed.

Lemma run_message (x : Session H) cid k h w p :
  handshake x = Handshake.Established cid k -> Session.conv x = Some h -> defaultLifetime x = DEFAULT_LIFETIME -> peer_of h w = Some k ->
  exists env w' f padded, Sessions.sendMessage p None None (x, w) = (Ok env, (x, w')) /\
    Frame.frameMessage p DEFAULT_LIFETIME = Ok f /\ Padding.padToBucket f = Ok padded /\ sealed (key_of h) (env_payload env) padded.
Proof.
  intros Hx Hc Hd Hp. destruct (law_random 16 h k w Hp) as (b & w1 & Er & Hp1). destruct (law_mailbox h k w1 Hp1) as (mb & w2 & Em & Hp2).
  pose proof (Frame.frameMessage_layout p DEFAULT_LIFETIME) as Hf. set (f := match DEFAULT_LIFETIME with Duration s => _ | _ => _ end) in Hf.
  pose proof (Padding.padToBucket_layout f) as Hpad. set (padded := be32 _ ++ _) in Hpad.
  destruct (law_encrypt h k padded w2 Hp2) as (ct & w3 & Ec & Hs).
  eexists _, w3, f, padded. split_and!; [|done|done|].
  - unfold Sessions.sendMessage. rewrite (bind_run (run_self x w)). cbn zeta. rewrite Hd. cbn [default].
    rewrite (bind_run (m := of_result _) (x := (x, w)) (x' := (x, w)) (a := f)) by (unfold of_result; by rewrite Hf).
    unfold Sessions.emit. rewrite (bind_run (Sessions.assertCanSend_open x w cid k Hx)).
    rewrite (bind_run (m := Sessions.requireConv) (x := (x, w)) (x' := (x, w)) (a := h)) by (by rewrite Sessions.requireConv_run, Hc).
    rewrite (bind_run (run_sworld _ x w b w1 Er)), (bind_run (run_sworld _ x w1 mb w2 Em)).
    rewrite (bind_run (m := of_result _) (x := (x, w2)) (x' := (x, w2)) (a := padded)) by (unfold of_result; by rewrite Hpad).
    by rewrite (bind_run (run_sworld _ x w2 ct w3 Ec)).
  - exact Hs.
Qed.

Lemma send_step s t cid a k h text :
  transport s = Some t -> JsMap.lookup cid (sessions s) = Some a -> open_with k cid h a (world s) ->
  exists env s1 f padded, exec (SendText cid text) s = (Ok tt, s1) /\ Publish env ∈ trace s1 /\
    Frame.frameMessage (text_encode text) DEFAULT_LIFETIME = Ok f /\ Padding.padToBucket f = Ok padded /\
    sealed (key_of h) (env_payload env) padded.
Proof.
  intros Ht Hl [Hid He Hh Hc Hd Hp].
  destruct (run_message (session a) cid k h (world s) (text_encode text) Hh Hc Hd Hp) as (env & w1 & f & padded & Em & Hf & Hpad & Hs).
  set (s1 := (store (with_session (session a) a) (set_world w1 s)).2). destruct (run_publish env t s1) as [w2 Ep].
  exists env. eexists _, f, padded. split; [|split; [|done]].
  - unfold Live.exec, sendMessage, settling, try_catch, send_now. rewrite (bind_run (m := gets sessions) (x := s) eq_refl), Hl, He. cbn zeta.
    rewrite (bind_run (run_in_session a _ s _ _ _ Em)). cbn beta iota. fold s1. rewrite (bind_run (run_transport s1 t Ht)).
    rewrite (bind_run Ep). reflexivity.
  - cbn. apply elem_of_app. left. apply elem_of_app. right. by left.
Qed.

Lemma deliver_step s cid a k h env p f padded :
  List.find (fun x => established x.2) (sessions s) = Some (cid, a) -> open_with k cid h a (world s) ->
  Frame.frameMessage p DEFAULT_LIFETIME = Ok f -> Padding.padToBucket f = Ok padded -> sealed k (env_payload env) padded ->
  Z.of_nat (length p) + 6 < 2 ^ 32 ->
  exists s1, exec (OnDeliver env) s = (Ok tt, s1) /\
    PersistMessage (MkMeta (bytesToHex (env_messageId env)) cid true DEFAULT_LIFETIME) p ∈ trace s1.
Proof.
  intros Hl [Hid He Hh Hc Hd Hp] Hf Hpad Hs Hlen. destruct (law_decrypt h k _ _ (world s) Hp Hs) as (w1 & Ed & Hp1).
  destruct (law_peer h k w1 Hp1) as (w2 & Ek & Hp2).
  pose proof (Sessions.receive_run text_decode (session a) (world s) cid k h env padded w1 k w2 Hh Hc Ed Ek) as Er.
  destruct (Frame.parse_frameMessage_eq text_decode p DEFAULT_LIFETIME) as (f' & Hf' & Hparse & Hfl). rewrite Hf in Hf'. injection Hf' as <-.
  pose proof (Padding.unpad_pad_eq f ltac:(lia)) as Hu. rewrite Hpad in Hu. cbn [rbind] in Hu. rewrite decide_True, Hu in Er by done.
  cbn [rbind] in Er. rewrite Hparse in Er. eexists. split.
  - unfold Live.exec, onDeliver. rewrite (bind_run (m := gets sessions) (x := s) eq_refl), Hl.
    rewrite (bind_run (run_run_session _ _ s _ _ _ Er)). cbn beta iota. reflexivity.
  - cbn. rewrite Hid. apply elem_of_app. right. by left.
Qed.

Lemma find_set_open cid a a0 (m : list (string * ActiveSession H)) :
  (forall x, x ∈ m -> established x.2 = false) -> established a = true ->
  List.find (fun x => established x.2) (JsMap.set cid a (JsMap.set cid a0 m)) = Some (cid, a).
Proof.
  intros Hm Ha. rewrite set_set. induction m as [|[c b] m IH]; cbn; [by rewrite Ha|].
  assert (Hb : established b = false) by (apply (Hm (c, b)); left).
  destruct (decide (cid = c)); cbn; [by rewrite Ha|]. rewrite Hb. apply IH. intros x Hx. apply Hm. by right.
Qed.

(** C27. From a contact to a message.  Two devices are connected, and one has the contact string of the other.
    When it offers, the offer goes to the mailbox in the contact and the other shows it with the fingerprint
    of the offerer; when that is accepted, the accept goes back to the mailbox of the offerer and opens the
    channel there; and a text sent over it is handed to the store of the other side, under the id of the
    envelope, as it was written and with the default lifetime. *)
Theorem contact_to_message sA tA hA iA sB tB hB iB text :
  up sA tA hA iA -> up sB tB hB iB ->
  key_of hA = signatureKeyHex iA -> key_of hB = signatureKeyHex iB -> package (signatureKeyHex iA) (id_keyPackage iA) ->
  bytesToHex (hexToBytes (signatureKeyHex iA)) = signatureKeyHex iA -> bytesToHex (hexToBytes (signatureKeyHex iB)) = signatureKeyHex iB ->
  field_ok (signatureKeyHex iB) = true ->
  (forall x, x ∈ sessions sB -> established x.2 = false) -> Z.of_nat (length (text_encode text)) + 6 < 2 ^ 32 ->
  exists cid offer accept env sA1 sB1 sB2 sA2 sA3 sB3,
    exec (OfferTo (formatContact (signatureKeyHex iB))) sA = (Ok tt, sA1) /\
    SendOffer offer ∈ trace sA1 /\ offer_toRoutingKey offer = signatureKeyHex iB /\
    exec (OnOffer offer) sB = (Ok tt, sB1) /\
    Push (EvOffer cid (shortName (signatureKeyHex iA)) (fingerprintOf (signatureKeyHex iA))) ∈ trace sB1 /\
    exec (AcceptFrom cid) sB1 = (Ok tt, sB2) /\ SendAccept accept ∈ trace sB2 /\ accept_toRoutingKey accept = signatureKeyHex iA /\
    exec (OnAccept accept) sA1 = (Ok tt, sA2) /\ Push (EvEstablished cid) ∈ trace sA2 /\
    exec (SendText cid text) sA2 = (Ok tt, sA3) /\ Publish env ∈ trace sA3 /\
    exec (OnDeliver env) sB2 = (Ok tt, sB3) /\
    PersistMessage (MkMeta (bytesToHex (env_messageId env)) cid true DEFAULT_LIFETIME) (text_encode text) ∈ trace sB3.
Proof.
  intros UA UB KA KB Hpkg HA HB Hk Hest Hlen. set (kA := signatureKeyHex iA) in *. set (kB := signatureKeyHex iB) in *.
  destruct (offer_step sA tA hA iA kB UA Hk) as (cid & sA1 & E1 & UA1 & T1 & M1).
  set (offer := MkOffer (hexToBytes kA) (id_keyPackage iA) cid kB) in T1.
  destruct (onOffer_step sB tB hB iB offer UB) as (sB1 & E2 & UB1 & W2 & T2 & M2). cbn [offer offer_conversationId offer_fromSignatureKey] in T2, M2.
  rewrite HA in T2, M2.
  set (b := MkActive _ _ _ _ _ _) in M2.
  destruct (accept_step sB1 tB cid b kA (id_keyPackage iA)) as (accept & b' & sB2 & E3 & T3 & R3 & C3 & F3 & Wl & O3 & M3 & _); try done.
  { by destruct UB1. }
  { rewrite M2. apply JsMap.lookup_set_eq. }
  set (a := MkActive _ _ _ _ _ _) in M1. cbn [b made session Sessions.set_pending Sessions.set_handshake Sessions.newSession me] in Wl, F3, O3.
  destruct (onAccept_step sA1 tA cid a kB accept) as (a' & sA2 & E4 & T4 & O4 & M4 & Ht4); try done.
  { by destruct UA1. }
  { rewrite M1. apply JsMap.lookup_set_eq. }
  { rewrite F3. exact HB. }
  { by rewrite <-KB. }
  destruct (send_step sA2 tA cid a' kB hA text) as (env & sA3 & f & padded & E5 & T5 & Hf & Hpad & Hs); try done.
  { rewrite Ht4. by destruct UA1. }
  { rewrite M4. apply JsMap.lookup_set_eq. }
  destruct (deliver_step sB2 cid b' kA hB env (text_encode text) f padded) as (sB3 & E6 & T6); try done.
  { rewrite M3, M2. apply find_set_open; [done|]. by destruct O3. }
  { by rewrite <-KA. }
  exists cid, offer, accept, env, sA1, sB1, sB2, sA2, sA3, sB3. split_and!; try done.
  - rewrite T1. apply elem_of_app. right. by left.
  - rewrite T2. apply elem_of_app. right. by left.
Qed.
End pair.

(** ** Two devices *)
Module PairToy.

(** The fake conversation of the tests: it learns its peer in the handshake and does not encrypt.  The world
    is the peer of the one conversation of the device and the number of the next conversation. *)
Definition World : Type := option string * Z.
#[local] Instance fake : ConversationApi string World := {
  conv_signaturePublicKeyHex h := ret h;
  conv_keyPackage h := ret (text_encode h);
  conv_createAndAdd h kp := fun w => (Ok (text_encode h), (Some (text_decode_bytes kp), w.2));
  conv_joinFromWelcome h wl := fun w => (Ok tt, (Some (text_decode_bytes wl), w.2));
  conv_encrypt h p := ret p;
  conv_decrypt h ct := ret ct;
  conv_peerSignatureKeyHex h := fun w => (match w.1 with Some k => Ok k | None => Throw (JsError "no peer") end, w);
  conv_selfMailbox h := ret (h +:+ "-mbox");
  conv_peerMailbox h := fun w => (match w.1 with Some k => Ok (k +:+ "-mbox") | None => Throw (JsError "no peer") end, w);
  conv_mailboxTag h s := ret ("ctag-" +:+ s);
  conv_wipe h := ret tt;
  randomBytes n := ret (replicate n 7)
}.
#[local] Instance deps : LiveDeps string unit World := {
  dep_connect url := ret tt;
  dep_makeConversation label := ret "aa";
  tr_setConsumerIdResolver t f := ret tt;
  tr_subscribe t key := ret tt;
  tr_publish t env := ret tt;
  tr_ack t i := ret tt;
  tr_sendOffer t o := ret tt;
  tr_sendAccept t a := ret tt;
  randomUUID := fun w => (Ok (byte_hex w.2), (w.1, w.2 + 1));
  rangeMessage := "out of bounds"
}.
#[local] Instance fake_laws : PairLaws string unit World.
Proof.
  refine (Build_PairLaws string unit World fake deps (fun h => h) (fun h w => w.1) (fun k kp => kp = text_encode k)
    (fun wl k => wl = text_encode k) (fun k ct p => ct = p) _ _ _ _ _ _ _ _ _ _ _ _ _).
  all: try (by eauto).
  - intros h k kp w ->. eexists _, _. split; [reflexivity|]. by rewrite text_decode_bytes_encode.
  - intros h wl k w ->. eexists. split; [reflexivity|]. by rewrite text_decode_bytes_encode.
  - intros h k [? n] [= ->]. eexists. split; [reflexivity|done].
  - intros h k [? n] [= ->]. eexists _, _. split; [reflexivity|done].
  - intros h k ct p w Hw ->. by eexists.
Defined.

Definition aa : State string unit World :=
  MkState (Some tt) (Some "aa") (Some (MkIdentity "aa" (text_encode "aa") "me")) "aa" [] [] 0 [] (None, 16).
Definition bb : State string unit World :=
  MkState (Some tt) (Some "bb") (Some (MkIdentity "bb" (text_encode "bb") "me")) "bb" [] [] 0 [] (None, 16).

Lemma contact_to_message_witness :
  exists cid offer accept env sA1 sB1 sB2 sA2 sA3 sB3,
    exec text_decode_bytes false (OfferTo (formatContact "bb")) aa = (Ok tt, sA1) /\
    SendOffer offer ∈ trace sA1 /\ offer_toRoutingKey offer = "bb" /\
    exec text_decode_bytes false (OnOffer offer) bb = (Ok tt, sB1) /\
    Push (EvOffer cid (shortName "aa") (fingerprintOf "aa")) ∈ trace sB1 /\
    exec text_decode_bytes false (AcceptFrom cid) sB1 = (Ok tt, sB2) /\ SendAccept accept ∈ trace sB2 /\ accept_toRoutingKey accept = "aa" /\
    exec text_decode_bytes false (OnAccept accept) sA1 = (Ok tt, sA2) /\ Push (EvEstablished cid) ∈ trace sA2 /\
    exec text_decode_bytes false (SendText cid "meet at dawn") sA2 = (Ok tt, sA3) /\ Publish env ∈ trace sA3 /\
    exec text_decode_bytes false (OnDeliver env) sB2 = (Ok tt, sB3) /\
    PersistMessage (MkMeta (bytesToHex (env_messageId env)) cid true DEFAULT_LIFETIME) (text_encode "meet at dawn") ∈ trace sB3.
Proof.
  apply (contact_to_message (H := string) (T := unit) (W := World) text_decode_bytes false
    aa tt "aa" (MkIdentity "aa" (text_encode "aa") "me") bb tt "bb" (MkIdentity "bb" (text_encode "bb") "me") "meet at dawn");
    try done.
  intros x Hx. by apply elem_of_nil in Hx.
Defined.

(** A second peer whose offer is accepted takes the place of the first in the one conversation that the
    sessions share: a text for the first is published to the mailbox of the second. *)
Definition offer_of (k cid : string) : OfferMsg := MkOffer (hexToBytes k) (text_encode k) cid "bb".
Definition two_peers : list (op (H := string)) :=
  [OnOffer (offer_of "aa" "c-1"); AcceptFrom "c-1"; OnOffer (offer_of "cc" "c-2"); AcceptFrom "c-2"; SendText "c-1" "for aa"].
Definition published (s : State string unit World) : list string :=
  omap (fun e => match e with Publish env => Some (env_routingKey env) | _ => None end) (trace s).
Example text_goes_to_the_other_peer :
  let s := run text_decode_bytes false two_peers bb in
  (peerSigHex <$> JsMap.lookup "c-1" (sessions s)) = Some "aa" /\ published s = ["cc-mbox"].
Proof. split; vm_compute; reflexivity. Qed.

(** An offer with the id of an open conversation replaces it, whoever sends it: it can no longer be sent on. *)
Example offer_closes_a_conversation :
  let s := run text_decode_bytes false [OnOffer (offer_of "aa" "c-1"); AcceptFrom "c-1"; OnOffer (offer_of "cc" "c-1"); SendText "c-1" "hi"] bb in
  last (trace s) = Some (Settled (CSend "c-1") (Throw (JsError "this channel is not open yet"))) /\
  (peerSigHex <$> JsMap.lookup "c-1" (sessions s)) = Some "cc".
Proof. split; vm_compute; reflexivity. Qed.

(** A delivery is stored, acknowledged and announced, in this order. *)
Definition hello : EnvelopeMsg :=
  MkEnvelope [1; 2] "bb-mbox" (match rbind (Frame.frameMessage (text_encode "hi") DEFAULT_LIFETIME) Padding.padToBucket with Ok p => p | _ => [] end) 60.
Definition hello_meta : Meta := MkMeta "0102" "c-1" true DEFAULT_LIFETIME.
Example delivery_is_acknowledged :
  let s := run text_decode_bytes false [OnOffer (offer_of "aa" "c-1"); AcceptFrom "c-1"; OnDeliver hello; Answer 1 (ADone (Ok tt))] bb in
  drop (length (trace s) - 5) (trace s) =
    [Received "c-1" hello (Frame.Message (text_encode "hi") DEFAULT_LIFETIME); PersistMessage hello_meta (text_encode "hi");
     Answered (TIn hello_meta [1; 2]) true; Ack [1; 2]; Push (EvInboundMessage "c-1")].
Proof. vm_compute. reflexivity. Qed.

(** A delivery from the second peer is given to the first open session, which blocks it: nothing is stored
    or acknowledged. *)
Example delivery_blocks_the_first :
  let s := run text_decode_bytes false
    [OnOffer (offer_of "aa" "c-1"); AcceptFrom "c-1"; OnOffer (offer_of "cc" "c-2"); AcceptFrom "c-2"; OnDeliver hello] bb in
  last (trace s) = Some (Push (EvError (-1) "peer key changed; message dropped")) /\
  (handshake ∘ session <$> JsMap.lookup "c-1" (sessions s)) = Some (Handshake.Blocked "c-1").
Proof. split; vm_compute; reflexivity. Qed.
End PairToy.
End LivePair.
