(* ===== verification/SignIn.v ===== *)
(** * Signing in (client/src/app.ts, lines 4323-4442, 7394-7441, 8136-8460, 9219-9400)

    How a session of the page begins and ends: login, registration, recovery, the wizard that adds this
    device to an account, the check of the device against the account server, signing out, wiping, self
    destruct; and how a conversation is started from a name.  Each is a program over the page's variables
    whose questions go to the account server ([QLogin] to [QLookupAway]) or the worker.  The methods of the
    controller that the code looks for are there on both backends (WorkerProxy.v).  [QConnect] is
    [connectLive] of Reconnect.v, [QEpoch], [QSyncAndPublish] and [QPublishOwn] are programs of
    DeviceCare.v, and so are the passes that are started without waiting. *)

From S2P Require Import Prelude Json Auth RichText IdentityCard Controller Program TabSession.
From stdpp Require Import pretty.
Import Program TabSession.

Module SignIn.
Local Open Scope Z_scope.

Definition Appearance : Type := RichText.Appearance.
Definition IdentityProfile : Type := IdentityCard.IdentityProfile.

(** What the page shows of a conversation: its id, whether it is Note to Self, and the lines the page adds to
    its log. *)
Record Transmit := MkTransmit { t_id : option string; t_selfNote : bool; t_log : list string }.

Inductive View :=
  | VUnlock (m : option mode) (error prefillUser : option string)
  | VWizard (connected : bool)
  | VRecovery (secret : string)
  | VRecoverEntry (error : option string)
  | VProvisioning (error : option string)
  | VSelfDestruct (error : string)
  | VKeyExchange (peerUsername : string) (error : option string)
  | VConversation (t : Transmit)
  | VBuddies (error : option string).

(** ** Questions *)
Definition target : Type := string * bytes.

Inductive ask :=
  | QLogin (user pass : string)
  | QRegister (user pass key : string)
  | QAuthSecret (user pass : string)
  | QEnroll (secret key : string)
  | QList
  | QDeleteAccount
  | QSetAway (message : string)
  | QClearAway
  | QTake (user : string)
  | QLookupAway (user : string)
  | QUnlock (user pass : string)
  | QVerifyPassphrase (user pass : string)
  | QDiscard (user : string)
  | QEnsureSeed
  | QRecoverySecret
  | QRecover (secret : string) (epoch : Z)
  | QAuthState
  | QGetAppearance
  | QGetIdentity
  | QSetIdentity (p : IdentityProfile)
  | QPresence
  | QNotify
  | QListChannels
  | QOpenChannel (id : json)
  | QStartKeyExchange
  | QStartConversation (targets : list target)
  | QNoteToSelf
  | QLoadBuddies
  | QConnect
  | QEpoch
  | QSyncAndPublish
  | QPublishOwn.

Definition ans (q : ask) : Type :=
  match q with
  | QLogin _ _ | QDeleteAccount | QRecover _ _ => AuthResult
  | QRegister _ _ _ => RegisterResult
  | QAuthSecret _ _ => string
  | QEnroll _ _ => EnrollResult
  | QList => DeviceListResult
  | QTake _ => TakeResult
  | QUnlock _ _ => Controller.unlock_result
  | QVerifyPassphrase _ _ | QAuthState | QPresence | QNotify | QPublishOwn => bool
  | QRecoverySecret | QLookupAway _ | QConnect => option string
  | QGetAppearance => json
  | QGetIdentity => IdentityProfile
  | QListChannels => list string
  | QOpenChannel _ | QStartConversation _ | QNoteToSelf => Transmit
  | QEpoch => Z
  | QSetAway _ | QClearAway | QDiscard _ | QEnsureSeed | QSetIdentity _ | QStartKeyExchange
  | QLoadBuddies | QSyncAndPublish => unit
  end.

(** What is started without waiting. *)
Inductive aside :=
  | Persist
  | Removals
  | Siblings
  | SelfGroup
  | AwayBeat
  | PresenceBeat
  | NotifyPermission
  | BuddyWatch
  | Disarm
  | ClearSession
  | Reload
  | TagHandle (id user : string)
  | Toast.

(** The variables of the page.  [link_down] is [connState === 'offline']. *)
Record App := MkApp {
  has_account : bool;
  link_down : bool;
  currentUsername : string;
  currentDeviceKey : string;
  joiningNewDevice : bool;
  pendingWizardEnroll : option (string * string);
  registerInFlight : bool;
  pendingResume : option ResumeState;
  view : View;
  navGen : nat;
  notifyEnabled : bool;
  awayBeatTimer : bool;
  presenceTimer : bool;
  appearance : Appearance;
  suppressAutoOpenUntil : Z;
  clock : Z;
  tab : Tab }.

Definition set_user (x : string) (s : App) : App :=
  MkApp (has_account s) (link_down s) x (currentDeviceKey s) (joiningNewDevice s) (pendingWizardEnroll s)
    (registerInFlight s) (pendingResume s) (view s) (navGen s) (notifyEnabled s) (awayBeatTimer s)
    (presenceTimer s) (appearance s) (suppressAutoOpenUntil s) (clock s) (tab s).
Definition set_key (x : string) (s : App) : App :=
  MkApp (has_account s) (link_down s) (currentUsername s) x (joiningNewDevice s) (pendingWizardEnroll s)
    (registerInFlight s) (pendingResume s) (view s) (navGen s) (notifyEnabled s) (awayBeatTimer s)
    (presenceTimer s) (appearance s) (suppressAutoOpenUntil s) (clock s) (tab s).
Definition set_joining (x : bool) (s : App) : App :=
  MkApp (has_account s) (link_down s) (currentUsername s) (currentDeviceKey s) x (pendingWizardEnroll s)
    (registerInFlight s) (pendingResume s) (view s) (navGen s) (notifyEnabled s) (awayBeatTimer s)
    (presenceTimer s) (appearance s) (suppressAutoOpenUntil s) (clock s) (tab s).
Definition set_stash (x : option (string * string)) (s : App) : App :=
  MkApp (has_account s) (link_down s) (currentUsername s) (currentDeviceKey s) (joiningNewDevice s) x
    (registerInFlight s) (pendingResume s) (view s) (navGen s) (notifyEnabled s) (awayBeatTimer s)
    (presenceTimer s) (appearance s) (suppressAutoOpenUntil s) (clock s) (tab s).
Definition set_registering (x : bool) (s : App) : App :=
  MkApp (has_account s) (link_down s) (currentUsername s) (currentDeviceKey s) (joiningNewDevice s)
    (pendingWizardEnroll s) x (pendingResume s) (view s) (navGen s) (notifyEnabled s) (awayBeatTimer s)
    (presenceTimer s) (appearance s) (suppressAutoOpenUntil s) (clock s) (tab s).
Definition set_pending (x : option ResumeState) (s : App) : App :=
  MkApp (has_account s) (link_down s) (currentUsername s) (currentDeviceKey s) (joiningNewDevice s)
    (pendingWizardEnroll s) (registerInFlight s) x (view s) (navGen s) (notifyEnabled s) (awayBeatTimer s)
    (presenceTimer s) (appearance s) (suppressAutoOpenUntil s) (clock s) (tab s).
Definition set_notify (x : bool) (s : App) : App :=
  MkApp (has_account s) (link_down s) (currentUsername s) (currentDeviceKey s) (joiningNewDevice s)
    (pendingWizardEnroll s) (registerInFlight s) (pendingResume s) (view s) (navGen s) x (awayBeatTimer s)
    (presenceTimer s) (appearance s) (suppressAutoOpenUntil s) (clock s) (tab s).
Definition set_away_beat (x : bool) (s : App) : App :=
  MkApp (has_account s) (link_down s) (currentUsername s) (currentDeviceKey s) (joiningNewDevice s)
    (pendingWizardEnroll s) (registerInFlight s) (pendingResume s) (view s) (navGen s) (notifyEnabled s) x
    (presenceTimer s) (appearance s) (suppressAutoOpenUntil s) (clock s) (tab s).
Definition set_presence (x : bool) (s : App) : App :=
  MkApp (has_account s) (link_down s) (currentUsername s) (currentDeviceKey s) (joiningNewDevice s)
    (pendingWizardEnroll s) (registerInFlight s) (pendingResume s) (view s) (navGen s) (notifyEnabled s)
    (awayBeatTimer s) x (appearance s) (suppressAutoOpenUntil s) (clock s) (tab s).
Definition set_appearance (x : Appearance) (s : App) : App :=
  MkApp (has_account s) (link_down s) (currentUsername s) (currentDeviceKey s) (joiningNewDevice s)
    (pendingWizardEnroll s) (registerInFlight s) (pendingResume s) (view s) (navGen s) (notifyEnabled s)
    (awayBeatTimer s) (presenceTimer s) x (suppressAutoOpenUntil s) (clock s) (tab s).
Definition set_quiet (x : Z) (s : App) : App :=
  MkApp (has_account s) (link_down s) (currentUsername s) (currentDeviceKey s) (joiningNewDevice s)
    (pendingWizardEnroll s) (registerInFlight s) (pendingResume s) (view s) (navGen s) (notifyEnabled s)
    (awayBeatTimer s) (presenceTimer s) (appearance s) x (clock s) (tab s).
Definition set_tab (x : Tab) (s : App) : App :=
  MkApp (has_account s) (link_down s) (currentUsername s) (currentDeviceKey s) (joiningNewDevice s)
    (pendingWizardEnroll s) (registerInFlight s) (pendingResume s) (view s) (navGen s) (notifyEnabled s)
    (awayBeatTimer s) (presenceTimer s) (appearance s) (suppressAutoOpenUntil s) (clock s) x.
Definition show (next : View) (t : Tab) (s : App) : App :=
  MkApp (has_account s) (link_down s) (currentUsername s) (currentDeviceKey s) (joiningNewDevice s)
    (pendingWizardEnroll s) (registerInFlight s) (pendingResume s) next (S (navGen s)) (notifyEnabled s)
    (awayBeatTimer s) (presenceTimer s) (appearance s) (suppressAutoOpenUntil s) (clock s) t.

Notation prog := (Program.prog ans App aside).
Notation event := (Program.event ask aside).
Notation asking := (Program.asking (ans := ans) (St := App) (C := aside)).
Notation asks := (Program.asks (Q := ask) (C := aside)).

Section sign_in.
Context `{JsonText}.
(** [err.message] *)
Context (message : exn -> string).

(** ** Navigation

    The windows of the desktop are in Windows.v. *)
Definition is_unlock (v : View) : bool := match v with VUnlock _ _ _ => true | _ => false end.

Definition go_view (next : View) (s : App) : App :=
  let t :=
    if bool_decide (currentUsername s = EmptyString) || is_unlock next then tab s
    else
      match next with
      | VConversation (MkTransmit (Some id) _ _) => saveResume (MkResume (currentUsername s) (Some (JStr id))) (tab s)
      | _ => saveResume (MkResume (currentUsername s) None) (tab s)
      end in
  show next t s.

Definition goto (next : View) : prog unit := Upd (go_view next) (pret tt).
Definition unlock_screen (m : mode) (error : string) : View := VUnlock (Some m) (Some error) None.

(** The page at its start: the first view and the conversation to reopen. *)
Definition boot (account : bool) (t : Tab) (now : Z) : App :=
  let t := captureContactFromUrl t in
  let '(bootMode, t) := takeBootMode t in
  let '(bootNotice, t) := takeBootNotice t in
  let bootResume := match bootMode with None => loadResume t | Some _ => None end in
  let v :=
    match bootMode, bootNotice, bootResume with
    | Some Register, _, _ => VUnlock (Some Register) None None
    | _, Some n, _ => VUnlock (Some Login) (Some n) None
    | _, None, Some r => VUnlock (Some Login) None (Some (resume_user r))
    | _, None, None => VUnlock None None None
    end in
  MkApp account true EmptyString EmptyString false None false bootResume v 0 true false false
    RichText.DEFAULT_APPEARANCE 0 now t.

(** ** The server-side away message *)
Definition flag (o : json) (k : string) : bool := match prop o k with Some (JBool true) => true | _ => false end.
Definition text (o : json) (k : string) : string := match prop o k with Some (JStr m) => m | _ => EmptyString end.

Definition startAwayBeat : prog unit :=
  Look (fun s => if negb (has_account s) || awayBeatTimer s then pret tt
                 else Start AwayBeat (Upd (set_away_beat true) (pret tt))).
Definition stopAwayBeat : prog unit := Upd (set_away_beat false) (pret tt).

Definition applyServerAway (p : IdentityProfile) : prog unit :=
  Look (fun s =>
    if negb (has_account s) then pret tt
    else
      let a := IdentityCard.away p in
      if flag a "serverSide" && flag a "enabled" && negb (bool_decide (Auth.trim (text a "message") = EmptyString)) then
        do* asking (QSetAway (text a "message")) in startAwayBeat
      else do* asking QClearAway in stopAwayBeat).

Definition restoreServerAway : prog unit := let* p := asking QGetIdentity in applyServerAway p.

Definition startPresenceBeat : prog unit :=
  Look (fun s => if negb (has_account s) || presenceTimer s then pret tt
                 else Start PresenceBeat (Upd (set_presence true) (pret tt))).

(** The profile with its away message taken down. *)
Definition online (p : IdentityProfile) : IdentityProfile :=
  IdentityCard.MkProfile (IdentityCard.icon p) (IdentityCard.bio p)
    (match IdentityCard.away p with JObj f => JObj (JsMap.set "enabled" (JBool false) f) | a => a end)
    (IdentityCard.iconVersion p) (IdentityCard.bioVersion p) (IdentityCard.awayVersion p).

(** ** Where a sign-in lands *)

(** The load of the buddy list gives up when the user has gone elsewhere meanwhile. *)
Definition openBuddies (error : option string) : prog unit :=
  Look (fun s =>
    let gen := navGen s in
    do* asking QLoadBuddies in
    Look (fun s => if bool_decide (gen = navGen s) then goto (VBuddies error) else pret tt)).

Definition openPendingContact : prog bool :=
  Look (fun s =>
    let '(c, t) := takePendingContact (tab s) in
    Upd (set_tab t)
      match c with
      | Some c =>
          if negb (has_account s) || bool_decide (Auth.normalizeUsername (contact_user c) = Auth.normalizeUsername (currentUsername s))
          then pret false
          else
            Upd (set_pending None)
              (do* asking QStartKeyExchange in
               do* goto (VKeyExchange (contact_user c) None) in pret true)
      | None => pret false
      end).

(** ** The device against the account server *)
Inductive status := Clear (notice : option string) | RevokedDevice | Unknown.

Definition devices_notice (n : Z) : string :=
  "You have " +:+ pretty n +:+ " devices on this account. Every device you are signed in on receives your messages. Manage devices in Device keys.".

Definition own_row (key : string) (ds : list DeviceInfo) : option DeviceInfo :=
  List.find (fun d => bool_decide (deviceKey d = key)) ds.

Definition count {A} (P : A -> bool) (l : list A) : Z := Z.of_nat (length (List.filter P l)).

Definition judge_devices (key : string) (ds : list DeviceInfo) : status :=
  match own_row key ds with
  | None => Unknown
  | Some own =>
      if revoked own then RevokedDevice
      else
        let active := count (fun d => negb (revoked d)) ds in
        let authorizedActive :=
          if existsb authorized ds then count (fun d => negb (revoked d) && authorized d) ds else active in
        Clear (if 1 <? authorizedActive then Some (devices_notice authorizedActive) else None)
  end.

Definition enrollAndNotice (authSecret : string) : prog status :=
  Look (fun s =>
    if negb (has_account s) then pret (Clear None)
    else if bool_decide (currentDeviceKey s = EmptyString) then pret Unknown
    else
      let* enroll := asking (QEnroll authSecret (currentDeviceKey s)) in
      if negb (enr_ok enroll) then
        pret (if bool_decide (enr_revoked enroll = Some true) then RevokedDevice else Unknown)
      else
        let* list := asking QList in
        match dl_ok list, dl_devices list with
        | true, Some ds => Look (fun s => pret (judge_devices (currentDeviceKey s) ds))
        | _, _ => pret Unknown
        end).

(** [enrollAndNotice(...).catch(() => 'unknown')] *)
Definition verified (authSecret : string) : prog status :=
  pbind (enrollAndNotice authSecret) (fun r => match r with Ok x => pret x | Throw _ => pret Unknown end).

(** ** The end of a session *)
Definition REVOKED_COPY : string :=
  "This device was revoked. Sign in on one of your active devices, or add this device again to keep using it here.".

(** The reload happens also when the erasure fails. *)
Definition wipeLocalAndReload (bootMode : mode) (notice : option string) : prog unit :=
  pbind
    (Look (fun s => if bool_decide (currentUsername s = EmptyString) then pret tt
                    else asking (QDiscard (currentUsername s))))
    (fun r =>
      Look (fun s =>
        let p :=
          Upd (fun s =>
            let t := setBootMode bootMode (clearResume (tab s)) in
            let t := match notice with Some n => setBootNotice n t | None => t end in
            set_key EmptyString (set_user EmptyString (set_stash None (set_tab t s))))
            (Start Reload (Done r)) in
        if has_account s then Start ClearSession p else p)).

Definition signOutNewDevice : prog unit :=
  Upd (fun s => set_tab (clearResume (tab s)) (set_stash None (set_joining false s)))
    (Look (fun s =>
       do* (if bool_decide (currentUsername s = EmptyString) then pret tt
            else asking (QDiscard (currentUsername s))) in
       Upd (set_user EmptyString) (Start Disarm (goto (VUnlock (Some Login) None None))))).

Definition doSelfDestruct (pass1 pass2 : string) : prog unit :=
  Look (fun s =>
    if negb (has_account s) then goto (VSelfDestruct "self destruct needs the account server")
    else if bool_decide (pass1 = EmptyString) || bool_decide (pass2 = EmptyString) then
      goto (VSelfDestruct "enter your passphrase in both fields")
    else if negb (bool_decide (pass1 = pass2)) then goto (VSelfDestruct "the two passphrases do not match")
    else
      let* ok := asking (QVerifyPassphrase (currentUsername s) pass1) in
      if negb ok then goto (VSelfDestruct "wrong passphrase")
      else
        let* result := asking QDeleteAccount in
        if negb (auth_ok result) then
          goto (VSelfDestruct (default "could not delete the account" (auth_error result)))
        else wipeLocalAndReload Register None).

(** ** Login *)

(** [selfContact.split(':')[3]] *)
Fixpoint nth_field (n : nat) (cur : list Ascii.ascii) (l : list Ascii.ascii) : option string :=
  match l with
  | [] => match n with O => Some (String.string_of_list_ascii cur) | S _ => None end
  | c :: l =>
      if bool_decide (c = ":"%char) then
        match n with O => Some (String.string_of_list_ascii cur) | S n => nth_field n [] l end
      else nth_field n (cur ++ [c]) l
  end.
Definition key_of_contact (contact : string) : option string := nth_field 3 [] (String.list_ascii_of_string contact).
Definition key_or (other : string) (contact : option string) : string :=
  match contact with Some c => default EmptyString (key_of_contact c) | None => other end.

Definition start_passes : prog unit := Start Removals (Start Siblings (Start SelfGroup (pret tt))).

(** A fresh sign-in takes the away message down; a refresh keeps it. *)
Definition sign_on : prog unit :=
  Look (fun s =>
    if bool_decide (resume_user <$> pendingResume s = Some (currentUsername s)) then pret tt
    else
      let* p := asking QGetIdentity in
      if flag (IdentityCard.away p) "enabled" then
        do* asking (QSetIdentity (online p)) in applyServerAway (online p)
      else pret tt).

(** The conversation that was open before a refresh, or the buddy list. *)
Definition land (channels : list string) (notice : option string) : prog unit :=
  Look (fun s =>
    let resumeConv :=
      match pendingResume s with
      | Some r => if bool_decide (resume_user r = currentUsername s) then conversationId r else None
      | None => None
      end in
    Upd (set_pending None)
      match resumeConv with
      | None => openBuddies notice
      | Some id =>
          if existsb (fun c => bool_decide (JStr c = id)) channels then
            let* t := asking (QOpenChannel id) in goto (VConversation t)
          else
            Ask (QOpenChannel id) (fun r =>
              match r with
              | Ok t => if t_selfNote t then goto (VConversation t) else openBuddies notice
              | Throw _ => openBuddies notice
              end)
      end).

(** After the device is known to be clear. *)
Definition welcome (notice : option string) : prog unit :=
  do* asking QSyncAndPublish in
  do* start_passes in
  do* restoreServerAway in
  let* presence := asking QPresence in
  do* (if presence then startPresenceBeat else pret tt) in
  let* n := asking QNotify in
  Upd (set_notify n)
    (do* (if n then Start NotifyPermission (Start BuddyWatch (pret tt)) else pret tt) in
     do* sign_on in
     let* channels := asking QListChannels in
     let* contact := openPendingContact in
     if contact then pret tt else land channels notice).

(** After the vault is open and the link is up. *)
Definition check_device (user authSecret : string) (connected : bool) : prog unit :=
  Look (fun s =>
    let* authorized := if has_account s then asking QAuthState else pret true in
    if negb authorized then
      Upd (fun s => set_joining true (set_stash (Some (Auth.trim user, authSecret)) s)) (goto (VWizard connected))
    else
      Look (fun s =>
        let* enroll := if has_account s then verified authSecret else pret (Clear None) in
        match enroll with
        | RevokedDevice => wipeLocalAndReload Login (Some REVOKED_COPY)
        | Unknown =>
            goto (VUnlock (Some Login)
              (Some "Could not verify this device with the account server. Check your connection and try again.")
              (Some (Auth.trim user)))
        | Clear notice => welcome notice
        end)).

Definition open_session (user pass : string) : prog unit :=
  Upd (set_user (Auth.trim user))
    (Start Persist
      (let* a := asking QGetAppearance in
       Upd (set_appearance (RichText.sanitizeAppearance a))
         (let* selfContact := asking QConnect in
          Upd (set_key (key_or EmptyString selfContact))
            (Look (fun s =>
               let* authSecret := if has_account s then asking (QAuthSecret user pass) else pret EmptyString in
               check_device user authSecret (bool_decide (is_Some selfContact))))))).

Definition doLogin (user pass : string) : prog unit :=
  Upd (fun s => set_stash None (set_joining false s))
    (Look (fun s =>
       let* auth := if has_account s then asking (QLogin user pass) else pret (MkAuth true None) in
       if negb (auth_ok auth) then
         goto (unlock_screen Login (default "wrong username or passphrase" (auth_error auth)))
       else
         let* res := asking (QUnlock user pass) in
         match res with
         | Controller.UnlockFailed error => goto (unlock_screen Login error)
         | Controller.Unlocked _ => open_session user pass
         end)).

(** ** Registration *)
Definition give_up_registration (user error : string) : prog unit :=
  do* asking (QDiscard user) in goto (unlock_screen Register error).

Definition registered (user : string) : prog unit :=
  Upd (set_user (Auth.trim user))
    (do* asking QSyncAndPublish in
     let* secret := asking QRecoverySecret in
     match secret with
     | Some secret => goto (VRecovery secret)
     | None => let* contact := openPendingContact in if contact then pret tt else openBuddies None
     end).

Definition doRegisterInner (user pass : string) : prog unit :=
  let* res := asking (QUnlock user pass) in
  match res with
  | Controller.UnlockFailed error => goto (unlock_screen Register error)
  | Controller.Unlocked _ =>
      Start Persist
        (do* asking QEnsureSeed in
         let* selfContact := asking QConnect in
         Upd (set_key (key_or EmptyString selfContact))
           (Look (fun s =>
              if negb (has_account s) then registered user
              else if bool_decide (currentDeviceKey s = EmptyString) then
                give_up_registration user "could not reach the account server"
              else
                let* reg := asking (QRegister user pass (currentDeviceKey s)) in
                if negb (reg_ok reg) then
                  give_up_registration user (default "could not create the account" (reg_error reg))
                else registered user)))
  end.

Definition doRegister (user pass pass2 : string) : prog unit :=
  if negb (bool_decide (pass = pass2)) then goto (unlock_screen Register "the passphrases do not match")
  else
    Look (fun s =>
      if registerInFlight s then pret tt
      else
        Upd (set_registering true)
          (pbind (doRegisterInner user pass) (fun r => Upd (set_registering false) (Done r)))).

(** ** Adding this device to an account *)
Definition ENROLL_RETRY_COPY : string :=
  "This device is authorized but could not be registered with the account server. Check your connection and try again.".
Definition RECOVERY_ENROLL_RETRY_COPY : string :=
  "Recovery succeeded but this device could not be registered with the account server. Check your connection and try again.".
Definition POST_JOIN_QUIET_MS : Z := 120000.

Definition retryWizardConnect : prog unit :=
  let* selfContact := asking QConnect in
  Upd (fun s => set_key (key_or (currentDeviceKey s) selfContact) s) (goto (VWizard (bool_decide (is_Some selfContact)))).

Definition publish_and_finish : prog unit :=
  let* published := asking QPublishOwn in
  if negb published then goto (VProvisioning (Some ENROLL_RETRY_COPY))
  else Upd (fun s => set_quiet (clock s + POST_JOIN_QUIET_MS) s) (goto (VProvisioning None)).

Definition finishWizardEnrollment : prog unit :=
  Look (fun s =>
    match pendingWizardEnroll s with
    | Some (user, secret) =>
        if bool_decide (user = currentUsername s) then
          let* enroll := verified secret in
          match enroll with
          | RevokedDevice => wipeLocalAndReload Login (Some REVOKED_COPY)
          | Unknown => goto (VProvisioning (Some ENROLL_RETRY_COPY))
          | Clear _ => Upd (set_stash None) publish_and_finish
          end
        else Upd (set_stash None) publish_and_finish
    | None => Upd (set_stash None) publish_and_finish
    end).

(** The rest of a recovery, once this device holds the account's seed and is enrolled. *)
Definition recovered : prog unit :=
  do* asking QSyncAndPublish in
  Upd (set_joining false)
    (let* contact := openPendingContact in if contact then pret tt else openBuddies None).

Definition recover (secret : string) : prog unit :=
  let* epoch := asking QEpoch in
  let* res := asking (QRecover secret epoch) in
  if negb (auth_ok res) then
    goto (VRecoverEntry (Some (default "could not recover with that secret" (auth_error res))))
  else
    Look (fun s =>
      match pendingWizardEnroll s with
      | Some (_, authSecret) =>
          let* enroll := verified authSecret in
          match enroll with
          | RevokedDevice => wipeLocalAndReload Login (Some REVOKED_COPY)
          | Unknown => goto (VRecoverEntry (Some RECOVERY_ENROLL_RETRY_COPY))
          | Clear _ => Upd (set_stash None) recovered
          end
      | None => recovered
      end).

(** On the text of the field. *)
Definition submitRecovery (input : string) : prog unit :=
  let secret := Auth.trim input in
  if bool_decide (secret = EmptyString) then pret tt
  else pbind (recover secret) (fun r =>
    match r with Ok _ => pret tt | Throw e => goto (VRecoverEntry (Some (message e))) end).

(** ** The link again: what [reconnectNow] does after the dial (Reconnect.v) *)
Definition reconnectNow : prog unit :=
  let* selfContact := asking QConnect in
  match selfContact with
  | None => pret tt
  | Some c =>
      Upd (fun s => set_key (default (currentDeviceKey s) (key_of_contact c)) s)
        (do* asking QSyncAndPublish in start_passes)
  end.

(** ** Starting a conversation *)
Definition openNoteToSelf : prog unit :=
  Look (fun s =>
    if link_down s then Start Toast (pret tt)
    else Ask QNoteToSelf (fun r =>
      match r with Ok t => goto (VConversation t) | Throw _ => Start Toast (pret tt) end)).

Definition devices_of (r : TakeResult) : list PeerDevice := default [] (take_devices r).
Definition other_devices (mine : string) (ds : list PeerDevice) : list PeerDevice :=
  List.filter (fun d => negb (bool_decide (peer_deviceKey d = mine))) ds.
Definition to_target (d : PeerDevice) : target := (peer_deviceKey d, keyPackage d).

(** The devices that an answer names, when it can be used. *)
Definition reachable (r : TakeResult) : option (list PeerDevice) :=
  match take_ok r, take_devices r with true, Some (d :: ds) => Some (d :: ds) | _, _ => None end.

Definition with_line (line : option string) (t : Transmit) : Transmit :=
  match line with Some l => MkTransmit (t_id t) (t_selfNote t) (t_log t ++ [l]) | None => t end.

Definition tag_all (id : option string) (users : list string) (k : prog unit) : prog unit :=
  match id with Some id => foldr (fun u k => Start (TagHandle id u) k) k users | None => k end.

(** [onError] is the screen the request came from. *)
Definition beginConversationWith (username : string) (onError : string -> View) : prog unit :=
  Look (fun s =>
    if negb (bool_decide (currentUsername s = EmptyString)) &&
       bool_decide (Auth.normalizeUsername username = Auth.normalizeUsername (currentUsername s)) then openNoteToSelf
    else if negb (has_account s) || bool_decide (username = EmptyString) then
      goto (onError "enter a username to start a conversation")
    else
      let* peer := asking (QTake username) in
      match reachable peer with
      | None => goto (onError (default "no user by that name" (take_error peer)))
      | Some ds =>
          Look (fun s =>
            let* own := asking (QTake (currentUsername s)) in
            Look (fun s =>
              let ownSiblings := other_devices (currentDeviceKey s) (devices_of own) in
              match other_devices (currentDeviceKey s) ds with
              | [] => openNoteToSelf
              | peerTargets =>
                  pbind
                    (let* away := asking (QLookupAway username) in
                     let* base := asking (QStartConversation (to_target <$> peerTargets ++ ownSiblings)) in
                     tag_all (t_id base) [username]
                       (goto (VConversation (with_line
                         ((fun a => "» " +:+ username +:+ " is away: " +:+ a) <$> away) base))))
                    (fun r => match r with Ok _ => pret tt | Throw _ => goto (onError "could not open that channel") end)
              end))
      end).

Definition startConversation (input : string) : prog unit :=
  Look (fun s =>
    if negb (has_account s) then goto (VKeyExchange input (Some "enter a username to start a conversation"))
    else
      let username := Auth.trim input in
      if bool_decide (username = EmptyString) then pret tt
      else beginConversationWith username (fun msg => VKeyExchange username (Some msg))).

(** [Promise.all]: all are asked, the first rejection is the answer. *)
Fixpoint take_all (users : list string) : prog (list TakeResult) :=
  match users with
  | [] => pret []
  | u :: users =>
      Ask (QTake u) (fun r =>
        pbind (take_all users) (fun rs =>
          match r, rs with
          | Ok r, Ok rs => pret (r :: rs)
          | Throw e, _ => Done (Throw e)
          | Ok _, Throw e => Done (Throw e)
          end))
  end.

(** The first answer that cannot be used, with its name. *)
Fixpoint unreachable (users : list string) (rs : list TakeResult) : option string :=
  match users, rs with
  | u :: users, r :: rs =>
      match reachable r with
      | None => Some (default ("no user by that name: " +:+ u) (take_error r))
      | Some _ => unreachable users rs
      end
  | _, _ => None
  end.

Fixpoint dedupe (seen : list string) (ds : list PeerDevice) : list PeerDevice :=
  match ds with
  | [] => []
  | d :: ds =>
      if bool_decide (peer_deviceKey d ∈ seen) then dedupe seen ds else d :: dedupe (peer_deviceKey d :: seen) ds
  end.

Definition group_targets (mine : string) (rs : list TakeResult) (own : TakeResult) : list target :=
  to_target <$> dedupe [] (other_devices mine (mjoin (devices_of <$> rs) ++ other_devices mine (devices_of own))).

Definition beginGroupConversationWith (usernames : list string) (onError : string -> View) : prog unit :=
  Look (fun s =>
    if negb (has_account s) || bool_decide (usernames = []) then goto (onError "pick at least one buddy")
    else
      match List.filter (fun u => negb (bool_decide (Auth.normalizeUsername u = Auth.normalizeUsername (currentUsername s)))) usernames with
      | [] => openNoteToSelf
      | peers =>
          let* peerLists := take_all peers in
          match unreachable peers peerLists with
          | Some e => goto (onError e)
          | None =>
              Look (fun s =>
                let* own := asking (QTake (currentUsername s)) in
                Look (fun s =>
                  pbind
                    (let* base := asking (QStartConversation (group_targets (currentDeviceKey s) peerLists own)) in
                     tag_all (t_id base) peers (goto (VConversation base)))
                    (fun r => match r with Ok _ => pret tt | Throw _ => goto (onError "could not open that group") end)))
          end
      end).
End sign_in.
End SignIn.
