(* ===== verification/SignInFacts.v ===== *)
(** * Sessions begin and end as they should

    Login gets past the unlock screen only with the account server's word for this device; one
    registration at a time; a wipe always reloads; an account is deleted in the stated order; the devices
    of a group conversation are distinct.  And three runs in which a network failure does harm. *)

From S2P Require Import Prelude Json Auth RichText IdentityCard Controller ControllerFacts Program TabSession SignIn.
Import Program TabSession SignIn.

Module SignInFacts.
Local Open Scope Z_scope.

Section facts.
Context `{JsonText} (message : exn -> string).

(** ** Login is fail-closed *)

(** Events of a page that has let the user in. *)
Definition beyond (x : event) : bool :=
  match x with
  | Asked (QSyncAndPublish | QPresence | QNotify | QGetIdentity | QSetIdentity _ | QSetAway _ | QClearAway
           | QListChannels | QOpenChannel _ | QStartKeyExchange | QLoadBuddies) => true
  | Started (Removals | Siblings | SelfGroup | AwayBeat | PresenceBeat | NotifyPermission | BuddyWatch) => true
  | _ => false
  end.
Definition let_in (l : list event) : bool := existsb beyond l.

Section keys.
(** The keys that the worker names when it connects: the device's own. *)
Context (D : string -> Prop).

(** What the other activities of the page may change during a login: everything but whether there is an
    account server, and the device key only to one the worker names, as [reconnectNow] does. *)
Definition steady_page (s s' : App) : Prop :=
  has_account s' = has_account s /\ (currentDeviceKey s' <> currentDeviceKey s -> D (currentDeviceKey s')).
#[local] Instance steady_page_preorder : PreOrder steady_page.
Proof.
  split; [done|]. intros x y z [H1 H2] [H3 H4]. split; [congruence|]. intros Hn.
  destruct (decide (currentDeviceKey z = currentDeviceKey y)) as [E|E]; [rewrite E in Hn |- *|]; auto.
Qed.

Definition names_own_keys (e : Env ans App) : Prop :=
  forall c k, given e QConnect (Ok (Some c)) -> key_of_contact c = Some k -> D k.

(** The account server's word for this device. *)
Definition cleared (e : Env ans App) : Prop :=
  (exists secret key er, D key /\ given e (QEnroll secret key) (Ok er) /\ enr_ok er = true) /\
  exists key res ds own, D key /\ given e QList (Ok res) /\ dl_ok res = true /\ dl_devices res = Some ds /\
    own_row key ds = Some own /\ revoked own = false.

Definition vouched (e : Env ans App) (user pass : string) : Prop :=
  (exists a, given e (QLogin user pass) (Ok a) /\ auth_ok a = true) /\
  (exists c, given e (QUnlock user pass) (Ok (Controller.Unlocked c))) /\
  given e QAuthState (Ok true) /\ cleared e.

(** The key of the page, once it has one, is one of them. *)
Definition own_key (s : App) : Prop := currentDeviceKey s = EmptyString \/ D (currentDeviceKey s).
Lemma own_key_steady s s' : steady_page s s' -> own_key s -> own_key s'.
Proof.
  unfold own_key. intros [_ Hk]. destruct (decide (currentDeviceKey s' = currentDeviceKey s)) as [->|]; auto.
Qed.

Lemma judge_clear key ds n : judge_devices key ds = Clear n -> exists own, own_row key ds = Some own /\ revoked own = false.
Proof.
  unfold judge_devices. destruct (own_row key ds) as [own|]; [|done]. destruct (revoked own) eqn:E; [done|].
  intros _. by exists own.
Qed.

Lemma let_in_snoc l x : let_in (l ++ [x]) = let_in l || beyond x.
Proof. unfold let_in. rewrite existsb_app. cbn [existsb]. by rewrite orb_false_r. Qed.

Lemma let_in_quiet l x : beyond x = false -> let_in (l ++ [x]) = let_in l.
Proof. intros Hx. by rewrite let_in_snoc, Hx, orb_false_r. Qed.

Lemma must_verified e secret l s :
  has_account s = true -> own_key s ->
  must steady_page (given e) (verified secret) l s (fun r s' l' =>
    steady_page s s' /\ let_in l' = let_in l /\ match r with Ok (Clear _) => cleared e | _ => True end).
Proof.
  intros Ha Hown. unfold verified. apply must_pbind. unfold enrollAndNotice. cbn [must]. rewrite Ha. cbn [negb].
  case_bool_decide as Hne; [by cbn|]. destruct Hown as [Hown|Hown]; [done|]. apply must_pseq. cbn [must asking]. intros [er|x] s1 He R1.
  2: { cbn [must pret]. rewrite let_in_quiet by done. done. }
  destruct (enr_ok er) eqn:Hok; cbn [negb].
  2: { cbn [must pret]. rewrite let_in_quiet by done. split; [done|]. split; [done|]. by destruct (bool_decide _). }
  apply must_pseq. cbn [must asking]. intros [res|x] s2 Hl R2.
  2: { cbn [must pret]. rewrite !let_in_quiet by done. split; [by trans s1|done]. }
  assert (Hunk : steady_page s s2 /\ let_in ((l ++ [Asked (QEnroll secret (currentDeviceKey s))]) ++ [Asked QList]) = let_in l).
  { rewrite !let_in_quiet by done. split; [by trans s1|done]. }
  destruct Hunk as [R3 Hin].
  destruct (dl_ok res) eqn:Hd; [|by cbn]. destruct (dl_devices res) as [ds|] eqn:Hds; [|by cbn]. cbn [must pret].
  split; [done|]. split; [done|].
  destruct (judge_devices (currentDeviceKey s2) ds) as [nt| |] eqn:Hj; [|done|done].
  apply judge_clear in Hj as (own & Ho & Hr). split; [by exists secret, (currentDeviceKey s), er|].
  exists (currentDeviceKey s2), res, ds, own. split_and!; try done. destruct R3 as [_ Hk].
  destruct (decide (currentDeviceKey s2 = currentDeviceKey s)) as [->|]; auto.
Qed.

(** The landing keeps the page's account and key. *)
Lemma goto_keeps v : keeps steady_page (goto v).
Proof. unfold goto, go_view. keep. Qed.

Lemma openBuddies_keeps m : keeps steady_page (openBuddies m).
Proof. unfold openBuddies. keep; apply goto_keeps. Qed.

Lemma away_keeps p : keeps steady_page (applyServerAway p).
Proof. unfold applyServerAway, startAwayBeat, stopAwayBeat. keep. Qed.

Lemma contact_keeps : keeps steady_page openPendingContact.
Proof. unfold openPendingContact, goto. keep. Qed.

Lemma welcome_keeps nt : keeps steady_page (welcome nt).
Proof.
  unfold welcome, start_passes, restoreServerAway, startPresenceBeat, sign_on, land.
  keep; auto using away_keeps, contact_keeps, openBuddies_keeps.
  all: try apply goto_keeps.
Qed.

(** Every program asks what passes the test that everything passes. *)
Lemma only_all {A} (p : prog A) : only (fun _ => true) p.
Proof. induction p as [r|q k IH|k IH|g p IH|c p IH]; cbn [only]; auto. Qed.

Definition fail_closed (e : Env ans App) (user pass : string) (_ : result unit) (s : App) (l : list event) : Prop :=
  let_in l = true -> vouched e user pass.

Lemma closed_out e user pass r s l : let_in l = false -> fail_closed e user pass r s l.
Proof. intros Hl Ht. congruence. Qed.

Lemma must_wipe e m notice l s user pass :
  let_in l = false -> must steady_page (given e) (wipeLocalAndReload m notice) l s (fail_closed e user pass).
Proof.
  intros Hl. unfold wipeLocalAndReload. apply must_pbind. cbn [must].
  assert (Hrest : forall r s1 l1, let_in l1 = false ->
    must steady_page (given e) (Look (fun s2 =>
      let p := Upd (fun s3 =>
            let t := setBootMode m (clearResume (tab s3)) in
            let t := match notice with Some n => setBootNotice n t | None => t end in
            set_key EmptyString (set_user EmptyString (set_stash None (set_tab t s3))))
            (Start Reload (Done r)) in
      if has_account s2 then Start ClearSession p else p)) l1 s1 (fail_closed e user pass)).
  { intros r s1 l1 H1. cbn [must]. destruct (has_account s1); cbn [must]; apply closed_out;
      by rewrite ?let_in_quiet. }
  destruct (bool_decide _); cbn [must asking pret]; [by apply Hrest|]. intros r s1 _ _. apply Hrest.
  by rewrite let_in_quiet.
Qed.

Lemma must_check e user pass secret c l s :
  has_account s = true -> own_key s -> let_in l = false ->
  (exists a, given e (QLogin user pass) (Ok a) /\ auth_ok a = true) ->
  (exists c, given e (QUnlock user pass) (Ok (Controller.Unlocked c))) ->
  must steady_page (given e) (check_device user secret c) l s (fail_closed e user pass).
Proof.
  intros Ha Hown Hl Hlogin Hunlock. unfold check_device. cbn [must]. rewrite Ha. apply must_pseq.
  cbn [must asking]. intros [ok|x] s1 Hst R1.
  2: { apply closed_out. by rewrite let_in_quiet. }
  destruct ok; cbn [negb]; [|by cbn; apply closed_out; rewrite let_in_quiet].
  cbn [must]. pose proof (own_key_steady _ _ R1 Hown) as Hown1. destruct R1 as [R1 _]. rewrite R1, Ha. apply must_pseq.
  eapply must_weaken; [|apply must_verified; [congruence | done]].
  intros [st|x] s2 l2 ([H1 H1'] & H2 & H3); rewrite let_in_quiet, Hl in H2 by done; [|by apply closed_out].
  destruct st as [nt| |].
  - eapply must_weaken; [|apply (must_quiet _ _ (fun _ => true)); [apply _|apply only_all|apply welcome_keeps]].
    intros r s3 l3 _ _. done.
  - by apply must_wipe.
  - by apply closed_out.
Qed.

(** C16. Login is fail-closed.  Let [D] be the keys that the worker names when it connects (in practice the
    one key of this device).  Whatever the server and the worker answer or throw, and whatever else on the
    page runs at every await (a reconnection may set the page's device key anew to one of [D]; there
    stays an account server), a login lets the user in (publishes, starts a pass or a beat, reads
    the channels or the buddy list) only after the account server accepted these credentials, the vault
    opened under them, the worker found the device authorized, the server enrolled a key of [D], and its
    list shows a key of [D] as not revoked. *)
Theorem login_is_fail_closed e user pass n s :
  (forall n s, steady_page s (others e n s)) -> names_own_keys e -> has_account s = true ->
  let '(_, _, l) := go e (doLogin user pass) n s in
  let_in l = true -> vouched e user pass.
Proof.
  intros He Hn Ha.
  assert (Hm : must steady_page (given e) (doLogin user pass) [] s (fail_closed e user pass)).
  { unfold doLogin. cbn [must]. change (has_account (set_stash None (set_joining false s))) with (has_account s).
    rewrite Ha. apply must_pseq. cbn [must asking]. intros [a|x] s1 Hlogin [R1 _]; [|by apply closed_out].
    destruct (auth_ok a) eqn:Hok; cbn [negb]; [|by apply closed_out]. apply must_pseq. cbn [must asking].
    intros [[err|c]|x] s2 Hunlock [R2 _]; [by apply closed_out| |by apply closed_out].
    unfold open_session. cbn [must]. apply must_pseq. cbn [must asking]. intros [ap|x] s3 _ [R3 _]; [|by apply closed_out].
    cbn [must]. apply must_pseq. cbn [must asking]. intros [sc|x] s4 Hsc [R4 _]; [|by apply closed_out].
    cbn [must]. cbn in R1, R2, R3, R4.
    match goal with |- context [has_account ?x] =>
      assert (H4 : has_account x = true) by (cbn; congruence); assert (K4 : own_key x) end.
    { unfold own_key. cbn. destruct sc as [sc|]; [|by left]. cbn. destruct (key_of_contact sc) as [k|] eqn:Ek; [|by left].
      right. by eapply Hn. }
    rewrite H4. apply must_pseq. cbn [must asking]. intros [secret|x] s5 _ R5; [|by apply closed_out].
    apply must_check; [destruct R5; congruence|by eapply own_key_steady|done|by exists a|by exists c]. }
  pose proof (must_go _ _ e _ n s [] _ He (fun n q => ex_intro _ n eq_refl) Hm) as H0.
  by destruct (go e (doLogin user pass) n s) as [[r s'] l].
Qed.

(** A login on a device that the worker finds unauthorized enrolls nothing: an abandoned attempt leaves no
    row at the server. *)
Definition is_enroll (x : event) : bool := match x with Asked (QEnroll _ _) => true | _ => false end.

Lemma unauthorized_login_enrolls_nothing e user pass n s :
  (forall n s, steady_page s (others e n s)) -> has_account s = true ->
  (forall n, answers e n QAuthState <> Ok true) ->
  let '(_, s', l) := go e (doLogin user pass) n s in existsb is_enroll l = false.
Proof.
  intros He Ha Hun. set (post := fun (_ : result unit) (_ : App) (l : list event) => existsb is_enroll l = false).
  assert (Hsnoc : forall l x, existsb is_enroll l = false -> is_enroll x = false -> existsb is_enroll (l ++ [x]) = false).
  { intros l x Hl Hx. rewrite existsb_app, Hl. cbn. by rewrite Hx. }
  assert (Hm : must steady_page (given e) (doLogin user pass) [] s post).
  { unfold doLogin. cbn [must]. change (has_account (set_stash None (set_joining false s))) with (has_account s).
    rewrite Ha. apply must_pseq. cbn [must asking]. intros [a|x] s1 _ [R1 _]; [|done].
    destruct (auth_ok a); cbn [negb]; [|done]. apply must_pseq. cbn [must asking].
    intros [[err|c]|x] s2 _ [R2 _]; [done| |done]. unfold open_session. cbn [must]. apply must_pseq.
    cbn [must asking]. intros [ap|x] s3 _ [R3 _]; [|done]. cbn [must]. apply must_pseq. cbn [must asking].
    intros [sc|x] s4 _ [R4 _]; [|done]. cbn [must]. cbn in R1, R2, R3, R4.
    match goal with |- context [has_account ?x] => assert (H4 : has_account x = true) by (cbn; congruence) end.
    rewrite H4. apply must_pseq. cbn [must asking]. intros [secret|x] s5 _ [R5 _]; [|done].
    unfold check_device. cbn [must]. assert (H5 : has_account s5 = true) by congruence. rewrite H5.
    apply must_pseq. cbn [must asking]. intros [[]|x] s6 [m Hm] _; [by destruct (Hun m)|done|done]. }
  pose proof (must_go _ _ e _ n s [] _ He (fun n q => ex_intro _ n eq_refl) Hm) as H0.
  by destruct (go e (doLogin user pass) n s) as [[r s'] l].
Qed.

End keys.

(** ** One registration at a time *)

(** One registration at a time: while one runs, every other one returns without asking anything or
    changing the page; the latch is set whenever a registration waits, and free again when it ends, also
    when a question is rejected. *)
Theorem one_registration_at_a_time user pass :
  (forall e n s, registerInFlight s = true -> go e (doRegister user pass pass) n s = (Ok tt, s, [])) /\
  (forall e n s, (forall n s, registerInFlight (others e n s) = registerInFlight s) ->
     registerInFlight s = false ->
     registerInFlight (go e (doRegister user pass pass) n s).1.2 = false /\
     Forall (fun s' => registerInFlight s' = true) (waits e (doRegister user pass pass) n s)).
Proof.
  assert (Hk : keeps (same registerInFlight) (doRegisterInner user pass)).
  { unfold doRegisterInner, registered, give_up_registration, openPendingContact, openBuddies.
    keep; try done; by (unfold goto, go_view; keep). }
  split.
  - intros e n s Hs. unfold doRegister. rewrite bool_decide_true by done. cbn [negb go]. by rewrite Hs.
  - intros e n s He Hs. unfold doRegister. rewrite bool_decide_true by done. cbn [negb go waits]. rewrite Hs.
    cbn [go waits]. rewrite waits_pbind, go_pbind.
    pose proof (keeps_waits (same registerInFlight) e _ n (set_registering true s) He Hk) as Hw.
    destruct (go e (doRegisterInner user pass) n (set_registering true s)) as [[r s1] l1].
    cbn [go waits]. split; [done|]. by rewrite app_nil_r.
Qed.

(** Run a program of known answers as far as it goes. *)
Ltac run_on := cbn [pseq pbind asking go answers others steady].

(** A registration up to the question of the account server. *)
Lemma registration_asks (f : forall q, result (ans q)) c contact key user pass s :
  has_account s = true -> registerInFlight s = false ->
  f (QUnlock user pass) = Ok (Controller.Unlocked c) -> f QEnsureSeed = Ok tt -> f QConnect = Ok (Some contact) ->
  key_of_contact contact = Some key -> key <> EmptyString ->
  go (steady f) (doRegister user pass pass) 0 s =
  let '(r, s', l) := go (steady f) (pbind
    (let* reg := asking (QRegister user pass key) in
     if negb (reg_ok reg) then
       give_up_registration user (default "could not create the account" (reg_error reg))
     else registered user)
    (fun r => Upd (set_registering false) (Done r))) 3 (set_key key (set_registering true s)) in
  (r, s', [Asked (QUnlock user pass); Started Persist; Asked QEnsureSeed; Asked QConnect] ++ l).
Proof.
  intros Ha Hr Hu Hs Hc Hk Hne. unfold doRegister. rewrite bool_decide_true by done. cbn [negb go]. rewrite Hr.
  unfold doRegisterInner. run_on. rewrite Hu. run_on. rewrite Hs. run_on. rewrite Hc. run_on. unfold key_or. rewrite Hk.
  change (default EmptyString (Some key)) with key. change (has_account (set_key key (set_registering true s))) with (has_account s).
  rewrite Ha. cbn [negb]. change (currentDeviceKey (set_key key (set_registering true s))) with key.
  rewrite bool_decide_false by done. unfold pseq, asking. cbn [pbind].
  run_on. by destruct (go _ _ _ _) as [[r s'] l].
Qed.

(** C18. An account can outlive its only keys.  The answer to a registration is lost: the page stays where it
    is, and the vault is kept.  The user tries again; the server, which has the account, says that the name
    is taken, and the page erases the vault that holds the keys of that account. *)
Theorem lost_answer_erases_the_account (f f' : forall q, result (ans q)) c c' contact key user pass s x reg :
  has_account s = true -> registerInFlight s = false ->
  f (QUnlock user pass) = Ok (Controller.Unlocked c) -> f QEnsureSeed = Ok tt -> f QConnect = Ok (Some contact) ->
  key_of_contact contact = Some key -> key <> EmptyString -> f (QRegister user pass key) = Throw x ->
  f' (QUnlock user pass) = Ok (Controller.Unlocked c') -> f' QEnsureSeed = Ok tt -> f' QConnect = Ok (Some contact) ->
  f' (QRegister user pass key) = Ok reg -> reg_ok reg = false ->
  let '(r1, s1, l1) := go (steady f) (doRegister user pass pass) 0 s in
  let '(r2, s2, l2) := go (steady f') (doRegister user pass pass) 0 s1 in
  r1 = Throw x /\ view s1 = view s /\ (forall u, Asked (QDiscard u) ∉ l1) /\ Asked (QDiscard user) ∈ l2.
Proof.
  intros Ha Hr Hu Hs Hc Hk Hne Hx Hu' Hs' Hc' Hx' Hok.
  rewrite (registration_asks f c contact key user pass s) by done.
  run_on. rewrite Hx. run_on. cbn [app].
  set (s1 := set_registering false _). rewrite (registration_asks f' c' contact key user pass s1) by done.
  run_on. rewrite Hx'. run_on. rewrite Hok. cbn [negb].
  unfold give_up_registration, pseq, asking. cbn [pbind go]. destruct (go _ _ _ _) as [[r s2] l]. cbn [app].
  split_and!; [done|done| |].
  - intros u Hin. apply list_elem_of_In in Hin. by repeat (destruct Hin as [Hin|Hin]; [done|]).
  - do 5 apply list_elem_of_further. left.
Qed.

(** ** Ending a session *)

(** A wipe always ends in the reload: whether the erasure of the vault succeeds, fails or is not needed,
    the page forgets the user, the device and the pending enrollment, drops the session of the account
    server, and the tab forgets what to resume; the next start shows the chosen screen and notice. *)
Theorem wipe_always_reloads e b notice n s :
  let '(r, s', l) := go e (wipeLocalAndReload b notice) n s in
  last l = Some (Started Reload) /\ currentUsername s' = EmptyString /\ currentDeviceKey s' = EmptyString /\
  pendingWizardEnroll s' = None /\ (has_account s' = true -> Started ClearSession ∈ l) /\
  exists t, tab s' = match notice with Some m => setBootNotice m t | None => t end /\
    exists t0, t = setBootMode b (clearResume t0).
Proof.
  unfold wipeLocalAndReload. rewrite go_pbind.
  set (p := Look _). destruct (go e p n s) as [[r s1] l1]. cbn [go]. destruct (has_account s1) eqn:Ha; cbn [go].
  - split_and!; [by rewrite last_app|done..| |by eexists; split; [|by eexists]].
    intros _. apply elem_of_app. right. left.
  - split_and!; [by rewrite last_app|done..| |by eexists; split; [|by eexists]]. cbn. intros H'. congruence.
Qed.

(** Where an erasure may be in the run of a self destruct. *)
Definition is_discard (x : event) : bool := match x with Asked (QDiscard _) => true | _ => false end.
Definition is_delete (x : event) : bool := match x with Asked QDeleteAccount => true | _ => false end.

Lemma existsb_snoc {A} (P : A -> bool) l x : P x = false -> existsb P (l ++ [x]) = existsb P l.
Proof. intros Hx. rewrite existsb_app. cbn. by rewrite Hx, !orb_false_r. Qed.

Definition destroyed (e : Env ans App) (user pass1 pass2 : string) (l : list event) : Prop :=
  (existsb is_delete l = true -> pass1 = pass2 /\ pass1 <> EmptyString /\ given e (QVerifyPassphrase user pass1) (Ok true)) /\
  (existsb is_discard l = true ->
     existsb is_delete l = true /\ exists a, given e QDeleteAccount (Ok a) /\ auth_ok a = true).

(** C17. Self destruct is in order: the account is deleted at the server only when the two passphrases agree,
    are not empty and open the vault; and this device's vault is erased only after the server has confirmed
    the deletion, so that a failure leaves the account usable. *)
Theorem self_destruct_in_order e pass1 pass2 n s :
  let '(_, s', l) := go e (doSelfDestruct pass1 pass2) n s in destroyed e (currentUsername s) pass1 pass2 l.
Proof.
  set (post := fun (_ : result unit) (_ : App) (l : list event) => destroyed e (currentUsername s) pass1 pass2 l).
  assert (Hm : must (fun _ _ => True) (given e) (doSelfDestruct pass1 pass2) [] s post).
  { unfold doSelfDestruct, goto. cbn [must]. destruct (has_account s); cbn [negb must]; [|by split].
    destruct (bool_decide (pass1 = EmptyString) || bool_decide (pass2 = EmptyString)) eqn:Hne; [by split|].
    apply orb_false_iff in Hne as [Hne%bool_decide_eq_false _].
    destruct (bool_decide (pass1 = pass2)) eqn:Heq; cbn [negb]; [|by split]. apply bool_decide_eq_true in Heq.
    apply must_pseq. cbn [must asking]. intros [[]|x] s1 Hv _; cbn [negb must]; [|by split..].
    apply must_pseq. cbn [must asking]. intros [a|x] s2 Hd _; [|by split].
    destruct (auth_ok a) eqn:Ha; cbn [negb]; [|by split].
    assert (Hdel : forall l, existsb is_delete l = true -> destroyed e (currentUsername s) pass1 pass2 l).
    { intros l Hl. split; [done|]. intros _. split; [done|]. by exists a. }
    assert (Hrest : forall m notice l s, existsb is_delete l = true ->
      must (fun _ _ => True) (given e) (wipeLocalAndReload m notice) l s post).
    { intros m notice l s0 Hl. eapply must_weaken; [|apply (must_quiet _ _ (fun _ => true));
        [by split|apply only_all|unfold wipeLocalAndReload; by keep]].
      intros r s3 l3 (_ & l4 & -> & _). apply Hdel. by rewrite existsb_app, Hl. }
    by apply Hrest. }
  pose proof (must_go _ _ e _ n s [] _ (fun _ _ => I) (fun n q => ex_intro _ n eq_refl) Hm) as H0.
  by destruct (go e (doSelfDestruct pass1 pass2) n s) as [[r s'] l].
Qed.

(** ** A device that could not be verified *)
Record Unverified (f : forall q, result (ans q)) (user pass : string) (s : App) : Prop := {
  unv_account : has_account s = true;
  unv_user : Auth.trim user <> EmptyString;
  unv_login : exists a, f (QLogin user pass) = Ok a /\ auth_ok a = true;
  unv_unlock : exists c, f (QUnlock user pass) = Ok (Controller.Unlocked c);
  unv_look : exists j, f QGetAppearance = Ok j;
  unv_link : exists c key, f QConnect = Ok (Some c) /\ key_of_contact c = Some key /\ key <> EmptyString /\
    exists secret, f (QAuthSecret user pass) = Ok secret /\ exists x, f (QEnroll secret key) = Throw x;
  unv_state : f QAuthState = Ok true;
  unv_sync : f QSyncAndPublish = Ok tt }.

Definition gives_up (x : event) : bool :=
  match x with Started Disarm | Asked (QDiscard _) => true | _ => false end.

Lemma unverified_login (f : forall q, result (ans q)) user pass s :
  Unverified f user pass s ->
  must eq (given (steady f : Env ans App)) (doLogin user pass) [] s (fun r s' l =>
    r = Ok tt /\ is_unlock (view s') = true /\ currentUsername s' = Auth.trim user /\ existsb gives_up l = false).
Proof.
  intros [Ha Hu (a & Hl & Hok) (c & Hun) (j & Hj) (ct & key & Hc & Hk & Hne & sec & Hsec & x & Hx) Hst _].
  unfold doLogin. cbn [must]. change (has_account (set_stash None (set_joining false s))) with (has_account s).
  rewrite Ha. apply must_pseq. cbn [must asking]. intros r s1 [m <-] <-. cbn [answers steady]. rewrite Hl, Hok.
  cbn [negb]. apply must_pseq. cbn [must asking]. intros r s1 [m' <-] <-. cbn [answers steady]. rewrite Hun.
  unfold open_session. cbn [must]. apply must_pseq. cbn [must asking]. intros r s1 [m2 <-] <-. cbn [answers steady].
  rewrite Hj. cbn [must]. apply must_pseq. cbn [must asking]. intros r s1 [m3 <-] <-. cbn [answers steady].
  rewrite Hc. cbn [must]. unfold key_or. rewrite Hk. set (s1 := set_key _ _).
  assert (H1 : has_account s1 = true /\ currentDeviceKey s1 = key /\ currentUsername s1 = Auth.trim user) by done.
  clearbody s1. destruct H1 as (H1 & H2 & H3). rewrite H1. apply must_pseq. cbn [must asking].
  intros r s2 [m4 <-] <-. cbn [answers steady]. rewrite Hsec. unfold check_device. cbn [must]. rewrite H1.
  apply must_pseq. cbn [must asking]. intros r s2 [m5 <-] <-. cbn [answers steady]. rewrite Hst. cbn [negb must].
  rewrite H1. apply must_pseq. unfold verified. apply must_pbind. unfold enrollAndNotice. cbn [must]. rewrite H1.
  cbn [negb]. rewrite H2, bool_decide_false by exact Hne. apply must_pseq. cbn [must asking].
  intros r s2 [m6 <-] <-. cbn [answers steady]. rewrite Hx. cbn [must pret goto]. done.
Qed.

(** The lock of a device that cannot be verified is not a lock.  When the account server does not answer
    the enrollment, the page shows the unlock screen with an error; but the user stays signed in, the vault
    is open, and the reconnect engine is not disarmed: the next reconnect publishes this device's keys and
    starts the passes that bring it into the account's groups. *)
Theorem unverified_device_stays_connected (f : forall q, result (ans q)) user pass s :
  Unverified f user pass s ->
  let '(r, s', l) := go (steady f) (doLogin user pass) 0 s in
  r = Ok tt /\ is_unlock (view s') = true /\ currentUsername s' = Auth.trim user /\
  existsb gives_up l = false /\
  Asked QSyncAndPublish ∈ (go (steady f) reconnectNow 0 s').2 /\
  Started SelfGroup ∈ (go (steady f) reconnectNow 0 s').2.
Proof.
  intros Hu. pose proof (must_go eq _ (steady f) _ 0 s [] _ (fun _ _ => eq_refl) (fun n q => ex_intro _ n eq_refl)
    (unverified_login f user pass s Hu)) as Hm.
  destruct (go (steady f) (doLogin user pass) 0 s) as [[r s'] l]. destruct Hm as (H1 & H2 & H3 & H4).
  destruct Hu as [_ _ _ _ _ (ct & key & Hc & _) _ Hsy]. split_and!; [done|done|done|done| |];
    (unfold reconnectNow, start_passes; run_on; rewrite Hc; run_on; rewrite Hsy; run_on; cbn [pret go snd]).
  - right. left.
  - do 4 right. left.
Qed.

(** A network failure at the first question of a login is silent: the rejection leaves the login, which
    nobody waits for, and the page shows what it showed. *)
Lemma login_failure_is_silent (f : forall q, result (ans q)) user pass s x :
  has_account s = true -> f (QLogin user pass) = Throw x ->
  let '(r, s', l) := go (steady f) (doLogin user pass) 0 s in
  r = Throw x /\ view s' = view s /\ l = [Asked (QLogin user pass)].
Proof.
  intros Ha Hx. unfold doLogin. cbn [go]. change (has_account (set_stash None (set_joining false s))) with (has_account s).
  rewrite Ha. run_on. rewrite Hx. done.
Qed.

(** ** The devices of a group conversation *)
Lemma dedupe_spec seen ds :
  NoDup (peer_deviceKey <$> dedupe seen ds) /\
  (forall k, k ∈ peer_deviceKey <$> dedupe seen ds <-> k ∈ peer_deviceKey <$> ds /\ k ∉ seen).
Proof.
  revert seen. induction ds as [|d ds IH]; intros seen; cbn [dedupe fmap list_fmap].
  { split; [constructor|]. intros k. split; [by intros ?%not_elem_of_nil|by intros [?%not_elem_of_nil _]]. }
  destruct (bool_decide (peer_deviceKey d ∈ seen)) eqn:E.
  - apply bool_decide_eq_true in E. destruct (IH seen) as [H1 H2]. split; [done|]. intros k. rewrite H2, elem_of_cons.
    split; [tauto|]. intros [[->|Hk] Hs]; [done|tauto].
  - apply bool_decide_eq_false in E. destruct (IH (peer_deviceKey d :: seen)) as [H1 H2]. cbn [fmap list_fmap]. split.
    + constructor; [|done]. rewrite H2. intros [_ Hn]. apply Hn. left.
    + intros k. rewrite !elem_of_cons, H2, not_elem_of_cons. split; [intros [->|[Hk [Hne Hs]]]; tauto|].
      intros [[->|Hk] Hs]; [by left|]. destruct (decide (k = peer_deviceKey d)); tauto.
Qed.

(** A group conversation is opened with every device of the people picked and every other device of our
    own, each once, and never with this device, which is in the group already. *)
Theorem group_targets_are_distinct mine rs own :
  NoDup (group_targets mine rs own).*1 /\
  forall k, k ∈ (group_targets mine rs own).*1 <->
    k <> mine /\ (exists r, (r ∈ rs \/ r = own) /\ k ∈ peer_deviceKey <$> devices_of r).
Proof.
  unfold group_targets. rewrite <-list_fmap_compose.
  change (fst ∘ to_target) with peer_deviceKey.
  set (ds := other_devices mine _). destruct (dedupe_spec [] ds) as [H1 H2]. split; [exact H1|].
  intros k. rewrite H2. assert (Hother : forall l, k ∈ peer_deviceKey <$> other_devices mine l <->
    k <> mine /\ k ∈ peer_deviceKey <$> l).
  { intros l. unfold other_devices. rewrite !list_elem_of_fmap. split.
    - intros (d & -> & Hd). apply list_elem_of_In, filter_In in Hd as [Hd%list_elem_of_In Hn].
      apply negb_true_iff, bool_decide_eq_false in Hn. split; [done|]. by exists d.
    - intros [Hne (d & -> & Hd)]. exists d. split; [done|]. apply list_elem_of_In, filter_In.
      split; [by apply list_elem_of_In|]. by rewrite bool_decide_false. }
  unfold ds. rewrite Hother, fmap_app, elem_of_app, Hother. split.
  - intros [[Hne [Hk|[_ Hk]]] _]; (split; [done|]).
    + rewrite list_elem_of_fmap in Hk. destruct Hk as (d & -> & Hd).
      apply list_elem_of_join in Hd as (l & Hd & Hl). apply list_elem_of_fmap in Hl as (r & -> & Hr).
      exists r. split; [by left|]. apply list_elem_of_fmap. by exists d.
    + exists own. auto.
  - intros [Hne (r & [Hr| ->] & Hk)]; (split; [|by apply not_elem_of_nil]); (split; [done|]); [|auto].
    left. rewrite list_elem_of_fmap in Hk |- *. destruct Hk as (d & -> & Hd). exists d. split; [done|].
    apply list_elem_of_join. exists (devices_of r). split; [done|]. apply list_elem_of_fmap. by exists r.
Qed.
End facts.
End SignInFacts.

(** ** A world for the witnesses *)
Module SignInToy.
Import SignInFacts ControllerToy.
Local Open Scope Z_scope.

Definition row (k : string) (burned : bool) : DeviceInfo := MkDevice k k 0 0 burned false true.
Definition contact : string := "deaddrop:1:K:K".

(** A server that answers [login], [register], [enroll] and [devices], and a worker that works. *)
Definition world (login : result AuthResult) (register : result RegisterResult) (enroll : result EnrollResult)
    (devices : list DeviceInfo) (q : ask) : result (ans q) :=
  match q as q return result (ans q) with
  | QLogin _ _ => login
  | QDeleteAccount | QRecover _ _ => Ok (MkAuth true None)
  | QRegister _ _ _ => register
  | QAuthSecret _ _ => Ok "secret"
  | QEnroll _ _ => enroll
  | QList => Ok (MkDevices true (Some devices) (Some 0) None None)
  | QTake _ => Ok (MkTake true None None)
  | QUnlock _ _ => Ok (Controller.Unlocked false)
  | QVerifyPassphrase _ _ | QAuthState | QPresence | QNotify | QPublishOwn => Ok true
  | QRecoverySecret | QLookupAway _ => Ok None
  | QConnect => Ok (Some contact)
  | QGetAppearance => Ok JNull
  | QGetIdentity => Ok IdentityCard.DEFAULT_IDENTITY
  | QListChannels => Ok []
  | QOpenChannel _ | QStartConversation _ | QNoteToSelf => Ok (MkTransmit None false [])
  | QEpoch => Ok 0
  | QSetAway _ | QClearAway | QDiscard _ | QEnsureSeed | QSetIdentity _ | QStartKeyExchange
  | QLoadBuddies | QSyncAndPublish => Ok tt
  end.

Definition good : result AuthResult := Ok (MkAuth true None).
Definition new : result RegisterResult := Ok (MkRegister true None None).
Definition taken : result RegisterResult := Ok (MkRegister false (Some true) (Some "that username is already taken")).
Definition lost {A} : result A := Throw (JsError "Failed to fetch").
Definition enrolled : result EnrollResult := Ok (MkEnroll true None None None).
Definition page : App := boot true (MkTab (Some []) "") 0.
Definition healthy : Env ans App := steady (world good new enrolled [row "K" false]).

(** A reconnection sets the key anew at every await. *)
Lemma login_is_fail_closed_witness :
  vouched (fun k => k = "K") (MkEnv (answers healthy) (fun _ s => set_key "K" s)) "al" "pw".
Proof.
  set (e := MkEnv (answers healthy) (fun _ s => set_key "K" s)).
  pose proof (login_is_fail_closed (fun k => k = "K") e "al" "pw" 0 page
    (fun _ _ => conj eq_refl (fun _ => eq_refl))
    ltac:(intros c k [n Hc] Hk; cbn in Hc; injection Hc as <-; vm_compute in Hk; injection Hk as <-; reflexivity) eq_refl) as H.
  assert (E : (let '(_, _, l) := go e (doLogin "al" "pw") 0 page in let_in l) = true) by (by vm_compute).
  destruct (go e (doLogin "al" "pw") 0 page) as [[r s'] l]. by apply H.
Defined.

Lemma unauthorized_login_enrolls_nothing_witness :
  let e := MkEnv (fun _ q => match q as q return result (ans q) with QAuthState => Ok false | q => answers healthy 0 q end)
             (fun _ s => s) in
  let '(_, s', l) := go e (doLogin "al" "pw") 0 page in existsb is_enroll l = false.
Proof.
  intros e. apply (unauthorized_login_enrolls_nothing (fun _ => False) e "al" "pw" 0 page); [done|done|by intros].
Defined.

Lemma lost_answer_erases_the_account_witness :
  let '(r1, s1, l1) := go (steady (world good lost enrolled [])) (doRegister "al" "pw" "pw") 0 page in
  let '(r2, s2, l2) := go (steady (world good taken enrolled [])) (doRegister "al" "pw" "pw") 0 s1 in
  r1 = lost /\ view s1 = view page /\ (forall u, Asked (QDiscard u) ∉ l1) /\ Asked (QDiscard "al") ∈ l2.
Proof.
  apply (lost_answer_erases_the_account (world good lost enrolled []) (world good taken enrolled []) false false
    contact "K" "al" "pw" page (JsError "Failed to fetch") (MkRegister false (Some true) (Some "that username is already taken")));
    by vm_compute.
Defined.

Lemma unverified_device_stays_connected_witness :
  let '(r, s', l) := go (steady (world good new lost [])) (doLogin "al" "pw") 0 page in
  r = Ok tt /\ is_unlock (view s') = true /\ currentUsername s' = "al" /\ existsb gives_up l = false /\
  Asked QSyncAndPublish ∈ (go (steady (world good new lost [])) reconnectNow 0 s').2 /\
  Started SelfGroup ∈ (go (steady (world good new lost [])) reconnectNow 0 s').2.
Proof.
  apply (unverified_device_stays_connected (world good new lost []) "al" "pw" page). split; try done; try by eexists.
  exists contact, "K". split; [done|]. split; [by vm_compute|]. split; [done|]. exists "secret". split; [done|]. by eexists.
Defined.

Lemma login_failure_is_silent_witness :
  let '(r, s', l) := go (steady (world lost new enrolled [])) (doLogin "al" "pw") 0 page in
  r = lost /\ view s' = view page /\ l = [Asked (QLogin "al" "pw")].
Proof. by apply (login_failure_is_silent (world lost new enrolled []) "al" "pw" page (JsError "Failed to fetch")). Defined.

(** A device that the server burned is wiped; the next start says why. *)
Example revoked_device_is_wiped :
  let '(r, s', l) := go (steady (world good new enrolled [row "K" true])) (doLogin "al" "pw") 0 page in
  last l = Some (Started Reload) /\ let_in l = false /\ view (boot true (tab s') 0) = VUnlock (Some Login) (Some REVOKED_COPY) None.
Proof. by vm_compute. Qed.

(** A whole session: registration, refresh, login, self destruct. *)
Example a_life :
  let '(_, s1, _) := go healthy (doRegister " al" "pw" "pw") 0 page in
  view s1 = VBuddies None /\ view (boot true (tab s1) 0) = VUnlock (Some Login) None (Some "al") /\
  let '(_, s2, l2) := go healthy (doSelfDestruct "pw" "pw") 0 s1 in
  existsb is_discard l2 = true /\ view (boot true (tab s2) 0) = VUnlock (Some Register) None None.
Proof. by vm_compute. Qed.
End SignInToy.
