(* ===== verification/Windows.v ===== *)
(** * The windows of the desktop (client/src/app.ts, lines 4009-4060, 4942-5083, 5219-5320, 6201-6395,
      7245-7365, 9629-9730)

    One window is live; others are parked behind it, or minimized to the menu bar.  Most ways of bringing a
    window back first ask the worker, so that each such request is a task that is settled later, while other
    operations go on: [navGen] says whether its result is still wanted.  The text being typed lives only in
    the document; a render puts the draft of the live view there (RichTextFacts.v has the round trip).  A
    parked entry has a number of its own, as the code tells entries apart by identity. *)

From S2P Require Import Prelude.

Module Windows.

(** What a conversation view holds: the draft, and the decrypted lines. *)
Record Transmit := MkTransmit { conv : option string; draft : string; log : list string }.

(** Gates are the screens before the desktop, editors those that are dropped when left; both by their
    kind.  The buddy list is known by the identity card it shows. *)
Inductive View :=
  | VConversation (t : Transmit)
  | VChannels (channels : list string) (active : option Transmit) (selected notice : option string)
  | VBuddies (card : string)
  | VGate (kind : string)
  | VEditor (kind : string)
  | VDesktop.

Definition kind_of (v : View) : string :=
  match v with
  | VConversation _ => "conversation"
  | VChannels _ _ _ _ => "channels"
  | VBuddies _ => "buddies"
  | VGate k | VEditor k => k
  | VDesktop => "desktop"
  end.

Inductive key := KConv (id : string) | KKind (kind : string).
#[export] Instance key_eq_dec : EqDecision key.
Proof. solve_decision. Defined.

Definition windowKey (v : View) : key :=
  match v with
  | VConversation (MkTransmit (Some id) _ _) => KConv id
  | v => KKind (kind_of v)
  end.

Definition activeConv (v : View) : option (string * Transmit) :=
  match v with
  | VConversation t | VChannels _ (Some t) _ _ => (fun id => (id, t)) <$> conv t
  | _ => None
  end.
Definition active_id (v : View) : option string := fst <$> activeConv v.

Definition isPrimaryWindow (v : View) : bool :=
  match v with VConversation _ | VChannels _ _ _ _ | VBuddies _ => true | _ => false end.
Definition is_gate (v : View) : bool := match v with VGate _ => true | _ => false end.
Definition is_buddies (v : View) : bool := match v with VBuddies _ => true | _ => false end.
Definition is_channels (v : View) : bool := match v with VChannels _ _ _ _ => true | _ => false end.

Definition with_draft (d : string) (t : Transmit) : Transmit := MkTransmit (conv t) d (log t).

(** The view as it is put aside: with the draft of the document and without the decrypted lines. *)
Definition stash (typed : option string) (v : View) : View :=
  match v with
  | VConversation t => VConversation (MkTransmit (conv t) (default EmptyString typed) [])
  | VChannels cs (Some t) sel nt => VChannels cs (Some (MkTransmit (conv t) (default EmptyString typed) [])) sel nt
  | v => v
  end.

Record Parked := MkParked { uid : nat; p_key : key; p_view : View }.
Record Mini := MkMini { m_key : key; m_view : View; unread : Z }.

Inductive task :=
  | TReveal (gen top : nat) (v : View)
  | TFocus (gen : nat) (v : View)
  | TRestore (v : View)
  | TDock (gen : nat) (id : string) (t : Transmit)
  | TBuddies (gen : nat)
  | TActive
  | TArrive
  | TOpen
  | TList
  | TRelist
  | TRow (gen : nat) (id : string) (channels : list string)
  | TExit.

(** How a request ends. *)
Inductive reply :=
  | RTransmit (t : Transmit)
  | RChannels (l : list string)
  | RBuddies (card : string)
  | RFail.

(** [typed] is the text of the compose box, when there is one; [resume] is the conversation last saved for a
    refresh; [armed] is the first tap of a destructive action. *)
Record Desk := MkDesk {
  view : View;
  parkedWins : list Parked;
  minimizedWins : list Mini;
  navGen : nat;
  fresh : nat;
  typed : option string;
  resume : option string;
  armedTap : option (string * string * Z);
  chanDrafts : list (string * string);
  clock : Z;
  tasks : list task }.

Definition set_view (v : View) (s : Desk) : Desk :=
  MkDesk v (parkedWins s) (minimizedWins s) (navGen s) (fresh s) (typed s) (resume s) (armedTap s)
    (chanDrafts s) (clock s) (tasks s).
Definition set_wins (ps : list Parked) (ms : list Mini) (n : nat) (s : Desk) : Desk :=
  MkDesk (view s) ps ms (navGen s) n (typed s) (resume s) (armedTap s) (chanDrafts s) (clock s) (tasks s).
Definition set_parked (ps : list Parked) (s : Desk) : Desk := set_wins ps (minimizedWins s) (fresh s) s.
Definition set_minimized (ms : list Mini) (s : Desk) : Desk := set_wins (parkedWins s) ms (fresh s) s.
Definition bump (s : Desk) : Desk :=
  MkDesk (view s) (parkedWins s) (minimizedWins s) (S (navGen s)) (fresh s) (typed s) (resume s) (armedTap s)
    (chanDrafts s) (clock s) (tasks s).
Definition set_typed (d : option string) (s : Desk) : Desk :=
  MkDesk (view s) (parkedWins s) (minimizedWins s) (navGen s) (fresh s) d (resume s) (armedTap s)
    (chanDrafts s) (clock s) (tasks s).
Definition set_resume (r : option string) (s : Desk) : Desk :=
  MkDesk (view s) (parkedWins s) (minimizedWins s) (navGen s) (fresh s) (typed s) r (armedTap s)
    (chanDrafts s) (clock s) (tasks s).
Definition set_armed (a : option (string * string * Z)) (s : Desk) : Desk :=
  MkDesk (view s) (parkedWins s) (minimizedWins s) (navGen s) (fresh s) (typed s) (resume s) a
    (chanDrafts s) (clock s) (tasks s).
Definition set_drafts (d : list (string * string)) (s : Desk) : Desk :=
  MkDesk (view s) (parkedWins s) (minimizedWins s) (navGen s) (fresh s) (typed s) (resume s) (armedTap s)
    d (clock s) (tasks s).
Definition set_clock (t : Z) (s : Desk) : Desk :=
  MkDesk (view s) (parkedWins s) (minimizedWins s) (navGen s) (fresh s) (typed s) (resume s) (armedTap s)
    (chanDrafts s) t (tasks s).
Definition set_tasks (ts : list task) (s : Desk) : Desk :=
  MkDesk (view s) (parkedWins s) (minimizedWins s) (navGen s) (fresh s) (typed s) (resume s) (armedTap s)
    (chanDrafts s) (clock s) ts.
Definition spawn (t : task) (s : Desk) : Desk := set_tasks (tasks s ++ [t]) s.

(** [render()]: the document shows the draft of the live view. *)
Definition render (s : Desk) : Desk := set_typed (draft <$> (snd <$> activeConv (view s))) s.

Definition without_key (k : key) (ps : list Parked) : list Parked :=
  List.filter (fun p => negb (bool_decide (p_key p = k))) ps.
Definition without_mini (k : key) (ms : list Mini) : list Mini :=
  List.filter (fun m => negb (bool_decide (m_key m = k))) ms.

(** A window put behind all others, as a new entry. *)
Definition park (k : key) (v : View) (s : Desk) : Desk :=
  set_wins (without_key k (parkedWins s) ++ [MkParked (fresh s) k v]) (minimizedWins s) (S (fresh s)) s.

(** ** [go] *)

Definition blank (d : string) : bool := bool_decide (trim_list (String.list_ascii_of_string d) = []).

(** A refresh of the same conversation keeps what is being typed. *)
Definition carry (typed : option string) (cur next : View) : View :=
  match typed with
  | None => next
  | Some d =>
      if blank d then next
      else
        match cur, next with
        | VConversation a, VConversation b =>
            if bool_decide (is_Some (conv a)) && bool_decide (conv a = conv b) && bool_decide (draft b = EmptyString)
            then VConversation (with_draft d b) else next
        | VChannels _ _ (Some sel) _, VChannels cs (Some b) (Some sel') nt =>
            if bool_decide (sel = sel') && bool_decide (draft b = EmptyString)
            then VChannels cs (Some (with_draft d b)) (Some sel') nt else next
        | _, _ => next
        end
  end.

(** Whether someone is signed in is fixed while there are windows. *)
Definition saved (next : View) (s : Desk) : Desk :=
  match next with
  | VGate "unlock" => s
  | VConversation t => set_resume (conv t) s
  | _ => set_resume None s
  end.

Definition rearrange (next : View) (s : Desk) : Desk :=
  if is_gate next then set_parked [] s
  else if bool_decide (windowKey next = windowKey (view s)) then s
  else
    let s := set_parked (without_key (windowKey next) (parkedWins s)) s in
    if isPrimaryWindow (view s) then park (windowKey (view s)) (stash (typed s) (view s)) s else s.

Definition go (next : View) (s : Desk) : Desk :=
  let s := bump s in
  let s := match armedTap s with
           | Some (_, id, _) => if bool_decide (active_id next = Some id) then s else set_armed None s
           | None => s
           end in
  let next := carry (typed s) (view s) next in
  let s := rearrange next s in
  let s := set_minimized (without_mini (windowKey next) (minimizedWins s)) s in
  render (saved next (set_view next s)).

Definition openBuddies (s : Desk) : Desk := spawn (TBuddies (navGen s)) s.

(** [goToActive] *)
Definition goToActive (t : Transmit) (s : Desk) : Desk :=
  match view s with
  | VChannels cs _ sel _ => go (VChannels cs (Some t) (match conv t with Some id => Some id | None => sel end) None) s
  | _ => go (VConversation t) s
  end.

(** ** Bringing a window back *)

Definition needs_fetch (v : View) : bool :=
  match v with
  | VConversation t => bool_decide (is_Some (conv t))
  | VChannels _ _ _ _ => true
  | _ => false
  end.

(** The view made of a window put aside and the answer; a failure shows the window as it was. *)
Definition reopened (v : View) (r : reply) : option View :=
  match v, r with
  | VConversation a, RTransmit t => if bool_decide (is_Some (conv a)) then Some (VConversation (with_draft (draft a) t)) else None
  | VChannels cs (Some a) _ nt, RTransmit t =>
      match conv a with
      | Some id => Some (VChannels cs (Some (with_draft (draft a) t)) (Some id) None)
      | None => None
      end
  | VChannels _ a _ nt, RChannels l =>
      match a ≫= conv with Some _ => None | None => Some (VChannels l None None nt) end
  | v, RFail => Some v
  | _, _ => None
  end.

Definition focusParkedWindow (k : key) (s : Desk) : Desk :=
  match List.find (fun p => bool_decide (p_key p = k)) (parkedWins s) with
  | None => s
  | Some p =>
      if needs_fetch (p_view p) then let s := bump s in spawn (TFocus (navGen s) (p_view p)) s
      else if is_buddies (p_view p) then openBuddies (go (p_view p) s)
      else go (p_view p) s
  end.

Definition commit (gen top : nat) (next : View) (s : Desk) : Desk :=
  if bool_decide (gen = navGen s) then
    render (set_view next (set_parked (List.filter (fun p => negb (bool_decide (uid p = top))) (parkedWins s)) s))
  else s.

Definition revealNextWindow (s : Desk) : Desk :=
  let s := bump s in
  match last (parkedWins s) with
  | Some top =>
      if needs_fetch (p_view top) then spawn (TReveal (navGen s) (uid top) (p_view top)) s
      else
        let s := commit (navGen s) (uid top) (p_view top) s in
        if is_buddies (p_view top) then openBuddies s else s
  | None =>
      if is_buddies (view s) then render (set_view VDesktop s)
      else openBuddies (set_view VDesktop s)
  end.

(** Minimize puts the view on the menu bar and lets the animation end, then reveals. *)
Definition minimize (s : Desk) : Desk :=
  let k := windowKey (view s) in
  spawn TExit (set_minimized (without_mini k (minimizedWins s) ++ [MkMini k (stash (typed s) (view s)) 0]) s).
Definition close (s : Desk) : Desk := spawn TExit s.

Definition restore (k : key) (s : Desk) : Desk :=
  match List.find (fun m => bool_decide (m_key m = k)) (minimizedWins s) with
  | None => s
  | Some m =>
      let s := set_minimized (without_mini k (minimizedWins s)) s in
      match m_view m with
      | VChannels _ None _ _ | VChannels _ (Some (MkTransmit None _ _)) _ _ => go (m_view m) s
      | v => if is_buddies v then openBuddies s else if needs_fetch v then spawn (TRestore v) s else go v s
      end
  end.

(** ** Two panes *)

Definition ensureActiveRow (channels : list string) (t : Transmit) : list string :=
  match conv t with
  | Some id => if bool_decide (id ∈ channels) then channels else id :: channels
  | None => channels
  end.

Definition dockActive (s : Desk) : Desk :=
  match view s with
  | VConversation t =>
      match conv t with
      | Some id =>
          let s := bump s in
          spawn (TDock (navGen s) id (with_draft (default EmptyString (typed s)) t)) s
      | None => s
      end
  | _ => s
  end.

Definition docked (id : string) (t : Transmit) (l : list string) (s : Desk) : Desk :=
  let s := set_parked (without_key (KConv id) (without_key (KKind "channels") (parkedWins s))) s in
  render (set_resume (Some id) (set_view (VChannels (ensureActiveRow l t) (Some t) (Some id) None) s)).

Definition popOutActive (s : Desk) : Desk :=
  match view s with
  | VChannels cs (Some t) _ nt =>
      match conv t with
      | Some id =>
          let t := with_draft (default EmptyString (typed s)) t in
          let listOnly := VChannels (List.filter (fun c => negb (bool_decide (c = id))) cs) None None nt in
          let s := set_parked (without_key (KConv id) (parkedWins s)) (bump s) in
          let s := park (KKind "channels") listOnly s in
          render (set_resume (Some id) (set_view (VConversation t) s))
      | None => s
      end
  | _ => s
  end.

(** A click on a row while the list is shown, and the way back to the list on a small screen. *)
Definition open_row (id : string) (s : Desk) : Desk :=
  match view s with
  | VChannels cs _ _ _ => spawn (TRow (navGen s) id cs) s
  | _ => spawn TOpen s
  end.

Definition row_opened (id : string) (cs : list string) (t : Transmit) (s : Desk) : Desk :=
  let stashed := JsMap.lookup id (chanDrafts s) in
  let s := set_drafts (JsMap.remove id (chanDrafts s)) s in
  let t := match stashed with
           | Some d => if bool_decide (draft t = EmptyString) then with_draft d t else t
           | None => t
           end in
  go (VChannels cs (Some t) (Some id) None) s.

Definition show_list (s : Desk) : Desk :=
  match view s with
  | VChannels cs a _ _ =>
      let s :=
        match a ≫= conv with
        | Some id =>
            let d := default EmptyString (typed s) in
            set_drafts (if bool_decide (d = EmptyString) then JsMap.remove id (chanDrafts s)
                        else JsMap.set id d (chanDrafts s)) s
        | None => s
        end in
      go (VChannels cs None None None) s
  | _ => s
  end.

(** ** Closing a conversation for good *)

Definition DESTRUCTIVE_ARM_MS : Z := 8000.

(** The first tap arms, the second on the same action and conversation fires. *)
Definition armedDestructive (action id : string) (s : Desk) : bool * Desk :=
  match armedTap s with
  | Some (a, i, at_) =>
      if bool_decide (a = action) && bool_decide (i = id) && (clock s - at_ <=? DESTRUCTIVE_ARM_MS)
      then (true, set_armed None s) else (false, set_armed (Some (action, id, clock s)) s)
  | None => (false, set_armed (Some (action, id, clock s)) s)
  end.

Definition strip (id : string) (v : View) : View :=
  match v with
  | VChannels cs (Some t) _ _ =>
      if bool_decide (conv t = Some id) then VChannels (List.filter (fun c => negb (bool_decide (c = id))) cs) None None None
      else v
  | v => v
  end.

(** Every entry is rebuilt. *)
Fixpoint renew (f : View -> View) (n : nat) (ps : list Parked) : list Parked :=
  match ps with
  | [] => []
  | p :: ps => MkParked n (p_key p) (f (p_view p)) :: renew f (S n) ps
  end.

Definition purgeWindowsFor (id : string) (s : Desk) : Desk :=
  let ps := without_key (KConv id) (parkedWins s) in
  let ms := without_mini (KConv id) (minimizedWins s) in
  set_wins (renew (strip id) (fresh s) ps) ((fun m => MkMini (m_key m) (strip id (m_view m)) (unread m)) <$> ms)
    (fresh s + length ps) s.

(** The worker has blocked ([false]) or removed the conversation. *)
Definition closed_for_good (removed : bool) (id : string) (s : Desk) : Desk :=
  let s := purgeWindowsFor id s in
  if removed && is_channels (view s) then spawn TRelist s else openBuddies s.

(** ** News from the worker *)

(** A card adopted from a sibling; entries that do not change keep their identity. *)
Definition patch (card : string) (v : View) : View := match v with VBuddies _ => VBuddies card | v => v end.

Definition patchBuddySnapshots (card : string) (s : Desk) : Desk :=
  let step (acc : list Parked * nat) (p : Parked) :=
    if is_buddies (p_view p) then (acc.1 ++ [MkParked acc.2 (p_key p) (VBuddies card)], S acc.2)
    else (acc.1 ++ [p], acc.2) in
  let '(ps, n) := foldl step ([], fresh s) (parkedWins s) in
  set_wins ps ((fun m => MkMini (m_key m) (patch card (m_view m)) (unread m)) <$> minimizedWins s) n s.

Definition identity_updated (card : string) (s : Desk) : Desk :=
  if is_buddies (view s) then openBuddies (go (VBuddies card) s) else patchBuddySnapshots card s.

Inductive place := Live | Minimized | ParkedBehind.

Definition shows (id : string) (v : View) : bool := bool_decide (active_id v = Some id).

Definition windowShowing (id : string) (s : Desk) : option place :=
  if shows id (view s) then Some Live
  else if existsb (fun m => shows id (m_view m)) (minimizedWins s) then Some Minimized
  else if existsb (fun p => shows id (p_view p)) (parkedWins s) then Some ParkedBehind
  else None.

Definition repaintPreservingDraft (s : Desk) : Desk :=
  match typed s with
  | Some d =>
      render match view s with
             | VConversation t => set_view (VConversation (with_draft d t)) s
             | VChannels cs (Some t) sel nt => set_view (VChannels cs (Some (with_draft d t)) sel nt) s
             | _ => s
             end
  | None => render s
  end.

(** A message for a conversation; [typing] and [quiet] (the wizard, the quiet time after it) are as found. *)
Definition inbound_message (id : string) (typing quiet : bool) (s : Desk) : Desk :=
  if shows id (view s) then spawn TActive s
  else
    let focusSafe := negb quiet && isPrimaryWindow (view s) in
    let s :=
      match windowShowing id s with
      | Some Minimized =>
          repaintPreservingDraft
            (set_minimized ((fun m => if shows id (m_view m) then MkMini (m_key m) (m_view m) (unread m + 1) else m) <$> minimizedWins s) s)
      | Some ParkedBehind =>
          let raised := List.filter (fun p => shows id (p_view p)) (parkedWins s) in
          let s := set_parked (List.filter (fun p => negb (shows id (p_view p))) (parkedWins s) ++ raised) s in
          if typing || negb focusSafe then repaintPreservingDraft s
          else match last raised with Some target => go (p_view target) s | None => s end
      | _ => if focusSafe && negb typing then spawn TArrive s else s
      end in
    if is_channels (view s) then spawn TList s else s.

(** ** Settling *)

(** The list of channels is refreshed; the chat in the pane stays, with what is typed in it. *)
Definition relisted (l : list string) (s : Desk) : Desk :=
  match view s with
  | VChannels _ a sel _ => go (VChannels l (with_draft (default EmptyString (typed s)) <$> a) sel None) s
  | _ => s
  end.

(** [stay] says that the user types or a guided flow is on. *)
Definition settle (t : task) (r : reply) (stay : bool) (s : Desk) : Desk :=
  match t, r with
  | TReveal gen top v, r => match reopened v r with Some next => commit gen top next s | None => s end
  | TFocus gen v, r =>
      match reopened v r with
      | Some next => if bool_decide (gen = navGen s) then go next s else s
      | None => s
      end
  | TRestore v, r => match reopened v r with Some next => go next s | None => s end
  | TDock gen id t, RChannels l => if bool_decide (gen = navGen s) then docked id t l s else s
  | TBuddies gen, RBuddies card => if bool_decide (gen = navGen s) then go (VBuddies card) s else s
  | TActive, RTransmit t => goToActive t s
  | TArrive, RTransmit t => if stay || negb (isPrimaryWindow (view s)) then s else go (VConversation t) s
  | TOpen, RTransmit t => go (VConversation t) s
  | TList, RChannels l => relisted l s
  | TRelist, RChannels l => go (VChannels l None None None) s
  | TRow gen id cs, RTransmit t => if bool_decide (gen = navGen s) then row_opened id cs t s else s
  | TExit, _ => revealNextWindow s
  | _, _ => s
  end.

Inductive op :=
  | OGo (v : View)
  | OType (d : string)
  | OFocus (k : key)
  | OMinimize
  | OClose
  | ORestore (k : key)
  | ODock
  | OPopOut
  | OOpenRow (id : string)
  | OShowList
  | OTap (action id : string)
  | OClosedForGood (removed : bool) (id : string)
  | OIdentity (card : string)
  | OInbound (id : string) (typing quiet : bool)
  | OTick (ms : Z)
  | OSettle (i : nat) (r : reply) (stay : bool).

Definition step (o : op) (s : Desk) : Desk :=
  match o with
  | OGo v => go v s
  | OType d => match typed s with Some _ => set_typed (Some d) s | None => s end
  | OFocus k => focusParkedWindow k s
  | OMinimize => minimize s
  | OClose => close s
  | ORestore k => restore k s
  | ODock => dockActive s
  | OPopOut => popOutActive s
  | OOpenRow id => open_row id s
  | OShowList => show_list s
  | OTap action id => if shows id (view s) then (armedDestructive action id s).2 else s
  | OClosedForGood removed id => closed_for_good removed id s
  | OIdentity card => identity_updated card s
  | OInbound id typing quiet => inbound_message id typing quiet s
  | OTick ms => set_clock (clock s + Z.max 0 ms) s
  | OSettle i r stay =>
      match tasks s !! i with
      | Some t => settle t r stay (set_tasks (delete i (tasks s)) s)
      | None => s
      end
  end.

Definition run (os : list op) (s : Desk) : Desk := foldl (fun s o => step o s) s os.

Definition new_desk (v : View) : Desk := render (MkDesk v [] [] 0 0 None None None [] 0 []).
End Windows.
