(* ===== verification/WindowsFacts.v ===== *)
(** * What the windows of the desktop keep

    No window put aside holds decrypted text; in orderly runs every window has a key of its own, however late
    the answers come; a conversation closed for good leaves an entry behind; a message for a parked
    conversation raises it blank.  WindowsToy has runs of them. *)

From S2P Require Import Prelude Windows.
Import Windows.

Module WindowsFacts.

(** ** No plaintext behind *)
Definition no_log (v : View) : Prop :=
  match v with
  | VConversation t | VChannels _ (Some t) _ _ => log t = []
  | _ => True
  end.

Definition clean (s : Desk) : Prop :=
  Forall (fun p => no_log (p_view p)) (parkedWins s) /\ Forall (fun m => no_log (m_view m)) (minimizedWins s).

Lemma no_log_stash d v : no_log (stash d v).
Proof. by destruct v as [t|cs [t|] sel nt|c|k|k|]. Qed.

Lemma Forall_lfilter {A} (P : A -> Prop) (f : A -> bool) l : Forall P l -> Forall P (List.filter f l).
Proof. induction 1 as [|x l Hx Hl IH]; cbn; [constructor|]. destruct (f x); [by constructor|done]. Qed.

Lemma Forall2_in_r {A B} (P : A -> B -> Prop) l k y : Forall2 P l k -> y ∈ k -> exists x, x ∈ l /\ P x y.
Proof.
  induction 1 as [|x z l k Hx Hl IH]; intros Hy; [by apply not_elem_of_nil in Hy|].
  apply elem_of_cons in Hy as [->|Hy]; [exists x; split; [left|done]|].
  destruct (IH Hy) as (w & Hw & Hp). exists w. split; [by right|done].
Qed.

Lemma clean_park k v s : no_log v -> clean s -> clean (park k v s).
Proof.
  intros Hv [H1 H2]. split; [|done]. apply Forall_app. split; [by apply Forall_lfilter|]. by repeat constructor.
Qed.

Lemma clean_same s s' : parkedWins s' = parkedWins s -> minimizedWins s' = minimizedWins s -> clean s -> clean s'.
Proof. unfold clean. by intros -> ->. Qed.

Lemma clean_set_parked f s : clean s -> clean (set_parked (List.filter f (parkedWins s)) s).
Proof. intros [H1 H2]. split; [by apply Forall_lfilter|done]. Qed.

Lemma clean_rearrange next s : clean s -> clean (rearrange next s).
Proof.
  intros Hc. unfold rearrange. destruct (is_gate next); [split; [constructor|apply Hc]|].
  destruct (bool_decide _); [done|]. apply (clean_set_parked (fun p => negb (bool_decide (p_key p = windowKey next)))) in Hc.
  destruct (isPrimaryWindow _); [|done]. apply clean_park; [apply no_log_stash|done].
Qed.

(** The part of [go] after the navigation is counted. *)
Definition started (next : View) (s : Desk) : Desk :=
  match armedTap s with
  | Some (_, id, _) => if bool_decide (active_id next = Some id) then bump s else set_armed None (bump s)
  | None => bump s
  end.

Lemma go_unfold next s :
  go next s =
  let next' := carry (typed s) (view s) next in
  let s1 := rearrange next' (started next s) in
  render (saved next' (set_view next' (set_minimized (without_mini (windowKey next') (minimizedWins s1)) s1))).
Proof.
  unfold go, started. destruct (armedTap s) as [[[a id] t]|] eqn:E; cbn [armedTap bump]; rewrite E; [|done].
  by destruct (bool_decide _).
Qed.

Lemma saved_wins v s : parkedWins (saved v s) = parkedWins s /\ minimizedWins (saved v s) = minimizedWins s.
Proof. unfold saved. by repeat case_match. Qed.

Lemma clean_go next s : clean s -> clean (go next s).
Proof.
  intros Hc. rewrite go_unfold. cbn zeta. set (next' := carry _ _ _).
  assert (H1 : clean (rearrange next' (started next s))).
  { apply clean_rearrange. eapply clean_same; [| |exact Hc]; unfold started; by repeat case_match. }
  destruct H1 as [H1 H2]. set (s1 := rearrange _ _) in *. clearbody s1.
  destruct (saved_wins next' (set_view next' (set_minimized (without_mini (windowKey next') (minimizedWins s1)) s1))) as [H3 H4].
  split; cbn [render set_typed parkedWins minimizedWins]; [by rewrite H3|rewrite H4]. by apply Forall_lfilter.
Qed.

Lemma clean_commit gen top v s : clean s -> clean (commit gen top v s).
Proof.
  intros [H1 H2]. unfold commit. destruct (bool_decide _); [|done]. split; [|done]. by apply Forall_lfilter.
Qed.

Lemma clean_reveal s : clean s -> clean (revealNextWindow s).
Proof.
  intros Hc. unfold revealNextWindow. cbn zeta. change (parkedWins (bump s)) with (parkedWins s).
  destruct (last (parkedWins s)) as [top|]; [|by destruct (is_buddies _)].
  destruct (needs_fetch _); [done|]. pose proof (clean_commit (navGen (bump s)) (uid top) (p_view top) (bump s) Hc) as H.
  by destruct (is_buddies _).
Qed.

Lemma no_log_strip id v : no_log v -> no_log (strip id v).
Proof. destruct v as [t|cs [t|] sel nt|c|k|k|]; cbn; try done. by destruct (bool_decide _). Qed.

Lemma clean_renew f n ps :
  (forall v, no_log v -> no_log (f v)) -> Forall (fun p => no_log (p_view p)) ps ->
  Forall (fun p => no_log (p_view p)) (renew f n ps).
Proof. intros Hf Hp. revert n. induction Hp as [|p ps H _ IH]; intros n; cbn; constructor; [by apply Hf|apply IH]. Qed.

Lemma clean_purge id s : clean s -> clean (purgeWindowsFor id s).
Proof.
  intros [H1 H2]. split; cbn [purgeWindowsFor set_wins parkedWins minimizedWins].
  - apply clean_renew; [apply no_log_strip|by apply Forall_lfilter].
  - apply Forall_fmap. eapply Forall_impl; [apply Forall_lfilter, H2|]. intros m. cbn. apply no_log_strip.
Qed.

(** The entries of the snapshots that a new card changes. *)
Lemma patch_fold card ps acc n :
  let step (acc : list Parked * nat) (p : Parked) :=
    if is_buddies (p_view p) then (acc.1 ++ [MkParked acc.2 (p_key p) (VBuddies card)], S acc.2)
    else (acc.1 ++ [p], acc.2) in
  exists qs m, foldl step (acc, n) ps = (acc ++ qs, m) /\ (n <= m)%nat /\
    Forall2 (fun p q => p_key q = p_key p /\ p_view q = patch card (p_view p) /\
      (if is_buddies (p_view p) then n <= uid q < m else uid q = uid p)%nat) ps qs /\
    NoDup (uid <$> List.filter (fun q => is_buddies (p_view q)) qs).
Proof.
  cbn zeta. revert acc n. induction ps as [|p ps IH]; intros acc n; cbn [foldl].
  { exists [], n. rewrite app_nil_r. repeat split; [lia|constructor|constructor]. }
  destruct (is_buddies (p_view p)) eqn:Hb.
  - destruct (IH (acc ++ [MkParked n (p_key p) (VBuddies card)]) (S n)) as (qs & m & E & Hm & Hf & Hn). cbn [fst snd].
    exists (MkParked n (p_key p) (VBuddies card) :: qs), m. rewrite E, <-app_assoc. split; [done|]. split; [lia|]. split.
    + constructor; [|eapply Forall2_impl; [exact Hf|]].
      * cbn. rewrite Hb. split; [done|]. split; [by destruct (p_view p)|lia].
      * intros x y (H1 & H2 & H3). split; [done|]. split; [done|]. destruct (is_buddies (p_view x)); [lia|done].
    + cbn. constructor; [|exact Hn]. intros Hin. apply list_elem_of_fmap in Hin as (q & -> & Hq).
      apply list_elem_of_In, filter_In in Hq as [Hq%list_elem_of_In Hqb].
      apply (Forall2_in_r _ _ _ _ Hf) in Hq as (x & Hx & _ & Hv & Hu).
      rewrite Hv in Hqb. destruct (is_buddies (p_view x)) eqn:Hxb; [lia|]. by destruct (p_view x).
  - destruct (IH (acc ++ [p]) n) as (qs & m & E & Hm & Hf & Hn). cbn [fst snd]. exists (p :: qs), m.
    rewrite E, <-app_assoc. split; [done|]. split; [done|]. split.
    + constructor; [|done]. rewrite Hb. split; [done|]. split; [by destruct (p_view p)|done].
    + cbn. by rewrite Hb.
Qed.

Lemma no_log_patch card v : no_log v -> no_log (patch card v).
Proof. by destruct v. Qed.

Lemma clean_patch card s : clean s -> clean (patchBuddySnapshots card s).
Proof.
  intros [H1 H2]. unfold patchBuddySnapshots. cbn zeta.
  destruct (patch_fold card (parkedWins s) [] (fresh s)) as (qs & m & -> & _ & Hf & _). cbn [app]. split.
  - cbn [set_wins parkedWins]. apply Forall_forall. intros q Hq.
    apply (Forall2_in_r _ _ _ _ Hf) in Hq as (p & Hp & _ & -> & _). apply no_log_patch.
    by apply (Forall_forall _ _) with (x := p) in H1.
  - cbn [set_wins minimizedWins]. apply Forall_fmap. eapply Forall_impl; [exact H2|]. intros x. apply no_log_patch.
Qed.
Lemma clean_docked id t l s : clean s -> clean (docked id t l s).
Proof. intros [H1 H2]. split; [|done]. cbn. by apply Forall_lfilter, Forall_lfilter. Qed.

Lemma clean_popOut s : clean s -> clean (popOutActive s).
Proof.
  intros Hc. unfold popOutActive. destruct (view s) as [t|cs [t|] sel nt|c|k|k|]; try done.
  destruct (conv t) as [id|]; [|done]. cbn zeta.
  set (s1 := set_parked (without_key (KConv id) (parkedWins s)) (bump s)).
  assert (H1 : clean s1) by (destruct Hc as [H1 H2]; split; [by apply Forall_lfilter|done]).
  set (v := VChannels _ None None nt). assert (Hv : no_log v) by done. clearbody v s1.
  by apply (clean_park (KKind "channels") v s1).
Qed.

Lemma clean_repaint s : clean s -> clean (repaintPreservingDraft s).
Proof.
  intros Hc. unfold repaintPreservingDraft. destruct (typed s) as [d|]; [|done].
  by destruct (view s) as [t|cs [t|] sel nt|c|k|k|].
Qed.

Lemma clean_inbound id typing quiet s : clean s -> clean (inbound_message id typing quiet s).
Proof.
  intros Hc. unfold inbound_message. destruct (shows id (view s)); [done|]. cbn zeta.
  assert (H : forall s1, clean s1 -> clean (if is_channels (view s1) then spawn TList s1 else s1)).
  { intros s1 H1. by destruct (is_channels _). }
  apply H. destruct (windowShowing id s) as [[]|].
  - by destruct (_ && _).
  - apply clean_repaint. destruct Hc as [H1 H2]. split; [done|]. cbn. apply Forall_fmap.
    eapply Forall_impl; [exact H2|]. intros m. cbn. by destruct (shows id (m_view m)).
  - match goal with |- context [set_parked ?ps s] => set (s1 := set_parked ps s) end.
    assert (H1 : clean s1).
    { destruct Hc as [H1 H2]. split; [|done]. cbn. apply Forall_app. split; by apply Forall_lfilter. }
    destruct (typing || _); [by apply clean_repaint|]. destruct (last _); [by apply clean_go|done].
  - by destruct (_ && _).
Qed.

Lemma clean_settle t r stay s : clean s -> clean (settle t r stay s).
Proof.
  intros Hc. unfold settle, relisted, goToActive, row_opened.
  destruct t, r; try done;
    repeat match goal with
    | |- clean (match ?x with _ => _ end) => destruct x; try done
    | |- clean (if ?x then _ else _) => destruct x; try done
    end; auto using clean_go, clean_commit, clean_docked, clean_reveal; cbn zeta;
    try (apply clean_go; done).
Qed.

Lemma clean_step o s : clean s -> clean (step o s).
Proof.
  intros Hc. destruct o as [v|d|k| | |k| | |id| |a id|rm id|card|id ty q|ms|i r stay]; cbn [step].
  - by apply clean_go.
  - by destruct (typed s).
  - unfold focusParkedWindow. destruct (List.find _ _) as [p|]; [|done]. destruct (needs_fetch _); [done|].
    destruct (is_buddies _); by apply (clean_go (p_view p)) in Hc.
  - destruct Hc as [H1 H2]. split; [done|]. cbn. apply Forall_app. split; [by apply Forall_lfilter|].
    repeat constructor. apply no_log_stash.
  - done.
  - unfold restore. destruct (List.find _ _) as [m|]; [|done]. cbn zeta.
    set (s1 := set_minimized _ _).
    assert (H1 : clean s1) by (destruct Hc as [H1 H2]; split; [done|by apply Forall_lfilter]). clearbody s1.
    destruct (m_view m) as [t|cs [[[c|] d l]|] sel nt|c|k'|k'|]; cbn [is_buddies needs_fetch]; try (by apply clean_go);
      try done. by destruct (bool_decide _); [|apply clean_go].
  - unfold dockActive. destruct (view s); try done. by destruct (conv _).
  - by apply clean_popOut.
  - unfold open_row. by destruct (view s).
  - unfold show_list. destruct (view s); try done. cbn zeta. apply clean_go. by destruct (_ ≫= _).
  - destruct (shows id (view s)); [|done]. unfold armedDestructive. by repeat case_match.
  - unfold closed_for_good. pose proof (clean_purge id s Hc) as H. by destruct (_ && _).
  - unfold identity_updated. destruct (is_buddies _); [by apply (clean_go (VBuddies card)) in Hc|by apply clean_patch].
  - by apply clean_inbound.
  - done.
  - destruct (tasks s !! i) as [t|]; [|done]. by apply clean_settle.
Qed.

Lemma desk_run_snoc os o s : run (os ++ [o]) s = step o (run os s).
Proof. unfold run. by rewrite foldl_snoc. Qed.

Lemma clean_run v os : clean (run os (new_desk v)).
Proof. induction os as [|o os IH] using rev_ind; [split; constructor|]. rewrite desk_run_snoc. by apply clean_step. Qed.

(** C20. Plaintext is never put aside.  After any sequence of navigations, messages, cards, closings and late
    answers, no window that is parked behind the live one or minimized to the menu bar holds a decrypted
    line: an erasure of a stored message leaves no copy of it there. *)
Theorem nothing_decrypted_is_put_aside (v : View) (os : list op) :
  let s := run os (new_desk v) in
  (forall p, p ∈ parkedWins s -> no_log (p_view p)) /\ (forall m, m ∈ minimizedWins s -> no_log (m_view m)).
Proof.
  intros s. destruct (clean_run v os) as [H1 H2]. split.
  - intros p Hp. by apply (proj1 (Forall_forall _ _) H1).
  - intros m Hm. by apply (proj1 (Forall_forall _ _) H2).
Qed.

(** ** What [go] leaves *)

Lemma carry_key d v next : windowKey (carry d v next) = windowKey next.
Proof.
  unfold carry. destruct d as [d|]; [|done]. destruct (blank d); [done|].
  destruct v as [a|cs a [sel|] nt|c|k|k|], next as [[cb db lb]|cs' [b|] [sel'|] nt'|c'|k'|k'|]; try done; by destruct (_ && _).
Qed.

Lemma carry_shows id d v next : shows id (carry d v next) = shows id next.
Proof.
  unfold carry. destruct d as [d|]; [|done]. destruct (blank d); [done|].
  destruct v as [a|cs a [sel|] nt|c|k|k|], next as [[[cb|] db lb]|cs' [[[cb|] db lb]|] [sel'|] nt'|c'|k'|k'|];
    try done; by destruct (_ && _).
Qed.

Lemma carry_no_log d v next : no_log next -> no_log (carry d v next).
Proof.
  unfold carry. destruct d as [d|]; [|done]. destruct (blank d); [done|].
  destruct v as [a|cs a [sel|] nt|c|k|k|], next as [b|cs' [b|] [sel'|] nt'|c'|k'|k'|]; try done; by destruct (_ && _).
Qed.

Lemma saved_rest v s :
  view (saved v s) = view s /\ tasks (saved v s) = tasks s /\ navGen (saved v s) = navGen s.
Proof. unfold saved. by repeat case_match. Qed.

Lemma rearrange_rest v s : tasks (rearrange v s) = tasks s /\ navGen (rearrange v s) = navGen s.
Proof. unfold rearrange. by repeat case_match. Qed.

Lemma started_rest v s :
  view (started v s) = view s /\ parkedWins (started v s) = parkedWins s /\ tasks (started v s) = tasks s /\
  navGen (started v s) = S (navGen s) /\ typed (started v s) = typed s.
Proof. unfold started. by repeat case_match. Qed.

Lemma go_rest next s :
  view (go next s) = carry (typed s) (view s) next /\ tasks (go next s) = tasks s /\
  navGen (go next s) = S (navGen s) /\
  parkedWins (go next s) = parkedWins (rearrange (carry (typed s) (view s) next) (started next s)).
Proof.
  rewrite go_unfold. cbn zeta. set (v := carry _ _ _). set (s1 := rearrange _ _).
  destruct (rearrange_rest v (started next s)) as [H1 H2]. destruct (started_rest next s) as (_ & _ & H3 & H4 & _).
  set (s2 := set_view _ _). destruct (saved_rest v s2) as (A & B & D). destruct (saved_wins v s2) as [E _].
  cbn [render set_typed view tasks navGen parkedWins]. rewrite A, B, D, E. subst s2 s1.
  cbn [set_view set_minimized set_wins view tasks navGen parkedWins]. by rewrite H1, H2, H3, H4.
Qed.

(** ** One window per key *)

(** The conversation that a window being brought back asks for; the worker answers what it is asked. *)
Definition asked (v : View) : option string :=
  match v with VConversation a | VChannels _ (Some a) _ _ => conv a | _ => None end.
Definition fits (t : task) (r : reply) : bool :=
  match t, r with TReveal _ _ v, RTransmit a => bool_decide (conv a = asked v) | _, _ => true end.
Definition revealing (s : Desk) (t : task) : bool :=
  match t with TReveal gen _ _ => bool_decide (gen = navGen s) | _ => false end.

(** Runs in which no conversation is closed for good while a window is being revealed. *)
Definition orderly (o : op) (s : Desk) : bool :=
  match o with
  | OClosedForGood _ _ => negb (existsb (revealing s) (tasks s))
  | OSettle i r _ => match tasks s !! i with Some t => fits t r | None => true end
  | _ => true
  end.
Fixpoint orderly_run (os : list op) (s : Desk) : bool :=
  match os with [] => true | o :: os => orderly o s && orderly_run os (step o s) end.

Lemma orderly_run_snoc os o s : orderly_run (os ++ [o]) s = orderly_run os s && orderly o (run os s).
Proof. revert s. induction os as [|o' os IH]; intros s; cbn; [by rewrite andb_true_r|]. by rewrite IH, andb_assoc. Qed.

Definition keys (s : Desk) : list key := p_key <$> parkedWins s.
Definition named (p : Parked) : Prop := p_key p = windowKey (p_view p).

Definition distinct (s : Desk) : Prop :=
  NoDup (keys s) /\ windowKey (view s) ∉ keys s /\ Forall named (parkedWins s).

(** A window being revealed is the only one with its key, as long as nothing else was navigated to. *)
Definition sole (top : nat) (v : View) (ps : list Parked) : Prop :=
  needs_fetch v = true /\ forall p, p ∈ ps -> p_key p = windowKey v -> uid p = top.
Definition reveals (s : Desk) : Prop :=
  forall gen top v, TReveal gen top v ∈ tasks s ->
  (gen <= navGen s)%nat /\ (gen = navGen s -> sole top v (parkedWins s)).

(** What a step may do to the windows while a reveal is on. *)
Definition undisturbed (s s' : Desk) : Prop :=
  (forall gen top v, TReveal gen top v ∈ tasks s' -> TReveal gen top v ∈ tasks s) /\
  ((navGen s < navGen s')%nat \/
   navGen s' = navGen s /\
   forall p, p ∈ parkedWins s' -> p_key p = KKind "buddies" \/ exists q, q ∈ parkedWins s /\ p_key q = p_key p /\ uid q = uid p).

Lemma fetched_not_buddies v : needs_fetch v = true -> windowKey v <> KKind "buddies".
Proof. by destruct v as [[[c|] d l]|cs a sel nt|c|k|k|]. Qed.

Lemma reveals_undisturbed s s' : reveals s -> undisturbed s s' -> reveals s'.
Proof.
  intros H [H1 H2] gen top v Hin. destruct (H _ _ _ (H1 _ _ _ Hin)) as [Hg Hs].
  destruct H2 as [H2|[H2 H3]]; [split; [lia|lia]|]. rewrite H2. split; [done|]. intros E.
  destruct (Hs E) as [Hf Hp]. split; [done|]. intros p Hin' Hk.
  destruct (H3 p Hin') as [Hb|(q & Hq & Hqk & <-)]; [|apply Hp; congruence].
  exfalso. apply (fetched_not_buddies v Hf). congruence.
Qed.

Lemma undisturbed_trans s1 s2 s3 : undisturbed s1 s2 -> undisturbed s2 s3 -> undisturbed s1 s3.
Proof.
  intros [A1 B1] [A2 B2]. split; [by auto|].
  destruct B1 as [B1|[B1 D1]], B2 as [B2|[B2 D2]]; [left; lia..|]. right. split; [congruence|].
  intros p Hp. destruct (D2 p Hp) as [Hb|(q & Hq & Hk & Hu)]; [by left|].
  destruct (D1 q Hq) as [Hb|(r & Hr & Hk' & Hu')]; [left; congruence|right; exists r; split; [done|]; split; congruence].
Qed.

Lemma undisturbed_bump s s' : tasks s' = tasks s -> (navGen s < navGen s')%nat -> undisturbed s s'.
Proof. intros E H. split; [by rewrite E|by left]. Qed.

Lemma undisturbed_sub s s' :
  (forall gen top v, TReveal gen top v ∈ tasks s' -> TReveal gen top v ∈ tasks s) -> navGen s' = navGen s ->
  (forall p, p ∈ parkedWins s' -> p ∈ parkedWins s) -> undisturbed s s'.
Proof. intros H1 H2 H3. split; [done|]. right. split; [done|]. intros p Hp. right. exists p. by split; [apply H3|]. Qed.

Lemma undisturbed_go v s : undisturbed s (go v s).
Proof. destruct (go_rest v s) as (_ & H1 & H2 & _). apply undisturbed_bump; [done|]. rewrite H2. lia. Qed.

Lemma undisturbed_spawn t s : (forall gen top v, t <> TReveal gen top v) -> undisturbed s (spawn t s).
Proof.
  intros Ht. apply undisturbed_sub; [|done|done]. intros gen top v. cbn. rewrite elem_of_app, list_elem_of_singleton.
  intros [H|H]; [done|]. by destruct (Ht gen top v).
Qed.

Lemma elem_of_lfilter {A} (f : A -> bool) l x : x ∈ List.filter f l <-> f x = true /\ x ∈ l.
Proof. rewrite !list_elem_of_In, filter_In. tauto. Qed.

Lemma NoDup_lfilter {A B} (g : A -> B) (f : A -> bool) l : NoDup (g <$> l) -> NoDup (g <$> List.filter f l).
Proof.
  induction l as [|x l IH]; cbn; [done|]. intros [Hx Hl]%NoDup_cons. destruct (f x); [|by apply IH].
  cbn. constructor; [|by apply IH]. intros Hin. apply Hx.
  apply list_elem_of_fmap in Hin as (y & -> & Hy). apply elem_of_lfilter in Hy as [_ Hy]. by apply list_elem_of_fmap_2.
Qed.

Lemma keys_filter f (ps : list Parked) k : k ∈ p_key <$> List.filter f ps -> k ∈ p_key <$> ps.
Proof.
  intros Hin. apply list_elem_of_fmap in Hin as (y & -> & Hy). apply elem_of_lfilter in Hy as [_ Hy]. by apply list_elem_of_fmap_2.
Qed.

Lemma not_in_without_key k ps : k ∉ p_key <$> without_key k ps.
Proof.
  intros Hin. apply list_elem_of_fmap in Hin as (p & E & Hp). unfold without_key in Hp.
  apply elem_of_lfilter in Hp as [Hp _]. by rewrite bool_decide_true in Hp.
Qed.

Lemma distinct_filter f s s' :
  distinct s -> parkedWins s' = List.filter f (parkedWins s) -> windowKey (view s') = windowKey (view s) -> distinct s'.
Proof.
  intros (H1 & H2 & H3) E1 E2. unfold distinct, keys. rewrite E1, E2. split; [by apply NoDup_lfilter|]. split.
  - intros Hin. by apply keys_filter in Hin.
  - by apply Forall_lfilter.
Qed.

Lemma distinct_same s s' :
  distinct s -> parkedWins s' = parkedWins s -> windowKey (view s') = windowKey (view s) -> distinct s'.
Proof. unfold distinct, keys. by intros H -> ->. Qed.

(** The live window goes behind and another, not among the parked, comes. *)
Lemma distinct_parked ps k v next n :
  NoDup (p_key <$> ps) -> windowKey next ∉ p_key <$> ps -> Forall named ps -> k = windowKey v -> windowKey next <> k ->
  let qs := without_key k ps ++ [MkParked n k v] in
  NoDup (p_key <$> qs) /\ windowKey next ∉ p_key <$> qs /\ Forall named qs.
Proof.
  intros H1 H2 H3 -> Hne qs. unfold qs. rewrite fmap_app. split; [|split].
  - apply NoDup_app. split; [by apply NoDup_lfilter|]. split; [|apply NoDup_singleton].
    cbn. intros x Hx ->%list_elem_of_singleton. by apply not_in_without_key in Hx.
  - rewrite elem_of_app. cbn. rewrite list_elem_of_singleton. intros [Hx|Hx]; [|done].
    apply H2. by apply keys_filter in Hx.
  - apply Forall_app. split; [by apply Forall_lfilter|]. by repeat constructor.
Qed.

Lemma stash_key d v : windowKey (stash d v) = windowKey v.
Proof. by destruct v as [[[c|] dd l]|cs [t|] sel nt|c|k|k|]. Qed.

Lemma distinct_go next s : distinct s -> distinct (go next s).
Proof.
  intros (H1 & H2 & H3). destruct (go_rest next s) as (E1 & _ & _ & E4). unfold distinct, keys. rewrite E4, E1.
  set (v := carry _ _ _). destruct (started_rest next s) as (A & B & _ & _ & D).
  unfold rearrange, park. cbn [set_parked set_wins view typed parkedWins fresh minimizedWins]. rewrite A, D.
  destruct (is_gate v).
  { cbn. split; [constructor|]. split; [apply not_elem_of_nil|constructor]. }
  destruct (bool_decide_reflect (windowKey v = windowKey (view s))) as [E|Hne].
  { rewrite B, E. by split. }
  rewrite B. set (ps := without_key (windowKey v) (parkedWins s)).
  assert (P1 : NoDup (p_key <$> ps)) by by apply NoDup_lfilter.
  assert (P2 : windowKey v ∉ p_key <$> ps) by apply not_in_without_key.
  assert (P3 : Forall named ps) by by apply Forall_lfilter.
  destruct (isPrimaryWindow (view s)); [|by split].
  pose proof (distinct_parked ps (windowKey (view s)) (stash (typed s) (view s)) v (fresh (started next s)) P1 P2 P3) as H.
  cbn zeta in H. rewrite stash_key in H. by apply H.
Qed.
Definition good (s : Desk) : Prop := distinct s /\ reveals s.

Lemma good_go v s : good s -> good (go v s).
Proof. intros [H1 H2]. split; [by apply distinct_go|]. eapply reveals_undisturbed; [exact H2|apply undisturbed_go]. Qed.

Lemma good_sub f s s' :
  good s -> parkedWins s' = List.filter f (parkedWins s) -> windowKey (view s') = windowKey (view s) ->
  (forall gen top v, TReveal gen top v ∈ tasks s' -> TReveal gen top v ∈ tasks s) -> navGen s' = navGen s -> good s'.
Proof.
  intros [H1 H2] E1 E2 H3 E3. split; [by apply (distinct_filter f s)|].
  eapply reveals_undisturbed; [exact H2|]. apply undisturbed_sub; [done|done|]. rewrite E1. intros p [_ Hp]%elem_of_lfilter. done.
Qed.

Lemma good_same s s' :
  good s -> parkedWins s' = parkedWins s -> windowKey (view s') = windowKey (view s) -> tasks s' = tasks s ->
  navGen s' = navGen s -> good s'.
Proof.
  intros H E1 E2 E3 E4. apply (good_sub (fun _ => true) s); [done| |done| |done].
  - rewrite E1. clear. induction (parkedWins s) as [|p ps IH]; cbn; [done|by rewrite <-IH].
  - by rewrite E3.
Qed.

Lemma good_bump s s' :
  good s -> parkedWins s' = parkedWins s -> windowKey (view s') = windowKey (view s) -> tasks s' = tasks s ->
  navGen s' = S (navGen s) -> good s'.
Proof.
  intros [H1 H2] E1 E2 E3 E4. split; [by apply (distinct_same s)|]. eapply reveals_undisturbed; [exact H2|].
  apply undisturbed_bump; [done|]. lia.
Qed.

Lemma good_spawn t s : (forall gen top v, t <> TReveal gen top v) -> good s -> good (spawn t s).
Proof.
  intros Ht [H1 H2]. split; [by apply (distinct_same s)|]. eapply reveals_undisturbed; [exact H2|]. by apply undisturbed_spawn.
Qed.

Lemma good_buddies s : good s -> good (openBuddies s).
Proof. by apply good_spawn. Qed.

Lemma key_inj {A} (f : Parked -> A) ps p q : NoDup (f <$> ps) -> p ∈ ps -> q ∈ ps -> f p = f q -> p = q.
Proof.
  induction ps as [|x ps IH]; cbn; [intros _ Hp; by apply not_elem_of_nil in Hp|].
  intros [Hx Hn]%NoDup_cons [->|Hp]%elem_of_cons [->|Hq]%elem_of_cons E; [done|..|by apply IH].
  - destruct Hx. rewrite E. by apply list_elem_of_fmap_2.
  - destruct Hx. rewrite <-E. by apply list_elem_of_fmap_2.
Qed.

Lemma reopened_key gen top v r next :
  reopened v r = Some next -> fits (TReveal gen top v) r = true -> windowKey next = windowKey v.
Proof.
  destruct v as [[[c|] d l]|cs [[[c|] d l]|] sel nt|c|k|k|], r as [[ca da la]| | |]; cbn; intros H Hf;
    simplify_eq; try done; apply bool_decide_eq_true in Hf; by subst.
Qed.

Lemma good_commit gen top v next s :
  good s -> (gen = navGen s -> sole top v (parkedWins s)) -> windowKey next = windowKey v -> good (commit gen top next s).
Proof.
  intros [(H1 & H2 & H3) Hr] Hs Hk. unfold commit. destruct (bool_decide_reflect (gen = navGen s)) as [E|]; [|done].
  destruct (Hs E) as [_ Hu]. split.
  - unfold distinct, keys. cbn [render set_typed set_view set_parked set_wins parkedWins view]. split; [by apply NoDup_lfilter|].
    split; [|by apply Forall_lfilter]. intros (p & Ep & Hp)%list_elem_of_fmap. apply elem_of_lfilter in Hp as [Hp Hin].
    rewrite bool_decide_true in Hp; [done|]. apply Hu; congruence.
  - eapply reveals_undisturbed; [exact Hr|]. apply undisturbed_sub; [done|done|]. by intros p [_ Hp]%elem_of_lfilter.
Qed.

Lemma sole_top s top : distinct s -> last (parkedWins s) = Some top -> forall p, p ∈ parkedWins s -> p_key p = windowKey (p_view top) -> uid p = uid top.
Proof.
  intros (H1 & _ & H3) Hl p Hp Hk. apply last_Some_elem_of in Hl. pose proof (proj1 (Forall_forall _ _) H3 top Hl) as Hn.
  by rewrite (key_inj p_key _ p top H1 Hp Hl) by (rewrite Hn; done).
Qed.

Lemma good_reveal s : good s -> good (revealNextWindow s).
Proof.
  intros Hg. assert (Hb : good (bump s)) by by apply (good_bump s). unfold revealNextWindow. cbn zeta.
  change (parkedWins (bump s)) with (parkedWins s). destruct (last (parkedWins s)) as [top|] eqn:Hl.
  - pose proof (sole_top s top (proj1 Hg) Hl) as Hs. destruct (needs_fetch (p_view top)) eqn:Hf.
    + split; [by apply (distinct_same s); [apply Hg|..]|]. intros gen t v.
      cbn [spawn set_tasks tasks bump]. rewrite elem_of_app, list_elem_of_singleton. intros [Hin|[= -> -> ->]].
      * destruct Hg as [_ Hr]. destruct (Hr _ _ _ Hin) as [Hle _]. cbn. split; lia.
      * split; [done|]. by intros _.
    + assert (H : good (commit (navGen (bump s)) (uid top) (p_view top) (bump s))).
      { destruct Hb as [(B1 & B2 & B3) B4]. unfold commit. rewrite bool_decide_true by done. split.
        - unfold distinct, keys. cbn [render set_typed set_view set_parked set_wins parkedWins view bump].
          split; [by apply NoDup_lfilter|]. split; [|by apply Forall_lfilter].
          intros (p & Ep & Hp)%list_elem_of_fmap. apply elem_of_lfilter in Hp as [Hp Hin].
          rewrite bool_decide_true in Hp; [done|]. by apply Hs.
        - eapply reveals_undisturbed; [exact B4|]. apply undisturbed_sub; [done|done|]. by intros p [_ Hp]%elem_of_lfilter. }
      destruct (is_buddies _); [by apply good_buddies|done].
  - assert (H : good (set_view VDesktop (bump s))).
    { destruct Hb as [_ B4]. apply last_None in Hl. split.
      - unfold distinct, keys. cbn. rewrite Hl. cbn. split; [constructor|]. split; [apply not_elem_of_nil|constructor].
      - eapply reveals_undisturbed; [exact B4|]. by apply undisturbed_sub. }
    destruct (is_buddies (view (bump s))); [by apply (good_same (set_view VDesktop (bump s)))|by apply good_buddies].
Qed.
Lemma good_docked id t l s : good s -> good (docked id t l s).
Proof.
  intros [(H1 & H2 & H3) Hr]. split.
  - unfold distinct, keys, docked. cbn [render set_typed set_resume set_view set_parked set_wins parkedWins view].
    split; [by apply NoDup_lfilter, NoDup_lfilter|]. split; [|by apply Forall_lfilter, Forall_lfilter].
    change (KKind "channels" ∉ p_key <$> without_key (KConv id) (without_key (KKind "channels") (parkedWins s))).
    intros Hin. apply keys_filter in Hin. by apply not_in_without_key in Hin.
  - eapply reveals_undisturbed; [exact Hr|]. apply undisturbed_sub; [done|done|].
    by intros p [_ [_ Hp]%elem_of_lfilter]%elem_of_lfilter.
Qed.

Lemma good_popOut s : good s -> good (popOutActive s).
Proof.
  intros Hg. pose proof Hg as [(H1 & H2 & H3) Hr]. unfold popOutActive. destruct (view s) as [t|cs [t|] sel nt|c|k|k|] eqn:Ev; try done.
  destruct (conv t) as [id|] eqn:Et; [|done]. cbn zeta. split.
  - unfold distinct, keys, park.
    cbn [render set_typed set_resume set_view set_parked set_wins parkedWins minimizedWins fresh view bump].
    apply (distinct_parked (without_key (KConv id) (parkedWins s)) (KKind "channels") (VChannels _ None None nt)
      (VConversation (with_draft (default EmptyString (typed s)) t)) (fresh s)).
    + by apply NoDup_lfilter.
    + cbn. rewrite Et. apply not_in_without_key.
    + by apply Forall_lfilter.
    + done.
    + cbn. by rewrite Et.
  - eapply reveals_undisturbed; [exact Hr|]. apply undisturbed_bump; [done|]. cbn. lia.
Qed.

Lemma strip_key id v : windowKey (strip id v) = windowKey v.
Proof. destruct v as [t|cs [t|] sel nt|c|k|k|]; cbn; try done. by destruct (bool_decide _). Qed.
Lemma renew_keys f n ps : p_key <$> renew f n ps = p_key <$> ps.
Proof. revert n. induction ps as [|p ps IH]; intros n; cbn; [done|by rewrite IH]. Qed.
Lemma renew_named f n ps : (forall v, windowKey (f v) = windowKey v) -> Forall named ps -> Forall named (renew f n ps).
Proof.
  intros Hf H. revert n. induction H as [|p ps H _ IH]; intros n; cbn; constructor; [|apply IH].
  unfold named. cbn. by rewrite Hf.
Qed.

Lemma good_purge id s : good s -> existsb (revealing s) (tasks s) = false -> good (purgeWindowsFor id s).
Proof.
  intros [(H1 & H2 & H3) Hr] Hq. split.
  - unfold distinct, keys. cbn [purgeWindowsFor set_wins parkedWins view]. rewrite renew_keys.
    split; [by apply NoDup_lfilter|]. split; [intros Hin; by apply keys_filter in Hin|].
    apply renew_named; [apply strip_key|by apply Forall_lfilter].
  - intros gen top v Hin. cbn in Hin. destruct (Hr _ _ _ Hin) as [Hle _]. split; [done|]. intros E. exfalso.
    assert (Ht : existsb (revealing s) (tasks s) = true); [|congruence].
    apply existsb_exists. exists (TReveal gen top v). split; [by apply list_elem_of_In|]. by apply bool_decide_eq_true.
Qed.

Lemma patch_key card v : windowKey (patch card v) = windowKey v.
Proof. by destruct v. Qed.

Lemma Forall2_keys (Q : Parked -> Parked -> Prop) ps qs :
  Forall2 (fun p q => p_key q = p_key p /\ Q p q) ps qs -> p_key <$> qs = p_key <$> ps.
Proof. induction 1 as [|p q ps qs [H _] _ IH]; cbn; [done|by rewrite H, IH]. Qed.

Lemma good_patch card s : good s -> good (patchBuddySnapshots card s).
Proof.
  intros [(H1 & H2 & H3) Hr]. unfold patchBuddySnapshots. cbn zeta.
  destruct (patch_fold card (parkedWins s) [] (fresh s)) as (qs & m & -> & _ & Hf & _). cbn [app].
  pose proof (Forall2_keys _ _ _ Hf) as Hk. split.
  - unfold distinct, keys. cbn [set_wins parkedWins view]. rewrite Hk. split; [done|]. split; [done|].
    apply Forall_forall. intros q Hq. apply (Forall2_in_r _ _ _ _ Hf) in Hq as (p & Hp & E1 & E2 & _).
    unfold named. rewrite E1, E2, patch_key. by apply (proj1 (Forall_forall _ _) H3).
  - eapply reveals_undisturbed; [exact Hr|]. split; [done|]. right. split; [done|]. cbn [set_wins parkedWins].
    intros q Hq. apply (Forall2_in_r _ _ _ _ Hf) in Hq as (p & Hp & E1 & E2 & E3).
    destruct (is_buddies (p_view p)) eqn:Hb; [left|right; by exists p].
    rewrite E1. rewrite (proj1 (Forall_forall _ _) H3 p Hp). by destruct (p_view p).
Qed.

Lemma set_draft_key d s :
  windowKey (view match view s with
             | VConversation t => set_view (VConversation (with_draft d t)) s
             | VChannels cs (Some t) sel nt => set_view (VChannels cs (Some (with_draft d t)) sel nt) s
             | _ => s
             end) = windowKey (view s).
Proof. destruct (view s) as [[[c|] dd l]|cs [t|] sel nt|c|k|k|] eqn:E; cbn; by rewrite ?E. Qed.

Lemma good_repaint s : good s -> good (repaintPreservingDraft s).
Proof.
  intros Hg. apply (good_same s); [done|..]; unfold repaintPreservingDraft; destruct (typed s) as [d|]; try done.
  2: cbn [render set_typed view]; apply set_draft_key.
  all: by destruct (view s) as [t|cs [t|] sel nt|c|k|k|].
Qed.

Lemma raised_perm (f : Parked -> bool) ps : List.filter (fun p => negb (f p)) ps ++ List.filter f ps ≡ₚ ps.
Proof.
  induction ps as [|p ps IH]; cbn; [done|]. destruct (f p); cbn; [|by constructor].
  rewrite <-Permutation_middle. by constructor.
Qed.

Lemma good_perm s s' :
  good s -> parkedWins s' ≡ₚ parkedWins s -> windowKey (view s') = windowKey (view s) -> tasks s' = tasks s ->
  navGen s' = navGen s -> good s'.
Proof.
  intros [(H1 & H2 & H3) Hr] E1 E2 E3 E4. split.
  - unfold distinct, keys. rewrite E1, E2. by split.
  - eapply reveals_undisturbed; [exact Hr|]. apply undisturbed_sub; [by rewrite E3|done|]. intros p. by rewrite E1.
Qed.

Lemma good_inbound id typing quiet s : good s -> good (inbound_message id typing quiet s).
Proof.
  intros Hg. unfold inbound_message. destruct (shows id (view s)); [by apply good_spawn|]. cbn zeta.
  assert (H : forall s1, good s1 -> good (if is_channels (view s1) then spawn TList s1 else s1)).
  { intros s1 H1. destruct (is_channels _); [by apply good_spawn|done]. }
  apply H. destruct (windowShowing id s) as [[]|].
  - destruct (_ && _); [by apply good_spawn|done].
  - by apply good_repaint, (good_same s).
  - match goal with |- context [set_parked ?ps s] => set (s1 := set_parked ps s) end.
    assert (H1 : good s1) by (apply (good_perm s); [done|apply (raised_perm (fun p => shows id (p_view p)))|done..]).
    destruct (typing || _); [by apply good_repaint|]. destruct (last _); [by apply good_go|done].
  - destruct (_ && _); [by apply good_spawn|done].
Qed.
Lemma good_settle t r stay s :
  good s -> fits t r = true ->
  (forall gen top v, t = TReveal gen top v -> gen = navGen s -> sole top v (parkedWins s)) -> good (settle t r stay s).
Proof.
  intros Hg Hf Hs. unfold settle, relisted, goToActive, row_opened. destruct t as [gen top v|gen v|v|gen id a|gen| | | | | |gen id cs|].
  { destruct (reopened v r) as [next|] eqn:E; [|done]. apply (good_commit gen top v); [done|by apply Hs|].
    by apply (reopened_key gen top v r). }
  all: destruct r; try done;
    repeat match goal with
    | |- good (match ?x with _ => _ end) => destruct x; try done
    | |- good (if ?x then _ else _) => destruct x; try done
    end; auto using good_go, good_docked, good_reveal; cbn zeta; apply good_go; by apply (good_same s).
Qed.

Lemma reveal_of_delete i s gen top v : TReveal gen top v ∈ delete i (tasks s) -> TReveal gen top v ∈ tasks s.
Proof.
  intros Hin. apply list_elem_of_In. apply list_elem_of_In in Hin. rewrite delete_take_drop in Hin.
  rewrite <-(take_drop i (tasks s)). apply in_app_iff in Hin as [Hin|Hin]; apply in_app_iff; [by left|right].
  destruct (drop i (tasks s)) as [|x l] eqn:E.
  - apply (f_equal (drop 1)) in E. rewrite drop_drop, Nat.add_1_r in E. by rewrite E in Hin.
  - apply (f_equal (drop 1)) in E. rewrite drop_drop, Nat.add_1_r in E. rewrite E in Hin. by right.
Qed.

Lemma good_step o s : good s -> orderly o s = true -> good (step o s).
Proof.
  intros Hg Ho. destruct o as [v|d|k| | |k| | |id| |a id|rm id|card|id ty q|ms|i r stay]; cbn [step].
  - by apply good_go.
  - destruct (typed s); [by apply (good_same s)|done].
  - unfold focusParkedWindow. destruct (List.find _ _) as [p|]; [|done]. destruct (needs_fetch _).
    { cbn zeta. apply good_spawn; [done|]. by apply (good_bump s). }
    destruct (is_buddies _); [by apply good_buddies, good_go|by apply good_go].
  - unfold minimize. cbn zeta. apply good_spawn; [done|]. by apply (good_same s).
  - by apply good_spawn.
  - unfold restore. destruct (List.find _ _) as [m|]; [|done]. cbn zeta.
    set (s1 := set_minimized _ _). assert (H1 : good s1) by by apply (good_same s). clearbody s1.
    destruct (m_view m) as [t|cs [[[c|] d l]|] sel nt|c|k'|k'|]; cbn [is_buddies needs_fetch];
      try (by apply good_go); try (by apply good_spawn). destruct (bool_decide _); [by apply good_spawn|by apply good_go].
  - unfold dockActive. destruct (view s); try done. destruct (conv _); [|done]. cbn zeta. apply good_spawn; [done|].
    by apply (good_bump s).
  - by apply good_popOut.
  - unfold open_row. by destruct (view s); apply good_spawn.
  - unfold show_list. destruct (view s) as [t|cs a sel nt|c|k|k|]; try done. cbn zeta. apply good_go.
    destruct (a ≫= conv); [by apply (good_same s)|done].
  - destruct (shows id (view s)); [|done]. unfold armedDestructive. repeat case_match; by apply (good_same s).
  - cbn [orderly] in Ho. apply negb_true_iff in Ho. pose proof (good_purge id s Hg Ho) as H. unfold closed_for_good.
    cbn zeta. destruct (_ && _); by apply good_spawn.
  - unfold identity_updated. destruct (is_buddies _); [by apply good_buddies, good_go|by apply good_patch].
  - by apply good_inbound.
  - by apply (good_same s).
  - cbn [orderly] in Ho. destruct (tasks s !! i) as [t|] eqn:Hi; [|done].
    assert (H0 : good (set_tasks (delete i (tasks s)) s)).
    { destruct Hg as [H1 H2]. split; [by apply (distinct_same s)|]. eapply reveals_undisturbed; [exact H2|].
      apply undisturbed_sub; [|done|done]. intros gen top v. by apply reveal_of_delete. }
    apply good_settle; [done..|]. intros gen top v -> E. destruct Hg as [_ Hr].
    by apply (Hr gen top v); [apply (list_elem_of_lookup_2 _ i)|].
Qed.

Lemma good_new v : good (new_desk v).
Proof.
  split; [split; [constructor|split; [apply not_elem_of_nil|constructor]]|]. intros gen top w Hin. by apply not_elem_of_nil in Hin.
Qed.

(** C21. Every window has a key of its own, and its entry says which.  In every run where the worker answers
    what it is asked, and no conversation is closed for good while a window is being brought back, no two
    parked windows have the same key and the live one is not parked as well, whatever else happens before a
    late answer arrives. *)
Theorem windows_are_distinct (v : View) (os : list op) :
  orderly_run os (new_desk v) = true ->
  let s := run os (new_desk v) in
  NoDup (p_key <$> parkedWins s) /\ windowKey (view s) ∉ p_key <$> parkedWins s /\
  (forall p, p ∈ parkedWins s -> p_key p = windowKey (p_view p)).
Proof.
  intros Ho s. assert (Hg : good s).
  { unfold s. induction os as [|o os IH] using rev_ind; [apply good_new|].
    rewrite orderly_run_snoc in Ho. apply andb_true_iff in Ho as [Ho1 Ho2]. rewrite desk_run_snoc. apply good_step; auto. }
  destruct Hg as [(H1 & H2 & H3) _]. split; [done|]. split; [done|]. by apply Forall_forall.
Qed.

(** ** Closing, and messages for a parked window *)

(** The navigation away from a conversation leaves an entry for it. *)
Lemma go_parks (s : Desk) (t : Transmit) (id card : string) :
  view s = VConversation t -> conv t = Some id ->
  exists p, p ∈ parkedWins (go (VBuddies card) s) /\ p_key p = KConv id /\ active_id (p_view p) = Some id.
Proof.
  intros Ev Ht. destruct (go_rest (VBuddies card) s) as (_ & _ & _ & ->). rewrite Ev.
  assert (Ec : carry (typed s) (VConversation t) (VBuddies card) = VBuddies card).
  { unfold carry. destruct (typed s); [|done]. by destruct (blank _). }
  rewrite Ec. destruct (started_rest (VBuddies card) s) as (E1 & _). unfold rearrange, park.
  cbn [is_gate set_parked set_wins view]. rewrite E1, Ev. destruct t as [c d l]. cbn in Ht. subst c.
  cbn [windowKey kind_of]. rewrite bool_decide_false by done. cbn [isPrimaryWindow parkedWins set_parked set_wins].
  eexists. split; [apply elem_of_app; right; apply list_elem_of_here|]. done.
Qed.

Lemma closing_goes_home (s : Desk) (t : Transmit) (id card : string) (removed stay : bool) :
  view s = VConversation t -> tasks s = [] ->
  run [OClosedForGood removed id; OSettle 0 (RBuddies card) stay] s = go (VBuddies card) (set_tasks [] (purgeWindowsFor id s)).
Proof.
  intros Hv Hn. cbn [run foldl step]. unfold closed_for_good. cbn zeta.
  replace (is_channels (view (purgeWindowsFor id s))) with false by (cbn; by rewrite Hv). rewrite andb_false_r.
  destruct s as [v ps ms n fr ty re ar dr cl ts]. cbn in Hn. subst ts. cbn -[go bool_decide].
  by rewrite bool_decide_true.
Qed.

(** A conversation closed for good stays on the desktop.  Blocking or removing the conversation in the
    live window first drops its other copies and then navigates to the buddy list, which parks the live
    window: an entry for the retired channel, with its name and its draft, is left behind. *)
Theorem closed_conversation_stays_parked (s : Desk) (t : Transmit) (id card : string) (removed stay : bool) :
  view s = VConversation t -> conv t = Some id -> tasks s = [] ->
  exists p, p ∈ parkedWins (run [OClosedForGood removed id; OSettle 0 (RBuddies card) stay] s) /\
    p_key p = KConv id /\ active_id (p_view p) = Some id.
Proof.
  intros Hv Ht Hn. rewrite (closing_goes_home s t) by done. by apply (go_parks _ t).
Qed.

(** A message for a parked conversation makes it the live window, as it was put aside; only the list of
    channels is asked for. *)
Lemma parked_is_raised (v : View) (os : list op) (id : string) :
  let s := run os (new_desk v) in
  windowShowing id s = Some ParkedBehind -> isPrimaryWindow (view s) = true ->
  let s' := step (OInbound id false false) s in
  active_id (view s') = Some id /\ no_log (view s') /\
  (tasks s' = tasks s \/ tasks s' = tasks s ++ [TList]).
Proof.
  intros s Hw Hp s'. pose proof (clean_run v os) as [Hc _]. fold s in Hc. clearbody s. subst s'. cbn [step]. unfold inbound_message.
  assert (Hl : shows id (view s) = false) by (unfold windowShowing in Hw; by destruct (shows id (view s))).
  rewrite Hl, Hw, Hp. cbn zeta. cbn [orb negb andb].
  set (raised := List.filter _ (parkedWins s)).
  assert (Hr : exists target, last raised = Some target /\ shows id (p_view target) = true /\ no_log (p_view target)).
  { unfold windowShowing in Hw. rewrite Hl in Hw. destruct (existsb _ (minimizedWins s)); [done|].
    destruct (existsb (fun p => shows id (p_view p)) (parkedWins s)) eqn:He; [|done].
    destruct (last raised) as [target|] eqn:El.
    - exists target. apply last_Some_elem_of in El. apply elem_of_lfilter in El as [Hs Hin]. split; [done|]. split; [done|].
      by apply (proj1 (Forall_forall _ _) Hc).
    - apply last_None in El. apply existsb_exists in He as (p & Hin & Hs).
      assert (Hx : p ∈ raised) by (apply elem_of_lfilter; split; [done|by apply list_elem_of_In]).
      rewrite El in Hx. by apply not_elem_of_nil in Hx. }
  destruct Hr as (target & -> & Hs & Hn). set (s1 := set_parked _ s).
  destruct (go_rest (p_view target) s1) as (E1 & E2 & _).
  assert (H : active_id (view (go (p_view target) s1)) = Some id /\ no_log (view (go (p_view target) s1))).
  { rewrite E1. split; [|by apply carry_no_log]. apply (bool_decide_eq_true_1 (active_id _ = Some id)).
    by rewrite <-(carry_shows id (typed s1) (view s1)) in Hs. }
  destruct (is_channels _); cbn [spawn set_tasks view tasks]; rewrite E2; tauto.
Qed.

(** What happens while the user only looks, types or waits. *)
Definition idle (o : op) : bool := match o with OSettle _ _ _ | OType _ | OTick _ => true | _ => false end.

(** A blank window with nothing but lists of channels to come. *)
Definition left_blank (id : string) (s : Desk) : Prop :=
  active_id (view s) = Some id /\ no_log (view s) /\ Forall (fun t => t = TList) (tasks s).

Lemma relisted_left_blank id l s : left_blank id s -> left_blank id (relisted l s).
Proof.
  intros Hb. unfold relisted. destruct (view s) as [t|cs a sel nt|c|k|k|] eqn:Ev; try exact Hb.
  destruct Hb as (H1 & H2 & H3). rewrite Ev in H1, H2.
  destruct a as [t|]; [|done]. cbn [fmap option_fmap option_map].
  destruct (go_rest (VChannels l (Some (with_draft (default EmptyString (typed s)) t)) sel None) s) as (E1 & E2 & _).
  unfold left_blank. rewrite E1, E2. split_and!; [|by apply carry_no_log; destruct t|done].
  set (next := VChannels _ _ _ _). apply (bool_decide_eq_true_1 (active_id _ = Some id)).
  change (shows id (carry (typed s) (view s) next) = true). rewrite carry_shows. apply bool_decide_eq_true_2. destruct t as [[c|] d lg]; exact H1.
Qed.

Lemma idle_left_blank id o s : idle o = true -> left_blank id s -> left_blank id (step o s).
Proof.
  intros Ho Hb. destruct o; try done; cbn [step].
  - destruct (typed s); [exact Hb | done].
  - destruct (tasks s !! i) as [t|] eqn:Et; [|done]. destruct Hb as (H1 & H2 & H3).
    pose proof (proj1 (Forall_lookup _ _) H3 i t Et) as ->.
    assert (Hb : left_blank id (set_tasks (delete i (tasks s)) s)) by (split_and!; [done..|by apply Forall_delete]).
    destruct r; try exact Hb. by apply relisted_left_blank.
Qed.

(** C22. A message for a parked conversation raises a blank window, and blank it stays.  In every state that
    can be reached, with the user not typing and no answer of the worker under way but lists of channels,
    a message for a conversation whose window is parked makes that window the live one with an empty log:
    the handler asks for nothing that would fill it.  So however the user then types or waits, and whatever
    is answered to what was asked, the log stays empty: the message is not shown and its time does
    not start. *)
Theorem raised_window_is_blank (v : View) (os after : list op) (id : string) :
  let s := run os (new_desk v) in
  windowShowing id s = Some ParkedBehind -> isPrimaryWindow (view s) = true ->
  Forall (fun t => t = TList) (tasks s) -> forallb idle after = true ->
  let s' := run after (step (OInbound id false false) s) in
  active_id (view s') = Some id /\ no_log (view s').
Proof.
  intros s Hw Hp Ht Ha. pose proof (parked_is_raised v os id Hw Hp) as (H1 & H2 & H3). fold s in H1, H2, H3.
  assert (Hb : left_blank id (step (OInbound id false false) s)).
  { split_and!; [done..|]. destruct H3 as [-> | ->]; [done|]. apply Forall_app. split; [done|]. by constructor. }
  clear H1 H2 H3. revert Hb. generalize (step (OInbound id false false) s). clear s Hw Hp Ht.
  induction after as [|o os' IH]; intros s Hb; [by destruct Hb as (? & ? & _)|]. cbn in Ha. apply andb_true_iff in Ha as [Ho Ha].
  cbn [run foldl]. apply (IH Ha). by apply idle_left_blank.
Qed.
End WindowsFacts.

Module WindowsToy.
Import WindowsFacts.
#[local] Open Scope string_scope.

Definition chat (id : string) (log : list string) : Transmit := MkTransmit (Some id) "" log.

(** Two chats one after the other, the second half typed; then it is closed, the first is asked for again,
    and a card and a message arrive before the answer. *)
Definition evening : list op :=
  [OGo (VConversation (chat "a" ["hi"])); OType "dear a"; OGo (VConversation (chat "b" ["yo"])); OType "dear b";
   OClose; OSettle 0 RFail false; OIdentity "new card"; OInbound "c" true false;
   OSettle 0 (RTransmit (chat "a" ["hi"; "there"])) false].
Definition desk : Desk := run evening (new_desk (VBuddies "card")).

Example first_chat_is_back :
  (view desk, p_key <$> parkedWins desk, typed desk)
  = (VConversation (MkTransmit (Some "a") "dear a" ["hi"; "there"]), [KKind "buddies"], Some "dear a").
Proof. vm_compute. reflexivity. Qed.

Lemma windows_are_distinct_witness :
  orderly_run evening (new_desk (VBuddies "card")) = true /\ NoDup (p_key <$> parkedWins desk).
Proof. split; [vm_compute; reflexivity|]. apply (windows_are_distinct (VBuddies "card") evening). vm_compute. reflexivity. Defined.

(** Without order: another conversation is closed for good while the first is asked for, its entry is made
    anew and not recognized, and the live window is parked as well. *)
Example ghost_window :
  let os := [OGo (VConversation (chat "a" ["hi"])); OGo (VConversation (chat "b" ["yo"]));
             OClose; OSettle 0 RFail false; OClosedForGood false "b"; OSettle 0 (RTransmit (chat "a" ["hi"])) false] in
  let s := run os (new_desk (VBuddies "card")) in
  orderly_run os (new_desk (VBuddies "card")) = false /\
  windowKey (view s) = KConv "a" /\ p_key <$> parkedWins s = [KKind "buddies"; KConv "a"].
Proof. vm_compute. split_and!; reflexivity. Qed.

Lemma closed_conversation_stays_parked_witness :
  let s := run [OGo (VConversation (chat "a" ["hi"])); OType "dear a"; OTap "block" "a"; OTap "block" "a"] (new_desk (VBuddies "card")) in
  (view s = VConversation (chat "a" ["hi"]) /\ tasks s = []) /\
  exists p, p ∈ parkedWins (run [OClosedForGood false "a"; OSettle 0 (RBuddies "card") false] s) /\
    p_key p = KConv "a" /\ active_id (p_view p) = Some "a".
Proof.
  intros s. split; [split; vm_compute; reflexivity|].
  apply (closed_conversation_stays_parked s (chat "a" ["hi"]) "a" "card" false false); vm_compute; reflexivity.
Defined.

Definition away_from_a : list op := [OGo (VConversation (chat "a" ["hi"])); OGo (VConversation (chat "b" ["yo"]))].

Lemma raised_window_is_blank_witness :
  let s := run away_from_a (new_desk (VBuddies "card")) in
  let s' := run [OType "hello?"; OTick 60000] (step (OInbound "a" false false) s) in
  active_id (view s') = Some "a" /\ no_log (view s').
Proof.
  apply (raised_window_is_blank (VBuddies "card") away_from_a [OType "hello?"; OTick 60000] "a").
  - vm_compute. reflexivity.
  - vm_compute. reflexivity.
  - vm_compute. constructor.
  - vm_compute. reflexivity.
Defined.

(** The answer to an earlier message that is still under way does fill it. *)
Example earlier_answer_fills_it :
  let os := [OGo (VConversation (chat "a" ["hi"])); OInbound "a" false false; OGo (VBuddies "card");
             OInbound "a" false false; OSettle 0 (RTransmit (chat "a" ["hi"; "there"])) false] in
  view (run os (new_desk (VBuddies "card"))) = VConversation (chat "a" ["hi"; "there"]).
Proof. vm_compute. reflexivity. Qed.

Example blank_window :
  let s := step (OInbound "a" false false) (run away_from_a (new_desk (VBuddies "card"))) in
  (view s, tasks s) = (VConversation (chat "a" []), []).
Proof. vm_compute. reflexivity. Qed.

(** The second tap within the time fires, a late one arms again, and a look elsewhere disarms. *)
Example two_taps :
  let tap wait os := (armedDestructive "block" "a"
    (run ([OGo (VConversation (chat "a" [])); OTap "block" "a"] ++ os ++ [OTick wait]) (new_desk (VBuddies "card")))).1 in
  (tap 8000 [], tap 8001 [], tap 0 [OGo (VConversation (chat "b" []))]) = (true, false, false).
Proof. vm_compute. reflexivity. Qed.
End WindowsToy.
