(* ===== verification/Reconnect.v ===== *)
(** * The link to the gateway (client/src/app.ts, lines 5704-5711, 5873-6013, 8116-8134)

    The page's view of the connection, the retry with its backoff, the timer that calls a link stable,
    the reconnect when a tab wakes, and the ways in as far as they bear on the link: the login (8173-8181),
    the registration (9254-9269) and the retry of the add-this-device wizard (8289).  Their own work is
    in SignIn.v.  A reload of the page ends the run.  The clock is part of the state and moves by a step of its own;
    a timer is the time it is due, and may fire any time after.  A dial is a call of the worker's
    [connectGateway], whose answer comes later. *)

From S2P Require Import Prelude.

Module Reconnect.

Definition RETRY_FLOOR_MS : Z := 3000.
Definition RETRY_CAP_MS : Z := 60000.
Definition STABLE_MS : Z := 5000.
Definition WAKE_RESYNC_MIN_MS : Z := 4000.

Inductive conn := Offline | Connecting | Live | Secure.

#[export] Instance conn_eq_dec : EqDecision conn.
Proof. solve_decision. Defined.

(** Who dials: a registration, which reads the answer for its key, or any other part of the page. *)
Inductive dialer := ByPage | ByRegistration.

#[export] Instance dialer_eq_dec : EqDecision dialer.
Proof. solve_decision. Defined.

(** How far a registration is: its dial has no answer yet, or it is about to sign in (with an account server,
    once that has taken the account). *)
Inductive registration := NotRegistering | Dialing | Publishing.

(** The ways in.  [logins] counts the logins that set [currentUsername] and wait for the appearance, before
    they dial. *)
Record Joins := MkJoins { hasAccount : bool; logins : nat; reg : registration }.

(** [signedIn] is [currentUsername !== '']; [dialing] lists the dials without an answer; [delays] and
    [wakes] record the retries scheduled and the wakes that dialed. *)
Record Link := MkLink {
  wsUrl : bool;
  signedIn : bool;
  joins : Joins;
  now : Z;
  connState : conn;
  connSince : option Z;
  connLastDrop : option Z;
  connAttempt : nat;
  connRetryAt : option Z;
  reconnectTimer : option Z;
  connStableTimer : option Z;
  lastWakeSync : Z;
  dialing : list dialer;
  delays : list Z;
  wakes : list Z }.

Definition new_page (ws account : bool) (t : Z) : Link :=
  MkLink ws false (MkJoins account 0 NotRegistering) t Offline None None 0 None None None 0 [] [] [].

Definition with_retry (attempt : nat) (at_ timer : option Z) (ds : list Z) (s : Link) : Link :=
  MkLink (wsUrl s) (signedIn s) (joins s) (now s) (connState s) (connSince s) (connLastDrop s) attempt at_ timer
    (connStableTimer s) (lastWakeSync s) (dialing s) ds (wakes s).
Definition with_stable (timer : option Z) (s : Link) : Link :=
  MkLink (wsUrl s) (signedIn s) (joins s) (now s) (connState s) (connSince s) (connLastDrop s) (connAttempt s)
    (connRetryAt s) (reconnectTimer s) timer (lastWakeSync s) (dialing s) (delays s) (wakes s).
Definition with_state (c : conn) (since drop : option Z) (s : Link) : Link :=
  MkLink (wsUrl s) (signedIn s) (joins s) (now s) c since drop (connAttempt s)
    (connRetryAt s) (reconnectTimer s) (connStableTimer s) (lastWakeSync s) (dialing s) (delays s) (wakes s).
Definition with_dialing (l : list dialer) (s : Link) : Link :=
  MkLink (wsUrl s) (signedIn s) (joins s) (now s) (connState s) (connSince s) (connLastDrop s) (connAttempt s)
    (connRetryAt s) (reconnectTimer s) (connStableTimer s) (lastWakeSync s) l (delays s) (wakes s).
Definition with_user (b : bool) (s : Link) : Link :=
  MkLink (wsUrl s) b (joins s) (now s) (connState s) (connSince s) (connLastDrop s) (connAttempt s)
    (connRetryAt s) (reconnectTimer s) (connStableTimer s) (lastWakeSync s) (dialing s) (delays s) (wakes s).
Definition with_joins (j : Joins) (s : Link) : Link :=
  MkLink (wsUrl s) (signedIn s) j (now s) (connState s) (connSince s) (connLastDrop s) (connAttempt s)
    (connRetryAt s) (reconnectTimer s) (connStableTimer s) (lastWakeSync s) (dialing s) (delays s) (wakes s).
Definition with_wake (t : Z) (ws : list Z) (s : Link) : Link :=
  MkLink (wsUrl s) (signedIn s) (joins s) (now s) (connState s) (connSince s) (connLastDrop s) (connAttempt s)
    (connRetryAt s) (reconnectTimer s) (connStableTimer s) t (dialing s) (delays s) ws.
Definition with_now (t : Z) (s : Link) : Link :=
  MkLink (wsUrl s) (signedIn s) (joins s) t (connState s) (connSince s) (connLastDrop s) (connAttempt s)
    (connRetryAt s) (reconnectTimer s) (connStableTimer s) (lastWakeSync s) (dialing s) (delays s) (wakes s).
Definition with_logins (n : nat) (s : Link) : Link := with_joins (MkJoins (hasAccount (joins s)) n (reg (joins s))) s.
Definition with_reg (r : registration) (s : Link) : Link := with_joins (MkJoins (hasAccount (joins s)) (logins (joins s)) r) s.

(** [Math.min(3000 * 2 ** connAttempt, 60000)] *)
Definition retry_delay (attempt : nat) : Z := Z.min (RETRY_FLOOR_MS * 2 ^ Z.of_nat attempt) RETRY_CAP_MS.

Definition scheduleReconnect (s : Link) : Link :=
  if negb (wsUrl s) || negb (signedIn s) || bool_decide (is_Some (reconnectTimer s)) then s
  else
    let delay := retry_delay (connAttempt s) in
    with_retry (S (connAttempt s)) (Some (now s + delay)) (Some (now s + delay)) (delays s ++ [delay]) s.

Definition is_up (c : conn) : bool := match c with Live | Secure => true | Offline | Connecting => false end.

Definition setConn (c : conn) (s : Link) : Link :=
  if match c, connState s with Live, Secure => true | _, _ => false end then s
  else
    let wasUp := is_up (connState s) in
    match c with
    | Live | Secure =>
        let since := if negb wasUp || bool_decide (connSince s = None) then Some (now s) else connSince s in
        with_stable (Some (now s + STABLE_MS))
          (with_retry (connAttempt s) None None (delays s) (with_state c since (connLastDrop s) s))
    | Offline =>
        let drop := if wasUp then Some (now s) else connLastDrop s in
        scheduleReconnect (with_stable None (with_state c None drop s))
    | Connecting => with_state c (connSince s) (connLastDrop s) s
    end.

(** [connectLive], up to the answer of the worker, and after it; [None] is a rejection. *)
Definition connectLive (who : dialer) (s : Link) : Link :=
  if negb (wsUrl s) then s
  else let s := setConn Connecting s in with_dialing (dialing s ++ [who]) s.

Fixpoint take_dial (who : dialer) (l : list dialer) : option (list dialer) :=
  match l with
  | [] => None
  | d :: l => if bool_decide (d = who) then Some l else cons d <$> take_dial who l
  end.

Definition connectLive_answered (who : dialer) (ok : option bool) (s : Link) : Link :=
  match take_dial who (dialing s) with
  | None => s
  | Some l =>
      let s := with_dialing l s in
      match ok with Some true => setConn Live s | _ => setConn Offline s end
  end.

Definition reconnectNow (s : Link) : Link :=
  connectLive ByPage (with_retry (connAttempt s) None None (delays s) s).

(** A login: it sets [currentUsername] and waits for the appearance, and then dials; a rejection of that
    wait ends it there. *)
Definition login_unlocked (s : Link) : Link := with_logins (S (logins (joins s))) (with_user true s).
Definition login_dials (appearance : bool) (s : Link) : Link :=
  match logins (joins s) with
  | O => s
  | S n => let s := with_logins n s in if appearance then connectLive ByPage s else s
  end.

(** A registration: it dials first, and signs in once the account server, when there is one, has taken
    the account under the key the dial gave.  One at a time. *)
Definition after_dial (ok : bool) (s : Link) : Link :=
  with_reg (if hasAccount (joins s) && negb ok then NotRegistering else Publishing) s.
Definition register_dials (s : Link) : Link :=
  match reg (joins s) with
  | NotRegistering =>
      if negb (wsUrl s) then after_dial false s else connectLive ByRegistration (with_reg Dialing s)
  | _ => s
  end.
Definition register_dialed (ok : option bool) (s : Link) : Link :=
  match reg (joins s) with
  | Dialing => after_dial (bool_decide (ok = Some true)) (connectLive_answered ByRegistration ok s)
  | _ => s
  end.
Definition register_signs_in (taken : bool) (s : Link) : Link :=
  match reg (joins s) with
  | Publishing =>
      let s := with_reg NotRegistering s in
      if negb (hasAccount (joins s)) || taken then with_user true s else s
  | _ => s
  end.

Definition wakeResync (provisioning : bool) (s : Link) : Link :=
  if negb (signedIn s) || negb (wsUrl s) || provisioning then s
  else if now s - lastWakeSync s <? WAKE_RESYNC_MIN_MS then s
  else reconnectNow (with_wake (now s) (wakes s ++ [now s]) s).

Definition disarmReconnect (s : Link) : Link :=
  with_retry 0 None None (delays s) (with_stable None s).

(** The timers that are due. *)
Definition reconnectTimer_fires (s : Link) : Link :=
  match reconnectTimer s with
  | Some t => if t <=? now s then reconnectNow (with_retry (connAttempt s) (connRetryAt s) None (delays s) s) else s
  | None => s
  end.

Definition connStableTimer_fires (s : Link) : Link :=
  match connStableTimer s with
  | Some t =>
      if t <=? now s then
        with_retry 0 (connRetryAt s) (reconnectTimer s) (delays s) (with_stable None s)
      else s
  | None => s
  end.

(** What happens to the page.  [OEvent] is the worker's report of the connection, which is never that it
    is connecting; [OLogin] and [OAppearance] are the login after the vault opened, [ORegister],
    [ORegisterAnswer] and [ORegistered] the registration; [OWizard] is the retry of the add-this-device
    wizard, [OSignOut] the end of [signOutNewDevice]; [OReconnect] is the button. *)
Inductive report := RLive | RSecure | ROffline.
Inductive op :=
  | OTick (ms : Z)
  | OLogin
  | OAppearance (ok : bool)
  | ORegister
  | ORegisterAnswer (ok : option bool)
  | ORegistered (taken : bool)
  | OWizard
  | OSignOut
  | OReconnect
  | OAnswer (ok : option bool)
  | OEvent (r : report)
  | ORetry
  | OStable
  | OWake (provisioning : bool).

Definition reported (r : report) : conn :=
  match r with RLive => Live | RSecure => Secure | ROffline => Offline end.

Definition step (o : op) (s : Link) : Link :=
  match o with
  | OTick ms => with_now (now s + Z.max 0 ms) s
  | OLogin => login_unlocked s
  | OAppearance ok => login_dials ok s
  | ORegister => register_dials s
  | ORegisterAnswer ok => register_dialed ok s
  | ORegistered taken => register_signs_in taken s
  | OWizard => connectLive ByPage s
  | OSignOut => disarmReconnect (with_user false s)
  | OReconnect => reconnectNow s
  | OAnswer ok => connectLive_answered ByPage ok s
  | OEvent r => setConn (reported r) s
  | ORetry => reconnectTimer_fires s
  | OStable => connStableTimer_fires s
  | OWake p => wakeResync p s
  end.

Definition run (os : list op) (s : Link) : Link := foldl (fun s o => step o s) s os.

(** ** Lemmas *)

(** The waits are bounded, and a link that is being made has a dial without an answer. *)
Definition bounded (s : Link) : Prop :=
  (forall d, d ∈ delays s -> RETRY_FLOOR_MS <= d <= RETRY_CAP_MS) /\
  (forall t, reconnectTimer s = Some t -> t <= now s + RETRY_CAP_MS).

Definition inv (s : Link) : Prop := bounded s /\ (connState s = Connecting -> dialing s <> []).

Definition throttled (s : Link) : Prop :=
  (forall t, last (wakes s) = Some t -> lastWakeSync s = t) /\
  (forall i t u, wakes s !! i = Some t -> wakes s !! S i = Some u -> t + WAKE_RESYNC_MIN_MS <= u).

Lemma retry_delay_bounds n : RETRY_FLOOR_MS <= retry_delay n <= RETRY_CAP_MS.
Proof.
  unfold retry_delay, RETRY_FLOOR_MS, RETRY_CAP_MS.
  assert (0 < 2 ^ Z.of_nat n) by (apply Z.pow_pos_nonneg; lia). lia.
Qed.

Lemma bounded_schedule s : bounded s -> bounded (scheduleReconnect s).
Proof.
  intros [Hd Ht]. unfold scheduleReconnect. destruct (_ || _); [done|].
  pose proof (retry_delay_bounds (connAttempt s)). split; cbn.
  - intros d Hin. apply elem_of_app in Hin as [Hin|Hin]; [auto|]. by apply list_elem_of_singleton in Hin as ->.
  - intros t [= <-]. lia.
Qed.

Lemma schedule_conn s : connState (scheduleReconnect s) = connState s /\ wsUrl (scheduleReconnect s) = wsUrl s /\
  signedIn (scheduleReconnect s) = signedIn s /\ joins (scheduleReconnect s) = joins s /\
  dialing (scheduleReconnect s) = dialing s.
Proof. unfold scheduleReconnect. by destruct (_ || _). Qed.

(** Whoever is signed in on a page with a gateway gets a retry. *)
Lemma schedule_retries s : wsUrl s = true -> signedIn s = true -> is_Some (reconnectTimer (scheduleReconnect s)).
Proof.
  intros Hw Hs. unfold scheduleReconnect. rewrite Hw, Hs. cbn [negb orb].
  destruct (decide (is_Some (reconnectTimer s))) as [Hr|Hr]; [by rewrite bool_decide_true|].
  rewrite bool_decide_false by done. cbn. by eexists.
Qed.

Lemma bounded_setConn c s : bounded s -> bounded (setConn c s).
Proof.
  intros [Hd Ht]. unfold setConn. destruct (match c, connState s with Live, Secure => true | _, _ => false end); [done|].
  destruct c; [apply bounded_schedule; by split|by split..].
Qed.

(** What a report or an answer leaves alone. *)
Lemma setConn_keeps c s : wsUrl (setConn c s) = wsUrl s /\ signedIn (setConn c s) = signedIn s /\
  joins (setConn c s) = joins s /\ dialing (setConn c s) = dialing s.
Proof.
  unfold setConn. destruct (match c, connState s with Live, Secure => true | _, _ => false end); [done|].
  destruct c; [|done..].
  by destruct (schedule_conn (with_stable None (with_state Offline None
    (if is_up (connState s) then Some (now s) else connLastDrop s) s))) as (_ & ? & ? & ? & ?).
Qed.

Lemma setConn_state c s : connState (setConn c s) = c \/ connState (setConn c s) = Secure.
Proof.
  unfold setConn. destruct (match c, connState s with Live, Secure => true | _, _ => false end) eqn:E.
  { right. by destruct c, (connState s). }
  left. destruct c; try done. apply schedule_conn.
Qed.

Lemma inv_report c s : bounded s -> c <> Connecting -> inv (setConn c s).
Proof.
  intros Hb Hc. split; [by apply bounded_setConn|]. destruct (setConn_state c s) as [-> | ->]; done.
Qed.

Lemma connectLive_conn who s : wsUrl s = true ->
  connState (connectLive who s) = Connecting /\ dialing (connectLive who s) = dialing s ++ [who] /\
  signedIn (connectLive who s) = signedIn s /\ joins (connectLive who s) = joins s.
Proof. intros Hw. unfold connectLive. by rewrite Hw. Qed.

Lemma inv_connectLive who s : inv s -> inv (connectLive who s).
Proof.
  intros Hi. unfold connectLive. destruct (wsUrl s); cbn [negb]; [|done]. split; [apply (bounded_setConn _ _ (proj1 Hi))|].
  intros _. cbn. by destruct (dialing s).
Qed.

Lemma inv_answered who ok s : inv s -> inv (connectLive_answered who ok s).
Proof.
  intros Hi. unfold connectLive_answered. destruct (take_dial _ _) as [l|]; [|done].
  destruct ok as [[]|]; (apply inv_report; [apply Hi|done]).
Qed.

Lemma inv_reconnectNow s : inv s -> inv (reconnectNow s).
Proof. intros [[Hd Ht] Hc]. apply inv_connectLive. by split. Qed.

Lemma inv_step o s : inv s -> inv (step o s).
Proof.
  intros Hi. destruct o as [ms| |ok| |ok|taken| | | |ok|r| | |p]; cbn [step].
  - destruct Hi as [[Hd Ht] Hc]. split; [split; [done|]|exact Hc]. cbn. intros t Hr. specialize (Ht t Hr). lia.
  - exact Hi.
  - unfold login_dials. destruct (logins _); [done|]. destruct ok; [by apply inv_connectLive|exact Hi].
  - unfold register_dials. destruct (reg _); try done. destruct (negb _); [exact Hi|by apply inv_connectLive].
  - unfold register_dialed. destruct (reg _); try done. by apply (inv_answered ByRegistration ok s).
  - unfold register_signs_in. destruct (reg _); try done. cbn zeta. by destruct (_ || _).
  - by apply inv_connectLive.
  - destruct Hi as [[Hd Ht] Hc]. by split; [split|].
  - by apply inv_reconnectNow.
  - by apply inv_answered.
  - apply inv_report; [apply Hi|by destruct r].
  - unfold reconnectTimer_fires. destruct (reconnectTimer s) as [t|] eqn:E; [|done]. destruct (t <=? now s); [|done].
    apply inv_reconnectNow. destruct Hi as [[Hd Ht] Hc]. by split; [split|].
  - unfold connStableTimer_fires. destruct (connStableTimer s) as [t|]; [|done]. by destruct (t <=? now s).
  - unfold wakeResync. destruct (_ || p); [done|]. destruct (_ <? _); [done|]. by apply inv_reconnectNow.
Qed.

Lemma inv_new_page ws acct t : inv (new_page ws acct t).
Proof. split; [split|]; [intros d Hd; by apply not_elem_of_nil in Hd|done|done]. Qed.

(** ** What a step does to a link that is down

    It leaves the link as it is, gives it a retry, or is itself a sign-in. *)
Definition signs_in (o : op) (s : Link) : Prop :=
  match o with OLogin => True | ORegistered taken => reg (joins s) = Publishing | _ => False end.

(** Nothing of the link has changed, and a login that had yet to dial still has, or was cut short. *)
Definition unmoved (o : op) (s s' : Link) : Prop :=
  signedIn s' = signedIn s /\ connState s' = connState s /\ reconnectTimer s' = reconnectTimer s /\
  (logins (joins s') = logins (joins s) \/ o = OAppearance false).

Lemma down_step o s : wsUrl s = true -> connState (step o s) = Offline -> signedIn (step o s) = true ->
  unmoved o s (step o s) \/ is_Some (reconnectTimer (step o s)) \/
  (signs_in o s /\ (o = OLogin -> (0 < logins (joins (step o s)))%nat) /\ connState s = Offline).
Proof.
  intros Hw Ho Hs. assert (Hsame : step o s = s -> unmoved o s (step o s)) by (intros ->; split_and!; auto).
  assert (Hdial : forall who s1, wsUrl s1 = true -> step o s = connectLive who s1 -> False).
  { intros who s1 Hw1 E. rewrite E, (proj1 (connectLive_conn who s1 Hw1)) in Ho. done. }
  assert (Hset : forall c s1, wsUrl s1 = true -> connState (setConn c s1) = Offline -> signedIn (setConn c s1) = true ->
    is_Some (reconnectTimer (setConn c s1))).
  { intros c s1 Hw1 Hc1 Hs1. destruct (setConn_keeps c s1) as (_ & Es & _). rewrite Es in Hs1.
    destruct (setConn_state c s1) as [E|E]; rewrite E in Hc1; [|done]. subst c. unfold setConn. by apply schedule_retries. }
  assert (Hans : forall who ok, connectLive_answered who ok s = s \/
    (connState (connectLive_answered who ok s) = Offline -> signedIn (connectLive_answered who ok s) = true ->
     is_Some (reconnectTimer (connectLive_answered who ok s)))).
  { intros who ok. unfold connectLive_answered. destruct (take_dial _ _) as [l|]; [right|by left].
    destruct ok as [[]|]; by apply Hset. }
  destruct o as [ms| |ok| |ok|taken| | | |ok|r| | |p]; cbn [step] in *.
  - left. by split_and!; auto.
  - right. right. split; [done|]. split; [cbn; lia|done].
  - unfold login_dials in *. destruct (logins (joins s)) as [|n] eqn:En; [auto|]. cbn zeta in *. destruct ok.
    + exfalso. by eapply (Hdial _ (with_logins n s)).
    + left. by split_and!; auto.
  - unfold register_dials in *. destruct (reg (joins s)); auto. rewrite Hw in *. cbn [negb] in *.
    exfalso. by eapply (Hdial _ (with_reg Dialing s)).
  - unfold register_dialed in *. destruct (reg (joins s)) eqn:Er; auto.
    destruct (Hans ByRegistration ok) as [E|H]; [|right; left; by apply H].
    rewrite E. left. by split_and!; auto.
  - unfold register_signs_in in *. cbn [signs_in]. destruct (reg (joins s)); auto. cbn zeta in *. right. right. split; [done|].
    split; [done|]. by destruct (_ || _) in Ho.
  - exfalso. by eapply Hdial.
  - done.
  - exfalso. by eapply (Hdial _ (with_retry (connAttempt s) None None (delays s) s)).
  - destruct (Hans ByPage ok) as [E|H]; [rewrite E in *; auto|auto].
  - auto.
  - unfold reconnectTimer_fires in *. destruct (reconnectTimer s) as [t|]; [|auto]. destruct (t <=? now s); [|auto].
    exfalso. eapply Hdial; [|unfold reconnectNow; reflexivity]; exact Hw.
  - unfold connStableTimer_fires in *. destruct (connStableTimer s) as [t|]; [|auto]. destruct (t <=? now s); [|auto].
    left. by split_and!; auto.
  - unfold wakeResync in *. destruct (_ || p); [auto|]. destruct (_ <? _); [auto|]. exfalso.
    eapply Hdial; [|unfold reconnectNow; reflexivity]; exact Hw.
Qed.

(** A page keeps its gateway. *)
Lemma wsUrl_connectLive who s : wsUrl (connectLive who s) = wsUrl s.
Proof. unfold connectLive. destruct (negb _); [done|]. apply setConn_keeps. Qed.

Lemma wsUrl_answered who ok s : wsUrl (connectLive_answered who ok s) = wsUrl s.
Proof.
  unfold connectLive_answered. destruct (take_dial _ _) as [l|]; [|done]. cbn zeta.
  destruct ok as [[]|]; by rewrite (proj1 (setConn_keeps _ _)).
Qed.

Lemma wsUrl_step o s : wsUrl (step o s) = wsUrl s.
Proof.
  destruct o as [ms| |ok| |ok|taken| | | |ok|r| | |p]; cbn [step]; try done.
  - unfold login_dials. destruct (logins _); [done|]. destruct ok; [by rewrite wsUrl_connectLive|done].
  - unfold register_dials. destruct (reg _); try done. destruct (negb _); [done|]. by rewrite wsUrl_connectLive.
  - unfold register_dialed. destruct (reg _); try done. apply wsUrl_answered.
  - unfold register_signs_in. destruct (reg _); try done. cbn zeta. by destruct (_ || _).
  - by rewrite wsUrl_connectLive.
  - unfold reconnectNow; by rewrite wsUrl_connectLive.
  - apply wsUrl_answered.
  - by rewrite (proj1 (setConn_keeps _ _)).
  - unfold reconnectTimer_fires. destruct (reconnectTimer s) as [t|]; [|done].
    destruct (t <=? now s); [unfold reconnectNow; by rewrite wsUrl_connectLive|done].
  - unfold connStableTimer_fires. destruct (connStableTimer s) as [t|]; [|done]. by destruct (t <=? now s).
  - unfold wakeResync. destruct (_ || p); [done|]. destruct (_ <? _); [done|]. unfold reconnectNow; by rewrite wsUrl_connectLive.
Qed.

Lemma link_run_snoc os o s : run (os ++ [o]) s = step o (run os s).
Proof. unfold run. by rewrite foldl_snoc. Qed.

Lemma link_inv_run os s : inv s -> inv (run os s) /\ wsUrl (run os s) = wsUrl s.
Proof.
  intros Hi. induction os as [|o os [IH1 IH2]] using rev_ind; [done|]. rewrite link_run_snoc, wsUrl_step. split; [by apply inv_step|done].
Qed.

(** The sign-ins that find the link down and leave it so: nothing has dialed and nothing was reported since,
    and when it is a login, its own dial is still to come, or the wait before it was rejected. *)
Definition left_down (os : list op) (s0 : Link) : Prop :=
  exists os1 o os2, os = os1 ++ o :: os2 /\ signs_in o (run os1 s0) /\
    (forall n, (length os1 <= n)%nat -> connState (run (take n os) s0) = Offline) /\
    (o = OLogin -> (0 < logins (joins (run os s0)))%nat \/ OAppearance false ∈ os2).

Lemma left_down_snoc os o s0 : left_down os s0 -> connState (run (os ++ [o]) s0) = Offline ->
  (logins (joins (run (os ++ [o]) s0)) = logins (joins (run os s0)) \/ o = OAppearance false) -> left_down (os ++ [o]) s0.
Proof.
  intros (os1 & o1 & os2 & Eos & Hs & Hp & Hl) Hc Ho. exists os1, o1, (os2 ++ [o]).
  split; [by rewrite Eos, <-app_assoc|]. split; [done|]. split.
  - intros n Hn. destruct (decide (n <= length os)%nat) as [Hle|Hgt].
    + rewrite take_app_le by done. by apply Hp.
    + rewrite take_ge; [done|]. rewrite length_app. cbn. lia.
  - intros E. destruct Ho as [Ho| ->].
    + rewrite Ho. destruct (Hl E) as [?|?]; [by left|right; apply elem_of_app; by left].
    + right. apply elem_of_app. right. by left.
Qed.

Lemma down_is_excused ws acct t os (s0 := new_page ws acct t) : ws = true ->
  connState (run os s0) = Offline -> signedIn (run os s0) = true ->
  is_Some (reconnectTimer (run os s0)) \/ left_down os s0.
Proof.
  intros Hw. induction os as [|o os IH] using rev_ind; [done|]. intros Hc Hs.
  pose proof (link_inv_run os s0 (inv_new_page ws acct t)) as [_ Hws]. cbn in Hws. rewrite link_run_snoc in Hc, Hs.
  destruct (down_step o (run os s0)) as [(E1 & E2 & E3 & E4)|[H|(Hin & Hl & Hd)]]; [congruence|done|done| | |].
  - rewrite E2 in Hc. rewrite E1 in Hs. rewrite link_run_snoc, E3. destruct (IH Hc Hs) as [H|H]; [by left|right].
    apply left_down_snoc; [done| |]; rewrite link_run_snoc; [by rewrite E2|done].
  - left. by rewrite link_run_snoc.
  - right. exists os, o, []. split; [done|]. split; [done|]. split.
    + intros n Hn. destruct (decide (n = length os)) as [->|].
      * by rewrite take_app_length.
      * rewrite take_ge; [by rewrite link_run_snoc|]. rewrite length_app. cbn. lia.
    + intros E. left. rewrite link_run_snoc. by apply Hl.
Qed.

(** ** Theorems *)

(** C39. The page does not give a link up.  In every run, every retry waits between three seconds and a
    minute, and a link that is being made has a dial without an answer.  While someone is signed in on a
    page with a gateway, a link that is down has its next retry scheduled, at most a minute ahead, with one
    exception: the sign-in itself found the link down, and nothing has dialed and nothing was reported
    since.  A login dials next, so it is only in this state before that dial, or when the wait before it was
    rejected; a registration has dialed already, and stays in it ([registration_strands] below) until the
    user or a waking tab dials. *)
Theorem link_is_cared_for ws acct t os :
  let s := run os (new_page ws acct t) in
  (forall d, d ∈ delays s -> RETRY_FLOOR_MS <= d <= RETRY_CAP_MS) /\
  (connState s = Connecting -> dialing s <> []) /\
  (ws = true -> signedIn s = true -> connState s = Offline ->
     (exists r, reconnectTimer s = Some r /\ r <= now s + RETRY_CAP_MS) \/ left_down os (new_page ws acct t)).
Proof.
  intros s. destruct (link_inv_run os _ (inv_new_page ws acct t)) as [[[Hd Ht] Hc] _]. split; [done|]. split; [done|].
  intros Hw Hs Ho. destruct (down_is_excused ws acct t os Hw Ho Hs) as [[r Hr]|H]; [left|by right].
  exists r. split; [done|]. by apply Ht.
Qed.

Lemma link_is_cared_for_witness :
  let os := [OLogin; OAppearance true; OAnswer (Some false)] in
  connState (run os (new_page true true 0)) = Offline /\ reconnectTimer (run os (new_page true true 0)) = Some 3000 /\
  ((exists r, reconnectTimer (run os (new_page true true 0)) = Some r /\ r <= now (run os (new_page true true 0)) + RETRY_CAP_MS) \/
   left_down os (new_page true true 0)).
Proof.
  cbv zeta. split; [by vm_compute|]. split; [by vm_compute|].
  destruct (link_is_cared_for true true 0 [OLogin; OAppearance true; OAnswer (Some false)]) as (_ & _ & H).
  apply H; by vm_compute.
Defined.

(** The link drops while the account server takes the account: the page is then signed in, the link is down,
    and nothing is scheduled, however long it waits.  Without an account server it is enough that the first
    dial fails. *)
Example registration_strands :
  let shown s := (signedIn s, connState s, reconnectTimer s, dialing s) in
  shown (run [ORegister; ORegisterAnswer (Some true); OEvent ROffline; ORegistered true; OTick 3600000; ORetry; OStable]
           (new_page true true 0)) = (true, Offline, None, []) /\
  shown (run [ORegister; ORegisterAnswer (Some false); ORegistered true; OTick 3600000; ORetry; OStable]
           (new_page true false 0)) = (true, Offline, None, []) /\
  shown (run [ORegister; ORegisterAnswer (Some false); ORegistered true; OTick 3600000; OWake false]
           (new_page true false 0)) = (true, Connecting, None, [ByPage]).
Proof. by vm_compute. Qed.

Lemma link_run_app os os' s : run (os ++ os') s = run os' (run os s).
Proof. apply foldl_app. Qed.

(** One cycle with a gateway that seems to answer and drops the link after [d] ms. *)
Definition bounce (d : Z) : list op :=
  [OTick RETRY_CAP_MS; ORetry; OAnswer (Some true); OTick d; OStable; OEvent ROffline].

(** A link that is down with [n] attempts behind it. *)
Definition down (n : nat) (s : Link) : Prop :=
  wsUrl s = true /\ signedIn s = true /\ connState s = Offline /\ connAttempt s = n /\ dialing s = [] /\
  connStableTimer s = None /\ exists r, reconnectTimer s = Some r /\ r <= now s + RETRY_CAP_MS.

(** A link between the retry and the drop: dialed, then up. *)
Definition between (c : conn) (n : nat) (k : list dialer) (stable : option Z) (t : Z) (ds : list Z) (s : Link) : Prop :=
  wsUrl s = true /\ signedIn s = true /\ connState s = c /\ connAttempt s = n /\ dialing s = k /\
  connStableTimer s = stable /\ reconnectTimer s = None /\ now s = t /\ delays s = ds.

Lemma retry_dials n s r :
  wsUrl s = true -> signedIn s = true -> connAttempt s = n -> dialing s = [] -> connStableTimer s = None ->
  reconnectTimer s = Some r -> r <= now s -> between Connecting n [ByPage] None (now s) (delays s) (step ORetry s).
Proof.
  intros Hw Hs Ha Hd Hst Hr Hle. cbn [step]. unfold reconnectTimer_fires. rewrite Hr, (proj2 (Z.leb_le _ _) Hle).
  unfold reconnectNow, connectLive. cbn [with_retry wsUrl]. rewrite Hw. cbn [negb]. unfold between.
  cbn. rewrite Hd. auto 10.
Qed.

Lemma answer_is_live n t ds s :
  between Connecting n [ByPage] None t ds s -> between Live n [] (Some (t + STABLE_MS)) t ds (step (OAnswer (Some true)) s).
Proof.
  intros (Hw & Hs & Hc & Ha & Hd & Hst & Hr & Ht & Hds). cbn [step]. unfold connectLive_answered. rewrite Hd.
  unfold setConn. cbn [with_dialing connState]. rewrite Hc. unfold between. cbn. rewrite Ht. auto 10.
Qed.

Lemma not_yet_stable n t d ds s :
  between Live n [] (Some (t + STABLE_MS)) t ds s -> 0 <= d < STABLE_MS ->
  exists u, between Live n [] (Some u) (t + d) ds (step OStable (step (OTick d) s)).
Proof.
  intros (Hw & Hs & Hc & Ha & Hd & Hst & Hr & Ht & Hds) Hlt. cbn [step]. unfold connStableTimer_fires.
  cbn [with_now connStableTimer now]. rewrite Hst, Ht, Z.max_r by lia.
  rewrite (proj2 (Z.leb_gt _ _)) by lia. exists (t + STABLE_MS). unfold between. cbn. auto 10.
Qed.

Lemma drop_schedules n u t ds s :
  between Live n [] u t ds s ->
  down (S n) (step (OEvent ROffline) s) /\ delays (step (OEvent ROffline) s) = ds ++ [retry_delay n].
Proof.
  intros (Hw & Hs & Hc & Ha & Hd & Hst & Hr & Ht & Hds). pose proof (retry_delay_bounds n).
  cbn [step reported]. unfold setConn, scheduleReconnect. cbn [with_stable with_state wsUrl signedIn reconnectTimer].
  rewrite Hw, Hs, Hr. cbn [negb orb]. rewrite bool_decide_false by (intros []; done). unfold down.
  cbn [with_retry with_stable with_state wsUrl signedIn connState connAttempt dialing connStableTimer reconnectTimer now delays].
  rewrite Ha, Hds. split; [|done]. repeat split; try done. eexists. split; [done|]. lia.
Qed.

Lemma bounce_step n d s :
  down n s -> 0 <= d < STABLE_MS ->
  down (S n) (run (bounce d) s) /\ delays (run (bounce d) s) = delays s ++ [retry_delay n].
Proof.
  intros (Hw & Hs & Hc & Ha & Hd & Hst & r & Hr & Hle) Hlt. unfold run, bounce. cbn [foldl].
  set (s1 := step (OTick RETRY_CAP_MS) s).
  assert (H1 : between Connecting n [ByPage] None (now s1) (delays s1) (step ORetry s1)).
  { by apply (retry_dials n s1 r). }
  apply answer_is_live in H1. destruct (not_yet_stable n _ d _ _ H1 Hlt) as [u H2].
  apply (drop_schedules n _ _ _ _ H2).
Qed.

(** The backoff escalates against a gateway that is not there.  The transport reports a link as up
    before its socket is open; as long as each such link drops again within five seconds, the waits
    double from three seconds to a minute, however many cycles there are. *)
Theorem bounces_escalate ds n s :
  down n s -> (forall d, d ∈ ds -> 0 <= d < STABLE_MS) ->
  let s' := run (mjoin (bounce <$> ds)) s in
  down (n + length ds) s' /\ delays s' = delays s ++ (retry_delay <$> List.seq n (length ds)).
Proof.
  revert n s. induction ds as [|d ds IH]; intros n s Hdown Hds.
  - cbn. rewrite Nat.add_0_r, app_nil_r. done.
  - rewrite fmap_cons. change (mjoin (bounce d :: (bounce <$> ds))) with (bounce d ++ mjoin (bounce <$> ds)).
    rewrite link_run_app. destruct (bounce_step n d s Hdown) as [H1 H2]; [apply Hds; left|].
    destruct (IH (S n) _ H1) as [H3 H4]; [intros e He; apply Hds; by right|]. cbn [length].
    split; [by rewrite <-Nat.add_succ_comm|]. rewrite H4, H2, <-app_assoc. done.
Qed.

Lemma bounces_escalate_witness :
  delays (run (mjoin (bounce <$> [0; 100; 4999; 0; 0; 0; 0]))
            (run [OLogin; OAppearance true; OAnswer (Some false)] (new_page true false 7))) =
  [3000; 6000; 12000; 24000; 48000; 60000; 60000; 60000].
Proof.
  destruct (bounces_escalate [0; 100; 4999; 0; 0; 0; 0] 1 (run [OLogin; OAppearance true; OAnswer (Some false)] (new_page true false 7)))
    as [_ E].
  - repeat split. eexists. split; [by vm_compute|]. by vm_compute.
  - intros d Hd. repeat (apply elem_of_cons in Hd as [->|Hd]; [by vm_compute|]). by apply not_elem_of_nil in Hd.
  - rewrite E. by vm_compute.
Defined.

Lemma wakes_set c s : wakes (setConn c s) = wakes s /\ lastWakeSync (setConn c s) = lastWakeSync s.
Proof.
  unfold setConn. destruct (match c, connState s with Live, Secure => true | _, _ => false end); [done|]. destruct c; try done. unfold scheduleReconnect. by destruct (_ || _).
Qed.

Lemma wakes_connectLive who s :
  wakes (connectLive who s) = wakes s /\ lastWakeSync (connectLive who s) = lastWakeSync s.
Proof. unfold connectLive. destruct (negb _); [done|]. apply wakes_set. Qed.

Lemma wakes_answered who ok s :
  wakes (connectLive_answered who ok s) = wakes s /\ lastWakeSync (connectLive_answered who ok s) = lastWakeSync s.
Proof.
  unfold connectLive_answered. destruct (take_dial _ _) as [l|]; [|done]. destruct ok as [[]|]; apply (wakes_set _ (with_dialing l s)).
Qed.

Lemma throttled_same s s' : wakes s' = wakes s /\ lastWakeSync s' = lastWakeSync s -> throttled s -> throttled s'.
Proof. intros [Hw Hl] [H1 H2]. unfold throttled. by rewrite Hw, Hl. Qed.

Lemma throttled_step o s : throttled s -> throttled (step o s).
Proof.
  intros Ht. destruct o as [ms| |ok| |ok|taken| | | |ok|r| | |p]; cbn [step].
  - done.
  - done.
  - unfold login_dials. destruct (logins _); [done|]. destruct ok; [|done]. eapply throttled_same; [apply wakes_connectLive|done].
  - unfold register_dials. destruct (reg _); try done. destruct (negb _); [done|]. eapply throttled_same; [apply wakes_connectLive|done].
  - unfold register_dialed. destruct (reg _); try done. eapply throttled_same; [apply (wakes_answered ByRegistration ok s)|done].
  - unfold register_signs_in. destruct (reg _); try done. cbn zeta. by destruct (_ || _).
  - eapply throttled_same; [apply wakes_connectLive|done].
  - done.
  - eapply throttled_same; [apply wakes_connectLive|done].
  - eapply throttled_same; [apply wakes_answered|done].
  - eapply throttled_same; [apply wakes_set|done].
  - unfold reconnectTimer_fires. destruct (reconnectTimer s) as [t|]; [|done].
    destruct (t <=? now s); [|done]. eapply throttled_same; [apply wakes_connectLive|done].
  - unfold connStableTimer_fires. destruct (connStableTimer s) as [t|]; [|done]. by destruct (t <=? now s).
  - unfold wakeResync. destruct (_ || p); [done|]. destruct (_ <? _) eqn:E; [done|]. apply Z.ltb_ge in E.
    eapply throttled_same; [apply wakes_connectLive|]. destruct Ht as [H1 H2].
    split; cbn [with_retry with_wake wakes lastWakeSync].
    + intros t. by rewrite last_snoc; intros [= <-].
    + intros i t u Hi Hu. apply lookup_snoc_Some in Hu as [[Hlt Hu]|[Hlen <-]].
      * rewrite lookup_app_l in Hi by lia. by eapply H2.
      * rewrite lookup_app_l in Hi by lia.
        assert (Hlast : last (wakes s) = Some t) by (rewrite last_lookup, <-Hlen; done).
        rewrite <-(H1 t Hlast). lia.
Qed.

(** Waking a tab is throttled.  However often the page becomes visible or the network returns, the
    reconnects this starts are at least four seconds apart. *)
Theorem wakes_are_throttled ws acct t os i a b :
  let s := run os (new_page ws acct t) in
  wakes s !! i = Some a -> wakes s !! S i = Some b -> a + WAKE_RESYNC_MIN_MS <= b.
Proof.
  intros s. assert (Ht : throttled s).
  { unfold s. induction os as [|o os IH] using rev_ind; [split; [done|by intros [] ??]|].
    unfold run. rewrite foldl_snoc. by apply throttled_step. }
  apply Ht.
Qed.

Lemma wakes_are_throttled_witness :
  wakes (run [OTick 5000; OLogin; OAppearance true; OWake false; OTick 3999; OWake false; OTick 1; OWake false] (new_page true false 0)) =
    [5000; 9000] /\ 5000 + WAKE_RESYNC_MIN_MS <= 9000.
Proof.
  split; [by vm_compute|].
  refine (wakes_are_throttled true false 0 [OTick 5000; OLogin; OAppearance true; OWake false; OTick 3999; OWake false; OTick 1; OWake false]
            0 5000 9000 _ _); by vm_compute.
Defined.

(** A session that is established is not shown as merely connected by the answer of the dial that
    comes after the report. *)
Lemma secure_stays os s :
  connState s = Secure -> (forall o, o ∈ os -> o = OEvent RLive \/ o = OAnswer (Some true) \/ o = OStable) ->
  connState (run os s) = Secure.
Proof.
  revert s. induction os as [|o os IH]; intros s Hs Hos; [done|]. apply IH; [|intros p Hp; apply Hos; by right].
  assert (Hl : forall s, connState s = Secure -> connState (setConn Live s) = Secure).
  { intros u Hu. unfold setConn. by rewrite Hu. }
  destruct (Hos o (list_elem_of_here _ _)) as [->|[->| ->]]; cbn [step].
  - by apply Hl.
  - unfold connectLive_answered. destruct (take_dial _ _); [by apply Hl|done].
  - unfold connStableTimer_fires. destruct (connStableTimer s) as [t|]; [|done]. by destruct (t <=? now s).
Qed.
End Reconnect.
