(* ===== verification/DeviceCare.v ===== *)
(** * Care for the account's devices (client/src/app.ts, lines 5712-5720, 7478-7523, 7767-8113,
      9812-9898)

    What the page does, after each login, reconnect and roster change, so that every device of the
    account is certified, published, and in its groups: the passes that read the device list of the
    account server, claim key packages and command the group channel in the worker.  A pass is a
    program whose questions to the server and the worker are its steps; between two questions it runs
    without interruption on the page's variables.  All the methods of the controller that a pass looks
    for are there on both backends (WorkerProxy.v). *)

From S2P Require Import Prelude Auth Program.
Import Program.

Module DeviceCare.

Definition KEY_PACKAGE_COUNT : Z := 6.
Definition SELF_MINT_FALLBACK_MS : Z := 12000.
Definition SELF_MINT_JITTER_MS : Z := 4000.
Definition SELF_MINT_MAX_FAILURES : Z := 6.
Definition SIBLING_HEAL_INTERVAL_MS : Z := 3000.
Definition SIBLING_HEAL_WINDOW_MS : Z := 120000.

(** A device to add: its key and a key package of it. *)
Definition target : Type := string * bytes.

Inductive sibling := SibMember | SibPending | SibAbsent | SibNone.

(** ** Questions and programs *)

Inductive ask :=
  | QList
  | QTake (user : string)
  | QPublish (oneTime : list bytes) (lastResort : bytes)
  | QRevoke (deviceId record : string)
  | QReady
  | QPackages (n : Z)
  | QSyncEpoch (epoch : Z)
  | QIngest (records : list string)
  | QRevocations
  | QIsRevoked (key : string)
  | QMintRecord (key : string) (seq : Z)
  | QMissing (own : list string)
  | QHealSiblings (own : list string) (candidates : list target)
  | QHealSelf (own : list string) (candidates : list target)
  | QDriveOut (own revoked : list string)
  | QSiblingState (key : string)
  | QHasSelf
  | QMintSelf (targets : list target)
  | QNoteToSelf.

Definition ans (q : ask) : Type :=
  match q with
  | QList => DeviceListResult
  | QTake _ => TakeResult
  | QPackages _ => list string
  | QSyncEpoch _ => bool
  | QRevocations => Z
  | QReady | QIsRevoked _ | QMissing _ | QHasSelf => bool
  | QMintRecord _ _ => option string
  | QSiblingState _ => sibling
  | QPublish _ _ | QRevoke _ _ | QIngest _ | QHealSiblings _ _ | QHealSelf _ _ | QDriveOut _ _
  | QMintSelf _ | QNoteToSelf => unit
  end.

(** The variables of the page.  [heal] is the timer of the heal poll: when it is due, the device it is
    for, its generation and its deadline; [toasts] counts the notices that a heal was given up. *)
Record heal_poll := MkPoll { p_due : Z; p_key : string; p_gen : Z; p_deadline : Z }.

Record Page := MkPage {
  has_account : bool;
  currentUsername : string;
  currentDeviceKey : string;
  clock : Z;
  reconciling : bool;
  reconcilingRemovals : bool;
  ensuringSelfGroup : bool;
  selfMintDeferredSince : option Z;
  selfMintFallbackTimer : option Z;
  selfMintFailures : Z;
  siblingHealTimer : option heal_poll;
  siblingHealGen : Z;
  siblingAddRejections : list (string * Z);
  toasts : nat }.

(** What a pass starts without waiting for it. *)
Inductive aside := PublishOwnKeys.

Notation prog := (Program.prog ans Page aside).
Notation event := (Program.event ask aside).
Notation asking := (Program.asking (ans := ans) (St := Page) (C := aside)).
Notation asks := (Program.asks (Q := ask) (C := aside)).

(** ** Updates of single variables *)
Definition set_latches (r m e : bool) (s : Page) : Page :=
  MkPage (has_account s) (currentUsername s) (currentDeviceKey s) (clock s) r m e (selfMintDeferredSince s)
    (selfMintFallbackTimer s) (selfMintFailures s) (siblingHealTimer s) (siblingHealGen s)
    (siblingAddRejections s) (toasts s).
Definition set_reconciling (b : bool) (s : Page) := set_latches b (reconcilingRemovals s) (ensuringSelfGroup s) s.
Definition set_removals (b : bool) (s : Page) := set_latches (reconciling s) b (ensuringSelfGroup s) s.
Definition set_ensuring (b : bool) (s : Page) := set_latches (reconciling s) (reconcilingRemovals s) b s.
Definition set_mint (since timer : option Z) (n : Z) (s : Page) : Page :=
  MkPage (has_account s) (currentUsername s) (currentDeviceKey s) (clock s) (reconciling s)
    (reconcilingRemovals s) (ensuringSelfGroup s) since timer n (siblingHealTimer s) (siblingHealGen s)
    (siblingAddRejections s) (toasts s).
Definition set_failures (n : Z) (s : Page) : Page :=
  set_mint (selfMintDeferredSince s) (selfMintFallbackTimer s) n s.
Definition set_heal (t : option heal_poll) (gen : Z) (rej : list (string * Z)) (n : nat) (s : Page) : Page :=
  MkPage (has_account s) (currentUsername s) (currentDeviceKey s) (clock s) (reconciling s)
    (reconcilingRemovals s) (ensuringSelfGroup s) (selfMintDeferredSince s) (selfMintFallbackTimer s)
    (selfMintFailures s) t gen rej n.
Definition set_clock (t : Z) (s : Page) : Page :=
  MkPage (has_account s) (currentUsername s) (currentDeviceKey s) t (reconciling s)
    (reconcilingRemovals s) (ensuringSelfGroup s) (selfMintDeferredSince s) (selfMintFallbackTimer s)
    (selfMintFailures s) (siblingHealTimer s) (siblingHealGen s) (siblingAddRejections s) (toasts s).

(** ** The account's epoch and its revocation records *)

(** The devices of an answer that can be used. *)
Definition listed (l : DeviceListResult) : option (list DeviceInfo) := if dl_ok l then dl_devices l else None.

(** One revoked device of the loop, with the sequence number so far; no error leaves it. *)
Definition backfill_one (d : DeviceInfo) (seq : Z) : prog Z :=
  if negb (revoked d) then pret seq
  else
    Ask (QIsRevoked (deviceKey d)) (fun known =>
      match known with
      | Throw _ | Ok true => pret seq
      | Ok false =>
          Ask (QMintRecord (deviceKey d) (seq + 1)) (fun record =>
            match record with
            | Ok (Some r) => Ask (QRevoke (deviceId d) r) (fun _ => pret (seq + 1))
            | Ok None | Throw _ => pret (seq + 1)
            end)
      end).

Fixpoint backfill_loop (devices : list DeviceInfo) (seq : Z) : prog unit :=
  match devices with
  | [] => pret tt
  | d :: rest => let* seq := backfill_one d seq in backfill_loop rest seq
  end.

Definition backfillRevocationRecords (devices : list DeviceInfo) : prog unit :=
  let* seq := asking QRevocations in backfill_loop devices seq.

Definition count_revoked (devices : list DeviceInfo) : Z := Z.of_nat (length (List.filter revoked devices)).

Definition currentAccountEpoch : prog Z :=
  Look (fun s =>
    if negb (has_account s) then pret 0
    else
      pbind
        (let* res := asking QList in
         match listed res with
         | None => pret 0
         | Some devices =>
             do* match dl_revocations res with
                 | Some (r :: rs) => asking (QIngest (r :: rs))
                 | Some [] | None => pret tt
                 end in
             do* backfillRevocationRecords devices in
             pret (match dl_accountEpoch res with Some e => e | None => count_revoked devices end)
         end)
        (fun r => match r with Ok e => pret e | Throw _ => pret 0 end)).

(** ** Publishing key packages *)

Definition publishOwnKeys : prog bool :=
  Look (fun s =>
    if negb (has_account s) then pret false
    else
      pbind
        (let* ready := asking QReady in
         if negb ready then pret false
         else
           let* hexes := asking (QPackages KEY_PACKAGE_COUNT) in
           if Z.of_nat (length hexes) <? 2 then pret false
           else
             let packages := hexToBytes <$> hexes in
             match last packages with
             | None => pret false
             | Some lastResort =>
                 do* asking (QPublish (take (length packages - 1) packages) lastResort) in pret true
             end)
        (fun r => match r with Ok b => pret b | Throw _ => pret false end)).

(** [sync.stale] *)
Definition syncAndPublish : prog unit :=
  let* epoch := currentAccountEpoch in
  let* stale := asking (QSyncEpoch epoch) in
  if stale then pret tt else do* publishOwnKeys in pret tt.

(** ** Bringing siblings in and revoked devices out *)

Definition authorizedDeviceKeys (devices : list DeviceInfo) : list string :=
  let authorizedKnown := existsb authorized devices in
  deviceKey <$> List.filter (fun d => negb (revoked d) && (if authorizedKnown then authorized d else true)) devices.

Definition claimed (own : TakeResult) : list target :=
  match take_ok own, take_devices own with
  | true, Some ds => (fun d => (peer_deviceKey d, keyPackage d)) <$> ds
  | _, _ => []
  end.

(** [account.takeKeys(currentUsername)] *)
Definition takeOwnKeys : prog TakeResult := Look (fun s => asking (QTake (currentUsername s))).

(** [try { body } catch { handler } finally { release }] around a latch. *)
Definition latched (body : prog unit) (handler : prog unit) (release : Page -> Page) : prog unit :=
  pbind body (fun r => match r with Ok _ => Upd release (pret tt) | Throw _ => pseq handler (fun _ => Upd release (pret tt)) end).

Definition reconcileSiblings : prog unit :=
  Look (fun s =>
    if negb (has_account s) || reconciling s then pret tt
    else
      Upd (set_reconciling true)
        (latched
           (let* res := asking QList in
            match listed res with
            | None => pret tt
            | Some devices =>
                let ownDeviceKeys := authorizedDeviceKeys devices in
                let* missing := asking (QMissing ownDeviceKeys) in
                if negb missing then pret tt
                else
                  let* own := takeOwnKeys in
                  match claimed own with
                  | [] => pret tt
                  | candidates =>
                      do* asking (QHealSiblings ownDeviceKeys candidates) in
                      do* publishOwnKeys in pret tt
                  end
            end)
           (pret tt) (set_reconciling false))).

Definition reconcileRemovals : prog unit :=
  Look (fun s =>
    if negb (has_account s) || reconcilingRemovals s then pret tt
    else
      Upd (set_removals true)
        (latched
           (let* res := asking QList in
            match listed res with
            | None => pret tt
            | Some devices =>
                match deviceKey <$> List.filter revoked devices with
                | [] => pret tt
                | revokedKeys => asking (QDriveOut (authorizedDeviceKeys devices) revokedKeys)
                end
            end)
           (pret tt) (set_removals false))).

(** ** The hidden self-group *)

(** [[...keys].sort()[0]] *)
Definition designated (keys : list string) : option string := head (merge_sort string_le keys).

Definition others_of (mine : string) (ts : list target) : list target :=
  List.filter (fun t => negb (bool_decide (t.1 = mine))) ts.

(** The end of the pass: claim the key packages of the siblings and mint the group with them. *)
Definition mint : prog unit :=
  Look (fun s =>
    if SELF_MINT_MAX_FAILURES <=? selfMintFailures s then pret tt
    else
      Upd (fun s => set_mint None (selfMintFallbackTimer s) (selfMintFailures s) s)
        (let* own := takeOwnKeys in
         Look (fun s =>
           match others_of (currentDeviceKey s) (claimed own) with
           | [] => Upd (fun s => set_failures (selfMintFailures s + 1) s) (pret tt)
           | targets =>
               do* asking (QMintSelf targets) in
               Upd (set_failures 0) (do* publishOwnKeys in pret tt)
           end))).

(** A device that is not the designated one waits for a window; the timer is kept as the time it was
    armed, and fires when the window and some jitter are over. *)
Definition defer_or_mint (mine : string) (keys : list string) : prog unit :=
  if bool_decide (designated keys = Some mine) then mint
  else
    Look (fun s =>
      match selfMintDeferredSince s with
      | None => Upd (fun s => set_mint (Some (clock s)) (Some (clock s)) (selfMintFailures s) s) (pret tt)
      | Some since => if clock s - since <? SELF_MINT_FALLBACK_MS then pret tt else mint
      end).

Definition ensure_body : prog unit :=
  let* res := asking QList in
  match listed res with
  | None => pret tt
  | Some devices =>
      let ownDeviceKeys := authorizedDeviceKeys devices in
      Look (fun s =>
        if bool_decide (currentDeviceKey s = EmptyString) then pret tt
        else if (length ownDeviceKeys <? 2)%nat then
          let* has := asking QHasSelf in
          if has then pret tt else Ask QNoteToSelf (fun _ => pret tt)
        else
          let* has := asking QHasSelf in
          if has then Upd (set_mint None None 0) (pret tt)
          else Look (fun s => defer_or_mint (currentDeviceKey s) ownDeviceKeys))
  end.

Definition ensureSelfGroup : prog unit :=
  Look (fun s =>
    if negb (has_account s) || ensuringSelfGroup s then pret tt
    else
      Upd (set_ensuring true)
        (latched ensure_body
           (Upd (fun s => set_failures (selfMintFailures s + 1) s) (Start PublishOwnKeys (pret tt)))
           (set_ensuring false))).

(** The fallback timer, due once the window is over. *)
Definition fallback_fires : prog unit :=
  Upd (fun s => set_mint (selfMintDeferredSince s) None (selfMintFailures s) s) ensureSelfGroup.

(** ** The poll for a device just added *)

Definition rejections (key : string) (s : Page) : Z := default 0 (JsMap.lookup key (siblingAddRejections s)).

Definition healNewSibling (newDeviceKey : string) : prog unit :=
  Look (fun s =>
    if negb (has_account s) || bool_decide (newDeviceKey = EmptyString) then pret tt
    else
      Upd (fun s =>
        let gen := siblingHealGen s + 1 in
        set_heal (Some (MkPoll (clock s + SIBLING_HEAL_INTERVAL_MS) newDeviceKey gen (clock s + SIBLING_HEAL_WINDOW_MS)))
          gen (JsMap.remove newDeviceKey (siblingAddRejections s)) (toasts s) s) (pret tt)).

Definition clear_heal (s : Page) : Page :=
  set_heal None (siblingHealGen s) (siblingAddRejections s) (toasts s) s.

Definition heal_absent (key : string) : prog unit :=
  let* list := asking QList in
  let authed := match listed list with Some ds => authorizedDeviceKeys ds | None => [] end in
  if bool_decide (key ∈ authed) then
    let* own := takeOwnKeys in
    match claimed own with
    | [] => pret tt
    | candidates => do* asking (QHealSelf authed candidates) in do* publishOwnKeys in pret tt
    end
  else pret tt.

(** Poll again, unless superseded or out of time. *)
Definition rearm (p : heal_poll) : prog unit :=
  Look (fun s =>
    if negb (p_gen p =? siblingHealGen s) || (p_deadline p <=? clock s) then pret tt
    else
      Upd (fun s => set_heal (Some (MkPoll (clock s + SIBLING_HEAL_INTERVAL_MS) (p_key p) (p_gen p) (p_deadline p)))
                      (siblingHealGen s) (siblingAddRejections s) (toasts s) s) (pret tt)).

Definition heal_tick (p : heal_poll) : prog unit :=
  Upd clear_heal
    (Look (fun s =>
       if negb (p_gen p =? siblingHealGen s) then pret tt
       else if 2 <=? rejections (p_key p) s then
         Upd (fun s => set_heal (siblingHealTimer s) (siblingHealGen s) (siblingAddRejections s) (S (toasts s)) s) (pret tt)
       else
         do* reconcileRemovals in
         let* state := asking (QSiblingState (p_key p)) in
         match state with
         | SibMember => pret tt
         | SibNone => do* ensureSelfGroup in rearm p
         | SibAbsent => do* heal_absent (p_key p) in rearm p
         | SibPending => rearm p
         end)).

(** What [disarmReconnect] does to the poll. *)
Definition disarm_heal (s : Page) : Page :=
  set_heal None (siblingHealGen s + 1) (siblingAddRejections s) (toasts s) s.

(** ** Events of the worker *)

Definition sibling_add_rejected (key : string) (s : Page) : Page :=
  if bool_decide (key = EmptyString) then s
  else set_heal (siblingHealTimer s) (siblingHealGen s)
         (JsMap.set key (rejections key s + 1) (siblingAddRejections s)) (toasts s) s.

(** The passes that [device-added] and the debounced [roster-changed] start, in order, with the reset of
    the failures before the last. *)
Definition roster_passes : list (prog unit) :=
  [reconcileRemovals; reconcileSiblings; Upd (set_failures 0) ensureSelfGroup].
Definition device_added (key : string) : list (prog unit) := roster_passes ++ [healNewSibling key].

(** The passes that a login and a reconnect start once they are published. *)
Definition reconnect_passes : list (prog unit) := [reconcileRemovals; reconcileSiblings; ensureSelfGroup].

(** ** What a run asks *)
Definition is_take (x : event) : bool := match x with Asked (QTake _) => true | _ => false end.
Definition is_publish (x : event) : bool :=
  match x with Asked (QPublish _ _) | Started PublishOwnKeys => true | _ => false end.
Definition takes (l : list event) : nat := length (List.filter is_take l).
End DeviceCare.
