(* ===== verification/DeviceCareFacts.v ===== *)
(** * The account's devices are cared for

    The latches, the bound on claimed key packages, the fallback of the self-group, the epoch and its
    records, and the poll for a new device; and runs in which a transient error ends the care. *)

From S2P Require Import Prelude Auth Program DeviceCare.
Import Program DeviceCare.

Module DeviceCareFacts.

Lemma publish_keeps P : keeps P publishOwnKeys.
Proof. unfold publishOwnKeys. keep. Qed.

Lemma takeOwn_keeps P : keeps P takeOwnKeys.
Proof. unfold takeOwnKeys. keep. Qed.

Lemma backfill_keeps P ds q : keeps P (backfill_loop ds q).
Proof.
  revert q. induction ds as [|d ds IH]; intros q; cbn [backfill_loop]; [exact I|].
  apply keeps_pseq; [unfold backfill_one; keep|done].
Qed.

Lemma epoch_keeps P : keeps P currentAccountEpoch.
Proof. unfold currentAccountEpoch, backfillRevocationRecords. keep; apply backfill_keeps. Qed.

(** ** Passes that never throw *)
Lemma safe_publish : safe publishOwnKeys.
Proof.
  unfold publishOwnKeys. intros e n s. cbn [go]. destruct (negb _); [by exists false|].
  apply safe_caught. intros [b|x] e' n' s'; by eexists.
Qed.

Lemma safe_epoch : safe currentAccountEpoch.
Proof.
  unfold currentAccountEpoch. intros e n s. cbn [go]. destruct (negb _); [by exists 0|].
  apply safe_caught. intros [b|x] e' n' s'; by eexists.
Qed.

(** ** The latches *)

(** A pass with its latch: it does nothing while the latch is taken, and else takes it, runs its body and
    gives it back. *)
Record latched_pass (busy : Page -> bool) (pass : prog unit) := {
  pass_idle : forall e n s, busy s = true -> go e pass n s = (Ok tt, s, []);
  pass_ends : forall e n s, (go e pass n s).1.1 = Ok tt;
  pass_gives_back : forall e n s, busy s = false -> busy (go e pass n s).1.2 = false;
  pass_holds : forall e n s, (forall n s, busy (others e n s) = busy s) ->
    Forall (fun s' => busy s' = true) (waits e pass n s) }.

Lemma latched_is_latched (busy : Page -> bool) (set : bool -> Page -> Page) body handler :
  (forall b s, busy (set b s) = b) -> safe handler -> (forall e n s, waits e handler n s = []) ->
  keeps (same busy) body ->
  latched_pass busy (Look (fun s => if negb (has_account s) || busy s then pret tt
                                    else Upd (set true) (latched body handler (set false)))).
Proof.
  intros Hset Hsafe Hwait Hkeep.
  assert (Hgo : forall e n s, exists s' l, go e (latched body handler (set false)) n s = (Ok tt, set false s', l)).
  { intros e n s. unfold latched. rewrite go_pbind. destruct (go e body n s) as [[[a|x] s1] l1].
    - cbn [go pret]. by eexists _, _.
    - rewrite go_pseq. destruct (Hsafe e (n + asks l1)%nat s1) as [u Hu].
      destruct (go e handler _ s1) as [[r2 s2] l2]. cbn in Hu. subst r2. cbn [go pret]. by eexists _, _. }
  split; intros e n s; cbn [go waits].
  - intros ->. by rewrite orb_true_r.
  - destruct (_ || _); [done|]. cbn [go]. destruct (Hgo e n (set true s)) as (s' & l & ->). done.
  - destruct (_ || _); [done|]. cbn [go]. destruct (Hgo e n (set true s)) as (s' & l & ->).
    intros _. cbn. by rewrite Hset.
  - intros He. destruct (_ || _); [done|]. cbn [waits]. unfold latched. rewrite waits_pbind.
    apply Forall_app. split.
    + eapply Forall_impl; [apply (keeps_waits (same busy) e body n (set true s)); [|done]|].
      * intros n' s'. apply He.
      * intros s' Hs'. by rewrite Hs', Hset.
    + destruct (go e body n (set true s)) as [[[a|x] s1] l1]; cbn [waits pret]; [done|].
      unfold pseq. rewrite waits_pbind, Hwait. destruct (go e handler _ s1) as [[[b|y] s2] l2]; done.
Qed.
Lemma siblings_latched : latched_pass reconciling reconcileSiblings.
Proof.
  apply latched_is_latched; try done; [intros e n s; by eexists|].
  keep; by apply publish_keeps || apply takeOwn_keeps.
Qed.

Lemma removals_latched : latched_pass reconcilingRemovals reconcileRemovals.
Proof. apply latched_is_latched; try done; [intros e n s; by eexists|]. keep. Qed.

Lemma self_group_latched : latched_pass ensuringSelfGroup ensureSelfGroup.
Proof.
  apply latched_is_latched; try done; [intros e n s; by eexists|].
  unfold ensure_body, defer_or_mint, mint. keep; by apply publish_keeps || apply takeOwn_keeps.
Qed.

(** The passes that bring siblings in, drive revoked devices out and form the self-group never throw
    out of the page.  Each runs at most once at a time: it holds its latch whenever it waits for an answer,
    a call made meanwhile returns without asking anything or changing the page, and the latch is free again
    when the pass ends, whichever question failed. *)
Theorem passes_are_latched :
  latched_pass reconciling reconcileSiblings /\
  latched_pass reconcilingRemovals reconcileRemovals /\
  latched_pass ensuringSelfGroup ensureSelfGroup.
Proof. split; [apply siblings_latched|]. split; [apply removals_latched|apply self_group_latched]. Qed.

(** ** The epoch and the revocation records *)
Definition mint_of (x : event) : option (string * Z) :=
  match x with Asked (QMintRecord key seq) => Some (key, seq) | _ => None end.
Definition is_ingest (x : event) : bool := match x with Asked (QIngest _) => true | _ => false end.

Definition revoked_keys (ds : list DeviceInfo) : list string := deviceKey <$> List.filter revoked ds.

Lemma backfill_one_runs e d q n s : exists q' s' l,
  go e (backfill_one d q) n s = (Ok q', s', l) /\ existsb is_ingest l = false /\
  (q' = q /\ omap mint_of l = [] \/ revoked d = true /\ q' = q + 1 /\ omap mint_of l = [(deviceKey d, q + 1)]).
Proof.
  unfold backfill_one. destruct (revoked d); cbn [negb].
  2: { eexists _, _, _. split; [reflexivity|]. auto. }
  cbn [go]. destruct (answers e n _) as [[]|x]; cbn [go pret].
  1, 3: eexists _, _, _; (split; [reflexivity|]); auto.
  destruct (answers e (S n) _) as [[r|]|x]; cbn [go pret];
    (eexists _, _, _; split; [reflexivity|]; split; [done|]; right; done).
Qed.

Lemma backfill_loop_runs e ds q n s : exists s' l ks,
  go e (backfill_loop ds q) n s = (Ok tt, s', l) /\ existsb is_ingest l = false /\
  ks `sublist_of` revoked_keys ds /\ omap mint_of l = zip ks (seqZ (q + 1) (Z.of_nat (length ks))).
Proof.
  revert q n s. induction ds as [|d ds IH]; intros q n s; cbn [backfill_loop].
  { eexists _, _, []. split; [reflexivity|]. done. }
  rewrite go_pseq. destruct (backfill_one_runs e d q n s) as (q' & s1 & l1 & -> & Hi1 & Hm).
  destruct (IH q' (n + asks l1)%nat s1) as (s2 & l2 & ks & -> & Hi2 & Hks & Hl2).
  assert (Hi : existsb is_ingest (l1 ++ l2) = false) by (rewrite existsb_app; by rewrite Hi1, Hi2).
  destruct Hm as [[-> Hm]|(Hr & -> & Hm)].
  - eexists _, _, ks. split; [reflexivity|]. split; [done|]. split.
    + unfold revoked_keys in *. cbn [List.filter]. destruct (revoked d); [|done]. by apply sublist_cons.
    + by rewrite omap_app, Hm, Hl2.
  - eexists _, _, (deviceKey d :: ks). split; [reflexivity|]. split; [done|]. split.
    + unfold revoked_keys in *. cbn [List.filter]. rewrite Hr. by apply sublist_skip.
    + rewrite omap_app, Hm, Hl2. cbn [length]. rewrite Nat2Z.inj_succ, (seqZ_cons (q + 1)) by lia.
      cbn [zip zip_with app]. by rewrite Z.pred_succ.
Qed.

(** What a run of [currentAccountEpoch] minted, under the devices that the server listed. *)
Definition minted_in_order (e : Env ans Page) (n : nat) (l : list event) : Prop :=
  exists base ks,
    omap mint_of l = zip ks (seqZ (base + 1) (Z.of_nat (length ks))) /\
    (ks <> [] -> (exists m, answers e m QRevocations = Ok base) /\
       exists res ds, answers e n QList = Ok res /\ listed res = Some ds /\ ks `sublist_of` revoked_keys ds).

Lemma nothing_minted e n l : omap mint_of l = [] -> minted_in_order e n l.
Proof. intros Hl. exists 0, []. rewrite Hl. by split. Qed.

(** The part of [currentAccountEpoch] after the records are ingested. *)
Lemma backfill_runs e res ds n m s :
  answers e n QList = Ok res -> listed res = Some ds ->
  let '(r, s', l) := go e (backfillRevocationRecords ds) m s in
  minted_in_order e n l /\ existsb is_ingest l = false.
Proof.
  intros Hq Hl. unfold backfillRevocationRecords. rewrite go_pseq. cbn [asking go].
  destruct (answers e m QRevocations) as [base|x] eqn:Hb.
  2: { split; [by apply nothing_minted|done]. }
  change (asks [Asked QRevocations]) with 1%nat.
  destruct (backfill_loop_runs e ds base (m + 1) (others e m s)) as (s' & l & ks & -> & Hi & Hks & Hm).
  split; [|done]. exists base, ks. split; [exact Hm|]. intros _. split; [by exists m|]. by exists res, ds.
Qed.
Definition epoch_of (res : DeviceListResult) (ds : list DeviceInfo) : Z :=
  match dl_accountEpoch res with Some v => v | None => count_revoked ds end.

(** What holds of the questions of a run: the records minted, and that they come after the ingestion. *)
Definition orderly (e : Env ans Page) (n : nat) (l : list event) : Prop :=
  minted_in_order e n l /\
  exists before after, l = before ++ after /\ omap mint_of before = [] /\ existsb is_ingest after = false.

Lemma orderly_start e n l : omap mint_of l = [] -> orderly e n l.
Proof. intros Hl. split; [by apply nothing_minted|]. exists l, []. by rewrite app_nil_r. Qed.

Lemma epoch_tail e res ds n m s l0 :
  answers e n QList = Ok res -> listed res = Some ds -> omap mint_of l0 = [] ->
  let '(r, _, l) := go e (let* _ := backfillRevocationRecords ds in pret (epoch_of res ds)) m s in
  ((exists x, r = Throw x) \/ r = Ok (epoch_of res ds)) /\ orderly e n (l0 ++ l).
Proof.
  intros Hq Hl H0. rewrite go_pseq. pose proof (backfill_runs e res ds n m s Hq Hl) as Hb.
  destruct (go e (backfillRevocationRecords ds) m s) as [[r s2] l2]. destruct Hb as [Hm Hi].
  assert (Hall : orderly e n (l0 ++ l2)).
  { split; [|by exists l0, l2]. destruct Hm as (base & ks & Hm & Hks). exists base, ks. by rewrite omap_app, H0. }
  destruct r as [a|x]; cbn [go pret]; [rewrite app_nil_r|]; (split; [eauto|done]).
Qed.

(** Reading the account's epoch never throws, whatever the server and the worker answer: the result is
    the server's counter, or the number of revoked devices when it sends none, or 0 when a question fails.
    The records it mints are for revoked devices of the list, in the order of the list, with consecutive
    sequence numbers after those already held, and the records the server sent are ingested before. *)
Theorem epoch_is_read_after_the_records e n s :
  let '(r, _, l) := go e currentAccountEpoch n s in
  (exists v, r = Ok v /\ (v = 0 \/ exists res ds,
     answers e n QList = Ok res /\ listed res = Some ds /\ v = epoch_of res ds)) /\
  orderly e n l.
Proof.
  unfold currentAccountEpoch. cbn [go].
  assert (Hnone : forall l, omap mint_of l = [] -> (exists v, @Ok Z 0 = Ok v /\ (v = 0 \/ exists res ds,
     answers e n QList = Ok res /\ listed res = Some ds /\ v = epoch_of res ds)) /\ orderly e n l).
  { intros l Hl. split; [exists 0; auto|by apply orderly_start]. }
  destruct (negb (has_account s)); [by apply Hnone|].
  rewrite go_pbind, go_pseq. cbn [asking go].
  destruct (answers e n QList) as [res|x] eqn:Hq; cbn [go pret]; [|by apply Hnone].
  destruct (listed res) as [ds|] eqn:Hl; cbn [go pret]; [|by apply Hnone].
  fold (epoch_of res ds). rewrite go_pseq.
  set (records := match dl_revocations res with Some (r0 :: rs) => asking (QIngest (r0 :: rs)) | _ => pret tt end).
  assert (Hrec : exists r s1 l1, go e records (n + asks [Asked QList])%nat (others e n s) = (r, s1, l1) /\
    omap mint_of l1 = []).
  { unfold records. destruct (dl_revocations res) as [[|r0 rs]|]; by eexists _, _, _. }
  destruct Hrec as ([u|x] & s1 & l1 & -> & Hl1); cbn [go pret].
  2: { apply Hnone. cbn [app]. by rewrite app_nil_r. }
  pose proof (epoch_tail e res ds n (n + asks [Asked QList] + asks l1) s1 (Asked QList :: l1) Hq Hl Hl1) as Ht.
  destruct (go e (let* _ := backfillRevocationRecords ds in pret (epoch_of res ds)) _ s1) as [[r s2] l2].
  cbn [go]. destruct Ht as ([[x ->]| ->] & Ho); cbn [go pret]; rewrite app_nil_r; (split; [|done]).
  - exists 0. auto.
  - exists (epoch_of res ds). split; [done|]. right. by exists res, ds.
Qed.
(** ** Prekeys spent on a mint that fails *)

(** A group is never seen. *)
Definition groupless (e : Env ans Page) : Prop :=
  (forall n s, selfMintFailures (others e n s) = selfMintFailures s) /\
  (forall n, answers e n QHasSelf <> Ok true).

(** The worker refuses each mint. *)
Definition refuses (e : Env ans Page) : Prop := forall n ts, exists x, answers e n (QMintSelf ts) = Throw x.

(** A program that claims packages at most once, only below the limit, and accounts for the claim, unless
    it throws. *)
Definition accounts {A} (e : Env ans Page) (p : prog A) : Prop := forall n s,
  (selfMintFailures s < SELF_MINT_MAX_FAILURES -> refuses e) ->
  let '(r, s', l) := go e p n s in
  (takes l <= 1)%nat /\ (takes l = 1%nat -> selfMintFailures s < SELF_MINT_MAX_FAILURES) /\
  selfMintFailures s' = selfMintFailures s + match r with Ok _ => Z.of_nat (takes l) | Throw _ => 0 end.

Lemma takes_app l l' : takes (l ++ l') = (takes l + takes l')%nat.
Proof. unfold takes. by rewrite List.filter_app, length_app. Qed.

(** Questions before, that claim nothing. *)
Lemma accounts_ask {A} e (q : ask) (f : ans q -> prog A) :
  (forall n s, selfMintFailures (others e n s) = selfMintFailures s) -> is_take (Asked q) = false ->
  (forall n a, answers e n q = Ok a -> accounts e (f a)) -> accounts e (let* x := asking q in f x).
Proof.
  intros He Hq Hf n s Hr. rewrite go_pseq. cbn [asking go].
  assert (Ht : forall l, takes (Asked q :: l) = takes l) by (intros l; unfold takes; cbn [List.filter]; by rewrite Hq).
  destruct (answers e n q) as [a|x] eqn:Ha.
  - specialize (Hf n a Ha (n + asks [Asked q])%nat (others e n s)).
    rewrite He in Hf. specialize (Hf Hr).
    destruct (go e (f a) _ _) as [[r s2] l2]. cbn [app]. by rewrite Ht.
  - rewrite Ht, He. cbn. repeat split; lia.
Qed.

Lemma accounts_ret {A} e (a : A) : accounts e (pret a).
Proof. intros n s _. cbn. repeat split; lia. Qed.

(** The mint of an environment that refuses it. *)
Lemma accounts_mint e : groupless e -> accounts e mint.
Proof.
  intros (He & _) n s Hm. unfold mint. cbn [go].
  destruct (SELF_MINT_MAX_FAILURES <=? selfMintFailures s) eqn:Hf; [by apply accounts_ret|].
  apply Z.leb_gt in Hf. specialize (Hm Hf). cbn [go]. rewrite go_pseq. unfold takeOwnKeys. cbn [asking go].
  destruct (answers e n (QTake _)) as [own|x]; cbn [go].
  2: { rewrite He. cbn. repeat split; lia. }
  destruct (others_of _ _) as [|t ts]; cbn [go pret].
  - cbn. rewrite He. cbn. repeat split; lia.
  - rewrite go_pseq. cbn [asking go]. destruct (Hm (n + asks [Asked (QTake (currentUsername s))])%nat (t :: ts)) as [x Hx].
    cbn in Hx |- *. rewrite Hx. cbn. rewrite !He. cbn. repeat split; lia.
Qed.

Lemma accounts_body e : groupless e -> accounts e ensure_body.
Proof.
  intros He. pose proof He as (Hf & Hg). unfold ensure_body. apply accounts_ask; [done|done|].
  intros n1 res _. destruct (listed res) as [ds|]; [|apply accounts_ret]. intros n s Hr. cbn [go].
  destruct (bool_decide _); [by apply accounts_ret|]. destruct (length _ <? 2)%nat.
  - revert Hr. revert n s. apply accounts_ask; [done|done|]. intros n2 [] _; [apply accounts_ret|].
    intros n3 s3 _. cbn [go pret]. cbn. rewrite Hf. repeat split; lia.
  - revert Hr. revert n s. apply accounts_ask; [done|done|]. intros n2 [] Ha; [by destruct (Hg n2)|].
    intros n3 s3 Hr. cbn [go]. unfold defer_or_mint. destruct (bool_decide _); [by apply accounts_mint|].
    cbn [go]. destruct (selfMintDeferredSince s3) as [since|]; [|cbn; repeat split; lia].
    destruct (_ <? _); [by apply accounts_ret|]. by apply accounts_mint.
Qed.

(** A pass pays for its claim with a failure. *)
Lemma pass_pays e n s : groupless e -> (selfMintFailures s < SELF_MINT_MAX_FAILURES -> refuses e) ->
  let '(_, s', l) := go e ensureSelfGroup n s in
  selfMintFailures s + Z.of_nat (takes l) <= selfMintFailures s' /\ (takes l <= 1)%nat /\
  (takes l = 1%nat -> selfMintFailures s < SELF_MINT_MAX_FAILURES).
Proof.
  intros He Hr. unfold ensureSelfGroup. cbn [go]. destruct (_ || _); [cbn; lia|]. cbn [go].
  unfold latched. rewrite go_pbind. pose proof (accounts_body e He n (set_ensuring true s) Hr) as Ha.
  destruct (go e ensure_body n (set_ensuring true s)) as [[[a|x] s1] l1]; cbn [go pseq pbind pret];
    rewrite takes_app; cbn in Ha |- *; lia.
Qed.

Fixpoint claimed_over (es : list (Env ans Page)) (s : Page) : nat :=
  match es with
  | [] => 0
  | e :: rest => let '(_, s', l) := go e ensureSelfGroup 0 s in takes l + claimed_over rest s'
  end.

(** C38. However many passes run while the self-group cannot be formed (the siblings have no packages, or
    the worker refuses the mint, or the list fails, in any order), the account's key packages are claimed
    at most as often as there are failures left of six: the passes stop by themselves.  The passes follow
    each other with no event between them that sets the count of failures back (a change of the roster does,
    [roster_passes]). *)
Theorem failing_mints_stop_claiming (es : list (Env ans Page)) (s : Page) :
  Forall (fun e => groupless e /\ refuses e) es ->
  Z.of_nat (claimed_over es s) <= Z.max 0 (SELF_MINT_MAX_FAILURES - selfMintFailures s).
Proof.
  intros Hes. revert s. induction Hes as [|e es [He Hr] _ IH]; intros s; cbn [claimed_over]; [lia|].
  pose proof (pass_pays e 0 s He (fun _ => Hr)) as Hp. destruct (go e ensureSelfGroup 0 s) as [[r s'] l].
  specialize (IH s'). unfold SELF_MINT_MAX_FAILURES in *. lia.
Qed.

(** ** The fallback of the self-group *)

(** A signed-in device, not the designated one, of an account without a self-group. *)
Record Deferring (f : forall q, result (ans q)) (s : Page) : Prop := {
  def_account : has_account s = true;
  def_free : ensuringSelfGroup s = false;
  def_key : currentDeviceKey s <> EmptyString;
  def_list : exists res ds, f QList = Ok res /\ listed res = Some ds /\
    (2 <= length (authorizedDeviceKeys ds))%nat /\
    designated (authorizedDeviceKeys ds) <> Some (currentDeviceKey s);
  def_none : f QHasSelf = Ok false }.

(** Such a pass comes to the question whether to wait. *)
Lemma deferring_pass f s :
  Deferring f s ->
  go (steady f) ensureSelfGroup 0 s =
  let '(r, s', l) := go (steady f) (pbind
    (Look (fun s => match selfMintDeferredSince s with
      | None => Upd (fun s => set_mint (Some (clock s)) (Some (clock s)) (selfMintFailures s) s) (pret tt)
      | Some since => if clock s - since <? SELF_MINT_FALLBACK_MS then pret tt else mint
      end))
    (fun r => match r with
      | Ok _ => Upd (set_ensuring false) (pret tt)
      | Throw _ => Upd (fun s => set_failures (selfMintFailures s + 1) s) (Start PublishOwnKeys (Upd (set_ensuring false) (pret tt)))
      end)) 2 (set_ensuring true s) in (r, s', Asked QList :: Asked QHasSelf :: l).
Proof.
  intros [Ha Hf Hk (res & ds & Hl & Hd & Hlen & Hdes) Hn].
  unfold ensureSelfGroup. cbn [go]. rewrite Ha, Hf. cbn [negb orb go].
  unfold latched, ensure_body. cbn [pseq pbind asking go answers others steady]. rewrite Hl. cbn [pbind]. rewrite Hd.
  cbn [pbind go currentDeviceKey set_ensuring set_latches]. rewrite bool_decide_false by done.
  replace (length (authorizedDeviceKeys ds) <? 2)%nat with false by (symmetry; by apply Nat.ltb_ge).
  cbn [pseq pbind asking go answers others steady]. rewrite Hn. cbn [pbind go].
  unfold defer_or_mint. rewrite bool_decide_false by done.
  cbn [pbind go]. by destruct (go _ _ 2 _) as [[r s'] l].
Qed.

Definition armed (f : forall q, result (ans q)) (s : Page) : Page := (go (steady f) ensureSelfGroup 0 s).1.2.

Lemma first_pass_arms f s :
  Deferring f s -> selfMintDeferredSince s = None ->
  go (steady f) ensureSelfGroup 0 s =
  (Ok tt, set_ensuring false (set_mint (Some (clock s)) (Some (clock s)) (selfMintFailures s) (set_ensuring true s)),
   [Asked QList; Asked QHasSelf]).
Proof.
  intros Hd Hn. rewrite (deferring_pass _ _ Hd). cbn [pbind go selfMintDeferredSince set_ensuring set_latches].
  by rewrite Hn.
Qed.

(** A mint asks the worker for the group, once it has claimed a sibling's package. *)
Lemma mint_asks {B} (f : forall q, result (ans q)) (k : result unit -> prog B) m s own t ts :
  selfMintFailures s < SELF_MINT_MAX_FAILURES ->
  f (QTake (currentUsername s)) = Ok own -> others_of (currentDeviceKey s) (claimed own) = t :: ts ->
  exists r s' l, go (steady f) (pbind mint k) m s =
    (r, s', Asked (QTake (currentUsername s)) :: Asked (QMintSelf (t :: ts)) :: l).
Proof.
  intros Hf Ht Ho. unfold mint, takeOwnKeys. cbn [pbind go].
  replace (SELF_MINT_MAX_FAILURES <=? selfMintFailures s) with false by (symmetry; by apply Z.leb_gt).
  cbn [pseq pbind asking go answers others steady set_mint currentUsername]. rewrite Ht.
  cbn [pbind go currentDeviceKey set_mint]. rewrite Ho. cbn [pseq pbind asking go answers others steady].
  destruct (go _ _ _ _) as [[r s'] l]. by eexists _, _, _.
Qed.

(** Formation can stall for a window, not forever: the first pass of a device that is not the
    designated one claims nothing and arms the fallback timer; when the timer fires, no group having
    appeared, the device mints the group itself with the siblings whose packages it claims. *)
Theorem fallback_mints (f : forall q, result (ans q)) (s : Page) own t ts (later : Z) :
  Deferring f s -> selfMintDeferredSince s = None -> selfMintFailures s < SELF_MINT_MAX_FAILURES ->
  f (QTake (currentUsername s)) = Ok own -> others_of (currentDeviceKey s) (claimed own) = t :: ts ->
  clock s + SELF_MINT_FALLBACK_MS <= later ->
  selfMintFallbackTimer (armed f s) = Some (clock s) /\
  takes (go (steady f) ensureSelfGroup 0 s).2 = 0%nat /\
  Asked (QMintSelf (t :: ts)) ∈ (go (steady f) fallback_fires 0 (set_clock later (armed f s))).2.
Proof.
  intros Hd Hn Hf Ht Ho Hl. unfold armed. rewrite (first_pass_arms _ _ Hd Hn). cbn [fst snd].
  split; [done|]. split; [done|]. unfold fallback_fires. cbn [go]. rewrite deferring_pass.
  2: { destruct Hd as [Ha Hfr Hk Hds Hno]. by split. }
  set (s1 := set_ensuring true _). cbn [pbind go]. change (selfMintDeferredSince s1) with (Some (clock s)).
  change (clock s1) with later. cbv beta iota.
  replace (later - clock s <? SELF_MINT_FALLBACK_MS) with false by (symmetry; apply Z.ltb_ge; lia).
  set (k := fun r : result unit => _).
  destruct (mint_asks f k 2 s1 own t ts Hf Ht Ho) as (r & s' & l & Hm). rewrite Hm. cbn [snd].
  do 3 apply list_elem_of_further. left.
Qed.
(** The fallback timer is spent by the pass it starts: when the list of devices fails in that pass, the
    device is left with the window recorded and no timer, so that nothing of its own starts another pass,
    although no group exists. *)
Theorem fallback_timer_is_spent_by_an_error (f f' : forall q, result (ans q)) (s : Page) x (later : Z) :
  Deferring f s -> selfMintDeferredSince s = None -> f' QList = Throw x ->
  let s' := (go (steady f') fallback_fires 0 (set_clock later (armed f s))).1.2 in
  selfMintFallbackTimer s' = None /\ selfMintDeferredSince s' = Some (clock s) /\ ensuringSelfGroup s' = false.
Proof.
  intros Hd Hn Hx. unfold armed. rewrite (first_pass_arms _ _ Hd Hn). cbn [fst snd]. destruct Hd as [Ha _ _ _ _].
  unfold fallback_fires, ensureSelfGroup. cbn. rewrite Ha. cbn. rewrite Hx. done.
Qed.

(** ** An outage *)
Lemma outage_pass f s x :
  f QList = Throw x -> has_account s = true -> ensuringSelfGroup s = false ->
  go (steady f) ensureSelfGroup 0 s =
  (Ok tt, set_ensuring false (set_failures (selfMintFailures s + 1) (set_ensuring true s)), [Asked QList; Started PublishOwnKeys]).
Proof. intros Hx Ha He. unfold ensureSelfGroup. cbn. rewrite Ha, He. cbn. by rewrite Hx. Qed.

Lemma outage_passes f x k s :
  f QList = Throw x -> has_account s = true -> ensuringSelfGroup s = false ->
  let s' := Nat.iter k (armed f) s in
  has_account s' = true /\ ensuringSelfGroup s' = false /\
  selfMintFailures s' = selfMintFailures s + Z.of_nat k /\ claimed_over (repeat (steady f) k) s = 0%nat.
Proof.
  intros Hx Ha He. cbn zeta. revert s Ha He. induction k as [|k IH]; intros s Ha He.
  { cbn. split_and!; [done|done|lia|done]. }
  rewrite Nat.iter_succ_r. cbn [repeat claimed_over]. unfold armed at 2 4 6. rewrite (outage_pass _ _ _ Hx Ha He).
  cbn [fst snd]. destruct (IH (set_ensuring false (set_failures (selfMintFailures s + 1) (set_ensuring true s))))
    as (H1 & H2 & H3 & H4); [done|done|]. split_and!; [done|done| |].
  - rewrite H3. cbn. lia.
  - by rewrite H4.
Qed.

Lemma parked_claims_nothing e n s :
  groupless e -> SELF_MINT_MAX_FAILURES <= selfMintFailures s -> takes (go e ensureSelfGroup n s).2 = 0%nat.
Proof.
  intros Hg Hs. assert (Hl : ~ selfMintFailures s < SELF_MINT_MAX_FAILURES) by lia.
  pose proof (pass_pays e n s Hg (fun H => False_ind _ (Hl H))) as Hp.
  destruct (go e ensureSelfGroup n s) as [[r s'] l]. cbn [snd]. lia.
Qed.

(** Six passes during an outage of the account server, none of which claimed a package, count as six
    failed mints: once the server is back, no pass claims a package or mints, until a roster change resets
    the count. *)
Theorem outage_parks_the_mint (f : forall q, result (ans q)) x (s : Page) :
  f QList = Throw x -> has_account s = true -> ensuringSelfGroup s = false -> 0 <= selfMintFailures s ->
  claimed_over (repeat (steady f) 6) s = 0%nat /\
  forall e n, groupless e -> takes (go e ensureSelfGroup n (Nat.iter 6 (armed f) s)).2 = 0%nat.
Proof.
  intros Hx Ha He H0. destruct (outage_passes f x 6 s Hx Ha He) as (_ & _ & Hf & Hc). split; [exact Hc|].
  intros e n Hg. apply (parked_claims_nothing e n _ Hg). rewrite Hf. unfold SELF_MINT_MAX_FAILURES. lia.
Qed.

(** ** The poll for a new device *)
Definition next_poll (p : heal_poll) (s : Page) : heal_poll :=
  MkPoll (clock s + SIBLING_HEAL_INTERVAL_MS) (p_key p) (p_gen p) (p_deadline p).

Lemma removals_keep f n s :
  let s' := (go (steady f) reconcileRemovals n s).1.2 in
  siblingHealTimer s' = siblingHealTimer s /\ siblingHealGen s' = siblingHealGen s /\ clock s' = clock s.
Proof.
  assert (H : forall A (g : Page -> A), (forall b s, g (set_removals b s) = g s) ->
    g (go (steady f) reconcileRemovals n s).1.2 = g s).
  { intros A g Hg. apply (keeps_go (same g)); [done|]. unfold reconcileRemovals, latched. keep; apply Hg. }
  repeat split; by apply H.
Qed.

(** The poll that brings a new device in goes on while the worker says that the device is on its way,
    within its window; but a single question that fails ends it for good, long before the deadline. *)
Theorem heal_poll_survives_no_error (f : forall q, result (ans q)) (p : heal_poll) n (s : Page) :
  p_gen p = siblingHealGen s -> rejections (p_key p) s < 2 -> clock s < p_deadline p ->
  let '(_, s', _) := go (steady f) (heal_tick p) n s in
  match f (QSiblingState (p_key p)) with
  | Ok SibPending => siblingHealTimer s' = Some (next_poll p s)
  | Throw _ => siblingHealTimer s' = None
  | Ok _ => True
  end.
Proof.
  intros Hg Hr Hc. unfold heal_tick. cbn [go]. change (siblingHealGen (clear_heal s)) with (siblingHealGen s).
  change (rejections (p_key p) (clear_heal s)) with (rejections (p_key p) s).
  rewrite Hg, Z.eqb_refl. cbn [negb]. replace (2 <=? rejections (p_key p) s) with false by (symmetry; apply Z.leb_gt; lia).
  rewrite go_pseq. pose proof (removals_keep f n (clear_heal s)) as (H1 & H2 & H3).
  pose proof (pass_ends _ _ removals_latched (steady f) n (clear_heal s)) as H0.
  destruct (go (steady f) reconcileRemovals n (clear_heal s)) as [[r s1] l1]. cbn [fst snd] in *. subst r.
  rewrite go_pseq. cbn [asking go answers others steady].
  destruct (f (QSiblingState (p_key p))) as [[]|x]; cbn [go].
  - by destruct (go _ _ _ _) as [[r s2] l2].
  - unfold rearm. cbn [go]. rewrite H2, H3. cbn [siblingHealGen clear_heal set_heal clock]. rewrite Hg, Z.eqb_refl.
    replace (p_deadline p <=? clock s) with false by (symmetry; by apply Z.leb_gt).
    cbn. by rewrite H3, <-Hg.
  - by destruct (go _ _ _ _) as [[r s2] l2].
  - by destruct (go _ _ _ _) as [[r s2] l2].
  - exact H1.
Qed.
(** ** Publishing *)

Definition no_publish (x : event) : bool := negb (is_publish x).

Lemma backfill_no_publish ds q : only no_publish (backfill_loop ds q).
Proof.
  revert q. induction ds as [|d ds IH]; intros q; cbn [backfill_loop]; [exact I|].
  apply only_pbind; [|by intros []]. unfold backfill_one. destruct (negb _); [exact I|].
  split; [done|]. intros [[]|]; try exact I. split; [done|]. intros [[]|]; try exact I. by split.
Qed.

Lemma epoch_no_publish : only no_publish currentAccountEpoch.
Proof.
  unfold currentAccountEpoch. intros s. destruct (negb _); [exact I|]. apply only_pbind; [|by intros []].
  apply only_pseq; [by split|]. intros res. destruct (listed res) as [ds|]; [|exact I].
  apply only_pseq; [by destruct (dl_revocations res) as [[]|]|]. intros u.
  apply only_pseq; [|done]. apply only_pseq; [by split|]. intros base. apply backfill_no_publish.
Qed.

(** A device whose certificate cannot be brought up to the account's epoch publishes nothing: no peer
    is served a package that it would reject. *)
Theorem stale_device_publishes_nothing e n s :
  (forall m epoch, answers e m (QSyncEpoch epoch) = Ok true) ->
  Forall (fun x => is_publish x = false) (go e syncAndPublish n s).2.
Proof.
  intros Hst. unfold syncAndPublish. rewrite go_pseq.
  pose proof (only_go no_publish e currentAccountEpoch n s epoch_no_publish) as Hl.
  assert (Hl' : Forall (fun x => is_publish x = false) (go e currentAccountEpoch n s).2).
  { eapply Forall_impl; [exact Hl|]. intros x. apply negb_true_iff. }
  destruct (go e currentAccountEpoch n s) as [[[epoch|x] s1] l]; [|done].
  rewrite go_pseq. cbn [asking go]. rewrite Hst. cbn [go pret snd] in *. apply Forall_app. split; [done|]. by repeat constructor.
Qed.

(** The answer [true] of [publishOwnKeys] means that a batch was published: every package of it, the last
    one as the last resort. *)
Lemma publish_is_reported e n s s' l :
  go e publishOwnKeys n s = (Ok true, s', l) ->
  exists hexes oneTime lastResort,
    answers e (S n) (QPackages KEY_PACKAGE_COUNT) = Ok hexes /\
    hexToBytes <$> hexes = oneTime ++ [lastResort] /\ oneTime <> [] /\
    l = [Asked QReady; Asked (QPackages KEY_PACKAGE_COUNT); Asked (QPublish oneTime lastResort)].
Proof.
  unfold publishOwnKeys. cbn [go]. destruct (negb _); [done|]. cbn [pseq pbind asking go].
  destruct (answers e n QReady) as [[]|x]; cbn [go pbind negb pret]; [|done|done].
  destruct (answers e (S n) _) as [hexes|x] eqn:Hh; cbn [go pbind negb pret]; [|done].
  destruct (Z.of_nat (length hexes) <? 2) eqn:H2; cbn [go pbind pret]; [done|]. apply Z.ltb_ge in H2.
  destruct (last (hexToBytes <$> hexes)) as [lr|] eqn:Hlast; cbn [go pbind pret]; [|done].
  apply last_Some in Hlast as [ot Hot]. assert (Hlen : length (hexToBytes <$> hexes) = length hexes) by apply length_fmap.
  rewrite Hot in Hlen |- *. rewrite length_app in Hlen |- *. cbn [length] in *.
  rewrite Nat.add_sub, take_app_length. destruct (answers e (S (S n)) _) as [u|x]; cbn [go pbind pret]; [|done].
  intros [= <- <-]. exists hexes, ot, lr. split_and!; [done|done| |done]. intros ->. cbn in Hlen. lia.
Qed.
End DeviceCareFacts.

(** An account of two devices, [a] the designated one. *)
Module DeviceCareToy.
Import DeviceCareFacts.

Definition row (k : string) : DeviceInfo := MkDevice k k 0 0 false false false.
Definition both : DeviceListResult := MkDevices true (Some [row "a"; row "b"]) (Some 0) None None.
Definition packages : TakeResult :=
  MkTake true (Some [MkPeer "a" [] false; MkPeer "b" [] false]) None.

(** The answers of a healthy server; [devices] and [state] answer two of the questions, and the worker mints
    when [mints]. *)
Definition world (devices : result DeviceListResult) (state : result sibling) (mints : bool) (q : ask) : result (ans q) :=
  match q as q return result (ans q) with
  | QList => devices
  | QTake _ => Ok packages
  | QPackages _ => Ok []
  | QSyncEpoch _ => Ok true
  | QRevocations => Ok 0
  | QReady => Ok true
  | QIsRevoked _ | QMissing _ | QHasSelf => Ok false
  | QMintRecord _ _ => Ok None
  | QSiblingState _ => state
  | QPublish _ _ | QRevoke _ _ | QIngest _ | QHealSiblings _ _ | QHealSelf _ _ | QDriveOut _ _ | QNoteToSelf => Ok tt
  | QMintSelf _ => if mints then Ok tt else Throw (JsError "refused")
  end.

(** The page of device [k]. *)
Definition page (k : string) : Page :=
  MkPage true "al" k 0 false false false None None 0 None 0 [] 0.
Definition poll : heal_poll := MkPoll 3000 "b" 0 120000.

Lemma b_waits : Deferring (world (Ok both) (Ok SibPending) true) (page "b").
Proof. split; try done. exists both, [row "a"; row "b"]. vm_compute. repeat split; [lia|done]. Qed.

Lemma failing_mints_stop_claiming_witness :
  Z.of_nat (claimed_over (repeat (steady (world (Ok both) (Ok SibPending) false)) 9) (page "a")) <= 6.
Proof.
  apply (failing_mints_stop_claiming (repeat (steady (world (Ok both) (Ok SibPending) false)) 9) (page "a")).
  apply List.Forall_forall. intros e He. apply List.repeat_spec in He as ->.
  split; [split; [done|by intros]|]. intros n ts. by exists (JsError "refused").
Defined.

Lemma fallback_mints_witness :
  selfMintFallbackTimer (armed (world (Ok both) (Ok SibPending) true) (page "b")) = Some 0 /\
  takes (go (steady (world (Ok both) (Ok SibPending) true)) ensureSelfGroup 0 (page "b")).2 = 0%nat /\
  Asked (QMintSelf [("a", [])]) ∈ (go (steady (world (Ok both) (Ok SibPending) true)) fallback_fires 0
    (set_clock 13000 (armed (world (Ok both) (Ok SibPending) true) (page "b")))).2.
Proof.
  apply (fallback_mints (world (Ok both) (Ok SibPending) true) (page "b") packages ("a", []) [] 13000); try done.
  apply b_waits.
Defined.

Lemma fallback_timer_is_spent_by_an_error_witness :
  let s' := (go (steady (world (Throw (JsError "offline")) (Ok SibPending) true)) fallback_fires 0
    (set_clock 13000 (armed (world (Ok both) (Ok SibPending) true) (page "b")))).1.2 in
  selfMintFallbackTimer s' = None /\ selfMintDeferredSince s' = Some 0 /\ ensuringSelfGroup s' = false.
Proof.
  apply (fallback_timer_is_spent_by_an_error (world (Ok both) (Ok SibPending) true)
    (world (Throw (JsError "offline")) (Ok SibPending) true) (page "b") (JsError "offline") 13000); [|done|done].
  apply b_waits.
Defined.

Lemma outage_parks_the_mint_witness :
  claimed_over (repeat (steady (world (Throw (JsError "offline")) (Ok SibPending) true)) 6) (page "a") = 0%nat /\
  takes (go (steady (world (Ok both) (Ok SibPending) true)) ensureSelfGroup 0
    (Nat.iter 6 (armed (world (Throw (JsError "offline")) (Ok SibPending) true)) (page "a"))).2 = 0%nat.
Proof.
  destruct (outage_parks_the_mint (world (Throw (JsError "offline")) (Ok SibPending) true) (JsError "offline") (page "a")) as [H1 H2];
    [done|done|done|done|].
  split; [exact H1|]. apply H2. by split.
Defined.

(** Without the outage the same device mints at once. *)
Example mints_at_once :
  takes (go (steady (world (Ok both) (Ok SibPending) true)) ensureSelfGroup 0 (page "a")).2 = 1%nat.
Proof. reflexivity. Qed.

Lemma heal_poll_survives_no_error_witness :
  siblingHealTimer (go (steady (world (Ok both) (Throw (JsError "timeout")) true)) (heal_tick poll) 0 (page "a")).1.2 = None.
Proof.
  pose proof (heal_poll_survives_no_error (world (Ok both) (Throw (JsError "timeout")) true) poll 0 (page "a")
    eq_refl eq_refl eq_refl) as H.
  destruct (go _ _ _ _) as [[r s'] l]. exact H.
Defined.

Example heal_poll_goes_on :
  siblingHealTimer (go (steady (world (Ok both) (Ok SibPending) true)) (heal_tick poll) 0 (page "a")).1.2 =
  Some (MkPoll 3000 "b" 0 120000).
Proof. reflexivity. Qed.

Lemma stale_device_publishes_nothing_witness :
  Forall (fun x => is_publish x = false)
    (go (steady (world (Ok both) (Ok SibPending) true)) syncAndPublish 0 (page "a")).2.
Proof. by apply (stale_device_publishes_nothing (steady (world (Ok both) (Ok SibPending) true)) 0 (page "a")). Defined.
End DeviceCareToy.
