(* ===== verification/WorkerProxy.v ===== *)
(** * The proxy to the owning worker (client/src/workerproxy.ts, client/worker.js)

    The page holds a [WorkerController], which posts each method of the controller as a message and
    settles the call's promise when the answer comes; the worker runs the controller, one operation
    at a time.  Here are both ends, the two wires between them, and the tables of methods on each
    side.  A promise is a number, in the order the calls were made; what crosses a wire is JSON (a
    typed array, which structured cloning copies, stands as any other value).  How an operation of the
    controller ends is given by the run. *)

From S2P Require Import Prelude Json Contacts.

(** [if (v)]; [None] is [undefined]. *)
Definition truthy (v : option json) : bool :=
  match v with
  | None | Some JNull => false
  | Some (JBool b) => b
  | Some (JNum n) => negb (n =? 0)
  | Some (JStr s) => negb (bool_decide (s = EmptyString))
  | Some (JArr _) | Some (JObj _) => true
  end.

(** [k in o] for an own property [k] of a message. *)
Definition has_key (o : json) (k : string) : bool := bool_decide (is_Some (prop o k)).

Module WorkerProxy.

(** ** The page's end *)

Record request := MkRequest { req_id : Z; req_op : string; req_args : list (option json) }.

Inductive outcome := Resolved (v : option json) | Rejected (msg : string).

(** [pending] maps an id to the promise whose callbacks it holds; [settled] lists the promises that
    have settled, [delivered] the events given to the handler. *)
Record Proxy := MkProxy {
  seq : Z;
  pending : list (Z * nat);
  eventHandler : bool;
  promises : nat;
  settled : list (nat * outcome);
  delivered : list json }.

Definition fresh : Proxy := MkProxy 0 [] false 0 [] [].

Definition isResponse (m : json) : bool := is_object m && has_key m "id" && has_key m "ok".
Definition isEvent (m : json) : bool := is_object m && has_key m "event".

Definition onEvent (p : Proxy) : Proxy :=
  MkProxy (seq p) (pending p) true (promises p) (settled p) (delivered p).

(** The promise the caller gets, and the message posted. *)
Definition call (op : string) (args : list (option json)) (p : Proxy) : nat * request * Proxy :=
  (promises p, MkRequest (seq p) op args,
   MkProxy (seq p + 1) (JsMap.set (seq p) (promises p) (pending p)) (eventHandler p) (S (promises p))
     (settled p) (delivered p)).

(** A promise settles once. *)
Definition settle (i : nat) (o : outcome) (l : list (nat * outcome)) : list (nat * outcome) :=
  if JsMap.has i l then l else l ++ [(i, o)].

(** [this.pending.get(msg.id)]: only a number is found. *)
Definition entry_of (msg : json) (p : Proxy) : option (Z * nat) :=
  match prop msg "id" with
  | Some (JNum n) => (fun i => (n, i)) <$> JsMap.lookup n (pending p)
  | _ => None
  end.

Definition outcome_of (msg : json) : outcome :=
  if truthy (prop msg "ok") then Resolved (prop msg "result")
  else Rejected (match prop msg "error" with Some (JStr e) => e | _ => "worker error" end).

Definition handle (msg : json) (p : Proxy) : Proxy :=
  if isEvent msg then
    if eventHandler p then
      MkProxy (seq p) (pending p) true (promises p) (settled p) (delivered p ++ [msg])
    else p
  else if negb (isResponse msg) then p
  else
    match entry_of msg p with
    | None => p
    | Some (n, i) =>
        MkProxy (seq p) (JsMap.remove n (pending p)) (eventHandler p) (promises p)
          (settle i (outcome_of msg) (settled p)) (delivered p)
    end.

(** ** The methods of the proxy

    A method posts its own name and all its parameters, an absent one as [undefined] or as the
    default the signature gives. *)
Inductive param := Arg (name : string) | Dflt (name : string) (v : json).

Definition bind_param (a : option (option json)) (p : param) : option json :=
  match mjoin a, p with
  | Some v, _ => Some v
  | None, Arg _ => None
  | None, Dflt _ v => Some v
  end.

Definition bind_params (ps : list param) (args : list (option json)) : list (option json) :=
  imap (fun i p => bind_param (args !! i) p) ps.

Definition account_methods : list (string * list param) :=
  [("ping", []); ("deriveAuthKey", [Arg "passphrase"; Arg "salt"]);
   ("unlock", [Arg "username"; Arg "passphrase"]);
   ("verifyPassphrase", [Arg "username"; Arg "passphrase"]); ("deviceAuthState", []);
   ("discardAccount", [Arg "username"]); ("peerFor", [Arg "id"]); ("listChannels", []);
   ("openChannel", [Arg "id"]); ("openNoteToSelf", []); ("startKeyExchange", []);
   ("channelKeyExchange", [Arg "id"]); ("acceptKeyExchange", [Arg "conversationId"]);
   ("connectGateway", [Arg "wsUrl"]); ("startConversation", [Arg "targets"]);
   ("sendMessage", [Arg "conversationId"; Arg "text"; Arg "lifetime"]);
   ("revokeMessage", [Arg "conversationId"; Arg "messageId"]); ("recoverySecret", []);
   ("ensureAccountSeed", []); ("openProvisioningWindow", []); ("joinDevice", []);
   ("confirmProvisioning", [])].

Definition device_methods : list (string * list param) :=
  [("closeProvisioning", []); ("startQrPairing", []); ("grantScannedDevice", [Arg "qrPayload"]);
   ("keyPackages", [Arg "n"]); ("isGroupReady", []);
   ("recoverWithSeed", [Arg "recoverySeedHex"; Arg "epoch"]); ("syncEpoch", [Arg "epoch"]);
   ("certEpoch", []); ("revokeDeviceKey", [Arg "deviceSigKeyHex"; Arg "issuedSeq"]);
   ("ingestRevocations", [Arg "records"]); ("revocationState", []);
   ("isDeviceRevoked", [Arg "deviceSigKeyHex"]); ("accountFingerprint", []); ("historyOffEnabled", []);
   ("setHistoryOff", [Arg "on"; Dflt "purgeExisting" (JBool true)]); ("buddyVerifyInfo", [Arg "username"]);
   ("buddyVerifyStates", [Arg "usernames"]);
   ("markBuddyVerified", [Arg "username"; Arg "peerKey"; Dflt "expectedPrev" (JStr EmptyString)]);
   ("clearBuddyVerified", [Arg "username"]); ("addDevice", [Arg "conversationId"; Arg "target"]);
   ("excludeDevice", [Arg "sigKeyHex"]); ("hasMissingSiblings", [Arg "ownDeviceKeys"]);
   ("reconcileSiblings", [Arg "ownDeviceKeys"; Arg "candidates"])].

Definition contact_methods : list (string * list param) :=
  [("reconcileRemovals", [Arg "ownDeviceKeys"; Arg "revokedKeys"]);
   ("reconcileSelf", [Arg "ownDeviceKeys"; Arg "candidates"]); ("selfSiblingState", [Arg "deviceKey"]);
   ("hasSelfGroup", []); ("ensureSelfGroup", [Arg "targets"]); ("getIdentity", []);
   ("setIdentity", [Arg "profile"]); ("getPeerIdentities", [Arg "conversationId"]);
   ("tagConversationHandle", [Arg "conversationId"; Arg "username"]); ("getBuddyInfo", [Arg "username"]);
   ("buddyIcons", [Arg "usernames"]); ("listBuddies", []); ("addBuddy", [Arg "username"; Arg "group"]);
   ("removeBuddy", [Arg "username"]); ("setBuddyGroup", [Arg "username"; Arg "group"]); ("listGroups", []);
   ("addGroup", [Arg "name"]); ("renameGroup", [Arg "role"; Arg "name"]); ("deleteGroup", [Arg "name"]);
   ("blockConversation", [Arg "conversationId"]); ("removeConversation", [Arg "conversationId"]);
   ("listBlocked", []); ("unblock", [Arg "key"]); ("getPresenceEnabled", []);
   ("setPresenceEnabled", [Arg "on"]); ("getNotifyEnabled", []); ("setNotifyEnabled", [Arg "on"]);
   ("sendFileSignal", [Arg "conversationId"; Arg "json"]);
   ("sendCallSignal", [Arg "conversationId"; Arg "json"])].

Definition METHODS : list (string * list param) := account_methods ++ device_methods ++ contact_methods.

(** [controller.m?.(...args)] on the proxy: a method it lacks is skipped. *)
Definition invoke (m : string) (args : list (option json)) (p : Proxy) : option (nat * request * Proxy) :=
  (fun ps => call m (bind_params ps args) p) <$> JsMap.lookup m METHODS.

(** The interface the page is written against; [true] marks an optional method. *)
Definition AppController : list (string * bool) :=
  [("unlock", false); ("deviceAuthState", true); ("listChannels", false); ("peerFor", true);
   ("openChannel", false); ("openNoteToSelf", false); ("startKeyExchange", false);
   ("channelKeyExchange", false); ("acceptKeyExchange", false); ("discardAccount", true);
   ("verifyPassphrase", true); ("connectGateway", false); ("startConversation", false);
   ("sendMessage", false); ("revokeMessage", true); ("recoverySecret", true); ("ensureAccountSeed", true);
   ("openProvisioningWindow", true); ("joinDevice", true); ("confirmProvisioning", true);
   ("closeProvisioning", true); ("startQrPairing", true); ("grantScannedDevice", true);
   ("keyPackages", true); ("isGroupReady", true); ("recoverWithSeed", true); ("syncEpoch", true);
   ("certEpoch", true); ("revokeDeviceKey", true); ("ingestRevocations", true); ("revocationState", true);
   ("isDeviceRevoked", true); ("accountFingerprint", true); ("historyOffEnabled", true);
   ("setHistoryOff", true); ("buddyVerifyInfo", true); ("buddyVerifyStates", true);
   ("markBuddyVerified", true); ("clearBuddyVerified", true); ("addDevice", true); ("excludeDevice", true);
   ("hasMissingSiblings", true); ("reconcileSiblings", true); ("reconcileRemovals", true);
   ("reconcileSelf", true); ("selfSiblingState", true); ("hasSelfGroup", true); ("ensureSelfGroup", true);
   ("onEvent", true); ("getIdentity", true); ("setIdentity", true); ("getPeerIdentities", true);
   ("tagConversationHandle", true); ("getBuddyInfo", true); ("buddyIcons", true); ("buddyAwayText", true);
   ("listBuddies", true); ("addBuddy", true); ("removeBuddy", true); ("setBuddyGroup", true);
   ("listGroups", true); ("addGroup", true); ("renameGroup", true); ("deleteGroup", true);
   ("blockConversation", true); ("removeConversation", true); ("listBlocked", true); ("unblock", true);
   ("getPresenceEnabled", true); ("setPresenceEnabled", true); ("getNotifyEnabled", true);
   ("setNotifyEnabled", true); ("getAppearance", true); ("setAppearance", true); ("sendFileSignal", true);
   ("sendCallSignal", true)].

(** ** The worker's end *)

(** What an operation of the table calls: itself ([Ping]), the key derivation, or a method of the
    controller with that many arguments of the array. *)
Inductive target := Ping | DeriveKey | Ctrl (method : string) (arity : nat).

Definition OPS : list (string * target) :=
  [("ping", Ping); ("deriveAuthKey", DeriveKey); ("unlock", Ctrl "unlock" 2);
   ("verifyPassphrase", Ctrl "verifyPassphrase" 2); ("deviceAuthState", Ctrl "deviceAuthState" 0);
   ("discardAccount", Ctrl "discardAccount" 1); ("listChannels", Ctrl "listChannels" 0);
   ("peerFor", Ctrl "peerFor" 1); ("openChannel", Ctrl "openChannel" 1);
   ("openNoteToSelf", Ctrl "openNoteToSelf" 0); ("startKeyExchange", Ctrl "startKeyExchange" 0);
   ("channelKeyExchange", Ctrl "channelKeyExchange" 1); ("acceptKeyExchange", Ctrl "acceptKeyExchange" 1);
   ("connectGateway", Ctrl "connectGateway" 1); ("startConversation", Ctrl "startConversation" 1);
   ("sendMessage", Ctrl "sendMessage" 3); ("revokeMessage", Ctrl "revokeMessage" 2);
   ("recoverySecret", Ctrl "recoverySecret" 0); ("ensureAccountSeed", Ctrl "ensureAccountSeed" 0);
   ("openProvisioningWindow", Ctrl "openProvisioningWindow" 0); ("joinDevice", Ctrl "joinDevice" 0);
   ("confirmProvisioning", Ctrl "confirmProvisioning" 0);
   ("closeProvisioning", Ctrl "closeProvisioning" 0); ("startQrPairing", Ctrl "startQrPairing" 0);
   ("grantScannedDevice", Ctrl "grantScannedDevice" 1); ("keyPackages", Ctrl "keyPackages" 1);
   ("isGroupReady", Ctrl "isGroupReady" 0); ("recoverWithSeed", Ctrl "recoverWithSeed" 2);
   ("syncEpoch", Ctrl "syncEpoch" 1); ("certEpoch", Ctrl "certEpoch" 0);
   ("revokeDeviceKey", Ctrl "revokeDeviceKey" 2); ("ingestRevocations", Ctrl "ingestRevocations" 1);
   ("revocationState", Ctrl "revocationState" 0); ("isDeviceRevoked", Ctrl "isDeviceRevoked" 1);
   ("accountFingerprint", Ctrl "accountFingerprint" 0); ("historyOffEnabled", Ctrl "historyOffEnabled" 0);
   ("setHistoryOff", Ctrl "setHistoryOff" 2); ("buddyVerifyInfo", Ctrl "buddyVerifyInfo" 1);
   ("buddyVerifyStates", Ctrl "buddyVerifyStates" 1); ("markBuddyVerified", Ctrl "markBuddyVerified" 3);
   ("clearBuddyVerified", Ctrl "clearBuddyVerified" 1); ("addDevice", Ctrl "addDevice" 2);
   ("excludeDevice", Ctrl "excludeDevice" 1); ("hasMissingSiblings", Ctrl "hasMissingSiblings" 1);
   ("reconcileSiblings", Ctrl "reconcileSiblings" 2); ("reconcileRemovals", Ctrl "reconcileRemovals" 2);
   ("reconcileSelf", Ctrl "reconcileSelf" 2); ("selfSiblingState", Ctrl "selfSiblingState" 1);
   ("hasSelfGroup", Ctrl "hasSelfGroup" 0); ("ensureSelfGroup", Ctrl "ensureSelfGroup" 1);
   ("getIdentity", Ctrl "getIdentity" 0); ("setIdentity", Ctrl "setIdentity" 1);
   ("getPeerIdentities", Ctrl "getPeerIdentities" 1);
   ("tagConversationHandle", Ctrl "tagConversationHandle" 2); ("getBuddyInfo", Ctrl "getBuddyInfo" 1);
   ("buddyIcons", Ctrl "buddyIcons" 1); ("listBuddies", Ctrl "listBuddies" 0);
   ("addBuddy", Ctrl "addBuddy" 2); ("removeBuddy", Ctrl "removeBuddy" 1);
   ("setBuddyGroup", Ctrl "setBuddyGroup" 2); ("listGroups", Ctrl "listGroups" 0);
   ("addGroup", Ctrl "addGroup" 1); ("renameGroup", Ctrl "renameGroup" 2);
   ("deleteGroup", Ctrl "deleteGroup" 1); ("blockConversation", Ctrl "blockConversation" 1);
   ("removeConversation", Ctrl "removeConversation" 1); ("listBlocked", Ctrl "listBlocked" 0);
   ("unblock", Ctrl "unblock" 1); ("getPresenceEnabled", Ctrl "getPresenceEnabled" 0);
   ("setPresenceEnabled", Ctrl "setPresenceEnabled" 1); ("getNotifyEnabled", Ctrl "getNotifyEnabled" 0);
   ("setNotifyEnabled", Ctrl "setNotifyEnabled" 1); ("sendFileSignal", Ctrl "sendFileSignal" 2);
   ("sendCallSignal", Ctrl "sendCallSignal" 2)].

(** [(a) => controller.m(a[0], a[1])]: what is beyond the array is [undefined]. *)
Definition passed (n : nat) (args : list (option json)) : list (option json) :=
  (fun i => mjoin (args !! i)) <$> List.seq 0 n.

(** Where the promise chain of the worker stands: not started, done with what came before, rejected,
    or inside an operation. *)
Inductive position := Loading | Free | Broken (e : string) | Running (id : Z).

Record Worker := MkWorker {
  chain : position;
  controller : bool;
  queue : list request;
  started : list request;
  answered : list (Z * outcome) }.

Definition asleep : Worker := MkWorker Loading false [] [] [].

Definition to_json (r : Z * outcome) : json :=
  match r.2 with
  | Resolved v => JObj ([("id", JNum r.1); ("ok", JBool true)] ++
                        match v with Some x => [("result", x)] | None => [] end)
  | Rejected e => JObj [("id", JNum r.1); ("ok", JBool false); ("error", JStr e)]
  end.

(** [err && err.message ? err.message : String(err)] *)
Definition error_text (message : option string) (printed : string) : string :=
  match message with
  | Some m => if bool_decide (m = EmptyString) then printed else m
  | None => printed
  end.

(** The answer of [id], which frees the chain. *)
Definition answer (id : Z) (o : outcome) (w : Worker) : Worker * list json :=
  (MkWorker Free (controller w) (queue w) (started w) (answered w ++ [(id, o)]), [to_json (id, o)]).

Definition onmessage (r : request) (w : Worker) : Worker :=
  MkWorker (chain w) (controller w) (queue w ++ [r]) (started w) (answered w).

Definition null_error (m : string) : string :=
  "Cannot read properties of null (reading '" +:+ m +:+ "')".

(** What [OPS[op]] gives, an inherited function included. *)
Definition ops_read (op : string) : JsObj.slot target := JsObj.read op OPS.

(** The head of the queue has its turn: a rejected chain answers it with the rejection, an unknown
    operation is refused, and without a controller only the two operations that need none run. *)
Definition turn (w : Worker) : Worker * list json :=
  match chain w, queue w with
  | Broken e, r :: q =>
      answer (req_id r) (Rejected e) (MkWorker Free (controller w) q (started w) (answered w))
  | Free, r :: q =>
      let w := MkWorker Free (controller w) q (started w) (answered w) in
      let run := MkWorker (Running (req_id r)) (controller w) q (started w ++ [r]) (answered w) in
      match ops_read (req_op r) with
      | JsObj.Absent => answer (req_id r) (Rejected ("unknown op: " +:+ req_op r)) w
      | JsObj.Inherited => (run, [])
      | JsObj.Own Ping => answer (req_id r) (Resolved (Some (JBool true))) w
      | JsObj.Own DeriveKey => (run, [])
      | JsObj.Own (Ctrl m _) =>
          if controller w then (run, []) else answer (req_id r) (Rejected (null_error m)) w
      end
  | _, _ => (w, [])
  end.

(** The operation that runs has ended. *)
Definition finish (o : outcome) (w : Worker) : Worker * list json :=
  match chain w with
  | Running id => answer id o w
  | _ => (w, [])
  end.

(** [ready] settles: the wasm is loaded and the database open, or not. *)
Definition init (e : option string) (w : Worker) : Worker :=
  match chain w, e with
  | Loading, None => MkWorker Free true (queue w) (started w) (answered w)
  | Loading, Some e => MkWorker (Broken e) false (queue w) (started w) (answered w)
  | _, _ => w
  end.

(** ** Both ends and the wires *)

Record System := MkSystem {
  proxy : Proxy;
  posted : list request;
  worker : Worker;
  back : list json }.

Definition start : System := MkSystem fresh [] asleep [].

Inductive op :=
  | OCall (m : string) (args : list (option json))
  | OOnEvent
  | OArrive
  | OInit (e : option string)
  | OTurn
  | OFinish (o : outcome)
  | OPush (kind : string) (payload : json)
  | ODeliver.

Definition of_worker (s : System) (x : Worker * list json) : System :=
  MkSystem (proxy s) (posted s) x.1 (back s ++ x.2).

Definition step (o : op) (s : System) : System :=
  match o with
  | OCall m args =>
      match invoke m args (proxy s) with
      | Some (_, r, p) => MkSystem p (posted s ++ [r]) (worker s) (back s)
      | None => s
      end
  | OOnEvent => MkSystem (onEvent (proxy s)) (posted s) (worker s) (back s)
  | OArrive =>
      match posted s with
      | r :: rest => MkSystem (proxy s) rest (onmessage r (worker s)) (back s)
      | [] => s
      end
  | OInit e => MkSystem (proxy s) (posted s) (init e (worker s)) (back s)
  | OTurn => of_worker s (turn (worker s))
  | OFinish o => of_worker s (finish o (worker s))
  | OPush kind payload =>
      MkSystem (proxy s) (posted s) (worker s)
        (back s ++ [JObj [("event", JStr kind); ("payload", payload)]])
  | ODeliver =>
      match back s with
      | msg :: rest => MkSystem (handle msg (proxy s)) (posted s) (worker s) rest
      | [] => s
      end
  end.

Definition run (os : list op) (s : System) : System := foldl (fun s o => step o s) s os.

(** The requests of a run, numbered in the order of the calls. *)
Definition asked (os : list op) : list (string * list (option json)) :=
  omap (fun o => match o with
                 | OCall m args => (fun ps => (m, bind_params ps args)) <$> JsMap.lookup m METHODS
                 | _ => None
                 end) os.

Definition requests (os : list op) : list request :=
  imap (fun i x => MkRequest (Z.of_nat i) x.1 x.2) (asked os).

(** ** Lemmas *)

Lemma invoke_step m args s :
  step (OCall m args) s =
  match JsMap.lookup m METHODS with
  | Some ps =>
      let c := call m (bind_params ps args) (proxy s) in
      MkSystem c.2 (posted s ++ [c.1.2]) (worker s) (back s)
  | None => s
  end.
Proof. cbn [step]. unfold invoke. by destruct (JsMap.lookup m METHODS). Qed.

Lemma requests_app os o :
  requests (os ++ [o]) =
  requests os ++ imap (fun i x => MkRequest (Z.of_nat (length (asked os) + i)) x.1 x.2) (asked [o]).
Proof.
  unfold requests, asked. rewrite omap_app, imap_app. f_equal.
Qed.

Lemma length_requests os : length (requests os) = length (asked os).
Proof. apply length_imap. Qed.

Lemma system_run_snoc os o s : run (os ++ [o]) s = step o (run os s).
Proof. unfold run. by rewrite foldl_snoc. Qed.

Lemma to_json_response x : isEvent (to_json x) = false /\ isResponse (to_json x) = true.
Proof. destruct x as [n [[v|]|e]]; done. Qed.

Lemma to_json_outcome x : outcome_of (to_json x) = x.2.
Proof. destruct x as [n [[v|]|e]]; done. Qed.

Lemma to_json_id x : prop (to_json x) "id" = Some (JNum x.1).
Proof. destruct x as [n [[v|]|e]]; done. Qed.

(** *** The invariant

    With [k] promises settled, [n] calls made and the requests [rs]: *)
Definition waiting (k n : nat) : list (Z * nat) := (fun i => (Z.of_nat i, i)) <$> List.seq k (n - k).

Definition running (w : Worker) : list Z := match chain w with Running id => [id] | _ => [] end.

Record inv (rs : list request) (s : System) : Prop := {
  inv_ids : req_id <$> rs = Z.of_nat <$> List.seq 0 (length rs);
  inv_seq : seq (proxy s) = Z.of_nat (length rs) /\ promises (proxy s) = length rs;
  inv_split : exists past,
    rs = past ++ queue (worker s) ++ posted s /\
    req_id <$> past = (answered (worker s)).*1 ++ running (worker s) /\
    started (worker s) `sublist_of` past;
  inv_settled : exists k,
    (k <= length (answered (worker s)))%nat /\
    settled (proxy s) = imap (fun i x => (i, x.2)) (take k (answered (worker s))) /\
    pending (proxy s) = waiting k (length rs) /\
    List.filter (fun m => negb (isEvent m)) (back s) = to_json <$> drop k (answered (worker s)) }.

Lemma waiting_set k n : (k <= n)%nat -> JsMap.set (Z.of_nat n) n (waiting k n) = waiting k (S n).
Proof.
  intros Hk. rewrite JsMap.set_fresh.
  - unfold waiting. replace (S n - k)%nat with (n - k + 1)%nat by lia.
    rewrite List.seq_app, fmap_app. do 2 f_equal. cbn. do 2 f_equal; lia.
  - unfold waiting. rewrite <-list_fmap_compose. intros (i & Hi & Hin)%list_elem_of_fmap. cbn in Hi.
    apply elem_of_seq in Hin. lia.
Qed.

Lemma waiting_first k n :
  (k < n)%nat ->
  JsMap.lookup (Z.of_nat k) (waiting k n) = Some k /\
  JsMap.remove (Z.of_nat k) (waiting k n) = waiting (S k) n.
Proof.
  intros Hk. unfold waiting. replace (n - k)%nat with (S (n - S k)) by lia.
  rewrite <-cons_seq. cbn [fmap list_fmap JsMap.lookup JsMap.remove].
  rewrite !decide_True by done. split; [done|].
  generalize (n - S k)%nat. intros m. assert (H : (k < S k)%nat) by lia. revert H.
  generalize (S k). induction m as [|m IH]; intros j Hj; [done|].
  cbn [List.seq fmap list_fmap JsMap.remove]. rewrite decide_False by lia. f_equal. apply IH. lia.
Qed.

Lemma inv_start : inv [] start.
Proof.
  split; [done|done| |].
  - exists []. done.
  - exists 0%nat. done.
Qed.

Lemma inv_call rs s op args :
  inv rs s ->
  let c := call op args (proxy s) in
  inv (rs ++ [MkRequest (Z.of_nat (length rs)) op args])
    (MkSystem c.2 (posted s ++ [c.1.2]) (worker s) (back s)).
Proof.
  intros [Hids [Hseq Hn] (past & Hrs & Hpast & Hst) (k & Hk & Hset & Hpend & Hback)] c.
  assert (Hkn : (k <= length rs)%nat).
  { apply (f_equal length) in Hpast. rewrite length_fmap, length_app, length_fmap in Hpast.
    rewrite Hrs, length_app. lia. }
  split; cbn [c call fst snd proxy posted worker back seq promises pending settled].
  - rewrite fmap_app, length_app, Hids. cbn [length]. rewrite List.seq_app, fmap_app. done.
  - rewrite length_app, Hseq, Hn. cbn. lia.
  - exists past. split; [|done]. rewrite Hseq, (app_assoc (queue _)), (app_assoc past). by f_equal.
  - exists k. rewrite Hseq, Hn, Hpend, length_app. cbn [length].
    rewrite waiting_set by done. rewrite Nat.add_1_r. auto.
Qed.

(** The worker answers the request with [id] and moves to [chain]. *)
Lemma filter_answer k l x bk :
  (k <= length l)%nat ->
  List.filter (fun m => negb (isEvent m)) bk = to_json <$> drop k l ->
  List.filter (fun m => negb (isEvent m)) (bk ++ [to_json x]) = to_json <$> drop k (l ++ [x]).
Proof.
  intros Hk Hb. rewrite List.filter_app, Hb, drop_app_le by done. cbn [List.filter].
  rewrite (proj1 (to_json_response x)). by rewrite fmap_app.
Qed.

Lemma inv_answer rs s c ct q st id o past :
  inv rs s -> rs = past ++ q ++ posted s ->
  req_id <$> past = (answered (worker s)).*1 ++ [id] -> st `sublist_of` past ->
  inv rs (of_worker s (answer id o (MkWorker c ct q st (answered (worker s))))).
Proof.
  intros [Hids Hseq _ (k & Hk & Hset & Hpend & Hback)] Hrs Hpast Hst.
  split; cbn [of_worker answer proxy posted worker back queue started answered chain running fst snd]; try done.
  - exists past. rewrite fmap_app, app_nil_r. auto.
  - exists k. rewrite length_app. split; [cbn; lia|]. split; [by rewrite take_app_le|].
    split; [done|]. by apply filter_answer.
Qed.

Lemma of_worker_idle s w : w = worker s -> of_worker s (w, []) = s.
Proof. intros ->. destruct s. unfold of_worker. cbn. by rewrite app_nil_r. Qed.

Lemma inv_begin rs s ct r q past :
  inv rs s -> rs = past ++ q ++ posted s ->
  req_id <$> past = (answered (worker s)).*1 ++ [req_id r] ->
  started (worker s) ++ [r] `sublist_of` past ->
  inv rs (of_worker s (MkWorker (Running (req_id r)) ct q (started (worker s) ++ [r])
                         (answered (worker s)), [])).
Proof.
  intros [Hids Hseq _ (k & Hk & Hset & Hpend & Hback)] Hrs Hpast Hst.
  split; cbn [of_worker proxy posted worker back queue started answered chain running fst snd]; try done.
  - exists past. auto.
  - exists k. rewrite app_nil_r. auto.
Qed.

Lemma inv_turn rs s : inv rs s -> inv rs (of_worker s (turn (worker s))).
Proof.
  intros Hinv. pose proof Hinv as [_ _ (past & Hrs & Hpast & Hst) _]. unfold turn.
  destruct (chain (worker s)) as [| |e|id] eqn:Hc; destruct (queue (worker s)) as [|r q] eqn:Hq;
    try (by rewrite of_worker_idle).
  all: unfold running in Hpast; rewrite Hc, app_nil_r in Hpast.
  all: assert (Hrs' : rs = (past ++ [r]) ++ q ++ posted s) by (by rewrite <-app_assoc).
  all: assert (Hpast' : req_id <$> past ++ [r] = (answered (worker s)).*1 ++ [req_id r])
    by (by rewrite fmap_app, Hpast).
  all: assert (Hskip : started (worker s) `sublist_of` past ++ [r]) by (by apply sublist_inserts_r).
  all: assert (Hrun : started (worker s) ++ [r] `sublist_of` past ++ [r]) by (by apply sublist_app).
  2: by eapply inv_answer.
  cbn zeta. destruct (ops_read (req_op r)) as [| |[| |m a]]; try (by eapply inv_answer);
    try (by eapply inv_begin).
  match goal with |- context [if ?b then _ else _] => destruct b end; [by eapply inv_begin|by eapply inv_answer].
Qed.

Lemma inv_finish rs s o : inv rs s -> inv rs (of_worker s (finish o (worker s))).
Proof.
  intros Hinv. pose proof Hinv as [_ _ (past & Hrs & Hpast & Hst) _]. unfold finish.
  destruct (chain (worker s)) as [| |e|id] eqn:Hc; try (by rewrite of_worker_idle).
  unfold running in Hpast. rewrite Hc in Hpast. destruct (worker s) as [c ct q st an] eqn:Hw. cbn in *.
  pose proof (inv_answer rs s c ct q st id o past Hinv) as H. rewrite Hw in H. cbn in H. by apply H.
Qed.

(** The answers come in the order of the calls. *)
Lemma answered_id rs s k x :
  inv rs s -> answered (worker s) !! k = Some x -> x.1 = Z.of_nat k /\ (k < length rs)%nat.
Proof.
  intros [Hids _ (past & Hrs & Hpast & _) _] Hx.
  assert (E : (req_id <$> rs) !! k = Some x.1).
  { rewrite Hrs, !fmap_app, Hpast, <-!app_assoc. apply lookup_app_l_Some.
    by rewrite list_lookup_fmap, Hx. }
  rewrite Hids, list_lookup_fmap in E. destruct (List.seq 0 (length rs) !! k) as [j|] eqn:Hj; [|done].
  apply lookup_seq in Hj as [-> Hlt]. cbn in E. by injection E as <-.
Qed.

Lemma has_settled k l : JsMap.has k (imap (fun i (x : Z * outcome) => (i, x.2)) (take k l)) = false.
Proof.
  unfold JsMap.has. destruct (JsMap.lookup k _) as [o|] eqn:E; [|done].
  apply JsMap.lookup_Some_in, elem_of_lookup_imap in E as (i & x & [= -> _] & Hx).
  apply lookup_take_Some in Hx as [_ Hlt]. lia.
Qed.

Lemma handle_answer k n x p :
  (k < n)%nat -> x.1 = Z.of_nat k -> pending p = waiting k n -> JsMap.has k (settled p) = false ->
  handle (to_json x) p =
  MkProxy (seq p) (waiting (S k) n) (eventHandler p) (promises p) (settled p ++ [(k, x.2)]) (delivered p).
Proof.
  intros Hk Hx Hp Hs. unfold handle. destruct (to_json_response x) as [-> ->]. cbn [negb].
  unfold entry_of. rewrite to_json_id, Hp, Hx. destruct (waiting_first k n Hk) as [-> Hrm].
  cbn [fmap option_fmap option_map]. unfold settle. by rewrite Hs, Hrm, to_json_outcome.
Qed.

Lemma handle_event m p :
  isEvent m = true ->
  seq (handle m p) = seq p /\ promises (handle m p) = promises p /\ pending (handle m p) = pending p /\
  settled (handle m p) = settled p.
Proof. intros He. unfold handle. rewrite He. by destruct (eventHandler p). Qed.

Lemma inv_deliver rs s msg rest :
  inv rs s -> back s = msg :: rest ->
  inv rs (MkSystem (handle msg (proxy s)) (posted s) (worker s) rest).
Proof.
  intros Hinv Hb. pose proof Hinv as [Hids [Hseq Hn] Hsplit (k & Hk & Hset & Hpend & Hback)].
  rewrite Hb in Hback. cbn [List.filter] in Hback. destruct (isEvent msg) eqn:He; cbn [negb] in Hback.
  - destruct (handle_event msg (proxy s) He) as (E1 & E2 & E3 & E4).
    split; cbn [proxy posted worker back]; rewrite ?E1, ?E2; [done|done|done|].
    exists k. rewrite E3, E4. done.
  - destruct (drop k (answered (worker s))) as [|x l] eqn:Hd; [done|].
    cbn [fmap list_fmap] in Hback. injection Hback as -> Hback.
    assert (Hx : answered (worker s) !! k = Some x).
    { rewrite <-(Nat.add_0_r k), <-lookup_drop, Hd. done. }
    destruct (answered_id rs s k x Hinv Hx) as [Hid Hlt].
    rewrite (handle_answer k (length rs)); [|done..|by rewrite Hset; apply has_settled].
    split; cbn [proxy posted worker back seq promises pending settled]; [done|done|done|].
    exists (S k). rewrite (take_S_r _ _ x) by done. split; [by apply lookup_lt_Some in Hx|].
    split; [|split; [done|]].
    + rewrite Hset, imap_app. f_equal. cbn. rewrite length_take_le by done. by rewrite Nat.add_0_r.
    + rewrite Hback. f_equal. rewrite <-Nat.add_1_r, <-drop_drop, Hd. done.
Qed.

Lemma inv_init rs s e : inv rs s -> inv rs (MkSystem (proxy s) (posted s) (init e (worker s)) (back s)).
Proof.
  intros [Hids Hseq Hsplit Hset]. unfold init.
  destruct (chain (worker s)) eqn:Hc, e; (split; [done|done| |exact Hset]);
    cbn [worker posted queue started answered]; unfold running in *; rewrite ?Hc in Hsplit; cbn [chain];
    rewrite ?Hc; exact Hsplit.
Qed.

Lemma inv_push rs s kind payload :
  inv rs s ->
  inv rs (MkSystem (proxy s) (posted s) (worker s) (back s ++ [JObj [("event", JStr kind); ("payload", payload)]])).
Proof.
  intros [Hids Hseq Hsplit (k & Hk & Hset & Hpend & Hback)]. split; [done|done|done|].
  exists k. cbn [proxy worker back]. rewrite List.filter_app, Hback. cbn. by rewrite app_nil_r.
Qed.

Lemma wires_step rs s o :
  inv rs s ->
  inv (rs ++ imap (fun i x => MkRequest (Z.of_nat (length rs + i)) x.1 x.2) (asked [o])) (step o s).
Proof.
  intros Hinv. destruct o as [m args| | |e| |o|kind payload|].
  2-8: rewrite app_nil_r; cbn [step].
  - rewrite invoke_step. unfold asked. cbn [omap list_omap].
    destruct (JsMap.lookup m METHODS) as [ps|]; cbn [fmap option_fmap option_map imap].
    + rewrite Nat.add_0_r. by apply inv_call.
    + by rewrite app_nil_r.
  - by destruct Hinv.
  - destruct (posted s) as [|r rest] eqn:Hp; [done|].
    destruct Hinv as [Hids Hseq (past & Hrs & Hpast & Hst) Hset]. split; [done|done| |done].
    exists past. cbn [worker posted onmessage queue started answered]. rewrite Hp in Hrs.
    split; [by rewrite <-app_assoc|done].
  - by apply inv_init.
  - by apply inv_turn.
  - by apply inv_finish.
  - by apply inv_push.
  - destruct (back s) as [|msg rest] eqn:Hb; [done|]. by apply inv_deliver.
Qed.

Lemma wires_run os : inv (requests os) (run os start).
Proof.
  induction os as [|o os IH] using rev_ind; [exact inv_start|].
  rewrite system_run_snoc, requests_app, <-length_requests. by apply wires_step.
Qed.

(** Of requests among [past], those whose ids are not among the first [ids] are at most as many as
    the ids that follow. *)
Lemma outside_first (l past : list request) (ids ids' : list Z) :
  l `sublist_of` past -> req_id <$> past = ids ++ ids' ->
  (length (filter (fun r => req_id r ∉ ids) l) <= length ids')%nat.
Proof.
  intros Hl Hp. apply fmap_app_inv in Hp as (p1 & p2 & H1 & H2 & ->).
  assert (Hle : (length (filter (fun r => req_id r ∉ ids) l) <=
                 length (filter (fun r => req_id r ∉ ids) (p1 ++ p2)))%nat).
  { clear H1 H2. induction Hl as [|x l1 l2 _ IH|x l1 l2 _ IH]; [done| |]; rewrite ?filter_cons;
      (destruct (decide (req_id x ∉ ids)); cbn [length]; lia). }
  etrans; [exact Hle|]. rewrite filter_app, length_app, H2, length_fmap.
  assert (E : filter (fun r => req_id r ∉ ids) p1 = []).
  { assert (Hin : forall r, r ∈ p1 -> req_id r ∈ ids) by (intros r Hr; rewrite H1; by apply list_elem_of_fmap_2).
    clear H1 Hle Hl. induction p1 as [|r p1 IH]; [done|]. rewrite filter_cons, decide_False.
    - apply IH. intros q Hq. apply Hin. by right.
    - intros Hn. apply Hn, Hin. by left. }
  rewrite E. cbn. apply length_filter.
Qed.

(** ** Theorems *)

(** C37. Every call gets its own answer.  Whatever the page calls and however the messages, the
    worker's turns and its events interleave, the promises settle in the order of the calls, each
    once and with what the worker answered to the request of that call; the calls still waiting are
    the later ones; and the worker runs each request at most once, in the order of the calls,
    with at most one unfinished. *)
Theorem calls_get_their_own_answers os :
  let s := run os start in
  let k := length (settled (proxy s)) in
  settled (proxy s) = imap (fun i x => (i, x.2)) (take k (answered (worker s))) /\
  (answered (worker s)).*1 = req_id <$> take (length (answered (worker s))) (requests os) /\
  pending (proxy s) = waiting k (length (asked os)) /\
  started (worker s) `sublist_of` requests os /\
  (length (filter (fun r => req_id r ∉ (answered (worker s)).*1) (started (worker s))) <= 1)%nat.
Proof.
  intros s k. destruct (wires_run os) as [_ _ (past & Hrs & Hpast & Hst) (j & Hj & Hset & Hpend & _)].
  fold s in Hrs, Hpast, Hst, Hj, Hset, Hpend.
  assert (Hk : k = j) by (unfold k; by rewrite Hset, length_imap, length_take_le).
  rewrite Hk, <-length_requests. split; [done|]. split; [|split; [done|split]].
  - rewrite Hrs, fmap_take, fmap_app, Hpast, <-app_assoc, take_app_length'; [done|by rewrite length_fmap].
  - rewrite Hrs. by apply sublist_inserts_r.
  - etrans; [by apply (outside_first _ _ _ _ Hst Hpast)|]. unfold running.
    destruct (chain (worker s)); cbn; lia.
Qed.

(** Work left before the last call settles. *)
Definition work (s : System) : nat :=
  4 * length (posted s) + 3 * length (queue (worker s)) + 2 * length (running (worker s)) + length (back s).

(** One message to the worker, one turn, the end of the operation that runs, one message back. *)
Definition round (o : outcome) : list op := [OArrive; OTurn; OFinish o; ODeliver].

Definition settled_init (w : Worker) : Prop := chain w <> Loading.

Lemma work_zero rs s : inv rs s -> work s = 0%nat -> pending (proxy s) = [] /\ length (settled (proxy s)) = length rs.
Proof.
  intros [_ _ (past & Hrs & Hpast & _) (k & Hk & Hset & Hpend & Hback)] Hw. unfold work in Hw.
  destruct (queue (worker s)) eqn:Hq; [|cbn in Hw; lia]. destruct (posted s) eqn:Hp; [|cbn in Hw; lia].
  destruct (running (worker s)) eqn:Hr; [|cbn in Hw; lia]. destruct (back s) eqn:Hb; [|cbn in Hw; lia].
  rewrite !app_nil_r in Hrs. subst past. rewrite app_nil_r in Hpast.
  assert (Hlen : length rs = length (answered (worker s))).
  { apply (f_equal length) in Hpast. by rewrite !length_fmap in Hpast. }
  symmetry in Hback. apply fmap_nil_inv in Hback. apply (f_equal length) in Hback. rewrite length_drop in Hback. cbn in Hback.
  assert (k = length rs) as -> by lia. rewrite Hpend, Hset, length_imap, length_take_le by lia.
  unfold waiting. by rewrite Nat.sub_diag.
Qed.

(** Which steps of a round have something to do. *)
Definition enabled (o : op) (s : System) : Prop :=
  match o with
  | OArrive => posted s <> []
  | OTurn => queue (worker s) <> [] /\ running (worker s) = []
  | OFinish _ => running (worker s) <> []
  | ODeliver => back s <> []
  | _ => False
  end.

Lemma arrive_works s :
  (work (step OArrive s) <= work s)%nat /\ (enabled OArrive s -> (work (step OArrive s) < work s)%nat) /\
  chain (worker (step OArrive s)) = chain (worker s) /\ back (step OArrive s) = back s /\
  (queue (worker s) <> [] -> queue (worker (step OArrive s)) <> []).
Proof.
  cbn [step enabled]. destruct (posted s) as [|r rest] eqn:Hp; [done|]. unfold work.
  cbn [posted worker back onmessage queue chain]. rewrite Hp, length_app. unfold running. cbn [onmessage chain length].
  repeat split; try done; try lia; intros; by destruct (queue (worker s)).
Qed.

Lemma turn_works s :
  settled_init (worker s) ->
  settled_init (worker (step OTurn s)) /\
  (work (step OTurn s) <= work s)%nat /\ (enabled OTurn s -> (work (step OTurn s) < work s)%nat) /\
  (back s <> [] -> back (step OTurn s) <> []) /\
  (running (worker s) <> [] -> step OTurn s = s).
Proof.
  unfold settled_init. intros Hi. cbn [step enabled]. unfold turn.
  destruct (chain (worker s)) as [| |e|id] eqn:Hc; [done| | |].
  3: { rewrite of_worker_idle by done. unfold running. rewrite Hc. naive_solver. }
  all: destruct (queue (worker s)) as [|r q] eqn:Hq;
    [rewrite of_worker_idle by done; unfold running; rewrite Hc; naive_solver|].
  all: assert (Hrun : running (worker s) = []) by (unfold running; by rewrite Hc).
  all: rewrite Hrun; unfold work; rewrite Hrun, Hq.
  2: { cbn. rewrite length_app. cbn. repeat split; try done; try lia; intros; by destruct (back s). }
  destruct (ops_read (req_op r)) as [| |[| |m a]]; [| | | |destruct (controller _)];
    cbn; rewrite ?length_app; cbn; repeat split; try done; try lia; intros; destruct (back s); done.
Qed.

Lemma finish_works o s :
  settled_init (worker s) ->
  settled_init (worker (step (OFinish o) s)) /\
  (work (step (OFinish o) s) <= work s)%nat /\
  (enabled (OFinish o) s -> (work (step (OFinish o) s) < work s)%nat) /\
  (back s <> [] -> back (step (OFinish o) s) <> []).
Proof.
  unfold settled_init. intros Hi. cbn [step enabled]. unfold finish.
  destruct (chain (worker s)) as [| |e|id] eqn:Hc; [done| | |].
  1-2: rewrite of_worker_idle by done; unfold running; rewrite Hc; naive_solver.
  assert (Hrun : running (worker s) = [id]) by (unfold running; by rewrite Hc).
  rewrite Hrun. unfold work. rewrite Hrun. cbn. rewrite length_app. cbn.
  repeat split; try done; try lia. intros. by destruct (back s).
Qed.

Lemma deliver_works s :
  (work (step ODeliver s) <= work s)%nat /\ (enabled ODeliver s -> (work (step ODeliver s) < work s)%nat) /\
  worker (step ODeliver s) = worker s.
Proof.
  cbn [step enabled]. destruct (back s) as [|m rest] eqn:Hb; [done|]. unfold work. cbn [posted worker back].
  rewrite Hb. cbn [length]. repeat split; lia.
Qed.

Lemma round_works o s :
  settled_init (worker s) ->
  settled_init (worker (run (round o) s)) /\ (work (run (round o) s) <= work s - 1)%nat.
Proof.
  intros Hi. unfold run, round. cbn [foldl].
  destruct (arrive_works s) as (L1 & S1 & C1 & B1 & Q1). set (s1 := step OArrive s) in *.
  assert (Hi1 : settled_init (worker s1)) by (unfold settled_init; by rewrite C1).
  assert (R1 : running (worker s1) = running (worker s)) by (unfold running; by rewrite C1).
  destruct (turn_works s1 Hi1) as (Hi2 & L2 & S2 & B2 & R2). set (s2 := step OTurn s1) in *.
  destruct (finish_works o s2 Hi2) as (Hi3 & L3 & S3 & B3). set (s3 := step (OFinish o) s2) in *.
  destruct (deliver_works s3) as (L4 & S4 & W4). set (s4 := step ODeliver s3) in *.
  cbn [enabled] in *. split; [by rewrite W4|].
  destruct (decide (posted s = [])) as [Hp|Hp]; [|specialize (S1 Hp); lia].
  destruct (decide (back s = [])) as [Hb|Hb]; [|rewrite <-B1 in Hb; specialize (S4 (B3 (B2 Hb))); lia].
  destruct (decide (running (worker s) = [])) as [Hr|Hr].
  2: { rewrite <-R1 in Hr. specialize (R2 Hr). rewrite R2 in S3. specialize (S3 Hr). lia. }
  destruct (decide (queue (worker s) = [])) as [Hq|Hq].
  - assert (work s = 0)%nat by (unfold work; by rewrite Hp, Hb, Hr, Hq). lia.
  - assert (work s2 < work s1)%nat; [|lia]. apply S2. split; [auto|by rewrite R1].
Qed.

Lemma system_run_app os os' s : run (os ++ os') s = run os' (run os s).
Proof. apply foldl_app. Qed.

Lemma rounds_work outs s :
  settled_init (worker s) -> (work (run (mjoin (round <$> outs)) s) <= work s - length outs)%nat.
Proof.
  revert s. induction outs as [|o outs IH]; intros s Hi; [cbn; lia|].
  rewrite fmap_cons. change (mjoin (round o :: (round <$> outs))) with (round o ++ mjoin (round <$> outs)).
  rewrite system_run_app. destruct (round_works o s Hi) as [Hi' Hw]. specialize (IH _ Hi'). cbn [length]. lia.
Qed.

Lemma rounds_ask_nothing outs : asked (mjoin (round <$> outs)) = [].
Proof. induction outs as [|o outs IH]; [done|]. exact IH. Qed.

(** No call waits for ever.  Once the worker has started, or failed to, from any state a run
    can reach, as many rounds as there is work left settle every call made, whatever the outcomes
    of the operations. *)
Theorem every_call_settles os outs :
  let s := run os start in
  chain (worker s) <> Loading -> (work s <= length outs)%nat ->
  let s' := run (mjoin (round <$> outs)) s in
  pending (proxy s') = [] /\ length (settled (proxy s')) = length (asked os) /\
  forall i, (i < length (asked os))%nat -> exists o, (i, o) ∈ settled (proxy s').
Proof.
  intros s Hi Hlen s'. pose proof (rounds_work outs s Hi) as Hw. fold s' in Hw.
  assert (Hs' : s' = run (os ++ mjoin (round <$> outs)) start) by (unfold s', s, run; by rewrite foldl_app).
  pose proof (wires_run (os ++ mjoin (round <$> outs))) as Hinv. rewrite <-Hs' in Hinv.
  assert (Hrs : length (requests (os ++ mjoin (round <$> outs))) = length (asked os)).
  { unfold requests, asked. rewrite length_imap, omap_app. fold (asked (mjoin (round <$> outs))).
    by rewrite rounds_ask_nothing, app_nil_r. }
  destruct (work_zero _ _ Hinv) as [Hp Hl]; [lia|]. rewrite Hrs in Hl. split; [done|]. split; [done|].
  intros i Hlt. destruct Hinv as [_ _ _ (k & Hk & Hset & _)].
  destruct (lookup_lt_is_Some_2 (settled (proxy s')) i) as [x Hx]; [lia|].
  assert (E := Hx). rewrite Hset, list_lookup_imap in E. destruct (take k _ !! i); [|done].
  cbn in E. injection E as <-. eexists. by apply list_elem_of_lookup_2 in Hx.
Qed.

(** A page that calls three operations before the worker is up, with an event between. *)
Lemma every_call_settles_witness :
  let os := [OCall "ping" []; OCall "peerFor" [Some (JStr "c1")]; OArrive; OInit None; OTurn;
             OPush "inbound" JNull; OCall "sendMessage" [Some (JStr "c1"); Some (JStr "hi")]] in
  let s := run (mjoin (round <$> replicate 12 (Resolved None))) (run os start) in
  settled (proxy s) = [(0%nat, Resolved (Some (JBool true))); (1%nat, Resolved None); (2%nat, Resolved None)] /\
  pending (proxy s) = [].
Proof.
  intros os s. split; [by vm_compute|].
  refine (proj1 (every_call_settles os (replicate 12 (Resolved None)) _ _)).
  - by vm_compute.
  - vm_compute. lia.
Defined.

(** *** The tables of both ends *)

(** The worker's entry for a method of the proxy with these parameters. *)
Definition entry_fits (m : string) (ps : list param) : bool :=
  match JsMap.lookup m OPS with
  | Some Ping => bool_decide (m = "ping")
  | Some DeriveKey => bool_decide (m = "deriveAuthKey")
  | Some (Ctrl m' n) => bool_decide (m' = m) && bool_decide (n = length ps)
  | None => false
  end.

Lemma entries_fit m ps : JsMap.lookup m METHODS = Some ps -> entry_fits m ps = true.
Proof.
  intros Hm. apply JsMap.lookup_Some_in in Hm.
  assert (Hall : forallb (fun x => entry_fits x.1 x.2) METHODS = true) by (by vm_compute).
  rewrite forallb_forall in Hall. apply (Hall (m, ps)). by apply list_elem_of_In.
Qed.

Lemma passed_all args : passed (length args) args = args.
Proof.
  unfold passed. apply list_eq. intros i. rewrite list_lookup_fmap.
  destruct (decide (i < length args)%nat) as [Hi|Hi].
  - destruct (lookup_lt_is_Some_2 _ _ Hi) as [x Hx]. rewrite Hx, lookup_seq_lt by done. cbn. by rewrite Hx.
  - rewrite lookup_seq_ge by lia. by rewrite lookup_ge_None_2 by lia.
Qed.

(** Both ends agree on every method.  What a method of the proxy posts, the worker finds in its
    table under the same name, and hands to the controller's method of that name exactly the
    arguments of the call, with the defaults filled in; only [ping] and the key derivation are the
    worker's own.  No call is ever refused as unknown. *)
Theorem forwarding_is_faithful m args p i r p' :
  invoke m args p = Some (i, r, p') ->
  req_op r = m /\ req_id r = seq p /\
  exists ps, JsMap.lookup m METHODS = Some ps /\ req_args r = bind_params ps args /\
  (ops_read m = JsObj.Own Ping /\ m = "ping" \/
   ops_read m = JsObj.Own DeriveKey /\ m = "deriveAuthKey" \/
   exists n, ops_read m = JsObj.Own (Ctrl m n) /\ passed n (req_args r) = req_args r).
Proof.
  unfold invoke. destruct (JsMap.lookup m METHODS) as [ps|] eqn:Hm; [|done].
  cbn [fmap option_fmap option_map]. intros [= <- <- <-]. cbn [req_op req_id req_args].
  split; [done|]. split; [done|]. exists ps. split; [done|]. split; [done|].
  apply entries_fit in Hm. unfold entry_fits in Hm. unfold ops_read, JsObj.read.
  destruct (JsMap.lookup m OPS) as [[| |m' n]|]; [| | |done].
  - left. split; [done|]. by apply bool_decide_eq_true in Hm.
  - right; left. split; [done|]. by apply bool_decide_eq_true in Hm.
  - right; right. apply andb_true_iff in Hm as [H1 H2]. apply bool_decide_eq_true in H1, H2. subst m' n.
    eexists. split; [done|]. rewrite <-(length_imap (fun i p => bind_param (args !! i) p) ps) at 1.
    apply passed_all.
Qed.

Lemma forwarding_is_faithful_witness :
  exists r p', invoke "setHistoryOff" [Some (JBool true)] fresh = Some (0%nat, r, p') /\
    req_op r = "setHistoryOff" /\ passed 2 (req_args r) = [Some (JBool true); Some (JBool true)].
Proof.
  destruct (invoke "setHistoryOff" [Some (JBool true)] fresh) as [[[i r] p']|] eqn:E; [|by vm_compute in E].
  pose proof (forwarding_is_faithful _ _ _ _ _ _ E) as [Hop _].
  exists r, p'. vm_compute in E. injection E as <- <- <-. auto.
Defined.

(** What the page's interface has and the proxy lacks, the subscription to events aside. *)
Definition lost : list string := ["buddyAwayText"; "getAppearance"; "setAppearance"].

(** Three methods of the interface end at the proxy.  Every required method of the interface is
    there, and of the optional ones all but three: the texts of buddies who are away, loading the
    appearance and saving it.  Calling one of the three posts nothing and changes nothing. *)
Theorem three_methods_end_at_the_proxy :
  (forall m opt, (m, opt) ∈ AppController -> m = "onEvent" \/ m ∈ METHODS.*1 \/ (opt = true /\ m ∈ lost)) /\
  (forall m, m ∈ lost -> (m, true) ∈ AppController /\ forall args s, step (OCall m args) s = s).
Proof.
  split.
  - intros m opt Hin.
    assert (Hall : forallb (fun x => bool_decide (x.1 = "onEvent") || bool_decide (x.1 ∈ METHODS.*1) ||
                                     (x.2 && bool_decide (x.1 ∈ lost))) AppController = true)
      by (by vm_compute).
    rewrite forallb_forall in Hall. specialize (Hall (m, opt)). rewrite <-list_elem_of_In in Hall.
    specialize (Hall Hin). cbn [fst snd] in Hall.
    apply orb_true_iff in Hall as [Hall|Hall]; [apply orb_true_iff in Hall as [Hall|Hall]|].
    + left. by apply bool_decide_eq_true in Hall.
    + right; left. by apply bool_decide_eq_true in Hall.
    + right; right. apply andb_true_iff in Hall as [-> Hall]. split; [done|]. by apply bool_decide_eq_true in Hall.
  - intros m Hm. split.
    + assert (Hall : forallb (fun m => bool_decide ((m, true) ∈ AppController)) lost = true) by (by vm_compute).
      rewrite forallb_forall in Hall. apply list_elem_of_In, Hall in Hm. by apply bool_decide_eq_true in Hm.
    + intros args s. rewrite invoke_step.
      assert (Hall : forallb (fun m => negb (JsMap.has m METHODS)) lost = true) by (by vm_compute).
      rewrite forallb_forall in Hall. apply list_elem_of_In, Hall in Hm. unfold JsMap.has in Hm.
      by destruct (JsMap.lookup m METHODS).
Qed.

(** A worker that failed to start says it is up.  When the wasm does not load or the database
    does not open, the first call is rejected with that error, but a second ping resolves: the
    rejected chain is used up, and the controller is still absent. *)
Theorem second_ping_of_a_failed_worker e m args :
  JsMap.lookup m METHODS = Some [] -> ops_read m = JsObj.Own (Ctrl m 0) ->
  let s := run [OCall "ping" args; OCall "ping" args; OCall m args; OInit (Some e); OArrive; OArrive; OArrive;
                OTurn; OTurn; OTurn; ODeliver; ODeliver; ODeliver] start in
  settled (proxy s) = [(0%nat, Rejected e); (1%nat, Resolved (Some (JBool true)));
                       (2%nat, Rejected (null_error m))] /\
  controller (worker s) = false.
Proof.
  intros Hm Ho s. unfold s, run. cbn [foldl]. rewrite !invoke_step, Hm.
  change (JsMap.lookup "ping" METHODS) with (Some ([] : list param)). cbn -[ops_read null_error].
  change (ops_read "ping") with (JsObj.Own Ping). cbn -[ops_read null_error]. rewrite Ho.
  cbn -[null_error]. done.
Qed.

Lemma second_ping_of_a_failed_worker_witness :
  settled (proxy (run [OCall "ping" []; OCall "ping" []; OCall "listBuddies" []; OInit (Some "no wasm");
    OArrive; OArrive; OArrive; OTurn; OTurn; OTurn; ODeliver; ODeliver; ODeliver] start)) =
  [(0%nat, Rejected "no wasm"); (1%nat, Resolved (Some (JBool true)));
   (2%nat, Rejected "Cannot read properties of null (reading 'listBuddies')")].
Proof. refine (proj1 (second_ping_of_a_failed_worker "no wasm" "listBuddies" [] _ _)); by vm_compute. Defined.
End WorkerProxy.
