(* ===== verification/Boot.v ===== *)
(** * Deploying, caching and starting the page (client/scripts/pin-sw.mjs, client/public/sw.js,
      client/boot.js)

    The deploy script pins every file of the web root to its SHA-256 and names a cache after the pin
    set; the service worker installs a build into that cache and serves only from it; before the app
    mounts, the page compares its build with the advertised one and may reload.  The caches are
    objects on a heap: an install keeps its cache object although the name may have been deleted
    under it, as in a browser.  An install and an activation are steps, so that versions overlap. *)

From S2P Require Import Prelude Integrity.
From stdpp Require Import pretty.
#[local] Open Scope Z_scope.

Definition nl : string := String (Ascii.ascii_of_nat 10) EmptyString.
(** ** The deploy script *)
Module Deploy.
Section deploy.
Context `{Sha256}.

Definition skipped (urlPath : string) : bool :=
  bool_decide (urlPath = "/sw.js") || String.prefix "/downloads/" urlPath.

Definition pin_file (pins : list (string * string)) (file : string * bytes) : list (string * string) :=
  if skipped file.1 then pins else JsMap.set file.1 (Integrity.sha256Hex file.2) pins.

(** The files of the web root by their URL path, in the order of the walk. *)
Definition pins_of (webroot : list (string * bytes)) : list (string * string) :=
  let pins := foldl pin_file [] webroot in
  match JsMap.lookup "/index.html" pins with
  | Some h => JsMap.set "/" h pins
  | None => pins
  end.

(** [JSON.stringify(pins, null, 2)], for paths without quotes and control characters. *)
Definition manifestJson (pins : list (string * string)) : string :=
  match pins with
  | [] => "{}"
  | _ =>
      "{" +:+ nl +:+
      String.concat ("," +:+ nl) ((fun x => "  " +:+ quoted x.1 +:+ ": " +:+ quoted x.2) <$> pins) +:+
      nl +:+ "}"
  end.

Definition fullHash (pins : list (string * string)) : string :=
  Integrity.sha256Hex (text_encode (manifestJson pins)).
Definition version (pins : list (string * string)) : string := String.substring 0 16 (fullHash pins).
Definition cache_name (pins : list (string * string)) : string := "deaddrop-pinned-" +:+ version pins.

Definition build_txt (pins : list (string * string)) : string :=
  "DEAD DROP build" +:+ nl +:+ "assets: " +:+ pretty (length pins) +:+ nl +:+
  "build-hash: " +:+ fullHash pins +:+ nl +:+ "cache: deaddrop-pinned-" +:+ version pins +:+ nl.

(** The web root after the script has run, with what it wrote. *)
Definition deployed (webroot : list (string * bytes)) : list (string * bytes) :=
  JsMap.set "/build.txt" (text_encode (build_txt (pins_of webroot))) webroot.
End deploy.
End Deploy.

(** ** The service worker *)
Module ServiceWorker.

(** A cache object remembers the name it was opened under. *)
Record Cache := MkCache { c_name : string; c_entries : list (string * bytes) }.

(** An install of a version: its cache object and the assets still to fetch. *)
Record install := MkInstall { i_version : string; i_cache : nat; i_todo : list (string * string) }.

Record Host := MkHost {
  heap : list Cache;
  names : list (string * nat);
  installing : list install;
  waiting : list string;
  active : option string;
  navigated : nat }.

Definition new_browser : Host := MkHost [] [] [] [] None 0.

Record response := MkResponse { res_ok : bool; res_body : bytes }.

(** What a request of the page gets: a cached body, the 504, or the network. *)
Inductive served := Cached (b : bytes) | NotInCache | Network.

(** [/^deaddrop-pinned-[0-9a-f]{16}$/.test(n)] *)
Definition is_versioned (n : string) : bool :=
  let l := String.list_ascii_of_string n in
  bool_decide (take 16 l = AppVersion.CACHE_PREFIX) && bool_decide (length l = 32%nat) &&
  forallb AppVersion.is_lower_hex (drop 16 l).

Section sw.
Context `{Sha256} (PINNED_ASSETS : string -> list (string * string)).

(** [caches.open(n)] *)
Definition open (n : string) (h : Host) : nat * Host :=
  match JsMap.lookup n (names h) with
  | Some c => (c, h)
  | None =>
      (length (heap h),
       MkHost (heap h ++ [MkCache n []]) (JsMap.set n (length (heap h)) (names h)) (installing h)
         (waiting h) (active h) (navigated h))
  end.

Definition entries (c : nat) (h : Host) : list (string * bytes) :=
  match heap h !! c with Some o => c_entries o | None => [] end.

(** [cache.put(path, res)] *)
Definition put (c : nat) (path : string) (b : bytes) (h : Host) : Host :=
  MkHost (alter (fun o => MkCache (c_name o) (JsMap.set path b (c_entries o))) c (heap h)) (names h)
    (installing h) (waiting h) (active h) (navigated h).

Definition with_installing (l : list install) (h : Host) : Host :=
  MkHost (heap h) (names h) l (waiting h) (active h) (navigated h).

(** The install event of version [v], up to its first fetch. *)
Definition new_worker (v : string) (h : Host) : Host :=
  let (c, h) := open v h in
  with_installing (installing h ++ [MkInstall v c (PINNED_ASSETS v)]) h.

(** The fetch the [i]-th install waits for ends, [None] with a network error. *)
Definition fetched (i : nat) (res : option response) (h : Host) : Host :=
  match installing h !! i with
  | Some (MkInstall v c ((path, expected) :: todo)) =>
      let failed := with_installing (delete i (installing h)) h in
      match res with
      | None => failed
      | Some r =>
          if negb (res_ok r) then failed
          else if negb (bool_decide (Integrity.sha256Hex (res_body r) = toLowerCase expected)) then failed
          else with_installing (<[i := MkInstall v c todo]> (installing h)) (put c path (res_body r) h)
      end
  | _ => h
  end.

(** Everything is fetched: [skipWaiting]. *)
Definition installed (i : nat) (h : Host) : Host :=
  match installing h !! i with
  | Some (MkInstall v _ []) =>
      MkHost (heap h) (names h) (delete i (installing h)) (waiting h ++ [v]) (active h) (navigated h)
  | _ => h
  end.

(** The activate event; [navigated] counts the events that reload the open pages. *)
Definition activate (v : string) (h : Host) : Host :=
  if bool_decide (v ∈ waiting h) then
    let stale := List.filter (fun n => negb (bool_decide (n = v))) (names h).*1 in
    let legacy := List.filter (fun n => negb (is_versioned n)) stale in
    MkHost (heap h) (List.filter (fun x => bool_decide (x.1 = v)) (names h)) (installing h)
      (List.filter (fun w => negb (bool_decide (w = v))) (waiting h)) (Some v)
      (match legacy with [] => navigated h | _ => S (navigated h) end)
  else h.

(** The fetch event for a path and a query of the own origin. *)
Definition serve (path search : string) (h : Host) : served * Host :=
  match active h with
  | None => (Network, h)
  | Some v =>
      if JsMap.has path (PINNED_ASSETS v) then
        let (c, h) := open v h in
        match JsMap.lookup (path +:+ search) (entries c h) with
        | Some b => (Cached b, h)
        | None => (NotInCache, h)
        end
      else (Network, h)
  end.

Inductive op :=
  | ONewWorker (v : string)
  | OFetched (i : nat) (res : option response)
  | OInstalled (i : nat)
  | OActivate (v : string)
  | OServe (path search : string)
  | OLegacy (n : string) (es : list (string * bytes)).

(** [OLegacy]: a cache an older worker left, under a name without a version. *)
Definition step (o : op) (h : Host) : Host :=
  match o with
  | ONewWorker v => new_worker v h
  | OFetched i res => fetched i res h
  | OInstalled i => installed i h
  | OActivate v => activate v h
  | OServe path search => (serve path search h).2
  | OLegacy n es =>
      if is_versioned n then h else
      let (c, h) := open n h in foldl (fun h x => put c x.1 x.2 h) h es
  end.

Definition run (os : list op) (h : Host) : Host := foldl (fun h o => step o h) h os.
End sw.
End ServiceWorker.

(** ** The caches hold what is pinned *)
Module ServiceWorkerFacts.
Import ServiceWorker.
Section facts.
Context `{Sha256} (PINS : string -> list (string * string)).

Definition verified (v p : string) (b : bytes) : Prop :=
  exists e, (p, e) ∈ PINS v /\ Integrity.sha256Hex b = toLowerCase e.

(** Every entry of a versioned cache was verified, a name leads to a cache opened under it, and an
    install has put what it no longer has to fetch. *)
Record inv (h : Host) : Prop := {
  inv_entries : forall c o p b, heap h !! c = Some o -> is_versioned (c_name o) = true ->
    JsMap.lookup p (c_entries o) = Some b -> verified (c_name o) p b;
  inv_names : forall n c, JsMap.lookup n (names h) = Some c ->
    exists o, heap h !! c = Some o /\ c_name o = n;
  inv_installs : forall i, i ∈ installing h -> exists o got,
    heap h !! i_cache i = Some o /\ c_name o = i_version i /\
    PINS (i_version i) = got ++ i_todo i /\
    forall p, p ∈ got.*1 -> JsMap.has p (c_entries o) = true }.

Lemma inv_new_browser : inv new_browser.
Proof. split; [done|done|]. intros i Hi. by apply not_elem_of_nil in Hi. Qed.

Lemma has_set_mono (p q : string) (b : bytes) es : JsMap.has p es = true -> JsMap.has p (JsMap.set q b es) = true.
Proof. unfold JsMap.has. rewrite JsMap.lookup_set. by case_decide. Qed.

Lemma inv_open n h : inv h -> inv (open n h).2.
Proof.
  intros [He Hn Hi]. unfold open. destruct (JsMap.lookup n (names h)) as [c|] eqn:E; [done|]. cbn [snd].
  split; cbn [heap names installing].
  - intros c o p b Hc. apply lookup_snoc_Some in Hc as [[_ Hc]|[-> <-]]; [by eapply He|done].
  - intros m c. rewrite JsMap.lookup_set. case_decide as Hm.
    + intros [= <-]. subst m. exists (MkCache n []). split; [by rewrite list_lookup_middle|done].
    + intros Hc. destruct (Hn m c Hc) as (o & Ho & Hname). exists o. split; [by apply lookup_app_l_Some|done].
  - intros i Hin. destruct (Hi i Hin) as (o & got & Ho & Hrest). exists o, got.
    split; [by apply lookup_app_l_Some|done].
Qed.

Lemma open_name n h :
  inv h -> exists o, heap (open n h).2 !! (open n h).1 = Some o /\ c_name o = n /\
    JsMap.lookup n (names (open n h).2) = Some (open n h).1.
Proof.
  intros [He Hn Hi]. unfold open. destruct (JsMap.lookup n (names h)) as [c|] eqn:E; cbn [fst snd].
  - destruct (Hn n c E) as (o & Ho & Hname). by exists o.
  - exists (MkCache n []). cbn [heap names]. rewrite list_lookup_middle by done. by rewrite JsMap.lookup_set_eq.
Qed.

Lemma inv_put c p b h :
  inv h -> (forall o, heap h !! c = Some o -> is_versioned (c_name o) = true -> verified (c_name o) p b) ->
  inv (put c p b h).
Proof.
  intros [He Hn Hi] Hb. split; cbn [put heap names installing].
  - intros d o q b' Ho Hv. destruct (decide (c = d)) as [<-|Hne].
    + rewrite list_lookup_alter_eq in Ho. destruct (heap h !! c) as [o'|] eqn:E; [|done].
      cbn in Ho. injection Ho as <-. cbn [c_name c_entries] in *. rewrite JsMap.lookup_set. case_decide as Hq.
      * intros [= <-]. subst q. by apply (Hb o').
      * intros Hl. by eapply He.
    + rewrite list_lookup_alter_ne in Ho by done. by eapply He.
  - intros n d Hd. destruct (Hn n d Hd) as (o & Ho & Hname). destruct (decide (c = d)) as [<-|Hne].
    + rewrite list_lookup_alter_eq, Ho. cbn. by eexists.
    + rewrite list_lookup_alter_ne by done. by exists o.
  - intros i Hin. destruct (Hi i Hin) as (o & got & Ho & Hname & Hp & Hg). destruct (decide (c = i_cache i)) as [->|Hne].
    + rewrite list_lookup_alter_eq, Ho. cbn. eexists _, got. split; [done|]. cbn [c_name c_entries]. split; [done|].
      split; [done|]. intros q Hq. by apply has_set_mono, Hg.
    + rewrite list_lookup_alter_ne by done. by exists o, got.
Qed.

Lemma inv_with_installing l h : inv h -> l ⊆ installing h -> inv (with_installing l h).
Proof. intros [He Hn Hi] Hl. split; [done|done|]. intros i Hin. by apply Hi, Hl. Qed.

Lemma delete_incl {A} (l : list A) i : delete i l ⊆ l.
Proof. intros x Hx. by eapply elem_of_submseteq, submseteq_delete. Qed.

Lemma inv_fetched i res h : inv h -> inv (fetched i res h).
Proof.
  intros Hinv. unfold fetched. destruct (installing h !! i) as [[v c [|[p e] todo]]|] eqn:Hi; try done.
  assert (Hdel : inv (with_installing (delete i (installing h)) h))
    by (apply inv_with_installing; [done|apply delete_incl]).
  destruct res as [r|]; [|done]. destruct (res_ok r); cbn [negb]; [|done].
  destruct (bool_decide (Integrity.sha256Hex (res_body r) = toLowerCase e)) eqn:Hh; cbn [negb]; [|done].
  apply bool_decide_eq_true in Hh. apply list_elem_of_lookup_2 in Hi as Hin.
  destruct (inv_installs _ Hinv _ Hin) as (o & got & Ho & Hname & Hp & Hg). cbn [i_cache i_version i_todo] in *.
  assert (Hput : inv (put c p (res_body r) h)).
  { apply inv_put; [done|]. intros o' Ho' _. rewrite Ho in Ho'. injection Ho' as <-. rewrite Hname.
    exists e. split; [|done]. rewrite Hp. set_solver. }
  destruct Hput as [He Hn Hins]. split; [done|done|]. cbn [with_installing installing heap].
  intros j Hj. apply list_elem_of_lookup in Hj as [k Hk]. apply list_lookup_insert_Some in Hk as [(<- & <- & _)|[_ Hk]].
  - cbn [i_cache i_version i_todo put heap]. rewrite list_lookup_alter_eq, Ho. cbn. eexists _, (got ++ [(p, e)]).
    split; [done|]. cbn [c_name c_entries]. split; [done|]. split; [by rewrite <-app_assoc|].
    intros q Hq. rewrite fmap_app, elem_of_app in Hq. destruct Hq as [Hq|Hq]; [by apply has_set_mono, Hg|].
    apply list_elem_of_singleton in Hq. cbn in Hq. subst q. unfold JsMap.has. by rewrite JsMap.lookup_set_eq.
  - apply Hins. cbn [put installing]. by apply list_elem_of_lookup_2 in Hk.
Qed.

Lemma filter_names (v n : string) (c : nat) (l : list (string * nat)) :
  JsMap.lookup n (List.filter (fun x => bool_decide (x.1 = v)) l) = Some c -> n = v /\ JsMap.lookup v l = Some c.
Proof.
  induction l as [|[m d] l IH]; [done|]. cbn. destruct (decide (m = v)) as [->|Hne].
  - rewrite bool_decide_true by done. cbn. destruct (decide (n = v)) as [->|Hn]; [by rewrite decide_True|].
    intros Hl. destruct (IH Hl) as [-> _]. done.
  - rewrite bool_decide_false by done. intros Hl. destruct (IH Hl) as [-> E].
    by rewrite decide_False.
Qed.

Lemma caches_step o h : inv h -> inv (step PINS o h).
Proof.
  intros Hinv. destruct o as [v|i res|i|v|p q|n es]; cbn [step].
  - unfold new_worker. pose proof (inv_open v h Hinv) as Ho. destruct (open_name v h Hinv) as (o & Hc & Hname & _).
    destruct (open v h) as [c h1]. cbn [fst snd] in *. destruct Ho as [He Hn Hi]. split; [done|done|].
    cbn [with_installing installing heap]. intros j Hj. apply elem_of_app in Hj as [Hj|Hj]; [by apply Hi|].
    apply list_elem_of_singleton in Hj as ->. exists o, []. cbn. split; [done|]. split; [done|].
    split; [done|]. intros p Hp. by apply not_elem_of_nil in Hp.
  - by apply inv_fetched.
  - unfold installed. destruct (installing h !! i) as [[v c [|x l]]|]; try done.
    pose proof (inv_with_installing (delete i (installing h)) h Hinv (delete_incl _ _)) as [He Hn Hi]. by split.
  - unfold activate. case_bool_decide; [|done]. destruct Hinv as [He Hn Hi]. split; [done| |done].
    cbn [names heap]. intros n c Hl. apply filter_names in Hl as [-> Hl]. by apply Hn.
  - unfold serve. destruct (active h) as [v|]; [|done]. destruct (JsMap.has p (PINS v)); [|done].
    pose proof (inv_open v h Hinv) as Ho. destruct (open v h) as [c h1].
    by destruct (JsMap.lookup (p +:+ q) (entries c h1)).
  - destruct (is_versioned n) eqn:Hv; [done|]. pose proof (inv_open n h Hinv) as Ho.
    destruct (open_name n h Hinv) as (o & Hc & Hname & _). destruct (open n h) as [c h1]. cbn [fst snd] in *.
    assert (Hc' : exists o, heap h1 !! c = Some o /\ c_name o = n) by by exists o. clear Hc Hname o Hinv.
    revert h1 Ho Hc'. induction es as [|[p b] es IH]; intros h1 Hh1 (o & Hc & Hname); [done|]. cbn [foldl]. apply IH.
    + apply inv_put; [done|]. intros o' Ho' Hv'. congruence.
    + cbn [put heap fst snd]. rewrite list_lookup_alter_eq, Hc. cbn. by eexists.
Qed.

Lemma caches_run os h : inv h -> inv (run PINS os h).
Proof.
  revert h. induction os as [|o os IH]; intros h Hh; [done|]. apply (IH (step PINS o h)). by apply caches_step.
Qed.

(** C36. The service worker serves only what its build pinned.  Whatever the origin answers, however
    installs of any number of builds, activations and requests follow each other, whatever older
    workers left: the body a versioned worker gives the page hashes to the digest its build pins for
    what was asked. *)
Theorem served_is_pinned os v p q b :
  let h := run PINS os new_browser in
  active h = Some v -> is_versioned v = true -> (serve PINS p q h).1 = Cached b ->
  exists e, (p +:+ q, e) ∈ PINS v /\ Integrity.sha256Hex b = toLowerCase e.
Proof.
  intros h Ha Hv. pose proof (caches_run os new_browser inv_new_browser) as Hinv. fold h in Hinv.
  unfold serve. rewrite Ha. destruct (JsMap.has p (PINS v)); [|done].
  destruct (open_name v h Hinv) as (o & Hc & Hname & _). pose proof (inv_open v h Hinv) as [He _ _].
  destruct (open v h) as [c h1]. cbn [fst snd] in *. unfold entries. rewrite Hc.
  destruct (JsMap.lookup (p +:+ q) (c_entries o)) as [b'|] eqn:El; [|done]. intros [= ->].
  rewrite <-Hname in Hv |- *. by eapply He.
Qed.

(** *** Updates *)

(** The cache of [v] is there under its name and holds every asset of the build. *)
Definition whole (v : string) (h : Host) : Prop :=
  exists c o, JsMap.lookup v (names h) = Some c /\ heap h !! c = Some o /\
    forall p, p ∈ (PINS v).*1 -> JsMap.has p (c_entries o) = true.

Definition honest (x : string * string) (r : response) : Prop :=
  res_ok r = true /\ Integrity.sha256Hex (res_body r) = toLowerCase x.2.

Definition is_activation (o : op) : bool := match o with OActivate _ => true | _ => false end.

(** The steps of an update to [v] on its own, with what the origin answers. *)
Definition fetches (rs : list response) : list op := (fun r => OFetched 0 (Some r)) <$> rs.
Definition install_steps (v : string) (rs : list response) : list op := ONewWorker v :: fetches rs ++ [OInstalled 0].

Lemma whole_open v n h : whole v h -> whole v (open n h).2.
Proof.
  intros (c & o & Hc & Ho & Hall). unfold open. destruct (JsMap.lookup n (names h)) eqn:E; [by exists c, o|].
  exists c, o. cbn [snd names heap]. rewrite JsMap.lookup_set_ne by congruence.
  split; [done|]. split; [by apply lookup_app_l_Some|done].
Qed.

Lemma whole_put v c p b h : whole v h -> whole v (put c p b h).
Proof.
  intros (d & o & Hd & Ho & Hall). unfold whole. cbn [put names heap]. destruct (decide (c = d)) as [<-|Hne].
  - eexists _, _. split; [done|]. rewrite list_lookup_alter_eq, Ho. cbn. split; [done|]. cbn [c_entries].
    intros q Hq. by apply has_set_mono, Hall.
  - eexists _, _. rewrite list_lookup_alter_ne by done. done.
Qed.

Lemma active_open n h : active (open n h).2 = active h.
Proof. unfold open. by destruct (JsMap.lookup n (names h)). Qed.

Lemma whole_step v o h :
  is_activation o = false -> whole v h -> whole v (step PINS o h) /\ active (step PINS o h) = active h.
Proof.
  intros Ho Hw. destruct o as [w|i res|i|w|p q|n es]; cbn [step]; [| | |done| |].
  - unfold new_worker. pose proof (whole_open v w h Hw). pose proof (active_open w h).
    by destruct (open w h) as [c h1].
  - unfold fetched. destruct (installing h !! i) as [[w c [|[p e] todo]]|]; try done.
    destruct res as [r|]; [|done]. destruct (negb (res_ok r)); [done|]. destruct (negb _); [done|].
    split; [|done]. by apply (whole_put v c p (res_body r)) in Hw.
  - unfold installed. by destruct (installing h !! i) as [[w c [|]]|].
  - unfold serve. destruct (active h) as [w|] eqn:Ha; [|done]. destruct (JsMap.has p (PINS w)); [|done].
    pose proof (whole_open v w h Hw). pose proof (active_open w h). destruct (open w h) as [c h1].
    cbn [snd] in *. destruct (JsMap.lookup _ _); cbn [snd]; rewrite <-Ha; done.
  - destruct (is_versioned n); [done|]. pose proof (whole_open v n h Hw) as Hw'. pose proof (active_open n h) as Ha.
    destruct (open n h) as [c h1]. cbn [snd] in *. rewrite <-Ha. clear Ha Hw Ho. revert h1 Hw'.
    induction es as [|[p b] es IH]; intros h1 Hw'; [done|]. apply (IH (put c p b h1)). by apply whole_put.
Qed.

Lemma whole_run v os h :
  Forall (fun o => is_activation o = false) os -> whole v h ->
  whole v (run PINS os h) /\ active (run PINS os h) = active h.
Proof.
  intros Hos. revert h. induction Hos as [|o os Ho _ IH]; intros h Hw; [done|].
  destruct (whole_step v o h Ho Hw) as [Hw' Ha']. destruct (IH _ Hw') as [Hw'' Ha''].
  split; [exact Hw''|]. by rewrite <-Ha'.
Qed.

Lemma app_empty (p : string) : p +:+ EmptyString = p.
Proof. induction p as [|c p IH]; [done|]. change (String c (p +:+ EmptyString) = String c p). by rewrite IH. Qed.

Lemma serve_whole v p h :
  active h = Some v -> whole v h -> p ∈ (PINS v).*1 -> exists b, (serve PINS p EmptyString h).1 = Cached b.
Proof.
  intros Ha (c & o & Hc & Ho & Hall) Hp. unfold serve. rewrite Ha.
  assert (Hh : JsMap.has p (PINS v) = true).
  { unfold JsMap.has. destruct (JsMap.lookup p (PINS v)) eqn:E; [done|]. by apply JsMap.lookup_None in E. }
  rewrite Hh. unfold open. rewrite Hc. unfold entries. rewrite Ho. rewrite app_empty.
  specialize (Hall p Hp). unfold JsMap.has in Hall. destruct (JsMap.lookup p (c_entries o)) as [b|]; [|done]. by exists b.
Qed.

Lemma fetches_run v c todo rs h :
  installing h = [MkInstall v c todo] -> Forall2 honest todo rs ->
  let h' := run PINS (fetches rs) h in
  installing h' = [MkInstall v c []] /\ names h' = names h /\ waiting h' = waiting h.
Proof.
  intros Hi Hrs. revert h Hi. induction Hrs as [|[p e] r todo rs [Hok Hh] _ IH]; intros h Hi; [done|].
  unfold fetches. cbn [fmap list_fmap]. cbn [run foldl]. set (h1 := step PINS _ h).
  assert (E : installing h1 = [MkInstall v c todo] /\ names h1 = names h /\ waiting h1 = waiting h).
  { unfold h1. cbn [step]. unfold fetched. rewrite Hi. cbn [lookup list_lookup]. rewrite Hok. cbn [negb].
    rewrite bool_decide_true by done. done. }
  destruct E as (E1 & <- & <-). by apply IH.
Qed.

Lemma host_run_app os os' h : run PINS (os ++ os') h = run PINS os' (run PINS os h).
Proof. apply foldl_app. Qed.

(** An install on its own leaves its version waiting and whole. *)
Lemma install_run v rs h :
  inv h -> installing h = [] -> Forall2 honest (PINS v) rs ->
  let h' := run PINS (install_steps v rs) h in v ∈ waiting h' /\ whole v h'.
Proof.
  intros Hinv Hi Hrs h'. set (h1 := step PINS (ONewWorker v) h).
  assert (E : installing h1 = [MkInstall v (open v h).1 (PINS v)] /\ JsMap.lookup v (names h1) = Some (open v h).1).
  { unfold h1. cbn [step]. unfold new_worker, open. destruct (JsMap.lookup v (names h)) eqn:El;
      cbn; rewrite Hi; [done|]. by rewrite JsMap.lookup_set_eq. }
  destruct E as [E1 E2]. destruct (fetches_run v _ _ rs h1 E1 Hrs) as (F1 & F2 & F3).
  pose proof (caches_run (fetches rs) h1 (caches_step _ _ Hinv)) as [_ _ Hins].
  assert (Eh : h' = installed 0 (run PINS (fetches rs) h1)).
  { unfold h', install_steps, run. cbn [foldl]. by rewrite foldl_app. }
  rewrite Eh. rewrite <-F2 in E2. clear Eh F2 F3. revert F1 E2 Hins. generalize (run PINS (fetches rs) h1).
  intros h2 F1 E2 Hins. unfold installed. rewrite F1. cbn. split; [set_solver|].
  destruct (Hins (MkInstall v (open v h).1 [])) as (o & got & Ho & _ & Hp & Hg); [rewrite F1; set_solver|].
  cbn [i_cache i_version i_todo] in *. rewrite app_nil_r in Hp. exists (open v h).1, o. cbn [names heap].
  split; [done|]. split; [done|]. by rewrite Hp.
Qed.

Lemma lookup_filter_self (v : string) (l : list (string * nat)) :
  JsMap.lookup v (List.filter (fun x => bool_decide (x.1 = v)) l) = JsMap.lookup v l.
Proof.
  induction l as [|[m d] l IH]; [done|]. cbn. destruct (decide (m = v)) as [->|Hne].
  - rewrite bool_decide_true by done. cbn. by rewrite !decide_True.
  - rewrite bool_decide_false by done. by rewrite IH, decide_False.
Qed.

Lemma activate_whole v h :
  v ∈ waiting h -> whole v h -> active (activate v h) = Some v /\ whole v (activate v h).
Proof.
  intros Hv (c & o & Hc & Ho & Hall). unfold activate. rewrite bool_decide_true by done. split; [done|].
  exists c, o. cbn [names heap]. by rewrite lookup_filter_self.
Qed.

(** An update swaps whole builds.  While a new build installs, after any number of its steps, the
    page gets every asset of the build that is active; once it is installed and activated, every
    asset of the new one; the page is never left without an asset in between. *)
Theorem updates_are_atomic os v w rs n :
  let h := run PINS os new_browser in
  active h = Some w -> whole w h -> installing h = [] -> Forall2 honest (PINS v) rs ->
  (let h1 := run PINS (take n (install_steps v rs)) h in
   active h1 = Some w /\ forall p, p ∈ (PINS w).*1 -> exists b, (serve PINS p EmptyString h1).1 = Cached b) /\
  (let h2 := run PINS (install_steps v rs ++ [OActivate v]) h in
   active h2 = Some v /\ forall p, p ∈ (PINS v).*1 -> exists b, (serve PINS p EmptyString h2).1 = Cached b).
Proof.
  intros h Ha Hw Hi Hrs. pose proof (caches_run os _ inv_new_browser) as Hinv. fold h in Hinv. split.
  - intros h1. destruct (whole_run w (take n (install_steps v rs)) h) as [Hw1 Ha1]; [|done|].
    { apply Forall_take. constructor; [done|]. apply Forall_app. split; [|by repeat constructor].
      apply Forall_fmap, Forall_true. by intros. }
    fold h1 in Hw1, Ha1. rewrite Ha in Ha1. split; [done|]. intros p. by apply serve_whole.
  - intros h2. destruct (install_run v rs h Hinv Hi Hrs) as [Hwait Hwhole].
    destruct (activate_whole v _ Hwait Hwhole) as [Ha2 Hw2].
    assert (Eh : h2 = activate v (run PINS (install_steps v rs) h)) by (unfold h2; by rewrite host_run_app).
    rewrite <-Eh in *. split; [done|]. intros p. by apply serve_whole.
Qed.

(** Two updates that overlap leave the page without a build.  When a second build begins to install
    while the first is about to activate, the activation deletes the second one's cache under its
    install; the install completes into the deleted cache, and once it is active every asset of it
    is answered with the 504, although the origin served each one as pinned. *)
Theorem overlapping_updates_break os v w rs :
  let h := run PINS os new_browser in
  v ∈ waiting h -> installing h = [] -> v <> w -> JsMap.lookup w (names h) = None -> Forall2 honest (PINS w) rs ->
  let h' := run PINS (ONewWorker w :: OActivate v :: fetches rs ++ [OInstalled 0; OActivate w]) h in
  active h' = Some w /\ forall p q, p ∈ (PINS w).*1 -> (serve PINS p q h').1 = NotInCache.
Proof.
  intros h Hv Hi Hne Hw Hrs h'. set (h1 := activate v (new_worker PINS w h)).
  assert (E : installing h1 = [MkInstall w (open w h).1 (PINS w)] /\ JsMap.lookup w (names h1) = None).
  { unfold h1, new_worker, open, activate. rewrite Hw. cbn. rewrite Hi, bool_decide_true by done. split; [done|].
    apply eq_None_not_Some. intros [c El]. by apply filter_names in El as [-> _]. }
  destruct E as [E1 E2]. destruct (fetches_run w _ _ rs h1 E1 Hrs) as (F1 & F2 & F3).
  assert (Eh : h' = activate w (installed 0 (run PINS (fetches rs) h1))).
  { unfold h', run. cbn [foldl]. by rewrite foldl_app. }
  rewrite Eh. rewrite <-F2 in E2. clear Eh F2 F3. revert F1 E2. generalize (run PINS (fetches rs) h1).
  intros h2 F1 E2. unfold installed. rewrite F1. cbn [lookup list_lookup]. unfold activate. cbn [waiting].
  rewrite bool_decide_true by set_solver. cbn [names]. split; [done|]. intros p q Hp. unfold serve. cbn [active].
  assert (Hh : JsMap.has p (PINS w) = true).
  { unfold JsMap.has. destruct (JsMap.lookup p (PINS w)) eqn:E; [done|]. by apply JsMap.lookup_None in E. }
  rewrite Hh. unfold open. cbn [names heap]. rewrite lookup_filter_self. rewrite E2. unfold entries. cbn [heap fst].
  by rewrite list_lookup_middle.
Qed.
End facts.
End ServiceWorkerFacts.

(** ** The page before it mounts *)
Module Boot.

Definition UPDATE_TARGET_KEY : string := "dd-update-target".
Definition FETCH_TIMEOUT_MS : Z := 3000.
Definition POLL_LIMIT_MS : Z := 10000.
Definition POLL_GAP_MS : Z := 300.

(** What the browser and the origin answer while one page starts.  [keys] is what [caches.keys()] gives
    first, [polls] what it gives at each turn of the poll, [None] when it throws; [build] is the answer
    for build.txt, its [ok] flag and its text, [None] when the fetch throws or is aborted after
    [FETCH_TIMEOUT_MS]; the three flags say whether session storage can be read, written and keeps
    what is written; [registration] is [None] when asking throws; [clock k] is the time of the [k]-th
    [Date.now()]. *)
Record Visit := MkVisit {
  has_worker : bool;
  keys : option (list string);
  build : option (bool * string);
  get_works : bool;
  set_works : bool;
  keeps : bool;
  registration : option bool;
  polls : nat -> option (list string);
  clock : nat -> Z }.

(** [latest], for a fetch that did not throw. *)
Definition latest_of (x : bool * string) : option string :=
  if x.1 then AppVersion.parseBuildVersion (Some x.2) else None.

(** [n.indexOf(latest) !== -1] *)
Fixpoint mentions (latest n : string) : bool :=
  String.prefix latest n || match n with String _ n => mentions latest n | EmptyString => false end.

(** The poll: the number of turns it took, [None] when the fuel did not suffice. *)
Fixpoint poll (fuel : nat) (v : Visit) (latest : string) (k : nat) : option nat :=
  match fuel with
  | O => None
  | S fuel =>
      match polls v k with
      | None => Some k
      | Some names =>
          if existsb (mentions latest) names || (clock v 0 + POLL_LIMIT_MS <? clock v (S k))%Z then Some k
          else poll fuel v latest (S k)
      end
  end.

Inductive verdict := Proceed | Reload | StillPolling.

#[export] Instance verdict_eq_dec : EqDecision verdict.
Proof. solve_decision. Defined.

(** The value of the latch after [setItem], and whether it was read back. *)
Definition set_latch (v : Visit) (latest : string) (latch : option string) : option string * bool :=
  if negb (set_works v) then (latch, false)
  else
    let latch := if keeps v then Some latest else latch in
    (latch, get_works v && bool_decide (latch = Some latest)).

Definition ensureLatestClient (fuel : nat) (v : Visit) (latch : option string) : verdict * option string :=
  if negb (has_worker v) then (Proceed, latch)
  else
    match keys v, build v with
    | None, _ | _, None => (Proceed, latch)
    | Some names, Some b =>
        let bootVersion := AppVersion.bootVersionFrom names in
        let latest := latest_of b in
        let tried := if get_works v then latch else None in
        if bool_decide (is_Some bootVersion) && bool_decide (bootVersion = latest) then
          (Proceed, if set_works v then None else latch)
        else if negb (AppVersion.shouldForceUpdate bootVersion latest tried) then (Proceed, latch)
        else
          match latest with
          | None => (Proceed, latch)
          | Some target =>
              let (latch, latched) := set_latch v target latch in
              if negb latched then (Proceed, latch)
              else
                match registration v with
                | None => (Proceed, latch)
                | Some false => (Reload, latch)
                | Some true =>
                    match poll fuel v target 0 with
                    | Some _ => (Reload, latch)
                    | None => (StillPolling, latch)
                    end
                end
          end
    end.

(** Where the version of the running page and the advertised one are known and equal. *)
Definition is_current (v : Visit) : bool :=
  has_worker v &&
  match keys v, build v with
  | Some names, Some b =>
      bool_decide (is_Some (AppVersion.bootVersionFrom names)) &&
      bool_decide (AppVersion.bootVersionFrom names = latest_of b)
  | _, _ => false
  end.

(** Starts of the page in one session: how many of them reload. *)
Fixpoint session (fuel : nat) (vs : list Visit) (latch : option string) : nat :=
  match vs with
  | [] => 0
  | v :: vs =>
      let (r, latch) := ensureLatestClient fuel v latch in
      (if bool_decide (r = Reload) then 1 else 0) + session fuel vs latch
  end.

(** *** The key derivation of the sign-in and the choice of a backend *)

(** [useStrongKdf]: in the worker when the controller offers it, else or when that fails on the page. *)
Definition strongKdf (offThread : option (result bytes)) (mainThread : result bytes) : result bytes :=
  match offThread with
  | Some (Ok k) => Ok k
  | Some (Throw _) | None => mainThread
  end.

(** [Promise.race] of a promise that settles at a time, or never, with the timeout. *)
Definition withTimeout {A} (p : option (Z * result A)) (ms : Z) : result A :=
  match p with
  | Some (t, r) => if (t <? ms)%Z then r else Throw (JsError "timeout")
  | None => Throw (JsError "timeout")
  end.

Definition PING_TIMEOUT_MS : Z := 8000.

Inductive backend := OwningWorker | MainThread | Demo.

(** [tryWorker]: [Ok false] when there are no workers. *)
Definition tryWorker (has_worker : bool) (loaded : result unit) (ping : option (Z * result unit)) : result bool :=
  if negb has_worker then Ok false
  else let? _ := loaded in let? _ := withTimeout ping PING_TIMEOUT_MS in Ok true.

(** What is mounted, and whether with the account server: [mounts] says whether mounting a backend
    throws, [mainThread] how the real controller on the page comes up. *)
Definition startup (fromWorker : result bool) (mainThread : result unit) (mounts : backend -> result unit) :
  list (backend * bool) * result unit :=
  let demo := ([(Demo, false)], mounts Demo) in
  let main :=
    match mainThread with
    | Throw _ => demo
    | Ok _ =>
        match mounts MainThread with
        | Ok _ => ([(MainThread, true)], Ok tt)
        | Throw _ => ((MainThread, true) :: demo.1, demo.2)
        end
    end in
  match fromWorker with
  | Ok true =>
      match mounts OwningWorker with
      | Ok _ => ([(OwningWorker, true)], Ok tt)
      | Throw _ => ((OwningWorker, true) :: main.1, main.2)
      end
  | _ => main
  end.
End Boot.

Module BootFacts.
Import Boot.

(** *** The deploy script and the readers of what it writes *)
Section deploy.
Context `{Sha256}.

Lemma bytesToHex_lower bs :
  bytes_ok bs -> forallb AppVersion.is_lower_hex (String.list_ascii_of_string (bytesToHex bs)) = true.
Proof.
  induction 1 as [|x bs Hx _ IH]; [done|]. cbn [bytesToHex]. rewrite list_ascii_app, forallb_app, IH, andb_true_r.
  apply (byte_check (fun x => forallb AppVersion.is_lower_hex (String.list_ascii_of_string (byte_hex x)))) in Hx;
    [done|by vm_compute].
Qed.

Hypothesis sha256_length : forall bs, length (sha256 bs) = 32%nat.
Hypothesis sha256_bytes : forall bs, bytes_ok (sha256 bs).

Lemma fullHash_lower pins :
  forallb AppVersion.is_lower_hex (String.list_ascii_of_string (Deploy.fullHash pins)) = true.
Proof. apply bytesToHex_lower, sha256_bytes. Qed.

Lemma version_is_ok pins : AppVersion.version_ok (Deploy.version pins).
Proof.
  unfold AppVersion.version_ok, Deploy.version. rewrite <-length_list_ascii, substring_take_drop, drop_0. split.
  - rewrite length_take, length_list_ascii. unfold Deploy.fullHash, Integrity.sha256Hex.
    rewrite length_bytesToHex, sha256_length. done.
  - apply forallb_forall. intros c Hc. pose proof (fullHash_lower pins) as Hl. rewrite forallb_forall in Hl.
    apply Hl. apply list_elem_of_In in Hc. apply list_elem_of_In. apply elem_of_take in Hc as (i & Hc & _). by apply list_elem_of_lookup_2 in Hc.
Qed.

(** A pattern that starts inside a text without the letter r starts in its last five characters. *)
Lemma exec_skip_r pre suf l :
  "r"%char ∉ pre ++ suf -> "d"%char ∉ suf -> (5 <= length suf)%nat ->
  AppVersion.exec (pre ++ suf ++ l) = AppVersion.exec l.
Proof.
  intros Hr Hd Hlen. induction pre as [|c pre IH]; [cbn [app]; by apply AppVersion.exec_skip|].
  cbn [app] in Hr |- *. cbn [AppVersion.exec].
  assert (E : AppVersion.match_here (c :: pre ++ suf ++ l) = None).
  { unfold AppVersion.match_here. rewrite bool_decide_false; [done|]. intros E.
    assert (Hc : (c :: pre ++ suf ++ l) !! 5%nat = Some "r"%char).
    { rewrite <-(lookup_take_lt _ 16) by lia. by rewrite E. }
    apply Hr. rewrite app_assoc in Hc. change (c :: (pre ++ suf) ++ l) with ((c :: pre ++ suf) ++ l) in Hc.
    rewrite lookup_app_l in Hc by (cbn; rewrite length_app; lia). by apply list_elem_of_lookup_2 in Hc. }
  rewrite E. apply IH. set_solver.
Qed.

Lemma digits_without_r (n : nat) : "r"%char ∉ String.list_ascii_of_string (pretty n).
Proof.
  unfold pretty, pretty_nat. generalize (N.of_nat n). clear n. intros x. unfold pretty, pretty_N.
  destruct (decide (x = 0%N)) as [_|_]; [by intros Hin%list_elem_of_singleton|].
  assert (Hgo : forall s, "r"%char ∉ String.list_ascii_of_string s ->
            "r"%char ∉ String.list_ascii_of_string (pretty_N_go x s)).
  2: { apply Hgo. apply not_elem_of_nil. }
  induction (N.lt_wf_0 x) as [x _ IH]. intros s Hs.
  destruct (decide (x = 0%N)) as [->|Hx]; [by rewrite pretty_N_go_0|].
  rewrite pretty_N_go_step by lia. apply IH; [apply N.div_lt; lia|].
  cbn [String.list_ascii_of_string]. apply not_elem_of_cons. split; [|done].
  unfold pretty_N_char. by repeat case_match.
Qed.

Lemma lower_hex_without_r l : forallb AppVersion.is_lower_hex l = true -> "r"%char ∉ l.
Proof.
  rewrite forallb_forall. intros Hl Hr. apply list_elem_of_In, Hl in Hr. by vm_compute in Hr.
Qed.

(** What the deploy script writes is what its readers read.  The version it bakes into the service
    worker and writes to build.txt is sixteen lowercase hexadecimal digits; the page reads exactly that
    version from build.txt, and from the name of the cache; and the name is one the service worker
    counts as versioned, so that no update of a deployed build reloads open pages. *)
Theorem deploy_is_readable pins :
  AppVersion.version_ok (Deploy.version pins) /\
  AppVersion.parseBuildVersion (Some (Deploy.build_txt pins)) = Some (Deploy.version pins) /\
  AppVersion.versionFromCacheName (Deploy.cache_name pins) = Some (Deploy.version pins) /\
  ServiceWorker.is_versioned (Deploy.cache_name pins) = true.
Proof.
  pose proof (version_is_ok pins) as Hv. split; [done|].
  destruct (AppVersion.version_reads (Deploy.version pins) nl Hv) as [Hread Hname].
  split; [|split; [exact Hname|]].
  - assert (E : Deploy.build_txt pins =
      ("DEAD DROP build" +:+ nl +:+ "assets: ") +:+ pretty (length pins) +:+ (nl +:+ "build-hash: ") +:+
      Deploy.fullHash pins +:+ nl +:+ "cache: " +:+ "deaddrop-pinned-" +:+ Deploy.version pins +:+ nl) by done.
    assert (E' : String.list_ascii_of_string (Deploy.build_txt pins) =
      (String.list_ascii_of_string ("DEAD DROP build" +:+ nl +:+ "assets: ") ++
       String.list_ascii_of_string (pretty (length pins)) ++
       String.list_ascii_of_string (nl +:+ "build-hash: ") ++
       String.list_ascii_of_string (Deploy.fullHash pins) ++ String.list_ascii_of_string nl) ++
      String.list_ascii_of_string "cache: " ++
      String.list_ascii_of_string "deaddrop-pinned-" ++
      String.list_ascii_of_string (Deploy.version pins) ++ String.list_ascii_of_string nl).
    { rewrite E, !list_ascii_app, <-!app_assoc. done. }
    unfold AppVersion.parseBuildVersion. rewrite E', exec_skip_r; [exact Hread| |by vm_compute; set_solver|cbn; lia].
    rewrite !elem_of_app. pose proof (digits_without_r (length pins)).
    pose proof (lower_hex_without_r _ (fullHash_lower pins)).
    intros Hin. destruct_or! Hin; try done;
      (vm_compute in Hin; repeat (apply elem_of_cons in Hin as [Hin|Hin]; [discriminate|]); by apply not_elem_of_nil in Hin).
  - destruct Hv as [Hl Hv]. unfold ServiceWorker.is_versioned, Deploy.cache_name. rewrite list_ascii_app.
    change (String.list_ascii_of_string "deaddrop-pinned-") with AppVersion.CACHE_PREFIX.
    rewrite (take_app_length' AppVersion.CACHE_PREFIX), (drop_app_length' AppVersion.CACHE_PREFIX) by done.
    rewrite length_app, length_list_ascii, Hl. rewrite !bool_decide_true by done. by rewrite Hv.
Qed.

Lemma pin_file_keeps pins f p h :
  JsMap.lookup p pins = Some h -> f.1 <> p -> JsMap.lookup p (Deploy.pin_file pins f) = Some h.
Proof.
  intros Hl Hne. unfold Deploy.pin_file. destruct (Deploy.skipped f.1); [done|].
  by rewrite JsMap.lookup_set_ne.
Qed.

Lemma pins_of_file webroot p b :
  Deploy.skipped p = false -> p <> "/" -> NoDup webroot.*1 -> (p, b) ∈ webroot ->
  JsMap.lookup p (Deploy.pins_of webroot) = Some (Integrity.sha256Hex b).
Proof.
  intros Hs Hp Hnd Hin.
  assert (Hk : forall l' pins, p ∉ l'.*1 ->
    JsMap.lookup p pins = Some (Integrity.sha256Hex b) ->
    JsMap.lookup p (foldl Deploy.pin_file pins l') = Some (Integrity.sha256Hex b)).
  { clear Hnd Hin. induction l' as [|g l' IH]; intros pins Hn Hl; [done|]. cbn [fmap list_fmap] in Hn.
    apply not_elem_of_cons in Hn as [Hg Hn]. cbn [foldl]. apply IH; [done|]. by apply pin_file_keeps. }
  assert (E : forall pins, JsMap.lookup p (foldl Deploy.pin_file pins webroot) = Some (Integrity.sha256Hex b)).
  { induction webroot as [|f l IH]; intros pins; [by apply not_elem_of_nil in Hin|].
    cbn [fmap list_fmap] in Hnd. apply NoDup_cons in Hnd as [Hf Hnd]. cbn [foldl].
    apply elem_of_cons in Hin as [<-|Hin]; [|by apply IH].
    cbn [fst] in Hf.
    apply Hk; [done|]. unfold Deploy.pin_file. cbn [fst snd]. rewrite Hs. by rewrite JsMap.lookup_set_eq. }
  unfold Deploy.pins_of. destruct (JsMap.lookup "/index.html" _); [|apply E].
  rewrite JsMap.lookup_set_ne by done. apply E.
Qed.

(** A second deploy over the same web root cannot be installed.  The script leaves build.txt in the
    web root and pins it when it runs there again, with the digest of the old text, and then overwrites
    it: an install that fetches the file it now serves is given up. *)
Theorem redeploy_cannot_install PINS webroot old (v : string) h i c todo :
  NoDup webroot.*1 -> ("/build.txt", old) ∈ webroot ->
  Integrity.sha256Hex (text_encode (Deploy.build_txt (Deploy.pins_of webroot))) <>
    toLowerCase (Integrity.sha256Hex old) ->
  exists new,
    JsMap.lookup "/build.txt" (Deploy.deployed webroot) = Some new /\
    JsMap.lookup "/build.txt" (Deploy.pins_of webroot) = Some (Integrity.sha256Hex old) /\
    (ServiceWorker.installing h !! i =
       Some (ServiceWorker.MkInstall v c (("/build.txt", Integrity.sha256Hex old) :: todo)) ->
     ServiceWorker.step PINS (ServiceWorker.OFetched i (Some (ServiceWorker.MkResponse true new))) h =
     ServiceWorker.with_installing (delete i (ServiceWorker.installing h)) h).
Proof.
  intros Hnd Hin Hne. exists (text_encode (Deploy.build_txt (Deploy.pins_of webroot))). split; [|split].
  - unfold Deploy.deployed. by rewrite JsMap.lookup_set_eq.
  - by apply pins_of_file.
  - intros Hi. cbn [ServiceWorker.step]. unfold ServiceWorker.fetched. rewrite Hi.
    cbn [ServiceWorker.res_ok ServiceWorker.res_body negb]. by rewrite bool_decide_false.
Qed.
End deploy.

(** *** Forced reloads *)

Lemma existsb_mentions latest pre : mentions latest (pre +:+ latest) = true.
Proof.
  induction pre as [|c pre IH].
  - change (EmptyString +:+ latest) with latest. destruct latest as [|c l]; [done|].
    cbn [mentions]. apply orb_true_intro. left. induction (String c l) as [|d s IH]; [done|].
    cbn. by destruct (Ascii.ascii_dec d d).
  - change (String c pre +:+ latest) with (String c (pre +:+ latest)). cbn [mentions]. rewrite IH.
    apply orb_true_r.
Qed.

(** The poll ends.  With the clock of a browser, whose turns are at least 300 ms apart, the wait for
    the new build takes at most thirty-five turns whatever the caches hold, so that a start of the
    page always comes to a verdict. *)
Theorem update_wait_ends v latch :
  clock v 0 <= clock v 1 -> (forall k, clock v (S k) + POLL_GAP_MS <= clock v (S (S k))) ->
  (ensureLatestClient 35 v latch).1 <> StillPolling.
Proof.
  intros H0 Hk.
  assert (Hclock : forall k, clock v 0 + POLL_GAP_MS * Z.of_nat k <= clock v (S k)).
  { induction k as [|k IH]; [lia|]. specialize (Hk k). lia. }
  assert (Hpoll : forall latest fuel k, (34 < k + fuel)%nat -> (0 < fuel)%nat -> is_Some (poll fuel v latest k)).
  { intros latest. induction fuel as [|fuel IH]; intros k Hlt Hpos; [lia|]. cbn [poll].
    destruct (polls v k) as [names|]; [|by eexists].
    destruct (_ || _) eqn:E; [by eexists|]. apply orb_false_iff in E as [_ E].
    apply Z.ltb_ge in E. specialize (Hclock k). unfold POLL_LIMIT_MS, POLL_GAP_MS in *. apply IH; lia. }
  unfold ensureLatestClient. destruct (negb (has_worker v)); [done|].
  destruct (keys v) as [names|], (build v) as [b|]; try done.
  destruct (bool_decide _ && _); [done|]. destruct (negb _); [done|]. destruct (latest_of b) as [target|]; [|done].
  destruct (set_latch v target latch) as [latch' latched]. destruct latched; [|done]. cbn [negb].
  destruct (registration v) as [[]|]; try done.
  by destruct (Hpoll target 35%nat 0%nat) as [k ->]; [lia|lia|].
Qed.

(** What one start does to the latch: a reload was for a build that is not the running one, not yet
    tried, and is now latched; without a reload a latch stays, or the page was current. *)
Lemma visit_cases fuel v latch :
  let (r, latch') := ensureLatestClient fuel v latch in
  (r = Reload -> exists target b, build v = Some b /\ latest_of b = Some target /\ latch' = Some target /\
     latch <> Some target) /\
  (is_current v = false -> latch' = latch \/ exists b, build v = Some b /\ latch' = latest_of b /\ is_Some (latest_of b)) /\
  (is_current v = true -> r = Proceed).
Proof.
  unfold ensureLatestClient, is_current. destruct (has_worker v); cbn [negb andb]; [|naive_solver].
  destruct (keys v) as [names|], (build v) as [b|]; try naive_solver.
  destruct (bool_decide _ && _) eqn:Hcur; [naive_solver|].
  destruct (AppVersion.shouldForceUpdate _ _ _) eqn:Hf; cbn [negb]; [|naive_solver].
  unfold AppVersion.shouldForceUpdate in Hf.
  destruct (AppVersion.bootVersionFrom names) as [bv|]; [|done].
  destruct (latest_of b) as [target|] eqn:Ht; [|done].
  destruct (bool_decide (bv = target)); [done|]. apply negb_true_iff, bool_decide_eq_false in Hf.
  unfold set_latch. destruct (set_works v); cbn [negb]; [|naive_solver].
  destruct (get_works v); [|destruct (keeps v); naive_solver]. cbn [andb].
  destruct (keeps v).
  - rewrite bool_decide_true by done. cbn [negb].
    destruct (registration v) as [[]|]; [destruct (poll fuel v target 0)| |]; naive_solver.
  - rewrite bool_decide_false by done. naive_solver.
Qed.

Definition currents (vs : list Visit) : nat := length (List.filter is_current vs).

(** A forced update never loops.  However often the page starts in a session while the origin
    advertises one build, whatever storage, caches and registration do, it is reloaded at most once,
    and once more for each start at which it already ran the advertised build; not at all when that
    build was tried before. *)
Theorem reloads_are_bounded fuel target vs latch :
  (forall v b, v ∈ vs -> build v = Some b -> latest_of b = None \/ latest_of b = Some target) ->
  (session fuel vs latch <= (if decide (latch = Some target) then 0 else 1) + currents vs)%nat.
Proof.
  revert latch. induction vs as [|v vs IH]; intros latch Hvs; [cbn; lia|]. cbn [session].
  pose proof (visit_cases fuel v latch) as Hv. destruct (ensureLatestClient fuel v latch) as [r latch'].
  destruct Hv as (Hre & Hno & Hcur).
  assert (IH' := IH latch' (fun w b Hw => Hvs w b (list_elem_of_further _ _ _ Hw))).
  assert (Hb := fun b => Hvs v b (list_elem_of_here _ _)). unfold currents in *. cbn [List.filter].
  destruct (is_current v) eqn:Hc; cbn [length].
  - rewrite (Hcur eq_refl), bool_decide_false by done. repeat case_decide; lia.
  - destruct (decide (r = Reload)) as [->|Hr].
    + destruct (Hre eq_refl) as (t & b & E1 & E2 & -> & E3). rewrite bool_decide_true by done.
      destruct (Hb b E1) as [E|E]; rewrite E2 in E; [done|]. injection E as ->.
      rewrite decide_True in IH' by done. rewrite decide_False by done. lia.
    + rewrite bool_decide_false by done. destruct (Hno eq_refl) as [->|(b & E1 & -> & E2)]; [lia|].
      destruct (Hb b E1) as [E|E]; rewrite E in *; [by destruct E2|].
      rewrite decide_True in IH' by done. lia.
Qed.

(** A start where every service of the browser works. *)
Definition ordinary (names : list string) (b : bool * string) (ps : nat -> option (list string))
    (ticks : nat -> Z) : Visit :=
  MkVisit true (Some names) (Some b) true true true (Some true) ps ticks.

(** A build text that names a version. *)
Definition advertises (b : bool * string) (v : string) : Prop := latest_of b = Some v.

(** The forced reload can be spent on the old build.  The new build's cache has its name before any
    asset is in it; a poll that sees the name reloads the page, which the old worker still serves, and
    the next start finds the target already tried and stays. *)
Theorem reload_can_land_on_the_old_build `{Sha256} PINS h c ov nv fuel b ps ticks ticks2 :
  let old := "deaddrop-pinned-" +:+ ov in
  let new := "deaddrop-pinned-" +:+ nv in
  let h1 := ServiceWorker.new_worker PINS new h in
  AppVersion.version_ok ov -> AppVersion.version_ok nv -> ov <> nv -> advertises b nv ->
  ServiceWorker.names h = [(old, c)] -> ServiceWorker.active h = Some old ->
  let v1 := ordinary (ServiceWorker.names h).*1 b (fun _ => Some (ServiceWorker.names h1).*1) ticks in
  let v2 := ordinary (ServiceWorker.names h1).*1 b ps ticks2 in
  ensureLatestClient (S fuel) v1 None = (Reload, Some nv) /\
  ServiceWorker.active h1 = Some old /\
  (exists c', JsMap.lookup new (ServiceWorker.names h1) = Some c' /\ ServiceWorker.entries c' h1 = []) /\
  ensureLatestClient (S fuel) v2 (Some nv) = (Proceed, Some nv).
Proof.
  intros old new h1 Ho Hn Hne Hb Hnames Hact v1 v2.
  destruct (AppVersion.version_reads ov EmptyString Ho) as [_ Ro].
  assert (Hon : new <> old).
  { unfold new, old. intros E. destruct (AppVersion.version_reads nv EmptyString Hn) as [_ Rn]. congruence. }
  assert (E1 : ServiceWorker.names h1 = [(old, c); (new, length (ServiceWorker.heap h))]).
  { unfold h1, ServiceWorker.new_worker, ServiceWorker.open. rewrite Hnames. cbn [JsMap.lookup].
    rewrite decide_False by done. cbn [ServiceWorker.with_installing ServiceWorker.names JsMap.set].
    by rewrite decide_False. }
  assert (Ebv : forall l, AppVersion.bootVersionFrom (old :: l) = Some ov).
  { intros l. cbn [AppVersion.bootVersionFrom]. unfold old. by rewrite Ro. }
  assert (Hu : forall l ks cl latch, ensureLatestClient (S fuel) (ordinary (old :: l) b ks cl) latch =
      if bool_decide (latch = Some nv) then (Proceed, latch)
      else match poll (S fuel) (ordinary (old :: l) b ks cl) nv 0 with
           | Some _ => (Reload, Some nv) | None => (StillPolling, Some nv) end).
  { intros l ks cl latch. unfold ensureLatestClient, ordinary.
    cbn [has_worker keys build get_works set_works keeps registration negb]. rewrite Ebv, Hb.
    rewrite (bool_decide_false (Some ov = Some nv)) by congruence. rewrite andb_false_r.
    cbn [AppVersion.shouldForceUpdate]. rewrite (bool_decide_false (ov = nv)) by done.
    destruct (bool_decide (latch = Some nv)); cbn [negb]; [done|].
    unfold set_latch. cbn [set_works keeps get_works negb]. by rewrite bool_decide_true. }
  split; [|split; [|split]].
  - unfold v1. rewrite Hnames. cbn [fmap list_fmap fst]. rewrite Hu, bool_decide_false by done.
    unfold ordinary. cbn [poll polls].
    rewrite E1. cbn [fmap list_fmap fst existsb]. unfold new. by rewrite existsb_mentions, orb_true_r.
  - unfold h1, ServiceWorker.new_worker. rewrite <-Hact.
    pose proof (ServiceWorkerFacts.active_open new h). by destruct (ServiceWorker.open new h).
  - exists (length (ServiceWorker.heap h)). rewrite E1. cbn [JsMap.lookup]. rewrite decide_False by done.
    rewrite decide_True by done. split; [done|]. unfold h1, ServiceWorker.new_worker, ServiceWorker.open.
    rewrite Hnames. cbn [JsMap.lookup]. rewrite decide_False by done. unfold ServiceWorker.entries.
    cbn [ServiceWorker.with_installing ServiceWorker.heap]. by rewrite list_lookup_middle.
  - unfold v2. rewrite E1. cbn [fmap list_fmap fst]. by rewrite Hu, bool_decide_true.
Qed.

(** The order of the backends: the worker when it answers in time, else the page, else the demo, which
    never has the account server; the page ends mounted when the demo mounts. *)
Lemma startup_order fromWorker mainThread mounts :
  mounts Demo = Ok tt ->
  (startup fromWorker mainThread mounts).2 = Ok tt /\
  (Demo, true) ∉ (startup fromWorker mainThread mounts).1 /\
  (fromWorker = Ok true -> head (startup fromWorker mainThread mounts).1 = Some (OwningWorker, true)) /\
  (fromWorker <> Ok true -> forall b, (OwningWorker, b) ∉ (startup fromWorker mainThread mounts).1).
Proof.
  intros Hd. unfold startup. rewrite Hd.
  destruct fromWorker as [[]|e]; destruct mainThread; destruct (mounts OwningWorker) as [[]|];
    destruct (mounts MainThread) as [[]|]; cbn; repeat split; try done; intros; intros Hin;
    repeat (apply elem_of_cons in Hin as [Hin|Hin]; [discriminate|]); by apply not_elem_of_nil in Hin.
Qed.
End BootFacts.

(** ** Concrete runs *)
Module BootToy.
Import ServiceWorker Boot.

(** A digest of 32 bytes: the content, cut or padded with zeros. *)
#[local] Instance toy_sha : Sha256 := fun bs => take 32 (((fun x => x mod 256) <$> bs) ++ replicate 32 0).

Lemma toy_sha_length bs : length (toy_sha bs) = 32%nat.
Proof. unfold toy_sha. rewrite length_take, length_app, length_replicate. lia. Qed.

Lemma toy_sha_bytes bs : bytes_ok (toy_sha bs).
Proof.
  unfold toy_sha. apply Forall_take, Forall_app. split.
  - apply Forall_fmap, Forall_true. intros x. unfold byte_ok. cbn. pose proof (Z.mod_pos_bound x 256). lia.
  - by apply Forall_replicate.
Qed.

Definition v1 : string := "0123456789abcde1".
Definition v2 : string := "0123456789abcde2".
Definition old : string := "deaddrop-pinned-" +:+ v1.
Definition new : string := "deaddrop-pinned-" +:+ v2.
Definition page (v : string) : bytes := if bool_decide (v = old) then [1; 1] else [2; 2].
Definition app : bytes := [7; 8; 9].
Definition pins (v : string) : list (string * string) :=
  [("/", Integrity.sha256Hex (page v)); ("/app.js", Integrity.sha256Hex app)].
Definition answers (v : string) : list response := [MkResponse true (page v); MkResponse true app].
Definition up (v : string) : list op := ServiceWorkerFacts.install_steps v (answers v) ++ [OActivate v].

Lemma answers_honest v : Forall2 ServiceWorkerFacts.honest (pins v) (answers v).
Proof. unfold pins, answers, page. destruct (bool_decide (v = old)); repeat constructor. Qed.

Lemma served_is_pinned_witness :
  (serve pins "/" EmptyString (run pins (up old) new_browser)).1 = Cached [1; 1] /\
  exists e, ("/", e) ∈ pins old /\ Integrity.sha256Hex [1; 1] = toLowerCase e.
Proof.
  split; [by vm_compute|].
  refine (ServiceWorkerFacts.served_is_pinned pins (up old) old "/" EmptyString [1; 1] _ _ _); by vm_compute.
Defined.

Lemma old_is_whole : ServiceWorkerFacts.whole pins old (run pins (up old) new_browser).
Proof.
  exists 0%nat. eexists. split; [by vm_compute|]. split; [by vm_compute|].
  intros p Hp. repeat (apply elem_of_cons in Hp as [->|Hp]; [by vm_compute|]). by apply not_elem_of_nil in Hp.
Qed.

Lemma updates_are_atomic_witness :
  active (run pins (ServiceWorkerFacts.install_steps new (answers new) ++ [OActivate new])
            (run pins (up old) new_browser)) = Some new.
Proof.
  refine (proj1 (proj2 (ServiceWorkerFacts.updates_are_atomic pins (up old) new old (answers new) 2 _ _ _ _))).
  - by vm_compute.
  - apply old_is_whole.
  - by vm_compute.
  - apply answers_honest.
Defined.

Lemma overlapping_updates_break_witness :
  (serve pins "/" EmptyString
     (run pins (ONewWorker new :: OActivate old :: ServiceWorkerFacts.fetches (answers new) ++
                [OInstalled 0; OActivate new])
        (run pins (ServiceWorkerFacts.install_steps old (answers old)) new_browser))).1 = NotInCache.
Proof.
  refine (proj2 (ServiceWorkerFacts.overlapping_updates_break pins
    (ServiceWorkerFacts.install_steps old (answers old)) old new (answers new) _ _ _ _ _) "/" EmptyString _).
  - apply (bool_decide_unpack _). by vm_compute.
  - by vm_compute.
  - by vm_compute.
  - by vm_compute.
  - apply answers_honest.
  - apply (bool_decide_unpack _). by vm_compute.
Defined.

Lemma deploy_is_readable_witness :
  AppVersion.parseBuildVersion (Some (Deploy.build_txt (pins old))) = Some (Deploy.version (pins old)).
Proof. refine (proj1 (proj2 (BootFacts.deploy_is_readable toy_sha_length toy_sha_bytes (pins old)))). Defined.

(** The text of an earlier build, left in the web root. *)
Definition webroot : list (string * bytes) := [("/index.html", [5]); ("/build.txt", [6])].

Lemma redeploy_cannot_install_witness :
  JsMap.lookup "/build.txt" (Deploy.pins_of webroot) = Some (Integrity.sha256Hex [6]).
Proof.
  destruct (BootFacts.redeploy_cannot_install pins webroot [6] old new_browser 0 0 []) as (n & _ & Hp & _).
  - apply (bool_decide_unpack _). by vm_compute.
  - apply (bool_decide_unpack _). by vm_compute.
  - by vm_compute.
  - exact Hp.
Defined.

Definition build_of (v : string) : bool * string := (true, "cache: deaddrop-pinned-" +:+ v +:+ nl).
Definition ticks (k : nat) : Z := 400 * Z.of_nat k.
Definition stuck : Visit := BootFacts.ordinary [old] (build_of v2) (fun _ => Some [old]) ticks.

(** A deploy whose service worker never comes: the page waits, reloads once, and then stays. *)
Lemma update_wait_ends_witness : (ensureLatestClient 35 stuck None).1 <> StillPolling.
Proof.
  refine (BootFacts.update_wait_ends stuck None _ _).
  - vm_compute. discriminate.
  - intros k. unfold stuck, BootFacts.ordinary, ticks, POLL_GAP_MS. cbn [clock]. lia.
Defined.

Lemma reloads_are_bounded_witness : (session 35 [stuck; stuck; stuck] None <= 1)%nat.
Proof.
  refine (BootFacts.reloads_are_bounded 35 v2 [stuck; stuck; stuck] None _).
  intros v b Hv. repeat (apply elem_of_cons in Hv as [->|Hv]; [intros [= <-]; right; by vm_compute|]).
  by apply not_elem_of_nil in Hv.
Defined.

Lemma reload_can_land_on_the_old_build_witness :
  let h := run pins (up old) new_browser in
  active (new_worker pins new h) = Some old /\
  ensureLatestClient 1 (BootFacts.ordinary (names h).*1 (build_of v2)
    (fun _ => Some (names (new_worker pins new h)).*1) ticks) None = (Reload, Some v2).
Proof.
  intros h.
  destruct (BootFacts.reload_can_land_on_the_old_build pins h 0 v1 v2 0 (build_of v2) (fun _ => None) ticks ticks)
    as (H1 & H2 & _).
  - by vm_compute.
  - by vm_compute.
  - by vm_compute.
  - by vm_compute.
  - by vm_compute.
  - by vm_compute.
  - split; [exact H2|exact H1].
Defined.
End BootToy.
